(* ===== verification/_CoqProject ===== *)
-Q . S2P
Prelude.v
Crc.v
Sxvm.v
SxvmDomain.v
SxvmShape.v
SxvmSound.v
SxvmCorrect.v
Sha256.v
Node.v
ArkIndex.v
ArkLog.v
ArkDisk.v
ArkFs.v
ArkReplay.v
ArkCrash.v
ArkPower.v
ArkOps.v
ArkFormat.v
ArkRead.v
ArkFaults.v
ArkMerkle.v
Lookup.v
LookupFacts.v
LookupCache.v
Placement.v
Raft.v
RaftNode.v
RaftCluster.v
Nodemap.v
Swim.v
SwimWide.v
SwimNode.v
Semilattice.v
SwimFacts.v
SwimRun.v
SwimDetect.v
Region.v
Durable.v
FlatDisk.v
PfsBlock.v
PfsFacts.v
Step.v
Wire.v
PfsRepl.v
PfsReplFacts.v
PfsDag.v
PfsDagFacts.v
PfsDagStore.v
PfsDagVersions.v
Pmesh.v
PmeshFacts.v
Topics.v
TopicsFacts.v
Replica.v
ReplicaFacts.v
TopicsMerge.v
TopicsRun.v
TcpFrame.v
Relay.v
RelayAuth.v
RelayRoute.v
Guard.v
GuardFacts.v
Sha512.v
Fe25519.v
Ed25519.v
EdCurve.v
Scalar25519.v
EdSign.v
Sign.v
Law.v
LawFacts.v
Stop.v
StopFacts.v
