(* ===== verification/Prelude.v ===== *)
(** * p-kernel: a verification development

    p-kernel is a kernel whose nodes form a cluster without a central node. This
    library models the cluster's own services, the C files of src/arch/common,
    the hosted disk backend src/arch/linux/pfs_durable.c and the packet relay
    src/relay, each as executable functions on an explicit state, and proves what
    the services promise. The build modelled is the hosted one
    (_TK_HOSTED_LIBC_), with the test switches and falsifiers of the sources off.

    ** The parts and how they interact

    - A node has an id and a row in every per-node table (Node.v). The
      membership service (Swim*.v) keeps the table of peers by gossip and
      probing; region.c (Region.v) computes from it who is near and which node
      has which role. Lookup.v ranks the members of a view for a key, so that
      every node knows where a thing is without a directory; Placement.v places
      experts with it. Raft*.v elects a leader and replicates a short log over
      the same view.
    - Blocks are named by SHA-256 (Sha256.v). Ark*.v is the log-structured file
      system of a node's disk; PfsBlock.v is the table of blocks in memory, a
      cache over a durable store, either ARK or a directory of files
      (Durable.v, FlatDisk.v). Replication (PfsRepl.v) moves blocks
      between the tables of different nodes; names (PfsDag.v) refer to chains of
      manifests, which are blocks, and travel in beacons.
    - Programs that arrive from elsewhere run on the small checked runtime
      (Sxvm*.v).
    - Nodes that cannot reach each other directly send through the relay
      (Relay*.v), over UDP or framed on TCP streams (TcpFrame.v), with HMAC
      (Sha256.v) and nonces.
    - Services send to node ids, not to addresses: the mesh (Pmesh*.v) goes
      straight to a node that is alive and over other nodes otherwise.
    - Programs of a node talk through topics (Topics*.v): the last value under a
      name, published to the nodes in scope; replication (Replica*.v) carries the
      whole table to the nodes that missed something. The beacons of the named
      objects travel on topics.
    - What a node may do is bounded: a kernel guard isolates tasks that fault
      (Guard*.v); updates and stops are signed (Sha512.v, Ed25519*.v, Sign.v,
      Stop*.v); what is judged is judged by a floor of rules that is itself a
      named object (Law*.v), whose identity the update gates compare.

    ** Files

    - This file: machine integers as [Z] with the wrap-around written out
      ([u8], [u16], [u32]), arrays as functions with [upd], lists indexed by
      [Z], little- and big-endian bytes, counted loops with their invariant
      rule, search and count in a table, and the tactics [dif], [ifs],
      [split_ifs], [bools], [mach].
    - Sxvm.v: sxvm.c. [sxvm_check] is the checker in its two passes, [sxvm_run]
      the interpreter. SxvmDomain.v: its ranges as an abstract domain;
      SxvmShape.v: what the first pass establishes; SxvmSound.v and
      SxvmCorrect.v: an accepted program never traps and ends within the bound
      the checker returned; any program stays inside its memory and stops.
    - Sha256.v: relay/sha256.c, against FIPS 180-4 and RFC 2104.
    - Node.v: pk_node.h, pk_node_row.h and the row table of drpc.c.
    - ArkIndex.v, ArkLog.v, ArkFs.v, ArkMerkle.v: arkfs.c, from the block index
      to files, versions and directories. ArkDisk.v, ArkReplay.v, ArkCrash.v,
      ArkOps.v, ArkFormat.v, ArkRead.v: what stands on the medium, replay,
      atomicity of every operation under failing writes, format and mount, what
      is read back. ArkFaults.v: where the code departs from its comments.
    - Lookup.v, LookupFacts.v, LookupCache.v: lookup.c; the ranking is a sort by
      a total order, the cache only reorders. Placement.v: placement.c.
    - Raft.v, RaftNode.v, RaftCluster.v: raft.c; one node, and a cluster over a
      network that delays, reorders and loses packets.
    - Nodemap.v: nodemap.h. Swim.v, SwimWide.v, SwimNode.v: swim.c; the handlers
      are steps that return a state and what they did to the outside.
      Semilattice.v, SwimFacts.v: rumours merge by a join, so gossip converges.
      SwimRun.v: the invariant of every run. SwimDetect.v: silent peers are
      detected in bounded time, refutations win. Region.v: region.c; nodes with
      the same members agree on the roles.
    - Durable.v: the interface of the durable store as a class with its laws.
      FlatDisk.v: pfs_durable.c as actions on a directory with a crash model; it
      discharges the interface. PfsBlock.v, PfsFacts.v: pfs_block.c; reads are
      authentic and nothing stored is lost, for any store that keeps the laws.
    - Step.v: the monad of a module's functions (a value, the state after, the
      calls made) with its invariant rules; Wire.v: packets as byte lists.
      PfsRepl.v, PfsReplFacts.v: pfs_repl.c; blocks cross the network in chunks
      into a bounded buffer, and a missing block is chased a bounded time.
      PfsDag.v: pfs_dag.c, names and versions; PfsDagFacts.v: references
      converge, PfsDagStore.v: the reference table on disk, PfsDagVersions.v:
      no version is lost by a save.
    - Pmesh.v, PmeshFacts.v: pmesh.c; while no route expires a frame arrives
      within the cost of its route, rounds of beacons give shortest paths, and no
      packet breaks the table. The examples show routes that never expire and
      frames that go round for ever.
    - Topics.v, TopicsFacts.v, TopicsRun.v: kdds.c; handles never dangle, a
      subscriber reads the latest value, a publication is what the others read, a
      dead task's handles are swept. Replica.v, ReplicaFacts.v: replica.c; a
      snapshot in any order brings the newer values across, two nodes that
      exchange theirs agree. Both end with examples of what the code lets
      through.
    - Crc.v: the CRC-32 of the block log and the state files, and that it finds
      single wrong bytes. Guard.v, GuardFacts.v: guard.c; faults stay within one
      entry, respawns back off.
    - Sha512.v, Fe25519.v, Ed25519.v, EdCurve.v, Scalar25519.v, EdSign.v:
      ed25519.c, its hash, its field of sixteen limbs, the curve and the scalars;
      signing and verifying are RFC 8032's over integers modulo the prime. That
      signatures cannot be forged is not a theorem; it is not assumed either.
    - Sign.v: sign.c, compat_ota.c and gen_succession.h; an update passes six
      gates. Stop.v, StopFacts.v: swarm_stop.c; only a signed newer command moves
      the stop, it floods, it survives a reboot, and a damaged file stops.
    - Law.v, LawFacts.v: conscience.c; the floor in force contains the genesis,
      amendments add to it.
    - TcpFrame.v: tcp_frame.h. Relay.v, RelayAuth.v, RelayRoute.v: relay.c;
      authentication, nonces, routes, leases, the delay queue and streams.

    ** Conventions

    A structure is a [Record], a handler a function from the state to the state,
    its result code and what it sends or calls, in order. What the operating
    system answers is an argument, usually a list of answers that stands for
    success when it is used up; the clock is an argument. Callbacks and the
    stretches of a task between two waits are atomic steps. Loops over tables
    are structural or [for_up] with the bound of the source. Fuel appears where
    a loop has a bound in the source (64 probes, 1024 instructions times the
    repetition limit, the bytes left to write), and a theorem states that it is
    enough: [sxvm_run] always returns, the write and read loops use at most one
    unit of fuel per byte.

    ** Not modelled

    Console output, self-tests that work on live tables, and the reading of the
    environment other than its decoded values. The vendored micro T-Kernel
    (src/kernel), drivers, ports and boot code: third-party or hardware. The
    learning and inference code (r3_incontext.c, moe.c, dtr.c, llm/): floating
    point with trained weights, without a contract beyond measured accuracy.
    Left out although it is the cluster's own code: tunnels and remote calls
    (supernode.c, drpc.c beyond its row table); a service that sends takes the
    mesh's answer, sent or not, as an argument. The scheduler, the health
    levels and the healing tasks (edf.c, degrade.c, heal.c), which steer the
    kernel's tasks and timers; compaction of the log and the mount behind the
    block table (ark_compact, pfs_ark.c), so the theorems on the log are about a
    medium that is not compacted meanwhile. *)

From stdpp Require Export base list numbers option.
From Stdlib Require Export ZArith Lia.

#[global] Open Scope Z_scope.

(** ** Machine integers

    An unsigned C integer of width [w] is a [Z] in [[0, 2^w)]; arithmetic is
    done in [Z] and wrapped back with [u8], [u16], [u32] or [u64] where the C
    expression wraps. *)

Definition u8 (x : Z) : Z := x mod 2 ^ 8.
Definition u16 (x : Z) : Z := x mod 2 ^ 16.
Definition u32 (x : Z) : Z := x mod 2 ^ 32.
Definition u64 (x : Z) : Z := x mod 2 ^ 64.

(** [u32] as a mask, which evaluates faster in the inner loops. *)
Definition w32 (x : Z) : Z := Z.land x 0xFFFFFFFF.

(** The conversion of an unsigned 32-bit value to a C [int]. *)
Definition i32 (x : Z) : Z := (x + 2 ^ 31) mod 2 ^ 32 - 2 ^ 31.

Definition FULL : Z := 0xFFFFFFFF.

Definition is_u8 (x : Z) : Prop := 0 <= x < 2 ^ 8.
Definition is_u32 (x : Z) : Prop := 0 <= x < 2 ^ 32.

#[global] Instance is_u8_dec x : Decision (is_u8 x).
Proof. unfold is_u8; apply _. Defined.
#[global] Instance is_u32_dec x : Decision (is_u32 x).
Proof. unfold is_u32; apply _. Defined.

Create HintDb machine.
Create Rewrite HintDb machine.

Lemma u8_range x : is_u8 (u8 x).
Proof. unfold is_u8, u8. apply Z.mod_pos_bound; lia. Qed.
Lemma u32_range x : is_u32 (u32 x).
Proof. unfold is_u32, u32. apply Z.mod_pos_bound; lia. Qed.
Lemma w32_u32 x : w32 x = u32 x.
Proof. unfold w32, u32. change 0xFFFFFFFF with (Z.ones 32). apply Z.land_ones. lia. Qed.
Lemma w32_range x : is_u32 (w32 x).
Proof. rewrite w32_u32. apply u32_range. Qed.
Lemma u8_small x : is_u8 x -> u8 x = x.
Proof. apply Z.mod_small. Qed.
Lemma u32_small x : is_u32 x -> u32 x = x.
Proof. apply Z.mod_small. Qed.
Lemma u64_small x : 0 <= x < 2 ^ 64 -> u64 x = x.
Proof. apply Z.mod_small. Qed.

#[export] Hint Resolve u8_range u32_range w32_range : machine.
#[export] Hint Rewrite u8_small u32_small u64_small using (unfold is_u8, is_u32 in *; lia) : machine.

(** Bitwise operations stay at 32 bits. *)
Lemma is_u32_bits x : is_u32 x <-> Z.land x (Z.ones 32) = x.
Proof.
  rewrite Z.land_ones by lia. unfold is_u32. split; [apply Z.mod_small|].
  intros <-. apply Z.mod_pos_bound. lia.
Qed.
Lemma land_u32 a b : is_u32 a -> is_u32 (Z.land a b).
Proof. rewrite !is_u32_bits. intros Ha. by rewrite <- Ha at 2; rewrite <- !Z.land_assoc, (Z.land_comm b). Qed.
Lemma lxor_u32 a b : is_u32 a -> is_u32 b -> is_u32 (Z.lxor a b).
Proof.
  rewrite !is_u32_bits. intros Ha Hb. rewrite <- Ha, <- Hb at 2. apply Z.bits_inj'. intros n Hn.
  rewrite !Z.land_spec, !Z.lxor_spec, !Z.land_spec. by destruct (Z.testbit (Z.ones 32) n), (Z.testbit a n), (Z.testbit b n).
Qed.
Lemma shiftr_u32 a n : is_u32 a -> 0 <= n -> is_u32 (Z.shiftr a n).
Proof.
  unfold is_u32. intros Ha Hn. rewrite Z.shiftr_div_pow2 by lia.
  pose proof (Z.pow_pos_nonneg 2 n ltac:(lia) Hn).
  split; [apply Z.div_pos; lia|]. eapply Z.le_lt_trans; [|apply Ha].
  apply Z.div_le_upper_bound; nia.
Qed.
#[export] Hint Resolve land_u32 lxor_u32 shiftr_u32 : machine.

Ltac mach := unfold is_u8, is_u32, FULL in *; lia.

(** Case analysis on the first test of the goal. *)
Ltac dif E := match goal with |- context [if ?b then _ else _] => destruct b eqn:E end.

(** Splits every test of the goal. *)
Ltac ifs :=
  repeat match goal with |- context [if ?b then _ else _] => let E := fresh "E" in destruct b eqn:E end.

(** Splits every test of a hypothesis, dropping the branches that fail. *)
Ltac split_ifs H :=
  repeat match type of H with
    | context [if ?b then _ else _] =>
        let E := fresh "E" in destruct b eqn:E; try discriminate H
    end.

(** Boolean tests as propositions. *)
Ltac bools :=
  repeat match goal with
    | H : _ && _ = true |- _ => apply andb_true_iff in H as [? ?]
    | H : _ || _ = false |- _ => apply orb_false_iff in H as [? ?]
    | H : negb _ = true |- _ => apply negb_true_iff in H
    | H : negb _ = false |- _ => apply negb_false_iff in H
    | H : (_ <? _) = true |- _ => apply Z.ltb_lt in H
    | H : (_ <? _) = false |- _ => apply Z.ltb_ge in H
    | H : (_ <=? _) = true |- _ => apply Z.leb_le in H
    | H : (_ <=? _) = false |- _ => apply Z.leb_gt in H
    | H : (_ =? _) = true |- _ => apply Z.eqb_eq in H
    | H : (_ =? _) = false |- _ => apply Z.eqb_neq in H
    end.

(** ** Arrays

    A C array indexed by an integer is a total function of the index; every
    write is [upd]. *)

Definition array (A : Type) : Type := Z -> A.
Definition upd {A} (a : array A) (i : Z) (v : A) : array A :=
  fun j => if j =? i then v else a j.

Lemma upd_eq {A} (a : array A) i v : upd a i v i = v.
Proof. unfold upd. by rewrite Z.eqb_refl. Qed.
Lemma upd_ne {A} (a : array A) i j v : j <> i -> upd a i v j = a j.
Proof. unfold upd. intros H. by rewrite (proj2 (Z.eqb_neq j i) H). Qed.
#[export] Hint Rewrite @upd_eq : machine.
#[export] Hint Rewrite @upd_ne using congruence || lia : machine.

(** ** Lists indexed by [Z] *)

(** [getz l i d] is [l[i]], [d] outside the list; [setz] writes in place and
    does nothing outside (the sources test the index before they write). *)
Definition getz {A} (l : list A) (i : Z) (d : A) : A :=
  if i <? 0 then d else nth (Z.to_nat i) l d.
Definition setz {A} (l : list A) (i : Z) (v : A) : list A :=
  if i <? 0 then l else <[Z.to_nat i := v]> l.
Definition lenz {A} (l : list A) : Z := Z.of_nat (length l).

Lemma setz_length {A} (l : list A) i v : length (setz l i v) = length l.
Proof. unfold setz. destruct (i <? 0); [done|]. apply length_insert. Qed.
Lemma lenz_nonneg {A} (l : list A) : 0 <= lenz l.
Proof. unfold lenz. lia. Qed.
#[export] Hint Resolve @lenz_nonneg : machine.

Lemma nth_insert {A} (l : list A) i j v d :
  nth j (<[i := v]> l) d = if decide (i = j /\ (i < length l)%nat) then v else nth j l d.
Proof.
  rewrite !nth_lookup, list_lookup_insert. repeat case_decide; naive_solver.
Qed.

Lemma getz_setz {A} (l : list A) i j v d :
  0 <= i < lenz l -> getz (setz l i v) j d = if j =? i then v else getz l j d.
Proof.
  unfold getz, setz, lenz. intros Hi.
  destruct (Z.ltb_spec i 0), (Z.eqb_spec j i), (Z.ltb_spec j 0); try lia; try done;
    rewrite nth_insert; case_decide; try done; try lia.
Qed.

Lemma getz_Forall {A} (P : A -> Prop) (l : list A) i d :
  Forall P l -> P d -> P (getz l i d).
Proof.
  intros HF Hd. unfold getz. destruct (i <? 0); [done|].
  rewrite nth_lookup. destruct (l !! Z.to_nat i) eqn:E; [|done].
  simpl. by eapply Forall_lookup_1 in HF.
Qed.

Lemma setz_Forall {A} (P : A -> Prop) (l : list A) i v :
  Forall P l -> P v -> Forall P (setz l i v).
Proof. intros. unfold setz. destruct (i <? 0); [done|]. by apply Forall_insert. Qed.

(** [Forall] with the membership of stdpp. *)
Lemma Forall_elem {A} (P : A -> Prop) (l : list A) : Forall P l <-> forall x, x ∈ l -> P x.
Proof.
  split.
  - induction 1 as [|y l Hy _ IH]; intros x Hx; [by apply elem_of_nil in Hx|].
    apply elem_of_cons in Hx as [->|Hx]; auto.
  - intros HP. induction l as [|y l IH]; constructor.
    + apply HP. by apply elem_of_cons; left.
    + apply IH. intros x Hx. apply HP. by apply elem_of_cons; right.
Qed.

(** ** Buffers

    [blit l off d] is [memcpy(l + off, d, len d)]; the sources keep the
    written range inside the buffer. [be n x] writes [x] as [n] bytes, most
    significant first, [le n x] least significant first. *)

Definition byte (x i : Z) : Z := Z.land (Z.shiftr x (8 * i)) 0xFF.

Definition blit {A} (l : list A) (off : Z) (d : list A) : list A :=
  take (Z.to_nat off) l ++ d ++ drop (Z.to_nat off + length d) l.

Fixpoint be (n : nat) (x : Z) : list Z :=
  match n with O => [] | S k => byte x (Z.of_nat k) :: be k x end.
Fixpoint le (n : nat) (x : Z) : list Z :=
  match n with O => [] | S k => Z.land x 0xFF :: le k (Z.shiftr x 8) end.
Fixpoint of_be (l : list Z) (acc : Z) : Z :=
  match l with [] => acc | b :: r => of_be r (acc * 256 + b) end.
Fixpoint of_le (l : list Z) : Z :=
  match l with [] => 0 | b :: r => b + 256 * of_le r end.

Lemma blit_length {A} (l : list A) off d :
  0 <= off -> off + lenz d <= lenz l -> length (blit l off d) = length l.
Proof. unfold blit, lenz. intros. rewrite !length_app, length_take, length_drop. lia. Qed.

Lemma blit_prefix {A} (l : list A) off d :
  0 <= off <= lenz l ->
  take (Z.to_nat (off + lenz d)) (blit l off d) = take (Z.to_nat off) l ++ d.
Proof.
  unfold blit, lenz. intros. rewrite app_assoc, take_app_length'; [done|].
  rewrite length_app, length_take. lia.
Qed.

Lemma be_length n x : length (be n x) = n.
Proof. induction n; simpl; auto. Qed.
Lemma le_length n x : length (le n x) = n.
Proof. revert x; induction n; simpl; auto. Qed.

Lemma byte_range x i : is_u8 (byte x i).
Proof.
  unfold byte, is_u8. change 0xFF with (Z.ones 8). rewrite Z.land_ones by lia.
  apply Z.mod_pos_bound; lia.
Qed.
Lemma land_ff_range x : is_u8 (Z.land x 0xFF).
Proof.
  unfold is_u8. change 0xFF with (Z.ones 8). rewrite Z.land_ones by lia.
  apply Z.mod_pos_bound; lia.
Qed.
#[export] Hint Resolve byte_range land_ff_range : machine.

Lemma be_bytes n x : Forall is_u8 (be n x).
Proof. induction n; simpl; constructor; auto with machine. Qed.
Lemma le_bytes n x : Forall is_u8 (le n x).
Proof. revert x; induction n; simpl; constructor; auto with machine. Qed.
#[export] Hint Resolve be_bytes le_bytes : machine.

Lemma of_le_le n x : of_le (le n x) = x mod 2 ^ (8 * Z.of_nat n).
Proof.
  revert x; induction n as [|n IH]; intros x; simpl of_le.
  - change (8 * Z.of_nat 0) with 0. by rewrite Z.mod_1_r.
  - rewrite IH. change 0xFF with (Z.ones 8).
    rewrite Z.land_ones, Z.shiftr_div_pow2 by lia.
    replace (8 * Z.of_nat (S n)) with (8 + 8 * Z.of_nat n) by lia.
    rewrite Z.pow_add_r, Z.rem_mul_r by lia. lia.
Qed.

Lemma of_le_range l : Forall is_u8 l -> 0 <= of_le l < 2 ^ (8 * lenz l).
Proof.
  unfold lenz. induction 1 as [|b r Hb HF IH]; simpl of_le; [simpl; lia|].
  replace (8 * Z.of_nat (length (b :: r))) with (8 + 8 * Z.of_nat (length r)) by (simpl; lia).
  rewrite Z.pow_add_r by lia. unfold is_u8 in Hb. lia.
Qed.

Lemma le_of_le l : Forall is_u8 l -> le (length l) (of_le l) = l.
Proof.
  induction 1 as [|b r Hb HF IH]; simpl; [done|]. unfold is_u8 in Hb.
  change 0xFF with (Z.ones 8). rewrite Z.land_ones, Z.shiftr_div_pow2 by lia. f_equal.
  - rewrite (Z.mul_comm 256), Z_mod_plus_full. apply Z.mod_small; lia.
  - rewrite (Z.mul_comm 256), Z.div_add, Z.div_small by lia. done.
Qed.

(** ** Counted loops

    [for_up n i f s] is [for (j = i; j < i + n; j++) s = f(j, s);]. *)
Fixpoint for_up {S} (n : nat) (i : Z) (f : Z -> S -> S) (s : S) : S :=
  match n with O => s | Datatypes.S k => for_up k (i + 1) f (f i s) end.

Lemma for_up_inv {S} (P : Z -> S -> Prop) n i f s :
  P i s -> (forall j s, i <= j < i + Z.of_nat n -> P j s -> P (j + 1) (f j s)) ->
  P (i + Z.of_nat n) (for_up n i f s).
Proof.
  revert i s; induction n as [|n IH]; intros i s H0 Hs; simpl for_up.
  - by rewrite Z.add_0_r.
  - replace (i + Z.of_nat (Datatypes.S n)) with (i + 1 + Z.of_nat n) by lia.
    apply IH; [apply Hs; [lia|done]|]. intros j s' Hj. apply Hs; lia.
Qed.

Lemma for_up_last {S} n i (f : Z -> S -> S) s :
  for_up (Datatypes.S n) i f s = f (i + Z.of_nat n) (for_up n i f s).
Proof.
  revert i s. induction n as [|n IH]; intros i s; [simpl; by rewrite Z.add_0_r|].
  change (for_up (Datatypes.S (Datatypes.S n)) i f s) with (for_up (Datatypes.S n) (i + 1) f (f i s)).
  rewrite IH. cbn [for_up]. f_equal. lia.
Qed.

Lemma fold_left_inv {A B} (P : A -> Prop) (Q : B -> Prop) (f : A -> B -> A) l a :
  P a -> Forall Q l -> (forall a b, P a -> Q b -> P (f a b)) -> P (fold_left f l a).
Proof. intros Ha Hl Hf. revert a Ha. induction Hl; simpl; auto. Qed.

(** ** Search and count in a table *)

(** The first index from [i] on whose entry satisfies [p]; -1 when there is none. *)
Fixpoint first_ix {A} (p : A -> bool) (t : list A) (i : Z) : Z :=
  match t with [] => -1 | x :: r => if p x then i else first_ix p r (i + 1) end.

Lemma first_ix_spec {A} (p : A -> bool) t i : 0 <= i ->
  (first_ix p t i = -1 /\ forall k x, t !! k = Some x -> p x = false) \/
  (exists k x, first_ix p t i = i + Z.of_nat k /\ t !! k = Some x /\ p x = true).
Proof.
  revert i. induction t as [|x t IH]; intros i Hi; [left; split; [done|]; intros k x Hx; by rewrite lookup_nil in Hx|].
  cbn [first_ix]. destruct (p x) eqn:E.
  - right. exists 0%nat, x. split_and!; [lia|done|done].
  - destruct (IH (i + 1) ltac:(lia)) as [[-> Hno]|(k & y & -> & Hk & Hy)].
    + left. split; [done|]. intros [|k] y Hy; cbn in Hy; [by injection Hy as <-|by apply (Hno k)].
    + right. exists (S k), y. split_and!; [lia|done|done].
Qed.

Definition b2z (b : bool) : Z := if b then 1 else 0.

(** How many entries satisfy [p]. *)
Definition countz {A} (p : A -> bool) (t : list A) : Z := lenz (List.filter p t).

Lemma countz_insert {A} (p : A -> bool) t i x y : t !! i = Some x ->
  countz p (<[i := y]> t) = countz p t - b2z (p x) + b2z (p y).
Proof.
  unfold countz, lenz. revert i. induction t as [|z t IH]; intros i Hi; [by rewrite lookup_nil in Hi|].
  destruct i as [|i]; cbn in Hi.
  - injection Hi as ->. cbn [insert list_insert List.filter]. destruct (p x), (p y); cbn [length b2z]; lia.
  - specialize (IH i Hi). change (<[S i:=y]> (z :: t)) with (z :: <[i:=y]> t). cbn [List.filter]. destruct (p z); cbn [length]; lia.
Qed.

Lemma countz_bound {A} (p : A -> bool) t : 0 <= countz p t <= lenz t.
Proof. unfold countz, lenz. pose proof (List.filter_length_le p t). lia. Qed.

Lemma getz_nat {A} (l : list A) k x d : l !! k = Some x -> getz l (Z.of_nat k) d = x.
Proof. intros Hk. unfold getz. rewrite (proj2 (Z.ltb_ge _ 0)) by lia. by rewrite Nat2Z.id, nth_lookup, Hk. Qed.

Lemma setz_nat {A} (l : list A) k v : setz l (Z.of_nat k) v = <[k := v]> l.
Proof. unfold setz. rewrite (proj2 (Z.ltb_ge _ 0)) by lia. by rewrite Nat2Z.id. Qed.
