(* ===== verification/Crc.v ===== *)
(** * Cyclic redundancy checks

    The bitwise CRC of the source, for any polynomial whose top bit is set: a
    step of the register can be undone, so two messages that differ in one byte
    have different checksums. *)

From stdpp Require Import list.
From S2P Require Import Prelude.
#[local] Open Scope Z_scope.

Lemma lxor_cancel a b c : Z.lxor a c = Z.lxor b c -> a = b.
Proof. intros E. apply (f_equal (fun v => Z.lxor v c)) in E. by rewrite !Z.lxor_assoc, Z.lxor_nilpotent, !Z.lxor_0_r in E. Qed.

Lemma fold_left_same (f g : Z -> Z -> Z) l x : (forall x b, f x b = g x b) -> fold_left f l x = fold_left g l x.
Proof. intros H. revert x. induction l as [|b l IH]; intros x; [done|]. cbn [fold_left]. rewrite H. apply IH. Qed.

Lemma fold_left_same_on (f g : Z -> Z -> Z) (P Q : Z -> Prop) l x : (forall x b, P x -> Q b -> f x b = g x b) ->
  (forall x b, P x -> Q b -> P (g x b)) -> Forall Q l -> P x -> fold_left f l x = fold_left g l x.
Proof.
  intros H Hg Hl. revert x. induction Hl as [|b l Hb _ IH]; intros x Hx; [done|]. cbn [fold_left]. rewrite (H x b Hx Hb). apply IH. by apply Hg.
Qed.

(** A register whose step can be undone, in the register and in the input,
    tells two inputs apart that differ in one place. *)
Section register.
Context (f : Z -> Z -> Z) (P Q : Z -> Prop).
Context (f_in : forall x b, P x -> Q b -> P (f x b)).
Context (f_reg : forall x y b, P x -> P y -> Q b -> f x b = f y b -> x = y).
Context (f_byte : forall x b b', P x -> Q b -> Q b' -> f x b = f x b' -> b = b').

Lemma fold_range l x : Forall Q l -> P x -> P (fold_left f l x).
Proof. intros Hl Hx. by apply (fold_left_inv P Q). Qed.

Lemma fold_reg_inj l x y : Forall Q l -> P x -> P y -> fold_left f l x = fold_left f l y -> x = y.
Proof.
  intros Hl. revert x y. induction Hl as [|b l Hb _ IH]; intros x y Hx Hy E; [done|]. cbn [fold_left] in E.
  apply IH in E; [|by apply f_in..]. by apply (f_reg x y b).
Qed.

Lemma fold_one_byte x pre post b b' : P x -> Forall Q (pre ++ b :: post) -> Q b' ->
  fold_left f (pre ++ b :: post) x = fold_left f (pre ++ b' :: post) x -> b = b'.
Proof.
  intros Hx Hl Hb' E. apply list.Forall_app in Hl as [Hpre Hl]. apply list.Forall_cons in Hl as [Hb Hpost].
  rewrite !fold_left_app in E. cbn [fold_left] in E. pose proof (fold_range pre x Hpre Hx) as Hp.
  apply fold_reg_inj in E; [|done|by apply f_in..]. by apply (f_byte (fold_left f pre x)).
Qed.
End register.

(** ** The register of a polynomial *)

Lemma lxor_reg c b : is_u32 c -> is_u8 b -> is_u32 (Z.lxor c b).
Proof. intros. apply lxor_u32; [done|unfold is_u8, is_u32 in *; lia]. Qed.

Section polynomial.
Context (poly : Z) (poly_u32 : is_u32 poly) (poly_top : Z.testbit poly 31 = true).

Definition crc_shift (c : Z) : Z := if Z.testbit c 0 then Z.lxor (Z.shiftr c 1) poly else Z.shiftr c 1.
Definition crc_in (c b : Z) : Z := for_up 8 0 (fun _ c => crc_shift c) (Z.lxor c b).
Definition crc_of (l : list Z) : Z := Z.lxor (fold_left crc_in l (Z.ones 32)) (Z.ones 32).

Lemma crc_in_loop c b : crc_in c b = for_up 8 0 (fun _ c => crc_shift c) (Z.lxor c b).
Proof. reflexivity. Qed.

Lemma crc_shift_range c : is_u32 c -> is_u32 (crc_shift c).
Proof. intros Hc. unfold crc_shift. destruct (Z.testbit c 0); [apply lxor_u32; [by apply shiftr_u32|done]|by apply shiftr_u32]. Qed.

Lemma crc_shift_inj x y : is_u32 x -> is_u32 y -> crc_shift x = crc_shift y -> x = y.
Proof.
  intros Hx Hy E. assert (forall z, is_u32 z -> Z.testbit (crc_shift z) 31 = Z.testbit z 0) as Htop.
  { intros z Hz. unfold crc_shift. assert (Z.testbit (Z.shiftr z 1) 31 = false) as H32.
    { rewrite Z.shiftr_spec by lia. apply Z.bits_above_log2; [apply Hz|]. change (31 + 1) with 32.
      destruct (Z.eq_dec z 0) as [->|Hne]; [done|]. apply Z.log2_lt_pow2; unfold is_u32 in Hz; lia. }
    destruct (Z.testbit z 0); [|done]. by rewrite Z.lxor_spec, H32, poly_top. }
  assert (Z.testbit x 0 = Z.testbit y 0) as E0 by (by rewrite <- !Htop, E by done).
  assert (Z.shiftr x 1 = Z.shiftr y 1) as E1.
  { unfold crc_shift in E. rewrite E0 in E. destruct (Z.testbit y 0); [|done]. by apply lxor_cancel in E. }
  apply Z.bits_inj'. intros i Hi. destruct (Z.eq_dec i 0) as [->|Hne]; [done|].
  apply (f_equal (fun v => Z.testbit v (i - 1))) in E1. rewrite !Z.shiftr_spec in E1 by lia. by replace (i - 1 + 1) with i in E1 by lia.
Qed.

Lemma crc_shifts_range n i c : is_u32 c -> is_u32 (for_up n i (fun _ c => crc_shift c) c).
Proof. revert i c. induction n as [|n IH]; intros i c Hc; [done|]. cbn [for_up]. by apply IH, crc_shift_range. Qed.

Lemma crc_shifts_inj n i x y : is_u32 x -> is_u32 y -> for_up n i (fun _ c => crc_shift c) x = for_up n i (fun _ c => crc_shift c) y -> x = y.
Proof.
  revert i x y. induction n as [|n IH]; intros i x y Hx Hy E; [done|]. cbn [for_up] in E.
  apply crc_shift_inj; [done..|]. by apply (IH (i + 1)); [apply crc_shift_range..|].
Qed.

Lemma crc_in_inj x y b b' : is_u32 x -> is_u32 y -> is_u8 b -> is_u8 b' -> crc_in x b = crc_in y b' -> Z.lxor x b = Z.lxor y b'.
Proof. intros ???? E. unfold crc_in in E. apply crc_shifts_inj in E; [done|by apply lxor_reg..]. Qed.

Lemma crc_in_range c b : is_u32 c -> is_u8 b -> is_u32 (crc_in c b).
Proof. intros. apply crc_shifts_range. by apply lxor_reg. Qed.

Lemma crc_of_range l : Forall is_u8 l -> is_u32 (crc_of l).
Proof.
  intros Hl. apply lxor_u32; [|done]. apply (fold_left_inv is_u32 is_u8); [done|done|]. apply crc_in_range.
Qed.

Lemma crc_of_one_byte pre post b b' : Forall is_u8 (pre ++ b :: post) -> is_u8 b' ->
  crc_of (pre ++ b :: post) = crc_of (pre ++ b' :: post) -> b = b'.
Proof.
  intros Hl Hb' E. unfold crc_of in E. apply lxor_cancel in E. revert E.
  apply (fold_one_byte crc_in is_u32 is_u8); [apply crc_in_range| | |done|done|done].
  - intros x y b0 Hx Hy H0 E. apply crc_in_inj in E; [|done..]. by apply lxor_cancel in E.
  - intros x b0 b1 Hx H0 H1 E. apply crc_in_inj in E; [|done..]. rewrite !(Z.lxor_comm x) in E. by apply lxor_cancel in E.
Qed.
End polynomial.

(** The test of the last bit the code writes as an arithmetic mask. *)
Lemma mask_step poly x : is_u32 poly -> 
  Z.lxor (Z.shiftr x 1) (Z.land poly (w32 (Z.lxor FULL (Z.land x 1) + 1))) = crc_shift poly x.
Proof.
  intros Hp. unfold crc_shift. assert (Z.land x 1 = b2z (Z.testbit x 0)) as ->.
  { change 1 with (Z.ones 1) at 1. rewrite Z.land_ones, Z.bit0_odd, Zmod_odd by lia. by destruct (Z.odd x). }
  destruct (Z.testbit x 0); cbn [b2z].
  - f_equal. change (w32 (Z.lxor FULL 1 + 1)) with (Z.ones 32). by apply is_u32_bits.
  - change (w32 (Z.lxor FULL 0 + 1)) with 0. by rewrite Z.land_0_r, Z.lxor_0_r.
Qed.
