(* ===== verification/Sxvm.v ===== *)
(** * The small checked runtime (src/arch/common/sxvm.c, include/sxvm.h)

    The instruction set, the static checker [sxvm_check] and the interpreter
    [sxvm_run] of the configuration the repository links (none of the
    research switches SXVM_PREC, SXVM_IND, SXVM_INDNEG, SXVM_BREAK_* set).
    The soundness of the checker is in SxvmSound.v. *)

From S2P Require Import Prelude.

(** ** Instructions *)

Definition SXVM_NREG : Z := 8.
Definition SXVM_MEM : Z := 64.
Definition SXVM_MAXINSN : Z := 256.
Definition SXVM_LOOPMAX : Z := 1024.

Inductive sx_op :=
  | SX_MOVI | SX_MOV | SX_ADD | SX_SUB | SX_MUL | SX_AND | SX_OR | SX_XOR
  | SX_DIV | SX_ADDI | SX_ANDI | SX_SHLI | SX_SHRI | SX_LDB | SX_STB | SX_JA
  | SX_JEQI | SX_JLTI | SX_JLT | SX_LOOP | SX_EXIT | SX_CALL.

#[export] Instance sx_op_eq_dec : EqDecision sx_op.
Proof. solve_decision. Defined.

(** The enumerators in source order: the first is 1. *)
Definition sx_ops : list sx_op :=
  [SX_MOVI; SX_MOV; SX_ADD; SX_SUB; SX_MUL; SX_AND; SX_OR; SX_XOR; SX_DIV;
   SX_ADDI; SX_ANDI; SX_SHLI; SX_SHRI; SX_LDB; SX_STB; SX_JA; SX_JEQI; SX_JLTI;
   SX_JLT; SX_LOOP; SX_EXIT; SX_CALL].
Definition SX_NOP_LAST : Z := 23.

(** The opcode byte of the instruction as the [switch] statements see it. *)
Definition sx_decode (b : Z) : option sx_op :=
  if b <? 1 then None else nth_error sx_ops (Z.to_nat (b - 1)).

Record sxvm_insn := Insn { op : Z; d : Z; s : Z; imm : Z }.

Definition SXVM_CALL_PUB : Z := 1.
Definition SXVM_CALL_LOG : Z := 2.

Inductive sx_err :=
  | SXVM_E_LEN | SXVM_E_OP | SXVM_E_JUMP | SXVM_E_UNINIT | SXVM_E_MEM
  | SXVM_E_LOOP | SXVM_E_FALL | SXVM_E_IMM.

Definition sx_err_code (e : sx_err) : Z :=
  match e with
  | SXVM_E_LEN => -1 | SXVM_E_OP => -2 | SXVM_E_JUMP => -3 | SXVM_E_UNINIT => -4
  | SXVM_E_MEM => -5 | SXVM_E_LOOP => -6 | SXVM_E_FALL => -7 | SXVM_E_IMM => -8
  end.

Inductive sx_trap :=
  | SXVM_T_OK | SXVM_T_MEM | SXVM_T_STEPS | SXVM_T_PC | SXVM_T_OP | SXVM_T_UNINIT.

#[export] Instance sx_err_eq_dec : EqDecision sx_err.
Proof. solve_decision. Defined.
#[export] Instance sx_trap_eq_dec : EqDecision sx_trap.
Proof. solve_decision. Defined.

(** Opcode classes, on the byte as in the source. *)
Definition writes_reg (o : Z) : bool := (1 <=? o) && (o <=? 14).
Definition reads_d (o : Z) : bool :=
  (3 <=? o) && (o <=? 13) || (o =? 15) || (o =? 17) || (o =? 18) || (o =? 19).
Definition reads_s (o : Z) : bool :=
  (2 <=? o) && (o <=? 9) || (o =? 14) || (o =? 15) || (o =? 19).
Definition is_jump (o : Z) : bool :=
  (o =? 16) || (o =? 17) || (o =? 18) || (o =? 19).
Definition is_loop (o : Z) : bool := o =? 20.
Definition is_exit (o : Z) : bool := o =? 21.
Definition is_call (o : Z) : bool := o =? 22.

Definition CLOBBER : Z := 0x3E.

(** Bit [r] of an [init] mask. *)
Definition bit (m r : Z) : bool := Z.testbit m r.
Definition set_bit (m r : Z) : Z := Z.lor m (Z.shiftl 1 r).
Definition clobber (m : Z) : Z := Z.ldiff m CLOBBER.
Arguments bit : simpl never.
Arguments set_bit : simpl never.
Arguments clobber : simpl never.

(** ** The checker *)

Record sx_state := SxState { reached : bool; init : Z; lo : list Z; hi : list Z }.

Definition st_join (a b : sx_state) : sx_state :=
  if negb (reached b) then a
  else if negb (reached a) then b
  else SxState true (Z.land (init a) (init b))
         (zip_with Z.min (lo a) (lo b)) (zip_with Z.max (hi a) (hi b)).

(** [while (f < m) f = (f << 1) | 1], at most 32 rounds for a 32-bit [m]. *)
Fixpoint fill_bits_from (fuel : nat) (f m : Z) : Z :=
  match fuel with
  | O => f
  | S fuel => if f <? m then fill_bits_from fuel (u32 (Z.lor (Z.shiftl f 1) 1)) m else f
  end.
Definition fill_bits (m : Z) : Z := fill_bits_from 33 0 m.

Definition rlo (st : sx_state) (r : Z) : Z := getz (lo st) r 0.
Definition rhi (st : sx_state) (r : Z) : Z := getz (hi st) r 0.
Definition put_lo (st : sx_state) (r v : Z) : sx_state :=
  SxState (reached st) (init st) (setz (lo st) r v) (hi st).
Definition put_hi (st : sx_state) (r v : Z) : sx_state :=
  SxState (reached st) (init st) (lo st) (setz (hi st) r v).
Definition put_init (st : sx_state) (m : Z) : sx_state :=
  SxState (reached st) m (lo st) (hi st).
Definition mark_reached (st : sx_state) : sx_state :=
  SxState true (init st) (lo st) (hi st).

Definition mem_ok (st : sx_state) (r imm : Z) : bool :=
  (0 <=? rlo st r + imm) && (rhi st r + imm <=? SXVM_MEM - 1).

Definition set_range (st : sx_state) (r l h : Z) : sx_state :=
  let '(l, h) := if FULL <? h then (0, FULL) else (l, h) in
  SxState (reached st) (set_bit (init st) r)
    (setz (lo st) r (u32 l)) (setz (hi st) r (u32 h)).

Definition add_range (st : sx_state) (r l h k_lo k_hi : Z) : sx_state :=
  let nlo := l + k_lo in
  let nhi := h + k_hi in
  if (nlo <? 0) || (FULL <? nhi) then set_range st r 0 FULL
  else set_range st r nlo nhi.

(** Pass 1: shape. The scan keeps the loop body it is in ([lb0], [lb1]), the
    owner of every body instruction and the step bound. *)

Record shape := Shape { sh_lb0 : Z; sh_lb1 : Z; body_of : array Z; bound : Z }.

Definition shape_init : shape := Shape (-1) (-1) (fun _ => -1) 0.

Definition own_body (b : array Z) (b0 b1 i : Z) : array Z :=
  fun k => if (b0 <=? k) && (k <=? b1) then i else b k.

Definition shape_insn (n i : Z) (x : sxvm_insn) (a : shape) : sx_err + shape :=
  if (op x <? 1) || (SX_NOP_LAST <=? op x) then inl SXVM_E_OP
  else if negb (is_loop (op x)) && (SXVM_NREG <=? d x) then inl SXVM_E_OP
  else if reads_s (op x) && (SXVM_NREG <=? s x) then inl SXVM_E_OP
  else if ((op x =? 12) || (op x =? 13)) && ((imm x <? 0) || (31 <? imm x)) then inl SXVM_E_IMM
  else
    let '(b0, b1) := if sh_lb1 a <? i then (-1, -1) else (sh_lb0 a, sh_lb1 a) in
    if is_loop (op x) then
      if 0 <=? b0 then inl SXVM_E_LOOP
      else if (d x <? 1) || (imm x <? 1) || (SXVM_LOOPMAX <? imm x) then inl SXVM_E_LOOP
      else if n <=? i + d x then inl SXVM_E_LOOP
      else inr (Shape (i + 1) (i + d x) (own_body (body_of a) (i + 1) (i + d x) i)
                  (bound a + (1 + imm x * d x)))
    else if b0 <? 0 then inr (Shape b0 b1 (body_of a) (bound a + 1))
    else inr (Shape b0 b1 (body_of a) (bound a)).

Fixpoint shape_pass (n i : Z) (p : list sxvm_insn) (a : shape) : sx_err + shape :=
  match p with
  | [] => inr a
  | x :: p =>
      match shape_insn n i x a with
      | inl e => inl e
      | inr a => shape_pass n (i + 1) p a
      end
  end.

(** The jump targets. [prog] is the whole program, [i] the position of [x]. *)
Definition nop : sxvm_insn := Insn 0 0 0 0.
Definition insn_at (prog : list sxvm_insn) (i : Z) : sxvm_insn := getz prog i nop.

Definition jump_bad (prog : list sxvm_insn) (body : array Z) (i : Z) (x : sxvm_insn) : bool :=
  let n := lenz prog in
  if negb (is_jump (op x)) then false
  else
    let t := i + 1 + imm x in
    if (imm x <? 0) || (n <=? t) then true
    else if 0 <=? body i then
      (body i + d (insn_at prog (body i)) + 1 <? t) || (t <? body i + 1)
    else (t <? n) && (0 <=? body t).

Fixpoint jumps_pass (prog : list sxvm_insn) (body : array Z) (i : Z) (p : list sxvm_insn) : bool :=
  match p with
  | [] => true
  | x :: p => if jump_bad prog body i x then false else jumps_pass prog body (i + 1) p
  end.

(** Pass 2: ranges. *)

Definition clobber_call (st : sx_state) : sx_state := put_init st (clobber (init st)).

(** Widening at a loop entry: every register the body writes may have any
    value, and a later pass may start after a call. *)
Definition widen_insn (x : sxvm_insn) (st : sx_state) : sx_state :=
  let st := if writes_reg (op x) then put_hi (put_lo st (d x) 0) (d x) FULL else st in
  if is_call (op x) then clobber_call (put_hi (put_lo st 0 0) 0 FULL) else st.

Definition loop_body (prog : list sxvm_insn) (i len : Z) : list sxvm_insn :=
  take (Z.to_nat len) (drop (Z.to_nat (i + 1)) prog).

Definition widen (prog : list sxvm_insn) (i len : Z) (st : sx_state) : sx_state :=
  fold_left (fun a x => widen_insn x a) (loop_body prog i len) st.

(** The taken and fall-through states of a conditional jump; [None] when the
    ranges exclude the branch. *)
Definition branch (x : sxvm_insn) (o : sx_op) (st : sx_state) : option sx_state * option sx_state :=
  let dl := rlo st (d x) in let dh := rhi st (d x) in
  let sl := rlo st (s x) in let sh := rhi st (s x) in
  let c := s x in
  match o with
  | SX_JEQI =>
      (if (c <? dl) || (dh <? c) then None else Some (put_hi (put_lo st (d x) c) (d x) c),
       if (dl =? c) && (dh =? c) then None else Some st)
  | SX_JLTI =>
      (if dl <? c then Some (if c - 1 <? dh then put_hi st (d x) (c - 1) else st) else None,
       if c <=? dh then Some (if dl <? c then put_lo st (d x) c else st) else None)
  | _ =>
      if d x =? s x then (None, Some st)
      else
        (if dl <? sh then
           let tk := if sh - 1 <? dh then put_hi st (d x) (sh - 1) else st in
           Some (if sl <? dl + 1 then put_lo tk (s x) (dl + 1) else tk)
         else None,
         if sl <=? dh then
           let fl := if dl <? sl then put_lo st (d x) sl else st in
           Some (if dh <? sh then put_hi fl (s x) dh else fl)
         else None)
  end.

Definition opt_edge (t : Z) (o : option sx_state) : list (Z * sx_state) :=
  match o with Some st => [(t, mark_reached st)] | None => [] end.

(** The reads an instruction makes must be of written registers. *)
Definition read_check (x : sxvm_insn) (st : sx_state) : option sx_err :=
  if reads_d (op x) && negb (bit (init st) (d x)) then Some SXVM_E_UNINIT
  else if reads_s (op x) && negb (bit (init st) (s x)) then Some SXVM_E_UNINIT
  else if is_exit (op x) && negb (bit (init st) 0) then Some SXVM_E_UNINIT
  else if is_call (op x) && negb ((imm x =? SXVM_CALL_PUB) || (imm x =? SXVM_CALL_LOG))
  then Some SXVM_E_OP
  else if is_call (op x) && (negb (bit (init st) 1)
                             || (imm x =? SXVM_CALL_PUB) && negb (bit (init st) 2))
  then Some SXVM_E_UNINIT
  else None.

(** The out-edges of instruction [x] at [i], entered in state [st]: the states
    it joins into later instructions, in the order of the source. *)
Definition transfer_switch (prog : list sxvm_insn) (i : Z) (x : sxvm_insn) (st : sx_state)
    : sx_err + list (Z * sx_state) :=
  let dl := rlo st (Z.land (d x) 7) in let dh := rhi st (Z.land (d x) 7) in
  let sl := rlo st (Z.land (s x) 7) in let sh := rhi st (Z.land (s x) 7) in
  let fall st' := inr [(i + 1, mark_reached st')] in
    match sx_decode (op x) with
    | None => inl SXVM_E_OP
    | Some SX_MOVI => fall (set_range st (d x) (u32 (imm x)) (u32 (imm x)))
    | Some SX_MOV => fall (set_range st (d x) sl sh)
    | Some SX_ADD => fall (add_range st (d x) dl dh sl sh)
    | Some SX_ADDI => fall (add_range st (d x) dl dh (imm x) (imm x))
    | Some SX_SUB =>
        fall (if sh <=? dl then set_range st (d x) (dl - sh) (dh - sl)
              else set_range st (d x) 0 FULL)
    | Some SX_MUL => fall (set_range st (d x) (u64 (dl * sl)) (u64 (dh * sh)))
    | Some SX_AND => fall (set_range st (d x) 0 (Z.min dh sh))
    | Some SX_ANDI => fall (set_range st (d x) 0 (Z.min dh (u32 (imm x))))
    | Some SX_OR | Some SX_XOR => fall (set_range st (d x) 0 (fill_bits (Z.max dh sh)))
    | Some SX_DIV => fall (set_range st (d x) 0 dh)
    | Some SX_SHLI => fall (set_range st (d x) (u64 (Z.shiftl dl (imm x))) (u64 (Z.shiftl dh (imm x))))
    | Some SX_SHRI => fall (set_range st (d x) (Z.shiftr dl (imm x)) (Z.shiftr dh (imm x)))
    | Some SX_LDB => if mem_ok st (s x) (imm x) then fall (set_range st (d x) 0 255) else inl SXVM_E_MEM
    | Some SX_STB => if mem_ok st (d x) (imm x) then fall st else inl SXVM_E_MEM
    | Some SX_JA => inr [(i + 1 + imm x, mark_reached st)]
    | Some ((SX_JEQI | SX_JLTI | SX_JLT) as o) =>
        let '(tk, fl) := branch x o st in
        inr (opt_edge (i + 1 + imm x) tk ++ opt_edge (i + 1) fl)
    | Some SX_LOOP => fall (widen prog i (d x) st)
    | Some SX_EXIT => inr []
    | Some SX_CALL =>
        if (imm x =? SXVM_CALL_PUB) && (SXVM_MEM <? rhi st 1 + rhi st 2) then inl SXVM_E_MEM
        else fall (set_range (clobber_call st) 0 0 FULL)
    end.

Definition transfer (prog : list sxvm_insn) (i : Z) (st : sx_state)
    : sx_err + list (Z * sx_state) :=
  match read_check (insn_at prog i) st with
  | Some e => inl e
  | None => transfer_switch prog i (insn_at prog i) st
  end.

(** Joining the out-edges into the state table; an edge that leaves the
    program is SXVM_E_FALL, an edge that does not go forward is not joined. *)
Fixpoint join_edges (n i : Z) (es : list (Z * sx_state)) (st : array sx_state)
    : sx_err + array sx_state :=
  match es with
  | [] => inr st
  | (t, e) :: es =>
      if n <=? t then inl SXVM_E_FALL
      else join_edges n i es (if i <? t then upd st t (st_join (st t) e) else st)
  end.

Fixpoint ranges_pass (prog : list sxvm_insn) (todo : nat) (i : Z) (st : array sx_state)
    : sx_err + array sx_state :=
  match todo with
  | O => inr st
  | S todo =>
      if negb (reached (st i)) then ranges_pass prog todo (i + 1) st
      else
        match transfer prog i (st i) with
        | inl e => inl e
        | inr es =>
            match join_edges (lenz prog) i es st with
            | inl e => inl e
            | inr st => ranges_pass prog todo (i + 1) st
            end
        end
  end.

Definition entry_state : sx_state :=
  SxState true 0 (replicate 8 0) (replicate 8 FULL).
Definition unreached : sx_state := SxState false 0 (replicate 8 0) (replicate 8 0).
Definition ranges_init : array sx_state := upd (fun _ => unreached) 0 entry_state.

Definition check (p : list sxvm_insn) : sx_err + Z :=
  if (lenz p <=? 0) || (SXVM_MAXINSN <? lenz p) then inl SXVM_E_LEN
  else
    match shape_pass (lenz p) 0 p shape_init with
    | inl e => inl e
    | inr a =>
        if negb (jumps_pass p (body_of a) 0 p) then inl SXVM_E_JUMP
        else
          match ranges_pass p (length p) 0 ranges_init with
          | inl e => inl e
          | inr _ => inr (bound a)
          end
    end.

(** The C function's value: the step bound, or a negative error. *)
Definition sxvm_check (p : list sxvm_insn) : Z :=
  match check p with inl e => sx_err_code e | inr b => b end.

(** ** The interpreter *)

Section Run.
(** The caller's environment: the [ctx] it passes back to its two helpers.
    A NULL [env] or helper is [None]. *)
Context {C : Type}.

Record sxvm_env := Env {
  env_pub : option (C -> list Z -> C * Z);
  env_log : option (C -> Z -> C)
}.

Record vm := Vm {
  regs : list Z; vinit : Z; pc : Z; lb0 : Z; lb1 : Z; rem : Z; steps : Z;
  mem : list Z; ctx : C
}.

(** What [sxvm_run] leaves behind: the trap, [*r0] when it was written, and
    the final machine ([*steps] is its step count). *)
Record outcome := Outcome { trap : sx_trap; ret0 : option Z; final : vm }.

Definition reg (m : vm) (r : Z) : Z := getz (regs m) r 0.

(** The loop bookkeeping at the head of the [for (;;)]. *)
Definition loop_head (m : vm) : vm :=
  if 0 <=? lb0 m then
    if pc m =? lb1 m + 1 then
      if 0 <? rem m - 1 then
        Vm (regs m) (vinit m) (lb0 m) (lb0 m) (lb1 m) (rem m - 1) (steps m) (mem m) (ctx m)
      else Vm (regs m) (vinit m) (pc m) (-1) (-1) (rem m - 1) (steps m) (mem m) (ctx m)
    else if (pc m <? lb0 m) || (lb1 m + 1 <? pc m) then
      Vm (regs m) (vinit m) (pc m) (-1) (-1) (rem m) (steps m) (mem m) (ctx m)
    else m
  else m.

Definition tick (m : vm) : vm :=
  Vm (regs m) (vinit m) (pc m) (lb0 m) (lb1 m) (rem m) (steps m + 1) (mem m) (ctx m).
(** [r[d] = v], the [writes_reg] update of [init], and the next pc. *)
Definition set_reg (m : vm) (r v : Z) : vm :=
  Vm (setz (regs m) r (u32 v)) (set_bit (vinit m) r) (pc m + 1) (lb0 m) (lb1 m) (rem m)
     (steps m) (mem m) (ctx m).
Definition goto (m : vm) (t : Z) : vm :=
  Vm (regs m) (vinit m) t (lb0 m) (lb1 m) (rem m) (steps m) (mem m) (ctx m).
Definition store (m : vm) (a v : Z) : vm :=
  Vm (regs m) (vinit m) (pc m + 1) (lb0 m) (lb1 m) (rem m) (steps m) (setz (mem m) a (u8 v)) (ctx m).
Definition enter_loop (m : vm) (x : sxvm_insn) : vm :=
  Vm (regs m) (vinit m) (pc m + 1) (pc m + 1) (pc m + d x) (imm x) (steps m) (mem m) (ctx m).
Definition after_call (m : vm) (c : C) (v : Z) : vm :=
  Vm (setz (regs m) 0 (u32 v)) (Z.lor (clobber (vinit m)) 1) (pc m + 1) (lb0 m) (lb1 m) (rem m)
     (steps m) (mem m) c.

(** The bytes [mem + r1 .. mem + r1 + r2) a [pub] call hands out. *)
Definition slice (m : list Z) (a len : Z) : list Z :=
  take (Z.to_nat len) (drop (Z.to_nat a) m).

Definition call_insn (env : option sxvm_env) (x : sxvm_insn) (m : vm) : sx_trap + vm :=
  if negb (bit (vinit m) 1) then inl SXVM_T_UNINIT
  else if imm x =? SXVM_CALL_PUB then
    if negb (bit (vinit m) 2) then inl SXVM_T_UNINIT
    else if SXVM_MEM <? reg m 1 + reg m 2 then inl SXVM_T_MEM
    else
      match env ≫= env_pub with
      | Some pub => let '(c, v) := pub (ctx m) (slice (mem m) (reg m 1) (reg m 2)) in
                    inr (after_call m c v)
      | None => inr (after_call m (ctx m) 0)
      end
  else if imm x =? SXVM_CALL_LOG then
    match env ≫= env_log with
    | Some log => inr (after_call m (log (ctx m) (reg m 1)) 0)
    | None => inr (after_call m (ctx m) 0)
    end
  else inl SXVM_T_OP.

(** The [switch] of one instruction: a trap, or the machine after it (EXIT
    leaves the switch before it: see [vm_step]). *)
Definition exec_insn (env : option sxvm_env) (x : sxvm_insn) (m : vm) : sx_trap + vm :=
  let rd := reg m (d x) in
  let rs := reg m (s x) in
  match sx_decode (op x) with
  | None => inl SXVM_T_OP
  | Some SX_MOVI => inr (set_reg m (d x) (imm x))
  | Some SX_MOV => inr (set_reg m (d x) rs)
  | Some SX_ADD => inr (set_reg m (d x) (rd + rs))
  | Some SX_SUB => inr (set_reg m (d x) (rd - rs))
  | Some SX_MUL => inr (set_reg m (d x) (rd * rs))
  | Some SX_AND => inr (set_reg m (d x) (Z.land rd rs))
  | Some SX_OR => inr (set_reg m (d x) (Z.lor rd rs))
  | Some SX_XOR => inr (set_reg m (d x) (Z.lxor rd rs))
  | Some SX_DIV => inr (set_reg m (d x) (if rs =? 0 then 0 else rd / rs))
  | Some SX_ADDI => inr (set_reg m (d x) (rd + imm x))
  | Some SX_ANDI => inr (set_reg m (d x) (Z.land rd (u32 (imm x))))
  | Some SX_SHLI =>
      if (imm x <? 0) || (31 <? imm x) then inl SXVM_T_OP
      else inr (set_reg m (d x) (Z.shiftl rd (imm x)))
  | Some SX_SHRI =>
      if (imm x <? 0) || (31 <? imm x) then inl SXVM_T_OP
      else inr (set_reg m (d x) (Z.shiftr rd (imm x)))
  | Some SX_LDB =>
      let a := rs + imm x in
      if (a <? 0) || (SXVM_MEM <=? a) then inl SXVM_T_MEM
      else inr (set_reg m (d x) (getz (mem m) a 0))
  | Some SX_STB =>
      let a := rd + imm x in
      if (a <? 0) || (SXVM_MEM <=? a) then inl SXVM_T_MEM
      else inr (store m a rs)
  | Some SX_JA => inr (goto m (pc m + 1 + imm x))
  | Some SX_JEQI => inr (goto m (if rd =? s x then pc m + 1 + imm x else pc m + 1))
  | Some SX_JLTI => inr (goto m (if rd <? s x then pc m + 1 + imm x else pc m + 1))
  | Some SX_JLT => inr (goto m (if rd <? rs then pc m + 1 + imm x else pc m + 1))
  | Some SX_LOOP =>
      if (0 <=? lb0 m) || (d x <? 1) || (imm x <? 1) then inl SXVM_T_OP
      else inr (enter_loop m x)
  | Some SX_EXIT => inr m
  | Some SX_CALL => call_insn env x m
  end.

(** One round of the [for (;;)]: stop with an outcome or go on. *)
Definition vm_step (p : list sxvm_insn) (max_steps : Z) (env : option sxvm_env) (m : vm)
    : outcome + vm :=
  let m := loop_head m in
  if (pc m <? 0) || (lenz p <=? pc m) then inl (Outcome SXVM_T_PC None m)
  else if max_steps <=? steps m then inl (Outcome SXVM_T_STEPS None m)
  else
    let m := tick m in
    let x := insn_at p (pc m) in
    if (op x <? 1) || (SX_NOP_LAST <=? op x)
       || negb (is_loop (op x)) && (SXVM_NREG <=? d x)
       || reads_s (op x) && (SXVM_NREG <=? s x)
    then inl (Outcome SXVM_T_OP None m)
    else if reads_d (op x) && negb (bit (vinit m) (d x))
            || reads_s (op x) && negb (bit (vinit m) (s x))
            || is_exit (op x) && negb (bit (vinit m) 0)
    then inl (Outcome SXVM_T_UNINIT None m)
    else if is_exit (op x) then inl (Outcome SXVM_T_OK (Some (reg m 0)) m)
    else
      match exec_insn env x m with
      | inl t => inl (Outcome t None m)
      | inr m => inr m
      end.

Fixpoint run_from (fuel : nat) (p : list sxvm_insn) (max_steps : Z) (env : option sxvm_env)
    (m : vm) : option outcome :=
  match fuel with
  | O => None
  | S fuel =>
      match vm_step p max_steps env m with
      | inl o => Some o
      | inr m => run_from fuel p max_steps env m
      end
  end.

Definition vm_init (m0 : list Z) (c0 : C) : vm :=
  Vm (replicate 8 0) 0 0 (-1) (-1) 0 0 m0 c0.

(** Every round but the last counts a step, so [max_steps + 1] rounds are
    enough ([sxvm_run_total]). *)
Definition sxvm_run (p : list sxvm_insn) (m0 : list Z) (max_steps : Z)
    (env : option sxvm_env) (c0 : C) : option outcome :=
  run_from (S (Z.to_nat max_steps)) p max_steps env (vm_init m0 c0).
End Run.

Arguments sxvm_env : clear implicits.
Arguments vm : clear implicits.
Arguments outcome : clear implicits.
