(* ===== verification/SxvmDomain.v ===== *)
(** * The checker's ranges as an abstract domain (src/arch/common/sxvm.c)

    A checker state [st] covers a register file and a written-mask when every
    register is inside its range and every bit of [init st] is set in the
    mask. This file proves that joins, the range updates and the branch
    refinements of the checker are sound for [covers]. *)

From S2P Require Import Prelude Sxvm.

Create HintDb sxvm.

(** ** Well-formed states *)

Definition wf_file (l : list Z) : Prop := length l = 8%nat /\ Forall is_u32 l.
Definition wf_state (st : sx_state) : Prop := wf_file (lo st) /\ wf_file (hi st).

Definition reg_ok (r : Z) : Prop := 0 <= r < 8.

Definition covers (st : sx_state) (rs : list Z) (m : Z) : Prop :=
  forall r, reg_ok r ->
    (bit (init st) r = true -> bit m r = true) /\ rlo st r <= getz rs r 0 <= rhi st r.

(** Everything [a] covers is covered by [b]. *)
Definition state_le (a b : sx_state) : Prop :=
  forall rs m, covers a rs m -> covers b rs m.

#[export] Instance state_le_refl : Reflexive state_le.
Proof. unfold state_le. intros ?; auto. Qed.
#[export] Instance state_le_trans : Transitive state_le.
Proof. unfold state_le. intros ???; auto. Qed.

Lemma wf_file_get l r : wf_file l -> is_u32 (getz l r 0).
Proof. intros [_ H]. apply getz_Forall; [done|]. mach. Qed.

Lemma wf_file_set l r v : wf_file l -> is_u32 v -> wf_file (setz l r v).
Proof. intros [H1 H2] Hv. split; [by rewrite setz_length|]. by apply setz_Forall. Qed.

Lemma wf_file_getz l r r' v :
  wf_file l -> reg_ok r -> getz (setz l r v) r' 0 = if r' =? r then v else getz l r' 0.
Proof. intros [H _] Hr. apply getz_setz. unfold lenz. rewrite H. exact Hr. Qed.

#[export] Hint Resolve wf_file_get wf_file_set u32_range : sxvm.

Lemma rlo_u32 st r : wf_state st -> is_u32 (rlo st r).
Proof. intros [? ?]. unfold rlo. auto with sxvm. Qed.
Lemma rhi_u32 st r : wf_state st -> is_u32 (rhi st r).
Proof. intros [? ?]. unfold rhi. auto with sxvm. Qed.
#[export] Hint Resolve rlo_u32 rhi_u32 : sxvm.

(** ** Masks *)

Lemma bit_set_bit m r r' : 0 <= r -> bit (set_bit m r) r' = (r' =? r) || bit m r'.
Proof.
  intros Hr. unfold bit, set_bit. rewrite Z.lor_spec, Z.shiftl_1_l, Z.pow2_bits_eqb by lia.
  rewrite (Z.eqb_sym r r'). apply orb_comm.
Qed.

Lemma bit_clobber m r : reg_ok r -> bit (clobber m) r = bit m r && ((r =? 0) || (5 <? r)).
Proof.
  intros Hr. unfold bit, clobber. rewrite Z.ldiff_spec. f_equal.
  assert (r = 0 \/ r = 1 \/ r = 2 \/ r = 3 \/ r = 4 \/ r = 5 \/ r = 6 \/ r = 7) as H
    by (unfold reg_ok in Hr; lia).
  by repeat destruct H as [->|H]; [..|rewrite H].
Qed.

(** ** Well-formedness of the updates *)

Lemma wf_set_range st r l h : wf_state st -> wf_state (set_range st r l h).
Proof.
  intros [? ?]. unfold set_range. destruct (FULL <? h); split; simpl; auto with sxvm.
Qed.
Lemma wf_add_range st r l h a b : wf_state st -> wf_state (add_range st r l h a b).
Proof. intros. unfold add_range. destruct (_ || _); by apply wf_set_range. Qed.
Lemma wf_put_lo st r v : wf_state st -> is_u32 v -> wf_state (put_lo st r v).
Proof. intros [? ?] ?. split; simpl; auto with sxvm. Qed.
Lemma wf_put_hi st r v : wf_state st -> is_u32 v -> wf_state (put_hi st r v).
Proof. intros [? ?] ?. split; simpl; auto with sxvm. Qed.
#[export] Hint Resolve wf_set_range wf_add_range wf_put_lo wf_put_hi : sxvm.

Lemma wf_zip f a b :
  (forall x y, is_u32 x -> is_u32 y -> is_u32 (f x y)) ->
  wf_file a -> wf_file b -> wf_file (zip_with f a b).
Proof.
  intros Hf [Ha Ha'] [Hb Hb']. split.
  - by rewrite length_zip_with, Ha, Hb.
  - apply Forall_lookup_2. intros i z Hi.
    apply lookup_zip_with_Some in Hi as (x & y & -> & Hx & Hy).
    apply Hf; [eapply (Forall_lookup_1 _ a)|eapply (Forall_lookup_1 _ b)]; done.
Qed.

Lemma wf_join a b : wf_state a -> wf_state b -> wf_state (st_join a b).
Proof.
  intros [] []. unfold st_join. destruct (reached b); [|done]. destruct (reached a); [|done].
  split; simpl; apply wf_zip; try done; intros; mach.
Qed.

Lemma wf_widen_insn x st : wf_state st -> wf_state (widen_insn x st).
Proof.
  intros. assert (is_u32 0) by mach. assert (is_u32 FULL) by mach.
  unfold widen_insn. unfold clobber_call.
  destruct (writes_reg _), (is_call _); try (split; simpl); destruct H; auto with sxvm.
Qed.

Lemma wf_widen prog i len st : wf_state st -> wf_state (widen prog i len st).
Proof.
  unfold widen. generalize (loop_body prog i len). intros l. revert st.
  induction l as [|x l IH]; simpl; intros st H; [done|]. apply IH. by apply wf_widen_insn.
Qed.
#[export] Hint Resolve wf_join wf_widen_insn wf_widen : sxvm.

(** ** Joins *)

Lemma getz_zip f a b r :
  wf_file a -> wf_file b -> reg_ok r ->
  getz (zip_with f a b) r 0 = f (getz a r 0) (getz b r 0).
Proof.
  intros [Ha _] [Hb _] Hr. unfold reg_ok in Hr. unfold getz.
  destruct (Z.ltb_spec r 0); [lia|]. rewrite !nth_lookup, lookup_zip_with.
  destruct (lookup_lt_is_Some_2 a (Z.to_nat r)) as [x Hx]; [lia|].
  destruct (lookup_lt_is_Some_2 b (Z.to_nat r)) as [y Hy]; [lia|].
  rewrite Hx, Hy. done.
Qed.

Lemma join_le_l a b : wf_state a -> wf_state b -> reached a = true -> state_le a (st_join a b).
Proof.
  intros [Hla Hha] [Hlb Hhb] Ha rs m Hc. unfold st_join. rewrite Ha.
  destruct (reached b); [|done]. intros r Hr. destruct (Hc r Hr) as [Hi Hv].
  unfold rlo, rhi in *. simpl. rewrite !getz_zip by done. split; [|lia].
  unfold bit in *. rewrite Z.land_spec. intros [? _]%andb_prop; auto.
Qed.

Lemma join_le_r a b : wf_state a -> wf_state b -> reached b = true -> state_le b (st_join a b).
Proof.
  intros [Hla Hha] [Hlb Hhb] Hb rs m Hc. unfold st_join. rewrite Hb. simpl.
  destruct (reached a); [|done]. intros r Hr. destruct (Hc r Hr) as [Hi Hv].
  unfold rlo, rhi in *. simpl. rewrite !getz_zip by done. split; [|lia].
  unfold bit in *. rewrite Z.land_spec. intros [_ ?]%andb_prop; auto.
Qed.

Lemma join_reached a b : reached b = true -> reached (st_join a b) = true.
Proof. intros Hb. unfold st_join. rewrite Hb. simpl. by destruct (reached a) eqn:?. Qed.
Lemma join_reached_l a b : reached a = true -> reached (st_join a b) = true.
Proof. intros Ha. unfold st_join. rewrite Ha. by destruct (reached b). Qed.

Lemma covers_mark st rs m : covers (mark_reached st) rs m <-> covers st rs m.
Proof. done. Qed.

(** ** Range updates *)

Lemma covers_set_range st rs m r l h v :
  wf_state st -> wf_file rs -> reg_ok r -> covers st rs m ->
  is_u32 v -> 0 <= l -> l <= v <= h ->
  covers (set_range st r l h) (setz rs r v) (set_bit m r).
Proof.
  intros [Hl Hh] Hrs Hr Hc Hv Hl0 Hlv r' Hr'. destruct (Hc r' Hr') as [Hi Hx].
  unfold rlo, rhi, set_range in *.
  destruct (FULL <? h) eqn:E; simpl; rewrite !bit_set_bit, !wf_file_getz by (done || apply Hr);
    destruct (Z.eqb_spec r' r); simpl; (split; [by auto|]); try done;
    rewrite !u32_small; mach.
Qed.

Lemma covers_set_full st rs m r v :
  wf_state st -> wf_file rs -> reg_ok r -> covers st rs m -> is_u32 v ->
  covers (set_range st r 0 FULL) (setz rs r v) (set_bit m r).
Proof. intros. apply covers_set_range; try done; mach. Qed.

Lemma covers_add_range st rs m r l h a b x y :
  wf_state st -> wf_file rs -> reg_ok r -> covers st rs m ->
  l <= x <= h -> a <= y <= b ->
  covers (add_range st r l h a b) (setz rs r (u32 (x + y))) (set_bit m r).
Proof.
  intros. unfold add_range.
  destruct ((l + a <? 0) || (FULL <? h + b)) eqn:E.
  - apply covers_set_full; auto with sxvm.
  - apply orb_false_iff in E as [?%Z.ltb_ge ?%Z.ltb_ge].
    rewrite u32_small by mach. apply covers_set_range; try done; mach.
Qed.

(** Narrowing one end by a bound the value satisfies. *)
Lemma covers_put_lo st rs m r v :
  wf_state st -> reg_ok r -> covers st rs m -> v <= getz rs r 0 -> covers (put_lo st r v) rs m.
Proof.
  intros [Hl Hh] Hr Hc Hv r' Hr'. destruct (Hc r' Hr'). unfold rlo, rhi in *. simpl.
  rewrite wf_file_getz by done. destruct (Z.eqb_spec r' r); subst; simpl; split; auto; lia.
Qed.
Lemma covers_put_hi st rs m r v :
  wf_state st -> reg_ok r -> covers st rs m -> getz rs r 0 <= v -> covers (put_hi st r v) rs m.
Proof.
  intros [Hl Hh] Hr Hc Hv r' Hr'. destruct (Hc r' Hr'). unfold rlo, rhi in *. simpl.
  rewrite wf_file_getz by done. destruct (Z.eqb_spec r' r); subst; simpl; split; auto; lia.
Qed.

Lemma rlo_put_hi st r v r' : rlo (put_hi st r v) r' = rlo st r'.
Proof. done. Qed.
Lemma rhi_put_lo st r v r' : rhi (put_lo st r v) r' = rhi st r'.
Proof. done. Qed.

(** ** Bit-filling *)

Lemma lor_bound x y j : 0 <= j -> 0 <= x < 2 ^ j -> 0 <= y < 2 ^ j -> 0 <= Z.lor x y < 2 ^ j.
Proof.
  intros Hj Hx Hy. assert (0 <= Z.lor x y) by (apply Z.lor_nonneg; lia). split; [done|].
  destruct (Z.eq_dec (Z.lor x y) 0) as [->|]; [lia|].
  apply Z.log2_lt_pow2; [lia|]. rewrite Z.log2_lor by lia.
  destruct (Z.eq_dec x 0) as [->|], (Z.eq_dec y 0) as [->|]; try done;
    apply Z.max_lub_lt; try (apply Z.log2_lt_pow2; lia); change (Z.log2 0) with 0;
    (destruct (Z.eq_dec j 0) as [->|]; [change (2 ^ 0) with 1 in *; lia|lia]).
Qed.

Lemma fill_step k : 0 <= k < 32 -> u32 (Z.lor (Z.shiftl (2 ^ k - 1) 1) 1) = 2 ^ (k + 1) - 1.
Proof.
  intros Hk. rewrite Z.shiftl_mul_pow2 by lia. change (2 ^ 1) with 2.
  pose proof (Z.pow_pos_nonneg 2 k). assert (2 ^ k <= 2 ^ 31) by (apply Z.pow_le_mono_r; lia).
  assert (Z.lor ((2 ^ k - 1) * 2) 1 = (2 ^ k - 1) * 2 + 1) as ->.
  { rewrite Z.mul_comm. destruct (2 ^ k - 1) eqn:E; [reflexivity..|lia]. }
  rewrite Z.pow_add_r by lia. change (2 ^ 1) with 2. rewrite u32_small; mach.
Qed.

Lemma fill_bits_from_spec (fuel : nat) k m :
  is_u32 m -> 0 <= k -> k + Z.of_nat fuel = 33 ->
  exists j, 0 <= j /\ fill_bits_from fuel (2 ^ k - 1) m = 2 ^ j - 1 /\ m < 2 ^ j.
Proof.
  intros Hm. unfold is_u32 in Hm. revert k.
  induction fuel as [|fuel IH]; intros k Hk Hf; cbn [fill_bits_from].
  - exists k. assert (2 ^ 32 <= 2 ^ k) by (apply Z.pow_le_mono_r; lia). split_and!; [done..|lia].
  - destruct (Z.ltb_spec (2 ^ k - 1) m).
    + assert (k < 32) by (apply (Z.pow_lt_mono_r_iff 2); lia).
      rewrite fill_step by lia. apply IH; lia.
    + exists k. split_and!; [done..|lia].
Qed.

(** [fill_bits m] bounds [x | y] and [x ^ y] for all [x] and [y] up to [m]. *)
Lemma fill_bits_or m x y :
  is_u32 m -> 0 <= x <= m -> 0 <= y <= m ->
  0 <= Z.lor x y <= fill_bits m /\ 0 <= Z.lxor x y <= fill_bits m.
Proof.
  intros Hm Hx Hy. destruct (fill_bits_from_spec 33 0 m) as (j & Hj & E & Hlt); [done..|].
  change (2 ^ 0 - 1) with 0 in E. unfold fill_bits. rewrite E.
  pose proof (lor_bound x y j Hj ltac:(lia) ltac:(lia)).
  assert (0 <= Z.lxor x y) by (apply Z.lxor_nonneg; lia).
  assert (Z.lxor x y <= Z.lor x y); [|lia].
  pose proof (Z.sub_lor_land x y). assert (0 <= Z.land x y) by (apply Z.land_nonneg; lia). lia.
Qed.
