(* ===== verification/SxvmShape.v ===== *)
(** * What the first pass of [sxvm_check] establishes (src/arch/common/sxvm.c)

    Every accepted program is made of well-shaped instructions; its loops are
    not nested and their bodies are disjoint ranges inside the program, each
    recorded in [body_of]; jumps go forward and do not cross a loop's edge; and
    the returned bound is the sum of the weights of the instructions outside
    loops, a loop weighing [1 + count * length]. *)

From S2P Require Import Prelude Sxvm SxvmDomain.

(** The values a C [sxvm_insn] can hold. *)
Definition insn_typed (x : sxvm_insn) : Prop :=
  is_u8 (op x) /\ is_u8 (d x) /\ is_u8 (s x) /\ - 2 ^ 31 <= imm x < 2 ^ 31.

Definition insn_shape (x : sxvm_insn) : Prop :=
  1 <= op x < SX_NOP_LAST /\
  (is_loop (op x) = false -> d x < SXVM_NREG) /\
  (reads_s (op x) = true -> s x < SXVM_NREG) /\
  ((op x = 12 \/ op x = 13) -> 0 <= imm x <= 31) /\
  (is_loop (op x) = true -> 1 <= d x /\ 1 <= imm x <= SXVM_LOOPMAX).

(** ** Weights *)

Definition weight (body : array Z) (i : Z) (x : sxvm_insn) : Z :=
  if 0 <=? body i then 0 else if is_loop (op x) then 1 + imm x * d x else 1.

Fixpoint rest (body : array Z) (i : Z) (p : list sxvm_insn) : Z :=
  match p with
  | [] => 0
  | x :: p => weight body i x + rest body (i + 1) p
  end.

Record loops_ok (prog : list sxvm_insn) (body : array Z) : Prop := {
  lo_shape : forall i, 0 <= i < lenz prog -> insn_shape (insn_at prog i);
  lo_body : forall i k, 0 <= i < lenz prog -> is_loop (op (insn_at prog i)) = true ->
    i < k <= i + d (insn_at prog i) -> body k = i;
  lo_out : forall i, 0 <= i < lenz prog -> is_loop (op (insn_at prog i)) = true -> body i < 0;
  lo_end : forall i, 0 <= i < lenz prog -> is_loop (op (insn_at prog i)) = true ->
    i + d (insn_at prog i) < lenz prog;
  lo_owner : forall k, 0 <= body k ->
    body k < lenz prog /\ is_loop (op (insn_at prog (body k))) = true /\
    body k < k <= body k + d (insn_at prog (body k))
}.

(** ** The scan *)

(** What the scan knows after the first [i] instructions. *)
Record scan_ok (prog : list sxvm_insn) (i : Z) (a : shape) : Prop := {
  sc_shape : forall j, 0 <= j < i -> insn_shape (insn_at prog j);
  sc_body : forall j k, 0 <= j < i -> is_loop (op (insn_at prog j)) = true ->
    j < k <= j + d (insn_at prog j) -> body_of a k = j;
  sc_out : forall j, 0 <= j < i -> is_loop (op (insn_at prog j)) = true -> body_of a j < 0;
  sc_end : forall j, 0 <= j < i -> is_loop (op (insn_at prog j)) = true ->
    j + d (insn_at prog j) < lenz prog;
  sc_owner : forall k, 0 <= body_of a k ->
    body_of a k < i /\ is_loop (op (insn_at prog (body_of a k))) = true /\
    body_of a k < k <= body_of a k + d (insn_at prog (body_of a k));
  sc_ahead : forall k, i <= k -> (0 <= body_of a k <-> k <= sh_lb1 a);
  sc_cur : (sh_lb0 a = -1 /\ sh_lb1 a = -1) \/ (0 < sh_lb0 a <= sh_lb1 a)
}.

Lemma insn_at_nth prog i x rest0 :
  0 <= i -> drop (Z.to_nat i) prog = x :: rest0 ->
  insn_at prog i = x /\ i < lenz prog /\ drop (Z.to_nat (i + 1)) prog = rest0.
Proof.
  intros Hi Hd. assert (Hl : prog !! Z.to_nat i = Some x).
  { rewrite <- (Nat.add_0_r (Z.to_nat i)), <- lookup_drop, Hd. done. }
  split_and!.
  - unfold insn_at, getz. destruct (Z.ltb_spec i 0); [lia|]. by rewrite nth_lookup, Hl.
  - apply lookup_lt_Some in Hl. unfold lenz. lia.
  - replace (Z.to_nat (i + 1)) with (Z.to_nat i + 1)%nat by lia.
    by rewrite <- drop_drop, Hd.
Qed.

Lemma insn_at_typed prog i : Forall insn_typed prog -> insn_typed (insn_at prog i).
Proof.
  intros. apply (getz_Forall insn_typed); [done|]. unfold insn_typed, nop, is_u8; simpl; lia.
Qed.

(** The shape tests of one instruction, as propositions. *)
Lemma shape_insn_spec n i x a a' :
  shape_insn n i x a = inr a' ->
  1 <= op x < SX_NOP_LAST /\
  (is_loop (op x) = false -> d x < SXVM_NREG) /\
  (reads_s (op x) = true -> s x < SXVM_NREG) /\
  ((op x = 12 \/ op x = 13) -> 0 <= imm x <= 31) /\
  exists b0 b1, (b0, b1) = (if sh_lb1 a <? i then (-1, -1) else (sh_lb0 a, sh_lb1 a)) /\
  ((is_loop (op x) = true /\ b0 < 0 /\ 1 <= d x /\ 1 <= imm x <= SXVM_LOOPMAX /\ i + d x < n /\
      a' = Shape (i + 1) (i + d x) (own_body (body_of a) (i + 1) (i + d x) i)
             (bound a + (1 + imm x * d x))) \/
   (is_loop (op x) = false /\
      a' = Shape b0 b1 (body_of a) (bound a + if b0 <? 0 then 1 else 0))).
Proof.
  unfold shape_insn. intros H.
  destruct ((op x <? 1) || (SX_NOP_LAST <=? op x)) eqn:E1; [done|].
  destruct (negb (is_loop (op x)) && (SXVM_NREG <=? d x)) eqn:E2; [done|].
  destruct (reads_s (op x) && (SXVM_NREG <=? s x)) eqn:E3; [done|].
  destruct (((op x =? 12) || (op x =? 13)) && ((imm x <? 0) || (31 <? imm x))) eqn:E4; [done|].
  bools. split; [lia|]. split.
  { intros Hl. rewrite Hl in E2. simpl in E2. lia. }
  split. { intros Hs. rewrite Hs in E3. simpl in E3. lia. }
  split. { intros Ho. destruct Ho as [Ho|Ho]; rewrite Ho in E4; simpl in E4; lia. }
  destruct (if sh_lb1 a <? i then _ else _) as [b0 b1] eqn:Eb.
  exists b0, b1. split; [done|].
  destruct (is_loop (op x)) eqn:El.
  - left. split_ifs H. bools. injection H as <-. split_and!; (done || lia).
  - right. split; [done|]. destruct (b0 <? 0) eqn:E; injection H as <-; [done|].
    by rewrite Z.add_0_r.
Qed.

Lemma shape_insn_scan prog i a a' :
  0 <= i < lenz prog -> insn_typed (insn_at prog i) -> scan_ok prog i a ->
  shape_insn (lenz prog) i (insn_at prog i) a = inr a' ->
  scan_ok prog (i + 1) a' /\
  (forall k, k <= i -> body_of a' k = body_of a k) /\
  bound a' = bound a + weight (body_of a) i (insn_at prog i).
Proof.
  intros Hi Ht Hsc H.
  apply shape_insn_spec in H as (Hop & Hd & Hs & Him & b0 & b1 & Hb & H).
  destruct Hsc as [S1 S2 S3 S4 S5 S6 S7]. set (x := insn_at prog i) in *.
  assert (Hbi : 0 <= body_of a i <-> 0 <= b0).
  { rewrite S6 by lia. destruct (Z.ltb_spec (sh_lb1 a) i); injection Hb as -> ->; lia. }
  assert (Hx : insn_shape x).
  { unfold insn_shape. split_and!; try (done || lia). intros Hl. destruct H as [H|H]; [lia|].
    destruct H as [H _]. congruence. }
  destruct H as [(Hl & Hb0 & Hd1 & Him1 & He & ->)|(Hl & ->)]; simpl.
  - assert (Hahead : forall k, i <= k -> body_of a k < 0).
    { intros k Hk. destruct (Z.le_gt_cases 0 (body_of a k)) as [Hc|]; [|done].
      apply S6 in Hc; [|lia]. destruct (Z.ltb_spec (sh_lb1 a) i); injection Hb as -> ->; lia. }
    assert (Hown : forall k, own_body (body_of a) (i + 1) (i + d x) i k =
                     if decide (i < k <= i + d x) then i else body_of a k).
    { intros k. unfold own_body. case_decide.
      - by rewrite (proj2 (Z.leb_le _ _)), (proj2 (Z.leb_le _ _)) by lia.
      - destruct (Z.leb_spec (i + 1) k), (Z.leb_spec k (i + d x)); try done; lia. }
    split; [|split].
    + split; simpl.
      * intros j Hj. destruct (decide (j = i)) as [->|]; [done|apply S1; lia].
      * intros j k Hj Hlj Hk. rewrite Hown. destruct (decide (j = i)) as [->|].
        { by rewrite decide_True by done. }
        rewrite decide_False; [apply S2; (done || lia)|].
        intros ?. assert (0 <= body_of a k) by (rewrite (S2 j k); (done || lia)).
        specialize (Hahead k ltac:(lia)). lia.
      * intros j Hj Hlj. rewrite Hown, decide_False by lia.
        destruct (decide (j = i)) as [->|]; [apply Hahead; lia|apply S3; (done || lia)].
      * intros j Hj Hlj. destruct (decide (j = i)) as [->|]; [by fold x; lia|apply S4; (done || lia)].
      * intros k. rewrite Hown. case_decide; [intros _; fold x; split_and!; (done || lia)|].
        intros Hk. specialize (S5 k Hk) as (? & ? & ?). split_and!; (done || lia).
      * intros k Hk. rewrite Hown. case_decide; [split; lia|].
        specialize (Hahead k ltac:(lia)). split; lia.
      * right. lia.
    + intros k Hk. rewrite Hown, decide_False by lia. done.
    + unfold weight. rewrite Hl. specialize (Hahead i ltac:(lia)).
      destruct (Z.leb_spec 0 (body_of a i)); [lia|]. done.
  - split; [|split].
    + split; simpl; try (intros; by auto).
      * intros j Hj. destruct (decide (j = i)) as [->|]; [done|apply S1; lia].
      * intros j k Hj Hlj. destruct (decide (j = i)) as [->|]; [by fold x in Hlj; rewrite Hl in Hlj|].
        apply S2; (done || lia).
      * intros j Hj Hlj. destruct (decide (j = i)) as [->|]; [by fold x in Hlj; rewrite Hl in Hlj|].
        apply S3; (done || lia).
      * intros j Hj Hlj. destruct (decide (j = i)) as [->|]; [by fold x in Hlj; rewrite Hl in Hlj|].
        apply S4; (done || lia).
      * intros k Hk. specialize (S5 k Hk) as (? & ? & ?). split_and!; (done || lia).
      * intros k Hk. rewrite S6 by lia.
        destruct (Z.ltb_spec (sh_lb1 a) i); injection Hb as -> ->; lia.
      * destruct (Z.ltb_spec (sh_lb1 a) i); injection Hb as -> ->; lia.
    + done.
    + unfold weight. rewrite Hl.
      destruct (Z.ltb_spec b0 0), (Z.leb_spec 0 (body_of a i)); lia.
Qed.

Lemma scan_init prog : scan_ok prog 0 shape_init.
Proof. split; simpl; intros; try lia. Qed.

Lemma shape_pass_scan prog l i a a' :
  Forall insn_typed prog -> 0 <= i -> drop (Z.to_nat i) prog = l ->
  scan_ok prog i a -> shape_pass (lenz prog) i l a = inr a' ->
  scan_ok prog (i + lenz l) a' /\
  (forall k, k < i -> body_of a' k = body_of a k) /\
  bound a' = bound a + rest (body_of a') i l.
Proof.
  intros Ht. revert i a. induction l as [|x l IH]; simpl; intros i a Hi Hd Hsc H.
  - injection H as <-. rewrite Z.add_0_r. split_and!; (done || lia).
  - destruct (insn_at_nth prog i x l Hi Hd) as (<- & Hlt & Hd').
    destruct (shape_insn _ _ _ _) as [|a1] eqn:E; [done|].
    apply shape_insn_scan in E as (Hsc1 & Hb1 & Hbd1); [|lia| |done].
    2:{ by apply insn_at_typed. }
    apply IH in H as (Hsc2 & Hb2 & Hbd2); [|lia|done..].
    split_and!.
    + replace (i + lenz (insn_at prog i :: l)) with (i + 1 + lenz l); [done|].
      unfold lenz; simpl; lia.
    + intros k Hk. rewrite Hb2, Hb1 by lia. done.
    + rewrite Hbd2, Hbd1. unfold weight. rewrite (Hb2 i), Hb1 by lia. lia.
Qed.

Lemma shape_pass_ok prog a :
  Forall insn_typed prog -> shape_pass (lenz prog) 0 prog shape_init = inr a ->
  loops_ok prog (body_of a) /\ bound a = rest (body_of a) 0 prog.
Proof.
  intros Ht H. apply shape_pass_scan in H as (Hsc & _ & Hb); [|done..|apply scan_init].
  rewrite Z.add_0_l in Hsc. split; [|done]. destruct Hsc. by split.
Qed.

(** ** Jumps *)

Lemma jumps_pass_at prog body l i j :
  0 <= i -> drop (Z.to_nat i) prog = l -> jumps_pass prog body i l = true ->
  i <= j < lenz prog -> jump_bad prog body j (insn_at prog j) = false.
Proof.
  revert i. induction l as [|x l IH]; simpl; intros i Hi Hd H Hj.
  - assert (length (drop (Z.to_nat i) prog) = 0%nat) as Hl by (by rewrite Hd).
    rewrite length_drop in Hl. unfold lenz in Hj. lia.
  - destruct (insn_at_nth prog i x l Hi Hd) as (<- & Hlt & Hd').
    destruct (jump_bad prog body i (insn_at prog i)) eqn:E; [done|].
    destruct (decide (i = j)) as [<-|]; [exact E|]. apply (IH (i + 1)); (done || lia).
Qed.

(** ** Sums of weights *)

Section Weights.
Context (prog : list sxvm_insn) (body : array Z) (Hok : loops_ok prog body).

Definition after (i : Z) : Z := rest body i (drop (Z.to_nat i) prog).

Lemma after_step i :
  0 <= i < lenz prog -> after i = weight body i (insn_at prog i) + after (i + 1).
Proof.
  intros Hi. unfold after. destruct (drop (Z.to_nat i) prog) as [|x l] eqn:E.
  - assert (length (drop (Z.to_nat i) prog) = 0%nat) as Hl by (by rewrite E).
    rewrite length_drop in Hl. unfold lenz in Hi. lia.
  - destruct (insn_at_nth prog i x l) as (<- & _ & ->); (done || lia).
Qed.

Lemma after_end i : lenz prog <= i -> after i = 0.
Proof. intros Hi. unfold after. rewrite drop_ge; [done|]. unfold lenz in Hi. lia. Qed.

Lemma weight_nonneg i : 0 <= i < lenz prog -> 0 <= weight body i (insn_at prog i).
Proof.
  intros Hi. unfold weight. destruct (0 <=? body i); [done|].
  destruct (is_loop _) eqn:E; [|done].
  destruct (lo_shape _ _ Hok i Hi) as (_ & _ & _ & _ & Hl). specialize (Hl E). nia.
Qed.

Lemma after_mono i j : 0 <= i <= j -> after j <= after i.
Proof.
  intros [Hi Hj]. revert j Hj. apply (Zlt_lower_bound_ind (fun j => after j <= after i)).
  intros j IH Hj. destruct (decide (i = j)) as [->|]; [done|].
  specialize (IH (j - 1) ltac:(lia)).
  destruct (Z.le_gt_cases (lenz prog) (j - 1)).
  - rewrite (after_end (j - 1)) in IH by lia. rewrite after_end by lia. done.
  - rewrite (after_step (j - 1)) in IH by lia. pose proof (weight_nonneg (j - 1)).
    replace (j - 1 + 1) with j in IH by lia. lia.
Qed.

(** Past an instruction outside every loop at least one step is left over. *)
Lemma after_out i t :
  0 <= i < lenz prog -> body i < 0 -> i < t -> after t + 1 <= after i.
Proof.
  intros Hi Hb Ht. rewrite (after_step i) by done.
  pose proof (after_mono (i + 1) t). unfold weight.
  destruct (Z.leb_spec 0 (body i)); [lia|].
  destruct (is_loop _) eqn:E; [|lia].
  destruct (lo_shape _ _ Hok i Hi) as (_ & _ & _ & _ & Hl). specialize (Hl E). nia.
Qed.

(** The body of a loop weighs nothing. *)
Lemma after_loop i :
  0 <= i < lenz prog -> is_loop (op (insn_at prog i)) = true ->
  after i = 1 + imm (insn_at prog i) * d (insn_at prog i) + after (i + d (insn_at prog i) + 1).
Proof.
  intros Hi Hl. set (x := insn_at prog i) in *.
  pose proof (lo_out _ _ Hok i Hi Hl) as Ho. pose proof (lo_end _ _ Hok i Hi Hl) as He.
  fold x in He. destruct (lo_shape _ _ Hok i Hi) as (_ & _ & _ & _ & Hs). specialize (Hs Hl).
  fold x in Hs.
  assert (Hskip : forall k, i + 1 <= k -> k <= i + d x + 1 -> after (i + 1) = after k).
  { apply (Zlt_lower_bound_ind (fun k => k <= i + d x + 1 -> after (i + 1) = after k)).
    intros k IH Hk Hk'. destruct (decide (k = i + 1)) as [->|]; [done|].
    rewrite (IH (k - 1)) by lia. rewrite (after_step (k - 1)) by lia.
    unfold weight. rewrite (lo_body _ _ Hok i (k - 1) Hi Hl) by (fold x; lia).
    destruct (Z.leb_spec 0 i); [|lia]. by replace (k - 1 + 1) with k by lia. }
  rewrite (after_step i) by done. fold x. rewrite (Hskip (i + d x + 1)) by lia.
  unfold weight. fold x. rewrite Hl. destruct (Z.leb_spec 0 (body i)); lia.
Qed.
End Weights.
