(* ===== verification/SxvmSound.v ===== *)
(** * Soundness of the checker (src/arch/common/sxvm.c)

    [sxvm_run] cannot trap on a program [sxvm_check] accepts: it returns
    through EXIT within the bound the checker returned. *)

From S2P Require Import Prelude Sxvm SxvmDomain SxvmShape.

(** ** Opcodes *)

Definition sx_code (c : sx_op) : Z :=
  match c with
  | SX_MOVI => 1 | SX_MOV => 2 | SX_ADD => 3 | SX_SUB => 4 | SX_MUL => 5 | SX_AND => 6
  | SX_OR => 7 | SX_XOR => 8 | SX_DIV => 9 | SX_ADDI => 10 | SX_ANDI => 11 | SX_SHLI => 12
  | SX_SHRI => 13 | SX_LDB => 14 | SX_STB => 15 | SX_JA => 16 | SX_JEQI => 17 | SX_JLTI => 18
  | SX_JLT => 19 | SX_LOOP => 20 | SX_EXIT => 21 | SX_CALL => 22
  end.

Lemma sx_decode_some b : 1 <= b < SX_NOP_LAST -> exists c, sx_decode b = Some c /\ b = sx_code c.
Proof.
  unfold SX_NOP_LAST. intros Hb.
  assert (Hd : forall c, sx_decode (sx_code c) = Some c) by (by intros []).
  assert (Hc : exists c, b = sx_code c).
  { assert (b = 1 \/ b = 2 \/ b = 3 \/ b = 4 \/ b = 5 \/ b = 6 \/ b = 7 \/ b = 8 \/ b = 9 \/
            b = 10 \/ b = 11 \/ b = 12 \/ b = 13 \/ b = 14 \/ b = 15 \/ b = 16 \/ b = 17 \/
            b = 18 \/ b = 19 \/ b = 20 \/ b = 21 \/ b = 22) as H by lia.
    destruct H as [->|H]; [by exists SX_MOVI|]. destruct H as [->|H]; [by exists SX_MOV|].
    destruct H as [->|H]; [by exists SX_ADD|]. destruct H as [->|H]; [by exists SX_SUB|].
    destruct H as [->|H]; [by exists SX_MUL|]. destruct H as [->|H]; [by exists SX_AND|].
    destruct H as [->|H]; [by exists SX_OR|]. destruct H as [->|H]; [by exists SX_XOR|].
    destruct H as [->|H]; [by exists SX_DIV|]. destruct H as [->|H]; [by exists SX_ADDI|].
    destruct H as [->|H]; [by exists SX_ANDI|]. destruct H as [->|H]; [by exists SX_SHLI|].
    destruct H as [->|H]; [by exists SX_SHRI|]. destruct H as [->|H]; [by exists SX_LDB|].
    destruct H as [->|H]; [by exists SX_STB|]. destruct H as [->|H]; [by exists SX_JA|].
    destruct H as [->|H]; [by exists SX_JEQI|]. destruct H as [->|H]; [by exists SX_JLTI|].
    destruct H as [->|H]; [by exists SX_JLT|]. destruct H as [->|H]; [by exists SX_LOOP|].
    destruct H as [->|H]; [by exists SX_EXIT|]. by exists SX_CALL. }
  destruct Hc as [c ->]. eauto.
Qed.

(** ** Machines *)

Definition wf_vm {C} (m : vm C) : Prop :=
  wf_file (regs m) /\ length (mem m) = 64%nat /\ Forall is_u8 (mem m).

(** What one instruction can do to the machine. *)
Definition same_loop {C} (m m' : vm C) : Prop :=
  lb0 m' = lb0 m /\ lb1 m' = lb1 m /\ rem m' = rem m.

Inductive effect {C} (x : sxvm_insn) (m m' : vm C) : Prop :=
  | eff_write v :
      writes_reg (op x) = true -> is_call (op x) = false -> is_loop (op x) = false ->
      same_loop m m' -> is_u32 v -> pc m' = pc m + 1 ->
      regs m' = setz (regs m) (d x) v -> vinit m' = set_bit (vinit m) (d x) -> effect x m m'
  | eff_call v :
      is_call (op x) = true -> is_loop (op x) = false ->
      same_loop m m' -> is_u32 v -> pc m' = pc m + 1 ->
      regs m' = setz (regs m) 0 v -> vinit m' = Z.lor (clobber (vinit m)) 1 -> effect x m m'
  | eff_loop :
      is_loop (op x) = true -> regs m' = regs m -> vinit m' = vinit m ->
      pc m' = pc m + 1 -> lb0 m' = pc m + 1 -> lb1 m' = pc m + d x -> rem m' = imm x ->
      effect x m m'
  | eff_none :
      is_loop (op x) = false ->
      same_loop m m' -> regs m' = regs m -> vinit m' = vinit m ->
      (pc m' = pc m + 1 \/ is_jump (op x) = true /\ pc m' = pc m + 1 + imm x) -> effect x m m'.

Lemma mem_set_wf (m : list Z) a v :
  length m = 64%nat -> Forall is_u8 m -> length (setz m a (u8 v)) = 64%nat /\ Forall is_u8 (setz m a (u8 v)).
Proof. intros ? ?. rewrite setz_length. split; [done|]. apply setz_Forall; [done|apply u8_range]. Qed.

Lemma exec_effect {C} (env : option (sxvm_env C)) x (m m' : vm C) :
  1 <= op x < SX_NOP_LAST -> is_exit (op x) = false -> exec_insn env x m = inr m' ->
  effect x m m' /\ steps m' = steps m.
Proof.
  intros Hop Hx H. destruct (sx_decode_some _ Hop) as (c & Hc & Ho).
  unfold exec_insn in H. rewrite Hc in H. unfold is_exit in Hx. rewrite Ho in Hx.
  destruct c; simpl in Hx; try discriminate Hx; split_ifs H;
    try (injection H as <-; split; [|done];
         (eapply eff_write; [rewrite Ho; reflexivity..| | | |reflexivity|reflexivity];
            [by split_and!|apply u32_range|reflexivity])).
  all: try (injection H as <-; split; [|done];
            apply eff_none; [by rewrite Ho|by split_and!|done|done|simpl; rewrite ?Ho; auto]).
  - injection H as <-. split; [|done]. by apply eff_loop; rewrite ?Ho.
  - unfold call_insn in H.
    assert (Hcall : forall c v, effect x m (after_call m c v)).
    { intros c v. apply (eff_call _ _ _ (u32 v)); rewrite ?Ho; try done. apply u32_range. }
    split_ifs H; [destruct (env ≫= env_pub) as [pub|]; [destruct (pub _ _) as [c v]|]
                 |destruct (env ≫= env_log) as [log|]]; injection H as <-; auto.
Qed.

Lemma exec_wf {C} (env : option (sxvm_env C)) x (m m' : vm C) :
  wf_vm m -> exec_insn env x m = inr m' -> wf_vm m'.
Proof.
  intros (Hr & Hl & Hm) H. unfold wf_vm.
  unfold exec_insn, call_insn in H. destruct (sx_decode (op x)) as [c|]; [|done].
  destruct c; split_ifs H;
    try (injection H as <-; simpl; split_and!; auto using u32_range, wf_file_set; done).
  - injection H as <-. simpl. split; [done|]. by apply mem_set_wf.
  - destruct (env ≫= env_pub) as [pub|]; [destruct (pub _ _) as [c v]|]; injection H as <-;
      simpl; split_and!; auto using u32_range, wf_file_set.
  - destruct (env ≫= env_log) as [log|]; injection H as <-;
      simpl; split_and!; auto using u32_range, wf_file_set.
Qed.

(** ** Widened loop entries are invariant in the body *)

Definition absorbs (w : sx_state) (x : sxvm_insn) : Prop :=
  (writes_reg (op x) = true -> rlo w (d x) <= 0 /\ FULL <= rhi w (d x)) /\
  (is_call (op x) = true -> rlo w 0 <= 0 /\ FULL <= rhi w 0 /\
     forall r, 1 <= r <= 5 -> bit (init w) r = false).

Definition widens_reg (y : sxvm_insn) (r : Z) : bool :=
  writes_reg (op y) && (r =? d y) || is_call (op y) && (r =? 0).

Lemma widen_insn_spec y w r :
  wf_state w -> (writes_reg (op y) = true -> reg_ok (d y)) -> reg_ok r ->
  rlo (widen_insn y w) r = (if widens_reg y r then 0 else rlo w r) /\
  rhi (widen_insn y w) r = (if widens_reg y r then FULL else rhi w r) /\
  bit (init (widen_insn y w)) r =
    (if is_call (op y) then bit (init w) r && ((r =? 0) || (5 <? r)) else bit (init w) r).
Proof.
  intros [Hl Hh] Hd Hr. unfold widen_insn, widens_reg, clobber_call.
  assert (is_u32 0) by mach. assert (is_u32 FULL) by mach. assert (reg_ok 0) by (unfold reg_ok; lia).
  destruct (writes_reg (op y)) eqn:Ew, (is_call (op y)) eqn:Ec; unfold rlo, rhi; simpl;
    rewrite ?bit_clobber by done; rewrite ?wf_file_getz by eauto with sxvm;
    destruct (r =? 0), (r =? d y); simpl; auto.
Qed.

Lemma writes_reg_ok x :
  insn_shape x -> insn_typed x -> writes_reg (op x) = true -> reg_ok (d x).
Proof.
  unfold insn_shape, insn_typed, writes_reg, is_loop, reg_ok, SXVM_NREG, is_u8.
  intros (_ & H & _) (_ & Ht & _) Hw. bools. split; [lia|]. apply H.
  apply Z.eqb_neq. lia.
Qed.

Lemma widen_insn_keeps x y w :
  wf_state w -> (writes_reg (op x) = true -> reg_ok (d x)) ->
  (writes_reg (op y) = true -> reg_ok (d y)) ->
  absorbs w x -> absorbs (widen_insn y w) x.
Proof.
  intros Hw Hx Hy [H1 H2]. assert (reg_ok 0) by (unfold reg_ok; lia). split.
  - intros Hwr. destruct (widen_insn_spec y w (d x)) as (-> & -> & _); [done..|auto|].
    destruct (widens_reg _ _); [mach|auto].
  - intros Hc. specialize (H2 Hc) as (? & ? & H3).
    destruct (widen_insn_spec y w 0) as (-> & -> & _); [done..|].
    split_and!; [destruct (widens_reg _ _); mach..|].
    intros r Hr. destruct (widen_insn_spec y w r) as (_ & _ & ->); [done..|unfold reg_ok; lia|].
    rewrite H3 by done. by destruct (is_call (op y)).
Qed.

Lemma widen_insn_absorbs x w :
  wf_state w -> (writes_reg (op x) = true -> reg_ok (d x)) -> absorbs (widen_insn x w) x.
Proof.
  intros Hw Hx. assert (reg_ok 0) by (unfold reg_ok; lia). split.
  - intros Hwr. destruct (widen_insn_spec x w (d x)) as (-> & -> & _); auto.
    unfold widens_reg. rewrite Hwr, Z.eqb_refl. simpl. mach.
  - intros Hc. destruct (widen_insn_spec x w 0) as (-> & -> & _); try done.
    unfold widens_reg. rewrite Hc, orb_true_r. split_and!; [mach..|].
    intros r Hr. destruct (widen_insn_spec x w r) as (_ & _ & ->); [done|done|unfold reg_ok; lia|].
    rewrite Hc. destruct (Z.eqb_spec r 0), (Z.ltb_spec 5 r); lia.
Qed.

Lemma widen_fold_absorbs l w x :
  wf_state w -> (forall y, In y l -> writes_reg (op y) = true -> reg_ok (d y)) ->
  (writes_reg (op x) = true -> reg_ok (d x)) ->
  In x l \/ absorbs w x ->
  absorbs (fold_left (fun a x => widen_insn x a) l w) x.
Proof.
  revert w. induction l as [|y l IH]; simpl; intros w Hw Hl Hx H; [by destruct H|].
  apply IH; [by apply wf_widen_insn|auto|done|]. destruct H as [[->|H]|H].
  - right. apply widen_insn_absorbs; auto.
  - by left.
  - right. apply widen_insn_keeps; auto.
Qed.

(** Widening only gives up information. *)
Lemma widen_insn_covers y w rs m :
  wf_state w -> wf_file rs -> (writes_reg (op y) = true -> reg_ok (d y)) ->
  covers w rs m -> covers (widen_insn y w) rs m.
Proof.
  intros Hw Hrs Hy Hc r Hr. destruct (Hc r Hr) as [Hi Hv].
  destruct (widen_insn_spec y w r) as (-> & -> & ->); [done..|].
  assert (is_u32 (getz rs r 0)) by auto with sxvm. split.
  - destruct (is_call _); [intros [? _]%andb_prop|]; auto.
  - destruct (widens_reg _ _); [mach|done].
Qed.

Lemma widen_fold_covers l w rs m :
  wf_state w -> wf_file rs -> (forall y, In y l -> writes_reg (op y) = true -> reg_ok (d y)) ->
  covers w rs m -> covers (fold_left (fun a x => widen_insn x a) l w) rs m.
Proof.
  revert w. induction l as [|y l IH]; simpl; intros w Hw Hrs Hl Hc; [done|].
  apply IH; [by apply wf_widen_insn|done|auto|]. apply widen_insn_covers; auto.
Qed.

(** A body instruction keeps what the widened entry state says. *)
Lemma absorbs_covers {C} w x (m m' : vm C) :
  wf_state w -> wf_file (regs m) -> (writes_reg (op x) = true -> reg_ok (d x)) ->
  absorbs w x -> effect x m m' -> covers w (regs m) (vinit m) -> covers w (regs m') (vinit m').
Proof.
  intros Hw Hrs Hx [H1 H2] He Hc.
  assert (H0 : reg_ok 0) by (unfold reg_ok; lia).
  destruct He as [v Hwr Hcl Hlp _ Hv _ Hr Hi|v Hcl Hlp _ Hv _ Hr Hi|Hlp Hr Hi _ _ _ _|Hlp _ Hr Hi _];
    rewrite Hr, Hi; try done; intros r Hreg; destruct (Hc r Hreg) as [Hb Hvr].
  - specialize (H1 Hwr). specialize (Hx Hwr).
    rewrite bit_set_bit by apply Hx. rewrite wf_file_getz by done.
    destruct (Z.eqb_spec r (d x)) as [->|]; simpl; [|auto]. split; [done|mach].
  - specialize (H2 Hcl) as (? & ? & H3). rewrite wf_file_getz by done. split.
    + intros Hb'. unfold bit in *. rewrite Z.lor_spec. fold (bit (clobber (vinit m)) r).
      rewrite bit_clobber by done. unfold bit. rewrite (Hb Hb').
      destruct (Z.eqb_spec r 0) as [->|]; [done|]. destruct (Z.ltb_spec 5 r); [done|].
      rewrite H3 in Hb' by (unfold reg_ok in Hreg; lia). done.
    + destruct (Z.eqb_spec r 0) as [->|]; [mach|done].
Qed.

(** ** Transfer functions *)

Lemma covers_write st rs m r l h v :
  wf_state st -> wf_file rs -> reg_ok r -> covers st rs m -> 0 <= l -> l <= v <= h ->
  covers (set_range st r l h) (setz rs r (u32 v)) (set_bit m r).
Proof.
  intros. destruct (Z.le_gt_cases h FULL) as [Hh|Hh].
  - rewrite u32_small by mach. apply covers_set_range; try done. mach.
  - unfold set_range. rewrite (proj2 (Z.ltb_lt FULL h)) by lia.
    change (covers (set_range st r 0 FULL) (setz rs r (u32 v)) (set_bit m r)).
    apply covers_set_full; auto with sxvm.
Qed.

Lemma land_le_l x y : 0 <= x -> 0 <= Z.land x y <= x.
Proof.
  intros Hx. split; [apply Z.land_nonneg; lia|].
  assert (Z.ldiff (Z.land x y) x = 0) as H.
  { apply Z.bits_inj'. intros n _. rewrite Z.ldiff_spec, Z.land_spec, Z.bits_0.
    by destruct (Z.testbit x n), (Z.testbit y n). }
  pose proof (Z.sub_nocarry_ldiff x (Z.land x y) H) as H1.
  assert (0 <= Z.ldiff x (Z.land x y)) by (apply Z.ldiff_nonneg; lia). lia.
Qed.
Lemma land_le x y : 0 <= x -> 0 <= y -> 0 <= Z.land x y <= Z.min x y.
Proof.
  intros Hx Hy. pose proof (land_le_l x y Hx). pose proof (land_le_l y x Hy) as H1.
  rewrite Z.land_comm in H1. lia.
Qed.

Lemma land_7 x : reg_ok x -> Z.land x 7 = x.
Proof.
  intros Hx. change 7 with (Z.ones 3). rewrite Z.land_ones by lia. apply Z.mod_small. exact Hx.
Qed.

(** The written-register facts a transfer needs from the shape. *)
Lemma d_reg_ok x : insn_shape x -> insn_typed x -> is_loop (op x) = false -> reg_ok (d x).
Proof.
  unfold insn_shape, insn_typed, reg_ok, SXVM_NREG, is_u8. intros (_ & H & _) (_ & Ht & _) Hl.
  specialize (H Hl). lia.
Qed.
Lemma s_reg_ok x : insn_shape x -> insn_typed x -> reads_s (op x) = true -> reg_ok (s x).
Proof.
  unfold insn_shape, insn_typed, reg_ok, SXVM_NREG, is_u8. intros (_ & _ & H & _) (_ & _ & Ht & _) Hl.
  specialize (H Hl). lia.
Qed.

(** The run-time reads the checker allowed are of written registers. *)
Lemma read_check_reads prog i st rs m :
  insn_shape (insn_at prog i) -> insn_typed (insn_at prog i) ->
  covers st rs m -> read_check (insn_at prog i) st = None ->
  let x := insn_at prog i in
  reads_d (op x) && negb (bit m (d x)) || reads_s (op x) && negb (bit m (s x))
    || is_exit (op x) && negb (bit m 0) = false /\
  (is_call (op x) = true -> bit m 1 = true /\
     (imm x = SXVM_CALL_PUB \/ imm x = SXVM_CALL_LOG) /\
     (imm x = SXVM_CALL_PUB -> bit m 2 = true)).
Proof.
  intros Hs Ht Hc H x. unfold read_check in H. fold x in H, Hs, Ht.
  assert (Hb : forall r, reg_ok r -> bit (init st) r = true -> bit m r = true)
    by (intros r Hr; apply Hc; exact Hr).
  destruct (reads_d (op x) && negb (bit (init st) (d x))) eqn:E1; [done|].
  destruct (reads_s (op x) && negb (bit (init st) (s x))) eqn:E2; [done|].
  destruct (is_exit (op x) && negb (bit (init st) 0)) eqn:E3; [done|].
  destruct (is_call (op x) && _) eqn:E4 in H; [done|].
  destruct (is_call (op x) && _) eqn:E5 in H; [done|]. clear H.
  split.
  - apply orb_false_iff. split; [apply orb_false_iff; split|].
    + destruct (reads_d (op x)) eqn:Er; [|done]. simpl in *. rewrite Hb; [done| |by apply negb_false_iff].
      apply d_reg_ok; [done..|]. unfold reads_d, is_loop in *. lia.
    + destruct (reads_s (op x)) eqn:Er; [|done]. simpl in *. rewrite Hb; [done| |by apply negb_false_iff].
      by apply s_reg_ok.
    + destruct (is_exit (op x)); [|done]. simpl in *. rewrite Hb; [done| |by apply negb_false_iff].
      unfold reg_ok; lia.
  - intros Hcall. rewrite Hcall in E4, E5. simpl in E4, E5. bools.
    assert (reg_ok 1 /\ reg_ok 2) as [? ?] by (unfold reg_ok; lia).
    split; [by apply Hb|]. split.
    + apply orb_true_iff in E4 as [?%Z.eqb_eq|?%Z.eqb_eq]; auto.
    + intros Hp. rewrite Hp in *. simpl in *. apply Hb; [done|]. by apply negb_false_iff.
Qed.

Definition has_edge {C} (es : list (Z * sx_state)) (m : vm C) : Prop :=
  exists e, In (pc m, e) es /\ covers e (regs m) (vinit m).

Lemma edge_here {C} t st (m : vm C) es :
  pc m = t -> covers st (regs m) (vinit m) -> has_edge ((t, mark_reached st) :: es) m.
Proof. intros <- H. exists (mark_reached st). split; [by left|]. by apply covers_mark. Qed.

(** Registers and their ranges, as one fact per register. *)
Lemma covers_reg {C} st (m : vm C) r :
  wf_state st -> wf_file (regs m) -> reg_ok r -> covers st (regs m) (vinit m) ->
  rlo st r <= reg m r <= rhi st r /\ is_u32 (reg m r) /\ is_u32 (rlo st r) /\ is_u32 (rhi st r).
Proof. intros. unfold reg. split_and!; try apply H2; auto with sxvm. Qed.

(** The arithmetic instructions. *)
Lemma transfer_alu {C} (env : option (sxvm_env C)) prog i st es (m : vm C) c :
  let x := insn_at prog i in
  wf_state st -> wf_vm m -> insn_typed x -> insn_shape x -> pc m = i ->
  covers st (regs m) (vinit m) -> sx_decode (op x) = Some c -> op x = sx_code c ->
  writes_reg (op x) = true -> c <> SX_LDB ->
  transfer_switch prog i x st = inr es ->
  exists m', exec_insn env x m = inr m' /\ has_edge es m'.
Proof.
  intros x Hw (Hrs & Hml & Hmb) Ht Hs Hpc Hc Hdec Hop Hwr Hld H.
  pose proof (writes_reg_ok x Hs Ht Hwr) as Hd.
  destruct (covers_reg st m (d x) Hw Hrs Hd Hc) as (Hdv & Hd32 & Hl32 & Hh32).
  pose proof Hs as (_ & _ & _ & Him & _).
  pose proof (s_reg_ok x Hs Ht) as Hsr.
  unfold transfer_switch in H. rewrite Hdec, (land_7 _ Hd) in H.
  unfold exec_insn. rewrite Hdec. rewrite Hop in Hwr, Him, Hsr.
  assert (Hsv : reads_s (sx_code c) = true ->
    rlo st (s x) <= reg m (s x) <= rhi st (s x) /\ is_u32 (reg m (s x)) /\
    is_u32 (rlo st (s x)) /\ is_u32 (rhi st (s x)) /\ Z.land (s x) 7 = s x).
  { intros Hr. destruct (covers_reg st m (s x) Hw Hrs (Hsr Hr) Hc) as (?&?&?&?).
    split_and!; try (done || lia). by apply land_7, Hsr. }
  destruct c; try discriminate Hwr; try done; try specialize (Hsv eq_refl);
    try (destruct Hsv as (Hsv & Hs32 & Hsl32 & Hsh32 & E7); rewrite E7 in H);
    try specialize (Him (or_introl eq_refl)); try specialize (Him (or_intror eq_refl));
    try (rewrite (proj2 (Z.ltb_ge (imm x) 0)), (proj2 (Z.ltb_ge 31 (imm x))) by lia);
    (eexists; split; [reflexivity|]); injection H as <-; apply edge_here; simpl; try lia;
    unfold is_u32 in *.
  - rewrite <- (u32_small (u32 (imm x))) at 3 by apply u32_range.
    pose proof (u32_range (imm x)). apply covers_write; (done || unfold is_u32 in *; lia).
  - apply covers_write; (done || lia).
  - apply covers_add_range; done.
  - destruct (Z.leb_spec (rhi st (s x)) (rlo st (d x))).
    + apply covers_write; (done || lia).
    + apply covers_set_full; auto with sxvm.
  - rewrite !u64_small by nia. apply covers_write; (done || nia).
  - apply covers_write; try done. pose proof (land_le (reg m (d x)) (reg m (s x))). lia.
  - apply covers_write; try done.
    pose proof (fill_bits_or (Z.max (rhi st (d x)) (rhi st (s x))) (reg m (d x)) (reg m (s x))).
    unfold is_u32 in *. lia.
  - apply covers_write; try done.
    pose proof (fill_bits_or (Z.max (rhi st (d x)) (rhi st (s x))) (reg m (d x)) (reg m (s x))).
    unfold is_u32 in *. lia.
  - apply covers_write; try done. destruct (Z.eqb_spec (reg m (s x)) 0); [lia|].
    split; [apply Z.div_pos; lia|]. apply Z.div_le_upper_bound; nia.
  - apply covers_add_range; done.
  - pose proof (u32_range (imm x)). apply covers_write; try done.
    pose proof (land_le (reg m (d x)) (u32 (imm x))). unfold is_u32 in *. lia.
  - rewrite !Z.shiftl_mul_pow2 by lia.
    assert (2 ^ imm x <= 2 ^ 31) by (apply Z.pow_le_mono_r; lia).
    pose proof (Z.pow_pos_nonneg 2 (imm x)).
    rewrite !u64_small by nia. apply covers_write; (done || nia).
  - rewrite !Z.shiftr_div_pow2 by lia.
    pose proof (Z.pow_pos_nonneg 2 (imm x)).
    apply covers_write; try done; [apply Z.div_pos; lia|].
    split; apply Z.div_le_mono; lia.
Qed.

Lemma mem_ok_access {C} st (m : vm C) r k :
  wf_state st -> wf_file (regs m) -> reg_ok r -> covers st (regs m) (vinit m) ->
  mem_ok st r k = true -> 0 <= reg m r + k < SXVM_MEM.
Proof.
  intros Hw Hr Hreg Hc H. unfold mem_ok in H. bools.
  destruct (covers_reg st m r) as (? & _); try done. unfold SXVM_MEM in *. lia.
Qed.

Lemma transfer_mem {C} (env : option (sxvm_env C)) prog i st es (m : vm C) c :
  let x := insn_at prog i in
  wf_state st -> wf_vm m -> insn_typed x -> insn_shape x -> pc m = i ->
  covers st (regs m) (vinit m) -> sx_decode (op x) = Some c -> op x = sx_code c ->
  c = SX_LDB \/ c = SX_STB ->
  transfer_switch prog i x st = inr es ->
  exists m', exec_insn env x m = inr m' /\ has_edge es m'.
Proof.
  intros x Hw (Hrs & Hml & Hmb) Ht Hs Hpc Hc Hdec Hop Hcase H.
  assert (Hd : reg_ok (d x)).
  { apply d_reg_ok; [done..|]. rewrite Hop. by destruct Hcase as [-> | ->]. }
  assert (Hsr : reg_ok (s x)).
  { apply s_reg_ok; [done..|]. rewrite Hop. by destruct Hcase as [-> | ->]. }
  unfold transfer_switch in H. rewrite Hdec in H. unfold exec_insn. rewrite Hdec.
  destruct Hcase as [-> | ->]; destruct (mem_ok _ _ _) eqn:E; try done; injection H as <-;
    first [pose proof (mem_ok_access _ m _ _ Hw Hrs Hsr Hc E) as Ha
          |pose proof (mem_ok_access _ m _ _ Hw Hrs Hd Hc E) as Ha];
    rewrite (proj2 (Z.ltb_ge _ 0)), (proj2 (Z.leb_gt SXVM_MEM _)) by lia;
    (eexists; split; [reflexivity|]); apply edge_here; simpl; try (rewrite ?Hpc; done).
  apply covers_write; try done.
  assert (is_u8 (getz (mem m) (reg m (s x) + imm x) 0)) by (apply getz_Forall; [done|mach]).
  unfold is_u8 in *. lia.
Qed.

Lemma branch_sound {C} x o st (m : vm C) :
  wf_state st -> wf_file (regs m) -> reg_ok (d x) -> (o = SX_JLT -> reg_ok (s x)) ->
  covers st (regs m) (vinit m) -> o = SX_JEQI \/ o = SX_JLTI \/ o = SX_JLT ->
  let taken := match o with
               | SX_JEQI => reg m (d x) =? s x
               | SX_JLTI => reg m (d x) <? s x
               | _ => reg m (d x) <? reg m (s x)
               end in
  exists b, (if taken then fst (branch x o st) else snd (branch x o st)) = Some b /\
            covers b (regs m) (vinit m).
Proof.
  intros Hw Hrs Hd Hs Hc Ho. 
  destruct (covers_reg st m (d x)) as (Hdv & Hd32 & Hl32 & Hh32); try done.
  unfold is_u32, reg in *.
  destruct Ho as [->|[-> | ->]]; unfold branch; simpl.
  - destruct (Z.eqb_spec (getz (regs m) (d x) 0) (s x)) as [E|E].
    + rewrite (proj2 (Z.ltb_ge (s x) _)), (proj2 (Z.ltb_ge _ (s x))) by lia. simpl.
      eexists; split; [done|]. assert (is_u32 (s x)) by mach.
      apply covers_put_hi; try (done || lia); [by apply wf_put_lo|].
      apply covers_put_lo; (done || lia).
    + destruct (Z.eqb_spec (rlo st (d x)) (s x)), (Z.eqb_spec (rhi st (d x)) (s x)); simpl;
        try lia; by eexists.
  - destruct (Z.ltb_spec (getz (regs m) (d x) 0) (s x)) as [E|E].
    + rewrite (proj2 (Z.ltb_lt _ (s x))) by lia. eexists; split; [done|].
      destruct (_ <? _); [|done]. apply covers_put_hi; (done || lia).
    + rewrite (proj2 (Z.leb_le (s x) _)) by lia. eexists; split; [done|].
      destruct (_ <? _); [|done]. apply covers_put_lo; (done || lia).
  - specialize (Hs eq_refl). destruct (covers_reg st m (s x)) as (Hsv & Hs32 & Hsl & Hsh); try done.
    unfold is_u32, reg in *.
    destruct (Z.eqb_spec (d x) (s x)) as [E|E].
    { rewrite E. rewrite Z.ltb_irrefl. by eexists. }
    destruct (Z.ltb_spec (getz (regs m) (d x) 0) (getz (regs m) (s x) 0)) as [El|El].
    + rewrite (proj2 (Z.ltb_lt _ (rhi st (s x)))) by lia. eexists; split; [done|].
      set (tk := if rhi st (s x) - 1 <? rhi st (d x) then put_hi st (d x) (rhi st (s x) - 1) else st).
      assert (covers tk (regs m) (vinit m) /\ wf_state tk) as [? ?].
      { unfold tk. destruct (_ <? _); [|by split].
        split; [apply covers_put_hi; (done || lia)|apply wf_put_hi; [done|mach]]. }
      clearbody tk. destruct (_ <? _); [|done]. apply covers_put_lo; (done || lia).
    + rewrite (proj2 (Z.leb_le (rlo st (s x)) _)) by lia. eexists; split; [done|].
      set (fl := if rlo st (d x) <? rlo st (s x) then put_lo st (d x) (rlo st (s x)) else st).
      assert (covers fl (regs m) (vinit m) /\ wf_state fl) as [? ?].
      { unfold fl. destruct (_ <? _); [|by split].
        split; [apply covers_put_lo; (done || lia)|apply wf_put_lo; [done|mach]]. }
      clearbody fl. destruct (_ <? _); [|done]. apply covers_put_hi; (done || lia).
Qed.

Lemma opt_edges_in {C} t1 t2 tk fl (m : vm C) (b : bool) st :
  (if b then tk else fl) = Some st -> covers st (regs m) (vinit m) ->
  pc m = (if b then t1 else t2) -> has_edge (opt_edge t1 tk ++ opt_edge t2 fl) m.
Proof.
  intros Hb Hc Hp. exists (mark_reached st). rewrite Hp. split; [|by apply covers_mark].
  apply in_or_app. destruct b; subst; [left|right]; by left.
Qed.

Lemma transfer_jump {C} (env : option (sxvm_env C)) prog i st es (m : vm C) c :
  let x := insn_at prog i in
  wf_state st -> wf_vm m -> insn_typed x -> insn_shape x -> pc m = i ->
  covers st (regs m) (vinit m) -> sx_decode (op x) = Some c -> op x = sx_code c ->
  is_jump (op x) = true ->
  transfer_switch prog i x st = inr es ->
  exists m', exec_insn env x m = inr m' /\ has_edge es m'.
Proof.
  intros x Hw (Hrs & Hml & Hmb) Ht Hs Hpc Hc Hdec Hop Hj H.
  assert (Hd : reg_ok (d x)).
  { apply d_reg_ok; [done..|]. rewrite Hop in *. by destruct c. }
  assert (Hsr : c = SX_JLT -> reg_ok (s x)).
  { intros ->. apply s_reg_ok; [done..|]. by rewrite Hop. }
  unfold transfer_switch in H. rewrite Hdec in H. unfold exec_insn. rewrite Hdec. rewrite Hop in Hj.
  destruct c; try discriminate Hj; (eexists; split; [reflexivity|]).
  { injection H as <-. apply edge_here; simpl; [by rewrite Hpc|done]. }
  all: destruct (branch x _ st) as [tk fl] eqn:Eb; injection H as <-.
  1: destruct (branch_sound x SX_JEQI st m) as (b & Hb & Hcb); [done..|by auto|].
  2: destruct (branch_sound x SX_JLTI st m) as (b & Hb & Hcb); [done..|by auto|].
  3: destruct (branch_sound x SX_JLT st m) as (b & Hb & Hcb); [done..|by auto|by auto|].
  all: rewrite Eb in Hb; eapply opt_edges_in; [exact Hb|exact Hcb|]; simpl; by rewrite Hpc.
Qed.

Lemma loop_body_in prog i len y :
  0 <= i -> 0 <= len -> In y (loop_body prog i len) ->
  exists k, i < k <= i + len /\ k < lenz prog /\ y = insn_at prog k.
Proof.
  intros Hi Hlen Hy. unfold loop_body in Hy. apply list_elem_of_In, list_elem_of_lookup in Hy as [j Hj].
  apply lookup_take_Some in Hj as [Hj Hlt]. rewrite lookup_drop in Hj.
  exists (i + 1 + Z.of_nat j). split; [lia|]. pose proof (lookup_lt_Some _ _ _ Hj).
  split; [unfold lenz; lia|]. unfold insn_at, getz.
  rewrite (proj2 (Z.ltb_ge _ 0)) by lia. rewrite nth_lookup.
  replace (Z.to_nat (i + 1 + Z.of_nat j)) with (Z.to_nat (i + 1) + j)%nat by lia. by rewrite Hj.
Qed.

Lemma in_loop_body prog i len k :
  0 <= i -> i < k <= i + len -> k < lenz prog -> In (insn_at prog k) (loop_body prog i len).
Proof.
  intros Hi Hk Hn. unfold loop_body. apply list_elem_of_In, list_elem_of_lookup.
  exists (Z.to_nat (k - i - 1)). apply lookup_take_Some. split; [|lia].
  rewrite lookup_drop. replace (Z.to_nat (i + 1) + Z.to_nat (k - i - 1))%nat with (Z.to_nat k) by lia.
  unfold insn_at, getz. rewrite (proj2 (Z.ltb_ge _ 0)) by lia. rewrite nth_lookup.
  destruct (lookup_lt_is_Some_2 prog (Z.to_nat k)) as [y Hy]; [unfold lenz in Hn; lia|]. by rewrite Hy.
Qed.

Lemma transfer_call {C} (env : option (sxvm_env C)) prog i st es (m : vm C) :
  let x := insn_at prog i in
  wf_state st -> wf_vm m -> pc m = i -> covers st (regs m) (vinit m) ->
  sx_decode (op x) = Some SX_CALL ->
  bit (vinit m) 1 = true -> (imm x = SXVM_CALL_PUB \/ imm x = SXVM_CALL_LOG) ->
  (imm x = SXVM_CALL_PUB -> bit (vinit m) 2 = true) ->
  transfer_switch prog i x st = inr es ->
  exists m', exec_insn env x m = inr m' /\ has_edge es m'.
Proof.
  intros x Hw (Hrs & Hml & Hmb) Hpc Hc Hdec H1 Him H2 H.
  unfold transfer_switch in H. rewrite Hdec in H.
  destruct ((imm x =? SXVM_CALL_PUB) && (SXVM_MEM <? rhi st 1 + rhi st 2)) eqn:E; [done|].
  injection H as <-.
  assert (Hafter : forall c v, has_edge [(i + 1, mark_reached (set_range (clobber_call st) 0 0 FULL))]
                                 (after_call m c v)).
  { intros c v. apply edge_here; simpl; [by rewrite Hpc|].
    assert (Hcc : covers (clobber_call st) (regs m) (clobber (vinit m))).
    { intros r Hr. destruct (Hc r Hr) as [Hi Hv]. split; [|exact Hv]. simpl.
      rewrite !bit_clobber by done. intros [Hb Hb']%andb_prop. rewrite Hi by done. done. }
    apply (covers_set_full _ _ _ 0 (u32 v)) in Hcc; auto with sxvm. unfold reg_ok; lia. }
  unfold exec_insn. rewrite Hdec. unfold call_insn. rewrite H1. simpl.
  destruct (Z.eqb_spec (imm x) SXVM_CALL_PUB) as [Ep|Ep].
  - rewrite (H2 Ep). simpl in *. apply Z.ltb_ge in E.
    destruct (covers_reg st m 1) as (? & _); try done. destruct (covers_reg st m 2) as (? & _); try done.
    rewrite (proj2 (Z.ltb_ge SXVM_MEM _)) by lia.
    destruct (env ≫= env_pub) as [pub|]; [destruct (pub _ _) as [c v]|]; eauto.
  - destruct Him as [|Him]; [done|]. rewrite Him. simpl.
    destruct (env ≫= env_log) as [log|]; eauto.
Qed.

(** Every instruction but EXIT: the interpreter does not trap, and the machine
    it leaves is covered by an out-edge of the checker. *)
Lemma transfer_sound {C} (env : option (sxvm_env C)) prog i st es (m : vm C) :
  let x := insn_at prog i in
  wf_state st -> wf_vm m -> insn_typed x -> insn_shape x -> pc m = i ->
  covers st (regs m) (vinit m) -> is_exit (op x) = false ->
  (forall y, In y (loop_body prog i (d x)) -> writes_reg (op y) = true -> reg_ok (d y)) ->
  (is_loop (op x) = true -> lb0 m < 0) ->
  transfer prog i st = inr es ->
  exists m', exec_insn env x m = inr m' /\ has_edge es m'.
Proof.
  intros x Hw Hm Ht Hs Hpc Hc Hx Hbody Hlb H. unfold transfer in H. fold x in H.
  destruct (read_check x st) eqn:Er; [done|].
  destruct (read_check_reads prog i st (regs m) (vinit m)) as (_ & Hcall); [done..|]. fold x in Hcall.
  destruct (sx_decode_some (op x)) as (c & Hdec & Hop); [apply Hs|].
  destruct (writes_reg (op x)) eqn:Ew.
  { destruct (decide (c = SX_LDB)) as [->|Hne]; [eapply transfer_mem; eauto|eapply transfer_alu; eauto]. }
  destruct (is_jump (op x)) eqn:Ej; [eapply transfer_jump; eauto|].
  rewrite Hop in Ew, Ej, Hx, Hcall, Hlb.
  destruct c; try done.
  - eapply transfer_mem; eauto.
  - unfold transfer_switch in H. rewrite Hdec in H. injection H as <-.
    unfold exec_insn. rewrite Hdec. pose proof Hs as (_ & _ & _ & _ & Hl).
    rewrite Hop in Hl. specialize (Hl eq_refl). specialize (Hlb eq_refl).
    rewrite (proj2 (Z.leb_gt 0 _)), !(proj2 (Z.ltb_ge _ 1)) by lia.
    eexists; split; [reflexivity|]. apply edge_here; simpl; [by rewrite Hpc|].
    destruct Hm as (Hrs & _). by apply widen_fold_covers.
  - destruct (Hcall eq_refl) as (? & ? & ?). eapply transfer_call; eauto.
Qed.

(** ** The state table of the second pass *)

Definition wf_table (st : array sx_state) : Prop := forall i, wf_state (st i).

Lemma wf_branch x o st :
  is_u8 (s x) -> wf_state st -> forall b, fst (branch x o st) = Some b \/ snd (branch x o st) = Some b ->
  wf_state b.
Proof.
  intros Hs Hw b. assert (is_u32 (s x)) by mach.
  pose proof (rlo_u32 st (d x) Hw). pose proof (rhi_u32 st (d x) Hw).
  pose proof (rlo_u32 st (s x) Hw). pose proof (rhi_u32 st (s x) Hw).
  unfold branch. unfold is_u8, is_u32 in *.
  destruct o; simpl; repeat (case_match; simpl); bools;
    intros [Hb|Hb]; try done; injection Hb as <-; try done;
    repeat (apply wf_put_hi || apply wf_put_lo); try done; unfold is_u32; lia.
Qed.

Lemma wf_mark st : wf_state st -> wf_state (mark_reached st).
Proof. done. Qed.

Lemma wf_transfer prog i st es :
  wf_state st -> insn_typed (insn_at prog i) -> transfer prog i st = inr es ->
  Forall (fun e => wf_state (snd e) /\ reached (snd e) = true) es.
Proof.
  intros Hw (_ & _ & Hs & _) H. unfold transfer in H. destruct (read_check _ _); [done|].
  unfold transfer_switch in H. set (x := insn_at prog i) in *.
  assert (Hclob : wf_state (clobber_call st)) by done.
  assert (Hbr : forall o, (let '(tk, fl) := branch x o st in
            inr (opt_edge (i + 1 + imm x) tk ++ opt_edge (i + 1) fl)) = (inr es : sx_err + _) ->
            Forall (fun e => wf_state (snd e) /\ reached (snd e) = true) es).
  { intros o Hb. pose proof (wf_branch x o st Hs Hw) as Hwb.
    destruct (branch x o st) as [tk fl]. injection Hb as <-. simpl in Hwb.
    apply Forall_app. split; [destruct tk|destruct fl]; simpl; repeat constructor;
      try apply wf_mark; auto. }
  destruct (sx_decode (op x)) as [c|]; [|done].
  assert (Hfall : forall (t : Z) st', wf_state st' ->
            Forall (fun e => wf_state (snd e) /\ reached (snd e) = true) [(t, mark_reached st')])
    by (intros t st' ?; apply Forall_singleton; by split; [apply wf_mark|]).
  destruct c; split_ifs H; try (injection H as <-; apply Hfall; auto using wf_widen with sxvm; done);
    eauto.
  by injection H as <-.
Qed.

(** Joins only grow the table, forward. *)
Lemma join_edges_spec n i es st st' :
  wf_table st -> Forall (fun e => wf_state (snd e) /\ reached (snd e) = true) es ->
  join_edges n i es st = inr st' ->
  wf_table st' /\
  (forall j, j <= i -> st' j = st j) /\
  (forall j, reached (st j) = true -> reached (st' j) = true /\ state_le (st j) (st' j)) /\
  (forall t e, In (t, e) es -> t < n /\
     (i < t -> reached (st' t) = true /\ state_le e (st' t))).
Proof.
  revert st. induction es as [|[t e] es IH]; simpl; intros st Hw Hes H.
  - injection H as <-. split_and!; done.
  - apply Forall_cons_1 in Hes as [[Hwe Hre] Hes]. simpl in *.
    destruct (Z.leb_spec n t); [done|].
    set (st1 := if i <? t then upd st t (st_join (st t) e) else st) in *.
    assert (Hw1 : wf_table st1).
    { intros j. unfold st1. destruct (i <? t); [|done]. unfold upd.
      destruct (j =? t); [by apply wf_join|done]. }
    assert (Hup : forall j, reached (st j) = true -> reached (st1 j) = true /\ state_le (st j) (st1 j)).
    { intros j Hj. unfold st1. destruct (i <? t); [|by split]. unfold upd.
      destruct (Z.eqb_spec j t) as [->|]; [|by split].
      split; [by apply join_reached_l|by apply join_le_l]. }
    apply IH in H as (Hw' & Hsame & Hgrow & Hin); [|done..].
    split_and!; [done|..].
    + intros j Hj. rewrite Hsame by done. unfold st1. destruct (Z.ltb_spec i t); [|done].
      by rewrite upd_ne by lia.
    + intros j Hj. destruct (Hup j Hj) as [Hr1 Hl1]. destruct (Hgrow j Hr1) as [? ?].
      split; [done|by etransitivity].
    + intros t' e' [[= <- <-]|Hin']; [|by apply Hin]. split; [done|]. intros Hlt.
      assert (Ht1 : reached (st1 t) = true /\ state_le e (st1 t)).
      { unfold st1. rewrite (proj2 (Z.ltb_lt i t)) by done. rewrite upd_eq.
        split; [by apply join_reached|by apply join_le_r]. }
      destruct (Hgrow t (proj1 Ht1)) as [? ?]. split; [done|]. by etransitivity; [apply Ht1|].
Qed.

(** The table is a fixpoint: every reached instruction passes its test, and
    every out-edge leads to a state that covers it. *)
Definition table_ok (prog : list sxvm_insn) (i j : Z) (st : array sx_state) : Prop :=
  forall k, i <= k < j -> reached (st k) = true ->
    exists es, transfer prog k (st k) = inr es /\
      forall t e, In (t, e) es -> t < lenz prog /\
        (k < t -> reached (st t) = true /\ state_le e (st t)).

Lemma ranges_pass_spec prog todo i st st' :
  Forall insn_typed prog -> wf_table st -> ranges_pass prog todo i st = inr st' ->
  wf_table st' /\ (forall k, k <= i -> st' k = st k) /\
  (forall j, reached (st j) = true -> reached (st' j) = true /\ state_le (st j) (st' j)) /\
  table_ok prog i (i + Z.of_nat todo) st'.
Proof.
  intros Ht. revert i st. induction todo as [|todo IH]; cbn [ranges_pass]; intros i st Hw H.
  - injection H as <-. split_and!; try done. intros k Hk. lia.
  - destruct (reached (st i)) eqn:Er; simpl in H.
    + destruct (transfer prog i (st i)) as [|es] eqn:Et; [done|].
      destruct (join_edges _ _ _ _) as [|st1] eqn:Ej; [done|].
      pose proof (wf_transfer _ _ _ _ (Hw i) (insn_at_typed prog i Ht) Et) as Hes.
      apply join_edges_spec in Ej as (Hw1 & Hs1 & Hg1 & He1); [|done..].
      apply IH in H as (Hw' & Hs' & Hg' & Hok); [|done].
      split_and!; [done|..].
      * intros k Hk. rewrite Hs' by lia. by apply Hs1.
      * intros j Hj. destruct (Hg1 j Hj) as [Hr ?]. destruct (Hg' j Hr) as [? ?].
        split; [done|by etransitivity].
      * intros k Hk Hr. destruct (decide (k = i)) as [->|]; [|apply Hok; (done || lia)].
        exists es. rewrite Hs', Hs1 by lia. split; [done|]. intros t e Hin.
        destruct (He1 t e Hin) as [? Hlt]. split; [done|]. intros Hit.
        destruct (Hlt Hit) as [Hr1 ?]. destruct (Hg' t Hr1) as [? ?].
        split; [done|by etransitivity].
    + apply IH in H as (Hw' & Hs' & Hg' & Hok); [|done]. split_and!; try done.
      * intros k Hk. apply Hs'. lia.
      * intros k Hk Hr. destruct (decide (k = i)) as [->|]; [|apply Hok; (done || lia)].
        rewrite Hs' in Hr by lia. congruence.
Qed.
