(* ===== verification/SxvmCorrect.v ===== *)
(** * What the checked runtime promises (src/arch/common/sxvm.c)

    The machine invariant that ties a run to the checker's state table, and
    the properties of [sxvm_check] and [sxvm_run]. *)

From S2P Require Import Prelude Sxvm SxvmDomain SxvmShape SxvmSound.

(** ** The invariant of a checked run *)

Section Checked.
Context {C : Type} (prog : list sxvm_insn) (body : array Z) (st : array sx_state).
Context (env : option (sxvm_env C)).
Context (Htyped : Forall insn_typed prog) (Hloops : loops_ok prog body).
Context (Hjumps : forall j, 0 <= j < lenz prog -> jump_bad prog body j (insn_at prog j) = false).
Context (Hwf : wf_table st) (Htable : table_ok prog 0 (lenz prog) st).

Abbreviation at_ i := (insn_at prog i).
Abbreviation len_ i := (d (insn_at prog i)).

Definition covered (m : vm C) : Prop :=
  0 <= pc m < lenz prog /\ reached (st (pc m)) = true /\
  covers (st (pc m)) (regs m) (vinit m).

(** Outside every loop. *)
Definition outside (m : vm C) : Prop :=
  covered m /\ lb0 m < 0 /\ body (pc m) < 0 /\ steps m + after prog body (pc m) <= after prog body 0.

(** In a pass of the loop at [i], [pc m] up to one past the body. *)
Definition inside (i : Z) (m : vm C) : Prop :=
  covered m /\ 0 <= i < lenz prog /\ is_loop (op (at_ i)) = true /\
  lb0 m = i + 1 /\ lb1 m = i + len_ i /\ i + 1 <= pc m <= i + len_ i + 1 /\ 1 <= rem m /\
  reached (st i) = true /\
  covers (widen prog i (len_ i) (st i)) (regs m) (vinit m) /\
  steps m + (rem m - 1) * len_ i + (i + len_ i + 1 - pc m)
    + after prog body (i + len_ i + 1) <= after prog body 0.

Definition inv (m : vm C) : Prop :=
  wf_vm m /\ (outside m \/ exists i, inside i m).

(** Ready to execute: an ended pass has been accounted for. *)
Definition ready (m : vm C) : Prop :=
  wf_vm m /\ (outside m \/ exists i, inside i m /\ pc m <= i + len_ i).

Lemma body_writes i y :
  0 <= i < lenz prog -> is_loop (op (at_ i)) = true ->
  In y (loop_body prog i (len_ i)) -> writes_reg (op y) = true -> reg_ok (d y).
Proof.
  intros Hi Hl Hy Hw. pose proof (insn_at_typed prog i Htyped) as Ht.
  apply loop_body_in in Hy as (k & Hk & Hkn & ->); [|lia|apply Ht].
  apply writes_reg_ok; [apply (lo_shape _ _ Hloops); lia|by apply insn_at_typed|done].
Qed.

(** The edge a LOOP sends into its body is its widened entry state. *)
Lemma loop_entry i :
  0 <= i < lenz prog -> is_loop (op (at_ i)) = true -> reached (st i) = true ->
  i + 1 < lenz prog /\ reached (st (i + 1)) = true /\
  state_le (widen prog i (len_ i) (st i)) (st (i + 1)).
Proof.
  intros Hi Hl Hr. destruct (Htable i) as (es & He & Hin); [lia|done|].
  unfold transfer in He. destruct (read_check _ _); [done|]. unfold transfer_switch in He.
  assert (Hdec : sx_decode (op (at_ i)) = Some SX_LOOP).
  { unfold is_loop in Hl. apply Z.eqb_eq in Hl. by rewrite Hl. }
  rewrite Hdec in He. injection He as <-.
  destruct (Hin (i + 1) (mark_reached (widen prog i (len_ i) (st i)))) as [? H]; [by left|].
  destruct H as [? Hle]; [lia|]. done.
Qed.

Lemma past_loop_out i :
  0 <= i < lenz prog -> is_loop (op (at_ i)) = true -> body (i + len_ i + 1) < 0.
Proof.
  intros Hi Hl. destruct (Z.le_gt_cases 0 (body (i + len_ i + 1))) as [Hb|]; [exfalso|done].
  pose proof (insn_at_typed prog i Htyped) as (_ & Hdi & _). unfold is_u8 in Hdi.
  destruct (lo_owner _ _ Hloops _ Hb) as (Hn & Hlj & Hrange).
  set (j := body (i + len_ i + 1)) in *. clearbody j.
  destruct (lo_shape _ _ Hloops i Hi) as (_ & _ & _ & _ & Hsi). specialize (Hsi Hl).
  assert (j <> i) by (intros ->; lia).
  destruct (Z.le_gt_cases j i) as [Hji|Hji].
  - pose proof (lo_out _ _ Hloops i Hi Hl). rewrite (lo_body _ _ Hloops j i) in *; (done || lia).
  - pose proof (lo_out _ _ Hloops j ltac:(lia) Hlj) as Ho.
    rewrite (lo_body _ _ Hloops i j) in Ho; (done || lia).
Qed.

Lemma head_ready (m : vm C) : inv m -> ready (loop_head m).
Proof.
  intros [Hm [Hout|[i Hin]]]; unfold loop_head.
  - destruct Hout as (Hc & Hlb & Hrest). rewrite (proj2 (Z.leb_gt 0 (lb0 m))) by lia.
    split; [done|]. left. by split_and!; try apply Hrest.
  - destruct Hin as (Hc & Hi & Hl & Hlb0 & Hlb1 & Hpc & Hrem & Hr & Hcw & Hst).
    rewrite (proj2 (Z.leb_le 0 (lb0 m))) by lia.
    destruct (Z.eqb_spec (pc m) (lb1 m + 1)) as [Hend|Hne].
    + destruct (Z.ltb_spec 0 (rem m - 1)); (split; [exact Hm|]).
      * right. exists i. destruct (loop_entry i Hi Hl Hr) as (? & Hr1 & Hle).
        destruct (lo_shape _ _ Hloops i Hi) as (_ & _ & _ & _ & Hs). specialize (Hs Hl).
        unfold inside, covered; simpl. rewrite Hlb0.
        split_and!; try done; try lia; try by apply Hle.
      * left. rewrite Hlb1 in Hend. destruct Hc as (Hp & Hrp & Hcp).
        pose proof (past_loop_out i Hi Hl) as Hout. rewrite <- Hend in Hout, Hst.
        replace (rem m - 1) with 0 in Hst by lia.
        unfold outside, covered; simpl. split_and!; (done || lia).
    + rewrite (proj2 (Z.ltb_ge (pc m) (lb0 m))), (proj2 (Z.ltb_ge (lb1 m + 1) (pc m))) by lia.
      simpl. split; [done|]. right. exists i. split; [|lia]. by split_and!; try (done || lia).
Qed.

(** ** One instruction *)

Lemma ready_exec (m : vm C) :
  ready m -> is_exit (op (at_ (pc m))) = false ->
  exists m', exec_insn env (at_ (pc m)) (tick m) = inr m' /\ wf_vm m' /\ covered m' /\
    effect (at_ (pc m)) (tick m) m' /\ steps m' = steps m + 1 /\ pc m < pc m'.
Proof.
  intros [Hm Hcase] Hx.
  assert (Hc : covered m) by (destruct Hcase as [[? _]|(i & [? _] & _)]; done).
  destruct Hc as (Hpc & Hr & Hc).
  destruct (Htable (pc m)) as (es & He & Hin); [lia|done|].
  pose proof (insn_at_typed prog (pc m) Htyped) as Ht.
  pose proof (lo_shape _ _ Hloops (pc m) Hpc) as Hs.
  destruct (transfer_sound env prog (pc m) (st (pc m)) es (tick m)) as (m' & Hex & Hedge); try done.
  { intros y Hy. destruct (is_loop (op (at_ (pc m)))) eqn:El; [by apply (body_writes (pc m))|].
    intros Hw. apply loop_body_in in Hy as (k & Hk & Hkn & ->); [|lia|apply Ht].
    apply writes_reg_ok; [apply (lo_shape _ _ Hloops); lia|by apply insn_at_typed|done]. }
  { intros Hl. destruct Hcase as [(_ & ? & _)|(i & Hi & Hle)]; [done|exfalso].
    destruct Hi as (_ & Hi & Hli & _ & _ & Hpci & _).
    pose proof (lo_out _ _ Hloops (pc m) Hpc Hl).
    rewrite (lo_body _ _ Hloops i (pc m)) in *; (done || lia). }
  exists m'. split; [done|]. split; [eapply exec_wf; [|exact Hex]; exact Hm|].
  destruct (exec_effect env (at_ (pc m)) (tick m) m') as [Heff Hst]; [apply Hs|done..|].
  assert (Hfwd : pc m < pc m').
  { pose proof (Hjumps (pc m) Hpc) as Hj. unfold jump_bad in Hj.
    destruct Heff as [? _ _ _ _ _ Hp|? _ _ _ _ Hp|_ _ _ Hp|_ _ _ _ [Hp|[Hjmp Hp]]];
      simpl in Hp; try lia.
    rewrite Hjmp in Hj. simpl in Hj.
    destruct ((imm (at_ (pc m)) <? 0) || _) eqn:Eb; [done|]. bools. lia. }
  destruct Hedge as (e & Hine & Hce). destruct (Hin _ _ Hine) as (Hlt & Hj).
  destruct (Hj Hfwd) as [Hr' Hle].
  split_and!; first [done|lia|unfold covered; split_and!; (done || lia || by apply Hle)].
Qed.

(** A step outside a loop ends outside or at the first pass of a loop. *)
Lemma outside_step (m m' : vm C) :
  outside m -> wf_vm m -> wf_vm m' -> covered m' -> effect (at_ (pc m)) (tick m) m' ->
  steps m' = steps m + 1 -> pc m < pc m' -> inv m'.
Proof.
  intros (Hc & Hlb & Hb & Hst) Hm Hm' Hc' Heff Hst' Hfwd. split; [done|].
  destruct Hc as (Hpc & Hr & Hc).
  pose proof (after_out _ _ Hloops (pc m) (pc m') Hpc Hb Hfwd) as Haft.
  destruct (is_loop (op (at_ (pc m)))) eqn:El.
  - destruct Heff as [v _ _ Hl|v _ Hl|_ Hrs Hvi Hp Hb0 Hb1 Hrm|Hl]; try congruence. simpl in *.
    right. exists (pc m).
    destruct (lo_shape _ _ Hloops (pc m) Hpc) as (_ & _ & _ & _ & Hs). specialize (Hs El).
    pose proof (after_loop _ _ Hloops (pc m) Hpc El) as Hal.
    assert (0 <= pc m' /\ pc m' < lenz prog) as [? ?] by apply Hc'.
    unfold inside. split_and!; try (done || lia).
    rewrite Hrs, Hvi. apply widen_fold_covers; [apply Hwf|apply Hm| |done].
    intros y. by apply body_writes.
  - left. split; [done|]. 
    assert (Hlb' : lb0 m' = lb0 m)
      by (destruct Heff as [? ? ? ? [? _]|? ? ? [? _]|? ? ? ? ? ? ?|? [? _]]; simpl in *; congruence).
    split; [lia|]. split; [|lia].
    destruct (Z.le_gt_cases 0 (body (pc m'))) as [Hb'|]; [exfalso|done].
    assert (Hp : pc m' = pc m + 1 \/
                 is_jump (op (at_ (pc m))) = true /\ pc m' = pc m + 1 + imm (at_ (pc m))).
    { destruct Heff as [? ? ? ? ? ? Hp|? ? ? ? ? Hp|? ? ? Hp|? ? ? ? Hp]; simpl in Hp; auto. }
    destruct Hp as [Hp|[Hj Hp]].
    + destruct (lo_owner _ _ Hloops _ Hb') as (Hn & Hl & Hrange).
      destruct (decide (body (pc m') = pc m)) as [E|]; [rewrite E in Hl; congruence|].
      rewrite (lo_body _ _ Hloops (body (pc m')) (pc m)) in Hb; (done || lia).
    + pose proof (Hjumps (pc m) Hpc) as Hjb. unfold jump_bad in Hjb. rewrite Hj in Hjb. simpl in Hjb.
      rewrite (proj2 (Z.leb_gt 0 (body (pc m)))) in Hjb by done.
      rewrite <- Hp in Hjb. destruct (_ || _); [done|].
      destruct Hc' as (Hpc' & _).
      rewrite (proj2 (Z.ltb_lt _ _)), (proj2 (Z.leb_le _ _)) in Hjb by lia. done.
Qed.

(** A step in a loop body stays in the pass or ends it. *)
Lemma inside_step i (m m' : vm C) :
  inside i m -> pc m <= i + len_ i -> wf_vm m -> wf_vm m' -> covered m' ->
  effect (at_ (pc m)) (tick m) m' -> steps m' = steps m + 1 -> pc m < pc m' -> inv m'.
Proof.
  intros (Hc & Hi & Hl & Hlb0 & Hlb1 & Hpcr & Hrem & Hr & Hcw & Hst) Hle Hm Hm' Hc' Heff Hst' Hfwd.
  split; [done|]. right. exists i. destruct Hc as (Hpc & _ & _).
  assert (Hbody : body (pc m) = i) by (apply (lo_body _ _ Hloops i); (done || lia)).
  assert (Hnl : is_loop (op (at_ (pc m))) = false).
  { destruct (is_loop (op (at_ (pc m)))) eqn:E; [|done]. pose proof (lo_out _ _ Hloops _ Hpc E). lia. }
  assert (Hsame : same_loop (tick m) m') by (destruct Heff; (done || congruence)).
  destruct Hsame as (E0 & E1 & E2). simpl in E0, E1, E2.
  assert (Hp : pc m' <= i + len_ i + 1).
  { destruct Heff as [? ? ? ? ? ? Hp|? ? ? ? ? Hp|? ? ? Hp|? ? ? ? [Hp|[Hj Hp]]]; simpl in Hp; try lia.
    pose proof (Hjumps (pc m) Hpc) as Hjb. unfold jump_bad in Hjb. rewrite Hj in Hjb. simpl in Hjb.
    rewrite Hbody in Hjb. rewrite (proj2 (Z.leb_le 0 i)) in Hjb by lia.
    rewrite <- Hp in Hjb. destruct ((imm (at_ (pc m)) <? 0) || _); [done|]. bools. lia. }
  unfold inside. rewrite E0, E1, E2. split_and!; try done; try lia.
  pose proof (insn_at_typed prog i Htyped) as Ht.
  apply (absorbs_covers _ (at_ (pc m)) (tick m) m'); [by apply wf_widen|apply Hm| | |exact Heff|exact Hcw].
  - apply writes_reg_ok; [by apply (lo_shape _ _ Hloops)|by apply insn_at_typed].
  - apply widen_fold_absorbs; [apply Hwf|intros y; by apply body_writes| |].
    + apply writes_reg_ok; [by apply (lo_shape _ _ Hloops)|by apply insn_at_typed].
    + left. apply in_loop_body; lia.
Qed.

Lemma ready_step (max : Z) (m : vm C) :
  after prog body 0 <= max -> inv m ->
  (exists v m', vm_step prog max env m = inl (Outcome SXVM_T_OK (Some v) m') /\
     is_u32 v /\ wf_vm m' /\ steps m' <= after prog body 0) \/
  (exists m', vm_step prog max env m = inr m' /\ inv m' /\ steps m' = steps m + 1).
Proof.
  intros Hmax Hinv. pose proof (head_ready m Hinv) as Hrd.
  assert (Hsteps : steps (loop_head m) = steps m).
  { unfold loop_head. by repeat case_match. }
  unfold vm_step. rewrite <- Hsteps. clear Hsteps Hinv. set (h := loop_head m) in *. clearbody h.
  pose proof Hrd as [Hm Hcase].
  assert (Hpot : covered h /\ steps h + 1 <= after prog body 0).
  { destruct Hcase as [(Hc & _ & Hb & Hst)|(i & Hin & Hle)].
    - split; [done|]. pose proof (after_out _ _ Hloops (pc h) (pc h + 1)). destruct Hc as (Hp & _).
      pose proof (after_mono _ _ Hloops (pc h + 1) (lenz prog)).
      rewrite (after_end _ _ (lenz prog)) in * by lia. lia.
    - destruct Hin as (Hc & Hi & Hl & _ & _ & Hp & Hrem & _ & _ & Hst). split; [done|].
      pose proof (past_loop_out i Hi Hl) as Hpo. pose proof (lo_end _ _ Hloops i Hi Hl).
      pose proof (after_mono _ _ Hloops (i + len_ i + 1) (lenz prog)).
      rewrite (after_end _ _ (lenz prog)) in * by lia.
      destruct (lo_shape _ _ Hloops i Hi) as (_ & _ & _ & _ & Hs). specialize (Hs Hl).
      assert (0 <= (rem h - 1) * len_ i) by nia. lia. }
  destruct Hpot as [(Hpc & Hr & Hc) Hpot].
  rewrite (proj2 (Z.ltb_ge (pc h) 0)), (proj2 (Z.leb_gt (lenz prog) (pc h))) by lia. simpl.
  rewrite (proj2 (Z.leb_gt max (steps h))) by lia.
  pose proof (lo_shape _ _ Hloops (pc h) Hpc) as Hs.
  pose proof (insn_at_typed prog (pc h) Htyped) as Ht.
  destruct (Htable (pc h)) as (es & He & _); [lia|done|].
  assert (Hrc : read_check (at_ (pc h)) (st (pc h)) = None).
  { unfold transfer in He. by destruct (read_check _ _). }
  destruct (read_check_reads prog (pc h) _ _ _ Hs Ht Hc Hrc) as (Hreads & _).
  assert (Hform : (op (at_ (pc h)) <? 1) || (SX_NOP_LAST <=? op (at_ (pc h)))
            || negb (is_loop (op (at_ (pc h)))) && (SXVM_NREG <=? d (at_ (pc h)))
            || reads_s (op (at_ (pc h))) && (SXVM_NREG <=? s (at_ (pc h))) = false).
  { destruct Hs as (Ho & Hd & Hsr & _). rewrite !orb_false_iff. split_and!; [lia..| |].
    - destruct (is_loop _); [done|]. specialize (Hd eq_refl). simpl. lia.
    - destruct (reads_s _); [|done]. specialize (Hsr eq_refl). simpl. lia. }
  rewrite Hform, Hreads.
  destruct (is_exit (op (at_ (pc h)))) eqn:Ex.
  - left. exists (reg h 0), (tick h). split; [done|].
    split; [unfold reg; destruct Hm as (? & _); auto with sxvm|]. split; [exact Hm|]. simpl. lia.
  - right. destruct (ready_exec h Hrd Ex) as (m' & Hex & Hm' & Hc' & Heff & Hst' & Hfwd).
    rewrite Hex. exists m'. split; [done|]. split; [|done].
    destruct Hcase as [Hout|(i & Hin & Hle)]; [by eapply outside_step|by eapply inside_step].
Qed.

Lemma after_nonneg i : 0 <= i -> 0 <= after prog body i.
Proof.
  intros Hi. destruct (Z.le_gt_cases (lenz prog) i); [rewrite after_end by done; lia|].
  pose proof (after_mono _ _ Hloops i (lenz prog)). rewrite (after_end _ _ (lenz prog)) in * by lia. lia.
Qed.

Lemma inv_steps (m : vm C) : inv m -> steps m <= after prog body 0.
Proof.
  intros [_ [(Hc & _ & _ & Hst)|(i & Hin)]].
  - pose proof (after_nonneg (pc m)). destruct Hc as (Hp & _). lia.
  - destruct Hin as (_ & Hi & Hl & _ & _ & Hp & Hrem & _ & _ & Hst).
    pose proof (after_nonneg (i + len_ i + 1)).
    destruct (lo_shape _ _ Hloops i Hi) as (_ & _ & _ & _ & Hs). specialize (Hs Hl).
    assert (0 <= (rem m - 1) * len_ i) by nia. lia.
Qed.

Lemma run_checked (fuel : nat) (max : Z) (m : vm C) :
  after prog body 0 <= max -> inv m -> max < steps m + Z.of_nat fuel ->
  exists v m', run_from fuel prog max env m = Some (Outcome SXVM_T_OK (Some v) m') /\
    is_u32 v /\ wf_vm m' /\ steps m' <= after prog body 0.
Proof.
  intros Hmax. revert m. induction fuel as [|fuel IH]; intros m Hinv Hf; simpl.
  - pose proof (inv_steps m Hinv). lia.
  - destruct (ready_step max m Hmax Hinv) as [(v & m' & -> & ?)|(m' & -> & Hinv' & Hst)]; [eauto|].
    apply IH; [done|lia].
Qed.
End Checked.

(** ** What an accepted program gives *)

Definition wf_mem (m0 : list Z) : Prop := length m0 = 64%nat /\ Forall is_u8 m0.

Lemma check_accepts p b :
  Forall insn_typed p -> check p = inr b ->
  0 < lenz p <= SXVM_MAXINSN /\
  exists body st, loops_ok p body /\ b = after p body 0 /\
    (forall j, 0 <= j < lenz p -> jump_bad p body j (insn_at p j) = false) /\
    wf_table st /\ table_ok p 0 (lenz p) st /\
    reached (st 0) = true /\ state_le entry_state (st 0).
Proof.
  intros Ht H. unfold check in H.
  destruct ((lenz p <=? 0) || (SXVM_MAXINSN <? lenz p)) eqn:En; [done|]. bools. split; [lia|].
  destruct (shape_pass _ _ _ _) as [|a] eqn:Es; [done|].
  destruct (jumps_pass _ _ _ _) eqn:Ej; [|done]. simpl in H.
  destruct (ranges_pass _ _ _ _) as [|st] eqn:Er; [done|]. injection H as <-.
  apply shape_pass_ok in Es as [Hok Hb]; [|done].
  assert (Hw0 : wf_table ranges_init).
  { intros j. unfold ranges_init, upd. destruct (j =? 0); repeat constructor; mach. }
  apply ranges_pass_spec in Er as (Hw & Hs & Hg & Htab); [|done..].
  exists (body_of a), st. split_and!; try done.
  - intros j Hj. eapply jumps_pass_at; [|reflexivity|exact Ej|lia]. done.
  - by apply Hg.
  - by apply (Hg 0).
Qed.

Lemma sxvm_check_accepts p :
  0 <= sxvm_check p -> exists b, check p = inr b /\ sxvm_check p = b.
Proof.
  unfold sxvm_check. destruct (check p) as [e|b]; [by destruct e|eauto].
Qed.

(** ** The properties *)

(** C2: Soundness of the checker. A program [sxvm_check] accepts runs to its
    EXIT on every 64-byte scratch area and with every environment: no memory
    trap, no read of an unwritten register, no unknown instruction, the
    program counter never leaves the program, and the run takes at most as
    many steps as the checker returned. *)
Theorem sxvm_check_sound {C} (p : list sxvm_insn) (m0 : list Z) (max_steps : Z)
    (env : option (sxvm_env C)) (c0 : C) :
  Forall insn_typed p -> wf_mem m0 -> 0 <= sxvm_check p <= max_steps ->
  exists v m', sxvm_run p m0 max_steps env c0 = Some (Outcome SXVM_T_OK (Some v) m') /\
    is_u32 v /\ steps m' <= sxvm_check p /\ wf_mem (mem m').
Proof.
  intros Ht Hm0 [Hck Hmax]. destruct (sxvm_check_accepts p Hck) as (b & Hb & E). rewrite E in *.
  apply check_accepts in Hb as (Hn & body & st & Hok & -> & Hj & Hw & Htab & Hr0 & Hle0); [|done].
  destruct (run_checked p body st env Ht Hok Hj Hw Htab
              (S (Z.to_nat max_steps)) max_steps (vm_init m0 c0)) as (v & m' & Hrun & Hv & Hm' & Hst).
  - done.
  - split; [split; [repeat constructor; mach|exact Hm0]|]. left.
    unfold outside, covered; simpl. split_and!; try (done || lia).
    + apply Hle0. intros r Hr. split; [by unfold bit; rewrite Z.testbit_0_l|].
      assert (r = 0 \/ r = 1 \/ r = 2 \/ r = 3 \/ r = 4 \/ r = 5 \/ r = 6 \/ r = 7) as H
        by (unfold reg_ok in Hr; lia).
      by repeat destruct H as [->|H]; [..|rewrite H].
    + destruct (Z.le_gt_cases 0 (body 0)) as [Hb|]; [|done].
      apply (lo_owner _ _ Hok) in Hb. lia.
  - simpl. lia.
  - exists v, m'. split; [exact Hrun|]. split_and!; try done; apply Hm'.
Qed.

(** A counted loop that stores a running sum and publishes it. *)
Definition demo : list sxvm_insn :=
  [Insn 1 0 0 0; Insn 1 3 0 5; Insn 20 3 0 10; Insn 3 0 3 0; Insn 11 3 0 7; Insn 10 3 0 1;
   Insn 15 3 0 9; Insn 1 1 0 4; Insn 1 2 0 20; Insn 22 0 0 1; Insn 21 0 0 0].

Definition demo_env : sxvm_env Z := Env (Some (fun c b => (c + 1, lenz b))) None.

Lemma insn_typed_all p :
  forallb (fun x => (0 <=? op x) && (op x <? 256) && (0 <=? d x) && (d x <? 256) &&
             (0 <=? s x) && (s x <? 256) && (- 2 ^ 31 <=? imm x) && (imm x <? 2 ^ 31)) p = true ->
  Forall insn_typed p.
Proof.
  intros H. apply Forall_forall. intros x Hx.
  rewrite forallb_forall in H. specialize (H x Hx). bools. unfold insn_typed, is_u8. lia.
Qed.

Lemma zero_mem : wf_mem (replicate 64 0).
Proof. split; [done|]. repeat constructor; mach. Qed.

Lemma sxvm_check_sound_witness :
  sxvm_check demo = 38 /\
  exists v m', sxvm_run demo (replicate 64 0) 38 (Some demo_env) 0
               = Some (Outcome SXVM_T_OK (Some v) m') /\
    is_u32 v /\ steps m' <= sxvm_check demo /\ wf_mem (mem m').
Proof.
  split; [vm_compute; reflexivity|].
  apply (sxvm_check_sound demo (replicate 64 0) 38 (Some demo_env) 0).
  - apply insn_typed_all. vm_compute. reflexivity.
  - apply zero_mem.
  - vm_compute. split; discriminate.
Defined.

(** ** The interpreter on its own: it does not trust the checker *)

Section Unchecked.
Context {C : Type} (prog : list sxvm_insn) (max : Z) (env : option (sxvm_env C)).

Lemma loop_head_same (m : vm C) :
  steps (loop_head m) = steps m /\ mem (loop_head m) = mem m /\ regs (loop_head m) = regs m /\
  ctx (loop_head m) = ctx m.
Proof. unfold loop_head. by repeat case_match. Qed.

Lemma vm_step_steps (m : vm C) :
  match vm_step prog max env m with
  | inl o => steps m <= steps (final o) <= Z.max (steps m) max
  | inr m' => steps m' = steps m + 1 /\ steps m < max
  end.
Proof.
  unfold vm_step. destruct (loop_head_same m) as (<- & _). set (h := loop_head m). clearbody h.
  dif E1; simpl; [lia|]. dif E2; simpl; [lia|]. bools. dif E3; simpl; [lia|].
  dif E4; simpl; [lia|]. dif E5; simpl; [lia|].
  destruct (exec_insn _ _ _) as [t|m'] eqn:E6; simpl; [lia|].
  apply exec_effect in E6 as [_ ->]; [done| |done]. bools. lia.
Qed.

(** A property of the caller's context that the helpers keep, provided [pub]
    is given a slice that lies wholly in the scratch area. *)
Definition keeps (P : C -> Prop) : Prop :=
  (forall pub, env ≫= env_pub = Some pub -> forall c m0 a len,
     P c -> wf_mem m0 -> 0 <= a -> 0 <= len -> a + len <= SXVM_MEM ->
     lenz (slice m0 a len) = len -> P (fst (pub c (slice m0 a len)))) /\
  (forall log, env ≫= env_log = Some log -> forall c v, P c -> P (log c v)).

Lemma slice_length (m0 : list Z) a len :
  wf_mem m0 -> 0 <= a -> 0 <= len -> a + len <= SXVM_MEM -> lenz (slice m0 a len) = len.
Proof.
  intros [Hl _] Ha Hn H. unfold SXVM_MEM in H. unfold slice, lenz.
  rewrite length_take, length_drop, Hl. lia.
Qed.

Lemma exec_keeps P x (m m' : vm C) :
  keeps P -> wf_vm m -> P (ctx m) -> exec_insn env x m = inr m' -> P (ctx m').
Proof.
  intros [Hpub Hlog] (Hr & Hm) HP H. unfold exec_insn, call_insn in H.
  destruct (sx_decode (op x)) as [c|]; [|done].
  destruct c; split_ifs H; try (injection H as <-; exact HP).
  - destruct (env ≫= env_pub) as [pub|] eqn:Ep; [|injection H as <-; exact HP].
    destruct (pub (ctx m) _) as [c v] eqn:Eq. injection H as <-. simpl.
    change c with (fst (c, v)). rewrite <- Eq. apply Z.ltb_ge in E2.
    assert (is_u32 (reg m 1)) by (unfold reg; auto with sxvm).
    assert (is_u32 (reg m 2)) by (unfold reg; auto with sxvm).
    unfold is_u32 in *.
    apply Hpub; try done; try lia. apply slice_length; (done || lia).
  - destruct (env ≫= env_log) as [log|] eqn:El; injection H as <-; [|exact HP].
    by apply Hlog.
Qed.

Lemma vm_step_safe P (m : vm C) :
  keeps P -> wf_vm m -> P (ctx m) ->
  match vm_step prog max env m with
  | inl o => wf_vm (final o) /\ P (ctx (final o))
  | inr m' => wf_vm m' /\ P (ctx m')
  end.
Proof.
  intros Hk Hm HP. unfold vm_step. destruct (loop_head_same m) as (_ & E1 & E2 & E3).
  set (h := loop_head m) in *. clearbody h.
  assert (Hh : wf_vm h) by (unfold wf_vm; by rewrite E1, E2).
  rewrite <- E3 in HP. clear E1 E2 E3.
  do 5 (dif E; [done|clear E]).
  destruct (exec_insn _ _ _) as [t|m'] eqn:Ex; [done|].
  split; [by eapply exec_wf; [|exact Ex]|by eapply exec_keeps; [| | |exact Ex]].
Qed.
End Unchecked.

Lemma run_from_total {C} (p : list sxvm_insn) max (env : option (sxvm_env C)) n (m : vm C) :
  max <= steps m + Z.of_nat n ->
  exists o, run_from (S n) p max env m = Some o /\
    steps m <= steps (final o) <= Z.max (steps m) max.
Proof.
  revert m. induction n as [|n IH]; intros m Hn; pose proof (vm_step_steps p max env m) as Hs;
    change (run_from (S ?k) p max env m) with
      (match vm_step p max env m with inl o => Some o | inr m' => run_from k p max env m' end);
    destruct (vm_step p max env m) as [o|m']; eauto; try lia.
  destruct (IH m') as (o & -> & Ho); [lia|]. exists o. split; [done|lia].
Qed.

Lemma run_from_safe {C} (p : list sxvm_insn) max (env : option (sxvm_env C)) (P : C -> Prop)
    fuel (m : vm C) o :
  keeps env P -> wf_vm m -> P (ctx m) -> run_from fuel p max env m = Some o ->
  wf_vm (final o) /\ P (ctx (final o)).
Proof.
  intros Hk. revert m. induction fuel as [|fuel IH]; simpl; intros m Hm HP H; [done|].
  pose proof (vm_step_safe p max env P m Hk Hm HP) as Hs.
  destruct (vm_step p max env m) as [o'|m']; [by injection H as <-|]. destruct Hs. by apply (IH m').
Qed.

Lemma vm_init_wf {C} m0 (c0 : C) : wf_mem m0 -> wf_vm (vm_init m0 c0).
Proof. intros H. split; [repeat constructor; mach|exact H]. Qed.

(** The interpreter terminates on every program, checked or not: it always
    has an outcome, after at most [max_steps] counted instructions. *)
Theorem sxvm_run_total {C} (p : list sxvm_insn) (m0 : list Z) (max_steps : Z)
    (env : option (sxvm_env C)) (c0 : C) :
  exists o, sxvm_run p m0 max_steps env c0 = Some o /\
    0 <= steps (final o) <= Z.max 0 max_steps.
Proof.
  destruct (run_from_total p max_steps env (Z.to_nat max_steps) (vm_init m0 c0)) as (o & Ho & Hs).
  - simpl. lia.
  - exists o. split; [exact Ho|exact Hs].
Qed.

(** Memory safety without the checker. Whatever the program, the scratch
    area stays 64 bytes and every slice handed to [pub] lies wholly inside it:
    any property of the caller's context that the helpers keep under that
    promise holds at the end of the run. *)
Theorem sxvm_run_memory_safe {C} (P : C -> Prop) (p : list sxvm_insn) (m0 : list Z)
    (max_steps : Z) (env : option (sxvm_env C)) (c0 : C) :
  keeps env P -> wf_mem m0 -> P c0 ->
  exists o, sxvm_run p m0 max_steps env c0 = Some o /\
    wf_mem (mem (final o)) /\ P (ctx (final o)).
Proof.
  intros Hk Hm0 HP. destruct (sxvm_run_total p m0 max_steps env c0) as (o & Ho & _).
  exists o. split; [done|].
  apply (run_from_safe _ _ _ P) in Ho as [(_ & Hm) HP']; [done|done|by apply vm_init_wf|done].
Qed.

(** The context counts the [pub] calls; a call never sees more than 64 bytes. *)
Definition count_env : sxvm_env (Z * bool) :=
  Env (Some (fun c b => ((fst c + 1, snd c && (lenz b <=? 64)), lenz b))) None.

Lemma sxvm_run_memory_safe_witness :
  exists o, sxvm_run demo (replicate 64 0) 1000 (Some count_env) (0, true) = Some o /\
    wf_mem (mem (final o)) /\ snd (ctx (final o)) = true.
Proof.
  apply (sxvm_run_memory_safe (fun c => snd c = true)); [split|apply zero_mem|reflexivity].
  - intros pub Hp c m a len Hc _ Ha _ Hle Hlen. injection Hp as <-. cbn [fst snd]. rewrite Hc, Hlen.
    unfold SXVM_MEM in Hle. lia.
  - intros log Hl. discriminate Hl.
Defined.

(** The step bound is a small positive number: it fits a 32-bit [long]
    with room to spare, so its accumulation never overflows. *)
Theorem sxvm_check_bound (p : list sxvm_insn) :
  Forall insn_typed p ->
  (exists e, sxvm_check p = sx_err_code e) \/ 1 <= sxvm_check p <= SXVM_LOOPMAX * SXVM_MAXINSN.
Proof.
  intros Ht. unfold sxvm_check. destruct (check p) as [e|b] eqn:Eb; [eauto|right].
  apply check_accepts in Eb as (Hn & body & st & Hok & -> & _); [|done].
  assert (Hup : forall n : nat, forall i, 0 <= i -> lenz p - i <= Z.of_nat n ->
            after p body i <= SXVM_LOOPMAX * Z.max 0 (lenz p - i)).
  { unfold SXVM_LOOPMAX. induction n as [|n IH]; intros i Hi Hle; [rewrite after_end by lia; lia|].
    destruct (Z.le_gt_cases (lenz p) i); [rewrite after_end by lia; lia|].
    destruct (is_loop (op (insn_at p i))) eqn:El.
    - pose proof (lo_end _ _ Hok i ltac:(lia) El).
      destruct (lo_shape _ _ Hok i) as (_ & _ & _ & _ & Hs); [lia|]. specialize (Hs El).
      unfold SXVM_LOOPMAX in Hs. rewrite (after_loop _ _ Hok) by (done || lia).
      specialize (IH (i + d (insn_at p i) + 1) ltac:(lia) ltac:(lia)). nia.
    - rewrite after_step by lia. specialize (IH (i + 1) ltac:(lia) ltac:(lia)). unfold weight. rewrite El.
      dif E; lia. }
  pose proof (Hup (length p) 0 ltac:(lia) ltac:(unfold lenz; lia)).
  assert (Hb0 : body 0 < 0).
  { destruct (Z.le_gt_cases 0 (body 0)) as [Hb|]; [|done]. apply (lo_owner _ _ Hok) in Hb. lia. }
  pose proof (after_out _ _ Hok 0 1 ltac:(lia) Hb0 ltac:(lia)).
  pose proof (after_nonneg p body Hok 1). unfold SXVM_LOOPMAX, SXVM_MAXINSN in *. lia.
Qed.

Lemma sxvm_check_bound_witness :
  (exists e, sxvm_check demo = sx_err_code e) \/ 1 <= sxvm_check demo <= SXVM_LOOPMAX * SXVM_MAXINSN.
Proof. apply sxvm_check_bound. apply insn_typed_all. vm_compute. reflexivity. Defined.
