(* ===== verification/Sha256.v ===== *)
(** * SHA-256 and HMAC ([relay/sha256.c])

    The streaming implementation the network and the file system share: the
    block function, the buffered context, and HMAC. [Spec] is the padded,
    one-pass definition of FIPS 180-4; the context is proved to compute it
    whatever the split of the message into updates. *)

From S2P Require Import Prelude.

Definition SHA256_BLOCK_SIZE : Z := 64.
Definition SHA256_DIGEST_SIZE : Z := 32.

(** Four 32-bit constants per literal, most significant first. *)
Definition words4 (x : Z) : list Z :=
  [Z.shiftr x 96; w32 (Z.shiftr x 64); w32 (Z.shiftr x 32); w32 x].

Definition K : list Z := Eval vm_compute in concat (map words4 [
  0x428a2f9871374491b5c0fbcfe9b5dba5; 0x3956c25b59f111f1923f82a4ab1c5ed5;
  0xd807aa9812835b01243185be550c7dc3; 0x72be5d7480deb1fe9bdc06a7c19bf174;
  0xe49b69c1efbe47860fc19dc6240ca1cc; 0x2de92c6f4a7484aa5cb0a9dc76f988da;
  0x983e5152a831c66db00327c8bf597fc7; 0xc6e00bf3d5a7914706ca635114292967;
  0x27b70a852e1b21384d2c6dfc53380d13; 0x650a7354766a0abb81c2c92e92722c85;
  0xa2bfe8a1a81a664bc24b8b70c76c51a3; 0xd192e819d6990624f40e3585106aa070;
  0x19a4c1161e376c082748774c34b0bcb5; 0x391c0cb34ed8aa4a5b9cca4f682e6ff3;
  0x748f82ee78a5636f84c878148cc70208; 0x90befffaa4506cebbef9a3f7c67178f2]).

Definition ROR (x n : Z) : Z := Z.lor (Z.shiftr x n) (w32 (Z.shiftl x (32 - n))).
Definition CH (x y z : Z) : Z := Z.lxor (Z.land x y) (Z.land (Z.lxor x FULL) z).
Definition MAJ (x y z : Z) : Z := Z.lxor (Z.lxor (Z.land x y) (Z.land x z)) (Z.land y z).
Definition BSIG0 (x : Z) : Z := Z.lxor (Z.lxor (ROR x 2) (ROR x 13)) (ROR x 22).
Definition BSIG1 (x : Z) : Z := Z.lxor (Z.lxor (ROR x 6) (ROR x 11)) (ROR x 25).
Definition SSIG0 (x : Z) : Z := Z.lxor (Z.lxor (ROR x 7) (ROR x 18)) (Z.shiftr x 3).
Definition SSIG1 (x : Z) : Z := Z.lxor (Z.lxor (ROR x 17) (ROR x 19)) (Z.shiftr x 10).

(** The working variables [a .. h] of [compress]. *)
Record work := Work { wa : Z; wb : Z; wc : Z; wd : Z; we : Z; wf : Z; wg : Z; wh : Z }.

Definition load_word (block : list Z) (i : Z) (w : list Z) : list Z :=
  let b k := getz block (i * 4 + k) 0 in
  setz w i (Z.lor (Z.lor (Z.lor (Z.shiftl (b 0) 24) (Z.shiftl (b 1) 16)) (Z.shiftl (b 2) 8)) (b 3)).

Definition extend_word (i : Z) (w : list Z) : list Z :=
  let g k := getz w (i - k) 0 in
  setz w i (w32 (SSIG1 (g 2) + g 7 + SSIG0 (g 15) + g 16)).

Definition round (w : list Z) (i : Z) (s : work) : work :=
  let t1 := w32 (wh s + BSIG1 (we s) + CH (we s) (wf s) (wg s) + getz K i 0 + getz w i 0) in
  let t2 := w32 (BSIG0 (wa s) + MAJ (wa s) (wb s) (wc s)) in
  Work (w32 (t1 + t2)) (wa s) (wb s) (wc s) (w32 (wd s + t1)) (we s) (wf s) (wg s).

Definition compress (state block : list Z) : list Z :=
  let w := for_up 48 16 extend_word (for_up 16 0 (load_word block) (replicate 64 0)) in
  let g k := getz state k 0 in
  let s := for_up 64 0 (round w) (Work (g 0) (g 1) (g 2) (g 3) (g 4) (g 5) (g 6) (g 7)) in
  [w32 (g 0 + wa s); w32 (g 1 + wb s); w32 (g 2 + wc s); w32 (g 3 + wd s);
   w32 (g 4 + we s); w32 (g 5 + wf s); w32 (g 6 + wg s); w32 (g 7 + wh s)].

Record sha256_ctx := Ctx { state : list Z; bitlen : Z; buflen : Z; buf : list Z }.

Definition H0 : list Z := Eval vm_compute in concat (map words4 [0x6a09e667bb67ae853c6ef372a54ff53a;
  0x510e527f9b05688c1f83d9ab5be0cd19]).

(** [sha256_init] leaves the block buffer as it was. *)
Definition sha256_init (c : sha256_ctx) : sha256_ctx := Ctx H0 0 0 (buf c).

(** One turn of the [while (len > 0)] loop of [sha256_update]. *)
Definition update_turn (c : sha256_ctx) (data : list Z) : sha256_ctx * list Z :=
  let take0 := SHA256_BLOCK_SIZE - buflen c in
  let n := if lenz data <? take0 then lenz data else take0 in
  let b := blit (buf c) (buflen c) (take (Z.to_nat n) data) in
  let bl := buflen c + n in
  (if bl =? SHA256_BLOCK_SIZE then Ctx (compress (state c) b) (bitlen c) 0 b
   else Ctx (state c) (bitlen c) bl b,
   drop (Z.to_nat n) data).

Fixpoint update_loop (fuel : nat) (c : sha256_ctx) (data : list Z) : option sha256_ctx :=
  match data, fuel with
  | [], _ => Some c
  | _, O => None
  | _, S k => let '(c', rest) := update_turn c data in update_loop k c' rest
  end.

Definition add_bits (c : sha256_ctx) (len : Z) : sha256_ctx :=
  Ctx (state c) (u64 (bitlen c + u64 (len * 8))) (buflen c) (buf c).

(** [length data] turns are enough while [buflen < 64]: [update_rep]. *)
Definition sha256_update (c : sha256_ctx) (data : list Z) : sha256_ctx :=
  default c (update_loop (length data) (add_bits c (lenz data)) data).

Definition put (c : sha256_ctx) (b : list Z) : sha256_ctx :=
  Ctx (state c) (bitlen c) (buflen c + lenz b) (blit (buf c) (buflen c) b).
Definition flush (c : sha256_ctx) : sha256_ctx :=
  Ctx (compress (state c) (buf c)) (bitlen c) 0 (buf c).
Definition zero_to (c : sha256_ctx) (n : Z) : sha256_ctx :=
  put c (replicate (Z.to_nat (n - buflen c)) 0).

Definition sha256_final (c : sha256_ctx) : list Z :=
  let c := put c [0x80] in
  let c := if 56 <? buflen c then flush (zero_to c SHA256_BLOCK_SIZE) else c in
  let c := zero_to c 56 in
  let c := flush (put c (be 8 (bitlen c))) in
  concat (map (be 4) (state c)).

(** [sha256] on a context whose buffer holds whatever was on the stack. *)
Definition sha256_on (c : sha256_ctx) (data : list Z) : list Z :=
  sha256_final (sha256_update (sha256_init c) data).

Definition stack_ctx : sha256_ctx := Ctx [] 0 0 (replicate 64 0).
Definition sha256 (data : list Z) : list Z := sha256_on stack_ctx data.

Definition hmac_sha256 (key msg : list Z) (out_len : Z) : list Z :=
  let k := if SHA256_BLOCK_SIZE <? lenz key
           then sha256 key ++ replicate 32 0
           else key ++ replicate (Z.to_nat (SHA256_BLOCK_SIZE - lenz key)) 0 in
  let ipad := map (fun b => Z.lxor b 0x36) k in
  let opad := map (fun b => Z.lxor b 0x5c) k in
  let c := sha256_update (sha256_update (sha256_init stack_ctx) ipad) msg in
  let inner := sha256_final c in
  let c := sha256_update (sha256_update (sha256_init c) opad) inner in
  let outer := sha256_final c in
  take (Z.to_nat (if SHA256_DIGEST_SIZE <? out_len then SHA256_DIGEST_SIZE else out_len)) outer.

(** The known-answer tests of [sha256_self_test]. *)
Definition want_abc : list Z :=
  [0xba;0x78;0x16;0xbf;0x8f;0x01;0xcf;0xea;0x41;0x41;0x40;0xde;0x5d;0xae;0x22;0x23;
   0xb0;0x03;0x61;0xa3;0x96;0x17;0x7a;0x9c;0xb4;0x10;0xff;0x61;0xf2;0x00;0x15;0xad].
Definition want_hmac1 : list Z :=
  [0xb0;0x34;0x4c;0x61;0xd8;0xdb;0x38;0x53;0x5c;0xa8;0xaf;0xce;0xaf;0x0b;0xf1;0x2b;
   0x88;0x1d;0xc2;0x00;0xc9;0x83;0x3d;0xa7;0x26;0xe9;0x37;0x6c;0x2e;0x32;0xcf;0xf7].
Definition want_hmac2 : list Z :=
  [0x5b;0xdc;0xc1;0x46;0xbf;0x60;0x75;0x4e;0x6a;0x04;0x24;0x26;0x08;0x95;0x75;0xc7;
   0x5a;0x00;0x3f;0x08;0x9d;0x27;0x39;0x83;0x9d;0xec;0x58;0xb9;0x64;0xec;0x38;0x43].
Definition want_hmac4 : list Z :=
  [0x82;0x55;0x8a;0x38;0x9a;0x44;0x3c;0x0e;0xa4;0xcc;0x81;0x98;0x99;0xf2;0x08;0x3a;
   0x85;0xf0;0xfa;0xa3;0xe5;0x78;0xf8;0x07;0x7a;0x2e;0x3f;0xf4;0x67;0x29;0x66;0x5b].

Definition sha256_self_test : Z :=
  let eq_bytes (a b : list Z) := bool_decide (a = b) in
  if negb (eq_bytes (sha256 [97; 98; 99]) want_abc) then 1
  else if negb (eq_bytes (hmac_sha256 (replicate 20 0x0b) [72;105;32;84;104;101;114;101] 32) want_hmac1) then 2
  else if negb (eq_bytes (hmac_sha256 [74;101;102;101]
         [119;104;97;116;32;100;111;32;121;97;32;119;97;110;116;32;
          102;111;114;32;110;111;116;104;105;110;103;63] 32) want_hmac2) then 3
  else if negb (eq_bytes (hmac_sha256 (map Z.of_nat (seq 1 25)) (replicate 50 0xcd) 32) want_hmac4) then 4
  else 0.

(** ** Reference: FIPS 180-4 padding and RFC 2104 HMAC, in one pass *)
Module Spec.

(** [absorb n st l] runs the block function over the first [n] blocks of [l]. *)
Fixpoint absorb (n : nat) (st l : list Z) : list Z :=
  match n with
  | O => st
  | S k => absorb k (compress st (take 64 l)) (drop 64 l)
  end.

(** [1], then the fewest zeros that leave room for the 64-bit length. *)
Definition pad (m : list Z) : list Z :=
  m ++ [0x80] ++ replicate (Z.to_nat ((55 - lenz m) mod 64)) 0 ++ be 8 (u64 (8 * lenz m)).

Definition digest (st : list Z) : list Z := concat (map (be 4) st).

Definition hash (m : list Z) : list Z :=
  digest (absorb (length (pad m) / 64) H0 (pad m)).

Definition block_key (key : list Z) : list Z :=
  let k := if 64 <? lenz key then hash key else key in
  k ++ replicate (64 - length k) 0.

Definition hmac (key msg : list Z) : list Z :=
  let x v := map (fun b => Z.lxor b v) (block_key key) in
  hash (x 0x5c ++ hash (x 0x36 ++ msg)).

End Spec.

(** ** The context computes the reference *)

Section Absorb.

Lemma absorb_app n k st l :
  Spec.absorb (n + k) st l = Spec.absorb k (Spec.absorb n st l) (drop (64 * n) l).
Proof.
  revert st l; induction n as [|n IH]; intros st l; simpl; [done|].
  rewrite IH, drop_drop. do 2 f_equal. lia.
Qed.

Lemma absorb_take n st l l' :
  (64 * n <= length l)%nat -> Spec.absorb n st (l ++ l') = Spec.absorb n st l.
Proof.
  revert st l; induction n as [|n IH]; intros st l Hl; simpl; [done|].
  rewrite take_app_le, drop_app_le by lia. apply IH. rewrite length_drop. lia.
Qed.

End Absorb.

(** [rep c m]: the context has consumed exactly [m]. *)
Record rep (c : sha256_ctx) (m : list Z) : Prop := {
  rep_state : state c = Spec.absorb (length m / 64) H0 m;
  rep_bits : bitlen c = u64 (8 * lenz m);
  rep_buflen : buflen c = Z.of_nat (length m mod 64);
  rep_buf : length (buf c) = 64%nat;
  rep_tail : take (length m mod 64) (buf c) = drop (64 * (length m / 64)) m }.

(** The same without the bit count, which an update adds in advance. *)
Definition holds (c : sha256_ctx) (m : list Z) : Prop :=
  rep (Ctx (state c) (u64 (8 * lenz m)) (buflen c) (buf c)) m.

Lemma rep_holds c m : rep c m <-> holds c m /\ bitlen c = u64 (8 * lenz m).
Proof.
  unfold holds. destruct c; split.
  - intros H. pose proof (rep_bits _ _ H) as Hb. simpl in *. by rewrite <- Hb.
  - intros [H Hb]; simpl in *. by rewrite Hb.
Qed.

Lemma init_rep c : length (buf c) = 64%nat -> rep (sha256_init c) [].
Proof. intros Hb. split; try done. Qed.

(** A piece that stays within the current block. *)
Lemma fill_within c m d :
  holds c m -> (length m mod 64 + length d < 64)%nat ->
  holds (Ctx (state c) (bitlen c) (buflen c + lenz d) (blit (buf c) (buflen c) d)) (m ++ d).
Proof.
  intros [Hs _ Hl Hb Ht] Hd. unfold holds. cbn [state bitlen buflen buf] in *.
  assert (Hq : (length (m ++ d) / 64 = length m / 64)%nat /\
    (length (m ++ d) mod 64 = length m mod 64 + length d)%nat).
  { rewrite length_app.
    pose proof (Nat.div_mod_eq (length m) 64). pose proof (Nat.div_mod_eq (length m + length d) 64).
    pose proof (Nat.mod_upper_bound (length m) 64). pose proof (Nat.mod_upper_bound (length m + length d) 64).
    lia. }
  destruct Hq as [Hq Hr].
  pose proof (Nat.div_mod_eq (length m) 64).
  split; cbn [state bitlen buflen buf]; rewrite ?Hq, ?Hr; try done.
  - rewrite absorb_take; [done|lia].
  - rewrite Hl. unfold lenz. lia.
  - rewrite blit_length; unfold lenz; [done|lia|lia].
  - rewrite drop_app_le by lia. rewrite <- Ht, Hl.
    replace (length m mod 64 + length d)%nat with (Z.to_nat (Z.of_nat (length m mod 64) + lenz d))
      by (unfold lenz; lia).
    rewrite blit_prefix by (unfold lenz; lia). by rewrite Nat2Z.id.
Qed.

(** A piece that completes it. *)
Lemma block_step c m d :
  holds c m -> (length m mod 64 + length d = 64)%nat ->
  let b := blit (buf c) (buflen c) d in
  holds (Ctx (compress (state c) b) (bitlen c) 0 b) (m ++ d).
Proof.
  intros [Hs _ Hl Hb Ht] Hd b. unfold holds. cbn [state bitlen buflen buf] in *.
  assert (Hq : (length (m ++ d) / 64 = length m / 64 + 1)%nat /\ (length (m ++ d) mod 64 = 0)%nat).
  { rewrite length_app.
    pose proof (Nat.div_mod_eq (length m) 64). pose proof (Nat.div_mod_eq (length m + length d) 64).
    pose proof (Nat.mod_upper_bound (length m) 64). pose proof (Nat.mod_upper_bound (length m + length d) 64).
    lia. }
  destruct Hq as [Hq Hr].
  pose proof (Nat.div_mod_eq (length m) 64).
  assert (Hbl : length b = 64%nat) by (unfold b; rewrite blit_length; unfold lenz; lia).
  assert (Hbb : b = drop (64 * (length m / 64)) (m ++ d)).
  { rewrite drop_app_le by lia. rewrite <- Ht.
    rewrite <- (firstn_all2 (n := Z.to_nat (buflen c + lenz d)) b) by (unfold lenz; lia).
    unfold b. rewrite blit_prefix by (unfold lenz; lia). by rewrite Hl, Nat2Z.id. }
  split; cbn [state bitlen buflen buf]; rewrite ?Hq, ?Hr; try done.
  - rewrite absorb_app, absorb_take by lia. cbn [Spec.absorb]. rewrite <- Hbb, <- Hs.
    by rewrite (firstn_all2 (n:=64) b) by lia.
  - rewrite take_0, drop_ge; [done|]. rewrite length_app.
    pose proof (Nat.div_mod_eq (length m) 64). lia.
Qed.

Lemma turn_step c m d :
  holds c m -> d <> [] ->
  let '(c', rest) := update_turn c d in
  exists d', d = d' ++ rest /\ d' <> [] /\ holds c' (m ++ d') /\ bitlen c' = bitlen c.
Proof.
  intros H Hd. pose proof (rep_buflen _ _ H) as Hl. pose proof (rep_buf _ _ H) as Hb.
  cbn [buflen buf] in Hl, Hb.
  pose proof (Nat.mod_upper_bound (length m) 64 ltac:(lia)) as Hr.
  unfold update_turn, SHA256_BLOCK_SIZE.
  set (n := if lenz d <? 64 - buflen c then lenz d else 64 - buflen c).
  assert (Hn : n = Z.min (lenz d) (64 - buflen c)) by (unfold n; destruct (Z.ltb_spec (lenz d) (64 - buflen c)); lia).
  clearbody n. assert (0 < lenz d) by (unfold lenz; destruct d; [done|simpl; lia]).
  assert (Hlt : lenz (take (Z.to_nat n) d) = n) by (unfold lenz in *; rewrite length_take; lia).
  exists (take (Z.to_nat n) d). split; [by rewrite take_drop|].
  split; [intros E; rewrite E in Hlt; unfold lenz in Hlt; simpl in Hlt; lia|].
  destruct (Z.eqb_spec (buflen c + n) 64) as [E|E]; cbn [bitlen]; (split; [|done]).
  - apply block_step; [done|]. unfold lenz in Hlt. lia.
  - pose proof (fill_within c m (take (Z.to_nat n) d) H) as Hf. rewrite Hlt in Hf.
    apply Hf. unfold lenz in *. lia.
Qed.

Lemma loop_holds fuel c m d :
  holds c m -> (length d <= fuel)%nat ->
  exists c', update_loop fuel c d = Some c' /\ holds c' (m ++ d) /\ bitlen c' = bitlen c.
Proof.
  revert c m d; induction fuel as [|fuel IH]; intros c m d H Hf.
  - destruct d; [|simpl in Hf; lia]. exists c. by rewrite app_nil_r.
  - destruct (decide (d = [])) as [->|Hd]; [exists c; by rewrite app_nil_r|].
    pose proof (turn_step c m d H Hd) as Ht.
    assert (update_loop (S fuel) c d = let '(c', rest) := update_turn c d in update_loop fuel c' rest)
      as -> by (destruct d; done).
    destruct (update_turn c d) as [c1 rest]. destruct Ht as (d' & -> & Hd' & H1 & Hb).
    destruct (IH c1 (m ++ d') rest H1) as (c2 & E & H2 & Hb2).
    { rewrite length_app in Hf. destruct d'; [done|]. simpl in Hf. lia. }
    exists c2. rewrite <- app_assoc in H2. by rewrite Hb2.
Qed.

(** Updates append: the loop's fuel is always enough. *)
Lemma update_rep c m d : rep c m -> rep (sha256_update c d) (m ++ d).
Proof.
  intros [H Hb]%rep_holds. unfold sha256_update.
  destruct (loop_holds (length d) (add_bits c (lenz d)) m d H ltac:(lia)) as (c' & -> & H' & Hb').
  apply rep_holds. split; [done|]. simpl. rewrite Hb'. unfold add_bits. cbn [bitlen]. rewrite Hb.
  unfold u64, lenz. rewrite length_app, <- Zplus_mod. f_equal. lia.
Qed.

Lemma blit_blit {A} (l : list A) off (a b : list A) :
  0 <= off -> off + lenz a + lenz b <= lenz l ->
  blit (blit l off a) (off + lenz a) b = blit l off (a ++ b).
Proof.
  intros. unfold blit at 1. rewrite blit_prefix by (unfold lenz in *; lia).
  unfold blit. unfold lenz in *.
  rewrite !drop_app, drop_drop, !length_take, !length_app.
  rewrite (drop_ge (take _ _)) by (rewrite length_take; lia).
  rewrite (drop_ge a) by lia. rewrite <- !app_assoc. simpl. do 3 f_equal. f_equal. lia.
Qed.

Lemma put_put c a b :
  0 <= buflen c -> buflen c + lenz a + lenz b <= lenz (buf c) ->
  put (put c a) b = put c (a ++ b).
Proof.
  intros. unfold put. cbn [state bitlen buflen buf]. rewrite blit_blit by lia.
  f_equal. unfold lenz. rewrite length_app. lia.
Qed.

Lemma lenz_replicate {A} n (x : A) : lenz (replicate n x) = Z.of_nat n.
Proof. unfold lenz. by rewrite length_replicate. Qed.
Lemma lenz_app {A} (a b : list A) : lenz (a ++ b) = lenz a + lenz b.
Proof. unfold lenz. rewrite length_app. lia. Qed.

Lemma flush_put c m d :
  holds c m -> (length m mod 64 + length d = 64)%nat -> holds (flush (put c d)) (m ++ d).
Proof. intros. by apply (block_step c m d). Qed.

Lemma final_state c m :
  rep c m -> exists c', sha256_final c = Spec.digest (state c') /\ holds c' (Spec.pad m).
Proof.
  intros [H Hb]%rep_holds. pose proof (rep_buflen _ _ H) as Hl. pose proof (rep_buf _ _ H) as Hbuf.
  cbn [buflen buf] in Hl, Hbuf.
  pose proof (Nat.mod_upper_bound (length m) 64 ltac:(lia)) as Hr.
  assert (Hlm : lenz m mod 64 = buflen c) by (unfold lenz; rewrite Hl, Nat2Z.inj_mod; done).
  assert (Hlb : lenz (buf c) = 64) by (unfold lenz; lia).
  assert (Hpad : (55 - lenz m) mod 64 = if 56 <? buflen c + 1 then 119 - buflen c else 55 - buflen c).
  { rewrite Zminus_mod, Hlm. change (55 mod 64) with 55. destruct (Z.ltb_spec 56 (buflen c + 1)).
    - replace (55 - buflen c) with (119 - buflen c + (-1) * 64) by lia.
      rewrite Z_mod_plus_full. apply Z.mod_small; lia.
    - apply Z.mod_small; lia. }
  assert (Hbits : lenz (be 8 (bitlen c)) = 8) by (unfold lenz; by rewrite be_length).
  unfold sha256_final, Spec.digest, SHA256_BLOCK_SIZE. eexists; split; [reflexivity|].
  unfold zero_to. cbn [put buflen]. change (lenz [0x80]) with 1.
  destruct (Z.ltb_spec 56 (buflen c + 1)) as [E|E].
  - rewrite (put_put c) by (rewrite ?lenz_replicate; change (lenz [0x80]) with 1; lia).
    set (d1 := [0x80] ++ replicate _ 0).
    assert (Hd1 : lenz d1 = 64 - buflen c)
      by (unfold d1; rewrite lenz_app, lenz_replicate; change (lenz [0x80]) with 1; lia).
    assert (H1 : holds (flush (put c d1)) (m ++ d1)) by (apply flush_put; [done|unfold lenz in Hd1; lia]).
    pose proof (rep_buf _ _ H1) as Hb1. cbn [buf] in Hb1.
    rewrite put_put; [|simpl; lia|unfold lenz in Hb1 |- *; rewrite Hb1; simpl buflen;
      rewrite length_replicate, be_length; lia].
    cbn [flush put buflen bitlen]. fold (put c d1). fold (flush (put c d1)).
    replace (Spec.pad m) with ((m ++ d1) ++ (replicate (Z.to_nat (56 - 0)) 0 ++ be 8 (bitlen c))).
    + apply flush_put; [done|]. rewrite !length_app, length_replicate, be_length.
      unfold lenz in Hd1. replace (length m + length d1)%nat with ((length m / 64 + 1) * 64)%nat.
      * rewrite Nat.Div0.mod_mul. lia.
      * pose proof (Nat.div_mod_eq (length m) 64). lia.
    + unfold Spec.pad, d1. rewrite Hb, <- !app_assoc. do 2 f_equal. rewrite app_assoc, <- replicate_add.
      do 2 f_equal. lia.
  - replace (buflen (put c [0x80])) with (buflen c + 1) by done. cbn [bitlen put].
    fold (put c [0x80]).
    rewrite (put_put c); [|lia|rewrite lenz_replicate; change (lenz [0x80]) with 1; lia].
    rewrite (put_put c); [|lia|rewrite lenz_app, lenz_replicate, Hbits; change (lenz [0x80]) with 1; lia].
    set (d := _ ++ _).
    replace (Spec.pad m) with (m ++ d).
    + apply flush_put; [done|]. unfold d. rewrite !length_app, length_replicate.
      cbn [put bitlen]. rewrite be_length. simpl length. lia.
    + unfold Spec.pad, d. cbn [put bitlen]. rewrite Hb, <- !app_assoc. do 4 f_equal. lia.
Qed.

Lemma final_rep c m : rep c m -> sha256_final c = Spec.hash m.
Proof.
  intros (c' & -> & H')%final_state. unfold Spec.hash.
  pose proof (rep_state _ _ H') as Hs. simpl in Hs. by rewrite Hs.
Qed.

Lemma sha256_hash m : sha256 m = Spec.hash m.
Proof.
  unfold sha256, sha256_on. apply final_rep, (update_rep _ [] m), init_rep. done.
Qed.

(** [sha256_init; sha256_update* ; sha256_final]. *)
Definition sha256_stream (c : sha256_ctx) (pieces : list (list Z)) : list Z :=
  sha256_final (fold_left sha256_update pieces (sha256_init c)).

Lemma fold_rep c m pieces : rep c m -> rep (fold_left sha256_update pieces c) (m ++ concat pieces).
Proof.
  revert c m; induction pieces as [|d ps IH]; intros c m H; simpl; [by rewrite app_nil_r|].
  rewrite app_assoc. by apply IH, update_rep.
Qed.

(** The digest is eight words of four bytes. *)
Lemma digest_length l : length (Spec.digest l) = (4 * length l)%nat.
Proof. unfold Spec.digest. induction l; [done|]. cbn [map concat length]. rewrite length_app, be_length, IHl. lia. Qed.
Lemma digest_bytes l : Forall is_u8 (Spec.digest l).
Proof. unfold Spec.digest. induction l; [constructor|]. cbn [map concat]. apply Forall_app; auto with machine. Qed.

Lemma absorb_length n st l : length st = 8%nat -> length (Spec.absorb n st l) = 8%nat.
Proof. revert st l; induction n; intros; simpl; auto. Qed.

Lemma hash_length m : length (Spec.hash m) = 32%nat.
Proof. unfold Spec.hash. by rewrite digest_length, absorb_length. Qed.

Lemma sha256_length m : length (sha256 m) = 32%nat.
Proof. rewrite sha256_hash. apply hash_length. Qed.
Lemma sha256_bytes m : Forall is_u8 (sha256 m).
Proof. rewrite sha256_hash. apply digest_bytes. Qed.
#[export] Hint Resolve sha256_bytes : machine.

(** C30: whatever the leftover bytes of the context and whatever the way the
    message is cut into [sha256_update] calls, the digest is the padded
    one-pass hash of the concatenation, 32 bytes long. *)
Theorem sha256_refines c pieces (Hc : length (buf c) = 64%nat) :
  sha256_stream c pieces = Spec.hash (concat pieces) /\ length (sha256_stream c pieces) = 32%nat.
Proof.
  assert (E : sha256_stream c pieces = Spec.hash (concat pieces)).
  { unfold sha256_stream. apply final_rep, (fold_rep _ []), init_rep, Hc. }
  rewrite E. split; [done|]. apply hash_length.
Qed.

Lemma sha256_refines_witness :
  sha256_stream (Ctx [] 7 9 (replicate 64 0xAA)) [[97]; []; [98; 99]] = want_abc.
Proof.
  rewrite (proj1 (sha256_refines (Ctx [] 7 9 (replicate 64 0xAA)) [[97]; []; [98; 99]] eq_refl)).
  vm_compute. reflexivity.
Defined.

(** [hmac_sha256] is RFC 2104's HMAC over the reference hash, truncated
    to the bytes asked for and never longer than the digest. *)
Theorem hmac_refines key msg out_len :
  hmac_sha256 key msg out_len = take (Z.to_nat (Z.min 32 out_len)) (Spec.hmac key msg).
Proof.
  unfold hmac_sha256, SHA256_DIGEST_SIZE, SHA256_BLOCK_SIZE.
  assert (Hm : (if 32 <? out_len then 32 else out_len) = Z.min 32 out_len)
    by (destruct (Z.ltb_spec 32 out_len); lia).
  rewrite Hm. clear Hm. f_equal.
  assert (Hk : (if 64 <? lenz key then sha256 key ++ replicate 32 0
           else key ++ replicate (Z.to_nat (64 - lenz key)) 0) = Spec.block_key key).
  { unfold Spec.block_key. destruct (64 <? lenz key) eqn:E.
    - by rewrite sha256_hash, hash_length.
    - do 2 f_equal. unfold lenz. lia. }
  rewrite Hk. clear Hk. unfold Spec.hmac.
  assert (Hs : rep (sha256_update (sha256_update (sha256_init stack_ctx)
     (map (fun b => Z.lxor b 0x36) (Spec.block_key key))) msg)
     (map (fun b => Z.lxor b 0x36) (Spec.block_key key) ++ msg))
    by (apply update_rep, (update_rep _ []), init_rep; done).
  rewrite (final_rep _ _ Hs). apply final_rep, update_rep, (update_rep _ []), init_rep.
  apply (rep_buf _ _ Hs).
Qed.

(** The known-answer tests of [sha256_self_test] pass: ["abc"] of FIPS
    180-4 and test cases 1, 2 and 4 of RFC 4231. *)
Theorem sha256_self_test_passes : sha256_self_test = 0.
Proof. vm_compute. reflexivity. Qed.

(** The clients reason with the lemmas above; [vm_compute] still evaluates. *)
#[global] Opaque sha256 hmac_sha256.
