(* ===== verification/Node.v ===== *)
(** * Node identities: src/arch/common/include/pk_node.h, drpc.h and drpc.c

    The hosted build: a node id is 16 bits inside a node and one byte on the
    version 1 wire, the states of the live view, the address of a node, and the
    table that gives a row to an id too wide to index the per-node tables. *)

From stdpp Require Import list.
#[local] Open Scope Z_scope.
From S2P Require Import Prelude.

Definition DNODE_MAX : Z := 64.
Definition DNODE_UNKNOWN : Z := 0.
Definition DNODE_ALIVE : Z := 1.
Definition DNODE_SUSPECT : Z := 2.
Definition DNODE_DEAD : Z := 3.
Definition PK_NODE_NONE : Z := 0xFF.
Definition DNODE_WIDE_ROWS : Z := 32.
Definition DNODE_ROWS : Z := DNODE_MAX + DNODE_WIDE_ROWS.

(** A node id in a one-byte field. *)
Definition pk_node_v1 (id : Z) : Z := if id <? PK_NODE_NONE then u8 id else PK_NODE_NONE.

(** The address of a node, as the 32-bit value the sockets take. *)
Definition pk_node_ip (n : Z) : Z :=
  let v := n + 1 in
  Z.lor (Z.lor (u32 (Z.shiftl (Z.land v 0xFF) 24)) (u32 (Z.shiftl (Z.shiftr v 8) 16))) 0x0000010A.

(** ** The extra rows

    [row_id] holds the ids of the rows taken so far, in order: the first
    [row_used] entries of the array of the source. *)
Record rows : Type := Rows { row_id : list Z; row_refused : Z }.

Definition rows0 : rows := Rows [] 0.

Fixpoint row_scan (ids : list Z) (id i : Z) : Z :=
  match ids with
  | [] => -1
  | x :: r => if x =? id then DNODE_MAX + i else row_scan r id (i + 1)
  end.
Definition row_lookup (t : rows) (id : Z) : Z := row_scan (row_id t) id 0.

Definition pk_node_row_find (t : rows) (id : Z) : Z :=
  if id <? DNODE_MAX then id
  else if (id =? PK_NODE_NONE) || (id =? 0xFFFF) then -1
  else row_lookup t id.

Definition pk_node_row (t : rows) (id : Z) : Z * rows :=
  if id <? DNODE_MAX then (id, t)
  else if (id =? PK_NODE_NONE) || (id =? 0xFFFF) then (-1, t)
  else
    let r := row_lookup t id in
    if r <? 0 then
      if lenz (row_id t) <? DNODE_WIDE_ROWS
      then (DNODE_MAX + lenz (row_id t), Rows (row_id t ++ [id]) (row_refused t))
      else (r, Rows (row_id t) (u32 (row_refused t + 1)))
    else (r, t).

Definition pk_node_of_row (t : rows) (r : Z) : Z :=
  if (0 <=? r) && (r <? DNODE_MAX) then r
  else if (DNODE_MAX <=? r) && (r <? DNODE_MAX + lenz (row_id t)) then getz (row_id t) (r - DNODE_MAX) 0
  else PK_NODE_NONE.

(** The table after some ids were seen. *)
Definition rows_after (ids : list Z) (t : rows) : rows := fold_left (fun t id => snd (pk_node_row t id)) ids t.

(** A node id on the version 1 wire is a byte. *)
Lemma node_v1_u8 o : 0 <= o -> is_u8 (pk_node_v1 o).
Proof. intros Ho. unfold pk_node_v1, PK_NODE_NONE. destruct (o <? 255) eqn:E; [apply u8_range|done]. Qed.

(** ** The rows keep their meaning *)

Definition rows_ok (t : rows) : Prop :=
  NoDup (row_id t) /\ lenz (row_id t) <= DNODE_WIDE_ROWS /\
  Forall (fun id => DNODE_MAX <= id /\ id <> PK_NODE_NONE /\ id <> 0xFFFF) (row_id t).

(** [t'] has the rows of [t], and perhaps more. *)
Definition rows_le (t t' : rows) : Prop := row_id t `prefix_of` row_id t'.

#[export] Instance rows_le_preorder : PreOrder rows_le.
Proof. unfold rows_le. split; [by intros t|]. by intros a b c Hab Hbc; etrans. Qed.

Lemma row_scan_spec ids id i : 0 <= i ->
  match list_find (fun x => x = id) ids with
  | Some (k, _) => row_scan ids id i = DNODE_MAX + i + Z.of_nat k
  | None => row_scan ids id i = -1
  end.
Proof.
  revert i. induction ids as [|x r IH]; intros i Hi; [done|]. cbn [row_scan list_find].
  destruct (Z.eqb_spec x id) as [->|Hne].
  - rewrite decide_True by done. lia.
  - rewrite decide_False by done. specialize (IH (i + 1) ltac:(lia)).
    destruct (list_find _ r) as [[k y]|]; simpl; [rewrite IH; lia|done].
Qed.

Lemma row_lookup_some t k id : NoDup (row_id t) -> row_id t !! k = Some id ->
  row_lookup t id = DNODE_MAX + Z.of_nat k.
Proof.
  intros Hnd Hk. unfold row_lookup. pose proof (row_scan_spec (row_id t) id 0 ltac:(lia)) as H.
  destruct (list_find _ _) as [[j y]|] eqn:E.
  - apply list_find_Some in E as (Hj & -> & _).
    pose proof (NoDup_lookup _ _ _ _ Hnd Hj Hk) as ->. lia.
  - apply list_find_None in E. rewrite Forall_lookup in E. by destruct (E k id Hk).
Qed.

Lemma row_lookup_neg t id : row_lookup t id < 0 -> id ∉ row_id t.
Proof.
  intros Hr [k Hk]%list_elem_of_lookup. unfold row_lookup in Hr.
  pose proof (row_scan_spec (row_id t) id 0 ltac:(lia)) as H.
  destruct (list_find _ _) as [[j y]|] eqn:E; [unfold DNODE_MAX in *; lia|].
  apply list_find_None in E. rewrite Forall_lookup in E. by destruct (E k id Hk).
Qed.

Lemma pk_node_row_ok t id : rows_ok t -> rows_ok (snd (pk_node_row t id)) /\ rows_le t (snd (pk_node_row t id)).
Proof.
  intros (Hnd & Hlen & Hall). unfold pk_node_row, rows_le. ifs; simpl; try by repeat split.
  bools. split; [|by apply prefix_app_r]. split_and!.
  - apply list.NoDup_app. split_and!; [done| |apply NoDup_singleton].
    intros x Hx ->%list_elem_of_singleton. by eapply row_lookup_neg.
  - unfold lenz in *. cbn [row_id]. rewrite length_app. simpl. lia.
  - apply Forall_app. split; [done|]. repeat constructor; lia.
Qed.

Lemma rows_after_ok ids t : rows_ok t -> rows_ok (rows_after ids t) /\ rows_le t (rows_after ids t).
Proof.
  revert t. induction ids as [|id ids IH]; intros t Ht; [by split|].
  cbn [rows_after fold_left]. destruct (pk_node_row_ok t id Ht) as [H1 H2].
  destruct (IH _ H1) as [H3 H4]. split; [done|]. by etrans.
Qed.

Lemma row_given t id r : rows_ok t -> fst (pk_node_row t id) = r -> 0 <= id -> 0 <= r ->
  r < DNODE_ROWS /\ forall t', rows_ok t' -> rows_le (snd (pk_node_row t id)) t' ->
    pk_node_row_find t' id = r /\ pk_node_of_row t' r = id.
Proof.
  intros (Hnd & Hlen & Hall) Hr Hid Hr0. revert Hr. unfold pk_node_row, DNODE_ROWS.
  pose proof (row_scan_spec (row_id t) id 0 ltac:(lia)) as Hs. fold (row_lookup t id) in Hs.
  assert (forall t' k, (k < length (row_id t'))%nat -> DNODE_MAX <= id -> id <> PK_NODE_NONE -> id <> 0xFFFF ->
    rows_ok t' -> row_id t' !! k = Some id ->
    pk_node_row_find t' id = DNODE_MAX + Z.of_nat k /\ pk_node_of_row t' (DNODE_MAX + Z.of_nat k) = id) as Hget.
  { intros t' k Hlt H1 H2 H3 (Hnd' & _) Hk. unfold pk_node_row_find, pk_node_of_row, getz, lenz.
    rewrite (row_lookup_some t' k id) by done. split.
    - ifs; bools; lia.
    - ifs; bools; try lia. replace (Z.to_nat _) with k by lia. by rewrite nth_lookup, Hk. }
  ifs; cbn [fst snd]; intros <-; bools; try lia.
  - unfold DNODE_WIDE_ROWS, DNODE_MAX in *. split; [lia|]. intros t' _ _.
    unfold pk_node_row_find, pk_node_of_row, DNODE_MAX.
    rewrite (proj2 (Z.ltb_lt _ _)), (proj2 (Z.leb_le 0 id)) by lia. done.
  - split; [lia|]. intros t' Ht' [w Hw]. unfold lenz. apply Hget; try done; rewrite Hw; cbn [row_id].
    + rewrite !length_app. simpl. lia.
    + rewrite <- app_assoc. apply list_lookup_middle. done.
  - destruct (list_find _ (row_id t)) as [[k y]|] eqn:Ef; [|unfold DNODE_MAX in *; lia].
    apply list_find_Some in Ef as (Hk & -> & _). pose proof (lookup_lt_Some _ _ _ Hk) as Hlt.
    rewrite Hs, Z.add_0_r. unfold lenz in Hlen. split; [lia|]. intros t' Ht' [w Hw].
    apply Hget; try done; rewrite Hw; [rewrite length_app; lia|by apply lookup_app_l_Some].
Qed.

(** A row of the per-node tables never changes meaning. Whatever ids were
    seen before, the row an id gets is inside the tables; whatever ids are
    seen afterwards, the id keeps that row and the row gives the id back; two
    ids never share a row. *)
Theorem rows_stable before id after r (Hid : 0 <= id) (Hr : 0 <= r)
    (Hrow : fst (pk_node_row (rows_after before rows0) id) = r) :
  let t := rows_after after (snd (pk_node_row (rows_after before rows0) id)) in
  r < DNODE_ROWS /\ pk_node_row_find t id = r /\ pk_node_of_row t r = id /\
  forall id', 0 <= id' -> pk_node_row_find t id' = r -> id' = id.
Proof.
  assert (rows_ok rows0) as H0 by (split_and!; [constructor|done|constructor]).
  destruct (rows_after_ok before rows0 H0) as [Hb _].
  destruct (pk_node_row_ok _ id Hb) as [Hp _].
  destruct (rows_after_ok after _ Hp) as [Ha Hle]. intros t.
  destruct (row_given _ _ _ Hb Hrow Hid Hr) as [Hlt Hget].
  destruct (Hget t Ha Hle) as [Hf Ho]. split_and!; [done..|].
  intros id' Hid' Hf'. rewrite <- Ho, <- Hf'. symmetry.
  destruct (row_given t id' r Ha) as [_ Hg]; [|done..|].
  - unfold pk_node_row. unfold pk_node_row_find in Hf'. ifs; try done.
    all: try (cbn [fst]; lia). all: bools; lia.
  - rewrite Hf'. destruct (Hg t Ha) as [_ ?]; [|done].
    unfold pk_node_row. unfold pk_node_row_find in Hf'. ifs; try done; bools; lia.
Qed.

Example rows_stable_witness :
  pk_node_of_row (rows_after [400; 5; 500] (snd (pk_node_row (rows_after [300] rows0) 301))) 65 = 301.
Proof.
  destruct (rows_stable [300] 301 [400; 5; 500] 65) as (_ & _ & H & _); [lia|lia|reflexivity|exact H].
Defined.

(** The address of a narrow node: its id plus one is the last byte. *)
Lemma pk_node_ip_narrow n : 0 <= n < PK_NODE_NONE -> pk_node_ip n = (n + 1) * 2 ^ 24 + 0x10A.
Proof.
  intros Hn.
  assert (Forall (fun n => pk_node_ip n = (n + 1) * 2 ^ 24 + 0x10A) (seqZ 0 PK_NODE_NONE)) as H
    by (apply (bool_decide_unpack _); vm_compute; exact I).
  rewrite Forall_elem in H. apply H, elem_of_seqZ. lia.
Qed.

Lemma pk_node_ip_inj n m : 0 <= n < PK_NODE_NONE -> 0 <= m < PK_NODE_NONE -> pk_node_ip n = pk_node_ip m -> n = m.
Proof. intros Hn Hm. rewrite !pk_node_ip_narrow by done. lia. Qed.
