(* ===== verification/ArkIndex.v ===== *)
(** * The block index of ARK ([arch/common/arkfs.c], [idx_*])

    An open-addressed hash table from block ids to log sectors: a static pool
    of [ARK_IDX_SLOTS] slots, linear probing, no deletion, an insert limit
    derived from the medium. It is proved to be a finite map. *)

From stdpp Require Import gmap sets fin_sets.
From S2P Require Import Prelude.

Definition ARK_IDX_SLOTS : Z := 16384.
Definition ARK_IDX_LOAD : Z := 75.
Definition ARK_OK : Z := 0.
Definition ARK_E_INVAL : Z := -1.
Definition ARK_E_NODEV : Z := -2.
Definition ARK_E_IO : Z := -3.
Definition ARK_E_NOTFOUND : Z := -4.
Definition ARK_E_TOOBIG : Z := -5.
Definition ARK_E_FULL : Z := -6.
Definition ARK_E_CORRUPT : Z := -7.
Definition ARK_E_NOTMOUNTED : Z := -8.

(** A slot is empty iff its sector is 0, the superblock's. *)
Record ark_idx := Slot { slot_id : list Z; slot_sec : Z }.
Record index := Index { g_idx : array ark_idx; g_idx_n : Z; g_idx_cap : Z }.

Definition idx_hash (id : list Z) : Z := of_le (take 4 id).

Definition mask : Z := ARK_IDX_SLOTS - 1.
Definition probe (id : list Z) (i : Z) : Z := Z.land (Z.land (idx_hash id) mask + i) mask.

(** The probe loop of [idx_find] from turn [i], [n] turns left. *)
Fixpoint find_from (n : nat) (t : array ark_idx) (id : list Z) (i : Z) : Z :=
  match n with
  | O => -1
  | S k =>
      let s := probe id i in
      if slot_sec (t s) =? 0 then -1
      else if bool_decide (slot_id (t s) = id) then s
      else find_from k t id (i + 1)
  end.

Definition idx_find (ix : index) (id : list Z) : Z :=
  find_from (Z.to_nat ARK_IDX_SLOTS) (g_idx ix) id 0.

Fixpoint add_from (n : nat) (ix : index) (id : list Z) (sec i : Z) : Z * index :=
  match n with
  | O => (ARK_E_FULL, ix)
  | S k =>
      let s := probe id i in
      if slot_sec (g_idx ix s) =? 0 then
        if g_idx_cap ix <=? g_idx_n ix then (ARK_E_FULL, ix)
        else (ARK_OK, Index (upd (g_idx ix) s (Slot id sec)) (g_idx_n ix + 1) (g_idx_cap ix))
      else if bool_decide (slot_id (g_idx ix s) = id) then (ARK_OK, ix)
      else add_from k ix id sec (i + 1)
  end.

Definition idx_add (ix : index) (id : list Z) (sec : Z) : Z * index :=
  add_from (Z.to_nat ARK_IDX_SLOTS) ix id sec 0.

Definition idx_count (ix : index) : Z := g_idx_n ix.

Definition empty_slots : array ark_idx := fun _ => Slot [] 0.

(** The table's part of [reset_state]. *)
Definition idx_reset (ix : index) : index := Index empty_slots 0 (g_idx_cap ix).

Definition idx_set_cap (ix : index) (total_sectors : Z) : index :=
  let pool_cap := ARK_IDX_SLOTS / 100 * ARK_IDX_LOAD + ARK_IDX_SLOTS mod 100 * ARK_IDX_LOAD / 100 in
  Index (g_idx ix) (g_idx_n ix) (if total_sectors <? pool_cap then total_sectors else pool_cap).

(** ** The finite map the table represents *)

Definition occupied (ix : index) (s : Z) : Prop := slot_sec (g_idx ix s) <> 0.

Record idx_rep (ix : index) (m : gmap (list Z) Z) : Prop := {
  rep_sound s : 0 <= s < ARK_IDX_SLOTS -> occupied ix s ->
    m !! slot_id (g_idx ix s) = Some (slot_sec (g_idx ix s));
  rep_chain id sec : m !! id = Some sec ->
    exists i, 0 <= i < ARK_IDX_SLOTS /\ g_idx ix (probe id i) = Slot id sec /\ sec <> 0 /\
      forall j, 0 <= j < i -> occupied ix (probe id j);
  rep_inj s s' : 0 <= s < ARK_IDX_SLOTS -> 0 <= s' < ARK_IDX_SLOTS ->
    occupied ix s -> occupied ix s' -> slot_id (g_idx ix s) = slot_id (g_idx ix s') -> s = s';
  rep_size : g_idx_n ix = Z.of_nat (size m) }.

Lemma probe_mod id i : probe id i = (idx_hash id + i) mod ARK_IDX_SLOTS.
Proof.
  unfold probe, mask, ARK_IDX_SLOTS. change (16384 - 1) with (Z.ones 14).
  rewrite !Z.land_ones by lia. rewrite Zplus_mod_idemp_l. done.
Qed.

Lemma probe_range id i : 0 <= probe id i < ARK_IDX_SLOTS.
Proof. rewrite probe_mod. apply Z.mod_pos_bound. done. Qed.
#[export] Hint Resolve probe_range : machine.

Lemma probe_inj id i j :
  0 <= i < ARK_IDX_SLOTS -> 0 <= j < ARK_IDX_SLOTS -> probe id i = probe id j -> i = j.
Proof.
  rewrite !probe_mod. unfold ARK_IDX_SLOTS. intros Hi Hj E.
  apply (f_equal (fun x => (x - idx_hash id) mod 16384)) in E.
  rewrite !Zminus_mod_idemp_l in E.
  replace (idx_hash id + i - idx_hash id) with i in E by lia.
  replace (idx_hash id + j - idx_hash id) with j in E by lia.
  by rewrite !Z.mod_small in E by lia.
Qed.

Lemma probe_surj id s : 0 <= s < ARK_IDX_SLOTS -> exists i, 0 <= i < ARK_IDX_SLOTS /\ probe id i = s.
Proof.
  unfold ARK_IDX_SLOTS. intros Hs. exists ((s - idx_hash id) mod 16384).
  split; [apply Z.mod_pos_bound; lia|]. rewrite probe_mod. unfold ARK_IDX_SLOTS.
  rewrite Zplus_mod_idemp_r. replace (idx_hash id + (s - idx_hash id)) with s by lia.
  by apply Z.mod_small.
Qed.

(** What a probe walk meets from turn [i] on. *)
Definition foreign (t : array ark_idx) (id : list Z) (i j : Z) : Prop :=
  forall k, i <= k < j -> slot_sec (t (probe id k)) <> 0 /\ slot_id (t (probe id k)) <> id.

Inductive walk (t : array ark_idx) (id : list Z) (i e : Z) : Prop :=
  | walk_empty j : i <= j < e -> slot_sec (t (probe id j)) = 0 -> foreign t id i j -> walk t id i e
  | walk_hit j : i <= j < e -> slot_sec (t (probe id j)) <> 0 -> slot_id (t (probe id j)) = id ->
      foreign t id i j -> walk t id i e
  | walk_full : foreign t id i e -> walk t id i e.

Lemma foreign_nil t id i : foreign t id i i.
Proof. intros k Hk. lia. Qed.

Lemma foreign_cons t id i j :
  slot_sec (t (probe id i)) <> 0 -> slot_id (t (probe id i)) <> id ->
  foreign t id (i + 1) j -> foreign t id i j.
Proof. intros H1 H2 H k Hk. destruct (decide (k = i)) as [->|]; [done|]. apply H; lia. Qed.

Lemma walk_from n t id i : walk t id i (i + Z.of_nat n).
Proof.
  revert i; induction n as [|n IH]; intros i.
  { apply walk_full. intros k Hk. lia. }
  destruct (decide (slot_sec (t (probe id i)) = 0)) as [E|E].
  { apply (walk_empty _ _ _ _ i); [lia|done|apply foreign_nil]. }
  destruct (decide (slot_id (t (probe id i)) = id)) as [F|F].
  { apply (walk_hit _ _ _ _ i); [lia|done|done|apply foreign_nil]. }
  destruct (IH (i + 1)) as [j Hj H1 H2|j Hj H1 H2 H3|H1].
  - apply (walk_empty _ _ _ _ j); [lia|done|by apply foreign_cons].
  - apply (walk_hit _ _ _ _ j); [lia|done|done|by apply foreign_cons].
  - apply walk_full. apply foreign_cons; [done..|].
    by replace (i + Z.of_nat (S n)) with (i + 1 + Z.of_nat n) by lia.
Qed.

(** The two loops follow the walk. *)
Lemma find_skip t id i j n :
  0 <= n -> i <= j -> foreign t id i j ->
  find_from (Z.to_nat (j - i + n)) t id i = find_from (Z.to_nat n) t id j.
Proof.
  intros Hn Hij. remember (Z.to_nat (j - i)) as k eqn:Ek. revert i Hij Ek.
  induction k as [|k IH]; intros i Hij Ek H.
  { assert (i = j) as -> by lia. by rewrite Z.sub_diag. }
  replace (Z.to_nat (j - i + n)) with (S (Z.to_nat (j - (i + 1) + n))) by lia. cbn [find_from].
  destruct (H i ltac:(lia)) as [H1 H2].
  rewrite (proj2 (Z.eqb_neq _ _) H1), bool_decide_false by done.
  apply IH; [lia|lia|]. intros m Hm. apply H; lia.
Qed.

Lemma add_skip ix id sec i j n :
  0 <= n -> i <= j -> foreign (g_idx ix) id i j ->
  add_from (Z.to_nat (j - i + n)) ix id sec i = add_from (Z.to_nat n) ix id sec j.
Proof.
  intros Hn Hij. remember (Z.to_nat (j - i)) as k eqn:Ek. revert i Hij Ek.
  induction k as [|k IH]; intros i Hij Ek H.
  { assert (i = j) as -> by lia. by rewrite Z.sub_diag. }
  replace (Z.to_nat (j - i + n)) with (S (Z.to_nat (j - (i + 1) + n))) by lia. cbn [add_from].
  destruct (H i ltac:(lia)) as [H1 H2].
  rewrite (proj2 (Z.eqb_neq _ _) H1), bool_decide_false by done.
  apply IH; [lia|lia|]. intros m Hm. apply H; lia.
Qed.

Section Rep.
Context (ix : index) (m : gmap (list Z) Z) (R : idx_rep ix m).

Lemma slot_of_slot id sec s : g_idx ix s = Slot id sec -> slot_id (g_idx ix s) = id /\ slot_sec (g_idx ix s) = sec.
Proof. by intros ->. Qed.

Lemma chain_no_gap id sec j :
  m !! id = Some sec -> slot_sec (g_idx ix (probe id j)) = 0 -> 0 <= j -> foreign (g_idx ix) id 0 j -> False.
Proof.
  intros Hm H0 Hj HF. destruct (rep_chain _ _ R _ _ Hm) as (i & Hi & Hs & Hn & Ho).
  apply slot_of_slot in Hs as [Hs1 Hs2].
  destruct (Z.lt_trichotomy i j) as [H|[->|H]].
  - destruct (HF i ltac:(lia)); congruence.
  - congruence.
  - by apply (Ho j).
Qed.

Lemma hit_lookup id j :
  slot_sec (g_idx ix (probe id j)) <> 0 -> slot_id (g_idx ix (probe id j)) = id ->
  m !! id = Some (slot_sec (g_idx ix (probe id j))).
Proof.
  intros H1 H2. rewrite <- H2 at 1. apply (rep_sound _ _ R); auto with machine.
Qed.

Lemma full_absent id : foreign (g_idx ix) id 0 ARK_IDX_SLOTS -> m !! id = None.
Proof.
  intros HF. destruct (m !! id) as [sec|] eqn:E; [|done].
  destruct (rep_chain _ _ R _ _ E) as (i & Hi & Hs & _). apply slot_of_slot in Hs as [Hs1 _].
  destruct (HF i Hi). congruence.
Qed.

Lemma not_full id : g_idx_n ix < ARK_IDX_SLOTS -> ~ foreign (g_idx ix) id 0 ARK_IDX_SLOTS.
Proof.
  intros Hn HF.
  assert (Hocc : forall s, 0 <= s < ARK_IDX_SLOTS -> occupied ix s).
  { intros s Hs. destruct (probe_surj id s Hs) as (i & Hi & <-). by apply HF. }
  set (l := (fun s => slot_id (g_idx ix s)) <$> seqZ 0 ARK_IDX_SLOTS).
  assert (Hnd : NoDup l).
  { apply NoDup_fmap_2_strong; [|apply NoDup_seqZ].
    intros x y Hx%elem_of_seqZ Hy%elem_of_seqZ E.
    apply (rep_inj _ _ R); [lia|lia|apply Hocc; lia|apply Hocc; lia|done]. }
  assert (Hsub : (list_to_set l : gset (list Z)) ⊆ dom m).
  { intros x. rewrite elem_of_list_to_set. unfold l. rewrite list_elem_of_fmap.
    intros (s & -> & Hs%elem_of_seqZ). apply elem_of_dom.
    eexists. apply (rep_sound _ _ R); [lia|apply Hocc; lia]. }
  apply subseteq_size in Hsub. rewrite size_list_to_set in Hsub by done.
  rewrite size_dom in Hsub. unfold l in Hsub. rewrite length_fmap, length_seqZ in Hsub.
  pose proof (rep_size _ _ R). lia.
Qed.

Lemma walk_all id : walk (g_idx ix) id 0 ARK_IDX_SLOTS.
Proof. apply (walk_from (Z.to_nat ARK_IDX_SLOTS)). Qed.

Lemma find_spec id :
  match m !! id with
  | Some sec => 0 <= idx_find ix id < ARK_IDX_SLOTS /\ g_idx ix (idx_find ix id) = Slot id sec
  | None => idx_find ix id = -1
  end.
Proof.
  assert (Hs : forall j, 0 <= j < ARK_IDX_SLOTS -> foreign (g_idx ix) id 0 j ->
    idx_find ix id = find_from (S (Z.to_nat (ARK_IDX_SLOTS - j - 1))) (g_idx ix) id j).
  { intros j Hj HF. unfold idx_find.
    replace (Z.to_nat ARK_IDX_SLOTS) with (Z.to_nat (j - 0 + (ARK_IDX_SLOTS - j))) by (f_equal; lia).
    rewrite find_skip by (lia || done). f_equal. lia. }
  destruct (walk_all id) as [j Hj H1 H2|j Hj H1 H2 H3|H1].
  - rewrite (Hs j Hj H2). cbn [find_from]. rewrite H1. simpl.
    destruct (m !! id) as [sec|] eqn:E; [|done]. exfalso. eapply chain_no_gap; eauto. lia.
  - rewrite (Hs j Hj H3). cbn [find_from].
    rewrite (proj2 (Z.eqb_neq _ _) H1), bool_decide_true by done.
    rewrite (hit_lookup id j H1 H2). split; [auto with machine|].
    destruct (g_idx ix (probe id j)); simpl in *; congruence.
  - rewrite full_absent by done. unfold idx_find.
    replace (Z.to_nat ARK_IDX_SLOTS) with (Z.to_nat (ARK_IDX_SLOTS - 0 + 0)) by (f_equal; lia).
    by rewrite find_skip by done.
Qed.

Lemma insert_rep id sec j :
  sec <> 0 -> 0 <= j < ARK_IDX_SLOTS -> slot_sec (g_idx ix (probe id j)) = 0 ->
  foreign (g_idx ix) id 0 j -> m !! id = None ->
  idx_rep (Index (upd (g_idx ix) (probe id j) (Slot id sec)) (g_idx_n ix + 1) (g_idx_cap ix))
    (<[id := sec]> m).
Proof.
  intros Hsec Hj H0 HF Hm.
  assert (Hnew : forall s, 0 <= s < ARK_IDX_SLOTS -> occupied ix s -> slot_id (g_idx ix s) <> id).
  { intros s Hs Ho E. apply (rep_sound _ _ R s Hs) in Ho. congruence. }
  split; unfold occupied; cbn [g_idx g_idx_n].
  - intros s Hs. destruct (decide (s = probe id j)) as [->|Hne].
    + rewrite upd_eq. simpl. by rewrite lookup_insert_eq.
    + rewrite upd_ne by done. intros Ho. rewrite lookup_insert_ne by (symmetry; by apply Hnew).
      by apply (rep_sound _ _ R).
  - intros id' sec'. destruct (decide (id' = id)) as [->|Hne].
    + rewrite lookup_insert_eq. intros [= <-]. exists j. split; [done|]. rewrite upd_eq.
      split; [done|]. split; [done|]. intros k Hk. rewrite upd_ne.
      * by apply HF.
      * intros E. apply probe_inj in E; lia.
    + rewrite lookup_insert_ne by done. intros H.
      destruct (rep_chain _ _ R _ _ H) as (i & Hi & Hs & Hn & Ho). exists i. split; [done|].
      assert (probe id' i <> probe id j).
      { intros E. rewrite <- E, Hs in H0. done. }
      rewrite upd_ne by done. split_and!; [done..|]. intros k Hk.
      destruct (decide (probe id' k = probe id j)) as [->|Hp].
      * by rewrite upd_eq.
      * rewrite upd_ne by done. by apply Ho.
  - intros s s' Hs Hs'. destruct (decide (s = probe id j)) as [->|Hne], (decide (s' = probe id j)) as [->|Hne'];
      rewrite ?upd_eq, ?upd_ne by done; simpl; intros Ho Ho' E; try done.
    + exfalso. by apply (Hnew s').
    + exfalso. by apply (Hnew s).
    + by apply (rep_inj _ _ R).
  - rewrite map_size_insert_None by done. pose proof (rep_size _ _ R). lia.
Qed.

Lemma add_spec id sec :
  sec <> 0 -> g_idx_cap ix <= ARK_IDX_SLOTS ->
  match m !! id with
  | Some _ => idx_add ix id sec = (ARK_OK, ix)
  | None =>
      if g_idx_n ix <? g_idx_cap ix
      then exists ix', idx_add ix id sec = (ARK_OK, ix') /\ idx_rep ix' (<[id := sec]> m) /\
             g_idx_cap ix' = g_idx_cap ix
      else idx_add ix id sec = (ARK_E_FULL, ix)
  end.
Proof.
  intros Hsec Hcap.
  assert (Hs : forall j, 0 <= j < ARK_IDX_SLOTS -> foreign (g_idx ix) id 0 j ->
    idx_add ix id sec = add_from (S (Z.to_nat (ARK_IDX_SLOTS - j - 1))) ix id sec j).
  { intros j Hj HF. unfold idx_add.
    replace (Z.to_nat ARK_IDX_SLOTS) with (Z.to_nat (j - 0 + (ARK_IDX_SLOTS - j))) by (f_equal; lia).
    rewrite add_skip by (lia || done). f_equal. lia. }
  destruct (walk_all id) as [j Hj H1 H2|j Hj H1 H2 H3|H1].
  - destruct (m !! id) as [x|] eqn:E; [exfalso; eapply chain_no_gap; eauto; lia|].
    rewrite (Hs j Hj H2). cbn [add_from]. rewrite H1. simpl.
    destruct (Z.ltb_spec (g_idx_n ix) (g_idx_cap ix)).
    + rewrite (proj2 (Z.leb_gt _ _)) by lia. eexists; split; [reflexivity|]. split; [|done].
      by apply insert_rep.
    + by rewrite (proj2 (Z.leb_le _ _)) by lia.
  - rewrite (Hs j Hj H3). cbn [add_from].
    by rewrite (proj2 (Z.eqb_neq _ _) H1), bool_decide_true, (hit_lookup id j H1 H2) by done.
  - rewrite full_absent by done.
    destruct (Z.ltb_spec (g_idx_n ix) (g_idx_cap ix)).
    + exfalso. eapply not_full; [|done]. lia.
    + unfold idx_add.
      replace (Z.to_nat ARK_IDX_SLOTS) with (Z.to_nat (ARK_IDX_SLOTS - 0 + 0)) by (f_equal; lia).
      by rewrite add_skip by done.
Qed.

End Rep.

Lemma reset_rep ix : idx_rep (idx_reset ix) ∅.
Proof.
  split; unfold occupied; simpl; done.
Qed.

Lemma cap_bound ix total : g_idx_cap (idx_set_cap ix total) <= 12288.
Proof. unfold idx_set_cap; cbn [g_idx_cap]. dif E; bools; [|done]. vm_compute (_ + _) in E. lia. Qed.

(** A sequence of insertions from an empty table, refusals ignored, as the
    replay of [ark_mount] performs it. *)
Definition idx_add_all (ix : index) (l : list (list Z * Z)) : index :=
  fold_left (fun ix '(id, sec) => snd (idx_add ix id sec)) l ix.

(** The same insertions on a map bounded to [cap] keys: first write wins. *)
Definition map_add (cap : Z) (m : gmap (list Z) Z) (id : list Z) (sec : Z) : gmap (list Z) Z :=
  match m !! id with
  | Some _ => m
  | None => if Z.of_nat (size m) <? cap then <[id := sec]> m else m
  end.
Definition map_add_all (cap : Z) (m : gmap (list Z) Z) (l : list (list Z * Z)) : gmap (list Z) Z :=
  fold_left (fun m '(id, sec) => map_add cap m id sec) l m.

Lemma add_rep ix m id sec :
  idx_rep ix m -> sec <> 0 -> g_idx_cap ix <= ARK_IDX_SLOTS ->
  idx_rep (snd (idx_add ix id sec)) (map_add (g_idx_cap ix) m id sec) /\
  g_idx_cap (snd (idx_add ix id sec)) = g_idx_cap ix.
Proof.
  intros R Hsec Hcap. pose proof (add_spec ix m R id sec Hsec Hcap) as H.
  unfold map_add. rewrite <- (rep_size _ _ R). destruct (m !! id); [by rewrite H|].
  destruct (g_idx_n ix <? g_idx_cap ix); [|by rewrite H].
  destruct H as (ix' & -> & H1 & H2). done.
Qed.

Lemma add_all_rep l : forall ix m,
  idx_rep ix m -> Forall (fun p => snd p <> 0) l -> g_idx_cap ix <= ARK_IDX_SLOTS ->
  idx_rep (idx_add_all ix l) (map_add_all (g_idx_cap ix) m l) /\
  g_idx_cap (idx_add_all ix l) = g_idx_cap ix.
Proof.
  induction l as [|[id sec] l IH]; intros ix m R Hl Hcap; [done|].
  inversion Hl as [|? ? Hs Hl']; subst. simpl in Hs.
  destruct (add_rep ix m id sec R Hs Hcap) as [R' Hc].
  destruct (IH _ _ R' Hl') as [R2 Hc2]; [by rewrite Hc|]. rewrite Hc in R2, Hc2. done.
Qed.

(** The hash table is a finite map. After any sequence of insertions
    into a fresh table, [idx_find] finds exactly the keys of the map built by
    the same insertions (first write wins, at most [cap] keys), in a slot that
    holds the key and its sector, and reports every other id absent; the
    entry count is the size of the map. *)
Theorem idx_refines ix0 total l (Hl : Forall (fun p => snd p <> 0) l) :
  let ix := idx_add_all (idx_reset (idx_set_cap ix0 total)) l in
  let m := map_add_all (g_idx_cap ix) ∅ l in
  idx_count ix = Z.of_nat (size m) /\
  forall id, match m !! id with
    | Some sec => 0 <= idx_find ix id < ARK_IDX_SLOTS /\ g_idx ix (idx_find ix id) = Slot id sec
    | None => idx_find ix id = -1
    end.
Proof.
  intros ix m. pose proof (cap_bound ix0 total) as Hc.
  destruct (add_all_rep l _ _ (reset_rep (idx_set_cap ix0 total)) Hl) as [R E].
  { change (g_idx_cap (idx_reset ?x)) with (g_idx_cap x). unfold ARK_IDX_SLOTS. lia. }
  fold ix in R, E. rewrite <- E in R. fold m in R.
  split; [apply (rep_size _ _ R)|]. intros id. apply (find_spec _ _ R).
Qed.

(** Two ids that hash to the same slot, the second refused at the limit. *)
Lemma idx_refines_witness :
  let ix := idx_add_all (idx_reset (idx_set_cap (Index empty_slots 0 0) 2))
    [([1; 2; 3; 4; 5], 7); ([1; 2; 3; 4; 6], 9); ([1; 2; 3; 4; 5], 8); ([2], 3)] in
  idx_count ix = 2 /\ slot_sec (g_idx ix (idx_find ix [1; 2; 3; 4; 5])) = 7 /\
  slot_sec (g_idx ix (idx_find ix [1; 2; 3; 4; 6])) = 9 /\ idx_find ix [2] = -1.
Proof.
  destruct (idx_refines (Index empty_slots 0 0) 2
    [([1; 2; 3; 4; 5], 7); ([1; 2; 3; 4; 6], 9); ([1; 2; 3; 4; 5], 8); ([2], 3)]) as [Hn Hf].
  { repeat constructor; done. }
  pose proof (Hf [1; 2; 3; 4; 5]) as H1. pose proof (Hf [1; 2; 3; 4; 6]) as H2. pose proof (Hf [2]) as H3.
  clear Hf. cbv zeta.
  match type of Hn with _ = ?x => replace x with 2 in Hn by (vm_compute; reflexivity) end.
  match type of H1 with match ?x with _ => _ end => replace x with (Some 7) in H1 by (vm_compute; reflexivity) end.
  match type of H2 with match ?x with _ => _ end => replace x with (Some 9) in H2 by (vm_compute; reflexivity) end.
  match type of H3 with match ?x with _ => _ end => replace x with (@None Z) in H3 by (vm_compute; reflexivity) end.
  destruct H1 as [_ ->], H2 as [_ ->]. repeat split; assumption.
Defined.
