(* ===== verification/ArkLog.v ===== *)
(** * The record log of ARK ([arch/common/arkfs.c], lines 60-450)

    On-disk formats, the device interface, the mounted state, and the two
    operations on the append-only log: [emit_record] and [read_record]. *)

From S2P Require Import Prelude Sha256 ArkIndex.

Definition ARK_SECTOR : Z := 512.
Definition ARK_ID_LEN : Z := 32.
Definition ARK_BLOCK_MAX : Z := 4096.
Definition ARK_NAME_MAX : Z := 64.
Definition ARK_MAX_FILES : Z := 32.
Definition ARK_MAX_BLK : Z := 16.
Definition ARK_COMMIT_MAX_RAW : Z := 44 + ARK_MAX_FILES * 592.
Definition ARK_SECT_UP (n : Z) : Z := (n + (ARK_SECTOR - 1)) / ARK_SECTOR * ARK_SECTOR.
Definition ARK_COMMIT_MAX : Z := ARK_SECT_UP ARK_COMMIT_MAX_RAW.

Definition ARK_SB_MAGIC : list Z := [65; 82; 75; 76; 79; 71; 48; 51].
Definition ARK_REC_MAGIC : list Z := [65; 82; 75; 82].
Definition ARK_FMT_VERSION : Z := 3.
Definition ARK_REC_BLOCK : Z := 1.
Definition ARK_REC_COMMIT : Z := 2.

(** ** Bytes *)

(** [field off n l] is the [n] bytes at offset [off]; [num] reads them as a
    little-endian number (every supported ABI is little-endian). *)
Definition field (off n : nat) (l : list Z) : list Z := take n (drop off l).
Definition num (off : nat) (l : list Z) : Z := u32 (of_le (field off 4 l)).

(** [memset(b, 0, n); memcpy(b, l, len l)]. *)
Definition pad_to (n : nat) (l : list Z) : list Z := take n l ++ replicate (n - length l) 0.

(** A C string in a buffer: the bytes before the first NUL. *)
Fixpoint cstr (l : list Z) : list Z :=
  match l with
  | [] => []
  | c :: r => if c =? 0 then [] else c :: cstr r
  end.

Definition ark_strlen (s : list Z) : Z := lenz (cstr s).
Definition ark_streq (a b : list Z) : bool := bool_decide (cstr a = cstr b).
Definition ark_memeq (a b : list Z) (n : Z) : bool :=
  bool_decide (take (Z.to_nat n) a = take (Z.to_nat n) b).

(** [ark_strncpy] into a zeroed buffer of [max] bytes. *)
Definition ark_strncpy (s : list Z) (max : Z) : list Z :=
  pad_to (Z.to_nat max) (take (Z.to_nat (max - 1)) (cstr s)).

Definition crc_bit (crc : Z) : Z :=
  Z.lxor (Z.shiftr crc 1) (Z.land 0xEDB88420 (w32 (Z.lxor FULL (Z.land crc 1) + 1))).
Definition crc_byte (crc b : Z) : Z := for_up 8 0 (fun _ c => crc_bit c) (Z.lxor crc b).
Definition ark_crc32 (data : list Z) : Z := Z.lxor (fold_left crc_byte data FULL) FULL.

(** ** Formats *)

Record ark_super := Super {
  sb_magic : list Z; sb_version : Z; sb_sector_size : Z; sb_log_start : Z;
  sb_total_sectors : Z; sb_epoch : Z; sb_crc : Z }.

Definition super_body (version sector_size log_start total epoch : Z) : list Z :=
  ARK_SB_MAGIC ++ le 4 version ++ le 4 sector_size ++ le 4 log_start ++ le 4 total ++ le 4 epoch.
Definition dec_super (l : list Z) : ark_super :=
  Super (field 0 8 l) (num 8 l) (num 12 l) (num 16 l) (num 20 l) (num 24 l) (num 28 l).

Record ark_rec_hdr := Hdr {
  h_magic : list Z; h_type : Z; h_seq : Z; h_epoch : Z; h_len : Z; h_id : list Z;
  h_payload_crc : Z; h_hdr_crc : Z }.

Definition hdr_body (type seq epoch len : Z) (id : list Z) (pcrc : Z) : list Z :=
  ARK_REC_MAGIC ++ le 4 type ++ le 4 seq ++ le 4 epoch ++ le 4 len ++ id ++ le 4 pcrc.
Definition dec_hdr (l : list Z) : ark_rec_hdr :=
  Hdr (field 0 4 l) (num 4 l) (num 8 l) (num 12 l) (num 16 l) (field 20 32 l) (num 52 l) (num 56 l).

Record ark_dent := Dent {
  name : list Z; is_dir : Z; dpad : list Z; version : Z; size : Z; nblk : Z; blk : list (list Z) }.

Definition enc_dent (d : ark_dent) : list Z :=
  name d ++ [is_dir d] ++ dpad d ++ le 4 (version d) ++ le 4 (size d) ++ le 4 (nblk d) ++ concat (blk d).
Fixpoint dec_ids (n : nat) (l : list Z) : list (list Z) :=
  match n with O => [] | S k => take 32 l :: dec_ids k (drop 32 l) end.
Definition dec_dent (l : list Z) : ark_dent :=
  Dent (field 0 64 l) (nth 64 l 0) (field 65 3 l) (num 68 l) (num 72 l) (num 76 l) (dec_ids 16 (drop 80 l)).

(** [ark_memset(&g_live[e], 0, sizeof(ark_dent))]. *)
Definition zero_id : list Z := replicate 32 0.
Definition zero_dent : ark_dent :=
  Dent (replicate 64 0) 0 [0; 0; 0] 0 0 0 (replicate 16 zero_id).

(** ** The device

    [ARK_BDEV]: a sector store behind three callbacks, each with its result.
    Every call of [arkfs.c] moves one sector. *)
Class Bdev (D : Type) := {
  bd_read : D -> Z -> option (list Z);
  bd_write : D -> Z -> list Z -> bool * D;
  bd_sync : D -> bool * D }.

(** What [arkfs.h] asks of an implementation while it has power: [image] is
    what the host reads back, the device's cache included. A write that
    reported an error may have changed its sector or not. *)
Class BdevLaws (D : Type) `{Bdev D} := {
  image : D -> array (list Z);
  read_image d s x : bd_read d s = Some x -> x = image d s;
  write_image d s x t : fst (bd_write d s x) = true ->
    image (snd (bd_write d s x)) t = upd (image d) s x t;
  write_torn d s x : fst (bd_write d s x) = false ->
    (forall t, image (snd (bd_write d s x)) t = image d t) \/
    (forall t, image (snd (bd_write d s x)) t = upd (image d) s x t);
  sync_image d t : image (snd (bd_sync d)) t = image d t }.

(** What it promises about a loss of power: [survives d im] when [im] may be
    what stands on the medium if the power goes now. A write whose [bd_sync]
    has not succeeded may be lost, torn, or land before an earlier one; it
    touches no sector but its own. A successful [bd_sync] makes everything
    written durable ([arkfs.h]: "flush volatile caches so prior writes are
    durable"); a failed one makes nothing worse. *)
Class BdevCache (D : Type) `{BdevLaws D} := {
  survives : D -> array (list Z) -> Prop;
  survives_write d s x im : survives (snd (bd_write d s x)) im ->
    exists im0, survives d im0 /\ forall t, t <> s -> im t = im0 t;
  survives_sync d im : survives (snd (bd_sync d)) im -> survives d im;
  survives_synced d im : fst (bd_sync d) = true -> survives (snd (bd_sync d)) im ->
    forall t, im t = image d t }.

Record ARK_BDEV (D : Type) := Bd { sector_size : Z; total_sectors : Z; ctx : D }.
Arguments Bd {D}. Arguments sector_size {D}. Arguments total_sectors {D}. Arguments ctx {D}.

(** ** The mounted state: the file's [g_*] variables *)
Record ark (D : Type) := Ark {
  g_bd : option (ARK_BDEV D);
  g_log_start : Z; g_head : Z; g_seq : Z; g_epoch : Z;
  g_live : list ark_dent; g_mroot : list Z;
  g_ix : index; g_log_end_override : Z }.
Arguments Ark {D}. Arguments g_bd {D}. Arguments g_log_start {D}. Arguments g_head {D}.
Arguments g_seq {D}. Arguments g_epoch {D}. Arguments g_live {D}. Arguments g_mroot {D}.
Arguments g_ix {D}. Arguments g_log_end_override {D}.

Section Log.
Context {D : Type} `{Bdev D}.

(** Assignments to one variable each. *)
Definition set_ctx (s : ark D) (c : D) : ark D :=
  Ark (match g_bd s with Some b => Some (Bd (sector_size b) (total_sectors b) c) | None => None end)
    (g_log_start s) (g_head s) (g_seq s) (g_epoch s) (g_live s) (g_mroot s) (g_ix s) (g_log_end_override s).
Definition set_bd (s : ark D) (b : option (ARK_BDEV D)) : ark D :=
  Ark b (g_log_start s) (g_head s) (g_seq s) (g_epoch s) (g_live s) (g_mroot s) (g_ix s) (g_log_end_override s).
Definition set_head (s : ark D) (h : Z) : ark D :=
  Ark (g_bd s) (g_log_start s) h (g_seq s) (g_epoch s) (g_live s) (g_mroot s) (g_ix s) (g_log_end_override s).
Definition set_seq (s : ark D) (q : Z) : ark D :=
  Ark (g_bd s) (g_log_start s) (g_head s) q (g_epoch s) (g_live s) (g_mroot s) (g_ix s) (g_log_end_override s).
Definition set_epoch (s : ark D) (e : Z) : ark D :=
  Ark (g_bd s) (g_log_start s) (g_head s) (g_seq s) e (g_live s) (g_mroot s) (g_ix s) (g_log_end_override s).
Definition set_log_start (s : ark D) (l : Z) : ark D :=
  Ark (g_bd s) l (g_head s) (g_seq s) (g_epoch s) (g_live s) (g_mroot s) (g_ix s) (g_log_end_override s).
Definition set_live (s : ark D) (l : list ark_dent) : ark D :=
  Ark (g_bd s) (g_log_start s) (g_head s) (g_seq s) (g_epoch s) l (g_mroot s) (g_ix s) (g_log_end_override s).
Definition set_mroot (s : ark D) (m : list Z) : ark D :=
  Ark (g_bd s) (g_log_start s) (g_head s) (g_seq s) (g_epoch s) (g_live s) m (g_ix s) (g_log_end_override s).
Definition set_ix (s : ark D) (i : index) : ark D :=
  Ark (g_bd s) (g_log_start s) (g_head s) (g_seq s) (g_epoch s) (g_live s) (g_mroot s) i (g_log_end_override s).
Definition set_override (s : ark D) (o : Z) : ark D :=
  Ark (g_bd s) (g_log_start s) (g_head s) (g_seq s) (g_epoch s) (g_live s) (g_mroot s) (g_ix s) o.

Definition dev_read (s : ark D) (lba : Z) : option (list Z) :=
  match g_bd s with None => None | Some b => bd_read (ctx b) lba end.

Definition dev_write (s : ark D) (lba : Z) (x : list Z) : bool * ark D :=
  match g_bd s with
  | None => (false, s)
  | Some b => let '(ok, c) := bd_write (ctx b) lba x in (ok, set_ctx s c)
  end.

(** The result of the callback is dropped. *)
Definition dev_sync (s : ark D) : ark D :=
  match g_bd s with None => s | Some b => set_ctx s (snd (bd_sync (ctx b))) end.

(** Only called while a device is attached. *)
Definition ark_usable_end (s : ark D) : Z :=
  match g_bd s with None => 0 | Some b => u32 (total_sectors b - 1) end.

(** ** [emit_record] *)

Definition psects (len : Z) : Z := u32 (len + ARK_SECTOR - 1) / ARK_SECTOR.

Definition hdr_sector (type seq epoch : Z) (payload id : list Z) : list Z :=
  let body := hdr_body type seq epoch (lenz payload) id (ark_crc32 payload) in
  pad_to 512 (body ++ le 4 (ark_crc32 body)).

Definition payload_sector (payload : list Z) (k : Z) : list Z :=
  let off := k * ARK_SECTOR in
  let chunk := if lenz payload - off <? ARK_SECTOR then lenz payload - off else ARK_SECTOR in
  pad_to 512 (take (Z.to_nat chunk) (drop (Z.to_nat off) payload)).

(** The payload loop from sector [k], [n] sectors left. *)
Fixpoint emit_payload (n : nat) (s : ark D) (start : Z) (payload : list Z) (k : Z) : bool * ark D :=
  match n with
  | O => (true, s)
  | S n' =>
      let '(ok, s) := dev_write s (start + 1 + k) (payload_sector payload k) in
      if ok then emit_payload n' s start payload (k + 1) else (false, s)
  end.

(** The result code, the start sector when it is [ARK_OK], and the state. *)
Definition emit_record (s : ark D) (type : Z) (payload id : list Z) : (Z * Z) * ark D :=
  let psect := psects (lenz payload) in
  let need := 1 + psect in
  let lim := if g_log_end_override s =? 0 then ark_usable_end s else g_log_end_override s in
  if lim <? u32 (g_head s + need) then ((ARK_E_FULL, 0), s)
  else
    let start := g_head s in
    let '(ok, s1) := dev_write s start (hdr_sector type (u32 (g_seq s + 1)) (g_epoch s) payload id) in
    if negb ok then ((ARK_E_IO, 0), s1)
    else
      let '(ok, s2) := emit_payload (Z.to_nat psect) s1 start payload 0 in
      if negb ok then ((ARK_E_IO, 0), s2)
      else ((ARK_OK, start), set_head (set_seq s2 (u32 (g_seq s2 + 1))) (u32 (g_head s2 + need))).

(** ** [read_record] *)

(** What a valid header publishes, and the verified payload. *)
Record rec_view := View {
  rv_n : Z; rv_type : Z; rv_seq : Z; rv_len : Z; rv_id : list Z; rv_pay : list Z; rv_ok : bool }.

Fixpoint gather (n : nat) (s : ark D) (sec len k : Z) : option (list Z) :=
  match n with
  | O => Some []
  | S n' =>
      match dev_read s (sec + 1 + k) with
      | None => None
      | Some b =>
          let off := k * ARK_SECTOR in
          let chunk := if len - off <? ARK_SECTOR then len - off else ARK_SECTOR in
          match gather n' s sec len (k + 1) with
          | None => None
          | Some r => Some (take (Z.to_nat chunk) b ++ r)
          end
      end
  end.

(** [g_rr_ioerr] and the record, [None] where the C function returns 0. *)
Definition read_record (s : ark D) (sec paymax : Z) : bool * option rec_view :=
  if ark_usable_end s <=? sec then (false, None)
  else match dev_read s sec with
  | None => (true, None)
  | Some b =>
      let h := dec_hdr b in
      if negb (bool_decide (h_magic h = ARK_REC_MAGIC)) then (false, None)
      else if negb (ark_crc32 (take 56 b) =? h_hdr_crc h) then (false, None)
      else if negb (h_epoch h =? g_epoch s) then (false, None)
      else if paymax <? h_len h then (false, None)
      else
        let psect := psects (h_len h) in
        if ark_usable_end s <? u32 (sec + 1 + psect) then (false, None)
        else
          let g := gather (Z.to_nat psect) s sec (h_len h) 0 in
          let pay := default [] g in
          let ok := match g with None => false | Some p =>
                      (ark_crc32 p =? h_payload_crc h) && bool_decide (sha256 p = h_id h) end in
          (match g with None => true | Some _ => false end,
           Some (View (1 + psect) (h_type h) (h_seq h) (h_len h) (h_id h) pay ok))
  end.

(** The loop [while (sec < stop)] that every reader of the log runs: resync
    by one sector where no valid header stands, else hand the record to [f]
    and step over it. [None] from [f] leaves the loop. *)
Fixpoint scan {A R} (fuel : nat) (s : ark D) (stop : Z) (f : Z -> rec_view -> A -> A + R) (sec : Z) (a : A) : A + R :=
  if sec <? stop then
    match fuel with
    | O => inl a
    | S k =>
        match snd (read_record s sec ARK_COMMIT_MAX) with
        | None => scan k s stop f (sec + 1) a
        | Some v =>
            match f sec v a with
            | inl a' => scan k s stop f (sec + rv_n v) a'
            | inr r => inr r
            end
        end
    end
  else inl a.

(** A record is at least one sector, so [stop - sec] turns are enough. *)
Definition scan_log {A R} (s : ark D) (stop : Z) (f : Z -> rec_view -> A -> A + R) (sec : Z) (a : A) : A + R :=
  scan (Z.to_nat (stop - sec)) s stop f sec a.

End Log.
