(* ===== verification/ArkDisk.v ===== *)
(** * What stands on the medium of ARK

    A RAM device, the record that stands at a sector of an image, the frame
    lemmas of [read_record], and the effect of [emit_record] on the image of
    any device that keeps the laws, however its writes fail. *)

From S2P Require Import Prelude Sha256 ArkIndex ArkLog.

(** ** A RAM device: the harness's in-memory medium *)

Definition ram : Type := array (list Z).

#[global] Instance ram_bdev : Bdev ram := {
  bd_read d t := Some (d t);
  bd_write d t x := (true, upd d t x);
  bd_sync d := (true, d) }.

#[global] Instance ram_laws : BdevLaws ram.
Proof.
  refine {| image := fun d => d |}; try done.
  intros d s x [= <-]. done.
Defined.

(** A device that loses power after [n] more sector writes. *)
Record cut := Cut { cut_image : array (list Z); cut_left : nat }.

#[global] Instance cut_bdev : Bdev cut := {
  bd_read d t := Some (cut_image d t);
  bd_write d t x := match cut_left d with
                    | O => (false, d)
                    | S n => (true, Cut (upd (cut_image d) t x) n) end;
  bd_sync d := (true, d) }.

#[global] Instance cut_laws : BdevLaws cut.
Proof.
  refine {| image := cut_image |}; try done.
  - intros d s x [= <-]. done.
  - intros [im [|n]] s x t; done.
  - intros [im [|n]] s x; [by left|done].
Defined.

(** A device with a volatile write cache: reads see the cached writes, a power
    cut keeps any of them and loses the others, and after [calls] more calls the
    power is gone, so that nothing is written or flushed any more. *)
Record cached := Cached { medium : array (list Z); unsynced : list (Z * list Z); calls : nat }.

Definition land (w : Z * list Z) (im : array (list Z)) : array (list Z) := upd im (fst w) (snd w).
Definition cached_image (d : cached) : array (list Z) := foldr land (medium d) (unsynced d).

#[global] Instance cached_bdev : Bdev cached := {
  bd_read d t := Some (cached_image d t);
  bd_write d t x := match calls d with
                    | O => (false, d)
                    | S n => (true, Cached (medium d) ((t, x) :: unsynced d) n) end;
  bd_sync d := match calls d with
               | O => (false, d)
               | S n => (true, Cached (cached_image d) [] n) end }.

#[global] Instance cached_laws : BdevLaws cached.
Proof.
  refine {| image := cached_image |}; try done.
  - intros d s x [= <-]. done.
  - intros [m u [|n]] s x t; done.
  - intros [m u [|n]] s x; [by left|done].
  - intros [m u [|n]] t; done.
Defined.

#[global] Instance cached_cache : BdevCache cached.
Proof.
  refine {| survives d im := exists kept, sublist kept (unsynced d) /\ forall t, im t = foldr land (medium d) kept t |}.
  - intros [m u [|n]] s x im (kept & Hk & Him).
    { exists im. split; [by exists kept|done]. }
    cbn [bd_write cached_bdev snd medium unsynced calls] in *.
    inversion Hk as [|? l1 l2 Hk'|? l1 l2 Hk']; subst.
    + exists (foldr land m l1). split; [by exists l1|]. intros t Ht. rewrite Him. by apply upd_ne.
    + exists im. split; [by exists kept|done].
  - intros [m u [|n]] im (kept & Hk & Him); [by exists kept|].
    cbn [bd_sync cached_bdev snd medium unsynced calls] in *. apply sublist_nil_r in Hk as ->.
    by exists u.
  - intros [m u [|n]] im; [done|]. intros _ (kept & Hk & Him) t.
    cbn [bd_sync cached_bdev snd medium unsynced calls] in *. apply sublist_nil_r in Hk as ->. by rewrite Him.
Defined.

(** ** Reading fields *)

Lemma field_hit n (b c : list Z) : length b = n -> field 0 n (b ++ c) = b.
Proof. intros <-. unfold field. by rewrite drop_0, take_app_length. Qed.
Lemma field_all n (b : list Z) : length b = n -> field 0 n b = b.
Proof. intros <-. unfold field. by rewrite drop_0, firstn_all. Qed.
Lemma field_skip off n (a b : list Z) :
  (length a <= off)%nat -> field off n (a ++ b) = field (off - length a) n b.
Proof. intros H. unfold field. by rewrite drop_app_ge. Qed.
Lemma field_in off n (a b : list Z) :
  (off + n <= length a)%nat -> field off n (a ++ b) = field off n a.
Proof. intros H. unfold field. by rewrite drop_app_le, take_app_le by (rewrite ?length_drop; lia). Qed.

Lemma num_le (x : Z) c : is_u32 x -> u32 (of_le (field 0 4 (le 4 x ++ c))) = x.
Proof.
  intros Hx. rewrite field_hit by apply le_length. rewrite of_le_le.
  change (2 ^ (8 * Z.of_nat 4)) with (2 ^ 32). fold (u32 x). rewrite !u32_small; auto with machine.
Qed.
Lemma num_range off l : is_u32 (num off l).
Proof. apply u32_range. Qed.

(** Walks to the field a decoder asks for; [H] gives the length of an inner
    list the lemma does not know. *)
Ltac fields H :=
  unfold num;
  repeat (rewrite field_skip by (rewrite ?le_length, ?H; simpl; lia);
          rewrite ?le_length, ?H; cbn [length Nat.sub]);
  first [by rewrite num_le | by rewrite field_hit by (rewrite ?H; done)].

Lemma pad_to_length n l : length (pad_to n l) = n.
Proof. unfold pad_to. rewrite length_app, length_take, length_replicate. lia. Qed.
Lemma pad_to_app n l : (length l <= n)%nat -> pad_to n l = l ++ replicate (n - length l) 0.
Proof. intros. unfold pad_to. by rewrite firstn_all2 by lia. Qed.

(** ** Headers *)

Definition hdr_fits (type seq epoch len : Z) (id : list Z) (pcrc : Z) : Prop :=
  is_u32 type /\ is_u32 seq /\ is_u32 epoch /\ is_u32 len /\ length id = 32%nat /\ is_u32 pcrc.

Lemma hdr_body_length type seq epoch len id pcrc :
  length id = 32%nat -> length (hdr_body type seq epoch len id pcrc) = 56%nat.
Proof. intros H. unfold hdr_body. rewrite !length_app, !le_length, H. done. Qed.

Lemma dec_hdr_body type seq epoch len id pcrc hcrc rest :
  hdr_fits type seq epoch len id pcrc -> is_u32 hcrc ->
  dec_hdr (hdr_body type seq epoch len id pcrc ++ le 4 hcrc ++ rest) =
  Hdr ARK_REC_MAGIC type seq epoch len id pcrc hcrc.
Proof.
  intros (H1 & H2 & H3 & H4 & H5 & H6) H7. unfold dec_hdr, hdr_body. rewrite <- !app_assoc.
  set (x := ARK_REC_MAGIC ++ _).
  assert (field 0 4 x = ARK_REC_MAGIC) as -> by (unfold x; fields H5).
  assert (num 4 x = type) as -> by (unfold x; fields H5).
  assert (num 8 x = seq) as -> by (unfold x; fields H5).
  assert (num 12 x = epoch) as -> by (unfold x; fields H5).
  assert (num 16 x = len) as -> by (unfold x; fields H5).
  assert (field 20 32 x = id) as -> by (unfold x; fields H5).
  assert (num 52 x = pcrc) as -> by (unfold x; fields H5).
  by assert (num 56 x = hcrc) as -> by (unfold x; fields H5).
Qed.

Lemma crc_bit_range c : is_u32 c -> is_u32 (crc_bit c).
Proof.
  intros Hc. unfold crc_bit. apply lxor_u32; [by apply shiftr_u32|]. rewrite Z.land_comm. auto with machine.
Qed.

Lemma crc_bits_range n i c : is_u32 c -> is_u32 (for_up n i (fun _ c => crc_bit c) c).
Proof. revert i c. induction n as [|n IH]; intros i c Hc; simpl; [done|]. by apply IH, crc_bit_range. Qed.
Lemma lxor_byte c b : is_u32 c -> is_u8 b -> is_u32 (Z.lxor c b).
Proof. intros. apply lxor_u32; [done|unfold is_u8, is_u32 in *; lia]. Qed.
Lemma crc_byte_range c b : is_u32 c -> is_u8 b -> is_u32 (crc_byte c b).
Proof. intros. unfold crc_byte. apply crc_bits_range. by apply lxor_byte. Qed.

Lemma crc32_range l : Forall is_u8 l -> is_u32 (ark_crc32 l).
Proof.
  intros Hl. apply lxor_u32; [|done].
  apply (fold_left_inv is_u32 is_u8); [done|done|]. apply crc_byte_range.
Qed.

#[global] Opaque ark_crc32.

Lemma hdr_body_bytes type seq epoch len id pcrc :
  Forall is_u8 id -> Forall is_u8 (hdr_body type seq epoch len id pcrc).
Proof. intros. unfold hdr_body. repeat (apply Forall_app; split); auto with machine. repeat constructor; done. Qed.

(** ** Records on an image *)

Record lrec := Rec { l_type : Z; l_seq : Z; l_pay : list Z }.

Definition wf_rec (r : lrec) : Prop :=
  is_u32 (l_type r) /\ is_u32 (l_seq r) /\ Forall is_u8 (l_pay r) /\ lenz (l_pay r) <= ARK_COMMIT_MAX.

Definition span (r : lrec) : Z := 1 + psects (lenz (l_pay r)).
Definition view_of (r : lrec) : rec_view :=
  View (span r) (l_type r) (l_seq r) (lenz (l_pay r)) (sha256 (l_pay r)) (l_pay r) true.

(** Sector [k] of the record: the header, then the payload. *)
Definition rec_sector (ep : Z) (r : lrec) (k : Z) : list Z :=
  if k =? 0 then hdr_sector (l_type r) (l_seq r) ep (l_pay r) (sha256 (l_pay r))
  else payload_sector (l_pay r) (k - 1).

(** The image with the first [k] sectors of [r] written at [start]. *)
Definition stamp (ep : Z) (im : array (list Z)) (start : Z) (r : lrec) (k : Z) : array (list Z) :=
  fun t => if (start <=? t) && (t <? start + k) then rec_sector ep r (t - start) else im t.

Definition disk (im : array (list Z)) (total ep : Z) : ark ram :=
  Ark (Some (Bd ARK_SECTOR total im)) 0 0 0 ep [] zero_id (Index empty_slots 0 0) 0.
Definition lim (total : Z) : Z := u32 (total - 1).

(** What a reader of the log finds at a sector. *)
Definition peek (im : array (list Z)) (total ep sec : Z) : option rec_view :=
  snd (read_record (disk im total ep) sec ARK_COMMIT_MAX).

Lemma psects_spec len : 0 <= len <= ARK_COMMIT_MAX ->
  0 <= psects len <= 38 /\ 512 * psects len - 511 <= len <= 512 * psects len.
Proof.
  unfold psects, ARK_SECTOR. intros H.
  change ARK_COMMIT_MAX with 19456 in H. unfold u32. rewrite Z.mod_small by lia.
  pose proof (Z.div_mod (len + 512 - 1) 512 ltac:(lia)). pose proof (Z.mod_pos_bound (len + 512 - 1) 512 ltac:(lia)).
  lia.
Qed.

Lemma span_spec r : wf_rec r ->
  1 <= span r <= 39 /\ 512 * (span r - 1) - 511 <= lenz (l_pay r) <= 512 * (span r - 1).
Proof.
  intros (_ & _ & _ & Hl). unfold span. pose proof (psects_spec (lenz (l_pay r))).
  pose proof (lenz_nonneg (l_pay r)). lia.
Qed.

Lemma payload_sector_length pay k : length (payload_sector pay k) = 512%nat.
Proof. apply pad_to_length. Qed.

(** The bytes of a payload sector that belong to the payload. *)
Lemma payload_sector_take pay k :
  0 <= k -> 512 * k <= lenz pay ->
  let c := Z.to_nat (if lenz pay - k * ARK_SECTOR <? ARK_SECTOR then lenz pay - k * ARK_SECTOR else ARK_SECTOR) in
  take c (payload_sector pay k) = take c (drop (Z.to_nat (k * ARK_SECTOR)) pay).
Proof.
  intros Hk Hl c. unfold payload_sector. fold c. unfold ARK_SECTOR in *.
  assert (Hc : (c <= 512)%nat) by (unfold c; dif E; bools; lia).
  assert (Hlen : length (take c (drop (Z.to_nat (k * 512)) pay)) = c).
  { rewrite length_take, length_drop. unfold c, lenz in *. dif E; bools; lia. }
  rewrite pad_to_app by lia. rewrite take_app_le by lia. by rewrite firstn_all2 by lia.
Qed.

Lemma hdr_psects b : (ARK_COMMIT_MAX <? h_len (dec_hdr b)) = false -> 0 <= psects (h_len (dec_hdr b)) <= 38.
Proof.
  intros Hl%Z.ltb_ge. apply psects_spec. split; [|done]. apply (num_range 16 b).
Qed.

Section Gather.
Context {D : Type} `{Bdev D}.

Lemma gather_payload (s : ark D) sec pay n k :
  0 <= k -> lenz pay <= 512 * (k + Z.of_nat n) -> (n <> O -> 512 * (k + Z.of_nat n - 1) <= lenz pay) ->
  (forall j, k <= j < k + Z.of_nat n -> dev_read s (sec + 1 + j) = Some (payload_sector pay j)) ->
  gather n s sec (lenz pay) k = Some (drop (Z.to_nat (k * 512)) pay).
Proof.
  revert k; induction n as [|n IH]; intros k Hk Hl Hn Hs; simpl.
  - rewrite drop_ge; [done|]. unfold lenz in *. lia.
  - rewrite (Hs k) by lia. rewrite IH; [|lia|lia|intros; lia|intros; apply Hs; lia].
    rewrite payload_sector_take by lia. f_equal. unfold ARK_SECTOR.
    rewrite <- (take_drop 512 (drop (Z.to_nat (k * 512)) pay)) at 2. rewrite drop_drop.
    dif E; bools.
    + rewrite !(firstn_all2 (drop _ _)) by (rewrite length_drop; unfold lenz in *; lia). do 2 f_equal.
      f_equal; lia.
    + do 2 f_equal. f_equal; lia.
Qed.

Lemma gather_ext {D' : Type} `{Bdev D'} (s : ark D) (s' : ark D') sec len n k :
  (forall j, k <= j < k + Z.of_nat n -> dev_read s (sec + 1 + j) = dev_read s' (sec + 1 + j)) ->
  gather n s sec len k = gather n s' sec len k.
Proof.
  revert k; induction n as [|n IH]; intros k Hs; simpl; [done|].
  rewrite (Hs k), (IH (k + 1)) by (intros; try apply Hs; lia). done.
Qed.

(** Reading depends on the sectors from [sec] up to the end of the log. *)
Lemma read_ext {D' : Type} `{Bdev D'} (s : ark D) (s' : ark D') sec paymax :
  ark_usable_end s = ark_usable_end s' -> g_epoch s = g_epoch s' -> 0 <= paymax <= ARK_COMMIT_MAX ->
  0 <= sec -> ark_usable_end s < 2 ^ 32 - 64 ->
  (forall t, sec <= t < ark_usable_end s -> dev_read s t = dev_read s' t) ->
  read_record s sec paymax = read_record s' sec paymax.
Proof.
  intros He Hg Hp H0 Hlt Hs. unfold read_record. rewrite <- He.
  destruct (Z.leb_spec (ark_usable_end s) sec) as [|Hsec]; [done|].
  rewrite <- (Hs sec) by lia. destruct (dev_read s sec) as [b|]; [|done]. cbv zeta.
  rewrite <- Hg. destruct (negb _); [done|]. destruct (negb _); [done|]. destruct (negb _); [done|].
  destruct (Z.ltb_spec paymax (h_len (dec_hdr b))) as [|Hlen]; [done|].
  destruct (Z.ltb_spec (ark_usable_end s) (u32 (sec + 1 + psects (h_len (dec_hdr b))))) as [|Hend]; [done|].
  assert (Hp' : 0 <= psects (h_len (dec_hdr b)) <= 38).
  { apply psects_spec. pose proof (num_range 16 b). unfold is_u32, dec_hdr in *. cbn [h_len] in *. lia. }
  unfold u32 in Hend. rewrite Z.mod_small in Hend by lia.
  rewrite (gather_ext s s'); [done|]. intros j Hj. apply Hs. lia.
Qed.

End Gather.

(** ** A written record reads back *)

Lemma hdr_sector_app type seq ep pay id :
  length id = 32%nat ->
  let body := hdr_body type seq ep (lenz pay) id (ark_crc32 pay) in
  hdr_sector type seq ep pay id = body ++ le 4 (ark_crc32 body) ++ replicate 452 0.
Proof.
  intros Hid body. unfold hdr_sector. fold body.
  assert (Hb : length body = 56%nat) by by apply hdr_body_length.
  rewrite pad_to_app by (rewrite length_app, le_length, Hb; lia).
  by rewrite length_app, le_length, Hb, <- app_assoc.
Qed.

Lemma hdr_sector_length type seq ep pay id : length (hdr_sector type seq ep pay id) = 512%nat.
Proof. apply pad_to_length. Qed.

(** A header sector passes every test of [read_record] but the payload's. *)
Lemma read_header {D} `{Bdev D} (s : ark D) r sec :
  wf_rec r -> is_u32 (g_epoch s) ->
  dev_read s sec = Some (rec_sector (g_epoch s) r 0) ->
  0 <= sec -> sec + span r <= ark_usable_end s -> ark_usable_end s < 2 ^ 32 - 64 ->
  read_record s sec ARK_COMMIT_MAX =
    (match gather (Z.to_nat (span r - 1)) s sec (lenz (l_pay r)) 0 with None => true | Some _ => false end,
     Some (View (span r) (l_type r) (l_seq r) (lenz (l_pay r)) (sha256 (l_pay r))
       (default [] (gather (Z.to_nat (span r - 1)) s sec (lenz (l_pay r)) 0))
       (match gather (Z.to_nat (span r - 1)) s sec (lenz (l_pay r)) 0 with
        | None => false
        | Some p => (ark_crc32 p =? ark_crc32 (l_pay r)) && bool_decide (sha256 p = sha256 (l_pay r)) end))).
Proof.
  intros Hwf Hep Hread H0 Hend Hlt. pose proof (span_spec r Hwf) as [Hs _].
  destruct Hwf as (Ht & Hq & Hb & Hl).
  assert (Hid : length (sha256 (l_pay r)) = 32%nat) by apply sha256_length.
  assert (Hn : is_u32 (lenz (l_pay r))).
  { unfold is_u32. pose proof (lenz_nonneg (l_pay r)). change ARK_COMMIT_MAX with 19456 in Hl. lia. }
  unfold read_record. destruct (Z.leb_spec (ark_usable_end s) sec); [lia|]. rewrite Hread. cbv zeta.
  unfold rec_sector. rewrite Z.eqb_refl, hdr_sector_app by done.
  assert (Hfits : hdr_fits (l_type r) (l_seq r) (g_epoch s) (lenz (l_pay r)) (sha256 (l_pay r)) (ark_crc32 (l_pay r)))
    by exact (conj Ht (conj Hq (conj Hep (conj Hn (conj Hid (crc32_range _ Hb)))))).
  rewrite dec_hdr_body; [|exact Hfits|apply crc32_range, hdr_body_bytes; auto with machine].
  cbn [h_magic h_type h_seq h_epoch h_len h_id h_payload_crc h_hdr_crc].
  rewrite bool_decide_true by done. cbn [negb].
  rewrite take_app_length' by (symmetry; by apply hdr_body_length). rewrite !Z.eqb_refl. cbn [negb].
  destruct (Z.ltb_spec ARK_COMMIT_MAX (lenz (l_pay r))); [lia|].
  unfold span in *. unfold u32 at 1. rewrite Z.mod_small by lia.
  destruct (Z.ltb_spec (ark_usable_end s) (sec + 1 + psects (lenz (l_pay r)))); [lia|].
  replace (1 + psects (lenz (l_pay r)) - 1) with (psects (lenz (l_pay r))) by lia. done.
Qed.

(** The header tests of [read_record], the failing ones dropped. *)
Ltac hdr_tests :=
  repeat match goal with |- context [if ?b then (_, None) else _] =>
    match type of b with bool => let F := fresh "F" in destruct b eqn:F; [done|] end end.

Section Image.
Context (total ep : Z) (Htotal : 1 <= total < 2 ^ 32 - 64) (Hep : is_u32 ep).

Lemma lim_eq : lim total = total - 1.
Proof. unfold lim, u32. apply Z.mod_small. lia. Qed.

Lemma disk_end im : ark_usable_end (disk im total ep) = lim total.
Proof. done. Qed.

(** Frame: two images that agree from [t] on look the same at [t]. *)
Lemma peek_ext im im' t :
  0 <= t -> (forall u, t <= u < lim total -> im u = im' u) -> peek im total ep t = peek im' total ep t.
Proof.
  intros Ht He. unfold peek. f_equal. apply read_ext; try done.
  - rewrite disk_end, lim_eq. lia.
  - intros u Hu. unfold dev_read. simpl. f_equal. apply He, Hu.
Qed.

Lemma peek_span im t v : peek im total ep t = Some v -> 1 <= rv_n v <= 39.
Proof.
  unfold peek, read_record. cbn [disk dev_read g_bd ctx bd_read ram_bdev]. cbv zeta.
  hdr_tests. cbn [snd]. intros [= <-]. cbn [rv_n].
  change (num 16 (im t)) with (h_len (dec_hdr (im t))).
  match goal with Hl : (ARK_COMMIT_MAX <? _) = false |- _ => pose proof (hdr_psects _ Hl); lia end.
Qed.

(** Reading stops at the end of the record it meets. *)
Lemma peek_frame im im' t v :
  0 <= t -> peek im total ep t = Some v -> (forall u, t <= u < t + rv_n v -> im u = im' u) ->
  peek im' total ep t = Some v.
Proof.
  intros Ht Hp He. pose proof (peek_span _ _ _ Hp) as Hv.
  assert (E : im t = im' t) by (apply He; lia).
  revert Hp He. unfold peek, read_record. rewrite !disk_end.
  cbn [disk dev_read g_bd ctx bd_read ram_bdev g_epoch]. rewrite <- E.
  hdr_tests. cbn [snd]. intros [= <-] He. cbn [rv_n] in He.
  match goal with Hl : (ARK_COMMIT_MAX <? _) = false |- _ => pose proof (hdr_psects _ Hl) end.
  rewrite (gather_ext (disk im' total ep) (disk im total ep)); [done|intros j Hj].
  unfold dev_read. cbn. f_equal. symmetry. apply He. change (num 16 (im t)) with (h_len (dec_hdr (im t))). lia.
Qed.

Lemma peek_stamp im start r :
  wf_rec r -> 0 <= start -> start + span r <= lim total ->
  (forall k, 0 <= k < span r -> im (start + k) = rec_sector ep r k) ->
  peek im total ep start = Some (view_of r).
Proof.
  intros Hwf H0 Hend Him. pose proof (span_spec r Hwf) as [Hs Hlen]. unfold peek.
  rewrite (read_header _ r) by (rewrite ?disk_end; try done; try (rewrite lim_eq; lia);
    unfold dev_read; simpl; f_equal; rewrite <- Him by lia; f_equal; lia).
  rewrite (gather_payload _ start (l_pay r)).
  - cbn [snd]. rewrite Z.mul_0_l, drop_0, Z.eqb_refl, bool_decide_true by done. done.
  - lia.
  - lia.
  - intros. lia.
  - intros j Hj. unfold dev_read. simpl. f_equal. rewrite <- Z.add_assoc, Him by lia.
    unfold rec_sector. rewrite (proj2 (Z.eqb_neq _ _)) by lia. f_equal. lia.
Qed.

(** A torn record: a header with some payload sectors missing. Its payload
    verifies only if what stands there hashes like the record. *)
Lemma peek_torn im start r :
  wf_rec r -> 0 <= start -> start + span r <= lim total -> im start = rec_sector ep r 0 ->
  exists p ok, peek im total ep start =
      Some (View (span r) (l_type r) (l_seq r) (lenz (l_pay r)) (sha256 (l_pay r)) p ok) /\
    (ok = true -> sha256 p = sha256 (l_pay r) /\
       gather (Z.to_nat (span r - 1)) (disk im total ep) start (lenz (l_pay r)) 0 = Some p).
Proof.
  intros Hwf H0 Hend Him. pose proof (span_spec r Hwf) as [Hs Hlen]. unfold peek.
  rewrite (read_header _ r) by (rewrite ?disk_end; try done; try (rewrite lim_eq; lia);
    unfold dev_read; simpl; by f_equal).
  cbn [snd]. destruct (gather _ _ _ _ _) as [p|]; simpl; do 2 eexists; (split; [reflexivity|]); [|done].
  intros [_ ->%bool_decide_eq_true]%andb_true_iff. done.
Qed.

(** ** The log on an image *)

Inductive log_at (im : array (list Z)) : Z -> list lrec -> Z -> Prop :=
  | log_nil h : log_at im h [] h
  | log_cons h r rs h' : 0 <= h -> wf_rec r -> peek im total ep h = Some (view_of r) ->
      log_at im (h + span r) rs h' -> log_at im h (r :: rs) h'.

Definition valid_commit (v : option rec_view) : bool :=
  match v with None => false | Some v => (rv_type v =? ARK_REC_COMMIT) && rv_ok v end.

(** No sector from [h] on reads as a valid commit. *)
Definition quiet (im : array (list Z)) (h : Z) : Prop :=
  forall t, h <= t -> valid_commit (peek im total ep t) = false.

Lemma log_le im h rs h' : log_at im h rs h' -> h <= h'.
Proof. induction 1 as [|h r rs h' H0 Hwf Hp Hl IH]; [lia|]. pose proof (span_spec r Hwf). lia. Qed.

Lemma log_app im a rs1 b rs2 c : log_at im a rs1 b -> log_at im b rs2 c -> log_at im a (rs1 ++ rs2) c.
Proof. induction 1; simpl; [done|]. intros. constructor; auto. Qed.

Lemma log_frame im im' a rs b :
  log_at im a rs b -> (forall u, a <= u < b -> im u = im' u) -> log_at im' a rs b.
Proof.
  induction 1 as [|h r rs h' H0 Hwf Hp Hl IH]; intros He; [constructor|].
  pose proof (log_le _ _ _ _ Hl). pose proof (span_spec r Hwf). constructor; [done|done| |].
  - eapply peek_frame; [done|done|]. intros u Hu. apply He. simpl in Hu. lia.
  - apply IH. intros u Hu. apply He. lia.
Qed.

Lemma quiet_frame im im' h :
  0 <= h -> quiet im h -> (forall u, h <= u < lim total -> im u = im' u) -> quiet im' h.
Proof.
  intros H0 Hq He t Ht. rewrite <- (peek_ext im im'); [by apply Hq|lia|]. intros u Hu. apply He. lia.
Qed.

Lemma quiet_mono im h h' : quiet im h -> h <= h' -> quiet im h'.
Proof. intros Hq Hh t Ht. apply Hq. lia. Qed.

End Image.

(** ** Stamping a record over quiet sectors *)

(** The header test of [read_record] on a raw sector. *)
Definition hdr_ok (ep : Z) (b : list Z) : bool :=
  bool_decide (h_magic (dec_hdr b) = ARK_REC_MAGIC) && (ark_crc32 (take 56 b) =? h_hdr_crc (dec_hdr b)) &&
  (h_epoch (dec_hdr b) =? ep).

Lemma forallb_ext' {A} (f g : A -> bool) (l : list A) :
  (forall x, x ∈ l -> f x = g x) -> forallb f l = forallb g l.
Proof. induction l as [|x l IH]; intros Hfg; simpl; [done|]. rewrite Hfg, IH; [done| |]; [intros y Hy; apply Hfg; by right|by left]. Qed.

(** No payload sector of [r] imitates a record header of this epoch. *)
Definition plain (ep : Z) (r : lrec) : bool :=
  forallb (fun k => negb (hdr_ok ep (rec_sector ep r k))) (seqZ 1 (span r - 1)).

Lemma plain_pay ep r r' : l_pay r = l_pay r' -> plain ep r = plain ep r'.
Proof.
  intros Hp. unfold plain, span. rewrite Hp. apply forallb_ext'. intros k Hk%elem_of_seqZ. f_equal.
  unfold rec_sector. rewrite Hp. by rewrite (proj2 (Z.eqb_neq k 0)) by lia.
Qed.

(** What a reader gathers when only the first [j] sectors landed. *)
Definition torn_payload (im : array (list Z)) (total ep start : Z) (r : lrec) (j : Z) : option (list Z) :=
  gather (Z.to_nat (span r - 1)) (disk (stamp ep im start r j) total ep) start (lenz (l_pay r)) 0.

(** No proper tear of [r] at [start] hashes like the whole payload. *)
Definition tear_safe (im : array (list Z)) (total ep start : Z) (r : lrec) : bool :=
  forallb (fun j => match torn_payload im total ep start r j with
    | None => true
    | Some p => negb (bool_decide (sha256 p = sha256 (l_pay r))) || bool_decide (p = l_pay r)
    end) (seqZ 1 (span r)).

Definition same_image (a b : array (list Z)) : Prop := forall t, a t = b t.

Lemma stamp_0 ep im start r : same_image (stamp ep im start r 0) im.
Proof. intros t. unfold stamp. destruct (Z.leb_spec start t), (Z.ltb_spec t (start + 0)); simpl; done || lia. Qed.

Lemma stamp_out ep im start r k t : t < start \/ start + k <= t -> stamp ep im start r k t = im t.
Proof. intros Ht. unfold stamp. destruct (Z.leb_spec start t), (Z.ltb_spec t (start + k)); simpl; done || lia. Qed.

Lemma stamp_in ep im start r k j : 0 <= j < k -> stamp ep im start r k (start + j) = rec_sector ep r j.
Proof.
  intros Hj. unfold stamp. destruct (Z.leb_spec start (start + j)), (Z.ltb_spec (start + j) (start + k)); simpl; try lia.
  f_equal. lia.
Qed.

Lemma stamp_step ep im start r k :
  0 <= k -> same_image (upd (stamp ep im start r k) (start + k) (rec_sector ep r k)) (stamp ep im start r (k + 1)).
Proof.
  intros Hk t. destruct (decide (t = start + k)) as [->|Hne].
  - rewrite upd_eq. rewrite stamp_in by lia. done.
  - rewrite upd_ne by done. unfold stamp.
    destruct (Z.leb_spec start t), (Z.ltb_spec t (start + k)), (Z.ltb_spec t (start + (k + 1))); simpl; done || lia.
Qed.

Lemma upd_same a b t x : same_image a b -> same_image (upd a t x) (upd b t x).
Proof. intros Hab u. unfold upd. destruct (u =? t); [done|apply Hab]. Qed.
Lemma same_trans a b c : same_image a b -> same_image b c -> same_image a c.
Proof. intros H1 H2 t. by rewrite H1. Qed.
Lemma same_sym a b : same_image a b -> same_image b a.
Proof. by intros H t. Qed.

Lemma torn_same im im' total ep start r j :
  same_image im im' -> torn_payload im total ep start r j = torn_payload im' total ep start r j.
Proof.
  intros Hs. unfold torn_payload. apply gather_ext. intros k _. unfold dev_read. cbn. f_equal.
  unfold stamp. by rewrite Hs.
Qed.
Lemma tear_safe_same im im' total ep start r :
  same_image im im' -> tear_safe im total ep start r = tear_safe im' total ep start r.
Proof. intros Hs. unfold tear_safe. apply forallb_ext'. intros j _. by rewrite (torn_same _ _ _ _ _ _ _ Hs). Qed.

Section Stamp.
Context (total ep : Z) (Htotal : 1 <= total < 2 ^ 32 - 64) (Hep : is_u32 ep).

Lemma hdr_bad_peek im t : hdr_ok ep (im t) = false -> peek im total ep t = None.
Proof.
  unfold hdr_ok, peek, read_record.
  cbn [disk dev_read g_bd ctx bd_read ram_bdev g_epoch]. cbv zeta.
  destruct (ark_usable_end _ <=? t); [done|].
  destruct (bool_decide (h_magic (dec_hdr (im t)) = _)); [|done].
  destruct (ark_crc32 _ =? h_hdr_crc (dec_hdr (im t))); [|done].
  by destruct (h_epoch (dec_hdr (im t)) =? ep).
Qed.

Lemma plain_sector r k : plain ep r = true -> 1 <= k < span r -> hdr_ok ep (rec_sector ep r k) = false.
Proof.
  unfold plain. intros Hp Hk. rewrite forallb_forall in Hp. apply negb_true_iff, Hp.
  apply list_elem_of_In, elem_of_seqZ. lia.
Qed.

Lemma peek_same im im' t : same_image im im' -> peek im total ep t = peek im' total ep t.
Proof.
  intros Hs. unfold peek, read_record. cbn [disk dev_read g_bd ctx bd_read ram_bdev g_epoch]. rewrite <- Hs.
  erewrite (gather_ext (disk im total ep) (disk im' total ep)); [done|].
  intros j _. unfold dev_read. cbn. by rewrite Hs.
Qed.

Context (im : array (list Z)) (start : Z) (r : lrec).
Context (Hq : quiet total ep im start) (Hwf : wf_rec r) (H0 : 0 <= start)
  (Hend : start + span r <= lim total) (Hplain : plain ep r = true).

Lemma stamp_above j t :
  0 <= j <= span r -> start < t -> valid_commit (peek (stamp ep im start r j) total ep t) = false.
Proof.
  intros Hj Ht. destruct (Z.ltb_spec t (start + j)).
  - rewrite hdr_bad_peek; [done|]. replace t with (start + (t - start)) by lia.
    rewrite stamp_in by lia. apply plain_sector; [done|lia].
  - rewrite (peek_ext total ep Htotal _ im); [apply Hq; lia|lia|].
    intros u Hu. apply stamp_out. lia.
Qed.

Lemma stamp_done :
  log_at total ep (stamp ep im start r (span r)) start [r] (start + span r) /\
  quiet total ep (stamp ep im start r (span r)) (start + span r).
Proof.
  pose proof (span_spec r Hwf) as [Hs _]. split.
  - constructor; [done|done| |constructor].
    apply peek_stamp; try done. intros k Hk. by apply stamp_in.
  - intros t Ht. apply stamp_above; lia.
Qed.

(** However far the write of a record got, the log ends where it did, or
    the record is a commit and stands complete. *)
Lemma stamp_torn j :
  0 <= j <= span r -> (l_type r = ARK_REC_COMMIT -> tear_safe im total ep start r = true) ->
  let im' := stamp ep im start r j in
  quiet total ep im' start \/
  (l_type r = ARK_REC_COMMIT /\ log_at total ep im' start [r] (start + span r) /\
   quiet total ep im' (start + span r)).
Proof.
  intros Hj Hts im'. pose proof (span_spec r Hwf) as [Hs _].
  assert (Hab : forall t, start < t -> valid_commit (peek im' total ep t) = false)
    by (intros; by apply stamp_above).
  destruct (decide (j = 0)) as [->|Hj0].
  { left. eapply quiet_frame; [done..|]. intros u _. symmetry. apply stamp_0. }
  destruct (peek_torn total ep Htotal Hep im' start r Hwf H0 Hend) as (p & ok & Hp & Hok).
  { unfold im'. replace start with (start + 0) at 2 by lia. by rewrite stamp_in by lia. }
  destruct (decide (l_type r = ARK_REC_COMMIT /\ ok = true)) as [[Hc ->]|Hnc].
  - right. split; [done|]. specialize (Hok eq_refl) as [Hsha Hg].
    assert (p = l_pay r) as ->.
    { specialize (Hts Hc). unfold tear_safe in Hts. rewrite forallb_forall in Hts.
      assert (Hin : In j (seqZ 1 (span r))) by (apply list_elem_of_In, elem_of_seqZ; lia).
      specialize (Hts j Hin). unfold torn_payload in Hts. fold im' in Hts. rewrite Hg in Hts.
      rewrite bool_decide_true in Hts by done. by apply bool_decide_eq_true in Hts. }
    split; [constructor; [done|done|done|constructor]|]. intros t Ht. apply Hab. lia.
  - left. intros t Ht. destruct (decide (t = start)) as [->|]; [|apply Hab; lia].
    rewrite Hp. unfold valid_commit. cbn [rv_type rv_ok].
    destruct (Z.eqb_spec (l_type r) ARK_REC_COMMIT) as [Hc|], ok; try done.
    exfalso. by apply Hnc.
Qed.

End Stamp.

(** ** [emit_record] on any lawful device *)

Section Emit.
Context {D : Type} `{BdevLaws D}.

Definition img (s : ark D) : array (list Z) :=
  match g_bd s with None => fun _ => [] | Some b => image (ctx b) end.

Lemma set_ctx_twice (s : ark D) c c' : set_ctx (set_ctx s c) c' = set_ctx s c'.
Proof. unfold set_ctx. simpl. by destruct (g_bd s). Qed.

Lemma set_ctx_end (s : ark D) c : ark_usable_end (set_ctx s c) = ark_usable_end s.
Proof. unfold ark_usable_end, set_ctx. simpl. by destruct (g_bd s). Qed.

Lemma img_set_ctx (s : ark D) c : g_bd s <> None -> img (set_ctx s c) = image c.
Proof. unfold img, set_ctx. simpl. by destruct (g_bd s). Qed.

Lemma dev_write_spec (s : ark D) t x :
  g_bd s <> None ->
  exists c, snd (dev_write s t x) = set_ctx s c /\
    (fst (dev_write s t x) = true -> same_image (image c) (upd (img s) t x)) /\
    (fst (dev_write s t x) = false -> same_image (image c) (img s) \/ same_image (image c) (upd (img s) t x)).
Proof.
  intros Hb. unfold dev_write, img. destruct (g_bd s) as [b|]; [|done].
  pose proof (write_image (ctx b) t x) as Hw1. pose proof (write_torn (ctx b) t x) as Hw2.
  destruct (bd_write (ctx b) t x) as [ok c] eqn:E. simpl in *. exists c. split; [done|]. split.
  - intros ->. intros u. by apply Hw1.
  - intros ->. by apply Hw2.
Qed.

Lemma set_ctx_bd (s : ark D) c : g_bd s <> None -> g_bd (set_ctx s c) <> None.
Proof. unfold set_ctx. simpl. by destruct (g_bd s). Qed.

(** Some write of the device fails. *)
Definition write_fails (D' : Type) `{Bdev D'} : Prop := exists d t x, fst (bd_write d t x) = false.

Lemma dev_write_fails (s : ark D) t x : g_bd s <> None -> fst (dev_write s t x) = false -> write_fails D.
Proof.
  unfold dev_write. destruct (g_bd s) as [b|]; [|done]. destruct (bd_write (ctx b) t x) as [ok c] eqn:E.
  simpl. intros _ ->. exists (ctx b), t, x. by rewrite E.
Qed.

Lemma emit_payload_spec n im ep start r : forall (s : ark D) k,
  g_bd s <> None -> 0 <= k -> same_image (img s) (stamp ep im start r (1 + k)) ->
  exists c j, snd (emit_payload n s start (l_pay r) k) = set_ctx s c /\
    same_image (image c) (stamp ep im start r j) /\ 1 + k <= j <= 1 + k + Z.of_nat n /\
    (fst (emit_payload n s start (l_pay r) k) = true -> j = 1 + k + Z.of_nat n) /\
    (fst (emit_payload n s start (l_pay r) k) = false -> write_fails D).
Proof.
  induction n as [|n IH]; intros s k Hb Hk Hs; cbn [emit_payload].
  { destruct (g_bd s) as [b|] eqn:E; [|done]. exists (ctx b), (1 + k). simpl.
    split; [unfold set_ctx; rewrite E; destruct s, b; simpl in *; by subst|].
    unfold img in Hs. rewrite E in Hs. split; [done|]. split; [lia|]. split; [lia|done]. }
  pose proof (dev_write_fails s (start + 1 + k) (payload_sector (l_pay r) k) Hb) as Hfl.
  destruct (dev_write_spec s (start + 1 + k) (payload_sector (l_pay r) k) Hb) as (c & Hc & Hw1 & Hw2).
  destruct (dev_write s (start + 1 + k) (payload_sector (l_pay r) k)) as [ok s1]. simpl in Hc, Hw1, Hw2, Hfl. subst s1.
  assert (Hupd : same_image (upd (img s) (start + 1 + k) (payload_sector (l_pay r) k)) (stamp ep im start r (1 + k + 1))).
  { eapply same_trans; [apply upd_same, Hs|].
    replace (start + 1 + k) with (start + (1 + k)) by lia.
    replace (payload_sector (l_pay r) k) with (rec_sector ep r (1 + k)); [apply stamp_step; lia|].
    unfold rec_sector. rewrite (proj2 (Z.eqb_neq _ _)) by lia. f_equal. lia. }
  destruct ok.
  - destruct (IH (set_ctx s c) (k + 1)) as (c' & j & E & Hi & Hj & Hok & Hno).
    + by apply set_ctx_bd.
    + lia.
    + rewrite img_set_ctx by done. replace (1 + (k + 1)) with (1 + k + 1) by lia.
      eapply same_trans; [by apply Hw1|done].
    + exists c', j. rewrite E, set_ctx_twice. split; [done|]. split; [done|]. split; [lia|].
      split; [intros HH; specialize (Hok HH); lia|done].
  - exists c. simpl. destruct (Hw2 eq_refl) as [Hi|Hi].
    + exists (1 + k). split; [done|]. split; [by eapply same_trans|]. split; [lia|]. split; [done|auto].
    + exists (1 + k + 1). split; [done|]. split; [by eapply same_trans|]. split; [lia|]. split; [done|auto].
Qed.

(** The record an emission writes. *)
Definition new_rec (s : ark D) (type : Z) (pay : list Z) : lrec := Rec type (u32 (g_seq s + 1)) pay.

Inductive emitted (s : ark D) (r : lrec) : (Z * Z) * ark D -> Prop :=
  | em_full : emitted s r ((ARK_E_FULL, 0), s)
  | em_io c j : 0 <= j <= span r -> same_image (image c) (stamp (g_epoch s) (img s) (g_head s) r j) ->
      g_head s + span r <= ark_usable_end s -> write_fails D -> emitted s r ((ARK_E_IO, 0), set_ctx s c)
  | em_ok c : same_image (image c) (stamp (g_epoch s) (img s) (g_head s) r (span r)) ->
      g_head s + span r <= ark_usable_end s ->
      emitted s r ((ARK_OK, g_head s), set_head (set_seq (set_ctx s c) (u32 (g_seq s + 1))) (g_head s + span r)).

Lemma emit_record_spec (s : ark D) type pay :
  g_bd s <> None -> g_log_end_override s = 0 -> lenz pay <= ARK_COMMIT_MAX ->
  0 <= g_head s <= ark_usable_end s -> ark_usable_end s < 2 ^ 32 - 64 ->
  emitted s (new_rec s type pay) (emit_record s type pay (sha256 pay)).
Proof.
  intros Hb Ho Hl Hh Hend.
  assert (Hp : 0 <= psects (lenz pay) <= 38) by (apply psects_spec; pose proof (lenz_nonneg pay); lia).
  set (r := new_rec s type pay). assert (Hspan : span r = 1 + psects (lenz pay)) by done.
  unfold emit_record. rewrite Ho. cbn [Z.eqb]. cbv zeta.
  unfold u32 at 1. rewrite Z.mod_small by lia.
  destruct (Z.ltb_spec (ark_usable_end s) (g_head s + (1 + psects (lenz pay)))) as [|Hfit]; [constructor|].
  destruct (dev_write_spec s (g_head s) (hdr_sector type (u32 (g_seq s + 1)) (g_epoch s) pay (sha256 pay)) Hb)
    as (c & Hc & Hw1 & Hw2).
  pose proof (dev_write_fails s (g_head s) (hdr_sector type (u32 (g_seq s + 1)) (g_epoch s) pay (sha256 pay)) Hb) as Hfl.
  destruct (dev_write s (g_head s) _) as [ok s1]. simpl in Hc, Hw1, Hw2, Hfl. subst s1.
  assert (Hupd : same_image (upd (img s) (g_head s) (hdr_sector type (u32 (g_seq s + 1)) (g_epoch s) pay (sha256 pay)))
    (stamp (g_epoch s) (img s) (g_head s) r 1)).
  { eapply same_trans; [|apply (stamp_step _ _ _ _ 0); lia]. rewrite Z.add_0_r.
    apply upd_same, same_sym, stamp_0. }
  destruct ok; cbn [negb].
  - destruct (emit_payload_spec (Z.to_nat (psects (lenz pay))) (img s) (g_epoch s) (g_head s) r (set_ctx s c) 0)
      as (c' & j & E & Hi & Hj & Hok & Hno).
    + by apply set_ctx_bd.
    + lia.
    + rewrite img_set_ctx by done. eapply same_trans; [by apply Hw1|done].
    + change (l_pay r) with pay in *.
      destruct (emit_payload _ _ _ _ _) as [ok s2]. cbn [fst snd] in E, Hok, Hno. rewrite set_ctx_twice in E. subst s2.
      destruct ok; cbn [negb].
      * assert (j = span r) as -> by (specialize (Hok eq_refl); lia).
        assert (Hw : u32 (g_head (set_ctx s c') + (1 + psects (lenz pay))) = g_head s + span r).
        { rewrite Hspan. apply Z.mod_small. simpl. lia. }
        rewrite Hw. apply (em_ok s r c'); [done|lia].
      * apply (em_io _ _ c' j); [lia|done|lia|by apply Hno].
  - destruct (Hw2 eq_refl) as [Hi|Hi].
    + apply (em_io _ _ c 0); [lia| |lia|by apply Hfl]. eapply same_trans; [done|apply same_sym, stamp_0].
    + apply (em_io _ _ c 1); [lia|by eapply same_trans|lia|by apply Hfl].
Qed.

End Emit.
