(* ===== verification/ArkFs.v ===== *)
(** * ARK: format, mount, blocks, files and versions
      ([arch/common/arkfs.c], lines 445-770 and 1296-1515)

    Every public entry is a function of the mounted state that returns the
    C result code, its outputs, and the state after the call. *)

From S2P Require Import Prelude Sha256 ArkIndex ArkLog.

Section Fs.
Context {D : Type} `{Bdev D}.

(** ** Commit payloads *)

Definition serialize_live (s : ark D) : list Z :=
  le 4 (u32 (g_seq s + 1)) ++ le 4 (lenz (g_live s)) ++ g_mroot s ++ le 4 0 ++
  concat (map enc_dent (g_live s)).

Fixpoint dec_dents (n : nat) (l : list Z) : list ark_dent :=
  match n with O => [] | S k => dec_dent (take 592 l) :: dec_dents k (drop 592 l) end.

(** The entries, and the Merkle root where it was copied out. *)
Definition parse_commit (pay : list Z) (max : Z) : list ark_dent * option (list Z) :=
  if lenz pay <? 44 then ([], None)
  else
    let n := num 4 pay in
    let n := if max <? n then max else n in
    let avail := (lenz pay - 44) / 592 in
    let n := if avail <? n then avail else n in
    (dec_dents (Z.to_nat n) (drop 44 pay), Some (field 8 32 pay)).

Definition commit_live_ex (s : ark D) (replicate : bool) : Z * ark D :=
  let pay := serialize_live s in
  let id := sha256 pay in
  let '((r, _), s) := emit_record s ARK_REC_COMMIT pay id in
  if negb (r =? ARK_OK) then (r, s)
  else
    let s := if replicate then snd (emit_record s ARK_REC_COMMIT pay id) else s in
    (ARK_OK, dev_sync s).

Definition commit_live (s : ark D) : Z * ark D := commit_live_ex s true.

(** The row of the live table that holds [path], as an index, or [-1]. *)
Fixpoint find_row (l : list ark_dent) (path : list Z) (i : Z) : Z :=
  match l with
  | [] => -1
  | d :: r => if ark_streq (name d) path then i else find_row r path (i + 1)
  end.
Definition live_find (s : ark D) (path : list Z) : Z := find_row (g_live s) path 0.
Definition row (s : ark D) (e : Z) : ark_dent := getz (g_live s) e zero_dent.

(** ** Superblock, format, mount *)

Definition reset_state (s : ark D) : ark D :=
  Ark (g_bd s) (g_log_start s) (g_log_start s) 0 (g_epoch s) [] zero_id (idx_reset (g_ix s)) (g_log_end_override s).

Definition super_sector (epoch log_start total : Z) : list Z :=
  let body := super_body ARK_FMT_VERSION ARK_SECTOR log_start total epoch in
  pad_to 512 (body ++ le 4 (ark_crc32 body)).

Definition bd_total (s : ark D) : Z := match g_bd s with None => 0 | Some b => total_sectors b end.

Definition write_super (s : ark D) (sec epoch log_start : Z) : bool * ark D :=
  dev_write s sec (super_sector epoch log_start (bd_total s)).

Definition write_super_both (s : ark D) (epoch log_start : Z) : Z * ark D :=
  let '(ok, s) := write_super s 0 epoch log_start in
  if negb ok then (ARK_E_IO, s)
  else
    let '(ok, s) := write_super s (u32 (bd_total s - 1)) epoch log_start in
    if negb ok then (ARK_E_IO, s) else (ARK_OK, dev_sync s).

Definition super_magic_crc (sec : list Z) : bool :=
  bool_decide (sb_magic (dec_super sec) = ARK_SB_MAGIC) && (ark_crc32 (take 28 sec) =? sb_crc (dec_super sec)).

Definition super_valid (sec : list Z) : bool :=
  super_magic_crc sec && (sb_version (dec_super sec) =? ARK_FMT_VERSION) &&
  (sb_sector_size (dec_super sec) =? ARK_SECTOR).

Definition ark_format (s : ark D) (bd : ARK_BDEV D) : Z * ark D :=
  if negb (sector_size bd =? ARK_SECTOR) then (ARK_E_INVAL, s)
  else if total_sectors bd <? 4 then (ARK_E_INVAL, s)
  else
    let s := set_log_start (set_bd s (Some bd)) 1 in
    let prev_epoch :=
      match dev_read s 0 with
      | Some old => if super_magic_crc old then sb_epoch (dec_super old) else 0
      | None => 0
      end in
    let s := reset_state (set_epoch s (u32 (prev_epoch + 1))) in
    let s := set_ix s (idx_set_cap (g_ix s) (total_sectors bd)) in
    let '(r, s) := write_super_both s (g_epoch s) (g_log_start s) in
    if negb (r =? ARK_OK) then (ARK_E_IO, s)
    else
      let '(r, s) := commit_live_ex s false in
      if negb (r =? ARK_OK) then (r, s) else (ARK_OK, dev_sync s).

(** Pass 1: the end of the last commit whose payload verifies. *)
Definition pass1 (sec : Z) (v : rec_view) (last : Z) : Z + Empty_set :=
  inl (if (rv_type v =? ARK_REC_COMMIT) && rv_ok v then sec + rv_n v else last).

(** Pass 2: index the blocks, load each valid commit. *)
Definition pass2 (sec : Z) (v : rec_view) (s : ark D) : ark D + Empty_set :=
  inl (if rv_type v =? ARK_REC_BLOCK then set_ix s (snd (idx_add (g_ix s) (rv_id v) sec))
       else if (rv_type v =? ARK_REC_COMMIT) && rv_ok v then
         let '(tbl, mroot) := parse_commit (rv_pay v) ARK_MAX_FILES in
         set_seq (set_mroot (set_live s tbl) (default (g_mroot s) mroot)) (rv_seq v)
       else s).

Definition the {A} (x : A + Empty_set) : A :=
  match x with inl a => a | inr e => match e with end end.

Definition head_after_commit (s : ark D) : Z :=
  the (scan_log s (ark_usable_end s) pass1 (g_log_start s) (g_log_start s)).

Definition replay (s : ark D) : ark D :=
  let h := head_after_commit s in
  set_head (the (scan_log s h pass2 (g_log_start s) s)) h.

Definition ark_mount (s : ark D) (bd : ARK_BDEV D) : Z * ark D :=
  if negb (sector_size bd =? ARK_SECTOR) then (ARK_E_INVAL, s)
  else
    let s := set_bd s (Some bd) in
    let try sec := match dev_read s sec with
                   | Some b => if super_valid b then Some b else None
                   | None => None end in
    let sb := match try 0 with Some b => Some b | None => try (u32 (total_sectors bd - 1)) end in
    match sb with
    | None => (ARK_E_CORRUPT, s)
    | Some b =>
        let sb := dec_super b in
        let s := reset_state (set_epoch (set_log_start s (sb_log_start sb)) (sb_epoch sb)) in
        let s := set_ix s (idx_set_cap (g_ix s) (sb_total_sectors sb)) in
        (ARK_OK, replay s)
    end.

Definition ark_unmount (s : ark D) : ark D := reset_state (set_bd s None).

Definition mounted (s : ark D) : bool := match g_bd s with None => false | Some _ => true end.

(** ** Raw blocks *)

(** The result code, the id and the state. *)
Definition ark_block_put (s : ark D) (buf : list Z) : (Z * list Z) * ark D :=
  if negb (mounted s) then ((ARK_E_NOTMOUNTED, []), s)
  else if ARK_BLOCK_MAX <? lenz buf then ((ARK_E_TOOBIG, []), s)
  else
    let id := sha256 buf in
    if 0 <=? idx_find (g_ix s) id then ((ARK_OK, id), s)
    else
      let '((r, start), s) := emit_record s ARK_REC_BLOCK buf id in
      if negb (r =? ARK_OK) then ((r, id), s)
      else let '(r, ix) := idx_add (g_ix s) id start in ((r, id), set_ix s ix).

(** The length (or the error) and the caller's buffer after the call. *)
Definition ark_block_get (s : ark D) (id : list Z) (buf : list Z) (max : Z) : Z * list Z :=
  if negb (mounted s) then (ARK_E_NOTMOUNTED, buf)
  else
    let i := idx_find (g_ix s) id in
    if i <? 0 then (ARK_E_NOTFOUND, buf)
    else match snd (read_record s (slot_sec (g_idx (g_ix s) i)) ARK_COMMIT_MAX) with
    | None => (ARK_E_CORRUPT, buf)
    | Some v =>
        if negb (rv_type v =? ARK_REC_BLOCK) then (ARK_E_CORRUPT, buf)
        else if negb (rv_ok v) then (ARK_E_CORRUPT, buf)
        else
          let cpy := if rv_len v <? max then rv_len v else max in
          (rv_len v, blit buf 0 (take (Z.to_nat cpy) (rv_pay v)))
    end.

Definition ark_block_has (s : ark D) (id : list Z) : Z := if 0 <=? idx_find (g_ix s) id then 1 else 0.
Definition ark_block_count (s : ark D) : Z := idx_count (g_ix s).

Definition ark_checkpoint (s : ark D) : Z * ark D :=
  if negb (mounted s) then (ARK_E_NOTMOUNTED, s) else commit_live s.

(** ** Whole files *)

(** The slice of the caller's buffer that becomes block [i]. *)
Definition file_chunk (buf : list Z) (len i : Z) : list Z :=
  let off := i * ARK_BLOCK_MAX in
  let chunk := if u32 (len - off) <? ARK_BLOCK_MAX then u32 (len - off) else ARK_BLOCK_MAX in
  take (Z.to_nat chunk) (drop (Z.to_nat off) buf).

(** The block loop of [ark_write_file] from block [i], [n] blocks left. *)
Fixpoint put_blocks (n : nat) (s : ark D) (buf : list Z) (len i : Z) : (Z * list (list Z)) * ark D :=
  match n with
  | O => ((ARK_OK, []), s)
  | S k =>
      let '((r, id), s) := ark_block_put s (file_chunk buf len i) in
      if negb (r =? ARK_OK) then ((r, []), s)
      else let '((r, ids), s) := put_blocks k s buf len (i + 1) in ((r, id :: ids), s)
  end.

(** [blk[i] = ids[i]] for each new id; later entries keep what they held. *)
Definition set_blocks (d : ark_dent) (len n : Z) (ids : list (list Z)) : ark_dent :=
  Dent (name d) 0 (dpad d) (version d) len n (ids ++ drop (length ids) (blk d)).

Definition set_version (d : ark_dent) (v : Z) : ark_dent :=
  Dent (name d) (is_dir d) (dpad d) v (size d) (nblk d) (blk d).
Definition new_row (path : list Z) (isdir : Z) : ark_dent :=
  Dent (ark_strncpy path ARK_NAME_MAX) isdir (dpad zero_dent) 1 0 0 (blk zero_dent).

(** Step 2 of [ark_write_file]: the new live table, [None] when it is full. *)
Definition update_rows (s : ark D) (path : list Z) (len nblk : Z) (ids : list (list Z)) : option (list ark_dent) :=
  let e := live_find s path in
  if e <? 0 then
    if ARK_MAX_FILES <=? lenz (g_live s) then None
    else Some (g_live s ++ [set_blocks (new_row path 0) len nblk ids])
  else
    let d := set_version (row s e) (u32 (version (row s e) + 1)) in
    Some (setz (g_live s) e (set_blocks d len nblk ids)).

Definition file_blocks (len : Z) : Z :=
  if len =? 0 then 0 else u32 (len + ARK_BLOCK_MAX - 1) / ARK_BLOCK_MAX.

(** [len] is the C argument, [buf] the bytes it covers. *)
Definition ark_write_file (s : ark D) (path buf : list Z) (len : Z) : Z * ark D :=
  if negb (mounted s) then (ARK_E_NOTMOUNTED, s)
  else if ARK_NAME_MAX <? ark_strlen path + 1 then (ARK_E_INVAL, s)
  else
    let nblk := file_blocks len in
    if ARK_MAX_BLK <? nblk then (ARK_E_TOOBIG, s)
    else
      let '((r, ids), s) := put_blocks (Z.to_nat nblk) s buf len 0 in
      if negb (r =? ARK_OK) then (r, s)
      else match update_rows s path len nblk ids with
      | None => (ARK_E_FULL, s)
      | Some rows => commit_live (set_live s rows)
      end.

(** The loop of [read_dent_blocks] from block [i]: the result code and the
    buffer; [done] bytes have been delivered. *)
Fixpoint read_blocks (n : nat) (s : ark D) (d : ark_dent) (buf : list Z) (max i done : Z) : Z * list Z :=
  match n with
  | O => (i32 (size d), buf)
  | S k =>
      let '(bl, b) := ark_block_get s (getz (blk d) i zero_id) (replicate 4096 0) ARK_BLOCK_MAX in
      if bl <? 0 then (bl, buf)
      else
        let cpy := if max <? u32 (done + bl) then (if done <? max then max - done else 0) else bl in
        read_blocks k s d (blit buf done (take (Z.to_nat cpy) b)) max (i + 1) (u32 (done + bl))
  end.
Definition read_dent_blocks (s : ark D) (d : ark_dent) (buf : list Z) (max : Z) : Z * list Z :=
  read_blocks (Z.to_nat (nblk d)) s d buf max 0 0.

(** ** Versions *)

Definition version_row (path : list Z) (v : Z) (d : ark_dent) : bool :=
  ark_streq (name d) path && (version d =? v).

Definition ark_read_version (s : ark D) (path : list Z) (v : Z) (buf : list Z) (max : Z) : Z * list Z :=
  if negb (mounted s) then (ARK_E_NOTMOUNTED, buf)
  else
    let step (sec : Z) (r : rec_view) (_ : unit) : unit + ark_dent :=
      if (rv_type r =? ARK_REC_COMMIT) && rv_ok r then
        match List.find (version_row path v) (fst (parse_commit (rv_pay r) ARK_MAX_FILES)) with
        | Some d => inr d
        | None => inl tt
        end
      else inl tt in
    match scan_log s (g_head s) step (g_log_start s) tt with
    | inr d => read_dent_blocks s d buf max
    | inl _ => (ARK_E_NOTFOUND, buf)
    end.

(** Version [cur], then [cur - 1], ... down to 1. *)
Fixpoint fall_back (n : nat) (s : ark D) (path : list Z) (v : Z) (buf : list Z) (max r : Z) : Z * list Z :=
  match n with
  | O => (r, buf)
  | S k =>
      let '(rr, buf) := ark_read_version s path (v - 1) buf max in
      if 0 <=? rr then (rr, buf) else fall_back k s path (v - 1) buf max r
  end.

Definition ark_read_file (s : ark D) (path : list Z) (buf : list Z) (max : Z) : Z * list Z :=
  if negb (mounted s) then (ARK_E_NOTMOUNTED, buf)
  else
    let e := live_find s path in
    if (e <? 0) || negb (is_dir (row s e) =? 0) then (ARK_E_NOTFOUND, buf)
    else
      let '(r, buf) := read_dent_blocks s (row s e) buf max in
      if 0 <=? r then (r, buf)
      else fall_back (Z.to_nat (version (row s e) - 1)) s path (version (row s e)) buf max r.

(** [size], [is_dir], [version]. *)
Definition ark_stat (s : ark D) (path : list Z) : Z * option (Z * Z * Z) :=
  if negb (mounted s) then (ARK_E_NOTMOUNTED, None)
  else
    let e := live_find s path in
    if e <? 0 then (ARK_E_NOTFOUND, None)
    else (ARK_OK, Some (size (row s e), is_dir (row s e), version (row s e))).

Definition ark_mkdir (s : ark D) (path : list Z) : Z * ark D :=
  if negb (mounted s) then (ARK_E_NOTMOUNTED, s)
  else if ARK_NAME_MAX <? ark_strlen path + 1 then (ARK_E_INVAL, s)
  else if 0 <=? live_find s path then (ARK_E_INVAL, s)
  else if ARK_MAX_FILES <=? lenz (g_live s) then (ARK_E_FULL, s)
  else commit_live (set_live s (g_live s ++ [new_row path 1])).

Definition ark_unlink (s : ark D) (path : list Z) : Z * ark D :=
  if negb (mounted s) then (ARK_E_NOTMOUNTED, s)
  else
    let e := live_find s path in
    if e <? 0 then (ARK_E_NOTFOUND, s)
    else commit_live (set_live s (delete (Z.to_nat e) (g_live s))).

Record ARK_DIRENT := Dirent { de_name : list Z; de_size : Z; de_is_dir : Z; de_version : Z }.

(** The child name [ark_readdir] lists a row under, if it lists it. *)
Definition child_of (path nm : list Z) : option (list Z) :=
  let plen := ark_strlen path in
  let root := (plen =? 0) || ((plen =? 1) && (getz path 0 0 =? 47)) in
  let child :=
    if root then Some (cstr (if getz nm 0 0 =? 47 then drop 1 nm else nm))
    else if ark_memeq nm path plen && (getz nm plen 0 =? 47)
    then Some (cstr (drop (Z.to_nat plen + 1) nm)) else None in
  match child with
  | None | Some [] => None
  | Some c => if existsb (fun x => x =? 47) c then None else Some c
  end.

Fixpoint list_rows (l : list ark_dent) (path : list Z) (max cnt : Z) : list ARK_DIRENT :=
  match l with
  | [] => []
  | d :: r =>
      if cnt <? max then
        match child_of path (name d) with
        | None => list_rows r path max cnt
        | Some c => Dirent (take (Z.to_nat (ARK_NAME_MAX - 1)) c) (size d) (is_dir d) (version d)
                      :: list_rows r path max (cnt + 1)
        end
      else []
  end.
Definition ark_readdir (s : ark D) (path : list Z) (max : Z) : Z * list ARK_DIRENT :=
  if negb (mounted s) then (ARK_E_NOTMOUNTED, [])
  else let l := list_rows (g_live s) path max 0 in (lenz l, l).

Definition ark_version (s : ark D) (path : list Z) : Z :=
  if negb (mounted s) then ARK_E_NOTMOUNTED
  else
    let e := live_find s path in
    if e <? 0 then ARK_E_NOTFOUND else i32 (version (row s e)).

Record ARK_HIST := Hist { hi_version : Z; hi_commit_seq : Z; hi_size : Z }.

(** One record of [ark_history]: rows collected, last version seen. *)
Definition hist_step (path : list Z) (max : Z) (sec : Z) (r : rec_view) (a : list ARK_HIST * Z) :
    (list ARK_HIST * Z) + (list ARK_HIST) :=
  let '(out, last) := a in
  let a' :=
    if (rv_type r =? ARK_REC_COMMIT) && rv_ok r then
      match List.find (fun d => ark_streq (name d) path && negb (version d =? last))
              (fst (parse_commit (rv_pay r) ARK_MAX_FILES)) with
      | Some d => (out ++ [Hist (version d) (rv_seq r) (size d)], version d)
      | None => a
      end
    else a in
  if lenz (fst a') <? max then inl a' else inr (fst a').

Definition ark_history (s : ark D) (path : list Z) (max : Z) : Z * list ARK_HIST :=
  if negb (mounted s) then (ARK_E_NOTMOUNTED, [])
  else
    let out := if max <=? 0 then [] else
      match scan_log s (g_head s) (hist_step path max) (g_log_start s) ([], 0) with
      | inl (o, _) => o
      | inr o => o
      end in
    (lenz out, out).

End Fs.

(** The variables before the first mount. *)
Definition boot_state (D : Type) : ark D := Ark None 0 0 0 0 [] zero_id (Index empty_slots 0 0) 0.
