(* ===== verification/ArkReplay.v ===== *)
(** * Replay of the ARK log

    The commit payload reads back; the two passes of [ark_mount] compute the
    fold of the log's records; an image that stores a state mounts to it. *)

From stdpp Require Import gmap.
From S2P Require Import Prelude Sha256 ArkIndex ArkLog ArkDisk ArkFs.

(** ** Directory entries and commits read back *)

Record wf_dent (d : ark_dent) : Prop := {
  wd_name : length (name d) = 64%nat;
  wd_pad : length (dpad d) = 3%nat;
  wd_version : is_u32 (version d);
  wd_size : is_u32 (size d);
  wd_nblk : is_u32 (nblk d);
  wd_blk : length (blk d) = 16%nat;
  wd_ids : Forall (fun i => length i = 32%nat) (blk d);
  wd_bytes : Forall is_u8 (enc_dent d) }.

Lemma concat_length_ids (l : list (list Z)) :
  Forall (fun i => length i = 32%nat) l -> length (concat l) = (32 * length l)%nat.
Proof. induction 1 as [|x l Hx Hl IH]; [done|]. cbn [concat length]. rewrite length_app, IH, Hx. lia. Qed.

Lemma enc_dent_length d : wf_dent d -> length (enc_dent d) = 592%nat.
Proof.
  intros W. unfold enc_dent. rewrite !length_app, !le_length, concat_length_ids by apply W.
  rewrite (wd_name _ W), (wd_pad _ W), (wd_blk _ W). done.
Qed.

Lemma dec_ids_concat (l : list (list Z)) :
  Forall (fun i => length i = 32%nat) l -> dec_ids (length l) (concat l) = l.
Proof.
  induction 1 as [|x l Hx Hl IH]; [done|]. cbn [concat length dec_ids].
  rewrite take_app_length', drop_app_length' by done. by rewrite IH.
Qed.

Lemma dec_enc_dent d : wf_dent d -> dec_dent (enc_dent d) = d.
Proof.
  intros W. destruct W as [H1 H2 H3 H4 H5 H6 H7 _]. unfold dec_dent.
  set (x := enc_dent d).
  assert (field 0 64 x = name d) as -> by (unfold x, enc_dent; by apply field_hit).
  assert (nth 64 x 0 = is_dir d) as ->
    by (unfold x, enc_dent; rewrite app_nth2 by lia; by rewrite H1).
  assert (Hs : forall off n, (64 <= off)%nat -> field off n x = field (off - 64) n (drop 64 x)).
  { intros off n Ho. unfold field. rewrite drop_drop. do 2 f_equal. lia. }
  assert (Hd : drop 64 x = [is_dir d] ++ dpad d ++ le 4 (version d) ++ le 4 (size d) ++ le 4 (nblk d) ++ concat (blk d))
    by (unfold x, enc_dent; by apply drop_app_length').
  unfold num. rewrite !Hs, Hd by lia. cbn [Nat.sub].
  set (y := [is_dir d] ++ _).
  assert (field 1 3 y = dpad d) as -> by (unfold y; fields H2).
  assert (u32 (of_le (field 4 4 y)) = version d) as -> by (unfold y; fields H2).
  assert (u32 (of_le (field 8 4 y)) = size d) as -> by (unfold y; fields H2).
  assert (u32 (of_le (field 12 4 y)) = nblk d) as -> by (unfold y; fields H2).
  replace (drop 80 x) with (concat (blk d)).
  - rewrite <- H6, dec_ids_concat by done. by destruct d.
  - replace (drop 80 x) with (drop 16 (drop 64 x)) by by rewrite drop_drop.
    rewrite Hd. rewrite !app_assoc. symmetry. apply drop_app_length'.
    rewrite !length_app, !le_length, H2. done.
Qed.

Lemma dec_dents_concat l :
  Forall wf_dent l -> dec_dents (length l) (concat (map enc_dent l)) = l.
Proof.
  induction 1 as [|d l Hd Hl IH]; [done|]. cbn [map concat length dec_dents].
  rewrite take_app_length', drop_app_length' by (by rewrite enc_dent_length).
  by rewrite dec_enc_dent, IH.
Qed.

Lemma dents_length l : Forall wf_dent l -> length (concat (map enc_dent l)) = (592 * length l)%nat.
Proof.
  induction 1 as [|d l Hd Hl IH]; [done|]. cbn [map concat length].
  rewrite length_app, IH, enc_dent_length by done. lia.
Qed.

(** A namespace a commit can hold. *)
Record wf_tree (live : list ark_dent) (mroot : list Z) : Prop := {
  wt_rows : Forall wf_dent live;
  wt_count : lenz live <= ARK_MAX_FILES;
  wt_mroot : length mroot = 32%nat;
  wt_bytes : Forall is_u8 mroot }.

Section Commit.
Context {D : Type} `{Bdev D} (s : ark D) (W : wf_tree (g_live s) (g_mroot s)).

Lemma serialize_length : lenz (serialize_live s) = 44 + 592 * lenz (g_live s).
Proof.
  destruct W as [H1 H2 H3 _]. unfold lenz, serialize_live.
  rewrite !length_app, !le_length, dents_length, H3 by done. lia.
Qed.

Lemma serialize_bytes : Forall is_u8 (serialize_live s).
Proof.
  destruct W as [H1 H2 H3 H4]. unfold serialize_live.
  repeat (apply Forall_app; split); auto with machine.
  clear -H1. induction H1 as [|d l Hd Hl IH]; [constructor|]. cbn [map concat].
  apply Forall_app; split; [apply Hd|done].
Qed.

Lemma serialize_fits : lenz (serialize_live s) <= ARK_COMMIT_MAX.
Proof.
  rewrite serialize_length. pose proof (wt_count _ _ W). unfold ARK_MAX_FILES in *.
  change ARK_COMMIT_MAX with 19456. lia.
Qed.

(** The commit payload names the live table and the Merkle root, exactly. *)
Lemma parse_serialize : parse_commit (serialize_live s) ARK_MAX_FILES = (g_live s, Some (g_mroot s)).
Proof.
  pose proof serialize_length as Hl. destruct W as [H1 H2 H3 H4]. unfold ARK_MAX_FILES in *.
  unfold parse_commit. rewrite Hl. pose proof (lenz_nonneg (g_live s)).
  destruct (Z.ltb_spec (44 + 592 * lenz (g_live s)) 44); [lia|]. cbv zeta.
  assert (Hn : num 4 (serialize_live s) = lenz (g_live s)).
  { unfold num, serialize_live. rewrite field_skip by (rewrite le_length; lia). rewrite le_length.
    cbn [Nat.sub]. apply num_le. unfold is_u32. lia. }
  rewrite Hn. destruct (Z.ltb_spec 32 (lenz (g_live s))); [lia|].
  replace (44 + 592 * lenz (g_live s) - 44) with (lenz (g_live s) * 592) by lia.
  rewrite Z.div_mul by lia. rewrite Z.ltb_irrefl.
  assert (Hd : drop 44 (serialize_live s) = concat (map enc_dent (g_live s))).
  { unfold serialize_live. rewrite !app_assoc. apply drop_app_length'.
    rewrite !length_app, !le_length, H3. done. }
  rewrite Hd. unfold lenz. rewrite Nat2Z.id, dec_dents_concat by done. do 2 f_equal.
  unfold serialize_live. fields H3.
Qed.

End Commit.

(** ** The scan of the log *)

Section Scan.
Context {D : Type} `{Bdev D} (s : ark D) {A R : Type} (f : Z -> rec_view -> A -> A + R).

Lemma read_span sec v : snd (read_record s sec ARK_COMMIT_MAX) = Some v -> 1 <= rv_n v.
Proof.
  unfold read_record. destruct (_ <=? sec); [done|]. destruct (dev_read s sec) as [b|]; [|done]. cbv zeta.
  hdr_tests. cbn [snd]. intros [= <-]. cbn [rv_n]. change (num 16 b) with (h_len (dec_hdr b)).
  match goal with Hl : (ARK_COMMIT_MAX <? _) = false |- _ => pose proof (hdr_psects _ Hl) end. lia.
Qed.

Lemma scan_fuel n m stop sec a :
  (Z.to_nat (stop - sec) <= n)%nat -> (Z.to_nat (stop - sec) <= m)%nat ->
  scan n s stop f sec a = scan m s stop f sec a.
Proof.
  revert m sec a; induction n as [|n IH]; intros m sec a Hn Hm.
  - destruct m; simpl; destruct (Z.ltb_spec sec stop); try done; lia.
  - destruct m as [|m]; simpl; destruct (Z.ltb_spec sec stop); try done; [lia|].
    destruct (snd (read_record s sec ARK_COMMIT_MAX)) as [v|] eqn:E.
    + pose proof (read_span _ _ E). destruct (f sec v a); [|done]. apply IH; lia.
    + apply IH; lia.
Qed.

Lemma scan_stop stop sec a : stop <= sec -> scan_log s stop f sec a = inl a.
Proof.
  intros Hs. unfold scan_log. replace (Z.to_nat (stop - sec)) with O by lia. simpl.
  by destruct (Z.ltb_spec sec stop); [lia|].
Qed.

Lemma scan_some stop sec v a :
  sec < stop -> snd (read_record s sec ARK_COMMIT_MAX) = Some v ->
  scan_log s stop f sec a =
  match f sec v a with inl a' => scan_log s stop f (sec + rv_n v) a' | inr r => inr r end.
Proof.
  intros Hs E. unfold scan_log at 1. replace (Z.to_nat (stop - sec)) with (S (Z.to_nat (stop - sec - 1))) by lia.
  simpl. destruct (Z.ltb_spec sec stop); [|lia]. rewrite E. pose proof (read_span _ _ E).
  destruct (f sec v a); [|done]. apply scan_fuel; lia.
Qed.

Lemma scan_none stop sec a :
  sec < stop -> snd (read_record s sec ARK_COMMIT_MAX) = None ->
  scan_log s stop f sec a = scan_log s stop f (sec + 1) a.
Proof.
  intros Hs E. unfold scan_log at 1. replace (Z.to_nat (stop - sec)) with (S (Z.to_nat (stop - sec - 1))) by lia.
  simpl. destruct (Z.ltb_spec sec stop); [|lia]. rewrite E. apply scan_fuel; lia.
Qed.

End Scan.

(** A device whose reads all succeed. *)
Definition readable {D} `{BdevLaws D} (s : ark D) : Prop :=
  match g_bd s with None => False | Some b => forall t, bd_read (ctx b) t = Some (image (ctx b) t) end.

Lemma read_peek {D} `{BdevLaws D} (s : ark D) b sec :
  readable s -> g_bd s = Some b ->
  snd (read_record s sec ARK_COMMIT_MAX) = peek (img s) (total_sectors b) (g_epoch s) sec.
Proof.
  intros Hr Hb. unfold readable in Hr. rewrite Hb in Hr.
  assert (Hd : forall t, dev_read s t = Some (img s t))
    by (intros t; unfold dev_read, img; rewrite Hb; apply Hr).
  unfold peek, read_record.
  assert (He : ark_usable_end s = ark_usable_end (disk (img s) (total_sectors b) (g_epoch s)))
    by (unfold ark_usable_end; by rewrite Hb).
  rewrite <- He. destruct (ark_usable_end s <=? sec); [done|]. rewrite Hd.
  cbn [disk dev_read g_bd ctx bd_read ram_bdev g_epoch]. cbv zeta.
  rewrite (gather_ext s (disk (img s) (total_sectors b) (g_epoch s))); [done|].
  intros j _. by rewrite Hd.
Qed.

(** ** Folding the records of a log *)

Fixpoint fold_recs {A} (g : Z -> rec_view -> A -> A) (pos : Z) (recs : list lrec) (x : A) : A :=
  match recs with
  | [] => x
  | r :: rs => fold_recs g (pos + span r) rs (g pos (view_of r) x)
  end.

Fixpoint end_of (pos : Z) (recs : list lrec) : Z :=
  match recs with [] => pos | r :: rs => end_of (pos + span r) rs end.

(** The block records and their positions, the entries of the index. *)
Fixpoint blocks_of (pos : Z) (recs : list lrec) : list (list Z * Z) :=
  match recs with
  | [] => []
  | r :: rs => (if l_type r =? ARK_REC_BLOCK then [(sha256 (l_pay r), pos)] else []) ++ blocks_of (pos + span r) rs
  end.

Lemma fold_recs_app {A} g pos rs1 rs2 (x : A) :
  fold_recs g pos (rs1 ++ rs2) x = fold_recs g (end_of pos rs1) rs2 (fold_recs g pos rs1 x).
Proof. revert pos x; induction rs1 as [|r rs1 IH]; intros pos x; simpl; [done|apply IH]. Qed.

Lemma blocks_of_app pos rs1 rs2 : blocks_of pos (rs1 ++ rs2) = blocks_of pos rs1 ++ blocks_of (end_of pos rs1) rs2.
Proof. revert pos; induction rs1 as [|r rs1 IH]; intros pos; simpl; [done|]. by rewrite IH, app_assoc. Qed.

Lemma log_end total ep im a rs b : log_at total ep im a rs b -> b = end_of a rs.
Proof. by induction 1. Qed.

Lemma log_split total ep im a rs1 rs2 b :
  log_at total ep im a (rs1 ++ rs2) b -> log_at total ep im a rs1 (end_of a rs1) /\ log_at total ep im (end_of a rs1) rs2 b.
Proof.
  revert a; induction rs1 as [|r rs1 IH]; intros a Hl; simpl in *; [split; [constructor|done]|].
  inversion Hl as [|? ? ? ? H0 Hwf Hp Hl']; subst. destruct (IH _ Hl') as [H1 H2]. split; [by constructor|done].
Qed.

Lemma log_wf total ep im a rs b : log_at total ep im a rs b -> Forall wf_rec rs.
Proof. induction 1; constructor; done. Qed.

Section Replay.
Context {D : Type} `{BdevLaws D}.

Lemma scan_recs {A R} (s : ark D) b (f : Z -> rec_view -> A -> A + R) g stop a recs e x :
  readable s -> g_bd s = Some b -> (forall sec v y, f sec v y = inl (g sec v y)) ->
  log_at (total_sectors b) (g_epoch s) (img s) a recs e -> e <= stop ->
  scan_log s stop f a x = scan_log s stop f e (fold_recs g a recs x).
Proof.
  intros Hr Hb Hf Hl. revert x. induction Hl as [|h r rs h' H0 Hwf Hp Hl IH]; intros x Hs; simpl; [done|].
  pose proof (log_le _ _ _ _ _ _ Hl). pose proof (span_spec r Hwf) as [Hsp _].
  rewrite (scan_some s f _ _ (view_of r)); [|lia|by rewrite (read_peek _ b)].
  rewrite Hf. by apply IH.
Qed.

Lemma scan_quiet (s : ark D) b stop a last :
  readable s -> g_bd s = Some b -> quiet (total_sectors b) (g_epoch s) (img s) a ->
  scan_log s stop pass1 a last = inl last.
Proof.
  intros Hr Hb. remember (Z.to_nat (stop - a)) as n eqn:En. revert a En.
  induction n as [n IH] using lt_wf_ind. intros a En Hq.
  destruct (Z.le_gt_cases stop a); [by apply scan_stop|].
  destruct (snd (read_record s a ARK_COMMIT_MAX)) as [v|] eqn:E.
  - pose proof (read_span _ _ _ E). rewrite (scan_some _ _ _ _ v) by done. unfold pass1 at 1.
    rewrite (read_peek _ b) in E by done.
    assert (Hv : (rv_type v =? ARK_REC_COMMIT) && rv_ok v = false).
    { pose proof (Hq a ltac:(lia)) as Ha. by rewrite E in Ha. }
    rewrite Hv. apply (IH (Z.to_nat (stop - (a + rv_n v)))); [lia|done|].
    eapply quiet_mono; [done|lia].
  - rewrite scan_none by done. apply (IH (Z.to_nat (stop - (a + 1)))); [lia|done|].
    eapply quiet_mono; [done|lia].
Qed.

Definition g1 (sec : Z) (v : rec_view) (last : Z) : Z := the (pass1 sec v last).
Definition g2 (sec : Z) (v : rec_view) (s : ark D) : ark D := the (pass2 sec v s).

(** What pass 2 leaves alone, and the index it builds. *)
Lemma g2_frame sec v (s : ark D) :
  g_bd (g2 sec v s) = g_bd s /\ g_epoch (g2 sec v s) = g_epoch s /\
  g_log_start (g2 sec v s) = g_log_start s /\ g_log_end_override (g2 sec v s) = g_log_end_override s /\
  g_head (g2 sec v s) = g_head s.
Proof.
  unfold g2, pass2. cbn [the]. destruct (_ =? ARK_REC_BLOCK); [done|].
  destruct (_ && _); [|done]. by destruct (parse_commit _ _).
Qed.

Lemma fold_frame recs pos (s : ark D) :
  let s' := fold_recs g2 pos recs s in
  g_bd s' = g_bd s /\ g_epoch s' = g_epoch s /\ g_log_start s' = g_log_start s /\
  g_log_end_override s' = g_log_end_override s /\ g_ix s' = idx_add_all (g_ix s) (blocks_of pos recs).
Proof.
  cbv zeta. revert pos s; induction recs as [|r rs IH]; intros pos s; cbn [fold_recs blocks_of]; [done|].
  destruct (IH (pos + span r) (g2 pos (view_of r) s)) as (-> & -> & -> & -> & ->).
  destruct (g2_frame pos (view_of r) s) as (-> & -> & -> & -> & _). split_and!; try done.
  unfold g2, pass2, view_of. cbn [the rv_type rv_id rv_ok rv_pay].
  destruct (l_type r =? ARK_REC_BLOCK); [done|]. destruct (_ && _); [|done]. by destruct (parse_commit _ _).
Qed.

Lemma g2_commit pos r (s : ark D) live mroot :
  l_type r = ARK_REC_COMMIT -> parse_commit (l_pay r) ARK_MAX_FILES = (live, Some mroot) ->
  let s' := g2 pos (view_of r) s in g_live s' = live /\ g_mroot s' = mroot /\ g_seq s' = l_seq r.
Proof. intros Ht Hp. unfold g2, pass2, view_of. cbn [the rv_type rv_ok rv_pay]. by rewrite Ht, Hp. Qed.

End Replay.

(** ** Images that store a namespace *)

(** The superblock a mount would use. *)
Definition super_is (im : array (list Z)) (total st ep : Z) : Prop :=
  exists b, (if super_valid (im 0) then Some (im 0)
             else if super_valid (im (lim total)) then Some (im (lim total)) else None) = Some b /\
    sb_log_start (dec_super b) = st /\ sb_epoch (dec_super b) = ep /\ sb_total_sectors (dec_super b) = total.

(** A log from [st] whose last record is a commit of [(live, mroot)], with
    no valid commit behind it. *)
Record log_stores (im : array (list Z)) (total st ep : Z) (recs : list lrec) (h : Z)
    (live : list ark_dent) (mroot : list Z) : Prop := {
  ls_log : log_at total ep im st recs h;
  ls_last : exists pre c, recs = pre ++ [c] /\ l_type c = ARK_REC_COMMIT /\
    parse_commit (l_pay c) ARK_MAX_FILES = (live, Some mroot);
  ls_quiet : quiet total ep im h;
  ls_end : h <= lim total }.

Record stored (im : array (list Z)) (total st ep : Z) (live : list ark_dent) (mroot : list Z) : Prop := {
  so_total : 4 <= total < 2 ^ 32 - 64;
  so_start : 1 <= st;
  so_epoch : is_u32 ep;
  so_super : super_is im total st ep;
  so_log : exists recs h, log_stores im total st ep recs h live mroot }.

Definition cap_of (total : Z) : Z := if total <? 12288 then total else 12288.

Lemma set_cap_of ix total : g_idx_cap (idx_set_cap ix total) = cap_of total.
Proof. done. Qed.

Lemma blocks_pos pos recs : 1 <= pos -> Forall wf_rec recs -> Forall (fun p => snd p <> 0) (blocks_of pos recs).
Proof.
  intros H0 Hw. revert pos H0. induction Hw as [|r rs Hr Hrs IH]; intros pos H0; simpl; [constructor|].
  pose proof (span_spec r Hr) as [Hsp _]. apply Forall_app; split; [|apply IH; lia].
  destruct (_ =? _); constructor; simpl; [lia|constructor].
Qed.

(** A mount that finds its superblock replays the log from there. *)
Lemma mount_opens im total st ep (s0 : ark ram) :
  super_is im total st ep ->
  exists s, ark_mount s0 (Bd ARK_SECTOR total im) = (ARK_OK, replay s) /\
    g_bd s = Some (Bd ARK_SECTOR total im) /\ readable s /\ img s = im /\ g_log_start s = st /\ g_epoch s = ep /\
    ark_usable_end s = lim total /\ g_ix s = idx_reset (idx_set_cap (g_ix s0) total) /\
    g_log_end_override s = g_log_end_override s0.
Proof.
  intros (b & Hb & Hs1 & Hs2 & Hs3). unfold ark_mount. rewrite Z.eqb_refl. cbn [negb].
  set (s1 := set_bd s0 (Some (Bd ARK_SECTOR total im))).
  assert (Hr : forall t, dev_read s1 t = Some (im t)) by done.
  cbv zeta. rewrite !Hr. cbn [total_sectors]. fold (lim total).
  assert (Hsb : match (if super_valid (im 0) then Some (im 0) else None) with
    | Some b0 => Some b0 | None => if super_valid (im (lim total)) then Some (im (lim total)) else None end = Some b)
    by (by destruct (super_valid (im 0))).
  rewrite Hsb, Hs1, Hs2, Hs3. eexists. split; [reflexivity|]. done.
Qed.

(** Where pass 1 ends behind a log that ends with a commit. *)
Lemma pass1_log (s : ark ram) im total pre c h stop :
  g_bd s = Some (Bd ARK_SECTOR total im) -> readable s -> img s = im ->
  log_at total (g_epoch s) im (g_log_start s) (pre ++ [c]) h -> l_type c = ARK_REC_COMMIT -> h <= stop ->
  scan_log s stop pass1 (g_log_start s) (g_log_start s) = scan_log s stop pass1 h h.
Proof.
  intros Hb Hr Hi Hlog Hc Hs. pose proof (log_end _ _ _ _ _ _ Hlog) as Hh.
  rewrite (scan_recs _ _ pass1 g1 _ _ (pre ++ [c]) h) by (try done; by rewrite Hi). f_equal.
  rewrite fold_recs_app. cbn [fold_recs]. unfold g1, pass1, view_of. cbn [the rv_type rv_ok rv_n].
  rewrite Hc. cbn [andb Z.eqb]. rewrite Hh.
  clear. generalize (g_log_start s). induction pre as [|r rs IH]; intros st; simpl; [done|apply IH].
Qed.

(** What pass 2 leaves of a log that ends with a commit. *)
Lemma pass2_log (s : ark ram) im total pre c h live mroot stop :
  g_bd s = Some (Bd ARK_SECTOR total im) -> readable s -> img s = im ->
  log_at total (g_epoch s) im (g_log_start s) (pre ++ [c]) h -> h <= stop ->
  l_type c = ARK_REC_COMMIT -> parse_commit (l_pay c) ARK_MAX_FILES = (live, Some mroot) ->
  let s' := fold_recs g2 (g_log_start s) (pre ++ [c]) s in
  scan_log s stop pass2 (g_log_start s) s = scan_log s stop pass2 h s' /\
  g_live s' = live /\ g_mroot s' = mroot /\ g_seq s' = l_seq c.
Proof.
  intros Hb Hr Hi Hlog Hs Hc Hp s'. split.
  - by rewrite (scan_recs _ _ pass2 g2 _ _ (pre ++ [c]) h) by (try done; by rewrite Hi).
  - unfold s'. rewrite fold_recs_app. cbn [fold_recs].
    by apply (g2_commit (end_of (g_log_start s) pre) c (fold_recs g2 (g_log_start s) pre s) live mroot).
Qed.

(** Mounting an image that stores [(live, mroot)]. *)
Lemma mount_log im total st ep recs h live mroot (s0 : ark ram) :
  4 <= total < 2 ^ 32 - 64 -> 1 <= st -> is_u32 ep -> super_is im total st ep ->
  log_stores im total st ep recs h live mroot ->
  exists m, ark_mount s0 (Bd ARK_SECTOR total im) = (ARK_OK, m) /\
    g_bd m = Some (Bd ARK_SECTOR total im) /\ g_live m = live /\ g_mroot m = mroot /\
    g_head m = h /\ g_log_start m = st /\ g_epoch m = ep /\ is_u32 (g_seq m) /\
    g_log_end_override m = g_log_end_override s0 /\ g_idx_cap (g_ix m) = cap_of total /\
    idx_rep (g_ix m) (map_add_all (cap_of total) ∅ (blocks_of st recs)).
Proof.
  intros Ht Hst Hep Hsup [Hlog (pre & c & -> & Hc & Hp) Hq He].
  destruct (mount_opens im total st ep s0 Hsup) as (s & Hm & Hb & Hr & Hi & Hst2 & Hep2 & He2 & Hix2 & Hov2).
  rewrite <- Hep2 in Hlog, Hq. rewrite <- Hst2 in Hlog.
  assert (Hhac : head_after_commit s = h).
  { unfold head_after_commit. rewrite He2, (pass1_log s im total pre c h) by done.
    by rewrite (scan_quiet _ _ _ _ _ Hr Hb) by (by rewrite Hi). }
  exists (replay s). split; [done|]. unfold replay. rewrite Hhac.
  destruct (pass2_log s im total pre c h live mroot h Hb Hr Hi Hlog ltac:(lia) Hc Hp) as (-> & F6 & F7 & F8).
  rewrite scan_stop by lia. cbn [the set_head g_bd g_live g_mroot g_head g_log_start g_epoch g_seq g_ix g_log_end_override].
  destruct (fold_frame (pre ++ [c]) (g_log_start s) s) as (F1 & F2 & F3 & F4 & F5).
  rewrite F1, F2, F3, F4, F5, F6, F7, F8, Hb, Hep2, Hst2, Hov2, Hix2.
  pose proof (log_wf _ _ _ _ _ _ Hlog) as Hwf.
  destruct (add_all_rep (blocks_of st (pre ++ [c])) _ _ (reset_rep (idx_set_cap (g_ix s0) total))) as [R1 R2].
  - by apply blocks_pos.
  - change (g_idx_cap (idx_reset (idx_set_cap (g_ix s0) total))) with (g_idx_cap (idx_set_cap (g_ix s0) total)).
    pose proof (cap_bound (g_ix s0) total). unfold ARK_IDX_SLOTS. lia.
  - split_and!; try done.
    apply Forall_app in Hwf as [_ Hwf]. inversion Hwf as [|? ? Hw _]; subst. apply Hw.
Qed.

(** ** Mounting what a power cut left

    Behind the last commit that was flushed anything may stand: the sectors of
    later records may have landed or not, in any order. *)

(** From [a] on the medium holds no valid commit but those of [(live, mroot)]. *)
Definition only_commit (im : array (list Z)) (total ep a : Z) (live : list ark_dent) (mroot : list Z) : Prop :=
  forall t v, a <= t -> peek im total ep t = Some v -> valid_commit (Some v) = true ->
    parse_commit (rv_pay v) ARK_MAX_FILES = (live, Some mroot).

(** The first pass ends where it started, or behind a commit that the second
    pass then meets last. *)
Lemma scan_behind (s : ark ram) b stop live mroot a last :
  readable s -> g_bd s = Some b -> only_commit (img s) (total_sectors b) (g_epoch s) a live mroot ->
  let h := the (scan_log s stop pass1 a last) in
  h = last \/ (a < h /\ forall s' : ark ram, let s2 := the (scan_log s h pass2 a s') in g_live s2 = live /\ g_mroot s2 = mroot).
Proof.
  intros Hr Hb. cbv zeta. remember (Z.to_nat (stop - a)) as n eqn:En. revert a last En.
  induction n as [n IH] using lt_wf_ind. intros a last En Hc.
  destruct (Z.le_gt_cases stop a); [left; by rewrite scan_stop|].
  assert (Hmono : forall a', a <= a' -> only_commit (img s) (total_sectors b) (g_epoch s) a' live mroot)
    by (intros a' Ha t v Ht; apply Hc; lia).
  destruct (snd (read_record s a ARK_COMMIT_MAX)) as [v|] eqn:E.
  - pose proof (read_span _ _ _ E) as Hn. assert (Hone : scan_log s stop pass1 a last =
      scan_log s stop pass1 (a + rv_n v) (if (rv_type v =? ARK_REC_COMMIT) && rv_ok v then a + rv_n v else last))
      by (by rewrite (scan_some s pass1 stop a v)).
    rewrite Hone.
    specialize (IH (Z.to_nat (stop - (a + rv_n v))) ltac:(lia) (a + rv_n v)).
    assert (Hstep : forall h (s' : ark ram), a < h -> scan_log s h pass2 a s' = scan_log s h pass2 (a + rv_n v) (g2 a v s'))
      by (intros h s' Hh; by rewrite (scan_some s pass2 h a v)).
    destruct ((rv_type v =? ARK_REC_COMMIT) && rv_ok v) eqn:Ev.
    + assert (Hp : parse_commit (rv_pay v) ARK_MAX_FILES = (live, Some mroot)).
      { rewrite (read_peek _ b) in E by done. by apply (Hc a v). }
      assert (Hg : forall s' : ark ram, g_live (g2 a v s') = live /\ g_mroot (g2 a v s') = mroot).
      { intros s'. unfold g2, pass2. cbn [the]. rewrite Ev, Hp.
        apply andb_true_iff in Ev as [->%Z.eqb_eq _]. done. }
      right. destruct (IH (a + rv_n v) eq_refl (Hmono (a + rv_n v) ltac:(lia))) as [-> |[Hh Hs]].
      * split; [lia|]. intros s'. rewrite Hstep, scan_stop by lia. apply Hg.
      * split; [lia|]. intros s'. rewrite Hstep by lia. apply Hs.
    + destruct (IH last eq_refl (Hmono (a + rv_n v) ltac:(lia))) as [-> |[Hh Hs]]; [by left|right].
      split; [lia|]. intros s'. rewrite Hstep by lia. apply Hs.
  - rewrite scan_none by done.
    destruct (IH (Z.to_nat (stop - (a + 1))) ltac:(lia) (a + 1) last eq_refl (Hmono (a + 1) ltac:(lia))) as [-> |[Hh Hs]];
      [by left|right]. split; [lia|]. intros s'. rewrite scan_none by (done || lia). apply Hs.
Qed.

(** A flushed log, and anything behind it: the mount succeeds with what the
    log committed or with what the commits behind it hold. *)
Lemma mount_mixed im total st ep recs hc live mroot live' mroot' (s0 : ark ram) :
  super_is im total st ep -> log_at total ep im st recs hc -> hc <= lim total ->
  (exists pre c, recs = pre ++ [c] /\ l_type c = ARK_REC_COMMIT /\
    parse_commit (l_pay c) ARK_MAX_FILES = (live, Some mroot)) ->
  only_commit im total ep hc live' mroot' ->
  exists m, ark_mount s0 (Bd ARK_SECTOR total im) = (ARK_OK, m) /\
    ((g_live m = live /\ g_mroot m = mroot) \/ (g_live m = live' /\ g_mroot m = mroot')).
Proof.
  intros Hsup Hlog He (pre & c & -> & Hc & Hp) Honly.
  destruct (mount_opens im total st ep s0 Hsup) as (s & Hm & Hb & Hr & Hi & Hst2 & Hep2 & He2 & _ & _).
  rewrite <- Hep2 in Hlog, Honly. rewrite <- Hst2 in Hlog. rewrite <- Hi in Honly.
  exists (replay s). split; [done|]. unfold replay, head_after_commit.
  rewrite He2, (pass1_log s im total pre c hc) by done.
  destruct (scan_behind s _ (lim total) live' mroot' hc hc Hr Hb Honly) as [-> |[Hh Hs]].
  - left. destruct (pass2_log s im total pre c hc live mroot hc Hb Hr Hi Hlog ltac:(lia) Hc Hp) as (-> & F1 & F2 & _).
    by rewrite scan_stop by lia.
  - right. set (h := the (scan_log s (lim total) pass1 hc hc)) in *.
    destruct (pass2_log s im total pre c hc live mroot h Hb Hr Hi Hlog ltac:(lia) Hc Hp) as (-> & _).
    apply Hs.
Qed.
