(* ===== verification/ArkCrash.v ===== *)
(** * Crash atomicity of ARK

    The invariant of a mounted file system and, for every operation, what the
    medium holds afterwards whatever writes failed: the namespace before the
    call or the one after it, never a mixture. *)

From stdpp Require Import gmap.
From S2P Require Import Prelude Sha256 ArkIndex ArkLog ArkDisk ArkFs ArkReplay.

(** Sectors between the last commit and the append point: starts of whole
    block records, or nothing a reader takes for a header. *)
Definition calm (im : array (list Z)) (total ep a b : Z) : Prop :=
  forall t, a <= t < b -> hdr_ok ep (im t) = false \/
    exists v, peek im total ep t = Some v /\ rv_type v = ARK_REC_BLOCK /\ t + rv_n v <= b.

Section Crash.
Context {D : Type} `{BdevLaws D} (total : Z) (Htotal : 4 <= total < 2 ^ 32 - 64).

(** The medium holds the commit [(live, mroot)] in [recs], then the block
    records [pend] that no commit covers yet; the index is that of both. *)
Record base (s : ark D) (recs pend : list lrec) (hc : Z) (live : list ark_dent) (mroot : list Z) : Prop := {
  b_bd : exists c, g_bd s = Some (Bd ARK_SECTOR total c);
  b_start : 1 <= g_log_start s;
  b_epoch : is_u32 (g_epoch s);
  b_super : super_is (img s) total (g_log_start s) (g_epoch s);
  b_override : g_log_end_override s = 0;
  b_log : log_at total (g_epoch s) (img s) (g_log_start s) recs hc;
  b_last : exists pre c, recs = pre ++ [c] /\ l_type c = ARK_REC_COMMIT /\
    parse_commit (l_pay c) ARK_MAX_FILES = (live, Some mroot);
  b_pend : log_at total (g_epoch s) (img s) hc pend (g_head s);
  b_blocks : Forall (fun r => l_type r = ARK_REC_BLOCK) pend;
  b_calm : calm (img s) total (g_epoch s) hc (g_head s);
  b_quiet : quiet total (g_epoch s) (img s) (g_head s);
  b_end : g_head s <= lim total;
  b_cap : g_idx_cap (g_ix s) = cap_of total;
  b_idx : idx_rep (g_ix s) (map_add_all (cap_of total) ∅ (blocks_of (g_log_start s) (recs ++ pend))) }.

(** In sync: the live table is the committed one. *)
Definition synced (s : ark D) : Prop :=
  wf_tree (g_live s) (g_mroot s) /\
  exists recs pend hc, base s recs pend hc (g_live s) (g_mroot s).

Let lim_t : lim total = total - 1.
Proof. apply lim_eq. lia. Qed.

Lemma calm_quiet im ep a b : calm im total ep a b -> quiet total ep im b -> quiet total ep im a.
Proof.
  intros Hc Hq t Ht. destruct (Z.le_gt_cases b t); [by apply Hq|].
  destruct (Hc t ltac:(lia)) as [Hh|(v & Hv & Hb & _)].
  - by rewrite hdr_bad_peek.
  - rewrite Hv. simpl. by rewrite Hb.
Qed.

Lemma calm_frame im im' ep a b :
  0 <= a -> calm im total ep a b -> (forall u, a <= u < b -> im u = im' u) -> calm im' total ep a b.
Proof.
  intros Ha Hc He t Ht. destruct (Hc t Ht) as [Hh|(v & Hv & Hb & Hn)].
  - left. by rewrite <- He.
  - right. exists v. split; [|done]. eapply peek_frame; [lia|done|]. intros u Hu. apply He. lia.
Qed.

Lemma super_frame im im' st ep :
  super_is im total st ep -> im 0 = im' 0 -> im (lim total) = im' (lim total) -> super_is im' total st ep.
Proof. unfold super_is. by intros Hs <- <-. Qed.

Section Base.
Context (s : ark D) (recs pend : list lrec) (hc : Z) (live : list ark_dent) (mroot : list Z).
Context (B : base s recs pend hc live mroot).

Lemma base_bounds : 1 <= g_log_start s <= hc /\ hc <= g_head s <= lim total.
Proof.
  pose proof (log_le _ _ _ _ _ _ (b_log _ _ _ _ _ _ B)). pose proof (log_le _ _ _ _ _ _ (b_pend _ _ _ _ _ _ B)).
  pose proof (b_start _ _ _ _ _ _ B). pose proof (b_end _ _ _ _ _ _ B). lia.
Qed.

Lemma base_attached : g_bd s <> None.
Proof. destruct (b_bd _ _ _ _ _ _ B) as [c ->]. done. Qed.

Lemma base_usable : ark_usable_end s = lim total.
Proof. destruct (b_bd _ _ _ _ _ _ B) as [c E]. unfold ark_usable_end. by rewrite E. Qed.

(** Anything that only touched sectors from the append point on, and left no
    commit there, stores what was committed. *)
Lemma base_undisturbed im :
  (forall u, u < g_head s \/ lim total <= u -> im u = img s u) ->
  quiet total (g_epoch s) im (g_head s) ->
  stored im total (g_log_start s) (g_epoch s) live mroot.
Proof.
  intros Hf Hq. pose proof base_bounds. destruct B. split; try done.
  - eapply super_frame; [done|symmetry; apply Hf; lia..].
  - exists recs, hc. split; [|done| |lia].
    + eapply log_frame; [done|]. intros u Hu. symmetry. apply Hf. lia.
    + eapply calm_quiet; [|done]. eapply calm_frame; [|done|]; [lia|].
      intros u Hu. symmetry. apply Hf. lia.
Qed.

Lemma base_stored : stored (img s) total (g_log_start s) (g_epoch s) live mroot.
Proof. apply base_undisturbed; [done|apply B]. Qed.

(** ... and if a commit landed there whole, it stores that commit. *)
Lemma base_committed im r live' mroot' :
  (forall u, u < g_head s \/ lim total <= u -> im u = img s u) ->
  log_at total (g_epoch s) im (g_head s) [r] (g_head s + span r) -> g_head s + span r <= lim total ->
  quiet total (g_epoch s) im (g_head s + span r) ->
  l_type r = ARK_REC_COMMIT -> parse_commit (l_pay r) ARK_MAX_FILES = (live', Some mroot') ->
  log_stores im total (g_log_start s) (g_epoch s) (recs ++ pend ++ [r]) (g_head s + span r) live' mroot'.
Proof.
  intros Hf Hr He Hq Hc Hp. pose proof base_bounds. destruct B. split; [|exists (recs ++ pend), r|done|done].
  - eapply log_app; [|eapply log_app; [|done]]; eapply log_frame; try done;
      intros u Hu; symmetry; apply Hf; lia.
  - by rewrite app_assoc.
Qed.

Lemma log_stores_stored im recs' h live' mroot' :
  (forall u, u < g_head s \/ lim total <= u -> im u = img s u) ->
  log_stores im total (g_log_start s) (g_epoch s) recs' h live' mroot' ->
  stored im total (g_log_start s) (g_epoch s) live' mroot'.
Proof.
  intros Hf Hl. pose proof base_bounds. destruct B. split; try done; [|by exists recs', h].
  eapply super_frame; [done|symmetry; apply Hf; lia..].
Qed.

(** A stamp stays between the append point and the end of the log. *)
Lemma stamp_local r j :
  0 <= j <= span r -> g_head s + span r <= lim total ->
  forall u, u < g_head s \/ lim total <= u -> stamp (g_epoch s) (img s) (g_head s) r j u = img s u.
Proof. intros Hj He u Hu. apply stamp_out. lia. Qed.

Lemma base_set_live rows : base (set_live s rows) recs pend hc live mroot.
Proof. destruct B. by split. Qed.
Lemma base_set_mroot m : base (set_mroot s m) recs pend hc live mroot.
Proof. destruct B. by split. Qed.

End Base.

Lemma stored_same im im' st ep live mroot :
  same_image im im' -> stored im total st ep live mroot -> stored im' total st ep live mroot.
Proof.
  intros Hs [S1 S2 S3 S4 (recs & h & [L1 L2 L3 L4])]. split; try done.
  - eapply super_frame; [done|apply Hs..].
  - exists recs, h. split; try done.
    + eapply log_frame; [done|]. intros; apply Hs.
    + intros t Ht. rewrite <- (peek_same _ _ im im') by done. by apply L3.
Qed.

(** ** One block record *)

Lemma base_set_disk s recs pend hc live mroot c :
  base s recs pend hc live mroot -> same_image (image c) (img s) -> base (set_ctx s c) recs pend hc live mroot.
Proof.
  intros B Hs. pose proof (base_attached _ _ _ _ _ _ B) as Hb.
  assert (Hi : img (set_ctx s c) = image c) by by apply img_set_ctx.
  pose proof (base_bounds _ _ _ _ _ _ B) as [Hb1 Hb2].
  destruct B as [[c0 E] B2 B3 B4 B5 B6 B7 B8 B9 B10 B11 B12 B13 B14].
  split; rewrite ?Hi; try done.
  - exists c. unfold set_ctx. by rewrite E.
  - eapply super_frame; [done|symmetry; apply Hs..].
  - eapply log_frame; [done|intros; symmetry; apply Hs].
  - eapply log_frame; [done|intros; symmetry; apply Hs].
  - eapply calm_frame; [|done|intros; symmetry; apply Hs]. lia.
  - intros t Ht. rewrite (peek_same _ _ (image c) (img s)) by done. by apply B11.
Qed.

(** A complete block record extends [pend]; the index is left to the caller. *)
Lemma base_append_block s recs pend hc live mroot c pay ix :
  base s recs pend hc live mroot ->
  let r := new_rec s ARK_REC_BLOCK pay in
  wf_rec r -> plain (g_epoch s) r = true -> g_head s + span r <= lim total ->
  same_image (image c) (stamp (g_epoch s) (img s) (g_head s) r (span r)) ->
  g_idx_cap ix = cap_of total ->
  idx_rep ix (map_add_all (cap_of total) ∅ (blocks_of (g_log_start s) (recs ++ pend ++ [r]))) ->
  base (set_ix (set_head (set_seq (set_ctx s c) (u32 (g_seq s + 1))) (g_head s + span r)) ix)
    recs (pend ++ [r]) hc live mroot.
Proof.
  intros B r Hwf Hpl He Hc Hcap Hix. pose proof (base_attached _ _ _ _ _ _ B) as Hb.
  pose proof (base_bounds _ _ _ _ _ _ B) as [Hb1 Hb2].
  pose proof (span_spec r Hwf) as [Hsp _].
  assert (Hi : img (set_ctx s c) = image c) by by apply img_set_ctx.
  set (s' := set_ix _ _). assert (Hi' : img s' = image c) by exact Hi.
  assert (Hf : forall u, u < g_head s \/ lim total <= u -> image c u = img s u).
  { intros u Hu. rewrite Hc. apply stamp_local; [lia|lia|done]. }
  destruct (stamp_done total (g_epoch s) ltac:(lia) (b_epoch _ _ _ _ _ _ B) (img s) (g_head s) r
    (b_quiet _ _ _ _ _ _ B) Hwf ltac:(lia) He Hpl) as [Hl Hq].
  assert (Hl' : log_at total (g_epoch s) (image c) (g_head s) [r] (g_head s + span r))
    by (eapply log_frame; [exact Hl|intros; symmetry; apply Hc]).
  assert (Hq' : quiet total (g_epoch s) (image c) (g_head s + span r)).
  { intros t Ht. rewrite (peek_same _ _ _ _ t Hc). by apply Hq. }
  destruct B as [[c0 E] B2 B3 B4 B5 B6 B7 B8 B9 B10 B11 B12 B13 B14].
  assert (Hlh : hc <= g_head s) by lia.
  split; rewrite ?Hi'; try done.
  - exists c. simpl. by rewrite E.
  - eapply super_frame; [done|symmetry; apply Hf; lia..].
  - eapply log_frame; [done|intros; symmetry; apply Hf; lia].
  - eapply log_app; [|done]. eapply log_frame; [done|intros; symmetry; apply Hf; lia].
  - apply Forall_app; split; [done|]. by constructor.
  - intros t Ht. cbn [s' set_ix set_head g_head] in Ht.
    destruct (Z.lt_ge_cases t (g_head s)).
    + assert (Hcm : calm (image c) total (g_epoch s) hc (g_head s))
        by (eapply calm_frame; [|done|intros; symmetry; apply Hf; lia]; lia).
      destruct (Hcm t ltac:(lia)) as [|(v & Hv & Hv1 & Hv2)]; [by left|right].
      exists v. cbn [s' set_ix set_head g_head]. split_and!; [done..|lia].
    + destruct (decide (t = g_head s)) as [->|Hne].
      * right. exists (view_of r). cbn [s' set_ix set_head g_head]. split_and!; [|done|done].
        by inversion Hl'; subst.
      * left. rewrite (Hc t). replace t with (g_head s + (t - g_head s)) by lia.
        rewrite stamp_in by lia. apply plain_sector; [done|lia].
Qed.

(** The entry a block record makes in the index. *)
Lemma blocks_snoc st recs pend hc h im ep r :
  log_at total ep im st recs hc -> log_at total ep im hc pend h -> l_type r = ARK_REC_BLOCK ->
  blocks_of st (recs ++ pend ++ [r]) = blocks_of st (recs ++ pend) ++ [(sha256 (l_pay r), h)].
Proof.
  intros H1' H2' Hr. rewrite app_assoc, blocks_of_app. f_equal. cbn [blocks_of]. rewrite Hr. simpl.
  do 2 f_equal. symmetry. eapply log_end. by eapply log_app.
Qed.

Lemma map_add_all_snoc cap m l id sec :
  map_add_all cap m (l ++ [(id, sec)]) = map_add cap (map_add_all cap m l) id sec.
Proof. unfold map_add_all. by rewrite fold_left_app. Qed.

(** The live table and the geometry do not change when blocks are appended. *)
Definition same_tree (s s' : ark D) : Prop :=
  g_live s' = g_live s /\ g_mroot s' = g_mroot s /\ g_epoch s' = g_epoch s /\ g_log_start s' = g_log_start s.

Lemma same_tree_refl s : same_tree s s.
Proof. done. Qed.
Lemma same_tree_trans a b c : same_tree a b -> same_tree b c -> same_tree a c.
Proof. intros (A1 & A2 & A3 & A4) (B1 & B2 & B3 & B4). repeat split; congruence. Qed.

(** [ark_block_put]: the block is indexed and the commit untouched, or the
    call failed and the medium still stores the commit. *)
Lemma block_put_outcome s recs pend hc live mroot buf :
  base s recs pend hc live mroot -> Forall is_u8 buf -> lenz buf <= ARK_BLOCK_MAX ->
  plain (g_epoch s) (Rec ARK_REC_BLOCK 0 buf) = true ->
  let '((r, id), s') := ark_block_put s buf in
  (r = ARK_OK /\ id = sha256 buf /\ same_tree s s' /\ exists pend',
     base s' recs (pend ++ pend') hc live mroot /\ Forall (fun r => l_pay r = buf) pend' /\
     is_Some (map_add_all (cap_of total) ∅ (blocks_of (g_log_start s) (recs ++ pend ++ pend')) !! sha256 buf)) \/
  (r <> ARK_OK /\ same_tree s s' /\ stored (img s') total (g_log_start s) (g_epoch s) live mroot).
Proof.
  intros B Hbuf Hlen Hpl. pose proof (base_attached _ _ _ _ _ _ B) as Hb.
  pose proof (base_bounds _ _ _ _ _ _ B) as [Hb1 Hb2]. pose proof (base_usable _ _ _ _ _ _ B) as Hue.
  set (m := map_add_all (cap_of total) ∅ (blocks_of (g_log_start s) (recs ++ pend))).
  assert (R : idx_rep (g_ix s) m) by apply B.
  unfold ark_block_put, mounted. destruct (g_bd s) eqn:Ebd; [|done]. cbn [negb].
  destruct (Z.ltb_spec ARK_BLOCK_MAX (lenz buf)); [lia|]. cbv zeta.
  pose proof (find_spec _ _ R (sha256 buf)) as Hf.
  destruct (Z.leb_spec 0 (idx_find (g_ix s) (sha256 buf))) as [Hfound|Habs].
  { left. split_and!; try done. exists []. rewrite !app_nil_r. split_and!; [done|constructor|].
    fold m. destruct (m !! sha256 buf); [done|lia]. }
  assert (Hm : m !! sha256 buf = None) by (destruct (m !! sha256 buf); [lia|done]).
  set (r := new_rec s ARK_REC_BLOCK buf).
  assert (Hwf : wf_rec r).
  { split; [done|]. split; [apply u32_range|]. split; [done|]. simpl.
    change ARK_COMMIT_MAX with 19456. change ARK_BLOCK_MAX with 4096 in Hlen. lia. }
  assert (Hplr : plain (g_epoch s) r = true) by (rewrite <- Hpl; by apply plain_pay).
  assert (Hem : emitted s r (emit_record s ARK_REC_BLOCK buf (sha256 buf))).
  { apply emit_record_spec; try (rewrite ?Ebd; done); [apply B|apply Hwf|lia|lia]. }
  inversion Hem as [E|c j Hj Hi Hend _ E|c Hi Hend E]; clear Hem.
  - right. split_and!; [done|done|]. by eapply base_stored.
  - right. split_and!; [done|done|]. rewrite img_set_ctx by (by rewrite Ebd).
    apply (stored_same (stamp (g_epoch s) (img s) (g_head s) r j)); [by apply same_sym|].
    eapply base_undisturbed; [done|apply stamp_local; [done|lia]|].
    destruct (stamp_torn total (g_epoch s) ltac:(lia) (b_epoch _ _ _ _ _ _ B) (img s) (g_head s) r
      (b_quiet _ _ _ _ _ _ B) Hwf ltac:(lia) ltac:(lia) Hplr j Hj) as [Hq|(Hc & _)]; [done|done|done].
  - cbn [Z.eqb negb ARK_OK].
    set (s2 := set_head _ _).
    assert (Hix : g_ix s2 = g_ix s) by done.
    pose proof (blocks_snoc _ _ _ _ _ _ _ r (b_log _ _ _ _ _ _ B) (b_pend _ _ _ _ _ _ B) eq_refl) as Hbl.
    assert (Hsec : g_head s <> 0) by lia.
    assert (Hcap : g_idx_cap (g_ix s) <= ARK_IDX_SLOTS).
    { rewrite (b_cap _ _ _ _ _ _ B). unfold cap_of, ARK_IDX_SLOTS. destruct (Z.ltb_spec total 12288); lia. }
    destruct (add_rep _ _ (sha256 buf) (g_head s) R Hsec Hcap) as [R' Hc'].
    assert (B' : base (set_ix s2 (snd (idx_add (g_ix s) (sha256 buf) (g_head s)))) recs (pend ++ [r]) hc live mroot).
    { apply (base_append_block s); try done; [fold r; lia|by rewrite Hc', (b_cap _ _ _ _ _ _ B)|].
      fold r. rewrite Hbl, map_add_all_snoc. rewrite (b_cap _ _ _ _ _ _ B) in R'. exact R'. }
    rewrite Hix. pose proof (add_spec _ _ R (sha256 buf) (g_head s) Hsec Hcap) as Hadd. rewrite Hm in Hadd.
    destruct (Z.ltb_spec (g_idx_n (g_ix s)) (g_idx_cap (g_ix s))) as [Hn|Hn].
    + destruct Hadd as (ix' & Ha & _ & _). rewrite Ha in *. left. split_and!; try done.
      exists [r]. split_and!; [done|by repeat constructor|].
      rewrite Hbl, map_add_all_snoc. fold m. unfold map_add. change (l_pay r) with buf. rewrite Hm.
      rewrite (rep_size _ _ R), (b_cap _ _ _ _ _ _ B) in Hn. rewrite (proj2 (Z.ltb_lt _ _) Hn).
      rewrite lookup_insert_eq. done.
    + rewrite Hadd in *. right. split_and!; [done|done|]. by apply (base_stored _ _ _ _ _ _ B').
Qed.

(** ** One commit *)

Definition commit_rec (s : ark D) : lrec := new_rec s ARK_REC_COMMIT (serialize_live s).

(** The replica: the same payload, the next sequence number. *)
Definition replica_rec (s : ark D) : lrec := Rec ARK_REC_COMMIT (u32 (u32 (g_seq s + 1) + 1)) (serialize_live s).

(** The commit's sectors imitate no header, and no tear of either copy over
    what stands on the medium hashes like the whole. *)
Definition commit_safe (s : ark D) : bool :=
  let r := commit_rec s in
  plain (g_epoch s) r &&
  tear_safe (img s) total (g_epoch s) (g_head s) r &&
  tear_safe (stamp (g_epoch s) (img s) (g_head s) r (span r)) total (g_epoch s) (g_head s + span r) (replica_rec s).

Lemma base_append_commit s recs pend hc live mroot r c live' mroot' q :
  base s recs pend hc live mroot ->
  wf_rec r -> plain (g_epoch s) r = true -> g_head s + span r <= lim total ->
  same_image (image c) (stamp (g_epoch s) (img s) (g_head s) r (span r)) ->
  l_type r = ARK_REC_COMMIT -> parse_commit (l_pay r) ARK_MAX_FILES = (live', Some mroot') ->
  base (set_head (set_seq (set_ctx s c) q) (g_head s + span r))
    (recs ++ pend ++ [r]) [] (g_head s + span r) live' mroot'.
Proof.
  intros B Hwf Hpl He Hc Ht Hp. pose proof (base_attached _ _ _ _ _ _ B) as Hb.
  pose proof (base_bounds _ _ _ _ _ _ B) as [Hb1 Hb2]. pose proof (span_spec r Hwf) as [Hsp _].
  set (s' := set_head _ _).
  assert (Hi' : img s' = image c) by by apply img_set_ctx.
  assert (Hf : forall u, u < g_head s \/ lim total <= u -> image c u = img s u).
  { intros u Hu. rewrite Hc. apply stamp_local; [lia|lia|done]. }
  destruct (stamp_done total (g_epoch s) ltac:(lia) (b_epoch _ _ _ _ _ _ B) (img s) (g_head s) r
    (b_quiet _ _ _ _ _ _ B) Hwf ltac:(lia) He Hpl) as [Hl Hq].
  assert (Hl' : log_at total (g_epoch s) (image c) (g_head s) [r] (g_head s + span r))
    by (eapply log_frame; [exact Hl|intros; symmetry; apply Hc]).
  assert (Hq' : quiet total (g_epoch s) (image c) (g_head s + span r)).
  { intros t Ht'. rewrite (peek_same _ _ _ _ t Hc). by apply Hq. }
  destruct (base_committed _ _ _ _ _ _ B (image c) r live' mroot' Hf Hl' He Hq' Ht Hp) as [L1 L2 L3 L4].
  destruct B as [[c0 E] B2 B3 B4 B5 B6 B7 B8 B9 B10 B11 B12 B13 B14].
  split; rewrite ?Hi'; try done.
  - exists c. simpl. by rewrite E.
  - eapply super_frame; [done|symmetry; apply Hf; lia..].
  - constructor.
  - intros t Ht'. simpl in Ht'. lia.
  - rewrite app_nil_r, app_assoc, blocks_of_app. cbn [blocks_of]. rewrite Ht. simpl. by rewrite !app_nil_r.
Qed.

(** The effect of one commit emission on the medium. *)
Lemma emit_commit_outcome s recs pend hc live mroot live' mroot' pay :
  base s recs pend hc live mroot ->
  let r := new_rec s ARK_REC_COMMIT pay in
  wf_rec r -> plain (g_epoch s) r = true -> tear_safe (img s) total (g_epoch s) (g_head s) r = true ->
  parse_commit pay ARK_MAX_FILES = (live', Some mroot') ->
  let '((e, _), s') := emit_record s ARK_REC_COMMIT pay (sha256 pay) in
  same_tree s s' /\ g_bd s' <> None /\
  ((e = ARK_OK /\ base s' (recs ++ pend ++ [r]) [] (g_head s + span r) live' mroot' /\
      same_image (img s') (stamp (g_epoch s) (img s) (g_head s) r (span r)) /\
      g_head s' = g_head s + span r /\ g_seq s' = u32 (g_seq s + 1)) \/
   (e <> ARK_OK /\ (write_fails D \/ s' = s) /\
     (stored (img s') total (g_log_start s) (g_epoch s) live mroot \/
      stored (img s') total (g_log_start s) (g_epoch s) live' mroot'))).
Proof.
  intros B r Hwf Hpl Hts Hp. pose proof (base_attached _ _ _ _ _ _ B) as Hb.
  pose proof (base_bounds _ _ _ _ _ _ B) as [Hb1 Hb2]. pose proof (base_usable _ _ _ _ _ _ B) as Hue.
  assert (Hem : emitted s r (emit_record s ARK_REC_COMMIT pay (sha256 pay))).
  { apply emit_record_spec; try done; [apply B|apply Hwf|lia|lia]. }
  inversion Hem as [E|c j Hj Hi Hend Hwfl E|c Hi Hend E]; clear Hem.
  - split_and!; [done..|]. right. split_and!; [done|by right|]. left. by eapply base_stored.
  - split_and!; [done|by apply set_ctx_bd|]. right. split_and!; [done|by left|]. rewrite img_set_ctx by done.
    destruct (stamp_torn total (g_epoch s) ltac:(lia) (b_epoch _ _ _ _ _ _ B) (img s) (g_head s) r
      (b_quiet _ _ _ _ _ _ B) Hwf ltac:(lia) ltac:(lia) Hpl j Hj (fun _ => Hts)) as [Hq|(_ & Hl & Hq)].
    + left. apply (stored_same (stamp (g_epoch s) (img s) (g_head s) r j)); [by apply same_sym|].
      eapply base_undisturbed; [done|apply stamp_local; [done|lia]|done].
    + right. apply (stored_same (stamp (g_epoch s) (img s) (g_head s) r j)); [by apply same_sym|].
      eapply log_stores_stored; [done|apply stamp_local; [done|lia]|].
      eapply base_committed; try done; [apply stamp_local; [done|lia]|lia].
  - split_and!; [done|by apply set_ctx_bd|]. left. split; [done|].
    split; [apply (base_append_commit s recs pend hc live mroot r c); try done; lia|].
    split; [|done]. by rewrite <- (img_set_ctx s c Hb) in Hi.
Qed.

Lemma sync_img (s : ark D) : same_image (img (dev_sync s)) (img s).
Proof.
  intros t. unfold dev_sync, img, set_ctx. destruct (g_bd s) as [b|] eqn:E; cbn [g_bd]; [|by rewrite E].
  apply sync_image.
Qed.

Lemma sync_base s recs pend hc live mroot :
  base s recs pend hc live mroot -> base (dev_sync s) recs pend hc live mroot.
Proof.
  intros B. destruct (b_bd _ _ _ _ _ _ B) as [c E]. unfold dev_sync. rewrite E.
  apply base_set_disk; [done|]. intros t. unfold img. rewrite E. apply sync_image.
Qed.

Lemma sync_tree s : same_tree s (dev_sync s).
Proof. unfold dev_sync. by destruct (g_bd s). Qed.

(** [commit_live]: on success the medium stores the live table; on failure it
    stores it or what was committed before. *)
Lemma commit_outcome s recs pend hc live mroot rep :
  base s recs pend hc live mroot -> wf_tree (g_live s) (g_mroot s) -> commit_safe s = true ->
  let '(e, s') := commit_live_ex s rep in
  same_tree s s' /\
  ((e = ARK_OK /\ stored (img s') total (g_log_start s) (g_epoch s) (g_live s) (g_mroot s) /\
      (~ write_fails D -> exists recs' hc', base s' recs' [] hc' (g_live s) (g_mroot s) /\
         blocks_of (g_log_start s) recs' = blocks_of (g_log_start s) (recs ++ pend))) \/
   (e <> ARK_OK /\ (stored (img s') total (g_log_start s) (g_epoch s) live mroot \/
      stored (img s') total (g_log_start s) (g_epoch s) (g_live s) (g_mroot s)))).
Proof.
  intros B W Hsafe. unfold commit_safe in Hsafe. apply andb_true_iff in Hsafe as [[Hpl Ht1]%andb_true_iff Ht2].
  set (pay := serialize_live s). set (r := commit_rec s) in *.
  assert (Hwf : wf_rec r).
  { split; [done|]. split; [apply u32_range|]. split; [by apply serialize_bytes|by apply serialize_fits]. }
  assert (Hp : parse_commit pay ARK_MAX_FILES = (g_live s, Some (g_mroot s))) by by apply parse_serialize.
  unfold commit_live_ex. fold pay.
  pose proof (emit_commit_outcome s _ _ _ _ _ _ _ pay B Hwf Hpl Ht1 Hp) as Ho.
  destruct (emit_record s ARK_REC_COMMIT pay (sha256 pay)) as [[e st] s1].
  destruct Ho as (HT1 & Hbd1 & [(-> & B1 & Hi1 & Hh1 & Hq1)|(He & _ & Hst)]).
  2: { rewrite (proj2 (Z.eqb_neq _ _) He). cbn [negb]. split; [done|]. right. by split. }
  cbn [Z.eqb ARK_OK negb]. fold (new_rec s ARK_REC_COMMIT pay) in B1. fold r in B1.
  assert (Hbl : blocks_of (g_log_start s) (recs ++ pend ++ [r]) = blocks_of (g_log_start s) (recs ++ pend)).
  { rewrite app_assoc, (blocks_of_app _ (recs ++ pend)). simpl. by rewrite app_nil_r. }
  assert (HT1' := HT1). destruct HT1' as (_ & _ & E3 & E4).
  destruct rep.
  2: { split; [by eapply same_tree_trans, sync_tree|]. left. split; [done|]. split.
       - eapply stored_same; [apply same_sym, sync_img|]. pose proof (base_stored _ _ _ _ _ _ B1) as Hs1.
         by rewrite E3, E4 in Hs1.
       - intros _. do 2 eexists. split; [by apply sync_base|done]. }
  assert (Hr2 : new_rec s1 ARK_REC_COMMIT pay = replica_rec s) by (unfold new_rec, replica_rec; by rewrite Hq1).
  assert (Hwf2 : wf_rec (new_rec s1 ARK_REC_COMMIT pay)).
  { rewrite Hr2. destruct Hwf as (? & ? & ? & ?). split; [done|]. split; [apply u32_range|done]. }
  pose proof (emit_commit_outcome s1 _ _ _ _ _ (g_live s) (g_mroot s) pay B1 Hwf2) as Ho2.
  specialize (Ho2 ltac:(rewrite E3, <- Hpl; by apply plain_pay)).
  specialize (Ho2 ltac:(rewrite E3, Hh1, Hr2, <- Ht2; by apply tear_safe_same) Hp).
  destruct (emit_record s1 ARK_REC_COMMIT pay (sha256 pay)) as [[e2 st2] s2]. cbn [snd].
  destruct Ho2 as (HT2 & Hbd2 & Ho2). rewrite E3, E4 in Ho2.
  split; [eapply same_tree_trans; [exact HT1|]; eapply same_tree_trans; [exact HT2|apply sync_tree]|].
  left. split; [done|].
  destruct Ho2 as [(_ & B2 & _)|(_ & Hfail & Hst2)].
  - split.
    + eapply stored_same; [apply same_sym, sync_img|]. pose proof (base_stored _ _ _ _ _ _ B2) as Hs2.
      destruct HT2 as (_ & _ & F3 & F4). by rewrite F3, F4, E3, E4 in Hs2.
    + intros _. do 2 eexists. split; [by apply sync_base|]. rewrite <- Hbl. rewrite (blocks_of_app _ (recs ++ pend ++ [r])).
      simpl. by rewrite app_nil_r.
  - split.
    + eapply stored_same; [apply same_sym, sync_img|]. by destruct Hst2.
    + intros Hno. destruct Hfail as [Hx| ->]; [done|]. do 2 eexists. split; [by apply sync_base|done].
Qed.

End Crash.
