(* ===== verification/ArkPower.v ===== *)
(** * What a loss of power leaves of ARK

    The medium under a device with a write cache: which sectors an operation
    can touch there, and that a commit whose barrier succeeded is durable. *)

From stdpp Require Import gmap.
From S2P Require Import Prelude Sha256 ArkIndex ArkLog ArkDisk ArkFs ArkReplay ArkCrash.

Section Power.
Context {D : Type} `{BdevCache D}.

(** What may stand on the medium if the power goes now. *)
Definition remains (s : ark D) (im : array (list Z)) : Prop :=
  match g_bd s with None => False | Some b => survives (ctx b) im end.

(** Going from [s] to [s'], only sectors from [a] up to [b] were touched. *)
Definition confined (a b : Z) (s s' : ark D) : Prop :=
  forall im, remains s' im -> exists im0, remains s im0 /\ forall t, t < a \/ b <= t -> im t = im0 t.

#[global] Instance confined_preorder a b : PreOrder (confined a b).
Proof.
  split.
  - intros s im Him. by exists im.
  - intros s1 s2 s3 H12 H23 im Him. destruct (H23 im Him) as (im2 & K2' & E2).
    destruct (H12 im2 K2') as (im1 & K1' & E1). exists im1. split; [done|]. intros t Ht. by rewrite E2, E1.
Qed.

(** A change of the mounted state that leaves the device alone. *)
Lemma confined_same a b (s s' : ark D) : g_bd s' = g_bd s -> confined a b s s'.
Proof. intros E im. unfold remains. rewrite E. intros Him. by exists im. Qed.

Lemma write_confined a b (s : ark D) t x : a <= t < b -> confined a b s (snd (dev_write s t x)).
Proof.
  intros Ht im. unfold dev_write, remains. destruct (g_bd s) as [d|] eqn:E; [|simpl; by rewrite E].
  pose proof (survives_write (ctx d) t x im) as Hw. destruct (bd_write (ctx d) t x) as [ok c].
  cbn [snd set_ctx]. unfold set_ctx. rewrite E. cbn [g_bd ctx snd] in *. intros Him.
  destruct (Hw Him) as (im0 & K0 & Hs). exists im0. split; [done|]. intros u Hu. apply Hs. lia.
Qed.

Lemma sync_confined a b (s : ark D) : confined a b s (dev_sync s).
Proof.
  intros im. unfold dev_sync, remains. destruct (g_bd s) as [d|] eqn:E; [|by rewrite E].
  unfold set_ctx. rewrite E. cbn [g_bd ctx]. intros Him%survives_sync. by exists im.
Qed.

Lemma payload_confined a b n start pay : forall (s : ark D) k,
  a <= start + 1 + k -> start + 1 + k + Z.of_nat n <= b -> confined a b s (snd (emit_payload n s start pay k)).
Proof.
  induction n as [|n IH]; intros s k Ha Hb; cbn [emit_payload]; [done|].
  pose proof (write_confined a b s (start + 1 + k) (payload_sector pay k) ltac:(lia)) as Hw.
  destruct (dev_write s (start + 1 + k) (payload_sector pay k)) as [[] s1]; [|done].
  transitivity s1; [done|]. apply IH; lia.
Qed.

(** ** The log *)

(** The append point stands between [a] and the end of the log, [b]. *)
Record ready (a b : Z) (s : ark D) : Prop := {
  rd_start : 0 <= a;
  rd_head : a <= g_head s <= b;
  rd_end : ark_usable_end s = b;
  rd_small : b < 2 ^ 32 - 64;
  rd_override : g_log_end_override s = 0 }.

Definition appends (a b : Z) (s s' : ark D) : Prop := confined a b s s' /\ ready a b s'.

(** Device calls leave the mounted state alone. *)
Definition same_log (s s' : ark D) : Prop :=
  g_head s' = g_head s /\ ark_usable_end s' = ark_usable_end s /\ g_log_end_override s' = g_log_end_override s.

#[global] Instance same_log_preorder : PreOrder same_log.
Proof.
  split; [done|]. intros s1 s2 s3 (A1 & A2 & A3) (B1 & B2 & B3). unfold same_log. split_and!; congruence.
Qed.

Lemma ctx_same_log (s : ark D) c : same_log s (set_ctx s c).
Proof. split; [done|]. by rewrite set_ctx_end. Qed.

Lemma write_same_log (s : ark D) t x : same_log s (snd (dev_write s t x)).
Proof.
  unfold dev_write. destruct (g_bd s) as [d|]; [|done]. destruct (bd_write (ctx d) t x) as [ok c]. apply ctx_same_log.
Qed.

Lemma sync_same_log (s : ark D) : same_log s (dev_sync s).
Proof. unfold dev_sync. destruct (g_bd s) as [d|]; [apply ctx_same_log|done]. Qed.

Lemma payload_same_log n start pay : forall (s : ark D) k, same_log s (snd (emit_payload n s start pay k)).
Proof.
  induction n as [|n IH]; intros s k; cbn [emit_payload]; [done|].
  pose proof (write_same_log s (start + 1 + k) (payload_sector pay k)) as Hw.
  destruct (dev_write s (start + 1 + k) (payload_sector pay k)) as [[] s1]; [|done].
  by transitivity s1.
Qed.

Lemma ready_same a b (s s' : ark D) : same_log s s' -> ready a b s -> ready a b s'.
Proof. intros (E1 & E2 & E3) [R1 R2 R3 R4 R5]. split; by rewrite ?E1, ?E2, ?E3. Qed.

Lemma emit_appends a b (s : ark D) type pay id :
  ready a b s -> lenz pay <= ARK_COMMIT_MAX -> appends a b s (snd (emit_record s type pay id)).
Proof.
  intros R Hl. pose proof R as [R1 R2 R3 R4 R5]. unfold emit_record. rewrite R5, R3. cbn [Z.eqb]. cbv zeta.
  assert (Hp : 0 <= psects (lenz pay) <= 38) by (apply psects_spec; pose proof (lenz_nonneg pay); lia).
  unfold u32 at 1. rewrite Z.mod_small by lia.
  destruct (Z.ltb_spec b (g_head s + (1 + psects (lenz pay)))) as [|Hfit]; [done|].
  set (x := hdr_sector _ _ _ _ _).
  pose proof (write_confined a b s (g_head s) x ltac:(lia)) as Hw. pose proof (write_same_log s (g_head s) x) as Hf.
  destruct (dev_write s (g_head s) x) as [ok s1]. cbn [snd] in Hw, Hf.
  destruct ok; cbn [negb]; [|by split; [|by apply (ready_same _ _ s)]].
  pose proof (payload_confined a b (Z.to_nat (psects (lenz pay))) (g_head s) pay s1 0 ltac:(lia) ltac:(lia)) as Hw2.
  pose proof (payload_same_log (Z.to_nat (psects (lenz pay))) (g_head s) pay s1 0) as Hf2.
  destruct (emit_payload _ s1 _ _ _) as [ok s2]. cbn [snd] in Hw2, Hf2.
  assert (Hc : confined a b s s2) by (by transitivity s1). assert (Hs : same_log s s2) by (by transitivity s1).
  destruct ok; cbn [negb snd]; [|by split; [|by apply (ready_same _ _ s)]].
  split; [transitivity s2; [done|by apply confined_same]|].
  destruct Hs as (E1 & E2 & E3). split; [exact R1| |by etransitivity; [exact E2|]|done|by etransitivity; [exact E3|]].
  cbn [set_head set_seq g_head]. rewrite E1. rewrite (u32_small (g_head s + _)) by (unfold is_u32; lia). lia.
Qed.

Lemma appends_trans a b (s1 s2 s3 : ark D) : appends a b s1 s2 -> appends a b s2 s3 -> appends a b s1 s3.
Proof. intros [K1 _] [K2 R]. split; [by transitivity s2|done]. Qed.

(** A change of the table or the index in memory. *)
Lemma appends_memory a b (s s' : ark D) : ready a b s -> g_bd s' = g_bd s -> g_head s' = g_head s ->
  g_log_end_override s' = g_log_end_override s -> appends a b s s'.
Proof.
  intros R Eb Eh Eo. split; [by apply confined_same|]. apply (ready_same a b s); [|done].
  split; [done|]. split; [|done]. unfold ark_usable_end. by rewrite Eb.
Qed.

Lemma block_put_appends a b (s : ark D) buf : ready a b s -> appends a b s (snd (ark_block_put s buf)).
Proof.
  intros R. assert (Hrefl : appends a b s s) by (by apply appends_memory). unfold ark_block_put.
  destruct (negb (mounted s)); [done|]. destruct (Z.ltb_spec ARK_BLOCK_MAX (lenz buf)) as [|Hl]; [done|]. cbv zeta.
  destruct (0 <=? idx_find (g_ix s) (sha256 buf)); [done|].
  pose proof (emit_appends a b s ARK_REC_BLOCK buf (sha256 buf) R) as He.
  destruct (emit_record s ARK_REC_BLOCK buf (sha256 buf)) as [[r st] s1]. cbn [snd] in He.
  assert (K1 : appends a b s s1) by (apply He; change ARK_COMMIT_MAX with 19456; change ARK_BLOCK_MAX with 4096 in Hl; lia).
  destruct (negb (r =? ARK_OK)); [done|]. destruct (idx_add (g_ix s1) (sha256 buf) st) as [r2 ix]. cbn [snd].
  eapply appends_trans; [exact K1|]. apply appends_memory; [apply K1|done..].
Qed.

Lemma put_blocks_appends a b n buf len : forall (s : ark D) i,
  ready a b s -> appends a b s (snd (put_blocks n s buf len i)).
Proof.
  induction n as [|n IH]; intros s i R; cbn [put_blocks]; [by apply appends_memory|].
  pose proof (block_put_appends a b s (file_chunk buf len i) R) as Hb.
  destruct (ark_block_put s (file_chunk buf len i)) as [[r id] s1]. cbn [snd] in Hb.
  destruct (negb (r =? ARK_OK)); [done|]. pose proof (IH s1 (i + 1) (proj2 Hb)) as Hp.
  destruct (put_blocks n s1 buf len (i + 1)) as [[r2 ids] s2]. by eapply appends_trans.
Qed.

Lemma commit_appends a b (s : ark D) rep :
  ready a b s -> wf_tree (g_live s) (g_mroot s) -> appends a b s (snd (commit_live_ex s rep)).
Proof.
  intros R W. pose proof (serialize_fits s W) as Hl. unfold commit_live_ex. cbv zeta.
  pose proof (emit_appends a b s ARK_REC_COMMIT _ (sha256 (serialize_live s)) R Hl) as K1.
  destruct (emit_record s ARK_REC_COMMIT (serialize_live s) (sha256 (serialize_live s))) as [[r st] s1]. cbn [snd] in K1.
  destruct (negb (r =? ARK_OK)); [done|]. cbn [snd]. set (s2 := if rep then _ else s1).
  assert (K2 : appends a b s1 s2).
  { unfold s2. destruct rep; [by apply emit_appends; [apply K1|]|by apply appends_memory; [apply K1|..]]. }
  eapply appends_trans; [exact K1|]. eapply appends_trans; [exact K2|].
  split; [apply sync_confined|]. eapply ready_same; [apply sync_same_log|apply K2].
Qed.

(** ** The barrier *)

(** A commit that returned [ARK_OK] ends with the barrier: if the barriers of
    the device succeed, the medium holds what the host reads. *)
Lemma commit_durable (s : ark D) rep im :
  (forall d : D, fst (bd_sync d) = true) -> fst (commit_live_ex s rep) = ARK_OK ->
  remains (snd (commit_live_ex s rep)) im -> same_image im (img (snd (commit_live_ex s rep))).
Proof.
  intros Hs. unfold commit_live_ex. cbv zeta.
  destruct (emit_record s ARK_REC_COMMIT (serialize_live s) (sha256 (serialize_live s))) as [[r st] s1].
  destruct (Z.eqb_spec r ARK_OK) as [_|Hr]; cbn [negb fst snd]; [intros _|done].
  generalize (if rep then snd (emit_record s1 ARK_REC_COMMIT (serialize_live s) (sha256 (serialize_live s))) else s1).
  intros s2 Hr t. rewrite sync_img. revert Hr. unfold remains, dev_sync, img. destruct (g_bd s2) as [d|] eqn:E; [|by rewrite E].
  unfold set_ctx. rewrite E. cbn [g_bd ctx]. intros Him. by apply (survives_synced (ctx d)).
Qed.

(** ** Settled *)

(** In sync, and the medium holds everything up to the last commit: only
    sectors behind it may still be lost. *)
Definition settled (total : Z) (s : ark D) : Prop :=
  wf_tree (g_live s) (g_mroot s) /\
  exists recs pend hc, base total s recs pend hc (g_live s) (g_mroot s) /\
    forall im t, remains s im -> t < hc \/ lim total <= t -> im t = img s t.

Lemma settled_synced total s : settled total s -> synced total s.
Proof. intros (W & recs & pend & hc & B & _). split; [done|]. by exists recs, pend, hc. Qed.

Lemma base_ready total (s : ark D) recs pend hc live mroot :
  4 <= total < 2 ^ 32 - 64 -> base total s recs pend hc live mroot -> ready hc (lim total) s.
Proof.
  intros Ht B. pose proof (base_bounds _ _ _ _ _ _ _ B) as [Hb1 Hb2]. split; [lia|lia| |rewrite lim_eq; lia|apply B].
  by apply (base_usable _ _ _ _ _ _ _ B).
Qed.

(** A commit that verifies on the medium verified before at its place, or is
    the commit [new]. *)
Definition unforged (total ep : Z) (im0 im : array (list Z)) (new : option (list Z)) : Prop :=
  forall t v, 0 <= t -> peek im total ep t = Some v -> valid_commit (Some v) = true ->
    peek im0 total ep t = Some v \/ new = Some (rv_pay v).

(** Whatever was lost behind the last commit: a mount yields that commit's
    table, or the new one's. *)
Lemma power_cut total (s s' : ark D) recs pend hc live mroot im new live' (s0 : ark ram) :
  4 <= total < 2 ^ 32 - 64 -> base total s recs pend hc live mroot ->
  (forall im t, remains s im -> t < hc \/ lim total <= t -> im t = img s t) ->
  confined hc (lim total) s s' -> remains s' im ->
  unforged total (g_epoch s) (img s) im new ->
  (forall pay, new = Some pay -> parse_commit pay ARK_MAX_FILES = (live', Some mroot)) ->
  exists m, ark_mount s0 (Bd ARK_SECTOR total im) = (ARK_OK, m) /\ g_mroot m = mroot /\
    (g_live m = live \/ (new <> None /\ g_live m = live')).
Proof.
  intros Ht B Hd Hc Hr Hu Hp. pose proof (base_bounds _ _ _ _ _ _ _ B) as [Hb1 Hb2].
  assert (Him : forall t, t < hc \/ lim total <= t -> im t = img s t).
  { intros t Htt. destruct (Hc im Hr) as (im0 & K0 & E). by rewrite E, (Hd im0). }
  assert (Hsup : super_is im total (g_log_start s) (g_epoch s))
    by (eapply super_frame; [apply B|symmetry; apply Him; lia..]).
  assert (Hlog : log_at total (g_epoch s) im (g_log_start s) recs hc)
    by (eapply log_frame; [apply B|intros u Hu'; symmetry; apply Him; lia]).
  assert (Hq : quiet total (g_epoch s) (img s) hc) by (eapply calm_quiet; apply B).
  assert (Hv : forall t v, hc <= t -> peek im total (g_epoch s) t = Some v -> valid_commit (Some v) = true -> new = Some (rv_pay v)).
  { intros t v Htt Hv Hok. destruct (Hu t v ltac:(lia) Hv Hok) as [Hold|]; [|done]. pose proof (Hq t Htt) as Hf. by rewrite Hold, Hok in Hf. }
  set (live2 := match new with Some _ => live' | None => live end).
  destruct (mount_mixed im total (g_log_start s) (g_epoch s) recs hc live mroot live2 mroot s0 Hsup Hlog ltac:(lia)
    (b_last _ _ _ _ _ _ _ B)) as (m & Hm & [[E1 E2]|[E1 E2]]).
  - intros t v Htt Hpk Hok. specialize (Hv t v Htt Hpk Hok). unfold live2. rewrite Hv. by apply Hp.
  - exists m. by split_and!; [| |left].
  - exists m. split_and!; [done|done|]. unfold live2 in E1. destruct new; [by right|by left].
Qed.

End Power.
