(* ===== verification/ArkOps.v ===== *)
(** * ARK's operations against the crash specification

    Every committing operation stages a new live table and commits it. The
    specification: whatever writes fail, a mount of the medium afterwards
    yields the table before the call or the staged one, and the staged one if
    the call returned [ARK_OK]. *)

From stdpp Require Import gmap.
From S2P Require Import Prelude Sha256 ArkIndex ArkLog ArkDisk ArkFs ArkReplay ArkCrash ArkPower.

(** ** Rows stay well-formed *)

Lemma cstr_length l : (length (cstr l) <= length l)%nat.
Proof. induction l as [|c r IH]; simpl; [lia|]. destruct (c =? 0); simpl; lia. Qed.

Lemma cstr_bytes l : Forall is_u8 l -> Forall is_u8 (cstr l).
Proof. induction 1 as [|c r Hc Hr IH]; simpl; [constructor|]. destruct (c =? 0); [constructor|by constructor]. Qed.

Lemma replicate_bytes n : Forall is_u8 (replicate n 0).
Proof. apply Forall_replicate. done. Qed.

Lemma pad_to_bytes n l : Forall is_u8 l -> Forall is_u8 (pad_to n l).
Proof. intros Hl. unfold pad_to. apply Forall_app; split; [by apply Forall_take|apply replicate_bytes]. Qed.

#[export] Hint Resolve cstr_bytes replicate_bytes pad_to_bytes Forall_take : machine.

(** The bytes of an entry, field by field. *)
Lemma enc_dent_bytes d :
  Forall is_u8 (enc_dent d) <->
  Forall is_u8 (name d) /\ is_u8 (is_dir d) /\ Forall is_u8 (dpad d) /\ Forall is_u8 (concat (blk d)).
Proof.
  unfold enc_dent. rewrite !Forall_app, Forall_singleton. split.
  - intros (? & ? & ? & _ & _ & _ & ?). done.
  - intros (? & ? & ? & ?). split_and!; auto with machine.
Qed.

Lemma new_row_wf path d : Forall is_u8 path -> is_u8 d -> wf_dent (new_row path d).
Proof.
  intros Hp Hd.
  assert (Hn : length (ark_strncpy path ARK_NAME_MAX) = 64%nat) by apply pad_to_length.
  split; try done.
  - by repeat constructor.
  - apply enc_dent_bytes. split_and!; [|done|by repeat constructor|].
    + apply pad_to_bytes, Forall_take. auto with machine.
    + change (concat (blk (new_row path d))) with (replicate 512 0). apply replicate_bytes.
Qed.

Lemma set_version_wf d v : wf_dent d -> is_u32 v -> wf_dent (set_version d v).
Proof.
  intros [W1 W2 W3 W4 W5 W6 W7 W8] Hv. apply enc_dent_bytes in W8 as (? & ? & ? & ?).
  split; try done. by apply enc_dent_bytes.
Qed.

Lemma ids_concat_bytes (ids : list (list Z)) : Forall (Forall is_u8) ids -> Forall is_u8 (concat ids).
Proof. induction 1; [constructor|]. cbn [concat]. by apply Forall_app. Qed.

Lemma concat_drop_bytes n (ids : list (list Z)) : Forall is_u8 (concat ids) -> Forall is_u8 (concat (drop n ids)).
Proof.
  revert n; induction ids as [|x l IH]; intros n Hl; [by rewrite drop_nil|].
  destruct n; [done|]. cbn [concat] in Hl. apply Forall_app in Hl as [_ Hl]. by apply IH.
Qed.

Lemma set_blocks_wf d len n ids :
  wf_dent d -> is_u32 len -> is_u32 n -> (length ids <= 16)%nat ->
  Forall (fun i => length i = 32%nat) ids -> Forall (Forall is_u8) ids -> wf_dent (set_blocks d len n ids).
Proof.
  intros [W1 W2 W3 W4 W5 W6 W7 W8] Hl Hn Hi H32 Hb. apply enc_dent_bytes in W8 as (N & _ & P & C).
  split; try done.
  - simpl. rewrite length_app, length_drop, W6. lia.
  - simpl. apply Forall_app; split; [done|by apply Forall_drop].
  - apply enc_dent_bytes. simpl. split_and!; try done.
    rewrite concat_app. apply Forall_app; split; [by apply ids_concat_bytes|by apply concat_drop_bytes].
Qed.

Lemma find_row_range l path i : i <= find_row l path i < i + lenz l \/ find_row l path i = -1.
Proof.
  revert i; induction l as [|d l IH]; intros i; simpl; [by right|].
  unfold lenz in *. cbn [length]. destruct (ark_streq _ _); [left; lia|]. destruct (IH (i + 1)); [left; lia|by right].
Qed.

Lemma live_find_range {D} (s : ark D) path : 0 <= live_find s path < lenz (g_live s) \/ live_find s path = -1.
Proof. apply (find_row_range (g_live s) path 0). Qed.

Lemma row_wf {D} (s : ark D) e : Forall wf_dent (g_live s) -> 0 <= e < lenz (g_live s) -> wf_dent (row s e).
Proof.
  intros Hl He. unfold row, getz, lenz in *. rewrite (proj2 (Z.ltb_ge e 0)) by lia.
  apply Forall_nth; [done|]. lia.
Qed.

(** ** The operations *)

Inductive ark_op :=
  | OpWrite (path buf : list Z)
  | OpMkdir (path : list Z)
  | OpUnlink (path : list Z)
  | OpCheckpoint
  | OpBlockPut (buf : list Z).

Definition wf_op (op : ark_op) : Prop :=
  match op with
  | OpWrite path buf => Forall is_u8 path /\ Forall is_u8 buf /\ lenz buf < 2 ^ 32 - 4096
  | OpMkdir path => Forall is_u8 path
  | OpBlockPut buf => Forall is_u8 buf
  | _ => True
  end.

Section Ops.
Context {D : Type} `{BdevLaws D} (total : Z) (Htotal : 4 <= total < 2 ^ 32 - 64).

Definition run_op (s : ark D) (op : ark_op) : Z * ark D :=
  match op with
  | OpWrite path buf => ark_write_file s path buf (lenz buf)
  | OpMkdir path => ark_mkdir s path
  | OpUnlink path => ark_unlink s path
  | OpCheckpoint => ark_checkpoint s
  | OpBlockPut buf => let '((r, _), s) := ark_block_put s buf in (r, s)
  end.

(** The state an operation hands to [commit_live], [None] when it returns
    before: then the code and the state it returns. *)
Definition staged (s : ark D) (op : ark_op) : (Z * ark D) + ark D :=
  match op with
  | OpWrite path buf =>
      if ARK_NAME_MAX <? ark_strlen path + 1 then inl (ARK_E_INVAL, s)
      else if ARK_MAX_BLK <? file_blocks (lenz buf) then inl (ARK_E_TOOBIG, s)
      else
        let '((r, ids), s1) := put_blocks (Z.to_nat (file_blocks (lenz buf))) s buf (lenz buf) 0 in
        if negb (r =? ARK_OK) then inl (r, s1)
        else match update_rows s1 path (lenz buf) (file_blocks (lenz buf)) ids with
        | None => inl (ARK_E_FULL, s1)
        | Some rows => inr (set_live s1 rows)
        end
  | OpMkdir path =>
      if ARK_NAME_MAX <? ark_strlen path + 1 then inl (ARK_E_INVAL, s)
      else if 0 <=? live_find s path then inl (ARK_E_INVAL, s)
      else if ARK_MAX_FILES <=? lenz (g_live s) then inl (ARK_E_FULL, s)
      else inr (set_live s (g_live s ++ [new_row path 1]))
  | OpUnlink path =>
      if live_find s path <? 0 then inl (ARK_E_NOTFOUND, s)
      else inr (set_live s (delete (Z.to_nat (live_find s path)) (g_live s)))
  | OpCheckpoint => inr s
  | OpBlockPut buf => inl (let '((r, _), s) := ark_block_put s buf in (r, s))
  end.

Lemma run_staged (s : ark D) op :
  g_bd s <> None ->
  run_op s op = match staged s op with inl rs => rs | inr s1 => commit_live s1 end.
Proof.
  intros Hb. assert (Hm : mounted s = true) by (unfold mounted; by destruct (g_bd s)).
  destruct op as [path buf|path|path| |buf]; cbn [run_op staged];
    unfold ark_write_file, ark_mkdir, ark_unlink, ark_checkpoint; rewrite ?Hm; cbn [negb]; try done.
  - destruct (_ <? _); [done|]. cbv zeta. destruct (_ <? _); [done|].
    destruct (put_blocks _ _ _ _ _) as [[r ids] s1]. destruct (negb _); [done|].
    by destruct (update_rows _ _ _ _ _).
  - destruct (_ <? _); [done|]. destruct (_ <=? _); [done|]. by destruct (_ <=? _).
  - cbv zeta. by destruct (_ <? _).
Qed.

(** The live table an operation intends, when it gets as far as a commit. *)
Definition intended (s : ark D) (op : ark_op) : option (list ark_dent) :=
  match staged s op with inl _ => None | inr s1 => Some (g_live s1) end.

(** No data sector imitates a record header, and no tear of the commit
    hashes like the commit. *)
Definition data_plain (ep : Z) (op : ark_op) : bool :=
  match op with
  | OpWrite _ buf =>
      forallb (fun k => plain ep (Rec ARK_REC_BLOCK 0 (file_chunk buf (lenz buf) k))) (seqZ 0 (file_blocks (lenz buf)))
  | OpBlockPut buf => plain ep (Rec ARK_REC_BLOCK 0 buf)
  | _ => true
  end.
Definition op_safe (s : ark D) (op : ark_op) : bool :=
  data_plain (g_epoch s) op &&
  match staged s op with inl _ => true | inr s1 => commit_safe total s1 end.

(** ** The blocks of a file *)

Lemma file_blocks_spec len :
  0 <= len < 2 ^ 32 - 4096 ->
  0 <= file_blocks len /\ 4096 * file_blocks len - 4095 <= len <= 4096 * file_blocks len /\ (len = 0 <-> file_blocks len = 0).
Proof.
  intros Hl. unfold file_blocks, ARK_BLOCK_MAX. destruct (Z.eqb_spec len 0); [lia|].
  unfold u32. rewrite Z.mod_small by lia.
  pose proof (Z.div_mod (len + 4096 - 1) 4096 ltac:(lia)). pose proof (Z.mod_pos_bound (len + 4096 - 1) 4096 ltac:(lia)).
  lia.
Qed.

Lemma file_chunk_len buf k :
  0 <= k -> 4096 * k <= lenz buf < 2 ^ 32 - 4096 ->
  lenz (file_chunk buf (lenz buf) k) = Z.min 4096 (lenz buf - 4096 * k) /\
  file_chunk buf (lenz buf) k = take 4096 (drop (Z.to_nat (4096 * k)) buf).
Proof.
  intros Hk Hl. unfold file_chunk, ARK_BLOCK_MAX. cbv zeta. unfold u32. rewrite Z.mod_small by lia.
  rewrite (Z.mul_comm k). unfold lenz in *.
  destruct (Z.ltb_spec (Z.of_nat (length buf) - 4096 * k) 4096); rewrite length_take, length_drop; (split; [lia|]).
  - rewrite !firstn_all2; [done| |]; rewrite length_drop; lia.
  - done.
Qed.

Lemma map_add_mono cap m id id' sec : is_Some (m !! id) -> is_Some (map_add cap m id' sec !! id).
Proof.
  intros Hm. unfold map_add. destruct (m !! id') eqn:E; [done|]. destruct (_ <? _); [|done].
  rewrite lookup_insert_ne; [done|]. intros ->. rewrite E in Hm. by destruct Hm.
Qed.
Lemma map_add_all_mono cap l m id : is_Some (m !! id) -> is_Some (map_add_all cap m l !! id).
Proof.
  revert m; induction l as [|[id' sec] l IH]; intros m Hm; [done|]. apply IH. by apply map_add_mono.
Qed.

Definition block_ids (buf : list Z) (i : Z) (n : nat) : list (list Z) :=
  map (fun k => sha256 (file_chunk buf (lenz buf) k)) (seqZ i (Z.of_nat n)).

(** The block loop: every chunk ends up indexed, nothing committed moves. *)
Lemma put_blocks_outcome n buf : forall s recs pend hc live mroot i,
  base total s recs pend hc live mroot -> Forall is_u8 buf -> lenz buf < 2 ^ 32 - 4096 ->
  0 <= i -> i + Z.of_nat n <= file_blocks (lenz buf) ->
  (forall k, i <= k < i + Z.of_nat n -> plain (g_epoch s) (Rec ARK_REC_BLOCK 0 (file_chunk buf (lenz buf) k)) = true) ->
  let '((r, ids), s') := put_blocks n s buf (lenz buf) i in
  same_tree s s' /\
  ((r = ARK_OK /\ ids = block_ids buf i n /\ exists pend',
      base total s' recs (pend ++ pend') hc live mroot /\
      Forall (fun r => exists k, i <= k < i + Z.of_nat n /\ l_pay r = file_chunk buf (lenz buf) k) pend' /\
      Forall (fun id => is_Some (map_add_all (cap_of total) ∅ (blocks_of (g_log_start s) (recs ++ pend ++ pend')) !! id)) ids) \/
   (r <> ARK_OK /\ stored (img s') total (g_log_start s) (g_epoch s) live mroot)).
Proof.
  induction n as [|n IH]; intros s recs pend hc live mroot i B Hbuf Hlen Hi Hn Hpl; cbn [put_blocks].
  { split; [done|]. left. split_and!; [done|done|]. exists []. rewrite !app_nil_r. split; [done|]. by split. }
  pose proof (file_blocks_spec (lenz buf) ltac:(pose proof (lenz_nonneg buf); lia)) as (F1 & F2 & F3).
  destruct (file_chunk_len buf i Hi ltac:(lia)) as [Hcl Hce].
  assert (Hcb : Forall is_u8 (file_chunk buf (lenz buf) i)) by (rewrite Hce; by apply Forall_take, Forall_drop).
  pose proof (block_put_outcome total Htotal s recs pend hc live mroot (file_chunk buf (lenz buf) i) B Hcb
    ltac:(rewrite Hcl; unfold ARK_BLOCK_MAX; lia) (Hpl i ltac:(lia))) as Ho.
  destruct (ark_block_put s (file_chunk buf (lenz buf) i)) as [[r id] s1].
  destruct Ho as [(-> & -> & HT & p1 & B1 & Hp1 & Hin)|(Hr & HT & Hst)].
  2: { rewrite (proj2 (Z.eqb_neq _ _) Hr). cbn [negb]. split; [done|]. by right. }
  cbn [Z.eqb ARK_OK negb]. destruct HT as (T1 & T2 & T3 & T4).
  pose proof (IH s1 recs (pend ++ p1) hc live mroot (i + 1) B1 Hbuf Hlen ltac:(lia) ltac:(lia)
    ltac:(intros k Hk; rewrite T3; apply Hpl; lia)) as Ho2.
  destruct (put_blocks n s1 buf (lenz buf) (i + 1)) as [[r2 ids2] s2].
  destruct Ho2 as (HT2 & Ho2). rewrite T3, T4 in Ho2.
  split; [by eapply same_tree_trans; [|exact HT2]|].
  destruct Ho2 as [(-> & -> & p2 & B2 & Hp2 & Hin2)|(Hr & Hst)]; [|by right]. left.
  split; [done|]. split.
  { unfold block_ids. rewrite Nat2Z.inj_succ, (seqZ_cons i) by lia. cbn [map].
    by rewrite Z.pred_succ. }
  exists (p1 ++ p2). split; [by rewrite app_assoc|]. split.
  - apply Forall_app; split.
    + eapply Forall_impl; [|exact Hp1]. intros x Hx. exists i. split; [lia|done].
    + eapply Forall_impl; [|exact Hp2]. intros x (k & Hk & Hx). exists k. split; [lia|done].
  - rewrite <- (app_assoc pend) in Hin2. constructor; [|done].
    replace (recs ++ pend ++ p1 ++ p2) with ((recs ++ pend ++ p1) ++ p2) by by rewrite <- !app_assoc.
    rewrite blocks_of_app. unfold map_add_all. rewrite fold_left_app. by apply map_add_all_mono.
Qed.

Lemma update_rows_wf (s : ark D) path (buf : list Z) n ids rows :
  wf_tree (g_live s) (g_mroot s) -> Forall is_u8 path -> is_u32 (lenz buf) ->
  0 <= n <= ARK_MAX_BLK -> (length ids <= 16)%nat ->
  Forall (fun i => length i = 32%nat) ids -> Forall (Forall is_u8) ids ->
  update_rows s path (lenz buf) n ids = Some rows -> wf_tree rows (g_mroot s).
Proof.
  intros [T1 T2 T3 T4] Hp Hb Hn Hi H32 Hby. unfold update_rows. cbv zeta.
  assert (Hn' : is_u32 n) by (unfold is_u32, ARK_MAX_BLK in *; lia).
  destruct (live_find_range s path) as [Hr| ->].
  - destruct (Z.ltb_spec (live_find s path) 0); [lia|]. intros [= <-].
    pose proof (row_wf s _ T1 Hr) as Hw. split; try done.
    + apply setz_Forall; [done|]. apply set_blocks_wf; try done. apply set_version_wf; [done|apply u32_range].
    + unfold lenz. by rewrite setz_length.
  - simpl. destruct (Z.leb_spec ARK_MAX_FILES (lenz (g_live s))) as [|Hc]; [done|]. intros [= <-]. split; try done.
    + apply Forall_app; split; [done|]. constructor; [|constructor].
      apply set_blocks_wf; try done. by apply new_row_wf.
    + unfold lenz in *. rewrite length_app. simpl. lia.
Qed.

Lemma block_ids_wf buf i n :
  length (block_ids buf i n) = n /\ Forall (fun i => length i = 32%nat) (block_ids buf i n) /\
  Forall (Forall is_u8) (block_ids buf i n).
Proof.
  unfold block_ids. rewrite length_map, length_seqZ, Nat2Z.id. split; [done|].
  split; apply Forall_map, Forall_forall; intros k _; [apply sha256_length|apply sha256_bytes].
Qed.

(** What an operation hands to the commit, or leaves behind without one. *)
Lemma staged_outcome (s : ark D) op recs pend hc :
  wf_tree (g_live s) (g_mroot s) -> base total s recs pend hc (g_live s) (g_mroot s) ->
  wf_op op -> data_plain (g_epoch s) op = true ->
  match staged s op with
  | inl (r, s') => same_tree s s' /\ stored (img s') total (g_log_start s) (g_epoch s) (g_live s) (g_mroot s)
  | inr s1 =>
      wf_tree (g_live s1) (g_mroot s1) /\ g_mroot s1 = g_mroot s /\ g_epoch s1 = g_epoch s /\
      g_log_start s1 = g_log_start s /\
      exists pend', base total s1 recs (pend ++ pend') hc (g_live s) (g_mroot s)
  end.
Proof.
  intros W B Hop Hpl. pose proof (base_stored total Htotal _ _ _ _ _ _ B) as Hst.
  destruct op as [path buf|path|path| |buf]; cbn [staged wf_op data_plain] in *.
  - destruct Hop as (Hp & Hbuf & Hlen). destruct (_ <? _); [done|].
    pose proof (file_blocks_spec (lenz buf) ltac:(pose proof (lenz_nonneg buf); lia)) as (F1 & F2 & F3).
    destruct (Z.ltb_spec ARK_MAX_BLK (file_blocks (lenz buf))) as [|Hmax]; [done|].
    set (n := Z.to_nat (file_blocks (lenz buf))).
    pose proof (put_blocks_outcome n buf s recs pend hc _ _ 0 B Hbuf Hlen ltac:(lia) ltac:(lia)) as Ho.
    specialize (Ho ltac:(intros k Hk; rewrite forallb_forall in Hpl; apply Hpl, list_elem_of_In, elem_of_seqZ; lia)).
    destruct (put_blocks n s buf (lenz buf) 0) as [[r ids] s1].
    destruct Ho as (HT & [(-> & -> & p & B1 & _)|(Hr & Hs1)]).
    2: { by rewrite (proj2 (Z.eqb_neq _ _) Hr). }
    cbn [Z.eqb ARK_OK negb]. destruct HT as (T1 & T2 & T3 & T4).
    destruct (block_ids_wf buf 0 n) as (I1 & I2 & I3).
    destruct (update_rows s1 path (lenz buf) (file_blocks (lenz buf)) (block_ids buf 0 n)) as [rows|] eqn:E.
    + split; [|split_and!; [done..|exists p; by apply base_set_live]].
      eapply (update_rows_wf s1 path buf); [by rewrite T1, T2|done| |done| |done|done|exact E].
      * unfold is_u32. pose proof (lenz_nonneg buf). lia.
      * rewrite I1. unfold n, ARK_MAX_BLK in *. lia.
    + split; [done|]. pose proof (base_stored total Htotal _ _ _ _ _ _ B1) as Hs1. by rewrite T3, T4 in Hs1.
  - destruct (_ <? _); [done|]. destruct (_ <=? _); [done|].
    destruct (Z.leb_spec ARK_MAX_FILES (lenz (g_live s))) as [|Hc]; [done|].
    destruct W as [T1 T2 T3 T4]. split; [|split_and!; [done..|exists []; rewrite app_nil_r; by apply base_set_live]].
    split; try done; cbn [set_live g_live g_mroot].
    + apply Forall_app; split; [done|]. constructor; [by apply new_row_wf|constructor].
    + unfold lenz in *. rewrite length_app. simpl. lia.
  - destruct (_ <? _); [done|].
    destruct W as [T1 T2 T3 T4]. split; [|split_and!; [done..|exists []; rewrite app_nil_r; by apply base_set_live]].
    split; try done; cbn [set_live g_live g_mroot].
    + by apply Forall_delete.
    + unfold lenz in *. rewrite delete_take_drop, length_app, length_take, length_drop. lia.
  - split; [done|]. split_and!; [done..|]. exists []. by rewrite app_nil_r.
  - destruct (Z.ltb_spec ARK_BLOCK_MAX (lenz buf)) as [Hbig|Hsmall].
    + assert (ark_block_put s buf = ((ARK_E_TOOBIG, []), s)) as ->; [|done].
      unfold ark_block_put, mounted. destruct (b_bd _ _ _ _ _ _ _ B) as [c ->].
      cbn [negb]. by rewrite (proj2 (Z.ltb_lt _ _) Hbig).
    + pose proof (block_put_outcome total Htotal s recs pend hc _ _ buf B Hop Hsmall Hpl) as Ho.
      destruct (ark_block_put s buf) as [[r id] s1].
      destruct Ho as [(_ & _ & HT & p & B1 & _)|(_ & HT & Hs1)]; (split; [done|]); [|done].
      destruct HT as (T1 & T2 & T3 & T4).
      pose proof (base_stored total Htotal _ _ _ _ _ _ B1) as Hs1. by rewrite T3, T4 in Hs1.
Qed.

End Ops.

(** ** Mounting what is stored *)

Lemma mount_stored im total st ep live mroot (s0 : ark ram) :
  stored im total st ep live mroot -> wf_tree live mroot -> g_log_end_override s0 = 0 ->
  exists m, ark_mount s0 (Bd ARK_SECTOR total im) = (ARK_OK, m) /\
    g_live m = live /\ g_mroot m = mroot /\ g_log_start m = st /\ g_epoch m = ep /\ synced total m.
Proof.
  intros [S1 S2 S3 S4 (recs & h & L)] W Ho.
  destruct (mount_log im total st ep recs h live mroot s0 S1 S2 S3 S4 L)
    as (m & Hm & M1 & M2 & M3 & M4 & M5 & M6 & M7 & M8 & M9 & M10).
  exists m. split; [done|]. split_and!; try done. split; [by rewrite M2, M3|].
  assert (Hi : img m = im) by (unfold img; by rewrite M1).
  exists recs, [], h. rewrite M2, M3. destruct L as [L1 L2 L3 L4].
  split; rewrite ?Hi, ?M4, ?M5, ?M6; try done.
  - by exists im.
  - by rewrite M8.
  - constructor.
  - intros t Ht. lia.
  - by rewrite app_nil_r.
Qed.

Section Cut.
Context {D : Type} `{BdevLaws D} (total : Z) (Htotal : 4 <= total < 2 ^ 32 - 64).
Context (s : ark D) (op : ark_op) (Hop : wf_op op) (Hsafe : op_safe total s op = true).

(** The medium as the host reads it stores the table before the call or the
    intended one, the intended one after [ARK_OK]. *)
Lemma outcome_stored recs pend hc :
  wf_tree (g_live s) (g_mroot s) -> base total s recs pend hc (g_live s) (g_mroot s) ->
  let '(r, s') := run_op s op in
  exists live, wf_tree live (g_mroot s) /\
    stored (img s') total (g_log_start s) (g_epoch s) live (g_mroot s) /\
    (live = g_live s \/ intended s op = Some live) /\
    (r = ARK_OK -> forall rows, intended s op = Some rows -> live = rows).
Proof.
  intros W B. pose proof Hsafe as Hsf. unfold op_safe in Hsf. apply andb_true_iff in Hsf as [Hpl Hc].
  pose proof (staged_outcome total Htotal s op recs pend hc W B Hop Hpl) as Ho.
  rewrite run_staged by by eapply base_attached. unfold intended.
  destruct (staged s op) as [[r s']|s1].
  - destruct Ho as (_ & Hst). exists (g_live s). split_and!; try done. by left.
  - destruct Ho as (W1 & E1 & E2 & E3 & p & B1).
    pose proof (commit_outcome total Htotal s1 _ _ _ _ _ true B1 W1 Hc) as Hco. unfold commit_live.
    destruct (commit_live_ex s1 true) as [r s']. rewrite E1, E2, E3 in Hco. rewrite E1 in W1.
    destruct Hco as (_ & [(-> & Hst & _)|(Hr & [Hst|Hst])]).
    + exists (g_live s1). split_and!; [done|done|by right|by intros _ rows [= <-]].
    + exists (g_live s). split_and!; [done|done|by left|done].
    + exists (g_live s1). split_and!; [done|done|by right|done].
Qed.

End Cut.

Section Lost.
Context {D : Type} `{BdevCache D} (total : Z) (Htotal : 4 <= total < 2 ^ 32 - 64).

(** The payload of the commit an operation writes, when it gets that far. *)
Definition commit_of (s : ark D) (op : ark_op) : option (list Z) :=
  match staged s op with inl _ => None | inr s1 => Some (serialize_live s1) end.

Lemma staged_appends a b (s : ark D) op : ready a b s ->
  appends a b s (match staged s op with inl (_, s') => s' | inr s1 => s1 end).
Proof.
  intros R. assert (Hm : forall rows, appends a b s (set_live s rows)) by (intros; by apply appends_memory).
  assert (Hrefl : appends a b s s) by by apply appends_memory.
  destruct op as [path buf|path|path| |buf]; cbn [staged].
  - destruct (_ <? _); [done|]. destruct (_ <? _); [done|].
    pose proof (put_blocks_appends a b (Z.to_nat (file_blocks (lenz buf))) buf (lenz buf) s 0 R) as Hp.
    destruct (put_blocks _ s buf (lenz buf) 0) as [[r ids] s1]. cbn [snd] in Hp.
    destruct (negb _); [done|]. destruct (update_rows _ _ _ _ _) as [rows|]; [|done].
    eapply appends_trans; [exact Hp|]. apply appends_memory; [apply Hp|done..].
  - destruct (_ <? _); [done|]. destruct (_ <=? _); [done|]. by destruct (_ <=? _).
  - by destruct (_ <? _).
  - done.
  - pose proof (block_put_appends a b s buf R) as Hp. by destruct (ark_block_put s buf) as [[r id] s1].
Qed.

(** Whatever unsynced writes the cut lost. *)
Lemma lost_writes (s : ark D) op im (s0 : ark ram) :
  settled total s -> wf_op op -> data_plain (g_epoch s) op = true ->
  remains (snd (run_op s op)) im -> unforged total (g_epoch s) (img s) im (commit_of s op) ->
  exists m, ark_mount s0 (Bd ARK_SECTOR total im) = (ARK_OK, m) /\ g_mroot m = g_mroot s /\
    (g_live m = g_live s \/ intended s op = Some (g_live m)).
Proof.
  intros (W & recs & pend & hc & B & Hd) Hop Hpl Hr Hu.
  pose proof (staged_outcome total Htotal s op recs pend hc W B Hop Hpl) as Ho.
  pose proof (staged_appends hc (lim total) s op (base_ready total s _ _ _ _ _ Htotal B)) as Ha.
  revert Hr Hu. rewrite run_staged by by eapply base_attached. unfold commit_of, intended.
  destruct (staged s op) as [[r s']|s1]; intros Hr Hu.
  - destruct (power_cut total s s' recs pend hc _ _ im None [] s0 Htotal B Hd (proj1 Ha) Hr Hu) as (m & Hm & E1 & E2); [done|].
    exists m. split_and!; [done|done|]. left. by destruct E2 as [|[? _]].
  - destruct Ho as (W1 & E1 & _).
    destruct (power_cut total s (snd (commit_live s1)) recs pend hc _ _ im (Some (serialize_live s1)) (g_live s1) s0
      Htotal B Hd) as (m & Hm & F1 & F2); [| |done| |].
    + transitivity s1; [apply Ha|]. by apply (commit_appends hc (lim total) s1 true (proj2 Ha)).
    + done.
    + intros pay [= <-]. rewrite <- E1. by apply parse_serialize.
    + exists m. split_and!; [done|done|]. destruct F2 as [|[_ ->]]; [by left|by right].
Qed.

(** After [ARK_OK] the medium holds what the host reads. *)
Lemma ok_durable (s : ark D) op rows im :
  g_bd s <> None -> (forall d : D, fst (bd_sync d) = true) -> fst (run_op s op) = ARK_OK -> intended s op = Some rows ->
  remains (snd (run_op s op)) im -> same_image im (img (snd (run_op s op))).
Proof.
  intros Hb Hs. rewrite run_staged by done. unfold intended. destruct (staged s op) as [|s1]; [done|].
  intros Hr _. by apply commit_durable.
Qed.

End Lost.

(** C1: crash atomicity. Take a mounted file system on any device that keeps
    the device laws, with or without a volatile write cache, whose table is the
    committed one and whose last commit is flushed ([settled]), and run one
    operation (write a file, make a directory, unlink, checkpoint, put a raw
    block), any of whose sector writes and barriers may fail. The operation is
    [op_safe]: no data sector imitates a record header of the epoch, and no
    part of the commit hashes like the whole.
    - A mount of what the host reads afterwards, so of what stands there when
      writes land in order and some last ones are cut off, succeeds and its live
      table is the one before the call or the one the call intended, the
      intended one if the call returned [ARK_OK]; the Merkle root is kept and
      the mount is in sync.
    - If the power goes and any of the writes since the last barrier are lost,
      torn or reordered, the mount still succeeds with one of the two tables,
      provided the remains forge no commit ([unforged]: a commit record whose
      checksum and hash verify verified there before, or is this call's). The
      blocks of the new table may then be lost: there is no barrier between
      them and the commit.
    - If the call committed, returned [ARK_OK] and the barriers of the device do
      not fail, no loss of power takes the new table back: every image the
      device can leave mounts to it. *)
Theorem crash_atomic {D} `{BdevCache D} total (s : ark D) op (s0 : ark ram)
  (Htotal : 4 <= total < 2 ^ 32 - 64) (Hs : settled total s) (Hop : wf_op op)
  (Hsafe : op_safe total s op = true) (Hs0 : g_log_end_override s0 = 0) :
  let '(r, s') := run_op s op in
  (exists m, ark_mount s0 (Bd ARK_SECTOR total (img s')) = (ARK_OK, m) /\ synced total m /\
    g_mroot m = g_mroot s /\
    (g_live m = g_live s \/ intended s op = Some (g_live m)) /\
    (r = ARK_OK -> forall rows, intended s op = Some rows -> g_live m = rows)) /\
  (forall im, remains s' im -> unforged total (g_epoch s) (img s) im (commit_of s op) ->
    exists m, ark_mount s0 (Bd ARK_SECTOR total im) = (ARK_OK, m) /\ g_mroot m = g_mroot s /\
      (g_live m = g_live s \/ intended s op = Some (g_live m))) /\
  (r = ARK_OK -> (forall d : D, fst (bd_sync d) = true) ->
    forall rows im, intended s op = Some rows -> remains s' im ->
    exists m, ark_mount s0 (Bd ARK_SECTOR total im) = (ARK_OK, m) /\ synced total m /\
      g_mroot m = g_mroot s /\ g_live m = rows).
Proof.
  pose proof Hsafe as Hpl. unfold op_safe in Hpl. apply andb_true_iff in Hpl as [Hpl _].
  pose proof (fun im => lost_writes total Htotal s op im s0 Hs Hop Hpl) as Hlost.
  destruct Hs as (W & recs & pend & hc & B & Hd).
  pose proof (outcome_stored total Htotal s op Hop Hsafe recs pend hc W B) as Ho.
  pose proof (fun rows im => ok_durable s op rows im (base_attached _ _ _ _ _ _ _ B)) as Hok.
  destruct (run_op s op) as [r s']. cbn [fst snd] in *. destruct Ho as (live & W1 & Hst & Hl & Hr). split; [|split].
  - destruct (mount_stored _ _ _ _ _ _ s0 Hst W1 Hs0) as (m & Hm & M1 & M2 & _ & _ & Hsy).
    exists m. rewrite M1. by split_and!.
  - exact Hlost.
  - intros -> Hsync rows im Hi Him.
    apply (stored_same total _ im) in Hst; [|apply same_sym; by apply (Hok rows)].
    destruct (mount_stored _ _ _ _ _ _ s0 Hst W1 Hs0) as (m & Hm & M1 & M2 & _ & _ & Hsy).
    exists m. rewrite M1. split_and!; [done|done|done|by apply Hr].
Qed.
