(* ===== verification/ArkFormat.v ===== *)
(** * Formatting and mounting ARK

    A format lays down an empty, in-sync file system as long as no record of
    the new epoch survives on the medium; what happens where one does, and
    where a mount is refused. *)

From stdpp Require Import gmap.
From S2P Require Import Prelude Sha256 ArkIndex ArkLog ArkDisk ArkFs ArkReplay ArkCrash ArkPower ArkOps.

(** ** The superblock reads back *)

Lemma super_body_length v ss st t e : length (super_body v ss st t e) = 28%nat.
Proof. unfold super_body. by rewrite !length_app, !le_length. Qed.

Lemma super_sector_app ep st total :
  let body := super_body ARK_FMT_VERSION ARK_SECTOR st total ep in
  super_sector ep st total = body ++ le 4 (ark_crc32 body) ++ replicate 480 0.
Proof.
  intros body. unfold super_sector. fold body.
  assert (Hb : length body = 28%nat) by apply super_body_length.
  rewrite pad_to_app by (rewrite length_app, le_length, Hb; lia).
  by rewrite length_app, le_length, Hb, <- app_assoc.
Qed.

Lemma super_body_bytes v ss st t e : Forall is_u8 (super_body v ss st t e).
Proof. unfold super_body. repeat (apply Forall_app; split); auto with machine. repeat constructor; done. Qed.

Lemma dec_super_sector ep st total :
  is_u32 ep -> is_u32 st -> is_u32 total ->
  dec_super (super_sector ep st total) =
  Super ARK_SB_MAGIC ARK_FMT_VERSION ARK_SECTOR st total ep
    (ark_crc32 (super_body ARK_FMT_VERSION ARK_SECTOR st total ep)).
Proof.
  intros He Hs Ht. rewrite super_sector_app. set (crc := ark_crc32 _).
  assert (Hc : is_u32 crc) by apply crc32_range, super_body_bytes.
  unfold dec_super, super_body. rewrite <- !app_assoc.
  assert (Hv : is_u32 ARK_FMT_VERSION) by done. assert (Hss : is_u32 ARK_SECTOR) by done.
  set (x := ARK_SB_MAGIC ++ _).
  assert (field 0 8 x = ARK_SB_MAGIC) as -> by (unfold x; fields Hc).
  assert (num 8 x = ARK_FMT_VERSION) as -> by (unfold x; fields Hc).
  assert (num 12 x = ARK_SECTOR) as -> by (unfold x; fields Hc).
  assert (num 16 x = st) as -> by (unfold x; fields Hc).
  assert (num 20 x = total) as -> by (unfold x; fields Hc).
  assert (num 24 x = ep) as -> by (unfold x; fields Hc).
  by assert (num 28 x = crc) as -> by (unfold x; fields Hc).
Qed.

Lemma super_sector_valid ep st total :
  is_u32 ep -> is_u32 st -> is_u32 total -> super_valid (super_sector ep st total) = true.
Proof.
  intros He Hs Ht. unfold super_valid, super_magic_crc. rewrite dec_super_sector by done.
  cbn [sb_magic sb_crc sb_version sb_sector_size].
  rewrite super_sector_app, take_app_length' by (symmetry; apply super_body_length).
  by rewrite bool_decide_true, !Z.eqb_refl by done.
Qed.

Lemma super_sector_is im total st ep :
  is_u32 ep -> is_u32 st -> is_u32 total -> im 0 = super_sector ep st total -> super_is im total st ep.
Proof.
  intros He Hs Ht Hi. exists (super_sector ep st total). rewrite Hi, super_sector_valid by done.
  split; [done|]. by rewrite dec_super_sector.
Qed.

(** ** A fresh file system *)

Definition empty_commit : lrec := Rec ARK_REC_COMMIT 1 (le 4 1 ++ le 4 0 ++ zero_id ++ le 4 0).

Lemma empty_commit_wf : wf_rec empty_commit.
Proof.
  split; [done|]. split; [done|]. split; [|done].
  repeat (apply Forall_app; split); auto with machine. apply (replicate_bytes 32).
Qed.

Lemma empty_commit_plain ep : plain ep empty_commit = true.
Proof. reflexivity. Qed.

(** The epoch a format chooses. *)
Definition format_epoch (sector0 : list Z) : Z :=
  u32 ((if super_magic_crc sector0 then sb_epoch (dec_super sector0) else 0) + 1).

Lemma quiet_blank total ep im a :
  (forall t, a <= t -> hdr_ok ep (im t) = false) -> quiet total ep im a.
Proof. intros Hh t Ht. by rewrite hdr_bad_peek by by apply Hh. Qed.

Section Format.
Context {D : Type} `{BdevLaws D} (total : Z) (Htotal : 4 <= total < 2 ^ 32 - 64).

Lemma dev_sync_ctx (s : ark D) c : g_bd s <> None -> dev_sync (set_ctx s c) = set_ctx s (snd (bd_sync c)).
Proof. unfold dev_sync, set_ctx. by destruct (g_bd s). Qed.

Lemma write_super_both_ok (s s' : ark D) ep st c0 :
  g_bd s = Some (Bd ARK_SECTOR total c0) -> write_super_both s ep st = (ARK_OK, s') ->
  exists c, s' = set_ctx s c /\ image c 0 = super_sector ep st total /\
    forall t, 0 < t < lim total -> image c t = img s t.
Proof.
  intros Hb. unfold write_super_both, write_super, bd_total. rewrite Hb. cbn [total_sectors].
  assert (Hlim : lim total = total - 1) by (apply lim_eq; lia).
  destruct (dev_write_spec s 0 (super_sector ep st total) ltac:(by rewrite Hb)) as (c & Hc & Hw & _).
  destruct (dev_write s 0 (super_sector ep st total)) as [ok s1]. simpl in Hc, Hw. subst s1.
  destruct ok; cbn [negb]; [|done]. specialize (Hw eq_refl).
  assert (Hb1 : g_bd (set_ctx s c) <> None) by (apply set_ctx_bd; by rewrite Hb).
  replace (match g_bd (set_ctx s c) with None => 0 | Some b => total_sectors b end) with total
    by (unfold set_ctx; by rewrite Hb).
  fold (lim total).
  destruct (dev_write_spec (set_ctx s c) (lim total) (super_sector ep st total) Hb1) as (c2 & Hc2 & Hw2 & _).
  destruct (dev_write (set_ctx s c) (lim total) (super_sector ep st total)) as [ok s2]. simpl in Hc2, Hw2. subst s2.
  destruct ok; cbn [negb]; [|done]. specialize (Hw2 eq_refl). intros [= <-].
  rewrite set_ctx_twice. rewrite img_set_ctx in Hw2 by (by rewrite Hb).
  exists (snd (bd_sync c2)). split; [by apply dev_sync_ctx; rewrite Hb|]. split.
  - rewrite sync_image, Hw2, upd_ne, Hw by lia. apply upd_eq.
  - intros t Ht'. rewrite sync_image, Hw2, upd_ne, Hw, upd_ne by lia. done.
Qed.

Lemma format_synced (s s' : ark D) c0 :
  ark_format s (Bd ARK_SECTOR total c0) = (ARK_OK, s') -> g_log_end_override s = 0 ->
  let ep := match bd_read c0 0 with Some b => format_epoch b | None => 1 end in
  quiet total ep (image c0) 1 ->
  synced total s' /\ g_live s' = [] /\ g_mroot s' = zero_id /\ g_epoch s' = ep /\ g_log_start s' = 1.
Proof.
  intros Hf Ho ep Hq. assert (Hlim : lim total = total - 1) by (apply lim_eq; lia).
  revert Hf. unfold ark_format. rewrite Z.eqb_refl. cbn [negb total_sectors].
  destruct (Z.ltb_spec total 4); [lia|]. cbv zeta.
  set (s1 := set_ix _ _).
  assert (Hep : g_epoch s1 = ep).
  { unfold s1, ep, dev_read. cbn. destruct (bd_read c0 0); [|done]. reflexivity. }
  assert (G1 : g_bd s1 = Some (Bd ARK_SECTOR total c0)) by done.
  assert (G2 : g_log_start s1 = 1 /\ g_head s1 = 1 /\ g_seq s1 = 0 /\ g_live s1 = [] /\ g_mroot s1 = zero_id) by done.
  assert (G3 : g_log_end_override s1 = 0) by done.
  assert (G4 : g_idx_cap (g_ix s1) = cap_of total) by done.
  assert (G5 : idx_rep (g_ix s1) ∅) by exact (reset_rep (idx_set_cap (g_ix s) total)). clearbody s1.
  destruct (write_super_both s1 (g_epoch s1) (g_log_start s1)) as [r s2] eqn:Ew.
  destruct (Z.eqb_spec r ARK_OK) as [->|]; [|done]. cbn [negb].
  destruct (write_super_both_ok _ _ _ _ _ G1 Ew) as (c & -> & Hs0 & Hsame).
  destruct G2 as (E1 & E2 & E3 & E4 & E5). rewrite E1, Hep in *.
  assert (Hepr : is_u32 ep).
  { unfold ep. destruct (bd_read c0 0); [apply u32_range|done]. }
  assert (Hb2 : g_bd s1 <> None) by (by rewrite G1).
  unfold commit_live_ex.
  assert (Hser : serialize_live (set_ctx s1 c) = l_pay empty_commit).
  { unfold serialize_live. simpl. rewrite E3, E4, E5. done. }
  rewrite Hser.
  assert (Hem : emitted (set_ctx s1 c) empty_commit (emit_record (set_ctx s1 c) ARK_REC_COMMIT (l_pay empty_commit) (sha256 (l_pay empty_commit)))).
  { assert (new_rec (set_ctx s1 c) ARK_REC_COMMIT (l_pay empty_commit) = empty_commit) as <-
      by (unfold new_rec; simpl; by rewrite E3).
    apply emit_record_spec; rewrite ?set_ctx_end; try done.
    - by apply set_ctx_bd.
    - unfold ark_usable_end. rewrite G1. simpl. fold (lim total). lia.
    - unfold ark_usable_end. rewrite G1. simpl. fold (lim total). lia. }
  assert (Hi : img (set_ctx s1 c) = image c) by by apply img_set_ctx.
  destruct Hem as [|c2 j Hj Hi2 Hend Hwf|c2 Hi2 Hend]; [done..|].
  cbn [Z.eqb ARK_OK negb]. intros [= <-].
  rewrite Hi in Hi2. simpl in Hi2. rewrite E2, Hep in Hi2.
  assert (Hq1 : quiet total ep (image c) 1).
  { eapply quiet_frame; [lia|lia|exact Hq|]. intros u Hu. symmetry. rewrite Hsame by lia. unfold img. by rewrite G1. }
  assert (Hsp : 1 + span empty_commit <= lim total) by (change (span empty_commit) with 2; lia).
  destruct (stamp_done total ep ltac:(lia) Hepr (image c) 1 empty_commit Hq1 empty_commit_wf ltac:(lia) Hsp
    (empty_commit_plain ep)) as [Hl Hqq].
  assert (B : base total (set_head (set_seq (set_ctx s1 c2) (u32 (g_seq (set_ctx s1 c) + 1))) (1 + span empty_commit))
    [empty_commit] [] (1 + span empty_commit) [] zero_id).
  { assert (Hi' : img (set_ctx s1 c2) = image c2) by by apply img_set_ctx.
    split; cbn [set_head set_seq g_bd g_log_start g_epoch g_head g_log_end_override g_ix set_ctx]; rewrite ?E1, ?Hep; try done.
    - exists c2. by rewrite G1.
    - apply super_sector_is; try done; [unfold is_u32; lia|].
      change (img (set_ctx s1 c2) 0 = super_sector ep 1 total). rewrite Hi', Hi2, stamp_out by lia. done.
    - change (log_at total ep (img (set_ctx s1 c2)) 1 [empty_commit] (1 + span empty_commit)).
      rewrite Hi'. eapply log_frame; [exact Hl|]. intros; symmetry; apply Hi2.
    - exists [], empty_commit. done.
    - constructor.
    - intros t Ht. lia.
    - change (quiet total ep (img (set_ctx s1 c2)) (1 + span empty_commit)). rewrite Hi'.
      intros t Ht. rewrite (peek_same _ _ _ _ t Hi2). by apply Hqq. }
    rewrite set_ctx_twice. change (g_head (set_ctx s1 c)) with (g_head s1). rewrite E2.
  set (sx := set_head _ _) in *.
  assert (Hx : g_live sx = [] /\ g_mroot sx = zero_id /\ g_epoch sx = ep /\ g_log_start sx = 1) by done.
  clearbody sx. destruct Hx as (X1 & X2 & X3 & X4).
  destruct (sync_tree sx) as (Y1 & Y2 & Y3 & Y4). destruct (sync_tree (dev_sync sx)) as (Z1 & Z2 & Z3 & Z4).
  split; [|split_and!; congruence]. split.
  - rewrite Z1, Y1, X1, Z2, Y2, X2. split; try done. apply (replicate_bytes 32).
  - do 3 eexists. rewrite Z1, Y1, X1, Z2, Y2, X2. apply sync_base, sync_base. exact B.
Qed.

End Format.

(** A format that returns [ARK_OK] leaves an empty file system, in sync
    with the medium, that mounts as such, provided no sector of the log area
    reads as a valid commit of the epoch the format chose. *)
Theorem format_empty {D} `{BdevLaws D} total (s s' : ark D) c0 (s0 : ark ram)
  (Htotal : 4 <= total < 2 ^ 32 - 64) (Ho : g_log_end_override s = 0) (Ho0 : g_log_end_override s0 = 0)
  (Hf : ark_format s (Bd ARK_SECTOR total c0) = (ARK_OK, s'))
  (Hq : quiet total (match bd_read c0 0 with Some b => format_epoch b | None => 1 end) (image c0) 1) :
  synced total s' /\ g_live s' = [] /\
  exists m, ark_mount s0 (Bd ARK_SECTOR total (img s')) = (ARK_OK, m) /\ synced total m /\
    g_live m = [] /\ g_mroot m = zero_id.
Proof.
  destruct (format_synced total Htotal s s' c0 Hf Ho Hq) as (Hs & L1 & L2 & L3 & L4).
  split; [done|]. split; [done|]. destruct Hs as (W & recs & pend & hc & B).
  pose proof (base_stored total Htotal _ _ _ _ _ _ B) as Hst.
  destruct (mount_stored _ _ _ _ _ _ s0 Hst W Ho0) as (m & Hm & M1 & M2 & _ & _ & Hsy).
  exists m. rewrite M1, M2. done.
Qed.

(** A blank medium, and one that fails after [n] writes. *)
Definition blank : array (list Z) := fun _ => replicate 512 0.
Definition blank_cut (n : nat) : ARK_BDEV cut := Bd ARK_SECTOR 24 (Cut blank n).

Lemma blank_quiet total ep a : quiet total ep blank a.
Proof. apply quiet_blank. intros t _. reflexivity. Qed.

(** The fresh file system on it: [n] writes are left after the format's 4. *)
Definition fresh (n : nat) : ark cut := snd (ark_format (boot_state cut) (blank_cut (4 + n))).

Lemma fresh_format n : ark_format (boot_state cut) (blank_cut (4 + n)) = (ARK_OK, fresh n).
Proof. unfold fresh. rewrite (surjective_pairing (ark_format _ _)) at 1. f_equal. Qed.

Lemma fresh_synced n : synced 24 (fresh n).
Proof. apply (format_synced 24 ltac:(lia) _ _ _ (fresh_format n) eq_refl), blank_quiet. Qed.

Lemma format_empty_witness :
  synced 24 (fresh 0) /\ g_live (fresh 0) = [] /\
  exists m, ark_mount (boot_state ram) (Bd ARK_SECTOR 24 (img (fresh 0))) = (ARK_OK, m) /\ synced 24 m /\
    g_live m = [] /\ g_mroot m = zero_id.
Proof.
  apply (format_empty 24 (boot_state cut) (fresh 0) (Cut blank 4) (boot_state ram));
    [lia|reflexivity|reflexivity|apply fresh_format|apply blank_quiet].
Defined.

(** The fresh file system behind a write cache: [n] device calls are left
    after the format's 7, and everything is flushed. *)
Definition fresh_cached (n : nat) : ark cached :=
  snd (ark_format (boot_state cached) (Bd ARK_SECTOR 24 (Cached blank [] (7 + n)))).

Lemma fresh_cached_format n :
  ark_format (boot_state cached) (Bd ARK_SECTOR 24 (Cached blank [] (7 + n))) = (ARK_OK, fresh_cached n).
Proof. unfold fresh_cached. rewrite (surjective_pairing (ark_format _ _)) at 1. f_equal. Qed.

Lemma fresh_cached_synced n : synced 24 (fresh_cached n).
Proof. apply (format_synced 24 ltac:(lia) _ _ _ (fresh_cached_format n) eq_refl), blank_quiet. Qed.

Lemma fresh_cached_flushed n :
  match g_bd (fresh_cached n) with Some b => unsynced (ctx b) = [] | None => True end.
Proof. vm_compute. reflexivity. Qed.

(** Behind an empty cache stands what the host reads. *)
Lemma flushed_remains (s : ark cached) im t :
  match g_bd s with Some b => unsynced (ctx b) = [] | None => True end -> remains s im -> im t = img s t.
Proof.
  unfold remains, img. destruct (g_bd s) as [b|]; [|done]. intros Hu (kept & Hk & Him).
  rewrite Hu in Hk. apply sublist_nil_r in Hk as ->. rewrite Him.
  cbn [image cached_laws]. unfold cached_image. by rewrite Hu.
Qed.

Lemma fresh_cached_settled n : settled 24 (fresh_cached n).
Proof.
  destruct (fresh_cached_synced n) as (W & recs & pend & hc & B). split; [exact W|]. exists recs, pend, hc.
  split; [exact B|]. intros im t Him _. apply flushed_remains; [apply fresh_cached_flushed|exact Him].
Qed.

(** The power goes when the commit of a new directory is written and not yet
    flushed, and the cache loses the second of its three sectors. *)
Definition half_made : ark cached := snd (run_op (fresh_cached 3) (OpMkdir [47; 97])).
Lemma half_made_eq : half_made = snd (run_op (fresh_cached 3) (OpMkdir [47; 97])).
Proof. reflexivity. Qed.
Definition half_kept : array (list Z) :=
  match g_bd half_made with None => blank | Some b => foldr land (medium (ctx b)) (delete 1%nat (unsynced (ctx b))) end.

Lemma half_kept_remains : remains half_made half_kept.
Proof.
  unfold remains, half_kept. destruct (g_bd half_made) as [[sz tt [m u k]]|] eqn:E; [|vm_compute in E; discriminate].
  cbn [ctx unsynced medium]. exists (delete 1%nat u). split; [apply sublist_delete|done].
Qed.

Lemma half_kept_unforged :
  unforged 24 (g_epoch (fresh_cached 3)) (img (fresh_cached 3)) half_kept (commit_of (fresh_cached 3) (OpMkdir [47; 97])).
Proof.
  intros t v Ht Hv Hok. left.
  assert (Hlt : t < 23).
  { destruct (Z.lt_ge_cases t 23); [done|]. revert Hv. unfold peek, read_record.
    rewrite (proj2 (Z.leb_le (ark_usable_end _) t)) by done. done. }
  assert (Hall : forallb (fun t => negb (valid_commit (peek half_kept 24 (g_epoch (fresh_cached 3)) t)) || (t =? 1)) (seqZ 0 23) = true)
    by (vm_compute; reflexivity).
  rewrite forallb_forall in Hall. specialize (Hall t ltac:(apply list_elem_of_In, elem_of_seqZ; lia)).
  rewrite Hv, Hok in Hall. apply Z.eqb_eq in Hall as ->. rewrite <- Hv. vm_compute. reflexivity.
Qed.

(** A mount of the remains: the new directory is not there, and nothing else is lost. *)
Lemma crash_atomic_witness :
  let op := OpMkdir [47; 97] in
  op_safe 24 (fresh_cached 3) op = true /\ half_kept 4 <> img half_made 4 /\
  exists m, ark_mount (boot_state ram) (Bd ARK_SECTOR 24 half_kept) = (ARK_OK, m) /\
    g_mroot m = g_mroot (fresh_cached 3) /\
    (g_live m = g_live (fresh_cached 3) \/ intended (fresh_cached 3) op = Some (g_live m)).
Proof.
  assert (Hsafe : op_safe 24 (fresh_cached 3) (OpMkdir [47; 97]) = true) by (vm_compute; reflexivity).
  split; [exact Hsafe|]. split; [vm_compute; discriminate|].
  pose proof (crash_atomic 24 (fresh_cached 3) (OpMkdir [47; 97]) (boot_state ram)
    ltac:(lia) (fresh_cached_settled 3) ltac:(repeat constructor; done) Hsafe eq_refl) as Hc.
  pose proof half_kept_remains as Hr. rewrite half_made_eq in Hr. pose proof half_kept_unforged as Hu.
  destruct (run_op (fresh_cached 3) (OpMkdir [47; 97])) as [r s']. cbn [snd] in Hr.
  destruct Hc as (_ & Hc & _). exact (Hc half_kept Hr Hu).
Defined.
