(* ===== verification/ArkRead.v ===== *)
(** * Reading ARK back

    A block is delivered only if it hashes to its record's id; what a
    successful [ark_write_file] stored is what [ark_read_file] returns, before
    and after a remount. *)

From stdpp Require Import gmap.
From S2P Require Import Prelude Crc Sha256 ArkIndex ArkLog ArkDisk ArkFs ArkReplay ArkCrash ArkOps ArkFormat.

(** ** From the index to the record *)

Lemma map_add_lookup cap m id sec id' sec' :
  map_add cap m id sec !! id' = Some sec' -> m !! id' = Some sec' \/ (id' = id /\ sec' = sec).
Proof.
  unfold map_add. destruct (m !! id) eqn:E; [by left|]. destruct (_ <? _); [|by left].
  destruct (decide (id' = id)) as [->|Hn].
  - rewrite lookup_insert_eq. intros [= <-]. by right.
  - rewrite lookup_insert_ne by done. by left.
Qed.

Lemma map_add_all_in cap l m id sec :
  map_add_all cap m l !! id = Some sec -> m !! id = Some sec \/ (id, sec) ∈ l.
Proof.
  revert m; induction l as [|[i x] l IH]; intros m; [by left|]. unfold map_add_all in *. cbn [fold_left].
  intros [Hm|Hin]%IH; [|right; by right].
  apply map_add_lookup in Hm as [Hm|[-> ->]]; [by left|right; by left].
Qed.

Lemma blocks_of_in total ep im a recs b id sec :
  log_at total ep im a recs b -> (id, sec) ∈ blocks_of a recs ->
  a <= sec < b /\ exists r, peek im total ep sec = Some (view_of r) /\ l_type r = ARK_REC_BLOCK /\
    sha256 (l_pay r) = id /\ wf_rec r.
Proof.
  induction 1 as [|h r rs h' H0 Hwf Hp Hl IH]; [intros Hn; by apply not_elem_of_nil in Hn|].
  cbn [blocks_of]. pose proof (span_spec r Hwf). pose proof (log_le _ _ _ _ _ _ Hl).
  intros [Hin|Hin]%elem_of_app.
  - destruct (Z.eqb_spec (l_type r) ARK_REC_BLOCK); [|by apply not_elem_of_nil in Hin].
    apply list_elem_of_singleton in Hin as [= -> ->]. split; [lia|]. by exists r.
  - destruct (IH Hin) as [Hs Hr]. split; [lia|done].
Qed.

Section Read.
Context {D : Type} `{BdevLaws D} (total : Z) (Htotal : 4 <= total < 2 ^ 32 - 64).

(** The blocks on the medium under a chunk's id hold the chunk. *)
Definition unaliased (im : array (list Z)) (ep : Z) (chunk : list Z) : bool :=
  forallb (fun t => match peek im total ep t with
    | Some v => negb ((rv_type v =? ARK_REC_BLOCK) && rv_ok v && bool_decide (rv_id v = sha256 chunk))
                || bool_decide (rv_pay v = chunk)
    | None => true end) (seqZ 1 (lim total)).

Lemma indexed_block (s : ark D) recs pend hc live mroot chunk :
  base total s recs pend hc live mroot -> readable s -> unaliased (img s) (g_epoch s) chunk = true ->
  is_Some (map_add_all (cap_of total) ∅ (blocks_of (g_log_start s) (recs ++ pend)) !! sha256 chunk) ->
  forall buf max, ark_block_get s (sha256 chunk) buf max =
    (lenz chunk, blit buf 0 (take (Z.to_nat (if lenz chunk <? max then lenz chunk else max)) chunk)).
Proof.
  intros B Hr Hal [sec Hm] buf max.
  pose proof (find_spec _ _ (b_idx _ _ _ _ _ _ _ B) (sha256 chunk)) as Hf. rewrite Hm in Hf.
  destruct Hf as [Hf1 Hf2].
  apply map_add_all_in in Hm as [Hm|Hin]; [by rewrite lookup_empty in Hm|].
  pose proof (log_app _ _ _ _ _ _ _ _ (b_log _ _ _ _ _ _ _ B) (b_pend _ _ _ _ _ _ _ B)) as Hl.
  destruct (blocks_of_in _ _ _ _ _ _ _ _ Hl Hin) as [Hsec (r & Hp & Ht & Hsha & _)].
  pose proof (base_bounds total _ _ _ _ _ _ B) as [Hb1 Hb2].
  assert (Hpay : l_pay r = chunk).
  { unfold unaliased in Hal. rewrite forallb_forall in Hal.
    specialize (Hal sec ltac:(apply list_elem_of_In, elem_of_seqZ; lia)). rewrite Hp in Hal.
    cbn [view_of rv_type rv_ok rv_id rv_pay] in Hal. rewrite Ht, Hsha in Hal.
    rewrite bool_decide_true in Hal by done. simpl in Hal. by apply bool_decide_eq_true in Hal. }
  destruct (b_bd _ _ _ _ _ _ _ B) as [c Ebd].
  unfold ark_block_get, mounted. rewrite Ebd. cbn [negb]. cbv zeta.
  destruct (Z.ltb_spec (idx_find (g_ix s) (sha256 chunk)) 0); [lia|].
  rewrite Hf2. cbn [slot_sec]. rewrite (read_peek s _ sec Hr Ebd). cbn [total_sectors].
  rewrite Hp. cbn [view_of rv_type rv_ok rv_len rv_pay]. rewrite Ht, Hpay. done.
Qed.

(** ** The block loop of a read *)

Lemma blit_nil {A} (l : list A) off : blit l off [] = l.
Proof. unfold blit. simpl. rewrite Nat.add_0_r. apply take_drop. Qed.

Section Blocks.
Context (s : ark D) (d : ark_dent) (buf out : list Z) (max : Z).
Context (Hmax : 0 <= max <= lenz out) (Hlen : lenz buf <= 65536) (Hsize : size d = lenz buf).
Context (Hget : forall k b m, 0 <= k -> 4096 * k < lenz buf ->
  getz (blk d) k zero_id = sha256 (file_chunk buf (lenz buf) k) /\
  ark_block_get s (sha256 (file_chunk buf (lenz buf) k)) b m =
    (lenz (file_chunk buf (lenz buf) k), blit b 0 (take (Z.to_nat (if lenz (file_chunk buf (lenz buf) k) <? m
       then lenz (file_chunk buf (lenz buf) k) else m)) (file_chunk buf (lenz buf) k)))).

(** What the caller's buffer holds once [n] bytes of the file went by. *)
Definition delivered (n : Z) : list Z := blit out 0 (take (Z.to_nat max) (take (Z.to_nat n) buf)).

Lemma deliver_step k :
  0 <= k -> 4096 * k < lenz buf ->
  let c := file_chunk buf (lenz buf) k in
  let cpy := if max <? u32 (4096 * k + lenz c) then (if 4096 * k <? max then max - 4096 * k else 0) else lenz c in
  blit (delivered (4096 * k)) (4096 * k) (take (Z.to_nat cpy) (blit (replicate 4096 0) 0 c)) =
  delivered (4096 * k + lenz c).
Proof.
  intros Hk Hkl c cpy. destruct (file_chunk_len buf k Hk ltac:(lia)) as [Hc1 Hc2].
  fold c in Hc1, Hc2. set (p := 4096 * k) in *.
  assert (Hb : take (Z.to_nat cpy) (blit (replicate 4096 0) 0 c) = take (Z.to_nat cpy) c).
  { assert (Hcc : cpy <= lenz c).
    { unfold cpy. unfold u32. rewrite Z.mod_small by lia.
      destruct (Z.ltb_spec max (p + lenz c)); [|lia]. destruct (Z.ltb_spec p max); lia. }
    unfold blit. simpl. unfold lenz in Hcc. rewrite take_app_le by lia. done. }
  rewrite Hb. unfold delivered. assert (Hp : p + lenz c <= lenz buf) by lia.
  assert (Htk : take (Z.to_nat (p + lenz c)) buf = take (Z.to_nat p) buf ++ c).
  { rewrite Z2Nat.inj_add by (unfold lenz; lia).
    rewrite <- take_take_drop. f_equal.
    rewrite Hc1, Hc2. destruct (Z.min_spec 4096 (lenz buf - p)) as [[? ->]|[? ->]]; [done|].
    rewrite !firstn_all2; [done| |]; rewrite length_drop; unfold lenz in *; lia. }
  assert (Hpl : length (take (Z.to_nat p) buf) = Z.to_nat p) by (rewrite length_take; unfold lenz in *; lia).
  unfold cpy. unfold u32. rewrite Z.mod_small by lia. rewrite Htk.
  destruct (Z.ltb_spec max (p + lenz c)).
  - destruct (Z.ltb_spec p max).
    + rewrite (firstn_all2 (n := Z.to_nat max) (take (Z.to_nat p) buf)) by lia.
      assert (Hpz : p = lenz (take (Z.to_nat p) buf)) by (unfold lenz; lia).
      rewrite Hpz at 2. rewrite <- (Z.add_0_l (lenz (take (Z.to_nat p) buf))). rewrite blit_blit.
      * rewrite take_app_ge by lia. rewrite Hpl. do 3 f_equal. lia.
      * lia.
      * rewrite <- Hpz. unfold lenz in *. rewrite length_take. lia.
    + change (Z.to_nat 0) with O. rewrite take_0, blit_nil. f_equal.
      rewrite take_app_le by lia. done.
  - rewrite (firstn_all2 c) by (unfold lenz; lia).
    rewrite (firstn_all2 (n := Z.to_nat max) (take (Z.to_nat p) buf)) by lia.
    rewrite (firstn_all2 (n := Z.to_nat max) (take _ _ ++ c)) by (rewrite length_app; unfold lenz in *; lia).
    assert (Hpz : p = lenz (take (Z.to_nat p) buf)) by (unfold lenz; lia).
    rewrite Hpz at 2. rewrite <- (Z.add_0_l (lenz (take (Z.to_nat p) buf))). rewrite blit_blit; [done|lia|].
    rewrite <- Hpz. lia.
Qed.

Lemma read_blocks_all n : forall k,
  0 <= k -> k + Z.of_nat n = file_blocks (lenz buf) ->
  read_blocks n s d (delivered (Z.min (4096 * k) (lenz buf))) max k (Z.min (4096 * k) (lenz buf)) =
  (lenz buf, delivered (lenz buf)).
Proof.
  pose proof (file_blocks_spec (lenz buf) ltac:(pose proof (lenz_nonneg buf); lia)) as (F1 & F2 & F3).
  induction n as [|n IH]; intros k Hk Hn; cbn [read_blocks].
  - rewrite Z.min_r by lia. rewrite Hsize. f_equal. unfold i32.
    pose proof (lenz_nonneg buf). rewrite Z.mod_small by lia. lia.
  - assert (Hkl : 4096 * k < lenz buf) by lia. rewrite Z.min_l by lia.
    destruct (file_chunk_len buf k Hk ltac:(lia)) as [Hc1 Hc2].
    destruct (Hget k (replicate 4096 0) ARK_BLOCK_MAX Hk Hkl) as [-> ->].
    set (c := file_chunk buf (lenz buf) k) in *.
    assert (Hcl : 0 <= lenz c <= 4096) by lia.
    destruct (Z.ltb_spec (lenz c) 0); [lia|].
    replace (Z.to_nat (if lenz c <? ARK_BLOCK_MAX then lenz c else ARK_BLOCK_MAX)) with (length c)
      by (unfold ARK_BLOCK_MAX, lenz in *; destruct (Z.ltb_spec (Z.of_nat (length c)) 4096); lia).
    rewrite firstn_all. pose proof (deliver_step k Hk Hkl) as Hd. fold c in Hd. cbv zeta in Hd. rewrite Hd.
    assert (E : 4096 * k + lenz c = Z.min (4096 * (k + 1)) (lenz buf)) by lia.
    rewrite (u32_small (4096 * k + lenz c)) by (unfold is_u32; lia). rewrite E. apply IH; lia.
Qed.

End Blocks.

(** ** A row that names a file's blocks reads as the file *)

Definition row_holds {E : Type} (s : ark E) (path buf : list Z) : Prop :=
  exists e, live_find s path = e /\ 0 <= e /\ is_dir (row s e) = 0 /\ size (row s e) = lenz buf /\
    nblk (row s e) = file_blocks (lenz buf) /\
    forall k, 0 <= k < file_blocks (lenz buf) ->
      getz (blk (row s e)) k zero_id = sha256 (file_chunk buf (lenz buf) k).

Definition chunks_unaliased (im : array (list Z)) (ep : Z) (buf : list Z) : bool :=
  forallb (fun k => unaliased im ep (file_chunk buf (lenz buf) k)) (seqZ 0 (file_blocks (lenz buf))).

Lemma read_file_back (s : ark D) recs pend hc live mroot path buf out max :
  base total s recs pend hc live mroot -> readable s -> row_holds s path buf ->
  lenz buf <= 65536 -> 0 <= max <= lenz out -> chunks_unaliased (img s) (g_epoch s) buf = true ->
  (forall k, 0 <= k < file_blocks (lenz buf) ->
     is_Some (map_add_all (cap_of total) ∅ (blocks_of (g_log_start s) (recs ++ pend)) !! sha256 (file_chunk buf (lenz buf) k))) ->
  ark_read_file s path out max = (lenz buf, blit out 0 (take (Z.to_nat max) buf)).
Proof.
  intros B Hr (e & He & He0 & Hd & Hsz & Hnb & Hids) Hlen Hmax Hal Hix.
  pose proof (file_blocks_spec (lenz buf) ltac:(pose proof (lenz_nonneg buf); lia)) as (F1 & F2 & F3).
  unfold ark_read_file, mounted. destruct (b_bd _ _ _ _ _ _ _ B) as [c ->]. cbn [negb]. cbv zeta.
  rewrite He, Hd. destruct (Z.ltb_spec e 0); [lia|]. cbn [orb negb Z.eqb].
  unfold read_dent_blocks. rewrite Hnb.
  assert (Hget : forall k b m, 0 <= k -> 4096 * k < lenz buf ->
    getz (blk (row s e)) k zero_id = sha256 (file_chunk buf (lenz buf) k) /\
    ark_block_get s (sha256 (file_chunk buf (lenz buf) k)) b m =
      (lenz (file_chunk buf (lenz buf) k), blit b 0 (take (Z.to_nat (if lenz (file_chunk buf (lenz buf) k) <? m
         then lenz (file_chunk buf (lenz buf) k) else m)) (file_chunk buf (lenz buf) k)))).
  { intros k b m Hk Hkl. split; [apply Hids; lia|].
    eapply indexed_block; [done..| |apply Hix; lia].
    unfold chunks_unaliased in Hal. rewrite forallb_forall in Hal.
    apply Hal, list_elem_of_In, elem_of_seqZ. lia. }
  pose proof (read_blocks_all s (row s e) buf out max Hmax Hlen Hsz Hget
    (Z.to_nat (file_blocks (lenz buf))) 0 ltac:(lia) ltac:(lia)) as Hrd.
  rewrite Z.mul_0_r, (Z.min_l 0) in Hrd by lia.
  unfold delivered in Hrd at 1. change (Z.to_nat 0) with O in Hrd. rewrite take_0, take_nil, blit_nil in Hrd.
  rewrite Hrd. destruct (Z.leb_spec 0 (lenz buf)); [|lia]. unfold delivered.
  do 3 f_equal. apply firstn_all2. unfold lenz. lia.
Qed.

(** The row an update writes. *)
Lemma find_row_app l1 l2 path i :
  find_row l1 path i = -1 -> 0 <= i -> find_row (l1 ++ l2) path i = find_row l2 path (i + lenz l1).
Proof.
  revert i; induction l1 as [|d l IH]; intros i Hf Hi; simpl.
  - f_equal. unfold lenz. simpl. lia.
  - simpl in Hf. destruct (ark_streq _ _); [lia|]. rewrite IH by (done || lia). f_equal. unfold lenz. simpl. lia.
Qed.

Lemma find_row_hit l path i d :
  0 <= i -> find_row l path i <> -1 ->
  (forall p, ark_streq (name (d p)) path = ark_streq (name p) path) ->
  let e := find_row l path i in
  find_row (setz l (e - i) (d (getz l (e - i) zero_dent))) path i = e.
Proof.
  revert i; induction l as [|x l IH]; intros i Hi Hf Hd; simpl in *; [done|].
  destruct (ark_streq (name x) path) eqn:E.
  - rewrite Z.sub_diag. unfold setz, getz. simpl. by rewrite Hd, E.
  - pose proof (find_row_range l path (i + 1)) as [Hr|Hr]; [|done].
    set (e := find_row l path (i + 1)) in *.
    unfold setz, getz. destruct (Z.ltb_spec (e - i) 0); [lia|].
    replace (Z.to_nat (e - i)) with (S (Z.to_nat (e - (i + 1)))) by lia. simpl. rewrite E.
    pose proof (IH (i + 1) ltac:(lia) ltac:(done) Hd) as Hi'. fold e in Hi'. unfold setz, getz in Hi'.
    by destruct (Z.ltb_spec (e - (i + 1)) 0); [lia|].
Qed.

Lemma cstr_idem l : cstr (cstr l) = cstr l.
Proof. induction l as [|c r IH]; simpl; [done|]. destruct (c =? 0) eqn:E; [done|]. simpl. by rewrite E, IH. Qed.
Lemma cstr_pad l n : cstr (cstr l ++ replicate n 0) = cstr l.
Proof.
  induction l as [|c r IH]; simpl; [by destruct n|]. destruct (c =? 0) eqn:E; [by destruct n|].
  simpl. by rewrite E, IH.
Qed.

Lemma cstr_strncpy path max : ark_strlen path + 1 <= max -> cstr (ark_strncpy path max) = cstr path.
Proof.
  intros Hl. unfold ark_strlen, lenz in Hl. unfold ark_strncpy, pad_to.
  rewrite !(firstn_all2 (n := Z.to_nat (max - 1))) by lia. rewrite firstn_all2 by lia. apply cstr_pad.
Qed.

Lemma getz_app_ids ids rest k :
  0 <= k < lenz ids -> getz (ids ++ rest) k zero_id = getz ids k zero_id.
Proof. unfold getz, lenz. intros Hk. destruct (Z.ltb_spec k 0); [lia|]. apply app_nth1. lia. Qed.

Lemma block_ids_get buf n k :
  0 <= k < Z.of_nat n -> getz (block_ids buf 0 n) k zero_id = sha256 (file_chunk buf (lenz buf) k).
Proof.
  intros Hk. unfold getz. destruct (Z.ltb_spec k 0); [lia|]. unfold block_ids.
  rewrite nth_lookup. change (map ?f ?l) with (f <$> l). rewrite list_lookup_fmap.
  rewrite lookup_seqZ_lt by lia. simpl. do 2 f_equal. lia.
Qed.

Lemma update_rows_holds {E : Type} (s : ark D) (x : ark E) path buf rows :
  update_rows s path (lenz buf) (file_blocks (lenz buf)) (block_ids buf 0 (Z.to_nat (file_blocks (lenz buf)))) = Some rows ->
  ark_strlen path + 1 <= ARK_NAME_MAX -> 0 <= file_blocks (lenz buf) -> g_live x = rows -> row_holds x path buf.
Proof.
  intros Hu Hp H0 <-. revert Hu. unfold update_rows, row_holds, live_find, row. cbv zeta.
  set (n := file_blocks (lenz buf)) in *. set (ids := block_ids buf 0 (Z.to_nat n)).
  assert (Hids : lenz ids = n) by (unfold ids, lenz; rewrite (proj1 (block_ids_wf _ _ _)); lia).
  assert (Hk : forall d k, 0 <= k < n -> getz (blk (set_blocks d (lenz buf) n ids)) k zero_id =
    sha256 (file_chunk buf (lenz buf) k)).
  { intros d k Hkn. simpl. rewrite getz_app_ids by lia. apply block_ids_get. lia. }
  pose proof (find_row_range (g_live s) path 0) as [Hr|Hr].
  - destruct (Z.ltb_spec (find_row (g_live s) path 0) 0); [lia|]. intros [= <-].
    set (upd := fun p => set_blocks (set_version p (u32 (version p + 1))) (lenz buf) n ids).
    pose proof (find_row_hit (g_live s) path 0 upd ltac:(lia) ltac:(lia) ltac:(done)) as Hf.
    cbv zeta in Hf. rewrite Z.sub_0_r in Hf. unfold upd in Hf at 1.
    exists (find_row (g_live s) path 0). rewrite Hf. split; [done|]. split; [lia|].
    rewrite getz_setz by lia. rewrite Z.eqb_refl. split_and!; try done. intros k Hkn. by apply Hk.
  - rewrite Hr. simpl. destruct (_ <=? _); [done|]. intros [= <-].
    exists (lenz (g_live s)). rewrite find_row_app by (done || lia). simpl.
    assert (Hst : ark_streq (ark_strncpy path ARK_NAME_MAX) path = true).
    { unfold ark_streq. apply bool_decide_eq_true. by apply cstr_strncpy. }
    rewrite Hst. split; [done|]. split; [apply lenz_nonneg|].
    assert (Hrow : getz (g_live s ++ [set_blocks (new_row path 0) (lenz buf) n ids]) (lenz (g_live s)) zero_dent =
      set_blocks (new_row path 0) (lenz buf) n ids).
    { unfold getz, lenz. destruct (Z.ltb_spec (Z.of_nat (length (g_live s))) 0); [lia|].
      rewrite Nat2Z.id, app_nth2 by lia. by rewrite Nat.sub_diag. }
    rewrite Hrow. split_and!; try done. intros k Hkn. by apply Hk.
Qed.

End Read.

(** Remounting a clean state rebuilds it, index included. *)
Lemma base_mount {D} `{BdevLaws D} total (s : ark D) recs hc live mroot (s0 : ark ram) :
  4 <= total < 2 ^ 32 - 64 -> base total s recs [] hc live mroot -> g_log_end_override s0 = 0 ->
  exists m, ark_mount s0 (Bd ARK_SECTOR total (img s)) = (ARK_OK, m) /\
    g_live m = live /\ g_log_start m = g_log_start s /\ g_epoch m = g_epoch s /\ img m = img s /\
    base total m recs [] hc live mroot.
Proof.
  intros Ht B Ho. pose proof (base_bounds total _ _ _ _ _ _ B) as [Hb1 Hb2].
  destruct B as [B1 B2 B3 B4 B5 B6 B7 B8 B9 B10 B11 B12 B13 B14].
  pose proof (log_end _ _ _ _ _ _ B8) as Hh. simpl in Hh. rewrite Hh in *.
  assert (L : log_stores (img s) total (g_log_start s) (g_epoch s) recs hc live mroot) by (by split).
  destruct (mount_log (img s) total _ _ recs hc live mroot s0 Ht B2 B3 B4 L)
    as (m & Hm & M1 & M2 & M3 & M4 & M5 & M6 & M7 & M8 & M9 & M10).
  exists m. assert (Hi : img m = img s) by (unfold img at 1; by rewrite M1).
  split_and!; try done. split; rewrite ?Hi, ?M4, ?M5, ?M6; try done.
  - by exists (img s).
  - by rewrite M8.
  - by rewrite app_nil_r.
Qed.

(** C25: durability and the read-back of files. On a device without I/O
    errors, when [ark_write_file] returns [ARK_OK], [ark_read_file] of the
    same path returns exactly the bytes written (cut to the caller's buffer)
    and their full length, both in the running system and after the medium is
    mounted again, provided no other block on the medium shares an id with
    one of the file's chunks. *)
Theorem write_read {D} `{BdevLaws D} total (s : ark D) path buf out max (s0 : ark ram)
  (Htotal : 4 <= total < 2 ^ 32 - 64) (Hs : synced total s) (Hop : wf_op (OpWrite path buf))
  (Hsafe : op_safe total s (OpWrite path buf) = true) (Hs0 : g_log_end_override s0 = 0)
  (Hreads : forall (d : D) t, bd_read d t = Some (image d t)) (Hwrites : ~ write_fails D)
  (Hmax : 0 <= max <= lenz out) :
  let '(r, s') := ark_write_file s path buf (lenz buf) in
  r = ARK_OK -> chunks_unaliased total (img s') (g_epoch s') buf = true ->
  ark_read_file s' path out max = (lenz buf, blit out 0 (take (Z.to_nat max) buf)) /\
  exists m, ark_mount s0 (Bd ARK_SECTOR total (img s')) = (ARK_OK, m) /\
    ark_read_file m path out max = (lenz buf, blit out 0 (take (Z.to_nat max) buf)).
Proof.
  destruct Hs as (W & recs & pend & hc & B). unfold op_safe in Hsafe.
  apply andb_true_iff in Hsafe as [Hpl Hc]. pose proof Hop as Hop'. destruct Hop as (Hp & Hbuf & Hlen).
  pose proof (staged_outcome total Htotal s _ recs pend hc W B Hop' Hpl) as Hst.
  pose proof (run_staged s (OpWrite path buf) ltac:(by eapply base_attached)) as Hrun. cbn [run_op] in Hrun.
  rewrite Hrun. clear Hrun. revert Hst Hc. cbn [staged].
  destruct (Z.ltb_spec ARK_NAME_MAX (ark_strlen path + 1)) as [|Hname]; [done|].
  destruct (Z.ltb_spec ARK_MAX_BLK (file_blocks (lenz buf))) as [|Hblk]; [done|].
  pose proof (file_blocks_spec (lenz buf) ltac:(pose proof (lenz_nonneg buf); lia)) as (F1 & F2 & F3).
  assert (Hsmall : lenz buf <= 65536) by (unfold ARK_MAX_BLK in *; lia).
  set (n := Z.to_nat (file_blocks (lenz buf))).
  pose proof (put_blocks_outcome total Htotal n buf s recs pend hc _ _ 0 B Hbuf Hlen ltac:(lia) ltac:(lia)) as Ho.
  specialize (Ho ltac:(intros k Hk; cbn [data_plain] in Hpl; rewrite forallb_forall in Hpl; apply Hpl, list_elem_of_In, elem_of_seqZ; lia)).
  destruct (put_blocks n s buf (lenz buf) 0) as [[r ids] s1].
  destruct (Z.eqb_spec r ARK_OK) as [->|Hr]; cbn [negb].
  2: { intros _ _ Hr'. done. }
  destruct Ho as (HT & [(_ & -> & p & B1 & _ & Hin)|(Hr & _)]); [|done].
  destruct (update_rows s1 path (lenz buf) (file_blocks (lenz buf)) (block_ids buf 0 n)) as [rows|] eqn:Hup; [|done].
  intros (W1 & E1 & E2 & E3 & _) Hc.
  pose proof (base_set_live total _ _ _ _ _ _ B1 rows) as B1'.
  pose proof (commit_outcome total Htotal _ _ _ _ _ _ true B1' W1 Hc) as Hco. unfold commit_live.
  destruct (commit_live_ex (set_live s1 rows) true) as [r s'].
  destruct Hco as ((T1 & T2 & T3 & T4) & [(-> & _ & Hb)|(Hr & _)]); [|by intros ->].
  destruct (Hb Hwrites) as (recs' & hc' & B2 & Hbl). intros _ Hal.
  cbn [set_live g_live g_mroot g_log_start g_epoch] in *.
  destruct HT as (_ & _ & U3 & U4).
  assert (Hix : forall k, 0 <= k < file_blocks (lenz buf) ->
     is_Some (map_add_all (cap_of total) ∅ (blocks_of (g_log_start s) (recs' ++ [])) !! sha256 (file_chunk buf (lenz buf) k))).
  { intros k Hk. rewrite app_nil_r, <- U4, Hbl, U4. eapply (proj1 (Forall_forall _ _) Hin).
    unfold block_ids. apply in_map_iff. exists k. split; [done|].
    apply list_elem_of_In, elem_of_seqZ. lia. }
  split.
  - eapply read_file_back; try done.
    + unfold readable. destruct (b_bd _ _ _ _ _ _ _ B2) as [c ->]. intros t. apply Hreads.
    + by eapply update_rows_holds.
    + by rewrite T4, U4.
  - destruct (base_mount total s' recs' hc' rows _ s0 Htotal B2 Hs0) as (m & Hm & M1 & M2 & M3 & M4 & Bm).
    exists m. split; [done|]. eapply read_file_back; try done.
    + unfold readable. by destruct (b_bd _ _ _ _ _ _ _ Bm) as [c ->].
    + by eapply update_rows_holds.
    + by rewrite M4, M3.
    + by rewrite M2, T4, U4.
Qed.

(** A two-block file on a RAM device, read into a short buffer. *)
Definition ram_fresh : ark ram := snd (ark_format (boot_state ram) (Bd ARK_SECTOR 32 blank)).
Definition sample : list Z := replicate 4096 7 ++ [1; 2; 3].

Lemma ram_fresh_synced : synced 32 ram_fresh.
Proof.
  apply (format_synced 32 ltac:(lia) (boot_state ram) ram_fresh blank); [|done|apply blank_quiet].
  unfold ram_fresh. rewrite (surjective_pairing (ark_format _ _)) at 1. f_equal.
Qed.

Lemma ram_never_fails : ~ write_fails ram.
Proof. intros (d & t & x & Hf). done. Qed.

Lemma write_read_witness :
  let s' := snd (ark_write_file ram_fresh [47; 97] sample (lenz sample)) in
  ark_read_file s' [47; 97] (replicate 5 0) 5 = (4099, [7; 7; 7; 7; 7]) /\
  exists m, ark_mount (boot_state ram) (Bd ARK_SECTOR 32 (img s')) = (ARK_OK, m) /\
    ark_read_file m [47; 97] (replicate 5 0) 5 = (4099, [7; 7; 7; 7; 7]).
Proof.
  assert (Hop : wf_op (OpWrite [47; 97] sample)).
  { split; [by repeat constructor|]. split; [|done]. apply Forall_app. split; [|by repeat constructor].
    by apply Forall_replicate. }
  assert (Hsafe : op_safe 32 ram_fresh (OpWrite [47; 97] sample) = true) by (vm_compute; reflexivity).
  assert (Hr : fst (ark_write_file ram_fresh [47; 97] sample (lenz sample)) = ARK_OK) by (vm_compute; reflexivity).
  assert (Hal : (let s' := snd (ark_write_file ram_fresh [47; 97] sample (lenz sample)) in
    chunks_unaliased 32 (img s') (g_epoch s') sample) = true) by (vm_compute; reflexivity).
  pose proof (write_read 32 ram_fresh [47; 97] sample (replicate 5 0) 5 (boot_state ram) ltac:(lia)
    ram_fresh_synced Hop Hsafe eq_refl (fun _ _ => eq_refl) ram_never_fails ltac:(unfold lenz; simpl; lia)) as Ht.
  destruct (ark_write_file ram_fresh [47; 97] sample (lenz sample)) as [r s'].
  cbn [fst snd] in *. exact (Ht Hr Hal).
Defined.

(** ** Rot *)

Lemma read_fields {D} `{Bdev D} (s : ark D) sec v :
  snd (read_record s sec ARK_COMMIT_MAX) = Some v ->
  exists b, dev_read s sec = Some b /\ rv_id v = h_id (dec_hdr b) /\ rv_len v = h_len (dec_hdr b) /\
    rv_type v = h_type (dec_hdr b) /\ hdr_ok (g_epoch s) b = true /\ (rv_ok v = true -> sha256 (rv_pay v) = rv_id v).
Proof.
  unfold read_record, hdr_ok. destruct (_ <=? sec); [done|]. destruct (dev_read s sec) as [b|]; [|done]. cbv zeta.
  hdr_tests. cbn [snd]. intros [= <-]. exists b.
  repeat match goal with F : negb _ = false |- _ => apply negb_false_iff in F; rewrite F end.
  split_and!; try done. cbn [rv_ok rv_pay rv_id].
  destruct (gather _ _ _ _ _) as [p|]; [|done]. cbn [default].
  by intros [_ Hs%bool_decide_eq_true]%andb_true_iff.
Qed.

(** The number of places where two lists of one length differ. *)
Fixpoint differ (a b : list Z) : nat :=
  match a, b with
  | x :: a, y :: b => (if x =? y then 0 else 1) + differ a b
  | _, _ => 0
  end.

Lemma differ_none a b : length a = length b -> differ a b = 0%nat -> a = b.
Proof.
  revert b. induction a as [|x a IH]; intros [|y b]; try done. cbn [differ length]. intros [= Hl].
  destruct (Z.eqb_spec x y) as [->|]; [|done]. intros Hd. by rewrite (IH b).
Qed.

Lemma differ_one a b : length a = length b -> (differ a b <= 1)%nat ->
  a = b \/ exists pre x y post, a = pre ++ x :: post /\ b = pre ++ y :: post /\ x <> y.
Proof.
  revert b. induction a as [|x a IH]; intros [|y b]; try done; [by left|]. cbn [differ length]. intros [= Hl] Hd.
  destruct (Z.eqb_spec x y) as [->|Hne].
  - destruct (IH b Hl Hd) as [->|(pre & u & v & post & -> & -> & Huv)]; [by left|right]. by exists (y :: pre), u, v, post.
  - right. exists [], x, y, a. rewrite <- (differ_none a b) by (done || lia). done.
Qed.

Lemma rec_crc_of l : Forall is_u8 l -> ark_crc32 l = crc_of 0xEDB88420 l.
Proof.
  intros Hl. unfold crc_of. with_strategy transparent [ark_crc32] unfold ark_crc32. change FULL with (Z.ones 32).
  rewrite (fold_left_same_on crc_byte (crc_in 0xEDB88420) is_u32 is_u8 l); [reflexivity| |by apply crc_in_range|done|done].
  intros x b Hx Hb. unfold crc_byte, crc_in.
  assert (G : forall n i c, is_u32 c -> for_up n i (fun _ c => crc_bit c) c = for_up n i (fun _ c => crc_shift 0xEDB88420 c) c).
  { intros n. induction n as [|n IH]; intros i c Hc; [done|]. cbn [for_up].
    replace (crc_bit c) with (crc_shift 0xEDB88420 c) by (unfold crc_bit; by rewrite <- mask_step).
    by apply IH, crc_shift_range. }
  apply G. by apply lxor_reg.
Qed.

(** The header's fields lie in its first 60 bytes. *)
Lemma dec_hdr_take a b : take 60 a = take 60 b -> dec_hdr a = dec_hdr b.
Proof.
  intros E. assert (F : forall off n, (off + n <= 60)%nat -> field off n a = field off n b).
  { intros off n Ho. unfold field.
    assert (G : forall l : list Z, take n (drop off l) = take n (drop off (take 60 l))).
    { intros l. rewrite !take_drop_commute, take_take. do 2 f_equal. lia. }
    by rewrite (G a), (G b), E. }
  unfold dec_hdr, num. by rewrite !F by lia.
Qed.

Lemma hdr_ok_crc ep b : hdr_ok ep b = true -> ark_crc32 (take 56 b) = u32 (of_le (take 4 (drop 56 b))).
Proof. unfold hdr_ok. intros [[_ Hc%Z.eqb_eq]%andb_true_iff _]%andb_true_iff. exact Hc. Qed.

(** One damaged byte in the header's 60 does not give another header. *)
Lemma header_damage ep a b :
  Forall is_u8 a -> Forall is_u8 b -> length a = 512%nat -> length b = 512%nat ->
  hdr_ok ep a = true -> hdr_ok ep b = true -> (differ (take 60 a) (take 60 b) <= 1)%nat -> take 60 a = take 60 b.
Proof.
  intros Ha Hb La Lb Ka%hdr_ok_crc Kb%hdr_ok_crc Hd.
  assert (S60 : forall l : list Z, take 60 l = take 56 l ++ take 4 (drop 56 l)) by (intros l; by rewrite (take_take_drop l 56 4)).
  assert (Bt : forall l n m, Forall is_u8 l -> Forall is_u8 (take n (drop m l))) by (intros; by apply Forall_take, Forall_drop).
  destruct (differ_one (take 60 a) (take 60 b)) as [E|(pre & x & y & post & Ea & Eb & Hne)]; [rewrite !length_take; lia|done|done|].
  exfalso. apply Hne. rewrite S60 in Ea, Eb.
  assert (L4 : forall l : list Z, length l = 512%nat -> length (take 4 (drop 56 l)) = 4%nat) by (intros l Hl; rewrite length_take, length_drop; lia).
  assert (L56 : forall l : list Z, length l = 512%nat -> length (take 56 l) = 56%nat) by (intros l Hl; rewrite length_take; lia).
  destruct (Nat.lt_ge_cases (length pre) 56) as [Hp|Hp].
  - assert (P : forall (l : list Z) z, length l = 512%nat -> take 56 l ++ take 4 (drop 56 l) = pre ++ z :: post ->
      take 56 l = pre ++ z :: take (55 - length pre) post /\ take 4 (drop 56 l) = drop (55 - length pre) post).
    { intros l z Hl E. pose proof (L56 l Hl) as H56. split.
      - apply (f_equal (take 56)) in E. rewrite take_app_length' in E by done. rewrite E.
        rewrite take_app_ge by lia. f_equal. by replace (56 - length pre)%nat with (S (55 - length pre)) by lia.
      - apply (f_equal (drop 56)) in E. rewrite drop_app_length' in E by done. rewrite E.
        rewrite drop_app_ge by lia. by replace (56 - length pre)%nat with (S (55 - length pre)) by lia. }
    destruct (P a x La Ea) as [A1 A2]. destruct (P b y Lb Eb) as [B1 B2]. rewrite A2 in Ka. rewrite B2 in Kb.
    rewrite <- Kb in Ka. assert (Ba : Forall is_u8 (take 56 a)) by by apply Forall_take.
    assert (Bb : Forall is_u8 (take 56 b)) by by apply Forall_take.
    rewrite !rec_crc_of in Ka by done. rewrite A1 in Ka, Ba. rewrite B1 in Ka, Bb.
    apply (crc_of_one_byte 0xEDB88420) in Ka; [done|done|done|done|].
    apply list.Forall_app in Bb as [_ Bb]. by inversion Bb.
  - assert (E56 : take 56 a = take 56 b).
    { apply (f_equal (take 56)) in Ea, Eb. rewrite take_app_length' in Ea, Eb by (symmetry; auto).
      by rewrite Ea, Eb, !take_app_le by lia. }
    rewrite E56, Kb in Ka.
    assert (U : forall l : list Z, length l = 512%nat -> Forall is_u8 l -> u32 (of_le (take 4 (drop 56 l))) = of_le (take 4 (drop 56 l))).
    { intros l Hl Hu. apply Z.mod_small. pose proof (of_le_range (take 4 (drop 56 l)) (Bt l _ _ Hu)) as Hr. unfold lenz in Hr. by rewrite (L4 l Hl) in Hr. }
    rewrite !U in Ka by done. assert (E4 : take 4 (drop 56 a) = take 4 (drop 56 b)).
    { rewrite <- (le_of_le (take 4 (drop 56 a))), <- (le_of_le (take 4 (drop 56 b))) by auto. by rewrite !L4, Ka by done. }
    rewrite E56, E4, Eb in Ea. apply app_inv_head in Ea. by injection Ea.
Qed.

(** What [ark_block_get] answers from a sector that carries the header [h]:
    [p] is the payload it verified against the id of that header. *)
Definition served (h : list Z) (buf : list Z) (max : Z) (n : Z) (b p : list Z) : Prop :=
  n = h_len (dec_hdr h) /\ sha256 p = h_id (dec_hdr h) /\
  b = blit buf 0 (take (Z.to_nat (if n <? max then n else max)) p).

(** C40: what a decayed medium can make [ark_block_get] serve. Let the medium of
    a mounted, in-sync file system decay in any way: sectors change at will and
    reads may fail. [ark_block_get] returns [NOTFOUND] exactly for the ids outside
    the index. For an id inside it returns [CORRUPT] with the buffer untouched, or
    the recorded length with bytes that hash to the id, unless at least two of the
    60 bytes of the block's header have changed into another header that passes
    the check of its CRC and carries the epoch of the file system: then it serves
    bytes that hash to the id in that header, because the id found in the record
    is never compared with the id asked for. *)
Theorem rot_never_served {D} `{BdevLaws D} total (s : ark D) c id buf max
  (Htotal : 4 <= total < 2 ^ 32 - 64) (Hs : synced total s) :
  let i := idx_find (g_ix s) id in
  let sec := slot_sec (g_idx (g_ix s) i) in
  let old := img s sec in
  let new := image c sec in
  (0 <= i -> (Forall is_u8 old /\ length old = 512%nat) /\ (Forall is_u8 new /\ length new = 512%nat)) ->
  let '(n, b) := ark_block_get (set_ctx s c) id buf max in
  (i < 0 /\ n = ARK_E_NOTFOUND /\ b = buf) \/
  (0 <= i /\ n = ARK_E_CORRUPT /\ b = buf) \/
  (0 <= i /\ exists p, served old buf max n b p /\ sha256 p = id) \/
  (0 <= i /\ (2 <= differ (take 60 old) (take 60 new))%nat /\ hdr_ok (g_epoch s) new = true /\
   exists p, served new buf max n b p).
Proof.
  intros i sec old new Hsect. destruct Hs as (_ & recs & pend & hc & B).
  pose proof (find_spec _ _ (b_idx _ _ _ _ _ _ _ B) id) as Hf. fold i in Hf.
  unfold ark_block_get, mounted, set_ctx. destruct (b_bd _ _ _ _ _ _ _ B) as [c0 Ebd]. rewrite Ebd.
  cbn [negb g_bd g_ix sector_size total_sectors]. cbv zeta. fold i.
  destruct (map_add_all _ _ _ !! id) as [sec'|] eqn:E; [|destruct (Z.ltb_spec i 0); [by left|lia]].
  destruct Hf as [Hf1 Hf2]. destruct (Hsect ltac:(lia)) as [[Ho1 Ho2] [Hn1 Hn2]].
  destruct (Z.ltb_spec i 0); [lia|]. fold sec.
  assert (Hse : sec = sec') by (unfold sec; by rewrite Hf2). subst sec'.
  apply map_add_all_in in E as [E|Hin]; [by rewrite lookup_empty in E|].
  pose proof (log_app _ _ _ _ _ _ _ _ (b_log _ _ _ _ _ _ _ B) (b_pend _ _ _ _ _ _ _ B)) as Hl.
  destruct (blocks_of_in _ _ _ _ _ _ _ _ Hl Hin) as [Hsec (r & Hp & Ht & Hsha & _)].
  destruct (read_fields (disk (img s) total (g_epoch s)) sec _ Hp) as (b0 & [= <-] & I1 & _ & _ & I4 & _).
  cbn [view_of rv_id] in I1. cbn [disk g_epoch] in I4. fold old in I1, I4.
  set (s' := Ark _ _ _ _ _ _ _ _ _).
  destruct (snd (read_record s' sec ARK_COMMIT_MAX)) as [v|] eqn:Ev; [|by right; left].
  destruct (read_fields s' sec v Ev) as (b1 & Hb1 & J1 & J2 & _ & J4 & J5).
  assert (b1 = new) as ->.
  { unfold dev_read in Hb1. simpl in Hb1. by apply read_image in Hb1. }
  destruct (rv_type v =? ARK_REC_BLOCK); cbn [negb]; [|by right; left].
  destruct (rv_ok v); cbn [negb]; [|by right; left]. specialize (J5 eq_refl). right; right.
  assert (Hsv : served new buf max (rv_len v)
    (blit buf 0 (take (Z.to_nat (if rv_len v <? max then rv_len v else max)) (rv_pay v))) (rv_pay v))
    by (split; [done|]; split; [by rewrite J5|done]).
  destruct (Nat.le_gt_cases (differ (take 60 old) (take 60 new)) 1) as [Hd|Hd].
  - left. split; [lia|]. exists (rv_pay v).
    assert (E60 : dec_hdr new = dec_hdr old) by (symmetry; by apply dec_hdr_take, (header_damage (g_epoch s))).
    unfold served in *. rewrite E60 in Hsv. split; [exact Hsv|]. destruct Hsv as (_ & -> & _). by rewrite <- I1.
  - right. split; [lia|]. split; [lia|]. split; [exact J4|]. by exists (rv_pay v).
Qed.

Lemma block_put_synced {D} `{BdevLaws D} total (s : ark D) buf :
  4 <= total < 2 ^ 32 - 64 -> synced total s -> Forall is_u8 buf -> lenz buf <= ARK_BLOCK_MAX ->
  plain (g_epoch s) (Rec ARK_REC_BLOCK 0 buf) = true ->
  fst (fst (ark_block_put s buf)) = ARK_OK -> synced total (snd (ark_block_put s buf)).
Proof.
  intros Ht (W & recs & pend & hc & B) Hb Hl Hp Hok.
  pose proof (block_put_outcome total Ht s recs pend hc _ _ buf B Hb Hl Hp) as Ho.
  destruct (ark_block_put s buf) as [[r id] s1]. cbn [fst snd] in *.
  destruct Ho as [(_ & _ & (T1 & T2 & _) & p & B1 & _)|(Hr & _)]; [|done].
  unfold synced. rewrite T1, T2. split; [done|]. by exists recs, (pend ++ p), hc.
Qed.

(** One payload byte of a stored block flipped. *)
Definition rot_state : ark ram := snd (ark_block_put ram_fresh [1; 2; 3]).

Lemma rot_never_served_witness :
  let bad : ram := upd (img rot_state) 4 (9 :: drop 1 (img rot_state 4)) in
  fst (ark_block_get (set_ctx rot_state bad) (sha256 [1; 2; 3]) [] 0) = ARK_E_CORRUPT.
Proof.
  intros bad.
  assert (Hok : fst (fst (ark_block_put ram_fresh [1; 2; 3])) = ARK_OK) by (vm_compute; reflexivity).
  assert (Hpl : plain (g_epoch ram_fresh) (Rec ARK_REC_BLOCK 0 [1; 2; 3]) = true) by (vm_compute; reflexivity).
  assert (Hsec : slot_sec (g_idx (g_ix rot_state) (idx_find (g_ix rot_state) (sha256 [1; 2; 3]))) = 3)
    by (vm_compute; reflexivity).
  assert (Hi : (0 <=? idx_find (g_ix rot_state) (sha256 [1; 2; 3])) = true) by (vm_compute; reflexivity).
  assert (Hn : fst (ark_block_get (set_ctx rot_state bad) (sha256 [1; 2; 3]) [] 0) <> h_len (dec_hdr (img rot_state 3)))
    by (vm_compute; discriminate).
  assert (Hb : forallb (fun x => (0 <=? x) && (x <? 256)) (img rot_state 3) = true) by (vm_compute; reflexivity).
  assert (Hsect : Forall is_u8 (img rot_state 3) /\ length (img rot_state 3) = 512%nat).
  { split; [|vm_compute; reflexivity]. apply Forall_forall. intros x Hx. rewrite forallb_forall in Hb.
    apply Hb, andb_true_iff in Hx as [?%Z.leb_le ?%Z.ltb_lt]. by split. }
  assert (Hsame : image bad 3 = img rot_state 3) by reflexivity.
  assert (Hd : differ (take 60 (img rot_state 3)) (take 60 (img rot_state 3)) = 0%nat) by (vm_compute; reflexivity).
  assert (Hsy : synced 32 rot_state).
  { apply (block_put_synced 32 ram_fresh); [lia|apply ram_fresh_synced|by repeat constructor|done|done|done]. }
  pose proof (rot_never_served 32 rot_state bad (sha256 [1; 2; 3]) [] 0 ltac:(lia) Hsy) as Ht.
  cbv zeta in Ht. rewrite Hsec, Hsame in Ht. specialize (Ht (fun _ => conj Hsect Hsect)).
  destruct (ark_block_get (set_ctx rot_state bad) (sha256 [1; 2; 3]) [] 0) as [n b].
  apply Z.leb_le in Hi. cbn [fst] in *.
  destruct Ht as [(Hx & _)|[(_ & Hx & _)|[(_ & p & (Hx & _) & _)|(_ & Hx & _)]]]; [lia|exact Hx|contradiction|lia].
Defined.

(** The sectors of one record copied over those of another (a misdirected
    write): asked for the first block, [ark_block_get] serves the second. *)
Definition two_blocks : ark ram := snd (ark_block_put rot_state [4; 5]).
Example misdirected_record_served :
  let bad : ram := upd (upd (img two_blocks) 3 (img two_blocks 5)) 4 (img two_blocks 6) in
  ark_block_get (set_ctx two_blocks bad) (sha256 [1; 2; 3]) [0; 0; 0] 3 = (2, [4; 5; 0]) /\
  ark_block_get two_blocks (sha256 [1; 2; 3]) [0; 0; 0] 3 = (3, [1; 2; 3]).
Proof. vm_compute. split; reflexivity. Qed.
