(* ===== verification/ArkFaults.v ===== *)
(** * Where ARK departs from its contract

    Behaviours of the code, each proved on the model as written, that the
    comments of [arkfs.h] and [arkfs.c] promise otherwise. *)

From S2P Require Import Prelude Sha256 ArkIndex ArkLog ArkDisk ArkFs ArkReplay ArkCrash ArkOps ArkFormat ArkRead.

(** A sum that begins with a short-circuit: [negb] of a mounted device. *)
Lemma mounted_attached {D} (s : ark D) : g_bd s <> None -> mounted s = true.
Proof. unfold mounted. by destruct (g_bd s). Qed.

Lemma commit_full {D} `{Bdev D} (s : ark D) :
  fst (commit_live s) = ARK_E_FULL -> snd (commit_live s) = s.
Proof.
  unfold commit_live, commit_live_ex. unfold emit_record at 1. cbv zeta.
  destruct (_ <? _) eqn:E.
  - unfold emit_record. cbv zeta. rewrite E. done.
  - unfold emit_record at 2 3. cbv zeta. rewrite E.
    destruct (dev_write _ _ _) as [ok s1]. destruct ok; cbn [negb]; [|done].
    destruct (emit_payload _ _ _ _ _) as [ok s2]. destruct ok; cbn [negb]; [|done].
    cbn [Z.eqb ARK_OK]. done.
Qed.

(** A refused commit is visible all the same. When the log is full,
    [ark_mkdir] returns [ARK_E_FULL] and writes nothing, yet the live table
    keeps the new entry: [ark_stat] reports it, the medium does not hold it,
    and the next successful commit of anything else makes it durable. *)
Theorem full_mkdir_leaks {D} `{Bdev D} (s : ark D) path
  (Hb : g_bd s <> None) (Hlen : ark_strlen path + 1 <= ARK_NAME_MAX) (Hnew : live_find s path = -1)
  (Hroom : lenz (g_live s) < ARK_MAX_FILES) (Hfull : fst (ark_mkdir s path) = ARK_E_FULL) :
  let s' := snd (ark_mkdir s path) in
  s' = set_live s (g_live s ++ [new_row path 1]) /\
  fst (ark_stat s path) = ARK_E_NOTFOUND /\ ark_stat s' path = (ARK_OK, Some (0, 1, 1)).
Proof.
  assert (Hmk : ark_mkdir s path = commit_live (set_live s (g_live s ++ [new_row path 1]))).
  { unfold ark_mkdir. rewrite mounted_attached by done. cbn [negb].
    rewrite (proj2 (Z.ltb_ge _ _)), Hnew, (proj2 (Z.leb_gt _ _) Hroom) by lia. done. }
  rewrite Hmk in *. cbv zeta. rewrite (commit_full _ Hfull). split; [done|].
  split; [unfold ark_stat; by rewrite mounted_attached, Hnew|].
  unfold ark_stat. rewrite mounted_attached by done. cbn [negb]. cbv zeta.
  assert (He : live_find (set_live s (g_live s ++ [new_row path 1])) path = lenz (g_live s)).
  { unfold live_find. cbn [set_live g_live]. rewrite find_row_app by (done || lia). simpl.
    assert (Hst : ark_streq (ark_strncpy path ARK_NAME_MAX) path = true)
      by (apply bool_decide_eq_true; by apply cstr_strncpy).
    by rewrite Hst. }
  rewrite He. pose proof (lenz_nonneg (g_live s)). destruct (Z.ltb_spec (lenz (g_live s)) 0); [lia|].
  assert (Hr : row (set_live s (g_live s ++ [new_row path 1])) (lenz (g_live s)) = new_row path 1).
  { unfold row, getz, lenz. cbn [set_live g_live]. destruct (Z.ltb_spec (Z.of_nat (length (g_live s))) 0); [lia|].
    rewrite Nat2Z.id, app_nth2 by lia. by rewrite Nat.sub_diag. }
  by rewrite Hr.
Qed.

(** A four-sector medium: the format's commit fills the log. *)
Definition tiny : ark ram := snd (ark_format (boot_state ram) (Bd ARK_SECTOR 4 blank)).

Lemma full_mkdir_leaks_witness :
  let s' := snd (ark_mkdir tiny [47; 97]) in
  s' = set_live tiny (g_live tiny ++ [new_row [47; 97] 1]) /\
  fst (ark_stat tiny [47; 97]) = ARK_E_NOTFOUND /\ ark_stat s' [47; 97] = (ARK_OK, Some (0, 1, 1)).
Proof.
  apply (full_mkdir_leaks tiny [47; 97]);
    [vm_compute; discriminate|vm_compute; discriminate|vm_compute; reflexivity|vm_compute; reflexivity|vm_compute; reflexivity].
Defined.

(** The size check of [ark_write_file] wraps. A length within 4095 of
    [2^32] rounds up to zero blocks: the [ARK_E_TOOBIG] guard passes, nothing
    is stored, and the call commits a row of that size with no blocks. *)
Theorem write_size_wraps {D} `{Bdev D} (s : ark D) path buf len
  (Hb : g_bd s <> None) (Hname : ark_strlen path + 1 <= ARK_NAME_MAX) (Hnew : live_find s path = -1)
  (Hroom : lenz (g_live s) < ARK_MAX_FILES) (Hlen : 2 ^ 32 - 4096 < len < 2 ^ 32) :
  let rows := g_live s ++ [set_blocks (new_row path 0) len 0 []] in
  file_blocks len = 0 /\ ark_write_file s path buf len = commit_live (set_live s rows) /\
  forall out max, read_dent_blocks s (set_blocks (new_row path 0) len 0 []) out max = (len - 2 ^ 32, out).
Proof.
  assert (Hfb : file_blocks len = 0).
  { unfold file_blocks, ARK_BLOCK_MAX. destruct (len =? 0); [done|]. unfold u32.
    replace (len + 4096 - 1) with (len - (2 ^ 32 - 4095) + 1 * 2 ^ 32) by lia.
    rewrite Z_mod_plus_full, Z.mod_small by lia. apply Z.div_small. lia. }
  cbv zeta. split; [done|]. split.
  - unfold ark_write_file. rewrite mounted_attached by done. cbn [negb].
    rewrite (proj2 (Z.ltb_ge _ _)) by lia. cbv zeta. rewrite Hfb. simpl.
    unfold update_rows. rewrite Hnew. simpl. by rewrite (proj2 (Z.leb_gt _ _) Hroom).
  - intros out max. unfold read_dent_blocks. simpl. f_equal. unfold i32.
    replace (len + 2 ^ 31) with (len - 2 ^ 31 + 1 * 2 ^ 32) by lia.
    rewrite Z_mod_plus_full, Z.mod_small by lia. lia.
Qed.

Lemma write_size_wraps_witness :
  file_blocks (2 ^ 32 - 1) = 0 /\
  fst (ark_write_file ram_fresh [47; 97] [] (2 ^ 32 - 1)) = ARK_OK.
Proof.
  destruct (write_size_wraps ram_fresh [47; 97] [] (2 ^ 32 - 1)) as (H1 & H2 & _);
    [vm_compute; discriminate|vm_compute; discriminate|vm_compute; reflexivity|vm_compute; reflexivity|lia|].
  split; [exact H1|]. rewrite H2. vm_compute. reflexivity.
Defined.

(** A refused mount stays attached. When neither superblock is valid,
    [ark_mount] returns [ARK_E_CORRUPT] but keeps the device; the state it
    keeps beside it is the one of the previous mount, or of the boot. *)
Theorem refused_mount_attaches {D} `{Bdev D} (s : ark D) bd
  (Hss : sector_size bd = ARK_SECTOR) (Hr : fst (ark_mount s bd) = ARK_E_CORRUPT) :
  snd (ark_mount s bd) = set_bd s (Some bd) /\ mounted (snd (ark_mount s bd)) = true.
Proof.
  revert Hr. unfold ark_mount. rewrite Hss, Z.eqb_refl. cbn [negb]. cbv zeta.
  destruct (match _ with Some b => Some b | None => _ end) as [b|]; cbn [fst snd]; [done|]. done.
Qed.

(** After a refused mount at boot, [ark_mkdir] succeeds and the record it
    appends lands on sector 0, over the primary superblock. *)
Lemma refused_mount_attaches_witness :
  let s := snd (ark_mount (boot_state ram) (Bd ARK_SECTOR 32 blank)) in
  let '(r, s') := ark_mkdir s [47; 97] in
  s = set_bd (boot_state ram) (Some (Bd ARK_SECTOR 32 blank)) /\
  r = ARK_OK /\ take 4 (img s' 0) = ARK_REC_MAGIC.
Proof.
  intros s.
  destruct (refused_mount_attaches (boot_state ram) (Bd ARK_SECTOR 32 blank) eq_refl) as [Hs _];
    [vm_compute; reflexivity|].
  assert (Hr : fst (ark_mkdir s [47; 97]) = ARK_OK) by (vm_compute; reflexivity).
  assert (Hm : take 4 (img (snd (ark_mkdir s [47; 97])) 0) = ARK_REC_MAGIC) by (vm_compute; reflexivity).
  destruct (ark_mkdir s [47; 97]) as [r s']. cbn [fst snd] in *. split; [exact Hs|split; [exact Hr|exact Hm]].
Defined.

(** ** A format that does not forget

    The epoch that fences off older records is taken from sector 0 alone. *)

(** A 24-sector medium with one file, whose primary superblock then rots. *)
Definition lived : ark ram :=
  snd (ark_write_file (snd (ark_format (boot_state ram) (Bd ARK_SECTOR 24 blank))) [47; 97] [1; 2; 3] 3).
Definition rotted : ARK_BDEV ram := Bd ARK_SECTOR 24 (upd (img lived) 0 (replicate 512 0)).
Definition reformatted : ark ram := snd (ark_format (boot_state ram) rotted).

(** [ark_format] "destroys any existing content", but not this one: the
    medium still has a valid replica superblock, the format ignores it, picks
    epoch 1 again, and the next mount replays the old file from the log. *)
Theorem format_resurrects :
  super_valid (ctx rotted (lim 24)) = true /\
  fst (ark_format (boot_state ram) rotted) = ARK_OK /\ g_live reformatted = [] /\
  let '(r, m) := ark_mount (boot_state ram) (Bd ARK_SECTOR 24 (img reformatted)) in
  r = ARK_OK /\ ark_read_file m [47; 97] (replicate 3 0) 3 = (3, [1; 2; 3]).
Proof.
  split; [vm_compute; reflexivity|]. split; [vm_compute; reflexivity|]. split; [vm_compute; reflexivity|].
  assert (H1 : fst (ark_mount (boot_state ram) (Bd ARK_SECTOR 24 (img reformatted))) = ARK_OK)
    by (vm_compute; reflexivity).
  assert (H2 : ark_read_file (snd (ark_mount (boot_state ram) (Bd ARK_SECTOR 24 (img reformatted))))
    [47; 97] (replicate 3 0) 3 = (3, [1; 2; 3])) by (vm_compute; reflexivity).
  destruct (ark_mount _ _) as [r m]. split; [exact H1|exact H2].
Qed.

(** The checksum is not CRC-32: its polynomial is [0xEDB88420], not
    [0xEDB88320], and the check value of ["123456789"] differs. *)
Theorem crc_check_value : ark_crc32 [49; 50; 51; 52; 53; 54; 55; 56; 57] <> 0xCBF43926.
Proof. vm_compute. discriminate. Qed.
