(* ===== verification/ArkMerkle.v ===== *)
(** * The Merkle directory tree of ARK ([arch/common/arkfs.c], lines 769-1013)

    A directory is a content-addressed block of name-sorted entries; a put
    rewrites the nodes of one path bottom-up and commits the new root. *)

From Stdlib Require Import Sorting.Permutation Sorting.Sorted.
From S2P Require Import Prelude Sha256 ArkIndex ArkLog ArkFs.

Definition ARK_MENT_NAME : Z := 48.
Definition ARK_MTREE_MAXDEPTH : Z := 8.
Definition ARK_MENT_FILE : Z := 1.
Definition ARK_MENT_DIR : Z := 2.
Definition ARK_MNODE_MAGIC : Z := 0x314d4e44.
Definition ARK_MNODE_MAXENT : Z := (ARK_BLOCK_MAX - 8) / 88.

Record ark_ment := Ment { m_type : Z; m_pad : list Z; m_size : Z; m_child : list Z; m_name : list Z }.

Definition enc_ment (m : ark_ment) : list Z :=
  [m_type m] ++ m_pad m ++ le 4 (m_size m) ++ m_child m ++ m_name m.
Definition dec_ment (l : list Z) : ark_ment :=
  Ment (nth 0 l 0) (field 1 3 l) (num 4 l) (field 8 32 l) (field 40 48 l).

Definition mid_zero (id : list Z) : bool := forallb (fun b => b =? 0) id.

(** [mstrcmp]: the difference of the first bytes that differ. *)
Fixpoint strdiff (a b : list Z) : Z :=
  match a, b with
  | [], [] => 0
  | [], y :: _ => - y
  | x :: _, [] => x
  | x :: a', y :: b' => if x =? y then strdiff a' b' else x - y
  end.
Definition mstrcmp (a b : list Z) : Z := strdiff (cstr a) (cstr b).

(** ** Paths *)

(** One component of at most [ARK_MENT_NAME - 1] bytes, and the rest of the
    path from its ['/'] on. *)
Fixpoint take_comp (l : list Z) (j : Z) : option (list Z * list Z) :=
  match l with
  | [] => Some ([], [])
  | c :: r =>
      if c =? 47 then Some ([], l)
      else if ARK_MENT_NAME <=? j + 1 then None
      else match take_comp r (j + 1) with
           | None => None
           | Some (w, rest) => Some (c :: w, rest)
           end
  end.

Fixpoint split_from (fuel : nat) (l : list Z) (nc maxc : Z) : option (list (list Z)) :=
  match l, fuel with
  | [], _ => Some []
  | _, O => None
  | _, S k =>
      if maxc <=? nc then None
      else match take_comp l 0 with
      | None | Some ([], _) => None
      | Some (w, rest) =>
          let rest := match rest with c :: r => if c =? 47 then r else rest | [] => [] end in
          match split_from k rest (nc + 1) maxc with
          | None => None
          | Some ws => Some (w :: ws)
          end
      end
  end.

(** [None] is [ARK_E_INVAL]. *)
Definition mpath_split (path : list Z) (maxc : Z) : option (list (list Z)) :=
  let p := cstr path in
  let p := match p with c :: r => if c =? 47 then r else p | [] => [] end in
  match split_from (length p) p 0 maxc with
  | Some [] | None => None
  | Some ws => Some ws
  end.

(** ** Nodes *)

Fixpoint dec_ments (n : nat) (l : list Z) : list ark_ment :=
  match n with O => [] | S k => dec_ment (take 88 l) :: dec_ments k (drop 88 l) end.

(** The shifting loop of [ment_sort], over the reversed sorted prefix. *)
Fixpoint sift (rp : list ark_ment) (key : ark_ment) : list ark_ment :=
  match rp with
  | [] => [key]
  | x :: r => if 0 <? mstrcmp (m_name x) (m_name key) then x :: sift r key else key :: rp
  end.
Definition ment_sort (m : list ark_ment) : list ark_ment := rev (fold_left sift m []).

Fixpoint ment_find_from (m : list ark_ment) (nm : list Z) (i : Z) : Z :=
  match m with
  | [] => -1
  | x :: r => if ark_streq (m_name x) nm then i else ment_find_from r nm (i + 1)
  end.
Definition ment_find (m : list ark_ment) (nm : list Z) : Z := ment_find_from m nm 0.

Definition zero_ment : ark_ment := Ment 0 [0; 0; 0] 0 zero_id (replicate 48 0).
Definition ment_at (m : list ark_ment) (e : Z) : ark_ment := getz m e zero_ment.

Definition node_bytes (m : list ark_ment) : list Z :=
  le 4 ARK_MNODE_MAGIC ++ le 4 (lenz m) ++ concat (map enc_ment (ment_sort m)).

Section Merkle.
Context {D : Type} `{Bdev D}.

Definition mnode_load (s : ark D) (id : list Z) : Z * list ark_ment :=
  if mid_zero id then (ARK_OK, [])
  else
    let '(bl, b) := ark_block_get s id (replicate 4096 0) ARK_BLOCK_MAX in
    if bl =? ARK_E_NOTFOUND then (ARK_E_NOTFOUND, [])
    else if bl <? 0 then (ARK_E_CORRUPT, [])
    else if bl <? 8 then (ARK_E_CORRUPT, [])
    else if negb (num 0 b =? ARK_MNODE_MAGIC) then (ARK_E_CORRUPT, [])
    else
      let ne := num 4 b in
      if ARK_MNODE_MAXENT <? ne then (ARK_E_CORRUPT, [])
      else if bl <? 8 + ne * 88 then (ARK_E_CORRUPT, [])
      else (ARK_OK, dec_ments (Z.to_nat ne) (drop 8 b)).

Definition mnode_emit (s : ark D) (m : list ark_ment) : (Z * list Z) * ark D :=
  if ARK_MNODE_MAXENT <? lenz m then ((ARK_E_FULL, []), s) else ark_block_put s (node_bytes m).

Definition ark_mtree_root (s : ark D) : Z * list Z := (ARK_OK, g_mroot s).

(** Insert or replace the entry [nm] in a node: steps 3 and 4 of
    [ark_mtree_put]. *)
Definition put_entry (m : list ark_ment) (nm : list Z) (type size : Z) (child : list Z) : Z + list ark_ment :=
  let e := ment_find m nm in
  if e <? 0 then
    if ARK_MNODE_MAXENT <=? lenz m then inl ARK_E_FULL
    else inr (m ++ [Ment type [0; 0; 0] size child (ark_strncpy nm ARK_MENT_NAME)])
  else if negb (m_type (ment_at m e) =? type) then inl ARK_E_INVAL
  else inr (setz m e (Ment type (m_pad (ment_at m e)) size child (m_name (ment_at m e)))).

(** Step 2: the nodes from the root down to the file's parent. *)
Fixpoint load_chain (s : ark D) (comps : list (list Z)) (cur : list Z) : Z + list (list ark_ment) :=
  match comps with
  | [] => inr []
  | c :: rest =>
      let '(r, m) := mnode_load s cur in
      if r =? ARK_E_NOTFOUND then inl ARK_E_CORRUPT
      else if negb (r =? ARK_OK) then inl r
      else match rest with
      | [] => inr [m]
      | _ =>
          let e := ment_find m c in
          let next :=
            if 0 <=? e then
              if m_type (ment_at m e) =? ARK_MENT_DIR then Some (m_child (ment_at m e)) else None
            else Some zero_id in
          match next with
          | None => inl ARK_E_INVAL
          | Some cur' =>
              match load_chain s rest cur' with inl r => inl r | inr ms => inr (m :: ms) end
          end
      end
  end.

(** Steps 3 and 4: the deepest node takes the file, every other the id of
    the node below; each is stored as it is rewritten. *)
Fixpoint emit_chain (s : ark D) (nodes : list (list ark_ment)) (comps : list (list Z)) (size : Z) (cid : list Z) :
    (Z * list Z) * ark D :=
  match nodes, comps with
  | [m], [c] =>
      match put_entry m c ARK_MENT_FILE size cid with
      | inl r => ((r, []), s)
      | inr m' => mnode_emit s m'
      end
  | m :: ms, c :: cs =>
      let '((r, id), s) := emit_chain s ms cs size cid in
      if negb (r =? ARK_OK) then ((r, []), s)
      else match put_entry m c ARK_MENT_DIR 0 id with
      | inl r => ((r, []), s)
      | inr m' => mnode_emit s m'
      end
  | _, _ => ((ARK_E_INVAL, []), s)
  end.

Definition ark_mtree_put (s : ark D) (path buf : list Z) : Z * ark D :=
  if negb (mounted s) then (ARK_E_NOTMOUNTED, s)
  else if ARK_BLOCK_MAX <? lenz buf then (ARK_E_TOOBIG, s)
  else match mpath_split path ARK_MTREE_MAXDEPTH with
  | None => (ARK_E_INVAL, s)
  | Some comps =>
      let '((r, cid), s) := ark_block_put s buf in
      if negb (r =? ARK_OK) then (r, s)
      else match load_chain s comps (g_mroot s) with
      | inl r => (r, s)
      | inr nodes =>
          let '((r, id), s) := emit_chain s nodes comps (lenz buf) cid in
          if negb (r =? ARK_OK) then (r, s) else commit_live (set_mroot s id)
      end
  end.

(** The walk of [ark_mtree_get] below a node. *)
Fixpoint get_walk (s : ark D) (comps : list (list Z)) (cur : list Z) (buf : list Z) (max : Z) : Z * list Z :=
  match comps with
  | [] => (ARK_E_NOTFOUND, buf)
  | c :: rest =>
      let '(r, m) := mnode_load s cur in
      if negb (r =? ARK_OK) then (r, buf)
      else
        let e := ment_find m c in
        if e <? 0 then (ARK_E_NOTFOUND, buf)
        else match rest with
        | [] => if negb (m_type (ment_at m e) =? ARK_MENT_FILE) then (ARK_E_NOTFOUND, buf)
                else ark_block_get s (m_child (ment_at m e)) buf max
        | _ => if negb (m_type (ment_at m e) =? ARK_MENT_DIR) then (ARK_E_NOTFOUND, buf)
               else get_walk s rest (m_child (ment_at m e)) buf max
        end
  end.

Definition ark_mtree_get (s : ark D) (path buf : list Z) (max : Z) : Z * list Z :=
  if negb (mounted s) then (ARK_E_NOTMOUNTED, buf)
  else match mpath_split path ARK_MTREE_MAXDEPTH with
  | None => (ARK_E_INVAL, buf)
  | Some comps =>
      if mid_zero (g_mroot s) then (ARK_E_NOTFOUND, buf) else get_walk s comps (g_mroot s) buf max
  end.

(** The descent of [ark_mtree_list]: empty components are skipped. *)
Fixpoint list_walk (fuel : nat) (s : ark D) (l : list Z) (cur : list Z) : Z + list Z :=
  match l, fuel with
  | [], _ => inr cur
  | _, O => inl ARK_E_INVAL
  | _, S k =>
      match take_comp l 0 with
      | None => inl ARK_E_INVAL
      | Some (w, rest) =>
          let rest := match rest with c :: r => if c =? 47 then r else rest | [] => [] end in
          match w with
          | [] => list_walk k s rest cur
          | _ =>
              let '(r, m) := mnode_load s cur in
              if negb (r =? ARK_OK) then inl r
              else
                let e := ment_find m w in
                if (e <? 0) || negb (m_type (ment_at m e) =? ARK_MENT_DIR) then inl ARK_E_NOTFOUND
                else list_walk k s rest (m_child (ment_at m e))
          end
      end
  end.

Definition ark_mtree_list (s : ark D) (path : list Z) (max : Z) : Z * list ARK_DIRENT :=
  if negb (mounted s) then (ARK_E_NOTMOUNTED, [])
  else
    let p := cstr path in
    let p := match p with c :: r => if c =? 47 then r else p | [] => [] end in
    match list_walk (length p) s p (g_mroot s) with
    | inl r => (r, [])
    | inr cur =>
        let '(r, m) := mnode_load s cur in
        if negb (r =? ARK_OK) then (r, [])
        else
          let l := take (Z.to_nat max) (map (fun x => Dirent (cstr (m_name x)) (m_size x)
                     (if m_type x =? ARK_MENT_DIR then 1 else 0) 1) m) in
          (lenz l, l)
    end.

End Merkle.
