(* ===== verification/Lookup.v ===== *)
(** * Rendezvous lookup with a local cache: src/arch/common/lookup.c

    Which nodes hold a key is computed, not stored: every node ranks the members
    it sees by [sha256(key || id)] and takes the first [r]. This file models the
    ranking of the hosted build (a node id is 16 bits there, a narrow id hashes
    as on bare metal), the resolution cache, the candidate list and the two
    self-tests of the source. An array with its count is a list; [None] is the
    result -1. The theorems about them are in LookupFacts.v and LookupCache.v. *)

From stdpp Require Import strings.
#[local] Open Scope string_scope.
#[local] Open Scope list_scope.
#[local] Open Scope Z_scope.
From S2P Require Import Prelude.
From S2P Require Import Sha256.
From S2P Require Import Node.

Definition LOOKUP_KEY_LEN : Z := 32.
Definition LOOKUP_MAX_MEMBERS : Z := 64.
Definition LOOKUP_CACHE_SIZE : Z := 16.
Definition LOOKUP_CACHE_TTL_MS : Z := 9000.

(** ** The ranking *)

Record HRW_SCORE : Type := Score { hi : Z; lo : Z; id : Z }.

#[global] Instance HRW_SCORE_eq_dec : EqDecision HRW_SCORE.
Proof. solve_decision. Defined.

Definition hrw_weight (key : list Z) (node : Z) : Z * Z :=
  let d := if 0xFF <? node
           then sha256 (key ++ [Z.land node 0xFF; Z.land (Z.shiftr node 8) 0xFF])
           else sha256 (key ++ [Z.land node 0xFF]) in
  let pick a :=
    Z.lor (Z.lor (Z.lor (Z.shiftl (getz d a 0) 24) (Z.shiftl (getz d (a + 1) 0) 16))
             (Z.shiftl (getz d (a + 2) 0) 8)) (getz d (a + 3) 0) in
  (pick 0, pick 4).

Definition score (key : list Z) (node : Z) : HRW_SCORE :=
  let '(h, l) := hrw_weight key node in Score h l node.

(** Does [a] rank before [b]? *)
Definition hrw_before (a b : HRW_SCORE) : bool :=
  if negb (hi a =? hi b) then hi b <? hi a
  else if negb (lo a =? lo b) then lo b <? lo a
  else id a <? id b.

(** The inner loop: entries that rank after [cur] move up one place. *)
Fixpoint shift_up (cur : HRW_SCORE) (sc : list HRW_SCORE) (j : nat) : list HRW_SCORE * nat :=
  match j with
  | O => (sc, O)
  | S k =>
      let below := nth k sc (Score 0 0 0) in
      if hrw_before cur below then shift_up cur (<[j := below]> sc) k else (sc, j)
  end.

Definition rank_one (key : list Z) (st : list HRW_SCORE * nat) (member : Z) : list HRW_SCORE * nat :=
  let '(sc, cnt) := st in
  let cur := score key member in
  let '(sc, j) := shift_up cur sc cnt in
  (<[j := cur]> sc, S cnt).

Definition score_table : list HRW_SCORE := replicate (Z.to_nat LOOKUP_MAX_MEMBERS) (Score 0 0 0).

Definition lookup_responsible (key members : list Z) (r : Z) : option (list Z) :=
  if (lenz members <=? 0) || (r <=? 0) then None
  else if LOOKUP_MAX_MEMBERS <? lenz members then None
  else
    let '(sc, cnt) := fold_left (rank_one key) members (score_table, O) in
    let n := if r <? Z.of_nat cnt then Z.to_nat r else cnt in
    Some (map id (take n sc)).

(** The members of the local views: the indices of [dnode_table] in the state
    alive, or in the local region. *)
Definition collect (p : Z -> bool) : list Z := List.filter p (seqZ 0 DNODE_MAX).

Definition lookup_responsible_region (key : list Z) (is_member : Z -> bool) (r : Z) : option (list Z) :=
  let members := collect is_member in
  if lenz members =? 0 then Some [] else lookup_responsible key members r.

Definition lookup_responsible_alive (key : list Z) (dnode_state : Z -> Z) (r : Z) : option (list Z) :=
  let members := collect (fun i => dnode_state i =? DNODE_ALIVE) in
  if lenz members =? 0 then Some [] else lookup_responsible key members r.

(** ** The resolution cache *)

Record LOOKUP_CACHE_ENT : Type := Ent { ekey : list Z; seen_ms : Z; node : Z; valid : bool }.

Abbreviation cache := (list LOOKUP_CACHE_ENT).
Definition no_ent : LOOKUP_CACHE_ENT := Ent (replicate 32 0) 0 0 false.
Definition lk_cache0 : cache := replicate (Z.to_nat LOOKUP_CACHE_SIZE) no_ent.

Definition lk_key_eq (a b : list Z) : bool := bool_decide (a = b).
Definition lk_age (e : LOOKUP_CACHE_ENT) (now : Z) : Z := u32 (now - seen_ms e).
Definition lk_fresh (e : LOOKUP_CACHE_ENT) (now : Z) : bool :=
  valid e && (lk_age e now <=? LOOKUP_CACHE_TTL_MS).

(** The first slot that holds [key]. *)
Fixpoint find_key (key : list Z) (c : cache) (i : nat) : option nat :=
  match c with
  | [] => None
  | e :: c' => if valid e && lk_key_eq (ekey e) key then Some i else find_key key c' (S i)
  end.

(** The eviction scan; [best] is the slot chosen so far with its age. *)
Fixpoint victim (now : Z) (c : cache) (i : nat) (best : option (nat * Z)) : option (nat * Z) :=
  match c with
  | [] => best
  | e :: c' =>
      if negb (valid e) then Some (i, match best with Some (_, a) => a | None => 0 end)
      else
        let age := lk_age e now in
        victim now c' (S i)
          (match best with
           | None => Some (i, age)
           | Some (_, a) => if a <? age then Some (i, age) else best
           end)
  end.

Definition lookup_note_found (c : cache) (now : Z) (key : list Z) (n : Z) : cache :=
  match find_key key c 0 with
  | Some i => alter (fun e => Ent (ekey e) now n (valid e)) i c
  | None =>
      match victim now c 0 None with
      | Some (i, _) => <[i := Ent key now n true]> c
      | None => c
      end
  end.

(** The answer, and the cache: an entry past its time is dropped when touched. *)
Definition lookup_cache_get (c : cache) (now : Z) (key : list Z) : option Z * cache :=
  match find_key key c 0 with
  | Some i =>
      match c !! i with
      | Some e =>
          if negb (lk_fresh e now)
          then (None, alter (fun e => Ent (ekey e) (seen_ms e) (node e) false) i c)
          else (Some (node e), c)
      | None => (None, c)
      end
  | None => (None, c)
  end.

Definition lookup_cache_clear (c : cache) : cache :=
  map (fun e => Ent (ekey e) (seen_ms e) (node e) false) c.

Definition lookup_cache_age_for_test (c : cache) (ms : Z) : cache :=
  map (fun e => if valid e then Ent (ekey e) (u32 (seen_ms e - ms)) (node e) true else e) c.

(** ** Candidates: a fresh hit first, then the ranking without it *)

Fixpoint append_rank (rank : list Z) (skip : option Z) (k : Z) (out : list Z) : list Z :=
  match rank with
  | [] => out
  | x :: rank' =>
      if lenz out <? k then
        if bool_decide (skip = Some x) then append_rank rank' skip k out
        else append_rank rank' skip k (out ++ [x])
      else out
  end.

Definition lookup_candidates_in (c : cache) (now : Z) (key members : list Z) (k : Z) :
  option (list Z) * cache :=
  if (lenz members <=? 0) || (k <=? 0) then (None, c)
  else if LOOKUP_MAX_MEMBERS <? lenz members then (None, c)
  else
    match lookup_responsible key members (lenz members) with
    | None => (None, c)
    | Some rank =>
        let '(hit, c) := lookup_cache_get c now key in
        let skip := match hit with
                    | Some h => if existsb (Z.eqb h) members then Some h else None
                    | None => None
                    end in
        let out := match skip with Some h => [h] | None => [] end in
        (Some (append_rank rank skip k out), c)
    end.

Definition lookup_candidates (c : cache) (now : Z) (dnode_state : Z -> Z) (key : list Z) (k : Z) :
  option (list Z) * cache :=
  let members := collect (fun i => dnode_state i =? DNODE_ALIVE) in
  if lenz members =? 0 then (Some [], c) else lookup_candidates_in c now key members k.

(** ** The self-tests: the number of failures and the text they emit *)

Definition digit (v : Z) : string :=
  String (Ascii.ascii_of_nat (Z.to_nat (48 + v mod 10))) EmptyString.

Fixpoint dec_loop (fuel : nat) (v : Z) (s : string) : string :=
  match fuel with
  | O => s
  | S n => if v <=? 0 then s else dec_loop n (v / 10) (digit v ++ s)
  end.

(** The buffer has room for eleven digits. *)
Definition emit_dec (v : Z) : list string :=
  if v =? 0 then ["0"]
  else if v <? 0 then ["-"; dec_loop 11 (- v) ""] else [dec_loop 11 v ""].

Fixpoint emit_ids (ids : list Z) : list string :=
  match ids with
  | [] => []
  | [i] => emit_dec i
  | i :: r => emit_dec i ++ [" "] ++ emit_ids r
  end.

Definition crlf : string :=
  String (Ascii.ascii_of_nat 13) (String (Ascii.ascii_of_nat 10) EmptyString).
Definition line (s : string) : list string := [(s ++ crlf)%string].

(** A check of the self-test: one line either way, one failure more if it fails. *)
Definition verdict (ok : bool) (yes no : string) : Z * list string :=
  if ok then (0, line yes) else (1, line no).

(** The loops that compare two id arrays. *)
Definition ids_equal (a b : list Z) : bool := bool_decide (a = b).

Definition fixed_key : list Z := seqZ 0 32.
Definition members8 : list Z := seqZ 0 8.
Definition overlap_key (k : Z) : list Z := map (fun i => u8 (i * 7 + k * 31 + 1)) (seqZ 0 32).

Definition top (o : option (list Z)) : list Z := match o with Some l => l | None => [] end.
Definition meets (a b : list Z) : bool := existsb (fun x => existsb (Z.eqb x) b) a.

Definition overlap_hits (other : list Z) : Z :=
  lenz (List.filter (fun k => meets (top (lookup_responsible (overlap_key k) members8 2))
                                    (top (lookup_responsible (overlap_key k) other 2))) (seqZ 0 16)).

(** The failures of the checks added up, the texts in order, and the last line. *)
Definition report (checks : list (Z * list string)) (pass fail : string) : Z * list string :=
  let fails := foldr Z.add 0 (map fst checks) in
  (fails, concat (map snd checks) ++ line (if fails =? 0 then pass else fail)).

Definition check_determinism : Z * list string :=
  let a := top (lookup_responsible fixed_key members8 3) in
  let b := top (lookup_responsible fixed_key members8 3) in
  verdict ((lenz a =? 3) && (lenz b =? 3) && ids_equal a b)
    "[hrw] ok  determinism: same input twice -> identical top-3" "[hrw] FAIL determinism".

Definition check_vector : Z * list string :=
  let full := top (lookup_responsible fixed_key members8 8) in
  if negb (lenz full =? 8) then (1, line "[hrw] FAIL known-vector rank count")
  else (0, ["[hrw] vector key=00..1f members={0..7} ranking: "] ++ emit_ids full ++
           ["  top-3: "] ++ emit_ids (take 3 full) ++ [crlf]).

Definition overlap_line (what : string) (hits : Z) : list string :=
  [what] ++ emit_dec hits ++ ["/"] ++ emit_dec 16 ++ line " keys".

Definition overlap_verdict (hit_rm hit_add : Z) : Z * list string :=
  let '(f, t) := verdict (negb ((hit_rm <? 16) || (hit_add <? 16)))
      "[hrw] ok  one-node view drift keeps top-2 sets overlapping"
      "[hrw] FAIL overlap property (sets must intersect)" in
  (f, overlap_line "[hrw] overlap (one node removed): top-2 sets intersect " hit_rm ++
      overlap_line "[hrw] overlap (one node added):   top-2 sets intersect " hit_add ++ t).

Definition check_overlap : Z * list string :=
  overlap_verdict (overlap_hits (seqZ 0 7)) (overlap_hits (seqZ 0 9)).

Definition lookup_self_test : Z * list string :=
  if negb (sha256_self_test =? 0) then (1, line "[hrw] FAIL sha256 KAT")
  else report [check_determinism; check_vector; check_overlap]
         "[hrw] PASS (HRW responsible(k,r) deterministic + drift-tolerant)" "[hrw] FAIL".

(** The steps of the cache test; the clock stands still at [now]. *)
Section L1.
Variables key members : list Z.

Definition l1_candidates (now : Z) (c : cache) : list Z * cache :=
  let '(r, c) := lookup_candidates_in c now key members 8 in (top r, c).

Definition l1_hrw : list Z := top (lookup_responsible key members 8).
Definition l1_found_on : Z := getz l1_hrw 7 0.

Definition l1_cold (now : Z) (c : cache) : (Z * list string) * cache :=
  let '(cand, c) := l1_candidates now c in
  (verdict ((lenz l1_hrw =? 8) && (lenz cand =? 8) && ids_equal cand l1_hrw)
     "[hrw-l1] ok  cold cache: candidates == HRW order"
     "[hrw-l1] FAIL cold cache must fall through to HRW", c).

Definition l1_hit (now : Z) (c : cache) : (Z * list string) * cache :=
  let '(cand, c) := l1_candidates now (lookup_note_found c now key l1_found_on) in
  (verdict ((lenz cand =? 8) && ids_equal cand (l1_found_on :: take 7 l1_hrw))
     "[hrw-l1] ok  fresh hit: noted node short-circuits to candidates[0]"
     "[hrw-l1] FAIL fresh-hit ordering", c).

Definition l1_aged (now : Z) (c : cache) : (Z * list string) * cache :=
  let '(cand, c) := l1_candidates now (lookup_cache_age_for_test c (LOOKUP_CACHE_TTL_MS + 1)) in
  (verdict ((lenz cand =? 8) && ids_equal cand l1_hrw)
     "[hrw-l1] ok  aged out: stale observation decays back to HRW"
     "[hrw-l1] FAIL stale entry must not steer candidates", c).

Definition l1_repeat (now : Z) (c : cache) : (Z * list string) * cache :=
  let '(cand, c) := l1_candidates now (lookup_note_found c now key l1_found_on) in
  let '(cand2, c) := l1_candidates now c in
  (verdict ((lenz cand =? 8) && (lenz cand2 =? 8) && ids_equal cand cand2)
     "[hrw-l1] ok  determinism: identical candidate lists on repeat" "[hrw-l1] FAIL determinism", c).

Definition l1_steps (c : cache) (now : Z) : (Z * list string) * cache :=
  let '(v1, c) := l1_cold now (lookup_cache_clear c) in
  let '(v2, c) := l1_hit now c in
  let '(v3, c) := l1_aged now c in
  let '(v4, c) := l1_repeat now c in
  (report [v1; v2; v3; v4] "[hrw-l1] PASS (read-k candidates + resolution cache)" "[hrw-l1] FAIL",
   lookup_cache_clear c).

End L1.

Definition lookup_l1_self_test : cache -> Z -> (Z * list string) * cache := l1_steps fixed_key members8.
