(* ===== verification/LookupFacts.v ===== *)
(** * The ranking is a total order, whoever computes it

    The insertion sort of [lookup_responsible] is a sort by one total order on
    node ids that depends on the key only. Everything the design asks of the
    ranking follows from that: the result does not depend on the order of the
    view, a membership change moves only what it has to, and views that differ
    by one node keep a common responsible node. *)

From S2P Require Import Prelude.
From S2P Require Import Sha256.
From S2P Require Import Node.
From S2P Require Import Lookup.
From stdpp Require Import list sorting sets gmap.
#[local] Open Scope Z_scope.

Create HintDb rank.

(** ** The order on scores *)

Definition score_le (a b : HRW_SCORE) : Prop := hrw_before b a = false.

#[global] Instance score_le_dec : RelDecision score_le.
Proof. intros a b. unfold score_le. apply _. Defined.

Ltac scores :=
  unfold score_le, hrw_before in *;
  repeat match goal with
    | H : context [Z.eqb ?a ?b] |- _ => destruct (Z.eqb_spec a b); simpl in H
    | |- context [Z.eqb ?a ?b] => destruct (Z.eqb_spec a b); simpl
    end; bools; try rewrite Z.ltb_lt in *; try rewrite Z.ltb_ge in *; try lia.

Lemma score_le_total a b : score_le a b \/ score_le b a.
Proof. destruct (hrw_before b a) eqn:E; [right|left; done]. scores. Qed.
Lemma score_le_trans a b c : score_le a b -> score_le b c -> score_le a c.
Proof. intros. scores. Qed.
Lemma score_le_antisym a b : score_le a b -> score_le b a -> a = b.
Proof. intros. destruct a, b. simpl in *. scores; simpl in *; f_equal; lia. Qed.
Lemma before_le a b : hrw_before a b = true -> score_le a b.
Proof. intros. scores. Qed.
#[export] Hint Resolve before_le : rank.

(** ** The order on ids *)
Section Order.
Context (key : list Z).

Definition ranks (a b : Z) : Prop := score_le (score key a) (score key b).

#[global] Instance ranks_dec : RelDecision ranks.
Proof. intros a b. unfold ranks. apply _. Defined.

Lemma id_score n : id (score key n) = n.
Proof. unfold score. by destruct (hrw_weight key n). Qed.

#[global] Instance ranks_total : Total ranks.
Proof. intros a b. apply score_le_total. Qed.
#[global] Instance ranks_trans : Transitive ranks.
Proof. intros a b c. apply score_le_trans. Qed.
#[global] Instance ranks_antisym : AntiSymm (=) ranks.
Proof.
  intros a b Hab Hba. rewrite <- (id_score a), <- (id_score b). f_equal.
  by apply score_le_antisym.
Qed.

(** The reference: the members sorted by rank. *)
Definition ranking (members : list Z) : list Z := merge_sort ranks members.

Lemma ranking_perm members : ranking members ≡ₚ members.
Proof. apply merge_sort_Permutation. Qed.
Lemma ranking_sorted members : StronglySorted ranks (ranking members).
Proof. apply StronglySorted_merge_sort; apply _. Qed.

(** A sorted arrangement of the members is the ranking. *)
Lemma ranking_unique members l :
  StronglySorted ranks l -> l ≡ₚ members -> l = ranking members.
Proof.
  intros Hs Hp. apply (StronglySorted_unique ranks); [done|apply ranking_sorted|].
  by rewrite ranking_perm.
Qed.

Lemma ranking_view_order l l' : l ≡ₚ l' -> ranking l = ranking l'.
Proof. intros Hp. apply ranking_unique; [apply ranking_sorted|]. by rewrite ranking_perm. Qed.

Lemma sorted_filter (P : Z -> Prop) `{!forall x, Decision (P x)} l :
  StronglySorted ranks l -> StronglySorted ranks (filter P l).
Proof.
  induction 1 as [|x l Hs IH Hx]; [constructor|]. rewrite filter_cons. case_decide; [|done].
  constructor; [done|]. rewrite Forall_forall in Hx |- *. intros y Hy.
  apply Hx. by apply list_elem_of_filter in Hy as [_ ?].
Qed.

(** Nodes that leave do not disturb the order of the others. *)
Lemma ranking_filter (P : Z -> Prop) `{!forall x, Decision (P x)} members :
  ranking (filter P members) = filter P (ranking members).
Proof.
  symmetry. apply ranking_unique; [apply sorted_filter, ranking_sorted|].
  by rewrite ranking_perm.
Qed.

Lemma ranking_length members : length (ranking members) = length members.
Proof. apply Permutation_length, ranking_perm. Qed.

(** ** The insertion sort sorts *)

(** The inner loop moves the entries [b] that rank after [cur] up one place,
    over the junk entry [x]. *)
Lemma shift_up_spec cur pre x post :
  exists a b y, pre = a ++ b /\
    shift_up cur (pre ++ x :: post) (length pre) = (a ++ y :: b ++ post, length a) /\
    Forall (fun s => hrw_before cur s = true) b /\
    (forall s, last a = Some s -> score_le s cur).
Proof.
  revert x post. induction pre as [|s pre IH] using rev_ind; intros x post.
  - exists [], [], x. by split_and!.
  - rewrite length_app, Nat.add_1_r. cbn [shift_up].
    assert (Hn : nth (length pre) ((pre ++ [s]) ++ x :: post) (Score 0 0 0) = s).
    { rewrite <- app_assoc, app_nth2, Nat.sub_diag by lia. done. }
    rewrite Hn. destruct (hrw_before cur s) eqn:E.
    + assert (Hi : <[S (length pre) := s]> ((pre ++ [s]) ++ x :: post) = pre ++ s :: s :: post).
      { rewrite insert_app_r_alt by (rewrite length_app; simpl; lia).
        rewrite length_app, Nat.add_1_r, Nat.sub_diag. simpl. by rewrite <- app_assoc. }
      rewrite Hi. destruct (IH s (s :: post)) as (a & b & y & -> & Hs & Hb & Ha).
      exists a, (b ++ [s]), y. split_and!; [by rewrite app_assoc| |apply Forall_app; by auto|done].
      by rewrite Hs, <- app_assoc.
    + exists (pre ++ [s]), [], x. split_and!; [by rewrite app_nil_r| |done|].
      * by rewrite length_app, Nat.add_1_r.
      * intros s'. rewrite last_snoc. by intros [= <-].
Qed.

Lemma sorted_app_insert (a b : list HRW_SCORE) cur :
  StronglySorted score_le (a ++ b) ->
  Forall (fun s => hrw_before cur s = true) b -> (forall s, last a = Some s -> score_le s cur) ->
  StronglySorted score_le (a ++ cur :: b).
Proof.
  intros Hs Hb Ha. apply StronglySorted_app in Hs as (Hx & Hsa & Hsb).
  assert (Hac : forall s, s ∈ a -> score_le s cur).
  { destruct (last a) as [t|] eqn:Et.
    - apply last_Some in Et as [a' ->]. intros s Hin.
      pose proof (Ha t eq_refl) as Ht.
      apply elem_of_app in Hin as [Hin|Hin%list_elem_of_singleton]; [|by subst].
      apply StronglySorted_app in Hsa as (Hx' & _ & _).
      eapply score_le_trans; [|exact Ht]. apply Hx'; [done|set_solver].
    - apply last_None in Et as ->. set_solver. }
  apply StronglySorted_app. split_and!; [|done|].
  - intros s t Hs Ht. apply elem_of_cons in Ht as [->|Ht]; auto.
  - constructor; [done|]. eapply Forall_impl; [exact Hb|]. auto with rank.
Qed.

(** One turn of the outer loop: the first [cnt] entries stay sorted. *)
Lemma rank_one_spec l m x post :
  StronglySorted score_le l ->
  exists l', rank_one key (l ++ x :: post, length l) m = (l' ++ post, length l') /\
    StronglySorted score_le l' /\ l' ≡ₚ score key m :: l.
Proof.
  intros Hs. unfold rank_one. set (cur := score key m).
  destruct (shift_up_spec cur l x post) as (a & b & y & -> & -> & Hb & Ha).
  rewrite insert_app_r_alt, Nat.sub_diag by lia. cbn [insert list_insert].
  exists (a ++ cur :: b). rewrite !length_app, <- app_assoc. simpl. split_and!.
  - f_equal. lia.
  - by apply sorted_app_insert.
  - symmetry. apply Permutation_middle.
Qed.

Lemma rank_all_spec members l junk :
  StronglySorted score_le l -> (length members <= length junk)%nat ->
  exists l' junk', fold_left (rank_one key) members (l ++ junk, length l) = (l' ++ junk', length l') /\
    StronglySorted score_le l' /\ l' ≡ₚ map (score key) members ++ l.
Proof.
  revert l junk. induction members as [|m members IH]; intros l junk Hs Hl; cbn [length fold_left map] in *.
  - by exists l, junk.
  - destruct junk as [|x junk]; cbn [length] in *; [lia|].
    destruct (rank_one_spec l m x junk Hs) as (l1 & -> & Hs1 & Hp1).
    destruct (IH l1 junk Hs1 ltac:(lia)) as (l2 & junk' & -> & Hs2 & Hp2).
    exists l2, junk'. split_and!; [done|done|]. rewrite Hp2, Hp1. symmetry. apply Permutation_middle.
Qed.

Lemma sorted_ids l :
  StronglySorted score_le l -> Forall (fun s => s = score key (id s)) l ->
  StronglySorted ranks (map id l).
Proof.
  induction 1 as [|s l Hs IH Hx]; intros HF; simpl; constructor; inversion HF; subst; auto.
  apply Forall_map. rewrite Forall_forall in Hx |- *. intros t Ht. unfold ranks. simpl.
  match goal with H : Forall _ l |- _ => rewrite Forall_forall in H; specialize (H t Ht); simpl in H; rewrite <- H end.
  match goal with H : s = _ |- _ => rewrite <- H end. auto.
Qed.

(** What the function returns, on every branch. *)
Lemma responsible_eq members r :
  lookup_responsible key members r =
    if decide (0 < lenz members <= LOOKUP_MAX_MEMBERS /\ 0 < r)
    then Some (take (Z.to_nat r) (ranking members)) else None.
Proof.
  unfold lookup_responsible, LOOKUP_MAX_MEMBERS, lenz. case_decide as Hd.
  - destruct (Z.leb_spec (Z.of_nat (length members)) 0), (Z.leb_spec r 0),
      (Z.ltb_spec 64 (Z.of_nat (length members))); try lia. simpl.
    destruct (rank_all_spec members [] score_table) as (l & junk & Hf & Hs & Hp);
      [constructor|unfold score_table, LOOKUP_MAX_MEMBERS; rewrite length_replicate; lia|].
    simpl in Hf. rewrite Hf. rewrite app_nil_r in Hp.
    assert (Hr : map id l = ranking members).
    { apply ranking_unique.
      - apply sorted_ids; [done|]. rewrite Hp. apply Forall_map, Forall_true.
        intros n. by rewrite id_score.
      - rewrite Hp, map_map. rewrite (map_ext _ (fun n => n)) by apply id_score. by rewrite map_id. }
    f_equal. rewrite <- Hr. destruct (Z.ltb_spec r (Z.of_nat (length l))).
    + rewrite take_app_le by lia. symmetry. apply firstn_map.
    + rewrite take_app_length. symmetry. rewrite take_ge; [done|]. rewrite length_map. lia.
  - destruct (Z.leb_spec (Z.of_nat (length members)) 0), (Z.leb_spec r 0),
      (Z.ltb_spec 64 (Z.of_nat (length members))); try done; lia.
Qed.

End Order.

(** ** What a membership change does *)

Lemma filter_take_prefix {A} (P : A -> Prop) `{!forall x, Decision (P x)} n (l : list A) :
  filter P (take n l) `prefix_of` take n (filter P l).
Proof.
  exists (take (n - length (filter P (take n l))) (filter P (drop n l))).
  assert (E : filter P l = filter P (take n l) ++ filter P (drop n l))
    by (by rewrite <- filter_app, take_drop).
  rewrite E, take_app.
  rewrite (take_ge (filter P (take n l))); [done|].
  etransitivity; [apply length_filter|]. rewrite length_take. lia.
Qed.

Lemma filter_nonempty (P : Z -> Prop) `{!forall x, Decision (P x)} members x :
  x ∈ members -> P x -> 0 < lenz (filter P members) <= lenz members.
Proof.
  intros Hx HP. assert (Hin : x ∈ filter P members) by (by apply list_elem_of_filter).
  pose proof (length_filter P members). unfold lenz.
  destruct (filter P members); [set_solver|]. simpl in *. lia.
Qed.

Lemma responsible_some key members r out :
  lookup_responsible key members r = Some out ->
  0 < lenz members <= LOOKUP_MAX_MEMBERS /\ 0 < r /\ out = take (Z.to_nat r) (ranking key members).
Proof. rewrite responsible_eq. case_decide as Hd; [|done]. intros [= <-]. destruct Hd as [Hn Hr]. exact (conj Hn (conj Hr eq_refl)). Qed.

(** C29: the in-place insertion sort of [lookup_responsible] returns the first
    [r] members in the order of rank, for every view of 1 to 64 members and
    every positive [r], and refuses everything else; the ranking is the members
    themselves, sorted by a total order on ids that depends on the key alone. *)
Theorem responsible_ranks key members r :
  lookup_responsible key members r =
    (if decide (0 < lenz members <= LOOKUP_MAX_MEMBERS /\ 0 < r)
     then Some (take (Z.to_nat r) (ranking key members)) else None) /\
  ranking key members ≡ₚ members /\ StronglySorted (ranks key) (ranking key members).
Proof.
  split_and!; [apply responsible_eq|apply ranking_perm|apply ranking_sorted].
Qed.

(** Two nodes whose views hold the same members, in whatever order, agree on
    who is responsible for every key. *)
Theorem responsible_view_order key view1 view2 r (Hv : view1 ≡ₚ view2) :
  lookup_responsible key view1 r = lookup_responsible key view2 r.
Proof.
  rewrite !responsible_eq. unfold lenz.
  by rewrite (Permutation_length Hv), (ranking_view_order key view1 view2 Hv).
Qed.

Lemma responsible_view_order_witness :
  [3; 9; 17] ≡ₚ [17; 3; 9] /\
  lookup_responsible fixed_key [3; 9; 17] 2 = lookup_responsible fixed_key [17; 3; 9] 2.
Proof.
  assert (Hv : [3; 9; 17] ≡ₚ [17; 3; 9]).
  { change [3; 9; 17] with ([3; 9] ++ [17]). apply Permutation_app_comm. }
  split; [exact Hv|]. exact (responsible_view_order fixed_key [3; 9; 17] [17; 3; 9] 2 Hv).
Defined.

(** Minimal disruption. When nodes leave (those outside [alive]), the
    responsible nodes that remain stay responsible, in the same order and ahead
    of every replacement. *)
Theorem responsible_minimal_disruption key members r out (alive : gset Z)
  (Hout : lookup_responsible key members r = Some out)
  (Halive : exists x, x ∈ members /\ x ∈ alive) :
  exists more, lookup_responsible key (filter (.∈ alive) members) r =
               Some (filter (.∈ alive) out ++ more).
Proof.
  destruct Halive as (x & Hx & Ha). apply responsible_some in Hout as (Hn & Hr & ->).
  pose proof (filter_nonempty (.∈ alive) members x Hx Ha).
  destruct (filter_take_prefix (.∈ alive) (Z.to_nat r) (ranking key members)) as [more Hm].
  exists more. rewrite <- Hm, <- ranking_filter, responsible_eq. case_decide; [done|lia].
Qed.

Lemma responsible_minimal_disruption_witness :
  lookup_responsible fixed_key members8 3 = Some [4; 7; 3] /\
  exists more, lookup_responsible fixed_key (filter (.∈ ({[7; 3; 1]} : gset Z)) members8) 3 =
               Some (filter (.∈ ({[7; 3; 1]} : gset Z)) [4; 7; 3] ++ more).
Proof.
  assert (Ho : lookup_responsible fixed_key members8 3 = Some [4; 7; 3]) by (vm_compute; reflexivity).
  split; [exact Ho|].
  apply (responsible_minimal_disruption fixed_key members8 3 [4; 7; 3] {[7; 3; 1]} Ho).
  exists 7. split; [unfold members8; apply elem_of_seqZ; lia|set_solver].
Defined.

(** The drift tolerance the design relies on. Two views that differ by one
    node keep a responsible node in common when two are asked for. *)
Theorem one_node_drift key members gone a b (Hnd : NoDup members) (Hn : 2 <= lenz members)
  (Ha : lookup_responsible key members 2 = Some a)
  (Hb : lookup_responsible key (filter (.≠ gone) members) 2 = Some b) :
  exists n, n ∈ a /\ n ∈ b.
Proof.
  apply responsible_some in Ha as (_ & _ & ->). apply responsible_some in Hb as (_ & _ & ->).
  rewrite ranking_filter. change (Z.to_nat 2) with 2%nat.
  destruct (filter_take_prefix (.≠ gone) 2 (ranking key members)) as [more ->].
  assert (Hd : NoDup (ranking key members)) by (by rewrite ranking_perm).
  assert (Hl : (2 <= length (ranking key members))%nat) by (rewrite ranking_length; unfold lenz in Hn; lia).
  destruct (ranking key members) as [|x [|y l]]; simpl in Hl; try lia.
  apply NoDup_cons in Hd as [Hxy _]. simpl.
  destruct (decide (x = gone)) as [->|Hx]; [exists y|exists x];
    (split; [set_solver|]); apply elem_of_app; left; apply list_elem_of_filter; set_solver.
Qed.

Lemma one_node_drift_witness : exists n, n ∈ [4; 7] /\ n ∈ [7; 3].
Proof.
  apply (one_node_drift fixed_key members8 4 [4; 7] [7; 3]).
  - apply NoDup_seqZ.
  - vm_compute; congruence.
  - vm_compute; reflexivity.
  - vm_compute; reflexivity.
Defined.

(** The self-tests of the source pass: the ranking is repeatable and 4 7 3 1
    2 6 0 5 for the fixed key, sixteen of sixteen keys keep a common node when a
    node comes or goes, and the cache test runs through. *)
Theorem lookup_self_tests_pass :
  fst lookup_self_test = 0 /\
  lookup_responsible fixed_key members8 8 = Some [4; 7; 3; 1; 2; 6; 0; 5] /\
  fst (fst (lookup_l1_self_test lk_cache0 0)) = 0.
Proof. split_and!; vm_compute; reflexivity. Qed.
