(* ===== verification/LookupCache.v ===== *)
(** * The resolution cache only reorders

    The sixteen slots are a partial map from keys to observations: a note
    replaces the observation of its key and, when every slot is taken, costs the
    oldest one; an observation is served for nine seconds of the 32-bit clock.
    The candidate list is the ranking, at most with the cached node moved to the
    front. *)

From S2P Require Import Prelude.
From S2P Require Import Node.
From S2P Require Import Lookup.
From S2P Require Import LookupFacts.
From stdpp Require Import list sorting sets gmap.
#[local] Open Scope Z_scope.

(** ** Slots *)

Definition holds_key (key : list Z) (e : LOOKUP_CACHE_ENT) : Prop := valid e = true /\ ekey e = key.

#[global] Instance holds_key_dec key e : Decision (holds_key key e).
Proof. unfold holds_key. apply _. Defined.

(** At most one slot per key, and the table has slots. *)
Definition cache_ok (c : cache) : Prop :=
  c <> [] /\
  forall i j e f key, c !! i = Some e -> c !! j = Some f -> holds_key key e -> holds_key key f -> i = j.

(** The observation of a key: its node and its time. *)
Definition obs (c : cache) (key : list Z) : option (Z * Z) :=
  i ← find_key key c 0; e ← c !! i; Some (node e, seen_ms e).

Lemma holds_key_bool key e : (valid e && lk_key_eq (ekey e) key) = bool_decide (holds_key key e).
Proof.
  apply eq_true_iff_eq. rewrite andb_true_iff. unfold lk_key_eq. by rewrite !bool_decide_eq_true.
Qed.

Lemma find_key_spec key c k :
  match find_key key c k with
  | Some i => exists j e, i = (k + j)%nat /\ c !! j = Some e /\ holds_key key e
  | None => forall j e, c !! j = Some e -> ~ holds_key key e
  end.
Proof.
  revert k. induction c as [|e c IH]; intros k; cbn [find_key]; [by intros j e|].
  rewrite holds_key_bool. case_bool_decide as Hk.
  - exists 0%nat, e. split_and!; [lia|done|done].
  - specialize (IH (S k)). destruct (find_key key c (S k)) as [i|].
    + destruct IH as (j & f & -> & Hj & Hf). exists (S j), f. split_and!; [lia|done|done].
    + intros [|j] f; [by intros [= <-]|]. apply IH.
Qed.

Lemma obs_some c key i e :
  cache_ok c -> c !! i = Some e -> holds_key key e -> find_key key c 0 = Some i.
Proof.
  intros [_ Hok] Hi He. pose proof (find_key_spec key c 0) as Hf.
  destruct (find_key key c 0) as [m|].
  - destruct Hf as (j & f & -> & Hj & Hk). by rewrite (Hok i j e f key Hi Hj He Hk).
  - by destruct (Hf i e Hi He).
Qed.

Lemma find_key_iff c key i :
  cache_ok c -> find_key key c 0 = Some i <-> exists e, c !! i = Some e /\ holds_key key e.
Proof.
  intros Hok. split.
  - intros E. pose proof (find_key_spec key c 0) as Hf. rewrite E in Hf.
    destruct Hf as (j & e & -> & Hj & He). by exists e.
  - intros (e & Hi & He). by apply (obs_some c key i e).
Qed.

Lemma obs_iff c key n t :
  cache_ok c -> obs c key = Some (n, t) <->
  exists i e, c !! i = Some e /\ holds_key key e /\ node e = n /\ seen_ms e = t.
Proof.
  intros Hok. unfold obs. split.
  - destruct (find_key key c 0) as [i|] eqn:E; [|done]. apply find_key_iff in E as (e & Hi & He); [|done].
    simpl. rewrite Hi. intros [= <- <-]. by exists i, e.
  - intros (i & e & Hi & He & <- & <-). rewrite (obs_some c key i e Hok Hi He). simpl. by rewrite Hi.
Qed.

Lemma obs_none c key : obs c key = None <-> forall i e, c !! i = Some e -> ~ holds_key key e.
Proof.
  unfold obs. pose proof (find_key_spec key c 0) as Hf. destruct (find_key key c 0) as [m|]; [|done].
  destruct Hf as (j & e & -> & Hj & He). rewrite Nat.add_0_l. simpl. rewrite Hj. split; [done|].
  intros H. by destruct (H j e Hj He).
Qed.

(** ** The slot that is evicted *)

(** [i] is free, or every slot is taken and [i] is one of the oldest. *)
Definition evictable (now : Z) (c : cache) (i : nat) : Prop :=
  exists e, c !! i = Some e /\
    (valid e = false \/
     forall j f, c !! j = Some f -> valid f = true /\ lk_age f now <= lk_age e now).

Lemma victim_scan now pre c best :
  (forall f, f ∈ pre -> valid f = true) ->
  match best with
  | None => pre = []
  | Some (i, a) => exists e, pre !! i = Some e /\ lk_age e now = a /\ (forall f, f ∈ pre -> lk_age f now <= a)
  end ->
  pre ++ c <> [] ->
  exists i a, victim now c (length pre) best = Some (i, a) /\ evictable now (pre ++ c) i.
Proof.
  revert pre best. induction c as [|e c IH]; intros pre best Hv Hb Hne; cbn [victim].
  - rewrite app_nil_r in *. destruct best as [[i a]|]; [|done].
    destruct Hb as (e & Hi & Ha & Hmax). exists i, a. split; [done|]. exists e. split; [done|]. right.
    intros j f Hj. apply list_elem_of_lookup_2 in Hj. rewrite Ha. auto.
  - destruct (valid e) eqn:Ee; cbn [negb].
    + replace (pre ++ e :: c) with ((pre ++ [e]) ++ c) in * by (by rewrite <- app_assoc).
      replace (S (length pre)) with (length (pre ++ [e])) by (rewrite length_app; simpl; lia).
      apply IH; [intros f [?| ->%list_elem_of_singleton]%elem_of_app; auto| |done]. destruct best as [[i a]|].
      * destruct Hb as (f & Hi & Ha & Hmax). destruct (Z.ltb_spec a (lk_age e now)).
        -- exists e. rewrite list_lookup_middle by done. split_and!; [done|done|].
           intros g [Hg|Hg%list_elem_of_singleton]%elem_of_app; [specialize (Hmax g Hg); lia|by subst].
        -- exists f. split_and!; [by apply lookup_app_l_Some|done|].
           intros g [Hg|Hg%list_elem_of_singleton]%elem_of_app; [auto|by subst].
      * subst pre. exists e. split_and!; [done|done|]. intros g Hg%list_elem_of_singleton. by subst.
    + eexists _, _. split; [done|]. exists e. split; [by apply list_lookup_middle|by left].
Qed.

Lemma victim_evictable now c :
  c <> [] -> exists i a, victim now c 0 None = Some (i, a) /\ evictable now c i.
Proof. intros Hne. apply (victim_scan now [] c None); [set_solver|done|done]. Qed.

(** ** Notes *)

(** A note overwrites one slot: the one of the key, or an evictable one. *)
Lemma note_slot c now key n :
  cache_ok c ->
  exists i old, c !! i = Some old /\ lookup_note_found c now key n = <[i := Ent key now n true]> c /\
    (holds_key key old \/
     (forall j e, c !! j = Some e -> ~ holds_key key e) /\ evictable now c i).
Proof.
  intros Hok. unfold lookup_note_found. destruct (find_key key c 0) as [i|] eqn:E.
  - apply find_key_iff in E as (e & Hi & [Hv Hk]); [|done]. exists i, e. split_and!; [done| |by left].
    apply list_eq. intros j. rewrite list_lookup_insert. destruct (decide (i = j)) as [<-|Hj].
    + pose proof (lookup_lt_Some _ _ _ Hi). rewrite list_lookup_alter_eq, Hi, decide_True by done.
      simpl. by rewrite Hk, Hv.
    + rewrite list_lookup_alter_ne by done. rewrite decide_False by (intros [? _]; done). done.
  - pose proof (find_key_spec key c 0) as Hf. rewrite E in Hf.
    destruct (victim_evictable now c) as (i & a & -> & He); [apply Hok|].
    pose proof He as (e & Hi & _). exists i, e. by split_and!; [| |right].
Qed.

Lemma note_ok c now key n : cache_ok c -> cache_ok (lookup_note_found c now key n).
Proof.
  intros Hok. destruct (note_slot c now key n Hok) as (i & old & Hi & -> & Hold).
  assert (Hlt : (i < length c)%nat) by (by eapply lookup_lt_Some). split.
  { intros E. apply (f_equal length) in E. rewrite length_insert in E. simpl in E. lia. }
  assert (Hone : forall j e k, c !! j = Some e -> holds_key k e -> k = key -> j = i).
  { intros j e k Hj He ->. destruct Hold as [Ho|[Hno _]]; [|by destruct (Hno j e Hj He)].
    by apply (proj2 Hok j i e old key). }
  intros j1 j2 e f k He Hf [Hve Hke] [Hvf Hkf].
  apply list_lookup_insert_Some in He as [(-> & <- & _)|[Hn1 He]];
    apply list_lookup_insert_Some in Hf as [(-> & <- & _)|[Hn2 Hf]]; simpl in *; [done| | |].
  - symmetry. by apply (Hone j2 f k).
  - by apply (Hone j1 e k).
  - by apply (proj2 Hok j1 j2 e f k).
Qed.

(** A note as a map update. Afterwards the key has the new observation, and
    every other key has the one it had, except that a note of a new key in a
    full table costs exactly the observation of one slot, none being older. *)
Theorem note_found_updates c now key n (Hok : cache_ok c) :
  cache_ok (lookup_note_found c now key n) /\
  obs (lookup_note_found c now key n) key = Some (n, now) /\
  forall other, other <> key ->
    obs (lookup_note_found c now key n) other = obs c other \/
    obs (lookup_note_found c now key n) other = None /\ obs c key = None /\
    exists e, holds_key other e /\ e ∈ c /\
      forall f, f ∈ c -> valid f = true /\ lk_age f now <= lk_age e now.
Proof.
  pose proof (note_ok c now key n Hok) as Hok'. split; [exact Hok'|].
  destruct (note_slot c now key n Hok) as (i & old & Hi & E & Hold). rewrite E in *.
  assert (Hlt : (i < length c)%nat) by (by eapply lookup_lt_Some). split.
  { apply obs_iff; [done|]. exists i, (Ent key now n true). by rewrite list_lookup_insert_eq. }
  intros other Hne. destruct (decide (holds_key other old)) as [Ho|Ho].
  - right. destruct Hold as [[_ Hk]|[Hno He]]; [destruct Ho as [_ Ho]; congruence|].
    split_and!; [|by apply obs_none|].
    + apply obs_none. intros j e Hj [Hv Hk]. apply list_lookup_insert_Some in Hj as [(-> & <- & _)|[Hij Hj]].
      * simpl in Hk. congruence.
      * apply Hij. apply (proj2 Hok i j old e other); done.
    + destruct He as (e & Hi' & He). rewrite Hi in Hi'. injection Hi' as <-. exists old.
      split_and!; [done|by eapply list_elem_of_lookup_2|]. destruct He as [He|He]; [destruct Ho; congruence|].
      intros f Hf. apply list_elem_of_lookup_1 in Hf as [j Hj]. eauto.
  - left. destruct (obs c other) as [[m t]|] eqn:Eo.
    + apply obs_iff in Eo as (j & e & Hj & He & Hm & Ht); [|done]. apply obs_iff; [done|].
      exists j, e. split; [|done]. rewrite list_lookup_insert_ne; [done|]. intros ->. congruence.
    + rewrite obs_none in Eo |- *. intros j e Hj.
      apply list_lookup_insert_Some in Hj as [(-> & <- & _)|[Hij Hj]]; [|eauto].
      intros [_ Hk]. simpl in Hk. congruence.
Qed.

Lemma cache0_ok : cache_ok lk_cache0.
Proof.
  split; [done|]. intros i j e f key Hi Hj [He _]. exfalso.
  apply lookup_replicate_1 in Hi as [-> _]. done.
Qed.

Lemma note_found_updates_witness :
  obs (lookup_note_found lk_cache0 7 fixed_key 5) fixed_key = Some (5, 7).
Proof. apply (note_found_updates lk_cache0 7 fixed_key 5 cache0_ok). Defined.

(** ** Probes *)

Lemma alter_drop_ok c i : cache_ok c ->
  cache_ok (alter (fun e => Ent (ekey e) (seen_ms e) (node e) false) i c).
Proof.
  intros [Hne Hok]. split.
  { intros E. apply (f_equal length) in E. rewrite length_alter in E. by destruct c. }
  intros a b e f key. destruct (decide (a = i)) as [->|Ha], (decide (b = i)) as [->|Hb]; [done| | |].
  - rewrite list_lookup_alter_eq. destruct (c !! i); simpl; [|done]. by intros [= <-] _ [? _].
  - rewrite list_lookup_alter_eq. destruct (c !! i); simpl; [|done]. by intros _ [= <-] _ [? _].
  - rewrite !list_lookup_alter_ne by done. apply Hok.
Qed.

(** A probe answers with the observation of the key exactly while at most
    nine seconds of the 32-bit clock separate it from now (so an observation
    nobody touches is served again every 2^32 ms); it changes nothing, except
    that the observation of this key is dropped once it is too old. *)
Theorem cache_get_spec c now key (Hok : cache_ok c) :
  fst (lookup_cache_get c now key) =
    match obs c key with
    | Some (n, t) => if u32 (now - t) <=? LOOKUP_CACHE_TTL_MS then Some n else None
    | None => None
    end /\
  cache_ok (snd (lookup_cache_get c now key)) /\
  (forall other, other <> key -> obs (snd (lookup_cache_get c now key)) other = obs c other) /\
  obs (snd (lookup_cache_get c now key)) key =
    match obs c key with
    | Some (n, t) => if u32 (now - t) <=? LOOKUP_CACHE_TTL_MS then Some (n, t) else None
    | None => None
    end.
Proof.
  unfold lookup_cache_get. destruct (find_key key c 0) as [i|] eqn:E.
  2: { assert (Ho : obs c key = None) by (unfold obs; by rewrite E). simpl. rewrite Ho. by split_and!. }
  pose proof E as E'. apply find_key_iff in E' as (e & Hi & He); [|done]. rewrite Hi.
  assert (Ho : obs c key = Some (node e, seen_ms e)) by (unfold obs; rewrite E; cbn; by rewrite Hi).
  rewrite Ho. unfold lk_fresh, lk_age. rewrite (proj1 He). simpl.
  destruct (u32 (now - seen_ms e) <=? LOOKUP_CACHE_TTL_MS) eqn:Ef; simpl; [by split_and!|].
  pose proof (alter_drop_ok c i Hok) as Hok'. split; [done|]. split; [done|]. split.
  - intros other Hne. destruct (obs c other) as [[m t]|] eqn:Eo.
    + apply obs_iff in Eo as (j & f & Hj & Hf & Hm & Ht); [|done]. apply obs_iff; [done|].
      exists j, f. split; [|done]. rewrite list_lookup_alter_ne; [done|]. intros ->.
      rewrite Hi in Hj. injection Hj as <-. destruct He, Hf. congruence.
    + rewrite obs_none in Eo |- *. intros j f Hj Hf. destruct (decide (i = j)) as [<-|Hij].
      * rewrite list_lookup_alter_eq, Hi in Hj. simpl in Hj. injection Hj as <-. by destruct Hf.
      * rewrite list_lookup_alter_ne in Hj by done. by apply (Eo j f).
  - apply obs_none. intros j f Hj Hf. destruct (decide (i = j)) as [<-|Hij].
    + rewrite list_lookup_alter_eq, Hi in Hj. simpl in Hj. injection Hj as <-. by destruct Hf.
    + rewrite list_lookup_alter_ne in Hj by done. apply Hij. by apply (proj2 Hok i j e f key).
Qed.

Lemma cache_get_spec_witness :
  fst (lookup_cache_get (lookup_note_found lk_cache0 7 fixed_key 5) 9007 fixed_key) = Some 5 /\
  fst (lookup_cache_get (lookup_note_found lk_cache0 7 fixed_key 5) 9008 fixed_key) = None.
Proof.
  split.
  - rewrite (proj1 (cache_get_spec _ 9007 fixed_key (note_ok lk_cache0 7 fixed_key 5 cache0_ok))).
    vm_compute. reflexivity.
  - rewrite (proj1 (cache_get_spec _ 9008 fixed_key (note_ok lk_cache0 7 fixed_key 5 cache0_ok))).
    vm_compute. reflexivity.
Defined.

(** ** Candidates *)

Lemma append_rank_eq rank skip k out :
  lenz out <= k ->
  append_rank rank skip k out =
  out ++ take (Z.to_nat (k - lenz out)) (filter (fun x => skip <> Some x) rank).
Proof.
  revert out. induction rank as [|x rank IH]; intros out Hk; cbn [append_rank].
  - by rewrite filter_nil, take_nil, app_nil_r.
  - rewrite filter_cons. destruct (Z.ltb_spec (lenz out) k) as [Hlt|Hge].
    + case_bool_decide as Hs; case_decide as Hd; try done; [by apply IH|].
      rewrite IH by (rewrite Sha256.lenz_app; unfold lenz in *; simpl; lia).
      rewrite <- app_assoc. f_equal. rewrite Sha256.lenz_app.
      replace (Z.to_nat (k - lenz out)) with (S (Z.to_nat (k - (lenz out + lenz [x]))))
        by (unfold lenz in *; simpl; lia). done.
    + replace (Z.to_nat (k - lenz out)) with 0%nat by lia. by rewrite take_0, app_nil_r.
Qed.

(** What the list is: a fresh observation of a member, then the ranking. *)
Definition fresh_member (c : cache) (now : Z) (key members : list Z) : option Z :=
  h ← fst (lookup_cache_get c now key); if decide (h ∈ members) then Some h else None.

Definition steered (hit : option Z) (rank : list Z) : list Z :=
  match hit with Some h => h :: filter (.≠ h) rank | None => rank end.

Lemma existsb_elem h (l : list Z) : existsb (Z.eqb h) l = bool_decide (h ∈ l).
Proof.
  apply eq_true_iff_eq. rewrite existsb_exists, bool_decide_eq_true. setoid_rewrite Z.eqb_eq.
  rewrite list_elem_of_In. split; [by intros (y & Hy & ->)|by exists h].
Qed.

Lemma filter_all {A} (P : A -> Prop) `{!forall x, Decision (P x)} (l : list A) :
  (forall x, P x) -> filter P l = l.
Proof. intros HP. induction l as [|x l IH]; [done|]. rewrite filter_cons, decide_True by apply HP. by rewrite IH. Qed.

Lemma candidates_eq c now key members k :
  fst (lookup_candidates_in c now key members k) =
    if decide (0 < lenz members <= LOOKUP_MAX_MEMBERS /\ 0 < k)
    then Some (take (Z.to_nat k) (steered (fresh_member c now key members) (ranking key members)))
    else None.
Proof.
  unfold lookup_candidates_in. rewrite responsible_eq. unfold LOOKUP_MAX_MEMBERS.
  destruct (Z.leb_spec (lenz members) 0), (Z.leb_spec k 0), (Z.ltb_spec 64 (lenz members)); simpl;
    repeat case_decide; try done; try lia.
  rewrite take_ge by (rewrite ranking_length; unfold lenz; lia).
  unfold fresh_member. destruct (lookup_cache_get c now key) as [[h|] c']; simpl.
  2: { rewrite append_rank_eq by (unfold lenz; simpl; lia). simpl. rewrite Z.sub_0_r. do 2 f_equal.
       by apply filter_all. }
  rewrite existsb_elem. case_bool_decide as Hm; case_decide; try done; simpl.
  - rewrite append_rank_eq by (unfold lenz; simpl; lia). f_equal. simpl.
    replace (Z.to_nat k) with (S (Z.to_nat (k - lenz [h]))) by (unfold lenz; simpl; lia). simpl. do 2 f_equal.
    apply list_filter_iff. naive_solver.
  - rewrite append_rank_eq by (unfold lenz; simpl; lia). simpl. rewrite Z.sub_0_r. do 2 f_equal.
    by apply filter_all.
Qed.

Lemma steered_perm hit rank :
  NoDup rank -> (forall h, hit = Some h -> h ∈ rank) -> steered hit rank ≡ₚ rank.
Proof.
  intros Hnd Hin. destruct hit as [h|]; [|done]. simpl. specialize (Hin h eq_refl).
  apply NoDup_Permutation; [|done|].
  - apply NoDup_cons. split; [|by apply NoDup_filter]. rewrite list_elem_of_filter. naive_solver.
  - intros x. rewrite elem_of_cons, list_elem_of_filter. destruct (decide (x = h)); naive_solver.
Qed.

(** The cache never hides a node: whatever it holds, the candidates are the
    members without repetition (the first [k] of them), with a fresh observation
    of a member in front and the others in the order of rank. *)
Theorem candidates_reorder c now key members k (Hnd : NoDup members)
  (Hn : 0 < lenz members <= LOOKUP_MAX_MEMBERS) (Hk : 0 < k) :
  exists order, order ≡ₚ members /\ NoDup order /\
    fst (lookup_candidates_in c now key members k) = Some (take (Z.to_nat k) order) /\
    (forall h, fst (lookup_cache_get c now key) = Some h -> h ∈ members -> head order = Some h) /\
    (forall h, fst (lookup_cache_get c now key) = Some h -> StronglySorted (ranks key) (filter (.≠ h) order)) /\
    (fst (lookup_cache_get c now key) = None -> order = ranking key members).
Proof.
  assert (Hp : steered (fresh_member c now key members) (ranking key members) ≡ₚ members).
  { rewrite steered_perm; [apply ranking_perm|by rewrite ranking_perm|].
    intros h. unfold fresh_member. destruct (fst (lookup_cache_get c now key)) as [g|]; simpl; [|done].
    case_decide; [|done]. intros [= <-]. by rewrite ranking_perm. }
  eexists. split; [exact Hp|]. split; [by rewrite Hp|]. rewrite candidates_eq, decide_True by done.
  split; [done|]. unfold fresh_member. split.
  - intros h -> Hh. simpl. by rewrite decide_True.
  - split; [|by intros ->]. intros h ->. simpl.
    case_decide; simpl; [rewrite filter_cons, decide_False by naive_solver; apply sorted_filter|];
      apply sorted_filter, ranking_sorted.
Qed.

Lemma candidates_reorder_witness :
  exists order, order ≡ₚ members8 /\ NoDup order /\
    fst (lookup_candidates_in (lookup_note_found lk_cache0 7 fixed_key 5) 8 fixed_key members8 8) =
      Some (take 8 order) /\ head order = Some 5.
Proof.
  destruct (candidates_reorder (lookup_note_found lk_cache0 7 fixed_key 5) 8 fixed_key members8 8)
    as (order & Hp & Hd & Ho & Hh & _); [apply NoDup_seqZ|vm_compute; split; congruence|lia|].
  exists order. split_and!; [done|done|exact Ho|]. apply Hh; [vm_compute; reflexivity|].
  unfold members8. apply elem_of_seqZ. lia.
Defined.
