(* ===== verification/Placement.v ===== *)
(** * Expert placement: src/arch/common/placement.c

    Which node holds which expert is the winner of the rendezvous ranking of
    Lookup.v for a key made from the expert's number; no registrar and no vote.
    This file models the key, the placement functions and the self-test, and
    proves that a death moves only the dead node's experts and that nodes with
    the same view agree on exactly one owner. *)

From stdpp Require Import strings.
From S2P Require Import Prelude.
From S2P Require Import Sha256.
From S2P Require Import Node.
From S2P Require Import Lookup.
From S2P Require Import LookupFacts.
From stdpp Require Import list sorting sets gmap.
#[local] Open Scope string_scope.
#[local] Open Scope list_scope.
#[local] Open Scope Z_scope.

(** ** The key of an expert *)

(** [p-kernel-expert], then a zero byte. *)
Definition TAG : list Z := [112;45;107;101;114;110;101;108;45;101;120;112;101;114;116;0].

Definition st_expert_key (expert_id : Z) : list Z :=
  TAG ++ map (fun i => u8 (expert_id + i * 31 + 0x9E)) (seqZ 16 16).

(** ** The placement functions *)

Definition st_expert_owners_in (expert_id : Z) (members : list Z) (r : Z) : option (list Z) :=
  if (lenz members <=? 0) || (r <=? 0) then None
  else lookup_responsible (st_expert_key expert_id) members r.

Definition st_expert_owner_in (expert_id : Z) (members : list Z) : Z :=
  match st_expert_owners_in expert_id members 1 with
  | Some [win] => win
  | _ => -1
  end.

(** The local view: the ids whose row of [dnode_table] is alive. *)
Definition alive_members (state : Z -> Z) : list Z := collect (fun i => state i =? DNODE_ALIVE).

Definition st_expert_owners (state : Z -> Z) (expert_id r : Z) : option (list Z) :=
  let members := alive_members state in
  if lenz members =? 0 then None else st_expert_owners_in expert_id members r.

Definition st_expert_owner (state : Z -> Z) (expert_id : Z) : Z :=
  let members := alive_members state in
  if lenz members =? 0 then -1 else st_expert_owner_in expert_id members.

Definition st_expert_is_local (state : Z -> Z) (drpc_my_node expert_id : Z) : bool :=
  let owner := st_expert_owner state expert_id in
  if owner <? 0 then false else u16 owner =? drpc_my_node.

(** ** The self-test *)

Definition PLACE_TEST_NEXPERT : Z := 8.
Definition experts : list Z := seqZ 0 PLACE_TEST_NEXPERT.
Definition place_members : list Z := [3; 9; 17; 40; 62].

Definition modN_owner (expert_id : Z) (members : list Z) : Z :=
  getz members (expert_id mod lenz members) 0.

Section SelfTest.
Context (owner_in : Z -> list Z -> Z) (members : list Z).

Definition count {A} (p : A -> bool) (l : list A) : Z := lenz (List.filter p l).

Definition owner_bases : list Z := map (fun e => owner_in e members) experts.

Definition det_ok (base : list Z) : bool :=
  forallb (fun o => 0 <=? o) base &&
  forallb (fun _ => forallb (fun e => owner_in e members =? getz base e 0) experts) (seqZ 0 4).

Definition victim (base : list Z) : Z := if 0 <=? getz base 0 0 then getz base 0 0 else 0.
Definition reduced (dead : Z) : list Z := List.filter (fun m => negb (m =? dead)) members.

(** One expert after the death of [dead]: is its move allowed, did it move? *)
Definition rehome_step (base : list Z) (dead : Z) (left : list Z) (e : Z) : bool * bool :=
  let before := getz base e 0 in
  let after := owner_in e left in
  if after <? 0 then (false, false)
  else if before =? dead then (negb (after =? dead), true)
  else if negb (after =? before) then (false, true) else (true, false).

Definition rehome (base : list Z) (dead : Z) (left : list Z) : list (bool * bool) :=
  map (rehome_step base dead left) experts.
Definition moved_count (steps : list (bool * bool)) : Z := count snd steps.
Definition modn_moved (left : list Z) : Z :=
  count (fun e => negb (modN_owner e left =? modN_owner e members)) experts.
Definition distinct (sweep : list Z) : Z := count (fun m => existsb (fun o => m =? u8 o) sweep) members.
Definition solo_ok : bool := forallb (fun e => owner_in e [7] =? 7) experts.

Definition map_text (base : list Z) (e : Z) : list string :=
  [if e =? 0 then "e" else " e"] ++ emit_dec e ++ ["->n"] ++ emit_dec (getz base e 0).

Definition place_deterministic (base : list Z) : Z * list string :=
  if det_ok base
  then (0, ["[place] ok  [place-deterministic] map "] ++ concat (map (map_text base) experts) ++
           line "  (sha256-HRW => identical on every node/arch)")
  else (1, line "[place] FAIL [place-deterministic]").

Definition place_rehome (dead : Z) (steps : list (bool * bool)) : Z * list string :=
  if forallb fst steps && (1 <=? moved_count steps)
  then (0, ["[place] ok  [place-rehome] killed n"] ++ emit_dec dead ++
           [": exactly the dead node's expert(s) re-homed ("] ++ emit_dec (moved_count steps) ++
           line " moved), all others UNCHANGED")
  else (1, line "[place] FAIL [place-rehome]").

Definition place_control (moved modn : Z) : Z * list string :=
  if moved <? modn
  then (0, ["[place] ok  [place-rehome] falsifiable: modulo-N control moved "] ++ emit_dec modn ++
           [" experts vs HRW "] ++ emit_dec moved ++ line " (HRW is minimal)")
  else (0, ["[place] WARN [place-rehome] control not strictly worse (modn="] ++ emit_dec modn ++
           [" hrw="] ++ emit_dec moved ++ line ")").

Definition place_balance (spread : Z) : Z * list string :=
  let text := ["[place] ok  [place-balance] "] ++ emit_dec 16 ++ [" experts spread across "] ++
              emit_dec spread ++ ["/"] ++ emit_dec (lenz members) ++
              line " nodes (reported; not claiming perfect balance)" in
  if spread <? 2 then (1, text ++ line "[place] FAIL [place-balance] all experts on one node")
  else (0, text).

Definition place_solo : Z * list string :=
  verdict solo_ok "[place] ok  single-node: all experts -> the one node (SS-6 remote firing DEFERRED)"
    "[place] FAIL single-node mapping".

Definition place_report : Z * list string :=
  let base := owner_bases in
  let dead := victim base in
  let left := reduced dead in
  let steps := rehome base dead left in
  report [place_deterministic base; place_rehome dead steps;
          place_control (moved_count steps) (modn_moved left);
          place_balance (distinct (map (fun e => owner_in e members) (seqZ 0 16))); place_solo]
    "[place] PASS" "[place] FAIL".

End SelfTest.

Definition st_placement_self_test : Z * list string := place_report st_expert_owner_in place_members.

(** ** Owners *)

Lemma owner_in_eq e members :
  st_expert_owner_in e members =
    if decide (0 < lenz members <= LOOKUP_MAX_MEMBERS)
    then match ranking (st_expert_key e) members with w :: _ => w | [] => -1 end else -1.
Proof.
  unfold st_expert_owner_in, st_expert_owners_in. rewrite responsible_eq.
  destruct (Z.leb_spec (lenz members) 0); cbn [orb Z.leb Z.compare];
    repeat case_decide; try done; try lia.
  change (Z.to_nat 1) with 1%nat. by destruct (ranking (st_expert_key e) members).
Qed.

Lemma ranking_head key members w l :
  ranking key members = w :: l -> w ∈ members /\ forall x, x ∈ members -> ranks key w x.
Proof.
  intros E. pose proof (ranking_perm key members) as Hp. pose proof (ranking_sorted key members) as Hs.
  rewrite E in *. split; [rewrite <- Hp; set_solver|]. intros x Hx. rewrite <- Hp in Hx.
  apply StronglySorted_inv in Hs as [_ Hs]. apply elem_of_cons in Hx as [->|Hx].
  - destruct (ranks_total key w w); done.
  - rewrite Forall_forall in Hs. by apply Hs.
Qed.

(** The owner is the member that ranks first, and only that one. *)
Lemma owner_in_iff e members w :
  (forall x, x ∈ members -> 0 <= x) -> lenz members <= LOOKUP_MAX_MEMBERS -> 0 <= w ->
  st_expert_owner_in e members = w <-> w ∈ members /\ forall x, x ∈ members -> ranks (st_expert_key e) w x.
Proof.
  intros Hpos Hn Hw. rewrite owner_in_eq. set (key := st_expert_key e). clearbody key.
  pose proof (ranking_perm key members) as Hp. case_decide as Hd.
  - destruct (ranking key members) as [|v l] eqn:E.
    { apply Permutation_nil_l in Hp. subst. unfold lenz in Hd. simpl in Hd. lia. }
    apply ranking_head in E as [Hv Hr]. split; [intros <-; done|].
    intros [Hin Hall]. apply (anti_symm (ranks key)); auto.
  - split; [lia|]. intros [Hin _]. exfalso. apply Hd. split; [|done].
    destruct members; [set_solver|]. unfold lenz. simpl. lia.
Qed.

(** Every node computes the same owner from the same members, whatever their
    order; the owner is one of them. *)
Theorem owner_agreed e view1 view2 (Hv : view1 ≡ₚ view2) (Hn : 0 < lenz view1 <= LOOKUP_MAX_MEMBERS) :
  st_expert_owner_in e view1 = st_expert_owner_in e view2 /\ st_expert_owner_in e view1 ∈ view1.
Proof.
  rewrite !owner_in_eq. rewrite <- (ranking_view_order _ _ _ Hv). unfold lenz in *.
  rewrite <- (Permutation_length Hv), decide_True by done. split; [done|].
  destruct (ranking (st_expert_key e) view1) as [|w l] eqn:E.
  - pose proof (ranking_length (st_expert_key e) view1) as Hl. rewrite E in Hl. simpl in Hl. lia.
  - by apply ranking_head in E as [? _].
Qed.

Lemma owner_agreed_witness : st_expert_owner_in 0 place_members ∈ place_members.
Proof. apply (owner_agreed 0 place_members place_members); [done|vm_compute; split; congruence]. Defined.

(** A death re-homes only the experts of the dead. An expert whose owner is
    still alive keeps it; an expert whose owner died goes to a living node. *)
Theorem owner_rehome e members (alive : gset Z)
  (Hpos : forall x, x ∈ members -> 0 <= x) (Hn : lenz members <= LOOKUP_MAX_MEMBERS)
  (Halive : exists x, x ∈ members /\ x ∈ alive) :
  (st_expert_owner_in e members ∈ alive ->
   st_expert_owner_in e (filter (.∈ alive) members) = st_expert_owner_in e members) /\
  st_expert_owner_in e (filter (.∈ alive) members) ∈ alive /\
  st_expert_owner_in e (filter (.∈ alive) members) ∈ members.
Proof.
  destruct Halive as (x & Hx & Ha). pose proof (filter_nonempty (.∈ alive) members x Hx Ha) as [Hf Hl].
  destruct (owner_agreed e members members) as [_ Ho]; [done|lia|].
  destruct (owner_agreed e (filter (.∈ alive) members) (filter (.∈ alive) members)) as [_ Ho']; [done|lia|].
  apply list_elem_of_filter in Ho' as [Hal Hin]. split; [|by split]. intros Hown.
  apply owner_in_iff; [intros y [_ Hy]%list_elem_of_filter; auto|lia|auto|].
  split; [by apply list_elem_of_filter|]. intros y [_ Hy]%list_elem_of_filter.
  by apply (proj1 (owner_in_iff e members _ Hpos Hn (Hpos _ Ho)) eq_refl).
Qed.

Lemma owner_rehome_witness :
  st_expert_owner_in 0 (filter (.∈ ({[3; 17; 40]} : gset Z)) place_members) ∈ ({[3; 17; 40]} : gset Z).
Proof.
  apply (owner_rehome 0 place_members {[3; 17; 40]}).
  - intros x Hx. unfold place_members in Hx. set_solver by lia.
  - vm_compute. congruence.
  - exists 3. unfold place_members. set_solver.
Defined.

Lemma collect_members p x : x ∈ collect p <-> 0 <= x < DNODE_MAX /\ p x = true.
Proof.
  unfold collect. rewrite list_elem_of_In, filter_In, <- list_elem_of_In, elem_of_seqZ. naive_solver lia.
Qed.

Lemma collect_length p : lenz (collect p) <= DNODE_MAX.
Proof.
  unfold collect, lenz, DNODE_MAX. pose proof (filter_length_le p (seqZ 0 64)) as H.
  rewrite length_seqZ in H. lia.
Qed.

Lemma alive_iff state x : x ∈ alive_members state <-> 0 <= x < DNODE_MAX /\ state x = DNODE_ALIVE.
Proof. unfold alive_members. by rewrite collect_members, Z.eqb_eq. Qed.
Lemma alive_length state : lenz (alive_members state) <= DNODE_MAX.
Proof. apply collect_length. Qed.

(** In a cluster whose nodes share one view, every expert is local to exactly
    one node, and that node is alive. *)
Theorem exactly_one_local state e (Hsome : exists i, 0 <= i < DNODE_MAX /\ state i = DNODE_ALIVE) :
  exists n, (0 <= n < DNODE_MAX /\ state n = DNODE_ALIVE) /\ st_expert_is_local state n e = true /\
    forall m, st_expert_is_local state m e = true -> m = n.
Proof.
  destruct Hsome as (i & Hi & Hst). unfold st_expert_is_local, st_expert_owner.
  assert (Hin : i ∈ alive_members state) by (apply alive_iff; auto).
  pose proof (alive_length state) as Hmax. pose proof (alive_iff state) as Hall.
  generalize dependent (alive_members state). intros members Hin Hmax Hall.
  assert (Hlen : 0 < lenz members) by (destruct members; [set_solver|unfold lenz; simpl; lia]).
  destruct (Z.eqb_spec (lenz members) 0); [lia|].
  destruct (owner_agreed e members members) as [_ Ho];
    [done|unfold LOOKUP_MAX_MEMBERS, DNODE_MAX in *; lia|].
  apply Hall in Ho as [Hr Hal]. generalize dependent (st_expert_owner_in e members). intros w Hr Hal.
  exists w. destruct (Z.ltb_spec w 0); [lia|].
  assert (u16 w = w) as -> by (apply Z.mod_small; unfold DNODE_MAX in Hr; lia).
  split; [done|]. split; [apply Z.eqb_refl|]. by intros m <-%Z.eqb_eq.
Qed.

Lemma exactly_one_local_witness :
  exists n, st_expert_is_local (fun i => if i =? 5 then DNODE_ALIVE else DNODE_DEAD) n 3 = true.
Proof.
  destruct (exactly_one_local (fun i => if i =? 5 then DNODE_ALIVE else DNODE_DEAD) 3) as (n & _ & Hn & _).
  - exists 5. split; [unfold DNODE_MAX; lia|reflexivity].
  - exists n. exact Hn.
Defined.

(** The self-test of the source passes, its modulo control moves more experts
    than the ranking does, and the 256 experts have 256 different keys. *)
Theorem placement_self_test_passes :
  fst st_placement_self_test = 0 /\
  (let base := owner_bases st_expert_owner_in place_members in
   let left := reduced place_members (victim base) in
   moved_count (rehome st_expert_owner_in base (victim base) left) < modn_moved place_members left) /\
  NoDup (map st_expert_key (seqZ 0 256)).
Proof.
  split_and!; [vm_compute; reflexivity|vm_compute; reflexivity|].
  apply (bool_decide_unpack _). vm_compute. exact I.
Qed.
