(* ===== verification/Raft.v ===== *)
(** * Leader election and the replicated log: src/arch/common/raft.c, raft.h

    One node: its state, the packet, the receive callback, one turn of the
    periodic task, the write of the leader. A handler returns the new state and
    what it did to the outside, in order: packets sent, log entries applied and
    the call that distributes the kernel from a new leader. The callback and
    the task run as atomic steps. Console output is not modelled. The theorems
    about one node are in RaftNode.v, the ones about a cluster in
    RaftCluster.v. *)

From stdpp Require Import list.
#[local] Open Scope Z_scope.
From S2P Require Import Prelude.
From S2P Require Import Node.

(** ** Constants *)
Definition RAFT_MAGIC : Z := 0x54464152.
Definition RAFT_VERSION : Z := 1.
Definition RAFT_MSG_VOTE_REQ : Z := 1.
Definition RAFT_MSG_VOTE_REP : Z := 2.
Definition RAFT_MSG_APPEND : Z := 3.
Definition RAFT_MSG_APPEND_REP : Z := 4.
Definition RAFT_HB_INTERVAL_MS : Z := 100.
Definition RAFT_TICK_MS : Z := 50.
Definition RAFT_ELECT_TMO_MIN : Z := 6.
Definition RAFT_ELECT_TMO_RANGE : Z := 6.
Definition RAFT_LOG_MAX : Z := 16.
Definition E_OK : Z := 0.
Definition E_RSFN : Z := -10.
Definition E_LIMIT : Z := -34.

(** ** The packet *)
Record RAFT_PKT : Type := Pkt {
  magic : Z; version : Z; type : Z; src_node : Z; candidate : Z;
  term : Z; log_idx : Z; log_term : Z; p_commit_idx : Z;
  granted : Z; success : Z; entry_key : Z; entry_val : Z;
  entry_idx : Z; entry_term : Z }.

(** The packed structure as bytes, integers least significant byte first. *)
Definition pkt_bytes (p : RAFT_PKT) : list Z :=
  le 4 (magic p) ++ [version p; type p; src_node p; candidate p] ++
  le 4 (term p) ++ le 4 (log_idx p) ++ le 4 (log_term p) ++ le 4 (p_commit_idx p) ++
  [granted p; success p; entry_key p; entry_val p] ++ le 4 (entry_idx p) ++ le 4 (entry_term p).
Definition sizeof_RAFT_PKT : Z := 36.

(** The view of received bytes through a [const RAFT_PKT *]. *)
Definition word_at (d : list Z) (off : nat) : Z := of_le (take 4 (drop off d)).
Definition pkt_view (d : list Z) : RAFT_PKT :=
  Pkt (word_at d 0) (getz d 4 0) (getz d 5 0) (getz d 6 0) (getz d 7 0)
      (word_at d 8) (word_at d 12) (word_at d 16) (word_at d 20)
      (getz d 24 0) (getz d 25 0) (getz d 26 0) (getz d 27 0)
      (word_at d 28) (word_at d 32).

(** ** The state of a node *)
Inductive raft_role : Type := RAFT_FOLLOWER | RAFT_CANDIDATE | RAFT_LEADER.
#[global] Instance raft_role_eq_dec : EqDecision raft_role.
Proof. solve_decision. Defined.

Record RAFT_LOG_ENTRY : Type := Entry { e_term : Z; e_key : Z; e_val : Z }.
#[global] Instance entry_eq_dec : EqDecision RAFT_LOG_ENTRY.
Proof. solve_decision. Defined.

Record raft : Type := Raft {
  role : raft_role; cur_term : Z; voted_for : Z; cur_leader : Z; votes_got : Z;
  elect_tmo : Z; elect_tmo_max : Z;
  log_buf : list RAFT_LOG_ENTRY; log_size : Z; commit_idx : Z;
  hb_counter : Z }.

(** What a node sees of the others: its own id and the state of each row of
    the live view, read again at every call. *)
Record view : Type := View { drpc_my_node : Z; dnode_state : Z -> Z }.

Inductive effect : Type :=
  | Sent (ip : Z) (data : list Z)
  | Applied (idx key val : Z)
  | Spawned.

Definition set_role (r : raft_role) (s : raft) : raft :=
  Raft r (cur_term s) (voted_for s) (cur_leader s) (votes_got s) (elect_tmo s) (elect_tmo_max s)
    (log_buf s) (log_size s) (commit_idx s) (hb_counter s).
Definition set_vote (t v : Z) (s : raft) : raft :=
  Raft (role s) t v (cur_leader s) (votes_got s) (elect_tmo s) (elect_tmo_max s)
    (log_buf s) (log_size s) (commit_idx s) (hb_counter s).
Definition set_leader (l : Z) (s : raft) : raft :=
  Raft (role s) (cur_term s) (voted_for s) l (votes_got s) (elect_tmo s) (elect_tmo_max s)
    (log_buf s) (log_size s) (commit_idx s) (hb_counter s).
Definition set_votes (n : Z) (s : raft) : raft :=
  Raft (role s) (cur_term s) (voted_for s) (cur_leader s) n (elect_tmo s) (elect_tmo_max s)
    (log_buf s) (log_size s) (commit_idx s) (hb_counter s).
Definition set_tmo (t m : Z) (s : raft) : raft :=
  Raft (role s) (cur_term s) (voted_for s) (cur_leader s) (votes_got s) t m
    (log_buf s) (log_size s) (commit_idx s) (hb_counter s).
Definition set_log (l : list RAFT_LOG_ENTRY) (n c : Z) (s : raft) : raft :=
  Raft (role s) (cur_term s) (voted_for s) (cur_leader s) (votes_got s) (elect_tmo s) (elect_tmo_max s)
    l n c (hb_counter s).
Definition set_hb (h : Z) (s : raft) : raft :=
  Raft (role s) (cur_term s) (voted_for s) (cur_leader s) (votes_got s) (elect_tmo s) (elect_tmo_max s)
    (log_buf s) (log_size s) (commit_idx s) h.

(** ** Helpers *)

Definition next_elect_tmo (v : view) (s : raft) : Z :=
  let seed := u32 (u32 (cur_term s * 31) + u32 (drpc_my_node v * 17)) in
  let seed := u32 (u32 (seed * 1664525) + 1013904223) in
  RAFT_ELECT_TMO_MIN + drpc_my_node v * 2 + seed mod RAFT_ELECT_TMO_RANGE.

Definition others (v : view) : list Z :=
  List.filter (fun n => negb (n =? drpc_my_node v)) (seqZ 0 DNODE_MAX).

Definition alive_count (v : view) : Z :=
  1 + lenz (List.filter (fun n => dnode_state v n =? DNODE_ALIVE) (others v)).

Definition quorum (v : view) : Z := alive_count v / 2 + 1.

Definition become_follower (new_term : Z) (s : raft) : raft :=
  let s := if cur_term s <? new_term then set_vote new_term 0xFF s else s in
  set_tmo 0 (elect_tmo_max s) (set_role RAFT_FOLLOWER s).

Definition no_entry : RAFT_LOG_ENTRY := Entry 0 0 0.
Definition last_entry (s : raft) : RAFT_LOG_ENTRY := getz (log_buf s) (log_size s - 1) no_entry.
Definition my_log_term (s : raft) : Z := if 0 <? log_size s then e_term (last_entry s) else 0.

Definition send_pkt (v : view) (s : raft) (dst_ip ty extra_grant extra_success : Z) : effect :=
  let att := (ty =? RAFT_MSG_APPEND) && (0 <? log_size s) in
  let e := last_entry s in
  Sent dst_ip (pkt_bytes
    (Pkt RAFT_MAGIC RAFT_VERSION ty (pk_node_v1 (drpc_my_node v)) (pk_node_v1 (drpc_my_node v))
       (cur_term s) (log_size s) (my_log_term s) (commit_idx s) extra_grant extra_success
       (if att then e_key e else 0) (if att then e_val e else 0)
       (if att then log_size s - 1 else 0) (if att then e_term e else 0))).

(** The nodes a broadcast goes to. *)
Definition peers (v : view) : list Z :=
  List.filter (fun n => (dnode_state v n =? DNODE_ALIVE) || (dnode_state v n =? DNODE_UNKNOWN)) (others v).

Definition broadcast (v : view) (s : raft) (ty : Z) : list effect :=
  map (fun n => send_pkt v s (pk_node_ip n) ty 0 0) (peers v).

Definition apply_entry (s : raft) (idx : Z) : list effect :=
  if log_size s <=? idx then []
  else let e := getz (log_buf s) idx no_entry in [Applied idx (e_key e) (e_val e)].

(** ** The receive callback *)

Definition vote_rep (v : view) (s : raft) (p : RAFT_PKT) (grant : Z) : effect :=
  Sent (pk_node_ip (candidate p)) (pkt_bytes
    (Pkt RAFT_MAGIC RAFT_VERSION RAFT_MSG_VOTE_REP (pk_node_v1 (drpc_my_node v)) 0
       (cur_term s) 0 0 0 grant 0 0 0 0 0)).

(** Is the log of the candidate at least as new as ours? *)
Definition log_ok (s : raft) (p : RAFT_PKT) : bool :=
  (my_log_term s <? log_term p) || ((log_term p =? my_log_term s) && (log_size s <=? log_idx p)).

Definition rx_vote_req (v : view) (p : RAFT_PKT) (s : raft) : raft * list effect :=
  let grant := ((voted_for s =? 0xFF) || (voted_for s =? candidate p)) && log_ok s p in
  let s := if grant then set_tmo 0 (elect_tmo_max s) (set_vote (cur_term s) (candidate p) s) else s in
  (s, [vote_rep v s p (if grant then 1 else 0)]).

Definition rx_vote_rep (v : view) (p : RAFT_PKT) (s : raft) : raft * list effect :=
  if negb (bool_decide (role s = RAFT_CANDIDATE)) then (s, [])
  else if negb (term p =? cur_term s) then (s, [])
  else if granted p =? 0 then (s, [])
  else
    let s := set_votes (u32 (votes_got s + 1)) s in
    if quorum v <=? votes_got s then
      let s := set_leader (drpc_my_node v) (set_role RAFT_LEADER s) in
      (s, broadcast v s RAFT_MSG_APPEND ++ [Spawned])
    else (s, []).

Definition append_log (p : RAFT_PKT) (s : raft) : raft :=
  if (log_size s <? RAFT_LOG_MAX) && (0 <? entry_term p) && (log_size s <=? entry_idx p)
  then set_log (setz (log_buf s) (log_size s) (Entry (entry_term p) (entry_key p) (entry_val p)))
         (log_size s + 1) (commit_idx s) s
  else s.

(** [while (commit_idx < p->commit_idx && commit_idx < log_size)]; the fuel
    is [log_size], which bounds the turns since [commit_idx] rises by one. *)
Fixpoint commit_to (fuel : nat) (upto : Z) (s : raft) : raft * list effect :=
  match fuel with
  | O => (s, [])
  | S k =>
      if (commit_idx s <? upto) && (commit_idx s <? log_size s) then
        let a := apply_entry s (commit_idx s) in
        let r := commit_to k upto (set_log (log_buf s) (log_size s) (commit_idx s + 1) s) in
        (fst r, a ++ snd r)
      else (s, [])
  end.

Definition append_rep (v : view) (s : raft) (p : RAFT_PKT) : effect :=
  Sent (pk_node_ip (src_node p)) (pkt_bytes
    (Pkt RAFT_MAGIC RAFT_VERSION RAFT_MSG_APPEND_REP (pk_node_v1 (drpc_my_node v)) 0
       (cur_term s) (log_size s) 0 0 0 1 0 0 0 0)).

Definition rx_append (v : view) (p : RAFT_PKT) (s : raft) : raft * list effect :=
  let s := set_tmo 0 (elect_tmo_max s) (set_leader (src_node p) s) in
  let s := if bool_decide (role s = RAFT_CANDIDATE) then become_follower (term p) s else s in
  let s := append_log p s in
  let r := commit_to (Z.to_nat (log_size s)) (p_commit_idx p) s in
  (fst r, snd r ++ [append_rep v (fst r) p]).

Definition on_pkt (v : view) (p : RAFT_PKT) (s : raft) : raft * list effect :=
  if negb (magic p =? RAFT_MAGIC) || negb (version p =? RAFT_VERSION) then (s, [])
  else if term p <? cur_term s then (s, [])
  else
    let s := if cur_term s <? term p then become_follower (term p) s else s in
    if type p =? RAFT_MSG_VOTE_REQ then rx_vote_req v p s
    else if type p =? RAFT_MSG_VOTE_REP then rx_vote_rep v p s
    else if type p =? RAFT_MSG_APPEND then rx_append v p s
    else (s, []).

Definition raft_rx (v : view) (data : list Z) (s : raft) : raft * list effect :=
  if lenz data <? sizeof_RAFT_PKT then (s, []) else on_pkt v (pkt_view data) s.

(** ** One turn of the task, every [RAFT_TICK_MS] *)

Definition start_election (v : view) (s : raft) : raft * list effect :=
  let s := set_votes 1 (set_vote (u32 (cur_term s + 1)) (drpc_my_node v)
             (set_role RAFT_CANDIDATE (set_tmo 0 (elect_tmo_max s) s))) in
  let s := set_tmo 0 (next_elect_tmo v s) s in
  if quorum v <=? votes_got s then (set_leader (drpc_my_node v) (set_role RAFT_LEADER s), [Spawned])
  else (s, broadcast v s RAFT_MSG_VOTE_REQ).

Definition raft_turn (v : view) (s : raft) : raft * list effect :=
  if drpc_my_node v =? 0xFF then (s, [])
  else if bool_decide (role s = RAFT_LEADER) then
    let s := set_hb (hb_counter s + 1) s in
    if RAFT_HB_INTERVAL_MS <=? hb_counter s * RAFT_TICK_MS then
      let s := set_hb 0 s in (s, broadcast v s RAFT_MSG_APPEND)
    else (s, [])
  else
    let s := set_tmo (elect_tmo s + 1) (elect_tmo_max s) s in
    if elect_tmo s <? elect_tmo_max s then (s, []) else start_election v s.

(** ** Start and write *)

(** The log entries and the heartbeat counter of the task are left alone. *)
Definition raft_init (v : view) (s : raft) : raft :=
  let s := set_log (log_buf s) 0 0
             (set_tmo 0 (elect_tmo_max s) (set_votes 0 (set_leader 0xFF (set_vote 0 0xFF (set_role RAFT_FOLLOWER s))))) in
  set_tmo 0 (next_elect_tmo v s) s.

(** The static initialisers. *)
Definition raft0 : raft :=
  Raft RAFT_FOLLOWER 0 0xFF 0xFF 0 0 RAFT_ELECT_TMO_MIN (replicate 16 no_entry) 0 0 0.

Definition raft_write (v : view) (key val : Z) (s : raft) : raft * list effect * Z :=
  if negb (bool_decide (role s = RAFT_LEADER)) then (s, [], E_RSFN)
  else if RAFT_LOG_MAX <=? log_size s then (s, [], E_LIMIT)
  else
    let s := set_log (setz (log_buf s) (log_size s) (Entry (cur_term s) key val)) (log_size s + 1) (commit_idx s) s in
    (set_log (log_buf s) (log_size s) (log_size s) s, broadcast v s RAFT_MSG_APPEND, E_OK).
