(* ===== verification/RaftNode.v ===== *)
(** * One raft node: bounds, votes, timeouts, replication

    Theorems about Raft.v that speak of one node, or of a leader and one
    follower: the log stays inside its buffer whatever bytes arrive, a node
    votes once in a term, a silent cluster starts an election in bounded time,
    and a lossless channel keeps the follower's log equal to the leader's. *)

From stdpp Require Import list.
#[local] Open Scope Z_scope.
From S2P Require Import Prelude.
From S2P Require Import Node.
From S2P Require Import Raft.

(** ** The packet comes back from its bytes *)

Definition pkt_fits (p : RAFT_PKT) : Prop :=
  is_u32 (magic p) /\ is_u32 (term p) /\ is_u32 (log_idx p) /\ is_u32 (log_term p) /\
  is_u32 (p_commit_idx p) /\ is_u32 (entry_idx p) /\ is_u32 (entry_term p).

Lemma word_le x : is_u32 x -> of_le (le 4 x) = x.
Proof. intros Hx. rewrite of_le_le. by apply Z.mod_small. Qed.

Lemma pkt_view_bytes p : pkt_fits p -> pkt_view (pkt_bytes p) = p.
Proof.
  intros (H1 & H2 & H3 & H4 & H5 & H6 & H7). destruct p as [mg ve ty sn ca te li lt ci gr su ek ev ei et].
  cbn in H1, H2, H3, H4, H5, H6, H7. unfold pkt_view, word_at, pkt_bytes, getz.
  cbn [le magic version type src_node candidate term log_idx log_term p_commit_idx granted success
       entry_key entry_val entry_idx entry_term app].
  cbn -[of_le Z.land Z.shiftr].
  f_equal; by apply word_le.
Qed.

Lemma pkt_bytes_length p : lenz (pkt_bytes p) = sizeof_RAFT_PKT.
Proof. reflexivity. Qed.

Lemma rx_bytes v p s : pkt_fits p -> raft_rx v (pkt_bytes p) s = on_pkt v p s.
Proof. intros Hp. unfold raft_rx. by rewrite pkt_bytes_length, pkt_view_bytes. Qed.

Lemma word_at_range d n : Forall is_u8 d -> is_u32 (word_at d n).
Proof.
  intros Hd. unfold word_at, is_u32.
  pose proof (of_le_range (take 4 (drop n d)) ltac:(by apply Forall_take, Forall_drop)) as H.
  assert (lenz (take 4 (drop n d)) <= 4) as Hl by (unfold lenz; rewrite length_take; lia).
  pose proof (Z.pow_le_mono_r 2 (8 * lenz (take 4 (drop n d))) 32 ltac:(lia) ltac:(lia)). lia.
Qed.
#[export] Hint Resolve word_at_range : machine.

Lemma view_fits d : Forall is_u8 d -> pkt_fits (pkt_view d).
Proof. intros. unfold pkt_fits, pkt_view; cbn. split_and!; by apply word_at_range. Qed.

(** ** The invariant of a node *)

Record raft_ok (s : raft) : Prop := {
  ok_term : is_u32 (cur_term s);
  ok_buf : lenz (log_buf s) = RAFT_LOG_MAX;
  ok_size : 0 <= log_size s <= RAFT_LOG_MAX;
  ok_commit : 0 <= commit_idx s <= log_size s;
  ok_entries : Forall (fun e => is_u32 (e_term e)) (log_buf s) }.

(** The log: the entries in use. *)
Definition log (s : raft) : list RAFT_LOG_ENTRY := take (Z.to_nat (log_size s)) (log_buf s).

(** What a step may do to the log part of the state. *)
Definition log_grows (s s' : raft) : Prop :=
  log s `prefix_of` log s' /\ commit_idx s <= commit_idx s' /\ log_size s <= log_size s'.

#[export] Instance log_grows_preorder : PreOrder log_grows.
Proof.
  split; [by intros s; repeat split|].
  intros a b c (P1 & C1 & S1) (P2 & C2 & S2). split; [by etrans|lia].
Qed.

Lemma raft0_ok : raft_ok raft0.
Proof. split; cbn; try (unfold is_u32; lia); try done. repeat constructor; cbn; unfold is_u32; lia. Qed.

Lemma log_length s : raft_ok s -> length (log s) = Z.to_nat (log_size s).
Proof.
  intros [_ Hb Hs _ _]. unfold log. rewrite length_take. unfold lenz in Hb. lia.
Qed.

(** Writing at [log_size] appends. *)
Lemma append_at s e : raft_ok s -> log_size s < RAFT_LOG_MAX ->
  take (Z.to_nat (log_size s + 1)) (setz (log_buf s) (log_size s) e) = log s ++ [e].
Proof.
  intros [_ Hb Hs _ _] Hlt. unfold log, setz, lenz in *.
  rewrite (proj2 (Z.ltb_ge _ 0)) by lia.
  replace (Z.to_nat (log_size s + 1)) with (S (Z.to_nat (log_size s))) by lia.
  rewrite (take_S_r _ _ e) by (apply list_lookup_insert_eq; lia).
  f_equal. by rewrite take_insert_ge by lia.
Qed.

Lemma last_entry_ok s : raft_ok s -> is_u32 (e_term (last_entry s)).
Proof. intros H. unfold last_entry. apply (getz_Forall (fun e => is_u32 (e_term e))); [apply H|by unfold is_u32; cbn]. Qed.

Lemma my_log_term_ok s : raft_ok s -> is_u32 (my_log_term s).
Proof. intros H. unfold my_log_term. ifs; [by apply last_entry_ok|by unfold is_u32]. Qed.

Lemma become_follower_ok t s : is_u32 t -> raft_ok s -> raft_ok (become_follower t s).
Proof. intros Ht [H1 H2 H3 H4 H5]. unfold become_follower. ifs; by split. Qed.

Lemma become_follower_spec t s : is_u32 t -> raft_ok s -> cur_term s <= t ->
  let s' := become_follower t s in
  log_buf s' = log_buf s /\ log_size s' = log_size s /\ commit_idx s' = commit_idx s /\ cur_term s' = t /\ raft_ok s'.
Proof.
  intros Ht Hs Hle. pose proof (become_follower_ok t s Ht Hs). cbn zeta. split_and!; try done;
    unfold become_follower; dif E; try done. bools. cbn. lia.
Qed.

Lemma append_log_ok p s : pkt_fits p -> raft_ok s -> raft_ok (append_log p s) /\ log_grows s (append_log p s).
Proof.
  intros (_ & _ & _ & _ & _ & _ & Hp) Hs. unfold append_log. ifs; [|by split]. bools. split.
  - destruct Hs as [K1 K2 K3 K4 K5]. split; cbn; try done; try lia.
    + unfold lenz in *. by rewrite setz_length.
    + by apply setz_Forall.
  - unfold log_grows. unfold log at 2. cbn [set_log log_size log_buf commit_idx].
    rewrite append_at by done. split; [by apply prefix_app_r|lia].
Qed.

(** The entries a step applied, in order. *)
Definition applied (es : list effect) : list (Z * Z * Z) :=
  omap (fun e => match e with Applied i k v => Some (i, k, v) | _ => None end) es.

(** The entries from index [i] on, up to [n] of them, as [apply_entry] shows them. *)
Definition entries_from (s : raft) (i n : Z) : list (Z * Z * Z) :=
  map (fun j => let e := getz (log_buf s) j no_entry in (j, e_key e, e_val e)) (seqZ i n).

Lemma commit_to_spec fuel upto s : raft_ok s -> (Z.to_nat (log_size s - commit_idx s) <= fuel)%nat ->
  let r := commit_to fuel upto s in
  fst r = set_log (log_buf s) (log_size s) (Z.max (commit_idx s) (Z.min upto (log_size s))) s /\
  applied (snd r) = entries_from s (commit_idx s) (Z.max (commit_idx s) (Z.min upto (log_size s)) - commit_idx s) /\
  Forall (fun e => match e with Applied _ _ _ => True | _ => False end) (snd r).
Proof.
  revert s. induction fuel as [|k IH]; intros s Hs Hf.
  - assert (commit_idx s = log_size s) as Hc by (destruct Hs; lia). cbn.
    replace (Z.max _ _) with (commit_idx s) by lia. rewrite Z.sub_diag. split; [by destruct s|by repeat split].
  - cbn [commit_to]. dif E; cycle 1.
    + assert (Z.max (commit_idx s) (Z.min upto (log_size s)) = commit_idx s) as ->.
      { apply andb_false_iff in E as [?|?]; bools; destruct Hs; lia. }
      cbn. rewrite Z.sub_diag. split; [by destruct s|by repeat split].
    + bools. destruct (IH (set_log (log_buf s) (log_size s) (commit_idx s + 1) s)) as (I1 & I2 & I3).
      { destruct Hs. split; cbn; try done; lia. }
      { cbn. destruct Hs. lia. }
      cbn in I1, I2, I3 |- *. rewrite I1.
      replace (Z.max (commit_idx s + 1) (Z.min upto (log_size s))) with (Z.max (commit_idx s) (Z.min upto (log_size s))) by lia.
      split_and!; [done| |].
      * unfold applied in *. rewrite omap_app, I2. unfold apply_entry. rewrite (proj2 (Z.leb_gt _ _)) by lia.
        cbn. unfold entries_from. rewrite (seqZ_cons (commit_idx s)) by lia. cbn. do 2 f_equal.
        unfold entries_from; cbn. do 2 f_equal; lia.
      * apply Forall_app. split; [|done]. unfold apply_entry. ifs; repeat constructor.
Qed.

(** ** Events and runs *)

Inductive event : Type :=
  | ERx (v : view) (data : list Z)
  | ETurn (v : view)
  | EWrite (v : view) (key val : Z).

Definition step (e : event) (s : raft) : raft * list effect :=
  match e with
  | ERx v d => raft_rx v d s
  | ETurn v => raft_turn v s
  | EWrite v k x => fst (raft_write v k x s)
  end.

Fixpoint run (es : list event) (s : raft) : raft * list effect :=
  match es with
  | [] => (s, [])
  | e :: r => let a := step e s in let b := run r (fst a) in (fst b, snd a ++ snd b)
  end.

Definition event_ok (e : event) : Prop :=
  match e with ERx _ d => Forall is_u8 d | _ => True end.

(** ** The log under any events *)

Lemma entries_stable s s' i n : raft_ok s -> raft_ok s' -> log_grows s s' -> 0 <= i -> i + n <= log_size s ->
  entries_from s i n = entries_from s' i n.
Proof.
  intros Hs Hs' (Hp & _ & Hz) Hi Hn. unfold entries_from. apply map_ext_in.
  assert (forall t j, raft_ok t -> 0 <= j < log_size t -> log t !! Z.to_nat j = Some (getz (log_buf t) j no_entry)) as Hat.
  { intros t j [_ Hb Ht _ _] Hj. unfold log, getz, lenz in *. rewrite (proj2 (Z.ltb_ge _ 0)) by lia.
    rewrite lookup_take_lt by lia.
    rewrite (nth_lookup (log_buf t)).
    destruct (lookup_lt_is_Some_2 (log_buf t) (Z.to_nat j)) as [x ->]; [lia|done]. }
  intros j Hj%list_elem_of_In%elem_of_seqZ. pose proof (Hat s j Hs ltac:(lia)) as H1.
  pose proof (Hat s' j Hs' ltac:(lia)) as H2. destruct Hp as [w Hw]. rewrite Hw in H2.
  rewrite (lookup_app_l_Some _ _ _ _ H1) in H2. injection H2 as H2. by rewrite H2.
Qed.

(** A step that does not touch the log. *)
Lemma same_log s s' : log_buf s' = log_buf s -> log_size s' = log_size s -> commit_idx s' = commit_idx s ->
  is_u32 (cur_term s') -> raft_ok s -> raft_ok s' /\ log_grows s s'.
Proof.
  intros E1 E2 E3 Ht [H1 H2 H3 H4 H5]. split.
  - split; rewrite ?E1, ?E2, ?E3; done.
  - unfold log_grows, log. rewrite E1, E2, E3. by repeat split.
Qed.

Lemma applied_sends es : Forall (fun e => match e with Applied _ _ _ => False | _ => True end) es -> applied es = [].
Proof. induction 1 as [|[] ? ? _ IH]; done. Qed.

(** Equations, so that no proof makes the kernel compute the 64 rows. *)
Lemma others_eq v : others v = List.filter (fun n => negb (n =? drpc_my_node v)) (seqZ 0 DNODE_MAX).
Proof. reflexivity. Qed.
Lemma peers_eq v : peers v =
  List.filter (fun n => (dnode_state v n =? DNODE_ALIVE) || (dnode_state v n =? DNODE_UNKNOWN)) (others v).
Proof. reflexivity. Qed.
Lemma broadcast_eq v s ty : broadcast v s ty = map (fun n => send_pkt v s (pk_node_ip n) ty 0 0) (peers v).
Proof. reflexivity. Qed.

Lemma in_others v n : In n (others v) <-> n <> drpc_my_node v /\ 0 <= n < DNODE_MAX.
Proof.
  rewrite others_eq, filter_In, <- list_elem_of_In, elem_of_seqZ, negb_true_iff, Z.eqb_neq, Z.add_0_l. tauto.
Qed.
Lemma in_peers v n : In n (peers v) <->
  (n <> drpc_my_node v /\ 0 <= n < DNODE_MAX) /\ (dnode_state v n = DNODE_ALIVE \/ dnode_state v n = DNODE_UNKNOWN).
Proof. rewrite peers_eq, filter_In, in_others, orb_true_iff, !Z.eqb_eq. tauto. Qed.

Lemma broadcast_sends v s ty : Forall (fun e => match e with Applied _ _ _ => False | _ => True end) (broadcast v s ty).
Proof. rewrite broadcast_eq. apply Forall_elem. intros e He. apply list_elem_of_In, in_map_iff in He as (n & <- & _). exact I. Qed.

(** A step keeps the invariant, extends the log, and applies exactly the
    entries its commit index passes, or none when it is the leader's write. *)
Definition step_good (s : raft) (r : raft * list effect) : Prop :=
  raft_ok (fst r) /\ log_grows s (fst r) /\
  (applied (snd r) = entries_from (fst r) (commit_idx s) (commit_idx (fst r) - commit_idx s) \/ applied (snd r) = []).

Lemma same_log_good s s' es : log_buf s' = log_buf s -> log_size s' = log_size s -> commit_idx s' = commit_idx s ->
  is_u32 (cur_term s') -> raft_ok s ->
  Forall (fun e => match e with Applied _ _ _ => False | _ => True end) es -> step_good s (s', es).
Proof.
  intros E1 E2 E3 Ht Hs He. destruct (same_log s s' E1 E2 E3 Ht Hs). split_and!; [done..|].
  right. by apply applied_sends.
Qed.

Lemma step_good_from s s1 r : log_buf s1 = log_buf s -> log_size s1 = log_size s -> commit_idx s1 = commit_idx s ->
  step_good s1 r -> step_good s r.
Proof.
  intros E1 E2 E3 (H1 & H2 & H3). unfold step_good, log_grows, log in *. rewrite E1, E2, E3 in *. done.
Qed.

Lemma rx_append_good v p s : pkt_fits p -> raft_ok s -> step_good s (rx_append v p s).
Proof.
  intros Hp Hs. unfold rx_append. set (s0 := set_tmo 0 _ _).
  set (s1 := if bool_decide _ then _ else _).
  assert (log_buf s1 = log_buf s /\ log_size s1 = log_size s /\ commit_idx s1 = commit_idx s /\ raft_ok s1)
    as (E1 & E2 & E3 & Hs1).
  { assert (raft_ok s0) as H0 by (destruct Hs; by split).
    subst s1. ifs; [|by split_and!]. split_and!; try (unfold become_follower; ifs; done).
    apply become_follower_ok; [apply Hp|done]. }
  destruct (append_log_ok p s1 Hp Hs1) as [Ha1 Ha2].
  destruct (commit_to_spec (Z.to_nat (log_size (append_log p s1))) (p_commit_idx p) _ Ha1) as (C1 & C2 & C3);
    [destruct Ha1; lia|].
  assert (commit_idx (append_log p s1) = commit_idx s1) as E4 by (unfold append_log; ifs; done).
  apply (step_good_from s s1); [done..|]. set (r := commit_to _ _ _) in *. clearbody r.
  set (a := append_log p s1) in *. clearbody a. unfold step_good. cbn [fst snd]. rewrite C1.
  split_and!.
  - destruct Ha1. split; cbn; try done. lia.
  - etrans; [exact Ha2|]. unfold log_grows, log. cbn. destruct Ha1. split_and!; [done|lia..].
  - left. unfold applied in *. rewrite omap_app, C2. cbn. rewrite app_nil_r, E4. done.
Qed.

Lemma on_pkt_good v p s : pkt_fits p -> raft_ok s -> step_good s (on_pkt v p s).
Proof.
  intros Hp Hs. unfold on_pkt.
  assert (forall es, Forall (fun e => match e with Applied _ _ _ => False | _ => True end) es -> step_good s (s, es)) as Hid
    by (intros; apply same_log_good; try done; apply Hs).
  dif Em; [by apply Hid|]. dif Et; [by apply Hid|].
  set (s1 := if cur_term s <? term p then _ else _).
  assert (log_buf s1 = log_buf s /\ log_size s1 = log_size s /\ commit_idx s1 = commit_idx s /\ raft_ok s1)
    as (E1 & E2 & E3 & Hs1).
  { subst s1. ifs; [|done]. split_and!; try (unfold become_follower; ifs; done).
    apply become_follower_ok; [apply Hp|done]. }
  clearbody s1. apply (step_good_from s s1); [done..|].
  pose proof (ok_term _ Hs1) as Ht1.
  ifs; [|..|by apply same_log_good].
  - unfold rx_vote_req. ifs; apply same_log_good; try done; by repeat constructor.
  - unfold rx_vote_rep. ifs; apply same_log_good; try done.
    apply Forall_app. split; [apply broadcast_sends|by repeat constructor].
  - by apply rx_append_good.
Qed.

Lemma turn_good v s : raft_ok s -> step_good s (raft_turn v s).
Proof.
  intros Hs. pose proof (ok_term _ Hs). unfold raft_turn, start_election.
  ifs; apply same_log_good; try done; try apply broadcast_sends; try (by repeat constructor); cbn; auto with machine.
Qed.

Lemma write_good v k x s : raft_ok s -> step_good s (fst (raft_write v k x s)).
Proof.
  intros Hs. pose proof (ok_term _ Hs). unfold raft_write.
  dif E1; [by apply same_log_good|]. dif E2; [by apply same_log_good|]. bools.
  cbn [fst snd]. unfold step_good. cbn [fst snd]. split_and!.
  - destruct Hs as [K1 K2 K3 K4 K5]. split; cbn; try done; try lia.
    + unfold lenz in *. by rewrite setz_length.
    + by apply setz_Forall.
  - unfold log_grows. unfold log at 2. cbn. rewrite append_at by done. destruct Hs. split; [by apply prefix_app_r|lia].
  - right. apply applied_sends, broadcast_sends.
Qed.

Lemma step_is_good e s : event_ok e -> raft_ok s -> step_good s (step e s).
Proof.
  intros He Hs. destruct e as [v d|v|v k x]; cbn [step].
  - unfold raft_rx. ifs; [apply same_log_good; try done; apply Hs|]. apply on_pkt_good; [by apply view_fits|done].
  - by apply turn_good.
  - by apply write_good.
Qed.

Lemma run_good es s : Forall event_ok es -> raft_ok s ->
  raft_ok (fst (run es s)) /\ log_grows s (fst (run es s)) /\
  applied (snd (run es s)) `sublist_of`
    entries_from (fst (run es s)) (commit_idx s) (commit_idx (fst (run es s)) - commit_idx s).
Proof.
  intros He. revert s. induction He as [|e es Hev _ IH]; intros s Hs.
  - cbn. rewrite Z.sub_diag. split_and!; [done|reflexivity|constructor].
  - cbn [run fst snd]. destruct (step_is_good e s Hev Hs) as (H1 & H2 & H3).
    destruct (IH _ H1) as (I1 & I2 & I3). split_and!; [done|by etrans|].
    set (s1 := fst (step e s)) in *. set (s2 := fst (run es s1)) in *.
    assert (entries_from s2 (commit_idx s) (commit_idx s2 - commit_idx s) =
            entries_from s1 (commit_idx s) (commit_idx s1 - commit_idx s) ++
            entries_from s2 (commit_idx s1) (commit_idx s2 - commit_idx s1)) as ->.
    { destruct H2 as (_ & Hc & _), I2 as (P2 & Hc2 & Hz2). destruct Hs, H1.
      rewrite (entries_stable s1 s2) by (try done; try lia; by split).
      unfold entries_from. rewrite <- map_app. f_equal.
      replace (commit_idx s2 - commit_idx s) with ((commit_idx s1 - commit_idx s) + (commit_idx s2 - commit_idx s1)) by lia.
      rewrite seqZ_app by lia. do 2 f_equal. lia. }
    unfold applied in *. rewrite omap_app. apply sublist_app; [|done].
    destruct H3 as [->| ->]; [done|apply sublist_nil_l].
Qed.

Lemma raft_init_ok v s : Forall (fun e => is_u32 (e_term e)) (log_buf s) -> lenz (log_buf s) = RAFT_LOG_MAX ->
  raft_ok (raft_init v s).
Proof. intros He Hl. split; cbn; try done; unfold is_u32; lia. Qed.

(** The log of a node is safe against the network. Whatever packets
    arrive (any bytes), and whatever turns and writes happen in between, the
    node never writes outside its 16 entries, the commit index stays inside
    the log, an entry once in the log is never changed or removed, the commit
    index never falls, and what was applied so far is a subsequence, in order
    and without repetition, of the committed entries as the log holds them. *)
Theorem raft_log_safe v es es' (He : Forall event_ok es) (He' : Forall event_ok es') :
  let r := run es (raft_init v raft0) in
  let s := fst r in
  let s' := fst (run es' s) in
  lenz (log_buf s) = RAFT_LOG_MAX /\ 0 <= commit_idx s <= log_size s /\ log_size s <= RAFT_LOG_MAX /\
  log s `prefix_of` log s' /\ commit_idx s <= commit_idx s' /\
  applied (snd r) `sublist_of` entries_from s 0 (commit_idx s).
Proof.
  intros r s s'.
  assert (raft_ok (raft_init v raft0)) as H0 by (apply raft_init_ok; [apply raft0_ok|done]).
  destruct (run_good es _ He H0) as (H1 & H2 & H3).
  destruct (run_good es' _ He' H1) as (H4 & (P & C & _) & _).
  cbn [commit_idx raft_init set_tmo set_log] in H3. rewrite Z.sub_0_r in H3.
  subst s' s r. destruct H1. split_and!; (done || lia).
Qed.

(** ** Votes *)

(** The grants among the effects of a step: the term and the address. *)
Definition vote_of (e : effect) : option (Z * Z) :=
  match e with
  | Sent ip d =>
      let p := pkt_view d in
      if (type p =? RAFT_MSG_VOTE_REP) && negb (granted p =? 0) then Some (term p, ip) else None
  | _ => None
  end.
Definition votes (es : list effect) : list (Z * Z) := omap vote_of es.

(** A run in which no term wraps round, no received packet names the id that
    means "no node" as its candidate, and [P] holds of every view. *)
Fixpoint calm (es : list event) (s : raft) : Prop :=
  match es with
  | [] => True
  | e :: r =>
      match e with
      | ERx _ d => Forall is_u8 d /\ candidate (pkt_view d) <> PK_NODE_NONE
      | ETurn _ => cur_term s < 2 ^ 32 - 1
      | EWrite _ _ _ => True
      end /\ calm r (fst (step e s))
  end.

Lemma send_fits v s ip ty g u : raft_ok s ->
  pkt_fits (Pkt RAFT_MAGIC RAFT_VERSION ty (pk_node_v1 (drpc_my_node v)) (pk_node_v1 (drpc_my_node v))
       (cur_term s) (log_size s) (my_log_term s) (commit_idx s) g u
       (if (ty =? RAFT_MSG_APPEND) && (0 <? log_size s) then e_key (last_entry s) else 0)
       (if (ty =? RAFT_MSG_APPEND) && (0 <? log_size s) then e_val (last_entry s) else 0)
       (if (ty =? RAFT_MSG_APPEND) && (0 <? log_size s) then log_size s - 1 else 0)
       (if (ty =? RAFT_MSG_APPEND) && (0 <? log_size s) then e_term (last_entry s) else 0)) /\
  exists p, send_pkt v s ip ty g u = Sent ip (pkt_bytes p) /\ pkt_fits p /\ type p = ty /\
    term p = cur_term s /\ candidate p = pk_node_v1 (drpc_my_node v) /\ granted p = g.
Proof.
  intros Hs. match goal with |- pkt_fits ?p /\ _ => assert (pkt_fits p) as Hp end.
  { pose proof (last_entry_ok s Hs). pose proof (my_log_term_ok s Hs).
    destruct Hs as [K1 K2 K3 K4 _]. unfold RAFT_LOG_MAX in *.
    unfold pkt_fits; cbn. unfold is_u32 in *. split_and!; ifs; bools; try done; lia. }
  split; [done|]. unfold send_pkt. eexists. split; [reflexivity|]. by split_and!.
Qed.

Lemma in_broadcast v s ty e : raft_ok s -> e ∈ broadcast v s ty ->
  exists n p, e = Sent (pk_node_ip n) (pkt_bytes p) /\ pkt_fits p /\ type p = ty /\
    term p = cur_term s /\ candidate p = pk_node_v1 (drpc_my_node v) /\ granted p = 0 /\
    n <> drpc_my_node v /\ 0 <= n < DNODE_MAX.
Proof.
  intros Hs He. rewrite broadcast_eq in He. apply list_elem_of_In, in_map_iff in He as (n & <- & Hn).
  apply in_peers in Hn as [[Hne Hn] _].
  destruct (send_fits v s (pk_node_ip n) ty 0 0 Hs) as (_ & p & E & H1 & H2 & H3 & H4 & H5).
  exists n, p. rewrite E. split_and!; (done || lia).
Qed.

Lemma votes_none es : (forall e, e ∈ es -> vote_of e = None) -> votes es = [].
Proof.
  induction es as [|e es IH]; intros H; [done|]. unfold votes. cbn. rewrite H by left. apply IH.
  intros x Hx. apply H. by right.
Qed.

Lemma votes_app a b : votes (a ++ b) = votes a ++ votes b.
Proof. apply omap_app. Qed.

Lemma broadcast_votes v s ty : raft_ok s -> votes (broadcast v s ty) = [].
Proof.
  intros Hs. apply votes_none. intros e He.
  destruct (in_broadcast v s ty e Hs He) as (n & p & -> & Hp & _ & _ & _ & Hg & _).
  unfold vote_of. rewrite pkt_view_bytes by done. rewrite Hg. by rewrite andb_false_r.
Qed.

Lemma rep_fits v s p g : raft_ok s ->
  vote_of (vote_rep v s p g) = if negb (g =? 0) then Some (cur_term s, pk_node_ip (candidate p)) else None.
Proof.
  intros Hs. unfold vote_rep, vote_of. rewrite pkt_view_bytes; [done|].
  unfold pkt_fits; cbn. destruct Hs. unfold is_u32 in *. split_and!; (done || lia).
Qed.

(** What one step does to the vote of a node: the term never falls; either no
    vote leaves the node, and its vote changes only with the term, or one
    vote leaves it, for the candidate it recorded in the current term. *)
Definition vote_step (s : raft) (r : raft * list effect) : Prop :=
  cur_term s <= cur_term (fst r) /\
  ((votes (snd r) = [] /\ (cur_term (fst r) = cur_term s -> voted_for (fst r) = voted_for s)) \/
   (exists c, c <> PK_NODE_NONE /\ votes (snd r) = [(cur_term (fst r), pk_node_ip c)] /\ voted_for (fst r) = c /\
      (cur_term (fst r) = cur_term s -> voted_for s = PK_NODE_NONE \/ voted_for s = c))).

Lemma vote_step_same s s' es : cur_term s' = cur_term s -> voted_for s' = voted_for s -> votes es = [] ->
  vote_step s (s', es).
Proof. intros E1 E2 Hv. split; cbn; [lia|]. by left. Qed.

Lemma vote_step_from s s1 r : cur_term s <= cur_term s1 ->
  (cur_term s1 = cur_term s -> voted_for s1 = voted_for s) -> vote_step s1 r -> vote_step s r.
Proof.
  intros Hle Hsame [H1 [[H2 H3]|(c & Hc & H2 & H3 & H4)]]; (split; [lia|]).
  - left. split; [done|]. intros Ht. rewrite H3, Hsame; lia || done.
  - right. exists c. split_and!; try done. intros Ht. rewrite <- Hsame by lia. apply H4. lia.
Qed.

Lemma applied_votes es : Forall (fun e => match e with Applied _ _ _ => True | _ => False end) es -> votes es = [].
Proof. intros H. apply votes_none. rewrite Forall_elem in H. intros e He. specialize (H e He). by destruct e. Qed.

Lemma rx_append_vote v p s : pkt_fits p -> raft_ok s -> cur_term s = term p -> vote_step s (rx_append v p s).
Proof.
  intros Hp Hs Ht. unfold rx_append. set (s0 := set_tmo 0 _ _).
  set (s1 := if bool_decide _ then _ else _).
  assert (raft_ok s1 /\ cur_term s1 = cur_term s /\ voted_for s1 = voted_for s) as (Hs1 & E1 & E2).
  { assert (raft_ok s0) as H0 by (destruct Hs; by split). subst s1. ifs; [|by split_and!].
    split; [apply become_follower_ok; [apply Hp|done]|]. unfold become_follower.
    rewrite (proj2 (Z.ltb_ge _ _)) by (cbn; lia). done. }
  destruct (append_log_ok p s1 Hp Hs1) as [Ha1 _].
  destruct (commit_to_spec (Z.to_nat (log_size (append_log p s1))) (p_commit_idx p) _ Ha1) as (C1 & _ & C3);
    [destruct Ha1; lia|].
  assert (cur_term (append_log p s1) = cur_term s /\ voted_for (append_log p s1) = voted_for s) as [E3 E4]
    by (unfold append_log; ifs; done).
  set (r := commit_to _ _ _) in *. clearbody r. set (a := append_log p s1) in *. clearbody a.
  apply vote_step_same; [by rewrite C1..|]. cbn [snd]. rewrite votes_app, applied_votes by done.
  unfold votes, append_rep. cbn [omap list_omap vote_of]. rewrite pkt_view_bytes; [done|].
  unfold pkt_fits; rewrite C1; cbn. destruct Ha1. unfold is_u32, RAFT_LOG_MAX in *. split_and!; (done || lia).
Qed.

Lemma on_pkt_vote v p s : pkt_fits p -> candidate p <> PK_NODE_NONE -> raft_ok s -> vote_step s (on_pkt v p s).
Proof.
  intros Hp Hc Hs. unfold on_pkt. dif Em; [by apply vote_step_same|]. dif Et; [by apply vote_step_same|]. bools.
  set (s1 := if cur_term s <? term p then _ else _).
  assert (raft_ok s1 /\ cur_term s1 = term p /\ (cur_term s1 = cur_term s -> voted_for s1 = voted_for s)) as (Hs1 & E1 & E2).
  { subst s1. dif E; bools; [|split_and!; (done || lia)].
    split; [apply become_follower_ok; [apply Hp|done]|]. unfold become_follower.
    rewrite (proj2 (Z.ltb_lt _ _)) by done. cbn. split; [done|lia]. }
  clearbody s1. apply (vote_step_from s s1); [lia|done|].
  ifs; [|..|by apply vote_step_same].
  - unfold rx_vote_req. dif Eg.
    + split; [cbn; lia|]. right. exists (candidate p). cbn [fst snd set_tmo set_vote cur_term voted_for].
      split_and!; try done.
      * unfold votes. cbn [omap list_omap]. rewrite rep_fits by (by destruct Hs1; split). done.
      * intros _. bools. apply orb_true_iff in H1. unfold PK_NODE_NONE. rewrite !Z.eqb_eq in H1. done.
    + apply vote_step_same; [done..|]. unfold votes. cbn [omap list_omap snd]. by rewrite rep_fits.
  - unfold rx_vote_rep. ifs; (apply vote_step_same; [done|done|]); [reflexivity..| |reflexivity].
    cbn [snd]. rewrite votes_app, broadcast_votes; [done|]. by destruct Hs1; split.
  - apply rx_append_vote; done.
Qed.

Lemma turn_vote v s : raft_ok s -> cur_term s < 2 ^ 32 - 1 -> vote_step s (raft_turn v s).
Proof.
  intros Hs Hroom. pose proof (ok_term _ Hs) as Ht. unfold raft_turn. dif E1; [by apply vote_step_same|].
  dif E2.
  { ifs; (apply vote_step_same; [done|done|]); [|done]. apply broadcast_votes. by destruct Hs; split. }
  dif E3; [by apply vote_step_same|]. unfold start_election.
  assert (u32 (cur_term s + 1) = cur_term s + 1) as Hu by (apply u32_small; unfold is_u32 in *; lia).
  ifs; (split; [cbn; lia|]); left; cbn [fst snd set_tmo set_votes set_vote set_leader set_role cur_term]; (split; [|lia]).
  - done.
  - apply broadcast_votes. rewrite Hu. destruct Hs. split; cbn; try done. unfold is_u32 in *. lia.
Qed.

Lemma write_vote v k x s : raft_ok s -> vote_step s (fst (raft_write v k x s)).
Proof.
  intros Hs. pose proof (write_good v k x s Hs) as [Hs' _]. revert Hs'. unfold raft_write.
  dif E1; [intros; by apply vote_step_same|]. dif E2; intros; [by apply vote_step_same|].
  apply vote_step_same; [done..|]. apply broadcast_votes. cbn in Hs'. destruct Hs', Hs. split; cbn in *; (done || lia).
Qed.

Lemma calm_step e es s : raft_ok s -> calm (e :: es) s -> raft_ok (fst (step e s)) /\ vote_step s (step e s).
Proof.
  intros Hs [He _]. destruct e as [v d|v|v k x].
  - destruct He as [Hd Hc]. split; [by apply step_is_good|]. cbn [step]. unfold raft_rx.
    ifs; [by apply vote_step_same|]. by apply on_pkt_vote; [apply view_fits|..].
  - split; [by apply step_is_good|]. by apply turn_vote.
  - split; [by apply step_is_good|]. by apply write_vote.
Qed.

(** The votes of a run agree, and those of the current term name the
    recorded candidate. *)
Definition voted_well (vs : list (Z * Z)) (s : raft) : Prop :=
  (forall t ip, (t, ip) ∈ vs -> t <= cur_term s /\
     (t = cur_term s -> voted_for s <> PK_NODE_NONE /\ ip = pk_node_ip (voted_for s))) /\
  (forall t ip ip', (t, ip) ∈ vs -> (t, ip') ∈ vs -> ip = ip').

Lemma voted_well_step vs s r : voted_well vs s -> vote_step s r -> voted_well (vs ++ votes (snd r)) (fst r).
Proof.
  intros [H1 H2] [Hle [[Hv Hsame]|(c & Hc & Hv & Hf & Hsame)]]; rewrite Hv.
  - rewrite app_nil_r. split; [|done]. intros t ip Hin. destruct (H1 t ip Hin) as [Ht Hcur].
    split; [lia|]. intros ->. rewrite Hsame by lia. apply Hcur. lia.
  - assert (forall t ip, (t, ip) ∈ vs -> t = cur_term (fst r) -> ip = pk_node_ip c) as Hold.
    { intros t ip Hin ->. destruct (H1 _ _ Hin) as [Ht Hcur]. destruct (Hcur ltac:(lia)) as [Hn ->].
      destruct (Hsame ltac:(lia)) as [?| ->]; done. }
    split.
    + intros t ip [Hin|Heq%list_elem_of_singleton]%elem_of_app.
      * destruct (H1 t ip Hin). split; [lia|]. intros Ht. rewrite Hf. split; [done|]. by eapply Hold.
      * injection Heq as -> ->. split; [lia|]. intros _. by rewrite Hf.
    + intros t ip ip' [Hin|Heq%list_elem_of_singleton]%elem_of_app [Hin'|Heq'%list_elem_of_singleton]%elem_of_app.
      * by eapply H2.
      * injection Heq' as -> ->. by eapply Hold.
      * injection Heq as -> ->. symmetry. by eapply Hold.
      * by simplify_eq.
Qed.

Lemma run_votes es vs s : raft_ok s -> calm es s -> voted_well vs s ->
  voted_well (vs ++ votes (snd (run es s))) (fst (run es s)).
Proof.
  revert vs s. induction es as [|e es IH]; intros vs s Hs Hc Hv; [by rewrite app_nil_r|].
  destruct (calm_step e es s Hs Hc) as [Hs' Hstep]. cbn [run fst snd]. rewrite votes_app, app_assoc.
  apply IH; [done|exact (proj2 Hc)|]. by apply (voted_well_step _ s).
Qed.

(** One vote per term. In any run of a node in which no term wraps round
    at 2^32 and no request names id 255 as its candidate, all the votes the
    node grants in one term go to one address. *)
Theorem vote_once v es t ip ip' (Hcalm : calm es (raft_init v raft0))
    (Hv : (t, ip) ∈ votes (snd (run es (raft_init v raft0))))
    (Hv' : (t, ip') ∈ votes (snd (run es (raft_init v raft0)))) :
  ip = ip'.
Proof.
  assert (raft_ok (raft_init v raft0)) as H0 by (apply raft_init_ok; [apply raft0_ok|done]).
  destruct (run_votes es [] _ H0 Hcalm) as [_ H]; [|by eapply H].
  split; [by intros ? ? ?%elem_of_nil|by intros ? ? ? ?%elem_of_nil].
Qed.

(** A view with the given id, in which the given nodes are alive. *)
Definition view_of (me : Z) (alive : list Z) : view :=
  View me (fun n => if existsb (Z.eqb n) alive then DNODE_ALIVE else DNODE_DEAD).

Definition vote_req (cand t li lt : Z) : RAFT_PKT :=
  Pkt RAFT_MAGIC RAFT_VERSION RAFT_MSG_VOTE_REQ cand cand t li lt 0 0 0 0 0 0 0.

Definition two_requests : list event :=
  [ERx (view_of 1 [0; 1; 2]) (pkt_bytes (vote_req 0 7 0 0)); ERx (view_of 1 [0; 1; 2]) (pkt_bytes (vote_req 2 7 0 0));
   ERx (view_of 1 [0; 1; 2]) (pkt_bytes (vote_req 0 7 0 0))].

Example vote_once_witness :
  votes (snd (run two_requests (raft_init (view_of 1 [0; 1; 2]) raft0))) = [(7, pk_node_ip 0); (7, pk_node_ip 0)] /\
  pk_node_ip 0 = pk_node_ip 0.
Proof.
  split; [vm_compute; reflexivity|].
  apply (vote_once (view_of 1 [0; 1; 2]) two_requests 7).
  - cbn [calm two_requests]. split_and!; try (apply (bool_decide_unpack _); vm_compute; exact I).
  - apply (bool_decide_unpack _); vm_compute; exact I.
  - apply (bool_decide_unpack _); vm_compute; exact I.
Defined.

(** ** Timeouts *)

Lemma next_elect_tmo_range v s :
  RAFT_ELECT_TMO_MIN + drpc_my_node v * 2 <= next_elect_tmo v s <
  RAFT_ELECT_TMO_MIN + drpc_my_node v * 2 + RAFT_ELECT_TMO_RANGE.
Proof.
  unfold next_elect_tmo. set (x := u32 (_ + 1013904223)). clearbody x.
  pose proof (Z.mod_pos_bound x RAFT_ELECT_TMO_RANGE ltac:(done)). lia.
Qed.

(** Quiet turns only count. *)
Lemma quiet_turns v k s : drpc_my_node v <> 0xFF -> role s <> RAFT_LEADER ->
  elect_tmo s + Z.of_nat k < elect_tmo_max s ->
  run (replicate k (ETurn v)) s = (set_tmo (elect_tmo s + Z.of_nat k) (elect_tmo_max s) s, []).
Proof.
  intros Hme. revert s. induction k as [|k IH]; intros s Hr Hk.
  - cbn. rewrite Z.add_0_r. by destruct s.
  - cbn [replicate run]. assert (step (ETurn v) s = (set_tmo (elect_tmo s + 1) (elect_tmo_max s) s, [])) as ->.
    { cbn [step]. unfold raft_turn. rewrite (proj2 (Z.eqb_neq _ _)) by done. rewrite bool_decide_eq_false_2 by done.
      rewrite (proj2 (Z.ltb_lt _ _)) by (cbn; lia). done. }
    cbn [fst snd]. rewrite IH by (cbn; done || lia).
    cbn [set_tmo elect_tmo elect_tmo_max]. by replace (elect_tmo s + 1 + Z.of_nat k) with (elect_tmo s + Z.of_nat (S k)) by lia.
Qed.

Lemma start_election_tmo v t s : start_election v (set_tmo t (elect_tmo_max s) s) = start_election v s.
Proof.
  unfold start_election.
  by replace (set_tmo 0 (elect_tmo_max (set_tmo t (elect_tmo_max s) s)) (set_tmo t (elect_tmo_max s) s))
    with (set_tmo 0 (elect_tmo_max s) s) by (by destruct s).
Qed.

(** An election always starts. A node that is not the leader and hears
    nothing starts an election at the turn where its timeout runs out, at most
    [RAFT_ELECT_TMO_MIN + 2 * id + RAFT_ELECT_TMO_RANGE] turns of 50 ms later:
    it enters the next term and votes for itself; alone in its view it is the
    leader, otherwise every peer that is alive or not yet known gets a request
    for a vote in that term, and the next timeout is armed in the same
    bounds. *)
Theorem election_starts v s (Hs : raft_ok s) (Hme : 0 <= drpc_my_node v < PK_NODE_NONE) (Hr : role s <> RAFT_LEADER)
    (Htmo : elect_tmo_max s < RAFT_ELECT_TMO_MIN + drpc_my_node v * 2 + RAFT_ELECT_TMO_RANGE) (H0 : 0 <= elect_tmo s) :
  exists k : nat, Z.of_nat k <= RAFT_ELECT_TMO_MIN + drpc_my_node v * 2 + RAFT_ELECT_TMO_RANGE /\
    let r := run (replicate k (ETurn v)) s in
    cur_term (fst r) = u32 (cur_term s + 1) /\ voted_for (fst r) = drpc_my_node v /\ elect_tmo (fst r) = 0 /\
    elect_tmo_max (fst r) < RAFT_ELECT_TMO_MIN + drpc_my_node v * 2 + RAFT_ELECT_TMO_RANGE /\
    (if quorum v <=? 1 then role (fst r) = RAFT_LEADER
     else role (fst r) = RAFT_CANDIDATE /\
       forall n, In n (peers v) -> exists d, Sent (pk_node_ip n) d ∈ snd r /\
         type (pkt_view d) = RAFT_MSG_VOTE_REQ /\ term (pkt_view d) = u32 (cur_term s + 1) /\
         candidate (pkt_view d) = drpc_my_node v).
Proof.
  set (k := Z.to_nat (elect_tmo_max s - elect_tmo s - 1)). exists (k + 1)%nat.
  split; [subst k; unfold RAFT_ELECT_TMO_MIN, RAFT_ELECT_TMO_RANGE in *; lia|].
  assert (run (replicate (k + 1) (ETurn v)) s = start_election v s) as ->.
  { assert (exists s0, run (replicate k (ETurn v)) s = (s0, []) /\ role s0 = role s /\ elect_tmo_max s0 <= elect_tmo s0 + 1 /\
      start_election v (set_tmo (elect_tmo s0 + 1) (elect_tmo_max s0) s0) = start_election v s) as (s0 & Hq & H1 & H2 & H3).
    { destruct (decide (elect_tmo s + Z.of_nat k < elect_tmo_max s)) as [Hk|Hk].
      - eexists. split; [apply quiet_turns; (done || (unfold PK_NODE_NONE in *; lia))|]. split; [done|]. split; [cbn; lia|].
        cbn [elect_tmo elect_tmo_max set_tmo]. rewrite <- (start_election_tmo v (elect_tmo s + Z.of_nat k + 1) s). f_equal.
      - exists s. replace k with 0%nat by lia. split; [done|]. split; [done|]. split; [lia|apply start_election_tmo]. }
    assert (forall a b s, run (a ++ b) s = (fst (run b (fst (run a s))), snd (run a s) ++ snd (run b (fst (run a s))))) as Happ.
    { clear. induction a as [|e a IH]; intros b s; cbn [app run fst snd]; [by destruct (run b s)|].
      rewrite IH. cbn [fst snd]. by rewrite app_assoc. }
    rewrite replicate_add, Happ, Hq. cbn [fst snd replicate run step app]. rewrite app_nil_r.
    unfold raft_turn. rewrite (proj2 (Z.eqb_neq _ _)) by (unfold PK_NODE_NONE in *; lia).
    rewrite bool_decide_eq_false_2 by (by rewrite H1). rewrite (proj2 (Z.ltb_ge _ _)) by (cbn; lia).
    rewrite H3. by destruct (start_election v s). }
  unfold start_election. set (s1 := set_votes 1 _). set (s2 := set_tmo 0 _ s1).
  assert (raft_ok s2) as Hs2 by (destruct Hs; split; cbn; (done || auto with machine)).
  pose proof (next_elect_tmo_range v s1) as Hrng. change (votes_got s2) with 1.
  dif E; cbn [fst snd]; refine (conj eq_refl (conj eq_refl (conj eq_refl (conj (proj2 Hrng) _)))); [done|]. split; [done|].
  intros n Hn. destruct (send_fits v s2 (pk_node_ip n) RAFT_MSG_VOTE_REQ 0 0 Hs2) as (_ & p & Hp & F1 & F2 & F3 & F4 & _).
  exists (pkt_bytes p). split; [|rewrite pkt_view_bytes by done].
  - apply list_elem_of_In. rewrite broadcast_eq. apply in_map_iff. by exists n.
  - rewrite F4. unfold pk_node_v1, PK_NODE_NONE in *. rewrite (proj2 (Z.ltb_lt _ _)) by lia.
    split_and!; [done|done|]. apply u8_small. unfold is_u8. lia.
Qed.

Example election_starts_witness :
  exists k : nat, Z.of_nat k <= 6 + 2 * 2 + 6 /\
    cur_term (fst (run (replicate k (ETurn (view_of 2 [0; 1; 2]))) (raft_init (view_of 2 [0; 1; 2]) raft0))) = 1.
Proof.
  destruct (election_starts (view_of 2 [0; 1; 2]) (raft_init (view_of 2 [0; 1; 2]) raft0)) as (k & Hk & Ht & _).
  - apply raft_init_ok; [apply raft0_ok|done].
  - done.
  - done.
  - vm_compute. reflexivity.
  - vm_compute. discriminate.
  - exists k. split; [exact Hk|exact Ht].
Defined.

(** ** Replication over a lossless channel *)

(** The data among the effects that goes to one address. *)
Definition to_peer (ip : Z) (es : list effect) : list (list Z) :=
  omap (fun e => match e with Sent i d => if i =? ip then Some d else None | _ => None end) es.

Definition sent_data (e : effect) : list Z := match e with Sent _ d => d | _ => [] end.

Lemma peers_narrow v : NoDup (peers v) /\ Forall (fun n => 0 <= n < PK_NODE_NONE) (peers v).
Proof.
  split.
  - rewrite peers_eq, others_eq. apply NoDup_ListNoDup. do 2 apply List.NoDup_filter.
    apply NoDup_ListNoDup, NoDup_seqZ.
  - apply Forall_elem. intros n Hn. apply list_elem_of_In, in_peers in Hn. unfold DNODE_MAX, PK_NODE_NONE in *. lia.
Qed.

Lemma to_peer_map f v s ty l : 0 <= f < PK_NODE_NONE -> NoDup l -> Forall (fun n => 0 <= n < PK_NODE_NONE) l ->
  to_peer (pk_node_ip f) (map (fun n => send_pkt v s (pk_node_ip n) ty 0 0) l) =
  if decide (f ∈ l) then [sent_data (send_pkt v s (pk_node_ip f) ty 0 0)] else [].
Proof.
  intros Hf Hnd Hl. induction l as [|n l IH]; [done|].
  apply list.NoDup_cons in Hnd as [Hn Hnd]. apply list.Forall_cons in Hl as [Hn0 Hl]. specialize (IH Hnd Hl).
  cbn [map]. unfold to_peer. cbn [omap list_omap]. fold (to_peer (pk_node_ip f)
    (map (fun n => send_pkt v s (pk_node_ip n) ty 0 0) l)). rewrite IH.
  unfold send_pkt at 1. destruct (Z.eqb_spec (pk_node_ip n) (pk_node_ip f)) as [E|E].
  - apply pk_node_ip_inj in E as ->; [|done..]. rewrite (decide_False (P := f ∈ l)) by done.
    by rewrite decide_True by left.
  - destruct (decide (f ∈ l)) as [Hin|Hin]; [by rewrite decide_True by (by right)|].
    rewrite decide_False; [done|]. intros [->|?]%elem_of_cons; done.
Qed.

Lemma to_peer_broadcast f v s ty : 0 <= f < PK_NODE_NONE -> In f (peers v) ->
  to_peer (pk_node_ip f) (broadcast v s ty) = [sent_data (send_pkt v s (pk_node_ip f) ty 0 0)].
Proof.
  intros Hf Hin. destruct (peers_narrow v) as [Hnd Hl]. rewrite broadcast_eq, to_peer_map by done.
  by rewrite decide_True by (by apply list_elem_of_In).
Qed.

(** A leader, the packets on their way to one follower in the order they were
    sent, and the follower. *)
Record chan : Type := Chan { leader : raft; queue : list (list Z); follower : raft }.
Inductive act : Type := AWrite (key val : Z) | ABeat | ADeliver.

Definition chan_step (vl vf : view) (c : chan) (a : act) : chan :=
  let out es := queue c ++ to_peer (pk_node_ip (drpc_my_node vf)) es in
  match a with
  | AWrite k x => let r := fst (raft_write vl k x (leader c)) in Chan (fst r) (out (snd r)) (follower c)
  | ABeat => let r := raft_turn vl (leader c) in Chan (fst r) (out (snd r)) (follower c)
  | ADeliver =>
      match queue c with
      | [] => c
      | d :: q => Chan (leader c) q (fst (raft_rx vf d (follower c)))
      end
  end.

(** The follower once everything on its way has arrived. *)
Definition settled (vf : view) (c : chan) : raft :=
  fold_left (fun f d => fst (raft_rx vf d f)) (queue c) (follower c).

(** What an AppendEntries packet that is not stale does to the log. *)
Lemma on_append v p s : raft_ok s -> pkt_fits p -> magic p = RAFT_MAGIC -> version p = RAFT_VERSION ->
  type p = RAFT_MSG_APPEND -> cur_term s <= term p ->
  let s' := fst (on_pkt v p s) in
  raft_ok s' /\ cur_term s' = term p /\
  (if (log_size s <? RAFT_LOG_MAX) && (0 <? entry_term p) && (log_size s <=? entry_idx p)
   then log s' = log s ++ [Entry (entry_term p) (entry_key p) (entry_val p)] else log s' = log s) /\
  commit_idx s' <= Z.max (commit_idx s) (p_commit_idx p).
Proof.
  intros Hs Hp Hm Hv Hty Ht. destruct (on_pkt_good v p s Hp Hs) as (Hs' & _). revert Hs'.
  unfold on_pkt. rewrite Hm, Hv, Hty, (proj2 (Z.ltb_ge _ _)) by done. cbn [negb orb Z.eqb Pos.eqb RAFT_MAGIC
    RAFT_VERSION RAFT_MSG_APPEND RAFT_MSG_VOTE_REQ RAFT_MSG_VOTE_REP].
  set (s1 := if cur_term s <? term p then _ else _). unfold rx_append.
  set (s2 := if bool_decide _ then _ else _).
  assert (log_buf s2 = log_buf s /\ log_size s2 = log_size s /\ commit_idx s2 = commit_idx s /\ cur_term s2 = term p /\ raft_ok s2)
    as (E1 & E2 & E3 & E4 & Hs2).
  { assert (log_buf s1 = log_buf s /\ log_size s1 = log_size s /\ commit_idx s1 = commit_idx s /\ cur_term s1 = term p /\ raft_ok s1)
      as (K1 & K2 & K3 & K4 & Hs1).
    { subst s1. dif E; bools; [|split_and!; (done || lia)]. by apply become_follower_spec; [apply Hp|..]. }
    clearbody s1. assert (raft_ok (set_tmo 0 (elect_tmo_max s1) (set_leader (src_node p) s1))) as Hs0
      by (destruct Hs1; by split).
    subst s2. dif E; [|by split_and!].
    destruct (become_follower_spec (term p) _ ltac:(apply Hp) Hs0) as (F1 & F2 & F3 & F4 & F5); [cbn; lia|].
    split_and!; [by rewrite F1|by rewrite F2|by rewrite F3|done|done]. }
  clearbody s2. clear s1. destruct (append_log_ok p s2 Hp Hs2) as [Ha _].
  destruct (commit_to_spec (Z.to_nat (log_size (append_log p s2))) (p_commit_idx p) _ Ha) as (C1 & _ & _); [destruct Ha; lia|].
  set (r := commit_to _ _ _) in *. clearbody r. cbn [fst snd]. rewrite C1. intros Hok.
  split; [done|]. revert Ha. unfold append_log. rewrite E2. intros Ha.
  assert (log s2 = log s) as El by (unfold log; by rewrite E1, E2).
  dif E; cbn [cur_term commit_idx set_log log_size]; (split; [done|]).
  - bools. unfold log at 1. cbn [set_log log_buf log_size]. rewrite <- E2, append_at by (try done; lia). rewrite El.
    split; [done|]. lia.
  - split; [by unfold log in *|]. lia.
Qed.

Section channel.
Context (vl vf : view).
Hypothesis Hl : 0 <= drpc_my_node vl < PK_NODE_NONE.
Hypothesis Hf : 0 <= drpc_my_node vf < PK_NODE_NONE.
Hypothesis Hpeer : In (drpc_my_node vf) (peers vl).

Definition packets (q : list (list Z)) : Prop := Forall (fun d => exists p, d = pkt_bytes p /\ pkt_fits p) q.

Record chan_ok (c : chan) : Prop := {
  co_leader : raft_ok (leader c);
  co_role : role (leader c) = RAFT_LEADER;
  co_term : 0 < cur_term (leader c);
  co_queue : packets (queue c);
  co_follower : raft_ok (follower c);
  co_settled : raft_ok (settled vf c);
  co_behind : cur_term (settled vf c) <= cur_term (leader c);
  co_log : log (settled vf c) = log (leader c);
  co_commit : commit_idx (settled vf c) <= commit_idx (leader c) }.

(** The leader sends one AppendEntries from the state [t], which it is in
    up to the commit index. *)
Lemma chan_send c L t : chan_ok c -> raft_ok L -> raft_ok t -> role L = RAFT_LEADER -> cur_term L = cur_term (leader c) ->
  cur_term t = cur_term L -> log t = log L -> log_size t = log_size L -> commit_idx t <= commit_idx L ->
  commit_idx (leader c) <= commit_idx L ->
  (log L = log (leader c) \/ (log_size (leader c) < RAFT_LOG_MAX /\ 0 < e_term (last_entry t) /\
                              log_size L = log_size (leader c) + 1 /\ log L = log (leader c) ++ [last_entry t])) ->
  chan_ok (Chan L (queue c ++ to_peer (pk_node_ip (drpc_my_node vf)) (broadcast vl t RAFT_MSG_APPEND)) (follower c)).
Proof.
  intros [C1 C2 C3 C4 C5 C6 C7 C8 C9] HL Ht Hrole HtL Htt Hlog Hsz Hcm HcL Hcase.
  rewrite to_peer_broadcast by done. unfold send_pkt. cbn [sent_data]. set (p := Pkt _ _ _ _ _ _ _ _ _ _ _ _ _ _ _).
  assert (pkt_fits p) as Hp by (destruct (send_fits vl t 0 RAFT_MSG_APPEND 0 0 Ht) as [? _]; done).
  set (c' := Chan _ _ _). assert (settled vf c' = fst (on_pkt vf p (settled vf c))) as Hset.
  { unfold settled, c'. cbn [queue follower]. rewrite fold_left_app. cbn [fold_left]. by rewrite rx_bytes. }
  destruct (on_append vf p (settled vf c) C6 Hp) as (A1 & A2 & A3 & A4); [done..|cbn; lia|].
  assert (length (log (settled vf c)) = length (log (leader c))) as Hsl by (by rewrite C8).
  rewrite !log_length in Hsl by done.
  assert (log_size (settled vf c) = log_size (leader c)) as Hss by (destruct C1, C6; lia). clear Hsl.
  split; cbn [leader queue follower c']; try done; try lia.
  - apply Forall_app. split; [done|]. constructor; [by exists p|constructor].
  - by rewrite Hset.
  - rewrite Hset, A2. cbn. lia.
  - rewrite Hset. revert A3. rewrite Hss. subst p. cbn. intros A3.
    destruct Hcase as [Hsame|(Hlt & He & Hsz' & Hnew)].
    + assert (log_size L = log_size (leader c)) as HLs.
      { pose proof (log_length _ HL) as K1. rewrite Hsame, log_length in K1 by done. destruct HL, C1. lia. }
      revert A3. dif E; intros A3; [exfalso|congruence]. bools. destruct (0 <? log_size t); bools; lia.
    + revert A3. rewrite (proj2 (Z.ltb_lt (log_size (leader c)) _)), (proj2 (Z.ltb_lt 0 (log_size t))) by (destruct C1; lia).
      rewrite (proj2 (Z.ltb_lt 0 _)), (proj2 (Z.leb_le _ _)) by lia. cbn [andb]. intros ->. rewrite C8, Hnew.
      by destruct (last_entry t).
  - rewrite Hset. subst p. cbn [p_commit_idx] in A4. lia.
Qed.

Lemma chan_step_ok c a : chan_ok c -> chan_ok (chan_step vl vf c a) /\ log_grows (follower c) (follower (chan_step vl vf c a)).
Proof.
  intros Hc. pose proof Hc as [C1 C2 C3 C4 C5 C6 C7 C8 C9].
  assert (forall L, raft_ok L -> role L = RAFT_LEADER -> cur_term L = cur_term (leader c) ->
    log L = log (leader c) -> commit_idx L = commit_idx (leader c) -> chan_ok (Chan L (queue c ++ []) (follower c))) as Hquiet.
  { intros L H1 H2 H3 H4 H5. rewrite app_nil_r. split; cbn; try done; try lia; unfold settled in *; cbn; try done; try congruence; lia. }
  destruct a as [k x| |]; cbn [chan_step]; (split; [|try reflexivity]).
  - destruct (write_good vl k x _ C1) as [Hw _]. revert Hw. unfold raft_write. rewrite C2, bool_decide_eq_true_2 by done.
    cbn [negb]. dif E; cbn [fst snd]; intros Hw; [by apply Hquiet|]. bools.
    set (t := set_log _ _ (commit_idx (leader c)) (leader c)).
    assert (raft_ok t) as Ht by (destruct Hw, C1; split; cbn in *; (done || lia)).
    assert (log t = log (leader c) ++ [Entry (cur_term (leader c)) k x]) as Hlog
      by (unfold t, log at 1; cbn; by rewrite append_at).
    assert (last_entry t = Entry (cur_term (leader c)) k x) as Hlast.
    { unfold last_entry, t. cbn. replace (log_size (leader c) + 1 - 1) with (log_size (leader c)) by lia.
      rewrite getz_setz by (destruct C1 as [_ -> ? _ _]; lia). by rewrite Z.eqb_refl. }
    apply chan_send; try done; cbn; try (destruct C1; lia).
    right. rewrite Hlast. split_and!; try done.
  - unfold raft_turn. rewrite (proj2 (Z.eqb_neq _ _)) by (unfold PK_NODE_NONE in *; lia).
    rewrite C2, bool_decide_eq_true_2 by done. dif E; cbn [fst snd].
    + apply chan_send; cbn; try done; try lia; try (by destruct C1; split). by left.
    + apply Hquiet; cbn; try done. by destruct C1; split.
  - destruct (queue c) as [|d q] eqn:Eq; [done|]. unfold packets in C4.
    apply Forall_cons_1 in C4 as [(p & -> & Hp) Hq]. unfold settled in *. rewrite ?Eq in *. cbn [fold_left] in *.
    split; cbn [leader queue follower settled]; try done.
    rewrite rx_bytes by done. by apply on_pkt_good.
  - destruct (queue c) as [|d q] eqn:Eq; [done|]. unfold packets in C4.
    apply Forall_cons_1 in C4 as [(p & -> & Hp) Hq]. cbn [follower]. rewrite rx_bytes by done. by apply on_pkt_good.
Qed.

Lemma settled_grows c : packets (queue c) -> raft_ok (follower c) -> log_grows (follower c) (settled vf c).
Proof.
  unfold settled. generalize (follower c) as f. generalize (queue c) as q. intros q f Hq. revert f.
  induction Hq as [|d q (p & -> & Hp) _ IH]; intros f Hok; [done|]. cbn [fold_left].
  rewrite rx_bytes by done. destruct (on_pkt_good vf p f Hp Hok) as (H1 & H2 & _). etrans; [exact H2|]. by apply IH.
Qed.
End channel.

(** A lossless channel replicates the log. A leader writes entries and
    sends heartbeats; its packets to one follower arrive complete and in
    order, at any later time. The follower's log is always a prefix of the
    leader's, equal to it whenever nothing is on its way, and the follower
    never commits past the leader. *)
Theorem fifo_replication vl vf c acts
    (Hl : 0 <= drpc_my_node vl < PK_NODE_NONE) (Hf : 0 <= drpc_my_node vf < PK_NODE_NONE)
    (Hpeer : In (drpc_my_node vf) (peers vl)) (Hlead : raft_ok (leader c)) (Hfol : raft_ok (follower c))
    (Hrole : role (leader c) = RAFT_LEADER) (Hterm : 0 < cur_term (leader c))
    (Hbehind : cur_term (follower c) <= cur_term (leader c)) (Hq : queue c = [])
    (Hsame : log (follower c) = log (leader c)) (Hcommit : commit_idx (follower c) <= commit_idx (leader c)) :
  let c' := fold_left (chan_step vl vf) acts c in
  log (follower c') `prefix_of` log (leader c') /\
  (queue c' = [] -> log (follower c') = log (leader c')) /\
  commit_idx (follower c') <= commit_idx (leader c').
Proof.
  assert (chan_ok vf c) as H0 by (split; unfold settled; rewrite ?Hq; try done; constructor).
  intros c'. assert (chan_ok vf c') as Hc.
  { unfold c'. clear - H0 Hl Hf Hpeer. revert c H0. induction acts as [|a acts IH]; intros c H0; [done|].
    cbn [fold_left]. apply IH. by apply chan_step_ok. }
  destruct (settled_grows vf c' (co_queue _ _ Hc) (co_follower _ _ Hc)) as (P & C & _).
  pose proof (co_log _ _ Hc) as E. pose proof (co_commit _ _ Hc). split_and!; [by rewrite <- E| |lia].
  intros Hnil. rewrite <- E. unfold settled. by rewrite Hnil.
Qed.

Definition leader1 : raft := set_role RAFT_LEADER (set_vote 1 0 raft0).

Example fifo_replication_witness :
  let c' := fold_left (chan_step (view_of 0 [1]) (view_of 1 [0])) [AWrite 1 10; ABeat; AWrite 2 20; ABeat; ADeliver; ADeliver]
              (Chan leader1 [] raft0) in
  log (follower c') `prefix_of` log (leader c') /\ log (follower c') = [Entry 1 1 10; Entry 1 2 20].
Proof.
  split; [|vm_compute; reflexivity].
  apply (fifo_replication (view_of 0 [1]) (view_of 1 [0]) (Chan leader1 [] raft0)); try done.
  - apply in_peers. cbn. split; [split; [discriminate|]|by left]. split; [discriminate|reflexivity].
  - pose proof raft0_ok as [K1 K2 K3 K4 K5]. split; try done.
  - apply raft0_ok.
Defined.

Example raft_log_safe_witness :
  Forall event_ok two_requests /\
  log_size (fst (run two_requests (raft_init (view_of 1 [0; 1; 2]) raft0))) <= RAFT_LOG_MAX.
Proof.
  assert (Forall event_ok two_requests) as H.
  { repeat constructor; apply (bool_decide_unpack _); vm_compute; exact I. }
  split; [exact H|].
  destruct (raft_log_safe (view_of 1 [0; 1; 2]) two_requests two_requests H H) as (_ & _ & Hs & _). exact Hs.
Defined.

(** ** What goes wrong

    A lost AppendEntries is not noticed: the follower checks only that the index
    of the entry is not below its own size, and writes at its own end. Of two
    writes the first is lost; the follower stores the second at index 0, where
    the leader holds the first, and the next heartbeat appends it once more at
    index 1. Both are applied. *)
Definition lossy_follower : raft * list effect :=
  let w1 := raft_write (view_of 0 [1]) 1 10 leader1 in
  let w2 := raft_write (view_of 0 [1]) 2 20 (fst (fst w1)) in
  let hb := broadcast (view_of 0 [1]) (fst (fst w2)) RAFT_MSG_APPEND in
  run (map (ERx (view_of 1 [0])) (to_peer (pk_node_ip 1) (snd (fst w2) ++ hb))) raft0.

Example lost_append_diverges :
  log (fst lossy_follower) = [Entry 1 2 20; Entry 1 2 20] /\
  applied (snd lossy_follower) = [(0, 2, 20); (1, 2, 20)] /\
  log (fst (fst (raft_write (view_of 0 [1]) 2 20 (fst (fst (raft_write (view_of 0 [1]) 1 10 leader1)))))) =
    [Entry 1 1 10; Entry 1 2 20].
Proof. split_and!; vm_compute; reflexivity. Qed.

(** A candidate with a wide id sends id 255, which is also "no vote yet": the
    vote is not recorded, a second candidate gets one in the same term, and the
    answer goes to the address of node 255, not to the candidate's. *)
Definition wide_request : list Z := pkt_bytes (vote_req (pk_node_v1 300) 7 0 0).
Example wide_candidate_unrecorded :
  let r := run [ERx (view_of 1 [0]) wide_request; ERx (view_of 1 [0]) (pkt_bytes (vote_req 0 7 0 0))] raft0 in
  votes (snd r) = [(7, pk_node_ip 255); (7, pk_node_ip 0)] /\ pk_node_ip 255 <> pk_node_ip 300.
Proof. split; [vm_compute; reflexivity|]. by vm_compute. Qed.
