(* ===== verification/RaftCluster.v ===== *)
(** * A cluster of raft nodes: at most one leader in a term

    The nodes of Raft.v joined by a network that may delay, reorder and lose
    packets but neither forges nor repeats them. When no node's live view is
    smaller than the cluster, a term has at most one leader. The last section
    shows that both conditions are needed: a repeated answer is counted twice,
    and a partition lowers the quorum on both sides. *)

From stdpp Require Import list relations.
#[local] Open Scope Z_scope.
From S2P Require Import Prelude.
From S2P Require Import Node.
From S2P Require Import Raft.
From S2P Require Import RaftNode.

(** ** Occurrences *)

Definition occ {A} `{EqDecision A} (x : A) (l : list A) : Z := lenz (List.filter (fun y => bool_decide (y = x)) l).

Lemma occ_nil {A} `{EqDecision A} (x : A) : occ x [] = 0.
Proof. done. Qed.
Lemma occ_cons {A} `{EqDecision A} (x y : A) l : occ x (y :: l) = (if bool_decide (y = x) then 1 else 0) + occ x l.
Proof. unfold occ, lenz. cbn [List.filter]. case_bool_decide; cbn [length]; lia. Qed.
Lemma occ_app {A} `{EqDecision A} (x : A) l k : occ x (l ++ k) = occ x l + occ x k.
Proof. unfold occ, lenz. rewrite List.filter_app, length_app. lia. Qed.
Lemma occ_nonneg {A} `{EqDecision A} (x : A) l : 0 <= occ x l.
Proof. unfold occ, lenz. lia. Qed.
Lemma occ_zero {A} `{EqDecision A} (x : A) l : x ∉ l -> occ x l = 0.
Proof.
  induction l as [|y l IH]; intros Hx; [done|]. rewrite occ_cons, IH by (intros ?; apply Hx; by right).
  rewrite bool_decide_eq_false_2; [lia|]. intros ->. apply Hx. by left.
Qed.

#[export] Instance occ_perm {A} `{EqDecision A} (x : A) : Proper ((≡ₚ) ==> (=)) (occ x).
Proof. intros l k Hp. induction Hp; rewrite ?occ_cons in *; try done; lia. Qed.

(** ** What travels *)

(** The vote requests among effects: address, term, candidate. *)
Definition req_of (e : effect) : option (Z * Z * Z) :=
  match e with
  | Sent ip d => let p := pkt_view d in
      if type p =? RAFT_MSG_VOTE_REQ then Some (ip, term p, candidate p) else None
  | _ => None
  end.
Definition reqs (es : list effect) : list (Z * Z * Z) := omap req_of es.

Definition is_sent (e : effect) : bool := match e with Sent _ _ => true | _ => false end.
Definition sends (es : list effect) : list effect := List.filter is_sent es.

Definition fits (e : effect) : Prop := match e with Sent _ d => exists p, d = pkt_bytes p /\ pkt_fits p | _ => True end.

Lemma reqs_app a b : reqs (a ++ b) = reqs a ++ reqs b.
Proof. apply omap_app. Qed.
Lemma reqs_sends es : reqs (sends es) = reqs es.
Proof. induction es as [|[] es IH]; [done| |done..]. unfold reqs, sends in *. cbn in *. by rewrite IH. Qed.
Lemma votes_sends es : votes (sends es) = votes es.
Proof. induction es as [|[] es IH]; [done| |done..]. unfold votes, sends in *. cbn in *. by rewrite IH. Qed.
Lemma fits_sends es : Forall fits es -> Forall fits (sends es).
Proof. intros H. unfold sends. rewrite Forall_elem in *. intros e He. apply H, list_elem_of_In.
  apply list_elem_of_In, filter_In in He. apply He. Qed.

Lemma reqs_none es : (forall e, (e ∈ es) -> req_of e = None) -> reqs es = [].
Proof.
  induction es as [|e es IH]; intros H; [done|]. unfold reqs. cbn. rewrite H by left. apply IH.
  intros x Hx. apply H. by right.
Qed.

Lemma broadcast_fits v s ty : raft_ok s -> Forall fits (broadcast v s ty).
Proof.
  intros Hs. apply Forall_elem. intros e He. destruct (in_broadcast v s ty e Hs He) as (n & p & -> & Hp & _). by exists p.
Qed.

Lemma broadcast_no_reqs v s ty : raft_ok s -> ty <> RAFT_MSG_VOTE_REQ -> reqs (broadcast v s ty) = [].
Proof.
  intros Hs Hty. apply reqs_none. intros e He.
  destruct (in_broadcast v s ty e Hs He) as (n & p & -> & Hp & Ht & _).
  unfold req_of. rewrite pkt_view_bytes, Ht by done. by rewrite (proj2 (Z.eqb_neq _ _)).
Qed.

Lemma broadcast_reqs v s : raft_ok s ->
  reqs (broadcast v s RAFT_MSG_VOTE_REQ) = map (fun n => (pk_node_ip n, cur_term s, pk_node_v1 (drpc_my_node v))) (peers v).
Proof.
  intros Hs. rewrite broadcast_eq. induction (peers v) as [|n l IH]; [done|]. cbn [map]. unfold reqs in *. cbn [omap list_omap].
  destruct (send_fits v s (pk_node_ip n) RAFT_MSG_VOTE_REQ 0 0 Hs) as (_ & p & -> & Hp & H1 & H2 & H3 & _).
  unfold req_of. rewrite pkt_view_bytes, H1, H2, H3 by done. cbn [Z.eqb Pos.eqb RAFT_MSG_VOTE_REQ]. by f_equal.
Qed.

(** ** One move of a node, as the cluster sees it

    [took] is the packet the node received, if any. *)
Section move.
Context (i : Z) (q : Z) (took : list effect) (s s' : raft) (es : list effect).

(** The node opened an election: it entered a new term, voted for itself and
    sent requests to distinct other nodes. *)
Definition elects : Prop :=
  cur_term s' = cur_term s + 1 /\ voted_for s' = i /\ votes_got s' = 1 /\ votes es = [] /\
  exists ns, reqs es = map (fun n => (pk_node_ip n, cur_term s', i)) ns /\ NoDup ns /\ (i ∉ ns) /\
    Forall (fun n => 0 <= n < PK_NODE_NONE) ns.

(** The node counted the vote it received. *)
Definition counts : Prop :=
  votes_got s' = u32 (votes_got s + 1) /\ exists ip, votes took = [(cur_term s, ip)].

Record move : Prop := {
  mv_ok : raft_ok s';
  mv_fits : Forall fits es;
  mv_vote : vote_step s (s', es);
  mv_reqs : elects \/ reqs es = [];
  mv_role : role s' <> RAFT_FOLLOWER -> elects \/
    (role s <> RAFT_FOLLOWER /\ cur_term s' = cur_term s /\ (votes_got s' = votes_got s \/ counts));
  mv_lead : role s' = RAFT_LEADER -> (role s = RAFT_LEADER /\ votes_got s' = votes_got s) \/ q <= votes_got s';
  mv_grant : votes es = [] \/ exists ip, reqs took = [(ip, cur_term s', voted_for s')] /\
    votes es = [(cur_term s', pk_node_ip (voted_for s'))] }.
End move.

(** A move that changes neither the role nor the count. *)
Lemma still_move i q took s s' es : raft_ok s' -> Forall fits es -> vote_step s (s', es) -> reqs es = [] -> votes es = [] ->
  (role s' <> RAFT_FOLLOWER -> role s' = role s /\ cur_term s' = cur_term s) -> votes_got s' = votes_got s ->
  move i q took s s' es.
Proof.
  intros H1 H2 H3 H4 H5 H6 H7. split; try done.
  - by right.
  - intros Hr. right. destruct (H6 Hr) as [<- ?]. split_and!; [done..|]. by left.
  - intros Hr. left. destruct H6 as [<- _]; [by rewrite Hr|done].
  - by left.
Qed.

Lemma vote_rep_spec v s p g : raft_ok s -> fits (vote_rep v s p g) /\ req_of (vote_rep v s p g) = None.
Proof.
  intros Hs. unfold vote_rep. match goal with |- fits (Sent _ (pkt_bytes ?x)) /\ _ => set (y := x) end.
  assert (pkt_fits y) as Hy by (destruct Hs; unfold pkt_fits, y, is_u32 in *; cbn; split_and!; (done || lia)).
  split; [by exists y|]. unfold req_of. by rewrite pkt_view_bytes.
Qed.

Lemma append_rep_spec v s p : raft_ok s -> fits (append_rep v s p) /\ req_of (append_rep v s p) = None.
Proof.
  intros Hs. unfold append_rep. match goal with |- fits (Sent _ (pkt_bytes ?x)) /\ _ => set (y := x) end.
  assert (pkt_fits y) as Hy by (destruct Hs; unfold pkt_fits, y, is_u32, RAFT_LOG_MAX in *; cbn; split_and!; (done || lia)).
  split; [by exists y|]. unfold req_of. by rewrite pkt_view_bytes.
Qed.

(** The effects of an AppendEntries: entries applied, then one answer. *)
Lemma rx_append_move v p s : pkt_fits p -> raft_ok s -> cur_term s = term p ->
  let r := rx_append v p s in
  Forall fits (snd r) /\ reqs (snd r) = [] /\ votes (snd r) = [] /\ votes_got (fst r) = votes_got s /\
  (role (fst r) = role s \/ role (fst r) = RAFT_FOLLOWER) /\ cur_term (fst r) = cur_term s.
Proof.
  intros Hp Hs Ht. unfold rx_append. set (s0 := set_tmo 0 _ _). set (s1 := if bool_decide _ then _ else _).
  assert (raft_ok s1 /\ cur_term s1 = cur_term s /\ votes_got s1 = votes_got s /\ (role s1 = role s \/ role s1 = RAFT_FOLLOWER))
    as (Hs1 & E1 & E2 & E3).
  { assert (raft_ok s0) as H0 by (destruct Hs; by split). subst s1. ifs; [|split_and!; auto].
    destruct (become_follower_spec (term p) s0 ltac:(apply Hp) H0) as (_ & _ & _ & F & ?); [cbn; lia|].
    split_and!; [done|by rewrite F|unfold become_follower; by ifs|by right]. }
  destruct (append_log_ok p s1 Hp Hs1) as [Ha1 _].
  destruct (commit_to_spec (Z.to_nat (log_size (append_log p s1))) (p_commit_idx p) _ Ha1) as (C1 & _ & C3);
    [destruct Ha1; lia|].
  assert (cur_term (append_log p s1) = cur_term s /\ votes_got (append_log p s1) = votes_got s /\ role (append_log p s1) = role s1)
    as (E4 & E5 & E6) by (unfold append_log; ifs; done).
  set (r := commit_to _ _ _) in *. clearbody r. set (a := append_log p s1) in *. clearbody a. cbn [fst snd].
  assert (raft_ok (fst r)) as Hr by (rewrite C1; destruct Ha1; split; cbn; (done || lia)).
  destruct (append_rep_spec v (fst r) p Hr) as [Q1 Q2]. rewrite C1 in *. split_and!; [| | |done|cbn; by rewrite E6|done].
  - apply Forall_app. split; [|by repeat constructor]. rewrite Forall_elem in *. intros e He. specialize (C3 e He). by destruct e.
  - rewrite reqs_app. rewrite (reqs_none (snd r)).
    + unfold reqs. cbn [omap list_omap app]. by rewrite Q2.
    + rewrite Forall_elem in C3. intros e He. specialize (C3 e He). by destruct e.
  - rewrite votes_app, applied_votes by done. unfold append_rep. unfold votes. cbn [omap list_omap app vote_of].
    rewrite pkt_view_bytes; [done|]. unfold pkt_fits; cbn. destruct Ha1. unfold is_u32, RAFT_LOG_MAX in *. split_and!; (done || lia).
Qed.

Lemma become_follower_move t s : cur_term s < t -> role (become_follower t s) = RAFT_FOLLOWER /\ votes_got (become_follower t s) = votes_got s.
Proof. intros Ht. unfold become_follower. ifs; done. Qed.

Lemma on_pkt_move v i p ip s : drpc_my_node v = i -> 0 <= i < PK_NODE_NONE -> pkt_fits p -> candidate p <> PK_NODE_NONE ->
  raft_ok s -> let r := on_pkt v p s in move i (quorum v) [Sent ip (pkt_bytes p)] s (fst r) (snd r).
Proof.
  intros Hv Hi Hp Hc Hs. cbn zeta. pose proof (on_pkt_vote v p s Hp Hc Hs) as Hvote.
  destruct (on_pkt_good v p s Hp Hs) as [Hok _]. revert Hok Hvote. unfold on_pkt.
  dif Em; [intros; by apply still_move|]. dif Et; [intros; by apply still_move|]. bools.
  set (s1 := if cur_term s <? term p then _ else _).
  assert (raft_ok s1 /\ cur_term s1 = term p /\ votes_got s1 = votes_got s /\
    (role s1 <> RAFT_FOLLOWER -> s1 = s)) as (Hs1 & E1 & E2 & E3).
  { subst s1. dif E; bools; [|split_and!; (done || lia)].
    destruct (become_follower_spec (term p) s ltac:(apply Hp) Hs) as (_ & _ & _ & F & ?); [lia|].
    destruct (become_follower_move (term p) s) as [-> ?]; [done|]. by split_and!. }
  clearbody s1.
  assert (forall s', role s' = role s1 -> cur_term s' = cur_term s1 -> role s' <> RAFT_FOLLOWER -> role s' = role s /\ cur_term s' = cur_term s)
    as Hkeep by (intros s' -> -> Hr; by rewrite (E3 Hr)).
  dif E4; [|dif E5; [|dif E6]]; intros Hok Hvote.
  - destruct (vote_rep_spec v s1 p (if (((voted_for s1 =? 255) || (voted_for s1 =? candidate p)) && log_ok s1 p)%bool then 1 else 0) Hs1) as [Q1 Q2].
    revert Hok Hvote. unfold rx_vote_req. dif Eg; cbn [fst snd]; intros Hok Hvote.
    + set (s2 := set_tmo _ _ _) in *.
      assert (role s2 <> RAFT_FOLLOWER -> role s2 = role s /\ cur_term s2 = cur_term s) as Hk by by apply Hkeep.
      assert (raft_ok s2) as Hs2 by done.
      destruct (vote_rep_spec v s2 p 1 Hs2) as [Q3 Q4].
      split; [done|by apply list.Forall_singleton|done| | | |].
      * right. unfold reqs. cbn [omap list_omap]. by rewrite Q4.
      * intros Hr. right. rewrite <- (proj1 (Hk Hr)). split_and!; [done|by apply Hk|by left].
      * intros Hr. left. destruct Hk as [<- _]; [by rewrite Hr|]. done.
      * right. exists ip. unfold votes, reqs. cbn [omap list_omap]. rewrite rep_fits by done. cbn [negb Z.eqb].
        unfold req_of. rewrite pkt_view_bytes, E4 by done. by rewrite <- E1.
    + apply still_move; try done; [by apply list.Forall_singleton|by apply Hkeep].
  - revert Hok Hvote. unfold rx_vote_rep. dif R1; [intros; apply still_move; try done; by apply Hkeep|].
    dif R2; [intros; apply still_move; try done; by apply Hkeep|].
    dif R3; [intros; apply still_move; try done; by apply Hkeep|]. bools. apply bool_decide_eq_true in R1.
    assert (s1 = s) as -> by (apply E3; by rewrite R1). clear Hkeep E3.
    set (s2 := set_votes _ s). assert (raft_ok s2) as Hs2 by (destruct Hs; by split).
    assert (counts [Sent ip (pkt_bytes p)] s s2) as Hcount.
    { split; [done|]. exists ip. unfold votes. cbn [omap list_omap vote_of].
      rewrite pkt_view_bytes, E5 by done. rewrite (proj2 (Z.eqb_neq _ _) R3). cbn [negb andb]. by rewrite R2. }
    dif R4; cbn [fst snd]; intros Hok Hvote.
    + bools. set (s3 := set_leader _ _) in *. assert (raft_ok s3) as Hs3 by done.
      pose proof (broadcast_fits v s3 RAFT_MSG_APPEND Hs3). pose proof (broadcast_no_reqs v s3 RAFT_MSG_APPEND Hs3 ltac:(done)) as Hnr.
      split; [done| |done| | |by right|].
      * apply Forall_app. split; [done|by repeat constructor].
      * right. rewrite reqs_app, Hnr. done.
      * intros _. right. split_and!; [by rewrite R1|done|by right].
      * left. rewrite votes_app, broadcast_votes by done. done.
    + split; [done|constructor|done|by right| | |by left].
      * intros _. right. split_and!; [by rewrite R1|done|by right].
      * cbn. rewrite R1. done.
  - destruct (rx_append_move v p s1 Hp Hs1 E1) as (Q1 & Q2 & Q3 & Q4 & Q5 & Q6). apply still_move; try done.
    + intros Hr. destruct Q5 as [Q5|Q5]; [by apply Hkeep|done].
    + by rewrite Q4.
  - apply still_move; try done. by apply Hkeep.
Qed.

Lemma rx_move v i ip d s : drpc_my_node v = i -> 0 <= i < PK_NODE_NONE -> fits (Sent ip d) ->
  (forall t c ip', (ip', t, c) ∈ reqs [Sent ip d] -> c <> PK_NODE_NONE) -> raft_ok s ->
  let r := raft_rx v d s in move i (quorum v) [Sent ip d] s (fst r) (snd r).
Proof.
  intros Hv Hi (p & -> & Hp) Hc Hs. rewrite rx_bytes by done. cbn zeta.
  destruct (Z.eqb_spec (type p) RAFT_MSG_VOTE_REQ) as [Ht|Ht].
  - apply on_pkt_move; try done. apply (Hc (term p) _ ip). unfold reqs. cbn [omap list_omap].
    unfold req_of. rewrite pkt_view_bytes, Ht by done. left.
  - (* the candidate is read from requests only *)
    set (p' := Pkt (magic p) (version p) (type p) (src_node p) 0 (term p) (log_idx p) (log_term p) (p_commit_idx p)
      (granted p) (success p) (entry_key p) (entry_val p) (entry_idx p) (entry_term p)).
    assert (on_pkt v p s = on_pkt v p' s) as ->.
    { unfold on_pkt. cbn [type magic version term p']. by rewrite (proj2 (Z.eqb_neq _ _) Ht). }
    pose proof (on_pkt_move v i p' ip s Hv Hi Hp ltac:(done) Hs) as [M1 M2 M3 M4 M5 M6 M7].
    assert (reqs [Sent ip (pkt_bytes p')] = reqs [Sent ip (pkt_bytes p)] /\ votes [Sent ip (pkt_bytes p')] = votes [Sent ip (pkt_bytes p)])
      as [E1 E2].
    { unfold reqs, votes. cbn [omap list_omap]. unfold req_of, vote_of. rewrite !pkt_view_bytes by done. cbn [type p' term granted].
      by rewrite (proj2 (Z.eqb_neq _ _) Ht). }
    split; try done; unfold counts in *; rewrite <- ?E1, <- ?E2; done.
Qed.

Lemma turn_move v i s : drpc_my_node v = i -> 0 <= i < PK_NODE_NONE -> raft_ok s -> cur_term s < 2 ^ 32 - 1 ->
  let r := raft_turn v s in move i (quorum v) [] s (fst r) (snd r).
Proof.
  intros Hv Hi Hs Hroom. cbn zeta. pose proof (turn_vote v s Hs Hroom) as Hvote.
  destruct (turn_good v s Hs) as [Hok _]. revert Hok Hvote. unfold raft_turn.
  rewrite (proj2 (Z.eqb_neq _ 255)) by (unfold PK_NODE_NONE in *; lia). dif E2.
  { assert (raft_ok (set_hb 0 (set_hb (hb_counter s + 1) s))) as Hb by (destruct Hs; by split).
    dif E3; cbn [fst snd]; intros Hok Hvote; apply still_move; try done.
    - by apply broadcast_fits.
    - by apply broadcast_no_reqs.
    - by apply broadcast_votes. }
  dif E3; [intros Hok Hvote; by apply still_move|]. unfold start_election.
  assert (u32 (cur_term s + 1) = cur_term s + 1) as Hu by (apply u32_small; pose proof (ok_term _ Hs); unfold is_u32 in *; lia).
  set (s1 := set_votes 1 _). set (s2 := set_tmo 0 _ s1).
  assert (raft_ok s2) as Hs2 by (destruct Hs; split; cbn; (done || auto with machine)).
  assert (forall es s3, s3 = s2 \/ s3 = set_leader (drpc_my_node v) (set_role RAFT_LEADER s2) -> votes es = [] ->
    (reqs es = [] \/ es = broadcast v s2 RAFT_MSG_VOTE_REQ) -> elects i s s3 es) as Hel.
  { intros es s3 H3 Hvs Hrq. assert (cur_term s3 = cur_term s + 1 /\ voted_for s3 = i /\ votes_got s3 = 1) as (K1 & K2 & K3)
      by (destruct H3 as [-> | ->]; cbn; rewrite Hu; done).
    split_and!; try done. destruct Hrq as [Hrq| ->].
    - exists []. rewrite Hrq. split_and!; [done|by constructor|by intros ?%elem_of_nil|by constructor].
    - exists (peers v). destruct (peers_narrow v) as [N1 N2]. rewrite broadcast_reqs by done. rewrite Hv.
      unfold pk_node_v1. rewrite (proj2 (Z.ltb_lt _ _)) by lia. rewrite u8_small by (unfold is_u8, PK_NODE_NONE in *; lia).
      split_and!; [by rewrite K1; cbn; rewrite Hu|done| |done].
      intros Hin%list_elem_of_In%in_peers. lia. }
  change (votes_got s2) with 1. dif E4; cbn [fst snd]; intros Hok Hvote.
  - assert (elects i s (set_leader (drpc_my_node v) (set_role RAFT_LEADER s2)) [Spawned]) as He by (apply Hel; auto).
    split; [done|by apply list.Forall_singleton|done|by left|by left| |by left]. intros _. right. bools. cbn. lia.
  - assert (elects i s s2 (broadcast v s2 RAFT_MSG_VOTE_REQ)) as He by (apply Hel; [by left|by apply broadcast_votes|by right]).
    split; [done|by apply broadcast_fits|done|by left|by left|done|left; by apply broadcast_votes].
Qed.

Lemma write_move v i q k x s : raft_ok s -> let r := fst (raft_write v k x s) in move i q [] s (fst r) (snd r).
Proof.
  intros Hs. cbn zeta. pose proof (write_vote v k x s Hs) as Hvote. destruct (write_good v k x s Hs) as [Hok _].
  revert Hok Hvote. unfold raft_write. dif E1; [intros; by apply still_move|]. dif E2; intros Hok Hvote; [by apply still_move|].
  cbn [fst snd] in *. set (t := set_log _ _ (commit_idx s) s) in *.
  assert (raft_ok t) as Ht by (destruct Hok, Hs; split; cbn in *; (done || lia)).
  apply still_move; try done; [by apply broadcast_fits|by apply broadcast_no_reqs|by apply broadcast_votes].
Qed.

(** ** The cluster *)

Record cluster : Type := Cluster { node : Z -> raft; net : list effect }.

Section cluster.
Context (members : list Z).
Definition N : Z := lenz members.

(** The views a node may see: its own id, and no fewer nodes alive than the
    cluster has. *)
Definition view_ok (i : Z) (v : view) : Prop := drpc_my_node v = i /\ N <= alive_count v.

Definition after (c : cluster) (i : Z) (rest : list effect) (r : raft * list effect) : cluster :=
  Cluster (upd (node c) i (fst r)) (rest ++ sends (snd r)).

Inductive cstep (c : cluster) : cluster -> Prop :=
  | c_deliver i v a ip d b : i ∈ members -> view_ok i v -> net c = a ++ Sent ip d :: b -> ip = pk_node_ip i ->
      cstep c (after c i (a ++ b) (raft_rx v d (node c i)))
  | c_lose a e b : net c = a ++ e :: b -> cstep c (Cluster (node c) (a ++ b))
  | c_turn i v : i ∈ members -> view_ok i v -> cur_term (node c i) < 2 ^ 32 - 1 ->
      cstep c (after c i (net c) (raft_turn v (node c i)))
  | c_write i v k x : i ∈ members -> view_ok i v ->
      cstep c (after c i (net c) (fst (raft_write v k x (node c i)))).

Definition started (c : cluster) : Prop :=
  net c = [] /\ forall i, i ∈ members -> exists v, node c i = raft_init v raft0.

Definition reachable (c : cluster) : Prop := exists c0, started c0 /\ rtc cstep c0 c.
End cluster.

(** ** The invariant

    [H] is the history of votes: voter, term, candidate. *)
Section safety.
Context (members : list Z).
Hypothesis Hnd : NoDup members.
Hypothesis Hnarrow : Forall (fun i => 0 <= i < PK_NODE_NONE) members.

Definition history : Type := list (Z * (Z * Z)).

Definition tally (H : history) (t c : Z) : Z := occ (t, c) (map snd H).

Record inv (H : history) (c : cluster) : Prop := {
  in_ok : forall i, i ∈ members -> raft_ok (node c i);
  in_fits : Forall fits (net c);
  in_hist : forall i t k, (i, (t, k)) ∈ H -> (i ∈ members) /\ (k ∈ members) /\ t <= cur_term (node c i) /\
    t <= cur_term (node c k) /\ (t = cur_term (node c i) -> voted_for (node c i) = k);
  in_uniq : forall i t k k', (i, (t, k)) ∈ H -> (i, (t, k')) ∈ H -> k = k';
  in_nodup : NoDup H;
  in_req : forall ip t k, (ip, t, k) ∈ reqs (net c) -> (k ∈ members) /\ t <= cur_term (node c k) /\
    forall j, j ∈ members -> ip = pk_node_ip j -> j <> k /\ ((j, (t, k)) ∉ H);
  in_reqs : NoDup (reqs (net c));
  in_grant : forall t k, k ∈ members -> (t, pk_node_ip k) ∈ votes (net c) -> t <= cur_term (node c k);
  in_count : forall k, k ∈ members -> role (node c k) <> RAFT_FOLLOWER -> 0 <= votes_got (node c k) /\
    votes_got (node c k) + occ (cur_term (node c k), pk_node_ip k) (votes (net c)) <= tally H (cur_term (node c k)) k;
  in_lead : forall k, k ∈ members -> role (node c k) = RAFT_LEADER -> N members / 2 + 1 <= votes_got (node c k) }.

Lemma member_narrow i : i ∈ members -> 0 <= i < PK_NODE_NONE.
Proof. rewrite Forall_elem in Hnarrow. apply Hnarrow. Qed.

Lemma member_ip i j : i ∈ members -> j ∈ members -> pk_node_ip i = pk_node_ip j -> i = j.
Proof. intros Hi Hj. apply pk_node_ip_inj; by apply member_narrow. Qed.

(** The voters of a candidate are distinct members. *)
Definition voters (H : history) (t k : Z) : list Z :=
  map fst (List.filter (fun e => bool_decide (snd e = (t, k))) H).

Lemma tally_voters H t k : tally H t k = lenz (voters H t k).
Proof.
  unfold tally, occ, voters, lenz. rewrite length_map. induction H as [|e H IH]; [done|].
  cbn [map List.filter]. case_bool_decide; cbn [length]; lia.
Qed.

Lemma in_voters H t k i : i ∈ voters H t k <-> (i, (t, k)) ∈ H.
Proof.
  unfold voters. rewrite list_elem_of_In, in_map_iff. split.
  - intros ([j x] & <- & Hin%filter_In). destruct Hin as [Hin Hx%bool_decide_eq_true]. cbn in *. subst.
    by apply list_elem_of_In.
  - intros Hin. exists (i, (t, k)). split; [done|]. apply filter_In. split; [by apply list_elem_of_In|].
    by apply bool_decide_eq_true.
Qed.

Lemma voters_nodup H t k : NoDup H -> NoDup (voters H t k).
Proof.
  intros HH. unfold voters. apply NoDup_ListNoDup. induction H as [|[i x] H IH]; [constructor|].
  apply list.NoDup_cons in HH as [Hi HH]. cbn [List.filter]. case_bool_decide as Hx; [|by apply IH].
  cbn in Hx. subst x. cbn [map fst]. constructor; [|by apply IH].
  intros Hin. apply Hi, in_voters, list_elem_of_In. exact Hin.
Qed.

Lemma tally_bound H c t k : inv H c -> tally H t k <= N members.
Proof.
  intros I. rewrite tally_voters. unfold N, lenz. apply inj_le, submseteq_length, NoDup_submseteq.
  - apply voters_nodup, I.
  - intros i Hi%in_voters. apply (in_hist _ _ I _ _ _ Hi).
Qed.

(** Two candidates of one term share no voter. *)
Lemma tally_disjoint H c t k k' : inv H c -> k <> k' -> tally H t k + tally H t k' <= N members.
Proof.
  intros I Hk. rewrite !tally_voters. unfold N, lenz. rewrite <- Nat2Z.inj_add, <- length_app.
  apply inj_le, submseteq_length, NoDup_submseteq.
  - apply list.NoDup_app. split_and!; [apply voters_nodup, I| |apply voters_nodup, I].
    intros i H1%in_voters H2%in_voters. by apply Hk, (in_uniq _ _ I i t).
  - intros i [Hi%in_voters|Hi%in_voters]%elem_of_app; apply (in_hist _ _ I _ _ _ Hi).
Qed.

Lemma started_inv c : started members c -> inv [] c.
Proof.
  intros [Hn Hs]. split; rewrite ?Hn.
  - intros i Hi. destruct (Hs i Hi) as [v ->]. apply raft_init_ok; [apply raft0_ok|done].
  - constructor.
  - by intros ? ? ? ?%elem_of_nil.
  - by intros ? ? ? ? ?%elem_of_nil.
  - constructor.
  - by intros ? ? ? ?%elem_of_nil.
  - constructor.
  - by intros ? ? ? ?%elem_of_nil.
  - intros k Hk Hr. by destruct (Hs k Hk) as [v E]; rewrite E in Hr.
  - intros k Hk Hr. by destruct (Hs k Hk) as [v E]; rewrite E in Hr.
Qed.

(** *** One move keeps the invariant *)
Section preserve.
Context (H : history) (c : cluster) (i q : Z) (took rest : list effect) (s' : raft) (es : list effect).
Hypothesis I : inv H c.
Hypothesis Hi : i ∈ members.
Hypothesis Hq : N members / 2 + 1 <= q.
Hypothesis Hnet : net c ≡ₚ took ++ rest.
Hypothesis Htook : Forall (fun e => match e with Sent ip _ => ip = pk_node_ip i | _ => False end) took.
Hypothesis M : move i q took (node c i) s' es.

Definition c' : cluster := Cluster (upd (node c) i s') (rest ++ sends es).

Lemma node_i : node c' i = s'.
Proof. apply upd_eq. Qed.
Lemma node_ne k : k <> i -> node c' k = node c k.
Proof. apply upd_ne. Qed.

Lemma term_mono k : cur_term (node c k) <= cur_term (node c' k).
Proof.
  destruct (decide (k = i)) as [->|Hk]; [rewrite node_i; apply (mv_vote _ _ _ _ _ _ M)|by rewrite node_ne].
Qed.

Lemma reqs_net : reqs (net c') = reqs rest ++ reqs es.
Proof. cbn. by rewrite reqs_app, reqs_sends. Qed.
Lemma votes_net : votes (net c') = votes rest ++ votes es.
Proof. cbn. by rewrite votes_app, votes_sends. Qed.

Lemma reqs_perm : reqs (net c) ≡ₚ reqs took ++ reqs rest.
Proof. rewrite <- reqs_app. unfold reqs. by rewrite Hnet. Qed.
Lemma votes_perm : votes (net c) ≡ₚ votes took ++ votes rest.
Proof. rewrite <- votes_app. unfold votes. by rewrite Hnet. Qed.

Lemma occ_votes x : occ x (votes (net c)) = occ x (votes took) + occ x (votes rest).
Proof. by rewrite votes_perm, occ_app. Qed.

Lemma took_reqs ip t k : (ip, t, k) ∈ reqs took -> ip = pk_node_ip i.
Proof.
  pose proof Htook as Ht. clear - Ht. induction Ht as [|e l He _ IH]; [by intros ?%elem_of_nil|]. destruct e as [j d| |]; try done.
  unfold reqs in *. cbn [omap list_omap req_of]. dif E; [|exact IH]. intros [Hx|Hx]%elem_of_cons; [by simplify_eq|by apply IH].
Qed.

Lemma took_votes t ip : (t, ip) ∈ votes took -> ip = pk_node_ip i.
Proof.
  pose proof Htook as Ht. clear - Ht. induction Ht as [|e l He _ IH]; [by intros ?%elem_of_nil|]. destruct e as [j d| |]; try done.
  unfold votes in *. cbn [omap list_omap vote_of]. dif E; [|exact IH]. intros [Hx|Hx]%elem_of_cons; [by simplify_eq|by apply IH].
Qed.

(** The part of the invariant that does not depend on the vote. *)
Lemma keep_ok k : k ∈ members -> raft_ok (node c' k).
Proof.
  intros Hk. destruct (decide (k = i)) as [->|Hne]; [rewrite node_i; apply (mv_ok _ _ _ _ _ _ M)|].
  rewrite node_ne by done. by apply I.
Qed.

Lemma keep_fits : Forall fits (net c').
Proof.
  apply Forall_app. split; [|apply fits_sends, (mv_fits _ _ _ _ _ _ M)].
  pose proof (in_fits _ _ I) as Hf. rewrite Hnet in Hf. apply Forall_app in Hf as [_ Hf]. exact Hf.
Qed.

(** The vote recorded by the move, if any. *)
Context (new : history).
Hypothesis Hnew : new = [] /\ votes es = [] /\ (cur_term s' = cur_term (node c i) -> voted_for s' = voted_for (node c i)) \/
  new = [(i, (cur_term s', voted_for s'))] /\ (voted_for s' ∈ members) /\
    cur_term s' <= cur_term (node c' (voted_for s')) /\
    (forall k, (i, (cur_term s', k)) ∉ H) /\ (pk_node_ip i, cur_term s', voted_for s') ∉ reqs rest.

Lemma keep_hist j t k : (j, (t, k)) ∈ new ++ H ->
  (j ∈ members) /\ (k ∈ members) /\ t <= cur_term (node c' j) /\ t <= cur_term (node c' k) /\
  (t = cur_term (node c' j) -> voted_for (node c' j) = k).
Proof.
  intros [Hin|Hin]%elem_of_app.
  - destruct Hnew as [[-> _]|(-> & Hv & Ht & _)]; [by apply elem_of_nil in Hin|].
    apply list_elem_of_singleton in Hin. injection Hin as -> -> ->. rewrite node_i. split_and!; (done || lia).
  - destruct (in_hist _ _ I _ _ _ Hin) as (J1 & J2 & J3 & J4 & J5).
    pose proof (term_mono j). pose proof (term_mono k). split_and!; [done|done|lia|lia|].
    destruct (decide (j = i)) as [->|Hne]; [|by rewrite node_ne]. intros Ht. rewrite node_i in *.
    destruct Hnew as [(_ & _ & Hs)|(_ & _ & _ & Hno & _)].
    + rewrite Hs by lia. apply J5. lia.
    + subst t. by destruct (Hno k).
Qed.

Lemma keep_uniq j t k k' : (j, (t, k)) ∈ new ++ H -> (j, (t, k')) ∈ new ++ H -> k = k'.
Proof.
  destruct Hnew as [[-> _]|(-> & _ & _ & Hno & _)]; [apply (in_uniq _ _ I)|].
  intros [H1|H1]%elem_of_cons [H2|H2]%elem_of_cons; simplify_eq; try done.
  - by destruct (Hno k').
  - by destruct (Hno k).
  - by apply (in_uniq _ _ I j t).
Qed.

Lemma keep_nodup : NoDup (new ++ H).
Proof.
  destruct Hnew as [[-> _]|(-> & _ & _ & Hno & _)]; [apply I|]. apply list.NoDup_cons. split; [apply Hno|apply I].
Qed.

(** A request that is still on its way. *)
Lemma old_req ip t k : (ip, t, k) ∈ reqs rest -> (k ∈ members) /\ t <= cur_term (node c' k) /\
  forall j, j ∈ members -> ip = pk_node_ip j -> j <> k /\ ((j, (t, k)) ∉ new ++ H).
Proof.
  intros Hin. destruct (in_req _ _ I ip t k) as (R1 & R2 & R3); [rewrite reqs_perm; apply elem_of_app; by right|].
  pose proof (term_mono k). split_and!; [done|lia|]. intros j Hj ->. destruct (R3 j Hj eq_refl) as [R4 R5].
  split; [done|]. intros [Hx|Hx]%elem_of_app; [|done].
  destruct Hnew as [[-> _]|(-> & _ & _ & _ & Hno)]; [by apply elem_of_nil in Hx|].
  apply list_elem_of_singleton in Hx. by simplify_eq.
Qed.

(** What is left to show of a move: its own requests, its own count, and
    that its votes are in the history. *)
Hypothesis Hreq : forall ip t k, (ip, t, k) ∈ reqs es -> (k ∈ members) /\ t <= cur_term (node c' k) /\
  (forall j, j ∈ members -> ip = pk_node_ip j -> j <> k /\ ((j, (t, k)) ∉ new ++ H)) /\ ((ip, t, k) ∉ reqs rest).
Hypothesis Hreqs : NoDup (reqs es).
Hypothesis Hgrant : forall t k, k ∈ members -> (t, pk_node_ip k) ∈ votes es -> t <= cur_term (node c' k).
Hypothesis Hcnt : forall t k, k ∈ members -> occ (t, pk_node_ip k) (votes es) <= tally new t k.
Hypothesis Hmine : role s' <> RAFT_FOLLOWER -> 0 <= votes_got s' /\
  votes_got s' + occ (cur_term s', pk_node_ip i) (votes rest ++ votes es) <= tally (new ++ H) (cur_term s') i.

Lemma tally_app a b t k : tally (a ++ b) t k = tally a t k + tally b t k.
Proof. unfold tally. by rewrite map_app, occ_app. Qed.

Lemma kept : inv (new ++ H) c'.
Proof.
  split.
  - apply keep_ok.
  - apply keep_fits.
  - apply keep_hist.
  - apply keep_uniq.
  - apply keep_nodup.
  - intros ip t k. rewrite reqs_net. intros [Hin|Hin]%elem_of_app; [by apply old_req|].
    destruct (Hreq _ _ _ Hin) as (R1 & R2 & R3 & _). by split_and!.
  - rewrite reqs_net. apply list.NoDup_app. split_and!; [| |done].
    + pose proof (in_reqs _ _ I) as Hr. rewrite reqs_perm in Hr. by apply list.NoDup_app in Hr as (_ & _ & ?).
    + intros [[ip t] k] Hold Hin. by destruct (Hreq _ _ _ Hin) as (_ & _ & _ & ?).
  - intros t k Hk. rewrite votes_net. intros [Hin|Hin]%elem_of_app; [|by apply Hgrant].
    pose proof (term_mono k). assert (t <= cur_term (node c k)); [|lia]. apply (in_grant _ _ I); [done|].
    rewrite votes_perm. apply elem_of_app. by right.
  - intros k Hk. rewrite votes_net. destruct (decide (k = i)) as [->|Hne]; [rewrite node_i; apply Hmine|].
    rewrite node_ne by done. intros Hr. destruct (in_count _ _ I k Hk Hr) as [V1 V2]. split; [done|].
    rewrite occ_votes in V2. rewrite occ_app, tally_app. pose proof (Hcnt (cur_term (node c k)) k Hk).
    pose proof (occ_nonneg (cur_term (node c k), pk_node_ip k) (votes took)). lia.
  - intros k Hk. destruct (decide (k = i)) as [->|Hne]; [rewrite node_i|rewrite node_ne by done; by apply I].
    intros Hr. destruct (mv_lead _ _ _ _ _ _ M Hr) as [[Hl ->]|Hv]; [by apply (in_lead _ _ I)|lia].
Qed.
End preserve.

(** An election. *)
Lemma elect_inv H c i q took rest s' es : inv H c -> i ∈ members -> N members / 2 + 1 <= q -> net c ≡ₚ took ++ rest ->
  move i q took (node c i) s' es -> elects i (node c i) s' es -> exists new, inv (new ++ H) (c' c i rest s' es).
Proof.
  intros I Hi Hq Hnet M (E1 & E2 & E3 & E4 & ns & E5 & E6 & E7 & E8).
  exists [(i, (cur_term s', i))].
  assert (forall t k, (i, (t, k)) ∈ H -> t < cur_term s') as Hpast by (intros t k Hin; apply (in_hist _ _ I) in Hin; lia).
  assert (forall ip t, (ip, t, i) ∈ reqs rest -> t < cur_term s') as Hpast2.
  { intros ip t Hin. destruct (in_req _ _ I ip t i) as (_ & ? & _); [|lia].
    rewrite (reqs_perm _ _ _ Hnet). apply elem_of_app. by right. }
  apply (kept H c i q took rest s' es I Hi Hq Hnet M).
  - right. rewrite E2. split_and!; [done|done|by rewrite node_i| |].
    + intros k Hin%Hpast. lia.
    + intros Hin%Hpast2. lia.
  - intros ip t k. rewrite E5. intros Hin. apply list_elem_of_In, in_map_iff in Hin as (n & Hn & Hns).
    injection Hn as <- <- <-. apply list_elem_of_In in Hns. rewrite Forall_elem in E8. split_and!; [done|by rewrite node_i| |].
    + intros j Hj Hip. apply pk_node_ip_inj in Hip as ->; [|by apply E8|by apply member_narrow].
      assert (j <> i) by (by intros ->). split; [done|].
      intros [Hx%list_elem_of_singleton|Hx]%elem_of_app; [by simplify_eq|]. apply (in_hist _ _ I) in Hx. lia.
    + intros Hx%Hpast2. lia.
  - rewrite E5. rewrite Forall_elem in E8. apply (NoDup_fmap_2_strong (fun n => (pk_node_ip n, cur_term s', i))); [|done].
    intros x y Hx Hy Heq. injection Heq as Heq. apply pk_node_ip_inj; [by apply E8..|done].
  - rewrite E4. by intros ? ? ? ?%elem_of_nil.
  - intros t k Hk. rewrite E4. apply occ_nonneg.
  - intros _. rewrite E3, E4, app_nil_r. split; [lia|]. rewrite tally_app. unfold tally at 1. cbn [map snd].
    rewrite occ_cons, bool_decide_eq_true_2 by done. rewrite (occ_zero _ (votes rest)).
    + pose proof (occ_nonneg (cur_term s', i) (map snd H)). unfold tally. rewrite occ_nil. lia.
    + intros Hin. assert (cur_term s' <= cur_term (node c i)); [|lia]. apply (in_grant _ _ I); [done|].
      rewrite (votes_perm _ _ _ Hnet). apply elem_of_app. by right.
Qed.

(** Any other move that grants no vote. *)
Lemma quiet_inv H c i q took rest s' es : inv H c -> i ∈ members -> N members / 2 + 1 <= q -> net c ≡ₚ took ++ rest ->
  Forall (fun e => match e with Sent ip _ => ip = pk_node_ip i | _ => False end) took -> N members < 2 ^ 32 - 1 ->
  move i q took (node c i) s' es -> reqs es = [] -> votes es = [] ->
  (role s' <> RAFT_FOLLOWER -> role (node c i) <> RAFT_FOLLOWER /\ cur_term s' = cur_term (node c i) /\
    (votes_got s' = votes_got (node c i) \/ counts took (node c i) s')) ->
  inv H (c' c i rest s' es).
Proof.
  intros I Hi Hq Hnet Htook HN M Hr Hv Hrole. change H with ([] ++ H).
  apply (kept H c i q took rest s' es I Hi Hq Hnet M).
  - left. split_and!; [done|done|]. destruct (mv_vote _ _ _ _ _ _ M) as [_ [[_ Hs]|(k & _ & Hs & _)]]; [done|].
    cbn [snd] in Hs. rewrite Hv in Hs. discriminate.
  - rewrite Hr. by intros ? ? ? ?%elem_of_nil.
  - rewrite Hr. constructor.
  - rewrite Hv. by intros ? ? ? ?%elem_of_nil.
  - intros t k _. by rewrite Hv.
  - intros Hs. destruct (Hrole Hs) as (R1 & R2 & R3). rewrite Hv, app_nil_r, R2. cbn [app].
    destruct (in_count _ _ I i Hi R1) as [V1 V2]. pose proof (tally_bound _ _ (cur_term (node c i)) i I).
    rewrite (occ_votes _ _ _ Hnet) in V2. pose proof (occ_nonneg (cur_term (node c i), pk_node_ip i) (votes rest)).
    destruct R3 as [->|[-> [ip Ht]]].
    + pose proof (occ_nonneg (cur_term (node c i), pk_node_ip i) (votes took)). lia.
    + assert (ip = pk_node_ip i) as -> by (apply (took_votes _ _ Htook (cur_term (node c i))); rewrite Ht; left).
      rewrite Ht, occ_cons, bool_decide_eq_true_2, occ_nil in V2 by done.
      rewrite u32_small by (unfold is_u32; lia). lia.
Qed.

(** A vote granted. *)
Lemma grant_inv H c i q took rest s' es ip : inv H c -> i ∈ members -> N members / 2 + 1 <= q -> net c ≡ₚ took ++ rest ->
  Forall (fun e => match e with Sent ip _ => ip = pk_node_ip i | _ => False end) took ->
  move i q took (node c i) s' es -> reqs es = [] -> reqs took = [(ip, cur_term s', voted_for s')] ->
  votes es = [(cur_term s', pk_node_ip (voted_for s'))] ->
  (role s' <> RAFT_FOLLOWER -> role (node c i) <> RAFT_FOLLOWER /\ cur_term s' = cur_term (node c i) /\
    votes_got s' = votes_got (node c i)) ->
  exists new, inv (new ++ H) (c' c i rest s' es).
Proof.
  intros I Hi Hq Hnet Htook M Hr Ht Hv Hrole. set (k0 := voted_for s') in *. set (t0 := cur_term s') in *.
  assert (ip = pk_node_ip i) as -> by (apply (took_reqs _ _ Htook ip t0 k0); rewrite Ht; left).
  destruct (in_req _ _ I (pk_node_ip i) t0 k0) as (K1 & K2 & K3).
  { rewrite (reqs_perm _ _ _ Hnet), Ht. apply elem_of_app. left. left. }
  destruct (K3 i Hi eq_refl) as [K4 K5].
  destruct (mv_vote _ _ _ _ _ _ M) as [Hmono Hvs]. cbn [fst snd] in Hmono, Hvs. fold t0 k0 in Hmono, Hvs.
  exists [(i, (t0, k0))]. apply (kept H c i q took rest s' es I Hi Hq Hnet M).
  - right. fold t0 k0. split_and!; [done|done| | |].
    + rewrite node_ne by done. done.
    + intros k Hin. destruct (in_hist _ _ I _ _ _ Hin) as (_ & J2 & J3 & _ & J5).
      destruct Hvs as [[Hn _]|(k1 & _ & _ & <- & Hsame)]; [by rewrite Hv in Hn|].
      specialize (J5 ltac:(lia)). destruct (Hsame ltac:(lia)) as [Hx|Hx]; rewrite J5 in Hx.
      * apply member_narrow in J2. lia.
      * rewrite Hx in Hin. exact (K5 Hin).
    + pose proof (in_reqs _ _ I) as Hnr. rewrite (reqs_perm _ _ _ Hnet), Ht in Hnr.
      by apply list.NoDup_cons in Hnr as [? _].
  - rewrite Hr. by intros ? ? ? ?%elem_of_nil.
  - rewrite Hr. constructor.
  - intros t k Hk. rewrite Hv. intros Hx%list_elem_of_singleton. injection Hx as -> Hx.
    apply member_ip in Hx as ->; [|done..]. by rewrite node_ne.
  - intros t k Hk. rewrite Hv. unfold tally. cbn [map snd]. rewrite !occ_cons, !occ_nil.
    case_bool_decide as Hx; [|case_bool_decide; lia]. injection Hx as -> Hx. apply member_ip in Hx as ->; [|done..].
    by rewrite bool_decide_eq_true_2.
  - intros Hs. destruct (Hrole Hs) as (R1 & R2 & ->). fold t0 in R2. fold t0. rewrite R2.
    destruct (in_count _ _ I i Hi R1) as [V1 V2]. split; [done|]. rewrite (occ_votes _ _ _ Hnet) in V2.
    pose proof (occ_nonneg (cur_term (node c i), pk_node_ip i) (votes took)).
    rewrite occ_app, Hv, occ_cons, occ_nil, bool_decide_eq_false_2, tally_app.
    + pose proof (occ_nonneg (cur_term (node c i), i) (map snd [(i, (t0, k0))])). unfold tally at 1. rewrite <- R2 at 2. rewrite R2 in *. lia.
    + intros Hx. injection Hx as _ Hx. apply member_ip in Hx; [|done..]. by symmetry in Hx.
Qed.

Lemma move_inv H c i q took rest s' es : inv H c -> i ∈ members -> N members / 2 + 1 <= q -> net c ≡ₚ took ++ rest ->
  Forall (fun e => match e with Sent ip _ => ip = pk_node_ip i | _ => False end) took ->
  (length took <= 1)%nat -> N members < 2 ^ 32 - 1 ->
  move i q took (node c i) s' es -> exists new, inv (new ++ H) (c' c i rest s' es).
Proof.
  intros I Hi Hq Hnet Htook Hlen HN M.
  destruct (mv_reqs _ _ _ _ _ _ M) as [He|Hr]; [by eapply elect_inv|].
  assert (elects i (node c i) s' es \/ (role s' <> RAFT_FOLLOWER -> role (node c i) <> RAFT_FOLLOWER /\
    cur_term s' = cur_term (node c i) /\ (votes_got s' = votes_got (node c i) \/ counts took (node c i) s'))) as [He|Hrole].
  { destruct (decide (role s' = RAFT_FOLLOWER)) as [Hf|Hf]; [by right|].
    destruct (mv_role _ _ _ _ _ _ M Hf) as [He|Hx]; [by left|by right]. }
  { by eapply elect_inv. }
  destruct (mv_grant _ _ _ _ _ _ M) as [Hv|(ip & Ht & Hv)]; [exists []; by eapply quiet_inv|].
  eapply grant_inv; try done. intros Hf. destruct (Hrole Hf) as (R1 & R2 & [R3|[_ [ip' Hc]]]); [done|]. exfalso.
  destruct took as [|e [|e2 l]]; [done| |cbn in Hlen; lia].
  unfold reqs, votes in Ht, Hc. cbn [omap list_omap] in Ht, Hc. destruct e as [j d| |]; try done.
  unfold req_of in Ht. unfold vote_of in Hc. cbn zeta in *.
  destruct (Z.eqb_spec (type (pkt_view d)) RAFT_MSG_VOTE_REQ) as [Hty|]; [|done].
  rewrite Hty in Hc. done.
Qed.
End safety.

(** ** At most one leader in a term *)

Lemma members_bound members : NoDup members -> Forall (fun i => 0 <= i < PK_NODE_NONE) members -> N members <= 255.
Proof.
  intros Hnd Hn. unfold N, lenz. assert (length members <= length (seqZ 0 255))%nat as Hl.
  { apply submseteq_length, NoDup_submseteq; [done|]. intros i Hi. rewrite Forall_elem in Hn.
    apply elem_of_seqZ. specialize (Hn i Hi). unfold PK_NODE_NONE in Hn. lia. }
  rewrite length_seqZ in Hl. lia.
Qed.

Section steps.
Context (members : list Z).
Hypothesis Hnd : NoDup members.
Hypothesis Hnarrow : Forall (fun i => 0 <= i < PK_NODE_NONE) members.

Lemma quorum_bound i v : view_ok members i v -> N members / 2 + 1 <= quorum v.
Proof. intros [_ Hv]. unfold quorum. assert (N members / 2 <= alive_count v / 2) by (apply Z.div_le_mono; lia). lia. Qed.

Lemma step_inv H c c1 : inv members H c -> cstep members c c1 -> exists new, inv members (new ++ H) c1.
Proof.
  pose proof (members_bound _ Hnd Hnarrow) as HN. intros I Hs. pose proof (fun i => member_narrow members Hnarrow i) as Hnr.
  destruct Hs as [i v a ip d b Hi Hv Hnet ->|a e b Hnet|i v Hi Hv Hroom|i v k x Hi Hv].
  - assert (net c ≡ₚ [Sent (pk_node_ip i) d] ++ (a ++ b)) as Hp by (rewrite Hnet; cbn; by rewrite Permutation_middle).
    apply (move_inv members Hnarrow H c i (quorum v) [Sent (pk_node_ip i) d] (a ++ b)); try done;
      [by eapply quorum_bound|by apply list.Forall_singleton|lia|].
    apply rx_move; [apply Hv|by apply Hnr| | |by apply I].
    + pose proof (in_fits _ _ _ I) as Hf. rewrite Hp in Hf. apply list.Forall_app in Hf as [Hf _].
      apply (proj1 (list.Forall_singleton _ _)) in Hf. exact Hf.
    + intros t k ip Hin ->. destruct (in_req _ _ _ I ip t PK_NODE_NONE) as (Hk & _).
      { unfold reqs. rewrite Hp. fold (reqs ([Sent (pk_node_ip i) d] ++ a ++ b)). rewrite reqs_app. apply elem_of_app. by left. }
      apply Hnr in Hk. lia.
  - exists []. destruct I as [I1 I2 I3 I4 I5 I6 I7 I8 I9 I10]. rewrite Hnet in *.
    rewrite Forall_app, list.Forall_cons in I2. rewrite reqs_app in I6, I7. rewrite votes_app in I8, I9.
    assert (forall x, x ∈ reqs b -> x ∈ reqs (e :: b)) as Hr by (intros x Hx; change (e :: b) with ([e] ++ b); rewrite reqs_app; apply elem_of_app; by right).
    assert (forall x, x ∈ votes b -> x ∈ votes (e :: b)) as Hv by (intros x Hx; change (e :: b) with ([e] ++ b); rewrite votes_app; apply elem_of_app; by right).
    split; cbn [node net app]; try done.
    + apply Forall_app. tauto.
    + intros ip t k. rewrite reqs_app. intros [Hx|Hx]%elem_of_app; apply I6, elem_of_app; auto.
    + rewrite reqs_app. change (e :: b) with ([e] ++ b) in I7. rewrite reqs_app in I7.
      apply list.NoDup_app in I7 as (A1 & A2 & A3). apply list.NoDup_app in A3 as (_ & _ & A4).
      apply list.NoDup_app. split_and!; [done| |done]. intros y Hy Hy'. apply (A2 y Hy). apply elem_of_app. by right.
    + intros t k Hk. rewrite votes_app. intros [Hx|Hx]%elem_of_app; apply I8; try done; apply elem_of_app; auto.
    + intros k Hk Hrole. destruct (I9 k Hk Hrole) as [V1 V2]. split; [done|]. rewrite votes_app.
      change (e :: b) with ([e] ++ b) in V2. rewrite votes_app, !occ_app in V2. rewrite occ_app.
      pose proof (occ_nonneg (cur_term (node c k), pk_node_ip k) (votes [e])). lia.
  - apply (move_inv members Hnarrow H c i (quorum v) [] (net c)); try done; [by eapply quorum_bound|cbn; lia|lia|].
    apply turn_move; [apply Hv|by apply Hnr|by apply I|done].
  - apply (move_inv members Hnarrow H c i (quorum v) [] (net c)); try done; [by eapply quorum_bound|cbn; lia|lia|].
    apply write_move. by apply I.
Qed.

Lemma steps_inv H c c1 : inv members H c -> rtc (cstep members) c c1 -> exists new, inv members (new ++ H) c1.
Proof.
  intros I Hs. revert H I. induction Hs as [c|c c1 c2 Hs _ IH]; intros H I; [by exists []|].
  destruct (step_inv H c c1 I Hs) as [n1 I1]. destruct (IH _ I1) as [n2 I2]. exists (n2 ++ n1). by rewrite <- app_assoc.
Qed.

(** A leader had more than half of the votes. *)
Lemma leader_tally H c i : inv members H c -> i ∈ members -> role (node c i) = RAFT_LEADER ->
  N members / 2 + 1 <= tally H (cur_term (node c i)) i.
Proof.
  intros I Hi Hl. pose proof (in_lead _ _ _ I i Hi Hl). destruct (in_count _ _ _ I i Hi) as [_ ?]; [by rewrite Hl|].
  pose proof (occ_nonneg (cur_term (node c i), pk_node_ip i) (votes (net c))). lia.
Qed.
End steps.

(** C3: election safety. Take a cluster of narrow nodes whose network delays,
    reorders and loses packets but does not repeat them, where no node ever
    counts fewer nodes alive than the cluster has, and no term wraps round. Two
    nodes that lead in the same term, at the same or at different moments of a
    run, are the same node. *)
Theorem election_safety members c c1 i j
    (Hnd : NoDup members) (Hnarrow : Forall (fun i => 0 <= i < PK_NODE_NONE) members)
    (Hreach : reachable members c) (Hlater : rtc (cstep members) c c1)
    (Hi : i ∈ members) (Hj : j ∈ members)
    (Hli : role (node c i) = RAFT_LEADER) (Hlj : role (node c1 j) = RAFT_LEADER)
    (Hterm : cur_term (node c i) = cur_term (node c1 j)) :
  i = j.
Proof.
  destruct Hreach as (c0 & H0 & Hs). destruct (steps_inv members Hnd Hnarrow _ _ _ (started_inv _ _ H0) Hs) as [h Ih].
  destruct (steps_inv members Hnd Hnarrow _ _ _ Ih Hlater) as [h1 I1].
  pose proof (leader_tally members _ _ i Ih Hi Hli) as T1. pose proof (leader_tally members _ _ j I1 Hj Hlj) as T2.
  rewrite <- Hterm in T2. set (t := cur_term (node c i)) in *. rewrite tally_app in T2.
  destruct (decide (i = j)) as [|Hne]; [done|exfalso].
  pose proof (tally_disjoint members _ _ t i j I1 Hne) as Hd. rewrite !tally_app in Hd.
  rewrite !tally_app in T1, T2. pose proof (occ_nonneg (t, i) (map snd h1)). unfold tally in *.
  Z.to_euclidean_division_equations; lia.
Qed.

(** ** A run with a leader *)

Definition trio : list Z := [0; 1; 2].
Definition boot (i : Z) : raft := raft_init (view_of i trio) raft0.

Lemma trio_view i : i ∈ trio -> view_ok trio i (view_of i trio).
Proof.
  intros Hi. split; [done|]. unfold trio in Hi. apply list_elem_of_In in Hi as [<-|[<-|[<-|[]]]]; vm_compute; discriminate.
Qed.

(** Quiet turns of one node are steps of the cluster. *)
Lemma turns_reach c i k : i ∈ trio ->
  (forall j, (j < k)%nat -> cur_term (fst (run (replicate j (ETurn (view_of i trio))) (node c i))) < 2 ^ 32 - 1) ->
  exists c1, rtc (cstep trio) c c1 /\ node c1 i = fst (run (replicate k (ETurn (view_of i trio))) (node c i)) /\
    (forall j, j <> i -> node c1 j = node c j) /\
    net c1 = net c ++ sends (snd (run (replicate k (ETurn (view_of i trio))) (node c i))).
Proof.
  intros Hi. revert c. induction k as [|k IH]; intros c Hroom.
  - exists c. cbn. rewrite app_nil_r. split_and!; try done.
  - pose proof (Hroom 0%nat ltac:(lia)) as H0. cbn in H0.
    set (c1 := after c i (net c) (raft_turn (view_of i trio) (node c i))).
    assert (node c1 i = fst (step (ETurn (view_of i trio)) (node c i))) as E1 by apply upd_eq.
    destruct (IH c1) as (c2 & S & N1 & N2 & N3).
    { intros j Hj. rewrite E1. apply (Hroom (S j)). lia. }
    exists c2. split_and!.
    + eapply rtc_l; [|exact S]. apply c_turn; [done|by apply trio_view|done].
    + rewrite N1, E1. done.
    + intros j Hj. rewrite N2 by done. by apply upd_ne.
    + rewrite N3, E1. cbn [net c1 after]. cbn [replicate run snd]. unfold sends. by rewrite List.filter_app, app_assoc.
Qed.

Lemma deliver_reach c i a d b : i ∈ trio -> net c = a ++ Sent (pk_node_ip i) d :: b ->
  exists c1, cstep trio c c1 /\ node c1 i = fst (raft_rx (view_of i trio) d (node c i)) /\
    (forall j, j <> i -> node c1 j = node c j) /\ net c1 = a ++ b ++ sends (snd (raft_rx (view_of i trio) d (node c i))).
Proof.
  intros Hi Hn. exists (after c i (a ++ b) (raft_rx (view_of i trio) d (node c i))). split_and!.
  - by eapply c_deliver; [|apply trio_view| |].
  - apply upd_eq.
  - intros j Hj. by apply upd_ne.
  - cbn [net after]. by rewrite <- app_assoc.
Qed.

(** The packet at the given place, with what is before and after it. *)
Lemma pick_packet (l : list effect) n ip d : l !! n = Some (Sent ip d) ->
  l = take n l ++ Sent ip d :: drop (S n) l.
Proof. intros H. by rewrite take_drop_middle. Qed.

Lemma trio_elects : exists c, reachable trio c /\ role (node c 0) = RAFT_LEADER.
Proof.
  set (c0 := Cluster boot []).
  destruct (turns_reach c0 0 7) as (c1 & S1 & N1 & N2 & N3); [left| |].
  { intros j Hj. cbn [node c0]. do 7 (destruct j as [|j]; [vm_compute; reflexivity|]). lia. }
  cbn [node net c0] in N1, N2, N3.
  assert (net c1 !! 0%nat = Some (Sent (pk_node_ip 1) (pkt_bytes (vote_req 0 1 0 0)))) as P1 by (rewrite N3; vm_compute; reflexivity).
  destruct (deliver_reach c1 1 _ _ _ ltac:(right; left) (pick_packet _ _ _ _ P1)) as (c2 & S2 & M1 & M2 & M3).
  rewrite N2 in M1, M3 by done. rewrite N3 in M3.
  destruct (net c2 !! 1%nat) as [[ip d| |]|] eqn:P2; [|rewrite M3 in P2; vm_compute in P2; discriminate..].
  assert (ip = pk_node_ip 0) as -> by (rewrite M3 in P2; vm_compute in P2; injection P2 as <- _; reflexivity).
  destruct (deliver_reach c2 0 _ _ _ ltac:(left) (pick_packet _ _ _ _ P2)) as (c3 & S3 & K1 & _).
  exists c3. split.
  - exists c0. split; [split; [done|]|].
    + intros i _. by exists (view_of i trio).
    + etrans; [exact S1|]. eapply rtc_l; [exact S2|]. by apply rtc_once.
  - rewrite K1, M2, N1 by done. rewrite M3 in P2. vm_compute in P2. injection P2 as <-. vm_compute. reflexivity.
Qed.

Example election_safety_witness : exists c, role (node c 0) = RAFT_LEADER /\
  forall j, j ∈ trio -> role (node c j) = RAFT_LEADER -> cur_term (node c 0) = cur_term (node c j) -> 0 = j.
Proof.
  destruct trio_elects as (c & Hr & Hl). exists c. split; [exact Hl|]. intros j Hj Hlj Ht.
  apply (election_safety trio c c 0 j); try done.
  - apply (bool_decide_unpack _). vm_compute. exact I.
  - repeat constructor; vm_compute; (discriminate || reflexivity).
  - left.
Defined.

(** ** Both conditions are needed *)

(** The answer of node [j] to the request of candidate [i], and the candidate
    after some quiet turns. *)
Definition candidate_after (i : Z) (alive : list Z) (k : nat) : raft * list effect :=
  run (replicate k (ETurn (view_of i alive))) (raft_init (view_of i alive) raft0).
Definition answer_of (j i : Z) (alive : list Z) (k : nat) : list (list Z) :=
  to_peer (pk_node_ip i) (snd (run (map (ERx (view_of j alive)) (to_peer (pk_node_ip j) (snd (candidate_after i alive k))))
    (raft_init (view_of j alive) raft0))).
Definition after_answers (i : Z) (alive : list Z) (k : nat) (ds : list (list Z)) : raft :=
  fst (run (map (ERx (view_of i alive)) ds) (fst (candidate_after i alive k))).

Definition five : list Z := [0; 1; 2; 3; 4].

(** The network repeats an answer. Among five nodes, node 0 counts the answer
    of node 3 twice and leads with two votes; node 1 has the votes of nodes 2 and
    4 and leads the same term. *)
Example repeated_answer_two_leaders :
  let a := answer_of 3 0 five 7 in
  let l0 := after_answers 0 five 7 (a ++ a) in
  let l1 := after_answers 1 five 12 (answer_of 2 1 five 12 ++ answer_of 4 1 five 12) in
  role l0 = RAFT_LEADER /\ role l1 = RAFT_LEADER /\ cur_term l0 = cur_term l1 /\
  quorum (view_of 0 five) = 3 /\ role (after_answers 0 five 7 a) = RAFT_CANDIDATE.
Proof. split_and!; vm_compute; reflexivity. Qed.

(** A partition. The quorum is taken over the nodes a node sees alive, so
    with five nodes split in two and three both sides elect a leader of the same
    term. *)
Example partition_two_leaders :
  let l0 := after_answers 0 [0; 1] 7 (answer_of 1 0 [0; 1] 7) in
  let l2 := after_answers 2 [2; 3; 4] 20 (answer_of 3 2 [2; 3; 4] 20) in
  role l0 = RAFT_LEADER /\ role l2 = RAFT_LEADER /\ cur_term l0 = cur_term l2.
Proof. split_and!; vm_compute; reflexivity. Qed.
