(* ===== verification/Nodemap.v ===== *)
(** * The bounded peer table: src/arch/common/include/nodemap.h

    A table of at most [DREGION_MAX] ids; an id keeps the slot it was admitted
    to until it is evicted. It is used for the wide members of the membership
    list (SwimWide.v). The theorems: it is a bounded finite set of ids, and a
    slot means the same id as long as it is held. *)

From stdpp Require Import list.
#[local] Open Scope Z_scope.
From S2P Require Import Prelude.

Definition DREGION_MAX : Z := 64.
Definition NODEMAP_NOSLOT : Z := -1.

Record nm_slot : Type := NmSlot { nm_used : bool; nm_id : Z }.
Definition nm_free : nm_slot := NmSlot false 0.

Record NODEMAP : Type := Nodemap { slots : list nm_slot; nm_count : Z; nm_cap : Z }.

Definition nodemap_init (cap : Z) : NODEMAP :=
  Nodemap (replicate (Z.to_nat DREGION_MAX) nm_free) 0 (if (cap =? 0) || (DREGION_MAX <? cap) then DREGION_MAX else cap).

Definition nm_at (m : NODEMAP) (i : Z) : nm_slot := getz (slots m) i nm_free.

Definition nodemap_find (m : NODEMAP) (id : Z) : Z :=
  first_ix (fun x => nm_used x && (nm_id x =? id)) (slots m) 0.

Definition nodemap_admit (m : NODEMAP) (id : Z) : Z * NODEMAP :=
  let s := nodemap_find m id in
  if negb (s =? NODEMAP_NOSLOT) then (s, m)
  else if nm_cap m <=? nm_count m then (NODEMAP_NOSLOT, m)
  else
    let i := first_ix (fun x => negb (nm_used x)) (slots m) 0 in
    if 0 <=? i then (i, Nodemap (setz (slots m) i (NmSlot true id)) (u16 (nm_count m + 1)) (nm_cap m))
    else (NODEMAP_NOSLOT, m).

Definition nodemap_evict (m : NODEMAP) (slot : Z) : NODEMAP :=
  if (slot <? 0) || (DREGION_MAX <=? slot) then m
  else if nm_used (nm_at m slot)
  then Nodemap (setz (slots m) slot (NmSlot false (nm_id (nm_at m slot)))) (u16 (nm_count m - 1)) (nm_cap m)
  else m.

(** ** What the table promises *)

Record nm_ok (m : NODEMAP) : Prop := {
  nm_len : lenz (slots m) = DREGION_MAX;
  nm_counts : nm_count m = countz nm_used (slots m);
  nm_bound : nm_count m <= nm_cap m <= DREGION_MAX;
  nm_uniq : forall i j x y, slots m !! i = Some x -> slots m !! j = Some y ->
    nm_used x = true -> nm_used y = true -> nm_id x = nm_id y -> i = j }.

(** Slot [k] holds [id]. *)
Definition at_slot (m : NODEMAP) (k : Z) (id : Z) : Prop :=
  exists n x, k = Z.of_nat n /\ slots m !! n = Some x /\ nm_used x = true /\ nm_id x = id.

Lemma nm_init_ok cap : 0 <= cap -> nm_ok (nodemap_init cap).
Proof.
  intros Hc. split; cbn [nodemap_init slots nm_count nm_cap]; [done|done| |].
  - unfold DREGION_MAX. ifs; bools; lia.
  - intros i j x y Hx _ Hu. apply list_elem_of_lookup_2, elem_of_replicate in Hx as [-> _]. done.
Qed.

Lemma nm_find_spec m id :
  (nodemap_find m id = NODEMAP_NOSLOT /\ forall k, ~ at_slot m k id) \/
  (0 <= nodemap_find m id /\ at_slot m (nodemap_find m id) id).
Proof.
  unfold nodemap_find. destruct (first_ix_spec (fun x => nm_used x && (nm_id x =? id)) (slots m) 0 ltac:(lia))
    as [[E Hno]|(k & x & E & Hk & Hp)]; rewrite E.
  - left. split; [done|]. intros _ (n & x & _ & Hn & Hu & Hid). specialize (Hno n x Hn). cbn in Hno. rewrite Hu, Hid, Z.eqb_refl in Hno. done.
  - right. split; [lia|]. exists k, x. bools. by split_and!; [lia|..].
Qed.

Lemma nm_find_at m k id : nm_ok m -> at_slot m k id -> nodemap_find m id = k.
Proof.
  intros Hm Hk. destruct (nm_find_spec m id) as [[_ Hno]|[_ (n & x & -> & Hn & Hu & Hid)]]; [by destruct (Hno k)|].
  destruct Hk as (j & y & -> & Hj & Hy & Hyid). f_equal. apply (nm_uniq m Hm n j x y); (done || congruence).
Qed.

(** Rewriting one slot. *)
Lemma nm_write m n x y c : nm_ok m -> slots m !! n = Some x ->
  (nm_used y = true -> forall k z, slots m !! k = Some z -> nm_used z = true -> nm_id z = nm_id y -> k = n) ->
  c = nm_count m - b2z (nm_used x) + b2z (nm_used y) -> c <= nm_cap m ->
  nm_ok (Nodemap (<[n := y]> (slots m)) c (nm_cap m)).
Proof.
  intros [M1 M2 M3 M4] Hn Hy -> Hc. split; cbn [slots nm_count nm_cap].
  - unfold lenz in *. by rewrite length_insert.
  - rewrite M2. symmetry. by apply countz_insert.
  - lia.
  - intros i j a b Ha Hb Ua Ub E.
    apply list_lookup_insert_Some in Ha as [(-> & -> & _)|[Na Ha]], Hb as [(-> & -> & _)|[Nb Hb]]; [done| | |by apply (M4 i j a b)].
    + symmetry. by apply (Hy Ua j b).
    + by apply (Hy Ub i a).
Qed.

Lemma nm_count_u16 m d : nm_ok m -> 0 <= nm_count m + d <= 65 -> u16 (nm_count m + d) = nm_count m + d.
Proof. intros _ Hd. unfold u16. apply Z.mod_small. lia. Qed.

(** What an admission does: nothing for an id that is held, a free slot for a
    new one while there is room, a refusal when the bound is reached. *)
Lemma nm_admit_spec m id : nm_ok m ->
  let r := nodemap_admit m id in
  nm_ok (snd r) /\ nm_cap (snd r) = nm_cap m /\
  ((fst r = NODEMAP_NOSLOT /\ snd r = m /\ nm_count m = nm_cap m /\ nodemap_find m id = NODEMAP_NOSLOT) \/
   (at_slot m (fst r) id /\ snd r = m) \/
   (at_slot (snd r) (fst r) id /\ nodemap_find m id = NODEMAP_NOSLOT /\ nm_count (snd r) = nm_count m + 1 /\
    nm_used (nm_at m (fst r)) = false /\
    forall k id', id' <> id -> at_slot (snd r) k id' <-> at_slot m k id')).
Proof.
  intros Hm. unfold nodemap_admit. destruct (nm_find_spec m id) as [[E Hno]|[Hge Hat]].
  2: { assert (negb (nodemap_find m id =? NODEMAP_NOSLOT) = true) as -> by (unfold NODEMAP_NOSLOT; lia).
       cbn [fst snd]. split_and!; [done..|]. right; by left. }
  rewrite E. change (NODEMAP_NOSLOT =? NODEMAP_NOSLOT) with true. cbn [negb].
  destruct (nm_cap m <=? nm_count m) eqn:Ec; bools; cbn [fst snd].
  { split_and!; [done..|]. left. pose proof (nm_bound m Hm). split_and!; [done|done|lia|done]. }
  destruct (first_ix_spec (fun x => negb (nm_used x)) (slots m) 0 ltac:(lia)) as [[_ Hfull]|(n & x & -> & Hn & Hx)].
  - exfalso. assert (countz nm_used (slots m) = lenz (slots m)) as Hc.
    { unfold countz. clear -Hfull. induction (slots m) as [|y l IH]; [done|].
      cbn [List.filter]. pose proof (Hfull 0%nat y eq_refl) as Hy. cbn in Hy. apply negb_false_iff in Hy. rewrite Hy.
      unfold lenz in *. cbn [length]. rewrite Nat2Z.inj_succ, IH; [lia|]. intros k z Hk. by apply (Hfull (S k)). }
    pose proof (nm_counts m Hm). pose proof (nm_len m Hm). pose proof (nm_bound m Hm). lia.
  - rewrite Z.add_0_l, (proj2 (Z.leb_le 0 _)) by lia. cbn [fst snd]. apply negb_true_iff in Hx. rewrite setz_nat.
    pose proof (nm_bound m Hm) as Hb. pose proof (countz_bound nm_used (slots m)) as Hcb. rewrite <- (nm_counts m Hm) in Hcb.
    rewrite (nm_count_u16 m 1 Hm) by (unfold DREGION_MAX in *; lia).
    pose proof (lookup_lt_Some _ _ _ Hn) as Hlt. split_and!; [|done|].
    + apply (nm_write m n x); [done|done| |rewrite Hx; cbn; lia|lia].
      intros _ k z Hk Hu Hid. cbn in Hid. destruct (Hno (Z.of_nat k)). by exists k, z.
    + right; right. cbn [nm_count]. split_and!; [|done|lia|by unfold nm_at; rewrite (getz_nat _ _ _ _ Hn)|].
      * exists n, (NmSlot true id). cbn [slots]. by rewrite list_lookup_insert_eq.
      * intros k id' Hne. split; intros (j & y & -> & Hj & Hu & <-); cbn [slots] in *.
        -- apply list_lookup_insert_Some in Hj as [(-> & <- & _)|[_ Hj]]; [done|]. by exists j, y.
        -- exists j, y. cbn [slots]. destruct (decide (n = j)) as [->|Hne']; [congruence|]. by rewrite list_lookup_insert_ne.
Qed.

Lemma nm_evict_spec m k id : nm_ok m -> at_slot m k id ->
  let m' := nodemap_evict m k in
  nm_ok m' /\ nm_cap m' = nm_cap m /\ nm_count m' = nm_count m - 1 /\ nodemap_find m' id = NODEMAP_NOSLOT /\
  forall j id', id' <> id -> at_slot m' j id' <-> at_slot m j id'.
Proof.
  intros Hm Hat. pose proof (nm_find_at m k id Hm Hat) as Hf. destruct Hat as (n & x & -> & Hn & Hu & Hid).
  pose proof (lookup_lt_Some _ _ _ Hn) as Hlt. pose proof (nm_len m Hm) as Hlen. unfold lenz, DREGION_MAX in Hlen.
  unfold nodemap_evict. rewrite (proj2 (Z.ltb_ge _ 0)), (proj2 (Z.leb_gt DREGION_MAX _)) by (unfold DREGION_MAX; lia). cbn [orb].
  unfold nm_at. rewrite (getz_nat _ _ _ _ Hn), Hu, setz_nat.
  pose proof (nm_bound m Hm) as Hb. pose proof (countz_insert nm_used (slots m) n x nm_free Hn) as Hc. rewrite Hu in Hc. cbn in Hc.
  pose proof (countz_bound nm_used (<[n:=nm_free]> (slots m))) as Hcb. rewrite <- (nm_counts m Hm) in Hc.
  assert (u16 (nm_count m - 1) = nm_count m - 1) as -> by (unfold u16, DREGION_MAX in *; apply Z.mod_small; lia).
  split_and!; [|done|cbn; lia| |].
  - apply (nm_write m n x); [done|done|done|rewrite Hu; cbn; lia|lia].
  - match goal with |- nodemap_find ?mm id = _ => destruct (nm_find_spec mm id) as [[-> _]|[_ (j & y & _ & Hj & Hy & Hyid)]] end; [done|].
    cbn [slots] in Hj. apply list_lookup_insert_Some in Hj as [(-> & <- & _)|[Hne Hj]]; [done|].
    destruct Hne. apply (nm_uniq m Hm n j x y); (done || congruence).
  - intros j id' Hne. split; intros (i & y & -> & Hi & Hy & <-); cbn [slots] in *.
    + apply list_lookup_insert_Some in Hi as [(-> & <- & _)|[_ Hi]]; [done|]. by exists i, y.
    + exists i, y. cbn [slots]. destruct (decide (n = i)) as [->|Hne']; [congruence|]. by rewrite list_lookup_insert_ne.
Qed.

(** An admission adds no id but its own, an eviction adds none. *)
Lemma nm_admit_ids m id k i : nm_ok m -> at_slot (snd (nodemap_admit m id)) k i -> i = id \/ at_slot m k i.
Proof.
  intros Hm Hat. destruct (nm_admit_spec m id Hm) as (_ & _ & [(_ & E & _)|[[_ E]|(_ & _ & _ & _ & H)]]); [rewrite E in Hat; by right..|].
  destruct (decide (i = id)) as [|Hne]; [by left|right]. by apply H.
Qed.

Lemma nm_evict_ids m slot k i : at_slot (nodemap_evict m slot) k i -> at_slot m k i.
Proof.
  unfold nodemap_evict. destruct (_ || _) eqn:E; [done|]. destruct (nm_used _); [|done]. bools.
  intros (n & x & -> & Hn & Hu & <-). cbn [slots] in Hn. rewrite <- (Z2Nat.id slot), setz_nat in Hn by lia.
  apply list_lookup_insert_Some in Hn as [(_ & <- & _)|[_ Hn]]; [done|]. by exists n, x.
Qed.
