(* ===== verification/Swim.v ===== *)
(** * Membership by gossip: src/arch/common/swim.c, swim.h

    The state of one node's membership service and its parts that packets and
    the task share: the gossip queue, the rule that decides which rumour about a
    peer is newer, the effect of one rumour, the refutation of a rumour about
    the node itself, the round-trip estimate, and the capability tables of
    region.c that the rumours fill. Wide ids are in SwimWide.v, the receive
    callback and the probing task in SwimNode.v. The hosted build; console
    output is not modelled. Calls into other components are outputs. *)

From stdpp Require Import list.
#[local] Open Scope Z_scope.
From S2P Require Import Prelude.
From S2P Require Import Node.
From S2P Require Import Nodemap.

Definition SWIM_GOSSIP_MAX : Z := 3.
Definition SWIM_K_HELPERS : Z := 2.
Definition SWIM_SUSPECT_ROUNDS : Z := 2.
Definition SWIM_DEAD_ROUNDS : Z := 3.
Definition SWIM_MAGIC : Z := 0x4D494D53.
Definition SWIM_VERSION : Z := 1.
Definition SWIM_PING : Z := 0x20.
Definition SWIM_ACK : Z := 0x21.
Definition SWIM_PING_REQ : Z := 0x22.
Definition GOSSIP_TTL : Z := 6.
Definition GOSSIP_Q_MAX : Z := SWIM_GOSSIP_MAX * 2.
Definition SELF_SCATTER_MIN_MS : Z := 2000.
Definition NO_RTT : Z := 0xFFFFFFFF.

(** ** The packet *)

Record SWIM_GOSSIP_EVT : Type := Evt { g_node : Z; g_state : Z; g_incarnation : Z; g_capability : Z }.
Definition no_evt : SWIM_GOSSIP_EVT := Evt 0 0 0 0.

Record SWIM_PKT : Type := Pkt {
  magic : Z; version : Z; type : Z; seq : Z; src_node : Z; probe_target : Z; gossip_cnt : Z; gossip : list SWIM_GOSSIP_EVT }.

Definition evt_bytes (e : SWIM_GOSSIP_EVT) : list Z := [g_node e; g_state e; g_incarnation e; g_capability e].

(** The packed structure: 12 bytes and three events of four. *)
Definition swim_bytes (p : SWIM_PKT) : list Z :=
  le 4 (magic p) ++ [version p; type p] ++ le 2 (seq p) ++ [src_node p; probe_target p; gossip_cnt p; 0] ++
  concat (map (fun i => evt_bytes (getz (gossip p) i no_evt)) [0; 1; 2]).
Definition sizeof_SWIM_PKT : Z := 24.

Definition evt_view (d : list Z) (off : Z) : SWIM_GOSSIP_EVT :=
  Evt (getz d off 0) (getz d (off + 1) 0) (getz d (off + 2) 0) (getz d (off + 3) 0).
Definition field (d : list Z) (off n : nat) : Z := of_le (take n (drop off d)).
Definition swim_view (d : list Z) : SWIM_PKT :=
  Pkt (field d 0 4) (getz d 4 0) (getz d 5 0) (field d 6 2) (getz d 8 0) (getz d 9 0) (getz d 10 0)
      [evt_view d 12; evt_view d 16; evt_view d 20].

(** ** The state *)

Record DNODE : Type := Dnode { node_id : Z; d_ip : Z; d_state : Z; missed : Z }.
Definition dnode0 : DNODE := Dnode 0 0 DNODE_UNKNOWN 0.

Record GOSSIP_QUEUED : Type := Queued { q_node : Z; q_state : Z; q_incarnation : Z; remaining : Z; q_capability : Z }.
#[global] Instance queued_eq_dec : EqDecision GOSSIP_QUEUED.
Proof. solve_decision. Defined.

(** The capability tables of region.c, by row, and the row table. *)
Record capable : Type := Capable {
  super_capable : array bool; teacher_capable : array bool; super_init_done : bool; row_table : rows }.

(** The throttle of the scatter that follows a rumour about the node itself. *)
Record throttle : Type := Throttle { last_ms : Z; primed : bool; fires : Z }.

(** Where the probing task is: between rounds, waiting for the answer to a
    direct probe sent at [t_ping], or for an indirect one; [woken] once the
    semaphore it waits on was signalled. *)
Inductive phase : Type := Delay | WaitDirect (t_ping : Z) (woken : bool) | WaitIndirect (woken : bool).
#[global] Instance phase_eq_dec : EqDecision phase.
Proof. solve_decision. Defined.

(** [probe_sem] is [None] before the task created it, else its count. *)
Record probing : Type := Probing {
  probe_sem : option Z; probe_seq : Z; probe_waiting_node : Z; probe_cursor : Z; ph : phase }.

Record SWIM_WIDE : Type := Wide {
  w_ip : Z; heard_ms : Z; w_state : Z; rtt_ok : bool; ping_seq : Z; ping_ms : Z; w_rtt_ms : Z }.
Definition wide0 : SWIM_WIDE := Wide 0 0 DNODE_UNKNOWN false 0 0 0.

Record wides : Type := Wides {
  wide_map : NODEMAP; wide_st : array SWIM_WIDE; nm_full : Z; swim2_bad : Z; swim_wide_me : Z;
  swim_wide_cursor : Z; swim_wide_pcur : Z; swim_wide_seq : Z;
  swim_nping_seq : array Z; swim_nping_ms : array Z; swim_nping_cur : Z }.

Record swim : Type := Swim {
  dnode_table : array DNODE; my_incarnation : Z; dnode_incarn : array Z; suspect_count : array Z;
  gq : list GOSSIP_QUEUED; v2cap_tab : array bool; caps : capable; scatter : throttle;
  rtt_ewma_ms : array Z; rtt_valid : array bool; prb : probing; wide : wides }.

(** What does not change while the service runs. *)
Record config : Type := Config {
  drpc_my_node : Z; suspect_limit : Z; dead_limit : Z;
  teacher_gguf_loaded : bool; env_supernode : bool; sim_zone_size : Z; sim_zone_penalty : Z }.

Definition swim0 : swim :=
  Swim (fun _ => dnode0) 0 (fun _ => 0) (fun _ => 0) [] (fun _ => false)
    (Capable (fun _ => false) (fun _ => false) false rows0) (Throttle 0 false 0) (fun _ => 0) (fun _ => false)
    (Probing None 1 0xFF 0 Delay)
    (Wides (nodemap_init 0) (fun _ => wide0) 0 0 0 0 0 0 (fun _ => 0) (fun _ => 0) 0).

Definition set_dnodes x (s : swim) : swim :=
  Swim x (my_incarnation s) (dnode_incarn s) (suspect_count s) (gq s) (v2cap_tab s) (caps s) (scatter s) (rtt_ewma_ms s) (rtt_valid s) (prb s) (wide s).
Definition set_my_incarnation x (s : swim) : swim :=
  Swim (dnode_table s) x (dnode_incarn s) (suspect_count s) (gq s) (v2cap_tab s) (caps s) (scatter s) (rtt_ewma_ms s) (rtt_valid s) (prb s) (wide s).
Definition set_incarns x (s : swim) : swim :=
  Swim (dnode_table s) (my_incarnation s) x (suspect_count s) (gq s) (v2cap_tab s) (caps s) (scatter s) (rtt_ewma_ms s) (rtt_valid s) (prb s) (wide s).
Definition set_suspects x (s : swim) : swim :=
  Swim (dnode_table s) (my_incarnation s) (dnode_incarn s) x (gq s) (v2cap_tab s) (caps s) (scatter s) (rtt_ewma_ms s) (rtt_valid s) (prb s) (wide s).
Definition set_gq x (s : swim) : swim :=
  Swim (dnode_table s) (my_incarnation s) (dnode_incarn s) (suspect_count s) x (v2cap_tab s) (caps s) (scatter s) (rtt_ewma_ms s) (rtt_valid s) (prb s) (wide s).
Definition set_v2caps x (s : swim) : swim :=
  Swim (dnode_table s) (my_incarnation s) (dnode_incarn s) (suspect_count s) (gq s) x (caps s) (scatter s) (rtt_ewma_ms s) (rtt_valid s) (prb s) (wide s).
Definition set_caps x (s : swim) : swim :=
  Swim (dnode_table s) (my_incarnation s) (dnode_incarn s) (suspect_count s) (gq s) (v2cap_tab s) x (scatter s) (rtt_ewma_ms s) (rtt_valid s) (prb s) (wide s).
Definition set_scatter x (s : swim) : swim :=
  Swim (dnode_table s) (my_incarnation s) (dnode_incarn s) (suspect_count s) (gq s) (v2cap_tab s) (caps s) x (rtt_ewma_ms s) (rtt_valid s) (prb s) (wide s).
Definition set_rtt x y (s : swim) : swim :=
  Swim (dnode_table s) (my_incarnation s) (dnode_incarn s) (suspect_count s) (gq s) (v2cap_tab s) (caps s) (scatter s) x y (prb s) (wide s).
Definition set_prb x (s : swim) : swim :=
  Swim (dnode_table s) (my_incarnation s) (dnode_incarn s) (suspect_count s) (gq s) (v2cap_tab s) (caps s) (scatter s) (rtt_ewma_ms s) (rtt_valid s) x (wide s).
Definition set_wide x (s : swim) : swim :=
  Swim (dnode_table s) (my_incarnation s) (dnode_incarn s) (suspect_count s) (gq s) (v2cap_tab s) (caps s) (scatter s) (rtt_ewma_ms s) (rtt_valid s) (prb s) x.

(** ** Effects, and steps that have some *)

Inductive effect : Type :=
  | Sent (ip : Z) (data : list Z)   (* udp_send on SWIM_PORT *)
  | Noted (nid old new : Z)         (* sw_note: a state change, for the galaxy *)
  | Scattered                       (* replica_scatter_all *)
  | Pushed (nid : Z)                (* replica_push_to *)
  | Degraded                        (* degrade_update *)
  | Dreamed                         (* dmn_trigger *)
  | Healed (nid : Z).               (* heal_on_node_dead *)

Definition step : Type := swim -> swim * list effect.
Definition skip : step := fun s => (s, []).
Definition modify (f : swim -> swim) : step := fun s => (f s, []).
Definition emit (e : effect) : step := fun s => (s, [e]).
Definition andthen (f g : step) : step := fun s => let r := f s in let q := g (fst r) in (fst q, snd r ++ snd q).
(** A step chosen by the state it starts in. *)
Definition look (f : swim -> step) : step := fun s => f s s.
Declare Scope swim_scope.
Delimit Scope swim_scope with swim.
Bind Scope swim_scope with step.
Notation "f ;; g" := (andthen f g) (at level 100, g at level 200, right associativity) : swim_scope.
Open Scope swim_scope.

Definition state_of (s : swim) (n : Z) : Z := d_state (dnode_table s n).
Definition set_state (n st : Z) (s : swim) : swim :=
  let d := dnode_table s n in set_dnodes (upd (dnode_table s) n (Dnode (node_id d) (d_ip d) st (missed d))) s.

(** ** Capabilities *)

Definition bit (x i : Z) : bool := Z.testbit x i.

Definition region_set_super_capable (node : Z) (yes : bool) (s : swim) : swim :=
  let c := caps s in let r := pk_node_row (row_table c) node in
  set_caps (Capable (if 0 <=? fst r then upd (super_capable c) (fst r) yes else super_capable c)
    (teacher_capable c) (super_init_done c) (snd r)) s.
Definition region_set_teacher_capable (node : Z) (yes : bool) (s : swim) : swim :=
  let c := caps s in let r := pk_node_row (row_table c) node in
  set_caps (Capable (super_capable c)
    (if 0 <=? fst r then upd (teacher_capable c) (fst r) yes else teacher_capable c) (super_init_done c) (snd r)) s.
Definition region_is_super_capable (s : swim) (node : Z) : bool :=
  let r := pk_node_row_find (row_table (caps s)) node in (0 <=? r) && super_capable (caps s) r.
Definition region_is_teacher_capable (s : swim) (node : Z) : bool :=
  let r := pk_node_row_find (row_table (caps s)) node in (0 <=? r) && teacher_capable (caps s) r.
Definition region_super_init (c : config) (s : swim) : swim :=
  if super_init_done (caps s) then s
  else
    let k := caps s in
    let s := set_caps (Capable (super_capable k) (teacher_capable k) true (row_table k)) s in
    if env_supernode c && negb (drpc_my_node c =? 0xFF) then region_set_super_capable (drpc_my_node c) true s else s.

Definition v2cap_set (n : Z) (yes : bool) (s : swim) : swim :=
  if n <? DNODE_MAX then set_v2caps (upd (v2cap_tab s) n yes) s else s.
Definition v2cap_get (s : swim) (n : Z) : bool := (n <? DNODE_MAX) && v2cap_tab s n.

Definition cap_self (c : config) (s : swim) : bool := negb (drpc_my_node c =? 0xFF) && region_is_super_capable s (drpc_my_node c).
Definition teacher_self (c : config) : bool := negb (drpc_my_node c =? 0xFF) && teacher_gguf_loaded c.
Definition cap_bits (super teacher v2 : bool) : Z := b2z super + 2 * b2z teacher + 4 * b2z v2.
Definition cap_self_byte (c : config) (s : swim) : Z := cap_bits (cap_self c s) (teacher_self c) true.
Definition cap_byte (s : swim) (n : Z) : Z :=
  cap_bits (region_is_super_capable s n) (region_is_teacher_capable s n) (v2cap_get s n).

Definition SELF_APPLY_OWN_CAPABILITY (c : config) (s : swim) : swim :=
  if drpc_my_node c =? 0xFF then s
  else region_set_teacher_capable (drpc_my_node c) (teacher_self c)
         (region_set_super_capable (drpc_my_node c) (cap_self c s) s).

(** ** The gossip queue *)

(** The entry of a node replaced where it stands, if there is one. *)
Fixpoint gq_replace (e : GOSSIP_QUEUED) (q : list GOSSIP_QUEUED) : option (list GOSSIP_QUEUED) :=
  match q with
  | [] => None
  | x :: r => if q_node x =? q_node e then Some (e :: r) else r' ← gq_replace e r; Some (x :: r')
  end.

(** The first entry with the fewest transmissions left. *)
Fixpoint gq_min (q : list GOSSIP_QUEUED) (i min_i : Z) (m : GOSSIP_QUEUED) : Z :=
  match q with
  | [] => min_i
  | x :: r => if remaining x <? remaining m then gq_min r (i + 1) i x else gq_min r (i + 1) min_i m
  end.

Definition gossip_insert (e : GOSSIP_QUEUED) (q : list GOSSIP_QUEUED) : list GOSSIP_QUEUED :=
  match gq_replace e q with
  | Some q => q
  | None =>
      if lenz q <? GOSSIP_Q_MAX then q ++ [e]
      else match q with [] => [] | x :: r => setz q (gq_min r 1 0 x) e end
  end.

Definition gossip_add (node st inc cap : Z) (s : swim) : swim :=
  set_gq (gossip_insert (Queued node st inc GOSSIP_TTL cap) (gq s)) s.

(** The events a packet takes, at most [room], and the queue they leave. *)
Fixpoint gq_take (room : nat) (q : list GOSSIP_QUEUED) : list SWIM_GOSSIP_EVT * list GOSSIP_QUEUED :=
  match room, q with
  | S k, x :: r =>
      if remaining x =? 0 then let t := gq_take room r in (fst t, x :: snd t)
      else
        let t := gq_take k r in
        (Evt (pk_node_v1 (q_node x)) (q_state x) (q_incarnation x) (q_capability x) :: fst t,
         Queued (q_node x) (q_state x) (q_incarnation x) (u8 (remaining x - 1)) (q_capability x) :: snd t)
  | _, _ => ([], q)
  end.

Definition gq_compact (q : list GOSSIP_QUEUED) : list GOSSIP_QUEUED := List.filter (fun x => 0 <? remaining x) q.

Definition gossip_fill (p : SWIM_PKT) (s : swim) : SWIM_PKT * swim :=
  let t := gq_take (Z.to_nat SWIM_GOSSIP_MAX) (gq s) in
  (Pkt (magic p) (version p) (type p) (seq p) (src_node p) (probe_target p) (lenz (fst t)) (fst t),
   set_gq (gq_compact (snd t)) s).

Definition swim_send (dst : Z) (p : SWIM_PKT) : step := fun s =>
  let r := gossip_fill p s in (snd r, [Sent dst (swim_bytes (fst r))]).

(** ** Which rumour is newer *)

Definition state_rank (st : Z) : Z := if st =? DNODE_DEAD then 2 else if st =? DNODE_SUSPECT then 1 else 0.

Definition gossip_supersedes (inc_in st_in inc_cur st_cur : Z) : bool :=
  if negb (inc_in =? inc_cur) then inc_cur <? inc_in else state_rank st_cur <? state_rank st_in.

Definition self_scatter_due (now : Z) (t : throttle) : bool * throttle :=
  if primed t && (u32 (now - last_ms t) <? SELF_SCATTER_MIN_MS) then (false, t)
  else (true, Throttle now true (u32 (fires t + 1))).

(** A rumour that the node itself is suspect or dead. *)
Definition refute (c : config) (now inc_in : Z) : step :=
  look (fun s => let r := self_scatter_due now (scatter s) in
    modify (set_scatter (snd r)) ;; if fst r then emit Scattered else skip) ;;
  modify (fun s => set_my_incarnation (u8 (if my_incarnation s <=? inc_in then inc_in + 1 else my_incarnation s + 1)) s) ;;
  modify (fun s => gossip_add (drpc_my_node c) DNODE_ALIVE (my_incarnation s) (cap_self_byte c s) s) ;;
  modify (SELF_APPLY_OWN_CAPABILITY c).

(** The three capability bits a rumour carries. *)
Definition adopt_caps (nid cap : Z) (s : swim) : swim :=
  v2cap_set nid (bit cap 2) (region_set_teacher_capable nid (bit cap 1) (region_set_super_capable nid (bit cap 0) s)).

Definition relay (nid st inc : Z) : step := modify (fun s => gossip_add nid st inc (cap_byte s nid) s).

(** The first sighting of a peer. *)
Definition discover (nid st inc cap : Z) : step :=
  modify (fun s => set_suspects (upd (suspect_count s) nid 0)
    (set_incarns (upd (dnode_incarn s) nid inc)
      (set_dnodes (upd (dnode_table s) nid (Dnode nid (pk_node_ip nid) st 0)) s))) ;;
  modify (adopt_caps nid cap) ;; emit (Noted nid DNODE_UNKNOWN st) ;; relay nid st inc ;; emit Degraded ;; emit Dreamed.

(** A rumour that is newer than what is held. *)
Definition accept (nid st inc cap old : Z) : step :=
  modify (fun s => adopt_caps nid cap (set_incarns (upd (dnode_incarn s) nid inc) s)) ;;
  if old =? st then relay nid st inc
  else modify (set_state nid st) ;; emit (Noted nid old st) ;; relay nid st inc ;; emit Degraded ;; emit Dreamed.

(** One rumour of a packet from [src]. *)
Definition apply_rumor (c : config) (now src : Z) (e : SWIM_GOSSIP_EVT) : step :=
  let nid := g_node e in let st := g_state e in let inc := g_incarnation e in
  if nid =? drpc_my_node c then
    if (st =? DNODE_SUSPECT) || (st =? DNODE_DEAD) then refute c now inc else skip
  else if DNODE_MAX <=? nid then skip
  else look (fun s =>
    if (state_of s nid =? DNODE_UNKNOWN) && ((st =? DNODE_ALIVE) || (st =? DNODE_SUSPECT)) then discover nid st inc (g_capability e)
    else if negb (gossip_supersedes inc st (dnode_incarn s nid) (state_of s nid)) then
      if (src =? nid) && negb (src =? PK_NODE_NONE) && (inc =? dnode_incarn s nid)
      then modify (v2cap_set nid (bit (g_capability e) 2)) else skip
    else accept nid st inc (g_capability e) (state_of s nid)).

Definition rumors (p : SWIM_PKT) : list SWIM_GOSSIP_EVT := take (Z.to_nat (Z.min (gossip_cnt p) SWIM_GOSSIP_MAX)) (gossip p).

Fixpoint steps (l : list step) : step := match l with [] => skip | f :: r => f ;; steps r end.

Definition gossip_apply (c : config) (now : Z) (p : SWIM_PKT) : step := steps (map (apply_rumor c now (src_node p)) (rumors p)).

(** ** Round-trip times *)

Definition rtt_observe (node sample : Z) (s : swim) : swim :=
  if DNODE_MAX <=? node then s
  else if negb (rtt_valid s node) then set_rtt (upd (rtt_ewma_ms s) node sample) (upd (rtt_valid s) node true) s
  else set_rtt (upd (rtt_ewma_ms s) node (u32 (u32 (u32 (rtt_ewma_ms s node * 3) + sample) + 2) / 4)) (rtt_valid s) s.

Definition swim_wide_rtt (s : swim) (id : Z) : Z :=
  let k := nodemap_find (wide_map (wide s)) id in
  if negb (k =? NODEMAP_NOSLOT) && rtt_ok (wide_st (wide s) k) then w_rtt_ms (wide_st (wide s) k) else NO_RTT.

Definition swim_rtt_ms (c : config) (s : swim) (node : Z) : Z :=
  let zoned r :=
    if (0 <? sim_zone_size c) && negb (drpc_my_node c =? 0xFF) &&
       negb (node / sim_zone_size c =? drpc_my_node c / sim_zone_size c) then u32 (r + sim_zone_penalty c) else r in
  if DNODE_MAX <=? node then let r := swim_wide_rtt s node in if r =? NO_RTT then r else zoned r
  else if negb (rtt_valid s node) then NO_RTT
  else zoned (rtt_ewma_ms s node).
