(* ===== verification/SwimWide.v ===== *)
(** * Wide ids in the membership: the second half of src/arch/common/swim.c

    A node whose id does not fit one byte is known by a slot of the bounded
    table of Nodemap.v. It is alive while its own packets arrive and ages to
    suspect and dead without them; a rumour can introduce it and nothing else.
    Here are the version 2 packet, its receive path, the aging, the beacon and
    the probes of one round. That the table stays sound is in SwimRun.v. *)

From stdpp Require Import list.
#[local] Open Scope Z_scope.
From S2P Require Import Prelude.
From S2P Require Import Node.
From S2P Require Import Nodemap.
From S2P Require Import Swim.

Definition SWIM2_VERSION : Z := 2.
Definition SWIM_WIDE_SUSPECT_MS : Z := 6000.
Definition SWIM_WIDE_DEAD_MS : Z := 15000.
Definition BROADCAST : Z := 0xFFFFFFFF.
Definition PK_NODE_IS_WIDE (id : Z) : bool := (0xFF <? id) && negb (id =? 0xFFFF).

Record SWIM2_PKT : Type := Pkt2 {
  type2 : Z; seq2 : Z; src2 : Z; target2 : Z; gossip_cnt2 : Z; gossip2 : list SWIM_GOSSIP_EVT }.

Definition evt2_bytes (e : SWIM_GOSSIP_EVT) : list Z := le 2 (g_node e) ++ [g_state e; g_incarnation e; g_capability e].
Definition swim2_bytes (p : SWIM2_PKT) : list Z :=
  le 4 SWIM_MAGIC ++ [SWIM2_VERSION; type2 p] ++ le 2 (seq2 p) ++ le 2 (src2 p) ++ le 2 (target2 p) ++ [gossip_cnt2 p; 0] ++
  concat (map (fun i => evt2_bytes (getz (gossip2 p) i no_evt)) [0; 1; 2]).
Definition sizeof_SWIM2_PKT : Z := 29.

Definition evt2_view (d : list Z) (off : nat) : SWIM_GOSSIP_EVT :=
  Evt (field d off 2) (getz d (Z.of_nat off + 2) 0) (getz d (Z.of_nat off + 3) 0) (getz d (Z.of_nat off + 4) 0).
Definition swim2_view (d : list Z) : SWIM2_PKT :=
  Pkt2 (getz d 5 0) (field d 6 2) (field d 8 2) (field d 10 2) (getz d 12 0) [evt2_view d 14; evt2_view d 19; evt2_view d 24].

(** ** The table *)

Definition set_map m (w : wides) : wides :=
  Wides m (wide_st w) (nm_full w) (swim2_bad w) (swim_wide_me w) (swim_wide_cursor w) (swim_wide_pcur w) (swim_wide_seq w) (swim_nping_seq w) (swim_nping_ms w) (swim_nping_cur w).
Definition set_entry (k : Z) (e : SWIM_WIDE) (w : wides) : wides :=
  Wides (wide_map w) (upd (wide_st w) k e) (nm_full w) (swim2_bad w) (swim_wide_me w) (swim_wide_cursor w) (swim_wide_pcur w) (swim_wide_seq w) (swim_nping_seq w) (swim_nping_ms w) (swim_nping_cur w).
Definition set_counts full bad (w : wides) : wides :=
  Wides (wide_map w) (wide_st w) full bad (swim_wide_me w) (swim_wide_cursor w) (swim_wide_pcur w) (swim_wide_seq w) (swim_nping_seq w) (swim_nping_ms w) (swim_nping_cur w).
Definition set_cursors cur pcur sq (w : wides) : wides :=
  Wides (wide_map w) (wide_st w) (nm_full w) (swim2_bad w) (swim_wide_me w) cur pcur sq (swim_nping_seq w) (swim_nping_ms w) (swim_nping_cur w).
Definition set_nping sq ms cur (w : wides) : wides :=
  Wides (wide_map w) (wide_st w) (nm_full w) (swim2_bad w) (swim_wide_me w) (swim_wide_cursor w) (swim_wide_pcur w) (swim_wide_seq w) sq ms cur.
Definition set_me me (w : wides) : wides :=
  Wides (wide_map w) (wide_st w) (nm_full w) (swim2_bad w) me (swim_wide_cursor w) (swim_wide_pcur w) (swim_wide_seq w) (swim_nping_seq w) (swim_nping_ms w) (swim_nping_cur w).

Definition slot_used (w : wides) (k : Z) : bool := nm_used (nm_at (wide_map w) k).
Definition slot_id (w : wides) (k : Z) : Z := nm_id (nm_at (wide_map w) k).
Definition slot_state (w : wides) (k : Z) : Z := w_state (wide_st w k).

(** Dead entries give way until the id is admitted. *)
Fixpoint make_room (n : nat) (i id s : Z) (w : wides) : Z * wides :=
  match n with
  | O => (s, w)
  | S k =>
      if negb (s =? NODEMAP_NOSLOT) then (s, w)
      else if slot_used w i && (slot_state w i =? DNODE_DEAD) then
        let r := nodemap_admit (nodemap_evict (wide_map w) i) id in make_room k (i + 1) id (fst r) (set_map (snd r) w)
      else make_room k (i + 1) id s w
  end.

(** The slot of a wide id, taken if it is new; -1 when there is none. *)
Definition wide_add (id : Z) (w : wides) : Z * wides :=
  let s := nodemap_find (wide_map w) id in
  if negb (s =? NODEMAP_NOSLOT) then (s, w)
  else if negb (PK_NODE_IS_WIDE id) then (-1, w)
  else
    let a := nodemap_admit (wide_map w) id in
    let r := make_room (Z.to_nat DREGION_MAX) 0 id (fst a) (set_map (snd a) w) in
    if fst r =? NODEMAP_NOSLOT then (-1, set_counts (u32 (nm_full (snd r) + 1)) (swim2_bad (snd r)) (snd r))
    else (fst r, set_entry (fst r) wide0 (snd r)).

Definition swim_wide_self (id : Z) (w : wides) : wides := set_me id w.

(** A packet of the node itself ([direct]), or news of it. *)
Definition swim_wide_heard (id ip : Z) (direct : bool) (now : Z) (w : wides) : wides :=
  if negb (PK_NODE_IS_WIDE id) || (id =? swim_wide_me w) then w
  else
    let r := wide_add id w in let k := fst r in let w := snd r in
    if k <? 0 then w
    else
      let e := wide_st w k in
      if direct then set_entry k (Wide ip now DNODE_ALIVE (rtt_ok e) (ping_seq e) (ping_ms e) (w_rtt_ms e)) w
      else if w_state e =? DNODE_UNKNOWN
      then set_entry k (Wide (pk_node_ip id) now DNODE_ALIVE (rtt_ok e) (ping_seq e) (ping_ms e) (w_rtt_ms e)) w
      else w.

Definition swim_wide_rtt_sample (id sq now : Z) (w : wides) : wides :=
  let k := nodemap_find (wide_map w) id in
  let e := wide_st w k in
  if negb (k =? NODEMAP_NOSLOT) && negb (sq =? 0) && (ping_seq e =? sq) then
    let rtt := u32 (now - ping_ms e) in
    if rtt <? 0x80000000 then
      set_entry k (Wide (w_ip e) (heard_ms e) (w_state e) true 0 (ping_ms e)
        (if rtt_ok e then u32 (u32 (u32 (w_rtt_ms e * 3) + rtt) + 2) / 4 else rtt)) w
    else w
  else w.

Definition on_wide (f : wides -> wides) : step := modify (fun s => set_wide (f (wide s)) s).

Definition swim_wide_narrow_sample (id sq now : Z) (s : swim) : swim :=
  let w := wide s in
  if (DNODE_MAX <=? id) || (sq =? 0) then s
  else if swim_nping_seq w id =? sq then
    let rtt := u32 (now - swim_nping_ms w id) in
    let s := set_wide (set_nping (upd (swim_nping_seq w) id 0) (swim_nping_ms w) (swim_nping_cur w) w) s in
    if rtt <? 0x80000000 then rtt_observe id rtt s else s
  else s.

Definition swim_wide_alive (w : wides) (max : Z) : list Z :=
  take (Z.to_nat max) (map (slot_id w)
    (List.filter (fun k => slot_used w k && (slot_state w k =? DNODE_ALIVE)) (seqZ 0 DREGION_MAX))).

Definition swim_peer_reads_v2 (s : swim) (id : Z) : bool :=
  if id <? DNODE_MAX then v2cap_get s id
  else
    let k := nodemap_find (wide_map (wide s)) id in
    negb (k =? NODEMAP_NOSLOT) && negb (slot_state (wide s) k =? DNODE_DEAD) && negb (slot_state (wide s) k =? DNODE_UNKNOWN).

Definition swim_wide_self_id (c : config) (w : wides) : Z := if swim_wide_me w =? 0 then drpc_my_node c else swim_wide_me w.

Definition swim_wide_send (ty sq me target : Z) : step := emit (Sent BROADCAST (swim2_bytes (Pkt2 ty sq me target 0 []))).

(** ** Receiving *)

Definition wide_news (p : SWIM2_PKT) (now : Z) (w : wides) : wides :=
  fold_left (fun w e => if g_state e =? DNODE_ALIVE then swim_wide_heard (g_node e) 0 false now w else w)
    (take (Z.to_nat (Z.min (gossip_cnt2 p) SWIM_GOSSIP_MAX)) (gossip2 p)) w.

Definition wide_answer (c : config) (now : Z) (p : SWIM2_PKT) : step := look (fun s =>
  let me := swim_wide_self_id c (wide s) in
  if negb (me =? 0xFF) && negb (seq2 p =? 0) && (target2 p =? me) then
    if type2 p =? SWIM_PING then swim_wide_send SWIM_ACK (seq2 p) me (src2 p)
    else if type2 p =? SWIM_ACK then
      if src2 p <? DNODE_MAX then modify (swim_wide_narrow_sample (src2 p) (seq2 p) now)
      else on_wide (swim_wide_rtt_sample (src2 p) (seq2 p) now)
    else skip
  else skip).

(** [None] when the packet is not of version 2. *)
Definition swim_wide_rx (c : config) (now src_ip : Z) (d : list Z) : option step :=
  if (lenz d <? 5) || negb (field d 0 4 =? SWIM_MAGIC) || negb (getz d 4 0 =? SWIM2_VERSION) then None
  else if lenz d <? sizeof_SWIM2_PKT then Some (on_wide (fun w => set_counts (nm_full w) (u32 (swim2_bad w + 1)) w))
  else
    let p := swim2_view d in
    Some (on_wide (fun w => wide_news p now (swim_wide_heard (src2 p) src_ip true now w)) ;; wide_answer c now p).

(** ** The round of the task *)

(** Up to [room] live ids, taking turns from the cursor. *)
Fixpoint wide_fill (n room : nat) (cur : Z) (w : wides) : list SWIM_GOSSIP_EVT * Z :=
  match n, room with
  | S n', S r =>
      let cur := (cur + 1) mod DREGION_MAX in
      if slot_used w cur && (slot_state w cur =? DNODE_ALIVE) then
        let t := wide_fill n' r cur w in (Evt (u16 (slot_id w cur)) DNODE_ALIVE 0 0 :: fst t, snd t)
      else wide_fill n' room cur w
  | _, _ => ([], cur)
  end.

Definition age_state (now heard : Z) : Z :=
  let age := u32 (now - heard) in
  let age := if 0x80000000 <=? age then 0 else age in
  if SWIM_WIDE_DEAD_MS <=? age then DNODE_DEAD else if SWIM_WIDE_SUSPECT_MS <=? age then DNODE_SUSPECT else DNODE_ALIVE.

Definition age_slot (now k : Z) (w : wides) : wides :=
  let e := wide_st w k in
  if slot_used w k && negb (w_state e =? DNODE_DEAD) && negb (w_state e =? DNODE_UNKNOWN)
  then set_entry k (Wide (w_ip e) (heard_ms e) (age_state now (heard_ms e)) (rtt_ok e) (ping_seq e) (ping_ms e) (w_rtt_ms e)) w
  else w.

Definition swim_wide_age (now : Z) (w : wides) : wides := for_up (Z.to_nat DREGION_MAX) 0 (age_slot now) w.

(** The number of the next version 2 ping, never 0. *)
Definition next_seq (sq : Z) : Z := let n := u16 (sq + 1) in if n =? 0 then 1 else n.

(** The first index from the cursor on that satisfies [p]; the cursor stops there. *)
Fixpoint rotate (n : nat) (max : Z) (p : Z -> bool) (cur : Z) : option Z * Z :=
  match n with
  | O => (None, cur)
  | S k => let cur := (cur + 1) mod max in if p cur then (Some cur, cur) else rotate k max p cur
  end.

Definition swim_wide_ping_next (now me : Z) : step := look (fun s =>
  let w := wide s in
  let r := rotate (Z.to_nat DREGION_MAX) DREGION_MAX (fun k => slot_used w k && (slot_state w k =? DNODE_ALIVE)) (swim_wide_pcur w) in
  match fst r with
  | None => on_wide (set_cursors (swim_wide_cursor w) (snd r) (swim_wide_seq w))
  | Some k =>
      let sq := next_seq (swim_wide_seq w) in let e := wide_st w k in
      on_wide (fun w => set_entry k (Wide (w_ip e) (heard_ms e) (w_state e) (rtt_ok e) sq now (w_rtt_ms e))
                          (set_cursors (swim_wide_cursor w) (snd r) sq w)) ;;
      swim_wide_send SWIM_PING sq me (slot_id w k)
  end).

Definition swim_wide_ping_narrow (now me : Z) : step := look (fun s =>
  let w := wide s in
  let r := rotate (Z.to_nat DNODE_MAX) DNODE_MAX (fun n => state_of s n =? DNODE_ALIVE) (swim_nping_cur w) in
  match fst r with
  | None => on_wide (set_nping (swim_nping_seq w) (swim_nping_ms w) (snd r))
  | Some n =>
      let sq := next_seq (swim_wide_seq w) in
      on_wide (fun w => set_nping (upd (swim_nping_seq w) n sq) (upd (swim_nping_ms w) n now) (snd r)
                          (set_cursors (swim_wide_cursor w) (swim_wide_pcur w) sq w)) ;;
      swim_wide_send SWIM_PING sq me n
  end).

Definition swim_wide_tick (c : config) (now : Z) : step :=
  on_wide (swim_wide_age now) ;;
  look (fun s =>
    let w := wide s in
    let f := wide_fill (Z.to_nat DREGION_MAX) (Z.to_nat SWIM_GOSSIP_MAX) (swim_wide_cursor w) w in
    on_wide (fun w => set_cursors (snd f) (swim_wide_pcur w) (swim_wide_seq w) w) ;;
    let n := lenz (fst f) in let me := swim_wide_self_id c w in
    if (swim_wide_me w =? 0) && ((n =? 0) || (drpc_my_node c =? 0xFF)) then skip
    else
      emit (Sent BROADCAST (swim2_bytes (Pkt2 SWIM_ACK 0 me me n (fst f)))) ;;
      if me =? 0xFF then skip
      else swim_wide_ping_next now me ;; if swim_wide_me w =? 0 then skip else swim_wide_ping_narrow now me).
