(* ===== verification/SwimNode.v ===== *)
(** * The membership service as it runs: swim_rx and swim_task of swim.c

    The receive callback and the probing task over the state of Swim.v and
    SwimWide.v. The task is a step function on the place it has reached: the
    delay between rounds, or one of the two waits on its semaphore. A wait ends
    when a packet signalled the semaphore or when its time is up. The callback
    and each stretch of the task between two waits are atomic steps. *)

From stdpp Require Import list.
#[local] Open Scope Z_scope.
From S2P Require Import Prelude.
From S2P Require Import Node.
From S2P Require Import Nodemap.
From S2P Require Import Swim.
From S2P Require Import SwimWide.

Definition set_sem x (p : probing) : probing := Probing x (probe_seq p) (probe_waiting_node p) (probe_cursor p) (ph p).
Definition set_probe sq n (p : probing) : probing := Probing (probe_sem p) sq n (probe_cursor p) (ph p).
Definition set_cursor x (p : probing) : probing := Probing (probe_sem p) (probe_seq p) (probe_waiting_node p) x (ph p).
Definition set_phase x (p : probing) : probing := Probing (probe_sem p) (probe_seq p) (probe_waiting_node p) (probe_cursor p) x.
Definition on_prb (f : probing -> probing) : step := modify (fun s => set_prb (f (prb s)) s).

(** tk_sig_sem on a semaphore whose count is at most 1: a task that waits is
    released, else the count is raised. *)
Definition signal (p : probing) : probing :=
  match ph p with
  | WaitDirect t false => set_phase (WaitDirect t true) p
  | WaitIndirect false => set_phase (WaitIndirect true) p
  | _ => set_sem (Some 1) p
  end.

(** tk_wai_sem begins: a count that is there is taken at once. *)
Definition wait (mk : bool -> phase) (p : probing) : probing :=
  match probe_sem p with
  | Some n => if 0 <? n then set_phase (mk true) (set_sem (Some (n - 1)) p) else set_phase (mk false) p
  | None => set_phase (mk false) p
  end.

Definition packet (ty sq src target : Z) : SWIM_PKT := Pkt SWIM_MAGIC SWIM_VERSION ty sq src target 0 [].

(** ** Receiving *)

(** The sender of a packet is alive. *)
Definition sender_alive (c : config) (src_ip snid : Z) : step :=
  if (snid <? DNODE_MAX) && negb (snid =? drpc_my_node c) then look (fun s =>
    let d := dnode_table s snid in let old := d_state d in
    modify (fun s => set_suspects (upd (suspect_count s) snid 0)
      (set_dnodes (upd (dnode_table s) snid (Dnode (node_id d) src_ip DNODE_ALIVE 0)) s)) ;;
    if old =? DNODE_ALIVE then skip
    else
      emit (Noted snid old DNODE_ALIVE) ;;
      modify (fun s => gossip_add snid DNODE_ALIVE (dnode_incarn s snid) (cap_byte s snid) s) ;;
      emit (Pushed snid) ;; emit Degraded)
  else skip.

Definition on_type (c : config) (src_ip : Z) (p : SWIM_PKT) : step :=
  let me := pk_node_v1 (drpc_my_node c) in
  if type p =? SWIM_PING then swim_send src_ip (packet SWIM_ACK (seq p) me me)
  else if type p =? SWIM_ACK then
    on_prb (fun q => match probe_sem q with
      | Some _ => if (seq p =? probe_seq q) && (probe_target p =? probe_waiting_node q) then signal q else q
      | None => q
      end)
  else if type p =? SWIM_PING_REQ then
    let target := probe_target p in
    if (DNODE_MAX <=? target) || (target =? drpc_my_node c) then skip
    else swim_send (pk_node_ip target) (packet SWIM_PING (seq p) me (pk_node_v1 target))
  else skip.

Definition swim_rx (c : config) (now src_ip : Z) (d : list Z) : step :=
  match swim_wide_rx c now src_ip d with
  | Some f => f
  | None =>
      if lenz d <? sizeof_SWIM_PKT then skip
      else
        let p := swim_view d in
        if negb (magic p =? SWIM_MAGIC) || negb (version p =? SWIM_VERSION) then skip
        else gossip_apply c now p ;; sender_alive c src_ip (src_node p) ;; on_type c src_ip p
  end.

(** ** The task *)

(** The next known peer in turn; else any other node. *)
Definition pick_probe_target (c : config) (s : swim) : Z * Z :=
  let r := rotate (Z.to_nat DNODE_MAX) DNODE_MAX
    (fun n => negb (n =? drpc_my_node c) && negb (state_of s n =? DNODE_UNKNOWN)) (probe_cursor (prb s)) in
  match fst r with
  | Some n => (n, snd r)
  | None => (hd (drpc_my_node c) (List.filter (fun n => negb (n =? drpc_my_node c)) (seqZ 0 DNODE_MAX)), snd r)
  end.

Definition pick_helpers (c : config) (exclude : Z) (s : swim) : list Z :=
  take (Z.to_nat SWIM_K_HELPERS) (List.filter
    (fun n => negb (n =? drpc_my_node c) && negb (n =? exclude) && (state_of s n =? DNODE_ALIVE)) (seqZ 0 DNODE_MAX)).

(** The number of the next probe, never 0. *)
Definition round_start (c : config) (now : Z) : step :=
  swim_wide_tick c now ;;
  if drpc_my_node c =? 0xFF then skip
  else
    modify (region_super_init c) ;;
    modify (fun s => gossip_add (drpc_my_node c) DNODE_ALIVE (my_incarnation s) (cap_self_byte c s) s) ;;
    modify (SELF_APPLY_OWN_CAPABILITY c) ;;
    swim_send BROADCAST (packet SWIM_ACK 0 (pk_node_v1 (drpc_my_node c)) (pk_node_v1 (drpc_my_node c))) ;;
    look (fun s =>
      let t := pick_probe_target c s in
      on_prb (set_cursor (snd t)) ;;
      if fst t =? drpc_my_node c then skip
      else
        on_prb (fun p => set_probe (next_seq (probe_seq p)) (fst t) p) ;;
        look (fun s => swim_send (pk_node_ip (fst t))
          (packet SWIM_PING (probe_seq (prb s)) (pk_node_v1 (drpc_my_node c)) (pk_node_v1 (fst t)))) ;;
        on_prb (wait (WaitDirect now))).

(** An answer came: the target is alive. *)
Definition answered (t : Z) : step :=
  look (fun s =>
    let old := state_of s t in
    if old =? DNODE_ALIVE then skip
    else
      modify (set_state t DNODE_ALIVE) ;; emit (Noted t old DNODE_ALIVE) ;;
      modify (fun s => gossip_add t DNODE_ALIVE (dnode_incarn s t) (cap_byte s t) s) ;; emit (Pushed t)) ;;
  modify (fun s => set_suspects (upd (suspect_count s) t 0) s).

Definition demote (t old new : Z) : step :=
  modify (fun s => let d := dnode_table s t in
    set_suspects (upd (suspect_count s) t 0) (set_dnodes (upd (dnode_table s) t (Dnode (node_id d) (d_ip d) new 0)) s)) ;;
  emit (Noted t old new) ;;
  modify (fun s => gossip_add t new (dnode_incarn s t) (cap_byte s t) s).

(** No answer in the whole round. *)
Definition unanswered (c : config) (t : Z) : step :=
  modify (fun s => set_suspects (upd (suspect_count s) t (u8 (suspect_count s t + 1))) s) ;;
  look (fun s =>
    if (state_of s t =? DNODE_ALIVE) && (suspect_limit c <=? suspect_count s t) then demote t DNODE_ALIVE DNODE_SUSPECT
    else if (state_of s t =? DNODE_SUSPECT) && (dead_limit c <=? suspect_count s t) then
      demote t DNODE_SUSPECT DNODE_DEAD ;; emit (Healed t) ;; emit Degraded
    else skip).

Definition ask_helpers (c : config) (t : Z) : step := look (fun s =>
  steps (map (fun h => look (fun s => swim_send (pk_node_ip h)
    (packet SWIM_PING_REQ (probe_seq (prb s)) (pk_node_v1 (drpc_my_node c)) (pk_node_v1 t)))) (pick_helpers c t s))).

(** The task runs: after the delay, or because its wait ended. *)
Definition task_step (c : config) (now : Z) : step := look (fun s =>
  let t := probe_waiting_node (prb s) in
  match ph (prb s) with
  | Delay => round_start c now
  | WaitDirect t0 true => on_prb (set_phase Delay) ;; modify (rtt_observe t (u32 (now - t0))) ;; answered t
  | WaitDirect _ false => on_prb (set_phase Delay) ;; ask_helpers c t ;; on_prb (wait WaitIndirect)
  | WaitIndirect true => on_prb (set_phase Delay) ;; answered t
  | WaitIndirect false => on_prb (set_phase Delay) ;; unanswered c t
  end).

(** The task begins by creating its semaphore. *)
Definition task_begin : step := on_prb (set_sem (Some 0)).

Definition swim_init : swim -> swim := fun s =>
  set_wide (set_map (nodemap_init 0) (wide s))
    (set_my_incarnation 0 (set_incarns (fun n => if (0 <=? n) && (n <? DNODE_MAX) then 0 else dnode_incarn s n)
      (set_suspects (fun n => if (0 <=? n) && (n <? DNODE_MAX) then 0 else suspect_count s n) s))).

(** swim_rounds_from_env: the limits are 1 to 250. *)
Fixpoint env_digits (d : list Z) (v : Z) : option Z :=
  match d with
  | [] => Some v
  | ch :: r => if (ch <? 48) || (57 <? ch) || (250 <? v) then None else env_digits r (v * 10 + (ch - 48))
  end.
Definition swim_env_rounds (env : option (list Z)) (dflt : Z) : Z :=
  match env with
  | None | Some [] => dflt
  | Some d => match env_digits d 0 with Some v => if (1 <=? v) && (v <=? 250) then v else dflt | None => dflt end
  end.

(** ** Runs *)

Inductive event : Type := Rx (now src_ip : Z) (d : list Z) | Run (now : Z).
Definition on_event (c : config) (e : event) : step :=
  match e with Rx now ip d => swim_rx c now ip d | Run now => task_step c now end.
Definition run (c : config) (es : list event) : step := steps (map (on_event c) es).
