(* ===== verification/Semilattice.v ===== *)
(** * Merging by least upper bounds

    Replicas that merge what they hear with the join of a semilattice agree on
    the result whatever the order, the grouping and the repetition of the
    messages. The class is the promise; [joins_same] is the consequence the
    membership rumours rely on. *)

From stdpp Require Import list.
From S2P Require Import Prelude.

Class Join (A : Type) : Type := join : A -> A -> A.
#[export] Hint Mode Join ! : typeclass_instances.
Infix "⊕" := join (at level 50, left associativity).

Class JoinOk (A : Type) `{Join A} : Prop := {
  join_assoc (x y z : A) : x ⊕ (y ⊕ z) = x ⊕ y ⊕ z;
  join_comm (x y : A) : x ⊕ y = y ⊕ x;
  join_idem (x : A) : x ⊕ x = x }.

Definition below {A} `{Join A} (x y : A) : Prop := x ⊕ y = y.
Infix "⊴" := below (at level 70).

(** Everything heard, merged into what is held. *)
Definition joins {A} `{Join A} (a : A) (l : list A) : A := fold_left join l a.

Section laws.
Context {A : Type} `{JoinOk A}.
Implicit Types x y z a : A.

#[export] Instance below_preorder : PreOrder (below (A := A)).
Proof.
  unfold below. split; [intros x; apply join_idem|]. intros x y z Hxy Hyz. by rewrite <- Hyz, join_assoc, Hxy.
Qed.

#[export] Instance below_antisymm : AntiSymm (=) (below (A := A)).
Proof. unfold below. intros x y Hxy Hyx. by rewrite <- Hyx, join_comm, Hxy. Qed.

Lemma join_below x y z : x ⊕ y ⊴ z <-> x ⊴ z /\ y ⊴ z.
Proof.
  unfold below. split.
  - intros E. split; rewrite <- E.
    + by rewrite join_assoc, join_assoc, join_idem.
    + by rewrite (join_comm x y), join_assoc, join_assoc, join_idem.
  - intros [Hx Hy]. by rewrite <- join_assoc, Hy.
Qed.

(** The merge is the least upper bound of what was held and heard. *)
Lemma joins_below a l z : joins a l ⊴ z <-> a ⊴ z /\ Forall (fun x => x ⊴ z) l.
Proof.
  revert a. induction l as [|x l IH]; intros a; cbn [joins fold_left]; [split; [by split; [|constructor]|by intros [? _]]|].
  unfold joins in IH. rewrite IH, join_below, list.Forall_cons. tauto.
Qed.

(** It depends on the set of the messages only. *)
Lemma joins_same a l k : (forall x, (x ∈ l) <-> (x ∈ k)) -> joins a l = joins a k.
Proof.
  intros Hlk. assert (forall l k, (forall x, (x ∈ l) -> (x ∈ k)) -> joins a l ⊴ joins a k) as Hle.
  { intros l1 k1 Hsub. apply joins_below. pose proof (proj1 (joins_below a k1 (joins a k1)) (reflexivity _)) as [Ha Hk].
    split; [done|]. apply list.Forall_forall. intros x Hx. rewrite list.Forall_forall in Hk. by apply Hk, Hsub. }
  apply (anti_symm below); apply Hle; intros x; by rewrite Hlk.
Qed.
End laws.
