(* ===== verification/SwimFacts.v ===== *)
(** * What the gossip guarantees

    Rumours about a peer are merged by a semilattice join, so nodes that heard
    the same rumours believe the same. The invariant of the queue and the tables
    is in SwimRun.v, refutation and detection are in SwimDetect.v. *)

From stdpp Require Import list.
#[local] Open Scope Z_scope.
From S2P Require Import Prelude.
From S2P Require Import Node.
From S2P Require Import Nodemap.
From S2P Require Import Semilattice.
From S2P Require Import Swim.
From S2P Require Import SwimWide.
From S2P Require Import SwimNode.

(** ** Beliefs *)

(** What is believed of a peer: nothing, or an incarnation and how dead it is. *)
Definition belief : Type := option (Z * Z).

(** Lexicographic order on incarnation and severity. *)
Definition newer (a b : Z * Z) : bool := (fst b <? fst a) || ((fst a =? fst b) && (snd b <? snd a)).

#[export] Instance belief_join : Join belief := fun a b =>
  match a, b with
  | None, _ => b
  | _, None => a
  | Some x, Some y => if newer y x then Some y else Some x
  end.

#[export] Instance belief_join_ok : JoinOk belief.
Proof.
  split.
  - intros [[i r]|] [[i' r']|] [[i'' r'']|]; unfold join, belief_join, newer; cbn [fst snd]; try done; repeat (ifs; cbn [fst snd] in * ); (done || lia).
  - intros [[i r]|] [[i' r']|]; unfold join, belief_join, newer; cbn [fst snd]; try done.
    ifs; try done; [lia|]. repeat f_equal; lia.
  - intros [[i r]|]; unfold join, belief_join, newer; cbn [fst snd]; [|done]. by ifs.
Qed.

(** The states a rumour carries. *)
Definition known (st : Z) : Prop := st = DNODE_ALIVE \/ st = DNODE_SUSPECT \/ st = DNODE_DEAD.
#[global] Instance known_dec st : Decision (known st).
Proof. unfold known. apply _. Defined.

Lemma known_rank st st' : known st -> known st' -> state_rank st = state_rank st' -> st = st'.
Proof. unfold known, DNODE_ALIVE, DNODE_SUSPECT, DNODE_DEAD. intros [-> | [-> | ->]] [-> | [-> | ->]]; cbn; (done || lia). Qed.

Lemma supersedes_newer inc st inc' st' : gossip_supersedes inc st inc' st' = newer (inc, state_rank st) (inc', state_rank st').
Proof. unfold gossip_supersedes, newer. cbn [fst snd]. ifs; lia. Qed.

Definition believes (s : swim) (n : Z) : belief :=
  if state_of s n =? DNODE_UNKNOWN then None else Some (dnode_incarn s n, state_rank (state_of s n)).

(** The belief a rumour carries. *)
Definition carries (e : SWIM_GOSSIP_EVT) : belief := Some (g_incarnation e, state_rank (g_state e)).

Definition evt_ok (e : SWIM_GOSSIP_EVT) : Prop := known (g_state e) /\ is_u8 (g_incarnation e).

(** A peer that was never heard of has incarnation 0, a peer that was has a
    state a rumour can carry. *)
Definition fresh (s : swim) : Prop :=
  forall n, (state_of s n = DNODE_UNKNOWN /\ dnode_incarn s n = 0) \/ known (state_of s n).

(** ** What a step does to beliefs *)

(** The two tables that beliefs are read from. *)
Definition core (s : swim) : array DNODE * array Z := (dnode_table s, dnode_incarn s).

Lemma core_super n b s : core (region_set_super_capable n b s) = core s.
Proof. done. Qed.
Lemma core_teacher n b s : core (region_set_teacher_capable n b s) = core s.
Proof. done. Qed.
Lemma core_v2cap n b s : core (v2cap_set n b s) = core s.
Proof. unfold v2cap_set. by ifs. Qed.
Lemma core_adopt n cap s : core (adopt_caps n cap s) = core s.
Proof. unfold adopt_caps. by rewrite core_v2cap. Qed.
Lemma core_self c s : core (SELF_APPLY_OWN_CAPABILITY c s) = core s.
Proof. unfold SELF_APPLY_OWN_CAPABILITY. by ifs. Qed.
Lemma core_add n st inc cap s : core (gossip_add n st inc cap s) = core s.
Proof. done. Qed.

Lemma core_refute c now inc s : core (fst (refute c now inc s)) = core s.
Proof.
  unfold refute, andthen, look, modify. cbn [fst]. rewrite core_self, core_add.
  destruct (fst (self_scatter_due now (scatter s))); done.
Qed.

Lemma core_eq s s' n : core s = core s' -> state_of s n = state_of s' n /\ dnode_incarn s n = dnode_incarn s' n /\ believes s n = believes s' n.
Proof. unfold core, state_of, believes, state_of. intros [= -> ->]. done. Qed.

(** [s'] is [s] with another belief about [n]. *)
Definition learns (n st inc : Z) (s s' : swim) : Prop := forall m,
  state_of s' m = (if m =? n then st else state_of s m) /\
  dnode_incarn s' m = (if m =? n then inc else dnode_incarn s m).

Lemma learns_core n st inc s s' s'' : core s' = core s'' -> learns n st inc s s'' -> learns n st inc s s'.
Proof. intros E H m. destruct (core_eq s' s'' m E) as (-> & -> & _). apply H. Qed.

Lemma discover_learns n st inc cap s : learns n st inc s (fst (discover n st inc cap s)).
Proof.
  unfold discover, relay, andthen, modify, emit. cbn [fst].
  eapply learns_core; [rewrite core_add, core_adopt; reflexivity|].
  intros m. unfold state_of, upd. cbn [set_suspects set_incarns set_dnodes dnode_table dnode_incarn]. by destruct (m =? n).
Qed.

Lemma accept_learns n st inc cap old s : state_of s n = old -> learns n st inc s (fst (accept n st inc cap old s)).
Proof.
  intros <-. unfold accept, relay, andthen, modify, emit. cbn [fst].
  set (s1 := adopt_caps _ _ _). assert (core s1 = (dnode_table s, upd (dnode_incarn s) n inc)) as E by (subst s1; by rewrite core_adopt).
  assert (dnode_table s1 = dnode_table s /\ dnode_incarn s1 = upd (dnode_incarn s) n inc) as [E1 E2] by (unfold core in E; by injection E).
  clearbody s1. destruct (state_of s n =? st) eqn:Es; cbn [fst]; (eapply learns_core; [apply core_add|]).
  - intros m. unfold state_of in *. rewrite E1, E2. unfold upd. ifs; bools; subst; done.
  - intros m. unfold set_state, state_of in *. cbn [set_dnodes dnode_table dnode_incarn]. rewrite E1, E2. unfold upd. by ifs.
Qed.

(** A rumour is merged into the belief about its subject; nothing else is. *)
Lemma rumor_merges c now src e s n : fresh s -> evt_ok e ->
  let s' := fst (apply_rumor c now src e s) in
  fresh s' /\
  believes s' n = if (g_node e =? n) && negb (n =? drpc_my_node c) && (n <? DNODE_MAX)
                  then believes s n ⊕ carries e else believes s n.
Proof.
  intros Hf [Hst Hinc]. cbn zeta. set (nid := g_node e). set (st := g_state e) in *. set (inc := g_incarnation e) in *.
  assert (forall s1 n1, core s1 = core s -> fresh s1 /\ believes s1 n1 = believes s n1) as Hsame.
  { intros s1 n1 E. split; [|by apply core_eq]. intros m. destruct (core_eq s1 s m E) as (-> & -> & _). apply Hf. }
  assert (forall s1, learns nid st inc s s1 -> fresh s1 /\
    believes s1 n = if nid =? n then Some (inc, state_rank st) else believes s n) as Hlearn.
  { intros s1 Hl. split.
    - intros m. destruct (Hl m) as [-> ->]. destruct (m =? nid); [by right|apply Hf].
    - unfold believes. destruct (Hl n) as [-> ->]. rewrite (Z.eqb_sym n nid). destruct (nid =? n); [|done].
      destruct (st =? DNODE_UNKNOWN) eqn:E; [|done]. unfold known, DNODE_UNKNOWN, DNODE_ALIVE, DNODE_SUSPECT, DNODE_DEAD in *. bools. lia. }
  unfold apply_rumor. fold nid st inc. destruct (nid =? drpc_my_node c) eqn:Eme.
  { replace ((nid =? n) && negb (n =? drpc_my_node c) && (n <? DNODE_MAX)) with false by lia.
    destruct ((st =? DNODE_SUSPECT) || (st =? DNODE_DEAD)); [|done]. apply Hsame, core_refute. }
  destruct (DNODE_MAX <=? nid) eqn:Emax.
  { replace ((nid =? n) && negb (n =? drpc_my_node c) && (n <? DNODE_MAX)) with false by lia. done. }
  replace ((nid =? n) && negb (n =? drpc_my_node c) && (n <? DNODE_MAX)) with (nid =? n) by lia.
  assert (nid = n -> believes s n = believes s nid) as Hn by congruence.
  assert (forall b, (believes s nid ⊕ carries e = b) -> (if nid =? n then believes s n ⊕ carries e else believes s n) =
    if nid =? n then b else believes s n) as Hb.
  { intros b <-. destruct (nid =? n) eqn:E; [|done]. bools. by rewrite E. }
  unfold look. destruct (_ && _) eqn:Enew.
  { bools. destruct (Hlearn _ (discover_learns nid st inc (g_capability e) s)) as [H1 H2]. split; [done|].
    rewrite H2. symmetry. apply Hb. unfold believes. by rewrite (proj2 (Z.eqb_eq _ _) H). }
  destruct (gossip_supersedes _ _ _ _) eqn:Es; rewrite supersedes_newer in Es; cbn [negb].
  - destruct (Hlearn _ (accept_learns nid st inc (g_capability e) (state_of s nid) s eq_refl)) as [H1 H2]. split; [done|].
    rewrite H2. symmetry. apply Hb. unfold believes, carries. fold st inc.
    destruct (state_of s nid =? DNODE_UNKNOWN); [done|]. unfold join, belief_join. by rewrite Es.
  - assert (believes s nid ⊕ carries e = believes s nid) as Hold.
    { unfold believes, carries. destruct (state_of s nid =? DNODE_UNKNOWN) eqn:Eu; [|unfold join, belief_join; fold st inc; by rewrite Es].
      exfalso. bools. destruct (Hf nid) as [[_ Hi]|Hk]; [|unfold known, DNODE_UNKNOWN, DNODE_ALIVE, DNODE_SUSPECT, DNODE_DEAD in *; lia].
      cbn [andb] in Enew. unfold newer, state_rank in Es. cbn [fst snd] in Es. rewrite Eu, Hi in Es.
      destruct Hst as [-> | [-> | ->]]; cbn in Enew, Es; try done. unfold is_u8 in Hinc. lia. }
    rewrite (Hb _ Hold). assert (forall s1, core s1 = core s -> fresh s1 /\ believes s1 n = if nid =? n then believes s nid else believes s n) as Hk.
    { intros s1 E. destruct (Hsame s1 n E) as [H1 ->]. split; [done|]. destruct (nid =? n) eqn:En; [|done]. bools. by rewrite En. }
    destruct ((src =? nid) && negb (src =? PK_NODE_NONE) && (inc =? dnode_incarn s nid)); apply Hk; [apply core_v2cap|done].
Qed.

(** ** Runs of rumours *)

Lemma steps_cons f l s : fst (steps (f :: l) s) = fst (steps l (fst (f s))).
Proof. done. Qed.

Lemma steps_app l k s : fst (steps (l ++ k) s) = fst (steps k (fst (steps l s))).
Proof. revert s. induction l as [|f l IH]; intros s; [done|]. cbn [app]. by rewrite !steps_cons, IH. Qed.

(** The gossip of packets, each heard at some time. *)
Definition hear (c : config) (l : list (Z * SWIM_PKT)) : step := steps (map (fun x => gossip_apply c (fst x) (snd x)) l).

(** The rumours about [n] in them. *)
Definition about (n : Z) (es : list SWIM_GOSSIP_EVT) : list SWIM_GOSSIP_EVT := List.filter (fun e => g_node e =? n) es.
Definition heard_about (n : Z) (l : list (Z * SWIM_PKT)) : list SWIM_GOSSIP_EVT := about n (concat (map (fun x => rumors (snd x)) l)).

Lemma rumors_merge c now src es s n : fresh s -> Forall evt_ok es -> 0 <= n < DNODE_MAX -> n <> drpc_my_node c ->
  let s' := fst (steps (map (apply_rumor c now src) es) s) in
  fresh s' /\ believes s' n = joins (believes s n) (map carries (about n es)).
Proof.
  intros Hf He Hn Hme. revert s Hf. induction He as [|e es He _ IH]; intros s Hf; [done|].
  cbn [map]. rewrite steps_cons. destruct (rumor_merges c now src e s n Hf He) as [H1 H2].
  destruct (IH _ H1) as [I1 I2]. split; [done|]. rewrite I2, H2.
  replace ((g_node e =? n) && negb (n =? drpc_my_node c) && (n <? DNODE_MAX)) with (g_node e =? n) by lia.
  unfold about. cbn [List.filter]. by destruct (g_node e =? n).
Qed.

Lemma hear_merges c l s n : fresh s -> Forall (fun x => Forall evt_ok (rumors (snd x))) l -> 0 <= n < DNODE_MAX -> n <> drpc_my_node c ->
  let s' := fst (hear c l s) in
  fresh s' /\ believes s' n = joins (believes s n) (map carries (heard_about n l)).
Proof.
  intros Hf Hl Hn Hme. revert s Hf. induction Hl as [|[now p] l Hp _ IH]; intros s Hf; [done|].
  unfold hear. cbn [map]. rewrite steps_cons. cbn [fst snd]. destruct (rumors_merge c now (src_node p) _ s n Hf Hp Hn Hme) as [H1 H2].
  destruct (IH _ H1) as [I1 I2]. split; [exact I1|]. etrans; [exact I2|]. rewrite H2.
  unfold heard_about, about. cbn [map concat snd]. rewrite List.filter_app, map_app. unfold joins. by rewrite fold_left_app.
Qed.

Lemma believes_state s s' n : fresh s -> fresh s' -> believes s n = believes s' n -> state_of s n = state_of s' n.
Proof.
  intros Hf Hf'. unfold believes. destruct (state_of s n =? DNODE_UNKNOWN) eqn:E, (state_of s' n =? DNODE_UNKNOWN) eqn:E'; bools; try done; [congruence|].
  intros [= _ Hr]. destruct (Hf n) as [[? _]|Hk]; [done|]. destruct (Hf' n) as [[? _]|Hk']; [done|]. by apply known_rank.
Qed.

Lemma fresh_swim0 : fresh swim0.
Proof. intros n. by left. Qed.

(** C7: gossip converges. Two nodes that held the same belief about a peer and
    heard the same set of rumours about it, in any order, grouped into packets
    in any way and repeated any number of times, with any other rumours in
    between, hold the same state of it; and no rumour they heard is newer than
    what they hold. *)
Theorem gossip_converges c c' l l' s s' n (Hn : 0 <= n < DNODE_MAX)
    (Hme : n <> drpc_my_node c) (Hme' : n <> drpc_my_node c') (Hf : fresh s) (Hf' : fresh s')
    (Hl : Forall (fun x => Forall evt_ok (rumors (snd x))) l) (Hl' : Forall (fun x => Forall evt_ok (rumors (snd x))) l')
    (Hsame : believes s n = believes s' n)
    (Hset : forall e, (e ∈ heard_about n l) <-> (e ∈ heard_about n l')) :
  let t := fst (hear c l s) in let t' := fst (hear c' l' s') in
  state_of t n = state_of t' n /\ believes t n = believes t' n /\
  Forall (fun e => gossip_supersedes (g_incarnation e) (g_state e) (dnode_incarn t n) (state_of t n) = false) (heard_about n l).
Proof.
  intros t t'. destruct (hear_merges c l s n Hf Hl Hn Hme) as [F E], (hear_merges c' l' s' n Hf' Hl' Hn Hme') as [F' E'].
  fold t in F, E. fold t' in F', E'.
  assert (believes t n = believes t' n) as Eb.
  { rewrite E, E', Hsame. apply joins_same. intros x. rewrite !list_elem_of_fmap.
    split; intros (e & -> & He); exists e; (split; [done|]); by apply Hset. }
  split; [by apply believes_state|]. split; [done|]. apply list.Forall_forall. intros e He.
  assert (carries e ⊴ believes t n) as Hb.
  { pose proof (proj1 (joins_below (believes s n) (map carries (heard_about n l)) (believes t n))) as H. rewrite <- E in H.
    destruct (H (reflexivity _)) as [_ Hall]. rewrite list.Forall_forall in Hall. apply Hall, list_elem_of_fmap. by exists e. }
  rewrite supersedes_newer. unfold below, carries, believes in Hb. destruct (state_of t n =? DNODE_UNKNOWN); [done|].
  unfold join, belief_join in Hb. unfold newer in *. cbn [fst snd] in *. split_ifs Hb; [lia|injection Hb as Hi Hr; lia].
Qed.

(** Two rumours about node 1 in one packet, and the same two in two packets the
    other way round with a repetition. *)
Definition old_dead : SWIM_GOSSIP_EVT := Evt 1 DNODE_DEAD 3 0.
Definition new_alive : SWIM_GOSSIP_EVT := Evt 1 DNODE_ALIVE 4 1.
Definition pkt_of (es : list SWIM_GOSSIP_EVT) : SWIM_PKT := Pkt SWIM_MAGIC SWIM_VERSION SWIM_ACK 0 2 2 (lenz es) es.
Definition node_cfg (n : Z) : config := Config n 2 3 false false 0 0.

Example gossip_converges_witness :
  state_of (fst (hear (node_cfg 0) [(0, pkt_of [old_dead; new_alive])] swim0)) 1 =
  state_of (fst (hear (node_cfg 5) [(7, pkt_of [new_alive]); (9, pkt_of [old_dead; new_alive])] swim0)) 1.
Proof.
  assert (forall x, (x ∈ [old_dead; new_alive]) <-> (x ∈ [new_alive; old_dead; new_alive])) as Hset
    by (intros x; rewrite !elem_of_cons, elem_of_nil; tauto).
  apply (gossip_converges (node_cfg 0) (node_cfg 5) _ _ swim0 swim0 1);
    [done..|apply fresh_swim0|apply fresh_swim0| | |done|exact Hset]; apply (bool_decide_unpack _); vm_compute; exact I.
Defined.
