(* ===== verification/SwimRun.v ===== *)
(** * Every run of the membership service

    The invariant of one node, for any packets that carry rumours with real
    states, at any times: a small queue without repetitions, incarnations of one
    byte, a sound table of wide ids, an own row that is never touched. What the
    node sends carries real states again, so the assumption on the packets holds
    in a fleet of such nodes. *)

From stdpp Require Import list.
#[local] Open Scope Z_scope.
From S2P Require Import Prelude.
From S2P Require Import Node.
From S2P Require Import Nodemap.
From S2P Require Import Swim.
From S2P Require Import SwimWide.
From S2P Require Import SwimNode.
From S2P Require Import SwimFacts.

Create HintDb swim.

(** ** The queue *)

Definition entry_ok (e : GOSSIP_QUEUED) : Prop := known (q_state e) /\ is_u8 (q_incarnation e) /\ 1 <= remaining e <= GOSSIP_TTL.
Definition queue_ok (q : list GOSSIP_QUEUED) : Prop := lenz q <= GOSSIP_Q_MAX /\ NoDup (map q_node q) /\ Forall entry_ok q.

Lemma gq_replace_spec e q :
  match gq_replace e q with
  | Some q' => map q_node q' = map q_node q /\ (Forall entry_ok q -> entry_ok e -> Forall entry_ok q') /\ (e ∈ q')
  | None => ~ (q_node e ∈ map q_node q)
  end.
Proof.
  induction q as [|x q IH]; cbn [gq_replace]; [by apply not_elem_of_nil|].
  destruct (q_node x =? q_node e) eqn:E; bools.
  - split_and!; [cbn; by rewrite E|by intros [_ H]%list.Forall_cons He; constructor|left].
  - destruct (gq_replace e q) as [q'|]; cbn [option_bind mbind] in *.
    + destruct IH as (H1 & H2 & H3). split_and!; [cbn; by rewrite H1| |by right].
      intros [Hx Hq]%list.Forall_cons He. constructor; [done|by apply H2].
    + cbn [map]. rewrite elem_of_cons. intros [Heq|Hin]; [congruence|done].
Qed.

Lemma gq_min_range q i min_i m : 0 <= min_i < i -> 0 <= gq_min q i min_i m < i + lenz q.
Proof.
  revert i min_i m. induction q as [|x q IH]; intros i min_i m H; unfold lenz in *; cbn [gq_min length]; [lia|].
  destruct (_ <? _); [specialize (IH (i + 1) i x ltac:(lia))|specialize (IH (i + 1) min_i m ltac:(lia))]; lia.
Qed.

Lemma NoDup_replace (l : list Z) k x : NoDup l -> ~ (x ∈ l) -> NoDup (<[k := x]> l).
Proof.
  rewrite !NoDup_alt. intros Hl Hx i j y Hi Hj.
  apply list_lookup_insert_Some in Hi as [(-> & <- & _)|[Ni Hi]], Hj as [(-> & Ej & _)|[Nj Hj]]; [done| | |by apply (Hl i j y)].
  - destruct Hx. by apply (list_elem_of_lookup_2 l j).
  - subst y. destruct Hx. by apply (list_elem_of_lookup_2 l i).
Qed.

Lemma insert_ok e q : entry_ok e -> queue_ok q -> queue_ok (gossip_insert e q) /\ (e ∈ gossip_insert e q).
Proof.
  intros He (H1 & H2 & H3). unfold gossip_insert. pose proof (gq_replace_spec e q) as Hr.
  destruct (gq_replace e q) as [q'|].
  - destruct Hr as (R1 & R2 & R3). split; [|done]. split_and!; [|by rewrite R1|by apply R2].
    apply (f_equal length) in R1. rewrite !length_map in R1. unfold lenz in *. lia.
  - dif E; bools.
    + split; [|apply elem_of_app; right; by left]. split_and!.
      * unfold lenz, GOSSIP_Q_MAX in *. rewrite length_app. cbn. lia.
      * rewrite map_app. apply list.NoDup_app. split_and!; [done| |apply NoDup_singleton].
        intros x Hx Hx'. apply list_elem_of_singleton in Hx' as ->. done.
      * apply list.Forall_app. split; [done|by apply list.Forall_singleton].
    + destruct q as [|x q]; [done|]. pose proof (gq_min_range q 1 0 x ltac:(lia)) as Hm.
      set (k := gq_min q 1 0 x) in *. rewrite <- (Z2Nat.id k) by lia. rewrite setz_nat.
      assert (Z.to_nat k < length (x :: q))%nat as Hlt by (unfold lenz in Hm; cbn [length]; lia).
      split; [|apply list_elem_of_lookup; exists (Z.to_nat k); by rewrite list_lookup_insert_eq].
      split_and!; [unfold lenz in *; by rewrite length_insert| |by apply Forall_insert].
      rewrite list_fmap_insert. by apply NoDup_replace.
Qed.

Definition dec (x : GOSSIP_QUEUED) : GOSSIP_QUEUED :=
  Queued (q_node x) (q_state x) (q_incarnation x) (u8 (remaining x - 1)) (q_capability x).
Definition evt_of (x : GOSSIP_QUEUED) : SWIM_GOSSIP_EVT :=
  Evt (pk_node_v1 (q_node x)) (q_state x) (q_incarnation x) (q_capability x).

(** Every entry of a good queue is live, so a packet takes its first entries. *)
Lemma gq_take_spec room q : Forall entry_ok q ->
  gq_take room q = (map evt_of (take room q), map dec (take room q) ++ drop room q).
Proof.
  revert q. induction room as [|k IH]; intros q Hq; [by destruct q|]. destruct Hq as [|x q Hx Hq]; [done|].
  cbn [gq_take take drop map app]. destruct Hx as (_ & _ & Hr). rewrite (proj2 (Z.eqb_neq _ _)) by lia. by rewrite IH.
Qed.

Lemma compact_ok q : lenz q <= GOSSIP_Q_MAX -> NoDup (map q_node q) ->
  Forall (fun x => known (q_state x) /\ is_u8 (q_incarnation x) /\ 0 <= remaining x <= GOSSIP_TTL) q -> queue_ok (gq_compact q).
Proof.
  intros H1 H2 H3. unfold gq_compact. split_and!.
  - unfold lenz in *. pose proof (List.filter_length_le (fun x => 0 <? remaining x) q). lia.
  - clear H1 H3. induction q as [|x q IH]; [constructor|]. cbn [map] in H2. apply list.NoDup_cons in H2 as [Hx Hq]. cbn [List.filter].
    destruct (0 <? remaining x); [|by apply IH]. cbn [map]. constructor; [|by apply IH]. intros Hin. apply Hx.
    apply list_elem_of_fmap in Hin as (y & -> & Hy). apply list_elem_of_fmap. exists y. split; [done|].
    rewrite list_elem_of_In in *. by apply List.filter_In in Hy as [? _].
  - induction H3 as [|x q (S1 & S2 & S3) _ IH]; [constructor|]. cbn [List.filter]. destruct (0 <? remaining x) eqn:E; bools.
    + constructor; [split_and!; (done || lia)|]. apply IH; [unfold lenz in *; cbn [length] in *; lia|].
      cbn [map] in H2. by apply list.NoDup_cons in H2 as [_ ?].
    + apply IH; [unfold lenz in *; cbn [length] in *; lia|]. cbn [map] in H2. by apply list.NoDup_cons in H2 as [_ ?].
Qed.

Lemma fill_queue_ok q : queue_ok q -> queue_ok (gq_compact (snd (gq_take 3 q))).
Proof.
  intros (H1 & H2 & H3). rewrite gq_take_spec by done. cbn [snd]. apply compact_ok.
  - unfold lenz in *. rewrite length_app, length_map, length_drop, length_take. lia.
  - rewrite map_app, map_map. change (map (fun x => q_node (dec x)) (take 3 q)) with (map q_node (take 3 q)).
    rewrite <- map_app, take_drop. done.
  - apply list.Forall_app. split.
    + apply list.Forall_forall. intros y Hy. apply list_elem_of_fmap in Hy as (x & -> & Hx).
      rewrite list.Forall_forall in H3. destruct (H3 x) as (S1 & S2 & S3); [apply elem_of_take in Hx as (i & Hi & _); by apply list_elem_of_lookup_2 in Hi|].
      cbn. unfold GOSSIP_TTL, u8 in *. rewrite Z.mod_small by lia. split_and!; (done || lia).
    + eapply list.Forall_impl; [apply Forall_drop, H3|]. intros x (S1 & S2 & S3). split_and!; (done || lia).
Qed.

(** ** Packets *)

Definition version_of (d : list Z) : Z := getz d 4 0.

(** A packet the service sends: a version 1 packet that carries real states, or
    one of version 2. *)
Definition sent_ok (e : effect) : Prop :=
  match e with
  | Sent _ d =>
      (lenz d = sizeof_SWIM_PKT /\ version_of d = SWIM_VERSION /\ Forall evt_ok (rumors (swim_view d))) \/
      (lenz d = sizeof_SWIM2_PKT /\ version_of d = SWIM2_VERSION)
  | _ => True
  end.

Lemma bytes_view p : lenz (gossip p) <= SWIM_GOSSIP_MAX -> gossip_cnt p = lenz (gossip p) ->
  rumors (swim_view (swim_bytes p)) = gossip p.
Proof.
  destruct p as [mg vr ty sq sn pt cnt gs]. unfold lenz. cbn [gossip gossip_cnt]. intros Hg ->.
  unfold rumors, SWIM_GOSSIP_MAX in *.
  destruct gs as [|[a1 a2 a3 a4] [|[b1 b2 b3 b4] [|[c1 c2 c3 c4] [|e gs]]]]; [reflexivity..|cbn [length] in Hg; lia].
Qed.

Lemma bytes_len p : lenz (swim_bytes p) = sizeof_SWIM_PKT.
Proof. reflexivity. Qed.

(** ** The invariant of a node *)

(** The table of wide ids is sound, and its ids are wide. *)
Definition map_ok (m : NODEMAP) : Prop := nm_ok m /\ forall k id, at_slot m k id -> PK_NODE_IS_WIDE id = true.

Record swim_ok (c : config) (s : swim) : Prop := {
  so_queue : queue_ok (gq s);
  so_fresh : fresh s;
  so_incs : forall n, is_u8 (dnode_incarn s n);
  so_mine : is_u8 (my_incarnation s);
  so_map : map_ok (wide_map (wide s));
  so_target : ph (prb s) <> Delay -> 0 <= probe_waiting_node (prb s) < DNODE_MAX /\ probe_waiting_node (prb s) <> drpc_my_node c }.

(** What the invariant reads. *)
Definition same (s s' : swim) : Prop :=
  gq s' = gq s /\ dnode_table s' = dnode_table s /\ dnode_incarn s' = dnode_incarn s /\ my_incarnation s' = my_incarnation s /\
  wide_map (wide s') = wide_map (wide s) /\ ph (prb s') = ph (prb s) /\ probe_waiting_node (prb s') = probe_waiting_node (prb s).

#[export] Instance same_preorder : PreOrder same.
Proof. split; [by intros s; split_and!|]. intros a b d (?&?&?&?&?&?&?) (?&?&?&?&?&?&?). split_and!; congruence. Qed.

Lemma same_ok c s s' : same s s' -> swim_ok c s -> swim_ok c s'.
Proof.
  intros (E1 & E2 & E3 & E4 & E5 & E6 & E7) [S1 S2 S3 S4 S5 S6]. split; rewrite ?E1, ?E3, ?E4, ?E5, ?E6, ?E7; try done.
  intros n. unfold state_of. rewrite E2, E3. apply S2.
Qed.

(** [good c f s]: from [s] the step [f] keeps the invariant and the own row, and
    sends proper packets. *)
Definition good (c : config) (f : step) (s : swim) : Prop :=
  swim_ok c s -> swim_ok c (fst (f s)) /\ Forall sent_ok (snd (f s)) /\ dnode_table (fst (f s)) (drpc_my_node c) = dnode_table s (drpc_my_node c).

Section good.
Context (c : config).

Lemma good_skip s : good c skip s.
Proof. by intros Hs. Qed.

Lemma good_seq f g s : good c f s -> (swim_ok c (fst (f s)) -> good c g (fst (f s))) -> good c (f ;; g) s.
Proof.
  intros Hf Hg Hs. destruct (Hf Hs) as (F1 & F2 & F3). destruct (Hg F1 F1) as (G1 & G2 & G3). unfold andthen. cbn [fst snd].
  split_and!; [done|by apply list.Forall_app|congruence].
Qed.

Lemma good_with f s : (swim_ok c s -> good c f s) -> good c f s.
Proof. intros Hf Hs. by apply Hf. Qed.

Lemma good_seq_all f g s : good c f s -> (forall s', good c g s') -> good c (f ;; g) s.
Proof. intros Hf Hg. apply good_seq; [done|]. intros _. apply Hg. Qed.

Lemma good_look f s : good c (f s) s -> good c (look f) s.
Proof. done. Qed.

Lemma good_emit e s : sent_ok e -> good c (emit e) s.
Proof. intros He Hs. split_and!; [done|by apply list.Forall_singleton|done]. Qed.

Lemma good_same f s : same s (f s) -> good c (modify f) s.
Proof. intros Hf Hs. split_and!; [by apply (same_ok c s)|constructor|]. cbn [modify fst]. destruct Hf as (_ & -> & _). done. Qed.

Lemma good_modify f s : (swim_ok c s -> swim_ok c (f s) /\ dnode_table (f s) (drpc_my_node c) = dnode_table s (drpc_my_node c)) -> good c (modify f) s.
Proof. intros Hf Hs. destruct (Hf Hs). by split_and!. Qed.

Lemma good_steps l s : (forall f, (f ∈ l) -> forall s, good c f s) -> good c (steps l) s.
Proof.
  revert s. induction l as [|f l IH]; intros s Hl; [apply good_skip|]. cbn [steps].
  apply good_seq; [apply Hl; left|]. intros _. apply IH. intros g Hg. apply Hl. by right.
Qed.

Lemma add_ok n st inc cap s : known st -> is_u8 inc -> swim_ok c s -> swim_ok c (gossip_add n st inc cap s).
Proof.
  intros Hst Hinc [S1 S2 S3 S4 S5 S6]. split; try done. cbn [gossip_add gq set_gq].
  apply insert_ok; [|done]. unfold entry_ok, GOSSIP_TTL. cbn. split_and!; (done || lia).
Qed.

Lemma good_add n st inc cap s : known st -> is_u8 inc -> good c (modify (gossip_add n st inc cap)) s.
Proof. intros Hst Hinc. apply good_modify. intros Hs. split; [by apply add_ok|done]. Qed.

Lemma good_relay n st inc s : known st -> is_u8 inc -> good c (relay n st inc) s.
Proof. intros Hst Hinc. apply good_modify. intros Hs. split; [by apply add_ok|done]. Qed.

Lemma good_send dst ty sq src tgt s : good c (swim_send dst (packet ty sq src tgt)) s.
Proof.
  intros [S1 S2 S3 S4 S5 S6]. unfold swim_send, gossip_fill. cbn [fst snd]. split_and!; [|apply list.Forall_singleton|done].
  - split; try done. cbn [set_gq gq]. by apply fill_queue_ok.
  - left. split; [apply bytes_len|]. split; [reflexivity|]. destruct S1 as (_ & _ & He).
    assert (lenz (fst (gq_take 3 (gq s))) <= 3 /\ Forall evt_ok (fst (gq_take 3 (gq s)))) as [Hlen Hev].
    { rewrite gq_take_spec by done. cbn [fst]. split; [unfold lenz; rewrite length_map, length_take; lia|].
      apply list.Forall_forall. intros e Hin. apply list_elem_of_fmap in Hin as (x & -> & Hx). rewrite list.Forall_forall in He.
      apply elem_of_take in Hx as (i & Hi & _). apply list_elem_of_lookup_2 in Hi. destruct (He x Hi) as (? & ? & _). done. }
    change (Z.to_nat SWIM_GOSSIP_MAX) with 3%nat. rewrite bytes_view; done.
Qed.

(** A new state for a peer. *)
Lemma state_ok n d inc s : n <> drpc_my_node c -> known (d_state d) -> is_u8 inc -> swim_ok c s ->
  swim_ok c (set_incarns (upd (dnode_incarn s) n inc) (set_dnodes (upd (dnode_table s) n d) s)).
Proof.
  intros Hn Hd Hinc [S1 S2 S3 S4 S5 S6]. split; try done; cbn [set_incarns set_dnodes dnode_table dnode_incarn].
  - intros m. unfold state_of, upd. cbn [set_incarns set_dnodes dnode_table dnode_incarn]. destruct (m =? n); [by right|apply S2].
  - intros m. unfold upd. by destruct (m =? n).
Qed.

Lemma row_ok n d s : n <> drpc_my_node c -> known (d_state d) -> swim_ok c s -> swim_ok c (set_dnodes (upd (dnode_table s) n d) s).
Proof.
  intros Hn Hd [S1 S2 S3 S4 S5 S6]. split; try done.
  intros m. unfold state_of, upd. cbn [set_dnodes dnode_table dnode_incarn]. destruct (m =? n); [by right|apply S2].
Qed.

Lemma same_adopt n cap s : same s (adopt_caps n cap s).
Proof. unfold adopt_caps, v2cap_set. ifs; by split_and!. Qed.
Lemma same_v2cap n b s : same s (v2cap_set n b s).
Proof. unfold v2cap_set. ifs; by split_and!. Qed.
Lemma same_self s : same s (SELF_APPLY_OWN_CAPABILITY c s).
Proof. unfold SELF_APPLY_OWN_CAPABILITY. ifs; by split_and!. Qed.
Lemma same_init s : same s (region_super_init c s).
Proof. unfold region_super_init. ifs; by split_and!. Qed.
Lemma same_rtt n x s : same s (rtt_observe n x s).
Proof. unfold rtt_observe. ifs; by split_and!. Qed.

Lemma known_alive : known DNODE_ALIVE. Proof. by left. Qed.
Lemma known_suspect : known DNODE_SUSPECT. Proof. right; by left. Qed.
Lemma known_dead : known DNODE_DEAD. Proof. by right; right. Qed.
End good.

#[export] Hint Resolve known_alive known_suspect known_dead u8_range : swim.

(** ** The handlers keep it *)

Section handlers.
Context (c : config).
Implicit Types s : swim.

Ltac seq1 := apply good_seq; [|intros ?].
Ltac seqa := apply good_seq_all; [|intros ?].
Ltac look1 := apply good_look; cbv beta zeta.

Lemma good_refute now inc s : good c (refute c now inc) s.
Proof.
  unfold refute. seq1.
  { look1. seq1; [by apply good_same; split_and!|].
    destruct (fst (self_scatter_due now (scatter s))); [by apply good_emit|apply good_skip]. }
  seq1; [apply good_modify; intros [S1 S2 S3 S4 S5 S6]; split; [by split; try done; apply u8_range|done]|].
  seq1; [apply good_modify; intros Hs; split; [|done]; apply add_ok; [apply known_alive|apply Hs|done]|].
  apply good_same, same_self.
Qed.

Lemma good_discover n st inc cap s : n <> drpc_my_node c -> known st -> is_u8 inc -> good c (discover n st inc cap) s.
Proof.
  intros Hn Hst Hinc. unfold discover. seq1.
  - apply good_modify. intros Hs. split; [|cbn; by rewrite upd_ne].
    apply (same_ok c (set_incarns (upd (dnode_incarn s) n inc) (set_dnodes (upd (dnode_table s) n (Dnode n (pk_node_ip n) st 0)) s))); [done|].
    by apply state_ok.
  - seq1; [apply good_same, same_adopt|]. seq1; [by apply good_emit|]. seq1; [by apply good_relay|]. seq1; by apply good_emit.
Qed.

Lemma good_accept n st inc cap s : n <> drpc_my_node c -> known st -> is_u8 inc -> state_of s n <> DNODE_UNKNOWN \/ st <> DNODE_ALIVE ->
  good c (accept n st inc cap (state_of s n)) s.
Proof.
  intros Hn Hst Hinc Hun. set (s1 := adopt_caps n cap (set_incarns (upd (dnode_incarn s) n inc) s)).
  assert (dnode_table s1 = dnode_table s) as Et by (destruct (same_adopt n cap (set_incarns (upd (dnode_incarn s) n inc) s)) as (_ & Ht & _); exact Ht).
  assert (forall d, known (d_state d) -> swim_ok c s -> swim_ok c (set_dnodes (upd (dnode_table s1) n d) s1)) as Hrow.
  { intros d Hd Hs. apply (same_ok c (set_incarns (upd (dnode_incarn s) n inc) (set_dnodes (upd (dnode_table s) n d) s))); [|by apply state_ok].
    rewrite Et. by destruct (same_adopt n cap (set_incarns (upd (dnode_incarn s) n inc) s)) as (? & ? & ? & ? & ? & ? & ?). }
  intros Hs. unfold accept. cbn [andthen modify fst snd app]. fold s1. destruct (state_of s n =? st) eqn:E; bools.
  - assert (swim_ok c s1) as Hs1.
    { assert (swim_ok c (set_dnodes (upd (dnode_table s1) n (dnode_table s1 n)) s1)) as Hx
        by (apply Hrow; [unfold state_of in E; rewrite Et, E|]; done).
      destruct Hx as [X1 X2 X3 X4 X5 X6]. split; try done. intros m. specialize (X2 m). unfold state_of in *. cbn [set_dnodes dnode_table dnode_incarn] in *.
      unfold upd in X2. destruct (m =? n) eqn:Em; bools; [by subst|done]. }
    destruct (good_relay c n st inc s1 Hst Hinc Hs1) as (G1 & G2 & G3). split_and!; [done|done|by rewrite G3, Et].
  - unfold set_state at 1. assert (good c (emit (Noted n (state_of s n) st) ;; relay n st inc ;; emit Degraded ;; emit Dreamed) (set_state n st s1)) as Hg.
    { seq1; [by apply good_emit|]. seq1; [by apply good_relay|]. seq1; by apply good_emit. }
    destruct Hg as (G1 & G2 & G3); [by apply Hrow|]. split_and!; [done|done|]. etrans; [apply G3|]. unfold set_state. cbn [set_dnodes dnode_table].
    by rewrite upd_ne, Et.
Qed.

Lemma good_rumor now src e s : evt_ok e -> good c (apply_rumor c now src e) s.
Proof.
  intros [Hst Hinc]. unfold apply_rumor. destruct (g_node e =? drpc_my_node c) eqn:Eme.
  { destruct (_ || _); [apply good_refute|apply good_skip]. }
  bools. destruct (DNODE_MAX <=? g_node e); [apply good_skip|]. look1.
  destruct ((state_of s (g_node e) =? DNODE_UNKNOWN) && _) eqn:En; [by apply good_discover|].
  destruct (gossip_supersedes _ _ _ _); cbn [negb]; [|dif E; [apply good_same, same_v2cap|apply good_skip]].
  apply good_accept; [done..|]. destruct (Z.eq_dec (state_of s (g_node e)) DNODE_UNKNOWN) as [Eu|]; [|by left]. right. intros Ea.
  rewrite Eu, Ea in En. done.
Qed.

Lemma good_sender ip n s : good c (sender_alive c ip n) s.
Proof.
  unfold sender_alive. destruct (_ && _) eqn:E; [|apply good_skip]. bools. look1.
  seq1.
  - apply good_modify. intros Hs. split; [|cbn; by rewrite upd_ne].
    apply (same_ok c (set_dnodes (upd (dnode_table s) n (Dnode (node_id (dnode_table s n)) ip DNODE_ALIVE 0)) s)); [done|].
    apply row_ok; [done|apply known_alive|done].
  - destruct (_ =? DNODE_ALIVE); [apply good_skip|]. seq1; [by apply good_emit|].
    seq1; [apply good_modify; intros Hs; split; [|done]; apply add_ok; [apply known_alive|apply Hs|done]|]. seq1; by apply good_emit.
Qed.

(** A signal, and what the task does with a wait, leave the target alone. *)
Lemma good_prb f s : (forall p, (ph (f p) = Delay \/ ph p <> Delay) /\ probe_waiting_node (f p) = probe_waiting_node p) -> good c (on_prb f) s.
Proof.
  intros Hf. apply good_modify. intros [S1 S2 S3 S4 S5 S6]. split; [|done]. split; try done. cbn [set_prb prb].
  destruct (Hf (prb s)) as [[E|E] ->]; [by rewrite E|]. intros _. by apply S6.
Qed.

Lemma good_type ip p s : good c (on_type c ip p) s.
Proof.
  unfold on_type. destruct (type p =? SWIM_PING); [apply good_send|]. destruct (type p =? SWIM_ACK).
  { apply good_prb. intros q. destruct (probe_sem q); [|split; [|done]; destruct (decide (ph q = Delay)); auto].
    destruct (_ && _); [|split; [|done]; destruct (decide (ph q = Delay)); auto].
    unfold signal. destruct (ph q) as [|t [|]|[|]] eqn:E; cbn; rewrite ?E; (split; [|done]); first [by left|by right]. }
  destruct (type p =? SWIM_PING_REQ); [|apply good_skip]. destruct (_ || _); [apply good_skip|apply good_send].
Qed.

(** *** Wide ids *)

Lemma admit_map_ok m id : map_ok m -> PK_NODE_IS_WIDE id = true -> map_ok (snd (nodemap_admit m id)).
Proof. intros [Hm Hw] Hid. split; [by apply nm_admit_spec|]. intros k i [->|Hi]%nm_admit_ids; [done|by apply (Hw k)|done]. Qed.

Lemma evict_map_ok m i : map_ok m -> nm_used (nm_at m i) = true -> map_ok (nodemap_evict m i).
Proof.
  intros [Hm Hw] Hu. split; [|intros k id Hat; by apply (Hw k), (nm_evict_ids m i)].
  unfold nm_at, getz in Hu. destruct (i <? 0) eqn:Ei; [done|]. bools.
  destruct (lookup_lt_is_Some_2 (slots m) (Z.to_nat i)) as [x Hx].
  { destruct (decide (Z.to_nat i < length (slots m))%nat) as [|Hge]; [done|]. by rewrite nth_overflow in Hu by lia. }
  apply (nm_evict_spec m i (nm_id x) Hm). exists (Z.to_nat i), x. rewrite nth_lookup, Hx in Hu. cbn in Hu. split_and!; [lia|done..].
Qed.

Lemma make_room_ok n i id k w : map_ok (wide_map w) -> PK_NODE_IS_WIDE id = true -> map_ok (wide_map (snd (make_room n i id k w))).
Proof.
  intros Hw Hid. revert i k w Hw. induction n as [|n IH]; intros i k w Hw; [done|]. cbn [make_room]. destruct (negb _); [done|].
  destruct (_ && _) eqn:E; [|by apply IH]. bools. apply IH. cbn [set_map wide_map]. by apply admit_map_ok; [apply evict_map_ok|].
Qed.

Lemma wide_add_ok id w : map_ok (wide_map w) -> map_ok (wide_map (snd (wide_add id w))).
Proof.
  intros Hw. unfold wide_add. destruct (negb (_ =? NODEMAP_NOSLOT)); [done|]. destruct (PK_NODE_IS_WIDE id) eqn:Hid; [|done]. cbn [negb].
  cbv zeta. pose proof (make_room_ok (Z.to_nat DREGION_MAX) 0 id (fst (nodemap_admit (wide_map w) id)) (set_map (snd (nodemap_admit (wide_map w) id)) w)) as Hr.
  specialize (Hr (admit_map_ok _ id Hw Hid) Hid). revert Hr. generalize (make_room (Z.to_nat DREGION_MAX) 0 id (fst (nodemap_admit (wide_map w) id)) (set_map (snd (nodemap_admit (wide_map w) id)) w)).
  intros [k w'] Hr. cbn [fst snd] in *. by destruct (k =? NODEMAP_NOSLOT).
Qed.

Lemma heard_ok id ip b now w : map_ok (wide_map w) -> map_ok (wide_map (swim_wide_heard id ip b now w)).
Proof.
  intros Hw. unfold swim_wide_heard. destruct (_ || _); [done|]. pose proof (wide_add_ok id w Hw) as Ha.
  destruct (fst (wide_add id w) <? 0); [done|]. destruct b; [done|]. by destruct (_ =? DNODE_UNKNOWN).
Qed.

Lemma good_wide f s : (forall w, map_ok (wide_map w) -> map_ok (wide_map (f w))) -> good c (on_wide f) s.
Proof. intros Hf. apply good_modify. intros [S1 S2 S3 S4 S5 S6]. split; [|done]. split; try done. by apply Hf. Qed.

Lemma good_wide_same f s : (forall w, wide_map (f w) = wide_map w) -> good c (on_wide f) s.
Proof. intros Hf. apply good_wide. intros w. by rewrite Hf. Qed.

Lemma good_send2 ip p s : good c (emit (Sent ip (swim2_bytes p))) s.
Proof. apply good_emit. right. split; reflexivity. Qed.

Lemma good_wide_rx now ip d f s : swim_wide_rx c now ip d = Some f -> good c f s.
Proof.
  unfold swim_wide_rx. destruct (_ || _); [done|]. destruct (lenz d <? sizeof_SWIM2_PKT); intros [= <-]; [by apply good_wide_same|].
  seq1.
  - apply good_wide. intros w Hw. unfold wide_news. apply (fold_left_inv (fun w => map_ok (wide_map w)) (fun _ => True)); [by apply heard_ok|by apply Forall_true|].
    intros w' e Hw' _. destruct (_ =? DNODE_ALIVE); [by apply heard_ok|done].
  - unfold wide_answer. look1. destruct (_ && _); [|apply good_skip]. destruct (_ =? SWIM_PING); [apply good_send2|].
    destruct (_ =? SWIM_ACK); [|apply good_skip]. destruct (_ <? DNODE_MAX).
    + apply good_same. unfold swim_wide_narrow_sample. destruct (_ || _); [done|]. destruct (_ =? _); [|done].
      destruct (_ <? _); [|by split_and!]. etrans; [|apply same_rtt]. by split_and!.
    + apply good_wide_same. intros w. unfold swim_wide_rtt_sample. by ifs.
Qed.

Lemma good_tick now s : good c (swim_wide_tick c now) s.
Proof.
  unfold swim_wide_tick. seq1.
  { apply good_wide. intros w Hw. unfold swim_wide_age. apply (for_up_inv (fun _ w => map_ok (wide_map w))); [done|].
    intros j w' _ Hw'. unfold age_slot. by destruct (_ && _). }
  look1. seq1; [by apply good_wide_same|]. destruct (_ && _); [apply good_skip|]. seq1; [apply good_send2|].
  destruct (_ =? 0xFF); [apply good_skip|]. seq1.
  - unfold swim_wide_ping_next. look1. destruct (fst (rotate _ _ _ _)); [|by apply good_wide_same].
    seq1; [by apply good_wide_same|apply good_send2].
  - destruct (_ =? 0); [apply good_skip|]. unfold swim_wide_ping_narrow. look1. destruct (fst (rotate _ _ _ _)); [|by apply good_wide_same].
    seq1; [by apply good_wide_same|apply good_send2].
Qed.

(** *** The task *)

Lemma rotate_spec n max p cur : 0 < max ->
  match fst (rotate n max p cur) with
  | Some k => 0 <= k < max /\ p k = true
  | None => True
  end.
Proof.
  intros Hm. revert cur. induction n as [|n IH]; intros cur; [done|]. cbn [rotate].
  destruct (p ((cur + 1) mod max)) eqn:E; cbn [fst]; [|apply IH]. split; [by apply Z.mod_pos_bound|done].
Qed.

Lemma pick_spec s : 0 <= fst (pick_probe_target c s) < DNODE_MAX \/ fst (pick_probe_target c s) = drpc_my_node c.
Proof.
  unfold pick_probe_target. pose proof (rotate_spec (Z.to_nat DNODE_MAX) DNODE_MAX
    (fun n => negb (n =? drpc_my_node c) && negb (state_of s n =? DNODE_UNKNOWN)) (probe_cursor (prb s)) ltac:(done)) as H.
  destruct (fst (rotate _ _ _ _)) as [n|]; cbn [fst]; [left; apply H|].
  destruct (List.filter _ _) as [|x l] eqn:E; [by right|left]. cbn [hd].
  assert (List.In x (seqZ 0 DNODE_MAX)) as Hx by (apply (proj1 (List.filter_In (fun n => negb (n =? drpc_my_node c)) x (seqZ 0 DNODE_MAX))); rewrite E; by left).
  apply list_elem_of_In, elem_of_seqZ in Hx. lia.
Qed.

Lemma good_delay s : good c (on_prb (set_phase Delay)) s.
Proof. apply good_prb. intros p. split; [by left|done]. Qed.

Lemma good_wait mk s : (0 <= probe_waiting_node (prb s) < DNODE_MAX /\ probe_waiting_node (prb s) <> drpc_my_node c) ->
  good c (on_prb (wait mk)) s.
Proof.
  intros Ht. apply good_modify. intros [S1 S2 S3 S4 S5 S6]. split; [|done]. split; try done. intros _. cbn [set_prb prb].
  unfold wait. destruct (probe_sem _) as [n|]; [destruct (0 <? n)|]; done.
Qed.

Lemma good_round now s : good c (round_start c now) s.
Proof.
  unfold round_start. seqa; [apply good_tick|]. destruct (drpc_my_node c =? 0xFF); [apply good_skip|].
  seqa; [apply good_same, same_init|].
  seqa; [apply good_modify; intros Hs; split; [|done]; apply add_ok; [apply known_alive|apply Hs|done]|].
  seqa; [apply good_same, same_self|]. seqa; [apply good_send|]. look1.
  match goal with |- context [pick_probe_target c ?s1] => pose proof (pick_spec s1) as Ht; generalize dependent (pick_probe_target c s1) end.
  intros [t cur] Ht. cbn [fst snd] in *. 
  seqa; [apply good_prb; intros p; split; [|done]; destruct (decide (ph p = Delay)); auto|].
  destruct (t =? drpc_my_node c) eqn:Et; [apply good_skip|]. bools. destruct Ht as [Ht|]; [|done]. seq1.
  { apply good_modify. intros [S1 S2 S3 S4 S5 S6]. split; [|done]. by split. }
  seq1; [look1; apply good_send|]. apply good_wait. done.
Qed.

Lemma good_answered t s : t <> drpc_my_node c -> good c (answered t) s.
Proof.
  intros Ht. unfold answered. seq1; [|by apply good_same; split_and!]. look1. destruct (_ =? DNODE_ALIVE); [apply good_skip|].
  seq1; [apply good_modify; intros Hs; split; [by apply row_ok; [|apply known_alive|]|cbn; by rewrite upd_ne]|].
  seq1; [by apply good_emit|].
  seq1; [apply good_modify; intros Hs; split; [|done]; apply add_ok; [apply known_alive|apply Hs|done]|]. by apply good_emit.
Qed.

Lemma good_demote t old new s : t <> drpc_my_node c -> known new -> good c (demote t old new) s.
Proof.
  intros Ht Hn. unfold demote. seq1.
  { apply good_modify. intros Hs. split; [|cbn; by rewrite upd_ne].
    apply (same_ok c (set_dnodes (upd (dnode_table s) t (Dnode (node_id (dnode_table s t)) (d_ip (dnode_table s t)) new 0)) s)); [done|].
    by apply row_ok. }
  seq1; [by apply good_emit|]. apply good_modify. intros Hs. split; [|done]. by apply add_ok; [|apply Hs|].
Qed.

Lemma good_unanswered t s : t <> drpc_my_node c -> good c (unanswered c t) s.
Proof.
  intros Ht. unfold unanswered. seq1; [by apply good_same; split_and!|]. look1. dif E1; [apply good_demote; [done|apply known_suspect]|].
  dif E2; [|apply good_skip]. seq1; [apply good_demote; [done|apply known_dead]|]. seq1; by apply good_emit.
Qed.

Lemma ask_prb t s : prb (fst (ask_helpers c t s)) = prb s.
Proof.
  unfold ask_helpers. change (fst (look ?f s)) with (fst (f s s)). cbv beta.
  generalize (pick_helpers c t s). intros hs. revert s. induction hs as [|h hs IH]; intros s; [done|]. cbn [map]. by rewrite steps_cons, IH.
Qed.

Lemma good_ask t s : good c (ask_helpers c t) s.
Proof.
  unfold ask_helpers. look1. generalize (pick_helpers c t s). intros hs. apply good_steps. intros f Hf s1. apply list_elem_of_fmap in Hf as (h & -> & _). look1. apply good_send.
Qed.

Lemma good_task now s : good c (task_step c now) s.
Proof.
  unfold task_step. look1. destruct (ph (prb s)) as [|t0 [|]|[|]] eqn:Eph; [apply good_round|..];
    (apply good_with; intros Hs; destruct (so_target c s Hs) as [Hr Ht]; [by rewrite Eph|];
     remember (probe_waiting_node (prb s)) as t eqn:Et; seq1; [apply good_delay|]).
  - seqa; [apply good_same, same_rtt|by apply good_answered].
  - seq1; [apply good_ask|]. apply good_wait. rewrite ask_prb.
    change (probe_waiting_node (prb (fst (on_prb (set_phase Delay) s)))) with (probe_waiting_node (prb s)). by rewrite <- Et.
  - by apply good_answered.
  - by apply good_unanswered.
Qed.

(** The rumours of a packet carry real states, if it is a version 1 packet. *)
Definition event_ok (e : event) : Prop :=
  match e with Rx _ _ d => version_of d = SWIM_VERSION -> Forall evt_ok (rumors (swim_view d)) | Run _ => True end.

Lemma good_rx now ip d s : event_ok (Rx now ip d) -> good c (swim_rx c now ip d) s.
Proof.
  intros Hd. unfold swim_rx. destruct (swim_wide_rx c now ip d) as [f|] eqn:Ew; [by apply (good_wide_rx now ip d)|].
  destruct (_ <? _); [apply good_skip|]. dif E; [apply good_skip|]. bools.
  seq1; [|seq1; [apply good_sender|apply good_type]].
  unfold gossip_apply. apply good_steps. intros f Hf s1. apply list_elem_of_fmap in Hf as (e & -> & He).
  apply good_rumor. specialize (Hd ltac:(done)). rewrite list.Forall_forall in Hd. by apply Hd.
Qed.

Lemma good_event e s : event_ok e -> good c (on_event c e) s.
Proof. destruct e; [apply good_rx|intros _; apply good_task]. Qed.

Lemma good_run es s : Forall event_ok es -> good c (run c es) s.
Proof.
  intros He. apply good_steps. intros f Hf s1. apply list_elem_of_fmap in Hf as (e & -> & Hin).
  apply good_event. rewrite list.Forall_forall in He. by apply He.
Qed.
End handlers.

Lemma swim0_ok c : swim_ok c (fst (task_begin swim0)).
Proof.
  split; try done.
  - split_and!; [done|constructor|constructor].
  - by intros n; left.
  - split; [by apply nm_init_ok|]. intros k id (n & x & _ & Hx & Hu & _).
    apply list_elem_of_lookup_2, elem_of_replicate in Hx as [-> _]. done.
Qed.

(** C31: the invariant of the membership service. Whatever packets arrive with
    rumours that carry real states, at whatever times, however they mix with the
    rounds of the task: the gossip queue has at most six entries, one per node,
    each with one to six transmissions left; a peer that was never heard of has
    incarnation 0; the table of wide ids is sound; the probed node is another
    node of the table; the own row is as it was. And every version 1 packet the
    node sent carries real states, so the assumption is kept by its peers. *)
Theorem membership_invariant c es (Hes : Forall event_ok es) :
  let r := run c es (fst (task_begin swim0)) in
  swim_ok c (fst r) /\ Forall sent_ok (snd r) /\ dnode_table (fst r) (drpc_my_node c) = dnode0.
Proof. apply (good_run c es _ Hes (swim0_ok c)). Qed.

(** A rumour from node 1 that node 2 is dead, then two rounds. *)
Definition rumour_packet : list Z := swim_bytes (Pkt SWIM_MAGIC SWIM_VERSION SWIM_ACK 0 1 1 1 [Evt 2 DNODE_DEAD 0 0]).

Example membership_invariant_witness :
  let r := run (node_cfg 0) [Rx 5 7 rumour_packet; Run 1000; Run 1400; Run 1900] (fst (task_begin swim0)) in
  swim_ok (node_cfg 0) (fst r) /\ state_of (fst r) 2 = DNODE_DEAD.
Proof.
  split; [|vm_compute; reflexivity].
  refine (proj1 (membership_invariant (node_cfg 0) _ _)). repeat apply List.Forall_cons; try exact I; [|apply List.Forall_nil].
  intros _. apply (bool_decide_unpack _). vm_compute. exact I.
Defined.
