(* ===== verification/SwimDetect.v ===== *)
(** * Detection of silent peers, and refutation

    A peer that stops answering is declared dead after a bounded number of
    rounds, whichever peers there are. A node that is called suspect or dead
    answers with a rumour that wins, unless its incarnation is the last of the
    byte. The examples at the end show what the probing gets wrong. *)

From stdpp Require Import list.
#[local] Open Scope Z_scope.
From S2P Require Import Prelude.
From S2P Require Import Node.
From S2P Require Import Nodemap.
From S2P Require Import Semilattice.
From S2P Require Import Swim.
From S2P Require Import SwimWide.
From S2P Require Import SwimNode.
From S2P Require Import SwimFacts.
From S2P Require Import SwimRun.

(** ** Round robin *)

(** How many steps of the cursor lead from [cur] to [n]. *)
Definition dist (cur n : Z) : Z := (n - cur - 1) mod DNODE_MAX + 1.

Lemma dist_range cur n : 1 <= dist cur n <= DNODE_MAX.
Proof. unfold dist. pose proof (Z.mod_pos_bound (n - cur - 1) DNODE_MAX ltac:(done)). lia. Qed.

Lemma dist_next cur n : 0 <= n < DNODE_MAX -> (cur + 1) mod DNODE_MAX <> n ->
  dist ((cur + 1) mod DNODE_MAX) n = dist cur n - 1.
Proof.
  intros Hn Hne. unfold dist, DNODE_MAX in *.
  assert ((n - cur - 1) mod 64 <> 0) as H0.
  { intros H. apply Hne. apply Z.mod_divide in H as [k Hk]; [|done].
    replace (cur + 1) with (n + (- k) * 64) by lia. rewrite Z.mod_add by done. by apply Z.mod_small. }
  replace ((n - (cur + 1) mod 64 - 1) mod 64) with ((n - cur - 1 - 1) mod 64).
  - rewrite (Z.mod_eq (n - cur - 1 - 1)), (Z.mod_eq (n - cur - 1)) by done.
    pose proof (Z.mod_pos_bound (n - cur - 1) 64 ltac:(done)) as Hb. rewrite Z.mod_eq in Hb, H0 by done.
    enough ((n - cur - 1 - 1) / 64 = (n - cur - 1) / 64) by lia.
    symmetry. apply Z.div_unique with (r := n - cur - 1 - 64 * ((n - cur - 1) / 64) - 1); lia.
  - rewrite (Z.mod_eq (cur + 1)) by done.
    replace (n - (cur + 1 - 64 * ((cur + 1) / 64)) - 1) with (n - cur - 1 - 1 + ((cur + 1) / 64) * 64) by lia. by rewrite Z.mod_add.
Qed.

(** The search stops at [n] or earlier, and then [n] is nearer. *)
Lemma rotate_nearer fuel p cur n : 0 <= n < DNODE_MAX -> p n = true -> dist cur n <= Z.of_nat fuel ->
  exists m, rotate fuel DNODE_MAX p cur = (Some m, m) /\ 0 <= m < DNODE_MAX /\ p m = true /\ (m <> n -> dist m n < dist cur n).
Proof.
  intros Hn Hp. revert cur. induction fuel as [|k IH]; intros cur Hd; [pose proof (dist_range cur n); lia|].
  cbn [rotate]. set (cur' := (cur + 1) mod DNODE_MAX).
  pose proof (Z.mod_pos_bound (cur + 1) DNODE_MAX ltac:(done)) as Hc. fold cur' in Hc.
  destruct (p cur') eqn:E.
  - exists cur'. split_and!; [done|lia|lia|done|]. intros Hne. pose proof (dist_next cur n Hn Hne) as Hdn. fold cur' in Hdn. lia.
  - assert (cur' <> n) as Hne by congruence. pose proof (dist_next cur n Hn Hne) as Hdn. fold cur' in Hdn.
    destruct (IH cur' ltac:(lia)) as (m & H1 & H2 & H3 & H4). exists m. split_and!; [done|lia|lia|done|]. intros Hm. specialize (H4 Hm). lia.
Qed.

(** ** What a step leaves of a verdict *)

(** What the verdicts are read from. *)
Definition calm (s s' : swim) : Prop :=
  dnode_table s' = dnode_table s /\ suspect_count s' = suspect_count s /\ prb s' = prb s /\ dnode_incarn s' = dnode_incarn s.

#[export] Instance calm_preorder : PreOrder calm.
Proof. split; [by intros s|]. intros a b d (?&?&?&?) (?&?&?&?). split_and!; congruence. Qed.

Definition calms (f : step) : Prop := forall s, calm s (fst (f s)).

Lemma calms_seq f g : calms f -> calms g -> calms (f ;; g).
Proof. intros Hf Hg s. etrans; [apply Hf|apply Hg]. Qed.
Lemma calms_look f : (forall s, calms (f s)) -> calms (look f).
Proof. intros Hf s. apply Hf. Qed.
Lemma calms_wide f : calms (on_wide f).
Proof. done. Qed.
Lemma calms_emit e : calms (emit e).
Proof. done. Qed.
Lemma calms_send dst p : calms (swim_send dst p).
Proof. done. Qed.
#[local] Hint Resolve calms_seq calms_look calms_wide calms_emit calms_send : swim.

Lemma calms_tick c now : calms (swim_wide_tick c now).
Proof.
  unfold swim_wide_tick. apply calms_seq; [done|]. apply calms_look. intros s. cbv zeta. apply calms_seq; [done|].
  destruct (_ && _); [done|]. apply calms_seq; [done|]. destruct (_ =? 0xFF); [done|].
  assert (forall me, calms (swim_wide_ping_next now me) /\ calms (swim_wide_ping_narrow now me)) as H.
  { intros me. split; apply calms_look; intros s1; cbv zeta; destruct (fst (rotate _ _ _ _)); try done; by apply calms_seq. }
  apply calms_seq; [apply H|]. destruct (_ =? 0); [done|apply H].
Qed.

Lemma calm_init c s : calm s (region_super_init c s).
Proof. unfold region_super_init. by ifs. Qed.
Lemma calm_self c s : calm s (SELF_APPLY_OWN_CAPABILITY c s).
Proof. unfold SELF_APPLY_OWN_CAPABILITY. by ifs. Qed.

Lemma calms_ask c t : calms (ask_helpers c t).
Proof.
  intros s. unfold ask_helpers. change (fst (look ?f s)) with (fst (f s s)). cbv beta. generalize (pick_helpers c t s). intros hs.
  revert s. induction hs as [|h hs IH]; intros s; [done|]. cbn [map]. rewrite steps_cons. etrans; [|apply IH]. done.
Qed.

(** The state of the verdict on one peer: its state and the rounds missed. *)
Definition verdict (s : swim) (n : Z) : Z * Z := (state_of s n, suspect_count s n).

Definition next_verdict (c : config) (v : Z * Z) : Z * Z :=
  let k := u8 (snd v + 1) in
  if (fst v =? DNODE_ALIVE) && (suspect_limit c <=? k) then (DNODE_SUSPECT, 0)
  else if (fst v =? DNODE_SUSPECT) && (dead_limit c <=? k) then (DNODE_DEAD, 0)
  else (fst v, k).

Lemma unanswered_verdict c t s n :
  verdict (fst (unanswered c t s)) n = (if n =? t then next_verdict c (verdict s n) else verdict s n) /\
  prb (fst (unanswered c t s)) = prb s /\ dnode_incarn (fst (unanswered c t s)) = dnode_incarn s.
Proof.
  unfold unanswered, verdict, next_verdict. cbn [andthen modify fst snd]. unfold look.
  set (s1 := set_suspects _ s). change (state_of s1 t) with (state_of s t).
  assert (suspect_count s1 t = u8 (suspect_count s t + 1)) as Ec by (subst s1; cbn; by rewrite upd_eq).
  rewrite Ec. unfold demote, andthen, modify, emit, skip. destruct (n =? t) eqn:En; bools.
  - subst n. cbn [fst snd]. dif E1; [|dif E2]; cbn [fst]; (split; [|done]); subst s1; unfold state_of; cbn; by rewrite ?upd_eq.
  - dif E1; [|dif E2]; cbn [fst]; (split; [|done]); subst s1; unfold state_of; cbn; by rewrite ?upd_ne by done.
Qed.

Lemma fst_seq f g s : fst ((f ;; g) s) = fst (g (fst (f s))).
Proof. done. Qed.

Lemma pick_calm c s s' : calm s s' -> pick_probe_target c s' = pick_probe_target c s.
Proof. intros (E1 & _ & E3 & _). unfold pick_probe_target, state_of. by rewrite E1, E3. Qed.

Lemma pick_not_self c s : fst (pick_probe_target c s) <> drpc_my_node c.
Proof.
  unfold pick_probe_target. pose proof (rotate_spec (Z.to_nat DNODE_MAX) DNODE_MAX
    (fun n => negb (n =? drpc_my_node c) && negb (state_of s n =? DNODE_UNKNOWN)) (probe_cursor (prb s)) ltac:(done)) as H.
  destruct (fst (rotate _ _ _ _)) as [n|]; cbn [fst]; [bools; destruct H as [_ H]; bools; done|].
  assert (exists x, (x = 0 \/ x = 1) /\ x <> drpc_my_node c) as (x & Hx & Hne).
  { destruct (Z.eq_dec (drpc_my_node c) 0) as [->|]; [exists 1|exists 0]; auto. }
  assert (List.In x (List.filter (fun n => negb (n =? drpc_my_node c)) (seqZ 0 DNODE_MAX))) as Hin.
  { apply List.filter_In. split; [apply list_elem_of_In, elem_of_seqZ; unfold DNODE_MAX; lia|lia]. }
  destruct (List.filter _ _) as [|y l] eqn:E; [done|]. cbn [hd].
  assert (List.In y (List.filter (fun n => negb (n =? drpc_my_node c)) (seqZ 0 DNODE_MAX))) as Hy by (rewrite E; by left).
  apply List.filter_In in Hy as [_ Hy]. lia.
Qed.

(** Between rounds, no answer pending. *)
Definition idle (s : swim) : Prop := ph (prb s) = Delay /\ probe_sem (prb s) = Some 0.

Lemma start_round c now s : drpc_my_node c <> 0xFF -> idle s ->
  let t := pick_probe_target c s in let s' := fst (round_start c now s) in
  dnode_table s' = dnode_table s /\ suspect_count s' = suspect_count s /\ dnode_incarn s' = dnode_incarn s /\
  prb s' = Probing (Some 0) (next_seq (probe_seq (prb s))) (fst t) (snd t) (WaitDirect now false).
Proof.
  intros Hme [Hph Hsem]. cbv zeta. unfold round_start. rewrite fst_seq.
  pose proof (calms_tick c now s) as C1. generalize dependent (fst (swim_wide_tick c now s)). intros s1 C1.
  rewrite (proj2 (Z.eqb_neq _ _) Hme), !fst_seq.
  match goal with |- context [fst (look ?f ?x)] => assert (calm s x) as C; [|generalize dependent x] end.
  { etrans; [exact C1|]. etrans; [apply (calm_init c)|]. match goal with |- calm ?a _ => set (s2 := a) end.
    change (calm s2 (SELF_APPLY_OWN_CAPABILITY c (gossip_add (drpc_my_node c) DNODE_ALIVE (my_incarnation s2) (cap_self_byte c s2) s2))).
    etrans; [|apply calm_self]. done. }
  intros s5 C. match goal with |- context [fst (look ?f s5)] => change (fst (look f s5)) with (fst (f s5 s5)) end. cbv beta zeta. rewrite !(pick_calm c s s5 C), fst_seq. destruct C as (E1 & E2 & E3 & E4).
  pose proof (pick_not_self c s) as Hns. set (t := pick_probe_target c s) in *. clearbody t.
  rewrite (proj2 (Z.eqb_neq _ _) Hns), !fst_seq.
  unfold on_prb, modify, look, swim_send, gossip_fill. cbn [fst snd set_prb set_gq dnode_table suspect_count dnode_incarn prb].
  split; [exact E1|]. split; [exact E2|]. split; [exact E4|]. unfold wait, set_probe, set_cursor, set_phase.
  cbn [probe_sem probe_seq probe_waiting_node probe_cursor ph]. rewrite E3, Hsem. done.
Qed.

(** An answer changes the verdict of its sender alone. *)
Lemma answered_others t s n : n <> t ->
  verdict (fst (answered t s)) n = verdict s n /\ prb (fst (answered t s)) = prb s /\ dnode_incarn (fst (answered t s)) = dnode_incarn s.
Proof.
  intros Hn. unfold answered. rewrite fst_seq. unfold modify. cbn [fst set_suspects prb dnode_incarn].
  set (s1 := fst (look _ s)). assert (state_of s1 n = state_of s n /\ suspect_count s1 = suspect_count s /\ prb s1 = prb s /\ dnode_incarn s1 = dnode_incarn s) as (E1 & E2 & E3 & E4).
  { subst s1. unfold look, andthen, modify, emit. cbv beta zeta. dif E; cbn [fst]; [done|]. unfold state_of, set_state. cbn. by rewrite upd_ne. }
  clearbody s1. split; [|done]. unfold verdict. change (state_of (set_suspects (upd (suspect_count s1) t 0) s1) n) with (state_of s1 n).
  cbn [set_suspects suspect_count]. by rewrite E1, E2, upd_ne.
Qed.

(** ** Missed rounds *)

(** Missed rounds that still lead to the next verdict, for a count [k] that has
    one byte, and those that lead to death. *)
Definition need (limit k : Z) : Z := if k =? 255 then limit + 1 else Z.max 1 (limit - k).
Definition rounds_left (c : config) (v : Z * Z) : Z :=
  if fst v =? DNODE_ALIVE then need (suspect_limit c) (snd v) + dead_limit c
  else if fst v =? DNODE_SUSPECT then need (dead_limit c) (snd v) else 0.

Definition limits_ok (c : config) : Prop := 1 <= suspect_limit c <= 250 /\ 1 <= dead_limit c <= 250.
Definition suspected (v : Z * Z) : Prop := fst v = DNODE_ALIVE \/ fst v = DNODE_SUSPECT.
Definition doomed (v : Z * Z) : Prop := suspected v \/ fst v = DNODE_DEAD.

Lemma next_doomed c v : limits_ok c -> is_u8 (snd v) -> doomed v ->
  doomed (next_verdict c v) /\ is_u8 (snd (next_verdict c v)) /\ 0 <= rounds_left c (next_verdict c v) /\
  (suspected v -> rounds_left c (next_verdict c v) < rounds_left c v).
Proof.
  destruct v as [st k]. unfold limits_ok, doomed, suspected, rounds_left, next_verdict, need, is_u8, u8. cbn [fst snd].
  change DNODE_ALIVE with 1. change DNODE_SUSPECT with 2. change DNODE_DEAD with 3. intros Hl Hk Hst.
  assert ((k + 1) mod 2 ^ 8 = if k =? 255 then 0 else k + 1) as ->.
  { destruct (Z.eqb_spec k 255) as [->|]; [done|]. apply Z.mod_small. lia. }
  destruct (Z.eqb_spec k 255), (Z.eqb_spec st 1), (Z.eqb_spec st 2); subst; try lia; cbn [andb fst snd];
    ifs; cbn [fst snd] in *; repeat split; intros; try lia; try done; ifs; lia.
Qed.

Lemma left_dead c v : limits_ok c -> doomed v -> rounds_left c v <= 0 -> fst v = DNODE_DEAD.
Proof.
  unfold limits_ok, doomed, suspected, rounds_left, need. intros Hl [[E|E]|E]; rewrite E; [| |done];
    change (DNODE_SUSPECT =? DNODE_ALIVE) with false; change (DNODE_ALIVE =? DNODE_ALIVE) with true;
    change (DNODE_SUSPECT =? DNODE_SUSPECT) with true; cbn [fst]; ifs; lia.
Qed.


(** ** What the packets of the others leave of a verdict *)

(** A verdict that is the same or worse, with the same count. *)
Definition worse (v v' : Z * Z) : Prop :=
  snd v' = snd v /\ (fst v' = fst v \/ (fst v = DNODE_ALIVE /\ fst v' = DNODE_SUSPECT) \/ fst v' = DNODE_DEAD).

#[export] Instance worse_preorder : PreOrder worse.
Proof.
  split; [by split; [|left]|]. intros v1 v2 v3 [A1 A2] [B1 B2]. split; [congruence|].
  destruct B2 as [B2|[[B2 B3]|B2]]; [rewrite B2|..]; [done| |by right; right].
  destruct A2 as [A2|[[_ A2]|A2]]; [right; left; split; congruence|rewrite A2 in B2; done|rewrite A2 in B2; done].
Qed.

Section others.
Context (c : config) (n I : Z) (Hn : 0 <= n < DNODE_MAX) (Hself : n <> drpc_my_node c).

(** The step leaves the verdict on [n] or makes it worse, keeps its incarnation
    at [I] or above, and does not touch the probe. *)
Definition spared (s s' : swim) : Prop :=
  worse (verdict s n) (verdict s' n) /\ I <= dnode_incarn s' n /\ prb s' = prb s.
Definition known_since (s : swim) : Prop := known (state_of s n) /\ I <= dnode_incarn s n.
Definition spares (f : step) : Prop := forall s, known_since s -> spared s (fst (f s)).

Lemma spared_known s s' : known_since s -> spared s s' -> known_since s'.
Proof.
  intros [K _] ([_ Hw] & Hi & _). split; [|exact Hi]. unfold verdict in Hw. cbn [fst] in Hw.
  destruct Hw as [-> |[[_ ->]| ->]]; [exact K|right; by left|by right; right].
Qed.

Lemma spares_seq f g : spares f -> spares g -> spares (f ;; g).
Proof.
  intros Hf Hg s K. rewrite fst_seq. pose proof (Hf s K) as S1. pose proof (Hg _ (spared_known _ _ K S1)) as S2.
  destruct S1 as (W1 & _ & P1), S2 as (W2 & I2 & P2). split; [by etrans|]. split; [exact I2|congruence].
Qed.
Lemma spares_look f : (forall s, known_since s -> spared s (fst (f s s))) -> spares (look f).
Proof. intros Hf s K. by apply Hf. Qed.

(** Steps that change nothing of what the verdict is read from. *)
Definition apart (s s' : swim) : Prop :=
  state_of s' n = state_of s n /\ suspect_count s' n = suspect_count s n /\ prb s' = prb s /\ dnode_incarn s' n = dnode_incarn s n.
Lemma apart_spared s s' : known_since s -> apart s s' -> spared s s'.
Proof. intros [_ K] (E1 & E2 & E3 & E4). unfold spared, verdict. rewrite E1, E2, E4. done. Qed.
Lemma calm_apart s s' : calm s s' -> apart s s'.
Proof. intros (E1 & E2 & E3 & E4). unfold apart, state_of. by rewrite E1, E2, E4. Qed.
Lemma calms_spares f : calms f -> spares f.
Proof. intros Hf s K. apply apart_spared, calm_apart, Hf. exact K. Qed.

Lemma calm_adopt m cap s : calm s (adopt_caps m cap s).
Proof. unfold adopt_caps, v2cap_set. by ifs. Qed.
Lemma calms_modify f : (forall s, calm s (f s)) -> calms (modify f).
Proof. intros Hf s. apply Hf. Qed.

Lemma calms_refute now inc : calms (refute c now inc).
Proof.
  unfold refute. apply calms_seq.
  - apply calms_look. intros s. apply calms_seq; [done|]. by dif E.
  - apply calms_seq; [done|]. apply calms_seq; [done|]. apply calms_modify, calm_self.
Qed.

(** A rumour about [n] that is not newer than [I], or that calls it dead. *)
Definition stale (e : SWIM_GOSSIP_EVT) : Prop := g_node e = n -> g_incarnation e <= I \/ g_state e = DNODE_DEAD.

Lemma discover_apart m st inc cap s : m <> n -> apart s (fst (discover m st inc cap s)).
Proof.
  intros Hm. unfold discover, relay, andthen, modify, emit. cbn [fst].
  set (s1 := set_suspects _ _). assert (apart s s1) as A.
  { subst s1. unfold apart, state_of. cbn. by rewrite !upd_ne by done. }
  clearbody s1. destruct (calm_adopt m cap s1) as (E1 & E2 & E3 & E4). destruct A as (A1 & A2 & A3 & A4).
  unfold apart, state_of in *. cbn [gossip_add set_gq dnode_table suspect_count prb dnode_incarn]. rewrite E1, E2, E3, E4. done.
Qed.

Lemma accept_verdict m st inc cap s s' : s' = fst (accept m st inc cap (state_of s m) s) ->
  prb s' = prb s /\ suspect_count s' = suspect_count s /\
  state_of s' n = (if n =? m then st else state_of s n) /\ dnode_incarn s' n = (if n =? m then inc else dnode_incarn s n).
Proof.
  intros ->. destruct (accept_learns m st inc cap (state_of s m) s eq_refl n) as [-> ->].
  unfold accept, relay, andthen, modify, emit. cbn [fst].
  set (s1 := set_incarns _ s). destruct (calm_adopt m cap s1) as (E1 & E2 & E3 & E4).
  set (s2 := adopt_caps m cap s1) in *. clearbody s2.
  dif E; cbn [fst]; unfold set_state; cbn; by rewrite E2, E3.
Qed.

Lemma rumor_spares now src e : stale e -> spares (apply_rumor c now src e).
Proof.
  intros He. unfold apply_rumor. destruct (g_node e =? drpc_my_node c) eqn:Eme.
  { apply calms_spares. dif E; [apply calms_refute|done]. }
  destruct (DNODE_MAX <=? g_node e); [by apply calms_spares|]. apply spares_look. intros s K.
  destruct ((state_of s (g_node e) =? DNODE_UNKNOWN) && _) eqn:Eu.
  - apply apart_spared; [exact K|]. apply discover_apart. intros Em. rewrite Em in Eu. bools.
    destruct K as [[E|[E|E]] _]; rewrite E in *; done.
  - destruct (gossip_supersedes _ _ _ _) eqn:Es; cbn [negb].
    + destruct (accept_verdict (g_node e) (g_state e) (g_incarnation e) (g_capability e) s _ eq_refl) as (E1 & E2 & E3 & E4).
      unfold spared, verdict. rewrite E2, E3, E4, E1. destruct (Z.eqb_spec n (g_node e)) as [En|]; [|by destruct K].
      destruct K as [K Ki]. specialize (He (eq_sym En)). rewrite <- En in Es. unfold gossip_supersedes in Es.
      assert (g_state e = DNODE_DEAD \/ (g_incarnation e = dnode_incarn s n /\ state_rank (state_of s n) < state_rank (g_state e))) as Hc.
      { destruct He as [He|He]; [|by left]. right. destruct (Z.eqb_spec (g_incarnation e) (dnode_incarn s n)); cbn [negb] in Es; bools; lia. }
      assert (I <= g_incarnation e) as Hi by (destruct (Z.eqb_spec (g_incarnation e) (dnode_incarn s n)); cbn [negb] in Es; bools; lia).
      split; [|done]. split; [done|]. cbn [fst]. destruct Hc as [->|[_ Hr]]; [by right; right|].
      unfold state_rank in Hr. destruct K as [K|[K|K]]; rewrite K in *; 
        destruct (Z.eqb_spec (g_state e) DNODE_DEAD); [by right; right| |by right; right| |by right; right|];
        destruct (Z.eqb_spec (g_state e) DNODE_SUSPECT); try done; try (right; left; split; done); cbn in Hr; lia.
    + apply apart_spared, calm_apart; [exact K|]. dif E; [|done]. unfold v2cap_set, modify. cbn [fst]. by ifs.
Qed.

Lemma gossip_spares now p : Forall stale (rumors p) -> spares (gossip_apply c now p).
Proof.
  unfold gossip_apply. induction 1 as [|e l He _ IH]; [by apply calms_spares|]. cbn [map]. intros s K.
  by apply (spares_seq _ _ (rumor_spares now (src_node p) e He) IH).
Qed.

Lemma sender_spares ip m : m <> n -> spares (sender_alive c ip m).
Proof.
  intros Hm s K. unfold sender_alive. dif E; [|by apply apart_spared]. unfold look. cbv zeta.
  apply apart_spared; [exact K|]. unfold andthen, modify, emit, skip. dif E1; cbn [fst]; unfold apart, state_of; cbn; by rewrite !upd_ne by done.
Qed.

Lemma wide_spares now ip d f : swim_wide_rx c now ip d = Some f -> spares f.
Proof.
  unfold swim_wide_rx. dif E1; [done|]. dif E2; intros [= <-]; [by apply calms_spares|].
  apply spares_seq; [by apply calms_spares|]. unfold wide_answer. apply spares_look. intros s K. apply apart_spared; [exact K|].
  cbv zeta. dif E3; [|done]. dif E4; [by apply calm_apart|]. dif E5; [|done]. dif E6; [|by apply calm_apart].
  unfold modify. cbn [fst]. unfold swim_wide_narrow_sample, rtt_observe. apply calm_apart. by ifs.
Qed.

(** ** Packets of the others *)

(** The task waits for the answer of its probe, and has not got it yet. *)
Definition waits (q : probing) : bool := match ph q with WaitDirect _ false | WaitIndirect false => true | _ => false end.

(** A packet that is not from [n], spreads no newer incarnation of [n], and, if
    it answers the probe that was sent last, arrives while that probe waits and
    is the first to do so. *)
Definition from_others (p : SWIM_PKT) (s : swim) : Prop :=
  src_node p <> n /\ Forall stale (rumors p) /\
  (type p = SWIM_ACK -> probe_target p <> n) /\
  (type p = SWIM_ACK -> seq p = probe_seq (prb s) -> probe_target p = probe_waiting_node (prb s) -> waits (prb s) = true).

(** The packets that are read as version 1. *)
Definition reads_v1 (now ip : Z) (d : list Z) : bool :=
  match swim_wide_rx c now ip d with Some _ => false | None =>
    negb (lenz d <? sizeof_SWIM_PKT) && (magic (swim_view d) =? SWIM_MAGIC) && (version (swim_view d) =? SWIM_VERSION) end.

Definition others_event (s : swim) (e : event) : Prop :=
  match e with Run _ => True | Rx now ip d => reads_v1 now ip d = true -> from_others (swim_view d) s end.

Fixpoint others_run (s : swim) (es : list event) : Prop :=
  match es with [] => True | e :: es => others_event s e /\ others_run (fst (on_event c e s)) es end.

(** ** The invariant of a run of the others *)

(** No answer is pending from an earlier round, and the probe of [n] has got none. *)
Definition unsignalled (q : probing) : Prop :=
  probe_sem q = Some 0 /\ (ph q = Delay \/
    (probe_cursor q = probe_waiting_node q /\ (probe_waiting_node q = n -> waits q = true))).

Record silent_to (s : swim) : Prop := {
  si_known : known_since s;
  si_count : is_u8 (suspect_count s n);
  si_probe : unsignalled (prb s) }.

(** The steps of the task before [n] is dead: three for each round, of which
    one in at most 64 is a missed round of [n]. *)
Definition steps_left (s : swim) : Z :=
  let q := prb s in
  let near := dist (probe_cursor q) n in
  3 * (DNODE_MAX * rounds_left c (verdict s n)) +
  match ph q with
  | Delay => 3 * near
  | WaitDirect _ _ => (if probe_waiting_node q =? n then 0 else 3 * near) + 2
  | WaitIndirect _ => (if probe_waiting_node q =? n then 0 else 3 * near) + 1
  end.

Lemma worse_left v v' : limits_ok c -> is_u8 (snd v) -> known (fst v) -> worse v v' -> rounds_left c v' <= rounds_left c v.
Proof.
  intros Hl Hk Hst [E Hw]. destruct v as [st k], v' as [st' k']. cbn [fst snd] in *. subst k'.
  assert (0 <= rounds_left c (st, k)) as H0.
  { unfold limits_ok, rounds_left, need, is_u8 in *. cbn [fst snd]. ifs; lia. }
  destruct Hw as [-> |[[-> ->]| ->]]; [lia| |exact H0].
  unfold limits_ok, rounds_left, need, is_u8 in *. cbn [fst snd].
  change (DNODE_SUSPECT =? DNODE_ALIVE) with false. change (DNODE_SUSPECT =? DNODE_SUSPECT) with true.
  change (DNODE_ALIVE =? DNODE_ALIVE) with true. ifs; lia.
Qed.

Lemma spared_dead s s' : spared s s' -> state_of s n = DNODE_DEAD -> state_of s' n = DNODE_DEAD.
Proof.
  intros ([_ Hw] & _) E. unfold verdict in Hw. cbn [fst] in Hw. rewrite E in Hw. by destruct Hw as [|[[? _]|]].
Qed.

Lemma spared_silent s s' : limits_ok c -> silent_to s -> spared s s' -> silent_to s' /\ steps_left s' <= steps_left s.
Proof.
  intros Hl [K Hk Hp] S. pose proof (spared_known _ _ K S) as K'. destruct S as (W & _ & E).
  pose proof (worse_left (verdict s n) (verdict s' n) Hl Hk (proj1 K) W) as Hle. destruct W as [Ek _]. unfold verdict in Ek. cbn [snd] in Ek.
  split; [split; [exact K'|by rewrite Ek|by rewrite E]|]. unfold steps_left. rewrite E. unfold DNODE_MAX in *. lia.
Qed.

(** The probe after a packet: untouched, or its wait has ended. *)
Lemma on_type_probe ip p s : from_others p s -> probe_sem (prb s) = Some 0 ->
  let s' := fst (on_type c ip p s) in
  (dnode_table s' = dnode_table s /\ suspect_count s' = suspect_count s /\ dnode_incarn s' = dnode_incarn s) /\
  (prb s' = prb s \/ (waits (prb s) = true /\ probe_waiting_node (prb s) <> n /\ prb s' = signal (prb s))).
Proof.
  intros (_ & _ & Ht & Hw) Hs. cbv zeta. unfold on_type. cbv zeta.
  destruct (type p =? SWIM_PING); [by split; [|left]|].
  destruct (Z.eqb_spec (type p) SWIM_ACK) as [Ea|]; [|destruct (type p =? SWIM_PING_REQ); [dif E|]; by split; [|left]].
  specialize (Ht Ea). specialize (Hw Ea). unfold on_prb, modify. cbn [fst set_prb dnode_table suspect_count dnode_incarn prb].
  split; [done|]. rewrite Hs. destruct ((seq p =? probe_seq (prb s)) && _) eqn:E; [|by left]. right. bools.
  split; [by apply Hw|]. split; [congruence|done].
Qed.

Lemma rx_silent now ip d s : limits_ok c -> silent_to s -> others_event s (Rx now ip d) ->
  let s' := fst (swim_rx c now ip d s) in
  silent_to s' /\ steps_left s' <= steps_left s /\ (state_of s n = DNODE_DEAD -> state_of s' n = DNODE_DEAD).
Proof.
  intros Hl J He. cbv zeta. cbn [others_event] in He. unfold reads_v1, swim_rx in *.
  destruct (swim_wide_rx c now ip d) as [f|] eqn:Ef.
  { pose proof (wide_spares now ip d f Ef s (si_known _ J)) as S. destruct (spared_silent _ _ Hl J S). split_and!; [done|done|by apply spared_dead]. }
  destruct (lenz d <? sizeof_SWIM_PKT); [done|]. cbv zeta. set (p := swim_view d) in *.
  destruct (magic p =? SWIM_MAGIC); [|done]. destruct (version p =? SWIM_VERSION); [|done]. cbn [negb orb andb] in *.
  specialize (He eq_refl). pose proof He as (H1 & H2 & _ & _).
  pose proof (spares_seq _ _ (gossip_spares now p H2) (sender_spares ip (src_node p) H1) s (si_known _ J)) as S.
  assert (fst ((gossip_apply c now p ;; sender_alive c ip (src_node p) ;; on_type c ip p) s) =
          fst (on_type c ip p (fst ((gossip_apply c now p ;; sender_alive c ip (src_node p)) s)))) as -> by done.
  set (s1 := fst ((gossip_apply c now p ;; sender_alive c ip (src_node p)) s)) in *. clearbody s1.
  destruct (spared_silent _ _ Hl J S) as [J1 L1]. assert (prb s1 = prb s) as Ep by apply S.
  assert (from_others p s1) as He1 by (unfold from_others; by rewrite Ep).
  destruct (on_type_probe ip p s1 He1 (proj1 (si_probe _ J1))) as [(E1 & E2 & E3) Hq].
  set (s2 := fst (on_type c ip p s1)) in *. clearbody s2.
  assert (verdict s2 n = verdict s1 n /\ state_of s2 n = state_of s1 n) as [Ev Es] by (unfold verdict, state_of; by rewrite E1, E2).
  assert (known_since s2) as K2 by (unfold known_since; rewrite Es, E3; apply J1).
  assert (is_u8 (suspect_count s2 n)) as U2 by (rewrite E2; apply J1).
  assert (state_of s n = DNODE_DEAD -> state_of s2 n = DNODE_DEAD) as Hd by (rewrite Es; by apply spared_dead).
  assert (unsignalled (prb s2) /\ steps_left s2 = steps_left s1) as [P2 L2].
  { destruct Hq as [Eq|(Hw & Hne & Eq)].
    - split; [rewrite Eq; apply J1|]. unfold steps_left. by rewrite Ev, Eq.
    - destruct (si_probe _ J1) as [Q1 Q2]. unfold steps_left. rewrite Ev, Eq. clear -Hw Hne Q1 Q2.
      unfold unsignalled, waits, signal in *. destruct (prb s1) as [sem sq w cur ph0]. cbn [probe_sem probe_waiting_node probe_cursor ph] in *.
      destruct ph0 as [|t0 []|[]]; try done; cbn; (split; [|done]); (split; [done|]); right; (split; [|done]);
        destruct Q2 as [?|[? _]]; done. }
  split; [by split|]. split; [lia|done].
Qed.

Lemma dist_self m : 0 <= m < DNODE_MAX -> dist m m = DNODE_MAX.
Proof. intros _. unfold dist, DNODE_MAX. replace (m - m - 1) with (-1) by lia. done. Qed.

Lemma ask_calm t s : calm s (fst (ask_helpers c t s)).
Proof. apply calms_ask. Qed.

(** A missed round of [n] brings the verdict nearer. *)
Lemma missed_left s : limits_ok c -> silent_to s -> state_of s n <> DNODE_DEAD ->
  rounds_left c (next_verdict c (verdict s n)) < rounds_left c (verdict s n).
Proof.
  intros Hl [[K _] Hk _] Hd. assert (suspected (verdict s n)) as Hs by (destruct K as [K|[K|K]]; [by left|by right|done]).
  by apply (next_doomed c (verdict s n) Hl Hk (or_introl Hs)).
Qed.

(** One step of the task towards the death of [n]. *)
Definition moved (s s' : swim) : Prop :=
  silent_to s' /\ (state_of s' n = DNODE_DEAD \/ steps_left s' < steps_left s) /\ (state_of s n = DNODE_DEAD -> state_of s' n = DNODE_DEAD).

(** A step that does not touch the verdict. *)
Lemma keeps_moved s s' : silent_to s -> verdict s' n = verdict s n -> dnode_incarn s' n = dnode_incarn s n ->
  unsignalled (prb s') -> steps_left s' < steps_left s -> moved s s'.
Proof.
  intros [[K Ki] Hk _] Ev Ei Hp Hlt. unfold verdict in Ev. injection Ev as E1 E2.
  split; [split; [split; [by rewrite E1|by rewrite Ei]|by rewrite E2|exact Hp]|]. split; [by right|]. by rewrite E1.
Qed.

Lemma start_moved now s : drpc_my_node c <> 0xFF -> silent_to s -> ph (prb s) = Delay -> moved s (fst (round_start c now s)).
Proof.
  intros Hme J Eph. pose proof J as [[K _] _ [Hsem _]]. pose proof (dist_range (probe_cursor (prb s)) n) as Hdist.
  destruct (start_round c now s Hme (conj Eph Hsem)) as (A1 & A2 & A3 & A4).
  set (s' := fst (round_start c now s)) in *. clearbody s'.
  destruct (rotate_nearer (Z.to_nat DNODE_MAX) (fun m => negb (m =? drpc_my_node c) && negb (state_of s m =? DNODE_UNKNOWN)) (probe_cursor (prb s)) n Hn)
    as (m & E & Hm & _ & Hnear).
  { destruct K as [K|[K|K]]; rewrite K; by rewrite (proj2 (Z.eqb_neq _ _) Hself). }
  { rewrite Z2Nat.id by (unfold DNODE_MAX; lia). lia. }
  assert (pick_probe_target c s = (m, m)) as Ep by (unfold pick_probe_target; by rewrite E).
  rewrite Ep in A4. cbn [fst snd] in A4. clear E Ep.
  assert (verdict s' n = verdict s n) as Ev by (unfold verdict, state_of; by rewrite A1, A2).
  apply keeps_moved; [exact J|exact Ev|by rewrite A3|rewrite A4; split; [done|by right]|].
  unfold steps_left. rewrite Ev, A4, Eph. cbn [probe_cursor ph probe_waiting_node]. clear -Hdist Hnear.
  destruct (Z.eqb_spec m n) as [->|Hne]; [lia|]. specialize (Hnear Hne). lia.
Qed.

(** The end of a wait. *)
Lemma delay_spec s : let s' := fst (on_prb (set_phase Delay) s) in
  verdict s' n = verdict s n /\ prb s' = set_phase Delay (prb s) /\ dnode_incarn s' = dnode_incarn s.
Proof. done. Qed.

Definition waiting (s : swim) : Prop := match ph (prb s) with Delay => False | _ => True end.

Lemma answered_moved s s1 : silent_to s -> waiting s -> waits (prb s) = false ->
  verdict s1 n = verdict s n /\ prb s1 = set_phase Delay (prb s) /\ dnode_incarn s1 = dnode_incarn s ->
  moved s (fst (answered (probe_waiting_node (prb s)) s1)).
Proof.
  intros J Hwt Hw (E1 & E2 & E3). pose proof J as [_ _ [Hsem Hph]].
  assert (n <> probe_waiting_node (prb s)) as Hne.
  { intros E. destruct Hph as [Hph|[_ Hph]]; [unfold waiting in Hwt; by rewrite Hph in Hwt|]. by rewrite Hph in Hw. }
  destruct (answered_others (probe_waiting_node (prb s)) s1 n Hne) as (B1 & B2 & B3).
  set (s' := fst (answered _ s1)) in *. clearbody s'. rewrite E1 in B1. rewrite E2 in B2.
  apply keeps_moved; [exact J|exact B1|by rewrite B3, E3|rewrite B2; split; [done|by left]|].
  unfold steps_left. rewrite B1, B2. cbn [set_phase probe_cursor ph]. rewrite (proj2 (Z.eqb_neq _ _) (not_eq_sym Hne)).
  unfold waiting in Hwt. destruct (ph (prb s)); [done|lia|lia].
Qed.

Lemma wait_spec s : let s' := fst (on_prb (wait WaitIndirect) s) in
  verdict s' n = verdict s n /\ prb s' = wait WaitIndirect (prb s) /\ dnode_incarn s' = dnode_incarn s.
Proof. done. Qed.

Lemma asked_moved s s1 t0 : silent_to s -> ph (prb s) = WaitDirect t0 false ->
  verdict s1 n = verdict s n /\ prb s1 = set_phase Delay (prb s) /\ dnode_incarn s1 = dnode_incarn s ->
  moved s (fst (on_prb (wait WaitIndirect) (fst (ask_helpers c (probe_waiting_node (prb s)) s1)))).
Proof.
  intros J Eph (E1 & E2 & E3). pose proof J as [_ _ [Hsem Hph]]. rewrite Eph in Hph. destruct Hph as [|[Hcur _]]; [done|].
  destruct (ask_calm (probe_waiting_node (prb s)) s1) as (C1 & C2 & C3 & C4).
  set (s2 := fst (ask_helpers c _ s1)) in *. clearbody s2.
  assert (verdict s2 n = verdict s n) as Ev by (rewrite <- E1; unfold verdict, state_of; by rewrite C1, C2).
  destruct (wait_spec s2) as (F1 & F2 & F3). set (s' := fst (on_prb (wait WaitIndirect) s2)) in *. clearbody s'.
  assert (prb s' = set_phase (WaitIndirect false) (prb s)) as Ep.
  { rewrite F2, C3, E2. unfold wait. cbn [set_phase probe_sem]. by rewrite Hsem. }
  rewrite Ev in F1. rewrite C4, E3 in F3.
  apply keeps_moved; [exact J|exact F1|by rewrite F3|rewrite Ep; split; [exact Hsem|by right]|].
  unfold steps_left. rewrite F1, Ep, Eph. cbn [set_phase probe_cursor ph probe_waiting_node]. dif Ew; lia.
Qed.

Lemma missed_moved s s1 : limits_ok c -> silent_to s -> ph (prb s) = WaitIndirect false ->
  verdict s1 n = verdict s n /\ prb s1 = set_phase Delay (prb s) /\ dnode_incarn s1 = dnode_incarn s ->
  moved s (fst (unanswered c (probe_waiting_node (prb s)) s1)).
Proof.
  intros Hl J Eph (E1 & E2 & E3). pose proof J as [[K Ki] Hk [Hsem Hph]]. rewrite Eph in Hph. destruct Hph as [|[Hcur _]]; [done|].
  destruct (unanswered_verdict c (probe_waiting_node (prb s)) s1 n) as (B1 & B2 & B3).
  set (s' := fst (unanswered c _ s1)) in *. clearbody s'. rewrite E1 in B1. rewrite E2 in B2. rewrite E3 in B3.
  assert (unsignalled (prb s')) as Hp by (rewrite B2; split; [done|by left]).
  destruct (Z.eqb_spec n (probe_waiting_node (prb s))) as [En|Hne].
  - destruct (next_doomed c (verdict s n) Hl Hk) as (N1 & N2 & _ & _).
    { destruct K as [K|[K|K]]; [left; by left|left; by right|by right]. }
    pose proof (f_equal fst B1) as B5. pose proof (f_equal snd B1) as B6. cbn [verdict fst snd] in B5, B6.
    assert (state_of s n = DNODE_DEAD -> state_of s' n = DNODE_DEAD) as Hd.
    { intros Hd. rewrite B5. unfold next_verdict, verdict. cbn [fst]. by rewrite Hd. }
    split; [split; [split|by rewrite B6|exact Hp]|split; [|exact Hd]].
    + rewrite B5. destruct N1 as [[->| ->]| ->]; [by left|right; by left|by right; right].
    + by rewrite B3.
    + destruct (decide (state_of s n = DNODE_DEAD)) as [Hdead|Hdead]; [left; by apply Hd|right].
      pose proof (missed_left s Hl J Hdead) as Hm. unfold steps_left. rewrite B1, B2, Eph. cbn [set_phase probe_cursor ph].
      rewrite Hcur, <- En, Z.eqb_refl, (dist_self n Hn). clear -Hm. unfold DNODE_MAX. lia.
  - apply keeps_moved; [exact J|exact B1|by rewrite B3|exact Hp|].
    unfold steps_left. rewrite B1, B2, Eph. cbn [set_phase probe_cursor ph]. rewrite (proj2 (Z.eqb_neq _ _) (not_eq_sym Hne)). lia.
Qed.

Lemma rtt_spec m x s : let s' := fst (modify (rtt_observe m x) s) in
  verdict s' n = verdict s n /\ prb s' = prb s /\ dnode_incarn s' = dnode_incarn s.
Proof. unfold modify, rtt_observe. cbn [fst]. by ifs. Qed.

Lemma run_silent now s : drpc_my_node c <> 0xFF -> limits_ok c -> silent_to s -> moved s (fst (task_step c now s)).
Proof.
  intros Hme Hl J. unfold task_step, look. pose proof (delay_spec s) as HD. cbv zeta in HD.
  destruct (ph (prb s)) as [|t0 []|[]] eqn:Eph; [by apply start_moved|..]; rewrite !fst_seq;
    set (s1 := fst (on_prb (set_phase Delay) s)) in *; clearbody s1; destruct HD as (E1 & E2 & E3).
  - destruct (rtt_spec (probe_waiting_node (prb s)) (u32 (now - t0)) s1) as (F1 & F2 & F3).
    set (s2 := fst (modify _ s1)) in *. clearbody s2.
    apply answered_moved; [exact J|unfold waiting; by rewrite Eph|unfold waits; by rewrite Eph|].
    by rewrite F1, F2, F3.
  - by apply (asked_moved s s1 t0).
  - apply answered_moved; [exact J|unfold waiting; by rewrite Eph|unfold waits; by rewrite Eph|done].
  - by apply missed_moved.
Qed.

End others.

(** ** Silence is detected *)

(** The steps of the task in a run. *)
Definition turns (es : list event) : Z := lenz (List.filter (fun e => match e with Run _ => true | Rx _ _ _ => false end) es).

(** C26: a silent peer is detected while the others talk. Take a node that knows
    peer [n] and stands between two rounds with no answer pending, and any run of
    it, with packets from anybody, in which [n] is silent: no packet of version 1
    comes from [n] or answers in its name; rumours about [n] carry no newer
    incarnation than the one held at the start (only [n] makes those), except that
    it is dead; and an answer of another peer arrives while the probe it answers
    still waits, and once (a later or doubled one is taken for the answer of the
    next peer probed, [late_answer_credits_next]). After 64 times as many rounds,
    of three steps of the task, as the two limits together and two more, [n] is
    dead, whatever the other peers are, say and become, and wherever the round
    robin stands. *)
Theorem silence_detected c s n (es : list event) (Hme : drpc_my_node c <> 0xFF) (Hl : limits_ok c) (Hi : idle s)
    (Hn : 0 <= n < DNODE_MAX) (Hne : n <> drpc_my_node c) (Hk : is_u8 (suspect_count s n)) (Hst : known (state_of s n))
    (Hes : others_run c n (dnode_incarn s n) s es)
    (Hlong : 3 * (DNODE_MAX * (suspect_limit c + dead_limit c + 2)) <= turns es) :
  state_of (fst (run c es s)) n = DNODE_DEAD.
Proof.
  assert (silent_to n (dnode_incarn s n) s) as J.
  { split; [by split|done|]. split; [apply Hi|left; apply Hi]. }
  assert (steps_left c n s <= turns es) as Hb.
  { etrans; [|exact Hlong]. unfold steps_left. rewrite (proj1 Hi). pose proof (dist_range (probe_cursor (prb s)) n) as Hr.
    enough (rounds_left c (verdict s n) <= suspect_limit c + dead_limit c + 1) by (unfold DNODE_MAX in *; lia).
    unfold limits_ok, rounds_left, need, is_u8, verdict in *. cbn [fst snd]. ifs; lia. }
  revert Hes J Hb. generalize (dnode_incarn s n). intros I Hes J Hb. clear Hi Hk Hst Hlong.
  assert (state_of s n = DNODE_DEAD \/ steps_left c n s <= turns es) as Hd by (by right). clear Hb. revert s Hes J Hd.
  induction es as [|e es IH]; intros s Hes J Hd.
  - destruct Hd as [Hd|Hd]; [exact Hd|]. apply (left_dead c (verdict s n) Hl).
    + destruct J as [[[K|[K|K]] _] _ _]; [left; by left|left; by right|by right].
    + pose proof (dist_range (probe_cursor (prb s)) n) as Hr. unfold turns, lenz, steps_left in Hd. cbn [List.filter length] in Hd.
      unfold DNODE_MAX in *. destruct (ph (prb s)), (probe_waiting_node (prb s) =? n); lia.
  - destruct Hes as [He Hes]. unfold run. cbn [map]. rewrite steps_cons. apply IH; [exact Hes|..]; destruct e as [now ip d|now].
    + by apply (rx_silent c n I Hne).
    + by apply (run_silent c n I Hn Hne).
    + destruct (rx_silent c n I Hne now ip d s Hl J He) as (_ & Hle & Hdead). destruct Hd as [Hd|Hd]; [left; by apply Hdead|right].
      change (turns (Rx now ip d :: es)) with (turns es) in Hd. cbn [on_event]. lia.
    + destruct (run_silent c n I Hn Hne now s Hme Hl J) as (_ & Hlt & Hdead). cbn [on_event].
      destruct Hd as [Hd|Hd]; [left; by apply Hdead|]. destruct Hlt as [Hlt|Hlt]; [by left|right].
      unfold turns, lenz in *. cbn [List.filter length] in Hd. lia.
Qed.

(** Node 0 with an alive peer 3 and a suspect peer 9. *)
Definition two_peers : swim :=
  set_dnodes (upd (upd (fun _ => dnode0) 3 (Dnode 3 0 DNODE_ALIVE 0)) 9 (Dnode 9 0 DNODE_SUSPECT 0)) (fst (task_begin swim0)).

(** Peer 9 pings, with a rumour that 3 is alive, answers its probe, and pings
    again; peer 3 says nothing. *)
Definition ping_9 : list Z := swim_bytes (Pkt SWIM_MAGIC SWIM_VERSION SWIM_PING 7 9 0 1 [Evt 3 DNODE_ALIVE 0 0]).
Definition ack_9 : list Z := swim_bytes (Pkt SWIM_MAGIC SWIM_VERSION SWIM_ACK 2 9 9 0 []).
Definition talk_9 : list event := [Run 0; Rx 1 7 ping_9; Run 2; Run 3; Run 4; Rx 5 7 ack_9; Run 6; Rx 7 7 ping_9].

Lemma turns_only c n I s k t : others_run c n I s (replicate k (Run t)).
Proof. revert s. induction k as [|k IH]; intros s; [done|]. by split; [|apply IH]. Qed.
Lemma others_run_app c n I es es' s : others_run c n I s es -> others_run c n I (fst (run c es s)) es' -> others_run c n I s (es ++ es').
Proof.
  revert s. induction es as [|e es IH]; intros s; [done|]. intros [He Hes] Hes'. split; [exact He|]. by apply IH.
Qed.

Example silence_detected_witness :
  state_of (fst (run (node_cfg 0) (talk_9 ++ replicate 1400 (Run 8)) two_peers)) 3 = DNODE_DEAD.
Proof.
  apply (silence_detected (node_cfg 0) two_peers 3); [done|done|done|done|done|done|by left| |].
  - assert (forall now s', others_event (node_cfg 0) 3 (dnode_incarn two_peers 3) s' (Rx now 7 ping_9)) as Hping.
    { intros now s' _. split; [vm_compute; discriminate|]. split; [|split; intros Ha; vm_compute in Ha; discriminate].
      replace (rumors (swim_view ping_9)) with [Evt 3 DNODE_ALIVE 0 0] by (vm_compute; reflexivity).
      apply list.Forall_singleton. intros _. left. vm_compute. discriminate. }
    apply others_run_app; [|apply turns_only]. split; [exact I|]. split; [apply Hping|]. do 3 (split; [exact I|]).
    split; [|split; [exact I|split; [apply Hping|exact I]]].
    intros _. split; [vm_compute; discriminate|]. split; [|split; [intros _; vm_compute; discriminate|intros _ _ _; vm_compute; reflexivity]].
    replace (rumors (swim_view ack_9)) with (@nil SWIM_GOSSIP_EVT) by (vm_compute; reflexivity). constructor.
  - apply (bool_decide_unpack _). vm_compute. exact I.
Defined.

(** ** Refutation *)

Definition bad (st : Z) : Prop := st = DNODE_SUSPECT \/ st = DNODE_DEAD.

Lemma refute_result c now src e s : g_node e = drpc_my_node c -> bad (g_state e) ->
  let s' := fst (apply_rumor c now src e s) in
  my_incarnation s' = u8 (if my_incarnation s <=? g_incarnation e then g_incarnation e + 1 else my_incarnation s + 1) /\
  (exists cap, Queued (drpc_my_node c) DNODE_ALIVE (my_incarnation s') GOSSIP_TTL cap ∈ gq s') /\
  dnode_table s' = dnode_table s.
Proof.
  intros He Hb. cbv zeta. unfold apply_rumor. rewrite He, Z.eqb_refl.
  replace ((g_state e =? DNODE_SUSPECT) || (g_state e =? DNODE_DEAD)) with true by (destruct Hb as [-> | ->]; done).
  unfold refute. rewrite !fst_seq. unfold modify. cbn [fst].
  set (s1 := fst (look _ s)). assert (my_incarnation s1 = my_incarnation s /\ gq s1 = gq s /\ dnode_table s1 = dnode_table s) as (E1 & E2 & E3).
  { subst s1. unfold look, andthen, modify. cbn [fst]. destruct (fst (self_scatter_due now (scatter s))); done. }
  clearbody s1. set (s2 := set_my_incarnation _ s1). set (s3 := gossip_add _ _ _ _ s2).
  assert (forall s', same s' (SELF_APPLY_OWN_CAPABILITY c s')) as Hs by apply same_self.
  destruct (Hs s3) as (-> & -> & _ & -> & _). subst s3 s2. cbn [gossip_add set_gq my_incarnation set_my_incarnation dnode_table gq].
  split; [by rewrite E1|]. split; [|done]. eexists.
  set (q := Queued _ _ _ _ _). assert (q ∈ gossip_insert q (gq s1)) as Hin; [|exact Hin].
  unfold gossip_insert. pose proof (gq_replace_spec q (gq s1)) as Hr. destruct (gq_replace q (gq s1)) as [q'|]; [apply Hr|].
  dif E; bools; [apply elem_of_app; right; by left|]. destruct (gq s1) as [|x r]; [done|].
  pose proof (gq_min_range r 1 0 x ltac:(lia)) as Hm. rewrite <- (Z2Nat.id (gq_min r 1 0 x)) by lia. rewrite setz_nat.
  apply list_elem_of_lookup. exists (Z.to_nat (gq_min r 1 0 x)). rewrite list_lookup_insert_eq; [done|].
  unfold lenz in Hm. cbn [length]. lia.
Qed.

(** A refutation wins. A node that is told that it is suspect or dead puts
    into its queue the rumour that it is alive, at an incarnation above the one
    it heard and the one it had, which supersedes the rumour it heard wherever
    that is held; so a peer that holds it and hears the answer holds the node
    alive. This needs both incarnations to be below 255, the last of the byte. *)
Theorem refutation_wins c now src e s (Hself : g_node e = drpc_my_node c) (Hbad : bad (g_state e)) (Hi : is_u8 (g_incarnation e))
    (Hmine : is_u8 (my_incarnation s)) (Hlast : g_incarnation e < 255) (Hlast' : my_incarnation s < 255) :
  let s' := fst (apply_rumor c now src e s) in
  my_incarnation s < my_incarnation s' /\
  (exists cap, Queued (drpc_my_node c) DNODE_ALIVE (my_incarnation s') GOSSIP_TTL cap ∈ gq s') /\
  gossip_supersedes (my_incarnation s') DNODE_ALIVE (g_incarnation e) (g_state e) = true /\
  forall peer p now' cap, g_node e <> drpc_my_node peer -> 0 <= g_node e < DNODE_MAX -> fresh p ->
    believes p (g_node e) = carries e ->
    state_of (fst (apply_rumor peer now' (g_node e) (Evt (g_node e) DNODE_ALIVE (my_incarnation s') cap) p)) (g_node e) = DNODE_ALIVE.
Proof.
  intros s'. destruct (refute_result c now src e s Hself Hbad) as (R1 & R2 & _). fold s' in R1, R2.
  assert (g_incarnation e < my_incarnation s' <= 255 /\ my_incarnation s < my_incarnation s') as [Hm Hm'].
  { rewrite R1. unfold is_u8 in *. rewrite u8_small by (unfold is_u8; ifs; lia). ifs; bools; lia. }
  split; [lia|]. split; [done|]. split.
  - unfold gossip_supersedes. ifs; lia.
  - intros peer p now' cap Hp Hn Hf Hb. set (ans := Evt _ _ _ _).
    assert (evt_ok ans) as Ha by (split; [by left|unfold is_u8 in *; cbn; lia]).
    destruct (rumor_merges peer now' (g_node e) ans p (g_node e) Hf Ha) as [F E].
    cbn [ans g_node] in E. rewrite Z.eqb_refl, (proj2 (Z.eqb_neq _ _) Hp), (proj2 (Z.ltb_lt _ DNODE_MAX)) in E by lia. cbn [negb andb] in E.
    assert (carries e ⊕ carries ans = carries ans) as Hj.
    { unfold carries, join, belief_join, newer. cbn [ans g_incarnation g_state fst snd]. by rewrite (proj2 (Z.ltb_lt (g_incarnation e) (my_incarnation s'))) by lia. }
    rewrite Hb, Hj in E. unfold believes, carries in E. cbn [ans g_incarnation g_state] in E.
    set (t := fst (apply_rumor peer now' (g_node e) ans p)) in *. destruct (state_of t (g_node e) =? DNODE_UNKNOWN) eqn:Eu; [done|]. bools.
    injection E as _ Er. destruct (F (g_node e)) as [[? _]|Hk]; [done|]. by apply known_rank; [|left|].
Qed.

Example refutation_wins_witness :
  let s' := fst (apply_rumor (node_cfg 7) 0 1 (Evt 7 DNODE_DEAD 4 0) (fst (task_begin swim0))) in my_incarnation s' = 5.
Proof.
  intros s'. destruct (refutation_wins (node_cfg 7) 0 1 (Evt 7 DNODE_DEAD 4 0) (fst (task_begin swim0))) as (_ & _ & H & _);
    [done|by right|by apply (bool_decide_unpack _)|by apply (bool_decide_unpack _)|done|done|]. vm_compute. reflexivity.
Defined.

(** ** What the probing gets wrong *)

(** At the last incarnation the answer is number 0, which never wins, however
    often the rumour returns. *)
Lemma last_incarnation_stuck c now src s : is_u8 (my_incarnation s) ->
  let e := Evt (drpc_my_node c) DNODE_DEAD 255 0 in
  let s' := fst (apply_rumor c now src e s) in
  my_incarnation s' = 0 /\ gossip_supersedes (my_incarnation s') DNODE_ALIVE 255 DNODE_DEAD = false.
Proof.
  intros Hm e s'. destruct (refute_result c now src e s eq_refl (or_intror eq_refl)) as (R & _). fold s' in R.
  assert (my_incarnation s' = 0) as E; [|by rewrite E].
  rewrite R. cbn [e g_incarnation]. rewrite (proj2 (Z.leb_le _ 255)) by (unfold is_u8 in Hm; lia). done.
Qed.

(** A rumour that a peer never heard of is dead is not ignored. *)
Lemma unknown_dead_adopted c now src n inc cap s : n <> drpc_my_node c -> 0 <= n < DNODE_MAX -> 0 <= inc ->
  state_of s n = DNODE_UNKNOWN -> dnode_incarn s n = 0 ->
  state_of (fst (apply_rumor c now src (Evt n DNODE_DEAD inc cap) s)) n = DNODE_DEAD.
Proof.
  intros Hn Hr Hi Hu H0. unfold apply_rumor. cbn [g_node g_state g_incarnation g_capability].
  rewrite (proj2 (Z.eqb_neq _ _) Hn), (proj2 (Z.leb_gt DNODE_MAX n)) by lia. unfold look.
  replace ((state_of s n =? DNODE_UNKNOWN) && _) with false by (by rewrite andb_false_r).
  rewrite supersedes_newer, Hu, H0. unfold newer. cbn [fst snd].
  replace ((0 <? inc) || ((inc =? 0) && (state_rank DNODE_UNKNOWN <? state_rank DNODE_DEAD))) with true
    by (change (state_rank DNODE_UNKNOWN <? state_rank DNODE_DEAD) with true; lia). cbn [negb].
  rewrite <- Hu. destruct (accept_learns n DNODE_DEAD inc cap (state_of s n) s eq_refl n) as [-> _]. by rewrite Z.eqb_refl.
Qed.

(** A packet of type ACK makes a node send nothing of version 1, so a helper
    does not pass the answer of the probed node on. *)
Lemma ack_not_forwarded c ip p s : type p = SWIM_ACK -> snd (on_type c ip p s) = [].
Proof. intros Ht. unfold on_type. by rewrite Ht. Qed.

(** An answer of peer 1 that arrives after its round has ended releases the
    next wait: peer 2 is taken for alive, with a round trip of 0, although it
    sent nothing. *)
Definition three_nodes : swim :=
  set_dnodes (upd (upd (fun _ => dnode0) 1 (Dnode 1 0 DNODE_ALIVE 0)) 2 (Dnode 2 0 DNODE_SUSPECT 0)) (fst (task_begin swim0)).
Definition late_answer : list Z := swim_bytes (Pkt SWIM_MAGIC SWIM_VERSION SWIM_ACK 2 1 1 0 []).

Lemma late_answer_credits_next :
  let s := fst (run (node_cfg 0) [Run 1000; Run 1400; Run 1900; Rx 2000 7 late_answer; Run 2900; Run 2900] three_nodes) in
  state_of s 2 = DNODE_ALIVE /\ rtt_valid s 2 = true /\ rtt_ewma_ms s 2 = 0.
Proof. vm_compute. done. Qed.
