(* ===== verification/Region.v ===== *)
(** * Regions and the roles in them: src/arch/common/region.c

    A node's region is itself and the live peers whose round trip is within a
    threshold. Its coordinator, its supernode and its teacher are computed from
    the membership table by every node for itself; there is no election. The
    capability tables are in Swim.v, the self-tests and the display are not
    modelled. The theorems say what is computed, so that nodes with the same view
    agree. *)

From stdpp Require Import list.
#[local] Open Scope Z_scope.
From S2P Require Import Prelude.
From S2P Require Import Node.
From S2P Require Import Nodemap.
From S2P Require Import Swim.
From S2P Require Import SwimWide.
From S2P Require Import SwimFacts.
From S2P Require Import SwimRun.

Definition REGION_TAU_MS : Z := 50.
Definition region_set_tau_ms (tau_ms : Z) : Z := if tau_ms =? 0 then REGION_TAU_MS else tau_ms.

(** The last computed region: members by row, their number, the coordinator. *)
Record region : Type := Region { member : array bool; member_cnt : Z; coord : Z }.

Definition in_tau (c : config) (tau : Z) (s : swim) (n : Z) : bool :=
  let rtt := swim_rtt_ms c s n in negb (rtt =? NO_RTT) && (rtt <=? tau).

(** A peer joins the region at its row. *)
Definition take_in (r id : Z) (g : region) : region :=
  Region (upd (member g) r true) (u8 (member_cnt g + 1)) (if id <? coord g then id else coord g).

Definition narrow_member (c : config) (tau : Z) (s : swim) (n : Z) : bool :=
  negb (n =? drpc_my_node c) && (state_of s n =? DNODE_ALIVE) && in_tau c tau s n.

Definition add_narrow (c : config) (tau : Z) (s : swim) (n : Z) (g : region) : region :=
  if narrow_member c tau s n then take_in n n g else g.

(** A wide peer needs a row; [s] is the state the times are read from. *)
Definition add_wide (c : config) (tau : Z) (s : swim) (g : region * rows) (id : Z) : region * rows :=
  if (id =? drpc_my_node c) || negb (in_tau c tau s id) then g
  else
    let r := pk_node_row (snd g) id in
    if (fst r <? 0) || member (fst g) (fst r) then (fst g, snd r) else (take_in (fst r) id (fst g), snd r).

Definition no_region : region := Region (fun _ => false) 0 0xFF.

(** The region, and the row table afterwards. *)
Definition region_recompute (c : config) (tau : Z) (s : swim) : region * rows :=
  let me := drpc_my_node c in
  if me =? 0xFF then (no_region, row_table (caps s))
  else
    let r := pk_node_row (row_table (caps s)) me in
    let g := Region (if 0 <=? fst r then upd (fun _ => false) (fst r) true else fun _ => false) 1 me in
    let g := for_up (Z.to_nat DNODE_MAX) 0 (add_narrow c tau s) g in
    fold_left (add_wide c tau s) (swim_wide_alive (wide s) DREGION_MAX) (g, snd r).

Definition supernode_select (mbr cap : array bool) : Z :=
  match List.filter (fun n => mbr n && cap n) (seqZ 0 DNODE_MAX) with [] => 0xFF | n :: _ => n end.
Definition teacher_select (mbr tch : array bool) : Z :=
  match List.filter (fun n => mbr n && tch n) (seqZ 0 DNODE_MAX) with [] => 0xFF | n :: _ => n end.

Definition region_of (c : config) (tau : Z) (s : swim) : region := fst (region_recompute c tau s).
Definition region_supernode (c : config) (tau : Z) (s : swim) : Z :=
  let s := region_super_init c s in supernode_select (member (region_of c tau s)) (super_capable (caps s)).
Definition region_teacher (c : config) (tau : Z) (s : swim) : Z :=
  teacher_select (member (region_of c tau s)) (teacher_capable (caps s)).
Definition region_coordinator (c : config) (tau : Z) (s : swim) : Z := coord (region_of c tau s).
Definition region_size (c : config) (tau : Z) (s : swim) : Z := member_cnt (region_of c tau s).
Definition region_is_member (g : region) (t : rows) (n : Z) : bool :=
  let r := pk_node_row_find t n in (0 <=? r) && member g r.
Definition region_contains (c : config) (tau : Z) (s : swim) (n : Z) : bool :=
  let r := region_recompute c tau s in region_is_member (fst r) (snd r) n.

Definition narrow_count_ids (others : list Z) (me : Z) : Z :=
  u8 (1 + countz (fun id => negb (id =? me) && (id <? DNODE_MAX)) others).
Definition region_size_narrow (c : config) (tau : Z) (s : swim) : Z :=
  let r := region_recompute c tau s in
  if drpc_my_node c =? 0xFF then member_cnt (fst r)
  else
    let ids := map (pk_node_of_row (snd r)) (List.filter (member (fst r)) (seqZ 0 DNODE_ROWS)) in
    narrow_count_ids (List.filter (fun id => negb (id =? PK_NODE_NONE) && negb (id =? drpc_my_node c)) ids) (drpc_my_node c).

(** ** What is computed *)

Lemma take_in_spec r id g : let g' := take_in r id g in
  coord g' = Z.min id (coord g) /\ (forall k, member g' k = (k =? r) || member g k).
Proof. unfold take_in, upd. cbn [coord member]. split; [ifs; lia|]. intros k. by destruct (k =? r). Qed.

(** The loop over the narrow peers. *)
Lemma narrow_loop c tau s n g : (n <= Z.to_nat DNODE_MAX)%nat ->
  let g' := for_up n 0 (add_narrow c tau s) g in
  (forall k, member g' k = member g k || ((0 <=? k) && (k <? Z.of_nat n) && narrow_member c tau s k)) /\
  coord g' <= coord g /\
  (forall k, 0 <= k < Z.of_nat n -> narrow_member c tau s k = true -> coord g' <= k) /\
  (coord g' = coord g \/ (0 <= coord g' < Z.of_nat n /\ narrow_member c tau s (coord g') = true)).
Proof.
  intros _. induction n as [|n IH]; cbn zeta.
  - cbn [for_up]. change (Z.of_nat 0) with 0. split_and!; [|lia|lia|by left].
    intros k. assert ((0 <=? k) && (k <? 0) = false) as -> by (destruct (Z.leb_spec 0 k), (Z.ltb_spec k 0); (done || lia)). by rewrite orb_false_r.
  - rewrite for_up_last, Z.add_0_l, Nat2Z.inj_succ. pose proof (Nat2Z.is_nonneg n). destruct IH as (I1 & I2 & I3 & I4). set (g1 := for_up n 0 (add_narrow c tau s) g) in *. clearbody g1.
    unfold add_narrow. destruct (narrow_member c tau s (Z.of_nat n)) eqn:E.
    + destruct (take_in_spec (Z.of_nat n) (Z.of_nat n) g1) as [A1 A2]. rewrite A1. split_and!.
      * intros k. rewrite A2, I1. destruct (Z.eqb_spec k (Z.of_nat n)) as [->|Hne].
        -- rewrite E, (proj2 (Z.leb_le 0 (Z.of_nat n))), (proj2 (Z.ltb_lt (Z.of_nat n) (Z.succ (Z.of_nat n)))) by lia. by rewrite orb_true_r.
        -- assert ((k <? Z.succ (Z.of_nat n)) = (k <? Z.of_nat n)) as ->; [|done]. destruct (Z.ltb_spec k (Z.of_nat n)); [apply Z.ltb_lt; lia|apply Z.ltb_ge; lia].
      * lia.
      * intros k Hk Hm. destruct (decide (k = Z.of_nat n)) as [->|]; [lia|]. specialize (I3 k ltac:(lia) Hm). lia.
      * destruct (Z.min_spec (Z.of_nat n) (coord g1)) as [[_ ->]|[_ ->]]; [right; split; [lia|done]|].
        destruct I4 as [I4|[I4 I5]]; [by left|right; split; [lia|done]].
    + split_and!.
      * intros k. rewrite I1. destruct (Z.eqb_spec k (Z.of_nat n)) as [->|Hne].
        -- rewrite E. by rewrite !andb_false_r.
        -- assert ((k <? Z.succ (Z.of_nat n)) = (k <? Z.of_nat n)) as ->; [|done]. destruct (Z.ltb_spec k (Z.of_nat n)); [apply Z.ltb_lt; lia|apply Z.ltb_ge; lia].
      * lia.
      * intros k Hk Hm. destruct (decide (k = Z.of_nat n)) as [->|]; [congruence|]. apply I3; [lia|done].
      * destruct I4 as [I4|[I4 I5]]; [by left|right; split; [lia|done]].
Qed.

(** A wide id gets a row past the narrow ones. *)
Lemma row_scan_range ids id i : 0 <= i -> row_scan ids id i = -1 \/ DNODE_MAX <= row_scan ids id i.
Proof.
  revert i. induction ids as [|x l IH]; intros i Hi; cbn [row_scan]; [by left|]. destruct (x =? id); [right; lia|]. apply IH. lia.
Qed.

Lemma wide_row t id : DNODE_MAX <= id -> fst (pk_node_row t id) < 0 \/ DNODE_MAX <= fst (pk_node_row t id).
Proof.
  intros Hid. unfold pk_node_row. rewrite (proj2 (Z.ltb_ge _ _)) by done. destruct (_ || _); [by left|].
  pose proof (row_scan_range (row_id t) id 0 ltac:(lia)) as Hr. pose proof (lenz_nonneg (row_id t)). unfold row_lookup in *.
  ifs; cbn [fst]; lia.
Qed.

(** The wide peers leave the narrow rows and a narrow coordinator alone. *)
Lemma wide_loop c tau s ids g : Forall (fun id => DNODE_MAX <= id) ids -> coord (fst g) < DNODE_MAX ->
  let g' := fold_left (add_wide c tau s) ids g in
  coord (fst g') = coord (fst g) /\ forall k, 0 <= k < DNODE_MAX -> member (fst g') k = member (fst g) k.
Proof.
  intros Hids. revert g. induction Hids as [|id ids Hid _ IH]; intros g Hg; [done|]. cbn [fold_left].
  assert (coord (fst (add_wide c tau s g id)) = coord (fst g) /\
    forall k, 0 <= k < DNODE_MAX -> member (fst (add_wide c tau s g id)) k = member (fst g) k) as [E1 E2].
  { unfold add_wide. destruct (_ || _); [done|]. destruct (_ || member _ _) eqn:E; [done|]. bools. cbn [fst].
    destruct (wide_row (snd g) id Hid) as [Hr|Hr]; [lia|]. destruct (take_in_spec (fst (pk_node_row (snd g) id)) id (fst g)) as [A1 A2].
    split; [lia|]. intros k Hk. rewrite A2. rewrite (proj2 (Z.eqb_neq _ _)) by lia. done. }
  destruct (IH (add_wide c tau s g id)) as [I1 I2]; [by rewrite E1|]. split; [by rewrite I1|]. intros k Hk. by rewrite I2, E2.
Qed.

Lemma used_wide w k : map_ok (wide_map w) -> 0 <= k < DREGION_MAX -> slot_used w k = true -> DNODE_MAX <= slot_id w k.
Proof.
  intros [Hm Hw] Hk Hu. unfold slot_used, slot_id, nm_at in *. pose proof (nm_len _ Hm) as Hl. unfold lenz, DREGION_MAX in *.
  destruct (lookup_lt_is_Some_2 (slots (wide_map w)) (Z.to_nat k)) as [x Hx]; [lia|].
  assert (getz (slots (wide_map w)) k nm_free = x) as Ex by (rewrite <- (Z2Nat.id k) by lia; by apply getz_nat).
  rewrite Ex in *. assert (PK_NODE_IS_WIDE (nm_id x) = true) as Hp by (apply (Hw k); exists (Z.to_nat k), x; split_and!; [lia|done..]).
  unfold PK_NODE_IS_WIDE in Hp. unfold DNODE_MAX. lia.
Qed.

Lemma wide_alive_wide w max : map_ok (wide_map w) -> Forall (fun id => DNODE_MAX <= id) (swim_wide_alive w max).
Proof.
  intros Hmap. unfold swim_wide_alive. apply Forall_take.
  assert (forall ks, Forall (fun k => 0 <= k < DREGION_MAX) ks ->
    Forall (fun id => DNODE_MAX <= id) (map (slot_id w) (List.filter (fun k => slot_used w k && (slot_state w k =? DNODE_ALIVE)) ks))) as H.
  { intros ks. induction 1 as [|k ks Hk _ IH]; [constructor|]. cbn [List.filter]. destruct (_ && _) eqn:E; [|done].
    bools. cbn [map]. constructor; [by apply used_wide|done]. }
  apply H, list.Forall_forall. intros k Hk. apply elem_of_seqZ in Hk. lia.
Qed.

(** The narrow members. *)
Definition is_member (c : config) (tau : Z) (s : swim) (n : Z) : bool := (n =? drpc_my_node c) || narrow_member c tau s n.

Definition computed (c : config) (tau : Z) (s : swim) (g : region) : Prop :=
  (forall n, 0 <= n < DNODE_MAX -> member g n = is_member c tau s n) /\
  0 <= coord g < DNODE_MAX /\ is_member c tau s (coord g) = true /\
  (forall n, 0 <= n < DNODE_MAX -> is_member c tau s n = true -> coord g <= n).

Lemma loops_compute c tau s n ids t : Z.of_nat n = DNODE_MAX -> 0 <= drpc_my_node c < DNODE_MAX -> Forall (fun id => DNODE_MAX <= id) ids ->
  computed c tau s (fst (fold_left (add_wide c tau s) ids
    (for_up n 0 (add_narrow c tau s) (Region (upd (fun _ => false) (drpc_my_node c) true) 1 (drpc_my_node c)), t))).
Proof.
  intros En Hme Hids. set (g0 := Region _ _ _). destruct (narrow_loop c tau s n g0) as (N1 & N2 & N3 & N4); [unfold DNODE_MAX in *; lia|].
  generalize dependent (for_up n 0 (add_narrow c tau s) g0). intros g1 N1 N2 N3 N4. rewrite En in *.
  cbn [g0 coord member] in N1, N2, N4.
  destruct (wide_loop c tau s ids (g1, t) Hids) as [W1 W2]; [cbn [fst]; lia|]. cbn [fst] in W1, W2.
  generalize dependent (fst (fold_left (add_wide c tau s) ids (g1, t))). intros g W1 W2.
  assert (forall n, 0 <= n < DNODE_MAX -> member g n = is_member c tau s n) as Hm.
  { intros k Hk. rewrite W2, N1 by done. unfold is_member, upd.
    rewrite (proj2 (Z.leb_le 0 k)), (proj2 (Z.ltb_lt k DNODE_MAX)) by lia. cbn [andb]. by destruct (k =? drpc_my_node c). }
  split; [done|]. rewrite W1. split; [destruct N4 as [->|[? _]]; lia|]. unfold is_member. split.
  - destruct N4 as [->|[_ ->]]; [by rewrite Z.eqb_refl|by rewrite orb_true_r].
  - intros k Hk H. apply orb_true_iff in H as [H|H]; [bools; lia|]. by apply N3.
Qed.

Lemma region_narrow c tau s : 0 <= drpc_my_node c < DNODE_MAX -> map_ok (wide_map (wide s)) -> computed c tau s (region_of c tau s).
Proof.
  intros Hme Hmap. unfold region_of, region_recompute. rewrite (proj2 (Z.eqb_neq _ 0xFF)) by (unfold DNODE_MAX in *; lia).
  assert (pk_node_row (row_table (caps s)) (drpc_my_node c) = (drpc_my_node c, row_table (caps s))) as ->
    by (unfold pk_node_row; by rewrite (proj2 (Z.ltb_lt _ _)) by lia).
  cbn [fst snd]. rewrite (proj2 (Z.leb_le 0 _)) by lia. apply loops_compute; [done|done|]. by apply wide_alive_wide.
Qed.

(** The selection takes the least id that qualifies. *)
Lemma least_spec p : match List.filter p (seqZ 0 DNODE_MAX) with
  | [] => forall n, 0 <= n < DNODE_MAX -> p n = false
  | x :: _ => 0 <= x < DNODE_MAX /\ p x = true /\ forall n, 0 <= n < DNODE_MAX -> p n = true -> x <= n
  end.
Proof.
  assert (forall k m, match List.filter p (seqZ m (Z.of_nat k)) with
    | [] => forall n, m <= n < m + Z.of_nat k -> p n = false
    | x :: _ => m <= x < m + Z.of_nat k /\ p x = true /\ forall n, m <= n < m + Z.of_nat k -> p n = true -> x <= n end) as H.
  { induction k as [|k IH]; intros m; [intros n Hn; lia|]. rewrite seqZ_cons by lia. cbn [List.filter].
    replace (Z.pred (Z.of_nat (S k))) with (Z.of_nat k) by lia. specialize (IH (Z.succ m)). destruct (p m) eqn:E.
    - split; [lia|]. split; [done|]. intros n Hn _. lia.
    - destruct (List.filter p (seqZ (Z.succ m) (Z.of_nat k))) as [|x l].
      + intros n Hn. destruct (decide (n = m)) as [->|]; [done|]. apply IH. lia.
      + destruct IH as (I1 & I2 & I3). split; [lia|]. split; [done|]. intros n Hn Hp. destruct (decide (n = m)) as [->|]; [congruence|]. apply I3; [lia|done]. }
  apply (H 64%nat 0).
Qed.

(** The roles are agreed without a vote. Two nodes of the narrow ids that see
    the same narrow members, themselves included, compute the same coordinator,
    which is the least member; if they also know the same members to be capable
    they compute the same teacher, the least capable member, or none when there
    is no capable member. *)
Theorem roles_agree c c' tau tau' s s' (Hme : 0 <= drpc_my_node c < DNODE_MAX) (Hme' : 0 <= drpc_my_node c' < DNODE_MAX)
    (Hmap : map_ok (wide_map (wide s))) (Hmap' : map_ok (wide_map (wide s')))
    (Hsame : forall n, 0 <= n < DNODE_MAX -> is_member c tau s n = is_member c' tau' s' n)
    (Hcap : forall n, 0 <= n < DNODE_MAX -> is_member c tau s n = true -> teacher_capable (caps s) n = teacher_capable (caps s') n) :
  region_coordinator c tau s = region_coordinator c' tau' s' /\
  is_member c tau s (region_coordinator c tau s) = true /\
  (forall n, 0 <= n < DNODE_MAX -> is_member c tau s n = true -> region_coordinator c tau s <= n) /\
  region_teacher c tau s = region_teacher c' tau' s' /\
  ((region_teacher c tau s = 0xFF /\ forall n, 0 <= n < DNODE_MAX -> is_member c tau s n && teacher_capable (caps s) n = false) \/
   (is_member c tau s (region_teacher c tau s) && teacher_capable (caps s) (region_teacher c tau s) = true /\
    forall n, 0 <= n < DNODE_MAX -> is_member c tau s n && teacher_capable (caps s) n = true -> region_teacher c tau s <= n)).
Proof.
  destruct (region_narrow c tau s Hme Hmap) as (M & R1 & R2 & R3), (region_narrow c' tau' s' Hme' Hmap') as (M' & R1' & R2' & R3').
  assert (forall n, 0 <= n < DNODE_MAX -> member (region_of c tau s) n && teacher_capable (caps s) n =
    member (region_of c' tau' s') n && teacher_capable (caps s') n) as Hq.
  { intros n Hn. rewrite M, M', <- Hsame by done. destruct (is_member c tau s n) eqn:E; [|done]. by rewrite Hcap. }
  split_and!; [|done|done| |].
  - unfold region_coordinator. rewrite <- Hsame in R2' by done. rewrite Hsame in R2 by done.
    pose proof (R3' _ R1 R2). pose proof (R3 _ R1' R2'). lia.
  - unfold region_teacher, teacher_select. 
    rewrite (List.filter_ext_in (fun n => member (region_of c tau s) n && teacher_capable (caps s) n)
      (fun n => member (region_of c' tau' s') n && teacher_capable (caps s') n)); [done|].
    intros n Hn. apply Hq. apply list_elem_of_In, elem_of_seqZ in Hn. lia.
  - unfold region_teacher, teacher_select. pose proof (least_spec (fun n => member (region_of c tau s) n && teacher_capable (caps s) n)) as H.
    destruct (List.filter _ _) as [|x l].
    + left. split; [done|]. intros n Hn. rewrite <- M by done. by apply H.
    + right. destruct H as (H1 & H2 & H3). rewrite <- M by done. split; [done|]. intros n Hn. rewrite <- M by done. by apply H3.
Qed.

(** A view with one alive peer, 10 ms away, that said it can teach. *)
Definition view_of (peer : Z) : swim :=
  set_caps (Capable (fun _ => false) (fun n => n =? 5) true rows0)
    (set_rtt (upd (fun _ => 0) peer 10) (upd (fun _ => false) peer true)
      (set_dnodes (upd (fun _ => dnode0) peer (Dnode peer 0 DNODE_ALIVE 0)) swim0)).

Example roles_agree_witness :
  region_coordinator (node_cfg 2) 50 (view_of 5) = region_coordinator (node_cfg 5) 50 (view_of 2) /\
  region_teacher (node_cfg 2) 50 (view_of 5) = 5.
Proof.
  assert (forall n, 0 <= n < DNODE_MAX -> is_member (node_cfg 2) 50 (view_of 5) n = is_member (node_cfg 5) 50 (view_of 2) n) as Hs.
  { assert (Forall (fun n => is_member (node_cfg 2) 50 (view_of 5) n = is_member (node_cfg 5) 50 (view_of 2) n) (seqZ 0 64)) as H
      by (apply (bool_decide_unpack _); vm_compute; exact I).
    intros n Hn. rewrite list.Forall_forall in H. apply H, elem_of_seqZ. unfold DNODE_MAX in Hn. lia. }
  pose proof (so_map _ _ (swim0_ok (node_cfg 2))) as Hm.
  destruct (roles_agree (node_cfg 2) (node_cfg 5) 50 50 (view_of 5) (view_of 2)) as (H & _); [done|done|exact Hm|exact Hm|exact Hs|done|].
  split; [exact H|vm_compute; reflexivity].
Defined.
