(* ===== verification/Durable.v ===== *)
(** * The durable store behind the block table

    The block table of pfs_block.c reaches its disk through six functions it
    declares itself; this file is that interface. [Durable] has the operations,
    [DurableOk] what the table relies on: what a write accepted is read back,
    and an operation on one block leaves the others alone. FlatDisk.v discharges
    it for the directory of files. Also here: the names of block files. *)

From stdpp Require Import list.
#[local] Open Scope Z_scope.
From S2P Require Import Prelude.
From S2P Require Import Sha256.

Definition PFS_ID_LEN : Z := 32.
Definition PFS_BLOCK_MAX : Z := 4096.
Definition PFS_DUR_HEX_LEN : Z := 64.

(** ** Names of block files: the id in lowercase hexadecimal *)

Definition hexd (n : Z) : Z := if n <? 10 then 48 + n else 87 + n.

Definition id_to_hex (id : list Z) : list Z :=
  concat (map (fun b => [hexd (Z.land (Z.shiftr b 4) 0xF); hexd (Z.land b 0xF)]) id).

Definition hex_nibble (c : Z) : Z :=
  if (48 <=? c) && (c <=? 57) then c - 48
  else if (97 <=? c) && (c <=? 102) then c - 97 + 10
  else if (65 <=? c) && (c <=? 70) then c - 65 + 10
  else -1.

(** The first [n] bytes of the id a name claims, or [None] at the first
    character that is not a hexadecimal digit. *)
Fixpoint name_id (n : nat) (name : list Z) : option (list Z) :=
  match n with
  | O => Some []
  | S k =>
      let hi := hex_nibble (getz name 0 0) in
      let lo := hex_nibble (getz name 1 0) in
      if (hi <? 0) || (lo <? 0) then None
      else r ← name_id k (drop 2 name); Some (Z.lor (Z.shiftl hi 4) lo :: r)
  end.

Definition hex_char (c : Z) : bool := ((48 <=? c) && (c <=? 57)) || ((97 <=? c) && (c <=? 102)).

(** A name of exactly 64 lowercase hexadecimal digits. *)
Definition is_block_name (s : list Z) : bool := forallb hex_char s && (lenz s =? PFS_DUR_HEX_LEN).

(** The file the references are kept in, beside the block files: refs.tab. *)
Definition PFSD_REFTAB_FILE : list Z := [114; 101; 102; 115; 46; 116; 97; 98].

(** The names the store is used with. *)
Definition is_dur_name (s : list Z) : bool := is_block_name s || bool_decide (s = PFSD_REFTAB_FILE).

Lemma block_dur_name s : is_block_name s = true -> is_dur_name s = true.
Proof. unfold is_dur_name. by intros ->. Qed.

Lemma hexd_spec n : 0 <= n < 16 -> hex_nibble (hexd n) = n /\ hex_char (hexd n) = true.
Proof.
  intros Hn. assert (Forall (fun n => hex_nibble (hexd n) = n /\ hex_char (hexd n) = true) (seqZ 0 16)) as H
    by (apply (bool_decide_unpack _); vm_compute; exact I).
  rewrite Forall_elem in H. apply H, elem_of_seqZ. lia.
Qed.

Lemma nibbles b : is_u8 b -> 0 <= Z.land (Z.shiftr b 4) 0xF < 16 /\ 0 <= Z.land b 0xF < 16 /\
  Z.lor (Z.shiftl (Z.land (Z.shiftr b 4) 0xF) 4) (Z.land b 0xF) = b.
Proof.
  intros Hb. assert (Forall (fun b => 0 <= Z.land (Z.shiftr b 4) 0xF < 16 /\ 0 <= Z.land b 0xF < 16 /\
    Z.lor (Z.shiftl (Z.land (Z.shiftr b 4) 0xF) 4) (Z.land b 0xF) = b) (seqZ 0 256)) as H
    by (apply (bool_decide_unpack _); vm_compute; exact I).
  rewrite Forall_elem in H. apply H, elem_of_seqZ. unfold is_u8 in Hb. lia.
Qed.

Lemma name_id_hex id : Forall is_u8 id -> name_id (length id) (id_to_hex id) = Some id.
Proof.
  induction 1 as [|b id Hb _ IH]; [done|]. destruct (nibbles b Hb) as (H1 & H2 & H3).
  destruct (hexd_spec _ H1) as [E1 _], (hexd_spec _ H2) as [E2 _]. cbn [length name_id].
  change (id_to_hex (b :: id)) with (hexd (Z.land (Z.shiftr b 4) 0xF) :: hexd (Z.land b 0xF) :: id_to_hex id).
  assert (forall (x y : Z) l, getz (x :: y :: l) 0 0 = x /\ getz (x :: y :: l) 1 0 = y) as Hg by done.
  rewrite (proj1 (Hg _ _ _)), (proj2 (Hg _ _ _)). cbn [drop].
  rewrite E1, E2, (proj2 (Z.ltb_ge _ 0)), (proj2 (Z.ltb_ge (Z.land b 15) 0)) by lia. cbn [orb].
  change (drop 0 (id_to_hex id)) with (id_to_hex id). rewrite IH. cbn. by rewrite H3.
Qed.

Lemma id_to_hex_block id : Forall is_u8 id -> lenz id = PFS_ID_LEN -> is_block_name (id_to_hex id) = true.
Proof.
  intros Hid Hl. unfold is_block_name. apply andb_true_iff. split.
  - clear Hl. induction Hid as [|b id Hb _ IH]; [done|].
    change (id_to_hex (b :: id)) with (hexd (Z.land (Z.shiftr b 4) 0xF) :: hexd (Z.land b 0xF) :: id_to_hex id).
    destruct (nibbles b Hb) as (H1 & H2 & _). cbn [forallb].
    by rewrite (proj2 (hexd_spec _ H1)), (proj2 (hexd_spec _ H2)), IH.
  - apply Z.eqb_eq. unfold lenz, PFS_ID_LEN, PFS_DUR_HEX_LEN in *.
    assert (length (id_to_hex id) = 2 * length id)%nat; [|lia]. clear. induction id as [|b id IH]; [done|].
    change (id_to_hex (b :: id)) with (hexd (Z.land (Z.shiftr b 4) 0xF) :: hexd (Z.land b 0xF) :: id_to_hex id). cbn [length]. lia.
Qed.

Lemma id_to_hex_inj id id' : Forall is_u8 id -> Forall is_u8 id' -> length id = length id' ->
  id_to_hex id = id_to_hex id' -> id = id'.
Proof.
  intros H H' Hl E. pose proof (name_id_hex id H) as E1. rewrite E, Hl, (name_id_hex id' H') in E1. congruence.
Qed.

Lemma hex_char_spec c : hex_char c = true -> 0 <= hex_nibble c < 16 /\ hexd (hex_nibble c) = c.
Proof.
  intros Hc. assert (48 <= c < 103) as Hr by (unfold hex_char in Hc; lia).
  assert (Forall (fun c => hex_char c = true -> 0 <= hex_nibble c < 16 /\ hexd (hex_nibble c) = c) (seqZ 48 55)) as H
    by (apply (bool_decide_unpack _); vm_compute; exact I).
  rewrite Forall_elem in H. apply H; [|done]. apply elem_of_seqZ. lia.
Qed.

Lemma join_nibbles hi lo : 0 <= hi < 16 -> 0 <= lo < 16 ->
  Z.land (Z.shiftr (Z.lor (Z.shiftl hi 4) lo) 4) 0xF = hi /\ Z.land (Z.lor (Z.shiftl hi 4) lo) 0xF = lo.
Proof.
  intros Hh Hl.
  assert (Forall (fun hi => Forall (fun lo => Z.land (Z.shiftr (Z.lor (Z.shiftl hi 4) lo) 4) 0xF = hi /\
    Z.land (Z.lor (Z.shiftl hi 4) lo) 0xF = lo) (seqZ 0 16)) (seqZ 0 16)) as H by (apply (bool_decide_unpack _); vm_compute; exact I).
  rewrite Forall_elem in H. specialize (H hi ltac:(apply elem_of_seqZ; lia)).
  rewrite Forall_elem in H. apply H, elem_of_seqZ. lia.
Qed.

(** A block name is the name of the id it claims. *)
Lemma hex_name_id k n id : forallb hex_char n = true -> length n = (2 * k)%nat -> name_id k n = Some id -> id_to_hex id = n.
Proof.
  revert n id. induction k as [|k IH]; intros n id Hc Hl E; cbn [name_id] in E.
  - destruct n; [by injection E as <-|cbn in Hl; lia].
  - destruct n as [|c1 [|c2 n]]; try (cbn in Hl; lia). cbn [forallb] in Hc. bools.
    destruct (hex_char_spec _ H) as [R1 E1], (hex_char_spec _ H0) as [R2 E2].
    change (getz (c1 :: c2 :: n) 0 0) with c1 in E. change (getz (c1 :: c2 :: n) 1 0) with c2 in E.
    change (drop 2 (c1 :: c2 :: n)) with n in E. destruct (_ || _); [done|].
    destruct (name_id k n) as [r|] eqn:Er; [|done]. cbn in E. injection E as <-.
    destruct (join_nibbles _ _ R1 R2) as [J1 J2].
    match goal with |- id_to_hex (?b :: ?r) = _ =>
      change (id_to_hex (b :: r)) with (hexd (Z.land (Z.shiftr b 4) 0xF) :: hexd (Z.land b 0xF) :: id_to_hex r) end.
    rewrite J1, J2, E1, E2. do 2 f_equal. apply IH; [done|cbn in Hl; lia|done].
Qed.

(** ** The interface *)

Class Durable (D : Type) : Type := {
  pfs_ark_active : D -> bool;
  pfs_ark_put : list Z -> D -> bool * D;
  pfs_ark_get : list Z -> D -> option (list Z);
  pfs_dur_active : D -> bool;
  pfs_dur_write : list Z -> list Z -> D -> bool * D;
  pfs_dur_read : list Z -> D -> option (list Z);
  pfs_dur_remove : list Z -> D -> bool * D;
  pfs_dur_foreach : D -> list (list Z * list Z) }.

(** Where a block whose id is [id] would be read back from. *)
Definition behind {D} `{Durable D} (d : D) (id : list Z) : option (list Z) :=
  if pfs_ark_active d then pfs_ark_get id d
  else if pfs_dur_active d then pfs_dur_read (id_to_hex id) d else None.

(** [d] holds a block of the given id. *)
Definition holds {D} `{Durable D} (d : D) (id : list Z) : Prop :=
  exists b, behind d id = Some b /\ sha256 b = id /\ lenz b <= PFS_BLOCK_MAX.

Class DurableOk (D : Type) `{Durable D} : Type := {
  dur_ok : D -> Prop;
  dur_write_ok n b d : dur_ok d -> dur_ok (snd (pfs_dur_write n b d));
  dur_remove_ok n d : dur_ok d -> dur_ok (snd (pfs_dur_remove n d));
  dur_ark_ok b d : dur_ok d -> dur_ok (snd (pfs_ark_put b d));
  dur_write_modes n b d : pfs_ark_active (snd (pfs_dur_write n b d)) = pfs_ark_active d /\
    pfs_dur_active (snd (pfs_dur_write n b d)) = pfs_dur_active d;
  dur_remove_modes n d : pfs_ark_active (snd (pfs_dur_remove n d)) = pfs_ark_active d /\
    pfs_dur_active (snd (pfs_dur_remove n d)) = pfs_dur_active d;
  dur_ark_modes b d : pfs_ark_active (snd (pfs_ark_put b d)) = pfs_ark_active d /\
    pfs_dur_active (snd (pfs_ark_put b d)) = pfs_dur_active d;
  (** A write that was accepted is read back; no write disturbs another file. *)
  dur_write_back n b d : dur_ok d -> pfs_dur_active d = true -> is_dur_name n = true -> lenz b <= PFS_BLOCK_MAX ->
    fst (pfs_dur_write n b d) = true -> pfs_dur_read n (snd (pfs_dur_write n b d)) = Some b;
  dur_write_other n m b d : dur_ok d -> is_dur_name n = true -> is_dur_name m = true -> m <> n ->
    pfs_dur_read m (snd (pfs_dur_write n b d)) = pfs_dur_read m d;
  dur_write_failed n m b d : dur_ok d -> is_dur_name n = true -> is_dur_name m = true ->
    fst (pfs_dur_write n b d) = false -> pfs_dur_read m (snd (pfs_dur_write n b d)) = pfs_dur_read m d;
  dur_remove_other n m d : dur_ok d -> is_dur_name n = true -> is_dur_name m = true -> m <> n ->
    pfs_dur_read m (snd (pfs_dur_remove n d)) = pfs_dur_read m d;
  dur_remove_gone n d : dur_ok d -> fst (pfs_dur_remove n d) = true -> pfs_dur_read n (snd (pfs_dur_remove n d)) = None;
  dur_foreach_reads n b d : dur_ok d -> (n, b) ∈ pfs_dur_foreach d ->
    is_block_name n = true /\ pfs_dur_read n d = Some b;
  (** The log serves what it accepted, under the hash of its bytes, and never
      loses a block it serves. *)
  dur_ark_back b d : dur_ok d -> pfs_ark_active d = true -> lenz b <= PFS_BLOCK_MAX ->
    fst (pfs_ark_put b d) = true -> exists b', pfs_ark_get (sha256 b) (snd (pfs_ark_put b d)) = Some b' /\ sha256 b' = sha256 b /\
      lenz b' <= PFS_BLOCK_MAX;
  dur_ark_keeps b d id b' : dur_ok d -> pfs_ark_get id d = Some b' -> pfs_ark_get id (snd (pfs_ark_put b d)) = Some b' }.
