(* ===== verification/FlatDisk.v ===== *)
(** * The directory of block files: src/arch/linux/pfs_durable.c

    Each block is one file named by its id. A write goes to a temporary file,
    is synchronised, renamed over the final name, and the directory is
    synchronised. The calls into the operating system are actions on a model of
    the directory; their results (a byte count, an error) come from the list
    [os], everything succeeds when it is used up. The theorems show that a
    reader or a crash only ever sees the old file or the whole new one, and that
    the directory is a durable store in the sense of Durable.v. Reads behind the
    interface meet no input/output error; [dur_read] itself takes any results. *)

From stdpp Require Import list gmap.
#[local] Open Scope Z_scope.
From S2P Require Import Prelude.
From S2P Require Import Durable.

Definition PFS_DUR_PATH_MAX : Z := 1024.

(** A file: its bytes, and whether they are known to be on the medium. *)
Record file : Type := File { content : list Z; synced : bool }.
Abbreviation fs := (gmap (list Z) file).

Record flat : Type := Flat { dur_dir : option (list Z); force_fail : bool; files : fs; os : list Z }.

(** The next result of the operating system, [dflt] when all goes well. *)
Definition answer (dflt : Z) (os : list Z) : Z * list Z := match os with [] => (dflt, []) | r :: os => (r, os) end.

Inductive act : Type :=
  | Create (n : list Z) | Append (n bs : list Z) | Fsync (n : list Z)
  | Rename (n m : list Z) | Unlink (n : list Z) | SyncDir.

Definition do_act (a : act) (f : fs) : fs :=
  match a with
  | Create n => <[n := File [] false]> f
  | Append n bs => alter (fun x => File (content x ++ bs) false) n f
  | Fsync n => alter (fun x => File (content x) true) n f
  | Rename n m => match f !! n with Some x => <[m := x]> (delete n f) | None => f end
  | Unlink n => delete n f
  | SyncDir => f
  end.
Definition do_acts (l : list act) (f : fs) : fs := fold_left (fun f a => do_act a f) l f.

Definition tmp_name (n : list Z) : list Z := n ++ [46; 116; 109; 112].

(** The write loop; [fuel] is the number of bytes left, each turn writes at
    least one or ends. *)
Fixpoint write_loop (fuel : nat) (tmp data os : list Z) : list act * bool * list Z :=
  match data, fuel with
  | [], _ => ([], true, os)
  | _, O => ([], false, os)
  | _, S k =>
      let '(w, os) := answer (lenz data) os in
      if w <=? 0 then ([Unlink tmp], false, os)
      else
        let '(l, ok, os) := write_loop k tmp (drop (Z.to_nat w) data) os in
        (Append tmp (take (Z.to_nat w) data) :: l, ok, os)
  end.

(** After the data: synchronise, rename, synchronise the directory. *)
Definition finish (n tmp : list Z) (os : list Z) : list act * bool * list Z :=
  let '(r, os) := answer 0 os in
  if negb (r =? 0) then ([Unlink tmp], false, os)
  else
    let '(r, os) := answer 0 os in
    if negb (r =? 0) then ([Fsync tmp; Unlink tmp], false, os)
    else ([Fsync tmp; Rename tmp n; SyncDir], true, os).

(** What one write does to the directory, in order, and its result. *)
Definition write_acts (n data os : list Z) : list act * bool * list Z :=
  let tmp := tmp_name n in
  let '(fd, os) := answer 0 os in
  if fd <? 0 then ([], false, os)
  else
    let '(l, ok, os) := write_loop (length data) tmp data os in
    if ok then let '(l', ok', os) := finish n tmp os in (Create tmp :: l ++ l', ok', os)
    else (Create tmp :: l, false, os).

Definition path_fits (dir n : list Z) : bool := lenz dir + 1 + lenz n <? PFS_DUR_PATH_MAX.

Definition dur_write (n data : list Z) (d : flat) : bool * flat :=
  match dur_dir d with
  | None => (false, d)
  | Some dir =>
      if force_fail d then (false, Flat (dur_dir d) false (files d) (os d))
      else if negb (path_fits dir n) || negb (path_fits dir (tmp_name n)) then (false, d)
      else
        let '(l, ok, os') := write_acts n data (os d) in
        (ok, Flat (dur_dir d) false (do_acts l (files d)) os')
  end.

(** The read loop over a file of which [left] is still unread; the operating
    system gives at least one byte when there is one. *)
Fixpoint read_loop (fuel : nat) (left os : list Z) (maxlen : Z) : option (list Z) :=
  match fuel with
  | O => Some []
  | S k =>
      if maxlen <=? 0 then Some []
      else
        let '(r, os) := answer maxlen os in
        if r <? 0 then None
        else
          let n := Z.min (Z.max 1 r) (Z.min maxlen (lenz left)) in
          if n =? 0 then Some []
          else
            rest ← read_loop k (drop (Z.to_nat n) left) os (maxlen - n);
            Some (take (Z.to_nat n) left ++ rest)
  end.

Definition dur_read (results : list Z) (n : list Z) (maxlen : Z) (d : flat) : option (list Z) :=
  match dur_dir d with
  | None => None
  | Some dir =>
      if negb (path_fits dir n) then None
      else
        match files d !! n with
        | None => None
        | Some x =>
            let '(fd, results) := answer 0 results in
            if fd <? 0 then None else read_loop (S (Z.to_nat maxlen)) (content x) results maxlen
        end
  end.

Definition dur_remove (n : list Z) (d : flat) : bool * flat :=
  match dur_dir d with
  | None => (false, d)
  | Some dir =>
      if negb (path_fits dir n) then (false, d)
      else
        match files d !! n with
        | None => (false, d)
        | Some _ =>
            let '(r, os) := answer 0 (os d) in
            if negb (r =? 0) then (false, Flat (dur_dir d) (force_fail d) (files d) os)
            else (true, Flat (dur_dir d) (force_fail d) (delete n (files d)) os)
        end
  end.

(** The block files of the directory, in the order of the map. *)
Definition dur_foreach (d : flat) : list (list Z * list Z) :=
  match dur_dir d with
  | None => []
  | Some _ =>
      omap (fun x => if is_block_name (fst x)
                     then b ← dur_read [] (fst x) PFS_BLOCK_MAX d; Some (fst x, b) else None)
        (map_to_list (files d))
  end.

(** ** A write is atomic *)

(** The actions before the rename touch the temporary file only. *)
Definition on_tmp (tmp : list Z) (a : act) : Prop :=
  match a with
  | Create n | Append n _ | Fsync n | Unlink n => n = tmp
  | SyncDir => True
  | Rename _ _ => False
  end.

Lemma on_tmp_lookup tmp a f m : on_tmp tmp a -> m <> tmp -> do_act a f !! m = f !! m.
Proof.
  destruct a; cbn [do_act on_tmp]; intros H Hm; subst; try done.
  - by rewrite lookup_insert_ne.
  - by rewrite lookup_alter_ne.
  - by rewrite lookup_alter_ne.
  - by rewrite lookup_delete_ne.
Qed.

Lemma on_tmps_lookup tmp l f m : Forall (on_tmp tmp) l -> m <> tmp -> do_acts l f !! m = f !! m.
Proof.
  intros Hl Hm. revert f. induction Hl as [|a l Ha _ IH]; intros f; [done|].
  cbn [do_acts fold_left]. unfold do_acts in IH. rewrite IH. by apply (on_tmp_lookup tmp).
Qed.

Lemma do_acts_app l k f : do_acts (l ++ k) f = do_acts k (do_acts l f).
Proof. apply fold_left_app. Qed.

Lemma file_write_spec fuel tmp data os l ok os' f pre s : write_loop fuel tmp data os = (l, ok, os') ->
  Forall (on_tmp tmp) l /\
  (ok = true -> f !! tmp = Some (File pre s) -> exists s', do_acts l f !! tmp = Some (File (pre ++ data) s')).
Proof.
  revert data os l ok os' f pre s. induction fuel as [|k IH]; intros data os l ok os' f pre s E.
  - destruct data; injection E as <- <- <-; (split; [constructor|]); [|done].
    intros _ Hf. exists s. by rewrite app_nil_r.
  - destruct data as [|b data]; [injection E as <- <- <-; split; [constructor|]; intros _ Hf; exists s; by rewrite app_nil_r|].
    cbn [write_loop] in E. destruct (answer _ os) as [w os1]. destruct (w <=? 0).
    + injection E as <- <- <-. split; [by repeat constructor|done].
    + set (d := b :: data) in *.
      destruct (write_loop k tmp (drop (Z.to_nat w) d) os1) as [[l1 ok1] os2] eqn:E1. injection E as <- <- <-.
      destruct (IH _ _ _ _ _ (do_act (Append tmp (take (Z.to_nat w) d)) f) (pre ++ take (Z.to_nat w) d) false E1) as [H1 H2].
      split; [by constructor|]. intros Hok Hf. cbn [do_acts fold_left].
      destruct (H2 Hok) as [s' Hs'].
      * cbn [do_act]. by rewrite lookup_alter_eq, Hf.
      * exists s'. unfold do_acts in Hs'. rewrite Hs', <- app_assoc, take_drop. done.
Qed.

Lemma tmp_ne n : tmp_name n <> n.
Proof. intros H. apply (f_equal length) in H. unfold tmp_name in H. rewrite length_app in H. cbn in H. lia. Qed.

(** The actions of a write: all on the temporary file, or all but a rename of
    the complete, synchronised file and the synchronisation that follows. *)
Lemma write_acts_shape n data os l ok os' : write_acts n data os = (l, ok, os') ->
  (ok = false /\ Forall (on_tmp (tmp_name n)) l) \/
  (ok = true /\ exists l1, l = l1 ++ [Rename (tmp_name n) n; SyncDir] /\ Forall (on_tmp (tmp_name n)) l1 /\
     forall f, do_acts l1 f !! tmp_name n = Some (File data true)).
Proof.
  unfold write_acts. set (tmp := tmp_name n). destruct (answer 0 os) as [fd os1]. destruct (fd <? 0).
  { intros [= <- <- <-]. by left. }
  destruct (write_loop (length data) tmp data os1) as [[lw okw] os2] eqn:Ew.
  assert (forall f, Forall (on_tmp tmp) lw /\ (okw = true -> exists s', do_acts lw (do_act (Create tmp) f) !! tmp = Some (File data s'))) as Hw.
  { intros f. destruct (file_write_spec _ _ _ _ _ _ _ (do_act (Create tmp) f) [] false Ew) as [H1 H2]. split; [done|].
    intros Hok. apply H2; [done|]. cbn [do_act]. by rewrite lookup_insert_eq. }
  destruct okw.
  - unfold finish. destruct (answer 0 os2) as [r os3]. destruct (negb (r =? 0)).
    { intros [= <- <- <-]. left. split; [done|]. constructor; [done|]. apply Forall_app. split; [apply (Hw ∅)|by repeat constructor]. }
    destruct (answer 0 os3) as [r2 os4]. destruct (negb (r2 =? 0)); intros [= <- <- <-].
    { left. split; [done|]. constructor; [done|]. apply Forall_app. split; [apply (Hw ∅)|by repeat constructor]. }
    right. split; [done|]. exists (Create tmp :: lw ++ [Fsync tmp]). split_and!.
    + cbn. by rewrite <- app_assoc.
    + constructor; [done|]. apply Forall_app. split; [apply (Hw ∅)|by repeat constructor].
    + intros f. cbn [do_acts fold_left]. rewrite fold_left_app. cbn [fold_left].
      destruct (proj2 (Hw f) eq_refl) as [s' Hs']. unfold do_acts in Hs'. cbn [do_act]. cbn [do_act] in Hs'.
      by rewrite lookup_alter_eq, Hs'.
  - intros [= <- <- <-]. left. split; [done|]. constructor; [done|]. apply (Hw ∅).
Qed.

(** What a crash leaves of the directory [f]: the files known to be on the
    medium; the bytes of the others are anything. *)
Definition crash_of (f f' : fs) : Prop :=
  forall n, match f !! n with
            | Some x => synced x = true -> f' !! n = Some x
            | None => f' !! n = None
            end.

(** A crash after the actions [l]; a rename that was the last of them may not
    have reached the medium. *)
Definition after_crash (l : list act) (f f' : fs) : Prop :=
  crash_of (do_acts l f) f' \/ exists l0 a b, l = l0 ++ [Rename a b] /\ crash_of (do_acts l0 f) f'.

Lemma crash_same (f g f' : fs) n : f !! n = g !! n -> (forall x, g !! n = Some x -> synced x = true) -> crash_of f f' -> f' !! n = g !! n.
Proof.
  intros E Hs Hc. specialize (Hc n). rewrite E in Hc. destruct (g !! n) as [x|]; [|done]. apply Hc. by apply Hs.
Qed.

(** The states the final name goes through. *)
Lemma write_states n data os l ok os' k f m : write_acts n data os = (l, ok, os') -> m <> tmp_name n ->
  (do_acts (take k l) f !! m = f !! m) \/ (m = n /\ do_acts (take k l) f !! m = Some (File data true)).
Proof.
  intros E Hm. destruct (write_acts_shape n data os l ok os' E) as [[_ Hl]|(_ & l1 & -> & Hl & Hd)].
  - left. apply (on_tmps_lookup (tmp_name n)); [by apply Forall_take|done].
  - rewrite take_app. destruct (decide (k <= length l1)%nat) as [Hk|Hk].
    + replace (k - length l1)%nat with 0%nat by lia. rewrite app_nil_r. left.
      apply (on_tmps_lookup (tmp_name n)); [by apply Forall_take|done].
    + rewrite take_ge by lia. destruct (k - length l1)%nat as [|j] eqn:Ek; [lia|]. rewrite do_acts_app. clear Ek.
      assert (forall j, do_acts (take (S j) [Rename (tmp_name n) n; SyncDir]) (do_acts l1 f) = <[n := File data true]> (delete (tmp_name n) (do_acts l1 f))) as ->.
      { intros i. assert (do_act (Rename (tmp_name n) n) (do_acts l1 f) = <[n := File data true]> (delete (tmp_name n) (do_acts l1 f))) as E1
          by (cbn [do_act]; by rewrite Hd).
        destruct i; cbn [take do_acts fold_left]; [done|]. destruct i; cbn [take fold_left]; done. }
      destruct (decide (m = n)) as [->|Hne]; [right; split; [done|]; by rewrite lookup_insert_eq|left].
      rewrite lookup_insert_ne, lookup_delete_ne by done. by apply (on_tmps_lookup (tmp_name n)).
Qed.

Lemma dur_write_result n data d m : m <> tmp_name n ->
  files (snd (dur_write n data d)) !! m =
    if fst (dur_write n data d) && bool_decide (m = n) then Some (File data true) else files d !! m.
Proof.
  intros Hm. unfold dur_write. destruct (dur_dir d) as [dir|]; [|done]. destruct (force_fail d); [done|].
  destruct (negb _ || negb _); [done|]. destruct (write_acts n data (os d)) as [[l ok] os'] eqn:E. cbn [fst snd files].
  destruct (write_acts_shape n data _ l ok os' E) as [[-> Hl]|(-> & l1 & -> & Hl & Hd)].
  - by apply (on_tmps_lookup (tmp_name n)).
  - cbn [andb]. rewrite do_acts_app. cbn [do_acts fold_left do_act]. unfold do_acts in Hd. rewrite Hd.
    case_bool_decide as Hmn; [subst; by rewrite lookup_insert_eq|].
    rewrite lookup_insert_ne, lookup_delete_ne by done. by apply (on_tmps_lookup (tmp_name n)).
Qed.

(** Every block file is on the medium: true of a directory that only these
    functions write. Temporary files may be anything. *)
Definition flat_ok (d : flat) : Prop :=
  forall m x, is_block_name m = true -> files d !! m = Some x -> synced x = true.

(** No name the store is used with is that of a temporary file. *)
Lemma dur_ne_tmp m n : is_dur_name m = true -> is_dur_name n = true -> m <> tmp_name n.
Proof.
  unfold is_dur_name, is_block_name, tmp_name. intros Hm Hn ->. apply orb_true_iff in Hm as [Hm|Hm], Hn as [Hn|Hn]; bools.
  - unfold lenz in *. rewrite length_app in *. cbn in *. lia.
  - apply bool_decide_eq_true in Hn as ->. unfold lenz in *. rewrite length_app in *. cbn in *. lia.
  - apply bool_decide_eq_true in Hm. apply (f_equal length) in Hm. unfold lenz, PFS_DUR_HEX_LEN in *. rewrite length_app in Hm. cbn [length] in Hm. unfold PFSD_REFTAB_FILE in Hm. cbn in Hm. lia.
  - apply bool_decide_eq_true in Hm, Hn as ->. apply (f_equal length) in Hm. rewrite length_app in Hm. cbn in Hm. lia.
Qed.

Lemma block_ne_tmp m n : is_block_name m = true -> is_block_name n = true -> m <> tmp_name n.
Proof.
  unfold is_block_name. intros Hm Hn ->. bools. unfold lenz, tmp_name in *. rewrite length_app in *. cbn in *. lia.
Qed.

(** A block file is replaced in one step. Let the power fail after any of
    the actions of a write, with any results of the system calls: the file holds
    its old bytes or all the new ones, and every other block file is as it
    was. A write that reports success left the new bytes on the medium; one that
    reports failure left the old file. *)
Theorem write_atomic n data d l ok os' k f' (Hn : is_block_name n = true) (Hok : flat_ok d)
    (Hacts : write_acts n data (os d) = (l, ok, os')) (Hcrash : after_crash (take k l) (files d) f') :
  (f' !! n = files d !! n \/ f' !! n = Some (File data true)) /\
  (forall m, is_block_name m = true -> m <> n -> f' !! m = files d !! m) /\
  do_acts l (files d) !! n = (if ok then Some (File data true) else files d !! n).
Proof.
  assert (exists j, crash_of (do_acts (take j l) (files d)) f') as [j Hc].
  { destruct Hcrash as [Hc|(l0 & a & b & Hl & Hc)]; [by exists k|]. exists (length l0).
    replace (take (length l0) l) with l0; [done|].
    assert (take (length l0) (take k l) = l0) as H0 by (rewrite Hl; by rewrite take_app_length).
    rewrite take_take in H0. assert (length l0 <= k)%nat.
    { apply (f_equal length) in Hl. rewrite length_app, length_take in Hl. cbn in Hl. lia. }
    replace (length l0 `min` k)%nat with (length l0) in H0 by lia. done. }
  assert (forall m, is_block_name m = true -> (f' !! m = files d !! m) \/ (m = n /\ f' !! m = Some (File data true))) as Hall.
  { intros m Hm. destruct (write_states n data _ l ok os' j (files d) m Hacts (block_ne_tmp m n Hm Hn)) as [E|[-> E]].
    - left. apply (crash_same _ _ _ _ E); [|done]. intros x. by apply Hok.
    - right. split; [done|]. specialize (Hc n). rewrite E in Hc. by apply Hc. }
  split_and!.
  - destruct (Hall n Hn) as [?|[_ ?]]; auto.
  - intros m Hm Hmn. by destruct (Hall m Hm) as [?|[? _]].
  - destruct (write_acts_shape n data _ l ok os' Hacts) as [[-> Hl]|(-> & l1 & -> & Hl & Hd)].
    + apply (on_tmps_lookup (tmp_name n)); [done|]. by apply block_ne_tmp.
    + rewrite do_acts_app. cbn [do_acts fold_left do_act]. unfold do_acts in Hd. by rewrite Hd, lookup_insert_eq.
Qed.

Definition a_name : list Z := replicate 64 97.
Definition one_dir : flat := Flat (Some [47; 100]) false ∅ [].

Example write_atomic_witness :
  exists l os', write_acts a_name [1; 2; 3] [0; 2; 1; 0; 0] = (l, true, os') /\
    do_acts l ∅ !! a_name = Some (File [1; 2; 3] true).
Proof.
  do 2 eexists. split; [vm_compute; reflexivity|].
  refine (proj2 (proj2 (write_atomic a_name [1; 2; 3] (Flat (Some [47]) false ∅ [0; 2; 1; 0; 0]) _ true _ 0 ∅ eq_refl _ _ _))).
  - intros m x _ Hx. cbn [files] in Hx. discriminate Hx.
  - vm_compute. reflexivity.
  - left. intros m. cbn [take do_acts fold_left files]. reflexivity.
Defined.

(** ** Reading back *)

Lemma read_loop_spec fuel left os maxlen : (Z.to_nat maxlen < fuel)%nat -> 0 <= maxlen ->
  match read_loop fuel left os maxlen with Some b => b = take (Z.to_nat maxlen) left | None => os <> [] end.
Proof.
  revert left os maxlen. induction fuel as [|k IH]; intros left os maxlen Hf Hm; [lia|]. cbn [read_loop].
  dif E; bools; [by replace maxlen with 0 by lia|].
  destruct (answer maxlen os) as [r os1] eqn:Ea. assert (os = [] -> r = maxlen /\ os1 = []) as Hnil by (intros ->; by injection Ea as <- <-).
  dif E1; bools; [intros ->; destruct (Hnil eq_refl); lia|].
  set (n := Z.min (Z.max 1 r) (Z.min maxlen (lenz left))). dif E2; bools.
  - assert (lenz left = 0) as Hl by (pose proof (lenz_nonneg left); lia). unfold lenz in Hl. destruct left; [by rewrite take_nil|cbn in Hl; lia].
  - pose proof (lenz_nonneg left). assert (0 < n <= maxlen) as Hn by lia.
    specialize (IH (drop (Z.to_nat n) left) os1 (maxlen - n) ltac:(lia) ltac:(lia)).
    destruct (read_loop k _ os1 _) as [rest|]; cbn.
    + rewrite IH. replace (Z.to_nat maxlen) with (Z.to_nat n + Z.to_nat (maxlen - n))%nat by lia. apply take_take_drop.
    + intros Hos. apply IH. by apply Hnil.
Qed.

(** Whatever the reads return, what is delivered is the file. *)
Lemma dur_read_spec results n maxlen d : 0 <= maxlen ->
  match dur_read results n maxlen d with
  | Some b => exists x, files d !! n = Some x /\ b = take (Z.to_nat maxlen) (content x)
  | None => True
  end.
Proof.
  intros Hm. unfold dur_read. destruct (dur_dir d) as [dir|]; [|done]. destruct (negb _); [done|].
  destruct (files d !! n) as [x|]; [|done]. destruct (answer 0 results) as [fd rs]. destruct (fd <? 0); [done|].
  pose proof (read_loop_spec (S (Z.to_nat maxlen)) (content x) rs maxlen ltac:(lia) Hm) as H.
  destruct (read_loop _ _ _ _); [|done]. by exists x.
Qed.

Lemma dur_read_ok n maxlen d dir x : 0 <= maxlen -> dur_dir d = Some dir -> path_fits dir n = true ->
  files d !! n = Some x -> dur_read [] n maxlen d = Some (take (Z.to_nat maxlen) (content x)).
Proof.
  intros Hm Hd Hp Hx. unfold dur_read. rewrite Hd, Hp, Hx. cbn [negb answer Z.ltb Z.compare].
  pose proof (read_loop_spec (S (Z.to_nat maxlen)) (content x) [] maxlen ltac:(lia) Hm) as H.
  destruct (read_loop _ _ _ _) as [b|]; [by rewrite H|done].
Qed.

(** ** The directory as a durable store *)

#[export] Instance flat_durable : Durable flat := {
  pfs_ark_active _ := false;
  pfs_ark_put _ d := (false, d);
  pfs_ark_get _ _ := None;
  pfs_dur_active d := bool_decide (is_Some (dur_dir d));
  pfs_dur_write := dur_write;
  pfs_dur_read n d := dur_read [] n PFS_BLOCK_MAX d;
  pfs_dur_remove := dur_remove;
  pfs_dur_foreach := dur_foreach }.

Lemma dur_write_dir n b d : dur_dir (snd (dur_write n b d)) = dur_dir d.
Proof.
  unfold dur_write. destruct (dur_dir d) as [dir|] eqn:E; [|done]. destruct (force_fail d); [done|].
  destruct (negb _ || negb _); [done|]. by destruct (write_acts n b (os d)) as [[l ok] os'].
Qed.
Lemma dur_remove_dir n d : dur_dir (snd (dur_remove n d)) = dur_dir d.
Proof.
  unfold dur_remove. destruct (dur_dir d) as [dir|] eqn:E; [|done]. destruct (negb _); [done|].
  destruct (files d !! n); [|done]. destruct (answer 0 (os d)) as [r os']. by destruct (negb _).
Qed.

(** A read depends on the directory and on the file alone. *)
Lemma dur_read_ext n maxlen d d' : dur_dir d' = dur_dir d -> files d' !! n = files d !! n ->
  dur_read [] n maxlen d' = dur_read [] n maxlen d.
Proof. intros E1 E2. unfold dur_read. by rewrite E1, E2. Qed.

Lemma flat_write_ok n b d : flat_ok d -> is_block_name n = true -> flat_ok (snd (dur_write n b d)).
Proof.
  intros H Hn m x Hm. rewrite dur_write_result by by apply block_ne_tmp. dif E; [by intros [= <-]|]. by apply H.
Qed.

Lemma dur_remove_result n d m :
  files (snd (dur_remove n d)) !! m = if fst (dur_remove n d) && bool_decide (m = n) then None else files d !! m.
Proof.
  unfold dur_remove. destruct (dur_dir d) as [dir|]; [|done]. destruct (negb _); [done|]. destruct (files d !! n) eqn:En; [|done].
  destruct (answer 0 (os d)) as [r os']. destruct (negb _); [done|]. cbn [fst snd files andb].
  case_bool_decide as H; [subst; by rewrite lookup_delete_eq|by rewrite lookup_delete_ne].
Qed.

Lemma flat_write_back n b d : is_dur_name n = true -> lenz b <= PFS_BLOCK_MAX ->
  fst (dur_write n b d) = true -> dur_read [] n PFS_BLOCK_MAX (snd (dur_write n b d)) = Some b.
Proof.
  intros Hn Hb Hok.
  assert (exists dir, dur_dir d = Some dir /\ path_fits dir n = true) as (dir & Hd & Hp).
  { revert Hok. unfold dur_write. destruct (dur_dir d) as [dir|]; [|done]. destruct (force_fail d); [done|].
    destruct (path_fits dir n) eqn:E; [|done]. by exists dir. }
  rewrite (dur_read_ok n PFS_BLOCK_MAX _ dir (File b true)); [|done|by rewrite dur_write_dir|done|].
  - cbn [content]. f_equal. apply take_ge. unfold lenz, PFS_BLOCK_MAX in *. lia.
  - rewrite dur_write_result by by apply dur_ne_tmp. by rewrite Hok, bool_decide_eq_true_2.
Qed.

#[export] Instance flat_durable_ok : DurableOk flat.
Proof.
  refine {| dur_ok := fun _ => True |}; cbn; try done.
  - intros n b d. by rewrite dur_write_dir.
  - intros n d. by rewrite dur_remove_dir.
  - intros n b d _ _ Hn Hb. by apply flat_write_back.
  - intros n m b d _ Hn Hm Hne. apply dur_read_ext; [by rewrite dur_write_dir|].
    rewrite dur_write_result by by apply dur_ne_tmp. by rewrite (bool_decide_eq_false_2 _ Hne), andb_false_r.
  - intros n m b d _ Hn Hm Hf. apply dur_read_ext; [by rewrite dur_write_dir|].
    rewrite dur_write_result by by apply dur_ne_tmp. by rewrite Hf.
  - intros n m d _ Hn Hm Hne. apply dur_read_ext; [by rewrite dur_remove_dir|].
    by rewrite dur_remove_result, (bool_decide_eq_false_2 _ Hne), andb_false_r.
  - intros n d _ Ht. pose proof (dur_read_spec [] n PFS_BLOCK_MAX (snd (dur_remove n d)) ltac:(done)) as H.
    destruct (dur_read [] n PFS_BLOCK_MAX _); [|done]. destruct H as (x & Hx & _).
    by rewrite dur_remove_result, Ht, bool_decide_eq_true_2 in Hx.
  - intros n b d _ Hin. unfold dur_foreach in Hin. destruct (dur_dir d); [|by apply elem_of_nil in Hin].
    apply list_elem_of_omap in Hin as ([m x] & _ & E). cbn [fst] in E. destruct (is_block_name m) eqn:Em; [|done].
    destruct (dur_read [] m PFS_BLOCK_MAX d) eqn:Er; [|done]. cbn in E. injection E as <- <-. done.
Defined.
