(* ===== verification/PfsBlock.v ===== *)
(** * The content-addressed block table: src/arch/common/pfs_block.c

    Blocks are named by the SHA-256 of their bytes and kept in a table of 64
    slots. With a durable store behind it (Durable.v) the table is a cache: a
    put writes through, a full table evicts, a miss reads from the store. This
    file models the hosted build; the store is a parameter. The announcement
    hook is an output. Messages and the self-tests on the live table are not
    modelled. The theorems are in PfsFacts.v. *)

From stdpp Require Import list.
#[local] Open Scope Z_scope.
From S2P Require Import Prelude.
From S2P Require Import Sha256.
From S2P Require Import Durable.

Definition PFS_MAX_BLOCKS : Z := 64.
Definition PFS_ORIGIN_SELF : Z := 0xFF.
Definition PFS_OK : Z := 0.
Definition PFS_E_NOTFOUND : Z := -1.
Definition PFS_E_TOOBIG : Z := -2.
Definition PFS_E_FULL : Z := -3.
Definition PFS_E_INVAL : Z := -4.
Definition PFS_E_DURABLE : Z := -5.

(** A slot. [data] holds the first [len] bytes of the array. *)
Record PFS_SLOT : Type := Slot {
  s_id : list Z; used : bool; origin : Z; unevict : bool; data : list Z }.

Definition empty_slot : PFS_SLOT := Slot [] false 0 false [].

(** A block announced through the hook: id, length, origin. *)
Definition announce : Type := (list Z * Z * Z)%type.

(** The state, over the durable store [disk]. *)
Record store (D : Type) : Type := Store {
  pfs_table : list PFS_SLOT; pfs_n : Z; pfs_full_n : Z; evict_clk : Z;
  pfs_loading : bool; put_hook : bool; disk : D }.
Arguments Store {D}. Arguments pfs_table {D}. Arguments pfs_n {D}. Arguments pfs_full_n {D}.
Arguments evict_clk {D}. Arguments pfs_loading {D}. Arguments put_hook {D}. Arguments disk {D}.

Definition store0 {D} (d : D) : store D := Store (replicate 64 empty_slot) 0 0 0 false false d.

Section pfs.
Context {D : Type} `{Durable D}.

Definition set_table (t : list PFS_SLOT) (n : Z) (s : store D) : store D :=
  Store t n (pfs_full_n s) (evict_clk s) (pfs_loading s) (put_hook s) (disk s).
Definition set_disk (d : D) (s : store D) : store D :=
  Store (pfs_table s) (pfs_n s) (pfs_full_n s) (evict_clk s) (pfs_loading s) (put_hook s) d.
Definition set_clk (c : Z) (s : store D) : store D :=
  Store (pfs_table s) (pfs_n s) (pfs_full_n s) c (pfs_loading s) (put_hook s) (disk s).
Definition set_full (n : Z) (s : store D) : store D :=
  Store (pfs_table s) (pfs_n s) n (evict_clk s) (pfs_loading s) (put_hook s) (disk s).
Definition set_loading (b : bool) (s : store D) : store D :=
  Store (pfs_table s) (pfs_n s) (pfs_full_n s) (evict_clk s) b (put_hook s) (disk s).

(** Does a full table evict into the directory of files? *)
Definition pfs_flat_evicts (d : D) : bool := negb (pfs_ark_active d) && pfs_dur_active d.

Definition pfs_id_compute (buf : list Z) : list Z := sha256 buf.

Definition slot_at (s : store D) (i : Z) : PFS_SLOT := getz (pfs_table s) i empty_slot.

Definition find_slot (id : list Z) (s : store D) : Z :=
  first_ix (fun x => used x && bool_decide (s_id x = id)) (pfs_table s) 0.

(** The write to the selected store: does it return 0? It does when none is
    active. *)
Definition persist (id bytes : list Z) (d : D) : bool * D :=
  if pfs_ark_active d then pfs_ark_put bytes d
  else if pfs_dur_active d then pfs_dur_write (id_to_hex id) bytes d
  else (true, d).

(** The rotating victim: at most 64 probes. *)
Fixpoint pick_victim (probes : nat) (t : list PFS_SLOT) (clk : Z) : Z * Z :=
  match probes with
  | O => (-1, clk)
  | S k =>
      let cand := clk mod PFS_MAX_BLOCKS in
      let clk := u32 (clk + 1) in
      if negb (unevict (getz t cand empty_slot)) then (cand, clk) else pick_victim k t clk
  end.

(** The slot a new block goes to, -1 when there is none. *)
Definition choose_slot (s : store D) : Z * store D :=
  let free := first_ix (fun x => negb (used x)) (pfs_table s) 0 in
  if 0 <=? free then (free, s)
  else if negb (pfs_loading s) && (pfs_ark_active (disk s) || pfs_flat_evicts (disk s)) then
    let r := pick_victim 64 (pfs_table s) (evict_clk s) in (fst r, set_clk (snd r) s)
  else (-1, s).

Definition with_unevict (b : bool) (x : PFS_SLOT) : PFS_SLOT := Slot (s_id x) (used x) (origin x) b (data x).

(** A put of a block that is resident. *)
Definition put_resident (i : Z) (s : store D) : Z * store D :=
  let x := slot_at s i in
  if negb (pfs_loading s) && unevict x then
    let r := persist (s_id x) (data x) (disk s) in
    let s := set_disk (snd r) s in
    if negb (fst r) then (PFS_E_DURABLE, s)
    else (PFS_OK, set_table (setz (pfs_table s) i (with_unevict false x)) (pfs_n s) s)
  else (PFS_OK, s).

(** A put into the chosen slot. *)
Definition put_new (slot : Z) (id bytes : list Z) (org : Z) (s : store D) : Z * list announce * store D :=
  let n := if used (slot_at s slot) then pfs_n s else u32 (pfs_n s + 1) in
  let s := set_table (setz (pfs_table s) slot (Slot id true org false bytes)) n s in
  let hooked s := if negb (pfs_loading s) && put_hook s then [(id, lenz bytes, org)] else [] in
  if pfs_loading s then (PFS_OK, hooked s, s)
  else
    let r := persist id bytes (disk s) in
    let s := set_disk (snd r) s in
    if negb (fst r) then
      (PFS_E_DURABLE, [], set_table (setz (pfs_table s) slot (Slot id true org true bytes)) (pfs_n s) s)
    else (PFS_OK, hooked s, s).

(** The result of a put: code, the id written to [id_out] if it was, what was
    announced, the new state. [buf] is [None] for a null pointer. *)
Definition put_result : Type := (Z * option (list Z) * list announce * store D)%type.

Definition pfs_put_origin (buf : option (list Z)) (len org : Z) (s : store D) : put_result :=
  if bool_decide (buf = None) && negb (len =? 0) then (PFS_E_INVAL, None, [], s)
  else if PFS_BLOCK_MAX <? len then (PFS_E_TOOBIG, None, [], s)
  else
    let bytes := take (Z.to_nat len) (default [] buf) in
    let id := pfs_id_compute bytes in
    let ds := find_slot id s in
    if 0 <=? ds then let r := put_resident ds s in (fst r, Some id, [], snd r)
    else
      let c := choose_slot s in
      if fst c <? 0 then (PFS_E_FULL, Some id, [], set_full (u32 (pfs_full_n (snd c) + 1)) (snd c))
      else let r := put_new (fst c) id bytes org (snd c) in (fst (fst r), Some id, snd (fst r), snd r).

Definition pfs_put (buf : option (list Z)) (len : Z) (s : store D) : put_result :=
  pfs_put_origin buf len PFS_ORIGIN_SELF s.

(** What a get returns: the code and the bytes copied into the buffer of
    [maxlen] bytes. *)
Definition delivered (b : list Z) (maxlen : Z) : Z * list Z :=
  (lenz b, take (Z.to_nat (Z.min (lenz b) maxlen)) b).

(** Bytes read back from the store are served only under their own hash. *)
Definition check_block (id : list Z) (fl : option (list Z)) (maxlen : Z) : Z * list Z :=
  match fl with
  | None => (PFS_E_NOTFOUND, [])
  | Some b =>
      if (lenz b <=? PFS_BLOCK_MAX) && bool_decide (pfs_id_compute b = id) then delivered b maxlen
      else (PFS_E_NOTFOUND, [])
  end.

Definition pfs_get (id : list Z) (maxlen : Z) (s : store D) : Z * list Z :=
  let i := find_slot id s in
  if 0 <=? i then delivered (data (slot_at s i)) maxlen
  else if pfs_ark_active (disk s) then check_block id (pfs_ark_get id (disk s)) maxlen
  else if pfs_flat_evicts (disk s) then check_block id (pfs_dur_read (id_to_hex id) (disk s)) maxlen
  else (PFS_E_NOTFOUND, []).

Definition pfs_has (id : list Z) (s : store D) : bool :=
  if (find_slot id s <? 0) && pfs_flat_evicts (disk s) && (0 <=? fst (pfs_get id 0 s)) then true
  else 0 <=? find_slot id s.

Definition pfs_resident (id : list Z) (s : store D) : bool := 0 <=? find_slot id s.

Definition pfs_drop (id : list Z) (s : store D) : Z * store D :=
  let i := find_slot id s in
  if (i <? 0) && pfs_flat_evicts (disk s) then
    let r := pfs_dur_remove (id_to_hex id) (disk s) in
    (if fst r then PFS_OK else PFS_E_NOTFOUND, set_disk (snd r) s)
  else if i <? 0 then (PFS_E_NOTFOUND, s)
  else
    let x := slot_at s i in
    if unevict x then (PFS_E_DURABLE, s)
    else
      let s := if negb (pfs_ark_active (disk s)) && pfs_dur_active (disk s)
               then set_disk (snd (pfs_dur_remove (id_to_hex (s_id x)) (disk s))) s else s in
      (PFS_OK, set_table (setz (pfs_table s) i (Slot (s_id x) false (origin x) (unevict x) [])) (u32 (pfs_n s - 1)) s).

Definition pfs_slot_info (idx : Z) (s : store D) : option (list Z * Z * Z) :=
  if (PFS_MAX_BLOCKS <=? idx) || negb (used (slot_at s idx)) then None
  else let x := slot_at s idx in Some (s_id x, lenz (data x), origin x).

Definition pfs_durable_active (s : store D) : bool := pfs_ark_active (disk s) || pfs_dur_active (disk s).

(** ** Restore at boot, from the directory of files *)

(** The counters of the restore and the state. *)
Record restore : Type := Restore { loaded : Z; corrupt : Z; into : store D }.

Definition pfs_restore_cb (f : list Z * list Z) (c : restore) : restore :=
  let bad := Restore (loaded c) (u32 (corrupt c + 1)) (into c) in
  match name_id (Z.to_nat PFS_ID_LEN) (fst f) with
  | None => bad
  | Some want =>
      if PFS_BLOCK_MAX <? lenz (snd f) then bad
      else if negb (bool_decide (want = pfs_id_compute (snd f))) then bad
      else
        let r := pfs_put_origin (Some (snd f)) (lenz (snd f)) PFS_ORIGIN_SELF (set_loading true (into c)) in
        Restore (u32 (loaded c + 1)) (corrupt c) (set_loading false (snd r))
  end.

(** When the log is not the selected store. *)
Definition pfs_durable_restore (s : store D) : Z * store D :=
  if negb (pfs_dur_active (disk s)) then (0, s)
  else
    let c := fold_left (fun c f => pfs_restore_cb f c) (pfs_dur_foreach (disk s)) (Restore 0 0 s) in
    (loaded c, into c).
End pfs.
