(* ===== verification/PfsFacts.v ===== *)
(** * What the block table promises

    The invariant of the table; a get never serves bytes that do not hash to
    the id; what a put stored stays readable until it is dropped, whatever the
    disk refuses in between; a put is refused only when every slot is pinned; a
    restore loads only verified blocks. All for any durable store that satisfies
    Durable.v, the first two for any store at all. *)

From stdpp Require Import list.
#[local] Open Scope Z_scope.
From S2P Require Import Prelude.
From S2P Require Import Sha256.
From S2P Require Import Durable.
From S2P Require Import FlatDisk.
From S2P Require Import PfsBlock.

(** ** Slots *)

Section facts.
Context {D : Type} `{Dur : Durable D}.
Implicit Types s : store D.

(** The state behind the index the code uses. *)
Lemma slot_lookup s k x : pfs_table s !! k = Some x -> slot_at s (Z.of_nat k) = x.
Proof. apply getz_nat. Qed.

Lemma find_slot_spec id s :
  (find_slot id s = -1 /\ forall k x, pfs_table s !! k = Some x -> used x = true -> s_id x <> id) \/
  (exists k x, find_slot id s = Z.of_nat k /\ pfs_table s !! k = Some x /\ used x = true /\ s_id x = id).
Proof.
  unfold find_slot. destruct (first_ix_spec (fun x => used x && bool_decide (s_id x = id)) (pfs_table s) 0 ltac:(lia))
    as [[-> Hno]|(k & x & -> & Hk & Hp)].
  - left. split; [done|]. intros k x Hk Hu Hx. specialize (Hno k x Hk). cbn in Hno. by rewrite Hu, bool_decide_eq_true_2 in Hno.
  - right. exists k, x. bools. apply bool_decide_eq_true in H0. split_and!; [lia|done..].
Qed.

(** *** The invariant of the table *)
Record wf s : Prop := {
  wf_len : lenz (pfs_table s) = PFS_MAX_BLOCKS;
  wf_slots : forall k x, pfs_table s !! k = Some x -> used x = true -> s_id x = sha256 (data x) /\ lenz (data x) <= PFS_BLOCK_MAX;
  wf_ids : forall k j x y, pfs_table s !! k = Some x -> pfs_table s !! j = Some y ->
    used x = true -> used y = true -> s_id x = s_id y -> k = j;
  wf_n : pfs_n s = countz used (pfs_table s) }.

Lemma wf_same s s' : pfs_table s' = pfs_table s -> pfs_n s' = pfs_n s -> wf s -> wf s'.
Proof. intros E1 E2 [W1 W2 W3 W4]. split; rewrite ?E1, ?E2; done. Qed.

Lemma wf_store0 (d : D) : wf (store0 d).
Proof.
  split; cbn; try done.
  - intros k x Hx Hu. apply list_elem_of_lookup_2, (elem_of_replicate 64 empty_slot) in Hx as [-> _]. done.
  - intros k j x y Hx _ Hu. apply list_elem_of_lookup_2, (elem_of_replicate 64 empty_slot) in Hx as [-> _]. done.
Qed.

(** Writing one slot. *)
Lemma wf_write s k x y : wf s -> pfs_table s !! k = Some x ->
  (used y = true -> s_id y = sha256 (data y) /\ lenz (data y) <= PFS_BLOCK_MAX /\
     forall j z, pfs_table s !! j = Some z -> used z = true -> s_id z = s_id y -> j = k) ->
  forall s', pfs_table s' = <[k := y]> (pfs_table s) -> pfs_n s' = pfs_n s - b2z (used x) + b2z (used y) -> wf s'.
Proof.
  intros [W1 W2 W3 W4] Hk Hy s' E1 E2. pose proof (lookup_lt_Some _ _ _ Hk) as Hlt. split; rewrite ?E1, ?E2.
  - unfold lenz in *. by rewrite length_insert.
  - intros j z Hj Hu. apply list_lookup_insert_Some in Hj as [(-> & -> & _)|[_ Hj]]; [|by apply (W2 j)].
    destruct (Hy Hu) as (? & ? & _). done.
  - intros j1 j2 z1 z2 H1 H2 U1 U2 E.
    apply list_lookup_insert_Some in H1 as [(-> & -> & _)|[N1 H1]], H2 as [(-> & -> & _)|[N2 H2]]; [done| | |by apply (W3 j1 j2 z1 z2)].
    + symmetry. destruct (Hy U1) as (_ & _ & Ho). by apply (Ho j2 z2).
    + destruct (Hy U2) as (_ & _ & Ho). by apply (Ho j1 z1).
  - rewrite W4. symmetry. by apply (countz_insert used).
Qed.

Lemma pick_victim_spec probes t clk : 0 <= clk -> lenz t = PFS_MAX_BLOCKS ->
  fst (pick_victim probes t clk) = -1 \/
  exists k x, fst (pick_victim probes t clk) = Z.of_nat k /\ t !! k = Some x /\ unevict x = false.
Proof.
  intros Hc Ht. revert clk Hc. induction probes as [|p IH]; intros clk Hc; [by left|]. cbn [pick_victim].
  dif E; [|apply IH; unfold u32; apply Z.mod_pos_bound; lia]. right. cbn [fst].
  pose proof (Z.mod_pos_bound clk PFS_MAX_BLOCKS ltac:(done)) as Hm. set (c := clk mod PFS_MAX_BLOCKS) in *.
  exists (Z.to_nat c). unfold getz in E. rewrite (proj2 (Z.ltb_ge _ 0)) in E by lia. unfold lenz in Ht.
  destruct (lookup_lt_is_Some_2 t (Z.to_nat c)) as [x Hx]; [lia|]. exists x. rewrite nth_lookup, Hx in E. cbn in E.
  bools. split_and!; [lia|done|done].
Qed.

Lemma pick_victim_clk p t c : 0 <= c -> 0 <= snd (pick_victim p t c).
Proof.
  revert c. induction p as [|p IH]; intros c Hc; [done|]. cbn [pick_victim].
  ifs; cbn [snd]; [|apply IH]; unfold u32; apply Z.mod_pos_bound; lia.
Qed.

(** The slot a new block goes to: a free one, or an occupied one that is not
    pinned, and that only over an active store. *)
Lemma choose_slot_spec s : wf s -> 0 <= evict_clk s ->
  let c := choose_slot s in
  pfs_table (snd c) = pfs_table s /\ pfs_n (snd c) = pfs_n s /\ disk (snd c) = disk s /\
  pfs_loading (snd c) = pfs_loading s /\ put_hook (snd c) = put_hook s /\ 0 <= evict_clk (snd c) /\
  (fst c = -1 \/ exists k x, fst c = Z.of_nat k /\ pfs_table s !! k = Some x /\
     (used x = false \/ (unevict x = false /\ pfs_loading s = false /\ pfs_durable_active s = true))).
Proof.
  intros [W1 _ _ _] Hc. unfold choose_slot.
  destruct (first_ix_spec (fun x => negb (used x)) (pfs_table s) 0 ltac:(lia)) as [[-> _]|(k & x & E & Hk & Hx)].
  - cbn [Z.leb Z.compare]. dif Ea; cbn [fst snd]; [|by split_and!; [..|left]].
    assert (pfs_durable_active s = true /\ pfs_loading s = false) as [Hact Hload].
    { unfold pfs_durable_active, pfs_flat_evicts in *. destruct (pfs_loading s), (pfs_ark_active (disk s)), (pfs_dur_active (disk s)); done. }
    split_and!; try done.
    + by apply pick_victim_clk.
    + destruct (pick_victim_spec 64 (pfs_table s) (evict_clk s) Hc W1) as [E|(k & x & E & Hk & Hx)]; [by left|].
      right. exists k, x. split_and!; [done|done|by right].
  - rewrite E, (proj2 (Z.leb_le _ _)) by lia. cbn [fst snd]. split_and!; try done. right. exists k, x.
    split_and!; [lia|done|]. left. by apply negb_true_iff.
Qed.

Definition code (r : put_result (D := D)) : Z := fst (fst (fst r)).
Definition id_out (r : put_result (D := D)) : option (list Z) := snd (fst (fst r)).
Definition hooked (r : put_result (D := D)) : list announce := snd (fst r).
Definition state (r : put_result (D := D)) : store D := snd r.

(** [ready]: the invariant, a clock in range, and not in the middle of a
    restore. *)
Definition sound s : Prop := wf s /\ 0 <= evict_clk s.

Lemma put_resident_sound k x s : sound s -> pfs_table s !! k = Some x -> sound (snd (put_resident (Z.of_nat k) s)).
Proof.
  intros [Hw Hc] Hk. unfold put_resident. rewrite (slot_lookup s k x Hk). dif E; [|done].
  destruct (persist (s_id x) (data x) (disk s)) as [ok d]. cbn [fst snd]. dif E1; cbn [snd]; [by split; [apply (wf_same s)|]|].
  split; [|done]. apply (wf_write s k x (with_unevict false x) Hw Hk).
  - cbn. intros Hu. destruct (wf_slots s Hw k x Hk Hu). split_and!; [done..|].
    intros j z Hj Hz E2. by apply (wf_ids s Hw j k z x).
  - cbn [set_table set_disk pfs_table]. by rewrite setz_nat.
  - cbn. lia.
Qed.

Lemma put_new_sound k x id bytes org s : sound s -> pfs_table s !! k = Some x -> id = sha256 bytes -> lenz bytes <= PFS_BLOCK_MAX ->
  find_slot id s = -1 -> sound (snd (put_new (Z.of_nat k) id bytes org s)).
Proof.
  intros [Hw Hc] Hk -> Hb Hf. unfold put_new. rewrite (slot_lookup s k x Hk).
  assert (u32 (pfs_n s + 1) = pfs_n s + 1) as Hu.
  { apply u32_small. unfold is_u32. rewrite (wf_n s Hw). pose proof (countz_bound used (pfs_table s)). rewrite (wf_len s Hw) in *. unfold PFS_MAX_BLOCKS in *. lia. }
  assert (forall b s', pfs_table s' = <[k := Slot (sha256 bytes) true org b bytes]> (pfs_table s) ->
    pfs_n s' = (if used x then pfs_n s else u32 (pfs_n s + 1)) -> wf s') as Hgo.
  { intros b s' E1 E2. apply (wf_write s k x (Slot (sha256 bytes) true org b bytes) Hw Hk); [|done|].
    - cbn. intros _. split_and!; [done|done|]. intros j z Hj Hz E.
      destruct (find_slot_spec (sha256 bytes) s) as [[_ Hno]|(k' & x' & E' & _)]; [by destruct (Hno j z)|lia].
    - rewrite E2, Hu. destruct (used x); cbn; lia. }
  destruct (pfs_loading s) eqn:El; cbn [snd set_table pfs_loading].
  - rewrite El. cbn [snd]. split; [|done]. apply (Hgo false); cbn; [by rewrite setz_nat|done].
  - rewrite El. destruct (persist _ bytes _) as [ok d]. cbn [fst snd]. destruct ok; cbn [negb snd].
    + split; [|done]. apply (Hgo false); cbn; [by rewrite setz_nat|done].
    + split; [|done]. apply (Hgo true); cbn; [|done]. rewrite !setz_nat. by rewrite list_insert_insert_eq.
Qed.

Lemma put_sound buf len org s : sound s -> sound (state (pfs_put_origin buf len org s)).
Proof.
  intros Hs. unfold state, pfs_put_origin. dif E1; [done|]. dif E2; [done|]. bools.
  set (bytes := take _ _). assert (lenz bytes <= PFS_BLOCK_MAX) as Hb
    by (unfold bytes, lenz, PFS_BLOCK_MAX in *; rewrite length_take; lia).
  destruct (find_slot_spec (pfs_id_compute bytes) s) as [[E _]|(k & x & E & Hk & _)]; rewrite E.
  - cbn [Z.leb Z.compare]. destruct (choose_slot_spec s (proj1 Hs) (proj2 Hs)) as (C1 & C2 & C3 & C4 & C5 & C6 & C7).
    set (c := choose_slot s) in *. assert (sound (snd c)) as Hc by (split; [apply (wf_same s); [done|done|apply Hs]|done]).
    destruct C7 as [->|(k & x & -> & Hk & _)].
    + cbn [Z.ltb Z.compare snd]. split; [by apply (wf_same (snd c)); [..|apply Hc]|apply Hc].
    + rewrite (proj2 (Z.ltb_ge _ 0)) by lia. cbn [snd]. apply (put_new_sound k x); [done|by rewrite C1|done|done|].
      unfold find_slot in *. by rewrite C1.
  - rewrite (proj2 (Z.leb_le _ _)) by lia. cbn [snd]. by apply (put_resident_sound k x).
Qed.

Lemma drop_sound id s : sound s -> sound (snd (pfs_drop id s)).
Proof.
  intros Hs. unfold pfs_drop. destruct (find_slot_spec id s) as [[E _]|(k & x & E & Hk & Hu & _)]; rewrite E.
  - cbn [Z.ltb Z.compare andb]. dif E1; [|done]. cbn [snd]. split; [by apply (wf_same s); [..|apply Hs]|apply Hs].
  - rewrite (proj2 (Z.ltb_ge _ 0)) by lia. cbn [andb]. rewrite (slot_lookup s k x Hk). dif E1; [done|]. cbn [snd].
    set (s1 := if _ && _ then _ else s). assert (pfs_table s1 = pfs_table s /\ pfs_n s1 = pfs_n s /\ evict_clk s1 = evict_clk s) as (F1 & F2 & F3)
      by (subst s1; ifs; done).
    split; [|cbn; rewrite F3; apply Hs].
    apply (wf_write s k x (Slot (s_id x) false (origin x) false []) (proj1 Hs) Hk); [done| |].
    + cbn [set_table pfs_table]. by rewrite F1, setz_nat.
    + cbn. rewrite F2, Hu. cbn. pose proof (wf_n s (proj1 Hs)) as Hn. pose proof (countz_bound used (pfs_table s)) as Hb.
      rewrite (wf_len s (proj1 Hs)) in Hb. assert (1 <= countz used (pfs_table s)).
      { pose proof (countz_insert used (pfs_table s) k x (Slot [] false 0 false []) Hk) as Hc. rewrite Hu in Hc. cbn in Hc.
        pose proof (countz_bound used (<[k:=Slot [] false 0 false []]> (pfs_table s))). lia. }
      rewrite u32_small by (unfold is_u32, PFS_MAX_BLOCKS in *; lia). lia.
Qed.

(** *** Runs *)
Inductive op : Type :=
  | OPut (buf : option (list Z)) (len org : Z)
  | ODrop (id : list Z)
  | ORestore.

(** A restore only happens when the log is not the selected store. *)
Definition do_op (o : op) s : store D :=
  match o with
  | OPut buf len org => state (pfs_put_origin buf len org s)
  | ODrop id => snd (pfs_drop id s)
  | ORestore => if pfs_ark_active (disk s) then s else snd (pfs_durable_restore s)
  end.
Definition run (os : list op) s : store D := fold_left (fun s o => do_op o s) os s.

Definition start (d : D) (hook : bool) : store D := Store (replicate 64 empty_slot) 0 0 0 false hook d.

Lemma start_sound d hook : sound (start d hook).
Proof. split; [|done]. by apply (wf_same (store0 d)); [..|apply wf_store0]. Qed.

Lemma loading_sound b s : sound s -> sound (set_loading b s).
Proof. intros [Hw Hc]. split; [by apply (wf_same s)|done]. Qed.

Lemma restore_sound s : sound s -> sound (snd (pfs_durable_restore s)).
Proof.
  intros Hs. unfold pfs_durable_restore. ifs; [done|]. cbn [snd].
  assert (forall l c, sound (into c) -> sound (into (fold_left (fun c f => pfs_restore_cb f c) l c))) as H; [|by apply H].
  clear. induction l as [|f l IH]; intros c Hc; [done|]. cbn [fold_left]. apply IH.
  unfold pfs_restore_cb. destruct (name_id _ _); [|done]. ifs; try done. cbn [into].
  by apply loading_sound, (put_sound (Some (snd f))), loading_sound.
Qed.

Lemma op_sound o s : sound s -> sound (do_op o s).
Proof.
  intros Hs. destruct o; cbn [do_op]; [by apply put_sound|by apply drop_sound|].
  destruct (pfs_ark_active (disk s)); [done|by apply restore_sound].
Qed.

Lemma run_sound os s : sound s -> sound (run os s).
Proof. revert s. induction os as [|o os IH]; intros s Hs; [done|]. cbn [run fold_left]. by apply IH, op_sound. Qed.

(** *** Reading *)

Lemma delivered_spec b maxlen : fst (delivered b maxlen) = lenz b /\
  snd (delivered b maxlen) = take (Z.to_nat (Z.min (lenz b) maxlen)) b.
Proof. done. Qed.

Lemma get_cases id maxlen s : wf s ->
  pfs_get id maxlen s = (PFS_E_NOTFOUND, []) \/ exists b, pfs_get id maxlen s = delivered b maxlen /\ sha256 b = id.
Proof.
  intros Hw. unfold pfs_get. destruct (find_slot_spec id s) as [[E _]|(k & x & E & Hk & Hu & Hid)]; rewrite E.
  - cbn [Z.leb Z.compare]. assert (forall fl, check_block id fl maxlen = (PFS_E_NOTFOUND, []) \/
      exists b, check_block id fl maxlen = delivered b maxlen /\ sha256 b = id) as Hc.
    { intros [b|]; cbn [check_block]; [|by left]. dif E1; [|by left]. right. exists b. split; [done|].
      bools. by apply bool_decide_eq_true in H0. }
    destruct (pfs_ark_active (disk s)); [done|]. destruct (pfs_flat_evicts (disk s)); [done|by left].
  - rewrite (proj2 (Z.leb_le _ _)) by lia. right. rewrite (slot_lookup s k x Hk). exists (data x). split; [done|].
    rewrite <- Hid. symmetry. by apply (wf_slots s Hw k).
Qed.

Lemma get_len id maxlen s : wf s -> fst (pfs_get id maxlen s) <= PFS_BLOCK_MAX.
Proof.
  intros Hw. unfold pfs_get, PFS_E_NOTFOUND. assert (forall fl, fst (check_block id fl maxlen) <= PFS_BLOCK_MAX) as Hc.
  { intros [b|]; cbn [check_block]; [|done]. dif E; [|done]. by bools. }
  destruct (find_slot_spec id s) as [[E _]|(k & x & E & Hk & Hu & _)]; rewrite E.
  - cbn [Z.leb Z.compare]. destruct (pfs_ark_active (disk s)); [done|]. by destruct (pfs_flat_evicts (disk s)).
  - rewrite (proj2 (Z.leb_le _ _)) by lia. rewrite (slot_lookup s k x Hk). by apply (wf_slots s Hw k).
Qed.
End facts.

(** ** Nothing that was stored is lost *)

Section kept.
Context {D : Type} `{Dur : Durable D} `{Ok : !DurableOk D}.
Implicit Types s : store D.

Definition active (d : D) : bool := pfs_ark_active d || pfs_dur_active d.

Lemma sha_hex x : is_block_name (id_to_hex (sha256 x)) = true.
Proof. apply id_to_hex_block; [apply sha256_bytes|]. unfold lenz. by rewrite sha256_length. Qed.

Lemma sha_dur x : is_dur_name (id_to_hex (sha256 x)) = true.
Proof. apply block_dur_name, sha_hex. Qed.

Lemma sha_hex_inj x y : sha256 x <> sha256 y -> id_to_hex (sha256 x) <> id_to_hex (sha256 y).
Proof. intros Hne E. apply Hne, id_to_hex_inj; [apply sha256_bytes..| |done]. by rewrite !sha256_length. Qed.

Lemma persist_spec d bytes : dur_ok d -> lenz bytes <= PFS_BLOCK_MAX ->
  let r := persist (sha256 bytes) bytes d in
  dur_ok (snd r) /\ active (snd r) = active d /\ pfs_ark_active (snd r) = pfs_ark_active d /\
  (forall id, holds d id -> holds (snd r) id) /\ (fst r = true -> active d = true -> holds (snd r) (sha256 bytes)).
Proof.
  intros Hd Hb. unfold persist, active, holds, behind. destruct (pfs_ark_active d) eqn:Ea.
  - destruct (dur_ark_modes bytes d) as [M1 M2]. rewrite M1, M2, Ea. split_and!; [by apply dur_ark_ok|done|done| |].
    + intros id (b & H1 & H2 & H3). exists b. split_and!; [by apply dur_ark_keeps|done..].
    + intros Ht _. destruct (dur_ark_back bytes d Hd Ea Hb Ht) as (b' & H1 & H2 & H3). by exists b'.
  - destruct (pfs_dur_active d) eqn:Ed; cbn [fst snd].
    + destruct (dur_write_modes (id_to_hex (sha256 bytes)) bytes d) as [M1 M2]. rewrite M1, M2, Ea, Ed.
      assert (fst (pfs_dur_write (id_to_hex (sha256 bytes)) bytes d) = true ->
        pfs_dur_read (id_to_hex (sha256 bytes)) (snd (pfs_dur_write (id_to_hex (sha256 bytes)) bytes d)) = Some bytes) as Hback
        by (intros Ht; apply dur_write_back; (done || apply sha_dur)).
      split_and!; [by apply dur_write_ok|done|done| |intros Ht _; exists bytes; by split_and!; [apply Hback|..]].
      intros id (b & H1 & H2 & H3). destruct (fst (pfs_dur_write (id_to_hex (sha256 bytes)) bytes d)) eqn:Ht.
      * destruct (decide (sha256 b = sha256 bytes)) as [Heq|Hne].
        -- exists bytes. rewrite <- H2, Heq. split_and!; [by apply Hback|done..].
        -- exists b. rewrite dur_write_other; [done..|apply sha_dur|rewrite <- H2; apply sha_dur|].
           rewrite <- H2. by apply sha_hex_inj.
      * exists b. rewrite dur_write_failed; [done..|apply sha_dur|rewrite <- H2; apply sha_dur|done].
    + rewrite Ea, Ed. by split_and!.
Qed.

(** Every block that may be evicted is also behind the table. *)
Definition covered s : Prop := forall k x, pfs_table s !! k = Some x -> used x = true -> unevict x = false ->
  active (disk s) = true -> holds (disk s) (s_id x).

Record good s : Prop := { g_sound : sound s; g_ok : dur_ok (disk s); g_cov : covered s }.

Definition avail s (id : list Z) : Prop :=
  (exists k x, pfs_table s !! k = Some x /\ used x = true /\ s_id x = id) \/ holds (disk s) id.

(** A step that keeps the store good and whatever was available. *)
Definition keeps s s' : Prop :=
  good s' /\ (forall id, avail s id -> avail s' id) /\ pfs_loading s' = pfs_loading s /\ put_hook s' = put_hook s /\
  active (disk s') = active (disk s) /\ pfs_ark_active (disk s') = pfs_ark_active (disk s).

Lemma keeps_refl s : good s -> keeps s s.
Proof. intros Hg. by split_and!. Qed.

Lemma put_resident_keeps k x s : good s -> pfs_table s !! k = Some x -> used x = true ->
  keeps s (snd (put_resident (Z.of_nat k) s)).
Proof.
  intros [Hs Hd Hc] Hk Hu. pose proof (put_resident_sound k x s Hs Hk) as Hs'. revert Hs'.
  destruct (wf_slots s (proj1 Hs) k x Hk Hu) as [Hid Hlen].
  unfold put_resident. rewrite (slot_lookup s k x Hk). dif E; [|intros _; by apply keeps_refl]. bools. rewrite Hid.
  destruct (persist_spec (disk s) (data x) Hd Hlen) as (P1 & P2 & P2' & P3 & P4).
  destruct (persist (sha256 (data x)) (data x) (disk s)) as [ok d]. cbn [fst snd] in *. destruct ok; cbn [negb snd]; intros Hs'.
  - split; [split; [done|done|]|split_and!; [|done..]].
    + intros j y Hj Huy Hey. cbn [set_table set_disk pfs_table disk] in *. rewrite setz_nat in Hj.
      apply list_lookup_insert_Some in Hj as [(-> & <- & _)|[_ Hj]].
      * intros Ha. cbn. rewrite Hid. apply P4; [done|by rewrite <- P2].
      * intros Ha. apply P3, (Hc j y); [done..|by rewrite <- P2].
    + intros id [(j & y & Hj & Hy & <-)|Hh]; [left|right; by apply P3].
      destruct (decide (j = k)) as [->|Hne].
      * exists k, (with_unevict false x). cbn [set_table set_disk pfs_table]. rewrite setz_nat.
        rewrite list_lookup_insert_eq by (by eapply lookup_lt_Some). rewrite Hk in Hj. by injection Hj as ->.
      * exists j, y. cbn [set_table set_disk pfs_table]. rewrite setz_nat, list_lookup_insert_ne by done. done.
  - split; [split; [done|done|]|split_and!; [|done..]].
    + intros j y Hj Huy Hey Ha. cbn [set_disk disk pfs_table] in *. apply P3, (Hc j y); [done..|by rewrite <- P2].
    + intros id [Hr|Hh]; [by left|right; by apply P3].
Qed.

Lemma put_new_keeps k x bytes org s : good s -> pfs_table s !! k = Some x -> lenz bytes <= PFS_BLOCK_MAX ->
  find_slot (sha256 bytes) s = -1 ->
  (used x = false \/ (unevict x = false /\ pfs_durable_active s = true)) ->
  (pfs_loading s = true -> active (disk s) = true -> holds (disk s) (sha256 bytes)) ->
  let r := put_new (Z.of_nat k) (sha256 bytes) bytes org s in
  keeps s (snd r) /\ avail (snd r) (sha256 bytes).
Proof.
  intros [Hs Hd Hc] Hk Hb Hf Hvict Hload. pose proof (put_new_sound k x _ bytes org s Hs Hk eq_refl Hb Hf) as Hs'. revert Hs'.
  unfold put_new. cbn [set_table pfs_loading put_hook disk set_disk].
  assert (forall b n d fl ck ld hk, active d = active (disk s) -> dur_ok d -> (forall id, holds (disk s) id -> holds d id) ->
    (b = false -> active (disk s) = true -> holds d (sha256 bytes)) ->
    pfs_ark_active d = pfs_ark_active (disk s) -> ld = pfs_loading s -> hk = put_hook s ->
    let s' := Store (<[k := Slot (sha256 bytes) true org b bytes]> (pfs_table s)) n fl ck ld hk d in
    sound s' -> keeps s s' /\ avail s' (sha256 bytes)) as Hgo.
  { intros b n d fl ck ld hk Ha Hdo Hh Hnew Hark -> -> s' Hs'. pose proof (lookup_lt_Some _ _ _ Hk) as Hlt. split.
    - split; [split; [done|done|]|split_and!; [|done..]].
      + intros j y Hj Hu Hev Hact. cbn [pfs_table disk s'] in *. apply list_lookup_insert_Some in Hj as [(-> & <- & _)|[_ Hj]].
        * cbn in *. apply Hnew; [done|by rewrite <- Ha].
        * apply Hh, (Hc j y); [done..|by rewrite <- Ha].
      + intros id [(j & y & Hj & Hy & <-)|H]; [|right; by apply Hh].
        destruct (decide (j = k)) as [->|Hne].
        * right. rewrite Hk in Hj. injection Hj as ->. apply Hh. destruct Hvict as [Hv|[Hv Hact]]; [congruence|].
          by apply (Hc k y).
        * left. exists j, y. cbn [pfs_table s']. by rewrite list_lookup_insert_ne.
    - left. exists k, (Slot (sha256 bytes) true org b bytes). cbn [pfs_table s']. by rewrite list_lookup_insert_eq. }
  destruct (pfs_loading s) eqn:El; cbn [snd].
  - rewrite setz_nat. apply Hgo; try done. intros _. by apply Hload.
  - destruct (persist_spec (disk s) bytes Hd Hb) as (P1 & P2 & P2' & P3 & P4).
    destruct (persist (sha256 bytes) bytes (disk s)) as [ok d]. cbn [fst snd] in *. destruct ok; cbn [negb snd].
    + rewrite setz_nat. apply Hgo; try done. intros _ Hact. by apply P4.
    + cbn [set_table set_disk pfs_table pfs_n pfs_full_n evict_clk pfs_loading put_hook disk]. rewrite !setz_nat, list_insert_insert_eq. by apply Hgo.
Qed.

Lemma keeps_from s s1 s2 : pfs_table s1 = pfs_table s -> disk s1 = disk s -> pfs_loading s1 = pfs_loading s ->
  put_hook s1 = put_hook s -> keeps s1 s2 -> keeps s s2.
Proof. intros E1 E2 E3 E4 (K1 & K2 & K3 & K4 & K5 & K6). unfold keeps, avail in *. rewrite E1, E2, E3, E4 in *. done. Qed.

Lemma put_keeps buf len org s : good s ->
  (pfs_loading s = true -> active (disk s) = true -> holds (disk s) (sha256 (take (Z.to_nat len) (default [] buf)))) ->
  let r := pfs_put_origin buf len org s in
  keeps s (state r) /\
  (code r = PFS_OK \/ code r = PFS_E_DURABLE -> id_out r = Some (sha256 (take (Z.to_nat len) (default [] buf))) /\
     avail (state r) (sha256 (take (Z.to_nat len) (default [] buf)))).
Proof.
  intros Hg Hload. unfold state, code, id_out, pfs_put_origin.
  pose proof (keeps_refl s Hg) as Hrefl.
  dif E1; [split; [done|intros [?|?]; done]|]. dif E2; [split; [done|intros [?|?]; done]|]. bools.
  set (bytes := take _ _) in *. assert (lenz bytes <= PFS_BLOCK_MAX) as Hb
    by (unfold bytes, lenz, PFS_BLOCK_MAX in *; rewrite length_take; lia).
  unfold pfs_id_compute. destruct (find_slot_spec (sha256 bytes) s) as [[E _]|(k & x & E & Hk & Hu & Hid)]; rewrite E.
  - cbn [Z.leb Z.compare]. destruct Hg as [[Hw Hclk] Hd Hc].
    destruct (choose_slot_spec s Hw Hclk) as (C1 & C2 & C3 & C4 & C5 & C6 & C7). set (c := choose_slot s) in *. clearbody c.
    assert (good (snd c)) as Hgc.
    { split; [split; [by apply (wf_same s)|done]|by rewrite C3|]. unfold covered. by rewrite C1, C3. }
    destruct C7 as [->|(k & x & -> & Hk & Hx)].
    + cbn [Z.ltb Z.compare fst snd]. split; [|intros [?|?]; done].
      apply (keeps_from s (snd c)); [done..|]. split_and!; try done. destruct Hgc as [[Hw' Hc'] H2 H3]. by split; [split; [apply (wf_same (snd c))|]|..].
    + rewrite (proj2 (Z.ltb_ge _ 0)) by lia.
      destruct (put_new_keeps k x bytes org (snd c) Hgc) as [K A]; [by rewrite C1|done|unfold find_slot in *; by rewrite C1| | |].
      * unfold pfs_durable_active in *. rewrite C3. destruct Hx as [Hx|(Hx & _ & Ha)]; [by left|by right].
      * rewrite C4, C3. done.
      * cbn [fst snd]. split; [|intros _; by split]. by apply (keeps_from s (snd c)).
  - rewrite (proj2 (Z.leb_le _ _)) by lia. cbn [fst snd]. pose proof (put_resident_keeps k x s Hg Hk Hu) as K.
    split; [done|]. intros _. split; [done|]. destruct K as (_ & Ka & _). apply Ka. left. by exists k, x.
Qed.

(** An id as the interface takes it: 32 bytes. *)
Definition id_bytes (id : list Z) : Prop := Forall is_u8 id /\ lenz id = PFS_ID_LEN.

Lemma sha_id x : id_bytes (sha256 x).
Proof. split; [apply sha256_bytes|]. unfold lenz. by rewrite sha256_length. Qed.

Lemma hex_ne id id' : id_bytes id -> id_bytes id' -> id <> id' -> id_to_hex id <> id_to_hex id'.
Proof.
  intros [B1 L1] [B2 L2] Hne E. apply Hne, id_to_hex_inj; [done..| |done]. unfold lenz in *. lia.
Qed.

Lemma remove_holds d id id' : dur_ok d -> pfs_ark_active d = false -> id_bytes id -> id' <> id -> holds d id' ->
  holds (snd (pfs_dur_remove (id_to_hex id) d)) id'.
Proof.
  intros Hd Ha Hid Hne (b & H1 & H2 & H3). exists b. split_and!; [|done..]. revert H1. unfold behind.
  destruct (dur_remove_modes (id_to_hex id) d) as [-> ->]. rewrite Ha. destruct (pfs_dur_active d); [|done].
  assert (id_bytes id') by (rewrite <- H2; apply sha_id).
  rewrite dur_remove_other; [done|done|apply block_dur_name, id_to_hex_block; apply Hid|by apply block_dur_name, id_to_hex_block; [apply H|apply H]|].
  by apply hex_ne.
Qed.

Lemma drop_keeps id s : good s -> id_bytes id ->
  good (snd (pfs_drop id s)) /\ (forall id', id' <> id -> avail s id' -> avail (snd (pfs_drop id s)) id') /\
  pfs_loading (snd (pfs_drop id s)) = pfs_loading s.
Proof.
  intros Hg Hid. pose proof (drop_sound id s (g_sound s Hg)) as Hs'. revert Hs'. destruct Hg as [Hs Hd Hc]. unfold pfs_drop.
  assert (pfs_ark_active (disk s) = false -> active (snd (pfs_dur_remove (id_to_hex id) (disk s))) = active (disk s)) as Hact.
  { intros _. unfold active. by destruct (dur_remove_modes (id_to_hex id) (disk s)) as [-> ->]. }
  destruct (find_slot_spec id s) as [[E Hno]|(k & x & E & Hk & Hu & Hx)]; rewrite E.
  - cbn [Z.ltb Z.compare andb]. dif E1; intros Hs'; [|by split]. cbn [snd] in *.
    assert (pfs_ark_active (disk s) = false) as Ha by (unfold pfs_flat_evicts in E1; by destruct (pfs_ark_active (disk s))).
    split; [split; [done|by apply dur_remove_ok|]|split; [|done]].
    + intros k x Hk Hu Hev Hact'. cbn [set_disk disk pfs_table] in *. apply remove_holds; [done..|by apply (Hno k x)|].
      apply (Hc k x); [done..|]. by rewrite <- Hact.
    + intros id' Hne [Hr|Hh]; [by left|right]. by apply remove_holds.
  - rewrite (proj2 (Z.ltb_ge _ 0)) by lia. cbn [andb]. rewrite (slot_lookup s k x Hk), Hx. dif E1; [intros Hs'; by split|].
    set (s1 := if _ && _ then _ else s).
    assert (pfs_table s1 = pfs_table s /\ pfs_loading s1 = pfs_loading s /\ dur_ok (disk s1) /\ active (disk s1) = active (disk s) /\
      (forall id', id' <> id -> holds (disk s) id' -> holds (disk s1) id')) as (F1 & F2 & F3 & F4 & F5).
    { subst s1. dif E2; [|by split_and!]. bools. split_and!; [done|done|by apply dur_remove_ok|by apply Hact|].
      intros id' Hne Hh. by apply remove_holds. }
    cbn [snd]. intros Hs'. rewrite F1, setz_nat in *. pose proof (lookup_lt_Some _ _ _ Hk) as Hlt.
    split; [split; [done|done|]|split; [|done]].
    + intros j y Hj Huy Hev Ha. cbn [set_table disk pfs_table] in *.
      apply list_lookup_insert_Some in Hj as [(-> & <- & _)|[Hne Hj]]; [done|].
      apply F5; [|apply (Hc j y); [done..|by rewrite <- F4]].
      intros Hy. apply Hne. symmetry. apply (wf_ids s (proj1 Hs) j k y x); (done || congruence).
    + intros id' Hne [(j & y & Hj & Hy & <-)|Hh]; [|right; by apply F5].
      left. exists j, y. cbn [set_table pfs_table]. rewrite list_lookup_insert_ne; [done|]. intros ->. congruence.
Qed.

(** A put during a restore touches no disk. *)
Lemma loading_put_disk buf len org s : pfs_loading s = true -> disk (state (pfs_put_origin buf len org s)) = disk s.
Proof.
  intros Hl. assert (forall i, disk (snd (put_resident i s)) = disk s) as Hr
    by (intros i; unfold put_resident; by rewrite Hl).
  assert (choose_slot s = (fst (choose_slot s), s)) as Hc by (unfold choose_slot; rewrite Hl; by destruct (0 <=? _)).
  assert (forall i id bytes, disk (snd (put_new i id bytes org s)) = disk s) as Hn.
  { intros i id bytes. unfold put_new. change (pfs_loading (set_table _ _ s)) with (pfs_loading s). by rewrite Hl. }
  unfold state, pfs_put_origin. rewrite Hc. cbn [fst snd].
  destruct (_ && _); [done|]. destruct (PFS_BLOCK_MAX <? len); [done|].
  destruct (0 <=? find_slot _ _); [apply Hr|]. destruct (fst (choose_slot s) <? 0); [done|apply Hn].
Qed.

Lemma set_loading_good b s : good s -> good (set_loading b s).
Proof. intros [Hs Hd Hc]. split; [by apply loading_sound|done|done]. Qed.

Lemma restore_file_good n b c d0 : good (into c) -> disk (into c) = d0 -> pfs_ark_active d0 = false -> pfs_dur_active d0 = true ->
  (n, b) ∈ pfs_dur_foreach d0 ->
  let c' := pfs_restore_cb (n, b) c in
  good (into c') /\ disk (into c') = d0 /\ (forall id, avail (into c) id -> avail (into c') id).
Proof.
  intros Hg Hd Ha Hda Hin. unfold pfs_restore_cb. cbn [fst snd].
  destruct (name_id (Z.to_nat PFS_ID_LEN) n) as [want|] eqn:En; [|done]. dif E1; [done|]. dif E2; [done|].
  bools. apply bool_decide_eq_true in E2. bools. set (s1 := set_loading true (into c)). cbn [into].
  destruct (dur_foreach_reads n b d0) as [Hbn Hrd]; [rewrite <- Hd; apply Hg|done|].
  assert (take (Z.to_nat (lenz b)) (default [] (Some b)) = b) as Hb by (cbn; apply take_ge; unfold lenz; lia).
  destruct (put_keeps (Some b) (lenz b) PFS_ORIGIN_SELF s1) as [(K1 & K2 & _) _]; [by apply set_loading_good| |].
  { intros _ _. rewrite Hb. cbn [s1 set_loading disk]. rewrite Hd. exists b. split_and!; [|done|done].
    unfold behind. rewrite Ha, Hda. rewrite <- Hrd. f_equal. unfold pfs_id_compute in E2. rewrite <- E2.
    unfold is_block_name in Hbn. bools. apply (hex_name_id (Z.to_nat PFS_ID_LEN)); [done| |done].
    unfold lenz, PFS_DUR_HEX_LEN, PFS_ID_LEN in *. lia. }
  split_and!; [by apply set_loading_good| |intros id Hav; by apply K2].
  pose proof (loading_put_disk (Some b) (lenz b) PFS_ORIGIN_SELF s1 eq_refl) as E. unfold state in E.
  cbn [set_loading disk snd fst]. by rewrite E.
Qed.

Lemma restore_keeps s : good s -> pfs_ark_active (disk s) = false ->
  good (snd (pfs_durable_restore s)) /\ (forall id, avail s id -> avail (snd (pfs_durable_restore s)) id).
Proof.
  intros Hg Ha. unfold pfs_durable_restore. dif E; [done|]. bools. cbn [snd].
  assert (forall l c, good (into c) -> disk (into c) = disk s -> (forall f, f ∈ l -> f ∈ pfs_dur_foreach (disk s)) ->
    let c' := fold_left (fun c f => pfs_restore_cb f c) l c in
    good (into c') /\ (forall id, avail (into c) id -> avail (into c') id)) as H; [|apply H; done].
  induction l as [|[n b] l IH]; intros c Hgc Hdc Hl; [done|]. cbn [fold_left].
  destruct (restore_file_good n b c (disk s) Hgc Hdc Ha E) as (G1 & G2 & G3); [apply Hl; left|].
  destruct (IH _ G1 G2) as [I1 I2]; [intros f Hf; apply Hl; by right|]. split; [done|]. intros id Hav. by apply I2, G3.
Qed.

(** What a drop is given is an id. *)
Definition op_ok (o : op) : Prop := match o with ODrop id => id_bytes id | _ => True end.

Lemma op_keeps o s : good s -> pfs_loading s = false -> op_ok o ->
  good (do_op o s) /\ pfs_loading (do_op o s) = false /\
  (forall id, o <> ODrop id -> avail s id -> avail (do_op o s) id).
Proof.
  intros Hg Hl Ho. destruct o as [buf len org|id|]; cbn [do_op].
  - destruct (put_keeps buf len org s Hg) as [(K1 & K2 & K3 & _) _]; [by rewrite Hl|]. split_and!; [done|by rewrite K3|].
    intros id _. apply K2.
  - destruct (drop_keeps id s Hg Ho) as (K1 & K2 & K3). split_and!; [done|by rewrite K3|].
    intros id' Hne. apply K2. congruence.
  - destruct (pfs_ark_active (disk s)) eqn:Ea; [by split_and!|].
    destruct (restore_keeps s Hg Ea) as [K1 K2]. split_and!; [done| |intros id _; apply K2].
    unfold pfs_durable_restore. dif E; [done|]. cbn [snd].
    assert (forall l c, pfs_loading (into c) = false -> pfs_loading (into (fold_left (fun c f => pfs_restore_cb f c) l c)) = false) as H; [|by apply H].
    clear. induction l as [|f l IH]; intros c Hc; [done|]. cbn [fold_left]. apply IH.
    unfold pfs_restore_cb. destruct (name_id _ _); [|done]. by ifs.
Qed.

Lemma run_keeps ops s : good s -> pfs_loading s = false -> Forall op_ok ops ->
  good (run ops s) /\ pfs_loading (run ops s) = false /\
  (forall id, Forall (fun o => o <> ODrop id) ops -> avail s id -> avail (run ops s) id).
Proof.
  intros Hg Hl Ho. revert s Hg Hl. induction Ho as [|o ops Ho _ IH]; intros s Hg Hl; [done|].
  cbn [run fold_left]. destruct (op_keeps o s Hg Hl Ho) as (H1 & H2 & H3). destruct (IH _ H1 H2) as (I1 & I2 & I3).
  split_and!; [done|done|]. intros id Hno Hav. inversion Hno; subst. by apply I3, H3.
Qed.

Lemma start_good d hook : dur_ok d -> good (start d hook).
Proof.
  intros Hd. split; [apply start_sound|done|]. intros k x Hx Hu.
  apply list_elem_of_lookup_2, (elem_of_replicate 64 empty_slot) in Hx as [-> _]. done.
Qed.

(** What is available is served. *)
Lemma avail_get id maxlen s : wf s -> avail s id -> exists b, pfs_get id maxlen s = delivered b maxlen /\ sha256 b = id.
Proof.
  intros Hw [(k & x & Hk & Hu & Hx)|(b & Hb & Hsha & Hlen)].
  - destruct (get_cases id maxlen s Hw) as [Hn|Hs]; [|done]. exfalso. revert Hn. unfold pfs_get.
    destruct (find_slot_spec id s) as [[_ Hno]|(k' & x' & -> & _)]; [by destruct (Hno k x)|].
    rewrite (proj2 (Z.leb_le _ _)) by lia. unfold delivered, PFS_E_NOTFOUND. intros [= Hn _]. pose proof (lenz_nonneg (data (slot_at s (Z.of_nat k')))). lia.
  - unfold pfs_get. destruct (find_slot_spec id s) as [[E _]|(k & x & E & Hk & Hu & Hx)]; rewrite E.
    + cbn [Z.leb Z.compare]. unfold behind, pfs_flat_evicts in *.
      assert (check_block id (Some b) maxlen = delivered b maxlen) as Hc.
      { cbn [check_block]. rewrite (proj2 (Z.leb_le _ _)) by done. by rewrite bool_decide_eq_true_2. }
      exists b. split; [|done]. destruct (pfs_ark_active (disk s)); [by rewrite Hb|]. destruct (pfs_dur_active (disk s)); [|done].
      cbn [negb andb]. by rewrite Hb.
    + rewrite (proj2 (Z.leb_le _ _)) by lia. rewrite (slot_lookup s k x Hk). exists (data x). split; [done|].
      rewrite <- Hx. symmetry. by apply (wf_slots s Hw k).
Qed.
End kept.

(** A get never serves the wrong bytes. After any operations over any
    durable store whatever it returns, what a get delivers hashes to the id it
    was asked for, and its length is the code. *)
Theorem get_authentic {D} `{Durable D} (d : D) hook ops id maxlen (Hm : 0 <= maxlen)
    (Hget : 0 <= fst (pfs_get id maxlen (run ops (start d hook)))) :
  exists b, sha256 b = id /\ fst (pfs_get id maxlen (run ops (start d hook))) = lenz b /\
    snd (pfs_get id maxlen (run ops (start d hook))) = take (Z.to_nat maxlen) b.
Proof.
  destruct (run_sound ops _ (start_sound d hook)) as [Hw _].
  destruct (get_cases id maxlen _ Hw) as [E|(b & E & Hb)]; rewrite E in *; [cbn in Hget; unfold PFS_E_NOTFOUND in *; lia|].
  exists b. destruct (delivered_spec b maxlen) as [-> ->]. split_and!; [done|done|].
  destruct (decide (lenz b <= maxlen)) as [Hle|Hle]; unfold lenz in *.
  - rewrite Z.min_l by lia. rewrite !take_ge by lia. done.
  - by rewrite Z.min_r by lia.
Qed.

(** C5: nothing stored is lost. Over any durable store that gives back what it
    accepted, whatever writes it refuses: once a put has returned success, or
    the code that says only the copy in memory exists, the block is readable
    after any further operations that do not drop it, evictions and restores
    included. *)
Theorem never_lost {D} `{DurableOk D} (d : D) hook ops buf len org ops' maxlen (Hd : dur_ok d)
    (Hops : Forall op_ok ops) (Hops' : Forall op_ok ops')
    (Hput : code (pfs_put_origin buf len org (run ops (start d hook))) = PFS_OK \/
            code (pfs_put_origin buf len org (run ops (start d hook))) = PFS_E_DURABLE)
    (Hdrop : Forall (fun o => o <> ODrop (sha256 (take (Z.to_nat len) (default [] buf)))) ops') :
  let r := pfs_put_origin buf len org (run ops (start d hook)) in
  let id := sha256 (take (Z.to_nat len) (default [] buf)) in
  id_out r = Some id /\
  exists b, sha256 b = id /\ pfs_get id maxlen (run ops' (state r)) = delivered b maxlen.
Proof.
  intros r id. destruct (run_keeps ops _ (start_good d hook Hd) eq_refl Hops) as (G1 & L1 & _).
  destruct (put_keeps buf len org _ G1) as [(K1 & _ & K3 & _) K]; [by rewrite L1|]. destruct (K Hput) as [Hid Hav].
  split; [done|]. rewrite <- K3 in L1. destruct (run_keeps ops' _ K1 L1 Hops') as (G2 & _ & A2).
  destruct (avail_get id maxlen _ (proj1 (g_sound _ G2)) (A2 id Hdrop Hav)) as (b & Hb & Hsha). by exists b.
Qed.

(** A first put over a directory of files, and what it leaves. *)
Definition one_put : store flat := state (pfs_put_origin (Some [7]) 1 PFS_ORIGIN_SELF (start one_dir false)).

Lemma one_dir_ok : dur_ok one_dir.
Proof. exact I. Qed.

Lemma first_put_code : code (pfs_put_origin (Some [7]) 1 PFS_ORIGIN_SELF (start one_dir false)) = PFS_OK \/
  code (pfs_put_origin (Some [7]) 1 PFS_ORIGIN_SELF (start one_dir false)) = PFS_E_DURABLE.
Proof.
  unfold code, pfs_put_origin. cbn [bool_decide andb default take Z.to_nat Pos.to_nat Pos.iter_op].
  set (id := pfs_id_compute _). change (find_slot id (start one_dir false)) with (-1).
  change (choose_slot (start one_dir false)) with (0, start one_dir false). cbn [Z.leb Z.ltb Z.compare fst snd].
  unfold put_new. cbn [pfs_loading set_table start]. destruct (persist id _ _) as [ok d]. cbn [fst snd]. destruct ok; auto.
Qed.

Lemma one_put_avail : wf one_put /\ avail one_put (sha256 [7]).
Proof.
  destruct (put_keeps (Some [7]) 1 PFS_ORIGIN_SELF (start one_dir false) (start_good _ _ one_dir_ok)) as [(K & _) A]; [done|].
  split; [apply K|]. by apply A, first_put_code.
Qed.

Example get_authentic_witness :
  0 <= fst (pfs_get (sha256 [7]) 16 (run [OPut (Some [7]) 1 PFS_ORIGIN_SELF] (start one_dir false))) /\
  exists b, sha256 b = sha256 [7] /\ snd (pfs_get (sha256 [7]) 16 (run [OPut (Some [7]) 1 PFS_ORIGIN_SELF] (start one_dir false))) = take 16 b.
Proof.
  assert (0 <= fst (pfs_get (sha256 [7]) 16 (run [OPut (Some [7]) 1 PFS_ORIGIN_SELF] (start one_dir false)))) as H.
  { change (run _ _) with one_put. destruct one_put_avail as [Hw Ha]. destruct (avail_get (sha256 [7]) 16 one_put Hw Ha) as (b & -> & _).
    exact (lenz_nonneg b). }
  split; [exact H|]. destruct (get_authentic one_dir false _ (sha256 [7]) 16 ltac:(lia) H) as (b & H1 & _ & H2). exists b. exact (conj H1 H2).
Defined.

Example never_lost_witness :
  exists b, sha256 b = sha256 [7] /\
    pfs_get (sha256 [7]) 16 (run [OPut (Some [8]) 1 PFS_ORIGIN_SELF; ORestore] one_put) = delivered b 16.
Proof.
  refine (proj2 (never_lost one_dir false [] (Some [7]) 1 PFS_ORIGIN_SELF [OPut (Some [8]) 1 PFS_ORIGIN_SELF; ORestore] 16
    one_dir_ok _ _ first_put_code _)); repeat constructor; discriminate.
Defined.

(** ** A put is refused only when no slot may be taken *)

(** The rotating pointer looks at every slot. *)
Lemma pick_victim_none probes t clk : fst (pick_victim probes t clk) = -1 -> 0 <= clk ->
  forall i, 0 <= i < Z.of_nat probes -> unevict (getz t ((clk + i) mod PFS_MAX_BLOCKS) empty_slot) = true.
Proof.
  revert clk. induction probes as [|p IH]; intros clk E Hc i Hi; [lia|]. cbn [pick_victim] in E.
  pose proof (Z.mod_pos_bound clk PFS_MAX_BLOCKS ltac:(done)) as Hm.
  destruct (unevict (getz t (clk mod PFS_MAX_BLOCKS) empty_slot)) eqn:Eu; cbn [negb fst] in E; [|lia].
  destruct (Z.eq_dec i 0) as [->|Hne]; [by rewrite Z.add_0_r|].
  assert (0 <= u32 (clk + 1)) as Hc' by (unfold u32; apply Z.mod_pos_bound; lia).
  rewrite <- (IH _ E Hc' (i - 1)) by lia. f_equal.
  assert (u32 (clk + 1) + (i - 1) = clk + i + (- ((clk + 1) / 2 ^ 32) * 2 ^ 26) * PFS_MAX_BLOCKS) as ->
    by (unfold u32, PFS_MAX_BLOCKS; rewrite Z.mod_eq by done; lia).
  by rewrite Z.mod_add.
Qed.

Definition pinned (x : PFS_SLOT) : bool := used x && unevict x.

Lemma choose_slot_none {D} `{Durable D} (s : store D) : lenz (pfs_table s) = PFS_MAX_BLOCKS -> 0 <= evict_clk s ->
  pfs_loading s = false -> pfs_durable_active s = true ->
  fst (choose_slot s) < 0 <-> Forall pinned (pfs_table s).
Proof.
  intros Hl Hc Hld Hact. unfold choose_slot. rewrite Hld. cbn [negb andb].
  replace (pfs_ark_active (disk s) || pfs_flat_evicts (disk s)) with true
    by (unfold pfs_durable_active, pfs_flat_evicts in *; by destruct (pfs_ark_active _), (pfs_dur_active _)).
  destruct (first_ix_spec (fun x => negb (used x)) (pfs_table s) 0 ltac:(lia)) as [[-> Hno]|(k & x & -> & Hk & Hx)].
  - cbn [Z.leb Z.compare fst]. destruct (pick_victim_spec 64 (pfs_table s) (evict_clk s) Hc Hl) as [E|(k & x & E & Hk & Hx)]; rewrite E.
    + split; [intros _|lia]. apply Forall_lookup. intros k x Hk. unfold pinned.
      specialize (Hno k x Hk). apply negb_false_iff in Hno. rewrite Hno. apply Is_true_true.
      pose proof (lookup_lt_Some _ _ _ Hk) as Hlt. unfold lenz, PFS_MAX_BLOCKS in *.
      pose proof (pick_victim_none 64 (pfs_table s) (evict_clk s) E Hc ((Z.of_nat k - evict_clk s) mod 64)) as Hu.
      replace ((evict_clk s + (Z.of_nat k - evict_clk s) mod 64) mod PFS_MAX_BLOCKS) with (Z.of_nat k) in Hu.
      2: { unfold PFS_MAX_BLOCKS. rewrite Zplus_mod_idemp_r. rewrite <- (Z.mod_small (Z.of_nat k) 64) at 1 by lia. f_equal. lia. }
      rewrite <- (slot_lookup s k x Hk). apply Hu. pose proof (Z.mod_pos_bound (Z.of_nat k - evict_clk s) 64 ltac:(done)). lia.
    + split; [lia|]. intros Hf. rewrite Forall_lookup in Hf. specialize (Hf k x Hk). unfold pinned in Hf. rewrite Hx, andb_false_r in Hf. done.
  - rewrite (proj2 (Z.leb_le _ _)) by lia. cbn [fst]. split; [lia|]. intros Hf. rewrite Forall_lookup in Hf.
    specialize (Hf k x Hk). unfold pinned in Hf. apply negb_true_iff in Hx. by rewrite Hx in Hf.
Qed.

(** A store with a disk behind it has the capacity of the disk. A put is
    refused as full exactly if its block is not resident and all 64 slots are
    occupied by blocks whose durable write failed; the refusal changes neither
    the table nor the disk. *)
Theorem full_only_pinned {D} `{Durable D} (s : store D) buf len org (Hl : lenz (pfs_table s) = PFS_MAX_BLOCKS)
    (Hc : 0 <= evict_clk s) (Hld : pfs_loading s = false) (Hact : pfs_durable_active s = true)
    (Hbuf : buf <> None \/ len = 0) (Hlen : len <= PFS_BLOCK_MAX) :
  let r := pfs_put_origin buf len org s in
  (code r = PFS_E_FULL <->
    find_slot (sha256 (take (Z.to_nat len) (default [] buf))) s = -1 /\ Forall pinned (pfs_table s)) /\
  (code r = PFS_E_FULL -> pfs_table (state r) = pfs_table s /\ disk (state r) = disk s).
Proof.
  unfold code, state, pfs_put_origin, pfs_id_compute.
  assert (bool_decide (buf = None) && negb (len =? 0) = false) as ->
    by (destruct Hbuf as [Hb| ->]; [by rewrite bool_decide_eq_false_2|by rewrite andb_false_r]).
  rewrite (proj2 (Z.ltb_ge _ _)) by done. set (id := sha256 _). pose proof (choose_slot_none s Hl Hc Hld Hact) as Hch.
  assert (pfs_table (snd (choose_slot s)) = pfs_table s /\ disk (snd (choose_slot s)) = disk s) as [Ht Hd]
    by (unfold choose_slot; by ifs).
  destruct (find_slot_spec id s) as [[-> _]|(k & x & -> & _)].
  - cbn [Z.leb Z.compare]. dif E; bools; cbn [fst snd]; [by rewrite <- Hch|].
    assert (forall i id bytes s, fst (fst (put_new i id bytes org s)) <> PFS_E_FULL) as Hn
      by (clear; intros; unfold put_new; by ifs).
    split; [|by intros ?%Hn]. split; [by intros ?%Hn|]. intros [_ Hf%Hch]. lia.
  - rewrite (proj2 (Z.leb_le _ _)) by lia. cbn [fst snd].
    assert (forall i, fst (put_resident i s) <> PFS_E_FULL) as Hr by (clear; intros; unfold put_resident; by ifs).
    split; [|by intros ?%Hr]. split; [by intros ?%Hr|lia].
Qed.

Example full_only_pinned_witness :
  code (pfs_put_origin (Some [7]) 1 PFS_ORIGIN_SELF
    (Store (replicate 64 (Slot [] true 0 true [])) 64 0 5 false false one_dir)) = PFS_E_FULL.
Proof.
  apply (full_only_pinned (Store (replicate 64 (Slot [] true 0 true [])) 64 0 5 false false one_dir) (Some [7]) 1 PFS_ORIGIN_SELF);
    [done..|by left|done|]. split.
  - destruct (find_slot_spec (sha256 (take (Z.to_nat 1) (default [] (Some [7])))) (Store (replicate 64 (Slot [] true 0 true [])) 64 0 5 false false one_dir))
      as [[H _]|(k & x & _ & Hk & _ & Hx)]; [exact H|].
    apply list_elem_of_lookup_2, (elem_of_replicate 64) in Hk as [-> _]. apply (f_equal length) in Hx. by rewrite sha256_length in Hx.
  - repeat constructor.
Defined.
