(* ===== verification/Step.v ===== *)
(** * Programs that change a state and have effects

    The C functions of a module read and write its static variables and call out
    of it. [io S E A] is such a function: from the state it gives a value, the
    state after and, in order, the calls it made. [iter] is a loop over a list,
    [preserves] an invariant a function keeps, [relates] a relation between the
    state before and the state after. *)

From stdpp Require Import list.
From S2P Require Import Prelude.

Definition io (S E A : Type) : Type := S -> A * S * list E.

Definition val {S E A} (r : A * S * list E) : A := fst (fst r).
Definition end_state {S E A} (r : A * S * list E) : S := snd (fst r).
Definition calls {S E A} (r : A * S * list E) : list E := snd r.

Definition ret {S E A} (a : A) : io S E A := fun s => (a, s, []).
Definition bind {S E A B} (m : io S E A) (f : A -> io S E B) : io S E B := fun s =>
  let r := m s in let q := f (val r) (end_state r) in (val q, end_state q, calls r ++ calls q).

Declare Scope io_scope.
Delimit Scope io_scope with io.
Notation "x ← m ; k" := (bind m (fun x => k)) (at level 20, m at level 100, k at level 200) : io_scope.
Notation "m ;; k" := (bind m (fun _ => k)) (at level 100, k at level 200, right associativity) : io_scope.
#[global] Open Scope io_scope.

Definition get {S E} : io S E S := fun s => (s, s, []).
Definition gets {S E A} (f : S -> A) : io S E A := fun s => (f s, s, []).
Definition modify {S E} (f : S -> S) : io S E unit := fun s => (tt, f s, []).
Definition call {S E} (e : E) : io S E unit := fun s => (tt, s, [e]).
Definition when {S E} (b : bool) (m : io S E unit) : io S E unit := if b then m else ret tt.
Definition unless {S E} (b : bool) (m : io S E unit) : io S E unit := if b then ret tt else m.

Fixpoint iter {S E A} (l : list A) (f : A -> io S E unit) : io S E unit :=
  match l with [] => ret tt | x :: r => f x ;; iter r f end.

(** Running a program for its state. *)
Definition exec {S E A} (m : io S E A) (s : S) : S := end_state (m s).

Section laws.
Context {S E : Type}.

Lemma bind_eq {A B} (m : io S E A) (f : A -> io S E B) s :
  (bind m f) s = (val (f (val (m s)) (exec m s)), end_state (f (val (m s)) (exec m s)), calls (m s) ++ calls (f (val (m s)) (exec m s))).
Proof. done. Qed.

Lemma exec_bind {A B} (m : io S E A) (f : A -> io S E B) s : exec (bind m f) s = exec (f (val (m s))) (exec m s).
Proof. done. Qed.
Lemma val_bind {A B} (m : io S E A) (f : A -> io S E B) s : val ((bind m f) s) = val (f (val (m s)) (exec m s)).
Proof. done. Qed.
Lemma calls_bind {A B} (m : io S E A) (f : A -> io S E B) s : calls ((bind m f) s) = calls (m s) ++ calls (f (val (m s)) (exec m s)).
Proof. done. Qed.

(** [P] holds between the state before and the state after. *)
Definition relates {A} (P : S -> S -> Prop) (m : io S E A) : Prop := forall s, P s (exec m s).

Lemma relates_bind {A B} (P : S -> S -> Prop) `{!Transitive P} (m : io S E A) (f : A -> io S E B) :
  relates P m -> (forall a, relates P (f a)) -> relates P (bind m f).
Proof. intros Hm Hf s. rewrite exec_bind. etrans; [apply Hm|apply Hf]. Qed.

Lemma relates_iter {A} (P : S -> S -> Prop) `{!PreOrder P} (l : list A) (f : A -> io S E unit) :
  (forall a, relates P (f a)) -> relates P (iter l f).
Proof.
  intros Hf. induction l as [|x l IH]; intros s; [apply reflexivity|].
  cbn [iter]. apply relates_bind; [apply _|apply Hf|by intros []].
Qed.

(** An invariant. *)
Definition preserves {A} (I : S -> Prop) (m : io S E A) : Prop := forall s, I s -> I (exec m s).

Lemma preserves_bind {A B} (I : S -> Prop) (m : io S E A) (f : A -> io S E B) :
  preserves I m -> (forall a, preserves I (f a)) -> preserves I (bind m f).
Proof. intros Hm Hf s Hs. rewrite exec_bind. by apply Hf, Hm. Qed.

Lemma preserves_iter {A} (I : S -> Prop) (l : list A) (f : A -> io S E unit) :
  (forall a, a ∈ l -> preserves I (f a)) -> preserves I (iter l f).
Proof.
  induction l as [|x l IH]; intros Hf s Hs; [done|]. cbn [iter]. apply preserves_bind; [apply Hf; left| |done].
  intros _. apply IH. intros a Ha. apply Hf. by right.
Qed.

(** The calls of a loop, and of a program that only makes calls. *)
Lemma iter_app {A} (l k : list A) (f : A -> io S E unit) s :
  exec (iter (l ++ k) f) s = exec (iter k f) (exec (iter l f) s).
Proof. revert s. induction l as [|x l IH]; intros s; [done|]. cbn [app iter]. by rewrite !exec_bind, IH. Qed.

Lemma iter_calls {A} (l : list A) (e : A -> E) (s : S) : iter l (fun x => call (e x)) s = (tt, s, map e l).
Proof. revert s. induction l as [|x l IH]; intros s; [done|]. cbn [iter map]. by rewrite bind_eq, IH. Qed.

Lemma iter_map {A B} (l : list A) (g : A -> B) (f : B -> io S E unit) : iter (map g l) f = iter l (fun x => f (g x)).
Proof. induction l as [|x l IH]; [done|]. cbn [map iter]. by rewrite IH. Qed.

Lemma iter_ext {A} (l : list A) (f g : A -> io S E unit) : (forall x, x ∈ l -> forall s, f x s = g x s) ->
  forall s, iter l f s = iter l g s.
Proof.
  induction l as [|x l IH]; intros Hfg s; [done|]. cbn [iter]. rewrite !bind_eq. unfold exec. rewrite (Hfg x ltac:(left)).
  rewrite IH; [done|]. intros y Hy. apply Hfg. by right.
Qed.

Lemma bind_ret {A B} (m : io S E A) (f : A -> io S E B) s s' a : m s = (a, s', []) -> bind m f s = f a s'.
Proof. intros Hm. unfold bind. rewrite Hm. cbv zeta. unfold val, end_state, calls. cbn [fst snd app]. by destruct (f a s') as [[? ?] ?]. Qed.
End laws.
