(* ===== verification/Wire.v ===== *)
(** * Fields of packed structures

    A packed C structure is its fields one after the other, little-endian.
    [bytes_at] and [num_at] read a field of an image, [fields] proves what a
    decoder reads back from the image an encoder built. *)

From stdpp Require Import list.
#[local] Open Scope Z_scope.
From S2P Require Import Prelude.

Definition bytes_at (off n : nat) (d : list Z) : list Z := take n (drop off d).
Definition num_at (off n : nat) (d : list Z) : Z := of_le (bytes_at off n d).

Lemma at_skip {off n} (a b : list Z) : (length a <= off)%nat -> bytes_at off n (a ++ b) = bytes_at (off - length a) n b.
Proof. intros Hl. unfold bytes_at. by rewrite drop_app_ge by lia. Qed.
Lemma at_hit {n} (a b : list Z) : length a = n -> bytes_at 0 n (a ++ b) = a.
Proof. intros <-. apply take_app_length. Qed.
Lemma at_all {n} (a : list Z) : length a = n -> bytes_at 0 n a = a.
Proof. intros <-. apply take_ge. cbn. lia. Qed.

Lemma byte_at (i : nat) (d : list Z) : (i < length d)%nat -> bytes_at i 1 d = [getz d (Z.of_nat i) 0].
Proof.
  intros Hi. unfold bytes_at, getz. rewrite Nat2Z.id. destruct (_ <? 0) eqn:E; [lia|].
  destruct (drop i d) as [|x l] eqn:Ed; [apply (f_equal length) in Ed; rewrite length_drop in Ed; cbn in Ed; lia|].
  cbn [take]. rewrite <- (take_drop i d) at 1. rewrite Ed, app_nth2; rewrite length_take; [|lia].
  by rewrite Nat.min_l, Nat.sub_diag by lia.
Qed.

Lemma of_le_le_small n x : 0 <= x < 2 ^ (8 * Z.of_nat n) -> of_le (le n x) = x.
Proof. intros Hx. rewrite of_le_le. by apply Z.mod_small. Qed.

(** Steps over the fields of an image up to the one asked for. The lengths of
    the fields that are not integers are in the context. *)
Ltac fields :=
  unfold num_at;
  repeat (rewrite at_skip by (rewrite ?le_length; cbn [length]; lia); rewrite ?le_length; cbn [length];
          repeat match goal with H : length _ = ?k |- _ => rewrite H end; cbn [Nat.sub]);
  first [ rewrite at_hit by (rewrite ?le_length; done) | rewrite at_all by (rewrite ?le_length; done) ];
  first [ done | apply of_le_le_small; cbn; lia | lia ].

Lemma num_at_range off n d : Forall is_u8 d -> (off + n <= length d)%nat -> 0 <= num_at off n d < 2 ^ (8 * Z.of_nat n).
Proof.
  intros Hd Hl. unfold num_at, bytes_at. set (f := take n (drop off d)).
  replace (Z.of_nat n) with (lenz f) by (unfold lenz, f; rewrite length_take, length_drop; lia).
  apply of_le_range. by apply Forall_take, Forall_drop.
Qed.

(** A write leaves the fields beside it, and its own fields are its bytes'. *)
Lemma at_blit_other (o off n : nat) (l d : list Z) : (o + length d <= length l)%nat -> (off + n <= o \/ o + length d <= off)%nat ->
  bytes_at off n (blit l (Z.of_nat o) d) = bytes_at off n l.
Proof.
  intros Hl Hd. unfold bytes_at, blit. rewrite Nat2Z.id. destruct Hd as [Hd|Hd].
  - rewrite drop_app_le by (rewrite length_take; lia). rewrite take_app_le by (rewrite length_drop, length_take; lia).
    rewrite !take_drop_commute, take_take. by rewrite Nat.min_l by lia.
  - rewrite !drop_app_ge by (rewrite ?length_take; lia). rewrite drop_drop. f_equal. f_equal. rewrite length_take. lia.
Qed.

Lemma at_blit_in (o off n : nat) (l d : list Z) : (o + length d <= length l)%nat -> (o <= off)%nat -> (off + n <= o + length d)%nat ->
  bytes_at off n (blit l (Z.of_nat o) d) = bytes_at (off - o) n d.
Proof.
  intros Hl Ho Hn. unfold bytes_at, blit. rewrite Nat2Z.id. rewrite drop_app_ge by (rewrite length_take; lia).
  rewrite length_take, Nat.min_l by lia. rewrite drop_app_le by lia. by rewrite take_app_le by (rewrite length_drop; lia).
Qed.

Lemma getz_at (i : nat) (d : list Z) : getz d (Z.of_nat i) 0 = hd 0 (bytes_at i 1 d).
Proof.
  destruct (decide (i < length d)%nat) as [Hi|Hi]; [by rewrite byte_at|].
  unfold bytes_at, getz. rewrite drop_ge by lia. rewrite nth_overflow by (rewrite Nat2Z.id; lia). by destruct (_ <? 0).
Qed.

(** A part of a field. *)
Lemma at_at (off n i m : nat) (d : list Z) : (i + m <= n)%nat -> bytes_at i m (bytes_at off n d) = bytes_at (off + i) m d.
Proof. intros Hi. unfold bytes_at. rewrite !take_drop_commute, drop_drop, take_take, Nat.min_l by lia. do 2 f_equal. lia. Qed.
