(* ===== verification/PfsRepl.v ===== *)
(** * Replication of blocks in a region: src/arch/common/pfs_repl.c

    A new block is announced; a peer that lacks it asks for it; a holder sends
    its bytes in chunks of 512; the receiver assembles them in one slot, checks
    the hash and stores the block. Wanted blocks are asked for again every
    600 ms, ten times at most. The packets of the control topics are records of
    their fields; a poll that returned too few bytes is [None]. The chunks and
    the acknowledgements are bytes. Messages and the counters nothing but a
    message reads are left out. The theorems are in PfsReplFacts.v. *)

From stdpp Require Import list.
#[local] Open Scope Z_scope.
From S2P Require Import Prelude.
From S2P Require Import Sha256.
From S2P Require Import Node.
From S2P Require Import Durable.
From S2P Require Import PfsBlock.
From S2P Require Import Step.
From S2P Require Import Wire.

Definition PFSR_VERSION : Z := 1.
Definition PFSR_CHUNK_SIZE : Z := 512.
Definition PFSR_ANN_MAGIC : Z := 0x4E414650.
Definition PFSR_WANT_MAGIC : Z := 0x54574650.
Definition PFSR_SYNC_MAGIC : Z := 0x59534650.
Definition PFSR_BLK_MAGIC : Z := 0x4B424650.
Definition PFSR_BLK_CHUNK : Z := 1.
Definition PFSR_HOLD_MAGIC : Z := 0x444C4650.
Definition PFSR_PENDING_MAX : Z := 8.
Definition PFSR_WANT_RETRY_MS : Z := 600.
Definition PFSR_WANT_TRIES : Z := 10.
Definition PFSR_POLL_MS : Z := 50.

(** ** Packets *)

Record PFSR_ANN_PKT : Type := Ann { a_magic : Z; a_seq : Z; a_src : Z; a_origin : Z; a_len : Z; a_id : list Z }.
Record PFSR_WANT_PKT : Type := Want { w_magic : Z; w_seq : Z; w_src : Z; w_id : list Z }.
Record PFSR_SYNC_PKT : Type := Sync { y_magic : Z; y_seq : Z; y_src : Z }.
Record PFSR_BLK_PKT : Type := Blk {
  b_magic : Z; b_version : Z; b_type : Z; b_src : Z; b_origin : Z; b_id : list Z;
  b_total : Z; b_idx : Z; b_clen : Z; b_data : list Z }.
Record PFSR_HOLD_PKT : Type := Hold { h_magic : Z; h_src : Z; h_origin : Z; h_id : list Z }.

Definition BLK_SIZE : Z := 564.
Definition HOLD_SIZE : Z := 40.

Definition enc_blk (p : PFSR_BLK_PKT) : list Z :=
  le 4 (b_magic p) ++ [b_version p; b_type p; b_src p; b_origin p] ++ b_id p ++
  le 4 (b_total p) ++ le 4 (b_idx p) ++ le 2 (b_clen p) ++ [0; 0] ++ b_data p.
Definition dec_blk (d : list Z) : PFSR_BLK_PKT :=
  Blk (num_at 0 4 d) (getz d 4 0) (getz d 5 0) (getz d 6 0) (getz d 7 0) (bytes_at 8 32 d)
      (num_at 40 4 d) (num_at 44 4 d) (num_at 48 2 d) (bytes_at 52 512 d).

Definition enc_hold (p : PFSR_HOLD_PKT) : list Z := le 4 (h_magic p) ++ [h_src p; h_origin p; 0; 0] ++ h_id p.
Definition dec_hold (d : list Z) : PFSR_HOLD_PKT := Hold (num_at 0 4 d) (getz d 4 0) (getz d 5 0) (bytes_at 8 32 d).

(** ** State *)

Record PFSR_PENDING : Type := Pending { p_id : list Z; age_ms : Z; tries : Z; active : bool }.

Record RX : Type := Rx {
  rx_id : list Z; rx_total : Z; rx_received : Z; rx_next : Z; rx_origin : Z; rx_active : bool; rx_buf : list Z }.
Definition rx0 : RX := Rx (replicate 32 0) 0 0 0 0 false (replicate 4096 0).

Record repl (D : Type) : Type := Repl {
  blocks : store D; pending : list PFSR_PENDING; rx_state : RX;
  ann_seq : Z; want_seq : Z; sync_seq : Z;
  last_ann_seq : list Z; last_want_seq : list Z; last_sync_seq : list Z;
  announce_suppress : bool }.
Arguments Repl {D}. Arguments blocks {D}. Arguments pending {D}. Arguments rx_state {D}. Arguments ann_seq {D}.
Arguments want_seq {D}. Arguments sync_seq {D}. Arguments last_ann_seq {D}. Arguments last_want_seq {D}.
Arguments last_sync_seq {D}. Arguments announce_suppress {D}.

(** What the module knows of its surroundings: its node id, whether the topics
    are open to publish, whether an announce hook is installed, the filter. *)
Record conf : Type := Conf {
  my : Z; ann_open : bool; want_open : bool; sync_open : bool; announce_hook : bool;
  sync_filter : option (list Z -> bool) }.

Inductive effect : Type :=
  | PubAnn (a : PFSR_ANN_PKT) | PubWant (w : PFSR_WANT_PKT) | PubSync (y : PFSR_SYNC_PKT)
  | Heard (src : Z) (id : list Z)
  | Send (dst : Z) (bytes : list Z).

Definition no_pending : PFSR_PENDING := Pending (replicate 32 0) 0 0 false.

(** The state after [pfs_repl_init]. *)
Definition pfs_repl_init {D} (s : store D) : repl D :=
  Repl (Store (pfs_table s) (pfs_n s) (pfs_full_n s) (evict_clk s) (pfs_loading s) true (disk s))
    (replicate 8 no_pending) rx0 0 0 0 (replicate 64 0) (replicate 64 0) (replicate 64 0) false.

Section repl.
Context {D : Type} `{Durable D} (c : conf).
#[local] Abbreviation op A := (io (repl D) effect A).

Definition with_blocks (b : store D) (s : repl D) : repl D :=
  Repl b (pending s) (rx_state s) (ann_seq s) (want_seq s) (sync_seq s) (last_ann_seq s) (last_want_seq s) (last_sync_seq s) (announce_suppress s).
Definition with_pending (p : list PFSR_PENDING) (s : repl D) : repl D :=
  Repl (blocks s) p (rx_state s) (ann_seq s) (want_seq s) (sync_seq s) (last_ann_seq s) (last_want_seq s) (last_sync_seq s) (announce_suppress s).
Definition with_rx (r : RX) (s : repl D) : repl D :=
  Repl (blocks s) (pending s) r (ann_seq s) (want_seq s) (sync_seq s) (last_ann_seq s) (last_want_seq s) (last_sync_seq s) (announce_suppress s).
Definition with_seqs (a w y : Z) (s : repl D) : repl D :=
  Repl (blocks s) (pending s) (rx_state s) a w y (last_ann_seq s) (last_want_seq s) (last_sync_seq s) (announce_suppress s).
Definition with_last (a w y : list Z) (s : repl D) : repl D :=
  Repl (blocks s) (pending s) (rx_state s) (ann_seq s) (want_seq s) (sync_seq s) a w y (announce_suppress s).
Definition with_suppress (b : bool) (s : repl D) : repl D :=
  Repl (blocks s) (pending s) (rx_state s) (ann_seq s) (want_seq s) (sync_seq s) (last_ann_seq s) (last_want_seq s) (last_sync_seq s) b.

Definition pfs_repl_set_announce_suppress (on : bool) : op unit := modify (with_suppress on).

(** ** Publishing *)

Definition publish_announce (id : list Z) (len origin : Z) : op unit :=
  if (my c =? 0xFF) || negb (ann_open c) then ret tt
  else
    modify (fun s => with_seqs (u32 (ann_seq s + 1)) (want_seq s) (sync_seq s) s) ;;
    n ← gets ann_seq;
    call (PubAnn (Ann PFSR_ANN_MAGIC n (pk_node_v1 (my c)) (pk_node_v1 origin) len id)).

Definition publish_want (id : list Z) : op unit :=
  if (my c =? 0xFF) || negb (want_open c) then ret tt
  else
    modify (fun s => with_seqs (ann_seq s) (u32 (want_seq s + 1)) (sync_seq s) s) ;;
    n ← gets want_seq;
    call (PubWant (Want PFSR_WANT_MAGIC n (pk_node_v1 (my c)) id)).

Definition publish_sync : op unit :=
  if (my c =? 0xFF) || negb (sync_open c) then ret tt
  else
    modify (fun s => with_seqs (ann_seq s) (want_seq s) (u32 (sync_seq s + 1)) s) ;;
    n ← gets sync_seq;
    call (PubSync (Sync PFSR_SYNC_MAGIC n (pk_node_v1 (my c)))).

Definition on_new_block (id : list Z) (len origin : Z) : op unit :=
  if my c =? 0xFF then ret tt
  else
    quiet ← gets announce_suppress;
    if quiet then ret tt
    else publish_announce id len (if origin =? PFS_ORIGIN_SELF then my c else origin).

(** A put into the block table, with the hook it calls. *)
Definition put_block (buf : option (list Z)) (len org : Z) : op (Z * option (list Z)) :=
  s ← get;
  let r := pfs_put_origin buf len org (blocks s) in
  modify (with_blocks (snd r)) ;;
  iter (snd (fst r)) (fun a => on_new_block (fst (fst a)) (snd (fst a)) (snd a)) ;;
  ret (fst (fst r)).

Definition has_block (id : list Z) : op bool := gets (fun s => pfs_has id (blocks s)).

Definition send_hold_ack (origin_node : Z) (id : list Z) : op unit :=
  if (my c =? 0xFF) || (DNODE_MAX <=? origin_node) || (origin_node =? my c) then ret tt
  else call (Send origin_node (enc_hold (Hold PFSR_HOLD_MAGIC (pk_node_v1 (my c)) (pk_node_v1 origin_node) id))).

(** What the table says of a block: the first slot that holds it. *)
Definition slot_of (id : list Z) (s : store D) : option (Z * Z) :=
  head (omap (fun i => match pfs_slot_info i s with
                       | Some (sid, slen, sorg) => if bool_decide (sid = id) then Some (slen, sorg) else None
                       | None => None end) (seqZ 0 PFS_MAX_BLOCKS)).

Definition pfs_repl_reannounce (id : list Z) : op unit :=
  if my c =? 0xFF then ret tt
  else
    held ← has_block id;
    if negb held then ret tt
    else
      info ← gets (fun s => slot_of id (blocks s));
      match info with
      | Some (slen, sorg) => publish_announce id slen (if sorg =? PFS_ORIGIN_SELF then my c else sorg)
      | None => ret tt
      end.

(** ** Sending a block in chunks *)

(** The packets of a block: the buffer [data] of the packet is reused, so the
    end of the last one repeats bytes of the one before. [fuel] counts chunks;
    a block has 8 at most. *)
Fixpoint chunks (fuel : nat) (p : PFSR_BLK_PKT) (bytes : list Z) (off idx : Z) (data : list Z) : list PFSR_BLK_PKT :=
  match fuel with
  | O => []
  | S k =>
      let n := Z.min (lenz bytes - off) PFSR_CHUNK_SIZE in
      let data := blit data 0 (take (Z.to_nat n) (drop (Z.to_nat off) bytes)) in
      let q := Blk (b_magic p) (b_version p) (b_type p) (b_src p) (b_origin p) (b_id p) (b_total p) idx n data in
      q :: if off + n <? lenz bytes then chunks k p bytes (off + n) (idx + 1) data else []
  end.

Definition send_block_to (dst_node : Z) (id : list Z) : op unit :=
  s ← get;
  let g := pfs_get id PFS_BLOCK_MAX (blocks s) in
  if (fst g <? 0) || (PFS_BLOCK_MAX <? fst g) then ret tt
  else
    let origin := match slot_of id (blocks s) with Some (_, o) => o | None => PFS_ORIGIN_SELF end in
    let p := Blk PFSR_BLK_MAGIC PFSR_VERSION PFSR_BLK_CHUNK (pk_node_v1 (my c)) (pk_node_v1 origin) id (fst g) 0 0 [] in
    iter (chunks 9 p (snd g) 0 0 (replicate 512 0)) (fun q => call (Send dst_node (enc_blk q))).

Definition pfs_repl_push (id : list Z) (dst_node : Z) : op unit :=
  if (my c =? 0xFF) || (DNODE_MAX <=? dst_node) || (dst_node =? my c) then ret tt
  else
    held ← has_block id;
    if negb held then ret tt else send_block_to dst_node id.

(** ** Wanted blocks *)

Definition entry (i : Z) (s : repl D) : PFSR_PENDING := getz (pending s) i no_pending.
Definition set_entry (i : Z) (p : PFSR_PENDING) : op unit := modify (fun s => with_pending (setz (pending s) i p) s).

Definition pending_add (id : list Z) : op unit :=
  s ← get;
  if 0 <=? first_ix (fun p => active p && bool_decide (p_id p = id)) (pending s) 0 then ret tt
  else
    let i := first_ix (fun p => negb (active p)) (pending s) 0 in
    if i <? 0 then ret tt
    else set_entry i (Pending id 0 1 true) ;; publish_want id.

(** One entry of the table, one turn. *)
Definition tick_entry (elapsed_ms i : Z) : op unit :=
  s ← get;
  let p := entry i s in
  if negb (active p) then ret tt
  else if pfs_has (p_id p) (blocks s) then set_entry i (Pending (p_id p) (age_ms p) (tries p) false)
  else
    let age := u32 (age_ms p + elapsed_ms) in
    if age <? PFSR_WANT_RETRY_MS then set_entry i (Pending (p_id p) age (tries p) true)
    else if PFSR_WANT_TRIES <=? tries p then set_entry i (Pending (p_id p) 0 (tries p) false)
    else set_entry i (Pending (p_id p) 0 (u8 (tries p + 1)) true) ;; publish_want (p_id p).

Definition pending_tick (elapsed_ms : Z) : op unit := iter (seqZ 0 PFSR_PENDING_MAX) (tick_entry elapsed_ms).

(** ** Receiving chunks *)

(** A chunk that passed the checks of the packet. *)
Definition rx_chunk (p : PFSR_BLK_PKT) : op unit :=
  r ← gets rx_state;
  if negb (rx_active r) then ret tt
  else if negb (bool_decide (rx_id r = b_id p)) then ret tt
  else if negb (b_idx p =? rx_next r) then ret tt
  else if rx_total r <? u32 (rx_received r + b_clen p) then ret tt
  else
    let buf := blit (rx_buf r) (rx_received r) (take (Z.to_nat (b_clen p)) (b_data p)) in
    let r := Rx (rx_id r) (rx_total r) (u32 (rx_received r + b_clen p)) (u32 (rx_next r + 1)) (rx_origin r) true buf in
    modify (with_rx r) ;;
    if rx_received r <? rx_total r then ret tt
    else
      modify (with_rx (Rx (rx_id r) (rx_total r) (rx_received r) (rx_next r) (rx_origin r) false buf)) ;;
      if negb (bool_decide (pfs_id_compute (take (Z.to_nat (rx_total r)) buf) = rx_id r)) then ret tt
      else
        rc ← put_block (Some buf) (rx_total r) (rx_origin r);
        if negb (fst rc =? PFS_OK) then ret tt else send_hold_ack (rx_origin r) (rx_id r).

Definition rx_start (p : PFSR_BLK_PKT) : op unit :=
  modify (with_rx (Rx (b_id p) (b_total p) 0 0 (b_origin p) true (replicate 4096 0))).

Definition pfs_repl_rx (data : list Z) : op unit :=
  let hp := dec_hold data in
  if (HOLD_SIZE <=? lenz data) && (h_magic hp =? PFSR_HOLD_MAGIC) then
    when ((h_src hp <? DNODE_MAX) && negb (h_src hp =? my c) && announce_hook c) (call (Heard (h_src hp) (h_id hp)))
  else if lenz data <? BLK_SIZE then ret tt
  else
    let p := dec_blk data in
    if negb (b_magic p =? PFSR_BLK_MAGIC) || negb (b_version p =? PFSR_VERSION) || negb (b_type p =? PFSR_BLK_CHUNK)
       || (b_src p =? my c) || (PFS_BLOCK_MAX <? b_total p) || (PFSR_CHUNK_SIZE <? b_clen p) then ret tt
    else if b_idx p =? 0 then
      held ← has_block (b_id p);
      if held then ret tt else rx_start p ;; rx_chunk p
    else rx_chunk p.

(** ** The task *)

Definition pfs_repl_want (id : list Z) : op unit :=
  if my c =? 0xFF then ret tt
  else held ← has_block id; if held then ret tt else pending_add id.

Definition pfs_repl_put (buf : option (list Z)) (len : Z) : op (Z * option (list Z)) :=
  put_block buf len (if my c =? 0xFF then PFS_ORIGIN_SELF else my c).

(** A packet from a peer that was not acted on before. *)
Definition fresh (magic want_magic src seq : Z) (last : list Z) : bool :=
  (magic =? want_magic) && (src <? DNODE_MAX) && negb (src =? my c) && negb (seq =? getz last src 0).

Definition on_announce (a : PFSR_ANN_PKT) : op unit :=
  s ← get;
  when (fresh (a_magic a) PFSR_ANN_MAGIC (a_src a) (a_seq a) (last_ann_seq s))
    (modify (fun s => with_last (setz (last_ann_seq s) (a_src a) (a_seq a)) (last_want_seq s) (last_sync_seq s) s) ;;
     when (announce_hook c) (call (Heard (a_src a) (a_id a))) ;;
     held ← has_block (a_id a);
     if (a_len a <=? PFS_BLOCK_MAX) && negb held then pending_add (a_id a)
     else when (held && (a_src a =? a_origin a)) (send_hold_ack (a_origin a) (a_id a))).

Definition on_want (w : PFSR_WANT_PKT) : op unit :=
  s ← get;
  when (fresh (w_magic w) PFSR_WANT_MAGIC (w_src w) (w_seq w) (last_want_seq s))
    (modify (fun s => with_last (last_ann_seq s) (setz (last_want_seq s) (w_src w) (w_seq w)) (last_sync_seq s) s) ;;
     held ← has_block (w_id w);
     when held (send_block_to (w_src w) (w_id w))).

Definition on_sync (y : PFSR_SYNC_PKT) : op unit :=
  s ← get;
  when (fresh (y_magic y) PFSR_SYNC_MAGIC (y_src y) (y_seq y) (last_sync_seq s))
    (modify (fun s => with_last (last_ann_seq s) (last_want_seq s) (setz (last_sync_seq s) (y_src y) (y_seq y)) s) ;;
     iter (seqZ 0 PFS_MAX_BLOCKS) (fun i =>
       info ← gets (fun s => pfs_slot_info i (blocks s));
       match info with
       | None => ret tt
       | Some (sid, _, _) =>
           if match sync_filter c with Some f => f sid | None => false end then ret tt
           else send_block_to (y_src y) sid
       end)).

(** One turn of the task, with what the three polls returned. *)
Definition repl_turn (a : option PFSR_ANN_PKT) (w : option PFSR_WANT_PKT) (y : option PFSR_SYNC_PKT) : op unit :=
  match a with Some a => on_announce a | None => ret tt end ;;
  match w with Some w => on_want w | None => ret tt end ;;
  match y with Some y => on_sync y | None => ret tt end ;;
  pending_tick PFSR_POLL_MS.
End repl.
