(* ===== verification/PfsReplFacts.v ===== *)
(** * Replication: transfers, bounds, retries

    What a chunked transfer delivers, that no packet writes outside the assembly
    buffer or harms the block table, and that a wanted block is asked for a
    bounded number of times. The definitions are in PfsRepl.v. *)

From stdpp Require Import list.
#[local] Open Scope Z_scope.
From S2P Require Import Prelude.
From S2P Require Import Sha256.
From S2P Require Import Node.
From S2P Require Import Durable.
From S2P Require Import FlatDisk.
From S2P Require Import PfsBlock.
From S2P Require Import PfsFacts.
From S2P Require Import Step.
From S2P Require Import Wire.
From S2P Require Import PfsRepl.

(** ** The image of a chunk *)

Record blk_fits (p : PFSR_BLK_PKT) : Prop := {
  f_magic : is_u32 (b_magic p); f_id : length (b_id p) = 32%nat; f_total : is_u32 (b_total p); f_idx : is_u32 (b_idx p);
  f_clen : 0 <= b_clen p < 2 ^ 16; f_data : length (b_data p) = 512%nat }.

Lemma dec_enc_blk p : blk_fits p -> dec_blk (enc_blk p) = p /\ lenz (enc_blk p) = BLK_SIZE.
Proof.
  intros [H1 H2 H3 H4 H5 H6]. destruct p as [m v t s o id tot ix cl dat]; cbn [b_magic b_version b_type b_src b_origin b_id b_total b_idx b_clen b_data] in *.
  unfold is_u32 in *. split.
  - unfold dec_blk. set (x := enc_blk _). unfold enc_blk in x.
    cbn [b_magic b_version b_type b_src b_origin b_id b_total b_idx b_clen b_data] in x.
    assert (num_at 0 4 x = m) as -> by (unfold x; fields).
    assert (bytes_at 8 32 x = id) as -> by (unfold x; fields).
    assert (num_at 40 4 x = tot) as -> by (unfold x; fields).
    assert (num_at 44 4 x = ix) as -> by (unfold x; fields).
    assert (num_at 48 2 x = cl) as -> by (unfold x; fields).
    assert (bytes_at 52 512 x = dat) as -> by (unfold x; fields).
    reflexivity.
  - unfold enc_blk, lenz, BLK_SIZE. cbn [b_magic b_version b_type b_src b_origin b_id b_total b_idx b_clen b_data].
    rewrite !length_app, !le_length, H2, H6. done.
Qed.

Section facts.
Context {D : Type} `{Dur : Durable D} (c : conf).
Implicit Types s : repl D.

(** ** The assembly buffer *)

Definition rx_ok (r : RX) : Prop := length (rx_buf r) = 4096%nat /\ 0 <= rx_received r <= rx_total r /\ rx_total r <= PFS_BLOCK_MAX.

(** What a hook or an acknowledgement leaves alone. *)
Definition quiet s s' : Prop := blocks s' = blocks s /\ rx_state s' = rx_state s /\ pending s' = pending s.
#[local] Instance quiet_pre : PreOrder quiet.
Proof. split; [done|]. intros x y z (A1 & A2 & A3) (B1 & B2 & B3). unfold quiet. by rewrite B1, B2, B3. Qed.

Lemma publish_announce_quiet id len org : relates quiet (publish_announce (D := D) c id len org).
Proof. intros s. unfold publish_announce. by destruct (_ || _). Qed.
Lemma publish_want_quiet id : relates quiet (publish_want (D := D) c id).
Proof. intros s. unfold publish_want. by destruct (_ || _). Qed.
Lemma on_new_block_quiet id len org : relates quiet (on_new_block (D := D) c id len org).
Proof.
  unfold on_new_block. destruct (_ =? _); [by intros s|]. apply relates_bind; [apply _|by intros s|].
  intros []; [by intros s|apply publish_announce_quiet].
Qed.
Lemma hold_ack_quiet o id : relates quiet (send_hold_ack (D := D) c o id).
Proof. intros s. unfold send_hold_ack. by destruct (_ || _). Qed.

Lemma put_block_spec buf len org s :
  let r := pfs_put_origin buf len org (blocks s) in
  val (put_block c buf len org s) = fst (fst r) /\ blocks (exec (put_block c buf len org) s) = snd r /\
  rx_state (exec (put_block c buf len org) s) = rx_state s /\ pending (exec (put_block c buf len org) s) = pending s.
Proof.
  intros r. set (hooks := iter (E := effect) (S := repl D) (snd (fst r)) (fun a => on_new_block c (fst (fst a)) (snd (fst a)) (snd a))).
  change (exec (put_block c buf len org) s) with (exec hooks (with_blocks (snd r) s)).
  split; [done|]. assert (relates quiet hooks) as Hq.
  { apply relates_iter; [apply _|]. intros [[i l] o]. apply on_new_block_quiet. }
  destruct (Hq (with_blocks (snd r) s)) as (-> & -> & ->). done.
Qed.

(** ** No packet does harm *)

Lemma chunk_cases p s :
  (exec (rx_chunk c p) s = s) \/
  let r := rx_state s in
  let buf := blit (rx_buf r) (rx_received r) (take (Z.to_nat (b_clen p)) (b_data p)) in
  rx_active r = true /\ rx_id r = b_id p /\ b_idx p = rx_next r /\ u32 (rx_received r + b_clen p) <= rx_total r /\
  exists act next, rx_state (exec (rx_chunk c p) s) = Rx (rx_id r) (rx_total r) (u32 (rx_received r + b_clen p)) next (rx_origin r) act buf /\
    (blocks (exec (rx_chunk c p) s) = blocks s \/
     blocks (exec (rx_chunk c p) s) = snd (pfs_put_origin (Some buf) (rx_total r) (rx_origin r) (blocks s))).
Proof.
  set (r := rx_state s). unfold rx_chunk. rewrite exec_bind. change (val (gets rx_state s)) with r.
  change (exec (gets rx_state) s) with s.
  destruct (rx_active r) eqn:Ea; [cbn [negb]|by left]. case_bool_decide as Ei; [cbn [negb]|by left].
  destruct (b_idx p =? rx_next r) eqn:En; [cbn [negb]|by left].
  destruct (rx_total r <? u32 (rx_received r + b_clen p)) eqn:Et; [by left|right]. bools.
  split_and!; try done; try lia. cbv zeta. rewrite exec_bind. cbn [rx_received rx_total].
  set (buf := blit _ _ _). set (s1 := exec (modify _) s).
  destruct (u32 (rx_received r + b_clen p) <? rx_total r) eqn:El.
  - exists true, (u32 (rx_next r + 1)). split; [done|by left].
  - rewrite exec_bind. set (s2 := exec (modify _) s1). cbn [rx_id rx_origin].
    exists false, (u32 (rx_next r + 1)). case_bool_decide as Eh; cbn [negb]; [|split; [done|by left]].
    rewrite exec_bind. destruct (put_block_spec (Some buf) (rx_total r) (rx_origin r) s2) as (Pv & Pb & Pr & _).
    set (s3 := exec (put_block _ _ _ _) s2) in *. set (rc := val _).
    assert (quiet s3 (exec (if negb (fst rc =? PFS_OK) then ret () else send_hold_ack c (rx_origin r) (rx_id r)) s3)) as (Q1 & Q2 & _).
    { destruct (negb _); [done|apply hold_ack_quiet]. }
    rewrite Q1, Q2, Pr, Pb. split; [done|by right].
Qed.

(** Every chunk that gets this far is at most 512 bytes of a block of at most
    4096: what its packet says was checked. *)
Lemma rx_cases d s : (exec (pfs_repl_rx c d) s = s) \/
  exists p s1, p = dec_blk d /\ exec (pfs_repl_rx c d) s = exec (rx_chunk c p) s1 /\ blocks s1 = blocks s /\
    BLK_SIZE <= lenz d /\ b_total p <= PFS_BLOCK_MAX /\ b_clen p <= PFSR_CHUNK_SIZE /\
    ((b_idx p <> 0 /\ s1 = s) \/
     (b_idx p = 0 /\ pfs_has (b_id p) (blocks s) = false /\ s1 = exec (rx_start p) s)).
Proof.
  unfold pfs_repl_rx. destruct (_ && _).
  { left. unfold when. by destruct (_ && _). }
  destruct (lenz d <? BLK_SIZE) eqn:E1; [by left|]. set (p := dec_blk d).
  destruct (negb (b_magic p =? PFSR_BLK_MAGIC) || _ || _ || _ || _ || _) eqn:E2; [by left|]. bools.
  destruct (b_idx p =? 0) eqn:E3.
  - rewrite exec_bind. destruct (val (has_block (b_id p) s)) eqn:Eh; [by left|]. right.
    exists p, (exec (rx_start p) s). split_and!; try done; try lia. right. split_and!; [lia|done|done].
  - right. exists p, s. split_and!; try done; try lia. left. split; [lia|done].
Qed.

Lemma pkt_ranges d : Forall is_u8 d -> BLK_SIZE <= lenz d ->
  0 <= b_total (dec_blk d) /\ 0 <= b_clen (dec_blk d) /\ 0 <= b_idx (dec_blk d) < 2 ^ 32 /\ length (b_data (dec_blk d)) = 512%nat.
Proof.
  unfold BLK_SIZE, lenz. intros Hd Hl. cbn [dec_blk b_total b_clen b_idx b_data]. split_and!.
  - apply (num_at_range 40 4 d Hd). lia.
  - apply (num_at_range 48 2 d Hd). lia.
  - apply (num_at_range 44 4 d Hd). lia.
  - apply (num_at_range 44 4 d Hd). lia.
  - unfold bytes_at. rewrite length_take, length_drop. lia.
Qed.

Lemma rx_start_ok d s : 0 <= b_total (dec_blk d) -> b_total (dec_blk d) <= PFS_BLOCK_MAX ->
  rx_ok (rx_state (exec (rx_start (D := D) (dec_blk d)) s)).
Proof.
  intros. unfold rx_ok. set (r := rx_state _).
  change (rx_buf r) with (replicate 4096 0). change (rx_received r) with 0. change (rx_total r) with (b_total (dec_blk d)).
  split; [apply length_replicate|lia].
Qed.

Lemma chunk_ok p s : rx_ok (rx_state s) -> 0 <= b_clen p <= PFSR_CHUNK_SIZE -> length (b_data p) = 512%nat ->
  rx_ok (rx_state (exec (rx_chunk c p) s)).
Proof.
  intros (Hl & Hr & Ht) Hc Hd. destruct (chunk_cases p s) as [->|H]; [done|]. cbv zeta in H.
  destruct H as (_ & _ & _ & Hle & act & nx & -> & _). unfold rx_ok, PFSR_CHUNK_SIZE, PFS_BLOCK_MAX in *.
  cbn [rx_buf rx_received rx_total]. rewrite u32_small in * by (unfold is_u32; lia).
  rewrite blit_length; [lia|lia|]. unfold lenz. rewrite length_take, Hl, Hd. lia.
Qed.
End facts.

Section safe.
Context {D : Type} `{Dur : Durable D} `{Ok : !DurableOk D} (c : conf).
Implicit Types s : repl D.

#[export] Instance keeps_trans : Transitive (keeps (D := D)).
Proof. intros x y z (A1 & A2 & A3 & A4 & A5 & A6) (B1 & B2 & B3 & B4 & B5 & B6). split_and!; [done|auto|congruence..]. Qed.

Lemma put_live_keeps buf len org (s : store D) : good s -> pfs_loading s = false -> keeps s (snd (pfs_put_origin buf len org s)).
Proof. intros Hg Hl. apply (proj1 (put_keeps buf len org s Hg ltac:(by rewrite Hl))). Qed.

Lemma rx_keeps d s : Forall is_u8 d -> rx_ok (rx_state s) -> good (blocks s) -> pfs_loading (blocks s) = false ->
  rx_ok (rx_state (exec (pfs_repl_rx c d) s)) /\ keeps (blocks s) (blocks (exec (pfs_repl_rx c d) s)).
Proof.
  intros Hd Hok Hg Hl. destruct (rx_cases c d s) as [->|(p & s1 & Hp & -> & Hb & Hs & Ht & Hc & Hi)]; [by split; [|apply keeps_refl]|].
  destruct (pkt_ranges d Hd Hs) as (P1 & P2 & P3 & P4). rewrite <- Hp in *.
  assert (rx_ok (rx_state s1)) as Hok1.
  { destruct Hi as [[_ ->]|(_ & _ & ->)]; [done|]. rewrite Hp in *. by apply rx_start_ok. }
  split; [by apply chunk_ok|]. rewrite <- Hb in *.
  destruct (chunk_cases c p s1) as [->|H]; [by apply keeps_refl|]. cbv zeta in H.
  destruct H as (_ & _ & _ & _ & act & nx & _ & [->| ->]); [by apply keeps_refl|by apply put_live_keeps].
Qed.
End safe.

(** C28: whatever bytes arrive on the port, the receiver writes inside its
    buffer. After any sequence of packets the assembly buffer still has its 4096
    bytes (a write past its end would have made it longer), what was received is
    at most the announced length and that at most a block; the block table is
    still well formed, under the hashes of its blocks, and has lost nothing. *)
Theorem rx_bounds {D} `{DurableOk D} (c : conf) (pkts : list (list Z)) (s : repl D) (Hd : Forall (Forall is_u8) pkts)
    (Hok : rx_ok (rx_state s)) (Hg : good (blocks s)) (Hl : pfs_loading (blocks s) = false) :
  let s' := exec (iter pkts (pfs_repl_rx c)) s in
  rx_ok (rx_state s') /\ good (blocks s') /\ (forall id, avail (blocks s) id -> avail (blocks s') id).
Proof.
  cut (rx_ok (rx_state (exec (iter pkts (pfs_repl_rx c)) s)) /\ keeps (blocks s) (blocks (exec (iter pkts (pfs_repl_rx c)) s))).
  { intros (R1 & R2 & R3 & _). done. }
  assert (preserves (fun s' => rx_ok (rx_state s') /\ keeps (blocks s) (blocks s')) (iter pkts (pfs_repl_rx c))) as Hp.
  { apply preserves_iter. intros d Hin s1 (Hr & K). rewrite Forall_elem in Hd. pose proof K as (G1 & _ & L1 & _).
    destruct (rx_keeps c d s1 (Hd d Hin) Hr G1) as [R1 R2]; [congruence|]. split; [done|]. by transitivity (blocks s1). }
  apply Hp. split; [done|by apply keeps_refl].
Qed.

(** ** A transfer *)

(** The receiver in the middle of a block: [off] bytes of [b] are in the buffer. *)
Record midway {D} (b id : list Z) (org off idx : Z) (s : repl D) : Prop := {
  m_rx : exists buf, rx_state s = Rx id (lenz b) off idx org true buf /\ length buf = 4096%nat /\
    take (Z.to_nat off) buf = take (Z.to_nat off) b;
  m_off : 0 <= off <= lenz b; m_idx : 0 <= idx <= off }.

(** What the receiver does once the block is complete. *)
Definition deliver {D} `{Durable D} (c : conf) (b id : list Z) (org : Z) : io (repl D) effect unit :=
  rc ← put_block c (Some b) (lenz b) org;
  if negb (fst rc =? PFS_OK) then ret tt else send_hold_ack c org id.

Section transfer.
Context {D : Type} `{Dur : Durable D} (c : conf) (b id : list Z) (org : Z).
Implicit Types s : repl D.
Context (Hlen : lenz b <= PFS_BLOCK_MAX) (Hsha : sha256 b = id).

(** The packet of the chunk at [off]. *)
Definition is_chunk (off idx : Z) (q : PFSR_BLK_PKT) : Prop :=
  b_id q = id /\ b_idx q = idx /\ b_clen q = Z.min (lenz b - off) PFSR_CHUNK_SIZE /\
  take (Z.to_nat (b_clen q)) (b_data q) = take (Z.to_nat (b_clen q)) (drop (Z.to_nat off) b).

Lemma blit_start (data piece : list Z) : (length piece <= length data)%nat ->
  take (length piece) (blit data 0 piece) = piece /\ length (blit data 0 piece) = length data.
Proof.
  intros Hp. split.
  - exact (take_app_length piece (drop (0 + length piece) data)).
  - apply blit_length; unfold lenz; lia.
Qed.

Lemma chunks_cons k p off idx data : 0 <= off <= lenz b -> length data = 512%nat -> b_id p = id -> exists q data',
  chunks (S k) p b off idx data = q :: (if off + b_clen q <? lenz b then chunks k p b (off + b_clen q) (idx + 1) data' else []) /\
  is_chunk off idx q /\ length data' = 512%nat /\ b_data q = data' /\
  b_magic q = b_magic p /\ b_version q = b_version p /\ b_type q = b_type p /\ b_src q = b_src p /\ b_origin q = b_origin p /\ b_total q = b_total p.
Proof.
  intros Ho Hd Hp. cbn [chunks]. set (n := Z.min _ _). set (piece := take (Z.to_nat n) (drop (Z.to_nat off) b)).
  assert (length piece = Z.to_nat n) as Hn.
  { unfold piece. rewrite length_take, length_drop. unfold n, lenz, PFSR_CHUNK_SIZE in *. lia. }
  destruct (blit_start data piece) as [B1 B2]; [unfold n, PFSR_CHUNK_SIZE in *; lia|].
  exists (Blk (b_magic p) (b_version p) (b_type p) (b_src p) (b_origin p) (b_id p) (b_total p) idx n (blit data 0 piece)), (blit data 0 piece).
  split; [reflexivity|]. unfold is_chunk. cbn [b_id b_idx b_clen b_data b_magic b_version b_type b_src b_origin b_total].
  split_and!; try done; [|by rewrite B2]. fold piece. by rewrite <- Hn at 1.
Qed.

(** One chunk that is not the last, and the last one. *)
Lemma chunk_step off idx q s : midway b id org off idx s -> is_chunk off idx q -> off + b_clen q < lenz b ->
  exists s', midway b id org (off + b_clen q) (idx + 1) s' /\ blocks s' = blocks s /\ rx_chunk c q s = (tt, s', []).
Proof.
  intros [(buf & Hr & Hb & Ht) Ho Hi] (Q1 & Q2 & Q3 & Q4) Hlt. unfold PFSR_CHUNK_SIZE, PFS_BLOCK_MAX in *.
  assert (is_u32 (off + b_clen q)) as Hu by (unfold is_u32; lia).
  set (piece := take (Z.to_nat (b_clen q)) (b_data q)) in *.
  assert (lenz piece = b_clen q) as Hp.
  { rewrite Q4. unfold lenz in *. rewrite length_take, length_drop. lia. }
  exists (with_rx (Rx id (lenz b) (off + b_clen q) (idx + 1) org true (blit buf off piece)) s). split; [|split; [done|]].
  - split; [|lia|lia].
    exists (blit buf off piece). split; [done|]. split; [rewrite blit_length; unfold lenz in *; lia|].
    rewrite <- Hp, blit_prefix by (unfold lenz in *; lia). rewrite Ht, Hp, Q4, take_take_drop. f_equal. lia.
  - unfold rx_chunk. rewrite bind_eq. change (val (gets rx_state s)) with (rx_state s). rewrite Hr.
    cbn [rx_active negb rx_id]. rewrite Q1, bool_decide_eq_true_2 by done. cbn [negb rx_next]. rewrite Q2, Z.eqb_refl. cbn [negb rx_total rx_received].
    rewrite u32_small by done. rewrite (proj2 (Z.ltb_ge _ _)) by lia. rewrite bind_eq. cbn [rx_received rx_total].
    rewrite (proj2 (Z.ltb_lt _ _)) by done. unfold rx_origin, rx_buf. rewrite (u32_small (idx + 1)) by (unfold is_u32; lia). reflexivity.
Qed.

Lemma put_same_bytes (buf : list Z) s : take (Z.to_nat (lenz b)) buf = b ->
  put_block c (Some buf) (lenz b) org s = put_block c (Some b) (lenz b) org s.
Proof.
  intros E. unfold put_block, pfs_put_origin. rewrite (bool_decide_eq_false_2 (Some buf = None)), (bool_decide_eq_false_2 (Some b = None)) by done.
  change (default [] (Some buf)) with buf. change (default [] (Some b)) with b. rewrite E.
  by rewrite (take_ge b) by (unfold lenz; lia).
Qed.

Lemma chunk_last off idx q s : midway b id org off idx s -> is_chunk off idx q -> off + b_clen q = lenz b ->
  exists s', blocks s' = blocks s /\ rx_chunk c q s = deliver c b id org s'.
Proof.
  intros [(buf & Hr & Hb & Ht) Ho Hi] (Q1 & Q2 & Q3 & Q4) He. unfold PFSR_CHUNK_SIZE, PFS_BLOCK_MAX in *.
  assert (is_u32 (off + b_clen q)) as Hu by (unfold is_u32; lia).
  set (piece := take (Z.to_nat (b_clen q)) (b_data q)) in *.
  assert (lenz piece = b_clen q) as Hp.
  { rewrite Q4. unfold lenz in *. rewrite length_take, length_drop. lia. }
  assert (take (Z.to_nat (lenz b)) (blit buf off piece) = b) as Hfull.
  { rewrite <- He at 1. rewrite <- Hp, blit_prefix by (unfold lenz in *; lia). rewrite Ht, Q4, take_take_drop.
    apply take_ge. unfold lenz in *. lia. }
  exists (with_rx (Rx id (lenz b) (lenz b) (u32 (idx + 1)) org false (blit buf off piece)) s). split; [done|].
  unfold rx_chunk. rewrite bind_eq. change (val (gets rx_state s)) with (rx_state s). rewrite Hr.
  cbn [rx_active negb rx_id]. rewrite Q1, bool_decide_eq_true_2 by done. cbn [negb rx_next]. rewrite Q2, Z.eqb_refl. cbn [negb rx_total rx_received].
  rewrite u32_small by done. rewrite He, Z.ltb_irrefl. rewrite bind_eq. cbn [rx_received rx_total].
  rewrite bind_eq. cbn [rx_buf rx_id rx_origin rx_next rx_total]. fold piece. rewrite Hfull.
  unfold pfs_id_compute. rewrite Hsha, bool_decide_eq_true_2 by done. cbn [negb].
  unfold deliver. rewrite !bind_eq.
  set (s1 := with_rx _ s). set (s2 := exec _ (exec _ _)). assert (s2 = s1) as -> by reflexivity.
  unfold exec. rewrite (put_same_bytes _ s1 Hfull). by destruct (if negb _ then _ else _) as [[[] ?] ?].
Qed.

(** The chunks from [off] on, one after the other. *)
Lemma chunks_deliver k p off idx data s : midway b id org off idx s -> length data = 512%nat -> b_id p = id ->
  (k <> 0)%nat -> lenz b - off <= 512 * Z.of_nat k ->
  exists s', blocks s' = blocks s /\ iter (chunks k p b off idx data) (rx_chunk c) s = deliver c b id org s'.
Proof.
  revert off idx data s. induction k as [|k IH]; intros off idx data s Hm Hd Hp Hk Hf; [done|].
  destruct (chunks_cons k p off idx data (m_off _ _ _ _ _ _ Hm) Hd Hp) as (q & data' & -> & Hq & Hd' & _).
  pose proof Hq as (_ & _ & Hn & _). pose proof (m_off _ _ _ _ _ _ Hm). unfold PFSR_CHUNK_SIZE in *. cbn [iter]. rewrite bind_eq.
  destruct (off + b_clen q <? lenz b) eqn:E; bools.
  - destruct (chunk_step off idx q s Hm Hq E) as (s1 & H1 & H2 & H3). rewrite <- H2.
    destruct (IH (off + b_clen q) (idx + 1) data' s1 H1 Hd' Hp) as (s' & E' & Hi); [lia|lia|].
    exists s'. split; [done|]. unfold exec. rewrite H3. unfold end_state, val, calls. cbn [fst snd].
    rewrite Hi. by destruct (deliver c b id org s') as [[[] ?] ?].
  - destruct (chunk_last off idx q s Hm Hq ltac:(lia)) as (s' & E' & Hi). exists s'. split; [done|].
    unfold exec. rewrite Hi. destruct (deliver c b id org s') as [[[] ?] ?]. unfold end_state, val, calls. cbn [fst snd iter ret].
    by rewrite app_nil_r.
Qed.
End transfer.

(** The packet of a chunk as the receiver reads it. *)
Lemma rx_of_chunk {D} `{Durable D} (c : conf) q (s : repl D) : blk_fits q ->
  b_magic q = PFSR_BLK_MAGIC -> b_version q = PFSR_VERSION -> b_type q = PFSR_BLK_CHUNK -> b_src q <> my c ->
  b_total q <= PFS_BLOCK_MAX -> b_clen q <= PFSR_CHUNK_SIZE ->
  pfs_repl_rx c (enc_blk q) s =
    if b_idx q =? 0 then if pfs_has (b_id q) (blocks s) then (tt, s, []) else (rx_start q ;; rx_chunk c q) s
    else rx_chunk c q s.
Proof.
  intros Hf H1 H2 H3 H4 H5 H6. destruct (dec_enc_blk q Hf) as [Hdec Hlen].
  assert (h_magic (dec_hold (enc_blk q)) = PFSR_BLK_MAGIC) as Hm.
  { rewrite <- H1. transitivity (b_magic (dec_blk (enc_blk q))); [reflexivity|by rewrite Hdec]. }
  unfold pfs_repl_rx. rewrite Hdec, Hm, Hlen. change (PFSR_BLK_MAGIC =? PFSR_HOLD_MAGIC) with false. rewrite andb_false_r, Z.ltb_irrefl.
  rewrite H1, H2, H3, !Z.eqb_refl, (proj2 (Z.eqb_neq _ _) H4), (proj2 (Z.ltb_ge _ _) H5), (proj2 (Z.ltb_ge _ _) H6). cbn [negb orb].
  destruct (b_idx q =? 0); [|done]. rewrite bind_eq. change (val (has_block (b_id q) s)) with (pfs_has (b_id q) (blocks s)).
  change (exec (has_block (b_id q)) s) with s. destruct (pfs_has _ _); [done|].
  by destruct ((rx_start q;; rx_chunk c q) s) as [[[] ?] ?].
Qed.

Definition payload (e : effect) : list Z := match e with Send _ bs => bs | _ => [] end.

Section send.
Context {D1 D2 : Type} `{Dur1 : Durable D1} `{Dur2 : Durable D2} (cs cr : conf) (b id : list Z) (org : Z).
Context (Hlen : lenz b <= PFS_BLOCK_MAX) (Hsha : sha256 b = id) (Horg : is_u8 org).

(** The packet [send_block_to] fills in. *)
Definition first_pkt : PFSR_BLK_PKT :=
  Blk PFSR_BLK_MAGIC PFSR_VERSION PFSR_BLK_CHUNK (pk_node_v1 (my cs)) (pk_node_v1 org) id (lenz b) 0 0 [].

Lemma chunks_all k p off idx data : b_id p = id -> b_total p = lenz b -> is_u32 (b_magic p) -> 0 <= idx <= off -> 0 <= off <= lenz b ->
  length data = 512%nat ->
  Forall (fun q => blk_fits q /\ b_magic q = b_magic p /\ b_version q = b_version p /\ b_type q = b_type p /\ b_src q = b_src p /\
    b_origin q = b_origin p /\ b_total q = lenz b /\ b_id q = id /\ b_clen q <= PFSR_CHUNK_SIZE /\ idx <= b_idx q) (chunks k p b off idx data).
Proof.
  revert off idx data. induction k as [|k IH]; intros off idx data Hp Ht Hm Hi Ho Hd; [constructor|].
  destruct (chunks_cons b id k p off idx data Ho Hd Hp) as (q & data' & -> & (Q1 & Q2 & Q3 & Q4) & Hd' & Q5 & Q6 & Q7 & Q8 & Q9 & Q10 & Q11).
  unfold PFSR_CHUNK_SIZE, PFS_BLOCK_MAX in *. constructor.
  - split; [|by split_and!; try done; lia]. split; unfold is_u32 in *; rewrite ?Q6, ?Q1, ?Q11, ?Q2, ?Q5; try lia; try done.
    rewrite <- Hsha. apply sha256_length.
  - destruct (off + b_clen q <? lenz b) eqn:E; bools; [|constructor].
    eapply list.Forall_impl; [apply (IH (off + b_clen q) (idx + 1) data'); try done; lia|].
    intros q' (F1 & F2 & F3 & F4 & F5 & F6 & F7 & F8 & F9 & F10). split_and!; try done. lia.
Qed.

Lemma transfer_packets (r : repl D2) : pfs_has id (blocks r) = false -> pk_node_v1 (my cs) <> my cr ->
  exists s', blocks s' = blocks r /\
    iter (map enc_blk (chunks 9 first_pkt b 0 0 (replicate 512 0))) (pfs_repl_rx cr) r = deliver cr b id (pk_node_v1 org) s'.
Proof.
  intros Hhas Hme. pose proof (lenz_nonneg b) as Hnn.
  assert (length (replicate 512 0) = 512%nat) as Hd by apply length_replicate. set (data := replicate 512 0) in *. clearbody data.
  pose proof (chunks_all 9 first_pkt 0 0 data eq_refl eq_refl ltac:(by unfold is_u32) ltac:(lia) ltac:(lia) Hd) as Hall.
  destruct (chunks_cons b id 8 first_pkt 0 0 data ltac:(lia) Hd eq_refl) as (q & data' & Ec & (Q1 & Q2 & Q3 & Q4) & Hd' & Q5).
  destruct (chunks_deliver cr b id (pk_node_v1 org) Hlen Hsha 9 first_pkt 0 0 data (exec (rx_start q) r)) as (s' & E' & Hi).
  { split; [|lia|lia]. exists (replicate 4096 0). split; [|split; [apply length_replicate|done]].
    destruct Q5 as (_ & _ & _ & _ & _ & Q5 & Q6). cbn. by rewrite Q1, Q5, Q6. }
  { done. } { done. } { done. } { unfold PFS_BLOCK_MAX in *. lia. }
  exists s'. split; [done|]. rewrite <- Hi, Ec, iter_map. rewrite Ec in Hall. apply list.Forall_cons in Hall as [F0 Hrest].
  set (rest := if _ <? _ then _ else _) in *.
  assert (Forall (fun q => 1 <= b_idx q) rest) as Hidx.
  { unfold rest. destruct (0 + b_clen q <? lenz b) eqn:E; bools; [|constructor]. unfold PFSR_CHUNK_SIZE in *.
    eapply list.Forall_impl; [apply (chunks_all 8 first_pkt (0 + b_clen q) (0 + 1) data' eq_refl eq_refl ltac:(by unfold is_u32)); try done; lia|].
    by intros q' (_ & _ & _ & _ & _ & _ & _ & _ & _ & ?). }
  clearbody rest. cbn [iter]. rewrite !bind_eq. unfold exec at 1 2 3. rewrite rx_of_chunk; try (by apply F0); [|destruct F0 as (_ & _ & _ & _ & -> & _); done|].
  2: { destruct F0 as (_ & _ & _ & _ & _ & _ & -> & _). done. }
  rewrite Q2, Z.eqb_refl, Q1, Hhas. rewrite (bind_ret (rx_start q) _ r (exec (rx_start q) r) tt) by done. fold (exec (rx_chunk cr q) (exec (rx_start q) r)).
  rewrite (iter_ext rest _ (rx_chunk cr)); [done|]. intros q' Hin s1. rewrite Forall_elem in Hrest, Hidx. specialize (Hrest q' Hin). specialize (Hidx q' Hin).
  destruct Hrest as (G1 & G2 & G3 & G4 & G5 & G6 & G7 & G8 & G9 & G10). rewrite rx_of_chunk; try done.
  - by rewrite (proj2 (Z.eqb_neq _ _)) by lia.
  - by rewrite G5.
  - by rewrite G7.
Qed.
End send.

(** C27: a block sent is a block stored. Over any two stores: what a holder sends
    for a block it has, given to a node that lacks it chunk by chunk in order, is
    one put of bytes that hash to the block's id. When that put succeeds the
    receiver serves the block and, if its origin is a node of the region other
    than itself, tells it so. *)
Theorem block_transfer {D1 D2} `{DurableOk D1} `{DurableOk D2} (cs cr : conf) (s : repl D1) (r : repl D2) dst id
    (Hs : good (blocks s)) (Hav : avail (blocks s) id) (Hr : good (blocks r)) (Hl : pfs_loading (blocks r) = false)
    (Hlack : pfs_has id (blocks r) = false) (Hme : pk_node_v1 (my cs) <> my cr) :
  let res := iter (map payload (calls (send_block_to cs dst id s))) (pfs_repl_rx cr) r in
  exists b org, sha256 b = id /\ is_u8 org /\
    let put := pfs_put_origin (Some b) (lenz b) org (blocks r) in
    blocks (end_state res) = state put /\
    (code put = PFS_OK ->
      (exists b', sha256 b' = id /\ pfs_get id PFS_BLOCK_MAX (blocks (end_state res)) = delivered b' PFS_BLOCK_MAX) /\
      (my cr <> 0xFF -> org < DNODE_MAX -> org <> my cr ->
         Send org (enc_hold (Hold PFSR_HOLD_MAGIC (pk_node_v1 (my cr)) (pk_node_v1 org) id)) ∈ calls res)).
Proof.
  destruct (avail_get id PFS_BLOCK_MAX (blocks s) (proj1 (g_sound _ Hs)) Hav) as (b & Hget & Hsha).
  pose proof (get_len id PFS_BLOCK_MAX (blocks s) (proj1 (g_sound _ Hs))) as Hlen. rewrite Hget in Hlen. cbn [fst delivered] in Hlen.
  pose proof (lenz_nonneg b) as Hnn. set (o := match slot_of id (blocks s) with Some (_, o) => o | None => PFS_ORIGIN_SELF end).
  assert (map payload (calls (send_block_to cs dst id s)) = map enc_blk (chunks 9 (first_pkt cs b id o) b 0 0 (replicate 512 0))) as ->.
  { unfold send_block_to. rewrite calls_bind. change (val (get s)) with s. cbv zeta. rewrite Hget. unfold delivered. cbn [fst snd].
    rewrite (proj2 (Z.ltb_ge _ _)), (proj2 (Z.ltb_ge _ _)) by lia. cbn [orb].
    rewrite (take_ge b) by (unfold lenz in *; lia). fold o. fold (first_pkt cs b id o).
    rewrite iter_calls. change (calls (get s)) with (@nil effect). unfold calls. cbn [app snd]. by rewrite map_map. }
  destruct (transfer_packets cs cr b id o Hlen Hsha r Hlack Hme) as (s' & Hb & ->).
  exists b, (pk_node_v1 o). split; [done|]. split; [by unfold pk_node_v1, is_u8, PK_NODE_NONE; destruct (_ <? _); [apply u8_range|]|].
  cbv zeta. unfold deliver. rewrite bind_eq. destruct (put_block_spec cr (Some b) (lenz b) (pk_node_v1 o) s') as (Pv & Pb & _).
  rewrite Pv, <- Hb. set (put := pfs_put_origin _ _ _ (blocks s')) in *. set (s2 := exec _ s') in *.
  match goal with |- context [end_state (?x s2)] => assert (blocks (end_state (x s2)) = blocks s2) as E2 end.
  { destruct (negb _); [done|]. apply (proj1 (hold_ack_quiet cr (pk_node_v1 o) id s2)). }
  cbn [end_state calls fst snd]. unfold end_state, calls in *. cbn [fst snd]. rewrite E2, Pb. split; [done|]. intros Hc. unfold code in Hc. split.
  - destruct (put_keeps (Some b) (lenz b) (pk_node_v1 o) (blocks s')) as [(K1 & _) K]; [by rewrite Hb|by rewrite Hb, Hl|].
    assert (take (Z.to_nat (lenz b)) (default [] (Some b)) = b) as Et by (change (default [] (Some b)) with b; apply take_ge; unfold lenz; lia).
    rewrite Et, Hsha in K. destruct (avail_get id PFS_BLOCK_MAX (snd put) (proj1 (g_sound _ K1))) as (b' & G1 & G2); [|by exists b'].
    apply K. by left.
  - intros Hm1 Hm2 Hm3. rewrite Hc. cbn [Z.eqb negb]. unfold send_hold_ack.
    rewrite (proj2 (Z.eqb_neq _ _) Hm1), (proj2 (Z.leb_gt _ _) Hm2), (proj2 (Z.eqb_neq _ _) Hm3). cbn [orb].
    apply elem_of_app. right. left.
Qed.

Definition holder : repl flat := pfs_repl_init one_put.
Definition lacking : repl flat := pfs_repl_init (start one_dir false).
Definition conf_of (n : Z) : conf := Conf n true true true false None.

Lemma good_hook {D} `{DurableOk D} (b : store D) : good b -> good (blocks (pfs_repl_init b)).
Proof. intros [[Hw Hc] Hd Hcov]. split; [|done|done]. split; [|done]. by apply (wf_same b). Qed.

Lemma one_put_good : good one_put.
Proof.
  apply (put_live_keeps (Some [7]) 1 PFS_ORIGIN_SELF (start one_dir false)); [|done].
  apply start_good. apply one_dir_ok.
Qed.

Example block_transfer_witness :
  let res := iter (map payload (calls (send_block_to (conf_of 1) 2 (sha256 [7]) holder))) (pfs_repl_rx (conf_of 2)) lacking in
  exists b org, sha256 b = sha256 [7] /\ is_u8 org /\
    blocks (end_state res) = state (pfs_put_origin (Some b) (lenz b) org (blocks lacking)).
Proof.
  destruct (block_transfer (conf_of 1) (conf_of 2) holder lacking 2 (sha256 [7])) as (b & org & E1 & E2 & E3 & _).
  - apply good_hook, one_put_good.
  - apply (proj2 one_put_avail).
  - apply good_hook. apply start_good. apply one_dir_ok.
  - reflexivity.
  - reflexivity.
  - discriminate.
  - exact (ex_intro _ b (ex_intro _ org (conj E1 (conj E2 E3)))).
Defined.

Example rx_bounds_witness :
  let s' := exec (iter [replicate 564 255; [1]; enc_blk (Blk PFSR_BLK_MAGIC 1 1 1 1 (replicate 32 0) 4096 0 512 (replicate 512 1))]
    (pfs_repl_rx (conf_of 2))) lacking in
  rx_ok (rx_state s') /\ good (blocks s').
Proof.
  cbv zeta. edestruct (rx_bounds (conf_of 2)) as (R1 & R2 & _); [..|exact (conj R1 R2)].
  - apply (bool_decide_unpack _). vm_compute. exact I.
  - split; [reflexivity|]. cbn. unfold PFS_BLOCK_MAX. lia.
  - apply good_hook. apply start_good. apply one_dir_ok.
  - reflexivity.
Defined.

(** ** Asking again, and giving up *)

Section ticks.
Context {D : Type} `{Dur : Durable D} (c : conf).
Implicit Types s : repl D.

(** What a turn does to one entry, and whether it publishes a WANT. *)
Definition ticked (held : bool) (ms : Z) (p : PFSR_PENDING) : PFSR_PENDING * bool :=
  if negb (active p) then (p, false)
  else if held then (Pending (p_id p) (age_ms p) (tries p) false, false)
  else
    let age := u32 (age_ms p + ms) in
    if age <? PFSR_WANT_RETRY_MS then (Pending (p_id p) age (tries p) true, false)
    else if PFSR_WANT_TRIES <=? tries p then (Pending (p_id p) 0 (tries p) false, false)
    else (Pending (p_id p) 0 (u8 (tries p + 1)) true, true).

Definition tick_of (bl : store D) (ms : Z) (p : PFSR_PENDING) : PFSR_PENDING * bool := ticked (pfs_has (p_id p) bl) ms p.

Lemma publish_want_calls id s : lenz (calls (publish_want (D := D) c id s)) <= 1.
Proof. unfold publish_want. by destruct (_ || _). Qed.

Lemma tick_entry_spec ms pre p rest s : pending s = pre ++ p :: rest ->
  let s' := exec (tick_entry c ms (lenz pre)) s in
  pending s' = pre ++ fst (tick_of (blocks s) ms p) :: rest /\ blocks s' = blocks s /\
  lenz (calls (tick_entry c ms (lenz pre) s)) <= b2z (snd (tick_of (blocks s) ms p)).
Proof.
  intros Hp. unfold tick_entry. rewrite exec_bind, calls_bind. change (val (get s)) with s. change (exec get s) with s.
  change (calls (get s)) with (@nil effect). cbn [app]. cbv zeta.
  assert (entry (lenz pre) s = p) as ->.
  { unfold entry. rewrite Hp. apply getz_nat. unfold lenz. rewrite ?Nat2Z.id. by apply list_lookup_middle. }
  assert (forall q, pending (exec (set_entry (D := D) (lenz pre) q) s) = pre ++ q :: rest) as Hset.
  { intros q. change (pending (exec (set_entry (lenz pre) q) s)) with (setz (pending s) (lenz pre) q).
    rewrite Hp. unfold lenz. rewrite setz_nat. rewrite insert_app_r_alt by lia. by rewrite Nat.sub_diag. }
  unfold tick_of, ticked. destruct (active p) eqn:Ea; cbn [negb]; [|by split].
  destruct (pfs_has (p_id p) (blocks s)); [split; [apply Hset|done]|].
  destruct (u32 (age_ms p + ms) <? PFSR_WANT_RETRY_MS); [split; [apply Hset|done]|].
  destruct (PFSR_WANT_TRIES <=? tries p); [split; [apply Hset|done]|]. cbn [fst snd b2z].
  rewrite exec_bind, calls_bind. set (s1 := exec _ s). destruct (publish_want_quiet c (p_id p) s1) as (Q1 & _ & Q3).
  rewrite Q1, Q3. split; [apply Hset|]. split; [done|]. apply (publish_want_calls (p_id p) s1).
Qed.

Lemma pending_tick_spec ms s : lenz (pending s) = PFSR_PENDING_MAX ->
  let s' := exec (pending_tick c ms) s in
  pending s' = map (fun p => fst (tick_of (blocks s) ms p)) (pending s) /\ blocks s' = blocks s /\
  lenz (calls (pending_tick c ms s)) <= countz (fun p => snd (tick_of (blocks s) ms p)) (pending s).
Proof.
  intros Hl. unfold pending_tick. rewrite <- Hl. clear Hl. remember (blocks s) as bl eqn:Eb.
  cut (forall rest pre s, pending s = pre ++ rest -> blocks s = bl ->
    let m := iter (seqZ (lenz pre) (lenz rest)) (tick_entry c ms) in
    pending (exec m s) = pre ++ map (fun p => fst (tick_of bl ms p)) rest /\ blocks (exec m s) = bl /\
    lenz (calls (m s)) <= countz (fun p => snd (tick_of bl ms p)) rest).
  { intros Hgen. by apply (Hgen (pending s) [] s). }
  clear s Eb. intros rest. induction rest as [|p rest IH]; intros pre s Hp Hb; cbv zeta.
  - change (lenz (@nil PFSR_PENDING)) with 0. rewrite seqZ_nil by done. cbn [iter map]. split; [done|]. by split.
  - assert (lenz (p :: rest) = lenz rest + 1) as -> by (unfold lenz; cbn [length]; lia). pose proof (lenz_nonneg rest).
    rewrite seqZ_cons by lia. replace (Z.pred (lenz rest + 1)) with (lenz rest) by lia. cbn [iter]. rewrite exec_bind, calls_bind.
    destruct (tick_entry_spec ms pre p rest s Hp) as (T1 & T2 & T3). rewrite Hb in T1, T3. set (s1 := exec (tick_entry c ms (lenz pre)) s) in *.
    destruct (IH (pre ++ [fst (tick_of bl ms p)]) s1) as (I1 & I2 & I3); [by rewrite T1, <- app_assoc|by rewrite T2|].
    assert (lenz (pre ++ [fst (tick_of bl ms p)]) = Z.succ (lenz pre)) as Hl by (unfold lenz; rewrite length_app; cbn [length]; lia).
    rewrite Hl in I1, I2, I3. split; [by rewrite I1, <- app_assoc|]. split; [done|].
    unfold countz in *. cbn [List.filter]. unfold lenz in *. rewrite length_app. destruct (snd (tick_of bl ms p)); cbn [b2z length] in *; lia.
Qed.
End ticks.

(** What the table keeps of an entry that is being chased. *)
Definition entry_ok (p : PFSR_PENDING) : Prop :=
  active p = true -> 1 <= tries p <= PFSR_WANT_TRIES /\ 0 <= age_ms p < PFSR_WANT_RETRY_MS.

(** WANTs and turns an entry has left. *)
Definition wants_of (p : PFSR_PENDING) : Z := if active p then PFSR_WANT_TRIES - tries p else 0.
Definition turns_of (p : PFSR_PENDING) : Z := if active p then wants_of p * 12 + (649 - age_ms p) / 50 else 0.
Fixpoint wants_left (l : list PFSR_PENDING) : Z := match l with [] => 0 | p :: r => wants_of p + wants_left r end.

Lemma ticked_step held p : entry_ok p ->
  let r := ticked held PFSR_POLL_MS p in
  entry_ok (fst r) /\ wants_of (fst r) + b2z (snd r) <= wants_of p /\ turns_of (fst r) <= Z.max 0 (turns_of p - 1).
Proof.
  intros Hok. unfold ticked, turns_of, wants_of. unfold entry_ok in *. destruct (active p) eqn:Ea; cbn [negb fst snd b2z]; [|rewrite Ea; split; [done|lia]].
  destruct (Hok eq_refl) as [Ht Hr]. unfold PFSR_WANT_TRIES, PFSR_WANT_RETRY_MS, PFSR_POLL_MS in *.
  assert (1 <= (649 - age_ms p) / 50) as Hq by (apply Z.div_le_lower_bound; lia).
  destruct held; cbn [fst snd b2z active]; [split; [done|lia]|]. rewrite u32_small by (unfold is_u32; lia).
  assert ((649 - (age_ms p + 50)) / 50 = (649 - age_ms p) / 50 - 1) as Hd.
  { replace (649 - age_ms p) with (649 - (age_ms p + 50) + 1 * 50) by lia. rewrite Z.div_add by done. lia. }
  dif E1; bools; cbn [fst snd b2z active tries age_ms]; [rewrite Hd; split_and!; try done; lia|].
  dif E2; bools; cbn [fst snd b2z active tries age_ms]; [split; [done|lia]|].
  rewrite u8_small by (unfold is_u8; lia). replace ((649 - 0) / 50) with 12 by reflexivity. split_and!; try done; lia.
Qed.

(** The table keeps its length and its entries what they should be. *)
Lemma ticked_list (f : PFSR_PENDING -> bool) l : Forall entry_ok l ->
  Forall entry_ok (map (fun p => fst (ticked (f p) PFSR_POLL_MS p)) l) /\
  countz (fun p => snd (ticked (f p) PFSR_POLL_MS p)) l + wants_left (map (fun p => fst (ticked (f p) PFSR_POLL_MS p)) l) <= wants_left l.
Proof.
  induction 1 as [|p l Hp _ [IH1 IH2]]; [done|]. destruct (ticked_step (f p) p Hp) as (T1 & T2 & _). cbn [map wants_left].
  split; [by constructor|]. unfold countz, lenz in *. cbn [List.filter]. destruct (snd (ticked (f p) PFSR_POLL_MS p)); cbn [b2z length] in *; lia.
Qed.

Lemma wants_nonneg l : Forall entry_ok l -> 0 <= wants_left l <= 9 * lenz l.
Proof.
  induction 1 as [|p l Hp _ IH]; [done|]. cbn [wants_left]. unfold lenz in *. cbn [length]. unfold wants_of.
  destruct (active p) eqn:E; [|lia]. destruct (Hp E). unfold PFSR_WANT_TRIES in *. lia.
Qed.

(** Turns of the task between which the block table becomes anything. *)
Definition turn {D} `{Durable D} (c : conf) (b : store D) : io (repl D) effect unit :=
  modify (with_blocks b) ;; pending_tick c PFSR_POLL_MS.
Definition turns {D} `{Durable D} (c : conf) (bs : list (store D)) : io (repl D) effect unit := iter bs (turn c).

Lemma turn_eq {D} `{Durable D} c b (s : repl D) : turn c b s = pending_tick c PFSR_POLL_MS (with_blocks b s).
Proof. by apply (bind_ret (modify (with_blocks b)) (fun _ => pending_tick c PFSR_POLL_MS) s (with_blocks b s) tt). Qed.
Lemma turn_exec {D} `{Durable D} c b (s : repl D) : exec (turn c b) s = exec (pending_tick c PFSR_POLL_MS) (with_blocks b s).
Proof. unfold exec. by rewrite turn_eq. Qed.

Lemma turns_spec {D} `{Durable D} c (bs : list (store D)) s : lenz (pending s) = PFSR_PENDING_MAX -> Forall entry_ok (pending s) ->
  lenz (calls (turns c bs s)) + wants_left (pending (exec (turns c bs) s)) <= wants_left (pending s) /\
  Forall entry_ok (pending (exec (turns c bs) s)) /\
  (forall k p, pending (exec (turns c bs) s) !! k = Some p -> exists q, pending s !! k = Some q /\
     turns_of p <= Z.max 0 (turns_of q - lenz bs)).
Proof.
  revert s. induction bs as [|b bs IH]; intros s Hl Hok.
  { split_and!; [done|done|]. intros k p Hk. exists p. split; [done|]. change (lenz (@nil (store D))) with 0. lia. }
  unfold turns in *. cbn [iter]. rewrite exec_bind, calls_bind. rewrite turn_exec, turn_eq.
  destruct (pending_tick_spec c PFSR_POLL_MS (with_blocks b s) Hl) as (T1 & _ & T3). change (pending (with_blocks b s)) with (pending s) in *.
  change (blocks (with_blocks b s)) with b in *. set (s1 := exec (pending_tick c PFSR_POLL_MS) (with_blocks b s)) in *. clearbody s1.
  destruct (ticked_list (fun p => pfs_has (p_id p) b) (pending s) Hok) as [L1 L2]. unfold tick_of in T1, T3. rewrite <- T1 in L1, L2.
  destruct (IH s1) as (I1 & I2 & I3); [by rewrite T1; unfold lenz in *; rewrite length_map|done|].
  split; [unfold lenz in *; rewrite length_app; lia|]. split; [done|].
  intros k p Hk. destruct (I3 k p Hk) as (q & Hq & Hle). rewrite T1 in Hq. apply list_lookup_fmap_Some in Hq as (q0 & -> & Hq0).
  exists q0. split; [done|]. pose proof (proj1 (list.Forall_lookup _ _) Hok k q0 Hq0) as Hq0ok.
  destruct (ticked_step (pfs_has (p_id q0) b) q0 Hq0ok) as (_ & _ & Ht). unfold lenz in *. cbn [length]. lia.
Qed.

(** The chase of missing blocks ends. From any table whose entries the code
    made, whatever arrives or not: all the turns to come publish at most nine
    WANTs per entry (the tenth went out when it was added), and after 120 turns
    of 50 ms no entry is left, so no turn after them publishes anything. *)
Theorem wants_stop {D} `{Durable D} (c : conf) (bs more : list (store D)) (s : repl D) (Hl : lenz (pending s) = PFSR_PENDING_MAX)
    (Hok : Forall entry_ok (pending s)) (Hn : 120 <= lenz bs) :
  lenz (calls (turns c bs s)) <= 72 /\
  Forall (fun p => active p = false) (pending (exec (turns c bs) s)) /\
  calls (turns c more (exec (turns c bs) s)) = [].
Proof.
  destruct (turns_spec c bs s Hl Hok) as (T1 & T2 & T3). set (s1 := exec (turns c bs) s) in *.
  pose proof (wants_nonneg _ Hok). pose proof (wants_nonneg _ T2). unfold PFSR_PENDING_MAX in *. rewrite Hl in *. split; [lia|].
  assert (Forall (fun p => active p = false) (pending s1)) as Hoff.
  { apply list.Forall_lookup. intros k p Hk. destruct (T3 k p Hk) as (q & Hq & Hle).
    pose proof (proj1 (list.Forall_lookup _ _) Hok k q Hq) as Hqok. pose proof (proj1 (list.Forall_lookup _ _) T2 k p Hk) as Hpok.
    destruct (active p) eqn:Ep; [exfalso|done]. destruct (Hpok Ep) as [P1 P2].
    assert (turns_of q <= 120) as H120.
    { unfold turns_of, wants_of. destruct (active q) eqn:Eq; [|lia]. destruct (Hqok Eq) as [Q1 Q2]. unfold PFSR_WANT_TRIES, PFSR_WANT_RETRY_MS in *.
      assert ((649 - age_ms q) / 50 < 13) by (apply Z.div_lt_upper_bound; lia). lia. }
    unfold turns_of in Hle at 1. rewrite Ep in Hle. unfold wants_of in Hle. rewrite Ep in Hle. unfold PFSR_WANT_TRIES, PFSR_WANT_RETRY_MS in *.
    assert (1 <= (649 - age_ms p) / 50) by (apply Z.div_le_lower_bound; lia). lia. }
  split; [done|]. assert (lenz (pending s1) = 8) as Hl1.
  { unfold s1. clear -Hl Hok. revert s Hl Hok. induction bs as [|b bs IH]; intros s Hl Hok; [done|].
    destruct (pending_tick_spec c PFSR_POLL_MS (with_blocks b s) Hl) as (S1 & _).
    unfold turns. cbn [iter]. rewrite exec_bind. rewrite turn_exec. apply IH; rewrite S1; [unfold lenz in *; by rewrite length_map|].
    by apply (ticked_list (fun p => pfs_has (p_id p) b)). }
  destruct (turns_spec c more s1 Hl1 T2) as (U1 & U2 & _).
  assert (wants_left (pending s1) = 0) as Hz.
  { clear -Hoff. induction Hoff as [|p l Hp _ IH]; [done|]. cbn [wants_left]. unfold wants_of. cbn beta in Hp. rewrite Hp. lia. }
  pose proof (wants_nonneg _ U2). apply length_zero_iff_nil. unfold lenz in *. lia.
Qed.

Definition chasing : repl flat := with_pending (setz (replicate 8 no_pending) 0 (Pending (sha256 [7]) 0 1 true)) lacking.

Example wants_stop_witness :
  lenz (calls (turns (conf_of 2) (replicate 120 (start one_dir false)) chasing)) <= 72 /\
  Forall (fun p => active p = false) (pending (exec (turns (conf_of 2) (replicate 120 (start one_dir false))) chasing)) /\
  calls (turns (conf_of 2) [] (exec (turns (conf_of 2) (replicate 120 (start one_dir false))) chasing)) = [].
Proof.
  apply (wants_stop (conf_of 2) (replicate 120 (start one_dir false)) [] chasing).
  - reflexivity.
  - repeat (apply list.Forall_cons; split; [by (discriminate || (intros _; cbn; unfold PFSR_WANT_TRIES, PFSR_WANT_RETRY_MS; lia))|]). constructor.
  - reflexivity || (unfold lenz; rewrite length_replicate; lia).
Defined.
