(* ===== verification/PfsDag.v ===== *)
(** * Named objects and their versions: src/arch/common/pfs_dag.c

    A save stores the bytes as one block and a manifest (previous manifest,
    content, version number, name) as another, and moves the name's reference to
    it. References are gossiped in beacons and merged, the higher version first,
    the larger manifest id on a tie; they are kept in refs.tab, under a CRC.
    Messages are left out, except that [dag_log] and [dag_cat] return what they
    show. The theorems are in PfsDagFacts.v and PfsDagStore.v. *)

From stdpp Require Import list.
#[local] Open Scope Z_scope.
From S2P Require Import Prelude.
From S2P Require Import Sha256.
From S2P Require Import ArkLog.
From S2P Require Import Node.
From S2P Require Import Durable.
From S2P Require Import PfsBlock.
From S2P Require Import Step.
From S2P Require Import Wire.
From S2P Require Import PfsRepl.

Definition PFS_NAME_MAX : Z := 16.
Definition PFS_REF_MAX : Z := 16.
Definition PFSD_VERSION : Z := 1.
Definition PFSD_MAN_MAGIC : Z := 0x4E4D4650.
Definition PFSD_REF_MAGIC : Z := 0x46524650.
Definition PFSD_REFTAB_MAGIC : Z := 0x32465450.
Definition PFSD_REF_PER_PKT : Z := 3.
Definition PFSD_BEACON_MS : Z := 800.
Definition PFSD_POLL_MS : Z := 100.
Definition PFSD_LOG_MAX : Z := 64.
Definition MAN_SIZE : Z := 100.
Definition ENT_SIZE : Z := 56.
Definition HDR_SIZE : Z := 12.

(** ** Ids, names, images *)

(** The lexicographic order; ids have one length, the other cases make it an
    order of all lists. *)
Fixpoint pd_id_cmp (a b : list Z) : Z :=
  match a, b with
  | x :: a, y :: b => if x =? y then pd_id_cmp a b else x - y
  | [], [] => 0
  | [], _ => -1
  | _, [] => 1
  end.
Definition pd_id_zero (id : list Z) : bool := forallb (fun x => x =? 0) id.

(** A name field: [n] bytes of [name], padded with zeros. *)
Definition name_field (name : list Z) (n : Z) : list Z := blit (replicate 16 0) 0 (take (Z.to_nat n) name).

Record PFSD_MANIFEST : Type := Manifest {
  m_magic : Z; m_version : Z; m_prev : list Z; m_content : list Z; m_seq : Z; m_len : Z; m_origin : Z; m_nlen : Z; m_name : list Z }.

Definition enc_man (m : PFSD_MANIFEST) : list Z :=
  le 4 (m_magic m) ++ le 4 (m_version m) ++ m_prev m ++ m_content m ++ le 4 (m_seq m) ++ le 4 (m_len m) ++
  [m_origin m; m_nlen m; 0; 0] ++ m_name m.
Definition dec_man (d : list Z) : PFSD_MANIFEST :=
  Manifest (num_at 0 4 d) (num_at 4 4 d) (bytes_at 8 32 d) (bytes_at 40 32 d) (num_at 72 4 d) (num_at 76 4 d)
    (getz d 80 0) (getz d 81 0) (bytes_at 84 16 d).

Record PFSD_REF_ENT : Type := Ent { e_name : list Z; e_head : list Z; e_seq : Z; e_origin : Z; e_nlen : Z }.
Definition enc_ent (e : PFSD_REF_ENT) : list Z := e_name e ++ e_head e ++ le 4 (e_seq e) ++ [e_origin e; e_nlen e; 0; 0].
Definition dec_ent (d : list Z) : PFSD_REF_ENT :=
  Ent (bytes_at 0 16 d) (bytes_at 16 32 d) (num_at 48 4 d) (getz d 52 0) (getz d 53 0).

(** A beacon; [k_ent] are the three entries of the packet. *)
Record PFSD_REF_PKT : Type := Beacon { k_magic : Z; k_seq : Z; k_src : Z; k_n : Z; k_ent : list PFSD_REF_ENT }.

(** The name an entry is for. *)
Definition ent_name (e : PFSD_REF_ENT) : list Z := take (Z.to_nat (e_nlen e)) (e_name e).

(** ** State *)

Record PFSD_REF : Type := Ref { ent : PFSD_REF_ENT; r_used : bool }.
Definition no_ent : PFSD_REF_ENT := Ent (replicate 16 0) (replicate 32 0) 0 0 0.
Definition no_ref : PFSD_REF := Ref no_ent false.

Record dag (D : Type) : Type := Dag {
  net : repl D; refs : list PFSD_REF; dag_loading : bool; ref_seq : Z; last_ref_seq : list Z; beacon_rr : Z; since_beacon : Z }.
Arguments Dag {D}. Arguments net {D}. Arguments refs {D}. Arguments dag_loading {D}. Arguments ref_seq {D}.
Arguments last_ref_seq {D}. Arguments beacon_rr {D}. Arguments since_beacon {D}.

Inductive effect : Type := Net (e : PfsRepl.effect) | PubRef (p : PFSD_REF_PKT).

(** The state after [pfs_dag_init]; the task starts with a beacon due. *)
Definition pfs_dag_init {D} (r : repl D) : dag D := Dag r (replicate 16 no_ref) false 0 (replicate 64 0) 0 PFSD_BEACON_MS.

Section dag.
Context {D : Type} `{Durable D} (c : conf) (ref_open : bool).
#[local] Abbreviation op A := (io (dag D) effect A).

Definition with_net (r : repl D) (s : dag D) : dag D :=
  Dag r (refs s) (dag_loading s) (ref_seq s) (last_ref_seq s) (beacon_rr s) (since_beacon s).
Definition with_refs (l : list PFSD_REF) (s : dag D) : dag D :=
  Dag (net s) l (dag_loading s) (ref_seq s) (last_ref_seq s) (beacon_rr s) (since_beacon s).
Definition with_dag_loading (b : bool) (s : dag D) : dag D :=
  Dag (net s) (refs s) b (ref_seq s) (last_ref_seq s) (beacon_rr s) (since_beacon s).
Definition with_beacon (seq rr : Z) (s : dag D) : dag D :=
  Dag (net s) (refs s) (dag_loading s) seq (last_ref_seq s) rr (since_beacon s).
Definition with_last_ref (l : list Z) (s : dag D) : dag D :=
  Dag (net s) (refs s) (dag_loading s) (ref_seq s) l (beacon_rr s) (since_beacon s).
Definition with_since (n : Z) (s : dag D) : dag D :=
  Dag (net s) (refs s) (dag_loading s) (ref_seq s) (last_ref_seq s) (beacon_rr s) n.

(** The layers below. *)
Definition below {A} (m : io (repl D) PfsRepl.effect A) : op A := fun s =>
  let r := m (net s) in (val r, with_net (end_state r) s, map Net (calls r)).
Definition tab (s : dag D) : store D := blocks (net s).
Definition d_has (id : list Z) : op bool := gets (fun s => pfs_has id (tab s)).
Definition d_get (id : list Z) (maxlen : Z) : op (Z * list Z) := gets (fun s => pfs_get id maxlen (tab s)).
Definition d_want (id : list Z) : op unit := below (pfs_repl_want c id).

(** ** The reference table *)

Definition ref_at (i : Z) (s : dag D) : PFSD_REF := getz (refs s) i no_ref.

Definition ref_find (name : list Z) (s : dag D) : Z :=
  first_ix (fun r => r_used r && bool_decide (ent_name (ent r) = name)) (refs s) 0.
Definition ref_alloc (s : dag D) : Z := first_ix (fun r => negb (r_used r)) (refs s) 0.

(** The image of refs.tab. *)
Definition reftab_body (l : list PFSD_REF) : list Z :=
  let used := List.filter r_used l in le 4 (lenz used) ++ concat (map (fun r => enc_ent (ent r)) used).
Definition reftab_image (l : list PFSD_REF) : list Z :=
  le 4 PFSD_REFTAB_MAGIC ++ le 4 (ark_crc32 (reftab_body l)) ++ reftab_body l.

Definition on_disk (f : D -> D) (s : dag D) : dag D := with_net (with_blocks (set_disk (f (disk (tab s))) (tab s)) (net s)) s.

Definition refs_persist : op unit :=
  s ← get;
  if dag_loading s || negb (pfs_dur_active (disk (tab s))) then ret tt
  else modify (on_disk (fun d => snd (pfs_dur_write PFSD_REFTAB_FILE (reftab_image (refs s)) d))).

Definition ref_set (i : Z) (name head : list Z) (seq origin : Z) : op unit :=
  modify (fun s => with_refs (setz (refs s) i (Ref (Ent (name_field name (lenz name)) head seq (pk_node_v1 origin) (lenz name)) true)) s) ;;
  refs_persist.

(** The entry at position [i] of the image, one turn of the loop of the restore;
    the result says whether to stop. *)
Definition restore_ent (e : PFSD_REF_ENT) : op bool :=
  if (e_nlen e =? 0) || (PFS_NAME_MAX <? e_nlen e) then ret false
  else
    s ← get;
    let f := ref_find (ent_name e) s in
    let i := if f <? 0 then ref_alloc s else f in
    if i <? 0 then ret true
    else ref_set i (ent_name e) (e_head e) (e_seq e) (e_origin e) ;; ret false.

Fixpoint restore_ents (l : list PFSD_REF_ENT) : op unit :=
  match l with [] => ret tt | e :: l => stop ← restore_ent e; if stop then ret tt else restore_ents l end.

Definition table_ents (img : list Z) (n : nat) : list PFSD_REF_ENT :=
  map (fun i => dec_ent (bytes_at (12 + 56 * i) 56 img)) (seq 0 n).

Definition pfs_dag_restore : op unit :=
  s ← get;
  if negb (pfs_dur_active (disk (tab s))) then ret tt
  else
    match pfs_dur_read PFSD_REFTAB_FILE (disk (tab s)) with
    | None => ret tt
    | Some file =>
        let img := take (Z.to_nat (HDR_SIZE + PFS_REF_MAX * ENT_SIZE)) file in
        let n := num_at 8 4 img in
        if lenz img <? HDR_SIZE then ret tt
        else if negb (num_at 0 4 img =? PFSD_REFTAB_MAGIC) then ret tt
        else if PFS_REF_MAX <? n then ret tt
        else if lenz img <? HDR_SIZE + n * ENT_SIZE then ret tt
        else if negb (ark_crc32 (bytes_at 8 (Z.to_nat (4 + n * ENT_SIZE)) img) =? num_at 4 4 img) then ret tt
        else
          modify (with_dag_loading true) ;;
          restore_ents (table_ents img (Z.to_nat n)) ;;
          modify (with_dag_loading false)
    end.

(** ** Beacons *)

(** The used entries from [beacon_rr] on, three at most. *)
Definition beacon_ents (rr : Z) (l : list PFSD_REF) : list PFSD_REF_ENT :=
  take (Z.to_nat PFSD_REF_PER_PKT)
    (map ent (List.filter r_used (map (fun k => getz l ((rr + k) mod PFS_REF_MAX) no_ref) (seqZ 0 PFS_REF_MAX)))).

Definition beacon_publish : op unit :=
  s ← get;
  if (my c =? 0xFF) || negb ref_open then ret tt
  else
    let l := beacon_ents (beacon_rr s) (refs s) in
    modify (fun s => with_beacon (ref_seq s) ((beacon_rr s + PFSD_REF_PER_PKT) mod PFS_REF_MAX) s) ;;
    if lenz l =? 0 then ret tt
    else
      modify (fun s => with_beacon (u32 (ref_seq s + 1)) (beacon_rr s) s) ;;
      n ← gets ref_seq;
      call (PubRef (Beacon PFSD_REF_MAGIC n (pk_node_v1 (my c)) (lenz l) (take 3 (l ++ replicate 3 no_ent)))).

Definition merge_entry (e : PFSD_REF_ENT) : op unit :=
  if (e_nlen e =? 0) || (PFS_NAME_MAX <? e_nlen e) then ret tt
  else if e_seq e =? 0 then ret tt
  else
    s ← get;
    let f := ref_find (ent_name e) s in
    let cur := ent (ref_at f s) in
    let i :=
      if f <? 0 then ref_alloc s
      else if e_seq cur <? e_seq e then f
      else if (e_seq e =? e_seq cur) && negb (bool_decide (e_head e = e_head cur)) && (0 <? pd_id_cmp (e_head e) (e_head cur)) then f
      else -1 in
    if i <? 0 then ret tt
    else
      ref_set i (ent_name e) (e_head e) (e_seq e) (e_origin e) ;;
      held ← d_has (e_head e);
      if held then ret tt else d_want (e_head e).

(** ** Saving *)

Definition d_put (buf : option (list Z)) (len : Z) : op (Z * option (list Z)) := below (pfs_repl_put c buf len).

(** The manifest of a new version of [name]. *)
Definition next_manifest (cur : option PFSD_REF_ENT) (content : list Z) (len : Z) (name : list Z) : PFSD_MANIFEST :=
  Manifest PFSD_MAN_MAGIC PFSD_VERSION
    (match cur with Some e => e_head e | None => replicate 32 0 end) content
    (match cur with Some e => u32 (e_seq e + 1) | None => 1 end) len
    (if my c =? 0xFF then PFS_ORIGIN_SELF else pk_node_v1 (my c)) (lenz name) (name_field name (lenz name)).

Definition pfs_dag_save (name : list Z) (buf : option (list Z)) (len : Z) : op Z :=
  if (lenz name =? 0) || (PFS_NAME_MAX <? lenz name) then ret PFS_E_INVAL
  else if PFS_BLOCK_MAX <? len then ret PFS_E_TOOBIG
  else
    p ← d_put buf len;
    if negb (fst p =? PFS_OK) then ret (fst p)
    else
      s ← get;
      let f := ref_find name s in
      let cur := if f <? 0 then None else Some (ent (ref_at f s)) in
      let m := next_manifest cur (default [] (snd p)) len name in
      q ← d_put (Some (enc_man m)) MAN_SIZE;
      if negb (fst q =? PFS_OK) then ret (fst q)
      else
        s ← get;
        let i := if f <? 0 then ref_alloc s else f in
        if i <? 0 then ret PFS_E_FULL
        else
          ref_set i name (default [] (snd q)) (m_seq m) (m_origin m) ;;
          beacon_publish ;;
          ret PFS_OK.

(** ** Reading *)

(** What came back for a manifest is one. *)
Definition man_ok (g : Z * list Z) : bool :=
  (fst g =? MAN_SIZE) && (m_magic (dec_man (snd g)) =? PFSD_MAN_MAGIC) && (m_version (dec_man (snd g)) =? PFSD_VERSION).

(** The content a manifest names, or a WANT for it. *)
Definition fetch (id : list Z) (maxlen : Z) : op (Z * list Z) :=
  g ← d_get id maxlen;
  if fst g <? 0 then d_want id ;; ret (PFS_E_NOTFOUND, []) else ret g.

Definition pfs_dag_read (name : list Z) (maxlen : Z) : op (Z * list Z) :=
  if (lenz name =? 0) || (PFS_NAME_MAX <? lenz name) then ret (PFS_E_INVAL, [])
  else
    s ← get;
    let f := ref_find name s in
    if f <? 0 then ret (PFS_E_NOTFOUND, [])
    else
      let head := e_head (ent (ref_at f s)) in
      held ← d_has head;
      if negb held then d_want head ;; ret (PFS_E_NOTFOUND, [])
      else
        g ← d_get head MAN_SIZE;
        if negb (man_ok g) then ret (PFS_E_INVAL, []) else fetch (m_content (dec_man (snd g))) maxlen.

(** The walk back along the chain, [depth] manifests at most. *)
Fixpoint walk (depth : nat) (id : list Z) (seq maxlen : Z) : op (Z * list Z) :=
  match depth with
  | O => ret (PFS_E_NOTFOUND, [])
  | S k =>
      held ← d_has id;
      if negb held then d_want id ;; ret (PFS_E_NOTFOUND, [])
      else
        g ← d_get id MAN_SIZE;
        let m := dec_man (snd g) in
        if negb (man_ok g) then ret (PFS_E_INVAL, [])
        else if m_seq m =? seq then fetch (m_content m) maxlen
        else if (m_seq m <? seq) || pd_id_zero (m_prev m) then ret (PFS_E_NOTFOUND, [])
        else walk k (m_prev m) seq maxlen
  end.

Definition pfs_dag_read_at (name : list Z) (seq maxlen : Z) : op (Z * list Z) :=
  if (lenz name =? 0) || (PFS_NAME_MAX <? lenz name) || (seq =? 0) then ret (PFS_E_INVAL, [])
  else
    s ← get;
    let f := ref_find name s in
    if f <? 0 then ret (PFS_E_NOTFOUND, [])
    else walk (Z.to_nat PFSD_LOG_MAX) (e_head (ent (ref_at f s))) seq maxlen.

(** ** Walks for the shell, and the sweep *)

Definition load_manifest (id : list Z) : op (option PFSD_MANIFEST) :=
  held ← d_has id;
  if negb held then d_want id ;; ret None
  else g ← d_get id MAN_SIZE; if negb (man_ok g) then ret None else ret (Some (dec_man (snd g))).

(** The versions [dag_log] prints, newest first. *)
Fixpoint log_walk (depth : nat) (id : list Z) : op (list (list Z * PFSD_MANIFEST)) :=
  match depth with
  | O => ret []
  | S k =>
      m ← load_manifest id;
      match m with
      | None => ret []
      | Some m =>
          if pd_id_zero (m_prev m) then ret [(id, m)]
          else l ← log_walk k (m_prev m); ret ((id, m) :: l)
      end
  end.

Definition dag_log (name : list Z) : op (option (list (list Z * PFSD_MANIFEST))) :=
  s ← get;
  let f := ref_find name s in
  if f <? 0 then ret None
  else l ← log_walk (Z.to_nat PFSD_LOG_MAX) (e_head (ent (ref_at f s))); ret (Some l).

(** What [dag_cat] prints. *)
Inductive cat : Type := NoObject | NoManifest | NoSeq | NotLocal | Shown (seq : Z) (bytes : list Z).

(** The loop ends at the last manifest it loaded when the depth is used up. *)
Fixpoint cat_walk (depth : nat) (id : list Z) (at_seq : Z) : op (cat + PFSD_MANIFEST) :=
  m ← load_manifest id;
  match m with
  | None => ret (inl NoManifest)
  | Some m =>
      if (at_seq <? 0) || (m_seq m =? at_seq) then ret (inr m)
      else if (m_seq m <? at_seq) || pd_id_zero (m_prev m) then ret (inl NoSeq)
      else match depth with O => ret (inr m) | S k => cat_walk k (m_prev m) at_seq end
  end.

(** The loop makes [PFSD_LOG_MAX] turns: one and [PFSD_LOG_MAX - 1] more. *)
Definition dag_cat (name : list Z) (at_seq : Z) : op cat :=
  s ← get;
  let f := ref_find name s in
  if f <? 0 then ret NoObject
  else
    r ← cat_walk (Z.to_nat (PFSD_LOG_MAX - 1)) (e_head (ent (ref_at f s))) at_seq;
    match r with
    | inl out => ret out
    | inr m =>
        g ← d_get (m_content m) PFS_BLOCK_MAX;
        if fst g <? 0 then d_want (m_content m) ;; ret NotLocal
        else ret (Shown (m_seq m) (take (Z.to_nat (Z.min (fst g) PFS_BLOCK_MAX)) (snd g)))
    end.

(** One chain of the sweep. *)
Fixpoint sweep_chain (depth : nat) (id : list Z) : op unit :=
  match depth with
  | O => ret tt
  | S k =>
      held ← d_has id;
      if negb held then d_want id
      else
        g ← d_get id MAN_SIZE;
        let m := dec_man (snd g) in
        if negb (fst g =? MAN_SIZE) || negb (m_magic m =? PFSD_MAN_MAGIC) then ret tt
        else
          got ← d_has (m_content m);
          (if got then ret tt else d_want (m_content m)) ;;
          if pd_id_zero (m_prev m) then ret tt else sweep_chain k (m_prev m)
  end.

Definition sweep_missing : op unit :=
  iter (seqZ 0 PFS_REF_MAX) (fun i =>
    s ← get;
    let r := ref_at i s in
    if negb (r_used r) then ret tt else sweep_chain (Z.to_nat PFSD_LOG_MAX) (e_head (ent r))).

(** ** The task *)

Definition on_beacon (p : PFSD_REF_PKT) : op unit :=
  s ← get;
  if (k_magic p =? PFSD_REF_MAGIC) && (k_src p <? DNODE_MAX) && negb (k_src p =? my c) &&
     negb (k_seq p =? getz (last_ref_seq s) (k_src p) 0)
  then
    modify (fun s => with_last_ref (setz (last_ref_seq s) (k_src p) (k_seq p)) s) ;;
    iter (take (Z.to_nat (Z.min (k_n p) PFSD_REF_PER_PKT)) (k_ent p)) merge_entry
  else ret tt.

(** One turn, with what the poll returned. *)
Definition dag_turn (b : option PFSD_REF_PKT) : op unit :=
  match b with Some p => on_beacon p | None => ret tt end ;;
  modify (fun s => with_since (u32 (since_beacon s + PFSD_POLL_MS)) s) ;;
  n ← gets since_beacon;
  if PFSD_BEACON_MS <=? n then modify (with_since 0) ;; beacon_publish ;; sweep_missing else ret tt.

(** Name, version and origin of every object: [pfs_dag_foreach_ref]. *)
Definition pfs_dag_foreach_ref (s : dag D) : list (list Z * Z * Z) :=
  map (fun r => (take (Z.to_nat (Z.min (e_nlen (ent r)) PFS_NAME_MAX)) (e_name (ent r)), e_seq (ent r), e_origin (ent r)))
    (List.filter r_used (refs s)).
End dag.

(** ** The command line *)

Fixpoint skip_ws (l : list Z) : list Z :=
  match l with x :: r => if (x =? 32) || (x =? 9) then skip_ws r else l | [] => [] end.
Fixpoint token (l : list Z) : list Z * list Z :=
  match l with
  | x :: r => if (x =? 32) || (x =? 9) then ([], l) else let t := token r in (x :: fst t, snd t)
  | [] => ([], [])
  end.

Inductive command : Type :=
  | CmdSave (name text : list Z) | CmdLog (name : list Z) | CmdCat (name : list Z) (at_seq : Z) | CmdUsage.

Definition is_digit (x : Z) : bool := (48 <=? x) && (x <=? 57).

(** The digits at the start; the C [int] wraps as compiled. *)
Fixpoint digits (v : Z) (l : list Z) : Z :=
  match l with x :: r => if is_digit x then digits (i32 (v * 10 + (x - 48))) r else v | [] => v end.

Definition parse_cmd (args : list Z) : command :=
  let v := token (skip_ws args) in
  let nm := token (skip_ws (snd v)) in
  let name := fst nm in
  let verb kw := bool_decide (fst v = kw) in
  if negb (verb [115; 97; 118; 101] || verb [108; 111; 103] || verb [99; 97; 116]) then CmdUsage
  else if (lenz name =? 0) || (PFS_NAME_MAX <? lenz name) then CmdUsage
  else if verb [115; 97; 118; 101] then
    match skip_ws (snd nm) with [] => CmdUsage | tx => CmdSave name tx end
  else if verb [108; 111; 103] then CmdLog name
  else
    match skip_ws (snd nm) with
    | 64 :: q => match q with x :: _ => if is_digit x then CmdCat name (digits 0 q) else CmdUsage | [] => CmdUsage end
    | _ => CmdCat name (-1)
    end.

(** What a command did. *)
Inductive outcome : Type :=
  | Saved (rc : Z) | Logged (l : option (list (list Z * PFSD_MANIFEST))) | Catted (r : cat) | Usage.

Definition pfs_dag_cmd {D} `{Durable D} (c : conf) (ref_open : bool) (args : list Z) : io (dag D) effect outcome :=
  match parse_cmd args with
  | CmdSave name text => rc ← pfs_dag_save c ref_open name (Some text) (lenz text); ret (Saved rc)
  | CmdLog name => l ← dag_log c name; ret (Logged l)
  | CmdCat name at_seq => r ← dag_cat c name at_seq; ret (Catted r)
  | CmdUsage => ret Usage
  end.
