(* ===== verification/PfsDagFacts.v ===== *)
(** * References converge

    Merging a beacon entry is, name by name, taking the least upper bound of what
    is held and what is heard in the order (version, manifest id). So two nodes
    that have heard the same versions point every name at the same manifest,
    whatever the order and the repetition, as long as the names fit the table. *)

From stdpp Require Import list gmap.
#[local] Open Scope Z_scope.
From S2P Require Import Prelude.
From S2P Require Import Node.
From S2P Require Import Durable.
From S2P Require Import FlatDisk.
From S2P Require Import PfsBlock.
From S2P Require Import PfsFacts.
From S2P Require Import Step.
From S2P Require Import Semilattice.
From S2P Require Import PfsRepl.
From S2P Require Import PfsReplFacts.
From S2P Require Import PfsDag.

(** ** The order of versions *)

Lemma cmp_refl a : pd_id_cmp a a = 0.
Proof. induction a as [|x a IH]; [done|]. cbn. by rewrite Z.eqb_refl. Qed.
Lemma cmp_eq a b : pd_id_cmp a b = 0 -> a = b.
Proof.
  revert b. induction a as [|x a IH]; intros [|y b]; cbn; try done. destruct (Z.eqb_spec x y) as [->|Hne]; [|lia].
  intros E. f_equal. by apply IH.
Qed.
Lemma cmp_neg a b : pd_id_cmp b a = - pd_id_cmp a b.
Proof.
  revert b. induction a as [|x a IH]; intros [|y b]; cbn; try done. rewrite (Z.eqb_sym y x).
  destruct (Z.eqb_spec x y) as [->|Hne]; [apply IH|lia].
Qed.
Lemma cmp_trans a b c : 0 < pd_id_cmp b a -> 0 < pd_id_cmp c b -> 0 < pd_id_cmp c a.
Proof.
  revert b c. induction a as [|x a IH]; intros [|y b] [|z c]; cbn; try lia; try done.
  - destruct (Z.eqb_spec y x) as [->|H1], (Z.eqb_spec z x) as [->|H2].
    + intros. by apply (IH b).
    + lia.
    + destruct (Z.eqb_spec x y); lia.
    + destruct (Z.eqb_spec z y); lia.
Qed.

(** What a name points at: the version before the manifest id; empty for no
    reference. *)
Definition ver : Type := list Z.
#[export] Instance ver_join : Join ver := fun a b => if 0 <? pd_id_cmp b a then b else a.

#[export] Instance ver_join_ok : JoinOk ver.
Proof.
  assert (forall a b : ver, a ⊕ b = b ⊕ a) as Hc.
  { intros a b. unfold join, ver_join. rewrite (cmp_neg b a). destruct (Z.ltb_spec 0 (pd_id_cmp b a)), (Z.ltb_spec 0 (- pd_id_cmp b a)); try done; try lia.
    symmetry. apply cmp_eq. lia. }
  split; [|done|].
  - intros x y z. unfold join, ver_join. pose proof (cmp_neg x y). pose proof (cmp_neg y z). pose proof (cmp_neg x z).
    destruct (Z.ltb_spec 0 (pd_id_cmp z y)) as [A|A], (Z.ltb_spec 0 (pd_id_cmp y x)) as [B|B].
    + rewrite (proj2 (Z.ltb_lt _ _) A). by rewrite (proj2 (Z.ltb_lt 0 (pd_id_cmp z x)) (cmp_trans _ _ _ B A)).
    + done.
    + by rewrite ?(proj2 (Z.ltb_lt _ _) B), ?(proj2 (Z.ltb_ge _ _) A).
    + rewrite ?(proj2 (Z.ltb_ge _ _) B). destruct (Z.ltb_spec 0 (pd_id_cmp z x)) as [C|C]; [|done].
      destruct (Z.eq_dec (pd_id_cmp y x) 0) as [E|E]; [apply cmp_eq in E as ->; lia|].
      assert (0 < pd_id_cmp x y) as H3 by lia. pose proof (cmp_trans _ _ _ H3 C). lia.
  - intros x. unfold join, ver_join. by rewrite cmp_refl.
Qed.

(** ** The table, name by name *)

Definition is_for (n : list Z) (r : PFSD_REF) : bool := r_used r && bool_decide (ent_name (ent r) = n).
Definition ver_of (e : PFSD_REF_ENT) : ver := e_seq e :: e_head e.

(** What the table says of a name. *)
Definition view (n : list Z) (l : list PFSD_REF) : ver :=
  let f := first_ix (is_for n) l 0 in if f <? 0 then [] else ver_of (ent (getz l f no_ref)).

Record refs_wf (l : list PFSD_REF) : Prop := {
  rw_len : lenz l = PFS_REF_MAX;
  rw_names : forall k r, l !! k = Some r -> r_used r = true -> 1 <= lenz (ent_name (ent r)) <= PFS_NAME_MAX;
  rw_dup : forall i j r q, l !! i = Some r -> l !! j = Some q -> r_used r = true -> r_used q = true ->
    ent_name (ent r) = ent_name (ent q) -> i = j }.

Lemma find_cases n l : (first_ix (is_for n) l 0 = -1 /\ forall k r, l !! k = Some r -> r_used r = true -> ent_name (ent r) <> n) \/
  exists k r, first_ix (is_for n) l 0 = Z.of_nat k /\ l !! k = Some r /\ r_used r = true /\ ent_name (ent r) = n.
Proof.
  destruct (first_ix_spec (is_for n) l 0 ltac:(done)) as [[E Hn]|(k & r & E & Hk & Hp)].
  - left. split; [done|]. intros k r Hk Hu Hc. specialize (Hn k r Hk). unfold is_for in Hn. rewrite Hu in Hn. by apply bool_decide_eq_false in Hn.
  - right. exists k, r. unfold is_for in Hp. bools. apply bool_decide_eq_true in H0. by split_and!.
Qed.

Lemma view_none n l : (forall k r, l !! k = Some r -> r_used r = true -> ent_name (ent r) <> n) -> view n l = [].
Proof.
  intros Hno. unfold view. destruct (find_cases n l) as [[-> _]|(k & r & _ & Hk & Hu & He)]; [done|]. by destruct (Hno k r).
Qed.
Lemma view_some n l k r : refs_wf l -> l !! k = Some r -> r_used r = true -> ent_name (ent r) = n -> view n l = ver_of (ent r).
Proof.
  intros Hw Hk Hu He. unfold view. destruct (find_cases n l) as [[_ Hno]|(j & q & -> & Hj & Hq & Heq)]; [by destruct (Hno k r)|].
  assert (j = k) as -> by (apply (rw_dup l Hw j k q r); congruence). replace q with r in * by congruence.
  rewrite (proj2 (Z.ltb_ge _ _)) by lia. by rewrite (getz_nat l k r no_ref Hk).
Qed.

Lemma view_nil n l : refs_wf l -> view n l = [] -> forall k r, l !! k = Some r -> r_used r = true -> ent_name (ent r) <> n.
Proof. intros Hw E k r Hk Hu He. by rewrite (view_some n l k r Hw Hk Hu He) in E. Qed.

(** Writing a reference: over the one of the same name, or in a free slot when
    there is none. *)
Lemma view_set l k r0 r : refs_wf l -> l !! k = Some r0 -> r_used r = true -> 1 <= lenz (ent_name (ent r)) <= PFS_NAME_MAX ->
  (r_used r0 = true /\ ent_name (ent r0) = ent_name (ent r)) \/
  (r_used r0 = false /\ forall j q, l !! j = Some q -> r_used q = true -> ent_name (ent q) <> ent_name (ent r)) ->
  refs_wf (<[k := r]> l) /\
  forall n, view n (<[k := r]> l) = if bool_decide (n = ent_name (ent r)) then ver_of (ent r) else view n l.
Proof.
  intros Hw Hk Hu Hn Hold. assert (k < length l)%nat as Hlt by by eapply lookup_lt_Some.
  assert (forall j q, l !! j = Some q -> r_used q = true -> ent_name (ent q) = ent_name (ent r) -> j = k) as Honly.
  { intros j q Hj Hq He. destruct Hold as [[H1 H2]|[_ H2]]; [|by destruct (H2 j q)]. apply (rw_dup l Hw j k q r0); congruence. }
  assert (refs_wf (<[k := r]> l)) as Hw'.
  { split; [unfold lenz; rewrite length_insert; apply (rw_len l Hw)| |].
    - intros j q Hj Hq. apply list_lookup_insert_Some in Hj as [(-> & -> & _)|[_ Hj]]; [done|]. by apply (rw_names l Hw j q).
    - intros i j q q' Hi Hj Hq Hq' He. apply list_lookup_insert_Some in Hi as [(<- & <- & _)|[Hik Hi]], Hj as [(<- & <- & _)|[Hjk Hj]].
      + done.
      + destruct Hjk. symmetry. by apply (Honly j q').
      + destruct Hik. symmetry. by apply (Honly i q).
      + by apply (rw_dup l Hw i j q q'). }
  split; [done|]. intros n. case_bool_decide as He; [apply (view_some n _ k r); [done|by apply list_lookup_insert_eq|done|done]|].
  destruct (find_cases n l) as [[E Hno]|(j & q & E & Hj & Hq & Hqn)].
  - unfold view at 2. rewrite E. apply view_none. intros j q Hj Hq. apply list_lookup_insert_Some in Hj as [(_ & -> & _)|[_ Hj]]; [congruence|by apply (Hno j q)].
  - rewrite (view_some n l j q) by done. apply (view_some n _ j q); [done| |done|done].
    destruct (decide (j = k)) as [->|Hjk]; [|by rewrite list_lookup_insert_ne].
    exfalso. destruct Hold as [[H1 H2]|[H1 _]]; congruence.
Qed.

(** A slot is free while the names of the table and one more fit. *)
Lemma free_slot (l : list PFSD_REF) (n : list Z) (N : gset (list Z)) : refs_wf l -> view n l = [] -> n ∈ N -> (forall m, view m l <> [] -> m ∈ N) ->
  Z.of_nat (size N) <= PFS_REF_MAX ->
  exists k r, first_ix (fun r => negb (r_used r)) l 0 = Z.of_nat k /\ l !! k = Some r /\ r_used r = false.
Proof.
  intros Hw Hn HnN Hsub Hsz. destruct (first_ix_spec (fun r => negb (r_used r)) l 0 ltac:(done)) as [[_ Hall]|(k & r & E & Hk & Hp)].
  2: { exists k, r. split_and!; [done|done|]. by destruct (r_used r). }
  exfalso. assert (forall k r, l !! k = Some r -> r_used r = true) as Hused.
  { intros k r Hk. specialize (Hall k r Hk). by destruct (r_used r). }
  set (names := map (fun r => ent_name (ent r)) l).
  assert (NoDup (n :: names)) as Hnd.
  { apply list.NoDup_cons. split.
    - intros Hin. apply list_elem_of_fmap in Hin as (r & -> & Hr). apply list_elem_of_lookup in Hr as [k Hk].
      by apply (view_nil _ l Hw Hn k r Hk (Hused k r Hk)).
    - apply NoDup_alt. intros i j x Hi Hj. apply list_lookup_fmap_Some in Hi as (r & -> & Hr), Hj as (q & Hq & Hj).
      apply (rw_dup l Hw i j r q); eauto. }
  assert (length (n :: names) <= size N)%nat as Hle.
  { rewrite <- (size_list_to_set (C := gset (list Z)) (n :: names) Hnd). apply subseteq_size. intros x Hx. apply elem_of_list_to_set in Hx.
    apply elem_of_cons in Hx as [->|Hx]; [done|]. apply list_elem_of_fmap in Hx as (r & -> & Hr). apply list_elem_of_lookup in Hr as [k Hk].
    apply Hsub. rewrite (view_some _ l k r Hw Hk (Hused k r Hk) eq_refl). done. }
  pose proof (rw_len l Hw) as Hl. unfold lenz, PFS_REF_MAX in *. cbn [length] in Hle. unfold names in Hle. rewrite length_map in Hle. lia.
Qed.

(** ** Merging an entry *)

(** The entries a merge looks at, and what one says of a name. *)
Definition counts (e : PFSD_REF_ENT) : bool := negb ((e_nlen e =? 0) || (PFS_NAME_MAX <? e_nlen e)) && negb (e_seq e =? 0).
Definition offer (n : list Z) (e : PFSD_REF_ENT) : ver := if counts e && bool_decide (ent_name e = n) then ver_of e else [].
Definition ent_fits (e : PFSD_REF_ENT) : Prop := length (e_name e) = 16%nat /\ 0 <= e_nlen e.

Lemma name_field_name (n : list Z) : lenz n <= PFS_NAME_MAX -> take (Z.to_nat (lenz n)) (name_field n (lenz n)) = n.
Proof.
  unfold lenz, PFS_NAME_MAX, name_field. intros Hl. rewrite Nat2Z.id, (take_ge n) by lia.
  exact (take_app_length n (drop (0 + length n) (replicate 16 0))).
Qed.
Lemma name_field_length (n : list Z) : lenz n <= PFS_NAME_MAX -> length (name_field n (lenz n)) = 16%nat.
Proof.
  unfold lenz, PFS_NAME_MAX, name_field. intros Hl. rewrite Nat2Z.id, (take_ge n) by lia.
  rewrite blit_length; unfold lenz; rewrite ?length_replicate; lia.
Qed.

Section merge.
Context {D : Type} `{Dur : Durable D} (c : conf).
Implicit Types s : dag D.

Definition same_refs s s' : Prop := refs s' = refs s.
#[local] Instance same_refs_pre : PreOrder same_refs.
Proof. unfold same_refs. split; [done|]. intros x y z. congruence. Qed.

Lemma persist_refs : relates same_refs (refs_persist (D := D)).
Proof. intros s. unfold refs_persist. rewrite exec_bind. by destruct (_ || _). Qed.
Lemma below_refs {A} (m : io (repl D) PfsRepl.effect A) : relates same_refs (below m).
Proof. by intros s. Qed.

(** The slot a reference is written to. *)
Definition new_ref (name head : list Z) (seq origin : Z) : PFSD_REF :=
  Ref (Ent (name_field name (lenz name)) head seq (pk_node_v1 origin) (lenz name)) true.

Lemma ref_set_refs i name head seq origin s :
  refs (exec (ref_set i name head seq origin) s) = setz (refs s) i (new_ref name head seq origin).
Proof. unfold ref_set. rewrite exec_bind. apply persist_refs. Qed.

Lemma new_ref_name name head seq origin : lenz name <= PFS_NAME_MAX ->
  ent_name (ent (new_ref name head seq origin)) = name /\ ver_of (ent (new_ref name head seq origin)) = seq :: head.
Proof. intros Hl. split; [|done]. unfold ent_name. cbn [ent new_ref e_nlen e_name]. by apply name_field_name. Qed.

Lemma ent_name_len e : ent_fits e -> e_nlen e <= PFS_NAME_MAX -> lenz (ent_name e) = e_nlen e.
Proof. intros [Hl Hn] Hm. unfold ent_name, lenz, PFS_NAME_MAX in *. rewrite length_take, Hl. lia. Qed.

(** The version a merge installs is the larger one. *)
Lemma merge_wins e cur :
  (if e_seq cur <? e_seq e then true
   else (e_seq e =? e_seq cur) && negb (bool_decide (e_head e = e_head cur)) && (0 <? pd_id_cmp (e_head e) (e_head cur))) =
  (0 <? pd_id_cmp (ver_of e) (ver_of cur)).
Proof.
  unfold ver_of. cbn [pd_id_cmp]. destruct (Z.eqb_spec (e_seq e) (e_seq cur)) as [->|Hne].
  - rewrite Z.ltb_irrefl. cbn [andb]. case_bool_decide as E; [|done]. by rewrite E, cmp_refl.
  - cbn [andb]. destruct (Z.ltb_spec (e_seq cur) (e_seq e)); symmetry; [apply Z.ltb_lt|apply Z.ltb_ge]; lia.
Qed.

Lemma merge_view s (e : PFSD_REF_ENT) (N : gset (list Z)) : refs_wf (refs s) -> ent_fits e -> (forall m, view m (refs s) <> [] -> m ∈ N) ->
  (counts e = true -> ent_name e ∈ N) -> Z.of_nat (size N) <= PFS_REF_MAX ->
  refs_wf (refs (exec (merge_entry c e) s)) /\
  forall n, view n (refs (exec (merge_entry c e) s)) = view n (refs s) ⊕ offer n e.
Proof.
  intros Hw Hf Hsub Hin Hsz. unfold merge_entry, offer. unfold counts in *.
  destruct ((e_nlen e =? 0) || (PFS_NAME_MAX <? e_nlen e)) eqn:E1; cbn [negb andb] in *.
  { split; [done|]. intros n. unfold join, ver_join. change (exec (ret tt) s) with s. by destruct (view n (refs s)). }
  destruct (e_seq e =? 0) eqn:E2; cbn [negb andb] in *.
  { split; [done|]. intros n. unfold join, ver_join. change (exec (ret tt) s) with s. by destruct (view n (refs s)). }
  specialize (Hin eq_refl). bools. assert (lenz (ent_name e) = e_nlen e) as Hln by (apply ent_name_len; [done|lia]).
  rewrite exec_bind. change (val (get s)) with s. change (exec get s) with s. cbv zeta.
  set (f := ref_find (ent_name e) s). assert (f = first_ix (is_for (ent_name e)) (refs s) 0) as Hfix by reflexivity.
  set (r := new_ref (ent_name e) (e_head e) (e_seq e) (e_origin e)).
  destruct (new_ref_name (ent_name e) (e_head e) (e_seq e) (e_origin e)) as [Hrn Hrv]; [lia|]. fold r in Hrn, Hrv.
  set (cur := ent (ref_at f s)).
  (* either nothing happens or the slot [k] is written *)
  assert (forall k r0, refs s !! k = Some r0 -> (r_used r0 = true /\ ent_name (ent r0) = ent_name (ent r)) \/
      (r_used r0 = false /\ forall j q, refs s !! j = Some q -> r_used q = true -> ent_name (ent q) <> ent_name (ent r)) ->
    (0 <? pd_id_cmp (ver_of e) (view (ent_name e) (refs s))) = true ->
    forall s', refs s' = setz (refs s) (Z.of_nat k) r ->
    refs_wf (refs s') /\ forall n, view n (refs s') =
      view n (refs s) ⊕ (if bool_decide (ent_name e = n) then ver_of e else [])) as Hset.
  { intros k r0 Hk Hold Hgt s' ->. rewrite setz_nat.
    destruct (view_set (refs s) k r0 r Hw Hk eq_refl) as [W V]; [rewrite Hrn; unfold PFS_NAME_MAX in *; destruct Hf; lia|done|].
    split; [done|]. intros n. rewrite V, Hrn, Hrv. case_bool_decide as En; case_bool_decide as En'; try congruence; [subst n|].
    - unfold join, ver_join. by rewrite Hgt.
    - unfold join, ver_join. by destruct (view n (refs s)). }
  assert (forall i, refs (exec (ref_set i (ent_name e) (e_head e) (e_seq e) (e_origin e) ;; held ← d_has (e_head e);
      if held then ret tt else d_want c (e_head e)) s) = setz (refs s) i r) as Hexec.
  { intros i. rewrite exec_bind. rewrite exec_bind. set (s1 := exec (ref_set _ _ _ _ _) s). 
    change (exec (d_has (e_head e)) s1) with s1. transitivity (refs s1); [|apply ref_set_refs].
    destruct (val (d_has (e_head e) s1)); [done|apply below_refs]. }
  destruct (find_cases (ent_name e) (refs s)) as [[E Hno]|(k & q & E & Hk & Hu & Hq)]; rewrite <- Hfix in E.
  - rewrite E. cbn [Z.ltb Z.compare]. assert (view (ent_name e) (refs s) = []) as Hv by by apply view_none.
    destruct (free_slot (refs s) (ent_name e) N Hw Hv Hin Hsub Hsz) as (k & r0 & Ef & Hk & Hfree).
    unfold ref_alloc. rewrite Ef, (proj2 (Z.ltb_ge _ _)) by lia.
    apply (Hset k r0); [done| |by rewrite Hv|apply Hexec]. right. split; [done|]. by rewrite Hrn.
  - assert (ref_at f s = q) as Hat by (unfold ref_at; rewrite E; by apply getz_nat).
    pose proof (merge_wins e cur) as Hwin. assert (view (ent_name e) (refs s) = ver_of cur) as Hv.
    { unfold cur. rewrite Hat. by apply (view_some _ _ k q). }
    rewrite <- Hv in Hwin. rewrite (proj2 (Z.ltb_ge f 0)) by lia.
    set (hold := _ && _ && _) in *. destruct (0 <? pd_id_cmp (ver_of e) (view (ent_name e) (refs s))) eqn:Eg.
    + assert ((if e_seq cur <? e_seq e then f else if hold then f else -1) = f) as -> by (destruct (e_seq cur <? e_seq e); [done|by rewrite Hwin]).
      rewrite (proj2 (Z.ltb_ge f 0)) by lia. rewrite E.
      apply (Hset k q); [done| |done|apply Hexec]. left. split; [done|]. by rewrite Hrn.
    + assert ((if e_seq cur <? e_seq e then f else if hold then f else -1) = -1) as -> by (destruct (e_seq cur <? e_seq e); [done|by rewrite Hwin]).
      cbn [Z.ltb Z.compare]. split; [done|]. intros n. change (exec (ret tt) s) with s. case_bool_decide as En.
      * subst n. unfold join, ver_join. by rewrite Eg.
      * unfold join, ver_join. by destruct (view n (refs s)).
Qed.
End merge.

(** All the entries of [l], merged in order. *)
Definition merge_all {D} `{Durable D} (c : conf) (l : list PFSD_REF_ENT) : io (dag D) effect unit := iter l (merge_entry c).

(** What is known of a name: what the table says and what was heard. *)
Definition known {D} (n : list Z) (s : dag D) (l : list PFSD_REF_ENT) : list ver := view n (refs s) :: map (offer n) l.

Lemma join_nil_l (v : ver) : ([] : ver) ⊕ v = v.
Proof. unfold join, ver_join. by destruct v. Qed.

Lemma merge_all_view {D} `{Durable D} (c : conf) (l : list PFSD_REF_ENT) (s : dag D) (N : gset (list Z)) : refs_wf (refs s) -> Forall ent_fits l ->
  (forall m, view m (refs s) <> [] -> m ∈ N) -> Forall (fun e => counts e = true -> ent_name e ∈ N) l -> Z.of_nat (size N) <= PFS_REF_MAX ->
  refs_wf (refs (exec (merge_all c l) s)) /\ forall n, view n (refs (exec (merge_all c l) s)) = joins [] (known n s l).
Proof.
  unfold merge_all, known. revert s. induction l as [|e l IH]; intros s Hw Hf Hsub Hin Hsz.
  { split; [done|]. intros n. cbn [joins fold_left map]. by rewrite join_nil_l. }
  apply list.Forall_cons in Hf as [He Hf]. apply list.Forall_cons in Hin as [Hi Hin]. cbn [iter]. rewrite exec_bind.
  destruct (merge_view c s e N Hw He Hsub Hi Hsz) as [W V]. set (s1 := exec (merge_entry c e) s) in *.
  destruct (IH s1 W Hf) as [W' V']; [|done|done|].
  - intros m Hm. rewrite V in Hm. unfold offer in Hm. destruct (counts e) eqn:Ec; [|cbn [andb] in Hm].
    + cbn [andb] in Hm. case_bool_decide as En; [subst m; auto|]. apply Hsub. intros E0. by rewrite E0, join_nil_l in Hm.
    + apply Hsub. intros E0. by rewrite E0, join_nil_l in Hm.
  - split; [done|]. intros n. rewrite V', V. cbn [joins fold_left map]. by rewrite !join_nil_l.
Qed.

(** C8: references converge. Two nodes, whatever their tables and whatever
    entries each has merged, in any order, grouping and repetition: if they know
    the same versions of a name, they point it at the same manifest. Neither goes
    back: what a node ends with is at least what it had and at least everything
    it heard. The names both know of must fit the table. *)
Theorem refs_converge {D D'} `{Durable D} `{Durable D'} (c c' : conf) (s : dag D) (s' : dag D') (l l' : list PFSD_REF_ENT) (N : gset (list Z)) n
    (Hw : refs_wf (refs s)) (Hw' : refs_wf (refs s')) (Hf : Forall ent_fits l) (Hf' : Forall ent_fits l')
    (Hsub : forall m, view m (refs s) <> [] \/ view m (refs s') <> [] -> m ∈ N)
    (Hin : Forall (fun e => counts e = true -> ent_name e ∈ N) (l ++ l')) (Hsz : Z.of_nat (size N) <= PFS_REF_MAX)
    (Hsame : forall v, (v ∈ known n s l) <-> (v ∈ known n s' l')) :
  let t := exec (merge_all c l) s in let t' := exec (merge_all c' l') s' in
  view n (refs t) = view n (refs t') /\
  Forall (fun v => v ⊴ view n (refs t)) (known n s l).
Proof.
  apply list.Forall_app in Hin as [Hi Hi'].
  destruct (merge_all_view c l s N Hw Hf) as [_ V]; [auto|done|done|]. destruct (merge_all_view c' l' s' N Hw' Hf') as [_ V']; [auto|done|done|].
  cbv zeta. rewrite V, V'. split; [by apply joins_same|].
  apply (joins_below [] (known n s l) (joins [] (known n s l))). reflexivity.
Qed.

Definition ent_a (seq h : Z) : PFSD_REF_ENT := Ent (97 :: replicate 15 0) (replicate 32 h) seq 1 1.
Definition empty_dag : dag flat := pfs_dag_init lacking.

Lemma empty_refs_wf {D} (r : repl D) : refs_wf (refs (pfs_dag_init r)).
Proof. split; [done| |]; intros k; intros; by apply (lookup_replicate_1 16 no_ref _ k) in H as [-> _]. Qed.

Lemma empty_view {D} (r : repl D) n : view n (refs (pfs_dag_init r)) = [].
Proof. apply view_none. intros k q Hk. by apply (lookup_replicate_1 16 no_ref _ k) in Hk as [-> _]. Qed.

Lemma empty_dag_view n : view n (refs empty_dag) = [].
Proof. apply empty_view. Qed.

Example refs_converge_witness :
  let t := exec (merge_all (conf_of 2) [ent_a 1 5; ent_a 2 6; ent_a 2 7]) empty_dag in
  let t' := exec (merge_all (conf_of 3) [ent_a 2 7; ent_a 2 6; ent_a 1 5; ent_a 2 7]) empty_dag in
  view [97] (refs t) = view [97] (refs t') /\
  Forall (fun v => v ⊴ view [97] (refs t)) (known [97] empty_dag [ent_a 1 5; ent_a 2 6; ent_a 2 7]).
Proof.
  apply (refs_converge (conf_of 2) (conf_of 3) empty_dag empty_dag [ent_a 1 5; ent_a 2 6; ent_a 2 7] [ent_a 2 7; ent_a 2 6; ent_a 1 5; ent_a 2 7] {[ [97] ]} [97]).
  - apply empty_refs_wf.
  - apply empty_refs_wf.
  - repeat constructor; discriminate.
  - repeat constructor; discriminate.
  - intros m [Hm|Hm]; by rewrite empty_dag_view in Hm.
  - repeat constructor; intros _; apply elem_of_singleton; reflexivity.
  - rewrite size_singleton. discriminate.
  - intros v. unfold known. rewrite empty_dag_view. cbn [map]. set_solver.
Defined.
