(* ===== verification/PfsDagStore.v ===== *)
(** * The reference table on the disk

    refs.tab is written whole after every change and read at boot. What is read
    back is the table that was written, its used entries first; a file with one
    wrong byte is refused and the table in memory stays. *)

From stdpp Require Import list gmap.
#[local] Open Scope Z_scope.
From S2P Require Import Prelude.
From S2P Require Import Crc.
From S2P Require Import ArkLog.
From S2P Require Import ArkDisk.
From S2P Require Import Node.
From S2P Require Import Durable.
From S2P Require Import FlatDisk.
From S2P Require Import PfsBlock.
From S2P Require Import PfsFacts.
From S2P Require Import Step.
From S2P Require Import Wire.
From S2P Require Import PfsRepl.
From S2P Require Import PfsReplFacts.
From S2P Require Import PfsDag.
From S2P Require Import PfsDagFacts.

(** ** One wrong byte changes the CRC *)

#[local] Transparent ark_crc32.
Lemma crc_bits_in n i x : for_up n i (fun _ c => crc_bit c) x = for_up n i (fun _ c => crc_shift 0xEDB88420 c) x.
Proof. revert i x. induction n as [|n IH]; intros i x; [done|]. cbn [for_up]. rewrite IH. unfold crc_bit. by rewrite mask_step. Qed.
#[local] Opaque for_up.
Lemma crc_byte_loop c b : crc_byte c b = for_up 8 0 (fun _ c => crc_bit c) (Z.lxor c b).
Proof. reflexivity. Qed.
Lemma crc_byte_in c b : crc_byte c b = crc_in 0xEDB88420 c b.
Proof. rewrite crc_byte_loop, crc_in_loop. apply crc_bits_in. Qed.

Lemma ark_crc_of l : ark_crc32 l = crc_of 0xEDB88420 l.
Proof. unfold ark_crc32, crc_of. rewrite (fold_left_same _ _ l _ crc_byte_in). reflexivity. Qed.
#[local] Opaque ark_crc32.

Lemma crc_one_byte pre post b b' : Forall is_u8 (pre ++ b :: post) -> is_u8 b' ->
  ark_crc32 (pre ++ b :: post) = ark_crc32 (pre ++ b' :: post) -> b = b'.
Proof. intros Hl Hb. rewrite !ark_crc_of. by apply crc_of_one_byte. Qed.

(** ** The image *)

(** A reference as [ref_set] writes it. *)
Definition made (r : PFSD_REF) : Prop := exists name head seq origin,
  r = new_ref name head seq origin /\ 1 <= lenz name <= PFS_NAME_MAX /\ Forall is_u8 name /\ length head = 32%nat /\ Forall is_u8 head /\
  is_u32 seq /\ 0 <= origin.

Record table_ok (l : list PFSD_REF) : Prop := {
  to_wf : refs_wf l;
  to_made : forall k r, l !! k = Some r -> r_used r = true -> made r }.

Definition used_of (l : list PFSD_REF) : list PFSD_REF := List.filter r_used l.

Lemma node_v1_again o : 0 <= o -> pk_node_v1 (pk_node_v1 o) = pk_node_v1 o.
Proof.
  intros Ho. unfold pk_node_v1 at 2 3, PK_NODE_NONE. destruct (o <? 255) eqn:E; bools; [|done].
  unfold pk_node_v1, PK_NODE_NONE. rewrite u8_small by (unfold is_u8; lia). by rewrite (proj2 (Z.ltb_lt _ _) E), u8_small by (unfold is_u8; lia).
Qed.

Lemma name_field_u8 n : Forall is_u8 n -> Forall is_u8 (name_field n (lenz n)).
Proof.
  intros Hn. unfold name_field, blit. apply list.Forall_app; split; [by apply Forall_take, Forall_replicate|].
  apply list.Forall_app; split; [by apply Forall_take|]. by apply Forall_drop, Forall_replicate.
Qed.

Lemma made_ent r : made r -> length (enc_ent (ent r)) = 56%nat /\ Forall is_u8 (enc_ent (ent r)) /\ dec_ent (enc_ent (ent r)) = ent r.
Proof.
  intros (name & head & seq & origin & -> & Hn & Hnb & Hh & Hhb & Hs & Ho). unfold PFS_NAME_MAX in *.
  pose proof (name_field_length name ltac:(unfold PFS_NAME_MAX; lia)) as Hl. pose proof (node_v1_u8 origin Ho) as Hov. unfold is_u32 in Hs.
  pose proof (name_field_u8 name Hnb) as Hnf. cbn [ent new_ref]. set (nf := name_field _ _) in *. clearbody nf. unfold enc_ent. cbn [e_name e_head e_seq e_origin e_nlen]. split_and!.
  - rewrite !length_app, le_length, Hl, Hh. done.
  - repeat (apply list.Forall_app; split); auto with machine.
    repeat (apply list.Forall_cons; split); try done; unfold is_u8; lia.
  - unfold dec_ent. set (x := nf ++ _).
    assert (bytes_at 0 16 x = nf) as -> by (unfold x; fields).
    assert (bytes_at 16 32 x = head) as -> by (unfold x; fields).
    assert (num_at 48 4 x = seq) as -> by (unfold x; fields).
    assert (bytes_at 52 4 x = [pk_node_v1 origin; lenz name; 0; 0]) as Htail by (unfold x; fields).
    assert (forall i, (i < 4)%nat -> getz x (Z.of_nat (52 + i)) 0 = getz (bytes_at 52 4 x) (Z.of_nat i) 0) as Hg.
    { intros i Hi. unfold getz. rewrite !(proj2 (Z.ltb_ge _ 0)), !Nat2Z.id by lia. unfold bytes_at. rewrite !nth_lookup, lookup_take_lt, lookup_drop by lia. done. }
    assert (getz x 52 0 = pk_node_v1 origin) as -> by (change 52 with (Z.of_nat (52 + 0)); rewrite (Hg 0%nat ltac:(lia)), Htail; reflexivity).
    assert (getz x 53 0 = lenz name) as -> by (change 53 with (Z.of_nat (52 + 1)); rewrite (Hg 1%nat ltac:(lia)), Htail; reflexivity). done.
Qed.

Lemma used_made l : table_ok l -> Forall made (used_of l).
Proof.
  intros Hok. apply list.Forall_forall. intros r Hin. apply list_elem_of_In, List.filter_In in Hin as [Hin Hu].
  apply list_elem_of_In, list_elem_of_lookup in Hin as [k Hk]. by apply (to_made l Hok k).
Qed.

Lemma used_count l : table_ok l -> lenz (used_of l) <= PFS_REF_MAX.
Proof. intros Hok. rewrite <- (rw_len l (to_wf l Hok)). unfold lenz, used_of. pose proof (List.filter_length_le r_used l). lia. Qed.

Lemma ents_image us : Forall made us ->
  length (concat (map (fun r => enc_ent (ent r)) us)) = (56 * length us)%nat /\ Forall is_u8 (concat (map (fun r => enc_ent (ent r)) us)).
Proof.
  induction 1 as [|r us Hr _ [IH1 IH2]]; [by split; [|constructor]|]. destruct (made_ent r Hr) as (L & B & _). cbn [map concat].
  split; [rewrite length_app, IH1, L; cbn [length]; lia|]. by apply list.Forall_app.
Qed.

Lemma body_facts l : table_ok l ->
  length (reftab_body l) = (4 + 56 * length (used_of l))%nat /\ Forall is_u8 (reftab_body l) /\
  length (reftab_image l) = (12 + 56 * length (used_of l))%nat /\ Forall is_u8 (reftab_image l).
Proof.
  intros Hok. destruct (ents_image (used_of l) (used_made l Hok)) as [L B].
  assert (length (reftab_body l) = (4 + 56 * length (used_of l))%nat) as Hl.
  { unfold reftab_body. rewrite length_app, le_length. fold (used_of l). by rewrite L. }
  assert (Forall is_u8 (reftab_body l)) as Hb by (unfold reftab_body; apply list.Forall_app; split; [auto with machine|done]).
  split_and!; [done|done| |].
  - unfold reftab_image. rewrite !length_app, !le_length, Hl. lia.
  - unfold reftab_image. repeat (apply list.Forall_app; split); auto with machine.
Qed.

Lemma image_fields l : table_ok l ->
  num_at 0 4 (reftab_image l) = PFSD_REFTAB_MAGIC /\ num_at 4 4 (reftab_image l) = ark_crc32 (reftab_body l) /\
  num_at 8 4 (reftab_image l) = lenz (used_of l) /\ bytes_at 8 (Z.to_nat (4 + lenz (used_of l) * ENT_SIZE)) (reftab_image l) = reftab_body l.
Proof.
  intros Hok. destruct (body_facts l Hok) as (L & B & _ & _). pose proof (crc32_range _ B) as Hc. pose proof (used_count l Hok) as Hu.
  unfold is_u32, PFS_REF_MAX in *. pose proof (lenz_nonneg (used_of l)). unfold reftab_image. set (crc := ark_crc32 _) in *. clearbody crc. split_and!.
  - fields.
  - fields.
  - unfold reftab_body. fold (used_of l). fields.
  - unfold ENT_SIZE, lenz in *. replace (Z.to_nat _) with (length (reftab_body l)) by lia.
    rewrite at_skip by (rewrite le_length; lia). rewrite le_length. cbn [Nat.sub].
    rewrite at_skip by (rewrite le_length; lia). rewrite le_length. cbn [Nat.sub]. by apply at_all.
Qed.

(** ** A wrong byte is refused *)

Lemma le_num_inj (k : nat) (a b : list Z) : Forall is_u8 a -> Forall is_u8 b -> length a = length b -> of_le a = of_le b -> a = b.
Proof. intros Ha Hb Hl E. rewrite <- (le_of_le a Ha), <- (le_of_le b Hb), E, Hl. done. Qed.

(** A field not touched by the change, and one that was. *)
Lemma at_insert_out off n i x (d : list Z) : (i < off \/ off + n <= i)%nat -> bytes_at off n (<[i := x]> d) = bytes_at off n d.
Proof.
  intros Hi. unfold bytes_at. apply list_eq. intros k. destruct (decide (k < n)%nat) as [Hk|Hk].
  - rewrite !lookup_take_lt by done. rewrite !lookup_drop. by rewrite list_lookup_insert_ne by lia.
  - by rewrite !lookup_take_ge by lia.
Qed.
Lemma at_insert_in off n i x y (d : list Z) : (off <= i < off + n)%nat -> d !! i = Some y -> x <> y ->
  bytes_at off n (<[i := x]> d) <> bytes_at off n d.
Proof.
  intros Hi Hd Hne E. apply (f_equal (fun l => l !! (i - off)%nat)) in E. unfold bytes_at in E.
  rewrite !lookup_take_lt, !lookup_drop in E by lia. replace (off + (i - off))%nat with i in E by lia.
  rewrite list_lookup_insert_eq in E by (by eapply lookup_lt_Some). congruence.
Qed.

Lemma num_insert_in off n i x y (d : list Z) : Forall is_u8 d -> is_u8 x -> (off <= i < off + n)%nat -> d !! i = Some y -> x <> y ->
  num_at off n (<[i := x]> d) <> num_at off n d.
Proof.
  intros Hd Hx Hi Hl Hne E. apply (at_insert_in off n i x y d Hi Hl Hne). unfold num_at in E.
  apply (le_num_inj n) in E; [done| | |].
  - apply Forall_take, Forall_drop. by apply Forall_insert.
  - by apply Forall_take, Forall_drop.
  - unfold bytes_at. by rewrite !length_take, !length_drop, length_insert.
Qed.

(** A torn reference table is refused. Let the file read back differ from
    the table that was written in one byte, anywhere but in its count of
    entries: the restore leaves everything as it was, whatever is in memory. *)
Theorem torn_refused {D} `{Durable D} (l : list PFSD_REF) (s : dag D) (i : nat) x y (Hok : table_ok l)
    (Hi : (i < 8 \/ 12 <= i)%nat) (Hx : is_u8 x) (Hy : reftab_image l !! i = Some y) (Hne : x <> y)
    (Hread : pfs_dur_read PFSD_REFTAB_FILE (disk (tab s)) = Some (<[i := x]> (reftab_image l))) :
  pfs_dag_restore s = (tt, s, []).
Proof.
  destruct (body_facts l Hok) as (Lb & Bb & Li & Bi). destruct (image_fields l Hok) as (F1 & F2 & F3 & F4).
  pose proof (used_count l Hok) as Hu. pose proof (lenz_nonneg (used_of l)) as Hnn.
  assert (i < length (reftab_image l))%nat as Hlt by by eapply lookup_lt_Some.
  unfold pfs_dag_restore. rewrite bind_eq. change (val (get s)) with s. change (exec get s) with s. change (calls (get s)) with (@nil effect).
  destruct (negb (pfs_dur_active (disk (tab s)))); [done|]. rewrite Hread.
  set (img := <[i := x]> (reftab_image l)) in *. assert (length img = length (reftab_image l)) as Hlen by apply length_insert.
  unfold HDR_SIZE, PFS_REF_MAX, ENT_SIZE in *.
  assert (take (Z.to_nat (12 + 16 * 56)) img = img) as -> by (apply take_ge; unfold lenz in *; lia).
  assert (num_at 8 4 img = lenz (used_of l)) as -> by (unfold img, num_at; rewrite at_insert_out by lia; exact F3).
  destruct (lenz img <? 12); [done|]. destruct (decide (i < 4)%nat) as [H4|H4].
  { assert (num_at 0 4 img <> PFSD_REFTAB_MAGIC) as Hm by (rewrite <- F1; apply (num_insert_in 0 4 i x y); done || lia).
    by rewrite (proj2 (Z.eqb_neq _ _) Hm). }
  destruct (negb (num_at 0 4 img =? PFSD_REFTAB_MAGIC)); [done|]. destruct (16 <? lenz (used_of l)); [done|].
  destruct (lenz img <? 12 + lenz (used_of l) * 56); [done|].
  assert (ark_crc32 (bytes_at 8 (Z.to_nat (4 + lenz (used_of l) * 56)) img) <> num_at 4 4 img) as Hcrc; [|by rewrite (proj2 (Z.eqb_neq _ _) Hcrc)].
  destruct (decide (i < 8)%nat) as [H8|H8].
  - unfold img at 1. rewrite at_insert_out by lia. rewrite F4, <- F2. symmetry in F2. intros E. symmetry in E. revert E.
    apply (num_insert_in 4 4 i x y); done || lia.
  - assert (num_at 4 4 img = ark_crc32 (reftab_body l)) as -> by (unfold img, num_at; rewrite at_insert_out by lia; exact F2).
    assert (reftab_body l !! (i - 8)%nat = Some y) as Hyb.
    { rewrite <- F4. unfold bytes_at. rewrite lookup_take_lt by (unfold lenz in *; lia). rewrite lookup_drop. by replace (8 + (i - 8))%nat with i by lia. }
    assert (bytes_at 8 (Z.to_nat (4 + lenz (used_of l) * 56)) img = <[(i - 8)%nat := x]> (reftab_body l)) as ->.
    { rewrite <- F4. unfold bytes_at, img. apply list_eq. intros k.
      destruct (decide (k < Z.to_nat (4 + lenz (used_of l) * 56))%nat) as [Hk|Hk].
      - rewrite lookup_take_lt by done. rewrite lookup_drop. destruct (decide (k = i - 8)%nat) as [->|Hki].
        + replace (8 + (i - 8))%nat with i by lia. rewrite !list_lookup_insert_eq; [done| |done]. rewrite length_take, length_drop. lia.
        + rewrite !list_lookup_insert_ne by lia. by rewrite lookup_take_lt, lookup_drop by done.
      - rewrite lookup_take_ge by lia. symmetry. apply lookup_ge_None. rewrite length_insert, length_take. lia. }
    destruct (list_elem_of_split_length _ _ _ Hyb) as (pre & post & Eb & Hpre). rewrite Eb in Bb |- *.
    rewrite Hpre, insert_app_r_alt, Nat.sub_diag by lia. cbn [insert list_insert]. intros E. symmetry in E. apply crc_one_byte in E; [congruence|done|done].
Qed.

(** ** What is written is read back *)

Lemma concat_at us i u : Forall made us -> us !! i = Some u ->
  bytes_at (56 * i) 56 (concat (map (fun r => enc_ent (ent r)) us)) = enc_ent (ent u).
Proof.
  intros Hm. revert i. induction Hm as [|r us Hr _ IH]; intros i Hi; [done|]. destruct (made_ent r Hr) as (L & _ & _). cbn [map concat].
  destruct i as [|i]; cbn in Hi.
  - injection Hi as ->. rewrite Nat.mul_0_r. by apply at_hit.
  - rewrite at_skip by lia. rewrite L. replace (56 * S i - 56)%nat with (56 * i)%nat by lia. by apply IH.
Qed.

Lemma table_ents_image l : table_ok l -> table_ents (reftab_image l) (length (used_of l)) = map ent (used_of l).
Proof.
  intros Hok. pose proof (used_made l Hok) as Hm. unfold table_ents. apply list_eq. intros i.
  rewrite (list_lookup_fmap ent). destruct (used_of l !! i) as [u|] eqn:Hu.
  - assert (i < length (used_of l))%nat as Hlt by by eapply lookup_lt_Some.
    assert (map (fun i => dec_ent (bytes_at (12 + 56 * i) 56 (reftab_image l))) (seq 0 (length (used_of l))) !! i =
      Some (dec_ent (bytes_at (12 + 56 * i) 56 (reftab_image l)))) as ->.
    { apply (proj2 (list_lookup_fmap_Some _ _ _ _)). exists i. split; [done|]. by apply lookup_seq. }
    cbn [fmap option_fmap option_map]. f_equal. unfold reftab_image, reftab_body. fold (used_of l).
    rewrite at_skip by (rewrite le_length; lia). rewrite le_length. rewrite at_skip by (rewrite le_length; lia). rewrite le_length.
    rewrite at_skip by (rewrite le_length; lia). rewrite le_length. replace (12 + 56 * i - 4 - 4 - 4)%nat with (56 * i)%nat by lia.
    rewrite (concat_at _ i u Hm Hu). apply (made_ent u). rewrite list.Forall_lookup in Hm. by apply (Hm i).
  - apply lookup_ge_None. rewrite length_map, length_seq. by apply lookup_ge_None.
Qed.

Lemma made_again r : made r -> r_used r = true /\ 1 <= lenz (ent_name (ent r)) <= PFS_NAME_MAX /\ e_nlen (ent r) = lenz (ent_name (ent r)) /\
  new_ref (ent_name (ent r)) (e_head (ent r)) (e_seq (ent r)) (e_origin (ent r)) = r.
Proof.
  intros (name & head & seq & origin & -> & Hn & _ & _ & _ & _ & Ho). destruct (new_ref_name name head seq origin) as [E _]; [lia|].
  rewrite E. do 3 (split; [done|]).
  change (Ref (Ent (name_field name (lenz name)) head seq (pk_node_v1 (pk_node_v1 origin)) (lenz name)) true = new_ref name head seq origin).
  by rewrite node_v1_again.
Qed.

Section restore.
Context {D : Type} `{Dur : Durable D}.
Implicit Types s : dag D.

Definition names_of (l : list PFSD_REF) : list (list Z) := map (fun r => ent_name (ent r)) l.

Lemma restore_one r done m s : made r -> refs s = done ++ replicate (S m) no_ref -> Forall (fun q => r_used q = true) done ->
  (ent_name (ent r) ∉ names_of done) -> dag_loading s = true ->
  restore_ent (ent r) s = (false, with_refs ((done ++ [r]) ++ replicate m no_ref) s, []).
Proof.
  intros Hr Hs Hd Hn Hl. destruct (made_again r Hr) as (_ & Hlen & Hnl & Hnew). unfold restore_ent, PFS_NAME_MAX in *.
  rewrite Hnl, (proj2 (Z.eqb_neq _ _)), (proj2 (Z.ltb_ge _ _)) by lia. cbn [orb]. rewrite bind_eq. change (val (get s)) with s. change (exec get s) with s.
  cbv zeta. assert (ref_find (ent_name (ent r)) s = -1) as ->.
  { unfold ref_find. rewrite Hs. destruct (first_ix_spec (fun q => r_used q && bool_decide (ent_name (ent q) = ent_name (ent r))) (done ++ replicate (S m) no_ref) 0 ltac:(done))
      as [[E _]|(k & q & _ & Hk & Hq)]; [done|exfalso]. bools. apply bool_decide_eq_true in H0. apply lookup_app_Some in Hk as [Hk|[_ Hk]].
    - apply Hn. unfold names_of. apply list_elem_of_fmap. exists q. split; [done|]. by apply list_elem_of_lookup_2 with k.
    - apply lookup_replicate_1 in Hk as [-> _]. done. }
  assert (ref_alloc s = lenz done) as Ha.
  { unfold ref_alloc. rewrite Hs. clear -Hd. cut (forall i, first_ix (fun r => negb (r_used r)) (done ++ replicate (S m) no_ref) i = i + lenz done).
    { intros Hc. by rewrite Hc. }
    induction Hd as [|q done Hq _ IH]; intros i; cbn [app replicate first_ix]; [unfold lenz; cbn; lia|]. rewrite Hq. cbn [negb]. cbn [replicate] in IH. rewrite IH. unfold lenz. cbn [length]. lia. }
  cbn [Z.ltb Z.compare]. rewrite Ha, (proj2 (Z.ltb_ge _ _)) by (unfold lenz; lia).
  assert (ref_set (lenz done) (ent_name (ent r)) (e_head (ent r)) (e_seq (ent r)) (e_origin (ent r)) s =
    (tt, with_refs ((done ++ [r]) ++ replicate m no_ref) s, [])) as Hset; [|by rewrite (bind_ret _ _ s _ tt Hset)].
  unfold ref_set. fold (new_ref (ent_name (ent r)) (e_head (ent r)) (e_seq (ent r)) (e_origin (ent r))). rewrite Hnew.
  set (s1 := with_refs ((done ++ [r]) ++ replicate m no_ref) s).
  rewrite (bind_ret (modify _) _ s s1 tt).
  - unfold refs_persist. rewrite bind_eq. change (val (get s1)) with s1. change (exec get s1) with s1. change (dag_loading s1) with (dag_loading s). by rewrite Hl.
  - unfold modify. f_equal. f_equal. unfold s1. f_equal. rewrite Hs. unfold lenz. rewrite setz_nat.
    rewrite insert_app_r_alt, Nat.sub_diag by lia. cbn [replicate insert list_insert]. by rewrite <- app_assoc.
Qed.

Lemma restore_list us done m s : Forall made us -> refs s = done ++ replicate m no_ref -> (length us <= m)%nat ->
  Forall (fun q => r_used q = true) done -> NoDup (names_of (done ++ us)) -> dag_loading s = true ->
  restore_ents (map ent us) s = (tt, with_refs (done ++ us ++ replicate (m - length us) no_ref) s, []).
Proof.
  intros Hm. revert done m s. induction Hm as [|r us Hr _ IH]; intros done m s Hs Hle Hd Hnd Hl.
  - cbn [map restore_ents]. rewrite Nat.sub_0_r. cbn [app]. destruct s. cbn in Hs. by subst.
  - destruct m as [|m]; [cbn in Hle; lia|]. cbn [map restore_ents].
    rewrite (bind_ret _ _ s (with_refs ((done ++ [r]) ++ replicate m no_ref) s) false).
    2: { apply restore_one; try done. unfold names_of in *. rewrite map_app in Hnd. apply list.NoDup_app in Hnd as (_ & Hnd & _).
         intros Hin. apply (Hnd _ Hin). left. }
    cbv iota. rewrite IH with (done := done ++ [r]) (m := m); try done.
    + f_equal. f_equal. unfold with_refs. cbn [net dag_loading ref_seq last_ref_seq beacon_rr since_beacon length Nat.sub]. by rewrite <- app_assoc.
    + cbn in Hle. lia.
    + apply list.Forall_app. split; [done|]. apply list.Forall_singleton. by apply made_again.
    + by rewrite <- app_assoc.
Qed.
End restore.

Lemma used_names l : refs_wf l -> NoDup (names_of (used_of l)).
Proof.
  intros Hw. pose proof (rw_dup l Hw) as Hd. clear Hw. unfold names_of, used_of. induction l as [|r l IH]; [constructor|].
  assert (NoDup (map (fun r => ent_name (ent r)) (List.filter r_used l))) as Hl.
  { apply IH. intros i j q q' Hi Hj Hq Hq' E. assert (S i = S j) as HS by by apply (Hd (S i) (S j) q q'). lia. }
  cbn [List.filter]. destruct (r_used r) eqn:Er; [|done]. cbn [map]. apply list.NoDup_cons. split; [|done].
  intros Hin. apply list_elem_of_fmap in Hin as (q & E & Hq). apply list_elem_of_In, List.filter_In in Hq as [Hq Hqu].
  apply list_elem_of_In, list_elem_of_lookup in Hq as [k Hk]. assert (0%nat = S k) by by apply (Hd 0%nat (S k) r q). lia.
Qed.

(** The used entries of a table, moved to its front, say the same of every
    name. *)
Lemma compact_view l m n : refs_wf l -> refs_wf (used_of l ++ replicate m no_ref) -> view n (used_of l ++ replicate m no_ref) = view n l.
Proof.
  intros Hw Hw'. destruct (find_cases n l) as [[E Hno]|(k & r & E & Hk & Hu & Hn)].
  - rewrite (view_none n l Hno). apply view_none. intros k r Hk Hu. apply lookup_app_Some in Hk as [Hk|[_ Hk]].
    + apply list_elem_of_lookup_2, list_elem_of_In, List.filter_In in Hk as [Hk _]. apply list_elem_of_In, list_elem_of_lookup in Hk as [j Hj]. by apply (Hno j).
    + by apply lookup_replicate_1 in Hk as [-> _].
  - rewrite (view_some n l k r) by done. assert (r ∈ used_of l) as Hin.
    { apply list_elem_of_In, List.filter_In. split; [|done]. apply list_elem_of_In. by apply list_elem_of_lookup_2 with k. }
    apply list_elem_of_lookup in Hin as [j Hj]. apply (view_some n _ j r); [done| |done|done]. by apply lookup_app_l_Some.
Qed.

(** Used entries in front, then free ones, are a table. *)
Lemma compact_wf l : refs_wf l -> refs_wf (used_of l ++ replicate (16 - length (used_of l)) no_ref).
Proof.
  intros Hw. pose proof (rw_len l Hw) as Hlen. pose proof (List.filter_length_le r_used l) as Hle. fold (used_of l) in Hle.
  assert (forall k r, (used_of l ++ replicate (16 - length (used_of l)) no_ref) !! k = Some r -> r_used r = true -> used_of l !! k = Some r) as Hin.
  { intros k r Hk Hu. apply lookup_app_Some in Hk as [?|[_ Hk]]; [done|]. by apply lookup_replicate_1 in Hk as [-> _]. }
  unfold lenz, PFS_REF_MAX in *. split.
  - unfold lenz, PFS_REF_MAX. rewrite length_app, length_replicate. lia.
  - intros k r Hk Hu. apply (Hin k r) in Hk; [|done]. apply list_elem_of_lookup_2, list_elem_of_In, List.filter_In in Hk as [Hk _].
    apply list_elem_of_In, list_elem_of_lookup in Hk as [j Hj]. by apply (rw_names l Hw j).
  - intros i j r q Hi Hj Hr Hq E. apply (Hin i r) in Hi; [|done]. apply (Hin j q) in Hj; [|done].
    pose proof (used_names l Hw) as Hnd. unfold names_of in Hnd. rewrite NoDup_alt in Hnd. apply (Hnd i j (ent_name (ent r))).
    + apply list_lookup_fmap_Some. by exists r.
    + apply list_lookup_fmap_Some. exists q. by rewrite E.
Qed.

(** The reference table survives a reboot. Let the write of refs.tab be
    accepted; a node that boots with that disk and an empty table ends with the
    same references, in the same order, and every name points where it did;
    nothing else changes and nothing is sent. *)
Theorem reftab_roundtrip {D} `{DurableOk D} (s b : dag D) (Hok : table_ok (refs s)) (Hdur : dur_ok (disk (tab s)))
    (Hact : pfs_dur_active (disk (tab s)) = true) (Hload : dag_loading s = false)
    (Hwrite : fst (pfs_dur_write PFSD_REFTAB_FILE (reftab_image (refs s)) (disk (tab s))) = true)
    (Hboot : refs b = replicate 16 no_ref) (Hdisk : disk (tab b) = disk (tab (exec refs_persist s))) :
  exists l, pfs_dag_restore b = (tt, with_dag_loading false (with_refs l b), []) /\
    l = used_of (refs s) ++ replicate (16 - length (used_of (refs s))) no_ref /\
    forall n, view n l = view n (refs s).
Proof.
  pose proof (to_wf _ Hok) as Hw. pose proof (used_count _ Hok) as Hu. destruct (body_facts _ Hok) as (_ & _ & Li & _).
  destruct (image_fields _ Hok) as (F1 & F2 & F3 & F4). pose proof (lenz_nonneg (used_of (refs s))) as Hnn. unfold PFS_REF_MAX in *.
  set (img := reftab_image (refs s)) in *. assert (disk (tab b) = snd (pfs_dur_write PFSD_REFTAB_FILE img (disk (tab s)))) as Hd.
  { rewrite Hdisk. unfold refs_persist. rewrite exec_bind. change (val (get s)) with s. change (exec get s) with s. by rewrite Hload, Hact. }
  destruct (dur_write_modes PFSD_REFTAB_FILE img (disk (tab s))) as [_ Hm].
  assert (pfs_dur_read PFSD_REFTAB_FILE (disk (tab b)) = Some img) as Hread.
  { rewrite Hd. apply dur_write_back; [done|done|reflexivity| |done]. unfold lenz, PFS_BLOCK_MAX in *. lia. }
  exists (used_of (refs s) ++ replicate (16 - length (used_of (refs s))) no_ref). split; [|split; [done|intros n; by apply compact_view, compact_wf]].
  unfold pfs_dag_restore. rewrite (bind_ret get _ b b b eq_refl). unfold HDR_SIZE, ENT_SIZE, PFS_REF_MAX.
  assert (pfs_dur_active (disk (tab b)) = true) as Hactb by (by rewrite Hd, Hm). rewrite Hactb. cbn [negb]. rewrite Hread.
  assert (take (Z.to_nat (12 + 16 * 56)) img = img) as -> by (apply take_ge; unfold lenz in *; lia). cbv zeta.
  rewrite F3, F1, F2. rewrite (proj2 (Z.ltb_ge (lenz img) 12)) by (unfold lenz in *; lia). rewrite Z.eqb_refl. cbn [negb].
  rewrite (proj2 (Z.ltb_ge 16 _)) by lia. rewrite (proj2 (Z.ltb_ge (lenz img) _)) by (unfold lenz in *; lia).
  unfold ENT_SIZE in F4. rewrite F4, Z.eqb_refl. cbn [negb].
  set (s1 := with_dag_loading true b). rewrite (bind_ret (modify (with_dag_loading true)) _ b s1 tt eq_refl).
  replace (Z.to_nat (lenz (used_of (refs s)))) with (length (used_of (refs s))) by (unfold lenz; lia). unfold img. rewrite (table_ents_image _ Hok).
  rewrite (bind_ret _ _ s1 _ tt (restore_list (used_of (refs s)) [] 16 s1 (used_made _ Hok) Hboot ltac:(unfold lenz in *; lia) ltac:(constructor) (used_names _ Hw) eq_refl)).
  reflexivity.
Qed.

Definition named : PFSD_REF := new_ref [97] (replicate 32 5) 2 1.
Definition named_dag : dag flat := with_refs (<[0%nat := named]> (replicate 16 no_ref)) empty_dag.
Definition rebooted : dag flat := with_net (net (exec refs_persist named_dag)) empty_dag.

Lemma named_ok : table_ok (refs named_dag).
Proof.
  destruct (view_set (replicate 16 no_ref) 0 no_ref named (empty_refs_wf lacking) eq_refl eq_refl) as [W _].
  - split; discriminate.
  - right. split; [done|]. intros j q Hq. by apply lookup_replicate_1 in Hq as [-> _].
  - split; [done|]. intros k r Hk Hu. apply list_lookup_insert_Some in Hk as [(_ & <- & _)|[_ Hk]]; [|by apply lookup_replicate_1 in Hk as [-> _]].
    exists [97], (replicate 32 5), 2, 1. split; [done|]. split; [split; discriminate|]. split; [by apply list.Forall_singleton|].
    split; [done|]. split; [by apply Forall_replicate|]. done.
Qed.

Example reftab_roundtrip_witness :
  exists l, pfs_dag_restore rebooted = (tt, with_dag_loading false (with_refs l rebooted), []) /\
    l = used_of (refs named_dag) ++ replicate (16 - length (used_of (refs named_dag))) no_ref /\
    forall n, view n l = view n (refs named_dag).
Proof.
  apply (reftab_roundtrip named_dag rebooted named_ok); [exact I|reflexivity|reflexivity| |reflexivity|reflexivity].
  vm_compute. reflexivity.
Defined.

(** A disk that holds the table of [named_dag] with its first byte wrong, and
    with a byte of the head wrong. *)
Definition torn_disk (i : nat) (x : Z) : flat :=
  Flat (Some [47; 100]) false (<[PFSD_REFTAB_FILE := File (<[i := x]> (reftab_image (refs named_dag))) true]> ∅) [].
Definition torn_dag (i : nat) (x : Z) : dag flat := pfs_dag_init (pfs_repl_init (start (torn_disk i x) false)).

Example torn_refused_witness : pfs_dag_restore (torn_dag 28 250) = (tt, torn_dag 28 250, []).
Proof.
  apply (torn_refused (refs named_dag) (torn_dag 28 250) 28 250 5 named_ok).
  - right. lia.
  - done.
  - vm_compute. reflexivity.
  - discriminate.
  - vm_compute. reflexivity.
Defined.
