(* ===== verification/PfsDagVersions.v ===== *)
(** * Saving never destroys the past

    What a save stores is what a read of the name, or of the version, returns;
    every version that could be read before can be read after, until the chain is
    longer than the walk; versions of other names stay. The store behind is the
    directory of files or nothing; a hypothesis says that the blocks in play do
    not collide under the hash. *)

From stdpp Require Import list gmap.
#[local] Open Scope Z_scope.
From S2P Require Import Prelude.
From S2P Require Import Sha256.
From S2P Require Import Node.
From S2P Require Import Durable.
From S2P Require Import FlatDisk.
From S2P Require Import PfsBlock.
From S2P Require Import PfsFacts.
From S2P Require Import Step.
From S2P Require Import Wire.
From S2P Require Import PfsRepl.
From S2P Require Import PfsReplFacts.
From S2P Require Import PfsDag.
From S2P Require Import PfsDagFacts.
From S2P Require Import PfsDagStore.

(** ** The block an id names *)

Section blocks.
Context {D : Type} `{Dur : Durable D} `{Ok : !DurableOk D}.
Implicit Types s : store D.

Definition block_at s (id : list Z) : option (list Z) :=
  let g := pfs_get id PFS_BLOCK_MAX s in if fst g <? 0 then None else Some (snd g).

(** A store this development's reads are about: sound, past its boot, the log
    not selected. *)
Record live s : Prop := { l_good : good s; l_load : pfs_loading s = false; l_ark : pfs_ark_active (disk s) = false }.

Lemma delivered_all b : lenz b <= PFS_BLOCK_MAX -> delivered b PFS_BLOCK_MAX = (lenz b, b).
Proof. intros Hb. unfold delivered. rewrite Z.min_l by done. by rewrite take_ge by (unfold lenz; lia). Qed.

Lemma notfound_ne (b b' : list Z) : (PFS_E_NOTFOUND, []) <> (lenz b, b').
Proof. intros [= E _]. pose proof (lenz_nonneg b). unfold PFS_E_NOTFOUND in *. lia. Qed.

Lemma block_at_get s id b : live s -> block_at s id = Some b ->
  (forall n, pfs_get id n s = delivered b n) /\ pfs_has id s = true /\ lenz b <= PFS_BLOCK_MAX /\ sha256 b = id.
Proof.
  intros [Hg _ Hark]. pose proof (proj1 (g_sound _ Hg)) as Hw. unfold block_at. 
  destruct (get_cases id PFS_BLOCK_MAX s Hw) as [->|(b0 & E & Hsha)]; [done|].
  pose proof (get_len id PFS_BLOCK_MAX s Hw) as Hl. rewrite E in *. cbn [fst delivered] in Hl. rewrite (delivered_all b0 Hl). cbn [fst snd].
  rewrite (proj2 (Z.ltb_ge _ _)) by apply lenz_nonneg. intros [= <-].
  assert (forall n, pfs_get id n s = delivered b0 n) as Hget.
  { intros n. revert E. unfold pfs_get. rewrite Hark. destruct (find_slot_spec id s) as [[-> _]|(k & x & -> & Hk & Hu & Hid)].
    - cbn [Z.leb Z.compare]. destruct (pfs_flat_evicts (disk s)); [|by intros ?%notfound_ne]. unfold check_block.
      destruct (pfs_dur_read _ _) as [b1|]; [|by intros ?%notfound_ne]. destruct (_ && _) eqn:Eb; [|by intros ?%notfound_ne]. bools.
      rewrite (delivered_all b1), (delivered_all b0) by done. by intros [= _ ->].
    - rewrite (proj2 (Z.leb_le _ _)), (slot_lookup s k x Hk) by lia. destruct (wf_slots s Hw k x Hk Hu) as [_ Hd].
      rewrite (delivered_all (data x)), (delivered_all b0) by done. by intros [= _ ->]. }
  split_and!; try done. unfold pfs_has. rewrite Hget. cbn [delivered fst].
  destruct (find_slot_spec id s) as [[Ef _]|(k & x & Ef & _)]; rewrite Ef.
  - cbn [Z.ltb Z.leb Z.compare andb]. assert (pfs_flat_evicts (disk s) = true) as ->.
    { specialize (Hget 0). revert Hget. unfold pfs_get. rewrite Ef, Hark. cbn [Z.leb Z.compare]. destruct (pfs_flat_evicts (disk s)); [done|].
      by intros ?%notfound_ne. }
    cbn [andb]. by rewrite (proj2 (Z.leb_le _ _)) by apply lenz_nonneg.
  - rewrite (proj2 (Z.ltb_ge (Z.of_nat k) 0)) by lia. cbn [andb]. by rewrite (proj2 (Z.leb_le 0 (Z.of_nat k))) by lia.
Qed.

(** The blocks in play: [W] holds of everything the store has. *)
Variable W : list Z -> Prop.
Record stored s : Prop := {
  st_slots : forall k x, pfs_table s !! k = Some x -> used x = true -> W (data x);
  st_disk : forall b, pfs_dur_read (id_to_hex (sha256 b)) (disk s) = Some b -> W b }.

Lemma block_at_in s id b : live s -> stored s -> block_at s id = Some b -> W b.
Proof.
  intros Hl Hs Hb. destruct (block_at_get s id b Hl Hb) as (Hget & _ & Hlen & Hsha). pose proof (proj1 (g_sound _ (l_good _ Hl))) as Hw.
  specialize (Hget PFS_BLOCK_MAX). rewrite (delivered_all b Hlen) in Hget. revert Hget. unfold pfs_get. rewrite (l_ark _ Hl).
  destruct (find_slot_spec id s) as [[-> _]|(k & x & -> & Hk & Hu & Hid)].
  - cbn [Z.leb Z.compare]. destruct (pfs_flat_evicts (disk s)); [|by intros ?%notfound_ne]. unfold check_block.
    destruct (pfs_dur_read (id_to_hex id) (disk s)) as [b1|] eqn:Er; [|by intros ?%notfound_ne]. destruct (_ && _) eqn:Eb; [|by intros ?%notfound_ne]. bools.
    rewrite (delivered_all b1) by done. intros [= _ ->]. apply (st_disk s Hs). by rewrite Hsha.
  - rewrite (proj2 (Z.leb_le _ _)), (slot_lookup s k x Hk) by lia. destruct (wf_slots s Hw k x Hk Hu) as [_ Hd].
    rewrite (delivered_all (data x)) by done. intros [= _ <-]. by apply (st_slots s Hs k).
Qed.

Lemma persist_disk d bytes b : dur_ok d -> pfs_ark_active d = false -> lenz bytes <= PFS_BLOCK_MAX -> W bytes ->
  (pfs_dur_read (id_to_hex (sha256 b)) d = Some b -> W b) ->
  pfs_dur_read (id_to_hex (sha256 b)) (snd (persist (sha256 bytes) bytes d)) = Some b -> W b.
Proof.
  intros Hd Ha Hl Hb Hold. unfold persist. rewrite Ha. destruct (pfs_dur_active d) eqn:Hact; [|exact Hold].
  destruct (decide (id_to_hex (sha256 b) = id_to_hex (sha256 bytes))) as [E|E].
  - destruct (fst (pfs_dur_write (id_to_hex (sha256 bytes)) bytes d)) eqn:Ew.
    + rewrite E, dur_write_back; [|done|done|apply sha_dur|done|done]. by intros [= <-].
    + rewrite dur_write_failed; [done|done|apply sha_dur|apply sha_dur|done].
  - rewrite dur_write_other; [done|done|apply sha_dur|apply sha_dur|done].
Qed.

Lemma stored_write s i x s' : stored s -> W (data x) -> pfs_table s' = setz (pfs_table s) i x -> 
  (forall b, pfs_dur_read (id_to_hex (sha256 b)) (disk s') = Some b -> W b) -> stored s'.
Proof.
  intros Hs Hx Ht Hd. split; [|done]. intros k y Hk Hy. rewrite Ht in Hk. unfold setz in Hk.
  destruct (i <? 0); [by apply (st_slots s Hs k)|]. apply list_lookup_insert_Some in Hk as [(_ & <- & _)|[_ Hk]]; [done|by apply (st_slots s Hs k)].
Qed.

Lemma stored_disk s s' : stored s -> pfs_table s' = pfs_table s ->
  (forall b, pfs_dur_read (id_to_hex (sha256 b)) (disk s') = Some b -> W b) -> stored s'.
Proof. intros Hs Ht Hd. split; [rewrite Ht; apply Hs|done]. Qed.

Lemma put_stored buf len org s : live s -> stored s -> W (take (Z.to_nat len) (default [] buf)) ->
  stored (state (pfs_put_origin buf len org s)).
Proof.
  intros [Hg Hload Hark] Hs HW. pose proof (g_sound _ Hg) as [Hw Hclk]. unfold state, pfs_put_origin.
  destruct (_ && _); [done|]. destruct (PFS_BLOCK_MAX <? len) eqn:El; [done|]. bools. set (bytes := take _ _) in *.
  assert (lenz bytes <= PFS_BLOCK_MAX) as Hb by (unfold bytes, lenz in *; rewrite length_take; unfold PFS_BLOCK_MAX in *; lia).
  unfold pfs_id_compute. destruct (find_slot_spec (sha256 bytes) s) as [[-> _]|(k & x & -> & Hk & Hu & Hid)].
  - cbn [Z.leb Z.compare]. destruct (choose_slot_spec s Hw Hclk) as (C1 & _ & C3 & C4 & C5 & _). set (ch := choose_slot s) in *. clearbody ch.
    destruct (fst ch <? 0); [by apply (stored_disk s); [..|cbn; rewrite C3; apply Hs]|].
    assert (stored (snd ch)) as Hsc by (apply (stored_disk s); [done|done|rewrite C3; apply Hs]).
    unfold put_new. cbn [snd]. change (pfs_loading (set_table _ _ (snd ch))) with (pfs_loading (snd ch)). rewrite C4, Hload. cbn [snd].
    pose proof (fun b => persist_disk (disk s) bytes b (g_ok _ Hg) Hark Hb HW (st_disk s Hs b)) as Hp. rewrite <- C3 in Hp.
    change (disk (set_table _ _ (snd ch))) with (disk (snd ch)). set (pr := persist (sha256 bytes) bytes (disk (snd ch))) in *. clearbody pr.
    destruct (negb (fst pr)); cbn [snd].
    + apply (stored_write (set_disk (snd pr) (set_table (setz (pfs_table (snd ch)) (fst ch) (Slot (sha256 bytes) true org false bytes)) 0 (snd ch))) (fst ch) (Slot (sha256 bytes) true org true bytes)); [|done|done|done].
      by apply (stored_write (snd ch) (fst ch) (Slot (sha256 bytes) true org false bytes)).
    + by apply (stored_write (snd ch) (fst ch) (Slot (sha256 bytes) true org false bytes)).
  - rewrite (proj2 (Z.leb_le _ _)) by lia. cbn [snd]. unfold put_resident. rewrite (slot_lookup s k x Hk), Hload. cbn [negb andb].
    destruct (unevict x); [|done]. destruct (wf_slots s Hw k x Hk Hu) as [Hx Hxl]. rewrite Hx.
    pose proof (fun b => persist_disk (disk s) (data x) b (g_ok _ Hg) Hark Hxl (st_slots s Hs k x Hk Hu) (st_disk s Hs b)) as Hp.
    set (pr := persist (sha256 (data x)) (data x) (disk s)) in *. clearbody pr. destruct (negb (fst pr)); cbn [snd].
    + by apply (stored_disk s).
    + apply (stored_write s (Z.of_nat k) (with_unevict false x)); [done|exact (st_slots s Hs k x Hk Hu)|done|done].
Qed.

Lemma put_live buf len org s : live s -> live (state (pfs_put_origin buf len org s)).
Proof.
  intros [Hg Hl Ha]. destruct (put_live_keeps buf len org s Hg Hl) as (K1 & _ & K3 & _ & _ & K6). unfold state. split; [done|congruence|congruence].
Qed.

Hypothesis W_inj : forall x y, W x -> W y -> sha256 x = sha256 y -> x = y.

(** What is available is the block that was stored. *)
Lemma avail_at s id b : live s -> stored s -> avail s id -> W b -> sha256 b = id -> block_at s id = Some b.
Proof.
  intros Hl Hs Hav Hb Hsha. destruct (avail_get id PFS_BLOCK_MAX s (proj1 (g_sound _ (l_good _ Hl))) Hav) as (b' & E & Hb').
  assert (block_at s id = Some b') as Hat.
  { unfold block_at. rewrite E. pose proof (get_len id PFS_BLOCK_MAX s (proj1 (g_sound _ (l_good _ Hl)))) as Hlen. rewrite E in Hlen. cbn [fst delivered] in Hlen.
    rewrite (delivered_all b') by done. cbn [fst snd]. by rewrite (proj2 (Z.ltb_ge _ _)) by apply lenz_nonneg. }
  rewrite Hat. f_equal. apply W_inj; [by apply (block_at_in s id)|done|congruence].
Qed.

Lemma at_avail s id b : live s -> block_at s id = Some b -> avail s id.
Proof.
  intros Hl Hb. destruct (block_at_get s id b Hl Hb) as (Hget & _ & Hlen & Hsha). specialize (Hget PFS_BLOCK_MAX). rewrite (delivered_all b Hlen) in Hget.
  revert Hget. unfold pfs_get, avail, holds, behind. rewrite (l_ark _ Hl). destruct (find_slot_spec id s) as [[-> _]|(k & x & _ & Hk & Hu & Hid)].
  - cbn [Z.leb Z.compare]. unfold pfs_flat_evicts. rewrite (l_ark _ Hl). cbn [negb andb]. destruct (pfs_dur_active (disk s)); [|by intros ?%notfound_ne].
    unfold check_block. destruct (pfs_dur_read (id_to_hex id) (disk s)) as [b1|] eqn:Er; [|by intros ?%notfound_ne].
    destruct (_ && _) eqn:Eb; [|by intros ?%notfound_ne]. bools. apply bool_decide_eq_true in H0. intros _. right. by exists b1.
  - intros _. left. by exists k, x.
Qed.

Lemma keeps_at s s' id b : live s -> live s' -> stored s -> stored s' -> keeps s s' -> block_at s id = Some b -> block_at s' id = Some b.
Proof.
  intros Hl Hl' Hs Hs' (_ & Ha & _) Hb. apply avail_at; [done|done|by apply Ha, (at_avail s id b)|by apply (block_at_in s id)|].
  by apply (block_at_get s id b).
Qed.

Lemma put_at buf len org s : live s -> stored s -> let bytes := take (Z.to_nat len) (default [] buf) in W bytes ->
  let r := pfs_put_origin buf len org s in
  live (state r) /\ stored (state r) /\ (forall id b, block_at s id = Some b -> block_at (state r) id = Some b) /\
  (code r = PFS_OK -> id_out r = Some (sha256 bytes) /\ block_at (state r) (sha256 bytes) = Some bytes).
Proof.
  intros Hl Hs bytes HW r. pose proof (put_live buf len org s Hl) as Hl'. pose proof (put_stored buf len org s Hl Hs HW) as Hs'.
  destruct (put_keeps buf len org s (l_good _ Hl) ltac:(by rewrite (l_load _ Hl))) as [K1 K2]. fold r in Hl', Hs', K1, K2.
  split_and!; [done|done|intros id b; by apply keeps_at|]. intros Hc. destruct (K2 (or_introl Hc)) as [Hid Hav]. split; [done|by apply avail_at].
Qed.

(** Writing the reference table leaves every block. *)
Lemma reftab_write_live s img : live s -> live (set_disk (snd (pfs_dur_write PFSD_REFTAB_FILE img (disk s))) s) /\
  keeps s (set_disk (snd (pfs_dur_write PFSD_REFTAB_FILE img (disk s))) s) /\
  (stored s -> stored (set_disk (snd (pfs_dur_write PFSD_REFTAB_FILE img (disk s))) s)).
Proof.
  intros [Hg Hload Hark]. destruct (dur_write_modes PFSD_REFTAB_FILE img (disk s)) as [M1 M2].
  pose proof (dur_write_ok PFSD_REFTAB_FILE img (disk s) (g_ok _ Hg)) as Hok.
  assert (forall b, pfs_dur_read (id_to_hex (sha256 b)) (snd (pfs_dur_write PFSD_REFTAB_FILE img (disk s))) = pfs_dur_read (id_to_hex (sha256 b)) (disk s)) as Hr.
  { intros b. apply dur_write_other; [apply Hg|reflexivity|apply sha_dur|]. pose proof (sha_hex b) as Hh. intros E. by rewrite E in Hh. }
  assert (forall id, holds (disk s) id -> holds (snd (pfs_dur_write PFSD_REFTAB_FILE img (disk s))) id) as Hh.
  { intros id (b & Hb & Hsha & Hlen). exists b. split_and!; [|done|done]. unfold behind in *. rewrite M1, M2, Hark in *. destruct (pfs_dur_active (disk s)); [|done]. by rewrite <- Hsha, Hr in *. }
  assert (good (set_disk (snd (pfs_dur_write PFSD_REFTAB_FILE img (disk s))) s)) as Hg'.
  { destruct Hg as [[Hw Hc] Hd Hcov]. split; [split; [by apply (wf_same s)|done]|done|]. intros k x Hk Hu Hv Ha. apply Hh. apply (Hcov k x Hk Hu Hv). unfold PfsFacts.active in *. cbn [disk set_disk] in Ha. by rewrite M1, M2 in Ha. }
  split; [by split; [|done|cbn [disk set_disk]; congruence]|]. split.
  - unfold keeps, PfsFacts.active. cbn [disk set_disk pfs_loading put_hook]. rewrite M1, M2. split_and!; try done.
    intros id [Hs|Hs]; [by left|right; by apply Hh].
  - intros Hst. apply (stored_disk s); [done|done|]. intros b. cbn [disk set_disk]. rewrite Hr. apply (st_disk s Hst).
Qed.
End blocks.

(** ** Versions *)

(** The content of version [q] on the chain from [id], [k] manifests at most. *)
Fixpoint version_within {D} `{Durable D} (k : nat) (id : list Z) (q : Z) (t : store D) : option (list Z) :=
  match k with
  | O => None
  | S k =>
      match block_at t id with
      | Some b =>
          let m := dec_man b in
          if (lenz b =? MAN_SIZE) && (m_magic m =? PFSD_MAN_MAGIC) && (m_version m =? PFSD_VERSION) then
            if m_seq m =? q then block_at t (m_content m)
            else if (m_seq m <? q) || pd_id_zero (m_prev m) then None
            else version_within k (m_prev m) q t
          else None
      | None => None
      end
  end.

(** The entry of a name. *)
Definition cur_ent {D} (name : list Z) (s : dag D) : option PFSD_REF_ENT :=
  let f := ref_find name s in if f <? 0 then None else Some (ent (ref_at f s)).

Lemma cur_view {D} name (s : dag D) : view name (refs s) = match cur_ent name s with Some e => ver_of e | None => [] end.
Proof. unfold view, cur_ent, ref_find, is_for, ref_at. by destruct (_ <? 0). Qed.

Definition bad_name (name : list Z) : bool := (lenz name =? 0) || (PFS_NAME_MAX <? lenz name).

Section versions.
Context {D : Type} `{Dur : Durable D} `{Ok : !DurableOk D} (c : conf) (o : bool).
Implicit Types s : dag D.

Lemma read_at_cur name q m s : bad_name name = false -> q <> 0 ->
  pfs_dag_read_at c name q m s =
    match cur_ent name s with None => ((PFS_E_NOTFOUND, []), s, []) | Some e => walk c (Z.to_nat PFSD_LOG_MAX) (e_head e) q m s end.
Proof.
  unfold bad_name. intros Hn Hq. unfold pfs_dag_read_at. rewrite Hn, (proj2 (Z.eqb_neq _ _) Hq). cbn [orb].
  rewrite (bind_ret get _ s s s eq_refl). cbv zeta. unfold cur_ent. by destruct (_ <? 0).
Qed.

Lemma read_cur name m s : bad_name name = false ->
  pfs_dag_read c name m s =
    match cur_ent name s with
    | None => ((PFS_E_NOTFOUND, []), s, [])
    | Some e =>
        (held ← d_has (e_head e);
         if negb held then d_want c (e_head e) ;; ret (PFS_E_NOTFOUND, [])
         else g ← d_get (e_head e) MAN_SIZE;
              if negb (man_ok g) then ret (PFS_E_INVAL, []) else fetch c (m_content (dec_man (snd g))) m) s
    end.
Proof.
  unfold bad_name. intros Hn. unfold pfs_dag_read. rewrite Hn.
  rewrite (bind_ret get _ s s s eq_refl). cbv zeta. unfold cur_ent. by destruct (_ <? 0).
Qed.

Lemma fetch_at id b m s : live (tab s) -> block_at (tab s) id = Some b -> fetch c id m s = (delivered b m, s, []).
Proof.
  intros Hl Hb. destruct (block_at_get (tab s) id b Hl Hb) as (Hg & _). unfold fetch.
  rewrite (bind_ret (d_get id m) _ s s (delivered b m)) by (unfold d_get, gets; by rewrite Hg).
  by rewrite (proj2 (Z.ltb_ge _ _)) by apply lenz_nonneg.
Qed.

Lemma has_at id b s : live (tab s) -> block_at (tab s) id = Some b -> d_has id s = (true, s, []).
Proof. intros Hl Hb. destruct (block_at_get (tab s) id b Hl Hb) as (_ & Hh & _). unfold d_has, gets. by rewrite Hh. Qed.

(** A manifest is fetched whole. *)
Lemma get_man id b s : live (tab s) -> block_at (tab s) id = Some b -> lenz b = MAN_SIZE -> d_get id MAN_SIZE s = ((MAN_SIZE, b), s, []).
Proof.
  intros Hl Hb Hlen. destruct (block_at_get (tab s) id b Hl Hb) as (Hg & _). unfold d_get, gets. rewrite Hg. unfold delivered.
  by rewrite Hlen, Z.min_id, take_ge by (unfold lenz in Hlen; lia).
Qed.

Lemma walk_finds k id q m b s : live (tab s) -> version_within k id q (tab s) = Some b -> walk c k id q m s = (delivered b m, s, []).
Proof.
  intros Hl. revert id. induction k as [|k IH]; intros id Hv; [done|]. cbn [version_within] in Hv.
  destruct (block_at (tab s) id) as [b0|] eqn:Eb; [|done]. destruct (_ && _ && _) eqn:Em in Hv; [|done]. bools.
  cbn [walk]. rewrite (bind_ret _ _ s s true (has_at id b0 s Hl Eb)). cbn [negb].
  rewrite (bind_ret _ _ s s _ (get_man id b0 s Hl Eb H)). unfold man_ok. cbn [fst snd]. rewrite H0, H1, !Z.eqb_refl. cbn [andb negb].
  destruct (m_seq (dec_man b0) =? q); [by apply fetch_at|]. destruct (_ || _); [done|]. by apply IH.
Qed.

(** More blocks and more steps find as much. *)
Lemma version_grows (t t' : store D) k j id q b : (forall i x, block_at t i = Some x -> block_at t' i = Some x) ->
  version_within k id q t = Some b -> version_within (k + j) id q t' = Some b.
Proof.
  intros Hg. revert id. induction k as [|k IH]; intros id Hv; [done|]. cbn [version_within Nat.add] in *.
  destruct (block_at t id) as [b0|] eqn:Eb; [|done]. rewrite (Hg id b0 Eb). destruct (_ && _ && _); [|done].
  destruct (_ =? q); [by apply Hg|]. destruct (_ || _); [done|]. by apply IH.
Qed.

(** ** What a save does *)

Lemma below_eq {A} (m : io (repl D) PfsRepl.effect A) s :
  val (below m s) = val (m (net s)) /\ exec (below m) s = with_net (exec m (net s)) s.
Proof. done. Qed.

Lemma d_put_spec buf len s :
  let r := pfs_put_origin buf len (if my c =? 0xFF then PFS_ORIGIN_SELF else my c) (tab s) in
  val (d_put c buf len s) = fst (fst r) /\ tab (exec (d_put c buf len) s) = snd r /\
  refs (exec (d_put c buf len) s) = refs s /\ dag_loading (exec (d_put c buf len) s) = dag_loading s.
Proof.
  intros r. destruct (put_block_spec c buf len (if my c =? 0xFF then PFS_ORIGIN_SELF else my c) (net s)) as (P1 & P2 & _).
  split; [exact P1|]. split; [exact P2|done].
Qed.

Lemma beacon_same s : tab (exec (beacon_publish c o) s) = tab s /\ refs (exec (beacon_publish c o) s) = refs s.
Proof.
  unfold beacon_publish. rewrite exec_bind. change (val (get s)) with s. change (exec get s) with s. destruct (_ || _); [done|]. cbv zeta.
  rewrite exec_bind. set (s1 := exec (modify _) s). assert (tab s1 = tab s /\ refs s1 = refs s) as [E1 E2] by done.
  destruct (_ =? 0); [done|]. done.
Qed.

Lemma persist_tab (W : list Z -> Prop) s : live (tab s) -> stored W (tab s) ->
  live (tab (exec refs_persist s)) /\ stored W (tab (exec refs_persist s)) /\ keeps (tab s) (tab (exec refs_persist s)).
Proof.
  intros Hl Hs. unfold refs_persist. rewrite exec_bind. change (val (get s)) with s. change (exec get s) with s.
  destruct (_ || _); [split_and!; [done|done|by apply keeps_refl, l_good]|].
  destruct (reftab_write_live W (tab s) (reftab_image (refs s)) Hl) as (R1 & R2 & R3). split_and!; [exact R1|exact (R3 Hs)|exact R2].
Qed.
End versions.

(** The image of a manifest. *)
Record man_fits (m : PFSD_MANIFEST) : Prop := {
  mf_magic : is_u32 (m_magic m); mf_version : is_u32 (m_version m); mf_prev : length (m_prev m) = 32%nat;
  mf_content : length (m_content m) = 32%nat; mf_seq : is_u32 (m_seq m); mf_len : is_u32 (m_len m); mf_name : length (m_name m) = 16%nat }.

Lemma dec_enc_man m : man_fits m ->
  lenz (enc_man m) = MAN_SIZE /\ m_magic (dec_man (enc_man m)) = m_magic m /\ m_version (dec_man (enc_man m)) = m_version m /\
  m_prev (dec_man (enc_man m)) = m_prev m /\ m_content (dec_man (enc_man m)) = m_content m /\ m_seq (dec_man (enc_man m)) = m_seq m.
Proof.
  destruct m as [mg v p ct sq ln og nl nm]. intros [H1 H2 H3 H4 H5 H6 H7]. unfold is_u32 in *.
  cbn [m_magic m_version m_prev m_content m_seq m_len m_name] in *. unfold dec_man, enc_man.
  cbn [m_magic m_version m_prev m_content m_seq m_len m_name m_origin m_nlen].
  set (x := le 4 mg ++ _). split_and!.
  - unfold x, lenz, MAN_SIZE. rewrite !length_app, !le_length, H3, H4, H7. done.
  - unfold x. fields.
  - unfold x. fields.
  - unfold x. fields.
  - unfold x. fields.
  - unfold x. fields.
Qed.

Section save.
Context {D : Type} `{Dur : Durable D} `{Ok : !DurableOk D} (c : conf) (o : bool).
Context (W : list Z -> Prop) (W_inj : forall x y, W x -> W y -> sha256 x = sha256 y -> x = y).
Implicit Types s : dag D.

Lemma next_man_fits cur content len name : (forall e, cur = Some e -> length (e_head e) = 32%nat) -> length content = 32%nat ->
  is_u32 len -> lenz name <= PFS_NAME_MAX -> man_fits (next_manifest c cur content len name).
Proof.
  intros Hc Hl Hlen Hn. split; try done; cbn [next_manifest m_prev m_seq m_name].
  - destruct cur as [e|]; [by apply Hc|done].
  - destruct cur as [e|]; [apply u32_range|done].
  - by apply name_field_length.
Qed.

(** Everything a successful save leaves. *)
Record saved s s' (name content : list Z) (man : PFSD_MANIFEST) : Prop := {
  sv_live : live (tab s'); sv_stored : stored W (tab s');
  sv_grows : forall id b, block_at (tab s) id = Some b -> block_at (tab s') id = Some b;
  sv_content : block_at (tab s') (sha256 content) = Some content;
  sv_man : block_at (tab s') (sha256 (enc_man man)) = Some (enc_man man);
  sv_views : forall n, view n (refs s') = if bool_decide (n = name) then m_seq man :: sha256 (enc_man man) else view n (refs s) }.

Lemma save_spec s name buf len : live (tab s) -> stored W (tab s) -> refs_wf (refs s) ->
  let content := take (Z.to_nat len) (default [] buf) in
  let man := next_manifest c (cur_ent name s) (sha256 content) len name in
  0 <= len -> W content -> W (enc_man man) -> (forall e, cur_ent name s = Some e -> length (e_head e) = 32%nat) ->
  val (pfs_dag_save c o name buf len s) = PFS_OK ->
  bad_name name = false /\ man_fits man /\ saved s (exec (pfs_dag_save c o name buf len) s) name content man.
Proof.
  intros Hl Hs Hw content man Hlen HWc HWm Hcur. unfold pfs_dag_save. fold (bad_name name).
  destruct (bad_name name) eqn:Hbad; [by cbn|]. destruct (PFS_BLOCK_MAX <? len) eqn:Elen; [by cbn|]. bools.
  assert (1 <= lenz name <= PFS_NAME_MAX) as Hname.
  { unfold bad_name in Hbad. bools. pose proof (lenz_nonneg name). lia. }
  rewrite val_bind, exec_bind. destruct (d_put_spec c buf len s) as (P1 & P2 & P3 & _). set (s1 := exec (d_put c buf len) s) in *. rewrite P1.
  destruct (put_at W W_inj buf len (if my c =? 0xFF then PFS_ORIGIN_SELF else my c) (tab s) Hl Hs HWc) as (L1 & S1 & G1 & C1).
  set (r := pfs_put_origin buf len _ (tab s)) in *. fold content in C1. unfold state, code, id_out in *.
  destruct (negb (fst (fst (fst r)) =? PFS_OK)) eqn:E1; [intros Hv; change (fst (fst (fst r)) = PFS_OK) in Hv; rewrite Hv in E1; done|]. bools.
  destruct (C1 ltac:(lia)) as [Cid Cat]. rewrite Cid. rewrite <- P2 in *.
  rewrite val_bind, exec_bind. change (val (get s1)) with s1. change (exec get s1) with s1. cbv zeta.
  assert (ref_find name s1 = ref_find name s) as Ef by (unfold ref_find; by rewrite P3). rewrite Ef.
  assert ((if ref_find name s <? 0 then None else Some (ent (ref_at (ref_find name s) s1))) = cur_ent name s) as Ecur
    by (unfold cur_ent, ref_at; by rewrite P3).
  rewrite Ecur. change (default [] (Some (sha256 content))) with (sha256 content). fold man.
  rewrite val_bind, exec_bind. destruct (d_put_spec c (Some (enc_man man)) MAN_SIZE s1) as (Q1 & Q2 & Q3 & _).
  set (s2 := exec (d_put c (Some (enc_man man)) MAN_SIZE) s1) in *. rewrite Q1.
  assert (man_fits man) as Hfit.
  { apply next_man_fits; [done|apply sha256_length| |apply Hname]. unfold is_u32, PFS_BLOCK_MAX in *. lia. }
  destruct (dec_enc_man man Hfit) as (Mlen & _).
  assert (take (Z.to_nat MAN_SIZE) (default [] (Some (enc_man man))) = enc_man man) as Etake.
  { change (default [] (Some (enc_man man))) with (enc_man man). rewrite <- Mlen. apply take_ge. unfold lenz. lia. }
  destruct (put_at W W_inj (Some (enc_man man)) MAN_SIZE (if my c =? 0xFF then PFS_ORIGIN_SELF else my c) (tab s1) L1 S1) as (L2 & S2 & G2 & C2).
  { by rewrite Etake. }
  rewrite Etake in C2. set (r2 := pfs_put_origin (Some (enc_man man)) _ _ (tab s1)) in *. unfold state, code, id_out in *.
  destruct (negb (fst (fst (fst r2)) =? PFS_OK)) eqn:E2; [intros Hv; change (fst (fst (fst r2)) = PFS_OK) in Hv; rewrite Hv in E2; done|]. bools.
  destruct (C2 ltac:(lia)) as [Mid Mat]. rewrite Mid. rewrite <- Q2 in *.
  rewrite val_bind, exec_bind. change (val (get s2)) with s2. change (exec get s2) with s2. cbv zeta.
  set (i := if ref_find name s <? 0 then ref_alloc s2 else ref_find name s).
  destruct (i <? 0) eqn:Ei; [by cbn|]. bools. intros _.
  change (default [] (Some (sha256 (enc_man man)))) with (sha256 (enc_man man)).
  rewrite exec_bind. set (s3 := exec (ref_set i name (sha256 (enc_man man)) (m_seq man) (m_origin man)) s2).
  rewrite exec_bind. set (s4 := exec (beacon_publish c o) s3). change (exec (ret PFS_OK) s4) with s4.
  destruct (beacon_same c o s3) as [B1 B2]. fold s4 in B1, B2.
  assert (refs s3 = setz (refs s) i (new_ref name (sha256 (enc_man man)) (m_seq man) (m_origin man))) as R3.
  { unfold s3. rewrite ref_set_refs. by rewrite Q3, P3. }
  assert (exists s3', tab s3' = tab s2 /\ s3 = exec refs_persist s3') as (s3' & T3 & X3) by (eexists; split; [|reflexivity]; done).
  destruct (persist_tab W s3') as (L3 & S3 & K3); [by rewrite T3|by rewrite T3|]. rewrite <- X3 in L3, S3, K3. rewrite T3 in K3.
  assert (forall id b, block_at (tab s2) id = Some b -> block_at (tab s3) id = Some b) as G3 by (intros id b; by apply (keeps_at W W_inj)).
  split; [done|]. split; [done|]. rewrite <- B1 in L3, S3, G3. split; [done|done| | | |].
  - intros id b Hb. by apply G3, G2, G1.
  - by apply G3, G2.
  - by apply G3.
  - intros n. rewrite B2, R3. destruct (new_ref_name name (sha256 (enc_man man)) (m_seq man) (m_origin man)) as [N1 N2]; [lia|].
    assert (exists k r0, i = Z.of_nat k /\ refs s !! k = Some r0 /\
      ((r_used r0 = true /\ ent_name (ent r0) = name) \/ (r_used r0 = false /\ forall j q, refs s !! j = Some q -> r_used q = true -> ent_name (ent q) <> name)))
      as (k & r0 & -> & Hk & Hcase).
    { unfold i in *. change (ref_find name s) with (first_ix (is_for name) (refs s) 0) in *.
      destruct (find_cases name (refs s)) as [[Ef' Hno]|(k & q & Ef' & Hk & Hu & Hn)]; rewrite Ef' in *.
      - cbn [Z.ltb Z.compare] in *. unfold ref_alloc in *. rewrite Q3, P3 in *.
        destruct (first_ix_spec (fun r => negb (r_used r)) (refs s) 0 ltac:(done)) as [[Ea _]|(k & q & Ea & Hk & Hq)]; [lia|].
        exists k, q. split; [lia|]. split; [done|]. right. split; [by destruct (r_used q)|done].
      - rewrite (proj2 (Z.ltb_ge (Z.of_nat k) 0)) by lia. exists k, q. split; [done|]. split; [done|]. by left. }
    rewrite setz_nat. destruct (view_set (refs s) k r0 (new_ref name (sha256 (enc_man man)) (m_seq man) (m_origin man)) Hw Hk eq_refl) as [_ V].
    + by rewrite N1.
    + by rewrite N1.
    + by rewrite V, N1, N2.
Qed.
End save.

Lemma cur_head {D} name (s : dag D) q h : view name (refs s) = q :: h -> exists e, cur_ent name s = Some e /\ e_head e = h.
Proof. rewrite cur_view. destruct (cur_ent name s) as [e|]; [|done]. intros [= _ <-]. by exists e. Qed.

Lemma cur_head_length {D} name (s : dag D) e : table_ok (refs s) -> cur_ent name s = Some e -> length (e_head e) = 32%nat.
Proof.
  intros Ht. unfold cur_ent. change (ref_find name s) with (first_ix (is_for name) (refs s) 0).
  destruct (find_cases name (refs s)) as [[-> _]|(k & r & -> & Hk & Hu & _)]; [done|]. rewrite (proj2 (Z.ltb_ge _ _)) by lia. intros [= <-].
  unfold ref_at. rewrite (getz_nat _ k r) by done. destruct (to_made _ Ht k r Hk Hu) as (nm & hd & sq & og & -> & _ & _ & Hh & _). done.
Qed.

(** The name reads as what was saved. *)
Lemma saved_read {D} `{DurableOk D} (c : conf) (W : list Z -> Prop) (s s' : dag D) name content man m :
  bad_name name = false -> man_fits man -> m_magic man = PFSD_MAN_MAGIC -> m_version man = PFSD_VERSION -> m_content man = sha256 content ->
  saved W s s' name content man -> pfs_dag_read c name m s' = (delivered content m, s', []).
Proof.
  intros Hn Hfit Emg Ever Ect [Sl Ss Sg Sc Sm Sv]. destruct (dec_enc_man man Hfit) as (M1 & M2 & M3 & M4 & M5 & M6).
  assert (view name (refs s') = m_seq man :: sha256 (enc_man man)) as Hv by (by rewrite Sv, bool_decide_eq_true_2).
  destruct (cur_head name s' _ _ Hv) as (e' & He' & Hh').
  rewrite (read_cur c name m s' Hn), He', Hh'. rewrite (bind_ret _ _ s' s' true (has_at _ _ s' Sl Sm)). cbn [negb].
  rewrite (bind_ret _ _ s' s' _ (get_man _ _ s' Sl Sm M1)). unfold man_ok. cbn [fst snd]. rewrite M2, M3, M5, Emg, Ever, Ect, !Z.eqb_refl.
  cbn [andb negb]. by apply fetch_at.
Qed.

(** C6: saving never destroys the past. Over any sound store that is not the
    log, when a save succeeds: a read of the name returns the new bytes, and so
    does a read of the new version; every older version of the name that was
    within 63 steps of its head is still read; the versions of every other name
    are still read. No block is asked for on the way. The hash is injective on
    the blocks [W] in play and not zero on them. *)
Theorem history_kept {D} `{DurableOk D} (c : conf) (o : bool) (W : list Z -> Prop) (s : dag D) name buf len
    (W_inj : forall x y, W x -> W y -> sha256 x = sha256 y -> x = y) (W_zero : forall b, W b -> pd_id_zero (sha256 b) = false)
    (Hl : live (tab s)) (Hs : stored W (tab s)) (Ht : table_ok (refs s)) (Hlen : 0 <= len)
    (HWc : W (take (Z.to_nat len) (default [] buf)))
    (HWm : W (enc_man (next_manifest c (cur_ent name s) (sha256 (take (Z.to_nat len) (default [] buf))) len name)))
    (Hsave : val (pfs_dag_save c o name buf len s) = PFS_OK) :
  let content := take (Z.to_nat len) (default [] buf) in
  let man := next_manifest c (cur_ent name s) (sha256 content) len name in
  let s' := exec (pfs_dag_save c o name buf len) s in
  (forall m, pfs_dag_read c name m s' = (delivered content m, s', [])) /\
  (m_seq man <> 0 -> forall m, pfs_dag_read_at c name (m_seq man) m s' = (delivered content m, s', [])) /\
  (forall e q b m, cur_ent name s = Some e -> 0 < q < m_seq man -> version_within 63 (e_head e) q (tab s) = Some b ->
     pfs_dag_read_at c name q m s' = (delivered b m, s', [])) /\
  (forall n e q b m, n <> name -> bad_name n = false -> 0 < q -> cur_ent n s = Some e ->
     version_within 64 (e_head e) q (tab s) = Some b -> pfs_dag_read_at c n q m s' = (delivered b m, s', [])).
Proof.
  intros content man s'.
  destruct (save_spec c o W W_inj s name buf len Hl Hs (to_wf _ Ht) Hlen HWc HWm (fun e => cur_head_length name s e Ht) Hsave) as (Hn & Hfit & Hsv).
  fold content man in Hfit, Hsv. fold s' in Hsv. destruct Hsv as [Sl Ss Sg Sc Sm Sv] eqn:EHsv; clear EHsv. destruct (dec_enc_man man Hfit) as (M1 & M2 & M3 & M4 & M5 & M6).
  assert (view name (refs s') = m_seq man :: sha256 (enc_man man)) as Hv by (by rewrite Sv, bool_decide_eq_true_2).
  destruct (cur_head name s' _ _ Hv) as (e' & He' & Hh').
  assert (forall k q, version_within (S k) (sha256 (enc_man man)) q (tab s') =
    if m_seq man =? q then Some content
    else if (m_seq man <? q) || pd_id_zero (m_prev man) then None else version_within k (m_prev man) q (tab s')) as Hwalk.
  { intros k q. cbn [version_within]. rewrite Sm, M1, M2, M3, M4, M5, M6. change (MAN_SIZE =? MAN_SIZE) with true.
    change (m_magic man) with PFSD_MAN_MAGIC. change (m_version man) with PFSD_VERSION. rewrite !Z.eqb_refl. cbn [andb].
    change (m_content man) with (sha256 content). by rewrite Sc. }
  split; [|split; [|split]].
  - intros m. exact (saved_read c W s s' name content man m Hn Hfit eq_refl eq_refl eq_refl Hsv).
  - intros Hq m. rewrite (read_at_cur c name _ m s' Hn Hq), He', Hh'. apply walk_finds; [done|].
    change (Z.to_nat PFSD_LOG_MAX) with 64%nat. by rewrite Hwalk, Z.eqb_refl.
  - intros e q b m He Hq Hver. rewrite (read_at_cur c name q m s' Hn ltac:(lia)), He', Hh'. apply walk_finds; [done|].
    change (Z.to_nat PFSD_LOG_MAX) with 64%nat. rewrite Hwalk, (proj2 (Z.eqb_neq _ _)), (proj2 (Z.ltb_ge _ _)) by lia. cbn [orb].
    assert (m_prev man = e_head e) as Hprev by (unfold man; by rewrite He). rewrite Hprev.
    assert (pd_id_zero (e_head e) = false) as ->.
    { cbn [version_within] in Hver. destruct (block_at (tab s) (e_head e)) as [b0|] eqn:Eb; [|done].
      destruct (block_at_get (tab s) (e_head e) b0 Hl Eb) as (_ & _ & _ & <-). apply W_zero. by apply (block_at_in W (tab s) (e_head e)). }
    by apply (version_grows (tab s) (tab s') 63 0).
  - intros n e q b m Hne Hbad Hq He Hver. assert (view n (refs s') = ver_of e) as Hvn.
    { rewrite Sv, bool_decide_eq_false_2 by done. by rewrite cur_view, He. }
    destruct (cur_head n s' _ _ Hvn) as (e2 & He2 & Hh2). rewrite (read_at_cur c n q m s' Hbad ltac:(lia)), He2, Hh2.
    apply walk_finds; [done|]. by apply (version_grows (tab s) (tab s') 64 0).
Qed.

(** ** A save by example *)

Definition saved_bytes : list Z := [104; 105].
Definition first_man : PFSD_MANIFEST := next_manifest (conf_of 1) None (sha256 saved_bytes) 2 [97].
Definition in_play (b : list Z) : Prop := b ∈ [saved_bytes; enc_man first_man].

Lemma in_play_differ : sha256 saved_bytes <> sha256 (enc_man first_man).
Proof. apply (bool_decide_eq_false_1 (sha256 saved_bytes = sha256 (enc_man first_man))). vm_compute. reflexivity. Qed.

Lemma in_play_inj x y : in_play x -> in_play y -> sha256 x = sha256 y -> x = y.
Proof.
  assert (forall z, in_play z -> z = saved_bytes \/ z = enc_man first_man) as Hc.
  { intros z Hz. apply elem_of_cons in Hz as [Hz|Hz]; [by left|right]. by apply list_elem_of_singleton in Hz. }
  intros Hx Hy. destruct (Hc x Hx) as [Ex|Ex], (Hc y Hy) as [Ey|Ey]; subst x y; intros E.
  - reflexivity.
  - destruct (in_play_differ E).
  - destruct (in_play_differ (eq_sym E)).
  - reflexivity.
Qed.

Lemma in_play_nonzero b : in_play b -> pd_id_zero (sha256 b) = false.
Proof.
  intros Hz. apply elem_of_cons in Hz as [->|Hz]; [vm_compute; reflexivity|]. apply list_elem_of_singleton in Hz as ->. vm_compute. reflexivity.
Qed.

Lemma fresh_live : live (tab empty_dag).
Proof. split; [|done|done]. apply good_hook. apply start_good. apply one_dir_ok. Qed.

Lemma fresh_stored W : stored W (tab empty_dag).
Proof.
  split.
  - intros k x Hk Hu. by apply (lookup_replicate_1 64 empty_slot _ k) in Hk as [-> _].
  - intros b Hb. exfalso. revert Hb. generalize (id_to_hex (sha256 b)). intros n Hb.
    pose proof (dur_read_spec [] n PFS_BLOCK_MAX one_dir ltac:(done)) as Hr. change (dur_read [] n PFS_BLOCK_MAX one_dir = Some b) in Hb. rewrite Hb in Hr.
    destruct Hr as (x & Hx & _). exact (lookup_empty_Some n x Hx).
Qed.

Lemma empty_table_ok : table_ok (refs empty_dag).
Proof. split; [apply empty_refs_wf|]. intros k r Hk Hu. by apply (lookup_replicate_1 16 no_ref _ k) in Hk as [-> _]. Qed.

Example history_kept_witness :
  let s' := exec (pfs_dag_save (conf_of 1) true [97] (Some saved_bytes) 2) empty_dag in
  (forall m, pfs_dag_read (conf_of 1) [97] m s' = (delivered saved_bytes m, s', [])) /\
  (forall m, pfs_dag_read_at (conf_of 1) [97] 1 m s' = (delivered saved_bytes m, s', [])).
Proof.
  destruct (history_kept (conf_of 1) true in_play empty_dag [97] (Some saved_bytes) 2) as (R1 & R2 & _).
  - exact in_play_inj.
  - exact in_play_nonzero.
  - apply fresh_live.
  - apply fresh_stored.
  - apply empty_table_ok.
  - done.
  - left.
  - right. left.
  - vm_compute. reflexivity.
  - exact (conj R1 (R2 ltac:(discriminate))).
Defined.

(** ** The shell's [cat] past the end of the walk *)

Definition is_manifest (b : list Z) : bool :=
  (lenz b =? MAN_SIZE) && (m_magic (dec_man b) =? PFSD_MAN_MAGIC) && (m_version (dec_man b) =? PFSD_VERSION).

(** [k] manifests from [id] on, all of them newer than [q]; the last is [m]. *)
Inductive newer_than {D} `{Durable D} (t : store D) (q : Z) : nat -> list Z -> PFSD_MANIFEST -> Prop :=
  | Last id b : block_at t id = Some b -> is_manifest b = true -> q < m_seq (dec_man b) -> pd_id_zero (m_prev (dec_man b)) = false ->
      newer_than t q 1 id (dec_man b)
  | More k id b m : block_at t id = Some b -> is_manifest b = true -> q < m_seq (dec_man b) -> pd_id_zero (m_prev (dec_man b)) = false ->
      newer_than t q k (m_prev (dec_man b)) m -> newer_than t q (S k) id m.

Section past.
Context {D : Type} `{Dur : Durable D} `{Ok : !DurableOk D} (c : conf).
Implicit Types s : dag D.

Lemma load_at id b s : live (tab s) -> block_at (tab s) id = Some b -> is_manifest b = true ->
  load_manifest c id s = (Some (dec_man b), s, []).
Proof.
  intros Hl Hb Hm. unfold is_manifest in Hm. bools. unfold load_manifest. rewrite (bind_ret _ _ s s true (has_at id b s Hl Hb)). cbn [negb].
  rewrite (bind_ret _ _ s s _ (get_man id b s Hl Hb H)). unfold man_ok. cbn [fst snd]. by rewrite H0, H1, !Z.eqb_refl.
Qed.

Lemma newer_seq (t : store D) q k id m : newer_than t q k id m -> q < m_seq m.
Proof. by induction 1. Qed.

Lemma cat_walk_past q k id m s : live (tab s) -> 0 <= q -> newer_than (tab s) q (S k) id m -> cat_walk c k id q s = (inr m, s, []).
Proof.
  intros Hl Hq. revert id. induction k as [|k IH]; intros id Hn; inversion Hn as [id' b Hb Hm Hs Hz|k' id' b m' Hb Hm Hs Hz Hn']; subst.
  - cbn [cat_walk]. rewrite (bind_ret _ _ s s _ (load_at id b s Hl Hb Hm)).
    by rewrite (proj2 (Z.ltb_ge q 0)), (proj2 (Z.eqb_neq _ q)), (proj2 (Z.ltb_ge _ q)), Hz by lia.
  - by inversion Hn'.
  - cbn [cat_walk]. rewrite (bind_ret _ _ s s _ (load_at id b s Hl Hb Hm)).
    rewrite (proj2 (Z.ltb_ge q 0)), (proj2 (Z.eqb_neq _ q)), (proj2 (Z.ltb_ge _ q)), Hz by lia. by apply IH.
Qed.

Lemma walk_past q k id m n s : live (tab s) -> newer_than (tab s) q k id m -> walk c k id q n s = ((PFS_E_NOTFOUND, []), s, []).
Proof.
  intros Hl Hn. induction Hn as [id b Hb Hm Hs Hz|k id b m Hb Hm Hs Hz _ IH]; unfold is_manifest in Hm; bools; cbn [walk];
    rewrite (bind_ret _ _ s s true (has_at id b s Hl Hb)); cbn [negb]; rewrite (bind_ret _ _ s s _ (get_man id b s Hl Hb H));
    unfold man_ok; cbn [fst snd]; rewrite H0, H1, !Z.eqb_refl; cbn [andb negb];
    rewrite (proj2 (Z.eqb_neq _ q)), (proj2 (Z.ltb_ge _ q)), Hz by lia; cbn [orb]; done.
Qed.
End past.

(** A version further back than the walk: [pfs_dag_read_at] says it is not found,
    [dag_cat] shows the bytes of another version, the last it loaded. *)
Lemma cat_shows_another {D} `{DurableOk D} (c : conf) (s : dag D) name e q n m b : live (tab s) -> bad_name name = false -> 0 < q ->
  cur_ent name s = Some e -> newer_than (tab s) q 64 (e_head e) m -> block_at (tab s) (m_content m) = Some b ->
  dag_cat c name q s = (Shown (m_seq m) b, s, []) /\ m_seq m <> q /\
  pfs_dag_read_at c name q n s = ((PFS_E_NOTFOUND, []), s, []).
Proof.
  intros Hl Hn Hq He Hc Hb. split; [|split].
  - unfold dag_cat. rewrite (bind_ret get _ s s s eq_refl). cbv zeta. unfold cur_ent in He.
    destruct (ref_find name s <? 0); [done|]. injection He as He. rewrite He. change (Z.to_nat (PFSD_LOG_MAX - 1)) with 63%nat.
    rewrite (bind_ret _ _ s s _ (cat_walk_past c q 63 (e_head e) m s Hl ltac:(lia) Hc)).
    destruct (block_at_get (tab s) (m_content m) b Hl Hb) as (Hg & _ & Hlen & _).
    rewrite (bind_ret (d_get _ _) _ s s (lenz b, b)) by (unfold d_get, gets; by rewrite Hg, (delivered_all b Hlen)).
    cbn [fst snd]. rewrite (proj2 (Z.ltb_ge _ _)) by apply lenz_nonneg. rewrite Z.min_l by done. by rewrite take_ge by (unfold lenz; lia).
  - apply newer_seq in Hc. lia.
  - rewrite (read_at_cur c name q n s Hn ltac:(lia)), He. by apply (walk_past c q 64 (e_head e) m).
Qed.
