(* ===== verification/Pmesh.v ===== *)
(** * The mesh: src/arch/common/pmesh.c, pmesh.h

    Every two seconds a node ages its routes and tells all nodes which destinations
    it knows at which cost; a node that hears a beacon takes the sender as the next
    hop where that is cheaper. Data goes straight to a node that is alive, and
    otherwise to the next hop, which passes the same bytes on. Wide nodes use a
    frame of their own that is never relayed. The state is the table of routes, the
    bound ports and the counters. The id of the node, which nodes are alive and
    which read the wide frame are arguments; a frame given to the link and a frame
    handed to the function bound to its port are calls, the function being named by
    a number. *)

From stdpp Require Import list.
#[local] Open Scope Z_scope.
From S2P Require Import Prelude.
From S2P Require Import Node.
From S2P Require Import Step.
From S2P Require Import Wire.

Definition PMESH_MAGIC : Z := 0x4853454D.
Definition PMESH_VERSION : Z := 1.
Definition PMESH_BEACON : Z := 1.
Definition PMESH_DATA : Z := 2.
Definition PMESH_DATA_MAX : Z := 1380.
Definition PMESH_BIND_MAX : Z := 8.
Definition PMESH_ROUTE_EXPIRE : Z := 5.
Definition PMESH_COST_INF : Z := 255.
Definition PMESH_VERSION2 : Z := 2.
Definition PMESH_V2_HDR : Z := 14.
Definition PMESH_V2_DATA_MAX : Z := PMESH_DATA_MAX - 2.

(** ** State *)

Record PMESH_ROUTE : Type := Route { next_hop : Z; cost : Z; age : Z; r_active : bool }.
Record PMESH_SOCK : Type := Sock { s_port : Z; s_fn : Z; s_active : bool }.
Record PMESH_STATS : Type := MeshStats { beacon_tx : Z; beacon_rx : Z; data_tx : Z; data_rx : Z; data_relay : Z; data_delivered : Z; no_route : Z }.
Record PMESH_V2_STATS : Type := V2Stats { v2_tx : Z; v2_rx : Z; v2_delivered : Z; v2_noread : Z; v2_drop : Z }.

Record pmesh : Type := Pmesh { pmesh_routes : list PMESH_ROUTE; pmesh_socks : list PMESH_SOCK; pmesh_stats : PMESH_STATS; pmesh_v2_stats : PMESH_V2_STATS; pmesh_drop_bad : Z }.

Inductive link : Type := Udp (ip : Z) (frame : list Z) | Deliver (fn src port : Z) (data : list Z).

Definition no_path : PMESH_ROUTE := Route 0xFF PMESH_COST_INF 0 false.
Definition no_sock : PMESH_SOCK := Sock 0 0 false.
Definition stats0 : PMESH_STATS := MeshStats 0 0 0 0 0 0 0.

(** The bound ports stay, and so do the counters of the wide frames. *)
Definition pmesh_init (s : pmesh) : pmesh :=
  Pmesh (replicate (Z.to_nat DNODE_MAX) no_path) (pmesh_socks s) stats0 (pmesh_v2_stats s) (pmesh_drop_bad s).
(** A node at boot, with some ports bound. *)
Definition fresh (socks : list PMESH_SOCK) : pmesh := pmesh_init (Pmesh [] socks stats0 (V2Stats 0 0 0 0 0) 0).
Definition pmesh0 : pmesh := fresh (replicate (Z.to_nat PMESH_BIND_MAX) no_sock).

Definition with_routes (f : list PMESH_ROUTE -> list PMESH_ROUTE) (s : pmesh) : pmesh := Pmesh (f (pmesh_routes s)) (pmesh_socks s) (pmesh_stats s) (pmesh_v2_stats s) (pmesh_drop_bad s).
Definition with_socks (l : list PMESH_SOCK) (s : pmesh) : pmesh := Pmesh (pmesh_routes s) l (pmesh_stats s) (pmesh_v2_stats s) (pmesh_drop_bad s).
Definition with_mesh_stats (f : PMESH_STATS -> PMESH_STATS) (s : pmesh) : pmesh := Pmesh (pmesh_routes s) (pmesh_socks s) (f (pmesh_stats s)) (pmesh_v2_stats s) (pmesh_drop_bad s).
Definition with_v2_stats (f : PMESH_V2_STATS -> PMESH_V2_STATS) (s : pmesh) : pmesh := Pmesh (pmesh_routes s) (pmesh_socks s) (pmesh_stats s) (f (pmesh_v2_stats s)) (pmesh_drop_bad s).
Definition count_bad (s : pmesh) : pmesh := Pmesh (pmesh_routes s) (pmesh_socks s) (pmesh_stats s) (pmesh_v2_stats s) (u32 (pmesh_drop_bad s + 1)).

Definition inc_beacon_tx (c : PMESH_STATS) := MeshStats (u32 (beacon_tx c + 1)) (beacon_rx c) (data_tx c) (data_rx c) (data_relay c) (data_delivered c) (no_route c).
Definition inc_beacon_rx (c : PMESH_STATS) := MeshStats (beacon_tx c) (u32 (beacon_rx c + 1)) (data_tx c) (data_rx c) (data_relay c) (data_delivered c) (no_route c).
Definition inc_data_tx (c : PMESH_STATS) := MeshStats (beacon_tx c) (beacon_rx c) (u32 (data_tx c + 1)) (data_rx c) (data_relay c) (data_delivered c) (no_route c).
Definition inc_data_rx (c : PMESH_STATS) := MeshStats (beacon_tx c) (beacon_rx c) (data_tx c) (u32 (data_rx c + 1)) (data_relay c) (data_delivered c) (no_route c).
Definition inc_data_relay (c : PMESH_STATS) := MeshStats (beacon_tx c) (beacon_rx c) (data_tx c) (data_rx c) (u32 (data_relay c + 1)) (data_delivered c) (no_route c).
Definition inc_delivered (c : PMESH_STATS) := MeshStats (beacon_tx c) (beacon_rx c) (data_tx c) (data_rx c) (data_relay c) (u32 (data_delivered c + 1)) (no_route c).
Definition inc_no_route (c : PMESH_STATS) := MeshStats (beacon_tx c) (beacon_rx c) (data_tx c) (data_rx c) (data_relay c) (data_delivered c) (u32 (no_route c + 1)).
Definition inc_v2_tx (c : PMESH_V2_STATS) := V2Stats (u32 (v2_tx c + 1)) (v2_rx c) (v2_delivered c) (v2_noread c) (v2_drop c).
Definition inc_v2_rx (c : PMESH_V2_STATS) := V2Stats (v2_tx c) (u32 (v2_rx c + 1)) (v2_delivered c) (v2_noread c) (v2_drop c).
Definition inc_v2_delivered (c : PMESH_V2_STATS) := V2Stats (v2_tx c) (v2_rx c) (u32 (v2_delivered c + 1)) (v2_noread c) (v2_drop c).
Definition inc_v2_noread (c : PMESH_V2_STATS) := V2Stats (v2_tx c) (v2_rx c) (v2_delivered c) (u32 (v2_noread c + 1)) (v2_drop c).
Definition inc_v2_drop (c : PMESH_V2_STATS) := V2Stats (v2_tx c) (v2_rx c) (v2_delivered c) (v2_noread c) (u32 (v2_drop c + 1)).

#[local] Abbreviation op A := (io pmesh link A).
Definition bump_stat (f : PMESH_STATS -> PMESH_STATS) : op unit := modify (with_mesh_stats f).
Definition bump_v2 (f : PMESH_V2_STATS -> PMESH_V2_STATS) : op unit := modify (with_v2_stats f).

Definition route_at (t : list PMESH_ROUTE) (d : Z) : PMESH_ROUTE := getz t d no_path.

(** ** Ports *)

Definition pmesh_bind (port fn : Z) : op Z :=
  i ← gets (fun s => first_ix (fun x => negb (s_active x)) (pmesh_socks s) 0);
  if i <? 0 then ret (-1) else modify (fun s => with_socks (setz (pmesh_socks s) i (Sock port fn true)) s) ;; ret 0.

Definition local_dispatch (src port : Z) (data : list Z) : op unit :=
  l ← gets pmesh_socks;
  match find (fun x => s_active x && (s_port x =? port)) l with
  | Some x => call (Deliver (s_fn x) src port data)
  | None => ret tt
  end.

(** ** Routes *)

Definition update_direct (me n : Z) (t : list PMESH_ROUTE) : list PMESH_ROUTE :=
  if (DNODE_MAX <=? n) || (n =? me) then t
  else
    let r := route_at t n in
    if negb (r_active r) || (1 <? cost r) then setz t n (Route n 1 0 true) else setz t n (Route (next_hop r) (cost r) 0 (r_active r)).

(** One entry of a beacon: a destination and its cost. *)
Definition merge_route (me src : Z) (t : list PMESH_ROUTE) (e : Z * Z) : list PMESH_ROUTE :=
  let '(dst, c) := e in
  if (DNODE_MAX <=? dst) || (dst =? me) || (dst =? src) || (c =? PMESH_COST_INF) then t
  else
    let new_cost := let n := u8 (c + 1) in if n =? 0 then PMESH_COST_INF else n in
    let r := route_at t dst in
    if negb (r_active r) || (new_cost <? cost r) then setz t dst (Route src new_cost 0 true)
    else setz t dst (Route (next_hop r) (cost r) 0 (r_active r)).

Definition merge_beacon (me src : Z) (entries : list (Z * Z)) (t : list PMESH_ROUTE) : list PMESH_ROUTE :=
  fold_left (merge_route me src) entries (update_direct me src t).

Definition aged (r : PMESH_ROUTE) : PMESH_ROUTE :=
  if negb (r_active r) then r
  else if PMESH_ROUTE_EXPIRE <? u8 (age r + 1) then Route 0xFF PMESH_COST_INF (u8 (age r + 1)) false
  else Route (next_hop r) (cost r) (u8 (age r + 1)) true.
Definition age_routes (t : list PMESH_ROUTE) : list PMESH_ROUTE := map aged t.

(** ** Beacons *)

(** The entries: the node itself, then the routes in order, as many as fit. *)
Fixpoint known_routes (t : list PMESH_ROUTE) (i : Z) : list (Z * Z) :=
  match t with [] => [] | r :: t => if r_active r then (u8 i, cost r) :: known_routes t (i + 1) else known_routes t (i + 1) end.
Definition beacon_entries (me : Z) (t : list PMESH_ROUTE) : list (Z * Z) := take (Z.to_nat DNODE_MAX) ((pk_node_v1 me, 0) :: known_routes t 0).
Definition enc_beacon (me : Z) (es : list (Z * Z)) : list Z :=
  le 4 PMESH_MAGIC ++ [PMESH_VERSION; PMESH_BEACON; pk_node_v1 me; lenz es] ++ flat_map (fun e => [fst e; snd e; 0; 0]) es.

Definition send_beacon (me : Z) : op unit :=
  if me =? 0xFF then ret tt
  else
    t ← gets pmesh_routes;
    iter (seqZ 0 DNODE_MAX) (fun n => when (negb (n =? me)) (call (Udp (pk_node_ip n) (enc_beacon me (beacon_entries me t))))) ;;
    bump_stat inc_beacon_tx.

(** One turn of [pmesh_task]. *)
Definition pmesh_task (me : Z) : op unit := modify (with_routes age_routes) ;; send_beacon me.

(** ** Receiving *)

Fixpoint dec_entries (n : nat) (b : list Z) : list (Z * Z) := match n with O => [] | S n => (getz b 0 0, getz b 1 0) :: dec_entries n (drop 4 b) end.

Definition rx_v2 (me : Z) (f : list Z) : op unit :=
  if negb (getz f 5 0 =? PMESH_DATA) || (lenz f <? PMESH_V2_HDR) then ret tt
  else
    let s2 := num_at 6 2 f in let d2 := num_at 8 2 f in let port2 := num_at 10 2 f in let n2 := num_at 12 2 f in
    if (PMESH_V2_DATA_MAX <? n2) || (lenz f <? PMESH_V2_HDR + n2) then ret tt
    else
      bump_v2 inc_v2_rx ;;
      if me =? PK_NODE_NONE then bump_v2 inc_v2_drop
      else if negb (d2 =? me) then bump_v2 inc_v2_drop
      else bump_v2 inc_v2_delivered ;; bump_stat inc_delivered ;; local_dispatch s2 port2 (bytes_at 14 (Z.to_nat n2) f).

Definition rx_beacon (me src : Z) (f : list Z) : op unit :=
  if (DNODE_MAX <=? src) || (src =? me) then ret tt
  else
    bump_stat inc_beacon_rx ;;
    let n := getz f 7 0 in
    if lenz f <? u16 (8 + n * 4) then ret tt
    else modify (with_routes (merge_beacon me src (dec_entries (Z.to_nat n) (drop 8 f)))).

Definition rx_data (me src : Z) (f : list Z) : op unit :=
  if lenz f <? 12 then ret tt
  else
    bump_stat inc_data_rx ;;
    let dst := getz f 7 0 in let port := num_at 8 2 f in let n := num_at 10 2 f in
    if PMESH_DATA_MAX <? n then ret tt
    else if lenz f <? 12 + n then ret tt
    else if DNODE_MAX <=? dst then modify count_bad
    else if dst =? me then bump_stat inc_delivered ;; local_dispatch src port (bytes_at 12 (Z.to_nat n) f)
    else
      bump_stat inc_data_relay ;;
      r ← gets (fun s => route_at (pmesh_routes s) dst);
      if negb (r_active r) then bump_stat inc_no_route else call (Udp (pk_node_ip (next_hop r)) f).

Definition pmesh_rx (me : Z) (f : list Z) : op unit :=
  if lenz f <? 8 then ret tt
  else if negb (num_at 0 4 f =? PMESH_MAGIC) then ret tt
  else if getz f 4 0 =? PMESH_VERSION2 then rx_v2 me f
  else if negb (getz f 4 0 =? PMESH_VERSION) then ret tt
  else if getz f 5 0 =? PMESH_BEACON then rx_beacon me (getz f 6 0) f
  else if getz f 5 0 =? PMESH_DATA then rx_data me (getz f 6 0) f
  else ret tt.

(** ** Sending *)

Definition enc_data (me dst port : Z) (data : list Z) : list Z :=
  le 4 PMESH_MAGIC ++ [PMESH_VERSION; PMESH_DATA; pk_node_v1 me; pk_node_v1 dst] ++ le 2 port ++ le 2 (lenz data) ++ data.
Definition enc_data_v2 (me dst port : Z) (data : list Z) : list Z :=
  le 4 PMESH_MAGIC ++ [PMESH_VERSION2; PMESH_DATA] ++ le 2 me ++ le 2 dst ++ le 2 port ++ le 2 (lenz data) ++ data.

Definition pmesh_send_v2 (me : Z) (alive reads : Z -> bool) (dst port : Z) (data : list Z) : op Z :=
  if PMESH_V2_DATA_MAX <? lenz data then ret (-1)
  else if me =? PK_NODE_NONE then ret (-1)
  else if dst =? me then ret (-1)
  else if negb ((DNODE_MAX <=? dst) || alive dst) || negb (reads dst) then bump_v2 inc_v2_noread ;; bump_stat inc_no_route ;; ret (-1)
  else call (Udp (pk_node_ip dst) (enc_data_v2 me dst port data)) ;; bump_v2 inc_v2_tx ;; bump_stat inc_data_tx ;; ret 0.

Definition pmesh_send (me : Z) (alive reads : Z -> bool) (dst port : Z) (data : list Z) : op Z :=
  if (DNODE_MAX <=? dst) || (DNODE_MAX <=? me) then pmesh_send_v2 me alive reads dst port data
  else if PMESH_DATA_MAX <? lenz data then ret (-1)
  else if me =? 0xFF then ret (-1)
  else
    r ← gets (fun s => route_at (pmesh_routes s) dst);
    if alive dst then call (Udp (pk_node_ip dst) (enc_data me dst port data)) ;; bump_stat inc_data_tx ;; ret 0
    else if r_active r then call (Udp (pk_node_ip (next_hop r)) (enc_data me dst port data)) ;; bump_stat inc_data_tx ;; ret 0
    else bump_stat inc_no_route ;; ret (-1).
