(* ===== verification/PmeshFacts.v ===== *)
(** * Routes lead home

    While no route expires, the cost of a route drops at every hop, whatever beacons
    are lost, late, doubled or out of order: so a frame that is sent arrives, in at
    most as many hops as its route costs. When the beacons of the neighbours
    arrive, the routes after [k] rounds are the shortest paths of up to [k] hops. A
    packet never breaks a table. The examples at the end show what expiry does: a
    route to a dead node is kept alive by the nodes that hear of it from each other,
    and two nodes can send a frame back and forth for ever. *)

From stdpp Require Import list.
#[local] Open Scope Z_scope.
From S2P Require Import Prelude.
From S2P Require Import Node.
From S2P Require Import Step.
From S2P Require Import Wire.
From S2P Require Import Pmesh.

#[local] Abbreviation table := (list PMESH_ROUTE).

(** ** One table *)

(** A route of node [me] to [d]. *)
Definition route_ok (me : Z) (d : nat) (r : PMESH_ROUTE) : Prop :=
  r_active r = true -> 0 <= next_hop r < DNODE_MAX /\ next_hop r <> me /\ 1 <= cost r <= PMESH_COST_INF /\ Z.of_nat d <> me /\ 0 <= age r <= PMESH_ROUTE_EXPIRE.
Definition table_ok (me : Z) (t : table) : Prop := lenz t = DNODE_MAX /\ forall (d : nat) r, t !! d = Some r -> route_ok me d r.

Lemma table0_ok me : table_ok me (replicate (Z.to_nat DNODE_MAX) no_path).
Proof. split; [reflexivity|]. intros d r Hd Ha. by apply lookup_replicate_1 in Hd as [-> _]. Qed.

Lemma route_at_nat (t : table) (d : nat) r : t !! d = Some r -> route_at t (Z.of_nat d) = r.
Proof. by apply getz_nat. Qed.

Lemma table_lookup me t d : table_ok me t -> 0 <= d < DNODE_MAX -> t !! Z.to_nat d = Some (route_at t d).
Proof.
  intros [Hl _] Hd. unfold lenz in Hl. destruct (lookup_lt_is_Some_2 t (Z.to_nat d)) as [r Hr]; [lia|]. rewrite Hr. f_equal. symmetry.
  rewrite <- (Z2Nat.id d) at 1 by lia. by apply route_at_nat.
Qed.

(** A route replaced by another. *)
Lemma table_set me t (d : nat) r : table_ok me t -> route_ok me d r -> table_ok me (<[d := r]> t).
Proof.
  intros [H1 H2] Hr. split; [unfold lenz in *; by rewrite length_insert|]. intros e x Hx. apply list_lookup_insert_Some in Hx as [(<- & <- & _)|[_ Hx]]; [done|by apply H2].
Qed.

(** What one entry does. [touched] is the route kept, with a fresh age. *)
Definition touched (r : PMESH_ROUTE) : PMESH_ROUTE := Route (next_hop r) (cost r) 0 (r_active r).
Definition heard (src c : Z) (r : PMESH_ROUTE) : PMESH_ROUTE := if negb (r_active r) || (c <? cost r) then Route src c 0 true else touched r.
(** The entries a node takes from the beacon of [src]. *)
Definition usable (me src : Z) (e : Z * Z) : bool := (0 <=? fst e) && (fst e <? DNODE_MAX) && negb (fst e =? me) && negb (fst e =? src) && negb (snd e =? PMESH_COST_INF).

Lemma merge_route_eq me src t e : 0 <= fst e -> 0 <= snd e < 256 -> merge_route me src t e = if usable me src e then setz t (fst e) (heard src (snd e + 1) (route_at t (fst e))) else t.
Proof.
  destruct e as [d c]. cbn [fst snd]. intros Hd Hc. unfold merge_route, usable, heard, touched. cbn [fst snd]. rewrite (proj2 (Z.leb_le 0 d)) by done. cbn [andb].
  rewrite Z.leb_antisym. destruct (d <? DNODE_MAX); [cbn [negb andb orb]|done]. destruct (d =? me); [done|]. destruct (d =? src); [done|]. cbn [negb andb orb].
  destruct (Z.eqb_spec c PMESH_COST_INF) as [|Hne]; [done|]. cbn [negb]. cbv zeta. rewrite u8_small by (unfold is_u8, PMESH_COST_INF in *; lia).
  rewrite (proj2 (Z.eqb_neq (c + 1) 0)) by lia. by destruct (negb _ || _).
Qed.

(** What a node takes from a beacon, as destinations at costs of its own. *)
Definition news (me src : Z) (es : list (Z * Z)) : list (Z * Z) := (src, 1) :: map (fun e => (fst e, snd e + 1)) (List.filter (usable me src) es).
Definition hear_one (src : Z) (t : table) (e : Z * Z) : table := setz t (fst e) (heard src (snd e) (route_at t (fst e))).
Definition entry_bytes (es : list (Z * Z)) : Prop := Forall (fun e => is_u8 (fst e) /\ is_u8 (snd e)) es.

Lemma merge_news me src es t : 0 <= src < DNODE_MAX -> src <> me -> entry_bytes es -> merge_beacon me src es t = fold_left (hear_one src) (news me src es) t.
Proof.
  intros Hs Hne Hes. unfold merge_beacon, news. cbn [fold_left].
  assert (update_direct me src t = hear_one src t (src, 1)) as ->.
  { unfold update_direct, hear_one, heard, touched. cbn [fst snd]. rewrite (proj2 (Z.leb_gt _ _)), (proj2 (Z.eqb_neq _ _)) by lia. cbn [orb]. by destruct (negb _ || _). }
  generalize (hear_one src t (src, 1)). induction Hes as [|e es [H1 H2] Hes IH]; intros t'; [done|]. cbn [fold_left List.filter]. unfold is_u8 in H1, H2.
  rewrite merge_route_eq by lia. destruct (usable me src e); cbn [map fold_left]; apply IH.
Qed.

(** How a table grows: no route is lost or gets worse, and a route is an old one or
    leads to [src] at a cost that was heard. *)
Definition improves (t t' : table) : Prop := forall (d : nat) r, t !! d = Some r -> r_active r = true -> exists r', t' !! d = Some r' /\ r_active r' = true /\ cost r' <= cost r.
#[local] Instance improves_preorder : PreOrder improves.
Proof.
  split; [intros t d r Hd Ha; by exists r|]. intros t t' t'' H1 H2 d r Hd Ha. destruct (H1 d r Hd Ha) as (r' & Hr' & Ha' & Hc'). destruct (H2 d r' Hr' Ha') as (r'' & Hr'' & Ha'' & Hc'').
  exists r''. split_and!; [done|done|lia].
Qed.

(** [said v d c]: neighbour [v] told of a way to [d] that costs [c] from here. *)
Record grows (me : Z) (said : Z -> Z -> Z -> Prop) (t t' : table) : Prop := {
  gr_ok : table_ok me t';
  gr_improves : improves t t';
  gr_heard : forall v d c, said v d c -> exists r, t' !! Z.to_nat d = Some r /\ r_active r = true /\ cost r <= c /\ age r = 0;
  gr_from : forall (d : nat) r', t' !! d = Some r' -> r_active r' = true ->
    (exists r, t !! d = Some r /\ r_active r = true /\ next_hop r' = next_hop r /\ cost r' = cost r /\ (age r' = age r \/ age r' = 0)) \/
    (age r' = 0 /\ said (next_hop r') (Z.of_nat d) (cost r')) }.

Lemma grows_refl me t : table_ok me t -> grows me (fun _ _ _ => False) t t.
Proof. intros Ht. split; [done|done|done|]. intros d r Hd Ha. left. exists r. split_and!; [done|done|done|done|by left]. Qed.

Lemma grows_trans me (S1 S2 S3 : Z -> Z -> Z -> Prop) t t1 t2 : grows me S1 t t1 -> grows me S2 t1 t2 -> (forall v d c, S3 v d c <-> S1 v d c \/ S2 v d c) -> grows me S3 t t2.
Proof.
  intros [O1 O2 O3 O4] [I1 I2 I3 I4] HS. split.
  - done.
  - by etrans.
  - intros v d c Hs. apply HS in Hs as [Hs|Hs]; [|by apply (I3 v)]. destruct (O3 v d c Hs) as (r & Hr & Ha & Hc & Hag).
    destruct (I2 _ _ Hr Ha) as (r' & Hr' & Ha' & Hc'). exists r'. split_and!; [done|done|lia|]. destruct (I4 _ _ Hr' Ha') as [(q & Hq & _ & _ & _ & Hage)|[Hage _]]; [|done].
    assert (q = r) as -> by congruence. destruct Hage; congruence.
  - intros d r' Hd Ha. destruct (I4 d r' Hd Ha) as [(r1 & Hr1 & Ha1 & En & Ec & Eg)|[Eg Hs]]; [|right; split; [done|]; apply HS; by right].
    destruct (O4 d r1 Hr1 Ha1) as [(r0 & Hr0 & Ha0 & En0 & Ec0 & Eg0)|[Eg0 Hs]].
    + left. exists r0. split_and!; [done|done|congruence|congruence|]. destruct Eg as [Eg|Eg]; [destruct Eg0 as [Eg0|Eg0]|]; [left|right|right]; congruence.
    + right. split; [destruct Eg; congruence|]. apply HS. left. by rewrite En, Ec.
Qed.

Definition new_for (me : Z) (e : Z * Z) : Prop := 0 <= fst e < DNODE_MAX /\ fst e <> me /\ 1 <= snd e <= PMESH_COST_INF.

Lemma hear_one_spec me src t e : table_ok me t -> 0 <= src < DNODE_MAX -> src <> me -> new_for me e -> grows me (fun v d c => v = src /\ (d, c) = e) t (hear_one src t e).
Proof.
  intros Ht Hs Hne (Hd & Hdm & Hc). destruct e as [d c]. cbn [fst snd] in *. pose proof (table_lookup me t d Ht Hd) as Hr. set (r := route_at t d) in *.
  assert (hear_one src t (d, c) = <[Z.to_nat d := heard src c r]> t) as ->.
  { unfold hear_one. cbn [fst snd]. fold r. rewrite <- (Z2Nat.id d) at 1 by lia. by rewrite setz_nat. }
  assert (r_active (heard src c r) = true) as Ha by (unfold heard; destruct (r_active r) eqn:E; [cbn [negb orb]; by destruct (c <? cost r)|done]).
  assert (cost (heard src c r) <= c /\ (r_active r = true -> cost (heard src c r) <= cost r)) as [Hc1 Hc2].
  { unfold heard, touched. destruct (r_active r) eqn:E; cbn [negb orb]; [|cbn [cost]; split; [lia|done]]. destruct (c <? cost r) eqn:El; cbn [cost]; bools; lia. }
  assert (age (heard src c r) = 0) as Hag by (unfold heard, touched; by destruct (_ || _)).
  assert (<[Z.to_nat d := heard src c r]> t !! Z.to_nat d = Some (heard src c r)) as Hh by (apply list_lookup_insert_eq; by eapply lookup_lt_Some).
  split.
  - apply table_set; [done|]. intros _. pose proof (proj2 Ht _ _ Hr) as Hro. unfold route_ok in Hro. rewrite Hag, Z2Nat.id by lia.
    assert (0 <= next_hop (heard src c r) < DNODE_MAX /\ next_hop (heard src c r) <> me /\ 1 <= cost (heard src c r)) as (N1 & N2 & N3).
    { unfold heard, touched. destruct (r_active r) eqn:E; cbn [negb orb]; [|cbn [next_hop cost]; lia]. destruct (Hro eq_refl) as (G1 & G2 & G3 & _).
      destruct (c <? cost r); cbn [next_hop cost]; lia. }
    unfold PMESH_ROUTE_EXPIRE. repeat split; try lia; done.
  - intros x q Hx Hq. destruct (decide (x = Z.to_nat d)) as [->|Hxd].
    + assert (q = r) as -> by congruence. exists (heard src c r). split_and!; [done|done|by apply Hc2].
    + exists q. rewrite list_lookup_insert_ne by done. split_and!; [done|done|lia].
  - intros v x y [_ [= -> ->]]. by exists (heard src c r).
  - intros x q Hx Hq. destruct (decide (x = Z.to_nat d)) as [->|Hxd].
    + rewrite Hh in Hx. injection Hx as <-. unfold heard, touched in *. destruct (negb (r_active r) || (c <? cost r)) eqn:E; cbn [next_hop cost age] in *.
      * right. rewrite Z2Nat.id by lia. split_and!; done.
      * left. exists r. bools. split_and!; [done|done|done|done|by right].
    + rewrite list_lookup_insert_ne in Hx by done. left. exists q. split_and!; [done|done|done|done|by left].
Qed.

Lemma hear_spec me src l t : table_ok me t -> 0 <= src < DNODE_MAX -> src <> me -> Forall (new_for me) l -> grows me (fun v d c => v = src /\ (d, c) ∈ l) t (fold_left (hear_one src) l t).
Proof.
  intros Ht Hs Hne Hl. revert t Ht. induction Hl as [|e l He Hl IH]; intros t Ht; cbn [fold_left].
  - apply (grows_trans me _ _ _ t t t (grows_refl me t Ht) (grows_refl me t Ht)). intros v d c. split; [by intros [_ ?%elem_of_nil]|by intros [?|?]].
  - pose proof (hear_one_spec me src t e Ht Hs Hne He) as Hone. apply (grows_trans me _ _ _ t _ _ Hone (IH _ (gr_ok _ _ _ _ Hone))).
    intros v d c. rewrite elem_of_cons. tauto.
Qed.

Lemma news_ok me src es : 0 <= src < DNODE_MAX -> src <> me -> entry_bytes es -> Forall (new_for me) (news me src es).
Proof.
  intros Hs Hne Hes. unfold news. apply list.Forall_cons. split; [split_and!; cbn [fst snd]; unfold PMESH_COST_INF; lia|].
  apply list.Forall_forall. intros e He. apply list_elem_of_In, in_map_iff in He as ((d & c) & <- & Hin). apply filter_In in Hin as [Hin Hu]. cbn [fst snd].
  unfold entry_bytes in Hes. rewrite list.Forall_forall in Hes. destruct (Hes (d, c)) as [H1 H2]; [by apply list_elem_of_In|]. cbn [fst snd] in *.
  unfold usable in Hu. cbn [fst snd] in Hu. bools. unfold new_for, is_u8, PMESH_COST_INF in *. cbn [fst snd]. lia.
Qed.

(** A beacon heard. *)
Lemma merge_spec me src es t : table_ok me t -> 0 <= src < DNODE_MAX -> src <> me -> entry_bytes es -> grows me (fun v d c => v = src /\ (d, c) ∈ news me src es) t (merge_beacon me src es t).
Proof. intros Ht Hs Hne Hes. rewrite merge_news by done. apply hear_spec; [done|done|done|by apply news_ok]. Qed.

Lemma news_in me src es d c : (d, c) ∈ news me src es <-> d = src /\ c = 1 \/ usable me src (d, c - 1) = true /\ (d, c - 1) ∈ es.
Proof.
  unfold news. rewrite elem_of_cons, list_elem_of_In, in_map_iff. split.
  - intros [[= -> ->]|([d' c'] & [= <- <-] & Hin)]; [by left|right]. cbn [fst snd]. replace (c' + 1 - 1) with c' by lia. apply filter_In in Hin as [Hin Hu]. split; [done|by apply list_elem_of_In].
  - intros [[-> ->]|[Hu Hin]]; [by left|right]. exists (d, c - 1). cbn [fst snd]. split; [f_equal; lia|]. apply filter_In. split; [by apply list_elem_of_In|done].
Qed.

(** ** Beacons as bytes *)

Lemma dec_enc_entries es : dec_entries (length es) (flat_map (fun e => [fst e; snd e; 0; 0]) es) = es.
Proof. induction es as [|[d c] es IH]; [done|]. cbn [length flat_map app dec_entries]. change (drop 4 (?a :: ?b :: ?x :: ?y :: ?l)) with l. by rewrite IH. Qed.
Lemma enc_entries_length es : length (flat_map (fun e => [fst e; snd e; 0; 0]) es) = (4 * length es)%nat.
Proof. induction es as [|e es IH]; [done|]. cbn [flat_map app length]. rewrite IH. lia. Qed.

Lemma node_v1_small w : 0 <= w < DNODE_MAX -> pk_node_v1 w = w.
Proof. intros Hw. unfold DNODE_MAX in Hw. unfold pk_node_v1. rewrite (proj2 (Z.ltb_lt _ _)) by (unfold PK_NODE_NONE; lia). apply u8_small. unfold is_u8. lia. Qed.

(** A beacon that is heard changes the routes only. *)
Lemma beacon_rx_eq me w es s : 0 <= w < DNODE_MAX -> w <> me -> lenz es <= DNODE_MAX ->
  pmesh_routes (exec (pmesh_rx me (enc_beacon w es)) s) = merge_beacon me w es (pmesh_routes s) /\
  pmesh_socks (exec (pmesh_rx me (enc_beacon w es)) s) = pmesh_socks s.
Proof.
  intros Hw Hne Hl. set (f := enc_beacon w es). assert (0 <= lenz es) as Hpos by (unfold lenz; lia).
  assert (lenz f = 8 + 4 * lenz es) as El by (unfold f, enc_beacon, lenz; rewrite !length_app, le_length, enc_entries_length; cbn [length]; lia).
  unfold pmesh_rx. rewrite (proj2 (Z.ltb_ge _ _)) by lia.
  change (num_at 0 4 f) with PMESH_MAGIC. change (getz f 4 0) with PMESH_VERSION. change (getz f 5 0) with PMESH_BEACON. change (getz f 6 0) with (pk_node_v1 w).
  rewrite node_v1_small by done. change (negb (PMESH_MAGIC =? PMESH_MAGIC)) with false. change (PMESH_VERSION =? PMESH_VERSION2) with false.
  change (negb (PMESH_VERSION =? PMESH_VERSION)) with false. change (PMESH_BEACON =? PMESH_BEACON) with true. cbv iota.
  unfold rx_beacon. rewrite (proj2 (Z.leb_gt _ _)), (proj2 (Z.eqb_neq _ _)) by lia. cbn [orb]. rewrite exec_bind. cbv zeta. change (getz f 7 0) with (lenz es).
  rewrite (proj2 (Z.ltb_ge _ _)) by (unfold u16, DNODE_MAX in *; rewrite Z.mod_small; lia).
  assert (drop 8 f = flat_map (fun e => [fst e; snd e; 0; 0]) es) as Ed by reflexivity. rewrite Ed. unfold lenz. rewrite Nat2Z.id, dec_enc_entries. by split.
Qed.

(** The routes a node tells of. *)
Lemma known_length t i : (length (known_routes t i) <= length t)%nat /\ ((exists (d : nat) r, t !! d = Some r /\ r_active r = false) -> (length (known_routes t i) < length t)%nat).
Proof.
  revert i. induction t as [|r t IH]; intros i; cbn [known_routes length]; [split; [lia|]; intros (d & r & Hd & _); by rewrite lookup_nil in Hd|].
  destruct (IH (i + 1)) as [H1 H2]. destruct (r_active r) eqn:Er; cbn [length]; split; try lia.
  intros (d & q & Hd & Hq). destruct d as [|d]; cbn [lookup list_lookup] in Hd; [congruence|]. pose proof (H2 (ex_intro _ d (ex_intro _ q (conj Hd Hq)))). lia.
Qed.

Lemma known_in t i d c : 0 <= i -> i + lenz t <= 256 -> (d, c) ∈ known_routes t i <-> exists (k : nat) r, t !! k = Some r /\ r_active r = true /\ d = i + Z.of_nat k /\ c = cost r.
Proof.
  revert i. induction t as [|r t IH]; intros i Hi Hl; cbn [known_routes].
  - split; [by intros ?%elem_of_nil|]. intros (k & r & Hk & _). by rewrite lookup_nil in Hk.
  - assert (0 <= i < 256) as Hb by (unfold lenz in Hl; cbn [length] in Hl; lia). assert (u8 i = i) as Eu by (apply u8_small; unfold is_u8; lia).
    assert ((d, c) ∈ known_routes t (i + 1) <-> exists (k : nat) q, t !! k = Some q /\ r_active q = true /\ d = i + 1 + Z.of_nat k /\ c = cost q) as IHt by (apply IH; unfold lenz in *; cbn [length] in Hl; lia).
    destruct (r_active r) eqn:Er; [rewrite elem_of_cons|]; rewrite IHt, ?Eu; split.
    + intros [[= -> ->]|(k & q & Hk & Hq & -> & ->)]; [exists 0%nat, r; split_and!; [done|done|lia|done]|exists (S k), q; split_and!; [done|done|lia|done]].
    + intros ([|k] & q & Hk & Hq & -> & ->); cbn [lookup list_lookup] in Hk; [injection Hk as ->; left; f_equal; lia|right; exists k, q; split_and!; [done|done|lia|done]].
    + intros (k & q & Hk & Hq & -> & ->). exists (S k), q. split_and!; [done|done|lia|done].
    + intros ([|k] & q & Hk & Hq & -> & ->); cbn [lookup list_lookup] in Hk; [congruence|]. exists k, q. split_and!; [done|done|lia|done].
Qed.

(** The beacon of a node: itself, and every route it has. *)
Lemma beacon_spec me t : table_ok me t -> 0 <= me < DNODE_MAX ->
  let es := beacon_entries me t in
  entry_bytes es /\ lenz es <= DNODE_MAX /\
  forall d c, (d, c) ∈ es <-> d = me /\ c = 0 \/ exists r, 0 <= d /\ t !! Z.to_nat d = Some r /\ r_active r = true /\ cost r = c.
Proof.
  intros Ht Hm. cbv zeta. pose proof (proj1 Ht) as Hl. pose proof (proj2 Ht) as Hr.
  assert (length (known_routes t 0) < length t)%nat as Hk.
  { apply known_length. pose proof (table_lookup me t me Ht Hm) as Hme. exists (Z.to_nat me), (route_at t me). split; [done|].
    destruct (r_active (route_at t me)) eqn:E; [|done]. destruct (Hr _ _ Hme E) as (_ & _ & _ & Hc & _). lia. }
  assert (beacon_entries me t = (me, 0) :: known_routes t 0) as E.
  { unfold beacon_entries. rewrite node_v1_small by done. apply take_ge. cbn [length]. unfold lenz, DNODE_MAX in *. lia. }
  assert (forall d c, (d, c) ∈ known_routes t 0 <-> exists r, 0 <= d /\ t !! Z.to_nat d = Some r /\ r_active r = true /\ cost r = c) as Hin.
  { intros d c. rewrite known_in by (rewrite ?Hl; unfold DNODE_MAX; lia). split.
    - intros (k & r & Hkr & Ha & -> & ->). exists r. replace (Z.to_nat (0 + Z.of_nat k)) with k by lia. split_and!; [lia|done|done|done].
    - intros (r & Hd & Hkr & Ha & <-). exists (Z.to_nat d), r. split_and!; [done|done|lia|done]. }
  rewrite E. split; [|split].
  - apply list.Forall_cons. split; [split; unfold is_u8, DNODE_MAX in *; cbn [fst snd]; lia|]. apply list.Forall_forall. intros [d c] Hdc. apply Hin in Hdc as (r & Hd & Hdr & Ha & <-).
    destruct (Hr _ _ Hdr Ha) as (_ & _ & Hc & _). apply lookup_lt_Some in Hdr. unfold lenz, DNODE_MAX, PMESH_COST_INF, is_u8 in *. cbn [fst snd]. lia.
  - unfold lenz in *. cbn [length]. lia.
  - intros d c. rewrite elem_of_cons, Hin. split; [intros [[= -> ->]|H]; [by left|by right]|intros [[-> ->]|H]; [by left|by right]].
Qed.

(** ** A turn of the task *)

Lemma age_spec me t : table_ok me t -> table_ok me (age_routes t) /\
  forall (d : nat) r, t !! d = Some r -> age_routes t !! d = Some (aged r) /\
    (r_active (aged r) = true -> r_active r = true /\ next_hop (aged r) = next_hop r /\ cost (aged r) = cost r /\ age (aged r) = age r + 1) /\
    (r_active r = true -> age r < PMESH_ROUTE_EXPIRE -> r_active (aged r) = true).
Proof.
  intros [Hl Hr]. assert (forall (d : nat) r, t !! d = Some r -> age_routes t !! d = Some (aged r)) as Hd by (intros d r Hd; unfold age_routes; by rewrite list_lookup_fmap, Hd).
  assert (forall (d : nat) r, t !! d = Some r -> r_active (aged r) = true -> r_active r = true /\ next_hop (aged r) = next_hop r /\ cost (aged r) = cost r /\ age (aged r) = age r + 1 /\ age (aged r) <= PMESH_ROUTE_EXPIRE) as Ha.
  { intros d r Hdr. unfold aged. destruct (r_active r) eqn:E; cbn [negb]; [|congruence]. destruct (Hr _ _ Hdr E) as (_ & _ & _ & _ & Hag). unfold PMESH_ROUTE_EXPIRE in *.
    rewrite u8_small by (unfold is_u8; lia). destruct (5 <? age r + 1) eqn:El; cbn [r_active next_hop cost age]; [done|]. bools. intros _. repeat split; lia. }
  split; [split|].
  - unfold lenz, age_routes in *. by rewrite length_map.
  - intros d q Hq Hqa. unfold age_routes in Hq. rewrite list_lookup_fmap in Hq. destruct (t !! d) as [r|] eqn:Hdr; [|done]. injection Hq as <-.
    destruct (Ha d r Hdr Hqa) as (A1 & -> & -> & E4 & E5). destruct (Hr _ _ Hdr A1) as (G1 & G2 & G3 & G4 & G5). rewrite E4 in *. repeat split; try lia; done.
  - intros d r Hdr. split; [by apply Hd|]. split.
    + intros E. destruct (Ha d r Hdr E) as (A1 & A2 & A3 & A4 & _). by split_and!.
    + intros E Hlt. unfold aged. rewrite E. cbn [negb]. destruct (Hr _ _ Hdr E) as (_ & _ & _ & _ & Hag). unfold PMESH_ROUTE_EXPIRE in *.
      rewrite u8_small by (unfold is_u8; lia). by rewrite (proj2 (Z.ltb_ge _ _)) by lia.
Qed.

Definition beacon_frame (me : Z) (t : table) : list Z := enc_beacon me (beacon_entries me t).

Lemma task_spec me s : 0 <= me < DNODE_MAX ->
  pmesh_routes (exec (pmesh_task me) s) = age_routes (pmesh_routes s) /\ pmesh_socks (exec (pmesh_task me) s) = pmesh_socks s /\
  forall x, x ∈ calls (pmesh_task me s) <-> exists n, 0 <= n < DNODE_MAX /\ n <> me /\ x = Udp (pk_node_ip n) (beacon_frame me (age_routes (pmesh_routes s))).
Proof.
  intros Hm. unfold pmesh_task. rewrite exec_bind, calls_bind. change (exec (modify ?f) s) with (f s). change (calls (modify ?f s)) with (@nil link). cbn [app].
  set (s1 := with_routes age_routes s). change (age_routes (pmesh_routes s)) with (pmesh_routes s1). change (pmesh_socks s) with (pmesh_socks s1).
  unfold send_beacon. rewrite (proj2 (Z.eqb_neq me 0xFF)) by (unfold DNODE_MAX in Hm; lia).
  rewrite !exec_bind, !calls_bind. change (val (gets pmesh_routes s1)) with (pmesh_routes s1). change (exec (gets pmesh_routes) s1) with s1. change (calls (gets ?f s1)) with (@nil link). cbn [app].
  fold (beacon_frame me (pmesh_routes s1)). set (F := beacon_frame me (pmesh_routes s1)).
  assert (forall l s2, exec (iter l (fun n => when (negb (n =? me)) (call (S := pmesh) (Udp (pk_node_ip n) F)))) s2 = s2 /\
    forall x, x ∈ calls (iter l (fun n => when (negb (n =? me)) (call (S := pmesh) (Udp (pk_node_ip n) F))) s2) <-> exists n, n ∈ l /\ n <> me /\ x = Udp (pk_node_ip n) F) as Hit.
  { induction l as [|n l IH]; intros s2; cbn [iter].
    - split; [done|]. intros x. split; [by intros ?%elem_of_nil|]. by intros (n & ?%elem_of_nil & _).
    - rewrite exec_bind, calls_bind. assert (exec (when (negb (n =? me)) (call (Udp (pk_node_ip n) F))) s2 = s2) as -> by (unfold when; by destruct (negb _)).
      destruct (IH s2) as [I1 I2]. split; [done|]. intros x. rewrite elem_of_app, I2. unfold when. destruct (Z.eqb_spec n me) as [->|Hne]; cbn [negb].
      + split; [intros [?%elem_of_nil|(m & Hin & Hr)]; [done|exists m; split; [by right|done]]|]. intros (m & Hin & Hne & ->). apply elem_of_cons in Hin as [->|Hin]; [done|]. right. by exists m.
      + split.
        * intros [Hx|(m & Hin & Hr)]; [exists n; split; [by left|split; [done|]]|exists m; split; [by right|done]]. apply elem_of_cons in Hx as [->|Hx]; [done|by apply elem_of_nil in Hx].
        * intros (m & Hin & Hm2 & ->). apply elem_of_cons in Hin as [->|Hin]; [left; by left|right; by exists m]. }
  destruct (Hit (seqZ 0 DNODE_MAX) s1) as [H1 H2]. rewrite H1. split_and!; [done|done|]. intros x. change (calls (bump_stat inc_beacon_tx s1)) with (@nil link). rewrite app_nil_r, H2. setoid_rewrite elem_of_seqZ. split.
  - intros (n & Hn & Hr). exists n. split; [lia|done].
  - intros (n & Hn & Hr). exists n. split; [lia|done].
Qed.

(** ** A fleet

    Nodes [0] to [N - 1], each with its table, and every beacon sent so far, with
    the address it went to: a beacon may be heard late, often, or never. *)

Record fleet : Type := Fleet { nodes : list pmesh; air : list (Z * list Z) }.
Inductive event : Type := Turn (u : nat) | Hear (u i : nat).

Definition on_air (l : list link) : list (Z * list Z) := flat_map (fun x => match x with Udp ip f => [(ip, f)] | Deliver _ _ _ _ => [] end) l.
Definition fstep (e : event) (m : fleet) : fleet :=
  match e with
  | Turn u => match nodes m !! u with
              | Some s => Fleet (<[u := exec (pmesh_task (Z.of_nat u)) s]> (nodes m)) (air m ++ on_air (calls (pmesh_task (Z.of_nat u) s)))
              | None => m
              end
  | Hear u i => match nodes m !! u, air m !! i with
                | Some s, Some (ip, f) => if ip =? pk_node_ip (Z.of_nat u) then Fleet (<[u := exec (pmesh_rx (Z.of_nat u) f) s]> (nodes m)) (air m) else m
                | _, _ => m
                end
  end.
Definition frun (l : list event) (m : fleet) : fleet := fold_left (fun m e => fstep e m) l m.

(** No route is about to expire at a turn. *)
Definition calm (e : event) (m : fleet) : Prop :=
  match e with
  | Turn u => forall s (d : nat) r, nodes m !! u = Some s -> pmesh_routes s !! d = Some r -> r_active r = true -> age r < PMESH_ROUTE_EXPIRE
  | Hear _ _ => True
  end.
Fixpoint calm_run (l : list event) (m : fleet) : Prop := match l with [] => True | e :: l => calm e m /\ calm_run l (fstep e m) end.

(** Node [w] has a route to [d] of cost at most [c]. *)
Definition has_route (m : fleet) (w : Z) (d : nat) (c : Z) : Prop := exists s r, 0 <= w /\ nodes m !! Z.to_nat w = Some s /\ pmesh_routes s !! d = Some r /\ r_active r = true /\ cost r <= c.

Record descends (m : fleet) : Prop := {
  de_size : lenz (nodes m) <= DNODE_MAX;
  de_ok : forall (u : nat) s, nodes m !! u = Some s -> table_ok (Z.of_nat u) (pmesh_routes s);
  de_hop : forall (u : nat) s (d : nat) r, nodes m !! u = Some s -> pmesh_routes s !! d = Some r -> r_active r = true ->
    next_hop r < lenz (nodes m) /\ (next_hop r = Z.of_nat d \/ has_route m (next_hop r) d (cost r - 1));
  de_air : forall ip f, (ip, f) ∈ air m -> exists (w : nat) es, (w < length (nodes m))%nat /\ f = enc_beacon (Z.of_nat w) es /\ entry_bytes es /\ lenz es <= DNODE_MAX /\
    ip <> pk_node_ip (Z.of_nat w) /\ forall (d : nat) c, (Z.of_nat d, c) ∈ es -> Z.of_nat d = Z.of_nat w \/ has_route m (Z.of_nat w) d c }.

(** One table replaced by a better one. *)
Lemma has_route_put m (u : nat) s s' a w d c : nodes m !! u = Some s -> improves (pmesh_routes s) (pmesh_routes s') -> has_route m w d c -> has_route (Fleet (<[u := s']> (nodes m)) a) w d c.
Proof.
  intros Hu Him (x & r & Hw & Hx & Hr & Ha & Hc). destruct (decide (u = Z.to_nat w)) as [->|Hne].
  - assert (x = s) as -> by congruence. destruct (Him d r Hr Ha) as (r' & Hr' & Ha' & Hc'). exists s', r'. cbn [nodes]. split_and!; [done| |done|done|lia]. apply list_lookup_insert_eq. by eapply lookup_lt_Some.
  - exists x, r. cbn [nodes]. by rewrite list_lookup_insert_ne.
Qed.

Lemma node_small m (u : nat) s : descends m -> nodes m !! u = Some s -> 0 <= Z.of_nat u < DNODE_MAX.
Proof. intros Hm Hu. apply lookup_lt_Some in Hu. pose proof (de_size _ Hm) as H. unfold lenz in H. lia. Qed.

Lemma descends_put m (u : nat) s s' new : descends m -> nodes m !! u = Some s -> table_ok (Z.of_nat u) (pmesh_routes s') -> improves (pmesh_routes s) (pmesh_routes s') ->
  (forall (d : nat) r, pmesh_routes s' !! d = Some r -> r_active r = true ->
     (exists q, pmesh_routes s !! d = Some q /\ r_active q = true /\ next_hop r = next_hop q /\ cost r = cost q) \/
     next_hop r < lenz (nodes m) /\ (next_hop r = Z.of_nat d \/ has_route m (next_hop r) d (cost r - 1))) ->
  (forall ip f, (ip, f) ∈ new -> f = beacon_frame (Z.of_nat u) (pmesh_routes s') /\ ip <> pk_node_ip (Z.of_nat u)) ->
  descends (Fleet (<[u := s']> (nodes m)) (air m ++ new)).
Proof.
  intros Hm Hu Hok Him Hhop Hnew. assert (lenz (<[u := s']> (nodes m)) = lenz (nodes m)) as El by (unfold lenz; by rewrite length_insert). split; cbn [nodes air].
  - rewrite El. apply Hm.
  - intros v x Hv. apply list_lookup_insert_Some in Hv as [(<- & <- & _)|[_ Hv]]; [done|]. by apply (de_ok _ Hm).
  - rewrite El. intros v x d r Hv Hr Ha. apply list_lookup_insert_Some in Hv as [(<- & <- & _)|[_ Hv]].
    + destruct (Hhop d r Hr Ha) as [(q & Hq & Hqa & -> & ->)|[H1 H2]].
      * destruct (de_hop _ Hm u s d q Hu Hq Hqa) as [H1 H2]. split; [done|]. destruct H2 as [H2|H2]; [by left|right]. by apply (has_route_put m u s s').
      * split; [done|]. destruct H2 as [H2|H2]; [by left|right]. by apply (has_route_put m u s s').
    + destruct (de_hop _ Hm v x d r Hv Hr Ha) as [H1 H2]. split; [done|]. destruct H2 as [H2|H2]; [by left|right]. by apply (has_route_put m u s s').
  - intros ip f Hin. rewrite length_insert. apply elem_of_app in Hin as [Hin|Hin].
    + destruct (de_air _ Hm ip f Hin) as (w & es & H1 & H2 & H3 & H4 & H5 & H6). exists w, es. split_and!; [done|done|done|done|done|].
      intros d c Hdc. destruct (H6 d c Hdc) as [E|E]; [by left|right]. by apply (has_route_put m u s s').
    + destruct (Hnew ip f Hin) as [-> Hip]. pose proof (node_small m u s Hm Hu) as Hub. destruct (beacon_spec (Z.of_nat u) (pmesh_routes s') Hok Hub) as (B1 & B2 & B3).
      exists u, (beacon_entries (Z.of_nat u) (pmesh_routes s')). split_and!; [by eapply lookup_lt_Some|done|done|done|done|].
      intros d c Hdc. apply B3 in Hdc as [[-> _]|(r & _ & Hr & Ha & <-)]; [by left|right]. rewrite Nat2Z.id in Hr. exists s', r. cbn [nodes]. rewrite Nat2Z.id.
      split_and!; [lia| |done|done|lia]. apply list_lookup_insert_eq. by eapply lookup_lt_Some.
Qed.

Lemma aged_improves me t : table_ok me t -> (forall (d : nat) r, t !! d = Some r -> r_active r = true -> age r < PMESH_ROUTE_EXPIRE) -> improves t (age_routes t).
Proof.
  intros Ht Hcalm d r Hr Ha. destruct (age_spec me t Ht) as [_ Hd]. destruct (Hd d r Hr) as (E & H1 & H2). pose proof (H2 Ha (Hcalm d r Hr Ha)) as Ha'.
  destruct (H1 Ha') as (_ & _ & Hc & _). exists (aged r). split_and!; [done|done|lia].
Qed.

Lemma aged_old me t (d : nat) r : table_ok me t -> age_routes t !! d = Some r -> r_active r = true ->
  exists q, t !! d = Some q /\ r_active q = true /\ next_hop r = next_hop q /\ cost r = cost q /\ age r = age q + 1.
Proof.
  intros Ht Hr Ha. destruct (age_spec me t Ht) as [_ Hd]. unfold age_routes in Hr. rewrite list_lookup_fmap in Hr. destruct (t !! d) as [q|] eqn:Hq; [|done]. injection Hr as <-.
  destruct (Hd d q Hq) as (_ & H1 & _). destruct (H1 Ha) as (A1 & A2 & A3 & A4). by exists q.
Qed.

(** An address names one node. *)
Lemma ip_inj u v : 0 <= u < DNODE_MAX -> 0 <= v < DNODE_MAX -> pk_node_ip u = pk_node_ip v -> u = v.
Proof.
  assert (forall a, 0 <= a < DNODE_MAX -> Z.land (Z.shiftr (pk_node_ip a) 24) 0xFF = a + 1) as H.
  { intros a Ha. assert (forallb (fun a => Z.land (Z.shiftr (pk_node_ip a) 24) 0xFF =? a + 1) (seqZ 0 DNODE_MAX) = true) as Hb by (vm_compute; reflexivity).
    rewrite forallb_forall in Hb. apply Z.eqb_eq, Hb, list_elem_of_In, elem_of_seqZ. lia. }
  intros Hu Hv E. pose proof (H u Hu) as H1. pose proof (H v Hv) as H2. rewrite E in H1. lia.
Qed.

Lemma fstep_descends e m : descends m -> calm e m -> descends (fstep e m).
Proof.
  intros Hm He. destruct e as [u|u i]; cbn [fstep calm] in *.
  - destruct (nodes m !! u) as [s|] eqn:Hu; [|done]. pose proof (node_small m u s Hm Hu) as Hub. pose proof (de_ok _ Hm u s Hu) as Hok.
    destruct (task_spec (Z.of_nat u) s Hub) as (T1 & _ & T3). destruct (age_spec _ _ Hok) as [A1 _]. apply (descends_put m u s); try done; rewrite ?T1.
    + exact A1.
    + apply (aged_improves (Z.of_nat u)); [done|]. intros d r. by apply He.
    + intros d r Hr Ha. destruct (aged_old _ _ d r Hok Hr Ha) as (q & Q1 & Q2 & Q3 & Q4 & _). left. by exists q.
    + intros ip f Hin. unfold on_air in Hin. apply list_elem_of_In, in_flat_map in Hin as (x & Hx & Hin). apply list_elem_of_In, T3 in Hx as (n & Hn & Hne & ->).
      destruct Hin as [[= <- <-]|[]]. split; [done|]. intros E. apply Hne. by apply ip_inj.
  - destruct (nodes m !! u) as [s|] eqn:Hu; [|done]. destruct (air m !! i) as [[ip f]|] eqn:Hi; [|done]. destruct (Z.eqb_spec ip (pk_node_ip (Z.of_nat u))) as [->|]; [|done].
    pose proof (node_small m u s Hm Hu) as Hub. pose proof (de_ok _ Hm u s Hu) as Hok. pose proof (de_size _ Hm) as Hsz. apply list_elem_of_lookup_2 in Hi.
    destruct (de_air _ Hm _ _ Hi) as (w & es & H1 & -> & H3 & H4 & H5 & H6). assert (0 <= Z.of_nat w < DNODE_MAX) as Hw by (unfold lenz in Hsz; lia).
    assert (Z.of_nat w <> Z.of_nat u) as Hne by congruence. destruct (beacon_rx_eq (Z.of_nat u) (Z.of_nat w) es s Hw Hne H4) as [E _].
    destruct (merge_spec (Z.of_nat u) (Z.of_nat w) es (pmesh_routes s) Hok Hw Hne H3) as [M1 M2 _ M4].
    rewrite <- (app_nil_r (air m)). apply (descends_put m u s); try done; rewrite ?E; [done|done| |by intros ? ? ?%elem_of_nil].
    intros d r Hr Ha. destruct (M4 d r Hr Ha) as [(q & Q1 & Q2 & Q3 & Q4 & _)|(_ & En & Hin)]; [left; by exists q|right]. rewrite En. split; [unfold lenz; lia|].
    apply news_in in Hin as [[Ed _]|[_ Hin]]; [by left|]. destruct (H6 d _ Hin) as [Ed|Hh]; [by left|by right].
Qed.

Lemma frun_descends l m : descends m -> calm_run l m -> descends (frun l m).
Proof. revert m. induction l as [|e l IH]; intros m Hm Hc; [done|]. destruct Hc as [He Hc]. cbn [frun fold_left]. apply IH; [by apply fstep_descends|done]. Qed.

(** A fleet at boot: empty tables, whatever ports are bound. *)
Definition booted (socks : list (list PMESH_SOCK)) : fleet := Fleet (map fresh socks) [].
Lemma booted_descends socks : lenz socks <= DNODE_MAX -> descends (booted socks).
Proof.
  intros Hl. assert (forall (u : nat) s, map fresh socks !! u = Some s -> pmesh_routes s = replicate (Z.to_nat DNODE_MAX) no_path) as Hr.
  { intros u s Hu. rewrite list_lookup_fmap in Hu. destruct (socks !! u); [|done]. by injection Hu as <-. }
  split; cbn [booted nodes air].
  - unfold lenz in *. by rewrite length_map.
  - intros u s Hu. rewrite (Hr u s Hu). apply table0_ok.
  - intros u s d r Hu Hd Ha. rewrite (Hr u s Hu) in Hd. by apply lookup_replicate_1 in Hd as [-> _].
  - by intros ip f ?%elem_of_nil.
Qed.

(** ** A frame on its way *)

(** The node with an address, and where a frame ends: at most [n] nodes take it. *)
Definition node_of (ip : Z) : option Z := find (fun v => pk_node_ip v =? ip) (seqZ 0 DNODE_MAX).
Fixpoint carried (n : nat) (m : fleet) (ip : Z) (f : list Z) : option (Z * link) :=
  match n with
  | O => None
  | S n =>
      match node_of ip with
      | None => None
      | Some v =>
          match nodes m !! Z.to_nat v with
          | None => None
          | Some s => match calls (pmesh_rx v f s) with [Udp ip' f'] => carried n m ip' f' | [x] => Some (v, x) | _ => None end
          end
      end
  end.

Lemma node_of_ip v : 0 <= v < DNODE_MAX -> node_of (pk_node_ip v) = Some v.
Proof.
  intros Hv. unfold node_of. destruct (find _ _) as [w|] eqn:E.
  - apply find_some in E as [Hin Hw]. apply list_elem_of_In, elem_of_seqZ in Hin. f_equal. apply ip_inj; [lia|done|lia].
  - exfalso. assert ((pk_node_ip v =? pk_node_ip v) = false) as Hf by (apply (find_none _ _ E); apply list_elem_of_In, elem_of_seqZ; lia). rewrite Z.eqb_refl in Hf. done.
Qed.

(** What a node does with a data frame. *)
Definition bound (s : pmesh) (port fn : Z) : Prop := exists x, find (fun x => s_active x && (s_port x =? port)) (pmesh_socks s) = Some x /\ s_fn x = fn.

Lemma data_rx_eq v src dst port data s : 0 <= src < DNODE_MAX -> 0 <= dst < DNODE_MAX -> 0 <= port < 2 ^ 16 -> lenz data <= PMESH_DATA_MAX ->
  (v = dst -> forall fn, bound s port fn -> calls (pmesh_rx v (enc_data src dst port data) s) = [Deliver fn src port data]) /\
  (v <> dst -> r_active (route_at (pmesh_routes s) dst) = true ->
     calls (pmesh_rx v (enc_data src dst port data) s) = [Udp (pk_node_ip (next_hop (route_at (pmesh_routes s) dst))) (enc_data src dst port data)]).
Proof.
  intros Hs Hd Hp Hl. set (f := enc_data src dst port data). unfold PMESH_DATA_MAX in Hl. assert (0 <= lenz data) as Hpos by (unfold lenz; lia).
  assert (f = le 4 PMESH_MAGIC ++ [PMESH_VERSION; PMESH_DATA; pk_node_v1 src; pk_node_v1 dst] ++ le 2 port ++ le 2 (lenz data) ++ data) as Ef by reflexivity.
  assert (lenz f = 12 + lenz data) as El by (unfold lenz; rewrite Ef, !length_app, !le_length; cbn [length]; lia).
  assert (num_at 8 2 f = port) as E8 by (rewrite Ef; fields).
  assert (num_at 10 2 f = lenz data) as E10 by (rewrite Ef; fields).
  assert (bytes_at 12 (Z.to_nat (lenz data)) f = data) as E12 by (unfold lenz; rewrite Nat2Z.id, Ef; fields).
  assert (pmesh_rx v f = rx_data v src f) as Erx.
  { unfold pmesh_rx. rewrite (proj2 (Z.ltb_ge _ _)) by lia. change (num_at 0 4 f) with PMESH_MAGIC. change (getz f 4 0) with PMESH_VERSION. change (getz f 5 0) with PMESH_DATA.
    change (getz f 6 0) with (pk_node_v1 src). by rewrite node_v1_small. }
  rewrite Erx. unfold rx_data. change (getz f 7 0) with (pk_node_v1 dst). rewrite node_v1_small by done. rewrite El, E8, E10, E12. rewrite (proj2 (Z.ltb_ge _ 12)) by lia. cbv zeta.
  unfold PMESH_DATA_MAX. rewrite (proj2 (Z.ltb_ge 1380 _)), (proj2 (Z.ltb_ge _ (12 + _))), (proj2 (Z.leb_gt _ dst)) by lia.
  rewrite calls_bind. change (calls (bump_stat inc_data_rx s)) with (@nil link). set (s1 := exec (bump_stat inc_data_rx) s). cbn [app]. split.
  - intros -> fn (x & Hx & <-). rewrite Z.eqb_refl, calls_bind. change (calls (bump_stat inc_delivered s1)) with (@nil link). set (s2 := exec (bump_stat inc_delivered) s1). cbn [app].
    unfold local_dispatch. rewrite calls_bind. change (val (gets pmesh_socks s2)) with (pmesh_socks s). change (calls (gets pmesh_socks s2)) with (@nil link). cbn [app].
    by rewrite Hx.
  - intros Hne Ha. rewrite (proj2 (Z.eqb_neq _ _)) by congruence. rewrite !calls_bind. change (calls (bump_stat inc_data_relay s1)) with (@nil link). set (s2 := exec (bump_stat inc_data_relay) s1).
    change (calls (gets ?g s2)) with (@nil link). change (val (gets ?g s2)) with (g s2). cbn [app]. cbv beta. change (pmesh_routes s2) with (pmesh_routes s). by rewrite Ha.
Qed.

(** A frame at a node that has a route, or is the destination, arrives. *)
Lemma carried_home m src dst port data fn sd : descends m -> 0 <= src < DNODE_MAX -> 0 <= dst -> nodes m !! Z.to_nat dst = Some sd -> bound sd port fn ->
  0 <= port < 2 ^ 16 -> lenz data <= PMESH_DATA_MAX ->
  forall c v, v = dst /\ 0 <= c \/ has_route m v (Z.to_nat dst) c -> carried (S (Z.to_nat c)) m (pk_node_ip v) (enc_data src dst port data) = Some (dst, Deliver fn src port data).
Proof.
  intros Hm Hs Hd Hsd Hb Hp Hl c. assert (0 <= dst < DNODE_MAX) as Hdb by (pose proof (node_small m _ _ Hm Hsd); lia).
  assert (forall n c, (Z.to_nat c < n)%nat -> forall v, v = dst /\ 0 <= c \/ has_route m v (Z.to_nat dst) c -> carried (S (Z.to_nat c)) m (pk_node_ip v) (enc_data src dst port data) = Some (dst, Deliver fn src port data)) as Hind.
  { clear c. induction n as [|n IH]; intros c Hc v Hv; [lia|].
    assert (exists s, nodes m !! Z.to_nat v = Some s /\ 0 <= v < DNODE_MAX) as (s & Hvs & Hvb).
    { destruct Hv as [[-> _]|(s & r & Hv & Hvs & _)]; [by exists sd|]. exists s. split; [done|]. pose proof (node_small m _ _ Hm Hvs). lia. }
    cbn [carried]. rewrite node_of_ip, Hvs by done. destruct (data_rx_eq v src dst port data s Hs Hdb Hp Hl) as [R1 R2].
    destruct (decide (v = dst)) as [->|Hne].
    - assert (s = sd) as -> by congruence. by rewrite (R1 eq_refl fn Hb).
    - destruct Hv as [[-> _]|(s' & r & _ & Hvs' & Hr & Ha & Hcr)]; [done|]. assert (s' = s) as -> by congruence.
      assert (route_at (pmesh_routes s) dst = r) as Er by (rewrite <- (Z2Nat.id dst) by done; by apply route_at_nat). rewrite (R2 Hne) by by rewrite Er. rewrite Er.
      destruct (de_hop _ Hm _ s _ r Hvs Hr Ha) as [_ Hhop]. destruct (proj2 (de_ok _ Hm _ s Hvs) _ r Hr Ha) as (_ & _ & Hc1 & _).
      replace (Z.to_nat c) with (S (Z.to_nat (c - 1))) by lia. apply IH; [lia|]. rewrite Z2Nat.id in Hhop by done. destruct Hhop as [->|(x & q & X1 & X2 & X3 & X4 & X5)]; [left; split; [done|lia]|].
      right. exists x, q. split_and!; [done|done|done|done|lia]. }
  intros v Hv. by apply (Hind (S (Z.to_nat c)) c ltac:(lia)).
Qed.

(** What an accepted send does. *)
Lemma send_spec me alive reads dst port data s : 0 <= me < DNODE_MAX -> 0 <= dst < DNODE_MAX -> lenz data <= PMESH_DATA_MAX ->
  let r := route_at (pmesh_routes s) dst in
  if alive dst || r_active r
  then val (pmesh_send me alive reads dst port data s) = 0 /\
       calls (pmesh_send me alive reads dst port data s) = [Udp (pk_node_ip (if alive dst then dst else next_hop r)) (enc_data me dst port data)]
  else val (pmesh_send me alive reads dst port data s) = -1 /\ calls (pmesh_send me alive reads dst port data s) = [].
Proof.
  intros Hm Hd Hl r. unfold pmesh_send. rewrite (proj2 (Z.leb_gt _ dst)), (proj2 (Z.leb_gt _ me)), (proj2 (Z.ltb_ge _ _)), (proj2 (Z.eqb_neq me 0xFF)) by (unfold DNODE_MAX in *; lia).
  cbn [orb]. rewrite val_bind, calls_bind. change (val (gets ?g s)) with (g s). change (exec (gets ?g) s) with s. change (calls (gets ?g s)) with (@nil link). cbv beta. fold r. cbn [app].
  destruct (alive dst); [by split|]. destruct (r_active r); by split.
Qed.

(** ** Rounds

    In a round every node takes its turn, and hears the beacon of each of its
    neighbours, [nb], in some order. *)

Definition turned (ns : list pmesh) : list pmesh := imap (fun u s => exec (pmesh_task (Z.of_nat u)) s) ns.
Definition listen (u : Z) (ts : list pmesh) (vs : list Z) (s : pmesh) : pmesh :=
  fold_left (fun s v => match ts !! Z.to_nat v with Some sv => exec (pmesh_rx u (beacon_frame v (pmesh_routes sv))) s | None => s end) vs s.
Definition round (nb : Z -> list Z) (ns : list pmesh) : list pmesh := imap (fun u s => listen (Z.of_nat u) (turned ns) (nb (Z.of_nat u)) s) (turned ns).
Fixpoint rounds (k : nat) (nb : Z -> list Z) (ns : list pmesh) : list pmesh := match k with O => ns | S k => round nb (rounds k nb ns) end.

(** Ways of [j] hops from [u] to [d]. *)
Fixpoint path (nb : Z -> list Z) (j : nat) (u d : Z) : Prop := match j with O => u = d | S j => exists v, v ∈ nb u /\ path nb j v d end.

Lemma listen_spec u ts vs s : 0 <= u < DNODE_MAX -> table_ok u (pmesh_routes s) ->
  (forall v, v ∈ vs -> 0 <= v < DNODE_MAX /\ v <> u /\ exists sv, ts !! Z.to_nat v = Some sv /\ table_ok v (pmesh_routes sv)) ->
  grows u (fun v d c => v ∈ vs /\ exists sv, ts !! Z.to_nat v = Some sv /\ (d, c) ∈ news u v (beacon_entries v (pmesh_routes sv))) (pmesh_routes s) (pmesh_routes (listen u ts vs s)).
Proof.
  intros Hu. revert s. induction vs as [|v vs IH]; intros s Hs Hvs.
  - apply (grows_trans u _ _ _ _ _ _ (grows_refl u _ Hs) (grows_refl u _ Hs)). intros x d c. split; [by intros [?%elem_of_nil _]|by intros [?|?]].
  - cbn [listen fold_left]. destruct (Hvs v ltac:(left)) as (Hv & Hne & sv & Hsv & Hok). rewrite Hsv. destruct (beacon_spec v _ Hok Hv) as (B1 & B2 & _).
    destruct (beacon_rx_eq u v (beacon_entries v (pmesh_routes sv)) s Hv Hne B2) as [E _]. fold (beacon_frame v (pmesh_routes sv)) in E.
    pose proof (merge_spec u v _ (pmesh_routes s) Hs Hv Hne B1) as Hm. rewrite <- E in Hm.
    assert (forall w, w ∈ vs -> 0 <= w < DNODE_MAX /\ w <> u /\ exists sw, ts !! Z.to_nat w = Some sw /\ table_ok w (pmesh_routes sw)) as Hvs' by (intros w Hw; apply Hvs; by right).
    apply (grows_trans u _ _ _ _ _ _ Hm (IH _ (gr_ok _ _ _ _ Hm) Hvs')). intros w d c. rewrite elem_of_cons. split.
    + intros [[->|Hw] (sw & Hsw & Hin)]; [left; split; [done|]; congruence|right; split; [done|by exists sw]].
    + intros [[-> Hin]|[Hw Hr]]; [split; [by left|by exists sv]|split; [by right|done]].
Qed.

(** A graph over the nodes of a fleet. *)
Definition graph_ok (n : nat) (nb : Z -> list Z) : Prop := (Z.of_nat n <= DNODE_MAX) /\ forall u v, v ∈ nb u -> 0 <= v < Z.of_nat n /\ v <> u.

(** After [k] rounds. *)
Record settled (n : nat) (nb : Z -> list Z) (k : nat) (ns : list pmesh) : Prop := {
  se_size : length ns = n;
  se_ok : forall (u : nat) s, ns !! u = Some s -> table_ok (Z.of_nat u) (pmesh_routes s);
  se_route : forall (u : nat) s (d : nat) r, ns !! u = Some s -> pmesh_routes s !! d = Some r -> r_active r = true ->
    age r = 0 /\ cost r <= Z.of_nat k /\ next_hop r ∈ nb (Z.of_nat u) /\ path nb (Z.to_nat (cost r)) (Z.of_nat u) (Z.of_nat d) /\
    (next_hop r = Z.of_nat d \/ exists sv q, ns !! Z.to_nat (next_hop r) = Some sv /\ pmesh_routes sv !! d = Some q /\ r_active q = true);
  se_found : forall (u d : nat) s j, ns !! u = Some s -> u <> d -> (j <= k)%nat -> path nb j (Z.of_nat u) (Z.of_nat d) ->
    exists r, pmesh_routes s !! d = Some r /\ r_active r = true /\ cost r <= Z.of_nat j }.

Lemma turned_lookup ns (u : nat) s : Z.of_nat (length ns) <= DNODE_MAX -> turned ns !! u = Some s -> exists s0, ns !! u = Some s0 /\ pmesh_routes s = age_routes (pmesh_routes s0).
Proof.
  intros Hl Ht. unfold turned in Ht. rewrite list_lookup_imap in Ht. destruct (ns !! u) as [s0|] eqn:Hu; [|done]. injection Ht as <-. exists s0. split; [done|].
  apply task_spec. apply lookup_lt_Some in Hu. lia.
Qed.

Section rounds.
Context (n : nat) (nb : Z -> list Z) (Hg : graph_ok n nb).

Lemma turned_get ns (u : nat) s0 : length ns = n -> ns !! u = Some s0 -> exists s, turned ns !! u = Some s /\ pmesh_routes s = age_routes (pmesh_routes s0).
Proof.
  intros Hl Hu. destruct (turned ns !! u) as [s|] eqn:Ht.
  - exists s. split; [done|]. destruct (turned_lookup ns u s) as (s1 & E1 & E2); [rewrite Hl; apply Hg|done|]. congruence.
  - unfold turned in Ht. rewrite list_lookup_imap, Hu in Ht. done.
Qed.

(** What a neighbour that has a route tells. *)
Lemma tells k ns u (v d : nat) s0 s q : settled n nb k ns -> (k <= 253)%nat -> ns !! v = Some s0 -> turned ns !! v = Some s -> pmesh_routes s = age_routes (pmesh_routes s0) ->
  pmesh_routes s0 !! d = Some q -> r_active q = true -> Z.of_nat d <> u -> (Z.of_nat d, cost q + 1) ∈ news u (Z.of_nat v) (beacon_entries (Z.of_nat v) (pmesh_routes s)).
Proof.
  intros Hs Hk Hv Ht Er Hq Ha Hdu. pose proof (se_ok _ _ _ _ Hs v s0 Hv) as Hok. destruct (se_route _ _ _ _ Hs v s0 d q Hv Hq Ha) as (Hage & Hcost & _).
  destruct (proj2 Hok d q Hq Ha) as (_ & _ & Hc & Hdv & _). assert (0 <= Z.of_nat v < DNODE_MAX) as Hvb.
  { apply lookup_lt_Some in Hv. rewrite (se_size _ _ _ _ Hs) in Hv. destruct Hg as [Hn _]. lia. }
  destruct (age_spec _ _ Hok) as [Hok' Hag]. destruct (Hag d q Hq) as (Hd' & Hsame & Hkeep). pose proof (Hkeep Ha ltac:(rewrite Hage; done)) as Ha'. destruct (Hsame Ha') as (_ & _ & Ec & _).
  apply news_in. right. replace (cost q + 1 - 1) with (cost q) by lia. split.
  - unfold usable. cbn [fst snd]. assert (Z.of_nat d < DNODE_MAX) as Hd by (apply lookup_lt_Some in Hq; pose proof (proj1 Hok) as Hl; unfold lenz in Hl; lia).
    rewrite (proj2 (Z.leb_le 0 _)), (proj2 (Z.ltb_lt _ _)), (proj2 (Z.eqb_neq _ u)), (proj2 (Z.eqb_neq _ (Z.of_nat v))), (proj2 (Z.eqb_neq (cost q) _)) by (unfold PMESH_COST_INF; lia). done.
  - rewrite Er. destruct (beacon_spec _ _ Hok' Hvb) as (_ & _ & B3). apply B3. right. exists (aged q). rewrite Nat2Z.id. split_and!; [lia|done|done|done].
Qed.

Lemma round_node k ns (u : nat) s : settled n nb k ns -> round nb ns !! u = Some s -> exists s0 st, ns !! u = Some s0 /\ turned ns !! u = Some st /\ pmesh_routes st = age_routes (pmesh_routes s0) /\
  table_ok (Z.of_nat u) (pmesh_routes st) /\
  grows (Z.of_nat u) (fun v d c => v ∈ nb (Z.of_nat u) /\ exists sv, turned ns !! Z.to_nat v = Some sv /\ (d, c) ∈ news (Z.of_nat u) v (beacon_entries v (pmesh_routes sv))) (pmesh_routes st) (pmesh_routes s).
Proof.
  intros Hs Hu. pose proof (se_size _ _ _ _ Hs) as Hn. unfold round in Hu. rewrite list_lookup_imap in Hu. destruct (turned ns !! u) as [st|] eqn:Ht; [|done]. injection Hu as <-.
  destruct (turned_lookup ns u st) as (s0 & E1 & E2); [rewrite Hn; apply Hg|done|]. exists s0, st. pose proof (se_ok _ _ _ _ Hs u s0 E1) as Hok. destruct (age_spec _ _ Hok) as [Hok' _].
  split_and!; [done|done|done|by rewrite E2|]. apply listen_spec; [apply lookup_lt_Some in E1; destruct Hg; lia|by rewrite E2|].
  intros v Hv. destruct (proj2 Hg _ _ Hv) as [Hvn Hne]. split; [destruct Hg; lia|]. split; [done|].
  destruct (lookup_lt_is_Some_2 ns (Z.to_nat v)) as [v0 Hv0]; [lia|]. destruct (turned_get ns _ v0 Hn Hv0) as (sv & Hsv & Esv). exists sv. split; [done|].
  pose proof (se_ok _ _ _ _ Hs _ v0 Hv0) as Hvok. rewrite Z2Nat.id in Hvok by lia. rewrite Esv. by apply age_spec.
Qed.

(** Routes stay through a round. *)
Lemma round_keeps k ns (v d : nat) s0 q : settled n nb k ns -> ns !! v = Some s0 -> pmesh_routes s0 !! d = Some q -> r_active q = true ->
  exists s r, round nb ns !! v = Some s /\ pmesh_routes s !! d = Some r /\ r_active r = true.
Proof.
  intros Hs Hv Hq Ha. destruct (turned_get ns v s0 (se_size _ _ _ _ Hs) Hv) as (st & Ht & _). destruct (round nb ns !! v) as [s|] eqn:Hr.
  2:{ unfold round in Hr. by rewrite list_lookup_imap, Ht in Hr. }
  destruct (round_node k ns v s Hs Hr) as (s1 & st1 & E1 & E2 & E3 & _ & G). assert (s1 = s0) as -> by congruence.
  destruct (aged_improves (Z.of_nat v) (pmesh_routes s0)) with (d := d) (r := q) as (q1 & Hq1 & Ha1 & _); [by eapply se_ok| |done|done|].
  { intros x r Hx Hxa. destruct (se_route _ _ _ _ Hs v s0 x r Hv Hx Hxa) as [-> _]. done. }
  rewrite <- E3 in Hq1. destruct (gr_improves _ _ _ _ G d q1 Hq1 Ha1) as (r & Hrr & Hra & _). by exists s, r.
Qed.

Lemma round_settles k ns : settled n nb k ns -> (k <= 253)%nat -> settled n nb (S k) (round nb ns).
Proof.
  intros Hs Hk. pose proof (se_size _ _ _ _ Hs) as Hn. split.
  - unfold round, turned. by rewrite !length_imap.
  - intros u s Hu. by destruct (round_node k ns u s Hs Hu) as (_ & _ & _ & _ & _ & _ & [Hok _ _ _]).
  - intros u s d r Hu Hr Ha. destruct (round_node k ns u s Hs Hu) as (s0 & st & E1 & E2 & E3 & Hok & [G1 G2 G3 G4]).
    destruct (proj2 G1 d r Hr Ha) as (_ & _ & Hc & Hdu & _).
    destruct (G4 d r Hr Ha) as [(r1 & Hr1 & Ha1 & En & Ec & _)|[Hage [Hv (sv & Hsv & Hin)]]].
    + rewrite E3 in Hr1. destruct (aged_old _ _ d r1 (se_ok _ _ _ _ Hs u s0 E1) Hr1 Ha1) as (q & Q1 & Q2 & Q3 & Q4 & _).
      destruct (se_route _ _ _ _ Hs u s0 d q E1 Q1 Q2) as (_ & R2 & R3 & R4 & R5). rewrite <- Q3, <- En in R3, R5. rewrite <- Q4, <- Ec in R2, R4.
      destruct (proj2 Hg _ _ R3) as [Hvn Hne]. destruct (lookup_lt_is_Some_2 ns (Z.to_nat (next_hop r))) as [v0 Hv0]; [lia|]. destruct (turned_get ns _ v0 Hn Hv0) as (sv & Hsv & Esv).
      assert (exists c, (Z.of_nat d, c) ∈ news (Z.of_nat u) (next_hop r) (beacon_entries (next_hop r) (pmesh_routes sv))) as (c & Hin).
      { destruct R5 as [R5|(sv0 & q2 & S1 & S2 & S3)]; [exists 1; apply news_in; by left|]. exists (cost q2 + 1).
        rewrite <- (Z2Nat.id (next_hop r)) at 1 2 by lia. assert (sv0 = v0) as -> by congruence. by apply (tells k ns (Z.of_nat u) (Z.to_nat (next_hop r)) d v0 sv q2). }
      destruct (G3 (next_hop r) (Z.of_nat d) c) as (x & Hx & _ & _ & Hage); [split; [done|by exists sv]|]. rewrite Nat2Z.id in Hx. assert (x = r) as -> by congruence.
      split_and!; [done|lia|done|done|]. destruct R5 as [R5|(sv0 & q2 & S1 & S2 & S3)]; [by left|right].
      destruct (round_keeps k ns _ d sv0 q2 Hs S1 S2 S3) as (sv' & q' & K1 & K2 & K3). by exists sv', q'.
    + destruct (proj2 Hg _ _ Hv) as [Hvn Hne]. destruct (turned_lookup ns (Z.to_nat (next_hop r)) sv) as (v0 & Hv0 & Esv); [rewrite Hn; apply Hg|done|].
      apply news_in in Hin as [[Ed Ec1]|[Hus Hin]].
      * split_and!; [done|lia|done| |by left]. rewrite Ec1. cbn. exists (next_hop r). split; [done|]. by rewrite Ed.
      * pose proof (se_ok _ _ _ _ Hs _ v0 Hv0) as Hvok. rewrite Z2Nat.id in Hvok by lia. destruct (age_spec _ _ Hvok) as [Hvok' _]. rewrite Esv in Hin.
        destruct (beacon_spec _ _ Hvok') as (_ & _ & B3); [destruct Hg; lia|]. apply B3 in Hin as [[Ed _]|(q1 & _ & Hq1 & Ha1 & Ec1)].
        { unfold usable in Hus. cbn [fst snd] in Hus. rewrite Ed, Z.eqb_refl in Hus. cbn [negb] in Hus. by rewrite !andb_false_r in Hus. }
        rewrite Nat2Z.id in Hq1. destruct (aged_old _ _ d q1 Hvok Hq1 Ha1) as (q & Q1 & Q2 & _ & Q4 & _).
        destruct (se_route _ _ _ _ Hs _ v0 d q Hv0 Q1 Q2) as (_ & R2 & _ & R4 & _). rewrite Z2Nat.id in R4 by lia.
        split_and!; [done|lia|done| |right].
        -- replace (Z.to_nat (cost r)) with (S (Z.to_nat (cost q))) by (rewrite <- Q4 in *; destruct (proj2 Hvok _ _ Q1 Q2) as (_ & _ & Hqc & _); lia). exists (next_hop r). by split.
        -- destruct (round_keeps k ns _ d v0 q Hs Hv0 Q1 Q2) as (sv' & q' & K1 & K2 & K3). by exists sv', q'.
  - intros u d s j Hu Hud Hj Hp. destruct j as [|j]; [cbn [path] in Hp; lia|]. destruct Hp as (v & Hv & Hp). destruct (round_node k ns u s Hs Hu) as (s0 & st & E1 & E2 & E3 & Hok & [G1 G2 G3 G4]).
    destruct (proj2 Hg _ _ Hv) as [Hvn Hne]. destruct (lookup_lt_is_Some_2 ns (Z.to_nat v)) as [v0 Hv0]; [lia|]. destruct (turned_get ns _ v0 Hn Hv0) as (sv & Hsv & Esv).
    assert (exists c, c <= Z.of_nat (S j) /\ (Z.of_nat d, c) ∈ news (Z.of_nat u) v (beacon_entries v (pmesh_routes sv))) as (c & Hc & Hin).
    { destruct (decide (v = Z.of_nat d)) as [->|Hvd]; [exists 1; split; [lia|]; apply news_in; by left|].
      destruct (se_found _ _ _ _ Hs (Z.to_nat v) d v0 j Hv0) as (q & Q1 & Q2 & Q3); [lia|lia|by rewrite Z2Nat.id by lia|].
      exists (cost q + 1). split; [lia|]. rewrite <- (Z2Nat.id v) at 1 2 by lia. apply (tells k ns (Z.of_nat u) (Z.to_nat v) d v0 sv q); try done. lia. }
    destruct (G3 v (Z.of_nat d) c) as (r & Hr & Ha & Hcr & _); [split; [done|by exists sv]|]. rewrite Nat2Z.id in Hr. exists r. split_and!; [done|done|lia].
Qed.

Lemma rounds_settle k socks : length socks = n -> (k <= 254)%nat -> settled n nb k (rounds k nb (map fresh socks)).
Proof.
  intros Hl. assert (forall (u : nat) s, map fresh socks !! u = Some s -> pmesh_routes s = replicate (Z.to_nat DNODE_MAX) no_path) as Hr.
  { intros u s Hu. rewrite list_lookup_fmap in Hu. destruct (socks !! u); [|done]. by injection Hu as <-. }
  induction k as [|k IH]; intros Hk; [|cbn [rounds]; apply round_settles; [apply IH; lia|lia]]. cbn [rounds]. split.
  - by rewrite length_map.
  - intros u s Hu. rewrite (Hr u s Hu). apply table0_ok.
  - intros u s d r Hu Hd Ha. rewrite (Hr u s Hu) in Hd. by apply lookup_replicate_1 in Hd as [-> _].
  - intros u d s j Hu Hud Hj Hp. assert (j = 0%nat) as -> by lia. cbn [path] in Hp. lia.
Qed.
End rounds.

(** A fleet of three for the witnesses: node 1 is between the two others. *)
Definition demo_socks : list (list PMESH_SOCK) := replicate 3 [Sock 7376 9 true].
Definition learn : list event := [Turn 2; Hear 1 1; Turn 1; Hear 0 63].
Definition line (u : Z) : list Z := if u =? 0 then [1] else if u =? 1 then [0; 2] else if u =? 2 then [1] else [].

Definition calm_b (e : event) (m : fleet) : bool :=
  match e with
  | Turn u => match nodes m !! u with Some s => forallb (fun r => negb (r_active r) || (age r <? PMESH_ROUTE_EXPIRE)) (pmesh_routes s) | None => true end
  | Hear _ _ => true
  end.
Fixpoint calm_run_b (l : list event) (m : fleet) : bool := match l with [] => true | e :: l => calm_b e m && calm_run_b l (fstep e m) end.
Lemma calm_checked l m : calm_run_b l m = true -> calm_run l m.
Proof.
  revert m. induction l as [|e l IH]; intros m; [done|]. cbn [calm_run_b calm_run]. intros H. apply andb_true_iff in H as [He Hl]. split; [|by apply IH].
  destruct e as [u|u i]; [|done]. intros s d r Hu Hr Ha. cbn [calm_b] in He. rewrite Hu, forallb_forall in He. specialize (He r ltac:(apply list_elem_of_In; by eapply list_elem_of_lookup_2)).
  rewrite Ha in He. cbn [negb orb] in He. by apply Z.ltb_lt.
Qed.
Lemma demo_line_ok : graph_ok 3 line.
Proof.
  split; [done|]. intros u v Hv. unfold line in Hv. destruct (Z.eqb_spec u 0) as [->|]; [|destruct (Z.eqb_spec u 1) as [->|]; [|destruct (Z.eqb_spec u 2) as [->|]]];
    repeat (apply elem_of_cons in Hv as [->|Hv]; [lia|]); by apply elem_of_nil in Hv.
Qed.

(** ** The properties *)

Lemma init_nodes socks (u : nat) s : map fresh socks !! u = Some s -> exists l, socks !! u = Some l /\ s = fresh l.
Proof. rewrite list_lookup_fmap. destruct (socks !! u) as [l|]; [|done]. intros [= <-]. by exists l. Qed.

(** C14: what is sent arrives. In a fleet whose nodes started with empty routes, after
    any beacons, sent and heard in any order, late, often or never, as long as no
    route has expired: a frame that is taken for a node of the fleet and a bound
    port gets there, unchanged, to the function bound to the port, and over at most
    as many nodes as the route costs, straight when the node is alive; and a frame
    is refused only when there is no route. *)
Theorem mesh_delivers (socks : list (list PMESH_SOCK)) (l : list event) (u d : nat) (s sd : pmesh) (alive reads : Z -> bool) (port fn : Z) (data : list Z)
  (Hn : lenz socks <= DNODE_MAX) (Hl : calm_run l (booted socks)) (Hu : nodes (frun l (booted socks)) !! u = Some s) (Hd : nodes (frun l (booted socks)) !! d = Some sd)
  (Hb : bound sd port fn) (Hp : 0 <= port < 2 ^ 16) (Hlen : lenz data <= PMESH_DATA_MAX) :
  let m := frun l (booted socks) in let r := route_at (pmesh_routes s) (Z.of_nat d) in
  let q := pmesh_send (Z.of_nat u) alive reads (Z.of_nat d) port data s in
  if alive (Z.of_nat d) || r_active r
  then val q = 0 /\ exists ip, calls q = [Udp ip (enc_data (Z.of_nat u) (Z.of_nat d) port data)] /\
         carried (if alive (Z.of_nat d) then 1 else Z.to_nat (cost r)) m ip (enc_data (Z.of_nat u) (Z.of_nat d) port data) = Some (Z.of_nat d, Deliver fn (Z.of_nat u) port data)
  else val q = -1 /\ calls q = [].
Proof.
  pose proof (frun_descends l _ (booted_descends socks Hn) Hl) as Hm. set (m := frun l (booted socks)) in *. cbv zeta.
  pose proof (node_small m u s Hm Hu) as Hub. pose proof (node_small m d sd Hm Hd) as Hdb.
  pose proof (send_spec (Z.of_nat u) alive reads (Z.of_nat d) port data s Hub Hdb Hlen) as Hsend. cbv zeta in Hsend.
  destruct (alive (Z.of_nat d) || r_active (route_at (pmesh_routes s) (Z.of_nat d))) eqn:E; [|exact Hsend]. destruct Hsend as [H1 H2]. split; [exact H1|]. eexists. split; [exact H2|].
  pose proof (carried_home m (Z.of_nat u) (Z.of_nat d) port data fn sd Hm Hub) as Hc. rewrite Nat2Z.id in Hc. specialize (Hc ltac:(lia) Hd Hb Hp Hlen).
  destruct (alive (Z.of_nat d)) eqn:Ea; [apply (Hc 0); left; split; [done|lia]|]. cbn [orb] in E.
  pose proof (table_lookup _ _ _ (de_ok _ Hm u s Hu) Hdb) as Hr. rewrite Nat2Z.id in Hr.
  destruct (de_hop _ Hm u s d _ Hu Hr E) as [_ Hhop]. destruct (proj2 (de_ok _ Hm u s Hu) _ _ Hr E) as (_ & _ & Hcost & _).
  set (r := route_at (pmesh_routes s) (Z.of_nat d)) in *. replace (Z.to_nat (cost r)) with (S (Z.to_nat (cost r - 1))) by lia. apply Hc.
  destruct Hhop as [Hh|Hh]; [left; split; [done|lia]|by right].
Qed.

Lemma mesh_delivers_witness : carried 2 (frun learn (booted demo_socks)) (pk_node_ip 1) (enc_data 0 2 7376 [5; 6]) = Some (2, Deliver 9 0 7376 [5; 6]).
Proof.
  destruct (nodes (frun learn (booted demo_socks)) !! 0%nat) as [s|] eqn:Hs; [|vm_compute in Hs; discriminate].
  destruct (nodes (frun learn (booted demo_socks)) !! 2%nat) as [sd|] eqn:Hd; [|vm_compute in Hd; discriminate].
  assert (bound sd 7376 9) as Hb by (vm_compute in Hd; injection Hd as <-; eexists; split; vm_compute; reflexivity).
  assert (calm_run learn (booted demo_socks)) as Hcalm by (apply calm_checked; vm_compute; reflexivity).
  assert (lenz demo_socks <= DNODE_MAX /\ lenz [5; 6] <= PMESH_DATA_MAX) as [Hn Hlen] by (split; vm_compute; discriminate).
  pose proof (mesh_delivers demo_socks learn 0 2 s sd (fun _ => false) (fun _ => false) 7376 9 [5; 6] Hn Hcalm Hs Hd Hb ltac:(lia) Hlen) as H.
  assert (route_at (pmesh_routes s) 2 = Route 1 2 0 true) as Er by (vm_compute in Hs; injection Hs as <-; vm_compute; reflexivity). cbv zeta in H. change (Z.of_nat 2) with 2 in H. rewrite Er in H.
  destruct H as (_ & ip & Hip & Hc). assert (ip = pk_node_ip 1) as ->; [|exact Hc]. vm_compute in Hs. injection Hs as <-. vm_compute in Hip. injection Hip as <-. vm_compute. reflexivity.
Defined.

(** C13: routes become shortest paths. After [k] rounds in which the beacons of the
    neighbours are heard, the task ageing the routes at every turn, a node has a
    route to every other that is at most [k] hops away, at the cost of the shortest
    way; and every route it has is a way of that many hops, its first hop a
    neighbour, and is fresh. *)
Theorem mesh_shortest (socks : list (list PMESH_SOCK)) (nb : Z -> list Z) (k : nat) (u d : nat) (s : pmesh) (Hg : graph_ok (length socks) nb) (Hk : (k <= 254)%nat) (Hne : u <> d)
  (Hu : rounds k nb (map fresh socks) !! u = Some s) :
  (forall r, pmesh_routes s !! d = Some r -> r_active r = true -> next_hop r ∈ nb (Z.of_nat u) /\ path nb (Z.to_nat (cost r)) (Z.of_nat u) (Z.of_nat d) /\ age r = 0) /\
  (forall j, (j <= k)%nat -> path nb j (Z.of_nat u) (Z.of_nat d) -> (forall i, (i < j)%nat -> ~ path nb i (Z.of_nat u) (Z.of_nat d)) ->
     exists r, pmesh_routes s !! d = Some r /\ r_active r = true /\ cost r = Z.of_nat j).
Proof.
  pose proof (rounds_settle (length socks) nb Hg k socks eq_refl Hk) as Hs. split.
  - intros r Hr Ha. destruct (se_route _ _ _ _ Hs u s d r Hu Hr Ha) as (H1 & _ & H3 & H4 & _). by split_and!.
  - intros j Hj Hp Hmin. destruct (se_found _ _ _ _ Hs u d s j Hu Hne Hj Hp) as (r & Hr & Ha & Hc). exists r. split; [done|]. split; [done|].
    destruct (se_route _ _ _ _ Hs u s d r Hu Hr Ha) as (_ & _ & _ & Hpath & _). destruct (proj2 (se_ok _ _ _ _ Hs u s Hu) d r Hr Ha) as (_ & _ & Hc1 & _).
    destruct (decide (Z.to_nat (cost r) < j)%nat) as [Hlt|]; [by destruct (Hmin _ Hlt)|lia].
Qed.

Lemma mesh_shortest_witness : exists s r, rounds 2 line (map fresh demo_socks) !! 0%nat = Some s /\ pmesh_routes s !! 2%nat = Some r /\ cost r = 2.
Proof.
  destruct (rounds 2 line (map fresh demo_socks) !! 0%nat) as [s|] eqn:Hs; [|vm_compute in Hs; discriminate].
  destruct (mesh_shortest demo_socks line 2 0 2 s demo_line_ok ltac:(lia) ltac:(lia) Hs) as [_ H]. destruct (H 2%nat) as (r & Hr & _ & Hc).
  - lia.
  - exists 1. split; [by left|]. exists 2. split; [right; by left|reflexivity].
  - intros i Hi Hp. destruct i as [|[|i]]; [discriminate Hp| |lia]. destruct Hp as (v & Hv & Hp). apply elem_of_cons in Hv as [->|Hv]; [discriminate Hp|by apply elem_of_nil in Hv].
  - exists s, r. split; [reflexivity|]. split; [exact Hr|exact Hc].
Defined.

(** Any bytes. *)
Lemma entries_bytes n b : Forall is_u8 b -> entry_bytes (dec_entries n b).
Proof.
  revert b. induction n as [|n IH]; intros b Hb; cbn [dec_entries]; [by constructor|]. apply list.Forall_cons. split; [|apply IH; by apply Forall_drop].
  assert (forall i, is_u8 (getz b i 0)) as Hget; [|split; apply Hget]. intros i. unfold getz. destruct (i <? 0); [done|]. destruct (nth_in_or_default (Z.to_nat i) b 0) as [Hin| ->]; [|done].
  rewrite list.Forall_forall in Hb. apply Hb. by apply list_elem_of_In.
Qed.

Inductive input : Type := Heard (f : list Z) | Tick | SendTo (alive reads : Z -> bool) (dst port : Z) (data : list Z).
Definition feed (me : Z) (s : pmesh) (i : input) : pmesh :=
  match i with Heard f => exec (pmesh_rx me f) s | Tick => exec (pmesh_task me) s | SendTo alive reads dst port data => exec (pmesh_send me alive reads dst port data) s end.
Definition input_ok (i : input) : Prop := match i with Heard f => Forall is_u8 f | _ => True end.

Definition same_routes (s s' : pmesh) : Prop := pmesh_routes s' = pmesh_routes s.
#[local] Instance same_routes_preorder : PreOrder same_routes.
Proof. split; [by intros s|]. intros s s' s'' H1 H2. unfold same_routes in *. congruence. Qed.

Lemma send_beacon_same me : relates same_routes (send_beacon me).
Proof.
  unfold send_beacon. intros s. destruct (me =? 0xFF); [done|]. revert s. apply relates_bind; [apply _|by intros s|]. intros t. apply relates_bind; [apply _| |by intros _ s].
  apply relates_iter; [apply _|]. intros n s. unfold when. by destruct (negb _).
Qed.

Lemma send_same me alive reads dst port data : relates same_routes (pmesh_send me alive reads dst port data).
Proof.
  intros s. unfold pmesh_send, pmesh_send_v2. destruct (_ || _).
  - destruct (_ <? _); [done|]. destruct (_ =? _); [done|]. destruct (_ =? _); [done|]. by destruct (_ || _).
  - destruct (_ <? _); [done|]. destruct (_ =? _); [done|]. rewrite exec_bind. destruct (alive dst); [done|]. by destruct (r_active _).
Qed.

Lemma feed_ok me s i : table_ok me (pmesh_routes s) -> input_ok i -> table_ok me (pmesh_routes (feed me s i)).
Proof.
  intros Hs Hi. destruct i as [f| |alive reads dst port data]; cbn [feed input_ok] in *; [| |by rewrite (send_same me alive reads dst port data s)].
  2:{ unfold pmesh_task. rewrite exec_bind. rewrite (send_beacon_same me _). by apply age_spec. }
  unfold pmesh_rx. destruct (lenz f <? 8) eqn:E8; [done|]. destruct (negb _); [done|]. destruct (_ =? PMESH_VERSION2).
  { unfold rx_v2. destruct (_ || _); [done|]. cbv zeta. destruct (_ || _); [done|]. rewrite exec_bind. set (s1 := exec _ s). assert (table_ok me (pmesh_routes s1)) as H1 by done. clearbody s1.
    destruct (me =? PK_NODE_NONE); [done|]. destruct (negb _); [done|]. rewrite !exec_bind. set (s2 := exec (bump_v2 _) s1). set (s3 := exec (bump_stat _) s2). assert (table_ok me (pmesh_routes s3)) as H3 by done. clearbody s3.
    unfold local_dispatch. rewrite exec_bind. by destruct (find _ _). }
  destruct (negb _); [done|]. destruct (_ =? PMESH_BEACON).
  { unfold rx_beacon. destruct ((DNODE_MAX <=? getz f 6 0) || (getz f 6 0 =? me)) eqn:Eb; [done|]. apply orb_false_iff in Eb as [B1 B2]. bools. rewrite exec_bind. set (s1 := exec _ s).
    assert (pmesh_routes s1 = pmesh_routes s) as E1 by done. clearbody s1. cbv zeta. destruct (_ <? _); [by change (table_ok me (pmesh_routes s1)); rewrite E1|].
    change (pmesh_routes (exec (modify ?g) s1)) with (pmesh_routes (g s1)). cbn [with_routes pmesh_routes]. rewrite E1. apply merge_spec; [done| |lia|by apply entries_bytes, Forall_drop].
    split; [|lia]. unfold getz. change (6 <? 0) with false. cbv iota. destruct (nth_in_or_default (Z.to_nat 6) f 0) as [Hin| ->]; [|lia].
    rewrite list.Forall_forall in Hi. apply list_elem_of_In in Hin. apply Hi in Hin. unfold is_u8 in Hin. lia. }
  destruct (_ =? PMESH_DATA); [|done]. unfold rx_data. destruct (lenz f <? 12); [done|]. rewrite exec_bind. set (s1 := exec _ s). assert (table_ok me (pmesh_routes s1)) as H1 by done. clearbody s1. cbv zeta.
  destruct (PMESH_DATA_MAX <? num_at 10 2 f); [exact H1|]. destruct (lenz f <? 12 + num_at 10 2 f); [exact H1|]. destruct (DNODE_MAX <=? getz f 7 0); [exact H1|]. destruct (getz f 7 0 =? me).
  - rewrite exec_bind. set (s2 := exec _ s1). assert (table_ok me (pmesh_routes s2)) as H2 by done. clearbody s2. unfold local_dispatch. rewrite exec_bind. by destruct (find _ _).
  - rewrite !exec_bind. set (s2 := exec _ s1). assert (table_ok me (pmesh_routes s2)) as H2 by done. clearbody s2. change (exec (gets ?g) s2) with s2. by destruct (negb _).
Qed.

(** C36: no packet breaks the table. Whatever bytes arrive, whatever is sent, and at
    every turn: the table keeps its 64 routes, no route leads to the node itself or
    past another, and every active route has a next hop in the table other than the
    node, a cost from 1 to 255 and an age of at most five turns. *)
Theorem mesh_typed (me : Z) (socks : list PMESH_SOCK) (l : list input) (Hl : Forall input_ok l) :
  table_ok me (pmesh_routes (fold_left (feed me) l (fresh socks))).
Proof.
  assert (forall s, table_ok me (pmesh_routes s) -> table_ok me (pmesh_routes (fold_left (feed me) l s))) as H; [|apply H, table0_ok].
  induction Hl as [|i l Hi Hl IH]; intros s Hs; [done|]. cbn [fold_left]. apply IH. by apply feed_ok.
Qed.

Lemma mesh_typed_witness : table_ok 1 (pmesh_routes (fold_left (feed 1) [Heard (enc_beacon 0 [(0, 0); (2, 7)]); Tick] (fresh []))).
Proof.
  apply mesh_typed. apply list.Forall_cons. split; [apply (bool_decide_unpack _); vm_compute; exact I|]. apply list.Forall_cons. split; [exact I|by constructor].
Defined.

(** ** What expiry does not do *)

(** A route is refreshed by any beacon that names its destination, also by that of a
    node whose own route leads here. After node 2 is gone, nodes 0 and 1 keep their
    routes to it for ever. *)
Definition alone (u : Z) : list Z := if u =? 0 then [1] else if u =? 1 then [0] else [].
Example dead_node_kept : map (fun s => route_at (pmesh_routes s) 2) (take 2 (rounds 40 alone (rounds 3 line (map fresh demo_socks)))) = [Route 1 2 0 true; Route 2 1 0 true].
Proof. vm_compute. reflexivity. Qed.

(** When a route does expire at one node and is learned again from a node whose
    route leads through it, each of the two is the next hop of the other: a frame
    goes back and forth, since frames carry no count of their hops. *)
Definition forget : list event := learn ++ replicate 5 (Turn 1) ++ [Turn 0; Hear 1 441].
Definition loop_frame : list Z := enc_data 0 2 7376 [5; 6].
Example frames_loop : let m := frun forget (booted demo_socks) in
  map (fun u => match nodes m !! u with Some s => calls (pmesh_rx (Z.of_nat u) loop_frame s) | None => [] end) [0%nat; 1%nat] =
    [[Udp (pk_node_ip 1) loop_frame]; [Udp (pk_node_ip 0) loop_frame]] /\
  calm_run_b forget (booted demo_socks) = false.
Proof. vm_compute. split; reflexivity. Qed.
