(* ===== verification/Topics.v ===== *)
(** * Topics: src/arch/common/kdds.c

    A topic is a named slot that holds the last value published under its name; a
    handle is one task's use of a topic, with a semaphore when the task waits for
    values. Publishing writes the slot, wakes the other handles of the topic and
    sends the value to other nodes, whose [kdds_rx] writes their slot of that name.
    The kernel's semaphores, the mesh and the region are arguments and calls; the
    wait inside [kdds_sub] splits it in two steps. Messages are left out. The
    theorems are in TopicsFacts.v. *)

From stdpp Require Import list.
#[local] Open Scope Z_scope.
From S2P Require Import Prelude.
From S2P Require Import Node.
From S2P Require Import Nodemap.
From S2P Require Import Step.
From S2P Require Import Wire.

Definition KDDS_PORT : Z := 7376.
Definition KDDS_SINGLETON_TOPICS : Z := 20.
Definition KDDS_TOPIC_MAX : Z := 6 * DREGION_MAX + KDDS_SINGLETON_TOPICS.
Definition KDDS_HANDLE_MAX : Z := 10 * DREGION_MAX.
Definition KDDS_NAME_MAX : Z := 32.
Definition KDDS_DATA_MAX : Z := 192.
Definition KDDS_QOS_BEST_EFFORT : Z := 0.
Definition KDDS_QOS_RELIABLE : Z := 1.
Definition KDDS_QOS_LATEST_ONLY : Z := 2.
Definition KDDS_SCOPE_GLOBAL : Z := 0.
Definition KDDS_SCOPE_REGION : Z := 1.
Definition KDDS_MAGIC : Z := 0x5344444B.
Definition KDDS_VERSION : Z := 1.
Definition KDDS_DATA_PKT : Z := 1.
Definition KDDS_PKT_LEN : Z := 236.
Definition E_PAR : Z := -17.

(** ** State *)

(** [t_name] is the string in the name field, without its end; [t_data] the whole
    array, of which [data_len] bytes count. *)
Record KDDS_TOPIC : Type := Topic { t_name : list Z; t_data : list Z; data_len : Z; data_seq : Z; qos : Z; scope : Z; t_open : bool }.
Record KDDS_HANDLE_SLOT : Type := Handle { topic_idx : Z; sub_sem : Z; owner : Z; h_open : bool }.
(** The counters of deliveries. *)
Record locality : Type := Locality { tx_msgs : Z; tx_cross : Z; tx_bytes : Z; tx_bytes_cross : Z; last_fanout : Z }.

Record kdds : Type := Kdds { topics : list KDDS_TOPIC; handles : list KDDS_HANDLE_SLOT; counts : locality }.

Definition no_topic : KDDS_TOPIC := Topic [] (replicate 192 0) 0 0 0 0 false.
Definition no_handle : KDDS_HANDLE_SLOT := Handle (-1) (-1) 0 false.
Definition kdds_init : kdds :=
  Kdds (replicate (Z.to_nat KDDS_TOPIC_MAX) no_topic) (replicate (Z.to_nat KDDS_HANDLE_MAX) no_handle) (Locality 0 0 0 0 0).

(** What this node knows of the others: the region, whom the mesh takes a frame
    for, and the wide ids that are alive. *)
Record net : Type := Net { me : Z; in_region : Z -> bool; reaches : Z -> bool; wide : list Z }.

Inductive effect : Type := SigSem (sem : Z) | DelSem (sem : Z) | Send (dst : Z) (frame : list Z) | Tombstone (name : list Z).

Definition with_topics (l : list KDDS_TOPIC) (s : kdds) : kdds := Kdds l (handles s) (counts s).
Definition with_handles (l : list KDDS_HANDLE_SLOT) (s : kdds) : kdds := Kdds (topics s) l (counts s).
Definition put_counts (c : locality) (s : kdds) : kdds := Kdds (topics s) (handles s) c.

Definition topic_at (i : Z) (s : kdds) : KDDS_TOPIC := getz (topics s) i no_topic.
Definition handle_at (h : Z) (s : kdds) : KDDS_HANDLE_SLOT := getz (handles s) h no_handle.
Definition set_topic (i : Z) (t : KDDS_TOPIC) (s : kdds) : kdds := with_topics (setz (topics s) i t) s.
Definition set_handle (h : Z) (x : KDDS_HANDLE_SLOT) (s : kdds) : kdds := with_handles (setz (handles s) h x) s.

#[local] Abbreviation op A := (io kdds effect A).

(** ** Strings *)

(** A string copied into a name field is cut at 31 bytes. *)
Definition kd_strcpy (src : list Z) : list Z := take (Z.to_nat (KDDS_NAME_MAX - 1)) src.
Definition kd_streq (a b : list Z) : bool := bool_decide (a = b).

(** The string in a field of a packet: the bytes before the first zero. A field
    without one gives all 32, which no topic is called. *)
Fixpoint name_str (l : list Z) : list Z := match l with [] => [] | c :: l => if c =? 0 then [] else c :: name_str l end.

(** ** Finding and making topics *)

Definition topic_find (name : list Z) (s : kdds) : Z := first_ix (fun t => t_open t && kd_streq (t_name t) name) (topics s) 0.

Definition new_topic (name : list Z) (q sc : Z) (t : KDDS_TOPIC) : KDDS_TOPIC :=
  Topic (kd_strcpy name) (t_data t) 0 (data_seq t) (u8 q) (u8 sc) true.

Definition topic_find_or_create (name : list Z) (q sc : Z) : op Z :=
  s ← get;
  let i := topic_find name s in
  if 0 <=? i then
    let t := topic_at i s in
    modify (set_topic i (Topic (t_name t) (t_data t) (data_len t) (data_seq t) (qos t) (u8 sc) (t_open t))) ;; ret i
  else
    let j := first_ix (fun t => negb (t_open t)) (topics s) 0 in
    if j <? 0 then ret (-1) else modify (set_topic j (new_topic name q sc (topic_at j s))) ;; ret j.

(** ** Opening *)

(** [sem] is what [tk_cre_sem] answers. *)
Definition kdds_open_core (name : list Z) (q sc : Z) (blocking : bool) (sem : Z) : op Z :=
  tidx ← topic_find_or_create name q sc;
  if tidx <? 0 then ret (-1)
  else
    s ← get;
    let h := first_ix (fun x => negb (h_open x)) (handles s) 0 in
    if h <? 0 then ret (-1)
    else if blocking && (sem <? 0) then ret sem
    else modify (set_handle h (Handle tidx (if blocking then sem else -1) 0 true)) ;; ret h.

Definition kdds_open (name : list Z) (q : Z) := kdds_open_core name q KDDS_SCOPE_GLOBAL true.
Definition kdds_open_scoped (name : list Z) (q sc : Z) := kdds_open_core name q sc true.
Definition kdds_open_poll (name : list Z) (q : Z) : op Z := kdds_open_core name q KDDS_SCOPE_GLOBAL false (-1).
Definition kdds_open_poll_scoped (name : list Z) (q sc : Z) : op Z := kdds_open_core name q sc false (-1).

(** ** Publishing *)

Definition bad_handle (h : Z) (s : kdds) : bool := (h <? 0) || (KDDS_HANDLE_MAX <=? h) || negb (h_open (handle_at h s)).

(** The slot after a value is written. *)
Definition written (data : list Z) (seq : Z) (t : KDDS_TOPIC) : KDDS_TOPIC :=
  Topic (t_name t) (blit (t_data t) 0 data) (u16 (lenz data)) seq (qos t) (scope t) (t_open t).

(** Wakes the handles of topic [tidx] but [but]. *)
Definition signal_subs (tidx but : Z) : op unit :=
  s ← get;
  iter (seqZ 0 KDDS_HANDLE_MAX) (fun h =>
    let x := handle_at h s in
    when (negb (h =? but) && h_open x && (topic_idx x =? tidx) && (0 <=? sub_sem x)) (call (SigSem (sub_sem x)))).

(** A packet: the name with its end, cut at the field. *)
Definition name_part (name : list Z) : list Z := take 32 (name ++ [0]).
Definition enc_pkt (src : Z) (name data : list Z) : list Z :=
  le 4 KDDS_MAGIC ++ [KDDS_VERSION; KDDS_DATA_PKT; pk_node_v1 src; 0] ++ le 2 (lenz data) ++ le 2 (lenz (name_part name)) ++
  name_part name ++ replicate (32 - length (name_part name)) 0 ++ data ++ replicate (192 - length data) 0.

(** Where a value goes: one narrow node, or all narrow nodes and the wide ones
    alive, inside the region when the topic's scope is the region. *)
Definition targets (v : net) (region_scoped : bool) (dst : Z) : list Z :=
  List.filter (fun n => negb (n =? me v) && negb ((0 <=? dst) && negb (n =? dst)) && negb ((dst <? 0) && region_scoped && negb (in_region v n))) (seqZ 0 DNODE_MAX) ++
  (if dst <? 0 then List.filter (fun w => negb ((w =? me v) || (w <? DNODE_MAX)) && negb (region_scoped && negb (in_region v w))) (take (Z.to_nat DREGION_MAX) (wide v)) else []).

(** One frame the mesh took. *)
Definition count_delivery (cross : bool) (c : locality) : locality :=
  Locality (u32 (tx_msgs c + 1)) (if cross then u32 (tx_cross c + 1) else tx_cross c) (u32 (tx_bytes c + KDDS_PKT_LEN))
    (if cross then u32 (tx_bytes_cross c + KDDS_PKT_LEN) else tx_bytes_cross c) (last_fanout c).
Definition set_fanout (n : Z) (c : locality) : locality := Locality (tx_msgs c) (tx_cross c) (tx_bytes c) (tx_bytes_cross c) n.
Definition update_counts (f : locality -> locality) : op unit := modify (fun s => put_counts (f (counts s)) s).

Definition send_all (v : net) (frame : list Z) (to : list Z) : op unit :=
  iter to (fun n => call (Send n frame) ;; when (reaches v n) (update_counts (count_delivery (negb (in_region v n))))) ;;
  update_counts (set_fanout (u32 (lenz (List.filter (reaches v) to)))).

Definition kdds_pub_core (v : net) (h : Z) (data : list Z) (dst : Z) : op Z :=
  s ← get;
  if bad_handle h s then ret E_PAR
  else if (lenz data <=? 0) || (KDDS_DATA_MAX <? lenz data) then ret E_PAR
  else
    let tidx := topic_idx (handle_at h s) in
    let t := topic_at tidx s in
    modify (set_topic tidx (written data (u16 (data_seq t + 1)) t)) ;;
    signal_subs tidx h ;;
    (if negb (me v =? 0xFF)
     then send_all v (enc_pkt (me v) (t_name t) data) (targets v (scope t =? KDDS_SCOPE_REGION) dst)
     else update_counts (set_fanout 0)) ;;
    ret 0.

Definition kdds_pub (v : net) (h : Z) (data : list Z) : op Z := kdds_pub_core v h data (-1).
Definition kdds_pub_to (v : net) (h : Z) (data : list Z) (dst : Z) : op Z :=
  kdds_pub_core v h data (if (dst <? DNODE_MAX) && negb (dst =? me v) then dst else DNODE_MAX).

(** ** Reading *)

(** The bytes of the slot that fit. *)
Definition slot_bytes (t : KDDS_TOPIC) (buflen : Z) : list Z := take (Z.to_nat (if data_len t <? buflen then data_len t else buflen)) (t_data t).
Definition copy_out (tidx buflen : Z) (s : kdds) : Z * list Z :=
  let t := topic_at tidx s in (if data_len t <? buflen then data_len t else buflen, slot_bytes t buflen).

(** A call returns at once or waits on a semaphore. *)
Inductive sub_result : Type := Returned (r : Z) (bytes : list Z) | Waits (tidx sem : Z).

Definition kdds_sub (h : Z) (buf : bool) (buflen : Z) (s : kdds) : sub_result :=
  if bad_handle h s then Returned E_PAR []
  else if negb buf || (buflen <=? 0) then Returned E_PAR []
  else
    let tidx := topic_idx (handle_at h s) in
    let t := topic_at tidx s in
    if negb (qos t =? KDDS_QOS_BEST_EFFORT) && (0 <? data_len t) then Returned (fst (copy_out tidx buflen s)) (snd (copy_out tidx buflen s))
    else Waits tidx (sub_sem (handle_at h s)).

(** After the wait, [er] being its result and [s] the state then. *)
Definition sub_wake (tidx buflen er : Z) (s : kdds) : Z * list Z := if negb (er =? 0) then (er, []) else copy_out tidx buflen s.

(** ** Closing *)

Definition closed_handle (keep_idx : Z) (x : KDDS_HANDLE_SLOT) : KDDS_HANDLE_SLOT :=
  Handle keep_idx (if 0 <=? sub_sem x then -1 else sub_sem x) 0 false.
Definition del_sem (x : KDDS_HANDLE_SLOT) : op unit := when (0 <=? sub_sem x) (call (DelSem (sub_sem x))).
Definition close_topic (i : Z) : op unit :=
  modify (fun s => let t := topic_at i s in set_topic i (Topic (t_name t) (t_data t) (data_len t) (data_seq t) (qos t) (scope t) false) s).

Definition kdds_close (h : Z) : op unit :=
  s ← get;
  if (h <? 0) || (KDDS_HANDLE_MAX <=? h) then ret tt
  else if negb (h_open (handle_at h s)) then ret tt
  else
    let x := handle_at h s in
    del_sem x ;;
    modify (set_handle h (closed_handle (topic_idx x) x)) ;;
    still_used ← gets (fun s => existsb (fun y => h_open y && (topic_idx y =? topic_idx x)) (handles s));
    unless still_used (close_topic (topic_idx x)).

Definition kdds_set_owner (h tid : Z) : op unit :=
  s ← get;
  if (h <? 0) || (KDDS_HANDLE_MAX <=? h) then ret tt
  else if negb (h_open (handle_at h s)) then ret tt
  else if tid <=? 0 then ret tt
  else let x := handle_at h s in modify (set_handle h (Handle (topic_idx x) (sub_sem x) tid (h_open x))).

(** The handles are looked at one after the other, as they are then. *)
Fixpoint close_owned (hs : list Z) (tid : Z) : op Z :=
  match hs with
  | [] => ret 0
  | h :: hs =>
      x ← gets (handle_at h);
      if negb (h_open x) || negb (owner x =? tid) then close_owned hs tid
      else kdds_close h ;; n ← close_owned hs tid; ret (n + 1)
  end.
Definition kdds_close_by_owner (tid : Z) : op Z :=
  if tid <=? 0 then ret 0 else close_owned (seqZ 0 KDDS_HANDLE_MAX) tid.

Definition kdds_handle_count (s : kdds) : Z := lenz (List.filter h_open (handles s)).

(** One turn of the loop over the handles: it does not keep the index. *)
Definition drop_handle (dead h : Z) : op unit :=
  x ← gets (handle_at h);
  when (h_open x && (topic_idx x =? dead)) (del_sem x ;; modify (set_handle h (closed_handle (-1) x))).

Definition kdds_delete_cluster (v : net) (name : list Z) : op unit :=
  s ← get;
  let dead := topic_find name s in
  when (0 <=? dead)
    (iter (seqZ 0 KDDS_HANDLE_MAX) (drop_handle dead) ;;
     close_topic dead) ;;
  unless (me v =? 0xFF) (call (Tombstone name)).

(** ** Receiving *)

Definition kdds_rx (frame : list Z) : op unit :=
  let name := name_str (bytes_at 12 32 frame) in
  let dlen := num_at 8 2 frame in
  if lenz frame <? KDDS_PKT_LEN then ret tt
  else if negb (num_at 0 4 frame =? KDDS_MAGIC) || negb (getz frame 4 0 =? KDDS_VERSION) then ret tt
  else if negb (getz frame 5 0 =? KDDS_DATA_PKT) then ret tt
  else if (dlen =? 0) || (KDDS_DATA_MAX <? dlen) then ret tt
  else
    s ← get;
    let f := topic_find name s in
    tidx ← (if f <? 0 then topic_find_or_create name KDDS_QOS_LATEST_ONLY KDDS_SCOPE_GLOBAL else ret f);
    if tidx <? 0 then ret tt
    else
      modify (fun s => let t := topic_at tidx s in set_topic tidx (written (bytes_at 44 (Z.to_nat dlen) frame) (data_seq t) t) s) ;;
      signal_subs tidx (-1).
