(* ===== verification/TopicsFacts.v ===== *)
(** * The operations of kdds.c on the tables

    The tables are sound when the slots are typed, open topics have distinct names
    and an open handle refers to a slot that is open, or was closed by a tombstone
    from the network under the name it still shows ([replica.c] closes slots and
    leaves the handles). For each operation and each frame: the tables stay sound,
    which slots change, and how. The theorems are in TopicsRun.v. *)

From stdpp Require Import list.
#[local] Open Scope Z_scope.
From S2P Require Import Prelude.
From S2P Require Import Node.
From S2P Require Import Nodemap.
From S2P Require Import Step.
From S2P Require Import Wire.
From S2P Require Import Topics.

(** ** The tables *)

Implicit Types s : kdds.
#[local] Abbreviation op A := (io kdds effect A).

Definition contents (t : KDDS_TOPIC) : list Z := take (Z.to_nat (data_len t)) (t_data t).

Record topic_ok (t : KDDS_TOPIC) : Prop := {
  tk_data : length (t_data t) = 192%nat; tk_len : 0 <= data_len t <= KDDS_DATA_MAX; tk_name : lenz (t_name t) < KDDS_NAME_MAX }.

Section soundness.
(** The names that tombstones from the network may have closed. *)
Context {gone : list Z -> Prop}.

Record tidy s : Prop := {
  td_topics : lenz (topics s) = KDDS_TOPIC_MAX; td_handles : lenz (handles s) = KDDS_HANDLE_MAX;
  td_slots : Forall topic_ok (topics s);
  td_names : forall i j t u, topics s !! i = Some t -> topics s !! j = Some u -> t_open t = true -> t_open u = true -> t_name t = t_name u -> i = j;
  td_refs : forall k x, handles s !! k = Some x -> h_open x = true ->
    exists i t, topic_idx x = Z.of_nat i /\ topics s !! i = Some t /\ (t_open t = true \/ gone (t_name t)) }.

Lemma init_tidy : tidy kdds_init.
Proof.
  split; [reflexivity|reflexivity| | |].
  - apply Forall_replicate. split; [reflexivity|done|done].
  - intros i j t u Hi _ Ht. by apply lookup_replicate_1 in Hi as [-> _].
  - intros k x Hk Hx. by apply lookup_replicate_1 in Hk as [-> _].
Qed.

Lemma topic_at_nat (i : nat) t s : topics s !! i = Some t -> topic_at (Z.of_nat i) s = t.
Proof. by apply getz_nat. Qed.
Lemma handle_at_nat (i : nat) x s : handles s !! i = Some x -> handle_at (Z.of_nat i) s = x.
Proof. by apply getz_nat. Qed.

(** An open handle is in the table. *)
Lemma handle_in h s : bad_handle h s = false -> exists k, h = Z.of_nat k /\ handles s !! k = Some (handle_at h s) /\ h_open (handle_at h s) = true.
Proof.
  unfold bad_handle. intros Hb. apply orb_false_iff in Hb as [Hb Ho]. bools. exists (Z.to_nat h). split; [lia|].
  unfold handle_at, getz in *. rewrite (proj2 (Z.ltb_ge h 0)) in * by lia. destruct (handles s !! Z.to_nat h) as [x|] eqn:E.
  - erewrite nth_lookup_Some by done. split; [done|]. by erewrite nth_lookup_Some in Ho by done.
  - apply lookup_ge_None in E. by rewrite nth_overflow in Ho.
Qed.

(** A topic slot of which only the value may have changed. *)
Definition slot_kept (i : nat) s s' (new : option (list Z)) : Prop :=
  exists t t', topics s !! i = Some t /\ topics s' !! i = Some t' /\ t_open t' = t_open t /\ t_name t' = t_name t /\ qos t' = qos t /\
    contents t' = default (contents t) new.

Lemma slot_same i t s s' : topics s !! i = Some t -> topics s' !! i = Some t -> slot_kept i s s' None.
Proof. intros Hi Hi'. by exists t, t. Qed.

(** ** Searching *)

Lemma find_topic name s : (topic_find name s = -1 /\ forall i t, topics s !! i = Some t -> t_open t = true -> t_name t <> name) \/
  exists i t, topic_find name s = Z.of_nat i /\ topics s !! i = Some t /\ t_open t = true /\ t_name t = name.
Proof.
  unfold topic_find, kd_streq. destruct (first_ix_spec (fun t => t_open t && bool_decide (t_name t = name)) (topics s) 0 ltac:(done)) as [[-> Hn]|(i & t & -> & Hi & Hp)].
  - left. split; [done|]. intros i t Hi Ho E. specialize (Hn i t Hi). rewrite Ho in Hn. by apply bool_decide_eq_false in Hn.
  - right. exists i, t. bools. apply bool_decide_eq_true in H0. by split_and!.
Qed.

Lemma strcpy_short name : lenz name < KDDS_NAME_MAX -> kd_strcpy name = name.
Proof. intros Hl. unfold kd_strcpy. apply take_ge. unfold lenz, KDDS_NAME_MAX in *. lia. Qed.
Lemma strcpy_fits name : lenz (kd_strcpy name) < KDDS_NAME_MAX.
Proof. unfold kd_strcpy, lenz. rewrite length_take. unfold KDDS_NAME_MAX. lia. Qed.

(** A slot of the table replaced: the tables stay tidy when no other open topic
    has the name. *)
Lemma set_topic_tidy (i : nat) t t' s : tidy s -> topics s !! i = Some t -> topic_ok t' ->
  t_open t' = true \/ gone (t_name t') \/ t_open t' = t_open t /\ t_name t' = t_name t ->
  (t_open t' = true -> forall j u, j <> i -> topics s !! j = Some u -> t_open u = true -> t_name u <> t_name t') -> tidy (set_topic (Z.of_nat i) t' s).
Proof.
  intros [T1 T2 T3 T4 T5] Hi Hok Ho Hn. unfold set_topic. rewrite setz_nat.
  split; cbn [with_topics topics handles]; [unfold lenz; by rewrite length_insert|done|by apply Forall_insert| |].
  - intros j k u w Hj Hk Hu Hw E. apply list_lookup_insert_Some in Hj, Hk.
    destruct Hj as [(<- & <- & _)|[Hji Hj]], Hk as [(<- & <- & _)|[Hki Hk]]; [done|by destruct (Hn Hu k w)|by destruct (Hn Hw j u)|by apply (T4 j k u w)].
  - intros k x Hk Hx. destruct (T5 k x Hk Hx) as (j & u & E & Hj & Hu). destruct (decide (j = i)) as [->|Hne].
    + exists i, t'. split_and!; [done|apply list_lookup_insert_eq; by apply lookup_lt_Some in Hi|]. assert (u = t) as -> by congruence.
      destruct Ho as [Ho|[Ho|[E1 E2]]]; [by left|by right|]. by rewrite E1, E2.
    + exists j, u. by rewrite list_lookup_insert_ne.
Qed.

Lemma set_topic_same (i j : nat) t' s : i <> j -> topics (set_topic (Z.of_nat i) t' s) !! j = topics s !! j.
Proof. intros Hne. unfold set_topic. rewrite setz_nat. cbn [with_topics topics]. by rewrite list_lookup_insert_ne. Qed.
Lemma set_topic_here (i : nat) t t' s : topics s !! i = Some t -> topics (set_topic (Z.of_nat i) t' s) !! i = Some t'.
Proof. intros Hi. unfold set_topic. rewrite setz_nat. cbn [with_topics topics]. apply list_lookup_insert_eq. by apply lookup_lt_Some in Hi. Qed.

(** The value and the state of a [ret]. *)
Ltac ret_now := change (val (ret ?x ?y)) with x; change (exec (ret ?x) ?y) with y.

(** ** Making and opening *)

(** The open slots of [s] are kept. *)
Definition all_kept s s' : Prop := forall i t, topics s !! i = Some t -> t_open t = true -> slot_kept i s s' None.
Lemma all_kept_refl s : all_kept s s.
Proof. intros i t Hi _. by apply (slot_same i t). Qed.

Lemma create_spec name q sc s : tidy s -> lenz name < KDDS_NAME_MAX ->
  let r := val (topic_find_or_create name q sc s) in let s' := exec (topic_find_or_create name q sc) s in
  tidy s' /\ handles s' = handles s /\ all_kept s s' /\
  (r = -1 /\ s' = s /\ (forall i t, topics s !! i = Some t -> t_open t = true /\ t_name t <> name) \/
   exists i t, r = Z.of_nat i /\ topics s' !! i = Some t /\ t_open t = true /\ t_name t = name).
Proof.
  intros Ht Hname. unfold topic_find_or_create. rewrite val_bind, exec_bind. change (val (get s)) with s. change (exec get s) with s. cbv zeta.
  destruct (find_topic name s) as [[E Hno]|(i & t & E & Hi & Ho & Hn)]; rewrite E; cbn [Z.leb Z.compare].
  - destruct (first_ix_spec (fun t => negb (t_open t)) (topics s) 0 ltac:(done)) as [[-> Hfull]|(j & t & -> & Hj & Hc)].
    + split_and!; [done|done|apply all_kept_refl|]. left. split_and!; [done|done|]. intros i t Hi. specialize (Hfull i t Hi). bools.
      split; [done|]. by apply (Hno i).
    + bools. rewrite Z.add_0_l, (proj2 (Z.ltb_ge _ _)) by lia. rewrite val_bind, exec_bind. rewrite (topic_at_nat j t s Hj).
      change (exec (modify ?f) s) with (f s). ret_now.
      assert (topic_ok t) as Hok by by eapply (proj1 (Forall_lookup _ _) (td_slots _ Ht)).
      split; [|split; [done|split]].
      * apply (set_topic_tidy j t); [done|done| |by left|].
        -- destruct Hok as [H1 H2 H3]. split; [done|done|apply strcpy_fits].
        -- intros _ k u Hk Hu Hou. cbn [new_topic t_name]. rewrite strcpy_short by done. by apply (Hno k).
      * intros k u Hk Hou. assert (k <> j) by (intros ->; congruence). apply (slot_same k u); [done|]. by rewrite set_topic_same.
      * right. exists j, (new_topic name q sc t). split_and!; [done|by apply (set_topic_here j t)|done|]. cbn [new_topic t_name]. by apply strcpy_short.
  - rewrite (proj2 (Z.leb_le _ _)) by lia. rewrite val_bind, exec_bind. rewrite (topic_at_nat i t s Hi).
    change (exec (modify ?f) s) with (f s). ret_now.
    assert (topic_ok t) as Hok by by eapply (proj1 (Forall_lookup _ _) (td_slots _ Ht)). rewrite Ho.
    split; [|split; [done|split]].
    * apply (set_topic_tidy i t); [done|done|by destruct Hok; split|by left|].
      intros _ k u Hk Hu Hou En. apply Hk. apply (td_names _ Ht k i u t); try done.
    * intros k u Hk Hou. destruct (decide (k = i)) as [->|Hne].
      -- eexists t, _. split_and!; [done|by apply (set_topic_here i t)|done|done|done|done].
      -- apply (slot_same k u); [done|]. by rewrite set_topic_same.
    * right. eexists i, _. split_and!; [done|by apply (set_topic_here i t)|done|done].
Qed.

(** A handle of a sound slot. *)
Lemma set_handle_tidy (k : nat) x s i t : tidy s -> (k < length (handles s))%nat -> topic_idx x = Z.of_nat i -> topics s !! i = Some t ->
  t_open t = true \/ gone (t_name t) ->
  tidy (set_handle (Z.of_nat k) x s).
Proof.
  intros [T1 T2 T3 T4 T5] Hk Hx Hi Ho. unfold set_handle. rewrite setz_nat. split; cbn [with_handles topics handles]; try done; [unfold lenz; by rewrite length_insert|].
  intros j y Hj Hy. apply list_lookup_insert_Some in Hj as [(<- & <- & _)|[_ Hj]]; [by exists i, t|by apply (T5 j)].
Qed.
Lemma drop_handle_tidy (k : nat) x s : tidy s -> h_open x = false -> tidy (set_handle (Z.of_nat k) x s).
Proof.
  intros [T1 T2 T3 T4 T5] Hx. unfold set_handle. rewrite setz_nat. split; cbn [with_handles topics handles]; try done; [unfold lenz; by rewrite length_insert|].
  intros j y Hj Hy. apply list_lookup_insert_Some in Hj as [(<- & <- & _)|[_ Hj]]; [congruence|by apply (T5 j)].
Qed.

(** The open handles of [s] are kept, but for the owner. *)
Definition handles_kept s s' : Prop := forall k x, handles s !! k = Some x -> h_open x = true ->
  exists x', handles s' !! k = Some x' /\ h_open x' = true /\ topic_idx x' = topic_idx x /\ sub_sem x' = sub_sem x.
Lemma handles_kept_eq s s' : handles s' = handles s -> handles_kept s s'.
Proof. intros E k x Hk Hx. exists x. by rewrite E. Qed.

Lemma open_spec name q sc b sem s : tidy s -> lenz name < KDDS_NAME_MAX ->
  let r := val (kdds_open_core name q sc b sem s) in let s' := exec (kdds_open_core name q sc b sem) s in
  tidy s' /\ handles_kept s s' /\ all_kept s s' /\
  (0 <= r -> (b = false \/ 0 <= sem) -> exists k i t, r = Z.of_nat k /\ handles s' !! k = Some (Handle (Z.of_nat i) (if b then sem else -1) 0 true) /\
     topics s' !! i = Some t /\ t_open t = true /\ t_name t = name).
Proof.
  intros Ht Hname. unfold kdds_open_core. rewrite val_bind, exec_bind. destruct (create_spec name q sc s Ht Hname) as (C1 & C2 & C3 & C4).
  set (s1 := exec (topic_find_or_create name q sc) s) in *. set (r1 := val (topic_find_or_create name q sc s)) in *.
  assert (tidy s1 /\ handles_kept s s1 /\ all_kept s s1) as Hkeep by (split_and!; [done|by apply handles_kept_eq|done]).
  destruct C4 as [(-> & E & _)|(i & t & -> & Hi & Ho & Hn)].
  - change (-1 <? 0) with true. cbv iota. ret_now. destruct Hkeep as (K1 & K2 & K3). refine (conj K1 (conj K2 (conj K3 _))). lia.
  - rewrite (proj2 (Z.ltb_ge _ _)) by lia. rewrite val_bind, exec_bind. change (val (get s1)) with s1. change (exec get s1) with s1. cbv zeta.
    destruct (first_ix_spec (fun x => negb (h_open x)) (handles s1) 0 ltac:(done)) as [[-> _]|(k & x & -> & Hk & Hc)].
    { change (-1 <? 0) with true. cbv iota. ret_now. destruct Hkeep as (K1 & K2 & K3). refine (conj K1 (conj K2 (conj K3 _))). lia. }
    bools. rewrite Z.add_0_l, (proj2 (Z.ltb_ge _ _)) by lia. destruct (b && (sem <? 0)) eqn:Eb.
    { ret_now. destruct Hkeep as (K1 & K2 & K3). split_and!; [done|done|done|]. bools. intros ? [->|?]; [done|lia]. }
    rewrite val_bind, exec_bind. ret_now. change (exec (modify ?f) s1) with (f s1).
    assert (k < length (handles s1))%nat as Hlt by by eapply lookup_lt_Some.
    split; [apply (set_handle_tidy k _ s1 i t); auto|]. split; [|split; [done|]].
    + intros j y Hj Hy. destruct Hkeep as (_ & K2 & _). destruct (K2 j y Hj Hy) as (y' & Hj' & Hrest). exists y'. split; [|done].
      unfold set_handle. rewrite setz_nat. cbn [with_handles handles]. rewrite list_lookup_insert_ne; [done|]. intros ->. destruct Hrest as (Hy' & _). congruence.
    + intros _ _. exists k, i, t. split_and!; [done| |done|done|done]. unfold set_handle. rewrite setz_nat. cbn [with_handles handles]. by apply list_lookup_insert_eq.
Qed.

(** ** Publishing and receiving *)

Lemma iter_same {A} (l : list A) (f : A -> op unit) s : (forall x s, exec (f x) s = s) -> exec (iter l f) s = s.
Proof. intros Hf. revert s. induction l as [|x l IH]; intros s; [done|]. cbn [iter]. by rewrite exec_bind, Hf. Qed.

Lemma signal_exec tidx but s : exec (signal_subs tidx but) s = s.
Proof. unfold signal_subs. rewrite exec_bind. apply iter_same. intros h s'. unfold when. by destruct (_ && _). Qed.

(** Only the counters differ. *)
Definition same_tables s s' : Prop := topics s' = topics s /\ handles s' = handles s.
#[local] Instance same_tables_preorder : PreOrder same_tables.
Proof. split; [by intros s|]. intros s s' s'' [H1 H2] [H3 H4]. split; congruence. Qed.

Lemma send_all_same v frame to : relates same_tables (send_all v frame to).
Proof.
  unfold send_all. apply relates_bind; [apply _| |by intros _ s]. apply relates_iter; [apply _|]. intros n.
  apply relates_bind; [apply _|by intros s|]. intros _ s. unfold when. by destruct (reaches v n).
Qed.

Lemma same_tables_tidy s s' : same_tables s s' -> tidy s -> tidy s'.
Proof. intros [E1 E2] [T1 T2 T3 T4 T5]. split; by rewrite ?E1, ?E2. Qed.

Lemma contents_written d q t : length (t_data t) = 192%nat -> 1 <= lenz d <= KDDS_DATA_MAX -> contents (written d q t) = d.
Proof.
  intros Hl Hd. unfold contents, written. cbn [data_len t_data]. unfold u16, KDDS_DATA_MAX in *. rewrite Z.mod_small by lia.
  unfold blit. change (take (Z.to_nat 0) (t_data t)) with (@nil Z). cbn [app]. apply take_app_length'. unfold lenz. lia.
Qed.

Lemma written_ok d q t : topic_ok t -> 1 <= lenz d <= KDDS_DATA_MAX -> topic_ok (written d q t).
Proof.
  intros [H1 H2 H3] Hd. split; cbn [written t_data data_len t_name]; [| |done].
  - rewrite blit_length; [done|done|]. unfold lenz, KDDS_DATA_MAX in *. rewrite H1. lia.
  - unfold u16, KDDS_DATA_MAX in *. rewrite Z.mod_small; lia.
Qed.

(** A value written in a slot. *)
Lemma write_slot (i : nat) t d q s : tidy s -> topics s !! i = Some t -> 1 <= lenz d <= KDDS_DATA_MAX ->
  let s' := set_topic (Z.of_nat i) (written d q t) s in
  tidy s' /\ slot_kept i s s' (Some d) /\ (forall j u, j <> i -> topics s !! j = Some u -> slot_kept j s s' None).
Proof.
  intros Ht Hi Hd s'. assert (topic_ok t) as Hok by by eapply (proj1 (Forall_lookup _ _) (td_slots _ Ht)). split_and!.
  - apply (set_topic_tidy i t); [done|done|by apply written_ok|by right; right|]. intros Ho j u Hj Hu Hou En. apply Hj. by apply (td_names _ Ht j i u t).
  - exists t, (written d q t). split_and!; [done|by apply (set_topic_here i t)|done|done|done|]. cbn [default]. apply contents_written; [apply Hok|done].
  - intros j u Hj Hu. apply (slot_same j u); [done|]. unfold s'. by rewrite set_topic_same.
Qed.

(** What an accepted publication does. *)
Definition pub_ok (h : Z) (data : list Z) s : bool := negb (bad_handle h s) && negb ((lenz data <=? 0) || (KDDS_DATA_MAX <? lenz data)).

Lemma pub_spec v h data dst s : tidy s ->
  let r := val (kdds_pub_core v h data dst s) in let s' := exec (kdds_pub_core v h data dst) s in
  tidy s' /\ handles s' = handles s /\ r = (if pub_ok h data s then 0 else E_PAR) /\
  (forall i t, topics s !! i = Some t -> t_open t = true ->
     slot_kept i s s' (if pub_ok h data s && (topic_idx (handle_at h s) =? Z.of_nat i) then Some data else None)).
Proof.
  intros Ht. unfold kdds_pub_core, pub_ok. rewrite val_bind, exec_bind. change (val (get s)) with s. change (exec get s) with s.
  destruct (bad_handle h s) eqn:Eb; cbn [negb andb].
  { ret_now. split_and!; [done|done|done|]. intros i t Hi _. by apply (slot_same i t). }
  destruct ((lenz data <=? 0) || (KDDS_DATA_MAX <? lenz data)) eqn:El; cbn [negb andb].
  { ret_now. split_and!; [done|done|done|]. intros i t Hi _. by apply (slot_same i t). }
  cbv zeta. destruct (handle_in h s Eb) as (k & -> & Hk & Hx). destruct (td_refs _ Ht k _ Hk Hx) as (i & t & Ei & Hi & Ho). rewrite Ei, (topic_at_nat i t s Hi).
  bools. destruct (write_slot i t data (u16 (data_seq t + 1)) s Ht Hi ltac:(lia)) as (W1 & W2 & W3). set (s1 := set_topic _ _ s) in *.
  rewrite !val_bind, !exec_bind. change (exec (modify ?f) s) with s1. rewrite signal_exec. ret_now.
  match goal with |- context [exec ?m s1] => assert (same_tables s1 (exec m s1)) as Hsame by (destruct (negb (me v =? 0xFF)); [apply send_all_same|done]); set (s2 := exec m s1) in * end.
  split; [by eapply same_tables_tidy|]. split; [apply Hsame|]. split; [done|]. intros j u Hj _.
  assert (forall new, slot_kept j s s1 new -> slot_kept j s s2 new) as Hkeep.
  { intros new (a & b & Ha & Hb & Hrest). exists a, b. split_and!; [done| |apply Hrest..]. by rewrite (proj1 Hsame). }
  apply Hkeep. destruct (Z.eqb_spec (Z.of_nat i) (Z.of_nat j)) as [E|Hne]; [assert (j = i) as -> by lia; exact W2|]. apply (W3 j u); [lia|done].
Qed.

(** A frame as [kdds_rx] reads it: the name and the value, when it is accepted. *)
Definition rx_value (frame : list Z) : option (list Z * list Z) :=
  let dlen := num_at 8 2 frame in
  if (lenz frame <? KDDS_PKT_LEN) || (negb (num_at 0 4 frame =? KDDS_MAGIC) || negb (getz frame 4 0 =? KDDS_VERSION)) ||
     negb (getz frame 5 0 =? KDDS_DATA_PKT) || ((dlen =? 0) || (KDDS_DATA_MAX <? dlen)) then None
  else Some (name_str (bytes_at 12 32 frame), bytes_at 44 (Z.to_nat dlen) frame).

Lemma rx_eq frame : kdds_rx frame =
  match rx_value frame with
  | None => ret tt
  | Some (name, d) =>
      s ← get;
      let f := topic_find name s in
      tidx ← (if f <? 0 then topic_find_or_create name KDDS_QOS_LATEST_ONLY KDDS_SCOPE_GLOBAL else ret f);
      if tidx <? 0 then ret tt
      else modify (fun s => let t := topic_at tidx s in set_topic tidx (written d (data_seq t) t) s) ;; signal_subs tidx (-1)
  end.
Proof.
  unfold kdds_rx, rx_value. cbv zeta. destruct (lenz frame <? KDDS_PKT_LEN); [done|]. cbn [orb].
  destruct (negb (num_at 0 4 frame =? KDDS_MAGIC) || negb (getz frame 4 0 =? KDDS_VERSION)); [done|]. cbn [orb].
  destruct (negb (getz frame 5 0 =? KDDS_DATA_PKT)); [done|]. cbn [orb]. by destruct ((_ =? 0) || _).
Qed.

(** The names in frames are strings that fit, the bytes are bytes. *)
Definition frame_ok (frame : list Z) : Prop := Forall is_u8 frame /\ forall name d, rx_value frame = Some (name, d) -> lenz name < KDDS_NAME_MAX.

Lemma rx_length frame name d : Forall is_u8 frame -> rx_value frame = Some (name, d) -> 1 <= lenz d <= KDDS_DATA_MAX.
Proof.
  intros Hb. unfold rx_value. cbv zeta. destruct (_ || _) eqn:E; [done|]. intros [= <- <-]. bools.
  pose proof (num_at_range 8 2 frame Hb ltac:(unfold lenz, KDDS_PKT_LEN in *; lia)) as Hr.
  unfold lenz, bytes_at. rewrite length_take, length_drop. unfold lenz, KDDS_PKT_LEN, KDDS_DATA_MAX in *. lia.
Qed.

Lemma rx_spec frame s : tidy s -> frame_ok frame ->
  let s' := exec (kdds_rx frame) s in
  tidy s' /\ handles s' = handles s /\
  (forall i t, topics s !! i = Some t -> t_open t = true ->
     slot_kept i s s' (match rx_value frame with Some (name, d) => if bool_decide (name = t_name t) then Some d else None | None => None end)) /\
  (forall name d, rx_value frame = Some (name, d) -> (exists i t, topics s !! i = Some t /\ (t_open t = false \/ t_name t = name /\ t_open t = true)) ->
     exists i t, topics s' !! i = Some t /\ t_open t = true /\ t_name t = name /\ contents t = d).
Proof.
  intros Ht [Hb Hf]. rewrite rx_eq. destruct (rx_value frame) as [[name d]|] eqn:E.
  2:{ split_and!; [done|done| |done]. intros i t Hi _. by apply (slot_same i t). }
  pose proof (rx_length frame name d Hb E) as Hd. specialize (Hf name d eq_refl).
  rewrite exec_bind. change (val (get s)) with s. change (exec get s) with s. cbv zeta. rewrite exec_bind.
  set (m := if topic_find name s <? 0 then _ else _).
  assert (tidy (exec m s) /\ handles (exec m s) = handles s /\ all_kept s (exec m s) /\
    (val (m s) = -1 /\ exec m s = s /\ (forall i t, topics s !! i = Some t -> t_open t = true /\ t_name t <> name) \/
     exists i t, val (m s) = Z.of_nat i /\ topics (exec m s) !! i = Some t /\ t_open t = true /\ t_name t = name)) as (C1 & C2 & C3 & C4).
  { unfold m. destruct (find_topic name s) as [[Ef _]|(i & t & Ef & Hi & Ho & Hn)]; rewrite Ef.
    - cbn [Z.ltb Z.compare]. by apply create_spec.
    - rewrite (proj2 (Z.ltb_ge _ _)) by lia. ret_now. split_and!; [done|done|apply all_kept_refl|]. right. by exists i, t. }
  destruct C4 as [(-> & -> & Hfull)|(i & t & -> & Hi & Ho & Hn)].
  - change (-1 <? 0) with true. cbv iota. ret_now. split_and!; [done|done| |].
    + intros i t Hi _. destruct (Hfull i t Hi) as [_ Hne]. rewrite bool_decide_eq_false_2 by congruence. by apply (slot_same i t).
    + intros n' d' [= <- <-] (i & t & Hi & [Hc|[Hn _]]); destruct (Hfull i t Hi); congruence.
  - rewrite (proj2 (Z.ltb_ge _ _)) by lia. set (s1 := exec m s) in *. rewrite exec_bind.
    change (exec (modify ?f) s1) with (f s1). cbv beta zeta. rewrite (topic_at_nat i t s1 Hi), signal_exec.
    destruct (write_slot i t d (data_seq t) s1 C1 Hi Hd) as (W1 & W2 & W3). set (s2 := set_topic _ _ s1) in *.
    split_and!; [done|done| |].
    + intros j u Hj Hou. destruct (C3 j u Hj Hou) as (u0 & u1 & Hu0 & Hu1 & F1 & F2 & F3 & F4). assert (u0 = u) as -> by congruence. clear Hu0.
      destruct (decide (j = i)) as [->|Hji].
      * assert (u1 = t) as -> by congruence. rewrite bool_decide_eq_true_2 by congruence. destruct W2 as (a & b & Ha & Hb2 & G1 & G2 & G3 & G4).
        exists u, b. assert (a = t) as -> by congruence. split_and!; [done|done|congruence|congruence|congruence|done].
      * destruct (W3 j u1 Hji Hu1) as (a & b & Ha & Hb2 & G1 & G2 & G3 & G4). assert (a = u1) as -> by congruence.
        rewrite bool_decide_eq_false_2.
        -- exists u, b. cbn [default] in *. split_and!; [done|done|congruence|congruence|congruence|congruence].
        -- intros En. apply Hji. apply (td_names _ C1 j i u1 t); try done; [congruence|congruence].
    + intros n' d' [= <- <-] _. destruct W2 as (a & b & Ha & Hb2 & G1 & G2 & G3 & G4). assert (a = t) as -> by congruence.
      exists i, b. split_and!; [done|congruence|congruence|done].
Qed.

(** ** Closing *)

Lemma slot_trans i s s1 s2 new new' : slot_kept i s s1 new -> slot_kept i s1 s2 new' -> slot_kept i s s2 (match new' with Some d => Some d | None => new end).
Proof.
  intros (t & t1 & H1 & H2 & H3 & H4 & H5 & H6) (t1' & t2 & K1 & K2 & K3 & K4 & K5 & K6). assert (t1' = t1) as -> by congruence.
  exists t, t2. split_and!; [done|done|congruence|congruence|congruence|]. destruct new' as [d|]; cbn [default] in *; congruence.
Qed.

Lemma close_topic_spec (i : nat) s : tidy s -> (forall k x, handles s !! k = Some x -> h_open x = true -> topic_idx x <> Z.of_nat i) ->
  let s' := exec (close_topic (Z.of_nat i)) s in
  tidy s' /\ handles s' = handles s /\ (forall j, j <> i -> topics s' !! j = topics s !! j).
Proof.
  intros [T1 T2 T3 T4 T5] Hno s'. destruct (topics s !! i) as [t|] eqn:Hi.
  2:{ assert (s' = s) as ->.
      { unfold s', close_topic. change (exec (modify ?f) s) with (f s). cbv beta zeta. unfold set_topic. rewrite setz_nat, list_insert_ge by by apply lookup_ge_None. by destruct s. }
      split; [by split|done]. }
  unfold s', close_topic. change (exec (modify ?f) s) with (f s). cbv beta zeta. rewrite (topic_at_nat i t s Hi). unfold set_topic. rewrite setz_nat.
  set (t' := Topic _ _ _ _ _ _ _). split; [|split; [done|intros j Hj; cbn [with_topics topics]; by rewrite list_lookup_insert_ne]].
  split; cbn [with_topics topics handles]; [unfold lenz; by rewrite length_insert|done| | |].
  - apply Forall_insert; [done|]. rewrite Forall_lookup in T3. destruct (T3 i t Hi). by split.
  - intros j k u w Hj Hk Hu Hw. apply list_lookup_insert_Some in Hj, Hk. destruct Hj as [(_ & <- & _)|[_ Hj]]; [done|].
    destruct Hk as [(_ & <- & _)|[_ Hk]]; [done|]. by apply T4.
  - intros k x Hk Hx. destruct (T5 k x Hk Hx) as (j & u & E & Hj & Hu). exists j, u. split_and!; [done| |done].
    rewrite list_lookup_insert_ne; [done|]. intros <-. by apply (Hno k x).
Qed.

(** Closing an open handle: the others and their topics stay. *)
Lemma close_spec (k : nat) x s : tidy s -> handles s !! k = Some x -> h_open x = true ->
  let s' := exec (kdds_close (Z.of_nat k)) s in
  tidy s' /\ handles s' = <[k := closed_handle (topic_idx x) x]> (handles s) /\
  (forall j y i, j <> k -> handles s !! j = Some y -> h_open y = true -> topic_idx y = Z.of_nat i -> slot_kept i s s' None).
Proof.
  intros Ht Hk Hx. pose proof (lookup_lt_Some _ _ _ Hk) as Hlt. pose proof (td_handles _ Ht) as Hlen.
  unfold kdds_close. rewrite exec_bind. change (val (get s)) with s. change (exec get s) with s.
  rewrite (proj2 (Z.ltb_ge _ _)), (proj2 (Z.leb_gt _ _)), (handle_at_nat k x s Hk), Hx by (unfold lenz in Hlen; lia). cbn [orb negb].
  rewrite !exec_bind. set (s0 := exec (del_sem x) s). assert (s0 = s) as -> by (unfold s0, del_sem, when; by destruct (0 <=? sub_sem x)).
  change (exec (modify ?f) s) with (f s). set (s1 := set_handle (Z.of_nat k) (closed_handle (topic_idx x) x) s).
  change (val (gets ?f s1)) with (f s1). change (exec (gets ?f) s1) with s1. cbv beta.
  assert (handles s1 = <[k := closed_handle (topic_idx x) x]> (handles s)) as E1 by (unfold s1, set_handle; by rewrite setz_nat).
  assert (tidy s1) as T1 by by apply drop_handle_tidy. assert (topics s1 = topics s) as Et by done.
  destruct (existsb _ (handles s1)) eqn:Eu; unfold unless.
  - ret_now. split; [done|]. split; [done|]. intros j y i _ Hj Hy Ei. destruct (td_refs _ Ht j y Hj Hy) as (i' & t & Ei' & Hi & _).
    assert (i' = i) as -> by lia. by apply (slot_same i t).
  - destruct (td_refs _ Ht k x Hk Hx) as (i & t & Ei & Hi & Ho). rewrite Ei.
    assert (forall j y, handles s1 !! j = Some y -> h_open y = true -> topic_idx y <> Z.of_nat i) as Hno.
    { intros j y Hj Hy E. apply not_true_iff_false in Eu. apply Eu, existsb_exists. exists y. split; [apply list_elem_of_In; by eapply list_elem_of_lookup_2|].
      rewrite Hy, Ei, E. cbn [andb]. apply Z.eqb_refl. }
    destruct (close_topic_spec i s1 T1 Hno) as (C1 & C2 & C3). split; [done|]. split; [by rewrite C2, E1, Ei|].
    intros j y i' Hjk Hj Hy Ei2. assert (handles s1 !! j = Some y) as Hj1 by (rewrite E1, list_lookup_insert_ne by done; done).
    destruct (td_refs _ Ht j y Hj Hy) as (i2 & u & Ei3 & Hu & _). assert (i2 = i') as -> by lia. apply (slot_same i' u); [done|].
    rewrite C3; [done|]. intros ->. by apply (Hno j y).
Qed.

Lemma close_bad h s : bad_handle h s = true -> exec (kdds_close h) s = s.
Proof.
  unfold bad_handle, kdds_close. intros Hb. rewrite exec_bind. change (val (get s)) with s. change (exec get s) with s.
  apply orb_true_iff in Hb as [->|Hb]; [done|]. destruct (_ || _); [done|]. by rewrite Hb.
Qed.

(** The sweep of one owner. *)
Definition owned (tid : Z) (x : KDDS_HANDLE_SLOT) : bool := h_open x && (owner x =? tid).

Lemma close_owned_spec hs tid s : tidy s -> NoDup hs -> Forall (fun h => 0 <= h < KDDS_HANDLE_MAX) hs ->
  let s' := exec (close_owned hs tid) s in
  tidy s' /\
  (forall k x, handles s !! k = Some x -> handles s' !! k = Some (if bool_decide (Z.of_nat k ∈ hs) && owned tid x then closed_handle (topic_idx x) x else x)) /\
  (forall k x i, handles s' !! k = Some x -> h_open x = true -> topic_idx x = Z.of_nat i -> slot_kept i s s' None) /\
  val (close_owned hs tid s) = lenz (List.filter (fun h => owned tid (handle_at h s)) hs).
Proof.
  intros Ht Hnd Hr. revert s Ht. induction hs as [|h hs IH]; intros s Ht.
  { cbn [close_owned]. ret_now. split; [done|]. split; [|split; [|done]].
    - intros k x Hk. rewrite bool_decide_eq_false_2; [done|]. apply not_elem_of_nil.
    - intros k x i Hk Hx Ei. destruct (td_refs _ Ht k x Hk Hx) as (i' & t & Ei' & Hi & _). assert (i' = i) as -> by lia. by apply (slot_same i t). }
  apply list.NoDup_cons in Hnd as [Hnin Hnd]. apply list.Forall_cons in Hr as [Hh Hr]. specialize (IH Hnd Hr).
  assert (exists k x, h = Z.of_nat k /\ handles s !! k = Some x) as (k & x & -> & Hk).
  { exists (Z.to_nat h). pose proof (td_handles _ Ht) as Hl. destruct (lookup_lt_is_Some_2 (handles s) (Z.to_nat h)) as [x Hx]; [unfold lenz in Hl; lia|].
    exists x. split; [lia|done]. }
  cbn [close_owned List.filter]. rewrite val_bind, exec_bind. change (val (gets ?f s)) with (f s). change (exec (gets ?f) s) with s.
  rewrite (handle_at_nat k x s Hk). fold (owned tid x).
  assert (negb (h_open x) || negb (owner x =? tid) = negb (owned tid x)) as -> by (unfold owned; by rewrite negb_andb).
  destruct (owned tid x) eqn:Eo; cbn [negb].
  - assert (h_open x = true) as Hx by (unfold owned in Eo; by apply andb_true_iff in Eo as [? _]).
    destruct (close_spec k x s Ht Hk Hx) as (C1 & C2 & C3). rewrite !val_bind, !exec_bind. set (s1 := exec (kdds_close (Z.of_nat k)) s) in *.
    destruct (IH s1 C1) as (I1 & I2 & I3 & I4). rewrite ?val_bind, ?exec_bind. set (s2 := exec (close_owned hs tid) s1) in *. ret_now.
    split; [done|]. split; [|split].
    + intros j y Hj. destruct (decide (j = k)) as [->|Hjk].
      * assert (y = x) as -> by congruence. rewrite bool_decide_eq_true_2 by (left). rewrite Eo. cbn [andb].
        assert (handles s1 !! k = Some (closed_handle (topic_idx x) x)) as Hk1 by (rewrite C2; apply list_lookup_insert_eq; by eapply lookup_lt_Some).
        rewrite (I2 k _ Hk1). unfold owned. cbn [closed_handle h_open]. by rewrite andb_false_r.
      * assert (handles s1 !! j = Some y) as Hj1 by (rewrite C2, list_lookup_insert_ne by done; done). rewrite (I2 j y Hj1).
        replace (bool_decide (Z.of_nat j ∈ Z.of_nat k :: hs)) with (bool_decide (Z.of_nat j ∈ hs)); [done|]. apply bool_decide_ext. rewrite elem_of_cons. split; [by right|]. intros [E|E]; [lia|done].
    + intros j y i Hj Hy Ei. pose proof (I3 j y i Hj Hy Ei) as Hkept. destruct (decide (j = k)) as [->|Hjk].
      { assert (handles s1 !! k = Some (closed_handle (topic_idx x) x)) as Hk1 by (rewrite C2; apply list_lookup_insert_eq; by eapply lookup_lt_Some).
        rewrite (I2 k _ Hk1) in Hj. unfold owned in Hj. cbn [closed_handle h_open] in Hj. rewrite andb_false_r in Hj. by injection Hj as <-. }
      destruct (lookup_lt_is_Some_2 (handles s) j) as [y0 Hy0].
      { apply lookup_lt_Some in Hj. pose proof (td_handles _ I1). pose proof (td_handles _ Ht). unfold lenz in *. lia. }
      assert (handles s1 !! j = Some y0) as Hj1 by (rewrite C2, list_lookup_insert_ne by done; done).
      rewrite (I2 j y0 Hj1) in Hj. destruct (_ && owned tid y0); [by injection Hj as <-|]. injection Hj as ->.
      exact (slot_trans i s s1 s2 None None (C3 j y i Hjk Hy0 Hy Ei) Hkept).
    + change (val (ret ?x ?y)) with x. rewrite I4. unfold lenz. cbn [length]. rewrite Nat2Z.inj_succ, <- Z.add_1_r.
      erewrite (List.filter_ext_in _ (fun h => owned tid (handle_at h s))); [done|].
      intros h Hin. assert (h <> Z.of_nat k) by (intros ->; apply Hnin; by apply list_elem_of_In).
      unfold handle_at. f_equal. rewrite C2. unfold getz. destruct (h <? 0) eqn:Eh; [done|]. rewrite !nth_lookup. rewrite list_lookup_insert_ne; [done|]. bools. lia.
  - destruct (IH s Ht) as (I1 & I2 & I3 & I4). split; [done|]. split; [|split; [done|done]].
    intros j y Hj. rewrite (I2 j y Hj). destruct (decide (j = k)) as [->|Hjk].
    + assert (y = x) as -> by congruence. by rewrite Eo, !andb_false_r.
    + replace (bool_decide (Z.of_nat j ∈ Z.of_nat k :: hs)) with (bool_decide (Z.of_nat j ∈ hs)); [done|]. apply bool_decide_ext. rewrite elem_of_cons. split; [by right|]. intros [E|E]; [lia|done].
Qed.

(** The loop of a deletion drops the handles of one topic. *)
Definition dropped (dead : Z) (x : KDDS_HANDLE_SLOT) : KDDS_HANDLE_SLOT := if h_open x && (topic_idx x =? dead) then closed_handle (-1) x else x.

Lemma drop_one dead (k : nat) x s : tidy s -> handles s !! k = Some x ->
  let s' := exec (drop_handle dead (Z.of_nat k)) s in tidy s' /\ topics s' = topics s /\ handles s' = <[k := dropped dead x]> (handles s).
Proof.
  intros Ht Hk s'. unfold s', drop_handle, dropped. rewrite exec_bind. change (val (gets ?f s)) with (f s). change (exec (gets ?f) s) with s.
  cbv beta. rewrite (handle_at_nat k x s Hk). destruct (h_open x && (topic_idx x =? dead)).
  2:{ unfold when. ret_now. split_and!; [done|done|]. by rewrite list_insert_id. }
  assert (exec (when true (del_sem x ;; modify (set_handle (Z.of_nat k) (closed_handle (-1) x)))) s = set_handle (Z.of_nat k) (closed_handle (-1) x) s) as ->.
  { unfold when, del_sem. rewrite exec_bind. by destruct (0 <=? sub_sem x). }
  split; [by apply drop_handle_tidy|]. split; [done|]. unfold set_handle. by rewrite setz_nat.
Qed.

Lemma drop_all dead hs s : tidy s -> NoDup hs -> Forall (fun h => 0 <= h < KDDS_HANDLE_MAX) hs ->
  let s' := exec (iter hs (drop_handle dead)) s in
  tidy s' /\ topics s' = topics s /\
  (forall k x, handles s !! k = Some x -> handles s' !! k = Some (if bool_decide (Z.of_nat k ∈ hs) then dropped dead x else x)).
Proof.
  revert s. induction hs as [|h hs IH]; intros s Ht Hnd Hr.
  { cbn [iter]. ret_now. split_and!; [done|done|]. intros k x Hk. rewrite bool_decide_eq_false_2; [done|]. apply not_elem_of_nil. }
  apply list.NoDup_cons in Hnd as [Hnin Hnd]. apply list.Forall_cons in Hr as [Hh Hr].
  assert (exists k x, h = Z.of_nat k /\ handles s !! k = Some x) as (k & x & -> & Hk).
  { exists (Z.to_nat h). pose proof (td_handles _ Ht) as Hl. destruct (lookup_lt_is_Some_2 (handles s) (Z.to_nat h)) as [x Hx]; [unfold lenz in Hl; lia|].
    exists x. split; [lia|done]. }
  cbn [iter]. rewrite exec_bind. destruct (drop_one dead k x s Ht Hk) as (D1 & D2 & D3). set (s1 := exec (drop_handle dead (Z.of_nat k)) s) in *.
  destruct (IH s1 D1 Hnd Hr) as (I1 & I2 & I3). split; [done|]. split; [by rewrite I2|]. intros j y Hj. destruct (decide (j = k)) as [->|Hjk].
  - assert (y = x) as -> by congruence. rewrite bool_decide_eq_true_2 by left.
    rewrite (I3 k (dropped dead x)) by (rewrite D3; apply list_lookup_insert_eq; by eapply lookup_lt_Some). by rewrite bool_decide_eq_false_2.
  - rewrite (I3 j y) by by rewrite D3, list_lookup_insert_ne. f_equal.
    replace (bool_decide (Z.of_nat j ∈ Z.of_nat k :: hs)) with (bool_decide (Z.of_nat j ∈ hs)); [done|].
    apply bool_decide_ext. rewrite elem_of_cons. split; [by right|]. intros [E|E]; [lia|done].
Qed.

(** Every handle number. *)
Lemma all_handles : NoDup (seqZ 0 KDDS_HANDLE_MAX) /\ Forall (fun h => 0 <= h < KDDS_HANDLE_MAX) (seqZ 0 KDDS_HANDLE_MAX).
Proof. split; [apply NoDup_seqZ|]. apply list.Forall_forall. intros h Hh. apply elem_of_seqZ in Hh. lia. Qed.
Lemma handle_listed (k : nat) x s : tidy s -> handles s !! k = Some x -> Z.of_nat k ∈ seqZ 0 KDDS_HANDLE_MAX.
Proof. intros Ht Hk. apply elem_of_seqZ. apply lookup_lt_Some in Hk. pose proof (td_handles _ Ht) as Hl. unfold lenz in Hl. lia. Qed.

Lemma drop_handles dead s : tidy s ->
  let s' := exec (iter (seqZ 0 KDDS_HANDLE_MAX) (drop_handle dead)) s in
  tidy s' /\ topics s' = topics s /\ (forall k x, handles s !! k = Some x -> handles s' !! k = Some (dropped dead x)).
Proof.
  intros Ht. destruct all_handles as [A1 A2]. destruct (drop_all dead _ s Ht A1 A2) as (D1 & D2 & D3).
  split; [exact D1|]. split; [exact D2|]. intros k x Hk. rewrite (D3 k x Hk). f_equal.
  rewrite bool_decide_eq_true_2; [reflexivity|]. by apply (handle_listed k x s).
Qed.

(** The tables have one length. *)
Lemma handle_back (k : nat) x s s' : tidy s -> tidy s' -> handles s' !! k = Some x -> exists y, handles s !! k = Some y.
Proof.
  intros T1 T2 Hk. apply lookup_lt_Some in Hk. apply lookup_lt_is_Some. pose proof (td_handles _ T1) as H1. pose proof (td_handles _ T2) as H2.
  unfold lenz in H1, H2. lia.
Qed.

(** A deletion closes the topic and its handles, and nothing else. *)
Lemma delete_spec v name s : tidy s ->
  let s' := exec (kdds_delete_cluster v name) s in
  tidy s' /\
  (forall k x i t, handles s !! k = Some x -> h_open x = true -> topic_idx x = Z.of_nat i -> topics s !! i = Some t -> t_name t <> name ->
     handles s' !! k = Some x /\ slot_kept i s s' None) /\
  (forall i t, topics s' !! i = Some t -> t_open t = true -> t_name t <> name).
Proof.
  intros Ht. unfold kdds_delete_cluster. rewrite exec_bind. change (val (get s)) with s. change (exec get s) with s. cbv zeta. rewrite exec_bind.
  set (m := when _ _).
  assert (forall s2, exec (unless (me v =? 0xFF) (call (Tombstone name))) s2 = s2) as Hend by (intros s2; unfold unless; by destruct (me v =? 0xFF)).
  rewrite Hend. unfold m, when. destruct (find_topic name s) as [[E Hno]|(d & td & E & Hd & Hod & Hnd)]; rewrite E.
  { change (0 <=? -1) with false. cbv iota. ret_now. split_and!; [done| |done]. intros k x i t Hk Hx Ei Hi _. split; [done|]. by apply (slot_same i t). }
  rewrite (proj2 (Z.leb_le _ _)), exec_bind by lia.
  destruct (drop_handles (Z.of_nat d) s Ht) as (D1 & D2 & D3). set (s1 := exec (iter _ _) s) in *. clearbody s1.
  assert (forall k x, handles s1 !! k = Some x -> h_open x = true -> exists y, handles s !! k = Some y /\ y = x /\ topic_idx x <> Z.of_nat d) as Hback.
  { intros k x Hk Hx. destruct (handle_back k x s s1 Ht D1 Hk) as [y Hy]. rewrite (D3 k y Hy) in Hk. injection Hk as Ey. exists y. unfold dropped in Ey.
    destruct (h_open y && (topic_idx y =? Z.of_nat d)) eqn:Eb; [by subst x|]. subst x. rewrite Hx in Eb. cbn [andb] in Eb. bools. by split_and!. }
  destruct (close_topic_spec d s1 D1) as (C1 & C2 & C3); [intros k x Hk Hx; by destruct (Hback k x Hk Hx) as (y & _ & _ & ?)|].
  set (s2 := exec (close_topic (Z.of_nat d)) s1) in *. split; [done|]. split.
  - intros k x i t Hk Hx Ei Hi Hne. assert (i <> d) by (intros ->; congruence). split.
    + rewrite C2, (D3 k x Hk). unfold dropped. rewrite Ei, (proj2 (Z.eqb_neq _ _)) by lia. by rewrite andb_false_r.
    + apply (slot_same i t); [done|]. by rewrite C3, D2.
  - intros i t Hi Ho En. assert (topics s1 !! d = Some td) as Hd1 by by rewrite D2.
    destruct (decide (i = d)) as [->|Hne].
    + unfold s2, close_topic in Hi. change (exec (modify ?f) s1) with (f s1) in Hi. cbv beta zeta in Hi. rewrite (topic_at_nat d td s1 Hd1), (set_topic_here d td) in Hi by done.
      injection Hi as <-. done.
    + rewrite C3, D2 in Hi by done. apply Hne. by apply (td_names _ Ht i d t td); try congruence.
Qed.

Lemma owner_spec h tid s : tidy s ->
  let s' := exec (kdds_set_owner h tid) s in tidy s' /\ handles_kept s s' /\ topics s' = topics s.
Proof.
  intros Ht. unfold kdds_set_owner. rewrite exec_bind. change (val (get s)) with s. change (exec get s) with s.
  destruct ((h <? 0) || (KDDS_HANDLE_MAX <=? h)) eqn:Er; [ret_now; split_and!; [done|by apply handles_kept_eq|done]|].
  destruct (negb (h_open (handle_at h s))) eqn:Eo; [ret_now; split_and!; [done|by apply handles_kept_eq|done]|].
  destruct (tid <=? 0); [ret_now; split_and!; [done|by apply handles_kept_eq|done]|]. cbv zeta. change (exec (modify ?f) s) with (f s).
  destruct (handle_in h s ltac:(unfold bad_handle; by rewrite Er, Eo)) as (k & -> & Hk & Hx). destruct (td_refs _ Ht k _ Hk Hx) as (i & t & Ei & Hi & Ho).
  split; [|split; [|done]].
  - apply (set_handle_tidy k _ s i t); [done|by eapply lookup_lt_Some|done|done|done].
  - intros j y Hj Hy. unfold set_handle. rewrite setz_nat. cbn [with_handles handles]. destruct (decide (j = k)) as [->|Hne].
    + assert (y = handle_at (Z.of_nat k) s) as -> by congruence. eexists. split; [apply list_lookup_insert_eq; by eapply lookup_lt_Some|done].
    + exists y. by rewrite list_lookup_insert_ne.
Qed.

End soundness.
Arguments tidy gone s : clear implicits.

Lemma tidy_weaken (g g' : list Z -> Prop) s : (forall n, g n -> g' n) -> tidy g s -> tidy g' s.
Proof.
  intros Hg [T1 T2 T3 T4 T5]. split; try done. intros k x Hk Hx. destruct (T5 k x Hk Hx) as (i & t & E & Hi & Ho).
  exists i, t. split_and!; [done|done|]. destruct Ho as [Ho|Ho]; [by left|right; by apply Hg].
Qed.

(** ** Names *)

(** The bytes of a name. *)
Definition name_char (c : Z) : Prop := 0 < c < 256.

Lemma name_str_pad (n p : list Z) : Forall name_char n -> name_str (n ++ 0 :: p) = n.
Proof.
  induction 1 as [|c n Hc Hn IH]; [done|]. cbn [app name_str]. unfold name_char in Hc. rewrite (proj2 (Z.eqb_neq _ _)) by lia. by rewrite IH.
Qed.
Lemma name_str_chars l : Forall is_u8 l -> Forall name_char (name_str l).
Proof.
  induction 1 as [|c l Hc Hl IH]; [by constructor|]. cbn [name_str]. destruct (Z.eqb_spec c 0) as [|Hne]; [by constructor|].
  apply list.Forall_cons. split; [|done]. unfold name_char, is_u8 in *. lia.
Qed.

(** Two names for the witnesses. *)
Definition topic_a : list Z := [97].
Definition topic_b : list Z := [98].
