(* ===== verification/Replica.v ===== *)
(** * Replication of topics: src/arch/common/replica.c, replica.h

    Every node sends its topics to the others: in rounds, when a node comes back,
    when a node cries at boot and when it is thought to die. A snapshot is a row of
    packets of at most five entries; each entry is merged by itself: the newer
    number wins, an unknown topic is made, and an empty entry with the number of
    the tombstones deletes. The state is the tables of kdds.c, the tombstones, the
    counters and the number of the last round. Which nodes are alive, and this
    node's id, are arguments; waits and messages are left out. *)

From stdpp Require Import list.
#[local] Open Scope Z_scope.
From S2P Require Import Prelude.
From S2P Require Import Node.
From S2P Require Import Nodemap.
From S2P Require Import Step.
From S2P Require Import Wire.
From S2P Require Import Pmesh.
From S2P Require Import Topics.

Definition REPLICA_PORT : Z := 7379.
Definition REPLICA_MAGIC : Z := 0x4C504552.
Definition REPLICA_VERSION : Z := 2.
Definition REPLICA_ANNOUNCE : Z := 1.
Definition REPLICA_DATA : Z := 2.
Definition REPLICA_TOMB_SEQ : Z := 0xFFFE.
Definition REPLICA_TOMB_MAX : Z := 8.
Definition REPLICA_HDR_LEN : Z := 12.
Definition REPLICA_ENTRY_LEN : Z := KDDS_NAME_MAX + 8 + KDDS_DATA_MAX.
Definition REPLICA_ENTRY_MAX : Z := (PMESH_DATA_MAX - REPLICA_HDR_LEN) / REPLICA_ENTRY_LEN.

(** ** State *)

Record TOMB_SLOT : Type := Tomb { tomb_name : list Z; active : bool }.

(** [e_data] is the whole field of 192 bytes. *)
Record REPLICA_ENTRY : Type := Entry { e_name : list Z; e_len : Z; e_seq : Z; e_qos : Z; e_scope : Z; e_data : list Z }.

Record REPLICA_STATS : Type := Stats {
  sent_pkts : Z; recv_pkts : Z; merged : Z; skipped : Z; recovered : Z;
  rnd_entries : Z; rnd_parts : Z; rnd_total : Z; rnd_src : Z; rnd_seq : Z }.

Record replica : Type := Replica { tables : kdds; tomb : list TOMB_SLOT; replica_stats : REPLICA_STATS; round_seq_gen : Z }.

(** [Mesh n p]: packet [p] given to the mesh for node [n]. *)
Inductive mesh : Type := Mesh (dst : Z) (packet : list Z).

Definition no_tomb : TOMB_SLOT := Tomb [] false.
Definition replica_init (k : kdds) : replica :=
  Replica k (replicate (Z.to_nat REPLICA_TOMB_MAX) no_tomb) (Stats 0 0 0 0 0 0 0 0 0xFF 0) 0.

Definition with_tables (f : kdds -> kdds) (s : replica) : replica := Replica (f (tables s)) (tomb s) (replica_stats s) (round_seq_gen s).
Definition with_tomb (l : list TOMB_SLOT) (s : replica) : replica := Replica (tables s) l (replica_stats s) (round_seq_gen s).
Definition with_stats (f : REPLICA_STATS -> REPLICA_STATS) (s : replica) : replica := Replica (tables s) (tomb s) (f (replica_stats s)) (round_seq_gen s).
Definition next_round (s : replica) : replica := Replica (tables s) (tomb s) (replica_stats s) (u16 (round_seq_gen s + 1)).

Definition count_sent (c : REPLICA_STATS) := Stats (u32 (sent_pkts c + 1)) (recv_pkts c) (merged c) (skipped c) (recovered c) (rnd_entries c) (rnd_parts c) (rnd_total c) (rnd_src c) (rnd_seq c).
Definition count_recv (c : REPLICA_STATS) := Stats (sent_pkts c) (u32 (recv_pkts c + 1)) (merged c) (skipped c) (recovered c) (rnd_entries c) (rnd_parts c) (rnd_total c) (rnd_src c) (rnd_seq c).
Definition count_merged (c : REPLICA_STATS) := Stats (sent_pkts c) (recv_pkts c) (u32 (merged c + 1)) (skipped c) (recovered c) (rnd_entries c) (rnd_parts c) (rnd_total c) (rnd_src c) (rnd_seq c).
Definition count_skipped (c : REPLICA_STATS) := Stats (sent_pkts c) (recv_pkts c) (merged c) (u32 (skipped c + 1)) (recovered c) (rnd_entries c) (rnd_parts c) (rnd_total c) (rnd_src c) (rnd_seq c).
Definition count_recovered (c : REPLICA_STATS) := Stats (sent_pkts c) (recv_pkts c) (merged c) (skipped c) (u32 (recovered c + 1)) (rnd_entries c) (rnd_parts c) (rnd_total c) (rnd_src c) (rnd_seq c).

#[local] Abbreviation op A := (io replica mesh A).

(** ** Snapshots *)

Definition zero_pad (n : nat) (l : list Z) : list Z := l ++ replicate (n - length l) 0.

Definition topic_entry (t : KDDS_TOPIC) : REPLICA_ENTRY :=
  Entry (kd_strcpy (t_name t)) (data_len t) (data_seq t) (qos t) (scope t)
    (zero_pad 192 (if 0 <? data_len t then take (Z.to_nat (data_len t)) (t_data t) else [])).
Definition tomb_entry (name : list Z) : REPLICA_ENTRY := Entry (kd_strcpy name) 0 REPLICA_TOMB_SEQ 0 0 (replicate 192 0).

Definition snapshot_count (s : replica) : Z := lenz (List.filter t_open (topics (tables s))) + lenz (List.filter active (tomb s)).

(** A scan of a table from a place on, into what room is left: the entries it
    gives and how far it went. *)
Fixpoint take_live {A} (live : A -> bool) (entry : A -> REPLICA_ENTRY) (l : list A) (room : nat) : list REPLICA_ENTRY * nat :=
  match room, l with
  | O, _ | _, [] => ([], 0%nat)
  | S r, x :: l =>
      if live x then let '(es, k) := take_live live entry l r in (entry x :: es, S k)
      else let '(es, k) := take_live live entry l room in (es, S k)
  end.

Definition fill_part (s : replica) (tcur mcur : nat) : list REPLICA_ENTRY * nat * nat :=
  let '(es, k) := take_live t_open topic_entry (drop tcur (topics (tables s))) (Z.to_nat REPLICA_ENTRY_MAX) in
  if KDDS_TOPIC_MAX <=? Z.of_nat (tcur + k) then
    let '(ts, j) := take_live active (fun t => tomb_entry (tomb_name t)) (drop mcur (tomb s)) (Z.to_nat REPLICA_ENTRY_MAX - length es) in
    (es ++ ts, (tcur + k)%nat, (mcur + j)%nat)
  else (es, (tcur + k)%nat, mcur).

(** ** Packets *)

Definition enc_entry (e : REPLICA_ENTRY) : list Z :=
  zero_pad 32 (e_name e) ++ le 2 (e_len e) ++ le 2 (e_seq e) ++ [u8 (e_qos e); u8 (e_scope e); 0; 0] ++ e_data e.
Definition enc_part (type src round idx total : Z) (es : list REPLICA_ENTRY) : list Z :=
  le 4 REPLICA_MAGIC ++ [REPLICA_VERSION; type; pk_node_v1 src; u8 (lenz es)] ++ le 2 round ++ [u8 idx; u8 total] ++ concat (map enc_entry es).

Definition dec_entry (b : list Z) : REPLICA_ENTRY :=
  Entry (name_str (bytes_at 0 32 b)) (num_at 32 2 b) (num_at 34 2 b) (getz b 36 0) (getz b 37 0) (bytes_at 40 192 b).

(** ** Sending *)

(** The parts of a snapshot from the [p]th on: [n] of them are left. *)
Fixpoint send_parts (me dst round total p : Z) (tcur mcur : nat) (n : nat) : op unit :=
  match n with
  | O => ret tt
  | S n =>
      r ← gets (fun s => fill_part s tcur mcur);
      let '(es, tcur', mcur') := r in
      call (Mesh dst (enc_part REPLICA_DATA me round p total es)) ;;
      modify (with_stats count_sent) ;;
      send_parts me dst round total (p + 1) tcur' mcur' n
  end.

Definition part_cnt (s : replica) : Z :=
  let n := u8 ((snapshot_count s + REPLICA_ENTRY_MAX - 1) / REPLICA_ENTRY_MAX) in if n =? 0 then 1 else n.

Definition send_snapshot_to (me dst : Z) : op unit :=
  if DNODE_MAX <=? dst then ret tt
  else
    total ← gets part_cnt;
    modify next_round ;;
    round ← gets round_seq_gen;
    send_parts me dst round total 0 0 0 (Z.to_nat total).

(** One turn of the task's loop. *)
Definition replica_task (me : Z) (alive : Z -> bool) : op unit :=
  if me =? 0xFF then ret tt
  else iter (seqZ 0 DNODE_MAX) (fun n => when (negb (n =? me) && alive n) (send_snapshot_to me n)).

Definition replica_push_to (me : Z) (alive : Z -> bool) (dst : Z) : op unit :=
  if DNODE_MAX <=? dst then ret tt else if negb (alive dst) then ret tt else send_snapshot_to me dst.

Definition replica_boot_cry (me : Z) : op unit :=
  if me =? 0xFF then ret tt
  else iter (seqZ 0 DNODE_MAX) (fun n => when (negb (n =? me)) (call (Mesh n (enc_part REPLICA_ANNOUNCE me 0 0 1 [])))).

Definition replica_scatter_all (me : Z) : op unit :=
  if me =? 0xFF then ret tt
  else iter (seqZ 0 DNODE_MAX) (fun n => when (negb (n =? me)) (send_snapshot_to me n)).

Definition replica_tombstone (me : Z) (name : list Z) : op unit :=
  modify (fun s =>
    let i := first_ix (fun t => negb (active t)) (tomb s) 0 in
    if i <? 0 then s else with_tomb (setz (tomb s) i (Tomb (kd_strcpy name) true)) s) ;;
  if me =? 0xFF then ret tt
  else
    modify next_round ;;
    round ← gets round_seq_gen;
    iter (seqZ 0 DNODE_MAX) (fun n => when (negb (n =? me)) (call (Mesh n (enc_part REPLICA_DATA me round 0 1 [tomb_entry name])))) ;;
    modify (with_stats count_sent).

(** ** Merging *)

(** The slot of a topic with the entry's value and number. *)
Definition take_value (e : REPLICA_ENTRY) (t : KDDS_TOPIC) : KDDS_TOPIC :=
  Topic (t_name t) (blit (t_data t) 0 (take (Z.to_nat (e_len e)) (e_data e))) (e_len e) (e_seq e) (qos t) (scope t) (t_open t).
Definition make_topic (e : REPLICA_ENTRY) (t : KDDS_TOPIC) : KDDS_TOPIC :=
  Topic (kd_strcpy (e_name e)) (blit (t_data t) 0 (take (Z.to_nat (e_len e)) (e_data e))) (e_len e) (e_seq e) (e_qos e)
    (if e_scope e =? KDDS_SCOPE_REGION then KDDS_SCOPE_REGION else KDDS_SCOPE_GLOBAL) true.
Definition drop_topic (t : KDDS_TOPIC) : KDDS_TOPIC := Topic (t_name t) (t_data t) (data_len t) (data_seq t) (qos t) (scope t) false.

Definition put_topic (i : Z) (f : KDDS_TOPIC -> KDDS_TOPIC) : op unit := modify (with_tables (fun k => set_topic i (f (topic_at i k)) k)).

(** [merge_entry]. *)
Definition merge_topic (e : REPLICA_ENTRY) : op unit :=
  i ← gets (fun s => topic_find (e_name e) (tables s));
  if e_len e =? 0 then
    if negb (e_seq e =? REPLICA_TOMB_SEQ) then ret tt
    else if i <? 0 then ret tt
    else put_topic i drop_topic ;; modify (with_stats count_merged)
  else if KDDS_DATA_MAX <? e_len e then ret tt
  else if 0 <=? i then
    cur ← gets (fun s => data_seq (topic_at i (tables s)));
    let diff := u16 (e_seq e - cur) in
    if (diff =? 0) || (0x8000 <=? diff) then modify (with_stats count_skipped)
    else put_topic i (take_value e) ;; modify (with_stats count_merged)
  else
    j ← gets (fun s => first_ix (fun t => negb (t_open t)) (topics (tables s)) 0);
    if j <? 0 then ret tt else put_topic j (make_topic e) ;; modify (with_stats count_recovered).

(** ** Receiving *)

Definition count_part (src seq total cnt : Z) (c : REPLICA_STATS) : REPLICA_STATS :=
  let new := negb (rnd_src c =? src) || negb (rnd_seq c =? seq) in
  Stats (sent_pkts c) (recv_pkts c) (merged c) (skipped c) (recovered c)
    (u32 ((if new then 0 else rnd_entries c) + cnt)) (u8 ((if new then 0 else rnd_parts c) + 1)) total
    (if new then src else rnd_src c) (if new then seq else rnd_seq c).

Definition entry_at (p : list Z) (i : nat) : REPLICA_ENTRY := dec_entry (bytes_at (12 + 232 * i) 232 p).
Definition clamp_count (cnt : Z) : Z := if REPLICA_ENTRY_MAX <? cnt then REPLICA_ENTRY_MAX else cnt.

Definition replica_rx (me : Z) (alive : Z -> bool) (p : list Z) : op unit :=
  if lenz p <? REPLICA_HDR_LEN then ret tt
  else if negb (num_at 0 4 p =? REPLICA_MAGIC) then ret tt
  else if negb (getz p 4 0 =? REPLICA_VERSION) then ret tt
  else
    modify (with_stats count_recv) ;;
    (if getz p 5 0 =? REPLICA_ANNOUNCE then
       when (getz p 6 0 <? DNODE_MAX) (replica_push_to me alive (getz p 6 0))
     else if negb (getz p 5 0 =? REPLICA_DATA) then ret tt
     else
       let cnt := clamp_count (getz p 7 0) in
       if lenz p <? REPLICA_HDR_LEN + cnt * REPLICA_ENTRY_LEN then ret tt
       else
         modify (with_stats (count_part (getz p 6 0) (num_at 8 2 p) (getz p 11 0) cnt)) ;;
         iter (seq 0 (Z.to_nat cnt)) (fun i => merge_topic (entry_at p i))).
