(* ===== verification/ReplicaFacts.v ===== *)
(** * A snapshot brings the memory across

    The parts of a snapshot carry every open topic and every tombstone once, each
    within one packet of the mesh. A node that gets them, in any order and any
    number of times, holds for every name the newer of the two values, so a node
    that lost everything has it all again, and two nodes that exchange their
    snapshots agree. The examples at the end show where they do not: equal
    numbers, an empty topic taken for a tombstone and tombstones that never
    expire. What packets of any origin do to the handles is in TopicsRun.v. *)

From stdpp Require Import list.
#[local] Open Scope Z_scope.
From S2P Require Import Prelude.
From S2P Require Import Node.
From S2P Require Import Nodemap.
From S2P Require Import Step.
From S2P Require Import Wire.
From S2P Require Import Pmesh.
From S2P Require Import Topics.
From S2P Require Import TopicsFacts.
From S2P Require Import Replica.

(** ** The parts *)

Definition E_MAX : nat := Z.to_nat REPLICA_ENTRY_MAX.
Lemma entry_max : E_MAX = 5%nat.
Proof. reflexivity. Qed.

Lemma take_live_spec {A} (live : A -> bool) (entry : A -> REPLICA_ENTRY) l room :
  let '(es, k) := take_live live entry l room in
  es = map entry (take room (List.filter live l)) /\ List.filter live (drop k l) = drop room (List.filter live l) /\
  (k <= length l)%nat /\ ((length (List.filter live l) < room)%nat -> k = length l).
Proof.
  revert room. induction l as [|x l IH]; intros room; destruct room as [|r]; cbn [take_live]; [split_and!; try done; lia..| |].
  { split_and!; [done|done|lia|]. intros Hl. lia. }
  cbn [List.filter]. destruct (live x) eqn:Ex.
  - specialize (IH r). destruct (take_live live entry l r) as [es k]. destruct IH as (-> & H2 & H3 & H4).
    cbn [take map drop length]. split_and!; [done|done|lia|]. intros Hl. rewrite H4; [done|lia].
  - specialize (IH (S r)). destruct (take_live live entry l (S r)) as [es k]. destruct IH as (-> & H2 & H3 & H4).
    cbn [drop length]. split_and!; [done|done|lia|]. intros Hl. rewrite H4; [done|lia].
Qed.

(** What is left to send from two places on, and the whole. *)
Definition left_from (s : replica) (tcur mcur : nat) : list REPLICA_ENTRY :=
  map topic_entry (List.filter t_open (drop tcur (topics (tables s)))) ++
  map (fun t => tomb_entry (tomb_name t)) (List.filter active (drop mcur (tomb s))).
Definition snapshot (s : replica) : list REPLICA_ENTRY := left_from s 0 0.

Lemma fill_part_spec s tcur mcur : lenz (topics (tables s)) = KDDS_TOPIC_MAX -> Z.of_nat tcur <= KDDS_TOPIC_MAX ->
  exists tcur' mcur', fill_part s tcur mcur = (take E_MAX (left_from s tcur mcur), tcur', mcur') /\
    left_from s tcur' mcur' = drop E_MAX (left_from s tcur mcur) /\ Z.of_nat tcur' <= KDDS_TOPIC_MAX.
Proof.
  intros Hl Ht. unfold fill_part, left_from. fold E_MAX.
  pose proof (take_live_spec t_open topic_entry (drop tcur (topics (tables s))) E_MAX) as Hs.
  destruct (take_live t_open topic_entry (drop tcur (topics (tables s))) E_MAX) as [es k]. destruct Hs as (-> & H2 & H3 & H4).
  rewrite length_drop in H3, H4. unfold lenz in Hl. set (F := List.filter t_open (drop tcur (topics (tables s)))) in *.
  rewrite drop_drop in H2. destruct (KDDS_TOPIC_MAX <=? Z.of_nat (tcur + k)) eqn:Ek; bools.
  - pose proof (take_live_spec active (fun t => tomb_entry (tomb_name t)) (drop mcur (tomb s)) (E_MAX - length (map topic_entry (take E_MAX F)))) as Hs.
    destruct (take_live active _ _ _) as [ts j]. destruct Hs as (-> & G2 & _ & _).
    rewrite length_map, length_take in *. rewrite drop_drop in G2.
    assert (map topic_entry (take E_MAX F) ++ map (fun t => tomb_entry (tomb_name t)) (take (E_MAX - E_MAX `min` length F) (List.filter active (drop mcur (tomb s)))) =
            take E_MAX (map topic_entry F ++ map (fun t => tomb_entry (tomb_name t)) (List.filter active (drop mcur (tomb s))))) as ->.
    { rewrite take_app, length_map, !firstn_map. by replace (E_MAX - E_MAX `min` length F)%nat with (E_MAX - length F)%nat by lia. }
    eexists _, _. split; [reflexivity|]. split.
    + rewrite H2, G2. assert (List.filter t_open (drop (tcur + k) (topics (tables s))) = []) as E by (rewrite drop_ge; [done|lia]).
      rewrite E in H2. assert (length F <= E_MAX)%nat as HF by (apply (f_equal length) in H2; rewrite length_drop in H2; cbn [length] in H2; lia).
      rewrite (drop_ge F) by lia. cbn [map app]. rewrite drop_app, length_map, (drop_ge (map topic_entry F)) by (rewrite length_map; lia). cbn [app].
      rewrite skipn_map. by replace (E_MAX - E_MAX `min` length F)%nat with (E_MAX - length F)%nat by lia.
    + lia.
  - assert (E_MAX <= length F)%nat as HF by (destruct (Nat.lt_ge_cases (length F) E_MAX) as [Hlt|Hge]; [specialize (H4 Hlt); lia|exact Hge]).
    exists (tcur + k)%nat, mcur. split; [|split; [|lia]].
    + rewrite take_app_le by (rewrite length_map; lia). by rewrite firstn_map.
    + rewrite H2, drop_app_le by (rewrite length_map; lia). by rewrite skipn_map.
Qed.

(** The parts of a list. *)
Fixpoint cut (n : nat) (l : list REPLICA_ENTRY) : list (list REPLICA_ENTRY) :=
  match n with O => [] | S n => take E_MAX l :: cut n (drop E_MAX l) end.
Lemma cut_concat n l : (length l <= E_MAX * n)%nat -> concat (cut n l) = l.
Proof.
  revert l. induction n as [|n IH]; intros l Hl; cbn [cut concat].
  - destruct l; [done|cbn [length] in Hl; lia].
  - rewrite IH by (rewrite length_drop; lia). apply take_drop.
Qed.
Lemma cut_small n l : Forall (fun es => length es <= E_MAX)%nat (cut n l).
Proof. revert l. induction n as [|n IH]; intros l; [done|]. cbn [cut]. constructor; [rewrite length_take; lia|apply IH]. Qed.
Lemma cut_in n l es : es ∈ cut n l -> forall e, e ∈ es -> e ∈ l.
Proof.
  revert l. induction n as [|n IH]; intros l; cbn [cut]; [by intros ?%elem_of_nil|]. intros [->|Hes]%elem_of_cons e He.
  - rewrite <- (take_drop E_MAX l), elem_of_app. by left.
  - rewrite <- (take_drop E_MAX l), elem_of_app. right. by apply (IH _ Hes).
Qed.

Fixpoint packets (me round total p : Z) (l : list (list REPLICA_ENTRY)) : list (list Z) :=
  match l with [] => [] | es :: l => enc_part REPLICA_DATA me round p total es :: packets me round total (p + 1) l end.

(** The tables and the tombstones are the same. *)
Definition same_memory (s s' : replica) : Prop := tables s' = tables s /\ tomb s' = tomb s.

Lemma left_same s s' tcur mcur : same_memory s s' -> left_from s' tcur mcur = left_from s tcur mcur.
Proof. intros [E1 E2]. unfold left_from. by rewrite E1, E2. Qed.

Lemma send_parts_spec me dst round total p tcur mcur n s : lenz (topics (tables s)) = KDDS_TOPIC_MAX -> Z.of_nat tcur <= KDDS_TOPIC_MAX ->
  calls (send_parts me dst round total p tcur mcur n s) = map (Mesh dst) (packets me round total p (cut n (left_from s tcur mcur))) /\
  same_memory s (exec (send_parts me dst round total p tcur mcur n) s).
Proof.
  revert p tcur mcur s. induction n as [|n IH]; intros p tcur mcur s Hl Ht; [by split|].
  destruct (fill_part_spec s tcur mcur Hl Ht) as (tc & mc & E & El & Htc). cbn [send_parts cut packets map].
  rewrite calls_bind, exec_bind. change (val (gets ?f s)) with (f s). change (exec (gets ?f) s) with s. change (calls (gets ?f s)) with (@nil mesh).
  cbv beta. rewrite E. cbv iota. rewrite !calls_bind, !exec_bind. set (s1 := exec (modify _) _).
  assert (same_memory s s1) as Hs1 by done. destruct (IH (p + 1) tc mc s1) as [I1 I2]; [by rewrite (proj1 Hs1)|done|].
  rewrite I1, (left_same s s1) by done. rewrite El. split; [done|]. destruct I2 as [E1 E2]. split; [by rewrite E1|by rewrite E2].
Qed.

Definition parts_of (s : replica) : list (list REPLICA_ENTRY) := cut (Z.to_nat (part_cnt s)) (snapshot s).

Lemma snapshot_length s : lenz (snapshot s) = snapshot_count s.
Proof. unfold snapshot, left_from, snapshot_count, lenz. rewrite length_app, !length_map, !drop_0. lia. Qed.

Lemma part_cnt_spec s : lenz (topics (tables s)) = KDDS_TOPIC_MAX -> lenz (tomb s) = REPLICA_TOMB_MAX ->
  1 <= part_cnt s <= 83 /\ lenz (snapshot s) <= 5 * part_cnt s.
Proof.
  intros Ht Hm. rewrite snapshot_length. assert (0 <= snapshot_count s <= 412) as Hc.
  { unfold snapshot_count, lenz in *. pose proof (List.filter_length_le t_open (topics (tables s))). pose proof (List.filter_length_le active (tomb s)).
    change KDDS_TOPIC_MAX with 404 in Ht. unfold REPLICA_TOMB_MAX in Hm. lia. }
  unfold part_cnt. change REPLICA_ENTRY_MAX with 5. cbv zeta. pose proof (Z.div_mod (snapshot_count s + 5 - 1) 5 ltac:(lia)) as Hd.
  pose proof (Z.mod_pos_bound (snapshot_count s + 5 - 1) 5 ltac:(lia)) as Hr. set (q := (snapshot_count s + 5 - 1) / 5) in *.
  rewrite u8_small by (unfold is_u8; lia). destruct (q =? 0) eqn:E; bools; lia.
Qed.

(** What a snapshot sends, and that it changes nothing but the counters. *)
Lemma snapshot_sent me dst s : lenz (topics (tables s)) = KDDS_TOPIC_MAX -> lenz (tomb s) = REPLICA_TOMB_MAX -> dst < DNODE_MAX ->
  calls (send_snapshot_to me dst s) = map (Mesh dst) (packets me (u16 (round_seq_gen s + 1)) (part_cnt s) 0 (parts_of s)) /\
  same_memory s (exec (send_snapshot_to me dst) s) /\ concat (parts_of s) = snapshot s.
Proof.
  intros Ht Hm Hd. unfold send_snapshot_to. rewrite (proj2 (Z.leb_gt _ _)) by done.
  rewrite !calls_bind, !exec_bind. change (val (gets part_cnt s)) with (part_cnt s). change (exec (gets ?f) s) with s. change (exec (modify next_round) s) with (next_round s).
  change (val (gets round_seq_gen (next_round s))) with (u16 (round_seq_gen s + 1)). change (exec (gets ?f) (next_round s)) with (next_round s).
  assert (same_memory s (next_round s)) as Hn by done.
  destruct (send_parts_spec me dst (u16 (round_seq_gen s + 1)) (part_cnt s) 0 0 0 (Z.to_nat (part_cnt s)) (next_round s)) as [C1 [C2 C3]]; [done|done|].
  destruct (part_cnt_spec s Ht Hm) as [P1 P2]. rewrite C1. cbn [app]. split; [by rewrite (left_same s (next_round s))|]. split; [by split|].
  apply cut_concat. rewrite entry_max. unfold lenz in P2. lia.
Qed.

(** ** The bytes of a part *)

Definition is_u16 (x : Z) : Prop := 0 <= x < 2 ^ 16.

Record entry_ok (e : REPLICA_ENTRY) : Prop := {
  eo_name : Forall name_char (e_name e) /\ lenz (e_name e) < KDDS_NAME_MAX;
  eo_nums : is_u16 (e_len e) /\ is_u16 (e_seq e) /\ is_u8 (e_qos e) /\ is_u8 (e_scope e);
  eo_data : length (e_data e) = 192%nat }.

Lemma zero_pad_length n l : (length l <= n)%nat -> length (zero_pad n l) = n.
Proof. intros Hl. unfold zero_pad. rewrite length_app, length_replicate. lia. Qed.

Lemma name_pad n : Forall name_char n -> lenz n < KDDS_NAME_MAX -> length (zero_pad 32 n) = 32%nat /\ name_str (zero_pad 32 n) = n.
Proof.
  intros Hc Hl. unfold lenz, KDDS_NAME_MAX in Hl. split; [apply zero_pad_length; lia|]. unfold zero_pad.
  destruct (32 - length n)%nat as [|k] eqn:E; [lia|]. cbn [replicate]. by apply name_str_pad.
Qed.

Lemma entry_length e : entry_ok e -> length (enc_entry e) = 232%nat.
Proof. intros [[H1 H2] _ H3]. unfold enc_entry. rewrite !length_app, !le_length, H3. rewrite (proj1 (name_pad _ H1 H2)). reflexivity. Qed.

Lemma entry_read e : entry_ok e -> dec_entry (enc_entry e) = e.
Proof.
  intros [[H1 H2] (N1 & N2 & N3 & N4) H3]. destruct (name_pad _ H1 H2) as [L1 Hn]. remember (zero_pad 32 (e_name e)) as N eqn:EN. unfold is_u16 in N1, N2.
  assert (enc_entry e = N ++ le 2 (e_len e) ++ le 2 (e_seq e) ++ [u8 (e_qos e)] ++ [u8 (e_scope e)] ++ [0; 0] ++ e_data e) as E by (unfold enc_entry; by rewrite EN).
  unfold dec_entry. change 36 with (Z.of_nat 36). change 37 with (Z.of_nat 37). rewrite !getz_at.
  assert (bytes_at 0 32 (enc_entry e) = N) as -> by (rewrite E; fields).
  assert (num_at 32 2 (enc_entry e) = e_len e) as -> by (rewrite E; fields).
  assert (num_at 34 2 (enc_entry e) = e_seq e) as -> by (rewrite E; fields).
  assert (bytes_at 40 192 (enc_entry e) = e_data e) as -> by (rewrite E; fields).
  assert (bytes_at 36 1 (enc_entry e) = [u8 (e_qos e)]) as -> by (rewrite E; fields).
  assert (bytes_at 37 1 (enc_entry e) = [u8 (e_scope e)]) as -> by (rewrite E; fields).
  cbn [hd]. rewrite !u8_small by done. rewrite Hn. by destruct e.
Qed.

Lemma entries_at es (i : nat) e : Forall entry_ok es -> es !! i = Some e -> bytes_at (232 * i) 232 (concat (map enc_entry es)) = enc_entry e.
Proof.
  intros Hok. revert i. induction Hok as [|x es Hx Hok IH]; intros i Hi; [by rewrite lookup_nil in Hi|]. cbn [map concat].
  destruct i as [|i]; cbn [lookup list_lookup] in Hi.
  - injection Hi as ->. apply at_hit. by apply entry_length.
  - rewrite at_skip by (rewrite entry_length by done; lia). rewrite entry_length by done. replace (232 * S i - 232)%nat with (232 * i)%nat by lia. by apply IH.
Qed.

Definition part_head (src round idx total : Z) (es : list REPLICA_ENTRY) : list Z :=
  le 4 REPLICA_MAGIC ++ [REPLICA_VERSION; REPLICA_DATA; pk_node_v1 src; u8 (lenz es)] ++ le 2 round ++ [u8 idx; u8 total].
Lemma part_split src round idx total es :
  enc_part REPLICA_DATA src round idx total es = part_head src round idx total es ++ concat (map enc_entry es) /\ length (part_head src round idx total es) = 12%nat.
Proof. unfold enc_part, part_head. split; [by rewrite <- !app_assoc|]. rewrite !length_app, !le_length. reflexivity. Qed.

Lemma concat_length es : Forall entry_ok es -> length (concat (map enc_entry es)) = (232 * length es)%nat.
Proof. induction 1 as [|e es He Hes IH]; [done|]. cbn [map concat length]. rewrite length_app, IH, entry_length by done. lia. Qed.

Lemma part_length src round idx total es : Forall entry_ok es -> (length es <= E_MAX)%nat ->
  lenz (enc_part REPLICA_DATA src round idx total es) = 12 + 232 * lenz es /\ lenz (enc_part REPLICA_DATA src round idx total es) <= PMESH_DATA_MAX.
Proof.
  intros Hok Hl. rewrite entry_max in Hl. destruct (part_split src round idx total es) as [-> Hh]. unfold lenz, PMESH_DATA_MAX. rewrite length_app, Hh, concat_length by done. lia.
Qed.

Lemma part_entry src round idx total es (i : nat) e : Forall entry_ok es -> es !! i = Some e -> entry_at (enc_part REPLICA_DATA src round idx total es) i = e.
Proof.
  intros Hok Hi. unfold entry_at. destruct (part_split src round idx total es) as [-> Hh]. rewrite at_skip by lia. rewrite Hh.
  replace (12 + 232 * i - 12)%nat with (232 * i)%nat by lia. rewrite (entries_at es i e) by done. apply entry_read. by eapply (proj1 (Forall_lookup _ _) Hok).
Qed.

(** ** Merging, on the tables *)

Definition merge_tables (e : REPLICA_ENTRY) (k : kdds) : kdds :=
  let i := topic_find (e_name e) k in
  if e_len e =? 0 then
    if negb (e_seq e =? REPLICA_TOMB_SEQ) || (i <? 0) then k else set_topic i (drop_topic (topic_at i k)) k
  else if KDDS_DATA_MAX <? e_len e then k
  else if 0 <=? i then
    let diff := u16 (e_seq e - data_seq (topic_at i k)) in
    if (diff =? 0) || (0x8000 <=? diff) then k else set_topic i (take_value e (topic_at i k)) k
  else
    let j := first_ix (fun t => negb (t_open t)) (topics k) 0 in
    if j <? 0 then k else set_topic j (make_topic e (topic_at j k)) k.

Lemma merge_exec e s : tables (exec (merge_topic e) s) = merge_tables e (tables s) /\ tomb (exec (merge_topic e) s) = tomb s.
Proof.
  unfold merge_topic, merge_tables. rewrite exec_bind. change (val (gets ?f s)) with (f s). change (exec (gets ?f) s) with s. cbv beta zeta.
  destruct (e_len e =? 0).
  { destruct (negb (e_seq e =? REPLICA_TOMB_SEQ)); [done|]. cbn [orb]. by destruct (topic_find (e_name e) (tables s) <? 0). }
  destruct (KDDS_DATA_MAX <? e_len e); [done|]. destruct (0 <=? topic_find (e_name e) (tables s)).
  - rewrite exec_bind. change (val (gets ?f s)) with (f s). change (exec (gets ?f) s) with s. cbv beta. by destruct (_ || _).
  - rewrite exec_bind. change (val (gets ?f s)) with (f s). change (exec (gets ?f) s) with s. cbv beta. by destruct (_ <? 0).
Qed.

Definition merge_all (es : list REPLICA_ENTRY) (k : kdds) : kdds := fold_left (fun k e => merge_tables e k) es k.

Lemma merge_iter p n0 n s : tables (exec (iter (seq n0 n) (fun i => merge_topic (entry_at p i))) s) = merge_all (map (entry_at p) (seq n0 n)) (tables s).
Proof.
  revert n0 s. induction n as [|n IH]; intros n0 s; [done|]. cbn [seq iter map]. rewrite exec_bind, IH. by rewrite (proj1 (merge_exec (entry_at p n0) s)).
Qed.

(** A part that is received is merged entry by entry. *)
Lemma rx_part me alive src round idx total es s : Forall entry_ok es -> (length es <= E_MAX)%nat -> 0 <= src ->
  tables (exec (replica_rx me alive (enc_part REPLICA_DATA src round idx total es)) s) = merge_all es (tables s).
Proof.
  intros Hok Hl Hs. set (p := enc_part REPLICA_DATA src round idx total es). destruct (part_length src round idx total es Hok Hl) as [Ep _]. fold p in Ep.
  rewrite entry_max in Hl. assert (0 <= lenz es <= 5) as Hes by (unfold lenz; lia).
  unfold replica_rx. rewrite Ep, (proj2 (Z.ltb_ge _ _)) by (unfold REPLICA_HDR_LEN; lia).
  change (num_at 0 4 p) with REPLICA_MAGIC. change (getz p 4 0) with REPLICA_VERSION. change (getz p 5 0) with REPLICA_DATA. change (getz p 7 0) with (u8 (lenz es)).
  rewrite u8_small by (unfold is_u8; lia). rewrite !Z.eqb_refl. cbn [negb]. rewrite exec_bind. set (s1 := exec (modify _) s). assert (tables s1 = tables s) as <- by done.
  change (REPLICA_DATA =? REPLICA_ANNOUNCE) with false. cbv iota zeta. unfold clamp_count. change REPLICA_ENTRY_MAX with 5. rewrite (proj2 (Z.ltb_ge 5 _)) by lia.
  rewrite (proj2 (Z.ltb_ge _ _)) by (change REPLICA_ENTRY_LEN with 232; unfold REPLICA_HDR_LEN; lia).
  rewrite exec_bind. set (s2 := exec (modify _) s1). assert (tables s2 = tables s1) as <- by done. rewrite merge_iter. f_equal. unfold lenz. rewrite Nat2Z.id.
  apply list_eq. intros i. rewrite list_lookup_fmap. destruct (es !! i) as [e|] eqn:Ei.
  - rewrite lookup_seq_lt by by eapply lookup_lt_Some. cbn [fmap option_fmap option_map Nat.add]. f_equal. by apply part_entry.
  - rewrite lookup_seq_ge by by apply lookup_ge_None. reflexivity.
Qed.

(** ** What a node holds under a name *)

Record value : Type := Value { v_data : list Z; v_seq : Z; v_qos : Z; v_scope : Z }.
Definition value_of (t : KDDS_TOPIC) : value := Value (contents t) (data_seq t) (qos t) (scope t).
Definition held (k : kdds) (n : list Z) : option value :=
  let i := topic_find n k in if i <? 0 then None else Some (value_of (topic_at i k)).

(** The slots of a table, without the handles. *)
Record slots_ok (k : kdds) : Prop := {
  so_topics : lenz (topics k) = KDDS_TOPIC_MAX; so_slots : Forall topic_ok (topics k);
  so_names : forall i j t u, topics k !! i = Some t -> topics k !! j = Some u -> t_open t = true -> t_open u = true -> t_name t = t_name u -> i = j }.
Lemma tidy_slots gone k : tidy gone k -> slots_ok k.
Proof. intros [T1 T2 T3 T4 T5]. by split. Qed.

Lemma held_some k n v : slots_ok k -> held k n = Some v <-> exists i t, topics k !! i = Some t /\ t_open t = true /\ t_name t = n /\ value_of t = v.
Proof.
  intros Hk. unfold held. cbv zeta. destruct (find_topic n k) as [[-> Hno]|(i & t & -> & Hi & Ho & Hn)].
  - change (-1 <? 0) with true. cbv iota. split; [done|]. intros (i & t & Hi & Ho & Hn & _). by destruct (Hno i t Hi Ho).
  - rewrite (proj2 (Z.ltb_ge _ _)) by lia. rewrite (topic_at_nat i t k Hi). split.
    + intros [= <-]. by exists i, t.
    + intros (j & u & Hj & Hu & Hnu & <-). assert (j = i) as -> by (apply (so_names _ Hk j i u t); congruence). do 2 f_equal. congruence.
Qed.

Lemma held_none k n : held k n = None <-> forall i t, topics k !! i = Some t -> t_open t = true -> t_name t <> n.
Proof.
  unfold held. cbv zeta. destruct (find_topic n k) as [[-> Hno]|(i & t & -> & Hi & Ho & Hn)]; [done|].
  rewrite (proj2 (Z.ltb_ge _ _)) by lia. split; [done|]. intros Hno. by destruct (Hno i t Hi Ho).
Qed.

(** A slot of the table replaced. *)
Lemma put_held k (i : nat) t t' : slots_ok k -> topics k !! i = Some t -> topic_ok t' ->
  (t_open t' = true -> forall j u, j <> i -> topics k !! j = Some u -> t_open u = true -> t_name u <> t_name t') ->
  let k' := set_topic (Z.of_nat i) t' k in
  slots_ok k' /\
  (forall n, ~ (t_open t = true /\ t_name t = n) -> ~ (t_open t' = true /\ t_name t' = n) -> held k' n = held k n) /\
  (t_open t' = true -> held k' (t_name t') = Some (value_of t')) /\ (t_open t' = false -> t_open t = true -> held k' (t_name t) = None).
Proof.
  intros [K1 K2 K3] Hi Hok Hn k'. assert (topics k' !! i = Some t') as Hi' by by apply (set_topic_here i t).
  assert (forall j, j <> i -> topics k' !! j = topics k !! j) as Hne by (intros j Hj; by apply set_topic_same).
  assert (slots_ok k') as Hk'.
  { unfold k', set_topic in *. rewrite setz_nat in *. cbn [with_topics topics] in *. split; cbn [with_topics topics]; [unfold lenz; by rewrite length_insert|by apply Forall_insert|].
    intros j l u w Hj Hl Hu Hw En. destruct (decide (j = i)) as [->|Hji], (decide (l = i)) as [->|Hli]; [done| | |].
    - rewrite Hi' in Hj. injection Hj as <-. rewrite Hne in Hl by done. by destruct (Hn Hu l w).
    - rewrite Hi' in Hl. injection Hl as <-. rewrite Hne in Hj by done. by destruct (Hn Hw j u).
    - rewrite Hne in Hj, Hl by done. by apply (K3 j l u w). }
  split; [done|]. assert (slots_ok k) as Hk by by split. split; [|split].
  - intros n Hold Hnew. apply option_eq. intros v. rewrite (held_some k' n v Hk'), (held_some k n v Hk). split; intros (j & u & Hj & Hu & Hun & Hv); exists j, u.
    + destruct (decide (j = i)) as [->|Hji]; [destruct Hnew; by replace t' with u by congruence|]. by rewrite <- (Hne j Hji).
    + destruct (decide (j = i)) as [->|Hji]; [destruct Hold; by replace t with u by congruence|]. by rewrite (Hne j Hji).
  - intros Ho. apply (held_some k' _ _ Hk'). by exists i, t'.
  - intros Ho Hot. apply held_none. intros j u Hj Hu En. destruct (decide (j = i)) as [->|Hji]; [congruence|].
    rewrite (Hne j Hji) in Hj. apply Hji. by apply (K3 j i u t).
Qed.

(** ** One entry *)

Definition entry_value (e : REPLICA_ENTRY) : value :=
  Value (take (Z.to_nat (e_len e)) (e_data e)) (e_seq e) (e_qos e) (if e_scope e =? KDDS_SCOPE_REGION then KDDS_SCOPE_REGION else KDDS_SCOPE_GLOBAL).
(** Number [a] is before number [b]. *)
Definition before (a b : Z) : bool := let d := u16 (b - a) in negb (d =? 0) && (d <? 0x8000).
(** What an entry makes of what was held. *)
Definition join (e : REPLICA_ENTRY) (cur : option value) : option value :=
  if e_len e =? 0 then if e_seq e =? REPLICA_TOMB_SEQ then None else cur
  else match cur with
       | None => Some (entry_value e)
       | Some v => Some (if before (v_seq v) (e_seq e) then Value (v_data (entry_value e)) (e_seq e) (v_qos v) (v_scope v) else v)
       end.

Lemma entry_fits e : entry_ok e -> e_len e <= KDDS_DATA_MAX -> lenz (take (Z.to_nat (e_len e)) (e_data e)) = e_len e.
Proof. intros [_ ([Hn _] & _) Hd] Hl. unfold lenz, KDDS_DATA_MAX in *. rewrite length_take, Hd. lia. Qed.

Lemma blit_contents t d l : length (t_data t) = 192%nat -> lenz d = l -> l <= KDDS_DATA_MAX ->
  take (Z.to_nat l) (blit (t_data t) 0 d) = d /\ length (blit (t_data t) 0 d) = 192%nat.
Proof.
  intros Hl <- Hd. unfold lenz, KDDS_DATA_MAX in Hd. split.
  - unfold blit, lenz. rewrite Nat2Z.id. change (take (Z.to_nat 0) (t_data t)) with (@nil Z). cbn [app]. by apply take_app_length'.
  - rewrite blit_length; [done|done|]. unfold lenz. rewrite Hl. lia.
Qed.

Lemma merge_held e k : slots_ok k -> entry_ok e -> e_len e <= KDDS_DATA_MAX ->
  (held k (e_name e) = None -> 0 < e_len e -> exists j t, topics k !! j = Some t /\ t_open t = false) ->
  slots_ok (merge_tables e k) /\ forall n, held (merge_tables e k) n = if bool_decide (n = e_name e) then join e (held k n) else held k n.
Proof.
  intros Hk He Hlen Hroom. unfold merge_tables. cbv zeta. pose proof (entry_fits e He Hlen) as Hfit. assert (0 <= e_len e) as Hpos by (rewrite <- Hfit; unfold lenz; lia).
  assert (forall k' : kdds, held k' (e_name e) = join e (held k (e_name e)) -> slots_ok k' -> (forall n, n <> e_name e -> held k' n = held k n) ->
    slots_ok k' /\ forall n, held k' n = if bool_decide (n = e_name e) then join e (held k n) else held k n) as Hgoal.
  { intros k' H1 H2 H3. split; [done|]. intros n. destruct (bool_decide_reflect (n = e_name e)) as [->|]; auto. }
  rewrite (proj2 (Z.ltb_ge KDDS_DATA_MAX _)) by done. unfold join in *. destruct He as [[Hc Hname] _ _].
  destruct (find_topic (e_name e) k) as [[Ef Hno]|(i & t & Ef & Hi & Ho & Hn)]; rewrite Ef.
  - assert (held k (e_name e) = None) as Hh by by apply held_none. change (-1 <? 0) with true. change (0 <=? -1) with false. rewrite orb_true_r. cbv iota.
    destruct (e_len e =? 0) eqn:El; [apply Hgoal; [|done|done]; rewrite Hh; by destruct (e_seq e =? REPLICA_TOMB_SEQ)|].
    destruct (Hroom Hh ltac:(bools; lia)) as (j0 & t0 & Hj0 & Hc0).
    destruct (first_ix_spec (fun t => negb (t_open t)) (topics k) 0 ltac:(done)) as [[_ Hfull]|(j & t & -> & Hj & Hcl)]; [specialize (Hfull j0 t0 Hj0); by rewrite Hc0 in Hfull|].
    bools. rewrite Z.add_0_l, (proj2 (Z.ltb_ge _ _)) by lia. rewrite (topic_at_nat j t k Hj).
    assert (topic_ok t) as [D1 D2 D3] by by eapply (proj1 (Forall_lookup _ _) (so_slots _ Hk)). destruct (blit_contents t _ _ D1 Hfit Hlen) as [B1 B2].
    destruct (put_held k j t (make_topic e t) Hk Hj) as (P1 & P2 & P3 & _).
    { split; cbn [make_topic t_data data_len t_name]; [done|lia|apply strcpy_fits]. }
    { intros _ m u Hm Hu Hou. cbn [make_topic t_name]. rewrite strcpy_short by done. by apply (Hno m). }
    apply Hgoal; [|done|].
    + rewrite Hh. specialize (P3 eq_refl). cbn [make_topic t_name] in P3. rewrite strcpy_short in P3 by done. rewrite P3. unfold value_of, contents, entry_value. cbn [make_topic data_len t_data data_seq qos scope]. by rewrite B1.
    + intros n Hne. apply P2; [intros [E _]; congruence|]. cbn [make_topic t_name]. rewrite strcpy_short by done. intros [_ E]. congruence.
  - assert (held k (e_name e) = Some (value_of t)) as Hh by (apply (held_some k _ _ Hk); by exists i, t).
    assert (topic_ok t) as Hok by by eapply (proj1 (Forall_lookup _ _) (so_slots _ Hk)). pose proof Hok as [D1 D2 D3].
    rewrite (proj2 (Z.ltb_ge _ _)), (proj2 (Z.leb_le _ _)) by lia. rewrite (topic_at_nat i t k Hi), orb_false_r.
    destruct (e_len e =? 0) eqn:El.
    + destruct (e_seq e =? REPLICA_TOMB_SEQ); cbn [negb]; [|by apply Hgoal].
      destruct (put_held k i t (drop_topic t) Hk Hi) as (P1 & P2 & _ & P4); [by destruct Hok; split|done|].
      apply Hgoal; [rewrite <- Hn; by apply P4|done|]. intros n Hne. apply P2; [intros [_ E]; congruence|by intros [E _]].
    + unfold before in *. cbv zeta in *. rewrite Hh in Hgoal. change (v_seq (value_of t)) with (data_seq t) in Hgoal.
      assert ((u16 (e_seq e - data_seq t) =? 0) || (0x8000 <=? u16 (e_seq e - data_seq t)) =
              negb (negb (u16 (e_seq e - data_seq t) =? 0) && (u16 (e_seq e - data_seq t) <? 0x8000))) as ->.
      { rewrite negb_andb, negb_involutive. f_equal. apply Z.leb_antisym. }
      destruct (negb (u16 (e_seq e - data_seq t) =? 0) && (u16 (e_seq e - data_seq t) <? 0x8000)); cbn [negb]; [|by apply Hgoal].
      destruct (blit_contents t _ _ D1 Hfit Hlen) as [B1 B2].
      destruct (put_held k i t (take_value e t) Hk Hi) as (P1 & P2 & P3 & _).
      { split; cbn [take_value t_data data_len t_name]; [done|lia|done]. }
      { intros _ m u Hm Hu Hou En. apply Hm. by apply (so_names _ Hk m i u t). }
      apply Hgoal; [|done|].
      * specialize (P3 Ho). cbn [take_value t_name] in P3. rewrite <- Hn, P3. unfold value_of, contents, entry_value. cbn [take_value data_len t_data data_seq qos scope v_data v_qos v_scope]. by rewrite B1.
      * intros n Hne. apply P2; intros [_ E]; cbn [take_value t_name] in E; congruence.
Qed.

(** ** Entries in any order *)

Lemma before_same a : before a a = false.
Proof. unfold before. by rewrite Z.sub_diag. Qed.

Lemma join_twice e c : join e (join e c) = join e c.
Proof.
  unfold join. destruct (e_len e =? 0); [by destruct (e_seq e =? REPLICA_TOMB_SEQ)|]. f_equal. destruct c as [v|].
  - destruct (before (v_seq v) (e_seq e)) eqn:E; cbn [v_seq]; [by rewrite before_same|by rewrite E].
  - cbn [entry_value v_seq]. by rewrite before_same.
Qed.

(** A table is not full while a name of [U] is missing in it. *)
Lemma room_left k (U : list (list Z)) n : slots_ok k -> lenz U <= KDDS_TOPIC_MAX -> (forall m, held k m <> None -> m ∈ U) -> n ∈ U -> held k n = None ->
  exists j t, topics k !! j = Some t /\ t_open t = false.
Proof.
  intros Hk HU Hin Hn Hnone. destruct (forallb t_open (topics k)) eqn:E.
  2:{ apply not_true_iff_false in E. rewrite forallb_forall in E. assert (exists t, t ∈ topics k /\ t_open t = false) as (t & Ht & Hc).
      { destruct (List.existsb (fun t => negb (t_open t)) (topics k)) eqn:Ex.
        - apply existsb_exists in Ex as (t & Ht & Hc). exists t. split; [by apply list_elem_of_In|]. by bools.
        - destruct E. intros t Ht. destruct (t_open t) eqn:Eo; [done|]. exfalso. apply not_true_iff_false in Ex. apply Ex, existsb_exists. exists t. by rewrite Eo. }
      apply list_elem_of_lookup in Ht as [j Hj]. by exists j, t. }
  rewrite forallb_forall in E. exfalso.
  assert (NoDup (n :: map t_name (topics k))) as Hnd.
  { apply list.NoDup_cons. split.
    - intros Hc. apply list_elem_of_In, in_map_iff in Hc as (t & En & Ht). pose proof (E t Ht) as Ho. apply list_elem_of_In, list_elem_of_lookup in Ht as [j Hj].
      apply (proj1 (held_none k n) Hnone j t Hj Ho En).
    - apply NoDup_alt. intros i j x Hi Hj. rewrite list_lookup_fmap in Hi, Hj. destruct (topics k !! i) as [t|] eqn:Ei, (topics k !! j) as [u|] eqn:Ej; try done.
      injection Hi as Ht. injection Hj as Hu. apply (so_names _ Hk i j t u); try done; [apply E; apply list_elem_of_In; by eapply list_elem_of_lookup_2..|congruence]. }
  assert (n :: map t_name (topics k) ⊆+ U) as Hsub.
  { apply NoDup_submseteq; [done|]. intros x Hx. apply elem_of_cons in Hx as [->|Hx]; [done|]. apply list_elem_of_In, in_map_iff in Hx as (t & En & Ht).
    apply Hin. intros Hc. pose proof (E t Ht) as Ho. apply list_elem_of_In, list_elem_of_lookup in Ht as [j Hj]. exact (proj1 (held_none k x) Hc j t Hj Ho En). }
  apply submseteq_length in Hsub. cbn [length] in Hsub. rewrite length_map in Hsub. pose proof (so_topics _ Hk) as Hl. unfold lenz in Hl, HU. lia.
Qed.

(** What a list of entries says of a name. *)
Definition says (n : list Z) (es : list REPLICA_ENTRY) : option REPLICA_ENTRY := find (fun e => bool_decide (e_name e = n)) es.

Lemma says_some n es e : says n es = Some e -> e ∈ es /\ e_name e = n.
Proof. unfold says. intros Hf. apply find_some in Hf as [Hin Hb]. split; [by apply list_elem_of_In|]. by apply bool_decide_eq_true in Hb. Qed.
Lemma says_none n es : says n es = None -> forall e, e ∈ es -> e_name e <> n.
Proof. unfold says. intros Hf e He En. apply list_elem_of_In in He. pose proof (find_none _ _ Hf e He) as Hb. by apply bool_decide_eq_false in Hb. Qed.

Lemma merge_all_held (es : list REPLICA_ENTRY) (U : list (list Z)) k : slots_ok k -> Forall (fun e => entry_ok e /\ e_len e <= KDDS_DATA_MAX) es ->
  (forall e e', e ∈ es -> e' ∈ es -> e_name e = e_name e' -> e = e') ->
  lenz U <= KDDS_TOPIC_MAX -> (forall n, held k n <> None -> n ∈ U) -> (forall e, e ∈ es -> 0 < e_len e -> e_name e ∈ U) ->
  slots_ok (merge_all es k) /\ forall n, held (merge_all es k) n = match says n es with Some e => join e (held k n) | None => held k n end.
Proof.
  intros Hk Hok Hone HU. revert k Hk. induction es as [|e es IH]; intros k Hk HinK HinE; [done|].
  apply list.Forall_cons in Hok as [[He Hlen] Hok]. cbn [merge_all fold_left].
  destruct (merge_held e k Hk He Hlen) as [M1 M2]; [intros Hn Hp; apply (room_left k U (e_name e)); try done; apply HinE; [by left|done]|].
  destruct (IH Hok ltac:(intros x y Hx Hy; apply Hone; by right) (merge_tables e k) M1) as [I1 I2].
  { intros m Hn. rewrite M2 in Hn. destruct (decide (m = e_name e)) as [Em|Hne]; [rewrite bool_decide_eq_true_2 in Hn by done; subst m|rewrite bool_decide_eq_false_2 in Hn by done; by apply HinK]. unfold join in Hn.
    destruct (held k (e_name e)) as [v|] eqn:Eh; [apply HinK; congruence|]. destruct (e_len e =? 0) eqn:El; [revert Hn; by destruct (e_seq e =? REPLICA_TOMB_SEQ)|].
    apply HinE; [by left|]. destruct (eo_nums _ He) as ([Hp _] & _). bools. lia. }
  { intros x Hx. apply HinE. by right. }
  split; [exact I1|]. intros n. etrans; [apply I2|]. rewrite M2. unfold says. cbn [find]. fold (says n es).
  destruct (decide (n = e_name e)) as [->|Hne].
  - rewrite !bool_decide_eq_true_2 by done. destruct (says (e_name e) es) as [e'|] eqn:Es; [|done].
    apply says_some in Es as [Hin En]. rewrite (Hone e' e) by (try (by right); try (by left); done). apply join_twice.
  - rewrite !bool_decide_eq_false_2 by congruence. done.
Qed.

(** ** What a snapshot says *)

(** A node whose snapshot can be read: names are strings, no open topic has the
    name of a tombstone of its own, and no empty topic has the tombstones' number. *)
Record speaks (s : replica) : Prop := {
  sp_slots : slots_ok (tables s);
  sp_wire : forall i t, topics (tables s) !! i = Some t -> t_open t = true ->
    Forall name_char (t_name t) /\ is_u16 (data_seq t) /\ is_u8 (qos t) /\ is_u8 (scope t) /\ (data_len t = 0 -> data_seq t <> REPLICA_TOMB_SEQ);
  sp_tombs : lenz (tomb s) = REPLICA_TOMB_MAX;
  sp_buried : forall t, t ∈ tomb s -> active t = true ->
    Forall name_char (tomb_name t) /\ lenz (tomb_name t) < KDDS_NAME_MAX /\ held (tables s) (tomb_name t) = None }.

Definition buried (s : replica) (n : list Z) : bool := existsb (fun t => active t && bool_decide (tomb_name t = n)) (tomb s).

(** What a node should hold under a name after it heard [s]: the newer value, or
    nothing if the name is buried. *)
Definition newer_of (v : value) (cur : option value) : option value :=
  match cur with
  | None => Some (Value (v_data v) (v_seq v) (v_qos v) (if v_scope v =? KDDS_SCOPE_REGION then KDDS_SCOPE_REGION else KDDS_SCOPE_GLOBAL))
  | Some w => Some (if before (v_seq w) (v_seq v) then Value (v_data v) (v_seq v) (v_qos w) (v_scope w) else w)
  end.
Definition told (s : replica) (n : list Z) (cur : option value) : option value :=
  if buried s n then None
  else match held (tables s) n with Some v => if bool_decide (v_data v = []) then cur else newer_of v cur | None => cur end.

Lemma snapshot_in s e : e ∈ snapshot s <->
  (exists i t, topics (tables s) !! i = Some t /\ t_open t = true /\ e = topic_entry t) \/ (exists t, t ∈ tomb s /\ active t = true /\ e = tomb_entry (tomb_name t)).
Proof.
  unfold snapshot, left_from. rewrite !drop_0, elem_of_app, !list_elem_of_In, !in_map_iff. setoid_rewrite filter_In. setoid_rewrite <- list_elem_of_In. split.
  - intros [(t & <- & Ht & Ho)|(t & <- & Ht & Ho)]; [left; apply list_elem_of_lookup in Ht as [i Hi]; by exists i, t|right; by exists t].
  - intros [(i & t & Hi & Ho & ->)|(t & Ht & Ho & ->)]; [left; exists t; split_and!; [done|by eapply list_elem_of_lookup_2|done]|right; by exists t].
Qed.

Lemma topic_entry_name t : topic_ok t -> e_name (topic_entry t) = t_name t.
Proof. intros [_ _ Hn]. cbn [topic_entry e_name]. by apply strcpy_short. Qed.

Lemma topic_entry_data t : topic_ok t -> take (Z.to_nat (data_len t)) (e_data (topic_entry t)) = contents t /\ length (e_data (topic_entry t)) = 192%nat.
Proof.
  intros [D1 D2 _]. unfold KDDS_DATA_MAX in D2. cbn [topic_entry e_data]. destruct (0 <? data_len t) eqn:E; bools.
  - assert (length (take (Z.to_nat (data_len t)) (t_data t)) = Z.to_nat (data_len t)) as Hl by (rewrite length_take; lia). split; [|apply zero_pad_length; lia].
    unfold zero_pad, contents. rewrite take_app_le by lia. apply take_ge. lia.
  - assert (data_len t = 0) as E0 by lia. unfold contents. rewrite E0. split; [done|]. apply zero_pad_length. cbn [length]. lia.
Qed.

Lemma topic_entry_ok s i t : speaks s -> topics (tables s) !! i = Some t -> t_open t = true -> entry_ok (topic_entry t) /\ e_len (topic_entry t) <= KDDS_DATA_MAX.
Proof.
  intros Hs Hi Ho. destruct (sp_wire _ Hs i t Hi Ho) as (W1 & W2 & W3 & W4 & _).
  assert (topic_ok t) as Hok by by eapply (proj1 (Forall_lookup _ _) (so_slots _ (sp_slots _ Hs))). pose proof Hok as [D1 D2 D3]. split; [|apply D2].
  split; [by rewrite topic_entry_name| |by apply topic_entry_data]. cbn [topic_entry e_len e_seq e_qos e_scope]. refine (conj _ (conj W2 (conj W3 W4))). unfold is_u16, KDDS_DATA_MAX in *. lia.
Qed.

Lemma tomb_entry_ok n : Forall name_char n -> lenz n < KDDS_NAME_MAX -> entry_ok (tomb_entry n) /\ e_name (tomb_entry n) = n.
Proof.
  intros Hc Hl. assert (kd_strcpy n = n) as E by by apply strcpy_short. split; [|exact E].
  split; cbn [tomb_entry e_name e_len e_seq e_qos e_scope e_data]; [by rewrite E|repeat split; done|reflexivity].
Qed.

Lemma buried_spec s n : buried s n = true <-> exists t, t ∈ tomb s /\ active t = true /\ tomb_name t = n.
Proof.
  unfold buried. rewrite existsb_exists. setoid_rewrite <- list_elem_of_In. setoid_rewrite andb_true_iff. by setoid_rewrite bool_decide_eq_true.
Qed.

(** What one entry of the snapshot says is what the node says. *)
Lemma entry_told s e cur : speaks s -> e ∈ snapshot s -> join e cur = told s (e_name e) cur.
Proof.
  intros Hs He. apply snapshot_in in He as [(i & t & Hi & Ho & ->)|(t & Ht & Ha & ->)].
  - assert (topic_ok t) as Hok by by eapply (proj1 (Forall_lookup _ _) (so_slots _ (sp_slots _ Hs))). rewrite topic_entry_name by done.
    assert (held (tables s) (t_name t) = Some (value_of t)) as Hh by (apply (held_some _ _ _ (sp_slots _ Hs)); by exists i, t).
    unfold told. destruct (buried s (t_name t)) eqn:Eb.
    { apply buried_spec in Eb as (u & Hu & Hau & En). destruct (sp_buried _ Hs u Hu Hau) as (_ & _ & Hnone). congruence. }
    rewrite Hh. destruct (topic_entry_data t Hok) as [Ed _]. destruct (sp_wire _ Hs i t Hi Ho) as (_ & _ & _ & _ & Hne). destruct Hok as [D1 D2 D3].
    unfold join, entry_value. rewrite Ed || (cbn [topic_entry e_len]; rewrite Ed). cbn [topic_entry e_len e_seq e_qos e_scope value_of v_data v_seq v_qos v_scope].
    destruct (data_len t =? 0) eqn:El; bools.
    + rewrite (proj2 (Z.eqb_neq _ _)) by auto. rewrite bool_decide_eq_true_2; [done|]. unfold contents. by rewrite El.
    + rewrite bool_decide_eq_false_2; [by destruct cur|]. intros E. apply (f_equal length) in E. unfold contents in E. rewrite length_take in E. cbn [length] in E. lia.
  - destruct (sp_buried _ Hs t Ht Ha) as (B1 & B2 & _). rewrite (proj2 (tomb_entry_ok _ B1 B2)). unfold told.
    rewrite (proj2 (buried_spec s (tomb_name t))) by by exists t. reflexivity.
Qed.

Lemma silent_told s n cur : speaks s -> (forall e, e ∈ snapshot s -> e_name e <> n) -> told s n cur = cur.
Proof.
  intros Hs Hno. unfold told. destruct (buried s n) eqn:Eb.
  - exfalso. apply buried_spec in Eb as (t & Ht & Ha & En). destruct (sp_buried _ Hs t Ht Ha) as (B1 & B2 & _).
    apply (Hno (tomb_entry (tomb_name t))); [apply snapshot_in; right; by exists t|]. by rewrite (proj2 (tomb_entry_ok _ B1 B2)).
  - destruct (held (tables s) n) as [v|] eqn:Eh; [|done]. exfalso. apply (held_some _ _ _ (sp_slots _ Hs)) in Eh as (i & t & Hi & Ho & Hn & _).
    apply (Hno (topic_entry t)); [apply snapshot_in; left; by exists i, t|]. rewrite topic_entry_name; [done|]. by eapply (proj1 (Forall_lookup _ _) (so_slots _ (sp_slots _ Hs))).
Qed.

Lemma snapshot_entries s : speaks s ->
  Forall (fun e => entry_ok e /\ e_len e <= KDDS_DATA_MAX) (snapshot s) /\ (forall e e', e ∈ snapshot s -> e' ∈ snapshot s -> e_name e = e_name e' -> e = e') /\
  (forall e, e ∈ snapshot s -> 0 < e_len e -> held (tables s) (e_name e) <> None).
Proof.
  intros Hs. assert (forall t, t ∈ tomb s -> active t = true -> entry_ok (tomb_entry (tomb_name t)) /\ e_name (tomb_entry (tomb_name t)) = tomb_name t) as Htomb.
  { intros t Ht Ha. destruct (sp_buried _ Hs t Ht Ha) as (B1 & B2 & _). by apply tomb_entry_ok. }
  assert (forall i t, topics (tables s) !! i = Some t -> t_open t = true -> e_name (topic_entry t) = t_name t /\ held (tables s) (t_name t) = Some (value_of t)) as Htop.
  { intros i t Hi Ho. split; [apply topic_entry_name; by eapply (proj1 (Forall_lookup _ _) (so_slots _ (sp_slots _ Hs)))|]. apply (held_some _ _ _ (sp_slots _ Hs)). by exists i, t. }
  split_and!.
  - apply list.Forall_forall. intros e He. apply snapshot_in in He as [(i & t & Hi & Ho & ->)|(t & Ht & Ha & ->)]; [by eapply topic_entry_ok|]. split; [by apply Htomb|done].
  - intros e e' He He' En. apply snapshot_in in He as [(i & t & Hi & Ho & ->)|(t & Ht & Ha & ->)], He' as [(j & u & Hj & Hu & ->)|(u & Hu & Hb & ->)].
    + destruct (Htop i t Hi Ho) as [E1 _], (Htop j u Hj Hu) as [E2 _]. assert (i = j) as <- by (apply (so_names _ (sp_slots _ Hs) i j t u); congruence). congruence.
    + destruct (Htop i t Hi Ho) as [E1 Hh], (Htomb u Hu Hb) as [_ E2], (sp_buried _ Hs u Hu Hb) as (_ & _ & Hn). congruence.
    + destruct (Htop j u Hj Hu) as [E1 Hh], (Htomb t Ht Ha) as [_ E2], (sp_buried _ Hs t Ht Ha) as (_ & _ & Hn). congruence.
    + destruct (Htomb t Ht Ha) as [_ E1], (Htomb u Hu Hb) as [_ E2]. congruence.
  - intros e He Hl. apply snapshot_in in He as [(i & t & Hi & Ho & ->)|(t & Ht & Ha & ->)]; [|cbn [tomb_entry e_len] in Hl; lia].
    destruct (Htop i t Hi Ho) as [-> ->]. done.
Qed.

(** ** Receiving a snapshot *)

Lemma packets_in me round total p l x : x ∈ packets me round total p l <-> exists (k : nat) es, l !! k = Some es /\ x = enc_part REPLICA_DATA me round (p + Z.of_nat k) total es.
Proof.
  revert p. induction l as [|es l IH]; intros p; cbn [packets].
  - split; [by intros ?%elem_of_nil|]. intros (k & es & Hk & _). by rewrite lookup_nil in Hk.
  - rewrite elem_of_cons, IH. split.
    + intros [->|(k & fs & Hk & ->)]; [exists 0%nat, es; split; [done|by rewrite Z.add_0_r]|exists (S k), fs; split; [done|f_equal; lia]].
    + intros ([|k] & fs & Hk & ->); [injection Hk as ->; left; by rewrite Z.add_0_r|]. right. exists k, fs. split; [done|f_equal; lia].
Qed.

(** The entries a receiver finds in a packet. *)
Definition part_entries (p : list Z) : list REPLICA_ENTRY := map (entry_at p) (seq 0 (Z.to_nat (clamp_count (getz p 7 0)))).

Lemma part_entries_eq src round idx total es : Forall entry_ok es -> (length es <= E_MAX)%nat -> part_entries (enc_part REPLICA_DATA src round idx total es) = es.
Proof.
  intros Hok Hl. rewrite entry_max in Hl. unfold part_entries. change (getz (enc_part REPLICA_DATA src round idx total es) 7 0) with (u8 (lenz es)).
  rewrite u8_small by (unfold is_u8, lenz; lia). unfold clamp_count. change REPLICA_ENTRY_MAX with 5. rewrite (proj2 (Z.ltb_ge 5 _)) by (unfold lenz; lia).
  unfold lenz. rewrite Nat2Z.id. apply list_eq. intros i. rewrite list_lookup_fmap. destruct (es !! i) as [e|] eqn:Ei.
  - rewrite lookup_seq_lt by by eapply lookup_lt_Some. cbn [fmap option_fmap option_map Nat.add]. f_equal. by apply part_entry.
  - rewrite lookup_seq_ge by by apply lookup_ge_None. reflexivity.
Qed.

(** A node that gets packets, one after the other. *)
Definition received (me : Z) (alive : Z -> bool) (l : list (list Z)) (s : replica) : replica := fold_left (fun s p => exec (replica_rx me alive p) s) l s.

(** The packets [snapshot_sent] gives. *)
Definition sent_by (me dst : Z) (s : replica) (p : list Z) : Prop := Mesh dst p ∈ calls (send_snapshot_to me dst s).

Lemma sent_part me dst s p : speaks s -> dst < DNODE_MAX -> sent_by me dst s p <->
  exists es idx, es ∈ parts_of s /\ parts_of s !! Z.to_nat idx = Some es /\ 0 <= idx /\ p = enc_part REPLICA_DATA me (u16 (round_seq_gen s + 1)) idx (part_cnt s) es.
Proof.
  intros Hs Hd. unfold sent_by. destruct (snapshot_sent me dst s (so_topics _ (sp_slots _ Hs)) (sp_tombs _ Hs) Hd) as (-> & _). rewrite list_elem_of_In, in_map_iff. split.
  - intros (x & [= ->] & Hx). apply list_elem_of_In, packets_in in Hx as (k & es & Hk & ->). exists es, (0 + Z.of_nat k). split_and!; [by eapply list_elem_of_lookup_2| |lia|done]. by rewrite Z.add_0_l, Nat2Z.id.
  - intros (es & idx & _ & Hk & Hi & ->). eexists. split; [reflexivity|]. apply list_elem_of_In, packets_in. exists (Z.to_nat idx), es. split; [done|]. f_equal. lia.
Qed.

Lemma parts_ok s es : speaks s -> es ∈ parts_of s -> Forall entry_ok es /\ (length es <= E_MAX)%nat /\ forall e, e ∈ es -> e ∈ snapshot s.
Proof.
  intros Hs Hes. unfold parts_of in Hes. pose proof (cut_in _ _ _ Hes) as Hin. destruct (snapshot_entries s Hs) as (Hok & _). rewrite list.Forall_forall in Hok.
  split; [apply list.Forall_forall; intros e He; by apply Hok, Hin|]. split; [|done]. pose proof (cut_small (Z.to_nat (part_cnt s)) (snapshot s)) as Hsm. rewrite list.Forall_forall in Hsm. by apply Hsm.
Qed.

Lemma received_tables meA dst meB alive a l s : speaks a -> dst < DNODE_MAX -> 0 <= meA -> Forall (sent_by meA dst a) l ->
  tables (received meB alive l s) = merge_all (concat (map part_entries l)) (tables s).
Proof.
  intros Ha Hd Hm Hl. revert s. induction Hl as [|p l Hp Hl IH]; intros s; [done|]. cbn [received fold_left map concat]. unfold received in IH. rewrite IH.
  unfold merge_all at 2. rewrite fold_left_app. fold (merge_all (part_entries p) (tables s)). f_equal.
  apply (sent_part meA dst a p Ha Hd) in Hp as (es & idx & Hes & _ & _ & ->). destruct (parts_ok a es Ha Hes) as (P1 & P2 & _).
  rewrite rx_part, part_entries_eq by done. reflexivity.
Qed.

Lemma received_entries meA dst a l e : speaks a -> dst < DNODE_MAX -> (forall p, p ∈ l <-> sent_by meA dst a p) -> e ∈ concat (map part_entries l) <-> e ∈ snapshot a.
Proof.
  intros Ha Hd Hl. rewrite list_elem_of_In, in_concat. split.
  - intros (es & Hes & He). apply in_map_iff in Hes as (p & <- & Hp). apply list_elem_of_In, Hl, (sent_part meA dst a p Ha Hd) in Hp as (es & idx & Hes & _ & _ & ->).
    destruct (parts_ok a es Ha Hes) as (P1 & P2 & P3). rewrite part_entries_eq in He by done. apply P3. by apply list_elem_of_In.
  - intros He. destruct (snapshot_sent meA dst a (so_topics _ (sp_slots _ Ha)) (sp_tombs _ Ha) Hd) as (_ & _ & E). rewrite <- E, list_elem_of_In, in_concat in He.
    destruct He as (es & Hes & He). apply list_elem_of_In in Hes. destruct (parts_ok a es Ha Hes) as (P1 & P2 & P3). pose proof Hes as Hk. apply list_elem_of_lookup in Hk as [k Hk].
    exists es. split; [|done]. apply in_map_iff. exists (enc_part REPLICA_DATA meA (u16 (round_seq_gen a + 1)) (Z.of_nat k) (part_cnt a) es).
    split; [by apply part_entries_eq|]. apply list_elem_of_In, Hl, (sent_part meA dst a _ Ha Hd). exists es, (Z.of_nat k). rewrite Nat2Z.id. split_and!; [done|done|lia|done].
Qed.

(** Together the two nodes have no more names than a table has slots. *)
Definition fits_with (a b : replica) : Prop := exists U : list (list Z), lenz U <= KDDS_TOPIC_MAX /\
  forall n, held (tables a) n <> None \/ held (tables b) n <> None -> n ∈ U.

Lemma received_held meA dst meB alive a b l : speaks a -> slots_ok (tables b) -> fits_with a b -> dst < DNODE_MAX -> 0 <= meA ->
  (forall p, p ∈ l <-> sent_by meA dst a p) ->
  slots_ok (tables (received meB alive l b)) /\ forall n, held (tables (received meB alive l b)) n = told a n (held (tables b) n).
Proof.
  intros Ha Hb (U & HU & Hin) Hd Hm Hl. rewrite (received_tables meA dst meB alive a l b) by (try done; apply list.Forall_forall; intros p Hp; by apply Hl).
  pose proof (received_entries meA dst a l) as He. set (es := concat (map part_entries l)) in *. destruct (snapshot_entries a Ha) as (S1 & S2 & S3). rewrite list.Forall_forall in S1.
  destruct (merge_all_held es U (tables b) Hb) as [M1 M2]; [| |done|by auto| |].
  - apply list.Forall_forall. intros e Hee. by apply S1, He.
  - intros e e' H1 H2. apply S2; by apply He.
  - intros e H1 H2. apply Hin. left. apply S3; [by apply He|done].
  - split; [exact M1|]. intros n. rewrite M2. destruct (says n es) as [e|] eqn:Es.
    + apply says_some in Es as [Hes <-]. apply entry_told; [done|by apply He].
    + symmetry. apply silent_told; [done|]. intros e Hee. apply (says_none n es Es). by apply He.
Qed.

(** A node with one topic, for the witnesses. *)
Definition one_topic (t : KDDS_TOPIC) : replica := replica_init (set_topic 0 t kdds_init).
Definition topic_of (name data : list Z) (seq : Z) : KDDS_TOPIC := Topic name (zero_pad 192 data) (lenz data) seq KDDS_QOS_LATEST_ONLY KDDS_SCOPE_GLOBAL true.

Lemma one_topic_at t i u : topics (tables (one_topic t)) !! i = Some u -> i = 0%nat /\ u = t \/ u = no_topic.
Proof.
  cbn [one_topic replica_init tables]. unfold set_topic. rewrite (setz_nat _ 0). cbn [with_topics topics kdds_init]. intros Hi.
  apply list_lookup_insert_Some in Hi as [(<- & <- & _)|[_ Hi]]; [by left|]. right. by apply lookup_replicate_1 in Hi as [-> _].
Qed.
Lemma one_topic_slots t : topic_ok t -> slots_ok (tables (one_topic t)).
Proof.
  intros Ht. split.
  - unfold one_topic, set_topic. cbn [replica_init tables]. rewrite (setz_nat _ 0). cbn [with_topics topics]. unfold lenz. rewrite length_insert. reflexivity.
  - apply Forall_lookup. intros i u Hi. apply one_topic_at in Hi as [[_ ->]| ->]; [done|]. by split.
  - intros i j u w Hi Hj Hu Hw _. apply one_topic_at in Hi as [[-> ->]| ->]; [|done]. by apply one_topic_at in Hj as [[-> ->]| ->].
Qed.
Lemma one_topic_speaks t : topic_ok t -> Forall name_char (t_name t) -> is_u16 (data_seq t) -> is_u8 (qos t) -> is_u8 (scope t) -> 0 < data_len t -> speaks (one_topic t).
Proof.
  intros Ht H1 H2 H3 H4 H5. split; [by apply one_topic_slots| |reflexivity|].
  - intros i u Hi Hu. apply one_topic_at in Hi as [[_ ->]| ->]; [|done]. refine (conj H1 (conj H2 (conj H3 (conj H4 _)))). lia.
  - intros u Hu Ha. cbn [one_topic replica_init tomb] in Hu. apply list_elem_of_lookup in Hu as [i Hi]. by apply lookup_replicate_1 in Hi as [-> _].
Qed.
Lemma one_topic_name t n : held (tables (one_topic t)) n <> None -> n = t_name t.
Proof.
  intros Hh. destruct (decide (n = t_name t)) as [|Hne]; [done|]. destruct Hh. apply held_none. intros i u Hi Hu En.
  apply one_topic_at in Hi as [[_ ->]| ->]; [congruence|done].
Qed.
Lemma topic_of_ok n d q : lenz n < KDDS_NAME_MAX -> lenz d <= KDDS_DATA_MAX -> topic_ok (topic_of n d q).
Proof. intros Hn Hd. unfold lenz, KDDS_DATA_MAX in *. split; cbn [topic_of t_data data_len t_name]; [apply zero_pad_length; lia|unfold lenz, KDDS_DATA_MAX; lia|exact Hn]. Qed.

Definition memory1 : replica := one_topic (topic_of topic_a [7; 7] 1).
Definition memory2 : replica := one_topic (topic_of topic_a [8; 8; 8] 2).
Definition blank : replica := replica_init kdds_init.
Definition packet1 : list Z := enc_part REPLICA_DATA 1 1 0 1 [topic_entry (topic_of topic_a [7; 7] 1)].
Definition packet2 : list Z := enc_part REPLICA_DATA 2 1 0 1 [topic_entry (topic_of topic_a [8; 8; 8] 2)].

Lemma demo_speaks n d q : lenz n < KDDS_NAME_MAX -> 0 < lenz d <= KDDS_DATA_MAX -> Forall name_char n -> is_u16 q -> speaks (one_topic (topic_of n d q)).
Proof.
  intros Hn Hd Hc Hq. apply one_topic_speaks; [apply topic_of_ok; [done|lia]|done|done|done|done|]. exact (proj1 Hd).
Qed.
Lemma memory1_speaks : speaks memory1.
Proof. apply demo_speaks; by repeat constructor. Qed.
Lemma memory2_speaks : speaks memory2.
Proof. apply demo_speaks; by repeat constructor. Qed.
Lemma memory1_sends p : p ∈ [packet1] <-> sent_by 1 2 memory1 p.
Proof.
  unfold sent_by. assert (calls (send_snapshot_to 1 2 memory1) = [Mesh 2 packet1]) as -> by (vm_compute; reflexivity).
  rewrite !elem_of_cons. split; (intros [H|H]; [left; congruence|by apply elem_of_nil in H]).
Qed.
Lemma memory2_sends p : p ∈ [packet2] <-> sent_by 2 1 memory2 p.
Proof.
  unfold sent_by. assert (calls (send_snapshot_to 2 1 memory2) = [Mesh 1 packet2]) as -> by (vm_compute; reflexivity).
  rewrite !elem_of_cons. split; (intros [H|H]; [left; congruence|by apply elem_of_nil in H]).
Qed.
Lemma one_name a b : (forall n, held (tables a) n <> None -> n = topic_a) -> (forall n, held (tables b) n <> None -> n = topic_a) -> fits_with a b.
Proof. intros H1 H2. exists [topic_a]. split; [done|]. intros n [Hn|Hn]; [rewrite (H1 n Hn)|rewrite (H2 n Hn)]; by left. Qed.

(** ** The properties *)

(** C15: a snapshot carries the memory of a node. The packets of a snapshot each fit
    one frame of the mesh, and a node that gets them all, in any order and any
    number of times, holds under every name the newer of the sender's value and its
    own, by the serial numbers of the values, takes what it did not have, loses
    what the sender buried and keeps the rest: as long as the names of the two fit
    a table. So a node that lost everything has all the values again, whichever of
    its peers is left. *)
Theorem snapshot_merged (meA dst meB : Z) (alive : Z -> bool) (a b : replica) (l : list (list Z)) (Ha : speaks a) (Hb : slots_ok (tables b)) (Hf : fits_with a b)
  (Hd : dst < DNODE_MAX) (Hm : 0 <= meA) (Hl : forall p, p ∈ l <-> sent_by meA dst a p) :
  let b' := received meB alive l b in
  Forall (fun p => lenz p <= PMESH_DATA_MAX) l /\ slots_ok (tables b') /\ forall n, held (tables b') n = told a n (held (tables b) n).
Proof.
  split; [|exact (received_held meA dst meB alive a b l Ha Hb Hf Hd Hm Hl)]. apply list.Forall_forall. intros p Hp.
  apply Hl, (sent_part meA dst a p Ha Hd) in Hp as (es & idx & Hes & _ & _ & ->). destruct (parts_ok a es Ha Hes) as (P1 & P2 & _). by apply part_length.
Qed.

Lemma snapshot_merged_witness : held (tables (received 2 (fun _ => true) [packet1] blank)) topic_a = Some (Value [7; 7] 1 KDDS_QOS_LATEST_ONLY KDDS_SCOPE_GLOBAL).
Proof.
  assert (held (tables blank) = fun _ => None) as Hblank by reflexivity.
  destruct (snapshot_merged 1 2 2 (fun _ => true) memory1 blank [packet1] memory1_speaks) as (_ & _ & E).
  - by apply (tidy_slots (fun _ => False)), init_tidy.
  - apply one_name; [apply one_topic_name|]. intros n Hn. by rewrite Hblank in Hn.
  - reflexivity.
  - lia.
  - exact memory1_sends.
  - rewrite E. vm_compute. reflexivity.
Defined.

Lemma before_flip x y : u16 (x - y) <> 0 -> u16 (x - y) <> 0x8000 -> before y x = negb (before x y).
Proof.
  unfold before, u16. cbv zeta. intros H0 H8. replace (y - x) with (- (x - y)) by lia. rewrite (Z_mod_nz_opp_full (x - y)) by done.
  pose proof (Z.mod_pos_bound (x - y) (2 ^ 16) ltac:(lia)) as Hr. set (d := (x - y) mod 2 ^ 16) in *. change (2 ^ 16) with 65536 in *.
  rewrite (proj2 (Z.eqb_neq d 0)), (proj2 (Z.eqb_neq (65536 - d) 0)) by lia. cbn [negb andb]. destruct (d <? 32768) eqn:E1, (65536 - d <? 32768) eqn:E2; bools; lia || done.
Qed.

(** The value and its number. *)
Definition told_value (v : option value) : option (list Z * Z) := match v with Some v => Some (v_data v, v_seq v) | None => None end.

(** C18: nodes that exchange their snapshots agree. When each of two nodes gets the
    snapshot the other made, in whatever order the packets of the two arrive, both
    hold the same value with the same number under every name that neither buried,
    provided neither holds the name as an empty topic (one that was opened and never
    published: its slot may carry a higher number of the topic before it,
    [kdds.c:132], and then refuses the peer's value), and unless the two held
    different values whose numbers are equal or half the range apart. *)
Theorem exchange_agrees (meA meB dA dB : Z) (alA alB : Z -> bool) (a b : replica) (la lb : list (list Z)) (n : list Z)
  (Ha : speaks a) (Hb : speaks b) (Hf : fits_with a b) (HdA : dA < DNODE_MAX) (HdB : dB < DNODE_MAX) (HmA : 0 <= meA) (HmB : 0 <= meB)
  (Hla : forall p, p ∈ la <-> sent_by meA dB a p) (Hlb : forall p, p ∈ lb <-> sent_by meB dA b p)
  (Hn : buried a n = false /\ buried b n = false)
  (Hva : forall v, held (tables a) n = Some v -> v_data v <> []) (Hvb : forall v, held (tables b) n = Some v -> v_data v <> [])
  (Hab : forall v w, held (tables a) n = Some v -> held (tables b) n = Some w ->
     (v_data v, v_seq v) = (v_data w, v_seq w) \/ u16 (v_seq v - v_seq w) <> 0 /\ u16 (v_seq v - v_seq w) <> 0x8000) :
  told_value (held (tables (received meA alA lb a)) n) = told_value (held (tables (received meB alB la b)) n) /\
  (held (tables a) n <> None \/ held (tables b) n <> None -> held (tables (received meA alA lb a)) n <> None).
Proof.
  assert (fits_with b a) as Hf' by (destruct Hf as (U & HU & Hin); exists U; split; [done|]; intros m [Hm|Hm]; apply Hin; auto).
  destruct (received_held meA dB meB alB a b la Ha (sp_slots _ Hb) Hf HdB HmA Hla) as [_ E1].
  destruct (received_held meB dA meA alA b a lb Hb (sp_slots _ Ha) Hf' HdA HmB Hlb) as [_ E2]. rewrite E1, E2. clear E1 E2.
  unfold told. rewrite (proj1 Hn), (proj2 Hn). destruct (held (tables a) n) as [v|], (held (tables b) n) as [w|].
  - rewrite (bool_decide_eq_false_2 _ (Hva v eq_refl)), (bool_decide_eq_false_2 _ (Hvb w eq_refl)). unfold newer_of. split; [|done].
    destruct (Hab v w eq_refl eq_refl) as [E|[H0 H8]].
    + injection E as E1 E2. unfold before. rewrite E1, E2, Z.sub_diag. change (u16 0) with 0. cbn [Z.eqb negb andb told_value]. congruence.
    + rewrite (before_flip _ _ H0 H8). by destruct (before (v_seq v) (v_seq w)).
  - rewrite (bool_decide_eq_false_2 _ (Hva v eq_refl)). split; [done|done].
  - rewrite (bool_decide_eq_false_2 _ (Hvb w eq_refl)). split; [done|done].
  - split; [done|]. by intros [?|?].
Qed.

Lemma exchange_agrees_witness : told_value (held (tables (received 1 (fun _ => true) [packet2] memory1)) topic_a) = told_value (held (tables (received 2 (fun _ => true) [packet1] memory2)) topic_a).
Proof.
  assert (held (tables memory1) topic_a = Some (Value [7; 7] 1 KDDS_QOS_LATEST_ONLY KDDS_SCOPE_GLOBAL)) as E1 by (vm_compute; reflexivity).
  assert (held (tables memory2) topic_a = Some (Value [8; 8; 8] 2 KDDS_QOS_LATEST_ONLY KDDS_SCOPE_GLOBAL)) as E2 by (vm_compute; reflexivity).
  apply (exchange_agrees 1 2 1 2 (fun _ => true) (fun _ => true) memory1 memory2 [packet1] [packet2] topic_a memory1_speaks memory2_speaks).
  - apply one_name; apply one_topic_name.
  - reflexivity.
  - reflexivity.
  - lia.
  - lia.
  - exact memory1_sends.
  - exact memory2_sends.
  - split; vm_compute; reflexivity.
  - intros v Hv. rewrite E1 in Hv. injection Hv as <-. discriminate.
  - intros v Hv. rewrite E2 in Hv. injection Hv as <-. discriminate.
  - intros v w Hv Hw. rewrite E1 in Hv. rewrite E2 in Hw. injection Hv as <-. injection Hw as <-. right. split; vm_compute; discriminate.
Defined.

(** ** What the code lets through *)

(** Two values with one number are kept apart for ever. *)
Example equal_numbers : let a := one_topic (topic_of topic_a [7; 7] 1) in let b := one_topic (topic_of topic_a [8] 1) in
  told_value (held (tables (received 1 (fun _ => true) [enc_part REPLICA_DATA 2 1 0 1 [topic_entry (topic_of topic_a [8] 1)]] a)) topic_a) = Some ([7; 7], 1) /\
  told_value (held (tables (received 2 (fun _ => true) [packet1] b)) topic_a) = Some ([8], 1).
Proof. vm_compute. split; reflexivity. Qed.

(** An empty topic in a slot whose last number was the tombstones' deletes the topic
    of that name on every node that hears it. *)
Example empty_topic_buries : let a := one_topic (topic_of topic_a [] REPLICA_TOMB_SEQ) in
  held (tables (received 2 (fun _ => true) [enc_part REPLICA_DATA 1 1 0 1 (snapshot a)] memory1)) topic_a = None.
Proof. vm_compute. reflexivity. Qed.

(** A tombstone stays: a topic made again under its name is deleted by the next
    round, and after eight tombstones a ninth name is not kept for the rounds. *)
Example buried_again : buried (exec (replica_tombstone 1 topic_a) memory1) topic_a = true /\
  told (exec (replica_tombstone 1 topic_a) blank) topic_a (held (tables memory2) topic_a) = None.
Proof. vm_compute. split; reflexivity. Qed.
Example ninth_tombstone : let s := exec (iter (seqZ 65 9) (fun c => replica_tombstone 1 [c])) blank in buried s [72] = true /\ buried s [73] = false.
Proof. vm_compute. split; reflexivity. Qed.
