(* ===== verification/TopicsMerge.v ===== *)
(** * What a replication packet does to the tables of kdds.c

    [replica.c] writes the topic slots without the handles: a packet of any origin
    is read as a list of entries, and each entry takes the slot of its name when
    its number is newer, makes it when there is none, or closes it when it is a
    tombstone. Sending changes neither the tables nor the tombstones. *)

From stdpp Require Import list.
#[local] Open Scope Z_scope.
From S2P Require Import Prelude.
From S2P Require Import Node.
From S2P Require Import Nodemap.
From S2P Require Import Step.
From S2P Require Import Wire.
From S2P Require Import Pmesh.
From S2P Require Import Topics.
From S2P Require Import TopicsFacts.
From S2P Require Import Replica.
From S2P Require Import ReplicaFacts.

(** ** Sending *)

#[export] Instance same_memory_preorder : PreOrder same_memory.
Proof. split; [by intros s|]. intros a b c [H1 H2] [H3 H4]. split; congruence. Qed.

Lemma send_parts_memory me dst round total p tcur mcur n : relates same_memory (send_parts me dst round total p tcur mcur n).
Proof.
  revert p tcur mcur. induction n as [|n IH]; intros p tcur mcur; [by intros s|]. cbn [send_parts].
  apply relates_bind; [apply _|by intros s|]. intros [[es tc] mc]. apply relates_bind; [apply _|by intros s|]. intros [].
  apply relates_bind; [apply _|by intros s|]. intros []. apply IH.
Qed.

Lemma snapshot_memory me dst : relates same_memory (send_snapshot_to me dst).
Proof.
  unfold send_snapshot_to. destruct (DNODE_MAX <=? dst); [by intros s|]. apply relates_bind; [apply _|by intros s|]. intros total.
  apply relates_bind; [apply _|by intros s|]. intros []. apply relates_bind; [apply _|by intros s|]. intros round. apply send_parts_memory.
Qed.

Lemma when_memory (b : bool) (m : io replica mesh unit) : relates same_memory m -> relates same_memory (when b m).
Proof. intros Hm. unfold when. destruct b; [exact Hm|by intros s]. Qed.

Lemma task_memory me alive : relates same_memory (replica_task me alive).
Proof.
  unfold replica_task. destruct (me =? 0xFF); [by intros s|]. apply relates_iter; [apply _|]. intros n. apply when_memory, snapshot_memory.
Qed.
Lemma scatter_memory me : relates same_memory (replica_scatter_all me).
Proof.
  unfold replica_scatter_all. destruct (me =? 0xFF); [by intros s|]. apply relates_iter; [apply _|]. intros n. apply when_memory, snapshot_memory.
Qed.
Lemma push_memory me alive dst : relates same_memory (replica_push_to me alive dst).
Proof. unfold replica_push_to. destruct (DNODE_MAX <=? dst); [by intros s|]. destruct (alive dst); [apply snapshot_memory|by intros s]. Qed.
Lemma cry_memory me : relates same_memory (replica_boot_cry me).
Proof.
  unfold replica_boot_cry. destruct (me =? 0xFF); [by intros s|]. apply relates_iter; [apply _|]. intros n. apply when_memory. by intros s.
Qed.

(** A tombstone of this node's own is kept and sent; the tables are left. *)
Lemma tombstone_tables me name s : tables (exec (replica_tombstone me name) s) = tables s.
Proof.
  unfold replica_tombstone. rewrite exec_bind. set (s1 := exec (modify _) s).
  assert (tables s1 = tables s) as <-.
  { unfold s1. change (exec (modify ?f) s) with (f s). cbv beta zeta. by destruct (_ <? 0). }
  destruct (me =? 0xFF); [done|]. match goal with |- tables (exec ?m s1) = _ => enough (relates same_memory m) as Hm by apply (Hm s1) end.
  apply relates_bind; [apply _|by intros s'|]. intros []. apply relates_bind; [apply _|by intros s'|]. intros round.
  apply relates_bind; [apply _| |by intros [] s']. apply relates_iter; [apply _|]. intros n. apply when_memory. by intros s'.
Qed.

(** ** Packets of any origin *)

(** The entries [replica_rx] merges. *)
Definition rx_entries (p : list Z) : list REPLICA_ENTRY :=
  if (lenz p <? REPLICA_HDR_LEN) || negb (num_at 0 4 p =? REPLICA_MAGIC) || negb (getz p 4 0 =? REPLICA_VERSION) || negb (getz p 5 0 =? REPLICA_DATA) ||
     (lenz p <? REPLICA_HDR_LEN + clamp_count (getz p 7 0) * REPLICA_ENTRY_LEN) then [] else part_entries p.

Lemma rx_tables me alive p s : tables (exec (replica_rx me alive p) s) = merge_all (rx_entries p) (tables s).
Proof.
  unfold replica_rx, rx_entries. destruct (lenz p <? REPLICA_HDR_LEN); [done|]. destruct (negb (num_at 0 4 p =? REPLICA_MAGIC)); [done|].
  destruct (negb (getz p 4 0 =? REPLICA_VERSION)); [done|]. cbn [orb]. rewrite exec_bind. set (s1 := exec (modify _) s).
  assert (tables s1 = tables s) as <- by done. destruct (Z.eqb_spec (getz p 5 0) REPLICA_ANNOUNCE) as [->|_].
  - change (negb (REPLICA_ANNOUNCE =? REPLICA_DATA)) with true. cbn [orb merge_all fold_left].
    apply (when_memory _ _ (push_memory me alive (getz p 6 0)) s1).
  - destruct (negb (getz p 5 0 =? REPLICA_DATA)); [done|]. cbn [orb]. cbv zeta.
    destruct (lenz p <? REPLICA_HDR_LEN + clamp_count (getz p 7 0) * REPLICA_ENTRY_LEN); [done|].
    rewrite exec_bind. set (s2 := exec (modify _) s1). assert (tables s2 = tables s1) as <- by done. apply merge_iter.
Qed.

(** A packet of bytes whose names have an end inside their fields. *)
Definition packet_ok (p : list Z) : Prop := Forall is_u8 p /\ Forall (fun e => lenz (e_name e) < KDDS_NAME_MAX) (rx_entries p).

Lemma bytes_at_u8 off n d : Forall is_u8 d -> Forall is_u8 (bytes_at off n d).
Proof. intros Hd. unfold bytes_at. by apply Forall_take, Forall_drop. Qed.

Lemma dec_entry_ok b : Forall is_u8 b -> length b = 232%nat -> lenz (e_name (dec_entry b)) < KDDS_NAME_MAX -> entry_ok (dec_entry b).
Proof.
  intros Hb Hl Hn. split; cbn [dec_entry e_name e_len e_seq e_qos e_scope e_data] in *.
  - split; [by apply name_str_chars, bytes_at_u8|exact Hn].
  - refine (conj (num_at_range 32 2 b Hb ltac:(lia)) (conj (num_at_range 34 2 b Hb ltac:(lia)) (conj _ _))); by apply getz_Forall.
  - unfold bytes_at. rewrite length_take, length_drop. lia.
Qed.

Lemma rx_entries_ok p : packet_ok p -> Forall entry_ok (rx_entries p).
Proof.
  intros [Hb Hn]. rewrite list.Forall_forall in Hn. apply list.Forall_forall. intros e He. specialize (Hn e He). unfold rx_entries in He.
  destruct (_ || (lenz p <? REPLICA_HDR_LEN + _)) eqn:E; [by apply elem_of_nil in He|].
  apply orb_false_iff in E as [_ Elen]. apply Z.ltb_ge in Elen. change REPLICA_ENTRY_LEN with 232 in Elen. unfold REPLICA_HDR_LEN, lenz in Elen.
  unfold part_entries in He. apply list_elem_of_In, in_map_iff in He as (i & <- & Hi). apply in_seq in Hi. unfold entry_at in *.
  apply dec_entry_ok; [by apply bytes_at_u8| |exact Hn]. unfold bytes_at. rewrite length_take, length_drop. lia.
Qed.

(** ** One entry on one slot *)

Definition is_tomb (e : REPLICA_ENTRY) : bool := (e_len e =? 0) && (e_seq e =? REPLICA_TOMB_SEQ).
(** An entry with a value for [n] newer than number [seq]. *)
Definition fresh (n : list Z) (seq : Z) (e : REPLICA_ENTRY) : bool :=
  bool_decide (e_name e = n) && (0 <? e_len e) && (e_len e <=? KDDS_DATA_MAX) && before seq (e_seq e).
Definition carried (e : REPLICA_ENTRY) : list Z := take (Z.to_nat (e_len e)) (e_data e).

(** The value the entries of a packet leave under [n], when one is newer. *)
Fixpoint newest (n : list Z) (es : list REPLICA_ENTRY) (seq : Z) : option (list Z) :=
  match es with
  | [] => None
  | e :: es => if fresh n seq e then Some (default (carried e) (newest n es (e_seq e))) else newest n es seq
  end.

(** Slot [i] open under [n] with quality [q], number [seq] and value [d]. *)
Definition slot_holds (i : nat) (n : list Z) (q seq : Z) (d : list Z) (k : kdds) : Prop :=
  exists t, topics k !! i = Some t /\ t_open t = true /\ t_name t = n /\ qos t = q /\ data_seq t = seq /\ contents t = d.

Section merging.
Context {gone : list Z -> Prop}.
Implicit Types k : kdds.

Lemma take_value_holds e t : entry_ok e -> topic_ok t -> e_len e <= KDDS_DATA_MAX ->
  topic_ok (take_value e t) /\ contents (take_value e t) = carried e.
Proof.
  intros He [D1 D2 D3] Hlen. pose proof (entry_fits e He Hlen) as Hfit. assert (0 <= e_len e) as Hpos by (rewrite <- Hfit; unfold lenz; lia).
  destruct (blit_contents t _ _ D1 Hfit Hlen) as [B1 B2]. split; [|exact B1]. split; cbn [take_value t_data data_len t_name]; [exact B2|lia|exact D3].
Qed.

Lemma make_topic_ok e t : entry_ok e -> topic_ok t -> e_len e <= KDDS_DATA_MAX -> topic_ok (make_topic e t) /\ t_name (make_topic e t) = e_name e.
Proof.
  intros He [D1 D2 D3] Hlen. pose proof (entry_fits e He Hlen) as Hfit. assert (0 <= e_len e) as Hpos by (rewrite <- Hfit; unfold lenz; lia).
  destruct (blit_contents t _ _ D1 Hfit Hlen) as [B1 B2]. destruct He as [[_ Hname] _ _].
  split; [|cbn [make_topic t_name]; by apply strcpy_short]. split; cbn [make_topic t_data data_len t_name]; [exact B2|lia|apply strcpy_fits].
Qed.

(** A slot written, seen from another slot and from itself. *)
Lemma set_holds (i j : nat) t t' n q seq d k : topics k !! j = Some t -> slot_holds i n q seq d k -> i <> j -> slot_holds i n q seq d (set_topic (Z.of_nat j) t' k).
Proof. intros Hj (u & Hi & Hu) Hne. exists u. split; [|exact Hu]. by rewrite set_topic_same. Qed.

Lemma merge_slot e k : tidy gone k -> entry_ok e -> (is_tomb e = true -> gone (e_name e)) ->
  tidy gone (merge_tables e k) /\ handles (merge_tables e k) = handles k /\
  forall i n q seq d, slot_holds i n q seq d k -> (is_tomb e = true -> e_name e <> n) ->
    slot_holds i n q (if fresh n seq e then e_seq e else seq) (if fresh n seq e then carried e else d) (merge_tables e k).
Proof.
  intros Ht He Hg. unfold merge_tables. cbv zeta. destruct (eo_nums _ He) as ([Hpos _] & _).
  assert (forall n seq, ~ 0 < e_len e \/ KDDS_DATA_MAX < e_len e \/ e_name e <> n \/ before seq (e_seq e) = false -> fresh n seq e = false) as Hstale.
  { intros n seq Hs. apply not_true_iff_false. unfold fresh. intros Hf. rewrite !andb_true_iff, bool_decide_eq_true, Z.ltb_lt, Z.leb_le in Hf. destruct Hf as [[[F1 F2] F3] F4].
    destruct Hs as [Hs|[Hs|[Hs|Hs]]]; [lia|lia|done|congruence]. }
  assert (forall i n q seq d k', fresh n seq e = false -> slot_holds i n q seq d k' ->
    slot_holds i n q (if fresh n seq e then e_seq e else seq) (if fresh n seq e then carried e else d) k') as Hold by (intros i n q seq d k' -> Hs; exact Hs).
  unfold is_tomb in Hg |- *. destruct (find_topic (e_name e) k) as [[Ef Hno]|(j & t & Ef & Hj & Ho & Hn)]; rewrite Ef.
  - change (-1 <? 0) with true. change (0 <=? -1) with false. rewrite orb_true_r. cbv iota.
    assert (forall i n q seq d, slot_holds i n q seq d k -> fresh n seq e = false) as Hother.
    { intros i n q seq d (t & Hi & Ho & <- & _). apply Hstale. right. right. left. intros E. by apply (Hno i t Hi Ho). }
    destruct (e_len e =? 0); [split_and!; [done|done|]; intros; apply Hold; eauto|].
    destruct (KDDS_DATA_MAX <? e_len e) eqn:El; [split_and!; [done|done|]; intros; apply Hold; eauto|]. apply Z.ltb_ge in El.
    destruct (first_ix_spec (fun t => negb (t_open t)) (topics k) 0 ltac:(done)) as [[-> _]|(j & t & -> & Hj & Hcl)].
    { split_and!; [done|done|]. intros. apply Hold; eauto. }
    bools. rewrite Z.add_0_l, (proj2 (Z.ltb_ge _ _)) by lia. rewrite (topic_at_nat j t k Hj).
    assert (topic_ok t) as Hok by by eapply (proj1 (Forall_lookup _ _) (td_slots _ Ht)). destruct (make_topic_ok e t He Hok El) as [M1 M2].
    split; [|split; [done|]].
    + apply (set_topic_tidy j t); [done|done|done|by left|]. intros _ m u _ Hu Hou. rewrite M2. by apply (Hno m).
    + intros i n q seq d Hs _. apply Hold; [by eapply Hother|]. apply (set_holds i j t); [done|done|]. intros ->. destruct Hs as (u & Hu & Hou & _). congruence.
  - rewrite (proj2 (Z.ltb_ge _ _)), (proj2 (Z.leb_le _ _)), (topic_at_nat j t k Hj), orb_false_r by lia.
    assert (topic_ok t) as Hok by by eapply (proj1 (Forall_lookup _ _) (td_slots _ Ht)).
    assert (forall i n q seq d, slot_holds i n q seq d k -> i <> j -> e_name e <> n) as Hapart.
    { intros i n q seq d (u & Hi & Hou & <- & _) Hne E. apply Hne. apply (td_names _ Ht i j u t); congruence. }
    destruct (e_len e =? 0) eqn:El.
    + destruct (e_seq e =? REPLICA_TOMB_SEQ); cbn [negb].
      * split; [|split; [done|]].
        -- apply (set_topic_tidy j t); [done|done|by destruct Hok; split| |done]. right. left. cbn [drop_topic t_name]. rewrite Hn. by apply Hg.
        -- intros i n q seq d Hs Hne. bools. apply Hold; [apply Hstale; left; lia|]. apply (set_holds i j t); [done|done|]. intros ->.
           destruct Hs as (u & Hu & _ & Hnu & _). apply Hne; [done|]. congruence.
      * bools. split_and!; [done|done|]. intros. apply Hold; [apply Hstale; left; lia|done].
    + destruct (KDDS_DATA_MAX <? e_len e) eqn:Em; [bools; split_and!; [done|done|]; intros; apply Hold; [apply Hstale; right; left; lia|done]|]. bools.
      assert ((u16 (e_seq e - data_seq t) =? 0) || (0x8000 <=? u16 (e_seq e - data_seq t)) = negb (before (data_seq t) (e_seq e))) as ->
        by (unfold before; rewrite negb_andb, negb_involutive; f_equal; apply Z.leb_antisym).
      destruct (before (data_seq t) (e_seq e)) eqn:Eb; cbn [negb].
      * destruct (take_value_holds e t He Hok ltac:(lia)) as [V1 V2]. split; [|split; [done|]].
        -- apply (set_topic_tidy j t); [done|done|done|by left|]. intros _ m u Hm Hu Hou En. apply Hm. by apply (td_names _ Ht m j u t).
        -- intros i n q seq d Hs _. destruct (decide (i = j)) as [->|Hne].
           ++ destruct Hs as (u & Hu & Hou & Hnu & <- & <- & _). assert (u = t) as -> by congruence.
              assert (fresh n (data_seq t) e = true) as ->.
              { unfold fresh. rewrite bool_decide_eq_true_2, Eb by congruence. rewrite (proj2 (Z.ltb_lt _ _)), (proj2 (Z.leb_le _ _)) by lia. done. }
              exists (take_value e t). split; [by apply (set_topic_here j t)|]. by repeat apply conj.
           ++ apply Hold; [apply Hstale; right; right; left; by eapply Hapart|]. by apply (set_holds i j t).
      * split_and!; [done|done|]. intros i n q seq d Hs _. apply Hold; [|done]. apply Hstale. right. right.
        destruct (decide (i = j)) as [->|Hne]; [right|left; by eapply Hapart]. destruct Hs as (u & Hu & _ & _ & _ & <- & _). congruence.
Qed.

(** ** A packet *)

Lemma merge_all_slot es k : tidy gone k -> Forall entry_ok es -> (forall e, e ∈ es -> is_tomb e = true -> gone (e_name e)) ->
  tidy gone (merge_all es k) /\ handles (merge_all es k) = handles k /\
  forall i n q seq d, slot_holds i n q seq d k -> (forall e, e ∈ es -> is_tomb e = true -> e_name e <> n) ->
    exists seq', slot_holds i n q seq' (default d (newest n es seq)) (merge_all es k).
Proof.
  intros Ht Hok. revert k Ht. induction Hok as [|e es He Hok IH]; intros k Ht Hg.
  { split_and!; [done|done|]. intros i n q seq d Hs _. by exists seq. }
  destruct (merge_slot e k Ht He (Hg e ltac:(left))) as (M1 & M2 & M3).
  destruct (IH (merge_tables e k) M1 ltac:(intros; apply Hg; [by right|done])) as (I1 & I2 & I3). cbn [merge_all fold_left newest].
  split; [exact I1|]. split; [etrans; [exact I2|exact M2]|]. intros i n q seq d Hs Hno.
  pose proof (M3 i n q seq d Hs (Hno e ltac:(left))) as H3. destruct (I3 i n q _ _ H3 ltac:(intros; apply Hno; [by right|done])) as [seq' H4].
  exists seq'. revert H4. by destruct (fresh n seq e).
Qed.

End merging.
