(* ===== verification/TopicsRun.v ===== *)
(** * What a subscriber reads, in any run

    Runs of the operations of a node, of the frames [kdds_rx] takes and of the
    packets [replica_rx] merges, which write and close the topic slots themselves.
    The tables stay sound: a handle refers to an open topic unless a tombstone from
    the network closed it. A handle stays on its topic until it is closed or the
    topic is deleted, here or by such a tombstone, and reads the last value
    published, received or merged under that name; a value published on one node is
    the value the others read; the sweep of a dead task closes its handles and no
    others. The examples show what a tombstone does to a handle and where slots
    leak. *)

From stdpp Require Import list.
#[local] Open Scope Z_scope.
From S2P Require Import Prelude.
From S2P Require Import Node.
From S2P Require Import Nodemap.
From S2P Require Import Step.
From S2P Require Import Wire.
From S2P Require Import Topics.
From S2P Require Import TopicsFacts.
From S2P Require Import Replica.
From S2P Require Import ReplicaFacts.
From S2P Require Import TopicsMerge.

Implicit Types s : replica.
#[local] Abbreviation op A := (io kdds effect A).

(** ** Runs *)

Inductive event : Type :=
| Open (name : list Z) (q sc : Z) (blocking : bool) (sem : Z)
| Pub (v : net) (h : Z) (data : list Z)
| PubTo (v : net) (h : Z) (data : list Z) (dst : Z)
| Close (h : Z)
| SetOwner (h tid : Z)
| CloseOwner (tid : Z)
| DeleteCluster (v : net) (name : list Z)
| Receive (frame : list Z)
| Replicate (me : Z) (alive : Z -> bool) (packet : list Z)
| Round (me : Z) (alive : Z -> bool)
| Scatter (me : Z)
| Cry (me : Z).

(** An operation of kdds.c: its one call into replica.c is made at the end. *)
Definition apply_op {A} (me : Z) (m : op A) s : replica :=
  fold_left (fun s c => match c with Tombstone n => exec (replica_tombstone me n) s | _ => s end)
    (calls (m (tables s))) (with_tables (exec m) s).

Definition act (e : event) s : replica :=
  match e with
  | Open name q sc b sem => with_tables (exec (kdds_open_core name q sc b sem)) s
  | Pub v h data => with_tables (exec (kdds_pub v h data)) s
  | PubTo v h data dst => with_tables (exec (kdds_pub_to v h data dst)) s
  | Close h => with_tables (exec (kdds_close h)) s
  | SetOwner h tid => with_tables (exec (kdds_set_owner h tid)) s
  | CloseOwner tid => with_tables (exec (kdds_close_by_owner tid)) s
  | DeleteCluster v name => apply_op (me v) (kdds_delete_cluster v name) s
  | Receive frame => with_tables (exec (kdds_rx frame)) s
  | Replicate me alive p => exec (replica_rx me alive p) s
  | Round me alive => exec (replica_task me alive) s
  | Scatter me => exec (replica_scatter_all me) s
  | Cry me => exec (replica_boot_cry me) s
  end.
Definition run (l : list event) s : replica := fold_left (fun s e => act e s) l s.
Definition start : replica := replica_init kdds_init.

(** Names fit in a name field, with their end. *)
Definition event_ok (e : event) : Prop :=
  match e with
  | Open name _ _ _ _ => lenz name < KDDS_NAME_MAX
  | Receive frame => frame_ok frame
  | Replicate _ _ p => packet_ok p
  | _ => True
  end.

(** A packet with a tombstone for [n]. *)
Definition buries (p n : list Z) : Prop := exists e, e ∈ rx_entries p /\ is_tomb e = true /\ e_name e = n.
Definition buried_in (l : list event) (n : list Z) : Prop := exists me alive p, Replicate me alive p ∈ l /\ buries p n.

(** What an event stores under a name: a publication, when the handle's own topic
    is open; a frame; the newest of the entries of a packet, when it is newer than
    what is there. *)
Definition name_of (h : Z) k : list Z := t_name (topic_at (topic_idx (handle_at h k)) k).
Definition live (h : Z) k : bool := t_open (topic_at (topic_idx (handle_at h k)) k).
Definition seq_of (n : list Z) k : Z := data_seq (topic_at (topic_find n k) k).
Definition stored (name : list Z) (e : event) s : option (list Z) :=
  match e with
  | Pub _ h data | PubTo _ h data _ =>
      if pub_ok h data (tables s) && live h (tables s) && bool_decide (name_of h (tables s) = name) then Some data else None
  | Receive frame => match rx_value frame with Some (n, d) => if bool_decide (n = name) then Some d else None | None => None end
  | Replicate _ _ p => newest name (rx_entries p) (seq_of name (tables s))
  | _ => None
  end.
Fixpoint last_value (name : list Z) (l : list event) s (now : list Z) : list Z :=
  match l with [] => now | e :: l => last_value name l (act e s) (default now (stored name e s)) end.

(** An event that does not close a handle or its topic. *)
Definition spares (h : nat) (e : event) s : Prop :=
  match e with
  | Close h' => h' <> Z.of_nat h
  | CloseOwner tid => tid <= 0 \/ owner (handle_at (Z.of_nat h) (tables s)) <> tid
  | DeleteCluster _ name => name <> name_of (Z.of_nat h) (tables s)
  | Replicate _ _ p => ~ buries p (name_of (Z.of_nat h) (tables s))
  | _ => True
  end.
Fixpoint spared (h : nat) (l : list event) s : Prop :=
  match l with [] => True | e :: l => spares h e s /\ spared h l (act e s) end.

(** ** The invariant *)

Section invariant.
Context {gone : list Z -> Prop}.

Lemma sweep_tidy tid k : tidy gone k -> tidy gone (exec (kdds_close_by_owner tid) k).
Proof.
  intros Ht. unfold kdds_close_by_owner. destruct (tid <=? 0); [exact Ht|]. destruct all_handles as [A1 A2].
  by destruct (close_owned_spec _ tid k Ht A1 A2) as (H & _).
Qed.

Lemma close_tidy h k : tidy gone k -> tidy gone (exec (kdds_close h) k).
Proof.
  intros Ht. destruct (bad_handle h k) eqn:Eb; [by rewrite close_bad|].
  destruct (handle_in h k Eb) as (i & -> & Hk & Hx). by destruct (close_spec i _ k Ht Hk Hx) as (H & _).
Qed.

Lemma apply_op_tables {A} me (m : op A) s : tables (apply_op me m s) = exec m (tables s).
Proof.
  unfold apply_op. generalize (calls (m (tables s))). intros l. change (exec m (tables s)) with (tables (with_tables (exec m) s)).
  generalize (with_tables (exec m) s). induction l as [|c l IH]; intros s'; [done|]. cbn [fold_left]. rewrite IH. destruct c; try done. apply tombstone_tables.
Qed.

Lemma act_tidy e s : tidy gone (tables s) -> event_ok e -> (forall n, buried_in [e] n -> gone n) -> tidy gone (tables (act e s)).
Proof.
  intros Ht He Hg. destruct e as [name q sc b sem|v h data|v h data dst|h|h tid|tid|v name|frame|me alive p|me alive|me|me]; cbn [act event_ok] in *.
  - by destruct (open_spec name q sc b sem (tables s) Ht He) as (H & _).
  - by destruct (pub_spec v h data (-1) (tables s) Ht) as (H & _).
  - unfold kdds_pub_to. by destruct (pub_spec v h data (if (dst <? DNODE_MAX) && negb (dst =? me v) then dst else DNODE_MAX) (tables s) Ht) as (H & _).
  - by apply close_tidy.
  - by destruct (owner_spec h tid (tables s) Ht) as (H & _).
  - by apply sweep_tidy.
  - rewrite apply_op_tables. by destruct (delete_spec v name (tables s) Ht) as (H & _).
  - by destruct (rx_spec frame (tables s) Ht He) as (H & _).
  - rewrite rx_tables. apply merge_all_slot; [done|by apply rx_entries_ok|]. intros e Hin Htomb. apply Hg. exists me, alive, p. split; [by left|by exists e].
  - by rewrite (proj1 (task_memory me alive s)).
  - by rewrite (proj1 (scatter_memory me s)).
  - by rewrite (proj1 (cry_memory me s)).
Qed.

Lemma run_tidy l s : tidy gone (tables s) -> Forall event_ok l -> (forall n, buried_in l n -> gone n) -> tidy gone (tables (run l s)).
Proof.
  revert s. induction l as [|e l IH]; intros s Ht Hl Hg; [done|]. apply list.Forall_cons in Hl as [He Hl]. cbn [run fold_left]. apply IH; [|done|].
  - apply act_tidy; [done|done|]. intros n (me & alive & p & Hin & Hb). apply Hg. exists me, alive, p. split; [|done].
    apply list_elem_of_singleton in Hin as <-. by left.
  - intros n (me & alive & p & Hin & Hb). apply Hg. exists me, alive, p. split; [by right|done].
Qed.

(** ** One handle *)

(** Handle [h] is open on the topic [n], which has quality [q] and holds [d]. *)
Definition on_topic (h : nat) (n : list Z) (q : Z) (d : list Z) k : Prop :=
  exists x i t, handles k !! h = Some x /\ h_open x = true /\ topic_idx x = Z.of_nat i /\ topics k !! i = Some t /\ t_open t = true /\
    t_name t = n /\ qos t = q /\ contents t = d.

Lemma on_topic_name h n q d k : on_topic h n q d k -> name_of (Z.of_nat h) k = n.
Proof. intros (x & i & t & Hk & _ & Ei & Hi & _ & <- & _). unfold name_of. by rewrite (handle_at_nat h x k Hk), Ei, (topic_at_nat i t k Hi). Qed.

(** A handle kept, in a slot kept. *)
Lemma on_topic_kept (h i : nat) x x' t new k k' : handles k !! h = Some x -> h_open x = true -> topic_idx x = Z.of_nat i -> topics k !! i = Some t -> t_open t = true ->
  handles k' !! h = Some x' -> h_open x' = true -> topic_idx x' = topic_idx x -> slot_kept i k k' new ->
  on_topic h (t_name t) (qos t) (default (contents t) new) k'.
Proof.
  intros Hk Hx Ei Hi Ho Hk' Hx' Ei' (t0 & t' & Hi0 & Hi' & F1 & F2 & F3 & F4). assert (t0 = t) as -> by congruence.
  exists x', i, t'. split_and!; congruence.
Qed.

(** The name under which a handle publishes decides its slot. *)
Lemma same_slot h (i : nat) t k : tidy gone k -> bad_handle h k = false -> topics k !! i = Some t -> t_open t = true ->
  (topic_idx (handle_at h k) =? Z.of_nat i) = live h k && bool_decide (name_of h k = t_name t).
Proof.
  intros Ht Hb Hi Ho. destruct (handle_in h k Hb) as (m & -> & Hk & Hx). destruct (td_refs _ Ht m _ Hk Hx) as (j & u & Ej & Hj & _).
  unfold name_of, live. rewrite Ej, (topic_at_nat j u k Hj). apply Bool.eq_iff_eq_true. rewrite andb_true_iff, Z.eqb_eq, bool_decide_eq_true. split.
  - intros E. assert (j = i) as -> by lia. split; congruence.
  - intros [Hu En]. f_equal. by apply (td_names _ Ht j i u t).
Qed.

Lemma pub_on_topic v h data dst m n q d k : tidy gone k -> on_topic m n q d k ->
  on_topic m n q (default d (if pub_ok h data k && live h k && bool_decide (name_of h k = n) then Some data else None)) (exec (kdds_pub_core v h data dst) k).
Proof.
  intros Ht (x & i & t & Hk & Hx & Ei & Hi & Ho & <- & <- & <-). destruct (pub_spec v h data dst k Ht) as (_ & P2 & _ & P4).
  specialize (P4 i t Hi Ho). assert (pub_ok h data k && (topic_idx (handle_at h k) =? Z.of_nat i) = pub_ok h data k && live h k && bool_decide (name_of h k = t_name t)) as E.
  { rewrite <- andb_assoc. destruct (pub_ok h data k) eqn:Ep; [|done]. cbn [andb]. apply same_slot; try done. unfold pub_ok in Ep. by bools. }
  rewrite E in P4. eapply (on_topic_kept m i x x t); try done. by rewrite P2.
Qed.

(** A packet on the topic of a handle. *)
Lemma merge_on_topic es m n q d k : tidy gone k -> Forall entry_ok es -> (forall e, e ∈ es -> is_tomb e = true -> gone (e_name e) /\ e_name e <> n) ->
  on_topic m n q d k -> on_topic m n q (default d (newest n es (seq_of n k))) (merge_all es k).
Proof.
  intros Ht Hok Hno (x & i & t & Hk & Hx & Ei & Hi & Ho & Hn & Hq & Hd).
  destruct (merge_all_slot es k Ht Hok) as (_ & M2 & M3); [intros; by apply Hno|].
  assert (seq_of n k = data_seq t) as ->.
  { unfold seq_of. destruct (find_topic n k) as [[_ Hnone]|(j & u & -> & Hj & Hu & Hnu)]; [by destruct (Hnone i t Hi Ho)|].
    assert (j = i) as -> by (apply (td_names _ Ht j i u t); congruence). by rewrite (topic_at_nat i t k Hi). }
  destruct (M3 i n q (data_seq t) d) as (seq' & t' & Hi' & Ho' & Hn' & Hq' & _ & Hd'); [by exists t|intros; by apply Hno|].
  exists x, i, t'. rewrite M2. by split_and!.
Qed.

Lemma step_on_topic e h n q d s : tidy gone (tables s) -> event_ok e -> (forall n, buried_in [e] n -> gone n) -> spares h e s -> on_topic h n q d (tables s) ->
  on_topic h n q (default d (stored n e s)) (tables (act e s)).
Proof.
  intros Ht He Hg Hs Hon. pose proof (on_topic_name h n q d _ Hon) as Hname.
  destruct e as [name qq sc b sem|v h' data|v h' data dst|h'|h' tid|tid|v name|frame|me alive p|me alive|me|me]; cbn [act event_ok spares stored] in *.
  2,3: by apply pub_on_topic.
  7:{ rewrite rx_tables. apply merge_on_topic; [done|by apply rx_entries_ok| |done]. intros e Hin Htomb. split.
      - apply Hg. exists me, alive, p. split; [by left|by exists e].
      - intros En. apply Hs. rewrite Hname. by exists e. }
  7: by rewrite (proj1 (task_memory me alive s)).
  7: by rewrite (proj1 (scatter_memory me s)).
  7: by rewrite (proj1 (cry_memory me s)).
  all: try rewrite apply_op_tables; cbn [with_tables tables]; revert Ht Hname Hs Hon; generalize (tables s); clear s Hg; intros s Ht Hname Hs Hon.
  all: destruct Hon as (x & i & t & Hk & Hx & Ei & Hi & Ho & <- & <- & <-).
  - destruct (open_spec name qq sc b sem s Ht He) as (_ & K & S & _). destruct (K h x Hk Hx) as (x' & Hk' & Hx' & Ei' & _).
    by apply (on_topic_kept h i x x' t None s); try done; apply (S i t).
  - destruct (bad_handle h' s) eqn:Eb; [rewrite close_bad by done; by exists x, i, t|].
    destruct (handle_in h' s Eb) as (k' & -> & Hk' & Hx'). destruct (close_spec k' _ s Ht Hk' Hx') as (_ & C2 & C3).
    assert (h <> k') by lia. apply (on_topic_kept h i x x t None s); try done; [rewrite C2; by rewrite list_lookup_insert_ne|by apply (C3 h x)].
  - destruct (owner_spec h' tid s Ht) as (_ & K & E). destruct (K h x Hk Hx) as (x' & Hk' & Hx' & Ei' & _).
    apply (on_topic_kept h i x x' t None s); try done. apply (slot_same i t); [done|by rewrite E].
  - unfold kdds_close_by_owner. destruct (tid <=? 0) eqn:Et; [by exists x, i, t|]. destruct all_handles as [A1 A2].
    destruct (close_owned_spec _ tid s Ht A1 A2) as (_ & C2 & C3 & _). specialize (C2 h x Hk). rewrite (handle_at_nat h x s Hk) in Hs.
    assert (owned tid x = false) as Eo by (unfold owned; bools; rewrite (proj2 (Z.eqb_neq _ _)) by lia; apply andb_false_r).
    rewrite Eo, andb_false_r in C2. apply (on_topic_kept h i x x t None s); try done. by apply (C3 h x i).
  - destruct (delete_spec v name s Ht) as (_ & D2 & _). destruct (D2 h x i t Hk Hx Ei Hi) as [Hk' Hkept]; [congruence|].
    by apply (on_topic_kept h i x x t None s).
  - destruct (rx_spec frame s Ht He) as (_ & R2 & R3 & _). specialize (R3 i t Hi Ho). rewrite <- R2 in Hk.
    apply (on_topic_kept h i x x t _ s); try done. by rewrite <- R2.
Qed.

Lemma run_on_topic l h n q d s : tidy gone (tables s) -> Forall event_ok l -> (forall n, buried_in l n -> gone n) -> spared h l s -> on_topic h n q d (tables s) ->
  on_topic h n q (last_value n l s d) (tables (run l s)).
Proof.
  revert s d. induction l as [|e l IH]; intros s d Ht Hl Hg Hs Hon; [done|]. apply list.Forall_cons in Hl as [He Hl]. destruct Hs as [Hse Hs].
  assert (forall n, buried_in [e] n -> gone n) as Hge.
  { intros m (me & alive & p & Hin & Hb). apply Hg. exists me, alive, p. split; [|done]. apply list_elem_of_singleton in Hin as <-. by left. }
  cbn [run fold_left last_value]. apply IH; [by apply act_tidy|done| |done|by apply step_on_topic].
  intros m (me & alive & p & Hin & Hb). apply Hg. exists me, alive, p. split; [by right|done].
Qed.

End invariant.

(** Tables of which nothing is known but that they are sound. *)
Definition anything (_ : list Z) : Prop := True.
Lemma tidy_any gone k : tidy gone k -> tidy anything k.
Proof. by apply tidy_weaken. Qed.

(** ** What crosses the network *)

Definition sends (l : list effect) : list (Z * list Z) := flat_map (fun e => match e with Send n f => [(n, f)] | _ => [] end) l.
Lemma sends_app l r : sends (l ++ r) = sends l ++ sends r.
Proof. apply flat_map_app. Qed.

Lemma enc_rx src name data : 0 <= src -> lenz name < KDDS_NAME_MAX -> Forall name_char name -> Forall is_u8 data -> 1 <= lenz data <= KDDS_DATA_MAX ->
  rx_value (enc_pkt src name data) = Some (name, data) /\ frame_ok (enc_pkt src name data).
Proof.
  intros Hs Hl Hc Hd Hlen. unfold lenz, KDDS_NAME_MAX, KDDS_DATA_MAX in Hl, Hlen.
  assert (name_part name = name ++ [0]) as En by (unfold name_part; apply take_ge; rewrite length_app; cbn [length]; lia).
  remember (name_part name ++ replicate (32 - length (name_part name)) 0) as N eqn:EN. remember (data ++ replicate (192 - length data) 0) as D eqn:ED.
  assert (length N = 32%nat) as L1 by (rewrite EN, length_app, length_replicate, En, length_app; cbn [length]; lia).
  assert (length D = 192%nat) as L2 by (rewrite ED, length_app, length_replicate; lia).
  set (frame := enc_pkt src name data).
  assert (frame = le 4 KDDS_MAGIC ++ [KDDS_VERSION; KDDS_DATA_PKT; pk_node_v1 src; 0] ++ le 2 (lenz data) ++ le 2 (lenz (name_part name)) ++ N ++ D) as E
    by (unfold frame, enc_pkt; rewrite EN, ED, <- !app_assoc; reflexivity).
  assert (num_at 8 2 frame = lenz data) as E8 by (rewrite E; unfold lenz; fields).
  assert (bytes_at 12 32 frame = N) as E12 by (rewrite E; fields).
  assert (bytes_at 44 192 frame = D) as E44 by (rewrite E; fields).
  assert (lenz frame = KDDS_PKT_LEN) as El by (unfold lenz; rewrite E, !length_app, L1, L2, !le_length; reflexivity).
  assert (bytes_at 44 (length data) frame = data) as Ed.
  { pose proof (at_at 44 192 0 (length data) frame ltac:(lia)) as Ha. rewrite Nat.add_0_r in Ha. rewrite <- Ha, E44, ED. by apply at_hit. }
  assert (name_str N = name) as Ec by (rewrite EN, En, <- app_assoc; by apply name_str_pad).
  assert (rx_value frame = Some (name, data)) as Er.
  { unfold rx_value. cbv zeta. rewrite El, E8, E12, Ec.
    change (num_at 0 4 frame) with KDDS_MAGIC. change (getz frame 4 0) with KDDS_VERSION. change (getz frame 5 0) with KDDS_DATA_PKT.
    rewrite !Z.eqb_refl, Z.ltb_irrefl. cbn [orb negb]. rewrite (proj2 (Z.eqb_neq _ _)), (proj2 (Z.ltb_ge _ _)) by (unfold lenz, KDDS_DATA_MAX; lia). cbn [orb].
    unfold lenz. rewrite Nat2Z.id, Ed. reflexivity. }
  split; [exact Er|]. split; [|rewrite Er; intros ?? [= <- <-]; unfold lenz, KDDS_NAME_MAX; lia].
  assert (forall m : nat, Forall is_u8 (replicate m 0)) as Hz by (intros m; by apply Forall_replicate).
  rewrite E, EN, ED, En. rewrite !list.Forall_app. pose proof (node_v1_u8 src Hs) as Hsrc.
  assert (Forall is_u8 [KDDS_VERSION; KDDS_DATA_PKT; pk_node_v1 src; 0]) as Hh by (repeat (apply list.Forall_cons; split; [first [exact Hsrc|done]|]); by constructor).
  assert (Forall is_u8 name) as Hn by (eapply list.Forall_impl; [exact Hc|]; unfold name_char, is_u8; cbn; lia).
  repeat apply conj; first [apply le_bytes|exact Hh|exact Hd|exact Hn|apply Hz|apply (Hz 1%nat)].
Qed.

(** What a publication sends. *)
Lemma send_all_sends v f to (s : kdds) : sends (calls (send_all v f to s)) = map (fun n => (n, f)) to.
Proof.
  unfold send_all. rewrite calls_bind, sends_app. change (sends (calls (update_counts ?g ?x))) with (@nil (Z * list Z)). rewrite app_nil_r.
  revert s. induction to as [|n to IH]; intros s; [done|]. cbn [iter map]. rewrite calls_bind, sends_app, IH. rewrite calls_bind, sends_app.
  change (sends (calls (call (Send n f) s))) with [(n, f)]. unfold when. by destruct (reaches v n).
Qed.

Lemma iter_sends {A} (l : list A) (f : A -> op unit) (s : kdds) : (forall x (s : kdds), sends (calls (f x s)) = []) -> sends (calls (iter l f s)) = [].
Proof. intros Hf. revert s. induction l as [|x l IH]; intros s; [done|]. cbn [iter]. by rewrite calls_bind, sends_app, Hf, IH. Qed.

Lemma signal_sends tidx but (s : kdds) : sends (calls (signal_subs tidx but s)) = [].
Proof.
  unfold signal_subs. rewrite calls_bind, sends_app. change (sends (calls (get s))) with (@nil (Z * list Z)). cbn [app].
  apply iter_sends. intros h s'. cbv zeta. unfold when. by destruct (_ && _).
Qed.

Lemma pub_sends v h data dst (s : kdds) : pub_ok h data s = true -> me v <> 0xFF ->
  sends (calls (kdds_pub_core v h data dst s)) =
  map (fun n => (n, enc_pkt (me v) (name_of h s) data)) (targets v (scope (topic_at (topic_idx (handle_at h s)) s) =? KDDS_SCOPE_REGION) dst).
Proof.
  intros Hp Hme. unfold pub_ok in Hp. bools. unfold kdds_pub_core. rewrite calls_bind, sends_app. change (sends (calls (get s))) with (@nil (Z * list Z)). cbn [app].
  change (val (get s)) with s. change (exec get s) with s. rewrite H, (proj2 (Z.leb_gt _ _)), (proj2 (Z.ltb_ge _ _)) by lia. cbn [orb]. cbv zeta.
  rewrite !calls_bind, !sends_app, signal_sends. rewrite (proj2 (Z.eqb_neq _ _) Hme). cbn [negb]. rewrite send_all_sends.
  change (sends (calls (modify ?f s))) with (@nil (Z * list Z)). change (sends (calls (ret ?x ?y))) with (@nil (Z * list Z)). by rewrite app_nil_r.
Qed.

Lemma targets_in v r m : m ∈ targets v r (-1) <->
  m <> me v /\ (r = true -> in_region v m = true) /\ (0 <= m < DNODE_MAX \/ DNODE_MAX <= m /\ m ∈ take (Z.to_nat DREGION_MAX) (wide v)).
Proof.
  unfold targets. change (0 <=? -1) with false. change (-1 <? 0) with true. cbv iota. cbn [andb negb].
  rewrite elem_of_app, !list_elem_of_In, !filter_In, <- !list_elem_of_In, elem_of_seqZ.
  rewrite !andb_true_iff, !negb_true_iff, !orb_false_iff, !andb_false_iff, !negb_false_iff, !Z.eqb_neq, Z.ltb_ge.
  destruct r; intuition (try congruence; try lia).
Qed.

(** The copy out of a slot. *)
Lemma copy_spec t buflen : topic_ok t -> 0 < buflen ->
  (if data_len t <? buflen then data_len t else buflen) = lenz (take (Z.to_nat buflen) (contents t)) /\
  slot_bytes t buflen = take (Z.to_nat buflen) (contents t) /\ (contents t <> [] <-> (0 <? data_len t) = true).
Proof.
  intros [H1 H2 _] Hb. unfold KDDS_DATA_MAX in H2. unfold slot_bytes, contents. rewrite take_take. split_and!.
  - unfold lenz. rewrite length_take, H1. destruct (data_len t <? buflen) eqn:E; bools; lia.
  - f_equal. destruct (data_len t <? buflen) eqn:E; bools; lia.
  - rewrite Z.ltb_lt, <- length_zero_iff_nil, length_take. lia.
Qed.

(** A frame of a publication on the node that gets it. *)
Lemma rx_reads {gone} f n data b : rx_value f = Some (n, data) -> frame_ok f -> tidy gone b ->
  (forall h q d, on_topic h n q d b -> on_topic h n q data (exec (kdds_rx f) b)) /\
  ((exists i t, topics b !! i = Some t /\ t_open t = false) ->
   exists i t, topics (exec (kdds_rx f) b) !! i = Some t /\ t_open t = true /\ t_name t = n /\ contents t = data).
Proof.
  intros Er Hf Ht. destruct (rx_spec f b Ht Hf) as (_ & R2 & R3 & R4). split.
  - intros h q d (x & i & t & Hk & Hx & Ei & Hi & Ho & Hn & Hq & _). specialize (R3 i t Hi Ho). rewrite Er, bool_decide_eq_true_2 in R3 by done.
    rewrite <- Hn, <- Hq. apply (on_topic_kept h i x x t (Some data) b); try done. by rewrite R2.
  - intros (i & t & Hi & Ho). apply (R4 n data Er). exists i, t. split; [done|by left].
Qed.

(** What a sweep calls. *)
Definition sem_of (h : Z) (s : kdds) : list effect := if 0 <=? sub_sem (handle_at h s) then [DelSem (sub_sem (handle_at h s))] else [].

Lemma close_calls {gone} (k : nat) x (s : kdds) : tidy gone s -> handles s !! k = Some x -> h_open x = true -> calls (kdds_close (Z.of_nat k) s) = sem_of (Z.of_nat k) s.
Proof.
  intros Ht Hk Hx. pose proof (lookup_lt_Some _ _ _ Hk) as Hlt. pose proof (td_handles _ Ht) as Hlen.
  unfold kdds_close, sem_of. rewrite calls_bind. change (val (get s)) with s. change (exec get s) with s. change (calls (get s)) with (@nil effect). cbn [app].
  rewrite (proj2 (Z.ltb_ge _ _)), (proj2 (Z.leb_gt _ _)), (handle_at_nat k x s Hk), Hx by (unfold lenz in Hlen; lia). cbn [orb negb]. cbv zeta.
  rewrite !calls_bind. unfold del_sem, when, unless. destruct (0 <=? sub_sem x); cbn [app]; by destruct (val (gets _ _)).
Qed.

Lemma sweep_calls {gone} hs tid (s : kdds) : tidy gone s -> NoDup hs -> Forall (fun h => 0 <= h < KDDS_HANDLE_MAX) hs ->
  calls (close_owned hs tid s) = flat_map (fun h => sem_of h s) (List.filter (fun h => owned tid (handle_at h s)) hs).
Proof.
  intros Ht Hnd Hr. revert s Ht. induction hs as [|h hs IH]; intros s Ht; [done|].
  apply list.NoDup_cons in Hnd as [Hnin Hnd]. apply list.Forall_cons in Hr as [Hh Hr]. specialize (IH Hnd Hr).
  cbn [close_owned List.filter]. rewrite calls_bind. change (val (gets ?f s)) with (f s). change (exec (gets ?f) s) with s. change (calls (gets ?f s)) with (@nil effect).
  cbn [app]. assert (negb (h_open (handle_at h s)) || negb (owner (handle_at h s) =? tid) = negb (owned tid (handle_at h s))) as -> by (unfold owned; by rewrite negb_andb).
  destruct (owned tid (handle_at h s)) eqn:Eo; cbn [negb]; [|by apply IH].
  assert (bad_handle h s = false) as Hb.
  { unfold bad_handle. unfold owned in Eo. apply andb_true_iff in Eo as [-> _]. rewrite (proj2 (Z.ltb_ge _ _)), (proj2 (Z.leb_gt _ _)) by lia. done. }
  destruct (handle_in h s Hb) as (k & -> & Hk & Hx). destruct (close_spec k _ s Ht Hk Hx) as (C1 & C2 & _).
  rewrite !calls_bind, (close_calls k _ s Ht Hk Hx). set (s1 := exec (kdds_close (Z.of_nat k)) s) in *. rewrite (IH s1 C1). change (calls (ret ?x ?y)) with (@nil effect).
  rewrite app_nil_r. cbn [flat_map]. f_equal.
  assert (forall h, h ∈ hs -> handle_at h s1 = handle_at h s) as Hsame.
  { intros h Hin. assert (h <> Z.of_nat k) by congruence. unfold handle_at. rewrite C2. unfold getz. destruct (h <? 0) eqn:Eh; [done|].
    rewrite !nth_lookup, list_lookup_insert_ne; [done|]. bools. lia. }
  rewrite (List.filter_ext_in _ (fun h => owned tid (handle_at h s))) by (intros h Hin; rewrite Hsame; [done|by apply list_elem_of_In]).
  rewrite !flat_map_concat_map. f_equal. apply map_ext_in. intros h Hin. apply filter_In in Hin as [Hin _]. unfold sem_of. rewrite Hsame; [done|by apply list_elem_of_In].
Qed.

(** A node, a topic and a run for the witnesses. *)
Definition demo_net : net := Net 0 (fun _ => true) (fun _ => true) [].
Definition demo_node : replica := run [Open topic_a KDDS_QOS_LATEST_ONLY KDDS_SCOPE_GLOBAL true 7] start.
Definition demo : kdds := tables demo_node.
Definition merge_of (es : list REPLICA_ENTRY) : event := Replicate 0 (fun _ => true) (enc_part REPLICA_DATA 3 1 0 1 es).
Definition demo_run : list event :=
  [Receive (enc_pkt 3 topic_a [1; 2]); Open topic_b KDDS_QOS_RELIABLE KDDS_SCOPE_GLOBAL false (-1); Pub demo_net 1 [4; 4];
   SetOwner 1 5; Pub demo_net 0 [9; 8; 7; 6; 5]; CloseOwner 5; Receive (enc_pkt 2 topic_b [1]);
   merge_of [topic_entry (topic_of topic_a [3; 3] 1)]; merge_of [tomb_entry topic_b; topic_entry (topic_of topic_a [6; 5; 4; 3; 2] 2)]].
Definition owned_run : list event :=
  [Open topic_a KDDS_QOS_LATEST_ONLY KDDS_SCOPE_GLOBAL true 7; Open topic_a KDDS_QOS_LATEST_ONLY KDDS_SCOPE_GLOBAL true 8; SetOwner 1 5; SetOwner 0 6].

Lemma packet_sound p : forallb (fun b => (0 <=? b) && (b <? 256)) p = true -> forallb (fun e => lenz (e_name e) <? KDDS_NAME_MAX) (rx_entries p) = true -> packet_ok p.
Proof.
  rewrite !forallb_forall. intros H1 H2. split; apply list.Forall_forall; intros x Hx; apply list_elem_of_In in Hx.
  - specialize (H1 x Hx). unfold is_u8. bools. lia.
  - specialize (H2 x Hx). by bools.
Qed.

Lemma demo_ok : Forall event_ok demo_run.
Proof.
  assert (forall src n d, 0 <= src -> n = topic_a \/ n = topic_b -> Forall is_u8 d -> 1 <= lenz d <= KDDS_DATA_MAX -> frame_ok (enc_pkt src n d)) as Hf.
  { intros src n d Hs Hn Hd Hl. apply enc_rx; try done; destruct Hn as [->| ->]; by repeat constructor. }
  repeat (apply list.Forall_cons; split); try exact I; try reflexivity; try (apply Hf; [lia|by auto|by repeat constructor|done]);
    try (apply packet_sound; vm_compute; reflexivity). by constructor.
Qed.
Lemma start_tidy gone : tidy gone (tables start).
Proof. apply init_tidy. Qed.
Lemma demo_tidy : tidy anything demo.
Proof. apply run_tidy; [apply start_tidy| |done]. by repeat constructor. Qed.
Lemma unburied p n : forallb (fun e => negb (is_tomb e && bool_decide (e_name e = n))) (rx_entries p) = true -> ~ buries p n.
Proof.
  rewrite forallb_forall. intros Hall (e & He & Ht & En). apply list_elem_of_In in He. specialize (Hall e He). rewrite Ht, bool_decide_eq_true_2 in Hall by done. done.
Qed.
Lemma demo_spared : spared 0 demo_run demo_node.
Proof.
  assert (forall e l s, spares 0 e s -> spared 0 l (act e s) -> spared 0 (e :: l) s) as Hc by (intros; by split).
  unfold demo_run. do 5 (apply Hc; [exact I|]). apply Hc; [right; vm_compute; discriminate|]. apply Hc; [exact I|].
  do 2 (apply Hc; [apply unburied; vm_compute; reflexivity|]). exact I.
Qed.
Lemma demo_on : on_topic 0 topic_a KDDS_QOS_LATEST_ONLY [] demo.
Proof. eexists _, 0%nat, _. repeat apply conj; vm_compute; reflexivity. Qed.

(** ** The properties *)

(** C19: no handle dangles but where a tombstone from the network buried its topic.
    From the start, whatever is opened, published, closed, deleted or swept and
    whatever topic frames and replication packets arrive, in any order: every open
    handle refers to an open topic, or to a slot whose topic, of the name it still
    shows, was closed by a tombstone in a packet of the run ([replica.c] leaves its
    handles open; [dangling_handle] below); without such packets no handle dangles.
    No two open topics have one name, and each value is within its slot. The names
    given and received are shorter than the 32 bytes of their fields. *)
Theorem handles_sound (l : list event) (Hl : Forall event_ok l) : tidy (buried_in l) (tables (run l start)).
Proof. by apply run_tidy; [apply start_tidy| |]. Qed.

Lemma handles_sound_witness : Forall event_ok demo_run /\ tidy (buried_in demo_run) (tables (run demo_run start)).
Proof. assert (Forall event_ok demo_run) as Hl by exact demo_ok. split; [exact Hl|apply (handles_sound _ Hl)]. Defined.

(** C16: a subscriber reads the latest value. A handle that is on a topic stays on
    it, with its quality of service, through any operations, frames and replication
    packets that neither close it nor delete its topic, here or by a tombstone from
    the network, and then reads the last value that was published here under the
    name, received under it, or merged from a packet whose number was newer than
    the one held, cut to its buffer: at once when the topic keeps values and has
    one, and otherwise when its wait ends. The names given and received are shorter
    than the 32 bytes of their fields. *)
Theorem subscriber_reads_latest (l : list event) (h : nat) (n : list Z) (q : Z) (d : list Z) (s : replica) (buflen sem : Z)
  (Ht : tidy anything (tables s)) (Hl : Forall event_ok l) (Hs : spared h l s) (Hon : on_topic h n q d (tables s)) (Hb : 0 < buflen) :
  let s' := tables (run l s) in let v := last_value n l s d in let got := take (Z.to_nat buflen) v in
  name_of (Z.of_nat h) s' = n /\
  match kdds_sub (Z.of_nat h) true buflen s' with
  | Returned r bytes => q <> KDDS_QOS_BEST_EFFORT /\ v <> [] /\ bytes = got /\ r = lenz got
  | Waits tidx _ => (q = KDDS_QOS_BEST_EFFORT \/ v = []) /\ sub_wake tidx buflen 0 s' = (lenz got, got)
  end.
Proof.
  assert (tidy anything (tables (run l s))) as T' by (by apply run_tidy). assert (on_topic h n q (last_value n l s d) (tables (run l s))) as Hon' by (by apply (run_on_topic (gone := anything))).
  cbv zeta. split; [by eapply on_topic_name|]. revert T' Hon'.
  generalize (tables (run l s)), (last_value n l s d). clear -Hb. intros s v Ht (x & i & t & Hk & Hx & Ei & Hi & Ho & <- & <- & <-).
  assert (topic_ok t) as Hok by by eapply (proj1 (Forall_lookup _ _) (td_slots _ Ht)). apply (copy_spec t buflen) in Hok as (C1 & C2 & C3); [|done].
  unfold kdds_sub, bad_handle. pose proof (td_handles _ Ht) as Hlen. pose proof (lookup_lt_Some _ _ _ Hk) as Hlt.
  rewrite (proj2 (Z.ltb_ge _ _)), (proj2 (Z.leb_gt _ _)), (handle_at_nat h x s Hk), Hx by (unfold lenz in Hlen; lia). cbn [orb negb].
  rewrite (proj2 (Z.leb_gt buflen 0)) by done. cbv zeta. unfold sub_wake, copy_out. cbn [negb Z.eqb fst snd]. rewrite Ei, (topic_at_nat i t s Hi).
  destruct (Z.eqb_spec (qos t) KDDS_QOS_BEST_EFFORT) as [Eq|Eq]; cbn [negb andb]; [split; [by left|by rewrite (topic_at_nat i t s Hi), C1, C2]|].
  destruct (0 <? data_len t) eqn:El; [refine (conj Eq (conj (proj2 C3 eq_refl) (conj C2 C1)))|]. split; [right; apply dec_stable; intros Hv; apply C3 in Hv; congruence|by rewrite (topic_at_nat i t s Hi), C1, C2].
Qed.

Lemma subscriber_reads_latest_witness :
  kdds_sub 0 true 4 (tables (run demo_run demo_node)) = Returned 4 [6; 5; 4; 3] /\ last_value topic_a demo_run demo_node [] = [6; 5; 4; 3; 2].
Proof.
  pose proof (subscriber_reads_latest demo_run 0 topic_a KDDS_QOS_LATEST_ONLY [] demo_node 4 0 demo_tidy demo_ok demo_spared demo_on ltac:(lia)) as [_ Hm].
  assert (last_value topic_a demo_run demo_node [] = [6; 5; 4; 3; 2]) as E by (vm_compute; reflexivity). rewrite E in Hm. split; [|exact E].
  revert Hm. change (Z.of_nat 0) with 0. destruct (kdds_sub 0 true 4 (tables (run demo_run demo_node))) as [r b|i m]; [intros (_ & _ & -> & ->); vm_compute; reflexivity|].
  intros [[Hq|Hq] _]; discriminate.
Defined.

(** C17: what is published on one node is read on the others. A publication that is
    accepted sends one frame to every node it is for: every other narrow node and
    the wide ones alive, and when the topic is of the region only those of them
    inside it. A node that gets the frame stores the value under the same name:
    its handles on that name read it, and when there is none and a slot is free it
    makes the topic. *)
Theorem publish_crosses (v : net) (h : Z) (data : list Z) (s : kdds) (Hp : pub_ok h data s = true) (Hme : 0 <= me v /\ me v <> 0xFF)
  (Hn : Forall name_char (name_of h s)) (Hfit : lenz (name_of h s) < KDDS_NAME_MAX) (Hd : Forall is_u8 data) :
  let n := name_of h s in let r := scope (topic_at (topic_idx (handle_at h s)) s) =? KDDS_SCOPE_REGION in
  exists f to, sends (calls (kdds_pub v h data s)) = map (fun n => (n, f)) to /\
    (forall m, m ∈ to <-> m <> me v /\ (r = true -> in_region v m = true) /\ (0 <= m < DNODE_MAX \/ DNODE_MAX <= m /\ m ∈ take (Z.to_nat DREGION_MAX) (wide v))) /\
    forall b, tidy anything b ->
      (forall k q d, on_topic k n q d b -> on_topic k n q data (exec (kdds_rx f) b)) /\
      ((exists i t, topics b !! i = Some t /\ t_open t = false) ->
       exists i t, topics (exec (kdds_rx f) b) !! i = Some t /\ t_open t = true /\ t_name t = n /\ contents t = data).
Proof.
  cbv zeta. destruct (enc_rx (me v) (name_of h s) data) as [Er Hf]; [apply Hme|done|done|done|unfold pub_ok in Hp; bools; lia|].
  exists (enc_pkt (me v) (name_of h s) data). eexists. split; [exact (pub_sends v h data (-1) s Hp (proj2 Hme))|].
  split; [intros m; apply targets_in|]. intros b Hb. exact (rx_reads _ _ _ b Er Hf Hb).
Qed.

Lemma publish_crosses_witness : exists f, (3, f) ∈ sends (calls (kdds_pub demo_net 0 [9; 8; 7] demo)) /\ on_topic 0 topic_a KDDS_QOS_LATEST_ONLY [9; 8; 7] (exec (kdds_rx f) demo).
Proof.
  destruct (publish_crosses demo_net 0 [9; 8; 7] demo) as (f & to & E & Hto & Hb);
    [vm_compute; reflexivity|split; [vm_compute; discriminate|vm_compute; discriminate]|assert (name_of 0 demo = topic_a) as -> by (vm_compute; reflexivity); by repeat constructor|vm_compute; reflexivity|by repeat constructor|].
  exists f. rewrite E. split; [|exact (proj1 (Hb demo demo_tidy) 0%nat KDDS_QOS_LATEST_ONLY [] demo_on)].
  apply list_elem_of_In, in_map_iff. exists 3. split; [reflexivity|]. apply list_elem_of_In, Hto. split; [discriminate|]. split; [intros _; reflexivity|left; split; [discriminate|reflexivity]].
Defined.

(** C35: a dead task leaves nothing behind and takes nothing with it. The sweep of a
    task closes every handle the task owns and gives back its semaphore, counts
    them, and leaves every other handle open, on its topic, with the value the
    topic has. *)
Theorem owner_swept (tid : Z) (s : kdds) (Ht : tidy anything s) (Htid : 0 < tid) :
  let s' := exec (kdds_close_by_owner tid) s in
  let mine := List.filter (fun h => owned tid (handle_at h s)) (seqZ 0 KDDS_HANDLE_MAX) in
  val (kdds_close_by_owner tid s) = lenz mine /\ calls (kdds_close_by_owner tid s) = flat_map (fun h => sem_of h s) mine /\
  (forall k x, handles s !! k = Some x -> handles s' !! k = Some (if owned tid x then closed_handle (topic_idx x) x else x)) /\
  (forall k n q d x, handles s !! k = Some x -> owner x <> tid -> on_topic k n q d s -> on_topic k n q d s').
Proof.
  cbv zeta. unfold kdds_close_by_owner. rewrite (proj2 (Z.leb_gt _ _)) by done. destruct all_handles as [A1 A2].
  destruct (close_owned_spec _ tid s Ht A1 A2) as (_ & C2 & C3 & C4). split; [exact C4|]. split; [by apply (sweep_calls (gone := anything))|].
  assert (forall k x, handles s !! k = Some x ->
    handles (exec (close_owned (seqZ 0 KDDS_HANDLE_MAX) tid) s) !! k = Some (if owned tid x then closed_handle (topic_idx x) x else x)) as Hall.
  { intros k x Hk. rewrite (C2 k x Hk), bool_decide_eq_true_2 by by apply (handle_listed (gone := anything) k x s). reflexivity. }
  split; [exact Hall|]. intros k n q d x Hk Hne (y & i & t & Hk2 & Hx & Ei & Hi & Ho & <- & <- & <-). assert (y = x) as -> by congruence.
  specialize (Hall k x Hk). assert (owned tid x = false) as Eo by (unfold owned; rewrite (proj2 (Z.eqb_neq _ _)) by done; apply andb_false_r). rewrite Eo in Hall.
  apply (on_topic_kept k i x x t None s); try done. by apply (C3 k x i).
Qed.

Lemma owner_swept_witness : val (kdds_close_by_owner 5 (tables (run owned_run start))) = 1.
Proof.
  assert (tidy anything (tables (run owned_run start))) as Ht by (apply run_tidy; [apply start_tidy|repeat constructor|done]).
  destruct (owner_swept 5 _ Ht ltac:(lia)) as (E & _). rewrite E. vm_compute. reflexivity.
Defined.

(** ** What the code lets through *)

Definition open_topics (s : kdds) : Z := lenz (List.filter t_open (topics s)).

(** A tombstone heard from the network closes the topic and leaves its handles: a
    handle then reads what is published under another name that takes the slot. *)
Definition after_tombstone : replica := act (merge_of [tomb_entry topic_a]) demo_node.
Example dangling_handle : let k := tables (run [Open topic_b KDDS_QOS_LATEST_ONLY KDDS_SCOPE_GLOBAL false (-1); Pub demo_net 1 [5]] after_tombstone) in
  kdds_handle_count (tables after_tombstone) = 1 /\ open_topics (tables after_tombstone) = 0 /\ kdds_sub 0 true 4 k = Returned 1 [5].
Proof. vm_compute. repeat split; reflexivity. Qed.

(** A name of 32 bytes is cut when it is stored, so it is never found again: every
    open of it takes a slot, and so does every frame whose name field has no end. *)
Example long_name_leaks :
  open_topics (tables (run (replicate 3 (Open (replicate 32 97) KDDS_QOS_RELIABLE KDDS_SCOPE_GLOBAL false (-1))) start)) = 3.
Proof. vm_compute. reflexivity. Qed.
Example unended_name_leaks :
  open_topics (tables (run (replicate 3 (Receive (take 12 (enc_pkt 1 topic_a [1]) ++ replicate 32 97 ++ replicate 192 0))) start)) = 3.
Proof. vm_compute. reflexivity. Qed.

(** An open that fails for want of a semaphore leaves the topic open, with no handle
    that could close it. *)
Example failed_open_leaks : let s := tables (run [Open topic_a KDDS_QOS_RELIABLE KDDS_SCOPE_GLOBAL true (-5)] start) in
  open_topics s = 1 /\ kdds_handle_count s = 0.
Proof. vm_compute. split; reflexivity. Qed.
