(* ===== verification/TcpFrame.v ===== *)
(** * Length framing of a byte stream: src/relay/tcp_frame.h

    A packet goes on a TCP stream as a 16-bit big-endian length and its bytes; the
    receiver collects what it reads in a buffer of 4096 bytes and takes out one
    whole frame at a time. This file models the encoder, the buffer and the
    drain loop of the relay (src/relay/relay.c, main), and proves that the
    packets come out as they were sent however the stream is cut, and what an
    empty frame does. *)

From S2P Require Import Prelude.

Definition TCP_FRAME_LENPFX : Z := 2.
Definition TCP_FRAME_MAXBUF : Z := 4096.

(** The valid bytes of the buffer. *)
Record TcpReasm : Type := Reasm { rbytes : list Z }.

Definition tcp_reasm_init : TcpReasm := Reasm [].

Definition tcp_frame_encode (pkt : list Z) : option (list Z) :=
  if 0xffff <? lenz pkt then None
  else Some ([Z.land (Z.shiftr (lenz pkt) 8) 0xff; Z.land (lenz pkt) 0xff] ++ pkt).

(** The number of bytes taken, and the buffer. *)
Definition tcp_reasm_push (r : TcpReasm) (data : list Z) : Z * TcpReasm :=
  let space := TCP_FRAME_MAXBUF - lenz (rbytes r) in
  let n := if space <? lenz data then space else lenz data in
  (n, Reasm (rbytes r ++ take (Z.to_nat n) data)).

(** [NeedMore] and [Frame []] are both the C result 0, [TooBig] is -1. *)
Inductive popped : Type := NeedMore | Frame (pkt : list Z) | TooBig.

Definition tcp_reasm_next (r : TcpReasm) (outcap : Z) : popped * TcpReasm :=
  let b := rbytes r in
  if lenz b <? TCP_FRAME_LENPFX then (NeedMore, r)
  else
    let flen := Z.lor (Z.shiftl (getz b 0 0) 8) (getz b 1 0) in
    if outcap <? flen then (TooBig, r)
    else if lenz b <? TCP_FRAME_LENPFX + flen then (NeedMore, r)
    else
      let consumed := TCP_FRAME_LENPFX + flen in
      (Frame (take (Z.to_nat flen) (drop 2 b)), Reasm (drop (Z.to_nat consumed) b)).

(** The result as the C caller sees it. *)
Definition pop_code (p : popped) : Z :=
  match p with NeedMore => 0 | Frame pkt => lenz pkt | TooBig => -1 end.

(** The inner loop of the relay: pop every full frame. The packets handed to
    [process_packet], the buffer, and whether the connection is to be dropped. *)
Fixpoint pop_all (fuel : nat) (outcap : Z) (r : TcpReasm) : list (list Z) * TcpReasm * bool :=
  match fuel with
  | O => ([], r, false)
  | S k =>
      let '(p, r') := tcp_reasm_next r outcap in
      if pop_code p =? 0 then ([], r', false)
      else if pop_code p <? 0 then ([], r', true)
      else match p with
           | Frame pkt => let '(l, r'', dead) := pop_all k outcap r' in (pkt :: l, r'', dead)
           | _ => ([], r', true)
           end
  end.

(** One read of the drain loop; every frame takes bytes out of the buffer. *)
Definition drain_read (outcap : Z) (r : TcpReasm) (rd : list Z) : list (list Z) * TcpReasm * bool :=
  let '(took, r) := tcp_reasm_push r rd in
  if took <? lenz rd then ([], r, true) else pop_all (S (length (rbytes r))) outcap r.

(** The reads of a connection one after the other, until it is dropped. *)
Fixpoint drain (outcap : Z) (r : TcpReasm) (reads : list (list Z)) : list (list Z) * TcpReasm * bool :=
  match reads with
  | [] => ([], r, false)
  | rd :: reads' =>
      let '(l, r, dead) := drain_read outcap r rd in
      if dead then (l, r, true)
      else let '(l', r, dead) := drain outcap r reads' in (l ++ l', r, dead)
  end.

(** ** Frames *)

(** The stream of a list of packets. *)
Definition wire (pkts : list (list Z)) : list Z :=
  concat (map (fun p => match tcp_frame_encode p with Some f => f | None => [] end) pkts).

(** A packet that can be sent: bytes, not empty, within [cap]. *)
Definition sendable (cap : Z) (p : list Z) : Prop := Forall is_u8 p /\ 0 < lenz p <= cap.

#[global] Instance sendable_dec cap p : Decision (sendable cap p).
Proof. unfold sendable. apply _. Defined.

Section Frames.
Context (cap : Z) (Hcap : 0 < cap <= 1416).

Definition head2 (p : list Z) : list Z := [Z.land (Z.shiftr (lenz p) 8) 0xff; Z.land (lenz p) 0xff].

Lemma wire_cons p pkts : sendable cap p -> wire (p :: pkts) = head2 p ++ p ++ wire pkts.
Proof.
  intros [_ Hp]. unfold wire. simpl. unfold tcp_frame_encode.
  destruct (Z.ltb_spec 0xffff (lenz p)); [lia|]. by rewrite <- app_assoc.
Qed.

Lemma head2_len (p : list Z) : 0 <= lenz p <= 0xffff ->
  Z.lor (Z.shiftl (Z.land (Z.shiftr (lenz p) 8) 0xff) 8) (Z.land (lenz p) 0xff) = lenz p.
Proof.
  intros Hp. apply Z.bits_inj'. intros i Hi.
  rewrite Z.lor_spec, Z.shiftl_spec, !Z.land_spec by lia. change 0xff with (Z.ones 8).
  destruct (Z.ltb_spec i 8).
  - rewrite (Z.testbit_neg_r (Z.shiftr _ _) (i - 8)), (Z.ones_spec_low 8 i) by lia. simpl. by rewrite andb_true_r.
  - rewrite Z.shiftr_spec by lia. replace (i - 8 + 8) with i by lia. rewrite (Z.ones_spec_high 8 i) by lia.
    rewrite andb_false_r, orb_false_r. destruct (Z.ltb_spec (i - 8) 8).
    + by rewrite Z.ones_spec_low, andb_true_r by lia.
    + rewrite Z.ones_spec_high, andb_false_r by lia. symmetry. apply Z.bits_above_log2; [lia|].
      eapply Z.le_lt_trans; [apply Z.log2_le_mono, (proj2 Hp)|]. change (Z.log2 65535) with 15. lia.
Qed.

(** A whole frame in front comes out. *)
Lemma next_frame p rest : sendable cap p ->
  tcp_reasm_next (Reasm (head2 p ++ p ++ rest)) cap = (Frame p, Reasm rest).
Proof.
  intros [_ Hp]. unfold tcp_reasm_next. cbn [rbytes].
  assert (Hl : lenz (head2 p ++ p ++ rest) = 2 + lenz p + lenz rest).
  { unfold lenz, head2. rewrite !length_app. simpl. lia. }
  rewrite Hl. pose proof (lenz_nonneg rest). unfold TCP_FRAME_LENPFX.
  change (getz (head2 p ++ p ++ rest) 0 0) with (Z.land (Z.shiftr (lenz p) 8) 0xff).
  change (getz (head2 p ++ p ++ rest) 1 0) with (Z.land (lenz p) 0xff).
  rewrite head2_len by lia.
  destruct (Z.ltb_spec (2 + lenz p + lenz rest) 2), (Z.ltb_spec cap (lenz p)),
    (Z.ltb_spec (2 + lenz p + lenz rest) (2 + lenz p)); try lia.
  change (drop 2 (head2 p ++ p ++ rest)) with (p ++ rest).
  replace (Z.to_nat (lenz p)) with (length p) by (unfold lenz; lia).
  replace (Z.to_nat (2 + lenz p)) with (2 + length p)%nat by (unfold lenz; lia).
  change (drop (2 + length p) (head2 p ++ p ++ rest)) with (drop (length p) (p ++ rest)).
  by rewrite take_app_length, drop_app_length.
Qed.

(** A frame that is not complete stays. *)
Lemma next_partial p b rest : sendable cap p ->
  b ++ rest = head2 p ++ p -> rest <> [] ->
  tcp_reasm_next (Reasm b) cap = (NeedMore, Reasm b).
Proof.
  intros [_ Hp] E Hr. unfold tcp_reasm_next, TCP_FRAME_LENPFX. cbn [rbytes].
  assert (Hl : lenz b < 2 + lenz p).
  { apply (f_equal length) in E. rewrite !length_app in E. unfold lenz. destruct rest; [done|].
    simpl in E. lia. }
  destruct (Z.ltb_spec (lenz b) 2); [done|].
  destruct b as [|x [|y b]]; try (unfold lenz in *; simpl in *; lia).
  injection E as -> -> _. change (getz (?x :: ?y :: b) 0 0) with x. change (getz (?x :: ?y :: b) 1 0) with y.
  rewrite head2_len by lia. destruct (Z.ltb_spec cap (lenz p)); [lia|].
  by destruct (Z.ltb_spec (lenz (Z.land (Z.shiftr (lenz p) 8) 255 :: Z.land (lenz p) 255 :: b)) (2 + lenz p)); [|lia].
Qed.

(** What the loop leaves in the buffer: a proper prefix of the next frame. *)
Definition waiting (r : TcpReasm) (rest : list Z) (pkts : list (list Z)) : Prop :=
  rbytes r ++ rest = wire pkts /\
  match pkts with [] => True | p :: _ => lenz (rbytes r) < 2 + lenz p end.

Lemma waiting_small r rest pkts : Forall (sendable cap) pkts -> waiting r rest pkts ->
  lenz (rbytes r) <= cap + 1.
Proof.
  intros HF [E Hw]. destruct pkts as [|p pkts]; [|inversion HF as [|? ? [_ Hp]]; lia].
  apply app_nil in E as [-> _]. unfold lenz. simpl. lia.
Qed.

(** Popping takes out the whole frames and waits for the rest of the next. *)
Lemma pop_all_spec fuel b rest pkts :
  Forall (sendable cap) pkts -> b ++ rest = wire pkts -> (length b < fuel)%nat ->
  exists done_ todo r, pkts = done_ ++ todo /\ pop_all fuel cap (Reasm b) = (done_, r, false) /\
    waiting r rest todo.
Proof.
  revert b pkts. induction fuel as [|fuel IH]; intros b pkts HF E Hf; [lia|]. cbn [pop_all].
  destruct HF as [|p pkts Hp HF].
  { apply app_nil in E as [-> ->]. exists [], [], (Reasm []). by split_and!. }
  rewrite wire_cons in E by done. destruct (Z.ltb_spec (lenz b) (2 + lenz p)) as [Hlt|Hge].
  - assert (Hr : exists rest', b ++ rest' = head2 p ++ p /\ rest' <> []).
    { exists (drop (length b) (head2 p ++ p)). split.
      - rewrite <- (take_app_length b rest) at 1. rewrite E, app_assoc.
        rewrite take_app_le by (rewrite length_app; unfold lenz in Hlt; simpl; lia).
        apply take_drop.
      - intros Hd. apply (f_equal length) in Hd. rewrite length_drop, length_app in Hd.
        unfold lenz in Hlt. simpl in Hd. lia. }
    destruct Hr as (rest' & Er & Hne). rewrite (next_partial p b rest' Hp Er Hne). simpl.
    exists [], (p :: pkts), (Reasm b). split_and!; [done|done|]. split; [by rewrite wire_cons|done].
  - assert (Hb : exists b', b = head2 p ++ p ++ b').
    { exists (drop (2 + length p) b). rewrite <- (take_drop (2 + length p) b) at 1.
      rewrite app_assoc. f_equal. rewrite <- (take_app_le b rest) by (unfold lenz in Hge; lia).
      rewrite E, app_assoc. apply take_app_length'. rewrite length_app. done. }
    destruct Hb as [b' ->]. rewrite next_frame by done. rewrite <- !app_assoc in E.
    apply app_inv_head in E. apply app_inv_head in E.
    destruct (IH b' pkts HF E) as (d & t & r & -> & Hpop & Hw).
    { rewrite !length_app in Hf. simpl in Hf. lia. }
    cbn [pop_code]. destruct Hp as [_ Hp].
    destruct (Z.eqb_spec (lenz p) 0), (Z.ltb_spec (lenz p) 0); try lia.
    rewrite Hpop. exists (p :: d), t, r. by split_and!.
Qed.

Lemma drain_spec reads r pkts :
  Forall (sendable cap) pkts -> waiting r (concat reads) pkts ->
  Forall (fun rd : list Z => lenz rd <= 2048) reads ->
  exists r', drain cap r reads = (pkts, r', false) /\ rbytes r' = [].
Proof.
  revert r pkts. induction reads as [|rd reads IH]; intros r pkts HF Hw Hrd; simpl.
  - destruct Hw as [E Hw]. rewrite app_nil_r in E. destruct pkts as [|p pkts]; [by exists r|].
    exfalso. inversion HF as [|? ? Hp]. rewrite E, wire_cons in Hw by done.
    unfold lenz in Hw. rewrite !length_app in Hw. simpl in Hw. lia.
  - inversion Hrd as [|? ? Hlen Hrd']; subst. pose proof (waiting_small _ _ _ HF Hw) as Hs.
    unfold drain_read, tcp_reasm_push, TCP_FRAME_MAXBUF.
    destruct (Z.ltb_spec (4096 - lenz (rbytes r)) (lenz rd)); [lia|]. rewrite Z.ltb_irrefl.
    rewrite take_ge by (unfold lenz; lia). destruct Hw as [E Hw]. simpl in E. rewrite app_assoc in E.
    destruct (pop_all_spec (S (length (rbytes r ++ rd))) (rbytes r ++ rd) (concat reads) pkts HF E) as (d & t & r1 & -> & Hpop & Hw1).
    { lia. }
    cbn [rbytes]. rewrite Hpop. apply Forall_app in HF as [_ HF]. destruct (IH r1 t HF Hw1 Hrd') as (r2 & -> & Hr2).
    exists r2. by split.
Qed.
End Frames.

(** C39: reassembly. However a stream of packets (each of 1 byte to [cap], at most
    the 1416 bytes of a relay packet) is cut into reads of at most 2048 bytes, the
    drain loop hands over exactly the packets that were sent, in order, never
    drops the connection, and ends with an empty buffer. *)
Theorem reassembly cap pkts reads (Hcap : 0 < cap <= 1416)
  (Hpkts : Forall (sendable cap) pkts) (Hstream : concat reads = wire pkts)
  (Hreads : Forall (fun rd : list Z => lenz rd <= 2048) reads) :
  exists r, drain cap tcp_reasm_init reads = (pkts, r, false) /\ rbytes r = [].
Proof.
  apply drain_spec; [done|done| |done]. split; [done|].
  destruct Hpkts as [|p pkts [_ Hp] _]; [done|]. unfold lenz in *. simpl in *. lia.
Qed.

(** Two packets, cut into single bytes. *)
Lemma reassembly_witness :
  exists r, drain 1416 tcp_reasm_init [[0]; [2]; [7]; [8; 0]; [1]; [9]] = ([[7; 8]; [9]], r, false) /\
    rbytes r = [].
Proof.
  apply (reassembly 1416 [[7; 8]; [9]] [[0]; [2]; [7]; [8; 0]; [1]; [9]]); [lia| |reflexivity|].
  - apply (bool_decide_unpack (Forall (sendable 1416) [[7; 8]; [9]])). vm_compute. exact I.
  - apply (bool_decide_unpack (Forall (fun rd : list Z => lenz rd <= 2048) [[0]; [2]; [7]; [8; 0]; [1]; [9]])).
    vm_compute. exact I.
Defined.

Lemma concat_singles {A} (l : list A) : concat (map (fun b => [b]) l) = l.
Proof. induction l as [|b l IH]; simpl; [done|]. by rewrite IH. Qed.

Lemma next_empty cap b : 0 <= cap -> tcp_reasm_next (Reasm (0 :: 0 :: b)) cap = (Frame [], Reasm b).
Proof.
  intros Hcap. unfold tcp_reasm_next, TCP_FRAME_LENPFX. cbn [rbytes].
  assert (2 <= lenz (0 :: 0 :: b)) by (unfold lenz; simpl; lia).
  change (Z.lor (Z.shiftl (getz (0 :: 0 :: b) 0 0) 8) (getz (0 :: 0 :: b) 1 0)) with 0.
  by destruct (Z.ltb_spec (lenz (0 :: 0 :: b)) 2), (Z.ltb_spec cap 0), (Z.ltb_spec (lenz (0 :: 0 :: b)) (2 + 0)); try lia.
Qed.

(** The header promises the same frames whether the stream is fed at once or
    byte by byte. An empty frame breaks that: its result 0 reads as "need more
    bytes", so the frames that follow it in the same read stay in the buffer,
    while byte by byte they are delivered. *)
Theorem empty_frame_stalls cap p (Hcap : 0 < cap <= 1416) (Hp : sendable cap p) :
  drain cap tcp_reasm_init [[0; 0] ++ wire [p]] = ([], Reasm (wire [p]), false) /\
  exists r, drain cap tcp_reasm_init (map (fun b => [b]) ([0; 0] ++ wire [p])) = ([p], r, false).
Proof.
  assert (HF : Forall (sendable cap) [p]) by (by constructor). split.
  - assert (Hl : lenz ([0; 0] ++ wire [p]) = 4 + lenz p).
    { rewrite (wire_cons cap) by done. unfold lenz. simpl. rewrite length_app. simpl. lia. }
    assert (E : drain_read cap tcp_reasm_init ([0; 0] ++ wire [p]) = ([], Reasm (wire [p]), false)).
    { unfold drain_read, tcp_reasm_push, TCP_FRAME_MAXBUF, tcp_reasm_init. cbn [rbytes]. rewrite Hl.
      change (lenz (@nil Z)) with 0. destruct Hp as [_ Hp].
      destruct (Z.ltb_spec (4096 - 0) (4 + lenz p)); [lia|]. rewrite Z.ltb_irrefl, app_nil_l.
      rewrite take_ge by (unfold lenz in *; lia). cbn [pop_all app].
      rewrite next_empty by lia. reflexivity. }
    cbn [drain]. by rewrite E.
  - destruct (drain_spec cap Hcap (map (fun b => [b]) (wire [p])) (Reasm []) [p] HF) as (r & Hr & _).
    + split; [apply concat_singles|]. destruct Hp as [_ Hp]. unfold lenz in *. simpl. lia.
    + apply Forall_map, Forall_true. intros b. unfold lenz. simpl. lia.
    + exists r. rewrite map_app. cbn [map app drain].
      assert (E1 : drain_read cap tcp_reasm_init [0] = ([], Reasm [0], false)) by reflexivity.
      assert (E2 : drain_read cap (Reasm [0]) [0] = ([], Reasm [], false)).
      { unfold drain_read. change (tcp_reasm_push (Reasm [0]) [0]) with (1, Reasm [0; 0]).
        change (1 <? lenz [0]) with false. cbn [rbytes length pop_all]. by rewrite next_empty by lia. }
      rewrite E1, E2, Hr. reflexivity.
Qed.

Lemma empty_frame_stalls_witness :
  drain 1416 tcp_reasm_init [[0; 0; 0; 1; 9]] = ([], Reasm [0; 1; 9], false).
Proof.
  apply (empty_frame_stalls 1416 [9]); [lia|].
  apply (bool_decide_unpack (sendable 1416 [9])). vm_compute. exact I.
Defined.
