(* ===== verification/Relay.v ===== *)
(** * The packet relay: src/relay/relay.c

    One process forwards packets between nodes that cannot reach each other. It
    keeps a table from node to peer address (or TCP stream), a window of nonces
    per node, a queue of delayed packets and the open connections. This file
    models the state and every handler up to [process_packet] and one turn of
    the main loop. The theorems are in RelayAuth.v and RelayRoute.v.

    The outside world is an argument: the clock, the kernel's answers to [send]
    (the list [os], everything accepted when it is used up) and what arrives.
    What leaves is appended to [out]. Messages on stderr are not modelled. *)

From S2P Require Import Prelude.
From S2P Require Import Sha256.
From S2P Require Import TcpFrame.

(** ** Constants *)
Definition RELAY_MAGIC : Z := 0x52454C59.
Definition RELAY_VERSION_V1 : Z := 1.
Definition RELAY_VERSION_V2 : Z := 2.
Definition RELAY_VERSION_V3 : Z := 3.
Definition RELAY_READS_V3_AT : Z := 10.
Definition RELAY_HEADER_LEN : Z := 12.
Definition RELAY_AUTH_LEN : Z := 24.
Definition HMAC_TRUNC_LEN : Z := 16.
Definition MAX_PAYLOAD : Z := 1380.
Definition MAX_PKT : Z := RELAY_HEADER_LEN + RELAY_AUTH_LEN + MAX_PAYLOAD.
Definition NODE_MAX : Z := 256.
Definition NODE_SLOTS : Z := 1024.
Definition KEY_LEN : Z := 32.
Definition REL_REGISTER : Z := 1.
Definition REL_DATA : Z := 2.
Definition REL_KEEPALIVE : Z := 3.
Definition REL_BROADCAST : Z := 4.
Definition DELAY_Q_MAX : Z := 1024.
Definition MAX_TCP_CONN : Z := 64.
Definition PROBE_MAGIC : list Z := [80; 82; 66; 49].
Definition REFL_MAGIC : list Z := [82; 69; 70; 49].
Definition PROBE_STAMP_LEN : Z := 16.
Definition REFL_STAMP_LEN : Z := 6.

(** ** Data *)

(** An IPv4 peer; address and port in network byte order. *)
Record addr : Type := Addr { sin_addr : list Z; sin_port : list Z }.

#[global] Instance addr_eq_dec : EqDecision addr.
Proof. solve_decision. Defined.

Record NodeEntry : Type := NodeEnt {
  naddr : addr; last_seen : Z; active : bool; leased : bool;
  via_tcp : bool; tcp_fd : Z; reads_v3 : bool }.

Record ReplayEntry : Type := Replay { max_nonce : Z; window_bits : Z; armed : bool }.

Record DelayedPkt : Type := Delayed { due_ms : Z; ddst : Z; used : bool; dbuf : list Z }.

(** [cfd] is -1 for a free slot. *)
Record TcpConn : Type := Conn { cfd : Z; peer : addr; reasm : TcpReasm }.

Record ParsedPkt : Type := Pkt {
  version : Z; type : Z; src : Z; dst : Z; p_reads_v3 : bool;
  nonce : Z; hmac_of : list Z; payload : list Z }.

(** What is fixed when the process starts. *)
Record config : Type := Config {
  insecure : bool; key : list Z; have_key : bool; idle_timeout : Z; probe_stamp : bool;
  delay_default_ms : Z; delay_far_ms : Z; is_far : Z -> bool }.

(** The clock as the handlers read it: seconds, monotonic milliseconds and
    microseconds. *)
Record clock : Type := Clock { sec : Z; ms : Z; us : Z }.

(** The kernel's answer to one [send] on a stream. *)
Inductive wres : Type := Wrote (n : Z) | Again (pollout : bool) | Intr | Gone.

Inductive output : Type :=
  | Udp (to : addr) (bytes : list Z)
  | Stream (fd : Z) (bytes : list Z)
  | Closed (fd : Z).

Record relay : Type := Relay {
  table : array NodeEntry; replay : array ReplayEntry;
  slot_id : array Z; slots_used : Z; grant_nonce : Z;
  dq : list DelayedPkt; conns : list TcpConn;
  os : list wres; out : list output }.

Definition set_table (s : relay) (n : Z) (e : NodeEntry) : relay :=
  Relay (upd (table s) n e) (replay s) (slot_id s) (slots_used s) (grant_nonce s) (dq s) (conns s) (os s) (out s).
Definition set_replay (s : relay) (n : Z) (e : ReplayEntry) : relay :=
  Relay (table s) (upd (replay s) n e) (slot_id s) (slots_used s) (grant_nonce s) (dq s) (conns s) (os s) (out s).
Definition set_dq (s : relay) (q : list DelayedPkt) : relay :=
  Relay (table s) (replay s) (slot_id s) (slots_used s) (grant_nonce s) q (conns s) (os s) (out s).
Definition set_conns (s : relay) (c : list TcpConn) : relay :=
  Relay (table s) (replay s) (slot_id s) (slots_used s) (grant_nonce s) (dq s) c (os s) (out s).
Definition set_io (s : relay) (o : list wres) (w : output) : relay :=
  Relay (table s) (replay s) (slot_id s) (slots_used s) (grant_nonce s) (dq s) (conns s) o (out s ++ [w]).

Definition no_addr : addr := Addr [0; 0; 0; 0] [0; 0].
Definition no_node : NodeEntry := NodeEnt no_addr 0 false false false 0 false.
Definition no_conn : TcpConn := Conn (-1) no_addr tcp_reasm_init.

(** The state when [main] enters its loop. *)
Definition relay0 (o : list wres) : relay :=
  Relay (fun _ => no_node) (fun _ => Replay 0 0 false) (fun _ => 0) NODE_MAX 1
    (replicate (Z.to_nat DELAY_Q_MAX) (Delayed 0 0 false []))
    (replicate (Z.to_nat MAX_TCP_CONN) no_conn) o [].

Definition set_active (e : NodeEntry) (b : bool) : NodeEntry :=
  NodeEnt (naddr e) (last_seen e) b (leased e) (via_tcp e) (tcp_fd e) (reads_v3 e).

(** ** Slots: the narrow ids are their own slot, a wide id gets one for good *)

Fixpoint find_slot (ids : array Z) (id s : Z) (n : nat) : option Z :=
  match n with
  | O => None
  | S k => if ids s =? id then Some s else find_slot ids id (s + 1) k
  end.

Definition slot_of (s : relay) (id : Z) (create : bool) : option Z * relay :=
  if id <? NODE_MAX then (Some id, s)
  else if 0xFFFE <? id then (None, s)
  else
    match find_slot (slot_id s) id NODE_MAX (Z.to_nat (slots_used s - NODE_MAX)) with
    | Some n => (Some n, s)
    | None =>
        if negb create then (None, s)
        else if slots_used s =? NODE_SLOTS then (None, s)
        else (Some (slots_used s),
              Relay (table s) (replay s) (upd (slot_id s) (slots_used s) id) (slots_used s + 1)
                (grant_nonce s) (dq s) (conns s) (os s) (out s))
    end.

(** ** The delay model *)

Definition delay_for (c : config) (d : Z) : Z :=
  let ms := if (1 <=? d) && (d <? NODE_MAX) && is_far c d
            then if 0 <=? delay_far_ms c then delay_far_ms c else delay_default_ms c
            else delay_default_ms c in
  if ms <? 0 then 0 else ms.

Definition delay_enabled (c : config) : bool :=
  if 0 <? delay_default_ms c then true
  else if 0 <? delay_far_ms c then existsb (is_far c) (seqZ 1 (NODE_MAX - 1)) else false.

(** ** Helpers *)

Definition hex_nibble (c : Z) : Z :=
  if (48 <=? c) && (c <=? 57) then c - 48
  else if (97 <=? c) && (c <=? 102) then c - 97 + 10
  else if (65 <=? c) && (c <=? 70) then c - 65 + 10
  else -1.

Fixpoint hex_pairs (hex : list Z) : option (list Z) :=
  match hex with
  | h :: l :: r =>
      if (hex_nibble h <? 0) || (hex_nibble l <? 0) then None
      else match hex_pairs r with
           | Some t => Some (Z.lor (Z.shiftl (hex_nibble h) 4) (hex_nibble l) :: t)
           | None => None
           end
  | _ => Some []
  end.

Definition hex_decode (hex : list Z) (out_len : Z) : option (list Z) :=
  if negb (lenz hex =? out_len * 2) then None else hex_pairs hex.

Fixpoint ct_diff (a b : list Z) (d : Z) : Z :=
  match a, b with
  | x :: a', y :: b' => ct_diff a' b' (Z.lor d (Z.lxor x y))
  | _, _ => d
  end.
Definition ct_eq (a b : list Z) : bool := ct_diff a b 0 =? 0.

(** ** Packets *)

Definition parse_packet (buf : list Z) : option ParsedPkt :=
  if lenz buf <? RELAY_HEADER_LEN then None
  else
    let magic := Z.lor (Z.lor (Z.lor (getz buf 0 0) (Z.shiftl (getz buf 1 0) 8))
                         (Z.shiftl (getz buf 2 0) 16)) (Z.shiftl (getz buf 3 0) 24) in
    if negb (magic =? RELAY_MAGIC) then None
    else
      let ver := getz buf 4 0 in
      let v3 := ver =? RELAY_VERSION_V3 in
      let s := if v3 then Z.lor (getz buf 6 0) (Z.shiftl (getz buf 8 0) 8) else getz buf 6 0 in
      let d := if v3 then Z.lor (getz buf 7 0) (Z.shiftl (getz buf 9 0) 8) else getz buf 7 0 in
      let reads := v3 || (RELAY_VERSION_V3 <=? getz buf RELAY_READS_V3_AT 0) in
      if ver =? RELAY_VERSION_V1
      then Some (Pkt ver (getz buf 5 0) s d reads 0 [] (drop 12 buf))
      else if (ver =? RELAY_VERSION_V2) || v3 then
        if lenz buf <? RELAY_HEADER_LEN + RELAY_AUTH_LEN then None
        else Some (Pkt ver (getz buf 5 0) s d reads (of_le (take 8 (drop 12 buf)))
                     (take 16 (drop 20 buf)) (drop 36 buf))
      else None.

Definition mac_preamble (p : ParsedPkt) : list Z :=
  [version p; type p; Z.land (src p) 0xff; Z.land (dst p) 0xff] ++ le 8 (nonce p) ++
  (if version p =? RELAY_VERSION_V3
   then [Z.land (Z.shiftr (src p) 8) 0xff; Z.land (Z.shiftr (dst p) 8) 0xff] else []).

Definition compute_mac (k : list Z) (p : ParsedPkt) : list Z :=
  let kb := k ++ replicate 32 0 in
  let ipad := map (fun b => Z.lxor b 0x36) kb in
  let opad := map (fun b => Z.lxor b 0x5c) kb in
  let c := sha256_init stack_ctx in
  let c := sha256_update c ipad in
  let c := sha256_update c (mac_preamble p) in
  let c := if 0 <? lenz (payload p) then sha256_update c (payload p) else c in
  let inner := sha256_final c in
  let c := sha256_init c in
  let c := sha256_update c opad in
  let c := sha256_update c inner in
  take 16 (sha256_final c).

Definition verify_mac (k : list Z) (p : ParsedPkt) : bool := ct_eq (compute_mac k p) (hmac_of p).

(** ** The nonce window *)

Definition nonce_step (r : ReplayEntry) (n : Z) : bool * ReplayEntry :=
  if negb (armed r) then (true, Replay n 1 true)
  else if max_nonce r <? n then
    let shift := n - max_nonce r in
    let w := if 64 <=? shift then 0 else u64 (Z.shiftl (window_bits r) shift) in
    (true, Replay n (Z.lor w 1) true)
  else
    let diff := max_nonce r - n in
    if 64 <=? diff then (false, r)
    else
      let bit := Z.shiftl 1 diff in
      if negb (Z.land (window_bits r) bit =? 0) then (false, r)
      else (true, Replay (max_nonce r) (Z.lor (window_bits r) bit) true).

Definition replay_check_and_update (s : relay) (slot n : Z) : bool * relay :=
  if (slot <? 1) || (NODE_SLOTS <=? slot) then (false, s)
  else
    let '(ok, r) := nonce_step (replay s slot) n in
    (ok, if ok then set_replay s slot r else s).

(** ** The table *)

(** [origin] is the accepted stream the packet came on, [-1] for UDP. *)
Definition update (s : relay) (now slot : Z) (from : addr) (origin : Z) (reads : bool) : relay :=
  if (slot <? 1) || (NODE_SLOTS <=? slot) then s
  else set_table s slot (NodeEnt from now true (leased (table s slot)) (0 <=? origin) origin reads).

Definition stale (c : config) (now : Z) (e : NodeEntry) : bool :=
  active e && (idle_timeout c <? now - last_seen e).

Definition evict_stale (c : config) (now : Z) (s : relay) : relay :=
  for_up (Z.to_nat (slots_used s - 1)) 1
    (fun n s => if stale c now (table s n) then set_table s n (set_active (table s n) false) else s) s.

(** ** Streams *)

(** The write loop: done or not, what the kernel took, the answers left. *)
Fixpoint write_loop (o : list wres) (rest sent : list Z) : bool * list Z * list wres :=
  match rest with
  | [] => (true, sent, o)
  | _ :: _ =>
      match o with
      | [] => (true, sent ++ rest, [])
      | Wrote n :: o' =>
          if 0 <? n then write_loop o' (drop (Z.to_nat n) rest) (sent ++ take (Z.to_nat n) rest)
          else (false, sent, o')
      | Again true :: o' => write_loop o' rest sent
      | Again false :: o' => (false, sent, o')
      | Intr :: o' => write_loop o' rest sent
      | Gone :: o' => (false, sent, o')
      end
  end.

Definition tcp_write_framed (s : relay) (fd : Z) (pkt : list Z) : bool * relay :=
  if MAX_PKT <? lenz pkt then (false, s)
  else
    match tcp_frame_encode pkt with
    | None => (false, s)
    | Some f =>
        let '(ok, sent, o) := write_loop (os s) f [] in
        (ok, set_io s o (Stream fd sent))
    end.

Definition sendto (s : relay) (to : addr) (bytes : list Z) : relay := set_io s (os s) (Udp to bytes).

(** ** Leases: a REGISTER from node 0 asks for an id *)

Definition holds_lease (e : NodeEntry) (from : addr) : bool :=
  active e && leased e && bool_decide (naddr e = from).

Definition lease_pick (s : relay) (from : addr) : Z :=
  match List.find (fun n => holds_lease (table s n) from) (seqZ 1 (NODE_MAX - 1)) with
  | Some n => n
  | None =>
      match List.find (fun n => negb (active (table s n))) (seqZ 1 (NODE_MAX - 1)) with
      | Some n => n
      | None => 0
      end
  end.

Definition grant_header (ver id : Z) : list Z :=
  [Z.land RELAY_MAGIC 0xff; Z.land (Z.shiftr RELAY_MAGIC 8) 0xff;
   Z.land (Z.shiftr RELAY_MAGIC 16) 0xff; Z.land (Z.shiftr RELAY_MAGIC 24) 0xff;
   Z.land ver 0xff; REL_REGISTER; 0; Z.land id 0xff; 0; 0; 0; 0].

Definition bump_grant (s : relay) : relay :=
  Relay (table s) (replay s) (slot_id s) (slots_used s) (u64 (grant_nonce s + 1)) (dq s) (conns s) (os s) (out s).

Definition send_lease_grant (c : config) (s : relay) (to : addr) (ver id origin : Z) : relay :=
  let '(bytes, s) :=
    if ver =? RELAY_VERSION_V2 then
      let n := grant_nonce s in
      let gp := Pkt ver REL_REGISTER 0 id false n [] [] in
      (grant_header ver id ++ le 8 n ++ compute_mac (key c) gp, bump_grant s)
    else (grant_header ver id, s) in
  if 0 <=? origin then snd (tcp_write_framed s origin bytes) else sendto s to bytes.

Definition handle_lease (c : config) (s : relay) (now : Z) (from : addr) (ver origin : Z) (reads : bool) : relay :=
  let id := lease_pick s from in
  if id =? 0 then send_lease_grant c s from ver 0 origin
  else
    let s := set_table s id (NodeEnt from now true true (0 <=? origin) origin reads) in
    send_lease_grant c s from ver id origin.

(** ** Forwarding *)

Definition deliver_now (c : config) (s : relay) (d : Z) (buf : list Z) (now : Z) : relay :=
  if (d <? 1) || (NODE_SLOTS <=? d) then s
  else
    let e := table s d in
    if negb (active e) then s
    else if (getz buf 4 0 =? RELAY_VERSION_V3) && negb (reads_v3 e) then s
    else if idle_timeout c <? now - last_seen e then set_table s d (set_active e false)
    else if via_tcp e then
      let '(ok, s) := tcp_write_framed s (tcp_fd e) buf in
      if ok then s else set_table s d (set_active e false)
    else sendto s (naddr e) buf.

Fixpoint free_entry (q : list DelayedPkt) (i : nat) : option nat :=
  match q with
  | [] => None
  | e :: q' => if used e then free_entry q' (S i) else Some i
  end.

Definition enqueue_delayed (s : relay) (d : Z) (buf : list Z) (due : Z) : bool * relay :=
  match free_entry (dq s) 0 with
  | Some i => (true, set_dq s (<[i := Delayed due d true buf]> (dq s)))
  | None => (false, s)
  end.

Definition no_pkt : DelayedPkt := Delayed 0 0 false [].

Definition flush_one (c : config) (t : clock) (i : Z) (s : relay) : relay :=
  let e := getz (dq s) i no_pkt in
  if used e && (due_ms e <=? ms t) then
    let s := deliver_now c s (ddst e) (dbuf e) (sec t) in
    set_dq s (setz (dq s) i (Delayed (due_ms e) (ddst e) false (dbuf e)))
  else s.

Definition flush_due (c : config) (t : clock) (s : relay) : relay :=
  for_up (Z.to_nat DELAY_Q_MAX) 0 (flush_one c t) s.

(** The earliest due time, [None] for an empty queue. *)
Definition next_due_ms (s : relay) : option Z :=
  fold_left (fun best e =>
    if used e then match best with
                   | Some b => if due_ms e <? b then Some (due_ms e) else best
                   | None => Some (due_ms e)
                   end
    else best) (dq s) None.

Definition forward (c : config) (t : clock) (s : relay) (d : Z) (buf : list Z) (now : Z) : relay :=
  let delay := delay_for c d in
  if delay <=? 0 then deliver_now c s d buf now
  else if (d <? 1) || (NODE_SLOTS <=? d) || negb (active (table s d)) then deliver_now c s d buf now
  else
    let '(queued, s') := enqueue_delayed s d buf (u64 (ms t + delay)) in
    if queued then s' else deliver_now c s d buf now.

(** ** The packet handler *)

(** The gates before the switch: version, MAC, slot, nonce window. The slot of
    the sender, or [None] for a packet that is dropped. *)
Definition gate (c : config) (s : relay) (p : ParsedPkt) : option Z * relay :=
  let v1 := version p =? RELAY_VERSION_V1 in
  if v1 && negb (insecure c) then (None, s)
  else if negb v1 && negb (have_key c) then (None, s)
  else if v1 then (Some (src p), s)
  else if negb (verify_mac (key c) p) then (None, s)
  else if (version p =? RELAY_VERSION_V3) && (src p =? 0) then (None, s)
  else
    match slot_of s (src p) true with
    | (None, s) => (None, s)
    | (Some slot, s) =>
        if negb ((type p =? REL_REGISTER) && (src p =? 0)) then
          let '(fresh, s) := replay_check_and_update s slot (nonce p) in
          if fresh then (Some slot, s) else (None, s)
        else (Some slot, s)
    end.

Definition starts_with (m l : list Z) : bool := bool_decide (take (length m) l = m).

(** The echo of a keepalive, with the stamps its payload asks for. *)
Definition echo (c : config) (t : clock) (from : addr) (p : ParsedPkt) (buf : list Z) (rx_us : Z) : list Z :=
  let is_probe := probe_stamp c && starts_with PROBE_MAGIC (payload p) in
  let buf := if is_probe && (lenz buf + PROBE_STAMP_LEN <=? MAX_PKT)
             then buf ++ le 8 rx_us ++ le 8 (us t) else buf in
  let is_refl := starts_with REFL_MAGIC (payload p) in
  if is_refl && (lenz buf + REFL_STAMP_LEN <=? MAX_PKT)
  then buf ++ sin_addr from ++ sin_port from else buf.

Definition broadcast (c : config) (t : clock) (s : relay) (slot : Z) (buf : list Z) : relay :=
  for_up (Z.to_nat (slots_used s - 1)) 1
    (fun n s => if n =? slot then s
                else if negb (active (table s n)) then s
                else forward c t s n buf (sec t)) s.

Definition dispatch (c : config) (t : clock) (s : relay) (origin : Z) (from : addr)
    (p : ParsedPkt) (slot : Z) (buf : list Z) (rx_us : Z) : relay :=
  let now := sec t in
  if type p =? REL_REGISTER then
    if src p =? 0 then handle_lease c s now from (version p) origin (p_reads_v3 p)
    else update s now slot from origin (p_reads_v3 p)
  else if type p =? REL_KEEPALIVE then
    let s := update s now slot from origin (p_reads_v3 p) in
    if 0 <=? origin then snd (tcp_write_framed s origin buf)
    else sendto s from (echo c t from p buf rx_us)
  else if type p =? REL_DATA then
    let s := update s now slot from origin (p_reads_v3 p) in
    match slot_of s (dst p) false with
    | (Some d, s) => forward c t s d buf now
    | (None, s) => forward c t s (-1) buf now
    end
  else if type p =? REL_BROADCAST then
    broadcast c t (update s now slot from origin (p_reads_v3 p)) slot buf
  else s.

Definition process_packet (c : config) (t : clock) (s : relay) (origin : Z) (from : addr)
    (buf : list Z) (rx_us : Z) : relay :=
  match parse_packet buf with
  | None => s
  | Some p =>
      match gate c s p with
      | (None, s) => s
      | (Some slot, s) => dispatch c t (evict_stale c (sec t) s) origin from p slot buf rx_us
      end
  end.

(** ** Connections and one turn of the main loop *)

Definition drop_routes (s : relay) (fd : Z) : relay :=
  for_up (Z.to_nat (slots_used s - 1)) 1
    (fun n s => if active (table s n) && via_tcp (table s n) && (tcp_fd (table s n) =? fd)
                then set_table s n (set_active (table s n) false) else s) s.

Definition tcp_conn_close (s : relay) (slot : Z) : relay :=
  let cn := getz (conns s) slot no_conn in
  if cfd cn <? 0 then s
  else
    let s := drop_routes s (cfd cn) in
    let s := set_io s (os s) (Closed (cfd cn)) in
    set_conns s (setz (conns s) slot (Conn (-1) (peer cn) (reasm cn))).

Fixpoint free_conn (cs : list TcpConn) (i : Z) : option Z :=
  match cs with
  | [] => None
  | cn :: cs' => if cfd cn <? 0 then Some i else free_conn cs' (i + 1)
  end.

Definition tcp_accept (s : relay) (fd : Z) (from : addr) : relay :=
  match free_conn (conns s) 0 with
  | None => set_io s (os s) (Closed fd)
  | Some slot => set_conns s (setz (conns s) slot (Conn fd from tcp_reasm_init))
  end.

(** One [recv] of the drain loop: the frames it completes go to the handler. *)
Definition tcp_read (c : config) (t : clock) (s : relay) (slot : Z) (rd : list Z) : relay :=
  let cn := getz (conns s) slot no_conn in
  let '(frames, r, dead) := drain_read MAX_PKT (reasm cn) rd in
  let s := set_conns s (setz (conns s) slot (Conn (cfd cn) (peer cn) r)) in
  let s := fold_left (fun s f => process_packet c t s (cfd cn) (peer cn) f 0) frames s in
  if dead then tcp_conn_close s slot else s.

(** What a turn of the loop can find; every turn flushes the queue first. *)
Inductive event : Type :=
  | Tick
  | Datagram (from : addr) (bytes : list Z) (rx_us : Z)
  | Accept (fd : Z) (from : addr)
  | Read (slot : Z) (rd : list Z)
  | Hangup (slot : Z).

Definition loop_step (c : config) (t : clock) (s : relay) (e : event) : relay :=
  let s := flush_due c t s in
  match e with
  | Tick => s
  | Datagram from b rx => process_packet c t s (-1) from (take (Z.to_nat MAX_PKT) b) rx
  | Accept fd from => tcp_accept s fd from
  | Read slot rd => if cfd (getz (conns s) slot no_conn) <? 0 then s else tcp_read c t s slot rd
  | Hangup slot => tcp_conn_close s slot
  end.
