(* ===== verification/RelayAuth.v ===== *)
(** * The relay's authentication and its nonce window

    The MAC of a packet is the truncated HMAC of an encoding that determines
    every field it covers; the 64-bit window is the set of accepted nonces, as
    far as it reaches; and with a key loaded nothing unauthenticated, and
    nothing twice, gets past [process_packet]. *)

From stdpp Require Import list sets.
From S2P Require Import Prelude.
#[local] Open Scope Z_scope.
From S2P Require Import Sha256.
From S2P Require Import TcpFrame.
From S2P Require Import Relay.

(** ** The MAC *)

Lemma lor_zero a b : Z.lor a b = 0 <-> a = 0 /\ b = 0.
Proof. apply Z.lor_eq_0_iff. Qed.

Lemma ct_diff_zero a b d : length a = length b -> ct_diff a b d = 0 <-> d = 0 /\ a = b.
Proof.
  revert b d. induction a as [|x a IH]; intros [|y b] d Hl; try done; simpl; [naive_solver|].
  injection Hl as Hl. rewrite IH, lor_zero, Z.lxor_eq_0_iff by done. naive_solver.
Qed.

Lemma ct_eq_spec a b : length a = length b -> ct_eq a b = bool_decide (a = b).
Proof.
  intros Hl. unfold ct_eq. apply eq_true_iff_eq.
  rewrite Z.eqb_eq, bool_decide_eq_true, ct_diff_zero by done. naive_solver.
Qed.

(** What the MAC is computed over. *)
Definition mac_input (p : ParsedPkt) : list Z := mac_preamble p ++ payload p.

Lemma compute_mac_hmac k p :
  length k = 32%nat -> compute_mac k p = take 16 (Spec.hmac k (mac_input p)).
Proof.
  intros Hk. unfold compute_mac.
  assert (Hb : k ++ replicate 32 0 = Spec.block_key k).
  { unfold Spec.block_key, lenz. rewrite Hk. change (64 <? Z.of_nat 32) with false. cbn iota zeta. by rewrite Hk. }
  rewrite Hb. unfold Spec.hmac. set (ipad := map (fun b => Z.lxor b 0x36) (Spec.block_key k)).
  set (opad := map (fun b => Z.lxor b 0x5c) (Spec.block_key k)).
  set (c := sha256_update (sha256_update (sha256_init stack_ctx) ipad) (mac_preamble p)).
  assert (Hc : rep c (ipad ++ mac_preamble p)) by (apply update_rep, (update_rep _ []), init_rep; done).
  assert (Hs : rep (if 0 <? lenz (payload p) then sha256_update c (payload p) else c) (ipad ++ mac_input p)).
  { unfold mac_input. rewrite app_assoc. destruct (Z.ltb_spec 0 (lenz (payload p))); [by apply update_rep|].
    destruct (payload p); [by rewrite app_nil_r|]. unfold lenz in *. simpl in *. lia. }
  f_equal. rewrite (final_rep _ _ Hs). apply final_rep, update_rep, (update_rep _ []), init_rep.
  apply (rep_buf _ _ Hs).
Qed.

Lemma compute_mac_length k p : length k = 32%nat -> length (compute_mac k p) = 16%nat.
Proof. intros Hk. rewrite compute_mac_hmac, length_take by done. unfold Spec.hmac. by rewrite hash_length. Qed.

(** The fields of a parsed packet fit the bytes they came from. *)
Record pkt_ok (p : ParsedPkt) : Prop := {
  pk_version : version p = RELAY_VERSION_V2 \/ version p = RELAY_VERSION_V3;
  pk_ids : if version p =? RELAY_VERSION_V3 then 0 <= src p < 2 ^ 16 /\ 0 <= dst p < 2 ^ 16
           else 0 <= src p < 2 ^ 8 /\ 0 <= dst p < 2 ^ 8;
  pk_nonce : 0 <= nonce p < 2 ^ 64;
  pk_mac : length (hmac_of p) = 16%nat }.

Lemma lor_shift8 a b : is_u8 a -> is_u8 b -> Z.lor a (Z.shiftl b 8) = a + b * 256.
Proof.
  intros Ha Hb. unfold is_u8 in *. rewrite <- Z.shiftl_mul_pow2 with (n := 8) by lia.
  symmetry. apply Z.add_nocarry_lor. apply Z.bits_inj'. intros i Hi.
  rewrite Z.land_spec, Z.bits_0, Z.shiftl_spec by lia. destruct (Z.ltb_spec i 8).
  - rewrite (Z.testbit_neg_r b (i - 8)) by lia. apply andb_false_r.
  - destruct (Z.eq_dec a 0) as [->|]; [by rewrite Z.testbit_0_l|].
    rewrite (Z.bits_above_log2 a i); [done|lia|]. apply Z.log2_lt_pow2; [lia|].
    eapply Z.lt_le_trans; [apply Ha|]. apply Z.pow_le_mono_r; lia.
Qed.

Lemma getz_byte (l : list Z) i : Forall is_u8 l -> is_u8 (getz l i 0).
Proof. intros HF. apply getz_Forall; [done|]. unfold is_u8. lia. Qed.
#[local] Hint Resolve getz_byte : machine.

(** What [parse_packet] returns for an authenticated version. *)
Lemma parse_ok buf p : Forall is_u8 buf -> parse_packet buf = Some p -> version p <> RELAY_VERSION_V1 -> pkt_ok p.
Proof.
  intros HF. unfold parse_packet. destruct (lenz buf <? RELAY_HEADER_LEN) eqn:El; [done|].
  dif Em; [done|]. dif Ev1.
  { intros [= <-] Hv. exfalso. apply Hv. by apply Z.eqb_eq. }
  destruct (getz buf 4 0 =? RELAY_VERSION_V3) eqn:E3; [|destruct (getz buf 4 0 =? RELAY_VERSION_V2) eqn:E2];
    cbn [orb]; rewrite ?orb_true_r; [| |by intros [=]]; (dif Ea; [done|]); intros [= <-] _; bools.
  all: assert (Hl : (36 <= length buf)%nat) by (unfold lenz, RELAY_HEADER_LEN, RELAY_AUTH_LEN in *; lia).
  all: assert (Hn : 0 <= of_le (take 8 (drop 12 buf)) < 2 ^ 64).
  1,3: (assert (H8 : lenz (take 8 (drop 12 buf)) = 8) by (unfold lenz; rewrite length_take, length_drop; lia);
    change (2 ^ 64) with (2 ^ (8 * 8)); rewrite <- H8 at 2; apply of_le_range, Forall_take, Forall_drop, HF).
  all: assert (Hm : length (take 16 (drop 20 buf)) = 16%nat) by (rewrite length_take, length_drop; lia).
  all: split; cbn [version src dst nonce hmac_of]; auto.
  - rewrite E3, Z.eqb_refl, !lor_shift8 by auto with machine.
    pose proof (getz_byte buf 6 HF); pose proof (getz_byte buf 7 HF);
      pose proof (getz_byte buf 8 HF); pose proof (getz_byte buf 9 HF). unfold is_u8 in *. lia.
  - rewrite E2. pose proof (getz_byte buf 6 HF); pose proof (getz_byte buf 7 HF). unfold is_u8 in *. simpl. lia.
Qed.

Lemma land_ff x : Z.land x 0xff = x mod 256.
Proof. change 0xff with (Z.ones 8). by rewrite Z.land_ones by lia. Qed.

(** The MAC input determines the fields it covers. *)
Lemma mac_input_inj p q :
  pkt_ok p -> pkt_ok q -> mac_input p = mac_input q ->
  version p = version q /\ type p = type q /\ src p = src q /\ dst p = dst q /\ nonce p = nonce q /\ payload p = payload q.
Proof.
  intros [_ Hip Hnp _] [_ Hiq Hnq _] E. unfold mac_input, mac_preamble in E.
  rewrite <- !app_assoc in E. cbn [app] in E.
  remember (le 8 (nonce p)) as np eqn:Enp. remember (le 8 (nonce q)) as nq eqn:Enq.
  injection E as Ev Et Es Ed E. apply app_inj_1 in E as [En E]; [|by subst; rewrite !le_length].
  rewrite Enp, Enq in En.
  apply (f_equal of_le) in En. rewrite !of_le_le, !Z.mod_small in En by (simpl; lia).
  rewrite Ev in *. rewrite !land_ff in Es, Ed. destruct (version q =? RELAY_VERSION_V3).
  - cbn [app] in E. injection E as Es' Ed' Ep. rewrite !land_ff, !Z.shiftr_div_pow2 in Es', Ed' by lia.
    split_and!; try done; Z.to_euclidean_division_equations; lia.
  - split_and!; try done; Z.to_euclidean_division_equations; lia.
Qed.

(** What a valid MAC vouches for. The relay accepts a packet of version 2 or 3
    exactly if it carries the first 16 bytes of the RFC 2104 HMAC, under the
    shared key, of a string from which version, type, source, destination,
    nonce and payload can all be read back. *)
Theorem mac_binds k buf p (Hk : length k = 32%nat) (Hbuf : Forall is_u8 buf)
  (Hp : parse_packet buf = Some p) (Hv : version p <> RELAY_VERSION_V1) :
  (verify_mac k p = true <-> hmac_of p = take 16 (Spec.hmac k (mac_input p))) /\
  forall buf' q, Forall is_u8 buf' -> parse_packet buf' = Some q -> version q <> RELAY_VERSION_V1 ->
    mac_input q = mac_input p ->
    version q = version p /\ type q = type p /\ src q = src p /\ dst q = dst p /\ nonce q = nonce p /\ payload q = payload p.
Proof.
  pose proof (parse_ok buf p Hbuf Hp Hv) as Hok. split.
  - unfold verify_mac. rewrite ct_eq_spec by (rewrite compute_mac_length by done; symmetry; apply (pk_mac p Hok)).
    rewrite bool_decide_eq_true, compute_mac_hmac by done. split; congruence.
  - intros buf' q Hb' Hq Hvq E. apply mac_input_inj; [by apply (parse_ok buf')|done|done].
Qed.

(** A DATA packet from node 1 to node 2 under the key 7, 7, ... *)
Definition demo_key : list Z := replicate 32 7.
Definition demo_pkt (ver typ s d n : Z) (pay : list Z) : list Z :=
  let p := Pkt ver typ s d false n [] pay in
  [0x59; 0x4C; 0x45; 0x52; ver; typ; Z.land s 0xff; Z.land d 0xff; Z.shiftr s 8; Z.shiftr d 8; 0; 0] ++
  le 8 n ++ compute_mac demo_key p ++ pay.

Lemma mac_binds_witness :
  exists p, parse_packet (demo_pkt 2 2 1 2 9 [65]) = Some p /\
    hmac_of p = take 16 (Spec.hmac demo_key (mac_input p)).
Proof.
  destruct (parse_packet (demo_pkt 2 2 1 2 9 [65])) as [p|] eqn:E; [|vm_compute in E; discriminate].
  exists p. split; [reflexivity|].
  apply (mac_binds demo_key (demo_pkt 2 2 1 2 9 [65]) p); [reflexivity| |exact E| |];
    vm_compute in E; injection E as <-.
  - apply (bool_decide_unpack (Forall is_u8 (demo_pkt 2 2 1 2 9 [65]))). vm_compute. exact I.
  - vm_compute. discriminate.
  - vm_compute. reflexivity.
Defined.

(** ** The nonce window *)

(** The specification: a nonce is good if it is new and not 64 or more behind. *)
Definition accepts (seen : list Z) (n : Z) : Prop := (n ∉ seen) /\ Forall (fun m => m < n + 64) seen.

#[global] Instance accepts_dec seen n : Decision (accepts seen n).
Proof. unfold accepts. apply _. Defined.

Fixpoint spec_run (seen : list Z) (ns : list Z) : list Z :=
  match ns with
  | [] => seen
  | n :: ns' => spec_run (if decide (accepts seen n) then n :: seen else seen) ns'
  end.

(** The nonces the window accepts, newest first. *)
Fixpoint nonce_run (r : ReplayEntry) (seen : list Z) (ns : list Z) : list Z :=
  match ns with
  | [] => seen
  | n :: ns' => let '(ok, r') := nonce_step r n in nonce_run r' (if ok then n :: seen else seen) ns'
  end.

Definition window (r : ReplayEntry) (seen : list Z) : Prop :=
  if armed r then
    max_nonce r ∈ seen /\ (forall m, m ∈ seen -> m <= max_nonce r) /\
    forall i, 0 <= i < 64 -> Z.testbit (window_bits r) i = bool_decide (max_nonce r - i ∈ seen)
  else seen = [].

Lemma land_bit w i : 0 <= i -> (Z.land w (Z.shiftl 1 i) =? 0) = negb (Z.testbit w i).
Proof.
  intros Hi. rewrite Z.shiftl_1_l. apply eq_true_iff_eq. rewrite Z.eqb_eq, negb_true_iff. split.
  - intros E. apply (f_equal (fun x => Z.testbit x i)) in E.
    by rewrite Z.land_spec, Z.pow2_bits_true, Z.bits_0, andb_true_r in E.
  - intros E. apply Z.bits_inj'. intros j Hj. rewrite Z.land_spec, Z.bits_0, Z.pow2_bits_eqb by lia.
    destruct (Z.eqb_spec i j) as [<-|]; [by rewrite E|]. apply andb_false_r.
Qed.

Lemma testbit_one i : Z.testbit 1 i = (i =? 0).
Proof.
  destruct (Z.ltb_spec i 0); [rewrite Z.testbit_neg_r by lia; destruct (Z.eqb_spec i 0); lia || done|].
  change 1 with (2 ^ 0). rewrite Z.pow2_bits_eqb by lia. apply Z.eqb_sym.
Qed.

(** The bits after the window moved up by [k]. *)
Lemma shifted_bits w k i : 0 < k -> 0 <= i < 64 ->
  Z.testbit (Z.lor (if 64 <=? k then 0 else u64 (Z.shiftl w k)) 1) i =
  (i =? 0) || ((k <=? i) && Z.testbit w (i - k)).
Proof.
  intros Hk Hi. rewrite Z.lor_spec, testbit_one, orb_comm. f_equal. destruct (Z.leb_spec 64 k).
  - rewrite Z.bits_0. by destruct (Z.leb_spec k i); [lia|].
  - unfold u64. rewrite Z.mod_pow2_bits_low, Z.shiftl_spec by lia.
    destruct (Z.leb_spec k i); [done|]. by rewrite Z.testbit_neg_r by lia.
Qed.

Lemma bool_decide_iff (P Q : Prop) `{!Decision P} `{!Decision Q} : (P <-> Q) -> bool_decide P = bool_decide Q.
Proof. intros E. by apply bool_decide_ext. Qed.

Lemma nonce_step_window r seen n :
  window r seen ->
  fst (nonce_step r n) = bool_decide (accepts seen n) /\
  window (snd (nonce_step r n)) (if decide (accepts seen n) then n :: seen else seen).
Proof.
  unfold window, nonce_step. destruct (armed r) eqn:Ea; cbn [negb].
  2: { intros ->. rewrite decide_True, bool_decide_true by (split; [apply not_elem_of_nil|constructor]).
       cbn [fst snd armed max_nonce window_bits]. split; [done|]. split_and!; [set_solver|set_solver by lia|].
       intros i Hi. rewrite testbit_one. destruct (Z.eqb_spec i 0) as [->|].
       - rewrite bool_decide_true; [done|]. rewrite Z.sub_0_r. set_solver.
       - rewrite bool_decide_false; [done|]. rewrite list_elem_of_singleton. lia. }
  intros (Hm & Hle & Hw). set (m := max_nonce r) in *. set (w := window_bits r) in *.
  destruct (Z.ltb_spec m n) as [Hlt|Hge].
  { assert (Hac : accepts seen n).
    { split; [intros Hin; specialize (Hle n Hin); lia|]. apply Forall_elem. intros x Hx. specialize (Hle x Hx). lia. }
    rewrite decide_True, bool_decide_true by done. cbn [fst snd armed max_nonce window_bits]. split; [done|].
    split_and!; [set_solver|intros x [->|Hx]%elem_of_cons; [lia|specialize (Hle x Hx); lia]|].
    intros i Hi. rewrite shifted_bits by lia. destruct (Z.eqb_spec i 0) as [->|]; cbn [orb].
    - rewrite bool_decide_true; [done|]. rewrite Z.sub_0_r. set_solver.
    - destruct (Z.leb_spec (n - m) i); cbn [andb].
      + rewrite Hw by lia. apply bool_decide_iff. replace (m - (i - (n - m))) with (n - i) by lia.
        rewrite elem_of_cons. split; [by right|]. intros [|]; [lia|done].
      + rewrite bool_decide_false; [done|]. rewrite elem_of_cons. intros [?|Hin]; [lia|].
        specialize (Hle _ Hin). lia. }
  destruct (Z.leb_spec 64 (m - n)) as [Hold|Hnew].
  { assert (Hac : ~ accepts seen n).
    { intros [_ HF]. rewrite Forall_elem in HF. specialize (HF m Hm). simpl in HF. lia. }
    rewrite decide_False, bool_decide_false by done. cbn [fst snd]. rewrite Ea. by split_and!. }
  rewrite land_bit, negb_involutive by lia. rewrite Hw by lia. replace (m - (m - n)) with n by lia.
  case_bool_decide as Hin.
  { assert (Hac : ~ accepts seen n) by (by intros [? _]).
    rewrite decide_False, bool_decide_false by done. cbn [fst snd]. rewrite Ea. by split_and!. }
  assert (Hac : accepts seen n).
  { split; [done|]. apply Forall_elem. intros x Hx. specialize (Hle x Hx). lia. }
  rewrite decide_True, bool_decide_true by done. cbn [fst snd armed max_nonce window_bits]. split; [done|].
  split_and!; [set_solver|intros x [->|Hx]%elem_of_cons; [lia|auto]|].
  intros i Hi. rewrite Z.lor_spec, Z.shiftl_1_l, Z.pow2_bits_eqb, Hw by lia.
  destruct (Z.eqb_spec (m - n) i) as [<-|Hne]; [rewrite orb_true_r, bool_decide_true; [done|]|].
  - replace (m - (m - n)) with n by lia. set_solver.
  - rewrite orb_false_r. apply bool_decide_iff. rewrite elem_of_cons. split; [by right|]. intros [|]; [lia|done].
Qed.

Lemma nonce_run_spec r seen ns : window r seen -> nonce_run r seen ns = spec_run seen ns.
Proof.
  revert r seen. induction ns as [|n ns IH]; intros r seen Hw; [done|]. cbn [nonce_run spec_run].
  destruct (nonce_step_window r seen n Hw) as [Hok Hw'].
  destruct (nonce_step r n) as [ok r'] eqn:E. cbn [fst snd] in *. subst ok.
  case_decide as Hd; [rewrite bool_decide_true by done|rewrite bool_decide_false by done]; by apply IH.
Qed.

Lemma spec_run_nodup seen ns : NoDup seen -> NoDup (spec_run seen ns).
Proof.
  revert seen. induction ns as [|n ns IH]; intros seen Hs; [done|]. cbn [spec_run]. apply IH.
  case_decide as Hd; [|done]. apply NoDup_cons_2; by destruct Hd.
Qed.

(** C33: the 64-bit window implements the set of accepted nonces: from the first
    packet of a node on, it takes exactly the nonces that were not taken before
    and are less than 64 behind the highest, so none is taken twice. *)
Theorem nonce_window_refines r ns (Hr : armed r = false) :
  nonce_run r [] ns = spec_run [] ns /\ NoDup (nonce_run r [] ns).
Proof.
  assert (E : nonce_run r [] ns = spec_run [] ns) by (apply nonce_run_spec; unfold window; by rewrite Hr).
  split; [exact E|]. rewrite E. apply spec_run_nodup, NoDup_nil_2.
Qed.

Lemma nonce_window_refines_witness :
  nonce_run (Replay 0 0 false) [] [100; 100; 99; 36; 37; 200; 99; 2 ^ 64 - 1; 200] =
    [2 ^ 64 - 1; 200; 37; 99; 100].
Proof.
  rewrite (proj1 (nonce_window_refines (Replay 0 0 false) [100; 100; 99; 36; 37; 200; 99; 2 ^ 64 - 1; 200] eq_refl)).
  vm_compute. reflexivity.
Defined.

(** ** Nothing unauthenticated gets in *)

(** C32: when --insecure is off, a packet that does not parse, has version 1 or
    carries a MAC that does not verify under the key (any packet, when no key is
    loaded) changes nothing: no table entry, no slot, no nonce, no output. With
    --insecure the relay processes packets of version 1 by design. *)
Theorem unauthenticated_inert c t s origin from buf rx (Hc : insecure c = false)
  (Hbad : forall p, parse_packet buf = Some p ->
     version p = RELAY_VERSION_V1 \/ have_key c = false \/ verify_mac (key c) p = false) :
  process_packet c t s origin from buf rx = s.
Proof.
  unfold process_packet. destruct (parse_packet buf) as [p|] eqn:E; [|done].
  unfold gate. rewrite Hc. destruct (Hbad p eq_refl) as [Hv|[Hk|Hm]].
  - rewrite Hv. done.
  - destruct (version p =? RELAY_VERSION_V1); [done|]. cbn [negb andb]. by rewrite Hk.
  - destruct (version p =? RELAY_VERSION_V1); [done|]. cbn [negb andb]. rewrite Hm. by destruct (have_key c).
Qed.

Definition demo_cfg : config := Config false demo_key true 300 false 0 (-1) (fun _ => false).
Definition peer1 : addr := Addr [192; 0; 2; 1] [16; 0].
Definition peer2 : addr := Addr [192; 0; 2; 2] [16; 0].
Definition peer3 : addr := Addr [192; 0; 2; 3] [16; 0].

(** One flipped payload byte of an authentic DATA packet. *)
Lemma unauthenticated_inert_witness :
  process_packet demo_cfg (Clock 5 5 5) (relay0 []) (-1) peer1 (setz (demo_pkt 2 2 1 2 9 [65]) 36 66) 0 = relay0 [].
Proof.
  apply unauthenticated_inert; [reflexivity|]. intros p Hp. right; right. vm_compute in Hp. injection Hp as <-.
  vm_compute. reflexivity.
Defined.

(** ** Nothing gets in twice *)

(** What the gates depend on: the windows and the slots. *)
Definition same_auth (s s' : relay) : Prop :=
  replay s' = replay s /\ slot_id s' = slot_id s /\ slots_used s' = slots_used s.

#[global] Instance same_auth_preorder : PreOrder same_auth.
Proof.
  split; [by intros s|]. intros s1 s2 s3 (? & ? & ?) (? & ? & ?). unfold same_auth. split_and!; congruence.
Qed.

Lemma same_auth_for n i f s : (forall j s, same_auth s (f j s)) -> same_auth s (for_up n i f s).
Proof.
  intros Hf. apply (for_up_inv (fun _ s' => same_auth s s')); [reflexivity|].
  intros j s' _ Hs. by rewrite Hs.
Qed.

Create HintDb relay.
Ltac auths := repeat (case_match; simplify_eq); try done; try reflexivity; eauto with relay.

Lemma tcp_write_auth s fd pkt : same_auth s (snd (tcp_write_framed s fd pkt)).
Proof. unfold tcp_write_framed. auths. Qed.
Lemma sendto_auth s to b : same_auth s (sendto s to b).
Proof. done. Qed.
Lemma update_auth s now slot from o r : same_auth s (update s now slot from o r).
Proof. unfold update. auths. Qed.
Lemma evict_auth c now s : same_auth s (evict_stale c now s).
Proof. apply same_auth_for. intros. auths. Qed.
#[local] Hint Resolve tcp_write_auth sendto_auth update_auth evict_auth : relay.

Lemma deliver_auth c s d buf now : same_auth s (deliver_now c s d buf now).
Proof.
  unfold deliver_now. pose proof (tcp_write_auth s (tcp_fd (table s d)) buf) as Hw.
  destruct (tcp_write_framed s (tcp_fd (table s d)) buf) as [ok s']. auths.
Qed.
#[local] Hint Resolve deliver_auth : relay.

Lemma enqueue_auth s d buf due : same_auth s (snd (enqueue_delayed s d buf due)).
Proof. unfold enqueue_delayed. auths. Qed.

Lemma forward_auth c t s d buf now : same_auth s (forward c t s d buf now).
Proof.
  unfold forward. pose proof (enqueue_auth s d buf (u64 (ms t + delay_for c d))) as He.
  destruct (enqueue_delayed s d buf (u64 (ms t + delay_for c d))) as [ok s']. auths.
Qed.
#[local] Hint Resolve forward_auth : relay.

Lemma grant_auth c s to ver id o : same_auth s (send_lease_grant c s to ver id o).
Proof.
  unfold send_lease_grant. destruct (ver =? RELAY_VERSION_V2), (0 <=? o);
    try (etransitivity; [|apply tcp_write_auth]; done); done.
Qed.

Lemma lease_auth c s now from ver o r : same_auth s (handle_lease c s now from ver o r).
Proof. unfold handle_lease. auths; try apply grant_auth. etransitivity; [|apply grant_auth]. done. Qed.

Lemma slot_of_lookup s id : snd (slot_of s id false) = s.
Proof. unfold slot_of. auths. Qed.

Lemma dispatch_auth c t s o from p slot buf rx : same_auth s (dispatch c t s o from p slot buf rx).
Proof.
  unfold dispatch. pose proof (update_auth s (sec t) slot from o (p_reads_v3 p)) as Hu.
  set (s1 := update s (sec t) slot from o (p_reads_v3 p)) in *. clearbody s1.
  ifs; try done.
  - apply lease_auth.
  - etransitivity; [exact Hu|apply tcp_write_auth].
  - pose proof (slot_of_lookup s1 (dst p)) as Hl. destruct (slot_of s1 (dst p) false) as [[d|] s2]; simpl in Hl; subst s2;
      (etransitivity; [exact Hu|apply forward_auth]).
  - etransitivity; [exact Hu|]. apply same_auth_for. intros. auths.
Qed.

(** A nonce a window will never take again. *)
Definition spent (r : ReplayEntry) (n : Z) : Prop :=
  armed r = true /\ n <= max_nonce r /\
  (64 <= max_nonce r - n \/ Z.testbit (window_bits r) (max_nonce r - n) = true).

Lemma spent_refused r n : spent r n -> nonce_step r n = (false, r).
Proof.
  intros (Ha & Hle & Hs). unfold nonce_step. rewrite Ha. cbn [negb].
  destruct (Z.ltb_spec (max_nonce r) n); [lia|]. destruct (Z.leb_spec 64 (max_nonce r - n)); [done|].
  rewrite land_bit by lia. destruct Hs as [|Hs]; [lia|]. by rewrite Hs.
Qed.

Lemma spent_step r n m : spent r n -> spent (snd (nonce_step r m)) n.
Proof.
  intros (Ha & Hle & Hs). unfold nonce_step. rewrite Ha. cbn [negb].
  destruct (Z.ltb_spec (max_nonce r) m); cbn [snd].
  - split_and!; cbn [armed max_nonce window_bits]; [done|lia|].
    destruct (Z.ltb_spec (m - n) 64); [|left; lia]. right. rewrite shifted_bits by lia.
    destruct Hs as [|Hs]; [lia|]. destruct (Z.leb_spec (m - max_nonce r) (m - n)); [|lia].
    replace (m - n - (m - max_nonce r)) with (max_nonce r - n) by lia. by rewrite Hs, orb_true_r.
  - destruct (Z.leb_spec 64 (max_nonce r - m)); cbn [snd]; [by split_and!|].
    dif E; cbn [snd]; [by split_and!|]. split_and!; cbn [armed max_nonce window_bits]; [done|done|].
    destruct Hs as [|Hs]; [by left|right]. by rewrite Z.lor_spec, Hs.
Qed.

Lemma spent_accepted r n : fst (nonce_step r n) = true -> spent (snd (nonce_step r n)) n.
Proof.
  unfold nonce_step. destruct (armed r) eqn:Ea; cbn [negb].
  2: { intros _. split_and!; cbn; [done|lia|]. right. by rewrite Z.sub_diag. }
  destruct (Z.ltb_spec (max_nonce r) n); cbn [fst snd].
  { intros _. split_and!; cbn [armed max_nonce window_bits]; [done|lia|]. right.
    by rewrite Z.sub_diag, shifted_bits by lia. }
  destruct (Z.leb_spec 64 (max_nonce r - n)); cbn [fst snd]; [done|]. dif E; cbn [fst snd]; [done|].
  intros _. split_and!; cbn [armed max_nonce window_bits]; [done|lia|]. right.
  rewrite Z.lor_spec, Z.shiftl_1_l, Z.pow2_bits_true by lia. apply orb_true_r.
Qed.

Lemma refused_spent r n : fst (nonce_step r n) = false -> spent r n.
Proof.
  unfold nonce_step. destruct (armed r) eqn:Ea; cbn [negb]; [|done].
  destruct (Z.ltb_spec (max_nonce r) n); [done|].
  destruct (Z.leb_spec 64 (max_nonce r - n)); [intros _; split_and!; auto|].
  rewrite land_bit, negb_involutive by lia. destruct (Z.testbit (window_bits r) (max_nonce r - n)) eqn:Eb; [|done].
  intros _. split_and!; auto.
Qed.

(** The slot of a node that has one. *)
Definition known (s : relay) (id slot : Z) : Prop := fst (slot_of s id false) = Some slot.

(** The state knows at least as much: slots stay, spent nonces stay spent. *)
Record extends (s s' : relay) : Prop := {
  ex_known : forall id slot, known s id slot -> known s' id slot;
  ex_full : slots_used s = NODE_SLOTS -> slot_id s' = slot_id s /\ slots_used s' = NODE_SLOTS;
  ex_spent : forall slot n, spent (replay s slot) n -> spent (replay s' slot) n }.

#[global] Instance extends_preorder : PreOrder extends.
Proof.
  split; [by intros s|]. intros s1 s2 s3 [K1 F1 S1] [K2 F2 S2]. split; [auto| |auto].
  intros Hf. destruct (F1 Hf) as [E1 Hf2]. destruct (F2 Hf2) as [E2 Hf3]. split; congruence.
Qed.

Lemma known_ext s s' id slot :
  slot_id s' = slot_id s -> slots_used s' = slots_used s -> known s id slot -> known s' id slot.
Proof.
  intros Hi Hu. unfold known, slot_of. rewrite Hi, Hu.
  destruct (id <? NODE_MAX); [done|]. destruct (0xFFFE <? id); [done|].
  by destruct (find_slot (slot_id s) id NODE_MAX (Z.to_nat (slots_used s - NODE_MAX))).
Qed.

Lemma same_auth_extends s s' : same_auth s s' -> extends s s'.
Proof.
  intros (Hr & Hi & Hu). split.
  - intros id slot. by apply known_ext.
  - by rewrite Hi, Hu.
  - by rewrite Hr.
Qed.

Lemma find_slot_more ids ids' id s n m k :
  (forall x, s <= x < s + Z.of_nat n -> ids' x = ids x) -> (n <= m)%nat ->
  find_slot ids id s n = Some k -> find_slot ids' id s m = Some k.
Proof.
  revert s m. induction n as [|n IH]; intros s m Hx Hm; [done|]. destruct m as [|m]; [lia|]. cbn [find_slot].
  rewrite Hx by lia. destruct (ids s =? id); [done|]. apply IH; [intros; apply Hx; lia|lia].
Qed.

Lemma slot_of_extends s id : extends s (snd (slot_of s id true)).
Proof.
  unfold slot_of. destruct (id <? NODE_MAX); [done|]. destruct (0xFFFE <? id); [done|].
  destruct (find_slot (slot_id s) id NODE_MAX (Z.to_nat (slots_used s - NODE_MAX))); [done|].
  cbn [negb]. destruct (Z.eqb_spec (slots_used s) NODE_SLOTS) as [Hf|Hf]; [done|]. cbn [snd]. split; [| |done].
  - intros i slot. unfold known, slot_of. cbn [slots_used slot_id].
    destruct (i <? NODE_MAX); [done|]. destruct (0xFFFE <? i); [done|]. cbn [negb].
    destruct (find_slot (slot_id s) i NODE_MAX (Z.to_nat (slots_used s - NODE_MAX))) as [k|] eqn:Ek; [|done].
    intros [= <-]. erewrite find_slot_more; [done| | |exact Ek]; [|lia]. intros x Hx. apply upd_ne. lia.
  - intros Hf'. by rewrite Hf' in Hf.
Qed.

Lemma check_extends s slot n : extends s (snd (replay_check_and_update s slot n)).
Proof.
  unfold replay_check_and_update. destruct ((slot <? 1) || (NODE_SLOTS <=? slot)); [done|].
  pose proof (fun m => spent_step (replay s slot) m n) as Hs.
  destruct (nonce_step (replay s slot) n) as [[] r]; [|done]. cbn [snd] in *.
  split; [intros id k; by apply known_ext|done|]. intros i m Hi. cbn [replay set_replay]. unfold upd. destruct (Z.eqb_spec i slot) as [->|]; auto.
Qed.

Lemma gate_extends c s p : extends s (snd (gate c s p)).
Proof.
  unfold gate. repeat (case_match; try done); simplify_eq/=;
    try (match goal with H : slot_of s ?i true = _ |- _ => pose proof (slot_of_extends s i) as Hx; rewrite H in Hx end);
    simpl in *; try done;
    match goal with H : replay_check_and_update ?r ?a ?b = _ |- _ =>
      pose proof (check_extends r a b) as Hy; rewrite H in Hy end; simpl in *; by etransitivity.
Qed.

Lemma process_extends c t s o from buf rx : extends s (process_packet c t s o from buf rx).
Proof.
  unfold process_packet. destruct (parse_packet buf) as [p|]; [|done]. pose proof (gate_extends c s p) as Hg.
  destruct (gate c s p) as [[slot|] s1]; simpl in Hg; [|done]. etransitivity; [exact Hg|]. apply same_auth_extends.
  etransitivity; [apply evict_auth|apply dispatch_auth].
Qed.

Lemma close_auth s slot : same_auth s (tcp_conn_close s slot).
Proof.
  unfold tcp_conn_close. dif E; [done|].
  assert (Hd : same_auth s (drop_routes s (cfd (getz (conns s) slot no_conn)))).
  { apply same_auth_for. intros. auths. }
  exact Hd.
Qed.

Lemma fold_extends {A} (f : relay -> A -> relay) l s :
  (forall s a, extends s (f s a)) -> extends s (fold_left f l s).
Proof. intros Hf. revert s. induction l as [|a l IH]; intros s; simpl; [done|]. etransitivity; [apply Hf|apply IH]. Qed.

Lemma flush_auth c t s : same_auth s (flush_due c t s).
Proof.
  unfold flush_due. generalize (Z.to_nat DELAY_Q_MAX). intros n. apply same_auth_for. intros j s'. unfold flush_one. dif E; [|done].
  etransitivity; [apply deliver_auth|]. done.
Qed.

Lemma step_extends c t s e : extends s (loop_step c t s e).
Proof.
  unfold loop_step. pose proof (same_auth_extends _ _ (flush_auth c t s)) as Hf.
  set (s1 := flush_due c t s) in *. clearbody s1. destruct e; try done.
  - etransitivity; [exact Hf|apply process_extends].
  - etransitivity; [exact Hf|]. unfold tcp_accept. destruct (free_conn (conns s1) 0); by apply same_auth_extends.
  - etransitivity; [exact Hf|]. dif E; [done|]. unfold tcp_read.
    destruct (drain_read MAX_PKT (reasm (getz (conns s1) slot no_conn)) rd) as [[frames r] dead].
    set (s2 := set_conns s1 _). set (s3 := fold_left _ frames s2).
    assert (H23 : extends s2 s3) by (apply fold_extends; intros; apply process_extends).
    assert (H12 : extends s1 s2) by (by apply same_auth_extends). destruct dead; [|by etransitivity].
    etransitivity; [exact H12|]. etransitivity; [exact H23|]. apply same_auth_extends, close_auth.
  - etransitivity; [exact Hf|]. apply same_auth_extends, close_auth.
Qed.

Lemma find_slot_new ids id s n : find_slot ids id s n = None ->
  find_slot (upd ids (s + Z.of_nat n) id) id s (S n) = Some (s + Z.of_nat n).
Proof.
  revert s. induction n as [|n IH]; intros s.
  - intros _. cbn [find_slot]. by rewrite Z.add_0_r, upd_eq, Z.eqb_refl.
  - cbn [find_slot]. destruct (ids s =? id) eqn:E; [done|]. intros Hn. rewrite upd_ne, E by lia.
    replace (s + Z.of_nat (S n)) with (s + 1 + Z.of_nat n) by lia. by apply IH.
Qed.

(** The packet cannot pass the gates, now or later. *)
Inductive refused (c : config) (s : relay) (p : ParsedPkt) : Prop :=
  | refused_key : have_key c = false -> refused c s p
  | refused_mac : verify_mac (key c) p = false -> refused c s p
  | refused_v3 : version p = RELAY_VERSION_V3 -> src p = 0 -> refused c s p
  | refused_id : NODE_MAX <= src p -> 0xFFFE < src p -> refused c s p
  | refused_full : NODE_MAX <= src p -> src p <= 0xFFFE -> slots_used s = NODE_SLOTS ->
      find_slot (slot_id s) (src p) NODE_MAX (Z.to_nat (NODE_SLOTS - NODE_MAX)) = None -> refused c s p
  | refused_nonce slot : known s (src p) slot ->
      slot < 1 \/ NODE_SLOTS <= slot \/ spent (replay s slot) (nonce p) -> refused c s p.

Lemma refused_extends c s s' p : extends s s' -> refused c s p -> refused c s' p.
Proof.
  intros [K F S]. destruct 1 as [?|?|? ?|? ?|? ? Hf Hn|slot Hk Hs];
    [by apply refused_key|by apply refused_mac|by apply refused_v3|by apply refused_id| |].
  - destruct (F Hf) as [Ei Hf']. apply refused_full; try done. by rewrite Ei.
  - apply (refused_nonce _ _ _ slot); [auto|]. destruct Hs as [|[|]]; auto.
Qed.

Lemma known_slot_of s id slot : known s id slot -> slot_of s id true = (Some slot, s).
Proof.
  unfold known, slot_of. ifs; try done; [by intros [= ->]|..]; 
    destruct (find_slot (slot_id s) id NODE_MAX (Z.to_nat (slots_used s - NODE_MAX))); try done; by intros [= ->].
Qed.

(** A packet that leaves a trace in the window: authenticated version, no lease. *)
Definition windowed (p : ParsedPkt) : Prop :=
  version p <> RELAY_VERSION_V1 /\ ~ (type p = REL_REGISTER /\ src p = 0).

Lemma windowed_bool p : windowed p ->
  (version p =? RELAY_VERSION_V1) = false /\ (type p =? REL_REGISTER) && (src p =? 0) = false.
Proof.
  intros [Hv Ht]. split; [by apply Z.eqb_neq|]. apply not_true_iff_false. rewrite andb_true_iff, !Z.eqb_eq. done.
Qed.

Lemma refused_gate c s p : windowed p -> refused c s p -> gate c s p = (None, s).
Proof.
  intros Hw Hr. apply windowed_bool in Hw as [Ev Et]. unfold gate. rewrite Ev, Et. cbn [negb andb].
  destruct Hr as [Hk|Hm|Hv3 Hs0|Hi1 Hi2|Hi1 Hi2 Hf Hn|slot Hk Hs].
  - by rewrite Hk.
  - rewrite Hm. by destruct (have_key c).
  - rewrite Hv3, Hs0. ifs; done.
  - ifs; try done. unfold slot_of. destruct (Z.ltb_spec (src p) NODE_MAX), (Z.ltb_spec 0xFFFE (src p)); done || lia.
  - ifs; try done. unfold slot_of. rewrite Hf, Hn.
    destruct (Z.ltb_spec (src p) NODE_MAX), (Z.ltb_spec 0xFFFE (src p)); done || lia.
  - ifs; try done. rewrite (known_slot_of _ _ _ Hk). unfold replay_check_and_update.
    destruct (Z.ltb_spec slot 1), (Z.leb_spec NODE_SLOTS slot); try done.
    destruct Hs as [|[|Hs]]; [lia|lia|]. by rewrite (spent_refused _ _ Hs).
Qed.

Lemma gate_refuses c s p : NODE_MAX <= slots_used s -> windowed p -> refused c (snd (gate c s p)) p.
Proof.
  intros Hn Hw. pose proof (windowed_bool p Hw) as [Ev Et]. unfold gate. rewrite Ev, Et. cbn [negb andb].
  destruct (have_key c) eqn:Ek; cbn [negb]; [|by apply refused_key].
  destruct (verify_mac (key c) p) eqn:Em; cbn [negb]; [|by apply refused_mac].
  destruct ((version p =? RELAY_VERSION_V3) && (src p =? 0)) eqn:E3; [bools; by apply refused_v3|].
  assert (Hk : match slot_of s (src p) true with
               | (Some slot, s') => known s' (src p) slot
               | (None, s') => refused c s' p end).
  { unfold known, slot_of. destruct (Z.ltb_spec (src p) NODE_MAX); [done|].
    destruct (Z.ltb_spec 0xFFFE (src p)); [by apply refused_id|].
    destruct (find_slot (slot_id s) (src p) NODE_MAX (Z.to_nat (slots_used s - NODE_MAX))) as [k|] eqn:Ef;
      [by rewrite Ef|]. cbn [negb]. destruct (Z.eqb_spec (slots_used s) NODE_SLOTS) as [Hf|Hf].
    - rewrite Hf in Ef. by apply refused_full.
    - cbn [slots_used slot_id negb]. apply find_slot_new in Ef.
      replace (NODE_MAX + Z.of_nat (Z.to_nat (slots_used s - NODE_MAX))) with (slots_used s) in Ef by lia.
      replace (S (Z.to_nat (slots_used s - NODE_MAX))) with (Z.to_nat (slots_used s + 1 - NODE_MAX)) in Ef by lia.
      by rewrite Ef. }
  destruct (slot_of s (src p) true) as [[slot|] s1]; [|done].
  assert (Hr : refused c (snd (replay_check_and_update s1 slot (nonce p))) p).
  { apply (refused_nonce _ _ _ slot).
    - apply (ex_known _ _ (check_extends s1 slot (nonce p))), Hk.
    - unfold replay_check_and_update. destruct (Z.ltb_spec slot 1), (Z.leb_spec NODE_SLOTS slot); auto.
      right. right. pose proof (spent_accepted (replay s1 slot) (nonce p)) as Ha.
      pose proof (refused_spent (replay s1 slot) (nonce p)) as Hd.
      destruct (nonce_step (replay s1 slot) (nonce p)) as [[] r]; cbn [fst snd] in *; cbn [orb];
        [|by apply Hd]. cbn [replay set_replay snd]. rewrite upd_eq. by apply Ha. }
  destruct (replay_check_and_update s1 slot (nonce p)) as [[] s2]; exact Hr.
Qed.

(** C4: at most once. A packet of version 2 or 3 that is not a lease request (a
    REGISTER from id 0, which bypasses the nonce window: [lease_request_replays])
    is processed once: whatever happens in between (other packets, evictions,
    timers, connections coming and going), the same bytes from whatever address
    or stream change nothing and send nothing the second time. *)
Theorem replay_inert c t s origin from buf rx p evs t' origin' from' rx'
  (Hs : NODE_MAX <= slots_used s) (Hp : parse_packet buf = Some p) (Hw : windowed p) :
  let s' := fold_left (fun s te => loop_step c (fst te) s (snd te)) evs (process_packet c t s origin from buf rx) in
  process_packet c t' s' origin' from' buf rx' = s'.
Proof.
  intros s'. assert (Hr : refused c s' p).
  { apply (refused_extends c (snd (gate c s p))); [|by apply gate_refuses].
    transitivity (process_packet c t s origin from buf rx).
    - unfold process_packet. rewrite Hp. destruct (gate c s p) as [[slot|] s1]; [|done].
      apply same_auth_extends. etransitivity; [apply evict_auth|apply dispatch_auth].
    - apply fold_extends. intros s1 [t1 e]. apply step_extends. }
  unfold process_packet at 1. rewrite Hp. by rewrite (refused_gate c s' p Hw Hr).
Qed.

Lemma replay_inert_witness :
  let s' := fold_left (fun s te => loop_step demo_cfg (fst te) s (snd te))
              [(Clock 9 9 9, Datagram peer2 (demo_pkt 2 1 2 0 1 []) 0)]
              (process_packet demo_cfg (Clock 5 5 5) (relay0 []) (-1) peer1 (demo_pkt 2 2 1 2 9 [65]) 0) in
  process_packet demo_cfg (Clock 20 20 20) s' (-1) peer3 (demo_pkt 2 2 1 2 9 [65]) 0 = s'.
Proof.
  destruct (parse_packet (demo_pkt 2 2 1 2 9 [65])) as [p|] eqn:E; [|vm_compute in E; discriminate].
  apply (replay_inert demo_cfg (Clock 5 5 5) (relay0 []) (-1) peer1 (demo_pkt 2 2 1 2 9 [65]) 0 p);
    [reflexivity || (vm_compute; discriminate)|exact E|].
  vm_compute in E. injection E as <-. split; [discriminate|]. intros [H _]. discriminate.
Defined.

(** ** What the MAC and the window leave open *)

Lemma verify_mac_reads k ver typ s d r r' n h pay :
  verify_mac k (Pkt ver typ s d r n h pay) = verify_mac k (Pkt ver typ s d r' n h pay).
Proof. reflexivity. Qed.

(** The byte that says "I read version 3" is outside the MAC: flipping it in an
    authentic packet of version 2 yields an authentic packet, and the relay
    then holds the sender for a reader of version 3. *)
Theorem reads_v3_unauthenticated k buf p (Hp : parse_packet buf = Some p) (Hv : version p = RELAY_VERSION_V2) :
  exists q, parse_packet (setz buf RELAY_READS_V3_AT 3) = Some q /\
    verify_mac k q = verify_mac k p /\ src q = src p /\ nonce q = nonce p /\ p_reads_v3 q = true.
Proof.
  assert (Hl : 12 <= lenz buf).
  { unfold parse_packet in Hp. destruct (Z.ltb_spec (lenz buf) RELAY_HEADER_LEN); [done|].
    unfold RELAY_HEADER_LEN in *. lia. }
  do 12 (destruct buf as [|? buf]; [unfold lenz in Hl; simpl in Hl; lia|]). clear Hl.
  change (setz _ RELAY_READS_V3_AT 3) with (z :: z0 :: z1 :: z2 :: z3 :: z4 :: z5 :: z6 :: z7 :: z8 :: 3 :: z10 :: buf).
  set (l := z :: z0 :: z1 :: z2 :: z3 :: z4 :: z5 :: z6 :: z7 :: z8 :: z9 :: z10 :: buf) in *.
  set (l' := z :: z0 :: z1 :: z2 :: z3 :: z4 :: z5 :: z6 :: z7 :: z8 :: 3 :: z10 :: buf).
  assert (Ev : getz l 4 0 = 2).
  { revert Hp. unfold parse_packet. ifs; intros [= <-]; exact Hv. }
  unfold parse_packet in *. change (lenz l') with (lenz l). change (getz l' 4 0) with (getz l 4 0). rewrite Ev in *.
  change (getz l' 0 0) with (getz l 0 0). change (getz l' 1 0) with (getz l 1 0).
  change (getz l' 2 0) with (getz l 2 0). change (getz l' 3 0) with (getz l 3 0).
  destruct (lenz l <? RELAY_HEADER_LEN); [done|].
  dif Em; [done|]. cbn [Z.eqb Pos.eqb RELAY_VERSION_V1 RELAY_VERSION_V2 RELAY_VERSION_V3 orb] in *.
  destruct (lenz l <? RELAY_HEADER_LEN + RELAY_AUTH_LEN); [done|]. injection Hp as <-.
  eexists. split; [reflexivity|]. split; [apply verify_mac_reads|]. by split_and!.
Qed.

Lemma reads_v3_unauthenticated_witness :
  exists q, parse_packet (setz (demo_pkt 2 2 1 2 9 [65]) RELAY_READS_V3_AT 3) = Some q /\
    verify_mac demo_key q = true /\ p_reads_v3 q = true.
Proof.
  destruct (parse_packet (demo_pkt 2 2 1 2 9 [65])) as [p|] eqn:E; [|vm_compute in E; discriminate].
  destruct (reads_v3_unauthenticated demo_key (demo_pkt 2 2 1 2 9 [65]) p E) as (q & Hq & Hm & _ & _ & Hr);
    [vm_compute in E; injection E as <-; reflexivity|].
  exists q. split; [exact Hq|]. split; [|exact Hr]. rewrite Hm. vm_compute in E. injection E as <-.
  vm_compute. reflexivity.
Defined.

(** An authentic lease request is not windowed: sent again from two other
    addresses, the same bytes take two more ids and earn two more signed
    grants. *)
Theorem lease_request_replays :
  let req := demo_pkt 2 1 0 0 77 [] in
  let s1 := process_packet demo_cfg (Clock 5 5 5) (relay0 []) (-1) peer1 req 0 in
  let s2 := process_packet demo_cfg (Clock 6 6 6) s1 (-1) peer2 req 0 in
  let s3 := process_packet demo_cfg (Clock 7 7 7) s2 (-1) peer3 req 0 in
  map (fun n => (active (table s3 n), leased (table s3 n), naddr (table s3 n))) [1; 2; 3] =
    [(true, true, peer1); (true, true, peer2); (true, true, peer3)] /\
  map (fun o => match o with Udp to b => (to, getz b 7 0) | _ => (no_addr, 0) end) (out s3) =
    [(peer1, 1); (peer2, 2); (peer3, 3)].
Proof. vm_compute. split; reflexivity. Qed.
