(* ===== verification/RelayRoute.v ===== *)
(** * The relay's routes, queue and streams

    Over every run of the main loop the routes in the table lead to connections
    that are open; a lease never takes an id that is in use, and the grant that
    announces it verifies; a turn of the loop sends every packet that is due,
    once; and what reaches a stream can be taken apart again, except after a
    write that stopped halfway. *)

From stdpp Require Import list sets.
From S2P Require Import Prelude.
From S2P Require Import Sha256.
From S2P Require Import TcpFrame.
From S2P Require Import Relay.
From S2P Require Import RelayAuth.
#[local] Open Scope Z_scope.

(** ** The invariant of the routes *)

Definition open (s : relay) (fd : Z) : Prop :=
  0 <= fd /\ exists i, 0 <= i < lenz (conns s) /\ cfd (getz (conns s) i no_conn) = fd.

Record routes_open (s : relay) : Prop := {
  ro_used : NODE_MAX <= slots_used s <= NODE_SLOTS;
  ro_range : forall n, active (table s n) = true -> 1 <= n < slots_used s;
  ro_open : forall n, active (table s n) = true -> via_tcp (table s n) = true -> open s (tcp_fd (table s n));
  ro_once : forall i j, 0 <= i < lenz (conns s) -> 0 <= j < lenz (conns s) ->
    0 <= cfd (getz (conns s) i no_conn) -> cfd (getz (conns s) i no_conn) = cfd (getz (conns s) j no_conn) -> i = j }.

(** An operation that at most deactivates routes. *)
Definition shrinks (s s' : relay) : Prop :=
  conns s' = conns s /\ slots_used s' = slots_used s /\
  forall n, active (table s' n) = true ->
    active (table s n) = true /\ via_tcp (table s' n) = via_tcp (table s n) /\ tcp_fd (table s' n) = tcp_fd (table s n).

#[global] Instance shrinks_preorder : PreOrder shrinks.
Proof.
  split; [by intros s; split_and!|]. intros s1 s2 s3 (C1 & U1 & T1) (C2 & U2 & T2).
  split; [congruence|]. split; [congruence|]. intros n Hn. destruct (T2 n Hn) as (Hn2 & ? & ?).
  destruct (T1 n Hn2) as (? & ? & ?). split_and!; congruence.
Qed.

Lemma shrinks_routes s s' : shrinks s s' -> routes_open s -> routes_open s'.
Proof.
  intros (C & U & T) [Hu Hr Ho H1]. unfold open in *. split; rewrite ?C, ?U; auto.
  - intros n Hn. apply Hr, T, Hn.
  - intros n Hn Hv. destruct (T n Hn) as (Ha & Ev & Ef). unfold open. rewrite C, Ef. apply Ho; congruence.
Qed.

Lemma shrinks_same s s' : conns s' = conns s -> slots_used s' = slots_used s -> table s' = table s -> shrinks s s'.
Proof. intros C U T. unfold shrinks. by rewrite C, U, T. Qed.

Lemma shrinks_off s n : shrinks s (set_table s n (set_active (table s n) false)).
Proof.
  split; [done|]. split; [done|]. intros k. cbn [table set_table]. unfold upd.
  destruct (k =? n); [done|]. by intros Hk.
Qed.

Lemma shrinks_for n i f s : (forall j s, shrinks s (f j s)) -> shrinks s (for_up n i f s).
Proof.
  intros Hf. apply (for_up_inv (fun _ s' => shrinks s s')); [reflexivity|].
  intros j s' _ Hs. by rewrite Hs.
Qed.

Create HintDb routes.
#[local] Hint Resolve shrinks_off : routes.
Ltac shrink := repeat (case_match; simplify_eq); try reflexivity; eauto with routes; try by apply shrinks_same.

Lemma tcp_write_shrinks s fd pkt : shrinks s (snd (tcp_write_framed s fd pkt)).
Proof. unfold tcp_write_framed. shrink. Qed.
Lemma sendto_shrinks s to b : shrinks s (sendto s to b).
Proof. by apply shrinks_same. Qed.
Lemma evict_shrinks c now s : shrinks s (evict_stale c now s).
Proof. apply shrinks_for. intros. shrink. Qed.
Lemma drop_shrinks s fd : shrinks s (drop_routes s fd).
Proof. apply shrinks_for. intros. shrink. Qed.
#[local] Hint Resolve tcp_write_shrinks sendto_shrinks evict_shrinks : routes.

Lemma deliver_shrinks c s d buf now : shrinks s (deliver_now c s d buf now).
Proof.
  unfold deliver_now. pose proof (tcp_write_shrinks s (tcp_fd (table s d)) buf) as Hw.
  pose proof (shrinks_off (snd (tcp_write_framed s (tcp_fd (table s d)) buf)) d) as Hoff.
  assert (Ht : table (snd (tcp_write_framed s (tcp_fd (table s d)) buf)) = table s)
    by (unfold tcp_write_framed; repeat case_match; simplify_eq; done).
  destruct (tcp_write_framed s (tcp_fd (table s d)) buf) as [ok s']. simpl in *. rewrite Ht in Hoff. shrink.
  etransitivity; [exact Hw|exact Hoff].
Qed.
#[local] Hint Resolve deliver_shrinks : routes.

Lemma forward_shrinks c t s d buf now : shrinks s (forward c t s d buf now).
Proof. unfold forward, enqueue_delayed. shrink. Qed.
#[local] Hint Resolve forward_shrinks : routes.

Lemma flush_shrinks c t s : shrinks s (flush_due c t s).
Proof.
  unfold flush_due. generalize (Z.to_nat DELAY_Q_MAX). intros n. apply shrinks_for. intros j s'. unfold flush_one.
  dif E; [|done]. etransitivity; [apply deliver_shrinks|by apply shrinks_same].
Qed.

Lemma grant_shrinks c s to ver id o : shrinks s (send_lease_grant c s to ver id o).
Proof.
  unfold send_lease_grant. destruct (ver =? RELAY_VERSION_V2), (0 <=? o); auto with routes;
    (etransitivity; [|apply tcp_write_shrinks || apply sendto_shrinks]; by apply shrinks_same).
Qed.

(** ** Operations that add a route *)

(** The packet came by UDP or on a connection that is open. *)
Definition origin_ok (s : relay) (origin : Z) : Prop := origin < 0 \/ open s origin.

Lemma set_route s n from now l origin r :
  routes_open s -> origin_ok s origin -> 1 <= n < slots_used s ->
  routes_open (set_table s n (NodeEnt from now true l (0 <=? origin) origin r)).
Proof.
  intros [Hu Hr Ho H1] Hor Hn. split; [done| | |done]; intros k; cbn [table set_table slots_used]; unfold upd;
    destruct (Z.eqb_spec k n) as [->|]; [done|exact (Hr k)| |exact (Ho k)].
  cbn [active via_tcp tcp_fd]. intros _ Hv. apply Z.leb_le in Hv. destruct Hor as [|Hor]; [lia|exact Hor].
Qed.

Lemma update_routes s now slot from origin r :
  routes_open s -> origin_ok s origin -> slot < slots_used s -> routes_open (update s now slot from origin r).
Proof.
  intros Hs Hor Hn. unfold update. destruct (Z.ltb_spec slot 1), (Z.leb_spec NODE_SLOTS slot); cbn [orb]; try done.
  by apply set_route.
Qed.

Lemma lease_pick_range s from : lease_pick s from = 0 \/ 1 <= lease_pick s from < NODE_MAX.
Proof.
  unfold lease_pick. destruct (List.find _ _) as [n|] eqn:E; [|destruct (List.find (fun n => negb _) _) as [n|] eqn:E2; [|by left]];
    right; apply find_some in E || apply find_some in E2;
    match goal with H : In n _ /\ _ |- _ => destruct H as [Hin _] end;
    apply list_elem_of_In, elem_of_seqZ in Hin; unfold NODE_MAX in *; lia.
Qed.

Lemma lease_routes c s now from ver origin r :
  routes_open s -> origin_ok s origin -> routes_open (handle_lease c s now from ver origin r).
Proof.
  intros Hs Hor. unfold handle_lease. destruct (Z.eqb_spec (lease_pick s from) 0) as [E|E].
  - by eapply shrinks_routes; [apply grant_shrinks|].
  - eapply shrinks_routes; [apply grant_shrinks|]. apply set_route; [done|done|].
    destruct (lease_pick_range s from); [done|]. pose proof (ro_used s Hs). lia.
Qed.

Lemma find_slot_range ids id s n k : find_slot ids id s n = Some k -> s <= k < s + Z.of_nat n.
Proof.
  revert s. induction n as [|n IH]; intros s; [done|]. cbn [find_slot].
  destruct (ids s =? id); [intros [= <-]; lia|]. intros H%IH. lia.
Qed.

Lemma slot_of_routes s id create :
  routes_open s ->
  routes_open (snd (slot_of s id create)) /\ conns (snd (slot_of s id create)) = conns s /\
  forall slot, fst (slot_of s id create) = Some slot -> slot < slots_used (snd (slot_of s id create)).
Proof.
  intros Hs. pose proof (ro_used s Hs) as Hu. unfold slot_of.
  destruct (Z.ltb_spec id NODE_MAX); [split_and!; try done; cbn; intros slot [= <-]; lia|].
  destruct (0xFFFE <? id); [done|].
  destruct (find_slot (slot_id s) id NODE_MAX (Z.to_nat (slots_used s - NODE_MAX))) as [k|] eqn:Ef.
  { apply find_slot_range in Ef. split_and!; try done. cbn. intros slot [= <-]. lia. }
  destruct create; cbn [negb]; [|done]. destruct (Z.eqb_spec (slots_used s) NODE_SLOTS); [done|]. cbn [fst snd].
  destruct Hs as [_ Hr Ho H1]. split; [|split; [done|cbn; intros slot [= <-]; lia]].
  split; [cbn; lia| |done|done]. intros k Hk. cbn in *. specialize (Hr k Hk). lia.
Qed.

Lemma dispatch_routes c t s origin from p slot buf rx :
  routes_open s -> origin_ok s origin -> slot < slots_used s -> routes_open (dispatch c t s origin from p slot buf rx).
Proof.
  intros Hs Hor Hn. pose proof (update_routes s (sec t) slot from origin (p_reads_v3 p) Hs Hor Hn) as Hup.
  unfold dispatch. set (s1 := update s (sec t) slot from origin (p_reads_v3 p)) in *. clearbody s1.
  destruct (type p =? REL_REGISTER); [destruct (src p =? 0); [by apply lease_routes|done]|].
  destruct (type p =? REL_KEEPALIVE).
  { destruct (0 <=? origin); (eapply shrinks_routes; [|exact Hup]); auto with routes. }
  destruct (type p =? REL_DATA).
  { pose proof (slot_of_lookup s1 (dst p)) as Hl. destruct (slot_of s1 (dst p) false) as [[d|] s2]; simpl in Hl;
      subst s2; (eapply shrinks_routes; [|exact Hup]); auto with routes. }
  destruct (type p =? REL_BROADCAST); [|done].
  eapply shrinks_routes; [|exact Hup]. apply shrinks_for. intros. shrink.
Qed.

Lemma lease_conns c s now from ver origin r : conns (handle_lease c s now from ver origin r) = conns s.
Proof. unfold handle_lease. dif E; (etransitivity; [apply (grant_shrinks c)|done]). Qed.

Lemma dispatch_conns c t s origin from p slot buf rx : conns (dispatch c t s origin from p slot buf rx) = conns s.
Proof.
  unfold dispatch. assert (Hup : conns (update s (sec t) slot from origin (p_reads_v3 p)) = conns s)
    by (unfold update; by destruct (_ || _)).
  set (s1 := update s (sec t) slot from origin (p_reads_v3 p)) in *. clearbody s1. rewrite <- Hup.
  destruct (type p =? REL_REGISTER); [destruct (src p =? 0); [by rewrite lease_conns|done]|].
  destruct (type p =? REL_KEEPALIVE); [destruct (0 <=? origin); [apply tcp_write_shrinks|done]|].
  destruct (type p =? REL_DATA).
  { pose proof (slot_of_lookup s1 (dst p)) as Hl. destruct (slot_of s1 (dst p) false) as [[d|] s2]; simpl in Hl;
      subst s2; apply forward_shrinks. }
  destruct (type p =? REL_BROADCAST); [|done].
  apply (shrinks_for (Z.to_nat (slots_used s1 - 1)) 1). intros. shrink.
Qed.

Lemma check_routes s slot n :
  routes_open s -> routes_open (snd (replay_check_and_update s slot n)) /\
  conns (snd (replay_check_and_update s slot n)) = conns s /\
  slots_used (snd (replay_check_and_update s slot n)) = slots_used s.
Proof.
  intros Hs. unfold replay_check_and_update. destruct ((slot <? 1) || (NODE_SLOTS <=? slot)); [done|].
  destruct (nonce_step (replay s slot) n) as [[] r]; [|done]. split; [|done].
  by eapply shrinks_routes; [apply shrinks_same|exact Hs].
Qed.

(** A version 1 packet names its slot in one byte. *)
Lemma gate_routes c s p :
  (version p = RELAY_VERSION_V1 -> src p < NODE_MAX) -> routes_open s ->
  routes_open (snd (gate c s p)) /\ conns (snd (gate c s p)) = conns s /\
  forall slot, fst (gate c s p) = Some slot -> slot < slots_used (snd (gate c s p)).
Proof.
  intros Hv1 Hs. pose proof (ro_used s Hs) as Hu. pose proof (slot_of_routes s (src p) true Hs) as (H1 & H2 & H3).
  unfold gate. destruct (Z.eqb_spec (version p) RELAY_VERSION_V1) as [Ev|Ev]; cbn [negb andb].
  { destruct (insecure c); cbn [negb]; split_and!; try done. cbn. intros slot [= <-]. specialize (Hv1 Ev). lia. }
  destruct (have_key c); [|done]. destruct (verify_mac (key c) p); [|done]. cbn [negb].
  destruct ((version p =? RELAY_VERSION_V3) && (src p =? 0)); [done|].
  destruct (slot_of s (src p) true) as [[slot|] s1]; cbn [fst snd] in *; [|done].
  destruct (negb _); [|by split_and!]. pose proof (check_routes s1 slot (nonce p) H1) as (H4 & H5 & H6).
  destruct (replay_check_and_update s1 slot (nonce p)) as [[] s2]; cbn [fst snd] in *; split_and!; try done; try congruence.
  intros k [= <-]. specialize (H3 slot eq_refl). lia.
Qed.

Lemma parse_v1_src buf p : Forall is_u8 buf -> parse_packet buf = Some p -> version p = RELAY_VERSION_V1 -> src p < NODE_MAX.
Proof.
  intros HF. unfold parse_packet. destruct (lenz buf <? RELAY_HEADER_LEN); [done|]. dif Em; [done|].
  pose proof (getz_Forall is_u8 buf 6 0 HF ltac:(unfold is_u8; lia)) as H6. unfold is_u8 in H6.
  destruct (Z.eqb_spec (getz buf 4 0) RELAY_VERSION_V1) as [Ev|Ev].
  - intros [= <-] _. cbn [src]. rewrite Ev. unfold NODE_MAX. simpl. lia.
  - destruct (_ || _); [|done]. destruct (_ <? _); [done|]. intros [= <-]. done.
Qed.

Lemma process_routes c t s origin from buf rx :
  Forall is_u8 buf -> routes_open s -> origin_ok s origin ->
  routes_open (process_packet c t s origin from buf rx) /\ conns (process_packet c t s origin from buf rx) = conns s.
Proof.
  intros HF Hs Hor. unfold process_packet. destruct (parse_packet buf) as [p|] eqn:Ep; [|done].
  pose proof (gate_routes c s p (parse_v1_src buf p HF Ep) Hs) as (Hg & Hc & Hslot).
  destruct (gate c s p) as [[slot|] s1]; cbn [fst snd] in *; [|done]. specialize (Hslot slot eq_refl).
  pose proof (evict_shrinks c (sec t) s1) as (Ec & Eu & Et).
  assert (Hor1 : origin_ok (evict_stale c (sec t) s1) origin) by (unfold origin_ok, open in *; by rewrite Ec, Hc).
  split.
  - apply dispatch_routes; [by eapply shrinks_routes; [apply evict_shrinks|]|done|by rewrite Eu].
  - rewrite dispatch_conns. congruence.
Qed.

(** ** Connections *)

Lemma setz_lenz {A} (l : list A) i v : lenz (setz l i v) = lenz l.
Proof. unfold lenz. by rewrite setz_length. Qed.

(** Replacing one connection keeps the routes if none leads to the old one, or
    the descriptor stays. *)
Lemma set_conn_routes s i cn :
  routes_open s -> 0 <= i < lenz (conns s) ->
  (cfd cn = cfd (getz (conns s) i no_conn) \/
   (forall n, active (table s n) = true -> via_tcp (table s n) = true ->
      tcp_fd (table s n) <> cfd (getz (conns s) i no_conn)) /\
   (cfd cn < 0 \/ ~ open s (cfd cn))) ->
  routes_open (set_conns s (setz (conns s) i cn)).
Proof.
  intros [Hu Hr Ho H1] Hi Hcn.
  assert (Hg : forall j, getz (setz (conns s) i cn) j no_conn = if j =? i then cn else getz (conns s) j no_conn)
    by (intros j; by apply getz_setz).
  split; [done|done| |].
  - intros n Ha Hv. destruct (Ho n Ha Hv) as (H0 & j & Hj & Ej). split; [done|]. exists j.
    cbn [conns set_conns]. rewrite setz_lenz, Hg. split; [done|]. destruct (Z.eqb_spec j i) as [->|]; [|done].
    destruct Hcn as [->|[Hno _]]; [done|]. destruct (Hno n Ha Hv). congruence.
  - intros a b. cbn [conns set_conns]. rewrite setz_lenz, !Hg. intros Ha Hb.
    assert (Hfresh : forall k, 0 <= k < lenz (conns s) -> k <> i -> 0 <= cfd cn -> cfd cn <> cfd (getz (conns s) k no_conn)).
    { intros k Hk Hki H0 E. destruct Hcn as [Ec|[_ [Hneg|Hno]]]; [|lia|].
      - apply Hki. symmetry. apply (H1 i k); [done|done|lia|congruence].
      - apply Hno. split; [done|]. by exists k. }
    destruct (Z.eqb_spec a i) as [->|Hai], (Z.eqb_spec b i) as [->|Hbi]; [done| | |by apply H1].
    + intros H0 E. by destruct (Hfresh b Hb Hbi H0).
    + intros H0 E. destruct (Hfresh a Ha Hai); [lia|done].
Qed.

(** A position that is not -1 is a position of the list. *)
Lemma conn_index s slot : 0 <= cfd (getz (conns s) slot no_conn) -> 0 <= slot < lenz (conns s).
Proof.
  unfold getz, lenz. destruct (Z.ltb_spec slot 0); [cbn; lia|]. intros Hc.
  destruct (Nat.ltb_spec (Z.to_nat slot) (length (conns s))) as [|Hge]; [lia|].
  rewrite nth_overflow in Hc by done. cbn in Hc. lia.
Qed.

Lemma dropped_routes s fd n :
  routes_open s -> active (table (drop_routes s fd) n) = true -> via_tcp (table (drop_routes s fd) n) = true ->
  tcp_fd (table (drop_routes s fd) n) <> fd.
Proof.
  intros Hs Ha Hv E. pose proof (drop_shrinks s fd) as (_ & _ & Ht). destruct (Ht n Ha) as (Ha0 & Ev & Ef).
  pose proof (ro_range s Hs n Ha0) as Hn. revert Ha Hv E. unfold drop_routes.
  set (f := fun (m : Z) (s : relay) => _).
  pose proof (for_up_inv (fun j s' => forall k, 1 <= k < j ->
    active (table s' k) = true -> via_tcp (table s' k) = true -> tcp_fd (table s' k) <> fd)
    (Z.to_nat (slots_used s - 1)) 1 f s) as Hinv.
  cbn beta in Hinv. rewrite Z2Nat.id in Hinv by (pose proof (ro_used s Hs); unfold NODE_MAX in *; lia).
  replace (1 + (slots_used s - 1)) with (slots_used s) in Hinv by lia.
  intros Ha Hv E. revert E. apply Hinv; try done.
  - intros k Hk. lia.
  - clear. intros j s' Hj IH k Hk. unfold f. destruct (Z.eq_dec k j) as [->|Hkj].
    + destruct (active (table s' j) && via_tcp (table s' j) && (tcp_fd (table s' j) =? fd)) eqn:Ec.
      * cbn [table set_table]. by rewrite upd_eq.
      * intros Ha Hv. rewrite Ha, Hv in Ec. cbn in Ec. by apply Z.eqb_neq.
    + dif Ec; [|apply IH; lia]. cbn [table set_table]. rewrite upd_ne by lia. apply IH. lia.
Qed.

Lemma close_routes s slot : routes_open s -> routes_open (tcp_conn_close s slot).
Proof.
  intros Hs. unfold tcp_conn_close. destruct (Z.ltb_spec (cfd (getz (conns s) slot no_conn)) 0) as [|Hc]; [done|].
  pose proof (drop_shrinks s (cfd (getz (conns s) slot no_conn))) as Hd. pose proof Hd as (Ec & _ & _).
  set (s1 := drop_routes s (cfd (getz (conns s) slot no_conn))) in *.
  assert (Hs1 : routes_open s1) by (by eapply shrinks_routes).
  apply (set_conn_routes (set_io s1 (os s1) (Closed (cfd (getz (conns s) slot no_conn))))).
  - apply (shrinks_routes s1); [by apply shrinks_same|exact Hs1].
  - cbn [conns set_io]. rewrite Ec. by apply conn_index.
  - right. cbn [cfd]. split; [|left; lia]. cbn [conns set_io table]. rewrite Ec. intros n Ha Hv. by apply dropped_routes.
Qed.

Lemma free_conn_spec cs i k : free_conn cs i = Some k ->
  i <= k < i + lenz cs /\ cfd (getz cs (k - i) no_conn) < 0.
Proof.
  revert i. induction cs as [|cn cs IH]; intros i; [done|]. cbn [free_conn].
  assert (Hl : lenz (cn :: cs) = 1 + lenz cs) by (unfold lenz; simpl; lia).
  pose proof (lenz_nonneg cs). destruct (Z.ltb_spec (cfd cn) 0) as [Hc|Hc].
  - intros [= <-]. split; [lia|]. by rewrite Z.sub_diag.
  - intros E. destruct (IH _ E) as [Hk Hf]. split; [lia|]. revert Hf. unfold getz.
    destruct (Z.ltb_spec (k - (i + 1)) 0), (Z.ltb_spec (k - i) 0); try lia.
    replace (Z.to_nat (k - i)) with (S (Z.to_nat (k - (i + 1)))) by lia. done.
Qed.

Lemma accept_routes s fd from : routes_open s -> ~ open s fd -> routes_open (tcp_accept s fd from).
Proof.
  intros Hs Hfd. unfold tcp_accept. destruct (free_conn (conns s) 0) as [k|] eqn:E.
  2: { apply (shrinks_routes s); [by apply shrinks_same|exact Hs]. }
  apply free_conn_spec in E as [Hk Hf]. rewrite Z.sub_0_r in Hf. apply set_conn_routes; [done|lia|].
  right. split; [|by right]. intros n Ha Hv. destruct (ro_open s Hs n Ha Hv) as [H0 _]. lia.
Qed.

Lemma open_conns s s' fd : conns s' = conns s -> open s fd -> open s' fd.
Proof. intros E. unfold open. by rewrite E. Qed.

Lemma fold_process_routes c t fd from frames s :
  Forall (Forall is_u8) frames -> routes_open s -> open s fd ->
  routes_open (fold_left (fun s f => process_packet c t s fd from f 0) frames s) /\
  conns (fold_left (fun s f => process_packet c t s fd from f 0) frames s) = conns s.
Proof.
  intros HF. revert s. induction HF as [|f frames Hf HF IH]; intros s Hs Ho; [done|]. cbn [fold_left].
  destruct (process_routes c t s fd from f 0 Hf Hs (or_intror Ho)) as [Hs1 E1].
  destruct (IH _ Hs1 (open_conns _ _ _ E1 Ho)) as [Hs2 E2]. split; [done|congruence].
Qed.

(** The frames a reassembler hands over are made of the bytes it was given. *)
Lemma next_bytes r cap p r' : Forall is_u8 (rbytes r) -> tcp_reasm_next r cap = (p, r') ->
  Forall is_u8 (rbytes r') /\ match p with Frame f => Forall is_u8 f | _ => True end.
Proof.
  intros HF. unfold tcp_reasm_next. ifs; intros [= <- <-]; split; try done; cbn [rbytes];
    repeat (apply Forall_drop || apply Forall_take); done.
Qed.

Lemma pop_bytes fuel cap r l r' b : Forall is_u8 (rbytes r) -> pop_all fuel cap r = (l, r', b) ->
  Forall is_u8 (rbytes r') /\ Forall (Forall is_u8) l.
Proof.
  revert r l. induction fuel as [|fuel IH]; intros r l HF; cbn [pop_all]; [intros [= <- <- _]; by split|].
  destruct (tcp_reasm_next r cap) as [p r1] eqn:En. apply next_bytes in En as [H1 Hp]; [|done].
  destruct (pop_code p =? 0); [intros [= <- <- _]; by split|].
  destruct (pop_code p <? 0); [intros [= <- <- _]; by split|].
  destruct p as [|f|]; [intros [= <- <- _]; by split| |intros [= <- <- _]; by split].
  destruct (pop_all fuel cap r1) as [[l1 r2] b1] eqn:Ep. intros [= <- <- <-].
  destruct (IH _ _ H1 Ep). split; [done|by constructor].
Qed.

Lemma drain_read_bytes cap r rd l r' b : Forall is_u8 (rbytes r) -> Forall is_u8 rd ->
  drain_read cap r rd = (l, r', b) -> Forall is_u8 (rbytes r') /\ Forall (Forall is_u8) l.
Proof.
  intros Hr Hrd. unfold drain_read, tcp_reasm_push.
  set (n := if TCP_FRAME_MAXBUF - lenz (rbytes r) <? lenz rd then TCP_FRAME_MAXBUF - lenz (rbytes r) else lenz rd).
  assert (HF : Forall is_u8 (rbytes r ++ take (Z.to_nat n) rd)) by (apply Forall_app; split; [done|by apply Forall_take]).
  destruct (n <? lenz rd); [intros [= <- <- _]; by split|]. by apply pop_bytes.
Qed.

(** ** Every run *)

(** What the kernel can deliver: bytes, and a descriptor for a new connection
    that is not one of the open ones. *)
Definition admissible (s : relay) (e : event) : Prop :=
  match e with
  | Tick | Hangup _ => True
  | Datagram _ b _ => Forall is_u8 b
  | Accept fd _ => ~ open s fd
  | Read _ rd => Forall is_u8 rd
  end.

Inductive reachable (c : config) : relay -> Prop :=
  | reach_start o : reachable c (relay0 o)
  | reach_turn s t e : reachable c s -> admissible s e -> reachable c (loop_step c t s e).

(** The buffered bytes of every connection are bytes. *)
Definition bytes_in (s : relay) : Prop :=
  forall i, Forall is_u8 (rbytes (reasm (getz (conns s) i no_conn))).

Lemma set_conn_bytes s i cn : bytes_in s -> Forall is_u8 (rbytes (reasm cn)) -> bytes_in (set_conns s (setz (conns s) i cn)).
Proof.
  intros Hb Hcn j. cbn [conns set_conns]. specialize (Hb j). unfold getz, setz in *.
  destruct (i <? 0); [done|]. destruct (j <? 0); [done|]. rewrite nth_insert. by case_decide.
Qed.

Lemma conns_bytes s s' : conns s' = conns s -> bytes_in s -> bytes_in s'.
Proof. intros E Hb j. rewrite E. apply Hb. Qed.

Lemma close_bytes s slot : bytes_in s -> bytes_in (tcp_conn_close s slot).
Proof.
  intros Hb. unfold tcp_conn_close. dif E; [done|].
  pose proof (drop_shrinks s (cfd (getz (conns s) slot no_conn))) as (Ec & _ & _).
  set (s1 := drop_routes s _) in *. apply (set_conn_bytes (set_io s1 (os s1) _)).
  - by apply (conns_bytes s).
  - apply Hb.
Qed.

Lemma read_routes c t s slot rd :
  routes_open s -> bytes_in s -> Forall is_u8 rd -> 0 <= cfd (getz (conns s) slot no_conn) ->
  routes_open (tcp_read c t s slot rd) /\ bytes_in (tcp_read c t s slot rd).
Proof.
  intros Hs Hb Hrd Hc. unfold tcp_read. destruct (drain_read MAX_PKT (reasm (getz (conns s) slot no_conn)) rd) as [[frames r] dead] eqn:Ed.
  destruct (drain_read_bytes _ _ _ _ _ _ (Hb slot) Hrd Ed) as [Hr Hfr]. pose proof (conn_index s slot Hc) as Hi.
  set (cn := getz (conns s) slot no_conn) in *. set (s1 := set_conns s (setz (conns s) slot (Conn (cfd cn) (peer cn) r))).
  assert (Hs1 : routes_open s1) by (apply set_conn_routes; [done|done|by left]).
  assert (Hb1 : bytes_in s1) by (by apply set_conn_bytes).
  assert (Ho : open s1 (cfd cn)).
  { split; [done|]. exists slot. cbn [conns s1 set_conns]. rewrite setz_lenz, getz_setz, Z.eqb_refl by done. done. }
  destruct (fold_process_routes c t (cfd cn) (peer cn) frames s1 Hfr Hs1 Ho) as [Hs2 E2].
  set (s2 := fold_left _ frames s1) in *. assert (Hb2 : bytes_in s2) by (by apply (conns_bytes s1)).
  destruct dead; [split; [by apply close_routes|by apply close_bytes]|done].
Qed.

Lemma nth_replicate {A} (x : A) n k : nth k (replicate n x) x = x.
Proof. revert k. induction n as [|n IH]; intros [|k]; simpl; auto. Qed.

Lemma reachable_routes c s : reachable c s -> routes_open s /\ bytes_in s.
Proof.
  induction 1 as [o|s t e Hr [Hs Hb] He].
  - split; [split|].
    + cbn. unfold NODE_MAX, NODE_SLOTS. lia.
    + done.
    + done.
    + intros i j _ _ H0 _. exfalso. revert H0. unfold getz. destruct (i <? 0); [cbn; lia|].
      cbn [conns relay0]. rewrite nth_replicate. cbn. lia.
    + intros i. unfold getz. destruct (i <? 0); [constructor|]. cbn [conns relay0].
      rewrite nth_replicate. constructor.
  - unfold loop_step. pose proof (flush_shrinks c t s) as Hf. pose proof Hf as (Ec & _ & _).
    set (s1 := flush_due c t s) in *. clearbody s1.
    assert (Hs1 : routes_open s1) by (by eapply shrinks_routes). assert (Hb1 : bytes_in s1) by (by apply (conns_bytes s)).
    assert (Hop : forall fd, open s1 fd -> open s fd) by (intros fd; by apply open_conns).
    destruct e as [|from b rx|fd from|slot rd|slot]; cbn [admissible] in He; [done| | | |].
    + destruct (process_routes c t s1 (-1) from (take (Z.to_nat MAX_PKT) b) rx) as [Hp Ep];
        [by apply Forall_take|done|left; lia|]. split; [done|by apply (conns_bytes s1)].
    + split; [apply accept_routes; auto|]. unfold tcp_accept. destruct (free_conn (conns s1) 0); [|by apply (conns_bytes s1)].
      apply set_conn_bytes; [done|constructor].
    + destruct (Z.ltb_spec (cfd (getz (conns s1) slot no_conn)) 0); [done|]. by apply read_routes.
    + split; [by apply close_routes|by apply close_bytes].
Qed.

(** C34: no route dangles. In every state the main loop can reach, an active entry
    lies in the slots in use, and one reached over TCP names a connection that
    is accepted and not closed, so no packet is written to a closed descriptor. *)
Theorem routes_never_dangle c s n (Hr : reachable c s) (Ha : active (table s n) = true) :
  1 <= n < slots_used s /\ slots_used s <= NODE_SLOTS /\
  (via_tcp (table s n) = true -> open s (tcp_fd (table s n))).
Proof.
  destruct (reachable_routes c s Hr) as [Hs _]. split; [by apply ro_range|]. split; [apply (ro_used s Hs)|].
  by apply ro_open.
Qed.

Definition open_cfg : config := Config true [] false 300 false 0 (-1) (fun _ => false).
Definition v1_pkt (typ s d : Z) (pay : list Z) : list Z :=
  [0x59; 0x4C; 0x45; 0x52; 1; typ; s; d; 0; 0; 0; 0] ++ pay.
Definition framed (p : list Z) : list Z := match tcp_frame_encode p with Some f => f | None => [] end.

(** A node registers over a fresh connection. *)
Definition joined : relay :=
  loop_step open_cfg (Clock 6 6 6)
    (loop_step open_cfg (Clock 5 5 5) (relay0 [Wrote 5; Again false]) (Accept 5 peer1))
    (Read 0 (framed (v1_pkt 1 2 0 []))).

Lemma fresh_fd o fd : 0 <= fd -> ~ open (loop_step open_cfg (Clock 5 5 5) (relay0 o) Tick) fd.
Proof.
  intros Hfd [_ (i & _ & E)]. pose proof (flush_shrinks open_cfg (Clock 5 5 5) (relay0 o)) as (Ec & _ & _).
  revert E. cbn [loop_step]. rewrite Ec. unfold getz. destruct (i <? 0); [cbn; lia|]. cbn [conns relay0].
  rewrite nth_replicate. cbn. lia.
Qed.

Lemma routes_never_dangle_witness :
  active (table joined 2) = true /\ open joined (tcp_fd (table joined 2)).
Proof.
  assert (Ha : active (table joined 2) = true) by (vm_compute; reflexivity). split; [exact Ha|].
  apply (routes_never_dangle open_cfg joined 2); [|exact Ha|vm_compute; reflexivity].
  apply reach_turn.
  - apply reach_turn; [apply reach_start|]. cbn [admissible]. intros [H0 (i & _ & E)]. revert E. unfold getz.
    destruct (i <? 0); [cbn; lia|]. cbn [conns relay0]. rewrite nth_replicate. cbn. lia.
  - cbn [admissible]. apply (bool_decide_unpack (Forall is_u8 (framed (v1_pkt 1 2 0 [])))). vm_compute. exact I.
Defined.

(** ** Leases *)

Lemma find_first {A} (f : A -> bool) l x : List.find f l = Some x -> x ∈ l /\ f x = true.
Proof. intros H%find_some. by rewrite list_elem_of_In. Qed.

Lemma find_none_all {A} (f : A -> bool) l x : List.find f l = None -> x ∈ l -> f x = false.
Proof. intros H Hx. apply (find_none _ _ H). by apply list_elem_of_In. Qed.

(** Leases are exclusive. A lease request is answered with an id that was free
    or already leased to the same address, every other entry stays as it is,
    and it is refused only when all 255 ids are in use. *)
Theorem lease_exclusive c s now from ver origin reads (Hver : origin < 0) :
  let id := lease_pick s from in
  let s' := handle_lease c s now from ver origin reads in
  (forall n, n <> id -> table s' n = table s n) /\
  (id <> 0 -> 1 <= id < NODE_MAX /\ (active (table s id) = false \/ holds_lease (table s id) from = true) /\
     holds_lease (table s' id) from = true /\ last_seen (table s' id) = now) /\
  (id = 0 -> forall n, 1 <= n < NODE_MAX -> active (table s n) = true /\ holds_lease (table s n) from = false).
Proof.
  intros id s'. assert (Ht : table s' = if id =? 0 then table s
    else upd (table s) id (NodeEnt from now true true (0 <=? origin) origin reads)).
  { subst s' id. unfold handle_lease, send_lease_grant. destruct (Z.leb_spec 0 origin); [lia|].
    by destruct (lease_pick s from =? 0), (ver =? RELAY_VERSION_V2). }
  rewrite Ht. split; [|split].
  - intros n Hn. destruct (id =? 0); [done|]. by apply upd_ne.
  - intros Hid. destruct (Z.eqb_spec id 0); [done|]. rewrite upd_eq. split_and!.
    + destruct (lease_pick_range s from); [done|lia].
    + destruct (lease_pick_range s from); [done|lia].
    + subst id. unfold lease_pick in *. destruct (List.find _ _) as [k|] eqn:E.
      * right. apply find_first in E as [_ E]. exact E.
      * destruct (List.find (fun m => negb _) _) as [k|] eqn:E2; [|done]. left.
        apply find_first in E2 as [_ E2]. by apply negb_true_iff.
    + unfold holds_lease. cbn. by rewrite bool_decide_true.
    + done.
  - intros Hid n Hn. assert (Hin : n ∈ seqZ 1 (NODE_MAX - 1)) by (apply elem_of_seqZ; lia).
    subst id. unfold lease_pick in Hid. destruct (List.find _ _) as [k|] eqn:E.
    + apply find_first in E as [Hk _]. apply elem_of_seqZ in Hk. lia.
    + destruct (List.find (fun m => negb _) _) as [k|] eqn:E2.
      * apply find_first in E2 as [Hk _]. apply elem_of_seqZ in Hk. lia.
      * apply (find_none_all _ _ n) in E, E2; [|done|done]. split; [|done]. by apply negb_false_iff.
Qed.

Lemma lease_exclusive_witness :
  lease_pick (relay0 []) peer1 = 1 /\
  holds_lease (table (handle_lease demo_cfg (relay0 []) 5 peer1 2 (-1) false) 1) peer1 = true.
Proof.
  assert (E : lease_pick (relay0 []) peer1 = 1) by reflexivity. split; [exact E|].
  destruct (lease_exclusive demo_cfg (relay0 []) 5 peer1 2 (-1) false) as (_ & H & _); [lia|].
  rewrite E in H. apply H. discriminate.
Defined.

Lemma verify_own k p : length k = 32%nat -> hmac_of p = compute_mac k p -> verify_mac k p = true.
Proof. intros Hk E. unfold verify_mac. rewrite E, ct_eq_spec by done. by apply bool_decide_true. Qed.

(** A grant round trip. What the relay sends for a lease under version 2 is
    parsed by the same wire format as a REGISTER from node 0 to the granted id
    with the relay's nonce, and its MAC verifies under the shared key. *)
Theorem grant_verifies c s to id (Hk : length (key c) = 32%nat) (Hid : 0 <= id < NODE_MAX)
  (Hn : 0 <= grant_nonce s < 2 ^ 64) :
  exists bytes g, out (send_lease_grant c s to RELAY_VERSION_V2 id (-1)) = out s ++ [Udp to bytes] /\
    parse_packet bytes = Some g /\ verify_mac (key c) g = true /\
    type g = REL_REGISTER /\ src g = 0 /\ dst g = id /\ nonce g = grant_nonce s.
Proof.
  set (gp := Pkt RELAY_VERSION_V2 REL_REGISTER 0 id false (grant_nonce s) [] []).
  set (bytes := grant_header RELAY_VERSION_V2 id ++ le 8 (grant_nonce s) ++ compute_mac (key c) gp).
  set (g := Pkt RELAY_VERSION_V2 REL_REGISTER 0 id false (grant_nonce s) (compute_mac (key c) gp) []).
  exists bytes, g. split; [done|].
  assert (Hm : length (compute_mac (key c) gp) = 16%nat) by (by apply compute_mac_length).
  assert (E7 : Z.land id 0xff = id) by (rewrite land_ff; apply Z.mod_small; unfold NODE_MAX in *; lia).
  split; [|split; [|done]].
  - unfold parse_packet. assert (Hl : lenz bytes = 36).
    { unfold lenz, bytes. rewrite !length_app, le_length, Hm. done. }
    rewrite Hl. change (getz bytes 0 0) with 0x59. change (getz bytes 1 0) with 0x4C. change (getz bytes 2 0) with 0x45.
    change (getz bytes 3 0) with 0x52. change (getz bytes 4 0) with 2. change (getz bytes 5 0) with 1.
    change (getz bytes 6 0) with 0. change (getz bytes 7 0) with (Z.land id 0xff).
    change (getz bytes RELAY_READS_V3_AT 0) with 0. rewrite E7.
    change (drop 12 bytes) with (le 8 (grant_nonce s) ++ compute_mac (key c) gp).
    rewrite take_app_length' by (by rewrite le_length). rewrite of_le_le, Z.mod_small by (simpl; lia).
    assert (E20 : drop 20 bytes = compute_mac (key c) gp).
    { change (drop 20 bytes) with (drop 8 (le 8 (grant_nonce s) ++ compute_mac (key c) gp)).
      by rewrite drop_app_length' by (by rewrite le_length). }
    assert (E36 : drop 36 bytes = []) by (apply drop_ge; unfold lenz in Hl; lia).
    rewrite E20, E36, take_ge by lia. reflexivity.
  - apply verify_own; [done|]. reflexivity.
Qed.

Lemma grant_verifies_witness :
  exists bytes g, out (send_lease_grant demo_cfg (relay0 []) peer1 RELAY_VERSION_V2 7 (-1)) = [Udp peer1 bytes] /\
    parse_packet bytes = Some g /\ dst g = 7.
Proof.
  destruct (grant_verifies demo_cfg (relay0 []) peer1 7) as (b & g & Ho & Hp & _ & _ & _ & Hd & _);
    [reflexivity|unfold NODE_MAX; lia|cbn; lia|].
  exists b, g. split; [exact Ho|]. by split.
Defined.

(** ** The delay queue *)

Definition due (t : clock) (e : DelayedPkt) : bool := used e && (due_ms e <=? ms t).
Definition cleared (t : clock) (e : DelayedPkt) : DelayedPkt :=
  if due t e then Delayed (due_ms e) (ddst e) false (dbuf e) else e.
Definition deliver_all (c : config) (t : clock) (s : relay) (q : list DelayedPkt) : relay :=
  fold_left (fun s e => deliver_now c s (ddst e) (dbuf e) (sec t)) q s.

Lemma deliver_dq c s d buf now q : deliver_now c (set_dq s q) d buf now = set_dq (deliver_now c s d buf now) q.
Proof.
  unfold deliver_now. cbn [table set_dq]. destruct (_ || _); [done|]. destruct (negb _); [done|].
  destruct (_ && _); [done|]. destruct (_ <? _); [done|]. destruct (via_tcp (table s d)); [|done].
  unfold tcp_write_framed. destruct (MAX_PKT <? lenz buf); [done|]. destruct (tcp_frame_encode buf); [|done].
  cbn [os set_dq]. by destruct (write_loop (os s) l []) as [[[] sent] o].
Qed.

Lemma deliver_all_dq c t s q l : deliver_all c t (set_dq s q) l = set_dq (deliver_all c t s l) q.
Proof.
  unfold deliver_all. revert s. induction l as [|e l IH]; intros s; [done|]. cbn [fold_left].
  by rewrite deliver_dq, IH.
Qed.

Lemma deliver_all_app c t s l l' : deliver_all c t s (l ++ l') = deliver_all c t (deliver_all c t s l) l'.
Proof. apply fold_left_app. Qed.

Lemma set_dq_id s : set_dq s (dq s) = s.
Proof. by destruct s. Qed.

Lemma flush_loop c t s n :
  (n <= length (dq s))%nat ->
  for_up n 0 (flush_one c t) s =
  set_dq (deliver_all c t s (List.filter (due t) (take n (dq s)))) (map (cleared t) (take n (dq s)) ++ drop n (dq s)).
Proof.
  induction n as [|n IH]; intros Hn; [by rewrite set_dq_id|].
  rewrite for_up_last, IH by lia. clear IH. destruct (lookup_lt_is_Some_2 (dq s) n) as [e He]; [lia|].
  set (q1 := map (cleared t) (take n (dq s))).
  assert (Hq : length q1 = n) by (unfold q1; rewrite length_map, length_take; lia).
  assert (Hd : drop n (dq s) = e :: drop (S n) (dq s)) by (by apply drop_S).
  rewrite (take_S_r _ _ _ He), filter_app, map_app, deliver_all_app. fold q1. rewrite Hd.
  unfold flush_one. cbn [dq set_dq]. rewrite Z.add_0_l.
  assert (Hg : getz (q1 ++ e :: drop (S n) (dq s)) (Z.of_nat n) no_pkt = e).
  { unfold getz. destruct (Z.ltb_spec (Z.of_nat n) 0); [lia|]. by rewrite Nat2Z.id, app_nth2, Hq, Nat.sub_diag by lia. }
  rewrite Hg. fold (due t e). cbn [List.filter map]. unfold cleared at 1. destruct (due t e) eqn:E.
  - rewrite deliver_dq. cbn [dq set_dq]. change (deliver_all c t ?x [e]) with (deliver_now c x (ddst e) (dbuf e) (sec t)).
    unfold setz. destruct (Z.ltb_spec (Z.of_nat n) 0); [lia|]. rewrite Nat2Z.id, insert_app_r_alt, Hq, Nat.sub_diag by lia.
    cbn. by rewrite <- app_assoc.
  - cbn [deliver_all fold_left]. by rewrite <- app_assoc.
Qed.

(** A turn of the loop sends what is due, once. Flushing equals delivering the
    due packets in the order of the queue and freeing exactly their entries:
    none is lost, none is sent early, none is sent again. *)
Theorem flush_exact c t s (Hq : length (dq s) = Z.to_nat DELAY_Q_MAX) :
  flush_due c t s = set_dq (deliver_all c t s (List.filter (due t) (dq s))) (map (cleared t) (dq s)) /\
  List.filter (due t) (dq (flush_due c t s)) = [].
Proof.
  assert (E : flush_due c t s = set_dq (deliver_all c t s (List.filter (due t) (dq s))) (map (cleared t) (dq s))).
  { unfold flush_due. rewrite <- Hq, flush_loop by done.
    by rewrite take_ge, drop_ge, app_nil_r by done. }
  split; [exact E|]. rewrite E. cbn [dq set_dq]. clear. induction (dq s) as [|e q IH]; [done|].
  cbn [map List.filter]. assert (Hc : due t (cleared t e) = false).
  { unfold cleared. destruct (due t e) eqn:E; [done|exact E]. }
  by rewrite Hc.
Qed.

Definition far_cfg : config := Config true [] false 300 false 0 40 (fun n => n =? 2).
Definition two_nodes (o : list wres) : relay :=
  process_packet far_cfg (Clock 5 5 5) (process_packet far_cfg (Clock 5 5 5) (relay0 o) (-1) peer1 (v1_pkt 1 1 0 []) 0)
    (-1) peer2 (v1_pkt 1 2 0 []) 0.
Definition held : relay := process_packet far_cfg (Clock 6 10 0) (two_nodes []) (-1) peer1 (v1_pkt 2 1 2 [65]) 0.

(** A packet held back 40 ms: not sent at 49, sent once at 50. *)
Lemma flush_exact_witness :
  out (flush_due far_cfg (Clock 6 49 0) held) = [] /\
  out (flush_due far_cfg (Clock 6 50 0) held) = [Udp peer2 (v1_pkt 2 1 2 [65])].
Proof.
  assert (Hq : length (dq held) = Z.to_nat DELAY_Q_MAX) by (vm_compute; reflexivity).
  split; (etransitivity; [apply f_equal, (proj1 (flush_exact far_cfg _ held Hq))|vm_compute; reflexivity]).
Defined.

(** ** Streams *)

(** What was written to one descriptor. *)
Definition stream (fd : Z) (o : list output) : list Z :=
  concat (map (fun w => match w with Stream f b => if f =? fd then b else [] | _ => [] end) o).

Lemma stream_app fd o o' : stream fd (o ++ o') = stream fd o ++ stream fd o'.
Proof. unfold stream. by rewrite map_app, concat_app. Qed.

Lemma write_loop_spec o rest sent ok w o' : write_loop o rest sent = (ok, w, o') ->
  if ok then w = sent ++ rest else exists pre, pre `prefix_of` rest /\ pre <> rest /\ w = sent ++ pre.
Proof.
  revert rest sent. induction o as [|r o IH]; intros rest sent.
  - destruct rest as [|b rest]; cbn [write_loop]; intros [= <- <- _]; [by rewrite app_nil_r|done].
  - destruct rest as [|b rest]; cbn [write_loop]; [intros [= <- <- _]; by rewrite app_nil_r|].
    assert (Hstop : exists pre, pre `prefix_of` b :: rest /\ pre <> b :: rest /\ sent = sent ++ pre).
    { exists []. split_and!; [apply prefix_nil|done|by rewrite app_nil_r]. }
    destruct r as [n|[]| |]; try (by intros [= <- <- _]); try apply IH.
    destruct (0 <? n); [|by intros [= <- <- _]]. intros E%IH. destruct ok.
    + by rewrite E, <- app_assoc, take_drop.
    + destruct E as (pre & [post Hp] & Hne & ->). exists (take (Z.to_nat n) (b :: rest) ++ pre).
      rewrite <- app_assoc. split_and!; [|intros E|done].
      * exists post. rewrite <- app_assoc, <- Hp. by rewrite take_drop.
      * apply Hne. apply (app_inv_head (take (Z.to_nat n) (b :: rest))). by rewrite E, take_drop.
Qed.

Fixpoint write_all (s : relay) (fd : Z) (pkts : list (list Z)) : bool * relay :=
  match pkts with
  | [] => (true, s)
  | p :: pkts' => let '(ok, s) := tcp_write_framed s fd p in if ok then write_all s fd pkts' else (false, s)
  end.

Lemma write_all_stream s fd pkts s' :
  Forall (sendable MAX_PKT) pkts -> write_all s fd pkts = (true, s') ->
  stream fd (out s') = stream fd (out s) ++ wire pkts.
Proof.
  intros HF. revert s. induction HF as [|p pkts [Hb Hp] HF IH]; intros s; cbn [write_all].
  - intros [= <-]. unfold wire. by rewrite app_nil_r.
  - unfold tcp_write_framed. destruct (Z.ltb_spec MAX_PKT (lenz p)); [done|].
    destruct (tcp_frame_encode p) as [f|] eqn:Ef; [|done].
    destruct (write_loop (os s) f []) as [[[] w] o] eqn:Ew; [|done]. apply write_loop_spec in Ew. simpl in Ew. subst w.
    intros E%IH. rewrite E. cbn [out set_io]. rewrite stream_app, <- app_assoc. f_equal.
    unfold stream, wire. cbn [map concat]. by rewrite Z.eqb_refl, Ef, app_nil_r.
Qed.

(** From the relay to a TCP peer and back to packets. If every write of a
    sequence of packets to one stream completes, then however the kernel cut
    the writes (short counts, retries) and however the peer's reads cut the
    stream, the peer's de-framer gives exactly those packets, in order. *)
Theorem stream_delivers s fd pkts s' reads (Hpk : Forall (sendable MAX_PKT) pkts)
  (Hnew : stream fd (out s) = []) (Hw : write_all s fd pkts = (true, s'))
  (Hcut : concat reads = stream fd (out s')) (Hlen : Forall (fun rd : list Z => lenz rd <= 2048) reads) :
  exists r, drain MAX_PKT tcp_reasm_init reads = (pkts, r, false) /\ rbytes r = [].
Proof.
  apply (drain_spec MAX_PKT); [unfold MAX_PKT, RELAY_HEADER_LEN, RELAY_AUTH_LEN, MAX_PAYLOAD; lia|done| |done].
  split; [by rewrite Hcut, (write_all_stream s fd pkts s' Hpk Hw), Hnew|].
  destruct Hpk as [|p pkts [_ Hp] _]; [done|]. change (lenz (rbytes tcp_reasm_init)) with 0. lia.
Qed.

Lemma stream_delivers_witness :
  exists r, drain MAX_PKT tcp_reasm_init [[0]; [3; 1]; [2; 3; 0; 1; 9]] = ([[1; 2; 3]; [9]], r, false) /\ rbytes r = [].
Proof.
  destruct (write_all (relay0 [Wrote 2; Intr; Again true; Wrote 3; Wrote 1]) 5 [[1; 2; 3]; [9]]) as [ok s'] eqn:E.
  apply (stream_delivers (relay0 [Wrote 2; Intr; Again true; Wrote 3; Wrote 1]) 5 [[1; 2; 3]; [9]] s').
  - apply (bool_decide_unpack (Forall (sendable MAX_PKT) [[1; 2; 3]; [9]])). vm_compute. exact I.
  - reflexivity.
  - rewrite E. vm_compute in E. by injection E as <- <-.
  - vm_compute in E. injection E as _ <-. reflexivity.
  - apply (bool_decide_unpack (Forall (fun rd : list Z => lenz rd <= 2048) [[0]; [3; 1]; [2; 3; 0; 1; 9]])).
    vm_compute. exact I.
Defined.

(** A write that stops after five bytes: the route is dropped, the stream is
    not. The peer's next keepalive brings the route back, and everything sent
    after it is read out of step. *)
Definition broken : relay :=
  let s := loop_step open_cfg (Clock 6 6 6) joined (Datagram peer2 (v1_pkt 1 1 0 []) 0) in
  let s := loop_step open_cfg (Clock 7 7 7) s (Datagram peer2 (v1_pkt 2 1 2 [65]) 0) in
  let s := loop_step open_cfg (Clock 8 8 8) s (Read 0 (framed (v1_pkt 3 2 0 []))) in
  loop_step open_cfg (Clock 9 9 9) s (Datagram peer2 (v1_pkt 2 1 2 [66]) 0).

(** A failed write to a TCP peer marks the route dead but leaves the stream
    open with half a frame on it; when the peer's keepalive revives the route,
    later packets are framed behind the half frame and the peer takes other
    packets out of the stream than the relay put in. *)
Theorem partial_write_desync :
  active (table broken 2) = true /\ open broken 5 /\
  let frames := fst (fst (drain MAX_PKT tcp_reasm_init [stream 5 (out broken)])) in
  frames <> [] /\ (v1_pkt 3 2 0 [] ∉ frames) /\ (v1_pkt 2 1 2 [66] ∉ frames).
Proof.
  split; [vm_compute; reflexivity|]. split.
  - split; [lia|]. exists 0. vm_compute. split; [split; congruence|reflexivity].
  - cbn zeta. split; [vm_compute; discriminate|].
    split; apply (bool_decide_unpack (_ ∉ _)); vm_compute; exact I.
Qed.
