(* ===== verification/Guard.v ===== *)
(** * The task guard ([guard.c])

    A table of guarded tasks. The handler of a fault looks the running task up
    and sends it to an emergency stack; there it marks its entry dead and leaves.
    The supervisor starts dead entries again after a pause that doubles with
    every death. A fault the handler refuses
    aborts the node. The functions are programs of Step.v on the table; what the
    kernel answers and the clock are arguments. [step] interleaves the faults of
    all tasks, guarded or not, the killer up to the point where it lets another
    kill begin, its leaving, the turns of the supervisor, the registrations, and
    tasks outside the guard that are made and end. *)

From stdpp Require Import list gmap.
From S2P Require Import Prelude Step.
#[local] Open Scope Z_scope.

Definition GUARD_MAX : Z := 8.
Definition GUARD_NAME_LEN : Z := 16.
Definition GUARD_MAX_DEATHS : Z := 5.
Definition GUARD_BACKOFF_MS : Z := 200.
Definition GUARD_ST_FREE : Z := 0.
Definition GUARD_ST_RUNNING : Z := 1.
Definition GUARD_ST_DEAD : Z := 2.
Definition GUARD_ST_GIVEN_UP : Z := 3.
Definition E_OK : Z := 0.
Definition E_LIMIT : Z := -34.

(** [recover_fn] and [entry] are the addresses of the functions, 0 for none. *)
Record GUARD_ENT := GEnt {
  g_state : Z; g_name : list Z; entry : Z; stack_size : Z; priority : Z; recover_fn : Z; tid : Z;
  deaths : Z; last_death_ms : Z; last_recover_ms : Z; f_sig : Z; f_pc : Z; f_addr : Z }.

Definition no_guard : GUARD_ENT := GEnt GUARD_ST_FREE (replicate 16 0) 0 0 0 0 0 0 0 0 0 0 0.

Record guard := Guard { g_tab : list GUARD_ENT; g_sup_tid : Z; g_inited : bool; g_killing : bool; g_dying_idx : Z }.

Definition guard0 : guard := Guard (replicate 8 no_guard) 0 false false (-1).

(** What the module asks of the kernel. [Cre] and [Sta] are the calls that start
    a task; the supervisor's own is [CreSup]. *)
Inductive effect : Type :=
  | CreSup | Cre (task stack prio : Z) | Sta (id : Z) | Del (id : Z) | Recover (fn : Z) | Wup (id : Z) | Exd.

Abbreviation op := (io guard effect).

Definition ent (i : Z) (s : guard) : GUARD_ENT := getz (g_tab s) i no_guard.
Definition with_tab (t : list GUARD_ENT) (s : guard) : guard := Guard t (g_sup_tid s) (g_inited s) (g_killing s) (g_dying_idx s).
Definition with_kill (k : bool) (i : Z) (s : guard) : guard := Guard (g_tab s) (g_sup_tid s) (g_inited s) k i.
Definition set_ent (i : Z) (e : GUARD_ENT) : op unit := modify (fun s => with_tab (setz (g_tab s) i e) s).

Definition fault_of (e : GUARD_ENT) (sig pc addr : Z) : GUARD_ENT :=
  GEnt (g_state e) (g_name e) (entry e) (stack_size e) (priority e) (recover_fn e) (tid e)
    (deaths e) (last_death_ms e) (last_recover_ms e) sig pc addr.
Definition died (e : GUARD_ENT) (now : Z) : GUARD_ENT :=
  GEnt GUARD_ST_DEAD (g_name e) (entry e) (stack_size e) (priority e) (recover_fn e) 0
    (u32 (deaths e + 1)) now (last_recover_ms e) (f_sig e) (f_pc e) (f_addr e).
Definition given_up (e : GUARD_ENT) : GUARD_ENT :=
  GEnt GUARD_ST_GIVEN_UP (g_name e) (entry e) (stack_size e) (priority e) (recover_fn e) (tid e)
    (deaths e) (last_death_ms e) (last_recover_ms e) (f_sig e) (f_pc e) (f_addr e).
Definition rearmed (e : GUARD_ENT) (now : Z) : GUARD_ENT :=
  GEnt (g_state e) (g_name e) (entry e) (stack_size e) (priority e) (recover_fn e) (tid e)
    (deaths e) now (last_recover_ms e) (f_sig e) (f_pc e) (f_addr e).
Definition respawned (e : GUARD_ENT) (id now : Z) : GUARD_ENT :=
  GEnt GUARD_ST_RUNNING (g_name e) (entry e) (stack_size e) (priority e) (recover_fn e) id
    (deaths e) (last_death_ms e) now (f_sig e) (f_pc e) (f_addr e).
Definition started (e : GUARD_ENT) (id : Z) : GUARD_ENT :=
  GEnt GUARD_ST_RUNNING (g_name e) (entry e) (stack_size e) (priority e) (recover_fn e) id
    (deaths e) (last_death_ms e) (last_recover_ms e) (f_sig e) (f_pc e) (f_addr e).

(** Whether the kernel was in a state where the fault of a task can be handled:
    [in_indp()] and [knl_dispatch_disabled]. *)
Record context := Context { indp : bool; ddsp : bool; ctxtsk : Z }.

Definition is_running (t : Z) (e : GUARD_ENT) : bool := (g_state e =? GUARD_ST_RUNNING) && (tid e =? t).

(** True: the task goes on at the killer, on the emergency stack. False: the
    node aborts. *)
Definition guard_fault_isolate (sig pc addr : Z) (c : context) : op bool :=
  s ← get;
  if g_killing s then ret false
  else if indp c then ret false
  else if ddsp c then ret false
  else
    let i := first_ix (is_running (ctxtsk c)) (g_tab s) 0 in
    if i <? 0 then ret false
    else
      set_ent i (fault_of (ent i s) sig pc addr) ;;
      modify (with_kill true i) ;;
      ret true.

(** [fault_handler] of arch/linux: a fault inside an interrupt-disabled window
    is not offered to the guard. False: the default action of the signal ends the
    process, and with it every task. *)
Definition fault_handler (irq_off : bool) (sig pc addr : Z) (c : context) : op bool :=
  if irq_off then ret false else guard_fault_isolate sig pc addr c.

(** The killer up to [g_killing = 0], from there on, and as a whole. *)
Definition killer_mark (now : Z) : op unit :=
  s ← get;
  set_ent (g_dying_idx s) (died (ent (g_dying_idx s) s) now) ;;
  modify (fun s => with_kill false (g_dying_idx s) s).

Definition killer_leave : op unit :=
  s ← get;
  when (0 <? g_sup_tid s) (call (Wup (g_sup_tid s))) ;;
  call Exd.

Definition guard_task_killer (now : Z) : op unit := killer_mark now ;; killer_leave.

(** The answers of [tk_cre_tsk] and [tk_sta_tsk], and the clock before and after. *)
Record answer := Answer { cre : Z; sta : Z; clk_before : Z; clk_after : Z }.

Definition guard_spawn (e : GUARD_ENT) (a : answer) : op Z :=
  call (Cre (entry e) (stack_size e) (priority e)) ;;
  if cre a <? E_OK then ret (cre a)
  else
    call (Sta (cre a)) ;;
    if sta a <? E_OK then call (Del (cre a)) ;; ret (sta a) else ret (cre a).

Definition backoff (e : GUARD_ENT) : Z := u32 (Z.shiftl GUARD_BACKOFF_MS (u32 (deaths e - 1))).
Definition paused (e : GUARD_ENT) (now : Z) : bool := u32 (now - last_death_ms e) <? backoff e.

(** The supervisor at entry [i]. *)
Definition sup_entry (a : Z -> answer) (i : Z) : op unit :=
  s ← get;
  let e := ent i s in
  if negb (g_state e =? GUARD_ST_DEAD) then ret tt
  else if GUARD_MAX_DEATHS <? deaths e then set_ent i (given_up e)
  else if paused e (clk_before (a i)) then ret tt
  else
    unless (recover_fn e =? 0) (call (Recover (recover_fn e))) ;;
    id ← guard_spawn e (a i);
    if id <? E_OK then set_ent i (rearmed e (clk_after (a i)))
    else set_ent i (respawned e id (clk_after (a i))).

Definition sup_turn (a : Z -> answer) : op unit := iter (seqZ 0 GUARD_MAX) (sup_entry a).

Definition guard_init (sup sup_sta : Z) : op unit :=
  s ← get;
  if g_inited s then ret tt
  else
    iter (seqZ 0 GUARD_MAX) (fun i => s ← get;
      let e := ent i s in
      set_ent i (GEnt GUARD_ST_FREE (g_name e) (entry e) (stack_size e) (priority e) (recover_fn e) (tid e)
        (deaths e) (last_death_ms e) (last_recover_ms e) (f_sig e) (f_pc e) (f_addr e))) ;;
    call CreSup ;;
    if sup <? E_OK then ret tt
    else
      call (Sta sup) ;;
      if sup_sta <? E_OK then ret tt
      else modify (fun s => Guard (g_tab s) sup true (g_killing s) (g_dying_idx s)).

(** The name without its terminator, cut to 15 characters. *)
Definition put_name (old name : list Z) : list Z :=
  let n := take (Z.to_nat (GUARD_NAME_LEN - 1)) name in blit old 0 (n ++ [0]).

Definition fresh_ent (e : GUARD_ENT) (name : list Z) (task stack prio fn : Z) : GUARD_ENT :=
  GEnt (g_state e) (put_name (g_name e) name) task stack prio fn (tid e) 0 0 0 0 0 0.

Definition guard_register (name : list Z) (task stack prio fn : Z) (a : answer) : op Z :=
  s ← get;
  let i := first_ix (fun e => g_state e =? GUARD_ST_FREE) (g_tab s) 0 in
  if i <? 0 then ret E_LIMIT
  else
    let e := fresh_ent (ent i s) name task stack prio fn in
    set_ent i e ;;
    id ← guard_spawn e a;
    if id <? E_OK then set_ent i e ;; ret id
    else set_ent i (started e id) ;; ret id.

(** ** Runs

    [live] are the tasks that exist, guarded or not, [dying] those on the emergency
    stack, the latest first, [starts] counts for every entry how often its task was
    started. The kernel gives a task an id no living task has, and [tk_exd_tsk]
    ends the task that calls it. A guarded task does not end by itself. *)

Record world := World { gd : guard; live : gset Z; dying : list Z; starts : Z -> Z }.

Definition world0 : world := World guard0 ∅ [] (fun _ => 0).

Definition fresh_id (a : answer) (w : world) : Prop := 0 <= cre a -> 0 < cre a /\ cre a ∉ live w.
Definition start_ok (a : answer) : bool := negb (cre a <? E_OK) && negb (sta a <? E_OK).

(** The task of entry [i] was started when the call says so. *)
Definition on_start (e : effect) : bool := match e with Sta _ => true | _ => false end.
Definition after_spawn (a : answer) (i : Z) (cs : list effect) (g : guard) (w : world) : world :=
  if existsb on_start cs && start_ok a then World g ({[cre a]} ∪ live w) (dying w) (upd (starts w) i (starts w i + 1))
  else World g (live w) (dying w) (starts w).

(** The calling task is ended when the calls say so. *)
Definition on_exit (e : effect) : bool := match e with Exd => true | _ => false end.
Definition after_leave (t : Z) (cs : list effect) (g : guard) (w : world) : world :=
  if existsb on_exit cs then World g (live w ∖ {[t]}) (List.filter (fun u => negb (u =? t)) (dying w)) (starts w)
  else World g (live w) (dying w) (starts w).

(** What happened in a step: a fault, its context and whether it was isolated;
    the end of a task outside the guard; or nothing of the two. *)
Inductive happening : Type := Fault (irq_off : bool) (c : context) (isolated : bool) | Exit (t : Z) | Quiet.

(** [None]: the node has aborted. A fault in task context is one of a living
    task, be it guarded or not, in its own code or in the killer. *)
Inductive step : world -> happening -> option world -> Prop :=
  | step_fault w irq_off sig pc addr c :
      (indp c = false -> ctxtsk c ∈ live w) ->
      let r := fault_handler irq_off sig pc addr c in
      step w (Fault irq_off c (val (r (gd w))))
        (if val (r (gd w)) then Some (World (exec r (gd w)) (live w) (ctxtsk c :: dying w) (starts w)) else None)
  | step_mark w now :
      g_killing (gd w) = true ->
      step w Quiet (Some (World (exec (killer_mark now) (gd w)) (live w) (dying w) (starts w)))
  | step_leave w t :
      t ∈ dying w -> (g_killing (gd w) = true -> t <> tid (ent (g_dying_idx (gd w)) (gd w))) ->
      step w Quiet (Some (after_leave t (calls (killer_leave (gd w))) (exec killer_leave (gd w)) w))
  | step_sup w i a :
      0 <= i < GUARD_MAX -> fresh_id (a i) w ->
      step w Quiet (Some (after_spawn (a i) i (calls (sup_entry a i (gd w))) (exec (sup_entry a i) (gd w)) w))
  | step_register w name task stack prio fn a :
      fresh_id a w ->
      step w Quiet (Some (after_spawn a (first_ix (fun e => g_state e =? GUARD_ST_FREE) (g_tab (gd w)) 0)
        (calls (guard_register name task stack prio fn a (gd w))) (exec (guard_register name task stack prio fn a) (gd w)) w))
  | step_make w t :
      0 < t -> t ∉ live w -> step w Quiet (Some (World (gd w) ({[t]} ∪ live w) (dying w) (starts w)))
  | step_exit w t :
      t ∈ live w -> t ∉ dying w ->
      (forall i, 0 <= i < GUARD_MAX -> g_state (ent i (gd w)) = GUARD_ST_RUNNING -> tid (ent i (gd w)) <> t) ->
      step w (Exit t) (Some (World (gd w) (live w ∖ {[t]}) (dying w) (starts w))).

(** A run and what happened in it; nothing follows an abort. *)
Inductive runs : world -> list happening -> option world -> Prop :=
  | runs_nil w : runs w [] (Some w)
  | runs_down w h : step w h None -> runs w [h] None
  | runs_step w h w' l o : step w h (Some w') -> runs w' l o -> runs w (h :: l) o.

Definition reachable (w : world) : Prop := exists l, runs world0 l (Some w).

(** ** What every reachable world satisfies *)

Definition running (e : GUARD_ENT) : bool := g_state e =? GUARD_ST_RUNNING.

(** The life of one entry: how often its task was started, and what the states mean. *)
Record entry_ok (e : GUARD_ENT) (n : Z) : Prop := {
  ok_count : n = if g_state e =? GUARD_ST_FREE then 0 else deaths e + b2z (running e);
  ok_state : g_state e = GUARD_ST_FREE \/ (g_state e = GUARD_ST_RUNNING /\ 0 < tid e /\ 0 <= deaths e <= GUARD_MAX_DEATHS) \/
    (g_state e = GUARD_ST_DEAD /\ 1 <= deaths e <= GUARD_MAX_DEATHS + 1) \/
    (g_state e = GUARD_ST_GIVEN_UP /\ deaths e = GUARD_MAX_DEATHS + 1) }.

Record world_ok (w : world) : Prop := {
  ok_len : length (g_tab (gd w)) = 8%nat;
  ok_entries : forall i, 0 <= i < GUARD_MAX -> entry_ok (ent i (gd w)) (starts w i);
  ok_live : forall i, 0 <= i < GUARD_MAX -> running (ent i (gd w)) = true -> tid (ent i (gd w)) ∈ live w;
  ok_distinct : forall i j, 0 <= i < GUARD_MAX -> 0 <= j < GUARD_MAX ->
    running (ent i (gd w)) = true -> running (ent j (gd w)) = true -> tid (ent i (gd w)) = tid (ent j (gd w)) -> i = j;
  ok_dying : forall t, t ∈ dying w -> t ∈ live w;
  ok_kill : g_killing (gd w) = true -> 0 <= g_dying_idx (gd w) < GUARD_MAX /\
    running (ent (g_dying_idx (gd w)) (gd w)) = true /\ tid (ent (g_dying_idx (gd w)) (gd w)) ∈ dying w;
  ok_stack : forall i, 0 <= i < GUARD_MAX -> running (ent i (gd w)) = true -> tid (ent i (gd w)) ∈ dying w ->
    g_killing (gd w) = true /\ i = g_dying_idx (gd w) }.
