(* ===== verification/GuardFacts.v ===== *)
(** * The task guard keeps a fault to one task

    The invariant of every run, and what follows: a fault ends the task that
    faulted or aborts the node, a task is started six times at most, and a dead entry comes back by the rule
    of its pause. [shared_stack] is where the code departs from its comment. *)

From stdpp Require Import list gmap.
From S2P Require Import Prelude Step Guard.
#[local] Open Scope Z_scope.

Lemma ent_set (g : guard) i j e : length (g_tab g) = 8%nat -> 0 <= i < GUARD_MAX ->
  ent j (with_tab (setz (g_tab g) i e) g) = if j =? i then e else ent j g.
Proof. intros Hl Hi. unfold ent. cbn [g_tab with_tab]. apply getz_setz. unfold lenz. rewrite Hl. unfold GUARD_MAX in Hi. lia. Qed.

Lemma find_ent (p : GUARD_ENT -> bool) (g : guard) : length (g_tab g) = 8%nat ->
  (first_ix p (g_tab g) 0 = -1 /\ forall i, 0 <= i < GUARD_MAX -> p (ent i g) = false) \/
  (0 <= first_ix p (g_tab g) 0 < GUARD_MAX /\ p (ent (first_ix p (g_tab g) 0) g) = true).
Proof.
  intros Hl. unfold GUARD_MAX. destruct (first_ix_spec p (g_tab g) 0 ltac:(lia)) as [[-> Hno]|(k & x & -> & Hk & Hp)].
  - left. split; [done|]. intros i Hi. unfold ent, getz. rewrite (proj2 (Z.ltb_ge i 0)) by lia.
    destruct (lookup_lt_is_Some_2 (g_tab g) (Z.to_nat i) ltac:(lia)) as [x Hx].
    rewrite nth_lookup, Hx. by apply (Hno (Z.to_nat i)).
  - right. pose proof (lookup_lt_Some _ _ _ Hk). split; [lia|]. unfold ent. rewrite Z.add_0_l. by rewrite (getz_nat _ _ _ _ Hk).
Qed.

Lemma isolate_true sig pc addr c g : length (g_tab g) = 8%nat -> val (guard_fault_isolate sig pc addr c g) = true ->
  exists i, 0 <= i < GUARD_MAX /\ running (ent i g) = true /\ tid (ent i g) = ctxtsk c /\ g_killing g = false /\
    exec (guard_fault_isolate sig pc addr c) g = with_kill true i (with_tab (setz (g_tab g) i (fault_of (ent i g) sig pc addr)) g).
Proof.
  intros Hl. unfold guard_fault_isolate, exec. rewrite bind_eq. unfold get, val, exec. cbn [fst snd end_state calls].
  destruct (g_killing g) eqn:Ek; [done|]. destruct (indp c); [done|]. destruct (ddsp c); [done|].
  destruct (find_ent (is_running (ctxtsk c)) g Hl) as [[-> _]|[Hi Hp]]; [done|].
  rewrite (proj2 (Z.ltb_ge _ 0)) by lia. intros _.
  unfold is_running in Hp. apply andb_true_iff in Hp as [Hr Ht]. apply Z.eqb_eq in Ht.
  exists (first_ix (is_running (ctxtsk c)) (g_tab g) 0). done.
Qed.

(** One entry that was not running is replaced, and perhaps its task started. *)
Lemma put_ok w i e n live' : world_ok w -> 0 <= i < GUARD_MAX -> running (ent i (gd w)) = false -> entry_ok e n ->
  live w ⊆ live' -> (running e = true -> tid e ∈ live' /\ tid e ∉ live w) ->
  world_ok (World (with_tab (setz (g_tab (gd w)) i e) (gd w)) live' (dying w) (upd (starts w) i n)).
Proof.
  intros [Hl He Hlv Hd Hdy Hk Hs] Hi Hr Hok Hsub Hnew.
  assert (Hin : forall j, 0 <= j < GUARD_MAX -> running (ent j (gd w)) = true -> running e = true -> tid (ent j (gd w)) <> tid e).
  { intros j Hj Hj' He' E. apply Hnew in He' as [_ Hn]. apply Hn. rewrite <- E. by apply Hlv. }
  assert (Hnd : forall t, t ∈ dying w -> running e = true -> t <> tid e).
  { intros t Ht He' ->. apply Hnew in He' as [_ Hn]. by apply Hn, Hdy. }
  split; cbn [gd live dying starts].
  - cbn [g_tab with_tab]. by rewrite setz_length.
  - intros j Hj. rewrite ent_set by done. unfold upd. destruct (j =? i); [done|by apply He].
  - intros j Hj. rewrite ent_set by done. destruct (j =? i); [intros Hre; by apply Hnew|]. intros Hre. by apply Hsub, Hlv.
  - intros j k Hj Hk'. rewrite !ent_set by done.
    destruct (Z.eqb_spec j i) as [->|], (Z.eqb_spec k i) as [->|]; [done| | |by apply Hd]; intros H1 H2 E.
    + by destruct (Hin k Hk' H2 H1).
    + by destruct (Hin j Hj H1 H2).
  - intros t Ht. by apply Hsub, Hdy.
  - cbn [g_killing g_dying_idx with_tab]. intros Hkl. destruct (Hk Hkl) as (Hx & Hxr & Hxd).
    rewrite ent_set by done. destruct (Z.eqb_spec (g_dying_idx (gd w)) i) as [E|]; [|done]. rewrite E in Hxr. congruence.
  - intros j Hj. rewrite ent_set by done. cbn [g_killing g_dying_idx with_tab]. destruct (Z.eqb_spec j i) as [->|]; [|by apply Hs].
    intros Hre Ht. by destruct (Hnd _ Ht Hre).
Qed.

Lemma guard_same_ok w : world_ok w -> world_ok (World (gd w) (live w) (dying w) (starts w)).
Proof. by destruct w. Qed.

(** The same with the count left as it is. *)
Lemma put_ok_same w i e : world_ok w -> 0 <= i < GUARD_MAX -> running (ent i (gd w)) = false -> running e = false ->
  entry_ok e (starts w i) -> world_ok (World (with_tab (setz (g_tab (gd w)) i e) (gd w)) (live w) (dying w) (starts w)).
Proof.
  intros Hw Hi Hr Hre He. pose proof (put_ok w i e (starts w i) (live w) Hw Hi Hr He ltac:(done)) as H.
  destruct (H ltac:(congruence)) as [Hl H1 H2 H3 H4 H5 H6]. split; try done.
  intros j Hj. specialize (H1 j Hj). cbn [starts gd] in *. unfold upd in H1. destruct (Z.eqb_spec j i) as [E|]; [by rewrite E in *|done].
Qed.

(** ** The steps *)

Lemma spawn_calls e a g : calls (guard_spawn e a g) = Cre (entry e) (stack_size e) (priority e) ::
    (if cre a <? E_OK then [] else Sta (cre a) :: if sta a <? E_OK then [Del (cre a)] else []) /\
  exec (guard_spawn e a) g = g /\
  val (guard_spawn e a g) = (if cre a <? E_OK then cre a else if sta a <? E_OK then sta a else cre a).
Proof. unfold guard_spawn, exec. rewrite bind_eq. destruct (cre a <? E_OK); [done|]. by destruct (sta a <? E_OK). Qed.

Lemma spawn_started e a g : (val (guard_spawn e a g) <? E_OK) = negb (start_ok a) /\
  existsb on_start (calls (guard_spawn e a g)) = negb (cre a <? E_OK) /\ (start_ok a = true -> val (guard_spawn e a g) = cre a).
Proof.
  destruct (spawn_calls e a g) as (-> & _ & ->). unfold start_ok. cbn [existsb on_start].
  destruct (cre a <? E_OK) eqn:E; [by rewrite E|]. destruct (sta a <? E_OK) eqn:E2; cbn [negb andb orb existsb on_start].
  - by rewrite E2.
  - by rewrite E.
Qed.

(** What the supervisor does at an entry. *)
Inductive sup_result (a : answer) (i : Z) (g : guard) : guard -> list effect -> Prop :=
  | sup_idle : (g_state (ent i g) <> GUARD_ST_DEAD \/ paused (ent i g) (clk_before a) = true /\ deaths (ent i g) <= GUARD_MAX_DEATHS) ->
      sup_result a i g g []
  | sup_gives_up : g_state (ent i g) = GUARD_ST_DEAD -> GUARD_MAX_DEATHS < deaths (ent i g) ->
      sup_result a i g (with_tab (setz (g_tab g) i (given_up (ent i g))) g) []
  | sup_tries : g_state (ent i g) = GUARD_ST_DEAD -> deaths (ent i g) <= GUARD_MAX_DEATHS -> paused (ent i g) (clk_before a) = false ->
      sup_result a i g
        (with_tab (setz (g_tab g) i (if start_ok a then respawned (ent i g) (cre a) (clk_after a) else rearmed (ent i g) (clk_after a))) g)
        ((if recover_fn (ent i g) =? 0 then [] else [Recover (recover_fn (ent i g))]) ++ calls (guard_spawn (ent i g) a g)).

Lemma sup_entry_cases a i g : sup_result (a i) i g (exec (sup_entry a i) g) (calls (sup_entry a i g)).
Proof.
  unfold sup_entry, exec. rewrite bind_eq. unfold get, val, exec, end_state, calls. cbn [fst snd app].
  destruct (Z.eqb_spec (g_state (ent i g)) GUARD_ST_DEAD) as [E|E]; cbn [negb]; [|by apply sup_idle; left].
  destruct (Z.ltb_spec GUARD_MAX_DEATHS (deaths (ent i g))) as [Ed|Ed]; [by apply sup_gives_up|].
  destruct (paused (ent i g) (clk_before (a i))) eqn:Ep; [by apply sup_idle; right|].
  pose proof (sup_tries (a i) i g E Ed Ep) as Hres.
  destruct (spawn_started (ent i g) (a i) g) as (Hv & _ & Hid). destruct (spawn_calls (ent i g) (a i) g) as (_ & Hx & _).
  unfold unless. rewrite !bind_eq. unfold exec, val, end_state, calls in *. cbn [fst snd].
  destruct (recover_fn (ent i g) =? 0); cbn [ret call fst snd app] in *;
    rewrite Hx, Hv; destruct (start_ok (a i)); cbn [negb set_ent modify ret fst snd app] in *;
    rewrite ?(Hid eq_refl), ?app_nil_r; exact Hres.
Qed.

Lemma entry_dead e n : entry_ok e n -> g_state e = GUARD_ST_DEAD -> n = deaths e /\ 1 <= deaths e <= GUARD_MAX_DEATHS + 1.
Proof.
  intros [Hc Hs] E. unfold running in Hc. rewrite E in Hc, Hs. cbn in Hc. unfold GUARD_ST_FREE, GUARD_ST_RUNNING, GUARD_ST_DEAD, GUARD_ST_GIVEN_UP in Hs.
  lia.
Qed.

Lemma sup_ok w i a : world_ok w -> 0 <= i < GUARD_MAX -> fresh_id (a i) w ->
  world_ok (after_spawn (a i) i (calls (sup_entry a i (gd w))) (exec (sup_entry a i) (gd w)) w).
Proof.
  intros Hw Hi Hf. pose proof (ok_entries w Hw i Hi) as He.
  unfold after_spawn. destruct (sup_entry_cases a i (gd w)) as [Hd|Hst Hd|Hst Hd Hp].
  - cbn [existsb andb]. by apply guard_same_ok.
  - cbn [existsb andb]. pose proof (entry_dead _ _ He Hst) as [Hn Hdl].
    apply put_ok_same; [done|done|unfold running; by rewrite Hst|done|].
    split; unfold given_up, running; cbn [g_state deaths]; [cbn; lia|]. right; right; right. lia.
  - pose proof (entry_dead _ _ He Hst) as [Hn Hdl].
    rewrite existsb_app. replace (existsb on_start (if recover_fn _ =? 0 then _ else _)) with false by (by destruct (_ =? 0)).
    destruct (spawn_started (ent i (gd w)) (a i) (gd w)) as (_ & -> & _). cbn [orb].
    destruct (start_ok (a i)) eqn:Es.
    + unfold start_ok in Es. apply andb_true_iff in Es as [Ec Es]. rewrite Ec. cbn [andb]. apply negb_true_iff, Z.ltb_ge in Ec.
      destruct (Hf Ec) as [Hpos Hnew].
      apply put_ok; [done|done|unfold running; by rewrite Hst| |set_solver|intros _; cbn [tid respawned]; set_solver].
      split; unfold respawned, running; cbn [g_state deaths tid]; [cbn; lia|]. right; left. unfold GUARD_MAX_DEATHS in *. lia.
    + rewrite andb_false_r. apply put_ok_same; [done|done|unfold running; by rewrite Hst|unfold running, rearmed; cbn; by rewrite Hst|].
      split; unfold rearmed, running; cbn [g_state deaths tid]; rewrite Hst; [cbn; lia|]. right; right; left. lia.
Qed.

(** What a registration does. *)
Lemma register_cases name task stack prio fn a g : length (g_tab g) = 8%nat ->
  let i := first_ix (fun e => g_state e =? GUARD_ST_FREE) (g_tab g) 0 in
  let e := fresh_ent (ent i g) name task stack prio fn in
  let r := guard_register name task stack prio fn a g in
  (i = -1 /\ end_state r = g /\ calls r = [] /\ val r = E_LIMIT) \/
  (0 <= i < GUARD_MAX /\ g_state (ent i g) = GUARD_ST_FREE /\
   end_state r = with_tab (setz (g_tab g) i (if start_ok a then started e (cre a) else e)) g /\
   calls r = calls (guard_spawn e a g) /\ (val r <? E_OK) = negb (start_ok a)).
Proof.
  intros Hl i e r. unfold r, guard_register. rewrite bind_eq. unfold get, val, exec, end_state, calls. cbn [fst snd app].
  fold i. destruct (find_ent (fun e => g_state e =? GUARD_ST_FREE) g Hl) as [[E _]|[Hi Hp]]; fold i in E || fold i in Hi, Hp.
  - left. rewrite E. done.
  - right. rewrite (proj2 (Z.ltb_ge _ 0)) by lia. apply Z.eqb_eq in Hp. fold e.
    set (g1 := with_tab (setz (g_tab g) i e) g).
    assert (Hsame : guard_spawn e a g1 = (val (guard_spawn e a g), g1, calls (guard_spawn e a g))).
    { unfold guard_spawn. rewrite !bind_eq. unfold val, calls, exec, end_state. destruct (cre a <? E_OK); [done|]. by destruct (sta a <? E_OK). }
    assert (Hset : forall x, with_tab (setz (g_tab g1) i x) g1 = with_tab (setz (g_tab g) i x) g).
    { intros x. unfold g1, with_tab. cbn [g_tab g_sup_tid g_inited g_killing g_dying_idx]. f_equal.
      unfold setz. destruct (i <? 0); [done|]. by rewrite list_insert_insert_eq. }
    destruct (spawn_started e a g) as (Hv & _ & Hid). split_and!; [lia|lia|done|..];
      rewrite !bind_eq; unfold exec, val, end_state, calls, set_ent, modify in *; cbn [fst snd app]; fold g1; rewrite Hsame; cbn [fst snd];
      rewrite Hv; destruct (start_ok a) eqn:Es; cbn [negb]; rewrite ?bind_eq; unfold exec, val, end_state, calls, ret; cbn [fst snd app];
      rewrite ?Hset, ?app_nil_r, ?(Hid eq_refl); try done.
    by rewrite <- (Hid eq_refl), Hv.
Qed.

Lemma register_ok w name task stack prio fn a : world_ok w -> fresh_id a w ->
  world_ok (after_spawn a (first_ix (fun e => g_state e =? GUARD_ST_FREE) (g_tab (gd w)) 0)
    (calls (guard_register name task stack prio fn a (gd w))) (exec (guard_register name task stack prio fn a) (gd w)) w).
Proof.
  intros Hw Hf. unfold exec. destruct (register_cases name task stack prio fn a (gd w) (ok_len w Hw)) as [(Ei & -> & -> & _)|(Hi & Hst & -> & -> & _)].
  - unfold after_spawn. cbn [existsb andb]. by apply guard_same_ok.
  - set (i := first_ix _ _ _) in *. set (e := fresh_ent _ _ _ _ _ _).
    assert (Hse : g_state e = GUARD_ST_FREE) by done. pose proof (ok_entries w Hw i Hi) as [Hc _]. rewrite Hst in Hc. cbn in Hc.
    unfold after_spawn. destruct (spawn_started e a (gd w)) as (_ & -> & _). unfold start_ok at 1 2.
    destruct (start_ok a) eqn:Es.
    + unfold start_ok in Es. apply andb_true_iff in Es as [Ec Es]. rewrite Ec, Es. cbn [andb]. apply negb_true_iff, Z.ltb_ge in Ec.
      destruct (Hf Ec) as [Hpos Hnew]. rewrite Hc.
      apply put_ok; [done|done|unfold running; by rewrite Hst| |set_solver|intros _; cbn [tid started]; set_solver].
      split; unfold started, running; cbn [g_state deaths tid]; [cbn; lia|]. right; left. unfold GUARD_MAX_DEATHS. cbn. lia.
    + unfold start_ok in Es. replace (negb (cre a <? E_OK) && (negb (cre a <? E_OK) && negb (sta a <? E_OK))) with false
        by (by destruct (cre a <? E_OK), (sta a <? E_OK)).
      apply put_ok_same; [done|done|unfold running; by rewrite Hst|unfold running; by rewrite Hse|]. rewrite Hc. split; [by rewrite Hse|by left].
Qed.

(** The task the handler takes for the one that faulted lives, and is not dying. *)
Lemma isolate_living sig pc addr c w : world_ok w -> val (guard_fault_isolate sig pc addr c (gd w)) = true ->
  ctxtsk c ∈ live w /\ ctxtsk c ∉ dying w.
Proof.
  intros Hw Hv. destruct (isolate_true _ _ _ _ _ (ok_len w Hw) Hv) as (i & Hi & Hr & Ht & Hk & _). rewrite <- Ht.
  split; [by apply (ok_live w Hw)|]. intros Hin. destruct (ok_stack w Hw i Hi Hr Hin). congruence.
Qed.

Lemma fault_ok w sig pc addr c : world_ok w -> val (guard_fault_isolate sig pc addr c (gd w)) = true ->
  world_ok (World (exec (guard_fault_isolate sig pc addr c) (gd w)) (live w) (ctxtsk c :: dying w) (starts w)).
Proof.
  intros Hw Hv. destruct (isolate_living sig pc addr c w Hw Hv) as [Hc Hnd]. revert Hv.
  destruct Hw as [Hl He Hlv Hd Hdy Hk Hs]. intros Hv. destruct (isolate_true _ _ _ _ _ Hl Hv) as (i & Hi & Hr & Ht & Hkf & ->).
  set (g1 := with_tab _ _).
  assert (Hent : forall j, ent j (with_kill true i g1) = if j =? i then fault_of (ent i (gd w)) sig pc addr else ent j (gd w))
    by (intros j; by apply ent_set).
  assert (Hrun : forall j, running (ent j (with_kill true i g1)) = running (ent j (gd w)) /\ tid (ent j (with_kill true i g1)) = tid (ent j (gd w)))
    by (intros j; rewrite Hent; by destruct (Z.eqb_spec j i) as [->|]).
  split; cbn [gd live dying starts].
  - unfold g1. cbn [g_tab with_tab with_kill]. by rewrite setz_length.
  - intros j Hj. rewrite Hent. destruct (Z.eqb_spec j i) as [->|]; [|by apply He]. by destruct (He i Hi).
  - intros j Hj. destruct (Hrun j) as [-> ->]. by apply Hlv.
  - intros j k Hj Hk'. destruct (Hrun j) as [-> ->], (Hrun k) as [-> ->]. by apply Hd.
  - intros t [->|Ht']%elem_of_cons; [done|by apply Hdy].
  - intros _. cbn [g_dying_idx with_kill]. destruct (Hrun i) as [-> ->]. split_and!; [apply Hi|apply Hi|done|rewrite Ht; by left].
  - intros j Hj. destruct (Hrun j) as [-> ->]. intros Hj' [E|Hin]%elem_of_cons; cbn [g_killing g_dying_idx with_kill].
    + split; [done|]. apply Hd; congruence || done.
    + destruct (Hs j Hj Hj' Hin). congruence.
Qed.

Lemma mark_exec now g : exec (killer_mark now) g =
  with_kill false (g_dying_idx g) (with_tab (setz (g_tab g) (g_dying_idx g) (died (ent (g_dying_idx g) g) now)) g).
Proof. done. Qed.

Lemma mark_ok w now : world_ok w -> g_killing (gd w) = true ->
  world_ok (World (exec (killer_mark now) (gd w)) (live w) (dying w) (starts w)).
Proof.
  intros [Hl He Hlv Hd Hdy Hk Hs] Hkl. destruct (Hk Hkl) as (Hi & Hr & Ht). rewrite mark_exec.
  set (i := g_dying_idx (gd w)) in *. set (e := died _ _).
  assert (Hent : forall j, ent j (with_kill false i (with_tab (setz (g_tab (gd w)) i e) (gd w))) = if j =? i then e else ent j (gd w))
    by (intros j; by apply ent_set).
  assert (Hre : running e = false) by done.
  split; cbn [gd live dying starts].
  - cbn [g_tab with_tab with_kill]. by rewrite setz_length.
  - intros j Hj. rewrite Hent. destruct (Z.eqb_spec j i) as [->|]; [|by apply He].
    destruct (He i Hi) as [Hc Hst]. unfold running in Hr, Hc. apply Z.eqb_eq in Hr. rewrite Hr in Hst, Hc. cbn in Hc.
    assert (Hdl : 0 <= deaths (ent i (gd w)) <= GUARD_MAX_DEATHS)
      by (unfold GUARD_ST_FREE, GUARD_ST_RUNNING, GUARD_ST_DEAD, GUARD_ST_GIVEN_UP in Hst; lia).
    unfold GUARD_MAX_DEATHS in *. split; unfold running, e, died; cbn [g_state deaths]; rewrite (u32_small (_ + 1)) by mach.
    + cbn. lia.
    + right; right; left. unfold GUARD_MAX_DEATHS. lia.
  - intros j Hj. rewrite Hent. destruct (j =? i); [congruence|by apply Hlv].
  - intros j k Hj Hk'. rewrite !Hent. destruct (j =? i), (k =? i); try congruence. by apply Hd.
  - done.
  - done.
  - intros j Hj. rewrite Hent. destruct (Z.eqb_spec j i) as [->|Hne]; [congruence|]. intros Hj' Hin.
    destruct (Hs j Hj Hj' Hin). congruence.
Qed.

Lemma in_filter_ne t u (l : list Z) : u ∈ List.filter (fun x => negb (x =? t)) l <-> u ∈ l /\ u <> t.
Proof. rewrite !list_elem_of_In, List.filter_In, negb_true_iff, Z.eqb_neq. done. Qed.

Lemma leave_ok w t : world_ok w -> t ∈ dying w ->
  (g_killing (gd w) = true -> t <> tid (ent (g_dying_idx (gd w)) (gd w))) ->
  world_ok (World (gd w) (live w ∖ {[t]}) (List.filter (fun u => negb (u =? t)) (dying w)) (starts w)).
Proof.
  intros [Hl He Hlv Hd Hdy Hk Hs] Ht Hne.
  assert (Hrun : forall i, 0 <= i < GUARD_MAX -> running (ent i (gd w)) = true -> tid (ent i (gd w)) <> t).
  { intros i Hi Hr E. destruct (Hs i Hi Hr ltac:(by rewrite E)) as [Hkl ->]. by apply (Hne Hkl). }
  split; cbn [gd live dying starts]; try done.
  - intros i Hi Hr. apply elem_of_difference. split; [by apply Hlv|]. rewrite elem_of_singleton. by apply Hrun.
  - intros u [Hu Hut]%in_filter_ne. apply elem_of_difference. split; [by apply Hdy|by rewrite elem_of_singleton].
  - intros Hkl. destruct (Hk Hkl) as (Hi & Hr & Hin). split_and!; [apply Hi|apply Hi|done|]. apply in_filter_ne. split; [done|by apply Hrun].
  - intros i Hi Hr [Hin _]%in_filter_ne. by apply Hs.
Qed.

(** The handler isolates a fault exactly when the kernel can go on and the
    running task is one of the running entries. *)
Definition isolable (irq_off : bool) (c : context) (w : world) : Prop :=
  irq_off = false /\ indp c = false /\ ddsp c = false /\ g_killing (gd w) = false /\
  exists i, 0 <= i < GUARD_MAX /\ running (ent i (gd w)) = true /\ tid (ent i (gd w)) = ctxtsk c.

Lemma handler_isolates irq_off sig pc addr c w : world_ok w ->
  val (fault_handler irq_off sig pc addr c (gd w)) = true <-> isolable irq_off c w.
Proof.
  intros Hw. unfold fault_handler, isolable. destruct irq_off; [by split; [|intros [? _]]|].
  split.
  - intros Hv. pose proof Hv as Hi. unfold guard_fault_isolate in Hi. rewrite bind_eq in Hi. unfold get, val, exec in Hi. cbn [fst snd] in Hi.
    destruct (isolate_true _ _ _ _ _ (ok_len w Hw) Hv) as (i & Hi1 & Hi2 & Hi3 & Hk & _). rewrite Hk in Hi.
    destruct (indp c); [done|]. destruct (ddsp c); [done|]. split_and!; try done. by exists i.
  - intros (_ & E1 & E2 & E3 & i & Hi & Hr & Ht). unfold guard_fault_isolate, val. rewrite bind_eq. unfold get, val, exec. cbn [fst snd end_state calls].
    rewrite E3, E1, E2. destruct (find_ent (is_running (ctxtsk c)) (gd w) (ok_len w Hw)) as [[_ Hno]|[Hj _]].
    + specialize (Hno i Hi). unfold is_running in Hno. unfold running in Hr. by rewrite Hr, Ht, Z.eqb_refl in Hno.
    + by rewrite (proj2 (Z.ltb_ge _ 0)) by lia.
Qed.

Lemma leave_calls g : existsb on_exit (calls (killer_leave g)) = true /\ exec killer_leave g = g.
Proof. unfold killer_leave, exec, calls. rewrite bind_eq. unfold get, val, exec. cbn [fst snd]. unfold when. by destruct (0 <? g_sup_tid g). Qed.

Lemma after_leave_eq t w : after_leave t (calls (killer_leave (gd w))) (exec killer_leave (gd w)) w =
  World (gd w) (live w ∖ {[t]}) (List.filter (fun u => negb (u =? t)) (dying w)) (starts w).
Proof. unfold after_leave. destruct (leave_calls (gd w)) as [-> ->]. done. Qed.

Lemma make_ok w t : world_ok w -> world_ok (World (gd w) ({[t]} ∪ live w) (dying w) (starts w)).
Proof.
  intros [Hl He Hlv Hd Hdy Hk Hs]. split; cbn [gd live dying starts]; try done.
  - intros i Hi Hr. specialize (Hlv i Hi Hr). set_solver.
  - intros u Hu. specialize (Hdy u Hu). set_solver.
Qed.

Lemma exit_ok w t : world_ok w -> t ∉ dying w ->
  (forall i, 0 <= i < GUARD_MAX -> g_state (ent i (gd w)) = GUARD_ST_RUNNING -> tid (ent i (gd w)) <> t) ->
  world_ok (World (gd w) (live w ∖ {[t]}) (dying w) (starts w)).
Proof.
  intros [Hl He Hlv Hd Hdy Hk Hs] Ht Hno. split; cbn [gd live dying starts]; try done.
  - intros i Hi Hr. specialize (Hlv i Hi Hr). unfold running in Hr. apply Z.eqb_eq in Hr. specialize (Hno i Hi Hr). set_solver.
  - intros u Hu. specialize (Hdy u Hu). assert (u <> t) by (intros ->; done). set_solver.
Qed.

Lemma step_keeps w h w' : step w h (Some w') -> world_ok w -> world_ok w'.
Proof.
  intros Hst. remember (Some w') as o eqn:Eo. intros Hw.
  destruct Hst as [w irq sig pc addr c Hc r|w now Hk|w t Ht Hne|w i a Hi Hf|w name task stack prio fn a Hf|w t Hp Hn|w t Ht Hd Hno];
    [|apply (inj Some) in Eo as <-..].
  - subst r. unfold fault_handler in *. destruct irq; [done|]. destruct (val _) eqn:Hv; [|done]. injection Eo as <-. by apply fault_ok.
  - by apply mark_ok.
  - rewrite after_leave_eq. by apply leave_ok.
  - by apply sup_ok.
  - by apply register_ok.
  - by apply make_ok.
  - by apply exit_ok.
Qed.

Lemma ent0 i : ent i guard0 = no_guard.
Proof. unfold ent, getz. destruct (i <? 0); [done|]. cbn [g_tab guard0]. rewrite nth_lookup. destruct (replicate 8 no_guard !! Z.to_nat i) eqn:E; [|done]. by apply lookup_replicate in E as [-> _]. Qed.

Lemma world0_ok : world_ok world0.
Proof.
  assert (Hr : forall i, running (ent i guard0) = false) by (intros i; by rewrite ent0).
  split; unfold world0; cbn [gd live dying starts]; try done; intros; rewrite ?Hr in *; try done.
  - rewrite ent0. split; [done|by left].
  - set_solver.
Qed.

Lemma runs_ok w l w' : runs w l (Some w') -> world_ok w -> world_ok w'.
Proof.
  intros Hr. remember (Some w') as o eqn:Eo. revert w' Eo. induction Hr as [w|w h Hs|w h w1 l o Hs _ IH]; intros w' Eo Hw.
  - by injection Eo as <-.
  - done.
  - apply IH; [done|]. by apply (step_keeps w h w1).
Qed.

Lemma reachable_ok w : reachable w -> world_ok w.
Proof. intros [l Hl]. exact (runs_ok _ _ _ Hl world0_ok). Qed.

(** ** What the guard promises *)

(** Task [t] is alive, in its own code, and guarded where it was. *)
Definition unharmed (t : Z) (w w' : world) : Prop :=
  (t ∈ live w') /\ (t ∉ dying w') /\
  forall i, 0 <= i < GUARD_MAX -> running (ent i (gd w)) = true -> tid (ent i (gd w)) = t ->
    running (ent i (gd w')) = true /\ tid (ent i (gd w')) = t /\
    deaths (ent i (gd w')) = deaths (ent i (gd w)) /\ starts w' i = starts w i.

(** An entry that was not running was replaced. *)
Lemma unharmed_put w t i e live' n : world_ok w -> t ∈ live w -> t ∉ dying w -> 0 <= i < GUARD_MAX ->
  running (ent i (gd w)) = false -> live w ⊆ live' ->
  unharmed t w (World (with_tab (setz (g_tab (gd w)) i e) (gd w)) live' (dying w) (upd (starts w) i n)).
Proof.
  intros Hw Ht Hd Hi Hr Hsub. split_and!; cbn [live dying gd starts]; [by apply Hsub|done|].
  intros j Hj Hrj Htj. rewrite ent_set by (done || apply (ok_len w Hw)). unfold upd.
  destruct (Z.eqb_spec j i) as [->|]; [congruence|done].
Qed.

Lemma unharmed_put_same w t i e : world_ok w -> t ∈ live w -> t ∉ dying w -> 0 <= i < GUARD_MAX ->
  running (ent i (gd w)) = false ->
  unharmed t w (World (with_tab (setz (g_tab (gd w)) i e) (gd w)) (live w) (dying w) (starts w)).
Proof.
  intros Hw Ht Hd Hi Hr. destruct (unharmed_put w t i e (live w) 0 Hw Ht Hd Hi Hr ltac:(done)) as (H1 & H2 & H3).
  split_and!; [done|done|]. intros j Hj Hrj Htj. destruct (H3 j Hj Hrj Htj) as (Ha & Hb & Hc & _). done.
Qed.

Lemma unharmed_refl w t : t ∈ live w -> t ∉ dying w -> unharmed t w (World (gd w) (live w) (dying w) (starts w)).
Proof. done. Qed.

Lemma dead_idle e : g_state e = GUARD_ST_DEAD \/ g_state e = GUARD_ST_FREE -> running e = false.
Proof. unfold running. by intros [-> | ->]. Qed.

(** What ends a task that is alive in its own code: a fault of its own that was
    isolated, or its own exit. *)
Definition spares (t : Z) (h : happening) : Prop :=
  match h with Fault _ c isolated => isolated = true -> ctxtsk c <> t | Exit u => u <> t | Quiet => True end.

Lemma fault_unharmed w sig pc addr c t : world_ok w -> val (guard_fault_isolate sig pc addr c (gd w)) = true ->
  t ∈ live w -> t ∉ dying w -> ctxtsk c <> t ->
  unharmed t w (World (exec (guard_fault_isolate sig pc addr c) (gd w)) (live w) (ctxtsk c :: dying w) (starts w)).
Proof.
  intros Hw Hv Ht Hd Hne. destruct (isolate_true _ _ _ _ _ (ok_len w Hw) Hv) as (i & Hi & Hr & Htid & _ & ->).
  split_and!; cbn [live dying gd starts]; [done|by intros [->|]%elem_of_cons|]. intros j Hj Hrj Htj.
  change (ent j (with_kill ?b ?k ?g)) with (ent j g). rewrite ent_set by (done || apply (ok_len w Hw)).
  by destruct (Z.eqb_spec j i) as [->|].
Qed.

Lemma mark_unharmed w now t : world_ok w -> g_killing (gd w) = true -> t ∈ live w -> t ∉ dying w ->
  unharmed t w (World (exec (killer_mark now) (gd w)) (live w) (dying w) (starts w)).
Proof.
  intros Hw Hk Ht Hd. destruct (ok_kill w Hw Hk) as (Hi & Hr & Hin). split_and!; cbn [live dying gd starts]; [done|done|]. intros j Hj Hrj Htj.
  rewrite mark_exec. change (ent j (with_kill ?b ?k ?g)) with (ent j g). rewrite ent_set by (done || apply (ok_len w Hw)).
  destruct (Z.eqb_spec j (g_dying_idx (gd w))) as [->|]; [congruence|done].
Qed.

Lemma ends_unharmed w u t l : t ∈ live w -> t ∉ l -> u <> t -> unharmed t w (World (gd w) (live w ∖ {[u]}) l (starts w)).
Proof. intros Ht Hd Hne. split_and!; cbn [live dying gd starts]; [set_solver|done|done]. Qed.

Lemma step_unharmed w h w' t : world_ok w -> step w h (Some w') -> t ∈ live w -> t ∉ dying w -> spares t h -> unharmed t w w'.
Proof.
  intros Hw Hst Ht Hd Ho. remember (Some w') as o eqn:Eo.
  destruct Hst as [w irq sig pc addr c Hc r|w now Hk|w u Hu Hne|w i a Hi Hf|w name task stack prio fn a Hf|w u Hp Hn|w u Hu Hdu Hno];
    [|apply (inj Some) in Eo as <-..].
  - subst r. cbn [spares] in Ho. unfold fault_handler in *. destruct irq; [done|]. destruct (val _) eqn:Hv; [|done]. injection Eo as <-.
    apply fault_unharmed; auto.
  - by apply mark_unharmed.
  - rewrite after_leave_eq. assert (u <> t) by (intros ->; done). apply ends_unharmed; [done|by intros [? _]%in_filter_ne|done].
  - unfold after_spawn. destruct (sup_entry_cases a i (gd w)) as [Hn|Hd1 Hd2|Hd1 Hd2 Hp]; [done| |].
    + cbn [existsb andb]. apply unharmed_put_same; auto using dead_idle.
    + destruct (existsb _ _ && _); [apply unharmed_put|apply unharmed_put_same]; auto using dead_idle. set_solver.
  - unfold after_spawn, exec. destruct (register_cases name task stack prio fn a (gd w) (ok_len w Hw)) as [(_ & -> & -> & _)|(Hi & Hfr & -> & -> & _)]; [done|].
    destruct (existsb _ _ && _); [apply unharmed_put|apply unharmed_put_same]; auto using dead_idle. set_solver.
  - split_and!; cbn [live dying gd starts]; [set_solver|done|done].
  - by apply ends_unharmed.
Qed.

Lemma unharmed_trans t w w1 w2 : unharmed t w w1 -> unharmed t w1 w2 -> unharmed t w w2.
Proof.
  intros (_ & _ & H1) (H2 & H2' & H2''). split_and!; [done|done|]. intros i Hi Hr Ht.
  destruct (H1 i Hi Hr Ht) as (Hr1 & Ht1 & Hd1 & Hs1). destruct (H2'' i Hi Hr1 Ht1) as (? & ? & ? & ?). split_and!; congruence.
Qed.

(** The verdict on every fault of a run, in the world it happened in. *)
Definition judged (w : world) (l : list happening) : Prop :=
  forall irq_off c isolated, Fault irq_off c isolated ∈ l -> exists l1 u l2,
    l = l1 ++ Fault irq_off c isolated :: l2 /\ runs w l1 (Some u) /\ (isolated = true <-> isolable irq_off c u).

Lemma step_judged w h o irq_off c isolated : world_ok w -> step w h o -> h = Fault irq_off c isolated ->
  (isolated = true <-> isolable irq_off c w) /\ (isolated = true <-> o <> None).
Proof.
  intros Hw Hst. destruct Hst as [w irq sig pc addr c' Hc r| | | | | |]; try done. intros [= <- <- <-]. split.
  - by apply handler_isolates.
  - by destruct (val _).
Qed.

Lemma runs_judged w l o : world_ok w -> runs w l o -> judged w l.
Proof.
  intros Hw Hr. induction Hr as [w|w h Hs|w h w1 l o Hs _ IH]; intros irq c b Hin.
  - set_solver.
  - apply list_elem_of_singleton in Hin as <-. exists [], w, []. split; [done|]. split; [constructor|].
    by apply (step_judged w _ None irq c b Hw Hs).
  - apply elem_of_cons in Hin as [<-|Hin].
    + exists [], w, l. split; [done|]. split; [constructor|]. by apply (step_judged w _ (Some w1) irq c b Hw Hs).
    + destruct (IH (step_keeps _ _ _ Hs Hw) irq c b Hin) as (l1 & u & l2 & -> & Hu & Hb).
      exists (h :: l1), u, l2. split; [done|]. split; [by eapply runs_step|done].
Qed.

Lemma abort_is_fault w h : step w h None -> exists irq_off c, h = Fault irq_off c false.
Proof. intros Hst. remember None as o eqn:Eo. destruct Hst as [w irq sig pc addr c Hc r| | | | | |]; [|done..]. exists irq, c. by destruct (val _). Qed.

(** C11: a fault ends the task that faulted and no other, or it aborts the node.
    In every run from a reachable state, whatever faults of guarded and other
    tasks, kills, turns of the supervisor, registrations, new tasks and exits it
    mixes, take a task that is alive in its own code, does not exit, and has no
    fault of its own isolated.
    - If the node is still up at the end, every fault of the run was isolated, and
      the task is alive in its own code; when it was guarded its entry still runs
      under its id with no death counted.
    - If the node aborted, the last thing that happened is a fault that was not
      isolated, and up to then the task was unharmed.
    - A fault was isolated exactly when the task that faulted was a running entry
      of the table and the kernel was not in an interrupt-disabled or
      dispatch-disabled section, in a handler, or in a kill: all other faults
      abort the node and end every task with it, as guard.h says. *)
Theorem faults_isolated w l o t (Hw : reachable w) (Hrun : runs w l o)
  (Ht : t ∈ live w) (Hd : t ∉ dying w) (Hl : Forall (spares t) l) :
  match o with
  | Some w' => unharmed t w w' /\ forall irq_off c, Fault irq_off c false ∉ l
  | None => exists l1 irq_off c u, l = l1 ++ [Fault irq_off c false] /\ runs w l1 (Some u) /\ unharmed t w u
  end /\ judged w l.
Proof.
  apply reachable_ok in Hw. split; [|by apply (runs_judged w l o)].
  induction Hrun as [w|w h Hs|w h w1 l o Hs Hrun IH].
  - split; [done|]. intros irq c Hin. set_solver.
  - destruct (abort_is_fault w h Hs) as (irq & c & ->). exists [], irq, c, w. split; [done|]. split; [constructor|done].
  - apply list.Forall_cons in Hl as [Hh Hl]. pose proof (step_unharmed w h w1 t Hw Hs Ht Hd Hh) as Hu. pose proof Hu as (Ht1 & Hd1 & _).
    specialize (IH (step_keeps w h w1 Hs Hw) Ht1 Hd1 Hl). destruct o as [w2|].
    + destruct IH as [Hu2 Hno]. split; [by apply (unharmed_trans t w w1 w2)|]. intros irq c [E|Hin]%elem_of_cons; [|by apply (Hno irq c)].
      destruct (step_judged w h (Some w1) irq c false Hw Hs (eq_sym E)) as [_ Hj]. by assert (false = true) by (by apply Hj).
    + destruct IH as (l1 & irq & c & u & -> & Hu1 & Hu2). exists (h :: l1), irq, c, u.
      split; [done|]. split; [by eapply runs_step|]. by apply (unharmed_trans t w w1 u).
Qed.

(** What the supervisor makes of a dead entry, with the clock in milliseconds. *)
Definition due (e : GUARD_ENT) : Z := last_death_ms e + GUARD_BACKOFF_MS * 2 ^ (deaths e - 1).

Lemma paused_due e now : 1 <= deaths e <= GUARD_MAX_DEATHS -> 0 <= last_death_ms e <= now -> now < 2 ^ 32 ->
  paused e now = (now <? due e).
Proof.
  unfold GUARD_MAX_DEATHS. intros Hd Hl Hn. unfold paused, backoff, due. rewrite (u32_small (now - _)) by mach.
  rewrite (u32_small (deaths e - 1)) by mach.
  assert (Hb : 0 <= GUARD_BACKOFF_MS * 2 ^ (deaths e - 1) <= 200 * 2 ^ 4).
  { split; [apply Z.mul_nonneg_nonneg; [done|apply Z.pow_nonneg; lia]|]. unfold GUARD_BACKOFF_MS.
    apply Z.mul_le_mono_nonneg_l; [lia|]. apply Z.pow_le_mono_r; lia. }
  rewrite Z.shiftl_mul_pow2, u32_small by mach. destruct (Z.ltb_spec (now - last_death_ms e) (GUARD_BACKOFF_MS * 2 ^ (deaths e - 1))), (Z.ltb_spec now (last_death_ms e + GUARD_BACKOFF_MS * 2 ^ (deaths e - 1))); lia.
Qed.

(** C37: the supervisor starts a dead task again, five times at most and at the
    pace of the pause. In a reachable state a dead entry was started as
    often as it died, six times at most; it is given up after the sixth death,
    left alone with no call to the kernel before its pause of 200 ms,
    doubled with every death, is over, and then started once: it runs under the
    new id, or stays dead with the pause starting again when the kernel refuses. *)
Theorem respawn_rule w i a (Hw : reachable w) (Hi : 0 <= i < GUARD_MAX)
  (Hdead : g_state (ent i (gd w)) = GUARD_ST_DEAD)
  (Hclk : 0 <= last_death_ms (ent i (gd w)) <= clk_before (a i)) (Hlt : clk_before (a i) < 2 ^ 32) :
  let e := ent i (gd w) in
  let e' := ent i (exec (sup_entry a i) (gd w)) in
  let cs := calls (sup_entry a i (gd w)) in
  starts w i = deaths e /\ starts w i <= GUARD_MAX_DEATHS + 1 /\
  (if deaths e =? GUARD_MAX_DEATHS + 1 then e' = given_up e /\ cs = []
   else if clk_before (a i) <? due e then e' = e /\ cs = []
   else if start_ok (a i) then e' = respawned e (cre (a i)) (clk_after (a i)) /\ existsb on_start cs = true
   else e' = rearmed e (clk_after (a i))).
Proof.
  apply reachable_ok in Hw. cbv zeta. destruct (entry_dead _ _ (ok_entries w Hw i Hi) Hdead) as [Hn Hd].
  split_and!; [done|lia|].
  assert (Hset : forall x, ent i (with_tab (setz (g_tab (gd w)) i x) (gd w)) = x)
    by (intros x; rewrite ent_set, Z.eqb_refl by (done || apply (ok_len w Hw)); done).
  destruct (sup_entry_cases a i (gd w)) as [[Hne|[Hp Hd2]]|_ Hd2|_ Hd2 Hp]; [done|..];
    rewrite ?Hset; destruct (Z.eqb_spec (deaths (ent i (gd w))) (GUARD_MAX_DEATHS + 1)); try lia; try done.
  - rewrite paused_due in Hp by (done || lia). by rewrite Hp.
  - rewrite paused_due in Hp by (done || lia). rewrite Hp. destruct (start_ok (a i)) eqn:Es; [|done]. split; [done|].
    rewrite existsb_app. destruct (spawn_started (ent i (gd w)) (a i) (gd w)) as (_ & -> & _).
    unfold start_ok in Es. apply andb_true_iff in Es as [-> _]. apply orb_true_r.
Qed.

(** ** Concrete runs *)

Lemma runs_snoc u k v h o : runs u k (Some v) -> step v h o -> runs u (k ++ [h]) o.
Proof.
  intros Hr Hv. remember (Some v) as x eqn:Ex. revert v Ex Hv. induction Hr as [u|u h' Hs|u h' v' k x Hs _ IH]; intros v Ex Hv.
  - injection Ex as ->. destruct o as [w|]; [|by apply runs_down]. by eapply runs_step, runs_nil.
  - done.
  - cbn [app]. eapply runs_step; [done|]. by apply (IH v).
Qed.

Lemma reachable_step w h w' : reachable w -> step w h (Some w') -> reachable w'.
Proof. intros [l Hl] Hs. eexists. by apply (runs_snoc _ _ _ _ _ Hl Hs). Qed.

Section Examples.

Definition ans (id now : Z) : answer := Answer id 0 now now.
Definition ctx (t : Z) : context := Context false false t.
Definition reg (w : world) (prio id : Z) : world :=
  after_spawn (ans id 0) (first_ix (fun e => g_state e =? GUARD_ST_FREE) (g_tab (gd w)) 0)
    (calls (guard_register [97] 1 4096 prio 0 (ans id 0) (gd w))) (exec (guard_register [97] 1 4096 prio 0 (ans id 0)) (gd w)) w.

(** Two guarded tasks, 10 and 11; task 10 faults at 1000 ms. *)
Definition two : world := reg (reg world0 6 10) 5 11.
Definition fault10 : world := World (exec (guard_fault_isolate 11 0 0 (ctx 10)) (gd two)) (live two) [10] (starts two).
Definition marked10 : world := World (exec (killer_mark 1000) (gd fault10)) (live two) [10] (starts two).

Lemma two_reachable : reachable two.
Proof.
  assert (H0 : reachable world0) by (exists []; constructor).
  assert (H1 : reachable (reg world0 6 10)).
  { refine (reachable_step _ _ _ H0 (step_register world0 [97] 1 4096 6 0 (ans 10 0) _)). intros _. split; [done|cbn; set_solver]. }
  refine (reachable_step _ _ _ H1 (step_register (reg world0 6 10) [97] 1 4096 5 0 (ans 11 0) _)).
  intros _. split; [done|]. unfold reg, after_spawn. cbn. set_solver.
Qed.

Lemma live_two : live two = {[11]} ∪ ({[10]} ∪ ∅).
Proof. reflexivity. Qed.

Lemma fault10_step : step two (Fault false (ctx 10) true) (Some fault10).
Proof. apply (step_fault two false 11 0 0 (ctx 10)). intros _. rewrite live_two. cbn. set_solver. Qed.
Lemma mark10_step : step fault10 Quiet (Some marked10).
Proof. apply (step_mark fault10 1000). reflexivity. Qed.
Lemma marked10_reachable : reachable marked10.
Proof. exact (reachable_step _ _ _ (reachable_step _ _ _ two_reachable fault10_step) mark10_step). Qed.

(** The emergency stack is given to a second task while the first is still on it:
    the latch is cleared before the dying task has left. *)
Lemma shared_stack : exists w, reachable w /\ dying w = [11; 10] /\ 10 ∈ live w.
Proof.
  exists (World (exec (guard_fault_isolate 11 0 0 (ctx 11)) (gd marked10)) (live two) [11; 10] (starts two)).
  split_and!; [|done|cbn; rewrite live_two; set_solver].
  apply (reachable_step _ (Fault false (ctx 11) true) _ marked10_reachable).
  apply (step_fault marked10 false 11 0 0 (ctx 11)). intros _. cbn. rewrite live_two. set_solver.
Qed.

(** A task outside the guard, and its fault: the node aborts, and the two guarded
    tasks are gone with it. *)
Definition with12 : world := World (gd two) ({[12]} ∪ live two) (dying two) (starts two).
Lemma unguarded_aborts : runs two [Quiet; Fault false (ctx 12) false] None.
Proof.
  apply (runs_step two Quiet with12); [apply step_make; [done|rewrite live_two; set_solver]|].
  apply runs_down. apply (step_fault with12 false 11 0 0 (ctx 12)). intros _. cbn. set_solver.
Qed.

Lemma faults_isolated_witness : unharmed 11 two marked10 /\
  exists l1 irq_off c u, [Quiet; Fault false (ctx 12) false] = l1 ++ [Fault irq_off c false] /\ runs two l1 (Some u) /\ unharmed 11 two u.
Proof.
  assert (Hlive : 11 ∈ live two) by (rewrite live_two; set_solver).
  assert (Hdying : 11 ∉ dying two) by (cbn; set_solver). split.
  - apply (faults_isolated two [Fault false (ctx 10) true; Quiet] (Some marked10) 11 two_reachable); [|exact Hlive|exact Hdying|].
    + eapply (runs_step two); [exact fault10_step|]. eapply runs_step; [exact mark10_step|constructor].
    + repeat constructor. discriminate.
  - apply (faults_isolated two [Quiet; Fault false (ctx 12) false] None 11 two_reachable unguarded_aborts Hlive Hdying).
    repeat constructor. discriminate.
Defined.

Lemma respawn_rule_witness :
  ent 0 (exec (sup_entry (fun _ => ans 12 1199) 0) (gd marked10)) = ent 0 (gd marked10) /\
  tid (ent 0 (exec (sup_entry (fun _ => ans 12 1200) 0) (gd marked10))) = 12.
Proof.
  split.
  - exact (proj1 (proj2 (proj2 (respawn_rule marked10 0 (fun _ => ans 12 1199) marked10_reachable
      ltac:(vm_compute; split; [discriminate|reflexivity]) eq_refl ltac:(vm_compute; split; discriminate) eq_refl)))).
  - exact (f_equal tid (proj1 (proj2 (proj2 (respawn_rule marked10 0 (fun _ => ans 12 1200) marked10_reachable
      ltac:(vm_compute; split; [discriminate|reflexivity]) eq_refl ltac:(vm_compute; split; discriminate) eq_refl))))).
Defined.

End Examples.
