(* ===== verification/Sha512.v ===== *)
(** * SHA-512 ([ed25519.c], [crypto_hash])

    The hash of the signatures. The code keeps a window of sixteen schedule words
    that it advances in place after every sixteenth round, and builds the padding
    in a buffer of one or two blocks; [Spec] is the definition of FIPS 180-4 with
    the whole schedule and the padded message. *)

From stdpp Require Import list.
From S2P Require Import Prelude Sha256.
#[local] Open Scope Z_scope.

Definition FULL64 : Z := 0xFFFFFFFFFFFFFFFF.
Definition w64 (x : Z) : Z := Z.land x FULL64.

(** [dl64]: eight bytes, most significant first. *)
Definition dl64 (x : list Z) : Z := fold_left (fun u b => Z.lor (w64 (Z.shiftl u 8)) b) (take 8 x) 0.
(** [ts64(x + off, u)]. *)
Definition ts64 (x : list Z) (off u : Z) : list Z := blit x off (be 8 u).

Definition R (x c : Z) : Z := Z.lor (Z.shiftr x c) (w64 (Z.shiftl x (64 - c))).
Definition Ch (x y z : Z) : Z := Z.lxor (Z.land x y) (Z.land (Z.lxor x FULL64) z).
Definition Maj (x y z : Z) : Z := Z.lxor (Z.lxor (Z.land x y) (Z.land x z)) (Z.land y z).
Definition Sigma0 (x : Z) : Z := Z.lxor (Z.lxor (R x 28) (R x 34)) (R x 39).
Definition Sigma1 (x : Z) : Z := Z.lxor (Z.lxor (R x 14) (R x 18)) (R x 41).
Definition sigma0 (x : Z) : Z := Z.lxor (Z.lxor (R x 1) (R x 8)) (Z.shiftr x 7).
Definition sigma1 (x : Z) : Z := Z.lxor (Z.lxor (R x 19) (R x 61)) (Z.shiftr x 6).

Definition K : list Z :=
  [0x428a2f98d728ae22; 0x7137449123ef65cd; 0xb5c0fbcfec4d3b2f; 0xe9b5dba58189dbbc;
   0x3956c25bf348b538; 0x59f111f1b605d019; 0x923f82a4af194f9b; 0xab1c5ed5da6d8118;
   0xd807aa98a3030242; 0x12835b0145706fbe; 0x243185be4ee4b28c; 0x550c7dc3d5ffb4e2;
   0x72be5d74f27b896f; 0x80deb1fe3b1696b1; 0x9bdc06a725c71235; 0xc19bf174cf692694;
   0xe49b69c19ef14ad2; 0xefbe4786384f25e3; 0x0fc19dc68b8cd5b5; 0x240ca1cc77ac9c65;
   0x2de92c6f592b0275; 0x4a7484aa6ea6e483; 0x5cb0a9dcbd41fbd4; 0x76f988da831153b5;
   0x983e5152ee66dfab; 0xa831c66d2db43210; 0xb00327c898fb213f; 0xbf597fc7beef0ee4;
   0xc6e00bf33da88fc2; 0xd5a79147930aa725; 0x06ca6351e003826f; 0x142929670a0e6e70;
   0x27b70a8546d22ffc; 0x2e1b21385c26c926; 0x4d2c6dfc5ac42aed; 0x53380d139d95b3df;
   0x650a73548baf63de; 0x766a0abb3c77b2a8; 0x81c2c92e47edaee6; 0x92722c851482353b;
   0xa2bfe8a14cf10364; 0xa81a664bbc423001; 0xc24b8b70d0f89791; 0xc76c51a30654be30;
   0xd192e819d6ef5218; 0xd69906245565a910; 0xf40e35855771202a; 0x106aa07032bbd1b8;
   0x19a4c116b8d2d0c8; 0x1e376c085141ab53; 0x2748774cdf8eeb99; 0x34b0bcb5e19b48a8;
   0x391c0cb3c5c95a63; 0x4ed8aa4ae3418acb; 0x5b9cca4f7763e373; 0x682e6ff3d6b2b8a3;
   0x748f82ee5defb2fc; 0x78a5636f43172f60; 0x84c87814a1f0ab72; 0x8cc702081a6439ec;
   0x90befffa23631e28; 0xa4506cebde82bde9; 0xbef9a3f7b2c67915; 0xc67178f2e372532b;
   0xca273eceea26619c; 0xd186b8c721c0c207; 0xeada7dd6cde0eb1e; 0xf57d4f7fee6ed178;
   0x06f067aa72176fba; 0x0a637dc5a2c898a6; 0x113f9804bef90dae; 0x1b710b35131c471b;
   0x28db77f523047d84; 0x32caab7b40c72493; 0x3c9ebe0a15c9bebc; 0x431d67c49c100d4c;
   0x4cc5d4becb3e42b6; 0x597f299cfc657e2a; 0x5fcb6fab3ad6faec; 0x6c44198c4a475817].

Definition iv : list Z :=
  [0x6a; 0x09; 0xe6; 0x67; 0xf3; 0xbc; 0xc9; 0x08; 0xbb; 0x67; 0xae; 0x85; 0x84; 0xca; 0xa7; 0x3b;
   0x3c; 0x6e; 0xf3; 0x72; 0xfe; 0x94; 0xf8; 0x2b; 0xa5; 0x4f; 0xf5; 0x3a; 0x5f; 0x1d; 0x36; 0xf1;
   0x51; 0x0e; 0x52; 0x7f; 0xad; 0xe6; 0x82; 0xd1; 0x9b; 0x05; 0x68; 0x8c; 0x2b; 0x3e; 0x6c; 0x1f;
   0x1f; 0x83; 0xd9; 0xab; 0xfb; 0x41; 0xbd; 0x6b; 0x5b; 0xe0; 0xcd; 0x19; 0x13; 0x7e; 0x21; 0x79].

(** One turn of the loop over the rounds, before the window advances. *)
Definition round (w : list Z) (i : Z) (a : list Z) : list Z :=
  let g k := getz a k 0 in
  let t := w64 (g 7 + Sigma1 (g 4) + Ch (g 4) (g 5) (g 6) + getz K i 0 + getz w (i mod 16) 0) in
  let b := setz a 7 (w64 (t + Sigma0 (g 0) + Maj (g 0) (g 1) (g 2))) in
  let b := setz b 3 (w64 (getz b 3 0 + t)) in
  for_up 8 0 (fun j a => setz a ((j + 1) mod 8) (getz b j 0)) a.

(** The window sixteen words further, in place. *)
Definition advance (w : list Z) : list Z :=
  for_up 16 0 (fun j w => setz w j
    (w64 (getz w j 0 + getz w ((j + 9) mod 16) 0 + sigma0 (getz w ((j + 1) mod 16) 0) + sigma1 (getz w ((j + 14) mod 16) 0)))) w.

Definition hash_turn (i : Z) (s : list Z * list Z) : list Z * list Z :=
  let '(a, w) := s in (round w i a, if i mod 16 =? 15 then advance w else w).

Definition load_words (m : list Z) : list Z := map (fun i => dl64 (drop (Z.to_nat (8 * i)) m)) (seqZ 0 16).

(** One turn of the loop over the blocks: the words [z] after the block at [m]. *)
Definition hash_block (z m : list Z) : list Z :=
  let '(a, _) := for_up 80 0 hash_turn (z, load_words m) in
  zip_with (fun a z => w64 (a + z)) a z.

(** [n] turns are enough: every one takes 128 bytes. *)
Fixpoint hash_loop (fuel : nat) (z m : list Z) (n : Z) : list Z :=
  match fuel with
  | O => z
  | S k => if n <? 128 then z else hash_loop k (hash_block z m) (drop 128 m) (n - 128)
  end.

Definition store_words (x z : list Z) : list Z :=
  for_up 8 0 (fun i x => ts64 x (8 * i) (getz z i 0)) x.

Definition crypto_hashblocks (x m : list Z) (n : Z) : list Z :=
  let z := map (fun i => dl64 (drop (Z.to_nat (8 * i)) x)) (seqZ 0 8) in
  store_words x (hash_loop (Z.to_nat n) z m n).

Definition crypto_hash (m : list Z) (n : Z) : list Z :=
  let b := n in
  let h := crypto_hashblocks iv m n in
  let r := Z.land n 127 in
  let m := drop (Z.to_nat (n - r)) m in
  let x := blit (replicate 256 0) 0 (take (Z.to_nat r) m) in
  let x := setz x r 128 in
  let n := 256 - 128 * b2z (r <? 112) in
  let x := setz x (n - 9) (Z.land (Z.shiftr b 61) 0xFF) in
  let x := ts64 x (n - 8) (w64 (Z.shiftl b 3)) in
  crypto_hashblocks h x n.

Definition ed25519_sha512 (data : list Z) : list Z := crypto_hash data (lenz data).

(** ** Reference: FIPS 180-4 *)
Module Spec.

(** The eight working variables. *)
Record work := Work { va : Z; vb : Z; vc : Z; vd : Z; ve : Z; vf : Z; vg : Z; vh : Z }.

(** The message schedule, from the sixteen words of the block. *)
Definition next_word (l : list Z) : Z :=
  let g k := nth (length l - k) l 0 in
  u64 (sigma1 (g 2%nat) + g 7%nat + sigma0 (g 15%nat) + g 16%nat).
Fixpoint schedule (n : nat) (l : list Z) : list Z :=
  match n with O => l | S k => schedule k (l ++ [next_word l]) end.

Definition step (k w : Z) (s : work) : work :=
  let t1 := vh s + Sigma1 (ve s) + Ch (ve s) (vf s) (vg s) + k + w in
  let t2 := Sigma0 (va s) + Maj (va s) (vb s) (vc s) in
  Work (u64 (t1 + t2)) (va s) (vb s) (vc s) (u64 (vd s + t1)) (ve s) (vf s) (vg s).

Fixpoint steps (ks ws : list Z) (s : work) : work :=
  match ks, ws with k :: ks, w :: ws => steps ks ws (step k w s) | _, _ => s end.

Definition words (s : work) : list Z := [va s; vb s; vc s; vd s; ve s; vf s; vg s; vh s].
Definition of_words (l : list Z) : work :=
  let g k := nth k l 0 in Work (g 0%nat) (g 1%nat) (g 2%nat) (g 3%nat) (g 4%nat) (g 5%nat) (g 6%nat) (g 7%nat).

Definition block (st m : list Z) : list Z :=
  let w := schedule 64 (map (fun i => of_be (take 8 (drop (8 * i) m)) 0) (seq 0 16)) in
  zip_with (fun a z => u64 (a + z)) (words (steps K w (of_words st))) st.

Fixpoint absorb (n : nat) (st l : list Z) : list Z :=
  match n with O => st | S k => absorb k (block st l) (drop 128 l) end.

(** [1], then the fewest zeros that leave room for the 128-bit length. *)
Definition pad (m : list Z) : list Z :=
  m ++ [0x80] ++ replicate (Z.to_nat ((111 - lenz m) mod 128)) 0 ++ be 16 (8 * lenz m).

(** The first 64 bits of the fractional parts of the square roots of the first
    eight primes. *)
Definition H0 : list Z :=
  [0x6a09e667f3bcc908; 0xbb67ae8584caa73b; 0x3c6ef372fe94f82b; 0xa54ff53a5f1d36f1;
   0x510e527fade682d1; 0x9b05688c2b3e6c1f; 0x1f83d9abfb41bd6b; 0x5be0cd19137e2179].

Definition hash (m : list Z) : list Z :=
  concat (map (be 8) (absorb (length (pad m) / 128) H0 (pad m))).

End Spec.

(** ** Words and bytes *)

Lemma w64_u64 x : w64 x = u64 x.
Proof. unfold w64, u64, FULL64. change 0xFFFFFFFFFFFFFFFF with (Z.ones 64). apply Z.land_ones. lia. Qed.

Definition is_u64 (x : Z) : Prop := 0 <= x < 2 ^ 64.
Lemma u64_range x : is_u64 (u64 x).
Proof. unfold is_u64, u64. apply Z.mod_pos_bound. lia. Qed.
#[export] Hint Resolve u64_range : machine.

(** A byte below a multiple of 256: [or] adds. *)
Lemma lor_byte u b : 0 <= u -> is_u8 b -> Z.lor (u * 256) b = u * 256 + b.
Proof.
  intros Hu Hb. rewrite <- Z.add_lor_land. replace (Z.land (u * 256) b) with 0; [lia|].
  symmetry. apply Z.bits_inj'. intros n Hn. rewrite Z.land_spec, Z.bits_0.
  change 256 with (2 ^ 8). destruct (Z.ltb_spec n 8).
  - by rewrite Z.mul_pow2_bits_low by lia.
  - replace (Z.testbit b n) with false; [by rewrite andb_false_r|]. symmetry.
    destruct (Z.eq_dec b 0) as [->|]; [apply Z.bits_0|]. apply Z.bits_above_log2; [unfold is_u8 in Hb; lia|].
    apply (Z.lt_le_trans _ 8); [|lia]. apply Z.log2_lt_pow2; unfold is_u8 in Hb; lia.
Qed.

Lemma fold_dl64 l u : Forall is_u8 l -> 0 <= u < 2 ^ (8 * (8 - lenz l)) -> lenz l <= 8 ->
  fold_left (fun u b => Z.lor (w64 (Z.shiftl u 8)) b) l u = of_be l u.
Proof.
  intros Hl. revert u. induction Hl as [|b l Hb _ IH]; intros u Hu Hn; [done|].
  unfold lenz in *. cbn [length] in *. cbn [fold_left of_be]. rewrite Z.shiftl_mul_pow2 by lia.
  rewrite w64_u64, u64_small, lor_byte; [|lia|done|].
  - apply IH; [|lia]. split; [unfold is_u8 in Hb; lia|].
    replace (8 * (8 - Z.of_nat (length l))) with (8 * (8 - Z.of_nat (S (length l))) + 8) by lia.
    rewrite Z.pow_add_r by lia. unfold is_u8 in Hb. lia.
  - split; [lia|]. apply (Z.lt_le_trans _ (2 ^ (8 * (8 - Z.of_nat (S (length l)))) * 2 ^ 8)); [lia|].
    rewrite <- Z.pow_add_r by lia. apply Z.pow_le_mono_r; lia.
Qed.

Lemma dl64_spec x : Forall is_u8 x -> dl64 x = of_be (take 8 x) 0.
Proof.
  intros Hx. apply fold_dl64; [by apply Forall_take| |].
  - split; [lia|]. apply Z.pow_pos_nonneg; [lia|]. unfold lenz. rewrite length_take. lia.
  - unfold lenz. rewrite length_take. lia.
Qed.

Lemma of_be_be n x acc : of_be (be n x) acc = acc * 256 ^ Z.of_nat n + x mod 256 ^ Z.of_nat n.
Proof.
  revert acc. induction n as [|n IH]; intros acc; [cbn; rewrite Z.mod_1_r; lia|].
  cbn [be of_be]. rewrite IH. unfold byte. change 0xFF with (Z.ones 8). rewrite Z.land_ones, Z.shiftr_div_pow2 by lia.
  replace (Z.of_nat (S n)) with (Z.of_nat n + 1) by lia. rewrite Z.pow_add_r by lia. change (256 ^ 1) with 256.
  replace (2 ^ (8 * Z.of_nat n)) with (256 ^ Z.of_nat n) by (change 256 with (2 ^ 8); rewrite <- Z.pow_mul_r by lia; done).
  change (2 ^ 8) with 256. rewrite (Z.rem_mul_r x) by (try apply Z.pow_nonzero; try apply Z.pow_pos_nonneg; lia). lia.
Qed.

Lemma dl64_be_app z r : is_u64 z -> dl64 (be 8 z ++ r) = z.
Proof.
  intros Hz. unfold dl64. rewrite take_app_le by (by rewrite be_length). rewrite firstn_all2 by (by rewrite be_length).
  rewrite fold_dl64; [|apply be_bytes|unfold lenz; rewrite be_length; split; [lia|done]|unfold lenz; by rewrite be_length].
  rewrite of_be_be. rewrite Z.mod_small; [lia|]. exact Hz.
Qed.

(** ** The rounds *)

Lemma u64_plus_l t x y : y = u64 t + x -> u64 y = u64 (t + x).
Proof. intros ->. unfold u64. by rewrite Zplus_mod_idemp_l. Qed.

Lemma round_step w i s :
  round w i (Spec.words s) = Spec.words (Spec.step (getz K i 0) (getz w (i mod 16) 0) s).
Proof.
  destruct s as [a b c d e f g h]. unfold round, Spec.step, Spec.words. cbv zeta.
  cbn [Spec.va Spec.vb Spec.vc Spec.vd Spec.ve Spec.vf Spec.vg Spec.vh]. set (l := [a; b; c; d; e; f; g; h]).
  assert (G0 : getz l 0 0 = a) by done. assert (G1 : getz l 1 0 = b) by done. assert (G2 : getz l 2 0 = c) by done.
  assert (G4 : getz l 4 0 = e) by done. assert (G5 : getz l 5 0 = f) by done. assert (G6 : getz l 6 0 = g) by done.
  assert (G7 : getz l 7 0 = h) by done. assert (G3 : forall v, getz (setz l 7 v) 3 0 = d) by done.
  rewrite G0, G1, G2, G3, G4, G5, G6, G7, !w64_u64.
  set (t := h + Sigma1 e + Ch e f g + getz K i 0 + getz w (i mod 16) 0). set (t2 := Sigma0 a + Maj a b c).
  rewrite (u64_plus_l t (Sigma0 a + Maj a b c) (u64 t + Sigma0 a + Maj a b c)) by lia.
  rewrite (u64_plus_l t d (d + u64 t)) by lia. rewrite (Z.add_comm t d). reflexivity.
Qed.

(** The schedule, word by word. *)
Lemma schedule_length n l : length (Spec.schedule n l) = (length l + n)%nat.
Proof. revert l. induction n as [|n IH]; intros l; cbn [Spec.schedule]; [lia|]. rewrite IH, length_app. cbn. lia. Qed.

Lemma schedule_old n l i : (i < length l)%nat -> nth i (Spec.schedule n l) 0 = nth i l 0.
Proof.
  revert l. induction n as [|n IH]; intros l Hi; cbn [Spec.schedule]; [done|].
  rewrite IH by (rewrite length_app; lia). by apply app_nth1.
Qed.

Lemma schedule_new n l i : (16 <= length l)%nat -> (length l <= i < length l + n)%nat ->
  let W k := nth k (Spec.schedule n l) 0 in
  W i = u64 (sigma1 (W (i - 2)%nat) + W (i - 7)%nat + sigma0 (W (i - 15)%nat) + W (i - 16)%nat).
Proof.
  revert l. induction n as [|n IH]; intros l Hl Hi; [lia|]. cbn [Spec.schedule] in *.
  destruct (decide (i = length l)) as [->|Hne].
  - cbv zeta. rewrite !schedule_old by (rewrite length_app; cbn; lia).
    rewrite app_nth2, Nat.sub_diag by lia. cbn [nth]. unfold Spec.next_word. by rewrite !app_nth1 by lia.
  - apply (IH (l ++ [Spec.next_word l])); rewrite length_app; cbn [length]; lia.
Qed.

(** The window holds the sixteen words from [t] on. *)
Definition window (W : nat -> Z) (t : nat) (w : list Z) : Prop :=
  length w = 16%nat /\ forall j, 0 <= j < 16 -> getz w j 0 = W (t + Z.to_nat j)%nat.

Lemma advance_window W t w :
  (forall i, (t + 16 <= i < t + 32)%nat -> W i = u64 (sigma1 (W (i - 2)%nat) + W (i - 7)%nat + sigma0 (W (i - 15)%nat) + W (i - 16)%nat)) ->
  window W t w -> window W (t + 16) (advance w).
Proof.
  intros HW [Hl Hw].
  set (P := fun (j : Z) (w : list Z) => length w = 16%nat /\
    forall k, 0 <= k < 16 -> getz w k 0 = W (t + (if (k <? j)%Z then 16 else 0) + Z.to_nat k)%nat).
  assert (Hend : P (0 + Z.of_nat 16) (advance w)).
  { unfold advance. apply (for_up_inv P); unfold P.
    - split; [done|]. intros k Hk. rewrite (proj2 (Z.ltb_ge k 0)) by lia. rewrite Hw by done. f_equal. lia.
    - intros j v Hj [Hlv Hv]. split; [by rewrite setz_length|]. intros k Hk.
      rewrite getz_setz by (unfold lenz; lia). destruct (Z.eqb_spec k j) as [->|Hne].
      + rewrite w64_u64. rewrite !Hv by (try apply Z.mod_pos_bound; lia). rewrite (proj2 (Z.ltb_lt j (j + 1))), Z.ltb_irrefl by lia.
        rewrite (HW (t + 16 + Z.to_nat j)%nat) by lia.
        assert (Hx : forall c, 0 < c < 16 -> (t + (if ((j + c) mod 16 <? j)%Z then 16 else 0) + Z.to_nat ((j + c) mod 16) = t + Z.to_nat (j + c))%nat).
        { intros c Hc. destruct (Z.ltb_spec (j + c) 16).
          - rewrite Z.mod_small by lia. rewrite (proj2 (Z.ltb_ge _ _)) by lia. lia.
          - replace (j + c) with (j + c - 16 + 1 * 16) at 1 2 by lia. rewrite Z_mod_plus_full, Z.mod_small by lia.
            rewrite (proj2 (Z.ltb_lt _ _)) by lia. lia. }
        rewrite !Hx by lia. replace (t + 16 + Z.to_nat j - 2)%nat with (t + Z.to_nat (j + 14))%nat by lia.
        replace (t + 16 + Z.to_nat j - 7)%nat with (t + Z.to_nat (j + 9))%nat by lia.
        replace (t + 16 + Z.to_nat j - 15)%nat with (t + Z.to_nat (j + 1))%nat by lia.
        replace (t + 16 + Z.to_nat j - 16)%nat with (t + 0 + Z.to_nat j)%nat by lia. f_equal. lia.
      + rewrite Hv by done. f_equal. destruct (Z.ltb_spec k j), (Z.ltb_spec k (j + 1)); lia. }
  destruct Hend as [H1 H2]. split; [done|]. intros j Hj. rewrite H2 by done. by rewrite (proj2 (Z.ltb_lt j _)) by lia.
Qed.

Lemma steps_snoc ks ws k w s : length ks = length ws ->
  Spec.steps (ks ++ [k]) (ws ++ [w]) s = Spec.step k w (Spec.steps ks ws s).
Proof.
  revert ws s. induction ks as [|k0 ks IH]; intros [|w0 ws] s Hl; try discriminate Hl; [done|].
  cbn [app Spec.steps]. apply IH. by injection Hl.
Qed.

Lemma take_snoc (l : list Z) n : (n < length l)%nat -> take (S n) l = take n l ++ [nth n l 0].
Proof. intros Hn. destruct (lookup_lt_is_Some_2 l n Hn) as [x Hx]. rewrite (take_S_r _ _ _ Hx), nth_lookup, Hx. done. Qed.

Lemma rounds_spec st l W : length l = 16%nat -> W = Spec.schedule 64 l ->
  fst (for_up 80 0 hash_turn (Spec.words st, l)) = Spec.words (Spec.steps K W st).
Proof.
  intros Hl HW. assert (HlW : length W = 80%nat) by (rewrite HW, schedule_length; lia).
  assert (Hlk : length K = 80%nat) by reflexivity.
  assert (Hrec : forall i, (16 <= i < 80)%nat -> nth i W 0 = u64 (sigma1 (nth (i - 2) W 0) + nth (i - 7) W 0 + sigma0 (nth (i - 15) W 0) + nth (i - 16) W 0)).
  { intros i Hi. rewrite HW. apply schedule_new; lia. }
  assert (H : fst (for_up 80 0 hash_turn (Spec.words st, l)) = Spec.words (Spec.steps (take 80 K) (take 80 W) st)).
  { pose proof (for_up_inv (fun i s => fst s = Spec.words (Spec.steps (take (Z.to_nat i) K) (take (Z.to_nat i) W) st) /\
      (i < 80 -> window (fun k => nth k W 0) (16 * Z.to_nat (i / 16)) (snd s))) 80 0 hash_turn (Spec.words st, l)) as Hinv.
    cbv beta in Hinv. change (0 + Z.of_nat 80) with 80 in Hinv. apply Hinv; clear Hinv.
    - split; [done|]. intros _. split; [done|]. intros j Hj. cbn [snd]. change (16 * Z.to_nat (0 / 16))%nat with 0%nat.
      rewrite HW, schedule_old by lia. unfold getz. by rewrite (proj2 (Z.ltb_ge j 0)) by lia.
    - intros i [a w] Hi [Ha Hw]. cbn [fst snd] in *. specialize (Hw ltac:(lia)). unfold hash_turn. cbn [fst snd]. split.
      + rewrite Ha, round_step. f_equal. replace (Z.to_nat (i + 1)) with (S (Z.to_nat i)) by lia.
        rewrite !take_snoc by lia. rewrite steps_snoc by (rewrite !length_take; lia). f_equal.
        * unfold getz. by rewrite (proj2 (Z.ltb_ge i 0)) by lia.
        * rewrite (proj2 Hw) by (apply Z.mod_pos_bound; lia). f_equal. pose proof (Z.div_mod i 16). pose proof (Z.div_pos i 16). pose proof (Z.mod_pos_bound i 16). lia.
      + intros Hi1. destruct (Z.eqb_spec (i mod 16) 15) as [E|E].
        * replace ((i + 1) / 16) with (i / 16 + 1) by (pose proof (Z.div_mod i 16); pose proof (Z.div_mod (i + 1) 16);
            pose proof (Z.mod_pos_bound (i + 1) 16); lia).
          replace (16 * Z.to_nat (i / 16 + 1))%nat with (16 * Z.to_nat (i / 16) + 16)%nat by (pose proof (Z.div_pos i 16); lia).
          apply advance_window; [|done]. intros k Hk. apply Hrec. pose proof (Z.div_mod i 16). pose proof (Z.div_pos i 16). lia.
        * replace ((i + 1) / 16) with (i / 16); [done|]. pose proof (Z.div_mod i 16). pose proof (Z.div_mod (i + 1) 16).
          pose proof (Z.mod_pos_bound (i + 1) 16). pose proof (Z.mod_pos_bound i 16). lia. }
  rewrite H. by rewrite !firstn_all2 by lia.
Qed.

(** ** The blocks *)

Lemma words_of_words l : length l = 8%nat -> Spec.words (Spec.of_words l) = l.
Proof. do 8 (destruct l as [|? l]; [discriminate|]). by destruct l; [|discriminate]. Qed.

Lemma load_words_spec m : Forall is_u8 m ->
  load_words m = map (fun i => of_be (take 8 (drop (8 * i) m)) 0) (seq 0 16).
Proof.
  intros Hm. unfold load_words, seqZ. rewrite List.map_map. apply List.map_ext. intros i.
  rewrite dl64_spec by (by apply Forall_drop). do 3 f_equal. lia.
Qed.

Lemma hash_block_spec z m : length z = 8%nat -> Forall is_u8 m -> hash_block z m = Spec.block z m.
Proof.
  intros Hz Hm. unfold hash_block, Spec.block. rewrite <- load_words_spec by done.
  pose proof (rounds_spec (Spec.of_words z) (load_words m) _ ltac:(done) eq_refl) as H. rewrite words_of_words in H by done.
  destruct (for_up 80 0 hash_turn (z, load_words m)) as [a w]. cbn [fst] in H. rewrite H.
  generalize (Spec.words (Spec.steps K (Spec.schedule 64 (load_words m)) (Spec.of_words z))). intros l.
  clear. revert z. induction l as [|x l IH]; intros [|y z]; cbn [zip_with]; try done. by rewrite w64_u64, IH.
Qed.

Definition words8 (z : list Z) : Prop := length z = 8%nat /\ Forall is_u64 z.

Lemma block_words z m : length z = 8%nat -> words8 (Spec.block z m).
Proof.
  intros Hz. split; [unfold Spec.block; by rewrite length_zip_with, Hz|]. unfold Spec.block.
  generalize (Spec.words (Spec.steps K (Spec.schedule 64 (map (fun i => of_be (take 8 (drop (8 * i) m)) 0) (seq 0 16))) (Spec.of_words z))).
  clear. intros l. revert z. induction l as [|x l IH]; intros [|y z]; cbn [zip_with]; constructor; auto with machine.
Qed.

Lemma absorb_words n z m : words8 z -> words8 (Spec.absorb n z m).
Proof. revert z m. induction n as [|n IH]; intros z m Hz; [done|]. apply IH, block_words, Hz. Qed.

Lemma hash_loop_spec fuel z m n : length z = 8%nat -> Forall is_u8 m -> 0 <= n <= Z.of_nat fuel ->
  hash_loop fuel z m n = Spec.absorb (Z.to_nat (n / 128)) z m.
Proof.
  revert z m n. induction fuel as [|k IH]; intros z m n Hz Hm Hn; cbn [hash_loop].
  - by replace n with 0 by lia.
  - destruct (Z.ltb_spec n 128); [by rewrite Z.div_small by lia|].
    rewrite hash_block_spec, IH by (done || apply block_words, Hz || apply Forall_drop, Hm || lia).
    replace (Z.to_nat (n / 128)) with (S (Z.to_nat ((n - 128) / 128))); [done|].
    replace n with (n - 128 + 1 * 128) at 2 by lia. rewrite Z.div_add by lia. pose proof (Z.div_pos (n - 128) 128). lia.
Qed.

(** Only the blocks asked for are read. *)
Lemma block_take z l r : (128 <= length l)%nat -> Spec.block z (l ++ r) = Spec.block z l.
Proof.
  intros Hl. unfold Spec.block. do 4 f_equal. apply List.map_ext_in. intros i Hi%List.in_seq.
  rewrite drop_app_le, take_app_le by (rewrite ?length_drop; lia). done.
Qed.

Lemma absorb512_app n k z l : Spec.absorb (n + k) z l = Spec.absorb k (Spec.absorb n z l) (drop (128 * n) l).
Proof. revert z l. induction n as [|n IH]; intros z l; [done|]. cbn [Nat.add Spec.absorb]. rewrite IH, drop_drop. do 2 f_equal. lia. Qed.

Lemma absorb512_take n z l r : (128 * n <= length l)%nat -> Spec.absorb n z (l ++ r) = Spec.absorb n z l.
Proof.
  revert z l. induction n as [|n IH]; intros z l Hl; [done|]. cbn [Spec.absorb].
  rewrite block_take, drop_app_le by lia. apply IH. rewrite length_drop. lia.
Qed.

(** ** The state in memory *)

Definition bytes8 (z : list Z) : list Z := concat (map (be 8) z).

Lemma bytes8_length z : length (bytes8 z) = (8 * length z)%nat.
Proof. unfold bytes8. induction z as [|x z IH]; [done|]. cbn [map concat]. rewrite length_app, be_length, IH. cbn [length]. lia. Qed.
Lemma bytes8_bytes z : Forall is_u8 (bytes8 z).
Proof. unfold bytes8. induction z as [|x z IH]; [constructor|]. cbn [map concat]. apply Forall_app; auto with machine. Qed.

Lemma load_state z : words8 z -> map (fun i => dl64 (drop (Z.to_nat (8 * i)) (bytes8 z))) (seqZ 0 8) = z.
Proof.
  intros [Hl Hz]. do 8 (destruct z as [|? z]; [discriminate Hl|]). destruct z; [|discriminate Hl].
  repeat match goal with H : Forall _ (_ :: _) |- _ => apply list.Forall_cons in H as [? H] end.
  unfold bytes8. cbn [map concat]. change (seqZ 0 8) with [0; 1; 2; 3; 4; 5; 6; 7]. cbn [map].
  repeat match goal with |- context [drop (Z.to_nat (8 * ?i)) _] => change (Z.to_nat (8 * i)) with (8 * Z.to_nat i)%nat end.
  assert (Hd : forall n x r, drop (8 * S n) (be 8 x ++ r) = drop (8 * n) r).
  { intros n x r. rewrite drop_app_ge by (rewrite be_length; lia). rewrite be_length. f_equal. lia. }
  change (Z.to_nat 0) with 0%nat. change (Z.to_nat 1) with 1%nat. change (Z.to_nat 2) with 2%nat. change (Z.to_nat 3) with 3%nat.
  change (Z.to_nat 4) with 4%nat. change (Z.to_nat 5) with 5%nat. change (Z.to_nat 6) with 6%nat. change (Z.to_nat 7) with 7%nat.
  rewrite !Hd. change (8 * 0)%nat with 0%nat. rewrite !drop_0. by rewrite !dl64_be_app.
Qed.

Lemma blit_mid {A} (l d d' r : list A) off : off = lenz l -> length d = length d' -> blit (l ++ d ++ r) off d' = l ++ d' ++ r.
Proof.
  intros -> Hd. unfold blit, lenz. rewrite Nat2Z.id, take_app_length. f_equal. f_equal.
  rewrite drop_app_ge by lia. replace (length l + length d' - length l)%nat with (length d) by lia. apply drop_app_length.
Qed.

Lemma store_state x z : length x = 64%nat -> length z = 8%nat -> store_words x z = bytes8 z.
Proof.
  intros Hx Hz. unfold store_words.
  assert (H : forall n, (n <= 8)%nat -> for_up n 0 (fun i x => ts64 x (8 * i) (getz z i 0)) x = bytes8 (take n z) ++ drop (8 * n) x).
  { induction n as [|n IH]; intros Hn; [cbn [for_up]; change (8 * 0)%nat with 0%nat; by rewrite drop_0|].
    rewrite for_up_last, IH by lia. rewrite (take_snoc z n) by lia. unfold bytes8 at 2. rewrite map_app, concat_app. cbn [map concat].
    rewrite app_nil_r, <- app_assoc. fold (bytes8 (take n z)).
    rewrite <- (take_drop 8 (drop (8 * n) x)), drop_drop. replace (8 * n + 8)%nat with (8 * S n)%nat by lia.
    unfold ts64. replace (getz z (0 + Z.of_nat n) 0) with (nth n z 0).
    - apply blit_mid; [unfold lenz; rewrite bytes8_length, length_take; lia|]. rewrite be_length, length_take, length_drop. lia.
    - unfold getz. rewrite (proj2 (Z.ltb_ge _ 0)) by lia. by rewrite Z.add_0_l, Nat2Z.id. }
  rewrite H by lia. rewrite firstn_all2, drop_ge, app_nil_r by lia. done.
Qed.

Lemma hashblocks_spec z m n : words8 z -> Forall is_u8 m -> 0 <= n ->
  crypto_hashblocks (bytes8 z) m n = bytes8 (Spec.absorb (Z.to_nat (n / 128)) z m).
Proof.
  intros Hz Hm Hn. unfold crypto_hashblocks. rewrite load_state by done.
  rewrite hash_loop_spec by (done || apply Hz || lia). apply store_state; [by rewrite bytes8_length, (proj1 Hz)|by apply absorb_words].
Qed.

(** ** The padding *)

Lemma setz_mid {A} (l r : list A) x v i : i = lenz l -> setz (l ++ x :: r) i v = l ++ v :: r.
Proof.
  intros ->. unfold setz, lenz. rewrite (proj2 (Z.ltb_ge _ 0)) by lia. rewrite Nat2Z.id.
  by rewrite insert_app_r_alt, Nat.sub_diag by lia.
Qed.

Lemma be_split n k x : be (n + k) x = be n (Z.shiftr x (8 * Z.of_nat k)) ++ be k x.
Proof.
  induction n as [|n IH]; [done|]. cbn [Nat.add be app]. rewrite IH. f_equal.
  unfold byte. rewrite Z.shiftr_shiftr by lia. do 2 f_equal. lia.
Qed.

Lemma be_zero n : be n 0 = replicate n 0.
Proof. induction n as [|n IH]; [done|]. cbn [be replicate]. rewrite IH. f_equal. unfold byte. by rewrite Z.shiftr_0_l. Qed.

Lemma byte_w64 x i : 0 <= i < 8 -> byte (w64 x) i = byte x i.
Proof.
  intros Hi. unfold byte. apply Z.bits_inj'. intros n Hn. rewrite !Z.land_spec, !Z.shiftr_spec by lia.
  destruct (Z.ltb_spec n 8) as [Hlt|Hge].
  - rewrite w64_u64. unfold u64. rewrite Z.mod_pow2_bits_low by lia. done.
  - replace (Z.testbit 255 n) with false by (symmetry; apply (Z.bits_above_log2 255 n); [lia|change (Z.log2 255) with 7; lia]).
    by rewrite !andb_false_r.
Qed.

Lemma be_w64 n x : (n <= 8)%nat -> be n (w64 x) = be n x.
Proof. induction n as [|n IH]; intros Hn; [done|]. cbn [be]. rewrite IH, byte_w64 by lia. done. Qed.

(** The length field the code writes is the one of the standard. *)
Lemma length_field b : is_u64 b ->
  be 16 (8 * b) = replicate 7 0 ++ Z.land (Z.shiftr b 61) 0xFF :: be 8 (w64 (Z.shiftl b 3)).
Proof.
  intros Hb. change 16%nat with (7 + (1 + 8))%nat. rewrite !be_split.
  replace (Z.shiftl b 3) with (8 * b) by (rewrite Z.shiftl_mul_pow2 by lia; lia). rewrite be_w64 by lia.
  replace (Z.shiftr (8 * b) (8 * Z.of_nat (1 + 8))) with 0.
  - rewrite be_zero. cbn [be app]. do 2 f_equal. unfold byte. f_equal. rewrite Z.shiftr_shiftr by lia.
    change (8 * Z.of_nat 8 + 8 * Z.of_nat 0) with (3 + 61). rewrite <- Z.shiftr_shiftr by lia. f_equal.
    rewrite Z.mul_comm. change 8 with (2 ^ 3). rewrite <- Z.shiftl_mul_pow2 by lia. by rewrite Z.shiftr_shiftl_l, Z.shiftl_0_r by lia.
  - symmetry. rewrite Z.shiftr_div_pow2 by lia. apply Z.div_small. unfold is_u64 in Hb.
    change (8 * Z.of_nat (1 + 8)) with 72. lia.
Qed.

(** The tail buffer the code builds and the tail of the padded message. *)
Lemma tail_block (m2 : list Z) b r n : is_u64 b -> r = lenz m2 -> r < 128 -> n = 256 - 128 * b2z (r <? 112) ->
  ts64 (setz (setz (blit (replicate 256 0) 0 m2) r 128) (n - 9) (Z.land (Z.shiftr b 61) 0xFF)) (n - 8) (w64 (Z.shiftl b 3)) =
  (m2 ++ [0x80] ++ replicate (Z.to_nat (n - 17 - r)) 0 ++ be 16 (8 * b)) ++ replicate (Z.to_nat (256 - n)) 0.
Proof.
  intros Hb Hr Hlt Hn. assert (Hnr : r + 17 <= n <= 256 /\ 0 <= r) by (unfold lenz in Hr; destruct (Z.ltb_spec r 112); cbn [b2z] in Hn; lia).
  assert (Hb0 : blit (replicate 256 0) 0 m2 = m2 ++ 0 :: replicate (Z.to_nat (255 - r)) 0).
  { unfold blit. change (Z.to_nat 0) with 0%nat. rewrite take_0. cbn [app]. f_equal. rewrite Nat.add_0_l, drop_replicate.
    replace (256 - length m2)%nat with (S (Z.to_nat (255 - r))) by (unfold lenz in Hr; lia). done. }
  rewrite Hb0, setz_mid by done.
  replace (Z.to_nat (255 - r)) with (Z.to_nat (n - 10 - r) + S (8 + Z.to_nat (256 - n)))%nat by lia.
  rewrite (replicate_add (Z.to_nat (n - 10 - r))). cbn [replicate]. rewrite app_comm_cons, app_assoc.
  rewrite setz_mid by (unfold lenz in *; rewrite length_app; cbn [length]; rewrite length_replicate; lia).
  rewrite (replicate_add 8). unfold ts64.
  change (?x :: replicate 8 0 ++ ?y) with ([x] ++ replicate 8 0 ++ y). rewrite (app_assoc _ [_]).
  rewrite blit_mid by (unfold lenz in *; rewrite ?length_app, ?be_length, ?length_replicate; cbn [length]; rewrite ?length_replicate; lia).
  rewrite length_field by done. replace (Z.to_nat (n - 10 - r)) with (Z.to_nat (n - 17 - r) + 7)%nat by lia.
  rewrite replicate_add. rewrite <- !app_assoc. cbn [app]. rewrite <- ?app_assoc. done.
Qed.

Lemma pad_split m n : let q := (length m / 128)%nat in let m2 := drop (128 * q) m in let r := lenz m2 in
  n = 256 - 128 * b2z (r <? 112) ->
  Spec.pad m = take (128 * q) m ++ m2 ++ [0x80] ++ replicate (Z.to_nat (n - 17 - r)) 0 ++ be 16 (8 * lenz m) /\
  (length (Spec.pad m) / 128 = q + Z.to_nat (n / 128))%nat.
Proof.
  intros q m2 r Hn. pose proof (Nat.div_mod_eq (length m) 128) as Hd. fold q in Hd. pose proof (Nat.mod_upper_bound (length m) 128).
  assert (Hr : r = lenz m mod 128).
  { unfold r, m2, lenz. rewrite length_drop. replace (length m - 128 * q)%nat with (length m mod 128)%nat by lia. by rewrite Nat2Z.inj_mod. }
  assert (Hz : (111 - lenz m) mod 128 = n - 17 - r).
  { rewrite Zminus_mod, <- Hr. change (111 mod 128) with 111. pose proof (Z.mod_pos_bound (lenz m) 128).
    rewrite Hn. destruct (Z.ltb_spec r 112); cbn [b2z]; [by rewrite Z.mod_small by lia|].
    replace (111 - r) with (239 - r + (-1) * 128) by lia. rewrite Z_mod_plus_full, Z.mod_small; lia. }
  assert (Hlen : length m2 = Z.to_nat r) by (unfold r, lenz; lia).
  split.
  - unfold Spec.pad. rewrite Hz. rewrite <- (take_drop (128 * q) m) at 1. fold m2. by rewrite <- app_assoc.
  - unfold Spec.pad. rewrite Hz, !length_app, length_replicate, be_length. cbn [length].
    assert (Hm : length m = (128 * q + Z.to_nat r)%nat) by (unfold m2 in Hlen; rewrite length_drop in Hlen; unfold r, lenz in *; lia).
    assert (Hr0 : 0 <= r < 128) by (rewrite Hr; by apply Z.mod_pos_bound).
    rewrite Hm. destruct (Z.ltb_spec r 112); cbn [b2z] in Hn; rewrite Hn.
    + change (Z.to_nat ((256 - 128 * 1) / 128)) with 1%nat. symmetry. apply (Nat.div_unique _ _ _ 0); lia.
    + change (Z.to_nat ((256 - 128 * 0) / 128)) with 2%nat. symmetry. apply (Nat.div_unique _ _ _ 0); lia.
Qed.

(** The digest of a message that fills its buffer. *)
Lemma hash_value m : Forall is_u8 m -> lenz m < 2 ^ 64 -> crypto_hash m (lenz m) = Spec.hash m.
Proof.
  intros Hm Hlen. unfold crypto_hash. set (r0 := Z.land (lenz m) 127). set (n := 256 - 128 * b2z (r0 <? 112)).
  set (q := (length m / 128)%nat).
  assert (Hr0 : r0 = lenz (drop (128 * q) m) /\ lenz m - r0 = Z.of_nat (128 * q) /\ 0 <= r0 < 128 /\ lenz m / 128 = Z.of_nat q).
  { unfold r0. change 127 with (Z.ones 7). rewrite Z.land_ones by lia. unfold q, lenz. rewrite length_drop.
    pose proof (Nat2Z.inj_mod (length m) 128) as E1. pose proof (Nat2Z.inj_div (length m) 128) as E2.
    change (Z.of_nat 128) with 128 in E1, E2. change (2 ^ 7) with 128. rewrite <- E1, <- E2.
    pose proof (Nat.div_mod_eq (length m) 128). pose proof (Nat.mod_upper_bound (length m) 128). lia. }
  destruct Hr0 as (Hr & Hb & Hr1 & Hq). rewrite Hb, Nat2Z.id. rewrite (firstn_all2 (n := Z.to_nat r0)) by (unfold lenz in Hr; lia).
  assert (Hn : n = 256 - 128 * b2z (lenz (drop (128 * q) m) <? 112)) by (unfold n; by rewrite Hr).
  rewrite (tail_block _ (lenz m) r0 n); [|split; [apply lenz_nonneg|done]|done|lia|done].
  destruct (pad_split m n Hn) as [Hpad Hblocks]. fold q in Hpad, Hblocks.
  assert (Hn2 : 0 <= n /\ n / 128 <= 2 /\ 128 * (n / 128) = n) by (unfold n; destruct (r0 <? 112); done).
  change iv with (bytes8 Spec.H0). assert (Hiv : words8 Spec.H0) by (split; [done|by repeat constructor]).
  rewrite (hashblocks_spec Spec.H0) by (done || apply lenz_nonneg). rewrite Hq, Nat2Z.id.
  rewrite hashblocks_spec; [|by apply absorb_words| |lia].
  - unfold Spec.hash. rewrite Hblocks, absorb512_app. unfold bytes8. do 2 f_equal.
    replace (Spec.absorb q Spec.H0 (Spec.pad m)) with (Spec.absorb q Spec.H0 m).
    + rewrite absorb512_take by (rewrite !length_app, length_replicate, be_length; cbn [length]; unfold lenz in Hr; lia).
      f_equal. rewrite Hpad. rewrite drop_app_ge by (rewrite length_take; lia). rewrite length_take.
      replace (128 * q - Nat.min (128 * q) (length m))%nat with 0%nat by (unfold q; pose proof (Nat.div_mod_eq (length m) 128); lia).
      change (drop 0 ?l) with l. by rewrite Hr.
    + pose proof (absorb512_take q Spec.H0 (take (128 * q) m) (drop (128 * q) m) ltac:(rewrite length_take; unfold lenz in Hb; lia)) as E.
      rewrite take_drop in E. rewrite E, Hpad. symmetry. apply absorb512_take. rewrite length_take. unfold lenz in Hb. lia.
  - rewrite !list.Forall_app. split_and!; auto with machine; try (by apply list.Forall_drop); try (apply list.Forall_replicate; done).
    by apply list.Forall_singleton.
Qed.

(** Only the [n] bytes counted are read. *)
Lemma hash_prefix m n : Forall is_u8 m -> 0 <= n <= lenz m -> crypto_hash m n = crypto_hash (take (Z.to_nat n) m) n.
Proof.
  intros Hm Hn. unfold crypto_hash. set (r := Z.land n 127).
  assert (Hr : 0 <= r <= n /\ r < 128 /\ n - r = 128 * (n / 128)).
  { unfold r. change 127 with (Z.ones 7). rewrite Z.land_ones by lia. change (2 ^ 7) with 128.
    pose proof (Z.mod_pos_bound n 128). pose proof (Z.div_mod n 128). pose proof (Z.mod_le n 128). lia. }
  change iv with (bytes8 Spec.H0). assert (Hiv : words8 Spec.H0) by (split; [done|by repeat constructor]).
  rewrite !(hashblocks_spec Spec.H0) by (done || lia || by apply list.Forall_take).
  replace (Spec.absorb (Z.to_nat (n / 128)) Spec.H0 (take (Z.to_nat n) m)) with (Spec.absorb (Z.to_nat (n / 128)) Spec.H0 m).
  - replace (take (Z.to_nat r) (drop (Z.to_nat (n - r)) (take (Z.to_nat n) m))) with (take (Z.to_nat r) (drop (Z.to_nat (n - r)) m)); [reflexivity|].
    rewrite (firstn_all2 (n := Z.to_nat r) (drop _ (take _ _))) by (rewrite length_drop, length_take; unfold lenz in Hn; lia).
    rewrite take_drop_commute. do 2 f_equal. lia.
  - rewrite <- (take_drop (Z.to_nat n) m) at 1. apply absorb512_take. rewrite length_take. unfold lenz in Hn. lia.
Qed.

(** The hash of the signatures is SHA-512: for every message of bytes a
    64-bit length can count, the window of sixteen words, the tail buffer and the
    length field of the code give the digest of FIPS 180-4. *)
Theorem sha512_refines m (Hm : Forall is_u8 m) (Hlen : lenz m < 2 ^ 64) : ed25519_sha512 m = Spec.hash m.
Proof. exact (hash_value m Hm Hlen). Qed.

Lemma sha512_refines_witness : ed25519_sha512 [97; 98; 99] = Spec.hash [97; 98; 99].
Proof. apply (sha512_refines [97; 98; 99]); [repeat constructor; done|reflexivity]. Defined.
