(* ===== verification/Fe25519.v ===== *)
(** * Arithmetic modulo 2^255 - 19 ([ed25519.c])

    A field element is an array of sixteen 64-bit integers, limb [i] of weight
    2^(16 i); limbs are signed and may exceed sixteen bits between two carries.
    The functions wrap at 64 bits as the machine does; they are proved to compute
    in the integers modulo [P], with the bounds under which nothing wraps. *)

From Stdlib Require Import Zdiv.
From stdpp Require Import list.
From S2P Require Import Prelude.
#[local] Open Scope Z_scope.

(** The two's complement value of the low 64 bits. *)
Definition i64 (x : Z) : Z :=
  let y := Z.land x 0xFFFFFFFFFFFFFFFF in if y <? 0x8000000000000000 then y else y - 0x10000000000000000.

Abbreviation gf := (list Z).
Definition lim (x : gf) (i : Z) : Z := getz x i 0.

Definition gf0 : gf := replicate 16 0.
Definition gf1 : gf := 1 :: replicate 15 0.
Definition D : gf := [0x78a3; 0x1359; 0x4dca; 0x75eb; 0xd8ab; 0x4141; 0x0a4d; 0x0070; 0xe898; 0x7779; 0x4079; 0x8cc7; 0xfe73; 0x2b6f; 0x6cee; 0x5203].
Definition D2 : gf := [0xf159; 0x26b2; 0x9b94; 0xebd6; 0xb156; 0x8283; 0x149a; 0x00e0; 0xd130; 0xeef3; 0x80f2; 0x198e; 0xfce7; 0x56df; 0xd9dc; 0x2406].
Definition X : gf := [0xd51a; 0x8f25; 0x2d60; 0xc956; 0xa7b2; 0x9525; 0xc760; 0x692c; 0xdc5c; 0xfdd6; 0xe231; 0xc0a4; 0x53fe; 0xcd6e; 0x36d3; 0x2169].
Definition Y : gf := [0x6658; 0x6666; 0x6666; 0x6666; 0x6666; 0x6666; 0x6666; 0x6666; 0x6666; 0x6666; 0x6666; 0x6666; 0x6666; 0x6666; 0x6666; 0x6666].
Definition I : gf := [0xa0b0; 0x4a0e; 0x1b27; 0xc4ee; 0xe478; 0xad2f; 0x1806; 0x2f43; 0xd7a7; 0x3dfb; 0x0099; 0x2b4d; 0xdf0b; 0x4fc1; 0x2480; 0x2b83].

(** 0 when the first [n] bytes agree, -1 otherwise. *)
Definition vn (x y : list Z) (n : nat) : Z :=
  let d := for_up n 0 (fun i d => Z.lor d (Z.lxor (getz x i 0) (getz y i 0))) 0 in
  Z.land 1 (Z.shiftr (d - 1) 8) - 1.
Definition crypto_verify_32 (x y : list Z) : Z := vn x y 32.

(** One turn of the loop of [car25519]. *)
Definition car_step (i : Z) (o : gf) : gf :=
  let o := setz o i (i64 (lim o i + 2 ^ 16)) in
  let c := Z.shiftr (lim o i) 16 in
  let k := (i + 1) * b2z (i <? 15) in
  let o := setz o k (i64 (lim o k + (c - 1 + 37 * (c - 1) * b2z (i =? 15)))) in
  setz o i (i64 (lim o i - i64 (Z.shiftl c 16))).
Definition car25519 (o : gf) : gf := for_up 16 0 car_step o.

Definition sel25519 (p q : gf) (b : Z) : gf * gf :=
  let c := Z.lnot (b - 1) in
  for_up 16 0 (fun i pq =>
    let '(p, q) := pq in
    let t := Z.land c (Z.lxor (lim p i) (lim q i)) in
    (setz p i (Z.lxor (lim p i) t), setz q i (Z.lxor (lim q i) t))) (p, q).

(** One turn of the inner loop of [pack25519], and one of the outer. *)
Definition sub_step (t : gf) (i : Z) (m : gf) : gf :=
  let m := setz m i (lim t i - 0xffff - Z.land (Z.shiftr (lim m (i - 1)) 16) 1) in
  setz m (i - 1) (Z.land (lim m (i - 1)) 0xffff).
Definition pack_turn (t : gf) : gf :=
  let m := setz gf0 0 (lim t 0 - 0xffed) in
  let m := for_up 14 1 (sub_step t) m in
  let m := setz m 15 (lim t 15 - 0x7fff - Z.land (Z.shiftr (lim m 14) 16) 1) in
  let b := Z.land (Z.shiftr (lim m 15) 16) 1 in
  let m := setz m 14 (Z.land (lim m 14) 0xffff) in
  fst (sel25519 t m (1 - b)).
Definition pack25519 (n : gf) : list Z :=
  let t := car25519 (car25519 (car25519 n)) in
  let t := pack_turn (pack_turn t) in
  concat (map (fun x => [Z.land x 0xff; u8 (Z.shiftr x 8)]) t).

Definition neq25519 (a b : gf) : Z := crypto_verify_32 (pack25519 a) (pack25519 b).
Definition par25519 (a : gf) : Z := Z.land (getz (pack25519 a) 0 0) 1.

Definition unpack25519 (n : list Z) : gf :=
  let o := map (fun i => getz n (2 * i) 0 + Z.shiftl (getz n (2 * i + 1) 0) 8) (seqZ 0 16) in
  setz o 15 (Z.land (lim o 15) 0x7fff).

(** [A], [Z], [M] and [S] of the source. *)
Definition gfA (a b : gf) : gf := zip_with (fun x y => i64 (x + y)) a b.
Definition gfZ (a b : gf) : gf := zip_with (fun x y => i64 (x - y)) a b.
Definition mul_row (a b : gf) (i : Z) (t : list Z) : list Z :=
  for_up 16 0 (fun j t => setz t (i + j) (i64 (lim t (i + j) + lim a i * lim b j))) t.
Definition fold_step (i : Z) (t : list Z) : list Z := setz t i (i64 (lim t i + 38 * lim t (i + 16))).
Definition gfM (a b : gf) : gf :=
  let t := for_up 16 0 (mul_row a b) (replicate 31 0) in
  let t := for_up 15 0 fold_step t in
  car25519 (car25519 (take 16 t)).
Definition gfS (a : gf) : gf := gfM a a.

(** The exponent loops count down; turn [k] is [a = top - k]. *)
Definition inv25519 (i : gf) : gf :=
  for_up 254 0 (fun k c => let a := 253 - k in let c := gfS c in
    if negb (a =? 2) && negb (a =? 4) then gfM c i else c) i.
Definition pow2523 (i : gf) : gf :=
  for_up 251 0 (fun k c => let a := 250 - k in let c := gfS c in
    if negb (a =? 1) then gfM c i else c) i.

(** ** Values *)

Definition P : Z := 2 ^ 255 - 19.
Abbreviation radix := (2 ^ 16).

Fixpoint ev (x : list Z) : Z := match x with [] => 0 | a :: r => a + radix * ev r end.

(** Sixteen limbs of at most [b] in magnitude; sixteen digits. *)
Definition limbs (b : Z) (x : gf) : Prop := length x = 16%nat /\ Forall (fun v => - b <= v <= b) x.
Definition digits (x : gf) : Prop := length x = 16%nat /\ Forall (fun v => 0 <= v < radix) x.

Lemma i64_small x : - 2 ^ 63 <= x < 2 ^ 63 -> i64 x = x.
Proof.
  intros Hx. unfold i64. change 0xFFFFFFFFFFFFFFFF with (Z.ones 64). rewrite Z.land_ones by lia. destruct (Z.ltb_spec x 0).
  - assert (x mod 2 ^ 64 = x + 2 ^ 64) as -> by (symmetry; apply (Z.mod_unique _ _ (-1)); lia).
    rewrite (proj2 (Z.ltb_ge _ _)) by lia. lia.
  - rewrite Z.mod_small by lia. by rewrite (proj2 (Z.ltb_lt _ _)) by lia.
Qed.

Lemma ev_setz x i v : 0 <= i < lenz x -> ev (setz x i v) = ev x + (v - lim x i) * 2 ^ (16 * i).
Proof.
  unfold lim, getz, setz, lenz. intros Hi. destruct (Z.ltb_spec i 0) as [|_]; [lia|].
  assert (H : forall n, (n < length x)%nat -> ev (<[n := v]> x) = ev x + (v - nth n x 0) * 2 ^ (16 * Z.of_nat n)).
  { clear. induction x as [|a x IH]; intros n Hn; cbn [length] in Hn; [lia|]. destruct n as [|n].
    - change (<[0%nat:=v]> (a :: x)) with (v :: x). cbn [ev nth]. change (2 ^ (16 * Z.of_nat 0)) with 1. lia.
    - change (<[S n:=v]> (a :: x)) with (a :: <[n:=v]> x). cbn [ev nth]. rewrite IH by lia.
      replace (16 * Z.of_nat (S n)) with (16 + 16 * Z.of_nat n) by lia. rewrite Z.pow_add_r by lia. lia. }
  rewrite H by lia. by rewrite Z2Nat.id by lia.
Qed.

Lemma ev_app x y : ev (x ++ y) = ev x + 2 ^ (16 * lenz x) * ev y.
Proof.
  unfold lenz. induction x as [|a x IH]; [cbn [ev app length]; change (2 ^ (16 * Z.of_nat 0)) with 1; lia|].
  cbn [ev app length]. rewrite IH. replace (16 * Z.of_nat (S (length x))) with (16 + 16 * Z.of_nat (length x)) by lia.
  rewrite Z.pow_add_r by lia. lia.
Qed.

(** Digits are determined by the value. *)
Lemma ev_range x : Forall (fun v => 0 <= v < radix) x -> 0 <= ev x < 2 ^ (16 * lenz x).
Proof.
  unfold lenz. induction 1 as [|a x Ha _ IH]; [done|]. cbn [ev length].
  replace (16 * Z.of_nat (S (length x))) with (16 + 16 * Z.of_nat (length x)) by lia. rewrite Z.pow_add_r by lia. lia.
Qed.

Lemma ev_inj x y : length x = length y -> Forall (fun v => 0 <= v < radix) x -> Forall (fun v => 0 <= v < radix) y ->
  ev x = ev y -> x = y.
Proof.
  intros Hl Hx. revert y Hl. induction Hx as [|a x Ha Hx IH]; intros [|b y] Hl Hy E; try discriminate Hl; [done|].
  apply list.Forall_cons in Hy as [Hb Hy]. cbn [ev] in E. injection Hl as Hl.
  assert (a = b /\ ev x = ev y) as [-> Exy] by (clear - Ha Hb E; lia). f_equal. by apply IH.
Qed.

Lemma digits_range x : digits x -> 0 <= ev x < 2 ^ 256.
Proof. intros [Hl Hx]. pose proof (ev_range x Hx) as H. unfold lenz in H. by rewrite Hl in H. Qed.

Lemma limbs_lim b x i : 0 <= b -> limbs b x -> - b <= lim x i <= b.
Proof. intros Hb [_ Hx]. apply (getz_Forall (fun v => - b <= v <= b)); [done|lia]. Qed.

Lemma digits_lim x i : digits x -> 0 <= lim x i < radix.
Proof. intros [_ Hx]. apply (getz_Forall (fun v => 0 <= v < radix)); [done|cbn; lia]. Qed.

Lemma limbs_mono b c x : b <= c -> limbs b x -> limbs c x.
Proof. intros Hbc [Hl Hx]. split; [done|]. eapply list.Forall_impl; [exact Hx|]. cbn. lia. Qed.

Lemma limbs_ev b x : limbs b x -> - (b * 2 ^ 241) <= ev x <= b * 2 ^ 241.
Proof.
  intros [Hl Hx]. assert (H : forall n, length x = n ->
    - (b * (2 ^ (16 * Z.of_nat n) - 1)) <= (radix - 1) * ev x <= b * (2 ^ (16 * Z.of_nat n) - 1)).
  { clear Hl. induction Hx as [|a x Ha _ IH]; intros n <-; [cbn; lia|]. cbn [length ev]. specialize (IH _ eq_refl).
    replace (16 * Z.of_nat (S (length x))) with (16 + 16 * Z.of_nat (length x)) by lia. rewrite Z.pow_add_r by lia. nia. }
  specialize (H 16%nat Hl). change (16 * Z.of_nat 16) with 256 in H.
  destruct x; [discriminate|]. apply list.Forall_cons in Hx as [? _]. lia.
Qed.

Lemma limz_setz (o : list Z) k j v : 0 <= k < lenz o -> lim (setz o k v) j = if j =? k then v else lim o j.
Proof. apply getz_setz. Qed.

Lemma lim_setz (o : gf) k j v : length o = 16%nat -> 0 <= k < 16 -> lim (setz o k v) j = if j =? k then v else lim o j.
Proof. intros Hl Hk. apply getz_setz. unfold lenz. lia. Qed.

Lemma lims_ext (x : gf) (p : Z -> Prop) : length x = 16%nat -> (forall j, 0 <= j < 16 -> p (lim x j)) -> Forall p x.
Proof.
  intros Hl Hp. apply list.Forall_lookup. intros k v Hk. pose proof (lookup_lt_Some _ _ _ Hk).
  specialize (Hp (Z.of_nat k) ltac:(lia)). unfold lim in Hp. by rewrite (getz_nat _ _ _ _ Hk) in Hp.
Qed.

(** ** Carries *)

Lemma div_radix a b : - b <= a <= b -> - (b / radix + 1) <= a / radix <= b / radix.
Proof.
  intros H. split.
  - apply Z.div_le_lower_bound; [done|]. pose proof (Z.div_mod b radix). pose proof (Z.mod_pos_bound b radix). lia.
  - apply Z.div_le_mono; lia.
Qed.

Lemma car_step_eq o i : length o = 16%nat -> 0 <= i < 16 -> - 2 ^ 62 - 2 ^ 48 <= lim o i <= 2 ^ 62 + 2 ^ 48 ->
  let k := if i =? 15 then 0 else i + 1 in - 2 ^ 62 <= lim o k <= 2 ^ 62 ->
  car_step i o = setz (setz o k (lim o k + (if i =? 15 then 38 else 1) * (lim o i / radix))) i (lim o i mod radix).
Proof.
  intros Hl Hi Ho k Hk. unfold car_step.
  assert (Ek : (i + 1) * b2z (i <? 15) = k).
  { unfold k. destruct (Z.eqb_spec i 15) as [->|]; [done|]. rewrite (proj2 (Z.ltb_lt i 15)) by lia. cbn [b2z]. lia. }
  rewrite Ek. assert (Hki : 0 <= k < 16 /\ k <> i) by (unfold k; destruct (Z.eqb_spec i 15); lia).
  rewrite (i64_small (lim o i + 2 ^ 16)) by lia. set (o1 := setz o i (lim o i + 2 ^ 16)).
  assert (Hl1 : length o1 = 16%nat) by (unfold o1; by rewrite setz_length).
  assert (E1 : lim o1 i = lim o i + 2 ^ 16) by (unfold o1; by rewrite lim_setz, Z.eqb_refl).
  assert (E2 : lim o1 k = lim o k) by (unfold o1; rewrite lim_setz by done; by rewrite (proj2 (Z.eqb_neq k i)) by lia).
  rewrite E1, E2. rewrite Z.shiftr_div_pow2 by lia. set (c := lim o i / radix).
  assert (Ec : (lim o i + radix) / radix = c + 1)
    by (replace (lim o i + radix) with (lim o i + 1 * radix) by lia; by rewrite Z.div_add by lia).
  rewrite Ec.
  assert (Hc : - (2 ^ 46 + 2 ^ 32 + 1) <= c <= 2 ^ 46 + 2 ^ 32).
  { unfold c. pose proof (div_radix (lim o i) (2 ^ 62 + 2 ^ 48) ltac:(lia)) as H. change ((2 ^ 62 + 2 ^ 48) / radix) with (2 ^ 46 + 2 ^ 32) in H. lia. }
  replace (c + 1 - 1 + 37 * (c + 1 - 1) * b2z (i =? 15)) with ((if i =? 15 then 38 else 1) * c) by (destruct (i =? 15); cbn [b2z]; lia).
  rewrite (i64_small (lim o k + _)) by (destruct (i =? 15); lia). set (v := lim o k + _).
  rewrite (lim_setz _ k i) by (done || lia). rewrite (proj2 (Z.eqb_neq i k)) by lia. rewrite E1.
  rewrite Z.shiftl_mul_pow2 by lia. rewrite (i64_small ((c + 1) * 2 ^ 16)) by lia.
  replace (lim o i + 2 ^ 16 - (c + 1) * 2 ^ 16) with (lim o i mod radix) by (unfold c; pose proof (Z.div_mod (lim o i) radix); lia).
  rewrite i64_small by (pose proof (Z.mod_pos_bound (lim o i) radix); lia).
  unfold o1. clear - Hl Hi Hki. unfold setz. rewrite !(proj2 (Z.ltb_ge _ 0)) by lia.
  rewrite (list_insert_insert_ne (<[Z.to_nat i := _]> o)) by lia. rewrite list_insert_insert_eq. apply list_insert_insert_ne. lia.
Qed.

(** The pass from limb to limb: the value is kept, the limbs passed are digits. *)
Lemma car_pass x m : limbs (2 ^ 62) x -> (m <= 15)%nat -> let s := for_up m 0 car_step x in let n := Z.of_nat m in
  length s = 16%nat /\ ev s = ev x /\ (forall j, 0 <= j < n -> 0 <= lim s j < radix) /\
  (forall j, n < j < 16 -> lim s j = lim x j) /\ - 2 ^ 62 - 2 ^ 48 <= lim s n <= 2 ^ 62 + 2 ^ 48.
Proof.
  intros Hx. assert (Hlx : forall j, - 2 ^ 62 <= lim x j <= 2 ^ 62) by (intros j; by apply limbs_lim).
  cbv zeta. induction m as [|m IH]; intros Hm.
  - cbn [for_up]. split_and!; try done; try (intros; lia); [apply Hx|..]; pose proof (Hlx (Z.of_nat 0)); lia.
  - specialize (IH ltac:(lia)). rewrite for_up_last, Z.add_0_l. set (s := for_up m 0 car_step x) in *.
    destruct IH as (Hl & Hev & Hd & Hr & Hb). set (i := Z.of_nat m) in *.
    assert (Hk : lim s (i + 1) = lim x (i + 1)) by (apply Hr; lia).
    rewrite (car_step_eq s i); [|done|lia|lia|]; rewrite (proj2 (Z.eqb_neq i 15)) by lia; [|rewrite Hk; apply Hlx].
    replace (Z.of_nat (S m)) with (i + 1) by lia. set (q := lim s i / radix). rewrite Z.mul_1_l.
    assert (Hq : - (2 ^ 46 + 2 ^ 32 + 1) <= q <= 2 ^ 46 + 2 ^ 32).
    { unfold q. pose proof (div_radix (lim s i) (2 ^ 62 + 2 ^ 48) ltac:(lia)) as H. change ((2 ^ 62 + 2 ^ 48) / radix) with (2 ^ 46 + 2 ^ 32) in H. lia. }
    assert (Hl1 : length (setz s (i + 1) (lim s (i + 1) + q)) = 16%nat) by (by rewrite setz_length).
    split_and!.
    + by rewrite !setz_length.
    + rewrite !ev_setz by (unfold lenz; lia). rewrite lim_setz by (done || lia). rewrite (proj2 (Z.eqb_neq i (i + 1))) by lia.
      rewrite Hev. replace (16 * (i + 1)) with (16 * i + 16) by lia. rewrite Z.pow_add_r by lia.
      pose proof (Z.div_mod (lim s i) radix ltac:(lia)) as E. fold q in E. nia.
    + intros j Hj. rewrite !lim_setz by (done || lia). destruct (Z.eqb_spec j i) as [->|]; [apply Z.mod_pos_bound; lia|].
      rewrite (proj2 (Z.eqb_neq j (i + 1))) by lia. apply Hd. lia.
    + intros j Hj. rewrite !lim_setz by (done || lia). rewrite (proj2 (Z.eqb_neq j i)), (proj2 (Z.eqb_neq j (i + 1))) by lia. apply Hr. lia.
    + rewrite !lim_setz by (done || lia). rewrite (proj2 (Z.eqb_neq (i + 1) i)), Z.eqb_refl by lia. rewrite Hk. pose proof (Hlx (i + 1)). lia.
    + rewrite !lim_setz by (done || lia). rewrite (proj2 (Z.eqb_neq (i + 1) i)), Z.eqb_refl by lia. rewrite Hk. pose proof (Hlx (i + 1)). lia.
Qed.

(** A carry splits the value at 2^256 and folds the upper part back. *)
Lemma car_spec x : limbs (2 ^ 62) x -> exists l, digits l /\
  ev l = ev x mod 2 ^ 256 /\ car25519 x = setz l 0 (lim l 0 + 38 * (ev x / 2 ^ 256)).
Proof.
  intros Hx. destruct (car_pass x 15%nat Hx ltac:(lia)) as (Hl & Hev & Hd & _ & Hb). unfold car25519.
  change 16%nat with (S 15) at 1. rewrite for_up_last. set (s := for_up 15 0 car_step x) in *.
  change (Z.of_nat 15) with 15 in *. change (0 + 15) with 15. pose proof (Hd 0 ltac:(lia)) as Hd0.
  rewrite (car_step_eq s 15); cbn [Z.eqb Pos.eqb]; [|done|lia|lia|lia]. set (q := lim s 15 / radix).
  set (l := setz s 15 (lim s 15 mod radix)).
  assert (Hll : length l = 16%nat) by (unfold l; by rewrite setz_length).
  assert (Hdl : digits l).
  { split; [done|]. apply lims_ext; [done|]. intros j Hj. unfold l. rewrite lim_setz by (done || lia).
    destruct (Z.eqb_spec j 15); [apply Z.mod_pos_bound; lia|apply Hd; lia]. }
  assert (Hval : ev x = q * 2 ^ 256 + ev l).
  { unfold l. rewrite ev_setz by (unfold lenz; lia). rewrite Hev. pose proof (Z.div_mod (lim s 15) radix ltac:(lia)) as E. fold q in E.
    change (2 ^ 256) with (2 ^ 16 * 2 ^ (16 * 15)). nia. }
  pose proof (digits_range l Hdl) as Hr.
  exists l. split_and!; [done| |].
  - rewrite Hval, Z.add_comm, Z_mod_plus_full. symmetry. by apply Z.mod_small.
  - rewrite Hval, Z.div_add_l, (Z.div_small (ev l)), Z.add_0_r by lia.
    assert (E0 : lim l 0 = lim s 0) by (unfold l; rewrite lim_setz by (done || lia); done). rewrite E0.
    unfold l, setz. cbn [Z.ltb Z.compare Pos.compare Pos.compare_cont]. apply list_insert_insert_ne. lia.
Qed.

(** ** The field *)

(** Equality modulo [P], a congruence. *)
Record feq (a b : Z) : Prop := Feq { feq_mod : a mod P = b mod P }.

#[export] Instance feq_equiv : Equivalence feq.
Proof. split; [by intros x; constructor|by intros x y [H]; constructor|intros x y z [H1] [H2]; constructor; congruence]. Qed.
#[export] Instance feq_add : Proper (feq ==> feq ==> feq) Z.add.
Proof. intros x x' [Hx] y y' [Hy]. constructor. by rewrite Zplus_mod, Hx, Hy, <- Zplus_mod. Qed.
#[export] Instance feq_sub : Proper (feq ==> feq ==> feq) Z.sub.
Proof. intros x x' [Hx] y y' [Hy]. constructor. by rewrite Zminus_mod, Hx, Hy, <- Zminus_mod. Qed.
#[export] Instance feq_mul : Proper (feq ==> feq ==> feq) Z.mul.
Proof. intros x x' [Hx] y y' [Hy]. constructor. by rewrite Zmult_mod, Hx, Hy, <- Zmult_mod. Qed.
#[export] Instance feq_opp : Proper (feq ==> feq) Z.opp.
Proof. intros x x' Hx. rewrite <- !Z.sub_0_l. by rewrite Hx. Qed.

Lemma feq_refl_eq a b : a = b -> feq a b.
Proof. by intros ->. Qed.
Lemma feq_small a b : 0 <= a < P -> 0 <= b < P -> feq a b -> a = b.
Proof. intros Ha Hb [H]. by rewrite !Z.mod_small in H. Qed.
Lemma feq_P a k : feq (a + k * P) a.
Proof. constructor. apply Z_mod_plus_full. Qed.
Lemma feq_mod_P a : feq (a mod P) a.
Proof. constructor. apply Zmod_mod. Qed.

Lemma P_fold : feq (2 ^ 256) 38.
Proof. constructor. reflexivity. Qed.

(** The elements between two multiplications. *)
Definition red (x : gf) : Prop := limbs (2 ^ 17) x.

Lemma limbs_setz b x k v : limbs b x -> 0 <= k < 16 -> - b <= v <= b -> limbs b (setz x k v).
Proof. intros [Hl Hx] Hk Hv. split; [by rewrite setz_length|]. by apply setz_Forall. Qed.

Lemma digits_limbs x : digits x -> limbs radix x.
Proof. intros [Hl Hx]. split; [done|]. eapply list.Forall_impl; [exact Hx|]. cbn. lia. Qed.

(** A carry keeps the element. *)
Lemma car_feq x : limbs (2 ^ 62) x -> feq (ev (car25519 x)) (ev x).
Proof.
  intros Hx. destruct (car_spec x Hx) as (l & Hl & Hev & ->). rewrite ev_setz by (unfold lenz; rewrite (proj1 Hl); lia).
  rewrite Hev. change (2 ^ (16 * 0)) with 1.
  replace (ev x mod 2 ^ 256 + (lim l 0 + 38 * (ev x / 2 ^ 256) - lim l 0) * 1) with (ev x mod 2 ^ 256 + 38 * (ev x / 2 ^ 256)) by lia.
  rewrite <- P_fold. rewrite (Z.div_mod (ev x) (2 ^ 256)) at 3 by lia. by rewrite Z.add_comm.
Qed.

Lemma car_limbs b x : limbs b x -> 0 <= b <= 2 ^ 62 -> limbs (radix + 38 * (b / 2 ^ 15 + 1)) (car25519 x).
Proof.
  intros Hx Hb. destruct (car_spec x (limbs_mono _ _ _ (proj2 Hb) Hx)) as (l & Hl & _ & ->).
  assert (Hq : - (b / 2 ^ 15 + 1) <= ev x / 2 ^ 256 <= b / 2 ^ 15 + 1).
  { pose proof (limbs_ev b x Hx) as He. change (2 ^ 241) with (2 ^ 256 / 2 ^ 15) in He.
    pose proof (Z.div_mod b (2 ^ 15)). pose proof (Z.mod_pos_bound b (2 ^ 15)). change (2 ^ 256) with (2 ^ 15 * (2 ^ 256 / 2 ^ 15)).
    set (h := 2 ^ 256 / 2 ^ 15) in *. assert (0 < h) by done. clearbody h. split.
    - apply Z.div_le_lower_bound; nia.
    - apply Z.div_le_upper_bound; nia. }
  assert (0 <= b / 2 ^ 15) by (apply Z.div_pos; lia).
  pose proof (digits_lim l 0 Hl) as H0.
  apply limbs_setz; [|lia|lia]. eapply limbs_mono; [|by apply digits_limbs]. lia.
Qed.

(** Two carries bring any accumulated value back to small limbs. *)
Lemma car2_red x : limbs (2 ^ 62) x -> red (car25519 (car25519 x)) /\ feq (ev (car25519 (car25519 x))) (ev x).
Proof.
  intros Hx. pose proof (car_limbs _ _ Hx ltac:(lia)) as H1.
  assert (H1' : limbs (2 ^ 62) (car25519 x)) by (eapply limbs_mono; [|exact H1]; done).
  split; [|by rewrite !car_feq].
  destruct (car_spec _ H1') as (l & Hl & _ & ->). destruct (car_spec x Hx) as (l1 & Hl1 & Hev1 & E1).
  assert (Hv : - 2 ^ 53 <= ev (car25519 x) <= 2 ^ 256 + 2 ^ 53).
  { rewrite E1, ev_setz by (unfold lenz; rewrite (proj1 Hl1); lia). change (2 ^ (16 * 0)) with 1.
    pose proof (digits_range l1 Hl1). pose proof (limbs_ev _ _ Hx) as He.
    assert (- (2 ^ 47 + 1) <= ev x / 2 ^ 256 <= 2 ^ 47 + 1)
      by (split; [apply Z.div_le_lower_bound|apply Z.div_le_upper_bound]; lia). lia. }
  assert (Hq : - 1 <= ev (car25519 x) / 2 ^ 256 < 2)
    by (split; [apply Z.div_le_lower_bound|apply Z.div_lt_upper_bound]; lia).
  pose proof (digits_lim l 0 Hl) as H0.
  apply limbs_setz; [|lia|lia]. eapply limbs_mono; [|by apply digits_limbs]. lia.
Qed.

(** Addition and subtraction, limb by limb. *)
Lemma zip_op (f : Z -> Z -> Z) (s : Z) b c x y :
  (forall u v, - b <= u <= b -> - c <= v <= c -> f u v = u + s * v /\ - (b + c) <= f u v <= b + c) ->
  limbs b x -> limbs c y -> limbs (b + c) (zip_with f x y) /\ ev (zip_with f x y) = ev x + s * ev y.
Proof.
  intros Hf [Hlx Hx] [Hly Hy]. assert (Hl : length x = length y) by lia. unfold limbs. rewrite length_zip_with, Hlx, Hly.
  clear Hlx Hly. revert y Hl Hy. induction Hx as [|u x Hu Hx IH]; intros [|v y] Hl Hy; try discriminate Hl; [cbn; split_and!; [done|constructor|lia]|].
  apply list.Forall_cons in Hy as [Hv Hy]. injection Hl as Hl. destruct (IH y Hl Hy) as [[_ IH1] IH2]. destruct (Hf u v Hu Hv) as [E Hr].
  cbn [zip_with ev]. rewrite IH2, E. split_and!; [done|constructor; [lia|done]|lia].
Qed.

Lemma gfA_spec b c x y : limbs b x -> limbs c y -> b + c <= 2 ^ 62 -> limbs (b + c) (gfA x y) /\ ev (gfA x y) = ev x + ev y.
Proof.
  intros Hx Hy Hb. replace (ev y) with (1 * ev y) by lia. apply zip_op; [|done|done]. intros u v Hu Hv. rewrite i64_small by lia. lia.
Qed.
Lemma gfZ_spec b c x y : limbs b x -> limbs c y -> b + c <= 2 ^ 62 -> limbs (b + c) (gfZ x y) /\ ev (gfZ x y) = ev x - ev y.
Proof.
  intros Hx Hy Hb. replace (ev x - ev y) with (ev x + -1 * ev y) by lia. apply zip_op; [|done|done].
  intros u v Hu Hv. rewrite i64_small by lia. lia.
Qed.

(** ** Multiplication *)

(** The accumulator after some products: its value, and a bound for its limbs
    that grows by one product for the positions already reached in a row. *)
Lemma mul_row_spec a b B t i n : limbs B a -> limbs B b -> 0 <= B <= 2 ^ 26 -> length t = 31%nat -> 0 <= i <= 15 -> 0 <= n <= 15 ->
  (forall j, - (n * B ^ 2) <= lim t j <= n * B ^ 2) ->
  let t' := mul_row a b i t in
  length t' = 31%nat /\ ev t' = ev t + 2 ^ (16 * i) * lim a i * ev b /\
  forall j, - ((n + 1) * B ^ 2) <= lim t' j <= (n + 1) * B ^ 2.
Proof.
  intros Ha Hb HB Hl Hi Hn Ht. cbv zeta. unfold mul_row. assert (HB2 : 0 <= B ^ 2 <= 2 ^ 52) by nia.
  assert (H : forall m, (m <= 16)%nat -> let t' := for_up m 0 (fun j t => setz t (i + j) (i64 (lim t (i + j) + lim a i * lim b j))) t in
    length t' = 31%nat /\ ev t' = ev t + 2 ^ (16 * i) * lim a i * ev (take m b) /\
    (forall j, - ((n + 1) * B ^ 2) <= lim t' j <= (n + 1) * B ^ 2) /\ (forall j, i + Z.of_nat m <= j -> lim t' j = lim t j)).
  { induction m as [|m IH]; intros Hm; cbv zeta.
    - cbn [for_up]. change (take 0 b) with (@nil Z). cbn [ev]. split_and!; [done|lia| |done]. intros j. specialize (Ht j). lia.
    - rewrite for_up_last. destruct (IH ltac:(lia)) as (Hl' & Hev & Hbd & Hold). clear IH.
      set (t' := for_up m 0 _ t) in *. rewrite Z.add_0_l. set (k := Z.of_nat m) in *.
      pose proof (limbs_lim B a i ltac:(lia) Ha). pose proof (limbs_lim B b k ltac:(lia) Hb).
      assert (Hp : - B ^ 2 <= lim a i * lim b k <= B ^ 2) by nia.
      assert (Hk : lim t' (i + k) = lim t (i + k)) by (apply Hold; lia). specialize (Ht (i + k)).
      rewrite Hk. rewrite i64_small by nia. split_and!.
      + by rewrite setz_length.
      + rewrite ev_setz by (unfold lenz; lia). rewrite Hk, Hev. replace (take (S m) b) with (take m b ++ [lim b k]).
        * rewrite ev_app. cbn [ev]. unfold lenz. rewrite length_take, Nat.min_l by (destruct Hb; lia).
          replace (16 * (i + k)) with (16 * i + 16 * k) by lia. rewrite Z.pow_add_r by lia. fold k. ring.
        * unfold lim. destruct (lookup_lt_is_Some_2 b m ltac:(destruct Hb; lia)) as [x Hx]. unfold k.
          by rewrite (getz_nat _ _ _ _ Hx), (take_S_r _ _ _ Hx).
      + intros j. rewrite limz_setz by (unfold lenz; lia). destruct (j =? i + k); [lia|apply Hbd].
      + intros j Hj. rewrite limz_setz by (unfold lenz; lia). rewrite (proj2 (Z.eqb_neq j (i + k))) by lia. apply Hold. lia. }
  destruct (H 16%nat ltac:(lia)) as (H1 & H2 & H3 & _). split_and!; [done| |done].
  rewrite H2. by rewrite firstn_all2 by (destruct Hb; lia).
Qed.

Lemma mul_acc a b B : limbs B a -> limbs B b -> 0 <= B <= 2 ^ 26 ->
  let t := for_up 16 0 (mul_row a b) (replicate 31 0) in
  length t = 31%nat /\ ev t = ev a * ev b /\ forall j, - (16 * B ^ 2) <= lim t j <= 16 * B ^ 2.
Proof.
  intros Ha Hb HB. assert (H : forall m, (m <= 16)%nat -> let t := for_up m 0 (mul_row a b) (replicate 31 0) in
    length t = 31%nat /\ ev t = ev (take m a) * ev b /\ forall j, - (Z.of_nat m * B ^ 2) <= lim t j <= Z.of_nat m * B ^ 2).
  { induction m as [|m IH]; intros Hm; cbv zeta.
    - cbn [for_up]. split_and!; [done|done|]. intros j. unfold lim.
      assert (Forall (fun v => v = 0) (replicate 31 0)) as Hz by (by apply list.Forall_replicate).
      pose proof (getz_Forall (fun v => v = 0) (replicate 31 0) j 0 Hz eq_refl) as E. cbv beta in E. lia.
    - rewrite for_up_last. destruct (IH ltac:(lia)) as (Hl & Hev & Hbd). set (t := for_up m 0 _ _) in *. rewrite Z.add_0_l.
      destruct (mul_row_spec a b B t (Z.of_nat m) (Z.of_nat m) Ha Hb HB Hl ltac:(lia) ltac:(lia) Hbd) as (H1 & H2 & H3).
      split_and!; [done| |]; [|intros j; specialize (H3 j); lia]. rewrite H2, Hev. replace (take (S m) a) with (take m a ++ [lim a (Z.of_nat m)]).
      + rewrite ev_app. cbn [ev]. unfold lenz. rewrite length_take, Nat.min_l by (destruct Ha; lia). ring.
      + unfold lim. destruct (lookup_lt_is_Some_2 a m ltac:(destruct Ha; lia)) as [x Hx].
        by rewrite (getz_nat _ _ _ _ Hx), (take_S_r _ _ _ Hx). }
  destruct (H 16%nat ltac:(lia)) as (H1 & H2 & H3). split_and!; [done| |exact H3].
  rewrite H2. by rewrite firstn_all2 by (destruct Ha; lia).
Qed.

Lemma ev_split t : (16 <= length t)%nat -> ev t = ev (take 16 t) + 2 ^ 256 * ev (drop 16 t).
Proof.
  intros Hl. rewrite <- (take_drop 16 t) at 1. rewrite ev_app. f_equal. f_equal.
  unfold lenz. by rewrite length_take, Nat.min_l by lia.
Qed.

Lemma fold_feq T e c d : e = T + 38 * d -> e = c + 2 ^ 256 * d -> feq c T.
Proof. intros H1 H2. replace c with (T + 38 * d - 2 ^ 256 * d) by lia. rewrite P_fold. apply feq_refl_eq. lia. Qed.

(** Folding the upper fifteen limbs back with weight 38. *)
Lemma fold_loop t C m : length t = 31%nat -> 0 <= C <= 2 ^ 56 -> (forall j, - C <= lim t j <= C) -> (m <= 15)%nat ->
  let t' := for_up m 0 fold_step t in
  length t' = 31%nat /\ ev t' = ev t + 38 * ev (take m (drop 16 t)) /\ (forall j, - (39 * C) <= lim t' j <= 39 * C) /\
  (forall j, Z.of_nat m <= j -> lim t' j = lim t j).
Proof.
  intros Hl HC Ht. cbv zeta. induction m as [|m IH]; intros Hm.
  - cbn [for_up]. change (take 0 ?l) with (@nil Z). cbn [ev]. split_and!; [done|lia| |done]. intros j. specialize (Ht j). lia.
  - rewrite for_up_last. destruct (IH ltac:(lia)) as (Hl' & Hev & Hbd & Hold). clear IH. generalize dependent (for_up m 0 fold_step t).
    intros t' Hl' Hev Hbd Hold. rewrite Z.add_0_l. set (k := Z.of_nat m) in *. unfold fold_step. rewrite !Hold by lia.
    pose proof (Ht k). pose proof (Ht (k + 16)). rewrite i64_small by lia. split_and!.
    + by rewrite setz_length.
    + rewrite ev_setz by (unfold lenz; lia). rewrite Hold, Hev by lia.
      replace (take (S m) (drop 16 t)) with (take m (drop 16 t) ++ [lim t (k + 16)]).
      * rewrite ev_app. cbn [ev]. unfold lenz. rewrite length_take, Nat.min_l by (rewrite length_drop; lia). fold k. ring.
      * destruct (lookup_lt_is_Some_2 (drop 16 t) m ltac:(rewrite length_drop; lia)) as [x Hx].
        rewrite (take_S_r _ _ _ Hx). do 2 f_equal. rewrite lookup_drop in Hx. unfold lim, k.
        replace (Z.of_nat m + 16) with (Z.of_nat (16 + m)) by lia. apply (getz_nat _ _ _ _ Hx).
    + intros j. rewrite limz_setz by (unfold lenz; lia). destruct (j =? k); [lia|apply Hbd].
    + intros j Hj. rewrite limz_setz by (unfold lenz; lia). rewrite (proj2 (Z.eqb_neq j k)) by lia. apply Hold. lia.
Qed.

(** Beyond the limbs the loop writes nothing changes. *)
Lemma fold_tail t t' : length t = 31%nat -> length t' = 31%nat -> (forall j, 15 <= j -> lim t' j = lim t j) -> drop 16 t' = drop 16 t.
Proof.
  intros H H1 H4. apply list_eq. intros k. rewrite !lookup_drop. destruct (decide (16 + k < 31)%nat); [|by rewrite !lookup_ge_None_2 by lia].
  specialize (H4 (Z.of_nat (16 + k)) ltac:(lia)). unfold lim in H4.
  destruct (lookup_lt_is_Some_2 t (16 + k) ltac:(lia)) as [x Hx]. destruct (lookup_lt_is_Some_2 t' (16 + k) ltac:(lia)) as [y Hy].
  rewrite (getz_nat _ _ _ _ Hx), (getz_nat _ _ _ _ Hy) in H4. by rewrite Hx, Hy, H4.
Qed.

Lemma mul_fold t C : length t = 31%nat -> 0 <= C <= 2 ^ 56 -> (forall j, - C <= lim t j <= C) ->
  let t' := for_up 15 0 fold_step t in limbs (2 ^ 62) (take 16 t') /\ feq (ev (take 16 t')) (ev t).
Proof.
  intros Hl HC Ht. cbv zeta. destruct (fold_loop t C 15 Hl HC Ht ltac:(lia)) as (H1 & H2 & H3 & H4). revert H1 H2 H3 H4.
  generalize (for_up 15 0 fold_step t). intros t' H1 H2 H3 H4. split.
  - split; [rewrite length_take; lia|]. apply lims_ext; [rewrite length_take; lia|]. intros j Hj.
    replace (lim (take 16 t') j) with (lim t' j); [specialize (H3 j); lia|].
    unfold lim, getz. rewrite (proj2 (Z.ltb_ge j 0)) by lia. rewrite !nth_lookup, lookup_take_lt by lia. done.
  - rewrite (firstn_all2 (n := 15)) in H2 by (rewrite length_drop; lia).
    pose proof (ev_split t' ltac:(lia)) as E. rewrite (fold_tail t t' Hl H1 H4) in E. exact (fold_feq _ _ _ _ H2 E).
Qed.

(** The product of two elements, whatever the additions before it. *)
Lemma gfM_spec a b B : limbs B a -> limbs B b -> 0 <= B <= 2 ^ 26 -> red (gfM a b) /\ feq (ev (gfM a b)) (ev a * ev b).
Proof.
  intros Ha Hb HB. destruct (mul_acc a b B Ha Hb HB) as (Hl & Hev & Hbd). unfold gfM.
  set (t := for_up 16 0 (mul_row a b) (replicate 31 0)) in *.
  destruct (mul_fold t (16 * B ^ 2) Hl ltac:(nia) Hbd) as [Hlim Hf].
  destruct (car2_red _ Hlim) as [Hr Hc]. split; [done|]. by rewrite Hc, Hf, Hev.
Qed.

#[global] Opaque gfM.

(** ** Powers *)

Lemma feq_pow a b n : feq a b -> feq (a ^ n) (b ^ n).
Proof.
  intros Hab. destruct (Z.ltb_spec n 0); [by rewrite !Z.pow_neg_r|]. rewrite <- (Z2Nat.id n) by lia. generalize (Z.to_nat n) as m.
  induction m as [|m IH]; [done|]. rewrite Nat2Z.inj_succ, !Z.pow_succ_r by lia. by rewrite IH, Hab.
Qed.

Lemma red_26 x : red x -> limbs (2 ^ 26) x.
Proof. apply limbs_mono. lia. Qed.
Lemma gfM_red a b : red a -> red b -> red (gfM a b) /\ feq (ev (gfM a b)) (ev a * ev b).
Proof. intros Ha Hb. apply (gfM_spec a b (2 ^ 17)); [done|done|lia]. Qed.

Lemma gfS_red a : red a -> red (gfS a) /\ feq (ev (gfS a)) (ev a * ev a).
Proof. intros Ha. exact (gfM_red a a Ha Ha). Qed.

(** Square, and multiply when [skip] does not say otherwise: the exponent. *)
Definition expo (skip : Z -> bool) (top : Z) (n : nat) : Z :=
  for_up n 0 (fun k e => 2 * e + b2z (negb (skip (top - k)))) 1.

Definition pow_step (skip : Z -> bool) (top : Z) (x : gf) (k : Z) (c : gf) : gf :=
  if negb (skip (top - k)) then gfM (gfS c) x else gfS c.

Lemma pow_loop skip top n x : red x ->
  0 <= expo skip top n /\ red (for_up n 0 (pow_step skip top x) x) /\ feq (ev (for_up n 0 (pow_step skip top x) x)) (ev x ^ expo skip top n).
Proof.
  intros Hx. unfold expo. induction n as [|n IH]; [cbn [for_up]; rewrite Z.pow_1_r; split; [lia|split; [exact Hx|reflexivity]]|]. rewrite !for_up_last. destruct IH as (He & Hc & Hf).
  revert He Hc Hf. generalize (for_up n 0 (pow_step skip top x) x) as c.
  generalize (for_up n 0 (fun k e => 2 * e + b2z (negb (skip (top - k)))) 1) as e. intros e c He Hc Hf.
  destruct (gfS_red c Hc) as [Hs Hsf]. rewrite Hf, <- Z.pow_add_r in Hsf by lia. unfold pow_step.
  destruct (negb (skip _)); cbn [b2z].
  - split; [lia|]. destruct (gfM_red (gfS c) x Hs Hx) as [Hm Hmf]. split; [done|]. rewrite Hmf, Hsf.
    rewrite <- (Z.pow_1_r (ev x)) at 2. rewrite <- Z.pow_add_r by lia. by replace (e + e + 1) with (2 * e + 1) by lia.
  - split; [lia|]. split; [done|]. by replace (2 * e + 0) with (e + e) by lia.
Qed.

Lemma for_up_ext {S} n i (f g : Z -> S -> S) s : (forall j s, f j s = g j s) -> for_up n i f s = for_up n i g s.
Proof. intros Hfg. revert i s. induction n as [|n IH]; intros i s; [done|]. cbn [for_up]. by rewrite Hfg, IH. Qed.

Lemma inv25519_spec x : red x -> red (inv25519 x) /\ feq (ev (inv25519 x)) (ev x ^ (P - 2)).
Proof.
  intros Hx. set (skip := fun a => (a =? 2) || (a =? 4)). destruct (pow_loop skip 253 254 x Hx) as (_ & H1 & H2).
  assert (E : inv25519 x = for_up 254 0 (pow_step skip 253 x) x).
  { unfold inv25519. apply for_up_ext. intros j s. unfold pow_step, skip. by rewrite negb_orb. }
  assert (Ee : expo skip 253 254 = P - 2) by (vm_compute; reflexivity). rewrite Ee in H2. rewrite E. by split.
Qed.

Lemma pow2523_spec x : red x -> red (pow2523 x) /\ feq (ev (pow2523 x)) (ev x ^ ((P - 5) / 8)).
Proof.
  intros Hx. set (skip := fun a => a =? 1). destruct (pow_loop skip 250 251 x Hx) as (_ & H1 & H2).
  assert (E : pow2523 x = for_up 251 0 (pow_step skip 250 x) x) by (unfold pow2523; by apply for_up_ext).
  assert (Ee : expo skip 250 251 = (P - 5) / 8) by (vm_compute; reflexivity). rewrite Ee in H2. rewrite E. by split.
Qed.

(** ** Selection and comparison *)

Lemma sel_loop c p q m : (c = 0 \/ c = -1) -> length p = 16%nat -> length q = 16%nat -> (m <= 16)%nat ->
  for_up m 0 (fun i pq => let '(p, q) := pq in
    let t := Z.land c (Z.lxor (lim p i) (lim q i)) in
    (setz p i (Z.lxor (lim p i) t), setz q i (Z.lxor (lim q i) t))) (p, q) =
  if c =? 0 then (p, q) else (take m q ++ drop m p, take m p ++ drop m q).
Proof.
  intros Hc Hp Hq. induction m as [|m IH]; intros Hm; [cbn [for_up take drop app]; by destruct (c =? 0)|].
  rewrite for_up_last, IH by lia. rewrite Z.add_0_l. clear IH.
  destruct (lookup_lt_is_Some_2 p m ltac:(lia)) as [x Hx]. destruct (lookup_lt_is_Some_2 q m ltac:(lia)) as [y Hy].
  assert (Hself : forall (l : list Z) v, l !! m = Some v -> setz l (Z.of_nat m) v = l)
    by (intros l v Hv; rewrite setz_nat; by apply list_insert_id).
  destruct Hc as [->| ->]; cbn [Z.eqb].
  - rewrite Z.land_0_l, !Z.lxor_0_r. unfold lim. rewrite (getz_nat _ _ _ _ Hx), (getz_nat _ _ _ _ Hy). by rewrite !Hself.
  - rewrite !Z.land_m1_l.
    assert (Hmid : forall (u l : list Z) v w, length u = 16%nat -> l !! m = Some v -> (m < 16)%nat -> length l = 16%nat ->
      lim (take m u ++ drop m l) (Z.of_nat m) = v /\ setz (take m u ++ drop m l) (Z.of_nat m) w = take m u ++ w :: drop (S m) l).
    { intros u l v w Hu Hv Hm' Hl'. rewrite (drop_S _ _ _ Hv). rewrite setz_nat. split.
      - unfold lim. apply getz_nat. rewrite lookup_app_r by (rewrite length_take; lia). rewrite length_take.
        by replace (m - m `min` length u)%nat with 0%nat by lia.
      - rewrite insert_app_r_alt by (rewrite length_take; lia). rewrite length_take. by replace (m - m `min` length u)%nat with 0%nat by lia. }
    destruct (Hmid q p x y Hq Hx Hm Hp) as [-> Ep]. destruct (Hmid p q y x Hp Hy Hm Hq) as [-> Eq].
    assert (E1 : Z.lxor x (Z.lxor x y) = y) by (by rewrite <- Z.lxor_assoc, Z.lxor_nilpotent, Z.lxor_0_l).
    assert (E2 : Z.lxor y (Z.lxor x y) = x) by (by rewrite (Z.lxor_comm x), <- Z.lxor_assoc, Z.lxor_nilpotent, Z.lxor_0_l).
    rewrite E1, E2, Ep, Eq. rewrite (take_S_r _ _ _ Hx), (take_S_r _ _ _ Hy), <- !app_assoc. done.
Qed.

Lemma sel25519_spec p q b : length p = 16%nat -> length q = 16%nat -> (b = 0 \/ b = 1) ->
  sel25519 p q b = if b =? 0 then (p, q) else (q, p).
Proof.
  intros Hp Hq Hb. unfold sel25519. rewrite sel_loop; [|destruct Hb as [->| ->]; [by left|by right]|done|done|lia].
  destruct Hb as [->| ->]; [done|]. cbn [Z.sub Z.lnot Z.eqb]. rewrite !firstn_all2, !drop_ge, !app_nil_r by lia. done.
Qed.

(** [crypto_verify_32] is equality. *)
Lemma u8_bits x : is_u8 x <-> Z.land x (Z.ones 8) = x.
Proof.
  rewrite Z.land_ones by lia. unfold is_u8. split; [apply Z.mod_small|]. intros <-. apply Z.mod_pos_bound. lia.
Qed.
Lemma lxor_u8 a b : is_u8 a -> is_u8 b -> is_u8 (Z.lxor a b).
Proof.
  rewrite !u8_bits. intros Ha Hb. rewrite <- Ha, <- Hb at 2. apply Z.bits_inj'. intros n Hn.
  rewrite !Z.land_spec, !Z.lxor_spec, !Z.land_spec. by destruct (Z.testbit (Z.ones 8) n), (Z.testbit a n), (Z.testbit b n).
Qed.
Lemma lor_u8 a b : is_u8 a -> is_u8 b -> is_u8 (Z.lor a b).
Proof.
  rewrite !u8_bits. intros Ha Hb. rewrite <- Ha, <- Hb at 2. apply Z.bits_inj'. intros n Hn.
  rewrite !Z.land_spec, !Z.lor_spec, !Z.land_spec. by destruct (Z.testbit (Z.ones 8) n), (Z.testbit a n), (Z.testbit b n).
Qed.

Lemma vn_loop x y n : Forall is_u8 x -> Forall is_u8 y ->
  let d := for_up n 0 (fun i d => Z.lor d (Z.lxor (getz x i 0) (getz y i 0))) 0 in
  is_u8 d /\ (d = 0 <-> forall i, 0 <= i < Z.of_nat n -> getz x i 0 = getz y i 0).
Proof.
  intros Hx Hy. cbv zeta. induction n as [|n IH]; [cbn [for_up]; split; [done|split; [intros; lia|done]]|].
  rewrite for_up_last, Z.add_0_l. destruct IH as [Hd Hiff]. revert Hd Hiff. generalize (for_up n 0 (fun i d => Z.lor d (Z.lxor (getz x i 0) (getz y i 0))) 0) as d.
  intros d Hd Hiff. set (k := Z.of_nat n) in *.
  assert (Hu : is_u8 (Z.lxor (getz x k 0) (getz y k 0))) by (apply lxor_u8; by apply getz_Forall).
  split; [by apply lor_u8|]. rewrite Z.lor_eq_0_iff, Z.lxor_eq_0_iff, Hiff. split.
  - intros [Ha Hb] i Hi. destruct (decide (i = k)) as [->|]; [done|apply Ha; lia].
  - intros Ha. split; [intros i Hi|]; apply Ha; lia.
Qed.

Lemma verify_32_spec x y : Forall is_u8 x -> Forall is_u8 y -> length x = 32%nat -> length y = 32%nat ->
  crypto_verify_32 x y = if bool_decide (x = y) then 0 else -1.
Proof.
  intros Hx Hy Hlx Hly. unfold crypto_verify_32, vn. destruct (vn_loop x y 32 Hx Hy) as [Hd Hiff]. revert Hd Hiff.
  generalize (for_up 32 0 (fun i d => Z.lor d (Z.lxor (getz x i 0) (getz y i 0))) 0) as d. intros d Hd Hiff.
  rewrite Z.shiftr_div_pow2 by lia. case_bool_decide as E.
  - replace d with 0 by (symmetry; apply Hiff; intros; by rewrite E). done.
  - assert (d <> 0).
    { intros E0. apply E, list_eq. intros i.
      destruct (decide (i < 32)%nat); [|by rewrite !lookup_ge_None_2 by lia].
      destruct (lookup_lt_is_Some_2 x i ltac:(lia)) as [u Hu]. destruct (lookup_lt_is_Some_2 y i ltac:(lia)) as [v Hv].
      pose proof (proj1 Hiff E0 (Z.of_nat i) ltac:(lia)) as Ei. rewrite (getz_nat _ _ _ _ Hu), (getz_nat _ _ _ _ Hv) in Ei. by rewrite Hu, Hv, Ei. }
    unfold is_u8 in Hd. change (2 ^ 8) with 256 in *. by rewrite Z.div_small by lia.
Qed.

(** ** The canonical form *)

(** The limbs of [P]. *)
Definition plim (i : Z) : Z := if i =? 0 then 0xffed else if i =? 15 then 0x7fff else 0xffff.

(** The borrow chain: up to position [i] the masked differences and the borrow
    make the difference of the values. *)
Record borrow (t m : gf) (i : Z) : Prop := {
  bo_len : length m = 16%nat;
  bo_rest : forall j, i < j -> lim m j = 0;
  bo_low : forall j, 0 <= j < i -> 0 <= lim m j < radix;
  bo_top : - radix <= lim m i < radix;
  bo_val : ev m = ev (take (Z.to_nat i + 1) t) - ev (map plim (seqZ 0 (i + 1))) }.

Lemma seqZ_snoc n : 0 <= n -> seqZ 0 (n + 1) = seqZ 0 n ++ [n].
Proof. intros Hn. by rewrite seqZ_app by lia. Qed.

Lemma ev_map_snoc (f : Z -> Z) n : 0 <= n -> ev (map f (seqZ 0 (n + 1))) = ev (map f (seqZ 0 n)) + 2 ^ (16 * n) * f n.
Proof.
  intros Hn. rewrite seqZ_snoc, map_app, ev_app by done. cbn [map ev]. unfold lenz. rewrite length_map, length_seqZ, Z2Nat.id by lia. lia.
Qed.

Lemma ev_take_snoc (t : gf) i : length t = 16%nat -> 0 <= i < 16 ->
  ev (take (Z.to_nat i + 1) t) = ev (take (Z.to_nat i) t) + 2 ^ (16 * i) * lim t i.
Proof.
  intros Hl Hi. destruct (lookup_lt_is_Some_2 t (Z.to_nat i) ltac:(lia)) as [x Hx].
  rewrite Nat.add_1_r, (take_S_r _ _ _ Hx), ev_app. cbn [ev]. unfold lenz. rewrite length_take, Nat.min_l by lia.
  rewrite Z2Nat.id by lia. pose proof (getz_nat t _ _ 0 Hx) as E. rewrite Z2Nat.id in E by lia. unfold lim. rewrite E. lia.
Qed.

(** The borrow of a difference in [-2^16, 2^16). *)
Lemma borrow_bit v : - radix <= v < radix -> Z.land (Z.shiftr v 16) 1 = (if v <? 0 then 1 else 0) /\ Z.land v 0xffff = v + radix * (if v <? 0 then 1 else 0).
Proof.
  intros Hv. change 1 with (Z.ones 1) at 1. change 0xffff with (Z.ones 16). rewrite !Z.land_ones, Z.shiftr_div_pow2 by lia.
  destruct (Z.ltb_spec v 0).
  - assert (v / 2 ^ 16 = -1) as -> by (symmetry; apply (Z.div_unique _ _ _ (v + 2 ^ 16)); lia). split; [done|].
    symmetry. apply (Z.mod_unique _ _ (-1)); lia.
  - rewrite Z.div_small, !Z.mod_small by lia. lia.
Qed.

Lemma sub_step_borrow t m i : digits t -> 0 < i < 16 -> borrow t m (i - 1) ->
  borrow t (setz (setz m i (lim t i - plim i - Z.land (Z.shiftr (lim m (i - 1)) 16) 1)) (i - 1) (Z.land (lim m (i - 1)) 0xffff)) i.
Proof.
  intros Ht Hi [Hl Hr Hlow Htop Hv]. destruct (borrow_bit _ Htop) as [-> ->]. set (b := if lim m (i - 1) <? 0 then 1 else 0).
  pose proof (digits_lim t i Ht) as Hti. assert (Hp : 0 <= plim i < radix) by (unfold plim; repeat case_match; lia).
  assert (Hb : 0 <= b <= 1 /\ 0 <= lim m (i - 1) + radix * b < radix) by (unfold b; destruct (Z.ltb_spec (lim m (i - 1)) 0); lia).
  assert (Hmi : lim m i = 0) by (apply Hr; lia). split.
  - by rewrite !setz_length.
  - intros j Hj. rewrite !limz_setz by (unfold lenz; rewrite ?setz_length; lia).
    rewrite (proj2 (Z.eqb_neq j (i - 1))), (proj2 (Z.eqb_neq j i)) by lia. apply Hr. lia.
  - intros j Hj. rewrite !limz_setz by (unfold lenz; rewrite ?setz_length; lia). destruct (Z.eqb_spec j (i - 1)); [lia|].
    rewrite (proj2 (Z.eqb_neq j i)) by lia. apply Hlow. lia.
  - rewrite !limz_setz by (unfold lenz; rewrite ?setz_length; lia). rewrite (proj2 (Z.eqb_neq i (i - 1))), Z.eqb_refl by lia. lia.
  - rewrite !ev_setz by (unfold lenz; rewrite ?setz_length; lia). rewrite limz_setz by (unfold lenz; lia).
    rewrite (proj2 (Z.eqb_neq (i - 1) i)), Hmi, Hv by lia. destruct Ht as [Hlt _]. rewrite (ev_take_snoc t i), (ev_map_snoc plim i) by (done || lia).
    replace (Z.to_nat (i - 1) + 1)%nat with (Z.to_nat i) by lia. replace (i - 1 + 1) with i by lia.
    replace (16 * i) with (16 * (i - 1) + 16) by lia. rewrite Z.pow_add_r by lia. ring.
Qed.

Lemma pack_borrow t : digits t -> exists m, borrow t m 15 /\
  pack_turn t = fst (sel25519 t m (1 - Z.land (Z.shiftr (lim m 15) 16) 1)).
Proof.
  intros Ht. pose proof (digits_lim t 0 Ht) as H0. unfold pack_turn.
  assert (Hz : forall j, lim gf0 j = 0).
  { intros j. assert (Forall (fun v => v = 0) gf0) as Hz by (by apply list.Forall_replicate).
    exact (getz_Forall (fun v => v = 0) gf0 j 0 Hz eq_refl). }
  assert (B0 : borrow t (setz gf0 0 (lim t 0 - 0xffed)) 0).
  { split; [done|intros j Hj; rewrite limz_setz by done; by rewrite (proj2 (Z.eqb_neq j 0)) by lia|lia|rewrite limz_setz, Z.eqb_refl by done; lia|].
    rewrite ev_setz by done. destruct Ht as [Hlt _]. pose proof (ev_take_snoc t 0 Hlt ltac:(lia)) as E. change (Z.to_nat 0 + 1)%nat with 1%nat in *.
    rewrite E. rewrite Hz. change (take (Z.to_nat 0) t) with (@nil Z). change (ev (map plim (seqZ 0 (0 + 1)))) with 0xffed.
    change (ev gf0) with 0. cbn [ev]. change (2 ^ (16 * 0)) with 1. lia. }
  revert B0. generalize (setz gf0 0 (lim t 0 - 0xffed)) as m0. intros m0 B0.
  assert (H : forall k, (k <= 14)%nat -> borrow t (for_up k 1 (sub_step t) m0) (Z.of_nat k)).
  { induction k as [|k IH]; intros Hk; [exact B0|]. rewrite for_up_last. specialize (IH ltac:(lia)). revert IH.
    generalize (for_up k 1 (sub_step t) m0) as m. intros m IH. unfold sub_step.
    replace (Z.of_nat (S k)) with (1 + Z.of_nat k) by lia. pose proof (sub_step_borrow t m (1 + Z.of_nat k) Ht ltac:(lia)) as Hs.
    replace (1 + Z.of_nat k - 1) with (Z.of_nat k) in * by lia. specialize (Hs IH). unfold plim in Hs.
    rewrite (proj2 (Z.eqb_neq (1 + Z.of_nat k) 0)), (proj2 (Z.eqb_neq (1 + Z.of_nat k) 15)) in Hs by lia.
    rewrite limz_setz by (unfold lenz; rewrite (bo_len _ _ _ IH); lia). by rewrite (proj2 (Z.eqb_neq (Z.of_nat k) (1 + Z.of_nat k))) by lia. }
  specialize (H 14%nat ltac:(lia)). revert H. generalize (for_up 14 1 (sub_step t) m0) as m. intros m Hm. change (Z.of_nat 14) with 14 in Hm.
  pose proof (sub_step_borrow t m 15 Ht ltac:(lia) Hm) as Hs. change (15 - 1) with 14 in Hs. change (plim 15) with 0x7fff in Hs.
  eexists. split; [exact Hs|]. assert (Hl : lenz m = 16) by (unfold lenz; by rewrite (bo_len _ _ _ Hm)).
  set (v := lim t 15 - 0x7fff - Z.land (Z.shiftr (lim m 14) 16) 1).
  assert (E1 : lim (setz m 15 v) 14 = lim m 14) by (rewrite limz_setz by lia; done).
  assert (E2 : lim (setz (setz m 15 v) 14 (Z.land (lim m 14) 0xffff)) 15 = lim (setz m 15 v) 15)
    by (rewrite (limz_setz (setz m 15 v)) by (unfold lenz in *; rewrite setz_length; lia); done).
  by rewrite E1, E2.
Qed.

(** One turn subtracts [P] when that leaves something non-negative. *)
Lemma pack_turn_spec t : digits t -> digits (pack_turn t) /\ ev (pack_turn t) = (if P <=? ev t then ev t - P else ev t).
Proof.
  intros Ht. destruct (pack_borrow t Ht) as (m & [Hl _ Hlow Htop Hv] & ->).
  destruct (borrow_bit _ Htop) as [-> _]. destruct Ht as [Hlt Hdt].
  change (Z.to_nat 15 + 1)%nat with 16%nat in Hv. rewrite firstn_all2 in Hv by lia. change (ev (map plim (seqZ 0 (15 + 1)))) with P in Hv.
  assert (Hm : ev m = ev (take 15 m) + 2 ^ (16 * 15) * lim m 15).
  { pose proof (ev_take_snoc m 15 Hl ltac:(lia)) as E. change (Z.to_nat 15 + 1)%nat with 16%nat in E. by rewrite firstn_all2 in E by lia. }
  assert (Hr : 0 <= ev (take 15 m) < 2 ^ (16 * 15)).
  { assert (Hll : lenz (take 15 m) = 15) by (unfold lenz; rewrite length_take; lia). rewrite <- Hll. apply ev_range.
    apply list.Forall_lookup. intros k v Hk. assert (Hk15 : (k < 15)%nat) by (pose proof (lookup_lt_Some _ _ _ Hk) as Hx; rewrite length_take in Hx; lia).
    rewrite lookup_take_lt in Hk by done. specialize (Hlow (Z.of_nat k) ltac:(lia)). unfold lim in Hlow. by rewrite (getz_nat _ _ _ _ Hk) in Hlow. }
  rewrite sel25519_spec by (done || (destruct (lim m 15 <? 0); [by left|by right])).
  destruct (Z.ltb_spec (lim m 15) 0) as [Hneg|Hpos]; [change (1 - 1 =? 0) with true|change (1 - 0 =? 0) with false]; cbn [fst].
  - split; [done|]. rewrite (proj2 (Z.leb_gt P (ev t))); [done|]. nia.
  - split; [|rewrite (proj2 (Z.leb_le P (ev t))) by nia; lia]. split; [done|]. apply lims_ext; [done|]. intros j Hj.
    destruct (decide (j = 15)) as [->|]; [lia|apply Hlow; lia].
Qed.

Lemma car_value x : limbs (2 ^ 62) x -> ev (car25519 x) = ev x mod 2 ^ 256 + 38 * (ev x / 2 ^ 256).
Proof.
  intros Hx. destruct (car_spec x Hx) as (l & Hl & Hev & ->). rewrite ev_setz by (unfold lenz; rewrite (proj1 Hl); lia).
  rewrite Hev. change (2 ^ (16 * 0)) with 1. lia.
Qed.

(** Three carries leave sixteen digits. *)
Lemma car3_digits x : limbs (2 ^ 62) x -> let y := car25519 (car25519 (car25519 x)) in digits y /\ feq (ev y) (ev x).
Proof.
  intros Hx. cbv zeta.
  assert (H1 : limbs (2 ^ 62) (car25519 x)) by (eapply limbs_mono; [|apply (car_limbs (2 ^ 62) x Hx); lia]; done).
  destruct (car2_red x Hx) as [H2 Hf2]. assert (H2' : limbs (2 ^ 62) (car25519 (car25519 x))) by (eapply limbs_mono; [|exact H2]; done).
  split; [|rewrite car_feq by done; exact Hf2].
  assert (Hv : 0 <= ev (car25519 (car25519 x)) < 2 ^ 256).
  { rewrite car_value, car_value by done. pose proof (limbs_ev _ _ Hx) as He.
    assert (- (2 ^ 47 + 1) <= ev x / 2 ^ 256 <= 2 ^ 47 + 1)
      by (split; [apply Z.div_le_lower_bound|apply Z.div_le_upper_bound]; lia).
    pose proof (Z.mod_pos_bound (ev x) (2 ^ 256) ltac:(lia)). set (v := ev x mod 2 ^ 256 + 38 * (ev x / 2 ^ 256)) in *.
    assert (- 2 ^ 53 <= v < 2 ^ 256 + 2 ^ 53) by (unfold v; lia). clearbody v.
    pose proof (Z.div_mod v (2 ^ 256) ltac:(lia)). pose proof (Z.mod_pos_bound v (2 ^ 256) ltac:(lia)). lia. }
  destruct (car_spec _ H2') as (l & Hl & _ & E). rewrite E, Z.div_small, Z.mul_0_r, Z.add_0_r by done.
  replace (setz l 0 (lim l 0)) with l; [done|]. unfold setz, lim, getz. cbn [Z.ltb Z.compare]. change (Z.to_nat 0) with 0%nat.
  destruct Hl as [Hll _]. destruct l as [|a l]; [discriminate|done].
Qed.

Lemma digit_bytes t : Forall (fun v => 0 <= v < radix) t ->
  concat (map (fun x => [Z.land x 0xff; u8 (Z.shiftr x 8)]) t) = le (2 * length t) (ev t).
Proof.
  induction 1 as [|a t Ha _ IH]; [done|]. cbn [map concat length ev]. replace (2 * S (length t))%nat with (S (S (2 * length t))) by lia.
  cbn [le app]. rewrite IH. change 0xff with (Z.ones 8). rewrite !Z.land_ones, !Z.shiftr_div_pow2 by lia. f_equal; [|f_equal].
  - replace (a + 2 ^ 16 * ev t) with (a + (ev t * 2 ^ 8) * 2 ^ 8) by lia. by rewrite Z_mod_plus_full.
  - unfold u8. replace ((a + 2 ^ 16 * ev t) / 2 ^ 8) with (a / 2 ^ 8 + (ev t) * 2 ^ 8).
    + by rewrite Z_mod_plus_full.
    + replace (a + 2 ^ 16 * ev t) with (a + (ev t * 2 ^ 8) * 2 ^ 8) by lia. by rewrite Z.div_add by lia.
  - f_equal. rewrite Z.div_div by lia. change (2 ^ 8 * 2 ^ 8) with (2 ^ 16). rewrite (Z.mul_comm (2 ^ 16)), Z.div_add, Z.div_small by lia. lia.
Qed.

(** [pack25519] writes the least residue, little-endian. *)
Lemma pack25519_spec n : limbs (2 ^ 62) n -> pack25519 n = le 32 (ev n mod P).
Proof.
  intros Hn. unfold pack25519. destruct (car3_digits n Hn) as [Hd Hf]. cbv zeta in Hd, Hf. revert Hd Hf.
  generalize (car25519 (car25519 (car25519 n))) as t. intros t Hd Hf.
  destruct (pack_turn_spec t Hd) as [Hd1 Hv1]. destruct (pack_turn_spec _ Hd1) as [Hd2 Hv2]. revert Hd2 Hv2.
  generalize (pack_turn (pack_turn t)) as u. intros u Hd2 Hv2. destruct Hd2 as [Hl2 Hd2]. rewrite digit_bytes by done.
  rewrite Hl2. change (2 * 16)%nat with 32%nat. f_equal. pose proof (digits_range t Hd) as Hr.
  destruct Hf as [<-]. rewrite Hv2, Hv1. unfold P in *.
  destruct (Z.leb_spec (2 ^ 255 - 19) (ev t)); [destruct (Z.leb_spec (2 ^ 255 - 19) (ev t - (2 ^ 255 - 19)))|];
    [|  |destruct (Z.leb_spec (2 ^ 255 - 19) (ev t)); [lia|]].
  - apply (Z.mod_unique _ _ 2); lia.
  - apply (Z.mod_unique _ _ 1); lia.
  - symmetry. apply Z.mod_small. lia.
Qed.

Lemma pack25519_length n : limbs (2 ^ 62) n -> length (pack25519 n) = 32%nat /\ Forall is_u8 (pack25519 n).
Proof. intros Hn. rewrite pack25519_spec by done. rewrite le_length. auto with machine. Qed.

Lemma le_inj n x y : 0 <= x < 2 ^ (8 * Z.of_nat n) -> 0 <= y < 2 ^ (8 * Z.of_nat n) -> le n x = le n y -> x = y.
Proof. intros Hx Hy E. apply (f_equal of_le) in E. rewrite !of_le_le in E. by rewrite !Z.mod_small in E. Qed.

Lemma neq25519_spec a b : limbs (2 ^ 62) a -> limbs (2 ^ 62) b -> neq25519 a b = 0 <-> feq (ev a) (ev b).
Proof.
  intros Ha Hb. destruct (pack25519_length a Ha), (pack25519_length b Hb). unfold neq25519. rewrite verify_32_spec by done.
  rewrite !pack25519_spec by done. case_bool_decide as E.
  - split; [intros _|done]. constructor. apply (le_inj 32); [| |done]; pose proof (Z.mod_pos_bound (ev a) P); pose proof (Z.mod_pos_bound (ev b) P);
      change (8 * Z.of_nat 32) with 256; unfold P in *; lia.
  - split; [discriminate|]. intros [E']. destruct E. f_equal. exact E'.
Qed.

Lemma par25519_spec a : limbs (2 ^ 62) a -> par25519 a = (ev a mod P) mod 2.
Proof.
  intros Ha. unfold par25519. rewrite pack25519_spec by done. cbn [le]. unfold getz. cbn [Z.ltb Z.compare]. change (Z.to_nat 0) with 0%nat. cbn [nth].
  change 0xff with (Z.ones 8). change 1 with (Z.ones 1) at 1. rewrite !Z.land_ones by lia. change (2 ^ 1) with 2.
  change (2 ^ 8) with (2 * 128). rewrite Z.rem_mul_r by lia. rewrite Z.mul_comm, Z_mod_plus_full. apply Zmod_mod.
Qed.

(** The limbs of a byte string. *)
Definition pair_limbs (n : list Z) : gf := map (fun i => getz n (2 * i) 0 + Z.shiftl (getz n (2 * i + 1) 0) 8) (seqZ 0 16).

Fixpoint pairs (n : list Z) : gf :=
  match n with a :: b :: r => (a + Z.shiftl b 8) :: pairs r | _ => [] end.

Lemma ev_pairs n : (exists k, length n = (2 * k)%nat) -> ev (pairs n) = of_le n.
Proof.
  intros [k Hk]. revert n Hk. induction k as [|k IH]; intros n Hk; [by destruct n|].
  destruct n as [|a [|b n]]; cbn [length] in Hk; try lia. cbn [pairs ev of_le]. rewrite IH by lia.
  rewrite Z.shiftl_mul_pow2 by lia. lia.
Qed.

Lemma pair_limbs_spec n : Forall is_u8 n -> length n = 32%nat -> digits (pair_limbs n) /\ ev (pair_limbs n) = of_le n.
Proof.
  intros Hn Hl. assert (Hr : forall i, 0 <= getz n (2 * i) 0 + Z.shiftl (getz n (2 * i + 1) 0) 8 < radix).
  { intros i. rewrite Z.shiftl_mul_pow2 by lia. pose proof (getz_Forall is_u8 n (2 * i) 0 Hn ltac:(done)). pose proof (getz_Forall is_u8 n (2 * i + 1) 0 Hn ltac:(done)).
    unfold is_u8 in *. lia. }
  split.
  - split; [done|]. unfold pair_limbs. apply list.Forall_lookup. intros k v Hk. apply list_lookup_fmap_Some in Hk as (i & -> & _). apply Hr.
  - rewrite <- ev_pairs by (by exists 16%nat). f_equal. clear Hn Hr.
    do 32 (destruct n as [|? n]; [discriminate Hl|]). destruct n; [reflexivity|discriminate Hl].
Qed.

Lemma unpack25519_spec n : Forall is_u8 n -> length n = 32%nat -> digits (unpack25519 n) /\ ev (unpack25519 n) = of_le n mod 2 ^ 255.
Proof.
  intros Hn Hl. destruct (pair_limbs_spec n Hn Hl) as [[Hlp Hd] Hev]. unfold unpack25519. fold (pair_limbs n). revert Hlp Hd Hev.
  generalize (pair_limbs n) as o. intros o Hlo Hd Hev. pose proof (digits_lim o 15 (conj Hlo Hd)) as H15.
  change 0x7fff with (Z.ones 15). rewrite Z.land_ones by lia. pose proof (Z.mod_pos_bound (lim o 15) (2 ^ 15) ltac:(lia)) as Hm.
  pose proof (Z.div_mod (lim o 15) (2 ^ 15) ltac:(lia)) as Hdm. split.
  - split; [by rewrite setz_length|]. apply setz_Forall; [done|lia].
  - rewrite ev_setz by (unfold lenz; lia). rewrite Hev.
    assert (Hlow : ev o = ev (take 15 o) + 2 ^ (16 * 15) * lim o 15).
    { pose proof (ev_take_snoc o 15 Hlo ltac:(lia)) as E. change (Z.to_nat 15 + 1)%nat with 16%nat in E. by rewrite firstn_all2 in E by lia. }
    pose proof (ev_range (take 15 o) ltac:(by apply list.Forall_take)) as Hr. unfold lenz in Hr. rewrite length_take, Hlo in Hr.
    change (2 ^ (16 * Z.of_nat (15 `min` 16))) with (2 ^ 240) in Hr. change (2 ^ (16 * 15)) with (2 ^ 240) in *.
    apply (Z.mod_unique _ _ (lim o 15 / 2 ^ 15)); lia.
Qed.
