(* ===== verification/Ed25519.v ===== *)
(** * Signatures ([ed25519.c])

    Points of the curve in extended coordinates, the scalar multiplication with
    its swaps, the reduction of scalars modulo the order [L], and key derivation,
    signing and verification on top. A message buffer is a list of bytes; the
    pieces the code copies into one scratch buffer are the concatenation. *)

From stdpp Require Import list.
From S2P Require Import Prelude Sha512 Fe25519.
#[local] Open Scope Z_scope.

Definition ED25519_PUBLIC_KEY_LEN : Z := 32.
Definition ED25519_SECRET_KEY_LEN : Z := 64.
Definition ED25519_SIGNATURE_LEN : Z := 64.
Definition ED25519_MAX_MSG : Z := 4096.

(** [gf p[4]]. *)
Record point := Point { p0 : gf; p1 : gf; p2 : gf; p3 : gf }.

Definition add (p q : point) : point :=
  let a := gfM (gfZ (p1 p) (p0 p)) (gfZ (p1 q) (p0 q)) in
  let b := gfM (gfA (p0 p) (p1 p)) (gfA (p0 q) (p1 q)) in
  let c := gfM (gfM (p3 p) (p3 q)) D2 in
  let d := gfM (p2 p) (p2 q) in
  let d := gfA d d in
  let e := gfZ b a in
  let f := gfZ d c in
  let g := gfA d c in
  let h := gfA b a in
  Point (gfM e f) (gfM h g) (gfM g f) (gfM e h).

Definition cswap (p q : point) (b : Z) : point * point :=
  let '(a0, b0) := sel25519 (p0 p) (p0 q) b in
  let '(a1, b1) := sel25519 (p1 p) (p1 q) b in
  let '(a2, b2) := sel25519 (p2 p) (p2 q) b in
  let '(a3, b3) := sel25519 (p3 p) (p3 q) b in
  (Point a0 a1 a2 a3, Point b0 b1 b2 b3).

Definition pack (p : point) : list Z :=
  let zi := inv25519 (p2 p) in
  let tx := gfM (p0 p) zi in
  let ty := gfM (p1 p) zi in
  let r := pack25519 ty in
  setz r 31 (Z.lxor (getz r 31 0) (u8 (Z.shiftl (par25519 tx) 7))).

Definition scalar_bit (s : list Z) (i : Z) : Z := Z.land (Z.shiftr (getz s (i / 8) 0) (Z.land i 7)) 1.

(** The turn of [scalarmult] at bit [i]. *)
Definition ladder_step (s : list Z) (i : Z) (pq : point * point) : point * point :=
  let b := scalar_bit s i in
  let '(p, q) := cswap (fst pq) (snd pq) b in
  let q := add q p in
  let p := add p p in
  cswap p q b.
Definition scalarmult (q : point) (s : list Z) : point :=
  fst (for_up 256 0 (fun k => ladder_step s (255 - k)) (Point gf0 gf1 gf1 gf0, q)).
Definition scalarbase (s : list Z) : point := scalarmult (Point X Y gf1 (gfM X Y)) s.

Definition L : list Z := [0xed; 0xd3; 0xf5; 0x5c; 0x1a; 0x63; 0x12; 0x58; 0xd6; 0x9c; 0xf7; 0xa2; 0xde; 0xf9; 0xde; 0x14;
  0; 0; 0; 0; 0; 0; 0; 0; 0; 0; 0; 0; 0; 0; 0; 0x10].

(** [modL]. The inner loop at column [k] of the row that removes [x[i]]. *)
Definition mod_col (i k : Z) (s : list Z * Z) : list Z * Z :=
  let '(x, carry) := s in
  let j := i - 32 + k in
  let x := setz x j (i64 (getz x j 0 + (carry - 16 * getz x i 0 * getz L k 0))) in
  let carry := Z.shiftr (i64 (getz x j 0 + 128)) 8 in
  (setz x j (i64 (getz x j 0 - i64 (Z.shiftl carry 8))), carry).
Definition mod_row (i : Z) (x : list Z) : list Z :=
  let '(x, carry) := for_up 20 0 (mod_col i) (x, 0) in
  let x := setz x (i - 12) (i64 (getz x (i - 12) 0 + carry)) in
  setz x i 0.
Definition mod_last (j : Z) (s : list Z * Z) : list Z * Z :=
  let '(x, carry) := s in
  let x := setz x j (i64 (getz x j 0 + (carry - Z.shiftr (getz x 31 0) 4 * getz L j 0))) in
  let carry := Z.shiftr (getz x j 0) 8 in
  (setz x j (Z.land (getz x j 0) 255), carry).
(** The last loop; the bytes of the result. *)
Definition mod_out (i : Z) (s : list Z * list Z) : list Z * list Z :=
  let '(x, r) := s in
  (setz x (i + 1) (i64 (getz x (i + 1) 0 + Z.shiftr (getz x i 0) 8)), r ++ [Z.land (getz x i 0) 255]).
Definition modL (x : list Z) : list Z :=
  let x := for_up 32 0 (fun k => mod_row (63 - k)) x in
  let '(x, carry) := for_up 32 0 mod_last (x, 0) in
  let x := for_up 32 0 (fun j x => setz x j (i64 (getz x j 0 - carry * getz L j 0))) x in
  snd (for_up 32 0 mod_out (x, [])).

(** The first 32 bytes of [r] afterwards; the rest is zero. *)
Definition reduce (r : list Z) : list Z := modL r ++ replicate 32 0.

(** The clamped hash of a secret seed. *)
Definition clamp (d : list Z) : list Z :=
  let d := setz d 0 (Z.land (getz d 0 0) 248) in
  let d := setz d 31 (Z.land (getz d 31 0) 127) in
  setz d 31 (Z.lor (getz d 31 0) 64).

Definition crypto_sign_keypair_from_seed (seed : list Z) : list Z * list Z :=
  let d := clamp (crypto_hash seed 32) in
  let pk := pack (scalarbase d) in
  (pk, seed ++ pk).

(** [x[i+j] += h[i] * d[j]]. *)
Definition mul_scalars (h d x : list Z) : list Z :=
  for_up 32 0 (fun i x => for_up 32 0 (fun j x =>
    setz x (i + j) (i64 (getz x (i + j) 0 + getz h i 0 * getz d j 0))) x) x.

(** The signature, without the message behind it. *)
Definition crypto_sign (m : list Z) (n : Z) (sk : list Z) : list Z :=
  let d := clamp (crypto_hash sk 32) in
  let r := reduce (crypto_hash (drop 32 d ++ m) (n + 32)) in
  let R := pack (scalarbase r) in
  let h := reduce (crypto_hash (R ++ drop 32 sk ++ m) (n + 64)) in
  let x := take 32 r ++ replicate 32 0 in
  R ++ modL (mul_scalars h d x).

(** The candidate for the root of the quotient, and the one of its two forms
    that may be the root. *)
Definition root_candidate (num den : gf) : gf :=
  let den2 := gfS den in
  let den4 := gfS den2 in
  let den6 := gfM den4 den2 in
  let t := gfM den6 num in
  let t := gfM t den in
  let t := pow2523 t in
  let t := gfM t num in
  let t := gfM t den in
  let t := gfM t den in
  gfM t den.
Definition root_ok (num den r0 : gf) : bool := neq25519 (gfM (gfS r0) den) num =? 0.
Definition root (num den : gf) : gf :=
  let r0 := root_candidate num den in
  if root_ok num den r0 then r0 else gfM r0 I.

(** The negative of the point a public key encodes, when it encodes one. *)
Definition unpackneg (p : list Z) : option point :=
  let r2 := gf1 in
  let r1 := unpack25519 p in
  let num := gfS r1 in
  let den := gfM num D in
  let num := gfZ num r2 in
  let den := gfA r2 den in
  let r0 := root num den in
  if negb (root_ok num den r0) then None
  else
    let r0 := if par25519 r0 =? Z.shiftr (getz p 31 0) 7 then gfZ gf0 r0 else r0 in
    Some (Point r0 r1 r2 (gfM r0 r1)).

(** The commitment a signed message should begin with. *)
Definition recompute (sm : list Z) (n : Z) (pk : list Z) (q : point) : list Z :=
  let h := reduce (crypto_hash (blit sm 32 pk) n) in
  let p := scalarmult q h in
  let q := scalarbase (drop 32 sm) in
  pack (add p q).

(** 0 when the signed message [sm] of [n] bytes verifies. *)
Definition crypto_sign_open (sm : list Z) (n : Z) (pk : list Z) : Z :=
  if n <? 64 then -1
  else from_option (fun q => if crypto_verify_32 sm (recompute sm n pk q) =? 0 then 0 else -1) (-1) (unpackneg pk).

Definition ed25519_keypair_from_seed (seed : list Z) : list Z * list Z := crypto_sign_keypair_from_seed seed.

(** The result and the signature buffer afterwards. *)
Definition ed25519_sign (sig_out msg sk : list Z) : Z * list Z :=
  if ED25519_MAX_MSG <? lenz msg then (0, sig_out) else (1, crypto_sign msg (lenz msg) sk).

Definition ed25519_verify (sig msg pk : list Z) : Z :=
  if ED25519_MAX_MSG <? lenz msg then 0
  else if crypto_sign_open (sig ++ msg) (lenz msg + 64) pk =? 0 then 1 else 0.
