(* ===== verification/EdCurve.v ===== *)
(** * The curve ([ed25519.c])

    The arithmetic modulo [P] as the bytes it packs to; the addition of points
    against the law of the twisted Edwards curve [-x^2 + y^2 = 1 + d x^2 y^2]; the
    scalar multiplication against a ladder that branches on the bits; and the
    encoding of a point. *)

From stdpp Require Import list.
From S2P Require Import Prelude Fe25519 Ed25519.
#[local] Open Scope Z_scope.

(** ** The field *)

Lemma limbs_big b x : limbs b x -> b <= 2 ^ 62 -> limbs (2 ^ 62) x.
Proof. intros H Hb. by apply (limbs_mono b). Qed.

Lemma red_62 x : red x -> limbs (2 ^ 62) x.
Proof. intros H. apply (limbs_big (2 ^ 17)); [done|lia]. Qed.

Lemma pack_feq x v : limbs (2 ^ 62) x -> feq (ev x) v -> pack25519 x = le 32 (v mod P).
Proof. intros Hx [E]. rewrite pack25519_spec by done. by rewrite E. Qed.

(** The field is the integers modulo 2^255 - 19: packed, the product of two
    elements of up to 2^26 in every limb is the product of their values, the
    inverse is the power [P - 2], sum and difference are those of the values for
    all limbs whose sum a 63-bit word holds, and 32 bytes below the prime come
    back as they were. *)
Theorem field_refines (a b : gf) (n : list Z) (Ha : limbs (2 ^ 26) a) (Hb : limbs (2 ^ 26) b)
  (Hn : Forall is_u8 n) (Hln : length n = 32%nat) (Hr : of_le n < P) :
  pack25519 (gfM a b) = le 32 ((ev a * ev b) mod P) /\
  pack25519 (gfA a b) = le 32 ((ev a + ev b) mod P) /\
  pack25519 (gfZ a b) = le 32 ((ev a - ev b) mod P) /\
  pack25519 (inv25519 (gfM a b)) = le 32 ((ev a * ev b) ^ (P - 2) mod P) /\
  pack25519 (unpack25519 n) = n.
Proof.
  destruct (gfM_spec a b (2 ^ 26)) as [Hm Em]; [done|done|lia|]. destruct (inv25519_spec _ Hm) as [Hi Ei].
  destruct (gfA_spec (2 ^ 26) (2 ^ 26) a b) as [HA EA]; [done|done|lia|]. destruct (gfZ_spec (2 ^ 26) (2 ^ 26) a b) as [HZ EZ]; [done|done|lia|].
  split; [exact (pack_feq _ _ (red_62 _ Hm) Em)|]. split; [apply pack_feq; [apply (limbs_big _ _ HA); lia|by apply feq_refl_eq]|].
  split; [apply pack_feq; [apply (limbs_big _ _ HZ); lia|exact (feq_refl_eq _ _ EZ)]|].
  split; [exact (pack_feq _ _ (red_62 _ Hi) (transitivity Ei (feq_pow _ _ _ Em)))|].
  destruct (unpack25519_spec n Hn Hln) as [Hd Ed]. pose proof (of_le_range n Hn) as Hpos. rewrite (pack_feq _ (of_le n)).
  - rewrite Z.mod_small by lia. rewrite <- Hln. by apply le_of_le.
  - apply (limbs_big radix); [by apply digits_limbs|lia].
  - apply feq_refl_eq. rewrite Ed. apply Z.mod_small. unfold P in Hr. lia.
Qed.

Lemma field_refines_witness :
  pack25519 (gfM X Y) = le 32 ((ev X * ev Y) mod P) /\ pack25519 (gfA X Y) = le 32 ((ev X + ev Y) mod P) /\
  pack25519 (gfZ X Y) = le 32 ((ev X - ev Y) mod P) /\ pack25519 (inv25519 (gfM X Y)) = le 32 ((ev X * ev Y) ^ (P - 2) mod P) /\
  pack25519 (unpack25519 (replicate 32 5)) = replicate 32 5.
Proof.
  apply (field_refines X Y (replicate 32 5)).
  - split; [reflexivity|]. apply (bool_decide_unpack _). vm_compute. exact Logic.I.
  - split; [reflexivity|]. apply (bool_decide_unpack _). vm_compute. exact Logic.I.
  - apply (bool_decide_unpack _). vm_compute. exact Logic.I.
  - reflexivity.
  - reflexivity.
Defined.

(** ** Points *)

Record point_ok (p : point) : Prop := { pk0 : red (p0 p); pk1 : red (p1 p); pk2 : red (p2 p); pk3 : red (p3 p) }.

(** The point stands for [(x, y)]: the projective coordinates over [Z], and the
    product in the fourth. *)
Record stands (p : point) (x y : Z) : Prop := {
  st_x : feq (ev (p0 p)) (x * ev (p2 p));
  st_y : feq (ev (p1 p)) (y * ev (p2 p));
  st_t : feq (ev (p3 p)) (x * y * ev (p2 p)) }.

Lemma gfA_red17 x y : red x -> red y -> limbs (2 ^ 26) (gfA x y) /\ ev (gfA x y) = ev x + ev y.
Proof. intros Hx Hy. destruct (gfA_spec (2 ^ 17) (2 ^ 17) x y Hx Hy ltac:(lia)) as [H E]. split; [|exact E]. eapply limbs_mono; [|exact H]. lia. Qed.
Lemma gfZ_red17 x y : red x -> red y -> limbs (2 ^ 26) (gfZ x y) /\ ev (gfZ x y) = ev x - ev y.
Proof. intros Hx Hy. destruct (gfZ_spec (2 ^ 17) (2 ^ 17) x y Hx Hy ltac:(lia)) as [H E]. split; [|exact E]. eapply limbs_mono; [|exact H]. lia. Qed.

Lemma gfM_26 a b u v : limbs (2 ^ 26) a -> limbs (2 ^ 26) b -> feq (ev a) u -> feq (ev b) v -> red (gfM a b) /\ feq (ev (gfM a b)) (u * v).
Proof. intros Ha Hb Eu Ev. destruct (gfM_spec a b (2 ^ 26) Ha Hb ltac:(lia)) as [H E]. split; [exact H|]. rewrite E, Eu, Ev. reflexivity. Qed.

Definition d_curve : Z := ev D.
Lemma D2_value : feq (ev D2) (2 * d_curve).
Proof. constructor. vm_compute. reflexivity. Qed.
Lemma D2_red : red D2.
Proof. split; [reflexivity|]. apply (bool_decide_unpack _). vm_compute. exact Logic.I. Qed.

(** The coordinates [add] leaves, with [2 d] for the constant. *)
Lemma add_value p q : point_ok p -> point_ok q ->
  let a := (ev (p1 p) - ev (p0 p)) * (ev (p1 q) - ev (p0 q)) in
  let b := (ev (p0 p) + ev (p1 p)) * (ev (p0 q) + ev (p1 q)) in
  let c := ev (p3 p) * ev (p3 q) * (2 * d_curve) in
  let d := 2 * (ev (p2 p) * ev (p2 q)) in
  point_ok (add p q) /\ feq (ev (p0 (add p q))) ((b - a) * (d - c)) /\ feq (ev (p1 (add p q))) ((b + a) * (d + c)) /\
  feq (ev (p2 (add p q))) ((d + c) * (d - c)) /\ feq (ev (p3 (add p q))) ((b - a) * (b + a)).
Proof.
  intros [P0 P1 P2 P3] [Q0 Q1 Q2 Q3]. cbv zeta.
  destruct (gfZ_red17 _ _ P1 P0) as [H1 E1]. destruct (gfZ_red17 _ _ Q1 Q0) as [H2 E2].
  destruct (gfA_red17 _ _ P0 P1) as [H3 E3]. destruct (gfA_red17 _ _ Q0 Q1) as [H4 E4].
  destruct (gfM_26 _ _ _ _ H1 H2 (feq_refl_eq _ _ E1) (feq_refl_eq _ _ E2)) as [Ha Ea].
  destruct (gfM_26 _ _ _ _ H3 H4 (feq_refl_eq _ _ E3) (feq_refl_eq _ _ E4)) as [Hb Eb].
  destruct (gfM_red _ _ P3 Q3) as [Hc0 Ec0]. destruct (gfM_26 _ _ _ _ (red_26 _ Hc0) (red_26 _ D2_red) Ec0 D2_value) as [Hc Ec].
  destruct (gfM_red _ _ P2 Q2) as [Hd0 Ed0]. destruct (gfA_red17 _ _ Hd0 Hd0) as [Hd Ed].
  unfold add.
  set (a := gfM (gfZ (p1 p) (p0 p)) (gfZ (p1 q) (p0 q))) in *. set (b := gfM (gfA (p0 p) (p1 p)) (gfA (p0 q) (p1 q))) in *.
  set (c := gfM (gfM (p3 p) (p3 q)) D2) in *. set (d0 := gfM (p2 p) (p2 q)) in *. set (d := gfA d0 d0) in *.
  assert (Edv : feq (ev d) (2 * (ev (p2 p) * ev (p2 q)))) by (rewrite Ed, Ed0; apply feq_refl_eq; ring).
  assert (Hd18 : limbs (2 ^ 18) d) by (destruct (gfA_spec (2 ^ 17) (2 ^ 17) d0 d0 Hd0 Hd0 ltac:(lia)) as [H _]; exact H).
  destruct (gfZ_red17 _ _ Hb Ha) as [He Ee]. destruct (gfA_red17 _ _ Hb Ha) as [Hh Eh].
  destruct (gfZ_spec (2 ^ 18) (2 ^ 17) d c Hd18 Hc ltac:(lia)) as [Hf Ef]. destruct (gfA_spec (2 ^ 18) (2 ^ 17) d c Hd18 Hc ltac:(lia)) as [Hg Eg].
  apply (limbs_mono _ (2 ^ 26)) in Hf; [|lia]. apply (limbs_mono _ (2 ^ 26)) in Hg; [|lia].
  assert (Vf : feq (ev (gfZ d c)) (2 * (ev (p2 p) * ev (p2 q)) - ev (p3 p) * ev (p3 q) * (2 * d_curve))) by (rewrite Ef, Edv, Ec; reflexivity).
  assert (Vg : feq (ev (gfA d c)) (2 * (ev (p2 p) * ev (p2 q)) + ev (p3 p) * ev (p3 q) * (2 * d_curve))) by (rewrite Eg, Edv, Ec; reflexivity).
  assert (Ve := feq_refl_eq _ _ Ee). rewrite Ea, Eb in Ve. assert (Vh := feq_refl_eq _ _ Eh). rewrite Ea, Eb in Vh.
  destruct (gfM_26 _ _ _ _ He Hf Ve Vf) as [R0 F0]. destruct (gfM_26 _ _ _ _ Hh Hg Vh Vg) as [R1 F1].
  destruct (gfM_26 _ _ _ _ Hg Hf Vg Vf) as [R2 F2]. destruct (gfM_26 _ _ _ _ He Hh Ve Vh) as [R3 F3].
  split; [exact (Build_point_ok (Point _ _ _ _) R0 R1 R2 R3)|]. cbn [p0 p1 p2 p3]. split; [exact F0|]. split; [exact F1|]. split; [exact F2|exact F3].
Qed.

(** The constants are those of the standard. *)
Lemma curve_constants :
  (121666 * ev D) mod P = (-121665) mod P /\ (5 * ev Y) mod P = 4 /\ (ev I * ev I) mod P = (-1) mod P /\
  (- (ev X * ev X) + ev Y * ev Y) mod P = (1 + ev D * (ev X * ev X) * (ev Y * ev Y)) mod P /\ (ev X mod P) mod 2 = 0.
Proof. vm_compute. repeat split. Qed.

(** The law, on the coordinates alone. *)
Lemma edwards_law z w X1 Y1 T1 X2 Y2 T2 X3 Y3 Z3 T3 x1 y1 x2 y2 x3 y3 :
  feq X1 (x1 * z) -> feq Y1 (y1 * z) -> feq T1 (x1 * y1 * z) -> feq X2 (x2 * w) -> feq Y2 (y2 * w) -> feq T2 (x2 * y2 * w) ->
  feq (x3 * (1 + d_curve * x1 * x2 * y1 * y2)) (x1 * y2 + y1 * x2) ->
  feq (y3 * (1 - d_curve * x1 * x2 * y1 * y2)) (y1 * y2 + x1 * x2) ->
  let a := (Y1 - X1) * (Y2 - X2) in let b := (X1 + Y1) * (X2 + Y2) in
  let c := T1 * T2 * (2 * d_curve) in let d := 2 * (z * w) in
  feq X3 ((b - a) * (d - c)) -> feq Y3 ((b + a) * (d + c)) -> feq Z3 ((d + c) * (d - c)) -> feq T3 ((b - a) * (b + a)) ->
  feq X3 (x3 * Z3) /\ feq Y3 (y3 * Z3) /\ feq T3 (x3 * y3 * Z3).
Proof.
  intros Px Py Pt Qx Qy Qt Hx Hy. cbv zeta. rewrite Px, Py, Qx, Qy, Pt, Qt. generalize d_curve Hx Hy. clear. intros dc Hx Hy.
  set (k := dc * x1 * x2 * y1 * y2) in *. set (q := 4 * (z * w) ^ 2).
  intros E0 E1 E2 E3.
  assert (E0' : feq X3 (q * ((x1 * y2 + y1 * x2) * (1 - k)))) by (rewrite E0; apply feq_refl_eq; unfold k, q; ring).
  assert (E1' : feq Y3 (q * ((y1 * y2 + x1 * x2) * (1 + k)))) by (rewrite E1; apply feq_refl_eq; unfold k, q; ring).
  assert (E2' : feq Z3 (q * ((1 + k) * (1 - k)))) by (rewrite E2; apply feq_refl_eq; unfold k, q; ring).
  assert (E3' : feq T3 (q * ((x1 * y2 + y1 * x2) * (y1 * y2 + x1 * x2)))) by (rewrite E3; apply feq_refl_eq; unfold k, q; ring).
  rewrite E0', E1', E2', E3', <- Hx, <- Hy. split; [|split]; apply feq_refl_eq; ring.
Qed.

(** [add] is the addition of the twisted Edwards curve: on points that stand
    for [(x1, y1)] and [(x2, y2)] the result stands for every [(x3, y3)] that
    solves the equations of the law, with reduced limbs, so the next addition
    cannot overflow; the two points may be the same. *)
Theorem add_refines (p q : point) (x1 y1 x2 y2 x3 y3 : Z) (Hp : point_ok p) (Hq : point_ok q)
  (Sp : stands p x1 y1) (Sq : stands q x2 y2)
  (Hx : feq (x3 * (1 + d_curve * x1 * x2 * y1 * y2)) (x1 * y2 + y1 * x2))
  (Hy : feq (y3 * (1 - d_curve * x1 * x2 * y1 * y2)) (y1 * y2 + x1 * x2)) :
  point_ok (add p q) /\ stands (add p q) x3 y3.
Proof.
  destruct (add_value p q Hp Hq) as (Hok & E0 & E1 & E2 & E3). split; [exact Hok|].
  destruct Sp as [Px Py Pt], Sq as [Qx Qy Qt].
  destruct (edwards_law _ _ _ _ _ _ _ _ _ _ _ _ _ _ _ _ _ _ Px Py Pt Qx Qy Qt Hx Hy E0 E1 E2 E3) as (R0 & R1 & R3).
  exact (Build_stands _ _ _ R0 R1 R3).
Qed.

Lemma add_refines_witness :
  let o := Point gf0 gf1 gf1 gf0 in let b := Point X Y gf1 (gfM X Y) in
  point_ok (add b o) /\ stands (add b o) (ev X) (ev Y).
Proof.
  assert (HX : red X) by (split; [reflexivity|apply (bool_decide_unpack _); vm_compute; exact Logic.I]).
  assert (HY : red Y) by (split; [reflexivity|apply (bool_decide_unpack _); vm_compute; exact Logic.I]).
  assert (H0 : red gf0) by (split; [reflexivity|apply (bool_decide_unpack _); vm_compute; exact Logic.I]).
  assert (H1 : red gf1) by (split; [reflexivity|apply (bool_decide_unpack _); vm_compute; exact Logic.I]).
  apply (add_refines (Point X Y gf1 (gfM X Y)) (Point gf0 gf1 gf1 gf0) (ev X) (ev Y) 0 1 (ev X) (ev Y)).
  - exact (Build_point_ok (Point _ _ _ _) HX HY H1 (proj1 (gfM_red X Y HX HY))).
  - exact (Build_point_ok (Point _ _ _ _) H0 H1 H1 H0).
  - apply (Build_stands (Point X Y gf1 (gfM X Y))).
    + constructor. vm_compute. reflexivity.
    + constructor. vm_compute. reflexivity.
    + exact (transitivity (proj2 (gfM_red X Y HX HY)) (feq_refl_eq _ _ (eq_sym (Z.mul_1_r _)))).
  - apply (Build_stands (Point gf0 gf1 gf1 gf0)); constructor; vm_compute; reflexivity.
  - constructor. vm_compute. reflexivity.
  - constructor. vm_compute. reflexivity.
Defined.

(** ** The ladder *)

(** The pair [(R0, R1)], whose difference is the point: the bits of [n] from the
    top one down. *)
Definition ladder_turn (n : Z) (i : Z) (r : point * point) : point * point :=
  if Z.testbit n i then (add (fst r) (snd r), add (snd r) (snd r)) else (add (fst r) (fst r), add (snd r) (fst r)).
Definition multiply (n : Z) (q : point) : point :=
  fst (for_up 256 0 (fun k => ladder_turn n (255 - k)) (Point gf0 gf1 gf1 gf0, q)).

Lemma cswap_spec p q b : point_ok p -> point_ok q -> (b = 0 \/ b = 1) -> cswap p q b = if b =? 0 then (p, q) else (q, p).
Proof.
  intros [[L0 _] [L1 _] [L2 _] [L3 _]] [[M0 _] [M1 _] [M2 _] [M3 _]] Hb. unfold cswap.
  rewrite !sel25519_spec by assumption. destruct p, q, Hb as [-> | ->]; reflexivity.
Qed.

Lemma point_add_ok p q : point_ok p -> point_ok q -> point_ok (add p q).
Proof. intros Hp Hq. apply (add_value p q Hp Hq). Qed.

Lemma of_le_bit s i : Forall is_u8 s -> 0 <= i -> scalar_bit s i = b2z (Z.testbit (of_le s) i).
Proof.
  intros Hs Hi. unfold scalar_bit. change 7 with (Z.ones 3). rewrite Z.land_ones by lia. change (2 ^ 3) with 8.
  replace (Z.testbit (of_le s) i) with (Z.testbit (getz s (i / 8) 0) (i mod 8)).
  - pose proof (Z.mod_pos_bound i 8 ltac:(lia)). change 1 with (Z.ones 1). rewrite Z.land_ones, <- Z.bit0_mod, Z.shiftr_spec by lia.
    rewrite Z.add_0_l. by destruct (Z.testbit _ _).
  - revert i Hi. induction Hs as [|a s Ha Hs IH]; intros i Hi.
    + cbn [of_le]. rewrite Z.testbit_0_l. unfold getz. destruct (i / 8 <? 0); [apply Z.testbit_0_l|]. destruct (Z.to_nat (i / 8)); apply Z.testbit_0_l.
    + cbn [of_le]. unfold is_u8 in Ha. destruct (Z.ltb_spec i 8).
      * rewrite Z.div_small, Z.mod_small by lia. change (getz (a :: s) 0 0) with a.
        rewrite <- (Z.mod_pow2_bits_low (a + 256 * of_le s) 8 i) by lia. f_equal. change (2 ^ 8) with 256.
        rewrite Z.mul_comm, Z_mod_plus_full, Z.mod_small by lia. done.
      * assert (E : i / 8 = (i - 8) / 8 + 1 /\ i mod 8 = (i - 8) mod 8).
        { replace i with (i - 8 + 1 * 8) at 1 3 by lia. rewrite Z_div_plus_full, Z_mod_plus_full by lia. done. }
        destruct E as [-> ->]. pose proof (Z.div_pos (i - 8) 8 ltac:(lia) ltac:(lia)) as Hd.
        replace (getz (a :: s) ((i - 8) / 8 + 1) 0) with (getz s ((i - 8) / 8) 0).
        -- rewrite IH by lia. replace (Z.testbit (a + 256 * of_le s) i) with (Z.testbit (Z.shiftr (a + 256 * of_le s) 8) (i - 8)).
           ++ f_equal. rewrite Z.shiftr_div_pow2 by lia. change (2 ^ 8) with 256.
              rewrite Z.mul_comm, Z_div_plus_full, Z.div_small by lia. done.
           ++ rewrite Z.shiftr_spec by lia. f_equal. lia.
        -- unfold getz. rewrite !(proj2 (Z.ltb_ge _ 0)) by lia. replace (Z.to_nat ((i - 8) / 8 + 1)) with (S (Z.to_nat ((i - 8) / 8))) by lia. done.
Qed.

Record pair_ok (r : point * point) : Prop := { po_fst : point_ok (fst r); po_snd : point_ok (snd r) }.

Lemma ladder_step_turn s i r : Forall is_u8 s -> 0 <= i -> pair_ok r ->
  ladder_step s i r = ladder_turn (of_le s) i r /\ pair_ok (ladder_turn (of_le s) i r).
Proof.
  intros Hs Hi [Hp Hq]. destruct r as [p q]. cbn [fst snd] in Hp, Hq. unfold ladder_step, ladder_turn. rewrite of_le_bit by assumption. cbn [fst snd].
  destruct (Z.testbit (of_le s) i); cbn [b2z].
  - rewrite (cswap_spec p q 1) by (assumption || (right; reflexivity)). change (1 =? 0) with false. cbv iota.
    pose proof (point_add_ok p q Hp Hq) as H1. pose proof (point_add_ok q q Hq Hq) as H2.
    rewrite cswap_spec by (assumption || (right; reflexivity)). change (1 =? 0) with false. cbv iota. exact (conj eq_refl (Build_pair_ok (_, _) H1 H2)).
  - rewrite (cswap_spec p q 0) by (assumption || (left; reflexivity)). change (0 =? 0) with true. cbv iota.
    pose proof (point_add_ok q p Hq Hp) as H1. pose proof (point_add_ok p p Hp Hp) as H2.
    rewrite cswap_spec by (assumption || (left; reflexivity)). change (0 =? 0) with true. cbv iota. exact (conj eq_refl (Build_pair_ok (_, _) H2 H1)).
Qed.

Lemma ladder_pair n q : point_ok q -> forall m, pair_ok (for_up m 0 (fun k => ladder_turn n (255 - k)) (Point gf0 gf1 gf1 gf0, q)).
Proof.
  intros Hq m. apply (for_up_inv (fun _ r => pair_ok r)).
  - split; [|exact Hq]. split; (split; [reflexivity|apply (bool_decide_unpack _); vm_compute; exact Logic.I]).
  - intros j r _ [H1 H2]. unfold ladder_turn. destruct (Z.testbit n (255 - j)); split; apply point_add_ok; assumption.
Qed.

Lemma multiply_ok n q : point_ok q -> point_ok (multiply n q).
Proof. intros Hq. apply (ladder_pair n q Hq 256%nat). Qed.

Lemma scalarmult_ladder s q : Forall is_u8 s -> point_ok q -> scalarmult q s = multiply (of_le s) q.
Proof.
  intros Hs Hq. unfold scalarmult, multiply.
  assert (H : forall m, (m <= 256)%nat -> for_up m 0 (fun k => ladder_step s (255 - k)) (Point gf0 gf1 gf1 gf0, q) =
    for_up m 0 (fun k => ladder_turn (of_le s) (255 - k)) (Point gf0 gf1 gf1 gf0, q)).
  { induction m as [|m IH]; intros Hm; [reflexivity|]. rewrite !for_up_last, IH by lia.
    exact (proj1 (ladder_step_turn s (255 - (0 + Z.of_nat m)) _ Hs ltac:(lia) (ladder_pair (of_le s) q Hq m))). }
  rewrite (H 256%nat (Nat.le_refl _)). reflexivity.
Qed.

(** ** The encoding *)

Lemma byte_all (f : Z -> bool) : forallb f (seqZ 0 256) = true -> forall x, is_u8 x -> f x = true.
Proof. intros H x Hx. rewrite forallb_forall in H. apply H, list_elem_of_In, elem_of_seqZ. unfold is_u8 in Hx. lia. Qed.

(** [y] with the parity of [x] above it, both affine and least. *)
Definition encoding (x y : Z) : list Z := le 32 (y mod P + 2 ^ 255 * ((x mod P) mod 2)).

Lemma of_le_snoc l w : of_le (l ++ [w]) = of_le l + 256 ^ lenz l * w.
Proof. unfold lenz. induction l as [|a l IH]; [cbn; lia|]. cbn [app of_le length]. rewrite IH, Nat2Z.inj_succ, Z.pow_succ_r by lia. lia. Qed.

(** The bit the code puts on the last byte. *)
Lemma sign_bit v b : 0 <= v < P -> 0 <= b < 2 ->
  setz (le 32 v) 31 (Z.lxor (getz (le 32 v) 31 0) (u8 (Z.shiftl b 7))) = le 32 (v + 2 ^ 255 * b).
Proof.
  intros Hv Hb.
  set (r := le 32 v). assert (Hr : Forall is_u8 r) by apply le_bytes. assert (Hlr : length r = 32%nat) by apply le_length.
  assert (Ev : of_le r = v) by (unfold r; rewrite of_le_le; apply Z.mod_small; change (8 * Z.of_nat 32) with 256; unfold P in Hv; lia).
  assert (H31 : is_u8 (getz r 31 0)) by (apply (getz_Forall is_u8); [exact Hr|unfold is_u8; lia]).
  destruct (lookup_lt_is_Some_2 r 31 ltac:(lia)) as [t Ht]. assert (Et : getz r 31 0 = t) by (change 31 with (Z.of_nat 31); apply (getz_nat _ _ _ _ Ht)).
  rewrite Et in *. assert (Esplit : r = take 31 r ++ [t]) by (rewrite <- (take_S_r _ _ _ Ht), firstn_all2 by lia; reflexivity).
  assert (Hofapp : forall l w, length l = 31%nat -> of_le (l ++ [w]) = of_le l + 2 ^ 248 * w) by (intros l w Hl; rewrite of_le_snoc; unfold lenz; by rewrite Hl).
  assert (Hl31 : length (take 31 r) = 31%nat) by (rewrite length_take; lia).
  assert (Hlow : 0 <= of_le (take 31 r) < 2 ^ 248).
  { pose proof (of_le_range (take 31 r) (list.Forall_take _ _ _ Hr)) as H. unfold lenz in H. rewrite Hl31 in H. exact H. }
  assert (Ht7 : t < 128) by (rewrite <- Ev, Esplit, Hofapp in Hv by exact Hl31; unfold P in Hv; lia).
  assert (Hx : Z.lxor t (u8 (Z.shiftl b 7)) = t + 128 * b /\ is_u8 (t + 128 * b)).
  { split; [|unfold is_u8 in *; lia]. assert (b = 0 \/ b = 1) as [-> | ->] by lia.
    - rewrite Z.lxor_0_r. lia.
    - change (u8 (Z.shiftl 1 7)) with 128.
      pose proof (byte_all (fun t => implb (t <? 128) (Z.lxor t 128 =? t + 128 * 1)) ltac:(vm_compute; reflexivity) t H31) as E.
      cbv beta in E. rewrite (proj2 (Z.ltb_lt t 128) Ht7) in E. cbn [implb] in E. apply Z.eqb_eq in E. exact E. }
  destruct Hx as [Hx Hxu]. rewrite Hx.
  assert (Eset : setz r 31 (t + 128 * b) = take 31 r ++ [t + 128 * b]).
  { rewrite Esplit at 1. change 31 with (Z.of_nat 31). rewrite setz_nat, insert_app_r_alt by lia. rewrite Hl31. reflexivity. }
  rewrite Eset. set (w := take 31 r ++ [t + 128 * b]).
  assert (Hw : Forall is_u8 w) by (apply list.Forall_app; split; [by apply list.Forall_take|by apply list.Forall_singleton]).
  assert (Hlw : length w = 32%nat) by (unfold w; rewrite length_app, Hl31; reflexivity).
  rewrite <- (le_of_le w Hw), Hlw. f_equal. unfold w. rewrite Hofapp by exact Hl31.
  assert (Ev' : v = of_le (take 31 r) + 2 ^ 248 * t) by (rewrite <- Ev, Esplit at 1; apply Hofapp; exact Hl31). lia.
Qed.

Lemma pack_value p : point_ok p ->
  pack p = encoding (ev (p0 p) * ev (p2 p) ^ (P - 2)) (ev (p1 p) * ev (p2 p) ^ (P - 2)).
Proof.
  intros [R0 R1 R2 _]. unfold pack, encoding. destruct (inv25519_spec _ R2) as [Hi Ei].
  destruct (gfM_red _ _ R0 Hi) as [Hx Ex]. destruct (gfM_red _ _ R1 Hi) as [Hy Ey].
  rewrite Ei in Ex, Ey. rewrite (pack_feq _ _ (red_62 _ Hy) Ey), (par25519_spec _ (red_62 _ Hx)), (feq_mod _ _ Ex).
  generalize (ev (p0 p) * ev (p2 p) ^ (P - 2)), (ev (p1 p) * ev (p2 p) ^ (P - 2)). clear. intros x y.
  pose proof (Z.mod_pos_bound (x mod P) 2 ltac:(lia)) as Hb. pose proof (Z.mod_pos_bound y P ltac:(done)) as Hy.
  exact (sign_bit _ _ Hy Hb).
Qed.
