(* ===== verification/Scalar25519.v ===== *)
(** * Scalars modulo the order of the base point ([modL] in [ed25519.c])

    [modL] takes 64 signed columns of weight 256^j and leaves 32 bytes. It is
    proved to write the least residue of the value modulo the order, without
    overflow, for columns up to 2^22: the bytes of a hash and the products of a
    signature. *)

From stdpp Require Import list.
From S2P Require Import Prelude Fe25519 Ed25519.
#[local] Open Scope Z_scope.

Definition ORDER : Z := 2 ^ 252 + 27742317777372353535851937790883648493.

Lemma L_value : of_le L = ORDER.
Proof. vm_compute. reflexivity. Qed.

Abbreviation col x j := (getz x j 0).

Lemma col_setz x i j v : 0 <= i < lenz x -> col (setz x i v) j = if j =? i then v else col x j.
Proof. apply getz_setz. Qed.

Lemma of_le_setz x i v : 0 <= i < lenz x -> of_le (setz x i v) = of_le x + (v - col x i) * 256 ^ i.
Proof.
  unfold getz, setz, lenz. intros Hi. destruct (Z.ltb_spec i 0) as [|_]; [lia|].
  assert (H : forall n, (n < length x)%nat -> of_le (<[n := v]> x) = of_le x + (v - nth n x 0) * 256 ^ Z.of_nat n).
  { clear. induction x as [|a x IH]; intros n Hn; cbn [length] in Hn; [lia|]. destruct n as [|n].
    - change (<[0%nat:=v]> (a :: x)) with (v :: x). cbn [of_le nth]. change (256 ^ Z.of_nat 0) with 1. lia.
    - change (<[S n:=v]> (a :: x)) with (a :: <[n:=v]> x). cbn [of_le nth]. rewrite IH by lia.
      rewrite Nat2Z.inj_succ, Z.pow_succ_r by lia. lia. }
  rewrite H by lia. by rewrite Z2Nat.id by lia.
Qed.

Lemma of_le_split x n : (n <= length x)%nat -> of_le x = of_le (take n x) + 256 ^ Z.of_nat n * of_le (drop n x).
Proof.
  revert x. induction n as [|n IH]; intros x Hn; [change (take 0 x) with (@nil Z); change (drop 0 x) with x; cbn [of_le]; change (256 ^ Z.of_nat 0) with 1; lia|].
  destruct x as [|a x]; cbn [length] in Hn; [lia|]. change (take (S n) (a :: x)) with (a :: take n x). change (drop (S n) (a :: x)) with (drop n x).
  cbn [of_le]. rewrite (IH x) by lia. rewrite Nat2Z.inj_succ, Z.pow_succ_r by lia. lia.
Qed.

Lemma of_le_bound x b : 0 <= b -> Forall (fun v => - b <= v <= b) x -> - (b * 256 ^ lenz x) <= 255 * of_le x <= b * 256 ^ lenz x.
Proof.
  intros Hb. assert (H : Forall (fun v => - b <= v <= b) x -> - (b * (256 ^ lenz x - 1)) <= 255 * of_le x <= b * (256 ^ lenz x - 1)).
  { unfold lenz. induction 1 as [|a x Ha _ IH]; [cbn; lia|]. cbn [of_le length]. rewrite Nat2Z.inj_succ, Z.pow_succ_r by lia. nia. }
  intros Hx. specialize (H Hx). lia.
Qed.

(** ** One row *)

Definition colL (k : Z) : Z := getz L k 0.

Lemma L_digit k : 0 <= colL k < 256.
Proof. unfold colL. apply (getz_Forall (fun v => 0 <= v < 256)); [repeat constructor; lia|lia]. Qed.

(** The carry that leaves the sixteenth column, and after the four that only
    pass it on over columns of at most [b]. *)
Fixpoint carry_bound (b : Z) (n : nat) : Z :=
  match n with O => 2 ^ 29 | S k => (b + carry_bound b k + 128) / 256 + 1 end.

Lemma carry_bound_pos b n : 0 <= b -> 1 <= carry_bound b n.
Proof. intros Hb. induction n as [|n IH]; cbn [carry_bound]; [lia|]. assert (0 <= (b + carry_bound b n + 128) / 256) by (apply Z.div_pos; lia). lia. Qed.
Lemma carry_bound_le b n : 0 <= b <= 2 ^ 22 -> carry_bound b n <= 2 ^ 29.
Proof.
  intros Hb. induction n as [|n IH]; cbn [carry_bound]; [lia|].
  assert ((b + carry_bound b n + 128) / 256 <= (2 ^ 22 + 2 ^ 29 + 128) / 256) by (apply Z.div_le_mono; lia).
  change ((2 ^ 22 + 2 ^ 29 + 128) / 256) with 2113536 in H. lia.
Qed.

Lemma near_div y b : - b <= y <= b -> - (b / 256 + 1) <= y / 256 <= b / 256.
Proof.
  intros H. split; [|apply Z.div_le_mono; lia]. apply Z.div_le_lower_bound; [lia|].
  pose proof (Z.div_mod b 256). pose proof (Z.mod_pos_bound b 256). lia.
Qed.

(** What a column does when nothing wraps. *)
Lemma mod_col_eq i k x carry y : 0 <= i - 32 + k < lenz x -> y = col x (i - 32 + k) + carry - 16 * col x i * colL k ->
  - 2 ^ 50 <= y <= 2 ^ 50 ->
  mod_col i k (x, carry) = (setz x (i - 32 + k) ((y + 128) mod 256 - 128), (y + 128) / 256).
Proof.
  intros Hj Hy Hb. unfold mod_col. fold (colL k). set (j := i - 32 + k) in *.
  replace (col x j + (carry - 16 * col x i * colL k)) with y by lia. rewrite (i64_small y) by lia.
  assert (Hxj : col (setz x j y) j = y) by (by rewrite col_setz, Z.eqb_refl). rewrite Hxj.
  rewrite (i64_small (y + 128)) by lia. rewrite Z.shiftr_div_pow2, Z.shiftl_mul_pow2 by lia. change (2 ^ 8) with 256.
  pose proof (near_div (y + 128) (2 ^ 51) ltac:(lia)) as Hd. change (2 ^ 51 / 256) with (2 ^ 43) in Hd.
  rewrite (i64_small (_ * 256)) by lia. pose proof (Z.div_mod (y + 128) 256 ltac:(lia)). pose proof (Z.mod_pos_bound (y + 128) 256 ltac:(lia)).
  rewrite i64_small by lia. f_equal. unfold setz. rewrite (proj2 (Z.ltb_ge j 0)) by lia. rewrite list_insert_insert_eq. f_equal. lia.
Qed.

(** The columns of a row: after [k] of them. *)
Record cols_ok (i b : Z) (x : list Z) (k : Z) (s : list Z * Z) : Prop := {
  co_len : length (fst s) = 64%nat;
  co_same : forall j, j < i - 32 \/ i - 32 + k <= j -> col (fst s) j = col x j;
  co_norm : forall j, i - 32 <= j < i - 32 + k -> -128 <= col (fst s) j <= 127;
  co_carry : - carry_bound b (Z.to_nat (k - 16)) <= snd s <= carry_bound b (Z.to_nat (k - 16));
  co_val : of_le (fst s) + snd s * 256 ^ (i - 32 + k) = of_le x - 16 * col x i * 256 ^ (i - 32) * of_le (take (Z.to_nat k) L) }.

Lemma take_L k : 0 <= k < 32 -> of_le (take (Z.to_nat (k + 1)) L) = of_le (take (Z.to_nat k) L) + 256 ^ k * colL k.
Proof.
  intros Hk. assert (H : Forall (fun k => of_le (take (Z.to_nat (k + 1)) L) = of_le (take (Z.to_nat k) L) + 256 ^ k * colL k) (seqZ 0 32))
    by (unfold colL; vm_compute; repeat constructor).
  rewrite Forall_elem in H. apply H, elem_of_seqZ. lia.
Qed.

Lemma cols_step i b x k s : 32 <= i < 64 -> 0 <= k < 20 -> 0 <= b <= 2 ^ 22 -> length x = 64%nat ->
  - 2 ^ 24 <= col x i <= 2 ^ 24 ->
  - 2 ^ 22 <= col x (i - 32 + k) <= 2 ^ 22 -> (16 <= k -> - b <= col x (i - 32 + k) <= b) ->
  cols_ok i b x k s -> cols_ok i b x (k + 1) (mod_col i k s).
Proof.
  intros Hi Hk Hb Hlx Hxi Hxj Hxb [Hl Hs Hn Hc Hv]. destruct s as [u c]. cbn [fst snd] in *.
  assert (Hui : col u i = col x i) by (apply Hs; lia). assert (Huj : col u (i - 32 + k) = col x (i - 32 + k)) by (apply Hs; lia).
  pose proof (L_digit k) as HL. pose proof (carry_bound_le b (Z.to_nat (k - 16)) Hb) as Hcb. pose proof (carry_bound_pos b (Z.to_nat (k - 16)) ltac:(lia)).
  set (y := col x (i - 32 + k) + c - 16 * col x i * colL k).
  assert (HL16 : 16 <= k -> colL k = 0).
  { intros H16. assert (k = 16 \/ k = 17 \/ k = 18 \/ k = 19) as [-> |[-> |[-> | ->]]] by lia; reflexivity. }
  assert (Hy : - (2 ^ 22 + 2 ^ 29 + 16 * 2 ^ 24 * 255) <= y <= 2 ^ 22 + 2 ^ 29 + 16 * 2 ^ 24 * 255) by (unfold y; nia).
  rewrite (mod_col_eq i k u c y); [|unfold lenz; lia|by rewrite Hui, Huj|lia].
  pose proof (Z.mod_pos_bound (y + 128) 256 ltac:(lia)) as Hm. pose proof (Z.div_mod (y + 128) 256 ltac:(lia)) as Hdm.
  assert (Hlu : 0 <= i - 32 + k < lenz u) by (unfold lenz; lia). split; cbn [fst snd].
  - by rewrite setz_length.
  - intros j Hj. rewrite col_setz by done. rewrite (proj2 (Z.eqb_neq j (i - 32 + k))) by lia. apply Hs. lia.
  - intros j Hj. rewrite col_setz by done. destruct (Z.eqb_spec j (i - 32 + k)); [lia|apply Hn; lia].
  - destruct (Z.ltb_spec k 16).
    + replace (Z.to_nat (k + 1 - 16)) with 0%nat by lia. cbn [carry_bound].
      pose proof (near_div (y + 128) (2 ^ 22 + 2 ^ 29 + 16 * 2 ^ 24 * 255 + 128) ltac:(lia)) as Hd.
      change ((2 ^ 22 + 2 ^ 29 + 16 * 2 ^ 24 * 255 + 128) / 256) with 269500416 in Hd. lia.
    + replace (Z.to_nat (k + 1 - 16)) with (S (Z.to_nat (k - 16))) by lia. cbn [carry_bound].
      assert (Ey : y = col x (i - 32 + k) + c) by (unfold y; rewrite HL16 by lia; lia). specialize (Hxb ltac:(lia)).
      rewrite Ey. pose proof (near_div (col x (i - 32 + k) + c + 128) (b + carry_bound b (Z.to_nat (k - 16)) + 128) ltac:(lia)). lia.
  - rewrite of_le_setz by done. rewrite Huj, take_L by lia.
    replace (i - 32 + (k + 1)) with (i - 32 + k + 1) by lia. rewrite (Z.pow_add_r 256 (i - 32 + k) 1) by lia.
    assert (Ep : 256 ^ (i - 32 + k) = 256 ^ (i - 32) * 256 ^ k) by (rewrite Z.pow_add_r by lia; done). rewrite Ep in *.
    change (256 ^ 1) with 256. replace ((y + 128) mod 256 - 128) with (y - 256 * ((y + 128) / 256)) by lia.
    generalize ((y + 128) / 256). intros q. unfold y. nia.
Qed.

(** The columns above [i] are gone, the ones the last row went over are small,
    those below are as they came. *)
Record row_ok (x0 : list Z) (i : Z) (x : list Z) : Prop := {
  ro_len : length x = 64%nat;
  ro_zero : forall j, i < j -> col x j = 0;
  ro_old : forall j, j <= i - 12 -> - 2 ^ 22 <= col x j <= 2 ^ 22;
  ro_norm : i <= 62 -> forall j, i - 31 <= j <= i - 12 -> - 128 <= col x j <= 127;
  ro_next : forall j, i - 12 < j <= i -> - 2 ^ 24 <= col x j <= 2 ^ 24;
  ro_tail : forall j, i - 12 < j <= 31 -> - 130 <= col x j <= 130;
  ro_val : exists q, of_le x = of_le x0 + q * ORDER }.

Lemma L_row : 16 * (of_le (take 20 L) * 1) + 256 ^ 32 = 16 * ORDER.
Proof. vm_compute. reflexivity. Qed.

Lemma mod_row_ok x0 i x : 32 <= i < 64 -> row_ok x0 i x -> row_ok x0 (i - 1) (mod_row i x).
Proof.
  intros Hi [Hl Hz Ho Hn Hx Ht [q Hv]]. set (b := if i =? 63 then 2 ^ 22 else 128).
  assert (Hb : 0 <= b <= 2 ^ 22) by (unfold b; destruct (i =? 63); lia).
  assert (Hxi : - 2 ^ 24 <= col x i <= 2 ^ 24) by (apply Hx; lia).
  assert (Hcols : forall n, (n <= 20)%nat -> cols_ok i b x (Z.of_nat n) (for_up n 0 (mod_col i) (x, 0))).
  { induction n as [|n IH]; intros Hn20.
    - cbn [for_up]. pose proof (carry_bound_pos b (Z.to_nat (Z.of_nat 0 - 16)) ltac:(lia)). split; cbn [fst snd].
      + done.
      + done.
      + intros; lia.
      + lia.
      + change (take (Z.to_nat (Z.of_nat 0)) L) with (@nil Z). cbn [of_le]. lia.
    - rewrite for_up_last, Z.add_0_l. replace (Z.of_nat (S n)) with (Z.of_nat n + 1) by lia.
      apply cols_step; [lia|lia|lia|done|done|apply Ho; lia| |apply IH; lia]. intros Hk. unfold b. destruct (Z.eqb_spec i 63).
      + apply Ho; lia.
      + specialize (Hn ltac:(lia) (i - 32 + Z.of_nat n) ltac:(lia)). lia. }
  specialize (Hcols 20%nat ltac:(lia)). change (Z.of_nat 20) with 20 in Hcols. unfold mod_row.
  destruct (for_up 20 0 (mod_col i) (x, 0)) as [u c]. destruct Hcols as [Hlu Hsame Hnorm Hc Hval]. cbn [fst snd] in *.
  replace (i - 32 + 20) with (i - 12) in * by lia. change (Z.to_nat (20 - 16)) with 4%nat in Hc. change (Z.to_nat 20) with 20%nat in Hval.
  pose proof (carry_bound_le b 4 Hb) as Hcb.
  assert (Hu12 : col u (i - 12) = col x (i - 12)) by (apply Hsame; lia). pose proof (Ho (i - 12) ltac:(lia)) as Ho12.
  rewrite i64_small by lia. rewrite Hu12.
  assert (Hcol : forall j, col (setz (setz u (i - 12) (col x (i - 12) + c)) i 0) j =
    if j =? i then 0 else if j =? i - 12 then col x (i - 12) + c else col u j).
  { intros j. rewrite !col_setz by (unfold lenz; rewrite ?setz_length; lia). done. }
  assert (Hcold : c * 1 = c /\ (i <= 62 -> - 2 <= c <= 2) /\ (- 2 ^ 15 <= c <= 2 ^ 15)).
  { split; [lia|]. unfold b in Hc. destruct (Z.eqb_spec i 63).
    - change (carry_bound (2 ^ 22) 4) with 16449 in Hc. lia.
    - change (carry_bound 128 4) with 2 in Hc. lia. }
  destruct Hcold as (_ & Hc2 & Hc15). split.
  - by rewrite !setz_length.
  - intros j Hj. rewrite Hcol. destruct (Z.eqb_spec j i); [done|]. rewrite (proj2 (Z.eqb_neq j (i - 12))) by lia.
    rewrite Hsame by lia. apply Hz. lia.
  - intros j Hj. rewrite Hcol, (proj2 (Z.eqb_neq j i)), (proj2 (Z.eqb_neq j (i - 12))) by lia.
    destruct (Z.ltb_spec j (i - 32)); [rewrite Hsame by lia; apply Ho; lia|]. specialize (Hnorm j ltac:(lia)). lia.
  - intros _ j Hj. rewrite Hcol, (proj2 (Z.eqb_neq j i)), (proj2 (Z.eqb_neq j (i - 12))) by lia. apply Hnorm. lia.
  - intros j Hj. rewrite Hcol, (proj2 (Z.eqb_neq j i)) by lia. destruct (Z.eqb_spec j (i - 12)) as [->|]; [lia|].
    rewrite Hsame by lia. apply Hx. lia.
  - intros j Hj. rewrite Hcol, (proj2 (Z.eqb_neq j i)) by lia. destruct (Z.eqb_spec j (i - 12)) as [->|].
    + specialize (Hc2 ltac:(lia)). specialize (Hn ltac:(lia) (i - 12) ltac:(lia)). lia.
    + rewrite Hsame by lia. apply Ht. lia.
  - exists (q - 16 * col x i * 256 ^ (i - 32)). rewrite !of_le_setz by (unfold lenz; rewrite ?setz_length; lia).
    rewrite col_setz by (unfold lenz; lia). rewrite (proj2 (Z.eqb_neq i (i - 12))) by lia. rewrite Hu12, (Hsame i) by lia.
    assert (E32 : 256 ^ i = 256 ^ (i - 32) * 256 ^ 32) by (rewrite <- Z.pow_add_r by lia; f_equal; lia). rewrite E32.
    pose proof L_row as HL. nia.
Qed.

Lemma rows_ok x : length x = 64%nat -> Forall (fun v => - 2 ^ 22 <= v <= 2 ^ 22) x ->
  row_ok x 31 (for_up 32 0 (fun k => mod_row (63 - k)) x).
Proof.
  intros Hl Hx. assert (Hc : forall j, - 2 ^ 22 <= col x j <= 2 ^ 22) by (intros j; apply (getz_Forall (fun v => - 2 ^ 22 <= v <= 2 ^ 22)); [done|lia]).
  assert (H : forall n, (n <= 32)%nat -> row_ok x (63 - Z.of_nat n) (for_up n 0 (fun k => mod_row (63 - k)) x)).
  { induction n as [|n IH]; intros Hn.
    - cbn [for_up]. split; try done; try (intros; lia).
      + intros j Hj. unfold getz. destruct (j <? 0); [done|]. apply nth_overflow. lia.
      + intros j Hj. specialize (Hc j). lia.
      + exists 0. lia.
    - rewrite for_up_last, Z.add_0_l. replace (63 - Z.of_nat (S n)) with (63 - Z.of_nat n - 1) by lia.
      apply mod_row_ok; [lia|]. apply IH. lia. }
  exact (H 32%nat ltac:(lia)).
Qed.

(** ** The last passes *)

Record last_ok (x : list Z) (q k : Z) (s : list Z * Z) : Prop := {
  la_len : length (fst s) = 64%nat;
  la_same : forall j, k <= j -> col (fst s) j = col x j;
  la_byte : forall j, 0 <= j < k -> is_u8 (col (fst s) j);
  la_carry : - 2 ^ 20 <= snd s <= 2 ^ 20;
  la_val : of_le (fst s) + snd s * 256 ^ k = of_le x - q * of_le (take (Z.to_nat k) L) }.

Lemma last_step x k s : 0 <= k < 32 -> length x = 64%nat -> - 130 <= col x k <= 130 -> - 130 <= col x 31 <= 130 ->
  last_ok x (Z.shiftr (col x 31) 4) k s -> last_ok x (Z.shiftr (col x 31) 4) (k + 1) (mod_last k s).
Proof.
  intros Hk Hlx Hxk Hx31 [Hl Hs Hb Hc Hv]. destruct s as [u c]. cbn [fst snd] in *. unfold mod_last. fold (colL k).
  rewrite (Hs 31), (Hs k) by lia. set (q := Z.shiftr (col x 31) 4) in *.
  assert (Hq : - 9 <= q <= 9) by (unfold q; rewrite Z.shiftr_div_pow2 by lia; split; [apply Z.div_le_lower_bound|apply Z.div_le_upper_bound]; lia).
  pose proof (L_digit k) as HL. rewrite i64_small by nia. set (y := col x k + (c - q * colL k)).
  assert (Hlu : 0 <= k < lenz u) by (unfold lenz; lia). rewrite (col_setz u k k), Z.eqb_refl by done.
  assert (Hy : - 2 ^ 21 <= y <= 2 ^ 21) by (unfold y; nia).
  change 255 with (Z.ones 8). rewrite Z.land_ones, Z.shiftr_div_pow2 by lia. change (2 ^ 8) with 256.
  pose proof (Z.mod_pos_bound y 256 ltac:(lia)) as Hm. pose proof (Z.div_mod y 256 ltac:(lia)) as Hdm.
  pose proof (near_div y (2 ^ 21) Hy) as Hd. change (2 ^ 21 / 256) with 8192 in Hd.
  assert (Ess : setz (setz u k y) k (y mod 256) = setz u k (y mod 256))
    by (unfold setz; rewrite (proj2 (Z.ltb_ge k 0)) by lia; apply list_insert_insert_eq).
  rewrite Ess. split; cbn [fst snd].
  - by rewrite setz_length.
  - intros j Hj. rewrite col_setz by done. rewrite (proj2 (Z.eqb_neq j k)) by lia. apply Hs. lia.
  - intros j Hj. rewrite col_setz by done. destruct (Z.eqb_spec j k); [unfold is_u8; lia|apply Hb; lia].
  - lia.
  - rewrite of_le_setz by done. rewrite (Hs k), take_L by lia. rewrite Z.pow_add_r by lia. change (256 ^ 1) with 256.
    revert Hdm. generalize (y / 256), (y mod 256). intros d m Hdm. unfold y in Hdm. nia.
Qed.

Lemma of_le_zero_tail x n : (n <= length x)%nat -> (forall j, Z.of_nat n <= j -> col x j = 0) -> of_le (drop n x) = 0.
Proof.
  intros Hn Hz. assert (H : Forall (fun v => v = 0) (drop n x)).
  { apply list.Forall_lookup. intros k v Hk. rewrite lookup_drop in Hk. specialize (Hz (Z.of_nat (n + k)) ltac:(lia)).
    by rewrite (getz_nat _ _ _ _ Hk) in Hz. }
  induction H as [|a l -> _ IH]; [done|]. cbn [of_le]. lia.
Qed.

(** The value after the rows, less a multiple of the order, is near the order. *)
Lemma tail_range x : length x = 64%nat -> (forall j, 31 < j -> col x j = 0) -> (forall j, j <= 31 -> - 130 <= col x j <= 130) ->
  - ORDER <= of_le x - Z.shiftr (col x 31) 4 * ORDER < ORDER.
Proof.
  intros Hl Hz Hb. rewrite (of_le_split x 31) by lia.
  assert (Hd : of_le (drop 31 x) = col x 31).
  { destruct (lookup_lt_is_Some_2 x 31 ltac:(lia)) as [v Hv]. rewrite (drop_S _ _ _ Hv). cbn [of_le].
    rewrite (of_le_zero_tail x 32) by (try lia; intros j Hj; apply Hz; lia). pose proof (getz_nat x 31 v 0 Hv) as E. change (Z.of_nat 31) with 31 in E. lia. }
  rewrite Hd. change (256 ^ Z.of_nat 31) with (2 ^ 248).
  assert (Hlow : - (130 * 2 ^ 248) <= 255 * of_le (take 31 x) <= 130 * 2 ^ 248).
  { assert (Hln : lenz (take 31 x) = 31) by (unfold lenz; rewrite length_take; lia).
    pose proof (of_le_bound (take 31 x) 130 ltac:(lia)) as H. rewrite Hln in H. change (256 ^ 31) with (2 ^ 248) in H. apply H.
    apply list.Forall_lookup. intros k v Hk. pose proof (lookup_lt_Some _ _ _ Hk) as Hlt. rewrite length_take in Hlt.
    rewrite lookup_take_lt in Hk by lia. specialize (Hb (Z.of_nat k) ltac:(lia)). by rewrite (getz_nat _ _ _ _ Hk) in Hb. }
  pose proof (Hb 31 ltac:(lia)) as H31. rewrite Z.shiftr_div_pow2 by lia. change (2 ^ 4) with 16.
  pose proof (Z.div_mod (col x 31) 16 ltac:(lia)) as E. pose proof (Z.mod_pos_bound (col x 31) 16 ltac:(lia)) as Er.
  revert E Er. generalize (col x 31 / 16), (col x 31 mod 16). intros q r E Er. unfold ORDER. lia.
Qed.

Lemma sub_pass u c : length u = 64%nat -> (forall j, 0 <= j < 32 -> is_u8 (col u j)) -> - 1 <= c <= 0 ->
  let v := for_up 32 0 (fun j x => setz x j (i64 (col x j - c * colL j))) u in
  length v = 64%nat /\ of_le v = of_le u - c * ORDER /\ (forall j, 0 <= j < 32 -> 0 <= col v j <= 2 ^ 10) /\ (forall j, 32 <= j -> col v j = col u j).
Proof.
  intros Hl Hb Hc. cbv zeta.
  assert (H : forall n, (n <= 32)%nat -> let v := for_up n 0 (fun j x => setz x j (i64 (col x j - c * colL j))) u in
    length v = 64%nat /\ of_le v = of_le u - c * of_le (take n L) /\ (forall j, 0 <= j < Z.of_nat n -> 0 <= col v j <= 2 ^ 10) /\
    (forall j, Z.of_nat n <= j -> col v j = col u j)).
  { induction n as [|n IH]; intros Hn; cbv zeta.
    - cbn [for_up]. change (take 0 L) with (@nil Z). cbn [of_le]. split_and!; [done|lia|intros; lia|done].
    - rewrite for_up_last, Z.add_0_l. destruct (IH ltac:(lia)) as (Hlv & Hv & Hbv & Hs). clear IH. revert Hlv Hv Hbv Hs.
      generalize (for_up n 0 (fun j x => setz x j (i64 (col x j - c * colL j))) u). intros v Hlv Hv Hbv Hs. set (k := Z.of_nat n) in *.
      rewrite (Hs k) by lia. pose proof (Hb k ltac:(lia)) as Hbk. unfold is_u8 in Hbk. pose proof (L_digit k) as HL.
      rewrite i64_small by nia. assert (Hlu : 0 <= k < lenz v) by (unfold lenz; lia). split_and!.
      + by rewrite setz_length.
      + rewrite of_le_setz, (Hs k), Hv by lia. pose proof (take_L k ltac:(lia)) as E. unfold k in E.
        replace (Z.to_nat (Z.of_nat n + 1)) with (S n) in E by lia. rewrite Nat2Z.id in E. rewrite E. fold k. lia.
      + intros j Hj. rewrite col_setz by done. destruct (Z.eqb_spec j k); [nia|apply Hbv; lia].
      + intros j Hj. rewrite col_setz by done. rewrite (proj2 (Z.eqb_neq j k)) by lia. apply Hs. lia. }
  destruct (H 32%nat ltac:(lia)) as (H1 & H2 & H3 & H4). split_and!; [done| |done|done].
  rewrite H2. change (take 32 L) with L. by rewrite L_value.
Qed.

(** ** The bytes written *)

Record out_ok (x : list Z) (n : nat) (s : list Z * list Z) : Prop := {
  oo_len : length (fst s) = 64%nat;
  oo_out : length (snd s) = n;
  oo_byte : Forall is_u8 (snd s);
  oo_val : of_le (snd s) + 256 ^ Z.of_nat n * of_le (drop n (fst s)) = of_le x;
  oo_next : 0 <= col (fst s) (Z.of_nat n) <= 2 ^ 11;
  oo_same : forall j, Z.of_nat n < j -> col (fst s) j = col x j }.

Lemma out_step x n s : (n < 32)%nat -> (forall j, 0 <= j -> 0 <= col x j <= 2 ^ 10) ->
  out_ok x n s -> out_ok x (S n) (mod_out (Z.of_nat n) s).
Proof.
  intros Hn Hb [Hlu Hlr Hr Hv Hk Hs]. destruct s as [u r]. cbn [fst snd] in *. unfold mod_out.
  pose proof (Hb (Z.of_nat n + 1) ltac:(lia)) as Hk1. rewrite <- (Hs (Z.of_nat n + 1)) in Hk1 by lia.
  change 255 with (Z.ones 8). rewrite Z.land_ones, Z.shiftr_div_pow2 by lia. change (2 ^ 8) with 256.
  pose proof (Z.mod_pos_bound (col u (Z.of_nat n)) 256 ltac:(lia)) as Hm. pose proof (Z.div_mod (col u (Z.of_nat n)) 256 ltac:(lia)) as Hdm.
  assert (Hq : 0 <= col u (Z.of_nat n) / 256 <= 8) by (split; [apply Z.div_pos; lia|apply Z.div_le_upper_bound; lia]).
  rewrite i64_small by lia. assert (Hlz : 0 <= Z.of_nat n + 1 < lenz u) by (unfold lenz; lia). split; cbn [fst snd].
  - by rewrite setz_length.
  - rewrite length_app, Hlr. cbn [length]. lia.
  - apply list.Forall_app. split; [done|]. apply list.Forall_singleton. unfold is_u8. lia.
  - rewrite <- Hv. destruct (lookup_lt_is_Some_2 u n ltac:(lia)) as [a Ha]. destruct (lookup_lt_is_Some_2 u (S n) ltac:(lia)) as [e He].
    assert (Ea : col u (Z.of_nat n) = a) by (apply (getz_nat _ _ _ _ Ha)).
    replace (Z.of_nat n + 1) with (Z.of_nat (S n)) in * by lia. assert (Ee : col u (Z.of_nat (S n)) = e) by (apply (getz_nat _ _ _ _ He)).
    rewrite Ea, Ee in *. rewrite (drop_S u a n Ha), (drop_S u e (S n) He).
    assert (Hset : setz u (Z.of_nat (S n)) (e + a / 256) !! S n = Some (e + a / 256)) by (rewrite setz_nat; apply list_lookup_insert_eq; lia).
    rewrite (drop_S _ _ _ Hset), setz_nat, drop_insert_lt by lia.
    rewrite (of_le_split (r ++ [a mod 256]) n) by (rewrite length_app, Hlr; lia).
    rewrite take_app_le, drop_app_ge, firstn_all2, Hlr, Nat.sub_diag by lia. change (drop 0 [a mod 256]) with [a mod 256].
    cbn [of_le]. rewrite Nat2Z.inj_succ, Z.pow_succ_r by lia. rewrite Hdm at 3. lia.
  - replace (Z.of_nat (S n)) with (Z.of_nat n + 1) by lia. rewrite col_setz, Z.eqb_refl by done. lia.
  - intros j Hj. rewrite col_setz, (proj2 (Z.eqb_neq _ _)) by (done || lia). apply Hs. lia.
Qed.

(** The bytes written are those of the value modulo 2^256. *)
Lemma out_pass x : length x = 64%nat -> (forall j, 0 <= j -> 0 <= col x j <= 2 ^ 10) ->
  snd (for_up 32 0 mod_out (x, [])) = le 32 (of_le x).
Proof.
  intros Hl Hb.
  assert (H : forall n, (n <= 32)%nat -> out_ok x n (for_up n 0 mod_out (x, []))).
  { induction n as [|n IH]; intros Hn.
    - cbn [for_up]. split; cbn [fst snd of_le].
      + done.
      + done.
      + constructor.
      + change (drop 0 x) with x. lia.
      + specialize (Hb (Z.of_nat 0)). lia.
      + done.
    - rewrite for_up_last, Z.add_0_l. apply out_step; [lia|done|]. apply IH. lia. }
  destruct (H 32%nat (Nat.le_refl _)) as [_ Hn Hr Hv _ _]. revert Hn Hr Hv. generalize (for_up 32 0 mod_out (x, [])). intros [u r] Hn Hr Hv. cbn [fst snd] in *.
  pose proof (of_le_range r Hr) as Hrange. unfold lenz in Hrange. rewrite Hn in Hrange. change (8 * Z.of_nat 32) with 256 in Hrange.
  assert (E : of_le (le 32 (of_le x)) = of_le r).
  { rewrite of_le_le, <- Hv. change (256 ^ Z.of_nat 32) with (2 ^ 256). change (8 * Z.of_nat 32) with 256.
    rewrite (Z.mul_comm (2 ^ 256)), Z_mod_plus_full. apply Z.mod_small. lia. }
  rewrite <- (le_of_le r Hr), Hn, <- E. rewrite <- (le_of_le (le 32 (of_le x)) (le_bytes _ _)) at 2. by rewrite le_length.
Qed.

(** ** The reduction *)

Lemma le_shift n a k : le n (a + k * 2 ^ (8 * Z.of_nat n)) = le n a.
Proof.
  rewrite <- (le_of_le (le n (a + _)) (le_bytes _ _)), <- (le_of_le (le n a) (le_bytes _ _)), !le_length, !of_le_le.
  by rewrite Z_mod_plus_full.
Qed.

Lemma last_pass x : length x = 64%nat -> (forall j, 31 < j -> col x j = 0) -> (forall j, j <= 31 -> - 130 <= col x j <= 130) ->
  let s := for_up 32 0 mod_last (x, 0) in
  length (fst s) = 64%nat /\ (forall j, 0 <= j < 32 -> is_u8 (col (fst s) j)) /\ (forall j, 32 <= j -> col (fst s) j = 0) /\
  - 1 <= snd s <= 0 /\ exists q, of_le (fst s) - snd s * ORDER = of_le x + q * ORDER - snd s * 2 ^ 256 /\ 0 <= of_le x + q * ORDER < ORDER.
Proof.
  intros Hl Hz Hb. cbv zeta. set (q := Z.shiftr (col x 31) 4).
  assert (H : forall n, (n <= 32)%nat -> last_ok x q (Z.of_nat n) (for_up n 0 mod_last (x, 0))).
  { induction n as [|n IH]; intros Hn.
    - cbn [for_up]. split; cbn [fst snd]; try done; try (intros; lia). change (take (Z.to_nat (Z.of_nat 0)) L) with (@nil Z). cbn [of_le]. lia.
    - rewrite for_up_last, Z.add_0_l. replace (Z.of_nat (S n)) with (Z.of_nat n + 1) by lia.
      apply last_step; [lia|done|apply Hb; lia|apply Hb; lia|apply IH; lia]. }
  destruct (H 32%nat (Nat.le_refl _)) as [Hlu Hs Hu Hc Hv]. clear H. revert Hlu Hs Hu Hc Hv. generalize (for_up 32 0 mod_last (x, 0)).
  intros [u c] Hlu Hs Hu Hc Hv. cbn [fst snd] in *. change (Z.of_nat 32) with 32 in *.
  change (take (Z.to_nat 32) L) with L in Hv. rewrite L_value in Hv.
  pose proof (tail_range x Hl Hz Hb) as Hr. fold q in Hr.
  assert (Hlow : 0 <= of_le u < 256 ^ 32).
  { rewrite (of_le_split u 32), (of_le_zero_tail u 32), Z.mul_0_r, Z.add_0_r by (try lia; intros; rewrite Hs by lia; apply Hz; lia).
    assert (Hf : Forall is_u8 (take 32 u)).
    { apply list.Forall_lookup. intros k v Hk. pose proof (lookup_lt_Some _ _ _ Hk) as Hlt. rewrite length_take in Hlt.
      rewrite lookup_take_lt in Hk by lia. specialize (Hu (Z.of_nat k) ltac:(lia)). by rewrite (getz_nat _ _ _ _ Hk) in Hu. }
    pose proof (of_le_range _ Hf) as Hrg. unfold lenz in Hrg. rewrite length_take, Hlu in Hrg. exact Hrg. }
  change (256 ^ 32) with (2 ^ 256) in *.
  clearbody q.
  assert (Hc1 : - 1 <= c <= 0) by (rewrite <- Hv in Hr; unfold ORDER in Hr; lia). split_and!; [done|done| |lia|lia|].
  - intros j Hj. rewrite Hs by lia. apply Hz. lia.
  - assert (c = -1 \/ c = 0) as [-> | ->] by lia; [exists (1 - q)|exists (- q)].
    all: unfold ORDER in *; lia.
Qed.

Lemma modL_value x : length x = 64%nat -> Forall (fun v => - 2 ^ 22 <= v <= 2 ^ 22) x -> modL x = le 32 (of_le x mod ORDER).
Proof.
  intros Hl Hx. unfold modL. pose proof (rows_ok x Hl Hx) as Hrow. revert Hrow. generalize (for_up 32 0 (fun k => mod_row (63 - k)) x).
  intros w [Hlw Hz _ Hn _ Ht [q Hv]].
  assert (Hb : forall j, j <= 31 -> - 130 <= col w j <= 130).
  { intros j Hj. destruct (Z.ltb_spec 19 j); [apply Ht; lia|]. destruct (Z.ltb_spec j 0).
    - unfold getz. rewrite (proj2 (Z.ltb_lt j 0)) by lia. lia.
    - specialize (Hn ltac:(lia) j ltac:(lia)). lia. }
  destruct (last_pass w Hlw Hz Hb) as (Hlu & Hu & Huz & Hc & q' & Hq & Hr). revert Hlu Hu Huz Hc Hq Hr. generalize (for_up 32 0 mod_last (w, 0)).
  intros [u c] Hlu Hu Huz Hc Hq Hr. cbn [fst snd] in *.
  destruct (sub_pass u c Hlu Hu Hc) as (Hlv & Hvv & Hvb & Hvs). revert Hlv Hvv Hvb Hvs. unfold colL.
  generalize (for_up 32 0 (fun j x => setz x j (i64 (col x j - c * colL j))) u). intros v Hlv Hvv Hvb Hvs.
  rewrite out_pass.
  - rewrite Hvv, Hq, Hv. replace (_ - c * 2 ^ 256) with (of_le x + (q + q') * ORDER + - c * 2 ^ (8 * Z.of_nat 32)) by (change (8 * Z.of_nat 32) with 256; lia).
    rewrite le_shift. f_equal. rewrite Hv in Hr. rewrite <- (Z_mod_plus_full (of_le x) (q + q')). symmetry. apply Z.mod_small. lia.
  - done.
  - intros j Hj. destruct (Z.ltb_spec j 32); [apply Hvb; lia|]. rewrite Hvs, Huz by lia. lia.
Qed.
