(* ===== verification/EdSign.v ===== *)
(** * Signing and verifying as equations ([ed25519.c])

    The scalar part of a signature is proved to be [r + h * a] modulo the order
    of the base point, with [r], [h] and [a] the numbers RFC 8032 names, and
    verification to accept exactly the signatures whose commitment is the one
    recomputed from the scalar part. *)

From stdpp Require Import list.
From S2P Require Import Prelude Sha512 Fe25519 Ed25519 EdCurve Scalar25519.
#[local] Open Scope Z_scope.

(** ** The product of two scalars *)

Lemma of_le_take_S x n : (n < length x)%nat -> of_le (take (S n) x) = of_le (take n x) + getz x (Z.of_nat n) 0 * 256 ^ Z.of_nat n.
Proof.
  intros Hn. destruct (lookup_lt_is_Some_2 x n Hn) as [v Hv]. rewrite (take_S_r _ _ _ Hv), (getz_nat _ _ _ _ Hv).
  rewrite (of_le_split (take n x ++ [v]) n) by (rewrite length_app, length_take; cbn [length]; lia).
  rewrite take_app_le, firstn_all2, drop_app_ge, length_take by (rewrite ?length_take; lia).
  replace (n - Nat.min n (length x))%nat with 0%nat by lia. change (drop 0 [v]) with [v]. cbn [of_le]. lia.
Qed.

Record prod_ok (b : Z) (x y : list Z) (v : Z) : Prop := {
  pr_len : length y = 64%nat;
  pr_col : forall j, col x j <= col y j <= col x j + b;
  pr_val : of_le y = of_le x + v }.

Lemma product_row h d i x : 0 <= i < 32 -> length x = 64%nat -> (32 <= length d)%nat -> Forall is_u8 d -> 0 <= h < 256 ->
  (forall j, 0 <= col x j <= 2 ^ 22) ->
  prod_ok (255 * 255) x (for_up 32 0 (fun j x => setz x (i + j) (i64 (getz x (i + j) 0 + h * getz d j 0))) x) (h * 256 ^ i * of_le (take 32 d)).
Proof.
  intros Hi Hl Hld Hd Hh Hx.
  assert (H : forall n, (n <= 32)%nat ->
    let y := for_up n 0 (fun j x => setz x (i + j) (i64 (getz x (i + j) 0 + h * getz d j 0))) x in
    prod_ok (255 * 255) x y (h * 256 ^ i * of_le (take n d)) /\ (forall j, i + Z.of_nat n <= j -> col y j = col x j)).
  { induction n as [|n IH]; intros Hn; cbv zeta.
    - cbn [for_up]. split; [|done]. split; [done|intros; lia|]. change (take 0 d) with (@nil Z). cbn [of_le]. lia.
    - rewrite for_up_last, Z.add_0_l. destruct (IH ltac:(lia)) as [[Hly Hcy Hvy] Hsy]. clear IH. revert Hly Hcy Hvy Hsy.
      generalize (for_up n 0 (fun j x => setz x (i + j) (i64 (getz x (i + j) 0 + h * getz d j 0))) x). intros y Hly Hcy Hvy Hsy.
      rewrite (Hsy (i + Z.of_nat n)) by lia. assert (Hdn : is_u8 (getz d (Z.of_nat n) 0)) by (apply (getz_Forall is_u8); [done|unfold is_u8; lia]).
      unfold is_u8 in Hdn. pose proof (Hx (i + Z.of_nat n)) as Hxn. rewrite i64_small by nia.
      assert (Hly' : 0 <= i + Z.of_nat n < lenz y) by (unfold lenz; lia). split; [split|].
      + by rewrite setz_length.
      + intros j. rewrite col_setz by done. destruct (Z.eqb_spec j (i + Z.of_nat n)) as [->|]; [nia|apply Hcy].
      + rewrite of_le_setz, (Hsy (i + Z.of_nat n)), Hvy, (of_le_take_S d) by lia. rewrite Z.pow_add_r by lia. lia.
      + intros j Hj. rewrite col_setz, (proj2 (Z.eqb_neq _ _)) by (done || lia). apply Hsy. lia. }
  exact (proj1 (H 32%nat (Nat.le_refl _))).
Qed.

Lemma product_value h d x : length x = 64%nat -> (32 <= length d)%nat -> (32 <= length h)%nat -> Forall is_u8 d -> Forall is_u8 h ->
  Forall is_u8 x -> prod_ok (32 * (255 * 255)) x (mul_scalars h d x) (of_le (take 32 h) * of_le (take 32 d)).
Proof.
  intros Hl Hld Hlh Hd Hh Hx. unfold mul_scalars.
  assert (Hcx : forall j, is_u8 (col x j)) by (intros j; apply (getz_Forall is_u8); [done|unfold is_u8; lia]).
  assert (H : forall n, (n <= 32)%nat -> prod_ok (Z.of_nat n * (255 * 255)) x
    (for_up n 0 (fun i x => for_up 32 0 (fun j x => setz x (i + j) (i64 (getz x (i + j) 0 + getz h i 0 * getz d j 0))) x) x) (of_le (take n h) * of_le (take 32 d))).
  { induction n as [|n IH]; intros Hn.
    - cbn [for_up]. split; [done|intros; lia|]. change (take 0 h) with (@nil Z). cbn [of_le]. lia.
    - rewrite for_up_last, Z.add_0_l. specialize (IH ltac:(lia)). revert IH.
      generalize (for_up n 0 (fun i x => for_up 32 0 (fun j x => setz x (i + j) (i64 (getz x (i + j) 0 + getz h i 0 * getz d j 0))) x) x).
      intros y [Hly Hcy Hvy]. assert (Hhn : is_u8 (getz h (Z.of_nat n) 0)) by (apply (getz_Forall is_u8); [done|unfold is_u8; lia]).
      pose proof (product_row (getz h (Z.of_nat n) 0) d (Z.of_nat n) y) as Hp. cbv beta in *. revert Hp.
      generalize (for_up 32 0 (fun j x => setz x (Z.of_nat n + j) (i64 (getz x (Z.of_nat n + j) 0 + getz h (Z.of_nat n) 0 * getz d j 0))) y).
      intros z Hp. destruct Hp as [Hlz Hcz Hvz]; [lia|done|done|done|exact Hhn| |].
      + intros j. specialize (Hcy j). specialize (Hcx j). unfold is_u8 in Hcx. lia.
      + split; [done| |rewrite Hvz, Hvy, (of_le_take_S h) by lia; lia].
        intros j. specialize (Hcy j). specialize (Hcz j). lia. }
  exact (H 32%nat (Nat.le_refl _)).
Qed.

Lemma of_le_zeros n : of_le (replicate n 0) = 0.
Proof. induction n as [|n IH]; [done|]. cbn [replicate of_le]. lia. Qed.
Lemma of_le_app x y : of_le (x ++ y) = of_le x + 256 ^ lenz x * of_le y.
Proof.
  rewrite (of_le_split (x ++ y) (length x)) by (rewrite length_app; lia). by rewrite take_app_length, drop_app_length.
Qed.

(** The bytes of [(r + h * d) mod ORDER]. *)
Lemma scalar_value r h d : length r = 32%nat -> (32 <= length d)%nat -> (32 <= length h)%nat -> Forall is_u8 r -> Forall is_u8 d -> Forall is_u8 h ->
  modL (mul_scalars h d (r ++ replicate 32 0)) = le 32 ((of_le r + of_le (take 32 h) * of_le (take 32 d)) mod ORDER).
Proof.
  intros Hlr Hld Hlh Hr Hd Hh.
  assert (Hx : Forall is_u8 (r ++ replicate 32 0)) by (apply list.Forall_app; split; [done|apply list.Forall_replicate; done]).
  assert (Hlx : length (r ++ replicate 32 0) = 64%nat) by (rewrite length_app, length_replicate, Hlr; reflexivity).
  destruct (product_value h d _ Hlx Hld Hlh Hd Hh Hx) as [Hl Hc Hv]. rewrite modL_value.
  - rewrite Hv, of_le_app, of_le_zeros, Z.mul_0_r, Z.add_0_r. reflexivity.
  - exact Hl.
  - apply list.Forall_lookup. intros k v Hk. assert (Hkv := getz_nat _ _ _ 0 Hk). specialize (Hc (Z.of_nat k)).
    assert (Hu : is_u8 (col (r ++ replicate 32 0) (Z.of_nat k))) by (apply (getz_Forall is_u8); [done|unfold is_u8; lia]). unfold is_u8 in Hu. lia.
Qed.

Lemma reduce_value r : length r = 64%nat -> Forall is_u8 r -> reduce r = le 32 (of_le r mod ORDER) ++ replicate 32 0.
Proof.
  intros Hl Hr. unfold reduce. rewrite modL_value; [reflexivity|exact Hl|]. eapply list.Forall_impl; [exact Hr|]. unfold is_u8. intros; cbv beta in *; lia.
Qed.

Lemma le_order n : of_le (le 32 (n mod ORDER)) = n mod ORDER.
Proof. rewrite of_le_le. apply Z.mod_small. pose proof (Z.mod_pos_bound n ORDER ltac:(done)). change (8 * Z.of_nat 32) with 256. unfold ORDER in *. lia. Qed.

Lemma reduce_num r : length r = 64%nat -> Forall is_u8 r -> of_le (reduce r) = of_le r mod ORDER.
Proof.
  intros Hl Hr. rewrite reduce_value, of_le_app, of_le_zeros, le_order by done. lia.
Qed.

(** ** Keys *)

Lemma hash_ok m : length (Spec.hash m) = 64%nat /\ Forall is_u8 (Spec.hash m).
Proof.
  assert (Hw : words8 (Spec.absorb (length (Spec.pad m) / 128) Spec.H0 (Spec.pad m))) by (apply absorb_words; split; [done|by repeat constructor]).
  split; [|apply bytes8_bytes]. unfold Spec.hash. change (concat (map (be 8) ?z)) with (bytes8 z). by rewrite bytes8_length, (proj1 Hw).
Qed.

(** The scalar of a secret key: a multiple of eight with bit 254 the highest. *)
Definition secret_scalar (k : list Z) : Z := 2 ^ 254 + 8 * ((of_le (take 32 k) / 8) mod 2 ^ 251).

Lemma clamp_low a mid b t : length mid = 30%nat -> is_u8 a -> is_u8 b -> Forall is_u8 mid ->
  clamp (a :: mid ++ b :: t) = Z.land a 248 :: mid ++ Z.lor (Z.land b 127) 64 :: t.
Proof.
  intros Hl Ha Hb Hm. unfold clamp. change (getz (a :: mid ++ b :: t) 0 0) with a.
  change (setz (a :: mid ++ b :: t) 0 (Z.land a 248)) with ((Z.land a 248 :: mid) ++ b :: t).
  assert (Hlen : 31 = lenz (Z.land a 248 :: mid)) by (unfold lenz; cbn [length]; rewrite Hl; reflexivity).
  assert (Hget : forall v, getz ((Z.land a 248 :: mid) ++ v :: t) 31 0 = v).
  { intros v. change 31 with (Z.of_nat 31). apply getz_nat. rewrite lookup_app_r by (cbn [length]; lia). cbn [length]. rewrite Hl. reflexivity. }
  rewrite Hget, (setz_mid _ _ _ _ _ Hlen), Hget, (setz_mid _ _ _ _ _ Hlen). reflexivity.
Qed.

Lemma clamp_value k : length k = 64%nat -> Forall is_u8 k ->
  length (clamp k) = 64%nat /\ Forall is_u8 (clamp k) /\ drop 32 (clamp k) = drop 32 k /\ of_le (take 32 (clamp k)) = secret_scalar k.
Proof.
  intros Hl Hk. unfold secret_scalar. rewrite <- (take_drop 32 k) in Hk |- *. assert (Hl32 : length (take 32 k) = 32%nat) by (rewrite length_take; lia).
  assert (Hlt : length (drop 32 k) = 32%nat) by (rewrite length_drop; lia).
  revert Hl32 Hlt Hk. generalize (take 32 k), (drop 32 k). clear. intros u t Hu Ht Hk. destruct u as [|a u]; [done|]. cbn [length] in Hu.
  destruct (exists_last (l := u)) as (mid & b & ->); [intros ->; done|]. rewrite length_app in Hu. cbn [length] in Hu.
  apply list.Forall_app in Hk as [Hk Htu]. apply list.Forall_cons in Hk as [Ha Hk]. apply list.Forall_app in Hk as [Hm Hb]. apply list.Forall_cons in Hb as [Hb _].
  assert (Hlm : length mid = 30%nat) by lia. change ((a :: mid ++ [b]) ++ t) with (a :: (mid ++ [b]) ++ t). rewrite <- app_assoc. cbn [app].
  rewrite clamp_low by assumption.
  assert (Ha8 : Z.land a 248 = 8 * (a / 8)).
  { pose proof (byte_all (fun a => Z.land a 248 =? 8 * (a / 8)) ltac:(vm_compute; reflexivity) a Ha) as E. apply Z.eqb_eq in E. exact E. }
  assert (Hb64 : Z.lor (Z.land b 127) 64 = 64 + b mod 64).
  { pose proof (byte_all (fun b => Z.lor (Z.land b 127) 64 =? 64 + b mod 64) ltac:(vm_compute; reflexivity) b Hb) as E. apply Z.eqb_eq in E. exact E. }
  rewrite Ha8, Hb64. unfold is_u8 in Ha, Hb. pose proof (Z.mod_pos_bound b 64 ltac:(lia)) as Hbm. pose proof (Z.div_mod b 64 ltac:(lia)) as Hbd.
  pose proof (Z.mod_pos_bound a 8 ltac:(lia)) as Ham. pose proof (Z.div_mod a 8 ltac:(lia)) as Had.
  assert (Htake : forall a b, take 32 (a :: mid ++ b :: t) = a :: mid ++ [b]).
  { intros a' b'. change (a' :: mid ++ b' :: t) with ((a' :: mid) ++ [b'] ++ t). rewrite (app_assoc (a' :: mid)).
    rewrite take_app_le by (rewrite length_app; cbn [length]; lia). rewrite firstn_all2 by (rewrite length_app; cbn [length]; lia). reflexivity. }
  split; [cbn [length]; rewrite length_app; cbn [length]; lia|]. split.
  { constructor; [unfold is_u8; lia|]. apply list.Forall_app. split; [exact Hm|]. constructor; [unfold is_u8; lia|exact Htu]. }
  split.
  { rewrite !(app_comm_cons mid). rewrite !drop_app_ge by (cbn [length]; lia). cbn [length]. rewrite Hlm. reflexivity. }
  rewrite !Htake. cbn [of_le]. rewrite !of_le_snoc. unfold lenz. rewrite Hlm. change (256 ^ Z.of_nat 30) with (2 ^ 240).
  pose proof (of_le_range mid Hm) as Hr. unfold lenz in Hr. rewrite Hlm in Hr. change (8 * Z.of_nat 30) with 240 in Hr.
  revert Hr. generalize (of_le mid). intros M Hr.
  replace ((a + 256 * (M + 2 ^ 240 * b)) / 8) with (a / 8 + 32 * M + 2 ^ 245 * (b mod 64) + (b / 64) * 2 ^ 251).
  - rewrite Z_mod_plus_full, (Z.mod_small (a / 8 + 32 * M + 2 ^ 245 * (b mod 64))) by lia. lia.
  - apply (Z.div_unique _ _ _ (a mod 8)); lia.
Qed.

Lemma multiply_low n m q : n mod 2 ^ 256 = m mod 2 ^ 256 -> multiply n q = multiply m q.
Proof.
  intros E. unfold multiply. assert (H : forall c, (c <= 256)%nat -> for_up c 0 (fun k => ladder_turn n (255 - k)) (Point gf0 gf1 gf1 gf0, q) =
    for_up c 0 (fun k => ladder_turn m (255 - k)) (Point gf0 gf1 gf1 gf0, q)).
  { induction c as [|c IH]; intros Hc; [reflexivity|]. rewrite !for_up_last, IH by lia. unfold ladder_turn.
    replace (Z.testbit n (255 - (0 + Z.of_nat c))) with (Z.testbit m (255 - (0 + Z.of_nat c))); [reflexivity|].
    rewrite <- (Z.mod_pow2_bits_low n 256), <- (Z.mod_pow2_bits_low m 256), E by lia. reflexivity. }
  rewrite (H 256%nat (Nat.le_refl _)). reflexivity.
Qed.

Definition base : point := Point X Y gf1 (gfM X Y).
Lemma base_ok : point_ok base.
Proof.
  assert (HX : red X) by (split; [reflexivity|apply (bool_decide_unpack _); vm_compute; exact Logic.I]).
  assert (HY : red Y) by (split; [reflexivity|apply (bool_decide_unpack _); vm_compute; exact Logic.I]).
  assert (H1 : red gf1) by (split; [reflexivity|apply (bool_decide_unpack _); vm_compute; exact Logic.I]).
  exact (Build_point_ok (Point _ _ _ _) HX HY H1 (proj1 (gfM_red X Y HX HY))).
Qed.

(** Only the first 32 bytes of a scalar count. *)
Lemma scalarmult_low s q : Forall is_u8 s -> (32 <= length s)%nat -> point_ok q -> scalarmult q s = multiply (of_le (take 32 s)) q.
Proof.
  intros Hs Hl Hq. rewrite scalarmult_ladder by assumption. apply multiply_low. rewrite (of_le_split s 32) by lia.
  change (256 ^ Z.of_nat 32) with (2 ^ 256). rewrite (Z.mul_comm (2 ^ 256)). apply Z_mod_plus_full.
Qed.

Lemma pack_bytes p : point_ok p -> length (pack p) = 32%nat /\ Forall is_u8 (pack p).
Proof. intros Hp. rewrite (pack_value p Hp). unfold encoding. split; [apply le_length|apply le_bytes]. Qed.

(** ** Reference: RFC 8032, 5.1.5 to 5.1.7 *)
Module Rfc8032.

(** The number a hash stands for, modulo the order. *)
Definition number (m : list Z) : Z := of_le (Spec.hash m) mod ORDER.
Definition commit (n : Z) : list Z := pack (multiply n base).

Definition public_key (seed : list Z) : list Z := commit (secret_scalar (Spec.hash seed)).

Definition sign (sk m : list Z) : list Z :=
  let k := Spec.hash (take 32 sk) in
  let r := number (drop 32 k ++ m) in
  let R := commit r in
  let h := number (R ++ drop 32 sk ++ m) in
  R ++ le 32 ((r + h * secret_scalar k) mod ORDER).


End Rfc8032.

Lemma commit_ok n : length (Rfc8032.commit n) = 32%nat /\ Forall is_u8 (Rfc8032.commit n).
Proof. apply pack_bytes, multiply_ok, base_ok. Qed.

Lemma scalarbase_low s : Forall is_u8 s -> (32 <= length s)%nat -> pack (scalarbase s) = Rfc8032.commit (of_le (take 32 s)).
Proof. intros Hs Hl. unfold scalarbase, Rfc8032.commit. change (Point X Y gf1 (gfM X Y)) with base. by rewrite (scalarmult_low s _ Hs Hl base_ok). Qed.

Lemma hash_take32 m : Forall is_u8 m -> (32 <= length m)%nat -> crypto_hash m 32 = Spec.hash (take 32 m).
Proof.
  intros Hm Hl. rewrite hash_prefix by (done || unfold lenz; lia). change (Z.to_nat 32) with 32%nat.
  rewrite <- (hash_value (take 32 m)); [|by apply list.Forall_take|unfold lenz; rewrite length_take; lia].
  f_equal. unfold lenz. rewrite length_take. lia.
Qed.

(** [reduce] of a hash, and the 32 bytes that count. *)
Lemma reduce_hash m n : Forall is_u8 m -> n = lenz m -> n < 2 ^ 64 ->
  let r := reduce (crypto_hash m n) in
  take 32 r = le 32 (Rfc8032.number m) /\ of_le (take 32 r) = Rfc8032.number m /\ length r = 64%nat /\ Forall is_u8 r.
Proof.
  intros Hm -> Hn. cbv zeta. rewrite hash_value by done. destruct (hash_ok m) as [Hl Hb]. rewrite reduce_value by done. fold (Rfc8032.number m).
  assert (Et : take 32 (le 32 (Rfc8032.number m) ++ replicate 32 0) = le 32 (Rfc8032.number m)) by (rewrite take_app_le, firstn_all2; rewrite ?le_length; lia || done).
  rewrite Et. split; [done|]. split; [apply le_order|]. split; [by rewrite length_app, le_length|].
  apply list.Forall_app. split; [apply le_bytes|apply list.Forall_replicate; done].
Qed.

(** C9: signing is the one of RFC 8032: for every message up to the limit and
    every 64-byte secret key the code writes the commitment to [r] and the bytes
    of [r + h * a] modulo the order, [r] and [h] the SHA-512 numbers of the
    standard and [a] the clamped scalar; a longer message is refused and the
    signature left as it was. *)
Theorem sign_refines (out msg sk : list Z) (Hm : Forall is_u8 msg) (Hsk : Forall is_u8 sk) (Hlk : length sk = 64%nat) :
  ed25519_sign out msg sk = if lenz msg <=? ED25519_MAX_MSG then (1, Rfc8032.sign sk msg) else (0, out).
Proof.
  unfold ed25519_sign. rewrite Z.ltb_antisym. destruct (Z.leb_spec (lenz msg) ED25519_MAX_MSG) as [Hmax|]; [cbn [negb]|done].
  apply (f_equal (pair 1)). unfold crypto_sign, Rfc8032.sign. cbv zeta. rewrite hash_take32 by (done || lia). set (k := Spec.hash (take 32 sk)).
  destruct (hash_ok (take 32 sk)) as [Hlkk Hkk]. fold k in Hlkk, Hkk. destruct (clamp_value k Hlkk Hkk) as (Hcl & Hcb & Hcd & Hcv). rewrite Hcd.
  assert (Hd : length (drop 32 k) = 32%nat) by (rewrite length_drop; lia). unfold ED25519_MAX_MSG in Hmax.
  assert (H1 : Forall is_u8 (drop 32 k ++ msg)) by (apply list.Forall_app; split; [by apply list.Forall_drop|done]).
  destruct (reduce_hash (drop 32 k ++ msg) (lenz msg + 32) H1) as (Er & Vr & Hlr & Hr); [unfold lenz; rewrite length_app; lia|lia|].
  rewrite (scalarbase_low _ Hr ltac:(lia)), Vr. set (r := Rfc8032.number (drop 32 k ++ msg)) in *. destruct (commit_ok r) as [Hlc Hc].
  assert (Hdk : length (drop 32 sk) = 32%nat) by (rewrite length_drop; lia).
  assert (H2 : Forall is_u8 (Rfc8032.commit r ++ drop 32 sk ++ msg)) by (rewrite !list.Forall_app; split; [done|split; [by apply list.Forall_drop|done]]).
  destruct (reduce_hash (Rfc8032.commit r ++ drop 32 sk ++ msg) (lenz msg + 64) H2) as (Eh & Vh & Hlh & Hh); [unfold lenz; rewrite !length_app; lia|lia|].
  assert (Hrr : of_le (le 32 r) = r) by (rewrite <- Er at 1; exact Vr).
  rewrite Er, scalar_value; [|apply le_length|lia|lia|apply le_bytes|exact Hcb|exact Hh]. rewrite Vh, Hcv, Hrr. reflexivity.
Qed.

Lemma sign_refines_witness :
  ed25519_sign [] [1; 2; 3] (replicate 64 7) = (1, Rfc8032.sign (replicate 64 7) [1; 2; 3]) /\
  ed25519_sign [9] (replicate 4097 0) (replicate 64 7) = (0, [9]).
Proof.
  split.
  - apply (sign_refines [] [1; 2; 3] (replicate 64 7)); [repeat constructor; discriminate|apply (bool_decide_unpack _); vm_compute; exact Logic.I|reflexivity].
  - apply (sign_refines [9] (replicate 4097 0) (replicate 64 7)); [apply (bool_decide_unpack _); vm_compute; exact Logic.I|apply (bool_decide_unpack _); vm_compute; exact Logic.I|reflexivity].
Defined.

(** ** Verification *)



#[local] Opaque neq25519.


#[local] Opaque root_candidate.

#[local] Opaque root.








(** The key pair of a seed. *)
Lemma keypair_value seed : Forall is_u8 seed -> length seed = 32%nat ->
  ed25519_keypair_from_seed seed = (Rfc8032.public_key seed, seed ++ Rfc8032.public_key seed).
Proof.
  intros Hs Hl. unfold ed25519_keypair_from_seed, crypto_sign_keypair_from_seed, Rfc8032.public_key. rewrite hash_take32 by (done || lia).
  rewrite firstn_all2 by lia. destruct (hash_ok seed) as [Hh Hb]. destruct (clamp_value _ Hh Hb) as (Hcl & Hcb & _ & Hcv).
  rewrite scalarbase_low by (exact Hcb || lia). rewrite Hcv. reflexivity.
Qed.
