(* ===== verification/Sign.v ===== *)
(** * Signed artifacts and the update gates ([sign.c], [compat_ota.c])

    The node's key pair, the list of signers it adopted, the signed manifest of
    an artifact, and the gates an update passes before it is installed. The
    signature scheme is behind the class [Signatures], whose instance for the
    running system is Ed25519.v; the head of the floor chain of
    [conscience.c] is an argument of the last gate. *)

From stdpp Require Import list.
From S2P Require Import Prelude.
From S2P Require Import Ed25519.
#[local] Open Scope Z_scope.

(** ** The signature scheme *)

Class Signatures : Type := {
  sig_keypair : list Z -> list Z * list Z;
  sig_sign : list Z -> list Z -> list Z -> Z * list Z;
  sig_verify : list Z -> list Z -> list Z -> Z }.

(** The one the system links. *)
#[export] Instance ed25519_signatures : Signatures | 100 := {
  sig_keypair := ed25519_keypair_from_seed;
  sig_sign := ed25519_sign;
  sig_verify := ed25519_verify }.

Section sign.
Context `{Signatures}.

(** ** The node key *)

Record nodekey : Type := NodeKey { node_pk : list Z; node_sk : list Z; node_have_key : bool; node_keygen_strong : Z }.
Definition nodekey0 : nodekey := NodeKey (replicate 32 0) (replicate 64 0) false 0.

(** [entropy] is what [sign_entropy] would give now: its result and the seed. *)
Definition sign_node_key_ensure (entropy : Z * list Z) (k : nodekey) : Z * nodekey :=
  if node_have_key k then (1, k)
  else let '(pk, sk) := sig_keypair (snd entropy) in (1, NodeKey pk sk true (fst entropy)).

Definition sign_node_pubkey (k : nodekey) : option (list Z) := if node_have_key k then Some (node_pk k) else None.
Definition sign_node_keygen_was_strong (k : nodekey) : Z := node_keygen_strong k.

(** The result, the signature buffer and the key afterwards. *)
Definition sign_artifact (entropy : Z * list Z) (msg sig_out : list Z) (k : nodekey) : Z * list Z * nodekey :=
  let '(r, k') := if node_have_key k then (1, k) else sign_node_key_ensure entropy k in
  if r =? 0 then (0, sig_out, k')
  else let '(r, s) := sig_sign sig_out msg (node_sk k') in (r, s, k').

Definition sign_verify (msg sig pk : list Z) : Z := if sig_verify sig msg pk =? 0 then 0 else 1.

(** ** The signers adopted *)

Definition SIGN_ALLOWLIST_MAX : Z := 16.

Definition sg_eq (a b : list Z) : bool := bool_decide (a = b).

(** The rows in use; [allow_n] is their number. *)
Definition sign_allow_has (pk : list Z) (allow : list (list Z)) : bool := existsb (fun row => sg_eq row pk) allow.
Definition sign_allow_add (pk : list Z) (allow : list (list Z)) : Z * list (list Z) :=
  if sign_allow_has pk allow then (1, allow)
  else if SIGN_ALLOWLIST_MAX <=? lenz allow then (0, allow)
  else (1, allow ++ [pk]).
Definition sign_allow_count (allow : list (list Z)) : Z := lenz allow.
Definition sign_allow_clear : list (list Z) := [].

(** ** The manifest *)

Definition SIGN_MANIFEST_MAGIC : Z := 0x4E47534F.
Definition SIGN_MANIFEST_VER : Z := 1.

Record SIGN_MANIFEST : Type := Manifest {
  m_magic : Z; m_version : Z; artifact_ver : Z; m_pad : Z; artifact_id : list Z; signer_pk : list Z; m_sig : list Z }.

(** The bytes the signature covers. *)
Definition sign_manifest_body (id : list Z) (ver : Z) : list Z :=
  id ++ [Z.land ver 0xFF; Z.land (Z.shiftr ver 8) 0xFF; Z.land (Z.shiftr ver 16) 0xFF; Z.land (Z.shiftr ver 24) 0xFF].

(** [old] is the manifest the caller passed in. *)
Definition sign_manifest_make (entropy : Z * list Z) (id : list Z) (ver : Z) (old : SIGN_MANIFEST) (k : nodekey) : Z * SIGN_MANIFEST * nodekey :=
  let '(r, k) := sign_node_key_ensure entropy k in
  if r =? 0 then (0, old, k)
  else match sign_node_pubkey k with
  | None => (0, old, k)
  | Some pk =>
      let '(r, s, k) := sign_artifact entropy (sign_manifest_body id ver) (m_sig old) k in
      (r, Manifest SIGN_MANIFEST_MAGIC SIGN_MANIFEST_VER ver 0 id pk s, k)
  end.

(** [None] is the null pointer. *)
Definition sign_manifest_verify (allow : list (list Z)) (m : option SIGN_MANIFEST) (actual_id : option (list Z)) : Z :=
  match m, actual_id with
  | Some m, Some id =>
      if negb (m_magic m =? SIGN_MANIFEST_MAGIC) || negb (m_version m =? SIGN_MANIFEST_VER) then 0
      else if negb (sg_eq (artifact_id m) id) then 0
      else if sign_verify (sign_manifest_body (artifact_id m) (artifact_ver m)) (m_sig m) (signer_pk m) =? 0 then 0
      else if sign_allow_has (signer_pk m) allow then 1 else 0
  | _, _ => 0
  end.

(** ** The gates *)

Definition OTA_ACCEPT : Z := 1.
Definition OTA_REJECT_BADARG : Z := 0.
Definition OTA_REJECT_SIG : Z := -1.
Definition OTA_REJECT_DOWNGRADE : Z := -2.
Definition OTA_REJECT_PREDECESSOR : Z := -3.
Definition OTA_REJECT_FLOOR : Z := -4.

Definition ota_legal_successor (running_ver ver : Z) : bool := running_ver <? ver.

Definition compat_ota_accept (allow : list (list Z)) (m : option SIGN_MANIFEST) (actual_id : option (list Z)) (running_ver : Z) : Z :=
  match m, actual_id with
  | Some man, Some _ =>
      if sign_manifest_verify allow m actual_id =? 0 then OTA_REJECT_SIG
      else if ota_legal_successor running_ver (artifact_ver man) then OTA_ACCEPT else OTA_REJECT_DOWNGRADE
  | _, _ => OTA_REJECT_BADARG
  end.

Definition GEN_INV_FLOOR : Z := 4.

Record GEN_SUCC_MANIFEST : Type := Succ {
  s_magic : Z; s_version : Z; n_invariants : Z; s_reserved : Z;
  predecessor_archspec_id : list Z; successor_archspec_id : list Z; successor_pk : list Z;
  engram_flush_id : list Z; probe_digest_id : list Z; token_map_id : list Z; invariant_ids : list (list Z) }.
Definition floor_invariant (s : GEN_SUCC_MANIFEST) : list Z := getz (invariant_ids s) GEN_INV_FLOOR [].

(** [floor_head] is the answer of [law_floor_head_id]: the head of the floor
    chain when the chain verifies. *)
Definition compat_ota_accept_gen (allow : list (list Z)) (m : option SIGN_MANIFEST) (actual_id : option (list Z)) (running_ver : Z)
    (succ : option GEN_SUCC_MANIFEST) (my_archspec_id : option (list Z)) (floor_head : option (list Z)) : Z :=
  let r := compat_ota_accept allow m actual_id running_ver in
  if negb (r =? OTA_ACCEPT) then r
  else match succ, my_archspec_id with
  | Some s, Some my =>
      if negb (sg_eq (predecessor_archspec_id s) my) then OTA_REJECT_PREDECESSOR
      else match floor_head with
      | None => OTA_REJECT_FLOOR
      | Some fl => if sg_eq (floor_invariant s) fl then OTA_ACCEPT else OTA_REJECT_FLOOR
      end
  | _, _ => OTA_REJECT_BADARG
  end.

(** ** Facts *)

Lemma sg_eq_true a b : sg_eq a b = true <-> a = b.
Proof. apply bool_decide_eq_true. Qed.

Lemma allow_has_spec pk allow : sign_allow_has pk allow = true <-> pk ∈ allow.
Proof.
  unfold sign_allow_has. rewrite existsb_exists. setoid_rewrite <- list_elem_of_In. setoid_rewrite sg_eq_true. split; [by intros (x & Hx & ->)|by exists pk].
Qed.

(** The table: bounded, without doubles. *)
Definition allow_ok (allow : list (list Z)) : Prop := NoDup allow /\ lenz allow <= SIGN_ALLOWLIST_MAX.

Lemma allow_add_spec pk allow : allow_ok allow ->
  let '(r, allow') := sign_allow_add pk allow in
  allow_ok allow' /\ (forall q, q ∈ allow -> q ∈ allow') /\ (forall q, q ∈ allow' -> q ∈ allow \/ q = pk) /\
  (r = 1 <-> pk ∈ allow') /\ (r = 0 <-> lenz allow = SIGN_ALLOWLIST_MAX /\ pk ∉ allow).
Proof.
  intros [Hd Hl]. unfold sign_allow_add. pose proof (allow_has_spec pk allow) as Hs. destruct (sign_allow_has pk allow).
  - assert (Hin : pk ∈ allow) by (by apply Hs). split; [done|]. split; [done|]. split; [by auto|]. split; [by split|]. split; [done|by intros [_ ?]].
  - assert (Hn : pk ∉ allow) by (intros Hp; apply Hs in Hp; discriminate Hp).
    destruct (Z.leb_spec SIGN_ALLOWLIST_MAX (lenz allow)).
    + split; [done|]. split; [done|]. split; [by auto|]. split; [by split|]. split; [|done]. intros _. split; [lia|done].
    + split; [split; [|unfold lenz in *; rewrite length_app; cbn [length]; lia]|split; [|split; [|split]]].
      * apply list.NoDup_app. split_and!; [done| |apply NoDup_singleton]. intros x Hx Hx'. apply list_elem_of_singleton in Hx' as ->. done.
      * intros q Hq. apply elem_of_app. by left.
      * intros q Hq. apply elem_of_app in Hq as [Hq|Hq]; [by left|]. apply list_elem_of_singleton in Hq as ->. by right.
      * split; [intros _; apply elem_of_app; right; by apply list_elem_of_singleton|done].
      * split; [discriminate|intros [E _]; lia].
Qed.

(** The signed bytes determine the id and the version. *)
Lemma body_inj id id' v v' : length id = length id' -> is_u32 v -> is_u32 v' ->
  sign_manifest_body id v = sign_manifest_body id' v' -> id = id' /\ v = v'.
Proof.
  intros Hl Hv Hv' E. unfold sign_manifest_body in E. apply app_inj_1 in E as [-> E]; [|done]. split; [done|].
  assert (E4 : le 4 v = le 4 v') by exact E. apply (f_equal of_le) in E4. rewrite !of_le_le in E4. change (2 ^ (8 * Z.of_nat 4)) with (2 ^ 32) in E4.
  unfold is_u32 in *. rewrite !Z.mod_small in E4 by lia. done.
Qed.

(** The manifest of an artifact, signed and adopted: the three gates. *)
Record attested (allow : list (list Z)) (m : SIGN_MANIFEST) (id : list Z) : Prop := {
  at_head : m_magic m = SIGN_MANIFEST_MAGIC /\ m_version m = SIGN_MANIFEST_VER;
  at_id : artifact_id m = id;
  at_sig : sig_verify (m_sig m) (sign_manifest_body id (artifact_ver m)) (signer_pk m) <> 0;
  at_signer : signer_pk m ∈ allow }.

Lemma manifest_verify_spec allow m id :
  sign_manifest_verify allow (Some m) (Some id) = 1 /\ attested allow m id \/
  sign_manifest_verify allow (Some m) (Some id) = 0 /\ ~ attested allow m id.
Proof.
  unfold sign_manifest_verify. destruct (Z.eqb_spec (m_magic m) SIGN_MANIFEST_MAGIC); cbn [negb orb]; [|right; split; [done|by intros [[? _] _ _ _]]].
  destruct (Z.eqb_spec (m_version m) SIGN_MANIFEST_VER); cbn [negb orb]; [|right; split; [done|by intros [[_ ?] _ _ _]]].
  pose proof (sg_eq_true (artifact_id m) id) as Hid. destruct (sg_eq _ _); cbn [negb]; [|right; split; [done|intros [_ E _ _]; apply Hid in E; discriminate E]].
  assert (E : artifact_id m = id) by (by apply Hid). rewrite E. unfold sign_verify.
  destruct (Z.eqb_spec (sig_verify (m_sig m) (sign_manifest_body id (artifact_ver m)) (signer_pk m)) 0) as [Ev|Ev]; cbn [Z.eqb]; [right; split; [done|by intros [_ _ ? _]]|].
  change (1 =? 0) with false. cbv iota. pose proof (allow_has_spec (signer_pk m) allow) as Ha. destruct (sign_allow_has _ _).
  - left. split; [done|]. split; [done|done|exact Ev|by apply Ha].
  - right. split; [done|]. intros [_ _ _ Hin]. apply Ha in Hin. discriminate Hin.
Qed.

(** C23: an update passes the gates exactly when all of them hold, and the verdict
    names the first that does not. A generation is accepted exactly when its
    manifest has the magic and version of the format, names the bytes that are
    there, carries a signature over that name and its version that verifies under
    a signer this node adopted, its version is above the running one, and its
    succession manifest names this node's architecture as predecessor and the head
    of this node's verified floor. *)
Theorem gates_conjoin (allow : list (list Z)) (m : SIGN_MANIFEST) (id : list Z) (running : Z) (s : GEN_SUCC_MANIFEST) (my : list Z) (fl : option (list Z)) :
  let verdict := compat_ota_accept_gen allow (Some m) (Some id) running (Some s) (Some my) fl in
  (verdict = OTA_ACCEPT <-> attested allow m id /\ running < artifact_ver m /\ predecessor_archspec_id s = my /\ fl = Some (floor_invariant s)) /\
  (verdict = OTA_REJECT_SIG <-> ~ attested allow m id) /\
  (verdict = OTA_REJECT_DOWNGRADE <-> attested allow m id /\ artifact_ver m <= running) /\
  (verdict = OTA_REJECT_PREDECESSOR <-> attested allow m id /\ running < artifact_ver m /\ predecessor_archspec_id s <> my) /\
  (verdict = OTA_REJECT_FLOOR <-> attested allow m id /\ running < artifact_ver m /\ predecessor_archspec_id s = my /\ fl <> Some (floor_invariant s)).
Proof.
  cbv zeta. unfold compat_ota_accept_gen, compat_ota_accept, ota_legal_successor.
  destruct (manifest_verify_spec allow m id) as [[-> Ha]|[-> Ha]].
  2:{ change (0 =? 0) with true. cbv iota. change (OTA_REJECT_SIG =? OTA_ACCEPT) with false. cbn [negb]. split_and!; split; try done; tauto. }
  change (1 =? 0) with false. cbv iota. destruct (Z.ltb_spec running (artifact_ver m)).
  2:{ change (OTA_REJECT_DOWNGRADE =? OTA_ACCEPT) with false. cbn [negb]. split_and!; split; try done; try tauto; intros; destruct_and?; lia. }
  change (OTA_ACCEPT =? OTA_ACCEPT) with true. cbn [negb]. pose proof (sg_eq_true (predecessor_archspec_id s) my) as Hp. destruct (sg_eq _ my); cbn [negb].
  2:{ assert (predecessor_archspec_id s <> my) by (intros E; apply Hp in E; discriminate E). split_and!; split; try done; try tauto; intros; destruct_and?; lia. }
  assert (predecessor_archspec_id s = my) by (by apply Hp). destruct fl as [fl|].
  - pose proof (sg_eq_true (floor_invariant s) fl) as Hf. destruct (sg_eq _ fl).
    + assert (Some fl = Some (floor_invariant s)) by (f_equal; symmetry; by apply Hf). split_and!; split; try done; try tauto; intros; destruct_and?; try lia; try done.
    + assert (Some fl <> Some (floor_invariant s)) by (intros [= E]; symmetry in E; apply Hf in E; discriminate E).
      split_and!; split; try done; try tauto; intros; destruct_and?; try lia; try done.
  - split_and!; split; try done; try tauto; intros; destruct_and?; try lia; try done.
Qed.

(** The succession manifest is read beside the signed one: what the signature
    covers does not depend on it, and the successor's key and the rest of it can
    be exchanged. *)
Lemma succ_unbound allow m id running s s' my fl :
  compat_ota_accept_gen allow (Some m) (Some id) running (Some s) (Some my) fl = OTA_ACCEPT ->
  predecessor_archspec_id s' = predecessor_archspec_id s -> floor_invariant s' = floor_invariant s ->
  compat_ota_accept_gen allow (Some m) (Some id) running (Some s') (Some my) fl = OTA_ACCEPT.
Proof. unfold compat_ota_accept_gen. by intros Hacc -> ->. Qed.
End sign.
