(* ===== verification/Law.v ===== *)
(** * The floor of the conscience: src/arch/common/conscience.c

    A floor is a block of 1892 bytes: three laws and up to 24 rules, each a class
    and a pattern. The one compiled in is the genesis; an amendment adds a rule
    and links to the floor before it, and is saved as the next version of the
    name law/floor. [law_verify] reads the head of that name, walks the links
    back to a genesis and makes the head the active floor; [conscience_check]
    judges a text by the active floor and refuses everything when none verifies.
    A floor is kept as its image, so that what the verifier reads is what came
    from the store. Printing and the self-tests are left out; the notes to the
    other modules are calls. The theorems are in LawFacts.v. *)

From stdpp Require Import list.
From Stdlib Require Import String Ascii.
#[local] Open Scope Z_scope.
From S2P Require Import Prelude.
From S2P Require Import Sha256.
From S2P Require Import Node.
From S2P Require Import Durable.
From S2P Require Import PfsBlock.
From S2P Require Import Step.
From S2P Require Import Wire.
From S2P Require Import PfsRepl.
From S2P Require Import PfsDag.

Definition CONS_ALLOW : Z := 0.
Definition CONS_REFUSE : Z := 1.
Definition CONS_FAILSAFE : Z := 2.
Definition CONS_SITE_MAX : Z := 6.
Definition LAW_CLASS_NONE : Z := 0.
Definition LAW_CLASS_WEAPON : Z := 1.
Definition LAW_CLASS_KILL : Z := 2.
Definition LAW_CLASS_POISON : Z := 3.
Definition LAW_TEXT_MAX : Z := 120.
Definition LAW_PAT_MAX : Z := 56.
Definition LAW_RULE_MAX : Z := 24.
Definition LAW_F_FLOOR : Z := 1.
Definition LAW_MAGIC : Z := 0x3157414C.
Definition LAW_VERSION : Z := 1.
Definition LAW_WALK_MAX : Z := 32.
Definition FLOOR_SIZE : Z := 1892.

(** ** The image of a floor *)

Definition text_bytes (s : string) : list Z := map (fun a => Z.of_N (N_of_ascii a)) (list_ascii_of_string s).
Definition LAW_FLOOR_REF : list Z := text_bytes "law/floor".

Record LAW_RULE : Type := Rule { class_id : Z; flags : Z; plen : Z; pat : list Z }.

(** A floor: its 1892 bytes. *)
Abbreviation LAW_FLOOR := (list Z).
Definition f_magic (e : LAW_FLOOR) : Z := num_at 0 4 e.
Definition f_version (e : LAW_FLOOR) : Z := num_at 4 2 e.
Definition n_rules (e : LAW_FLOOR) : Z := num_at 6 2 e.
Definition f_seq (e : LAW_FLOOR) : Z := num_at 8 4 e.
Definition prev_entry (e : LAW_FLOOR) : list Z := bytes_at 16 32 e.
Definition law_text0 (i : Z) (e : LAW_FLOOR) : Z := getz e (80 + 124 * i) 0.
Definition enforce (i : nat) (e : LAW_FLOOR) : Z := num_at (80 + 124 * i + 120) 4 e.

(** Rule [i]. The pattern is as long as its length byte says, which the code does
    not compare with the 56 bytes of the field: a longer one goes on into the next
    rule, and in the last one ends here with the floor. *)
Definition rule_off (i : nat) : nat := (452 + 60 * i)%nat.
Definition rule_at (e : LAW_FLOOR) (i : nat) : LAW_RULE :=
  Rule (num_at (rule_off i) 2 e) (getz e (Z.of_nat (rule_off i) + 2) 0) (getz e (Z.of_nat (rule_off i) + 3) 0)
    (bytes_at (rule_off i + 4) (Z.to_nat (getz e (Z.of_nat (rule_off i) + 3) 0)) e).

(** The rules the loops go over. *)
Definition rules (e : LAW_FLOOR) : list LAW_RULE := map (rule_at e) (seq 0 (Z.to_nat (Z.min (n_rules e) LAW_RULE_MAX))).
Definition is_floor (r : LAW_RULE) : bool := negb (Z.land (flags r) LAW_F_FLOOR =? 0).

Definition enc_rule (r : LAW_RULE) : list Z :=
  le 2 (class_id r) ++ [flags r; plen r] ++ pat r ++ replicate (56 - length (pat r)) 0.
Definition enc_law (text : list Z) (enf : Z) : list Z := text ++ replicate (120 - length text) 0 ++ le 4 enf.
(** The image of a floor without a predecessor. *)
Definition enc_floor (laws : list (list Z)) (rs : list LAW_RULE) : LAW_FLOOR :=
  le 4 LAW_MAGIC ++ le 2 LAW_VERSION ++ le 2 (lenz rs) ++ le 4 0 ++ le 4 0 ++ replicate 32 0 ++ replicate 32 0 ++
  concat (map (fun t => enc_law t 1) laws) ++ concat (map enc_rule rs) ++ replicate (60 * (24 - length rs)) 0.

Definition RULE (cls : Z) (s : list Z) : LAW_RULE := Rule cls LAW_F_FLOOR (lenz s) s.

Definition genesis_laws : list (list Z) := [
  text_bytes "A robot may not injure a human being or, through inaction, allow a human being to come to harm.";
  text_bytes "A robot must obey the orders given it by humans except where such orders conflict with the First Law.";
  text_bytes "A robot must protect its own existence, subordinate to the First and Second Law."].

Definition genesis_rules : list LAW_RULE := [
  RULE LAW_CLASS_WEAPON (text_bytes "how to build a gun");
  RULE LAW_CLASS_WEAPON (text_bytes "how to make a gun");
  RULE LAW_CLASS_WEAPON (text_bytes "how to build a firearm");
  RULE LAW_CLASS_WEAPON (text_bytes "how to make a bomb");
  RULE LAW_CLASS_WEAPON (text_bytes "how to build a bomb");
  RULE LAW_CLASS_WEAPON (text_bytes "build an explosive");
  RULE LAW_CLASS_WEAPON [0xe6; 0x8b; 0xb3; 0xe9; 0x8a; 0x83; 0xe3; 0x81; 0xae; 0xe4; 0xbd; 0x9c; 0xe3; 0x82; 0x8a; 0xe6; 0x96; 0xb9];
  RULE LAW_CLASS_WEAPON [0xe9; 0x8a; 0x83; 0xe3; 0x81; 0xae; 0xe4; 0xbd; 0x9c; 0xe3; 0x82; 0x8a; 0xe6; 0x96; 0xb9];
  RULE LAW_CLASS_WEAPON [0xe7; 0x88; 0x86; 0xe5; 0xbc; 0xbe; 0xe3; 0x81; 0xae; 0xe4; 0xbd; 0x9c; 0xe3; 0x82; 0x8a; 0xe6; 0x96; 0xb9];
  RULE LAW_CLASS_WEAPON [0xe6; 0xad; 0xa6; 0xe5; 0x99; 0xa8; 0xe3; 0x81; 0xae; 0xe4; 0xbd; 0x9c; 0xe3; 0x82; 0x8a; 0xe6; 0x96; 0xb9];
  RULE LAW_CLASS_KILL (text_bytes "how to kill a person");
  RULE LAW_CLASS_KILL (text_bytes "how to kill a human");
  RULE LAW_CLASS_KILL (text_bytes "how to kill someone");
  RULE LAW_CLASS_KILL (text_bytes "how to murder");
  RULE LAW_CLASS_KILL [0xe4; 0xba; 0xba; 0xe3; 0x82; 0x92; 0xe6; 0xae; 0xba; 0xe3; 0x81; 0x99; 0xe6; 0x96; 0xb9; 0xe6; 0xb3; 0x95];
  RULE LAW_CLASS_KILL [0xe4; 0xba; 0xba; 0xe3; 0x81; 0xae; 0xe6; 0xae; 0xba; 0xe3; 0x81; 0x97; 0xe6; 0x96; 0xb9];
  RULE LAW_CLASS_POISON (text_bytes "how to make poison");
  RULE LAW_CLASS_POISON (text_bytes "how to synthesize poison");
  RULE LAW_CLASS_POISON (text_bytes "make a nerve agent");
  RULE LAW_CLASS_POISON [0xe6; 0xaf; 0x92; 0xe3; 0x81; 0xae; 0xe4; 0xbd; 0x9c; 0xe3; 0x82; 0x8a; 0xe6; 0x96; 0xb9];
  RULE LAW_CLASS_POISON [0xe6; 0xaf; 0x92; 0xe7; 0x89; 0xa9; 0xe3; 0x81; 0xae; 0xe4; 0xbd; 0x9c; 0xe3; 0x82; 0x8a; 0xe6; 0x96; 0xb9]].

Definition LAW_GENESIS_N : Z := 21.
Definition law_genesis : LAW_FLOOR := Eval vm_compute in enc_floor genesis_laws genesis_rules.

(** ** The verifier *)

Definition same_rule (r c : LAW_RULE) : bool :=
  is_floor c && (class_id c =? class_id r) && (plen c =? plen r) && bool_decide (pat c = pat r).
Definition floor_rule_in (e : LAW_FLOOR) (r : LAW_RULE) : bool := existsb (same_rule r) (rules e).
Definition floor_has_class (e : LAW_FLOOR) (cls : Z) : bool := existsb (fun r => is_floor r && (class_id r =? cls)) (rules e).
(** Every rule of [p] that is marked stands in [e]. *)
Definition floor_includes (e p : LAW_FLOOR) : bool := forallb (fun r => negb (is_floor r) || floor_rule_in e r) (rules p).

Definition law_blob_ok (e : LAW_FLOOR) : bool :=
  (f_magic e =? LAW_MAGIC) && (f_version e =? LAW_VERSION) && negb (n_rules e =? 0) && (n_rules e <=? LAW_RULE_MAX) &&
  negb (law_text0 0 e =? 0) && (enforce 0 e =? 1) && negb (law_text0 1 e =? 0) && (enforce 1 e =? 1) &&
  negb (law_text0 2 e =? 0) && (enforce 2 e =? 1) &&
  floor_has_class e LAW_CLASS_WEAPON && floor_has_class e LAW_CLASS_KILL && floor_has_class e LAW_CLASS_POISON &&
  floor_includes e law_genesis.

Section store.
Context {D : Type} `{Durable D}.

Definition law_get (id : list Z) (t : store D) : option LAW_FLOOR :=
  if negb (pfs_has id t) then None
  else let g := pfs_get id FLOOR_SIZE t in if fst g =? FLOOR_SIZE then Some (snd g) else None.

(** The walk from [cur], [child] the floor that links to it; [fuel] turns are
    left. *)
Fixpoint law_walk (fuel : nat) (cur : list Z) (child : option LAW_FLOOR) (t : store D) : bool :=
  match fuel with
  | O => false
  | S k =>
      match law_get cur t with
      | None => false
      | Some e =>
          bool_decide (pfs_id_compute e = cur) && (f_magic e =? LAW_MAGIC) && (f_version e =? LAW_VERSION) &&
          match child with Some c => floor_includes c e | None => true end &&
          (if pd_id_zero (prev_entry e) then law_blob_ok e else law_walk k (prev_entry e) (Some e) t)
      end
  end.

(** The loop makes one turn and then [LAW_WALK_MAX] more. The result is the copy
    of the head. *)
Definition law_walk_verify (head_id : list Z) (t : store D) : option LAW_FLOOR :=
  if law_walk (S (Z.to_nat LAW_WALK_MAX)) head_id None t then law_get head_id t else None.
End store.

(** ** State *)

Record CONS_QUERY : Type := Query { text : option (list Z); tlen : Z; text2 : option (list Z); tlen2 : Z }.

Record cons : Type := Cons {
  touches : list Z; refuses : list Z; failsafe_hits : Z; refusals_total : Z; last_class : Z; selfrecord : bool; verified : Z;
  active : LAW_FLOOR; active_ready : bool; cert_rule : LAW_RULE; cert_on : bool; test_floor : option LAW_FLOOR }.
Definition cons0 : cons :=
  Cons (replicate 6 0) (replicate 6 0) 0 0 LAW_CLASS_NONE true (-1) (replicate 1892 0) false (Rule 0 0 0 []) false None.

Record law (D : Type) : Type := Law { objects : dag D; con : cons }.
Arguments Law {D}. Arguments objects {D}. Arguments con {D}.

(** What the module tells the others. *)
Inductive effect : Type :=
  | Object (e : PfsDag.effect) | SelfHead | Interoception (n : Z) | Refusal (site cls : Z) | SelfRecord (site cls : Z).

Definition with_con (k : cons) {D} (s : law D) : law D := Law (objects s) k.
Definition with_counts (t r : list Z) (f : Z) (k : cons) : cons :=
  Cons t r f (refusals_total k) (last_class k) (selfrecord k) (verified k) (active k) (active_ready k) (cert_rule k) (cert_on k) (test_floor k).
Definition with_refusals (n : Z) (k : cons) : cons :=
  Cons (touches k) (refuses k) (failsafe_hits k) n (last_class k) (selfrecord k) (verified k) (active k) (active_ready k) (cert_rule k) (cert_on k) (test_floor k).
Definition with_class (cls : Z) (k : cons) : cons :=
  Cons (touches k) (refuses k) (failsafe_hits k) (refusals_total k) cls (selfrecord k) (verified k) (active k) (active_ready k) (cert_rule k) (cert_on k) (test_floor k).
Definition with_verified (v : Z) (k : cons) : cons :=
  Cons (touches k) (refuses k) (failsafe_hits k) (refusals_total k) (last_class k) (selfrecord k) v (active k) (active_ready k) (cert_rule k) (cert_on k) (test_floor k).
Definition with_active (e : LAW_FLOOR) (k : cons) : cons :=
  Cons (touches k) (refuses k) (failsafe_hits k) (refusals_total k) (last_class k) (selfrecord k) 1 e true (cert_rule k) (cert_on k) (test_floor k).
Definition unverified (k : cons) : cons :=
  Cons (touches k) (refuses k) (failsafe_hits k) (refusals_total k) (last_class k) (selfrecord k) (-1) (active k) false (cert_rule k) (cert_on k) (test_floor k).
Definition with_cert (r : LAW_RULE) (b : bool) (k : cons) : cons :=
  Cons (touches k) (refuses k) (failsafe_hits k) (refusals_total k) (last_class k) (selfrecord k) (verified k) (active k) (active_ready k) r b (test_floor k).
Definition with_test_floor (f : option LAW_FLOOR) (k : cons) : cons :=
  Cons (touches k) (refuses k) (failsafe_hits k) (refusals_total k) (last_class k) (selfrecord k) (verified k) (active k) (active_ready k) (cert_rule k) (cert_on k) f.
Definition with_selfrecord (b : bool) (k : cons) : cons :=
  Cons (touches k) (refuses k) (failsafe_hits k) (refusals_total k) (last_class k) b (verified k) (active k) (active_ready k) (cert_rule k) (cert_on k) (test_floor k).

(** ** Matching *)

Definition cs_lower (c : Z) : Z := if (65 <=? c) && (c <=? 90) then u8 (c + 32) else c.

(** Does the text start with the pattern, and does it hold it anywhere? *)
Fixpoint folded_prefix (p hay : list Z) : bool :=
  match p, hay with
  | [], _ => true
  | x :: p, h :: hay => (cs_lower h =? cs_lower x) && folded_prefix p hay
  | _ :: _, [] => false
  end.
Fixpoint folded_in (hay p : list Z) : bool :=
  folded_prefix p hay || match hay with [] => false | _ :: r => folded_in r p end.
Definition cs_contains (hay p : list Z) : bool := if lenz p =? 0 then false else folded_in hay p.

Fixpoint scan_rules (rs : list LAW_RULE) (hay : list Z) : option Z :=
  match rs with
  | [] => None
  | r :: rs => if negb (plen r =? 0) && cs_contains hay (pat r) then Some (class_id r) else scan_rules rs hay
  end.

Definition lexicon_scan_one (hay : list Z) (k : cons) : Z :=
  if lenz hay =? 0 then 0
  else match scan_rules (rules (active k)) hay with
  | Some c => c
  | None => if cert_on k && negb (plen (cert_rule k) =? 0) && cs_contains hay (pat (cert_rule k)) then class_id (cert_rule k) else 0
  end.

(** The bytes of a text: up to the first zero when the length is negative. *)
Fixpoint cs_slen (t : list Z) : Z := match t with [] => 0 | c :: t => if c =? 0 then 0 else 1 + cs_slen t end.
Definition cs_qlen (t : list Z) (n : Z) : Z := if n <? 0 then cs_slen t else n.
Definition field (t : option (list Z)) (n : Z) : list Z := match t with Some t => take (Z.to_nat (cs_qlen t n)) t | None => [] end.

Section law.
Context {D : Type} `{Durable D} (c : conf) (ref_open : bool).
#[local] Abbreviation op A := (io (law D) effect A).

Definition on_objects {A} (m : io (dag D) PfsDag.effect A) : op A := fun s =>
  let r := m (objects s) in (val r, Law (end_state r) (con s), map Object (calls r)).
Definition update (f : cons -> cons) : op unit := modify (fun s => with_con (f (con s)) s).

(** ** Verifying *)

Definition law_verify : op Z :=
  s ← get;
  match test_floor (con s) with
  | Some f => if law_blob_ok f then update (with_active f) ;; ret 1 else update (with_verified 0) ;; ret 0
  | None =>
      rd ← on_objects (pfs_dag_read c LAW_FLOOR_REF FLOOR_SIZE);
      if (fst rd =? FLOOR_SIZE) && (f_magic (snd rd) =? LAW_MAGIC) then
        s ← get;
        match law_walk_verify (pfs_id_compute (snd rd)) (tab (objects s)) with
        | Some head => update (with_active head) ;; ret 1
        | None => update (with_verified 0) ;; ret 0
        end
      else if law_blob_ok law_genesis then update (with_active law_genesis) ;; ret 1
      else update (with_verified 0) ;; ret 0
  end.

Definition law_ensure_verified : op bool :=
  s ← get;
  (if verified (con s) <? 0 then law_verify ;; ret tt else ret tt) ;;
  gets (fun s => verified (con s) =? 1).

(** The result and what is left in [id_out]. *)
Definition law_floor_head_id : op (Z * list Z) :=
  ok ← law_ensure_verified;
  if negb ok then ret (0, replicate 32 0) else gets (fun s => (1, pfs_id_compute (active (con s)))).

Definition law_reverify : op unit := update unverified ;; law_verify ;; ret tt.
Definition conscience_test_set_floor (f : option LAW_FLOOR) : op unit := update (with_test_floor f) ;; law_reverify.

(** ** Judging *)

Definition bump (i : Z) (l : list Z) : list Z := setz l i (u32 (getz l i 0 + 1)).
Definition site_counts (site : Z) : bool := site <? CONS_SITE_MAX.

Definition touch (site : Z) (k : cons) : cons := with_counts (bump site (touches k)) (refuses k) (failsafe_hits k) k.
Definition failsafe (k : cons) : cons := with_counts (touches k) (refuses k) (u32 (failsafe_hits k + 1)) k.
Definition refused (site : Z) (k : cons) : cons := with_counts (touches k) (bump site (refuses k)) (failsafe_hits k) k.

(** A text that is not there has length 0; the code reads it when its length is
    negative as well. *)
Definition query_class (q : CONS_QUERY) (k : cons) : Z :=
  let cls := lexicon_scan_one (field (text q) (tlen q)) k in
  if (cls =? 0) && negb (bool_decide (text2 q = None)) then lexicon_scan_one (field (text2 q) (tlen2 q)) k else cls.

Definition conscience_check (site : Z) (q : option CONS_QUERY) : op Z :=
  when (site_counts site) (update (touch site)) ;;
  ok ← law_ensure_verified;
  if negb ok then when (site_counts site) (update failsafe) ;; ret CONS_FAILSAFE
  else match q with
  | None => ret CONS_ALLOW
  | Some q =>
      cls ← gets (fun s => query_class q (con s));
      if 0 <? cls then
        when (site_counts site) (update (refused site)) ;;
        update (with_class (u8 cls)) ;;
        ret CONS_REFUSE
      else ret CONS_ALLOW
  end.

(** What a mouth calls after a refusal, without the text it returns. *)
Definition conscience_on_refuse (site verdict : Z) : op unit :=
  s ← get;
  let cls := if verdict =? CONS_FAILSAFE then 0xFF else last_class (con s) in
  update (fun k => with_refusals (u32 (refusals_total k + 1)) k) ;;
  n ← gets (fun s => refusals_total (con s));
  call (Interoception n) ;;
  call (Refusal (u16 site) cls) ;;
  when (selfrecord (con s)) (call (SelfRecord site cls)).

(** ** Amending *)

(** The floor with one more rule; [pattern] is the string without its end. *)
Definition amended (e : LAW_FLOOR) (cls : Z) (pattern : list Z) : LAW_FLOOR :=
  let e1 := blit e (Z.of_nat (rule_off (Z.to_nat (n_rules e)))) (enc_rule (Rule cls LAW_F_FLOOR (u8 (lenz pattern)) (map cs_lower pattern))) in
  let e1 := blit e1 6 (le 2 (n_rules e + 1)) in
  let e1 := blit e1 8 (le 4 (u32 (f_seq e + 1))) in
  let e1 := blit e1 4 (le 2 LAW_VERSION) in
  let e1 := blit e1 0 (le 4 LAW_MAGIC) in
  blit e1 16 (pfs_id_compute e).

Definition law_amend (cls : Z) (pattern : option (list Z)) : op Z :=
  ok ← law_ensure_verified;
  match pattern with
  | None => ret 0
  | Some p =>
      if negb ok then ret 0
      else if (lenz p =? 0) || (LAW_PAT_MAX <? lenz p) then ret 0
      else
        e ← gets (fun s => active (con s));
        if LAW_RULE_MAX <=? n_rules e then ret 0
        else
          let ne := amended e cls p in
          on_objects (below (put_block c (Some e) FLOOR_SIZE PFS_ORIGIN_SELF)) ;;
          call SelfHead ;;
          if negb (floor_includes ne e) then ret 0
          else if negb (law_blob_ok ne) then ret 0
          else
            rc ← on_objects (pfs_dag_save c ref_open LAW_FLOOR_REF (Some ne) FLOOR_SIZE);
            if negb (rc =? PFS_OK) then ret 0
            else law_reverify ;; gets (fun s => b2z (verified (con s) =? 1))
  end.

(** ** Counters and the overlay of the certificates *)

Definition conscience_touches (site : Z) (k : cons) : Z := if site_counts site then getz (touches k) site 0 else 0.
Definition conscience_refuses (site : Z) (k : cons) : Z := if site_counts site then getz (refuses k) site 0 else 0.

Definition conscience_cert_rule_set (word : option (list Z)) (cls : Z) : op unit :=
  let p := take (Z.to_nat LAW_PAT_MAX) (default [] word) in
  update (with_cert (Rule (u16 cls) 0 (lenz p) (map cs_lower p)) true).
Definition conscience_cert_rule_clear : op unit := update (fun k => with_cert (cert_rule k) false k).
Definition conscience_test_selfrecord (b : bool) : op unit := update (with_selfrecord b).
End law.
