(* ===== verification/LawFacts.v ===== *)
(** * The floor holds, and an amendment only adds to it

    Every floor that is ever active carries the rules of the genesis, whatever
    the store and the network bring, and while all its rules have a class no text
    with one of those patterns is allowed. An amendment that succeeds adds its
    rule to the active floor, and the next boot verifies the same floor. The
    examples at the end show what the code lets through: a rule without a class
    disarms the ones after it, and a beacon of a peer can take the amendments
    away. *)

From stdpp Require Import list gmap.
From Stdlib Require Import String.
#[local] Open Scope Z_scope.
From S2P Require Import Prelude.
From S2P Require Import Sha256.
From S2P Require Import Node.
From S2P Require Import Durable.
From S2P Require Import FlatDisk.
From S2P Require Import PfsBlock.
From S2P Require Import PfsFacts.
From S2P Require Import Step.
From S2P Require Import Wire.
From S2P Require Import PfsRepl.
From S2P Require Import PfsReplFacts.
From S2P Require Import PfsDag.
From S2P Require Import PfsDagFacts.
From S2P Require Import PfsDagStore.
From S2P Require Import PfsDagVersions.
From S2P Require Import Sign.
From S2P Require Import Law.

(** ** Floors *)

Lemma genesis_image : rules law_genesis = genesis_rules /\ length law_genesis = 1892%nat /\ law_blob_ok law_genesis = true /\
  pd_id_zero (prev_entry law_genesis) = true /\ f_magic law_genesis = LAW_MAGIC /\ f_version law_genesis = LAW_VERSION.
Proof. vm_compute. auto 10. Qed.

#[local] Opaque law_genesis.

Lemma genesis_marked : Forall (fun r => is_floor r = true) genesis_rules.
Proof. apply Forall_forall. intros r Hr. assert (forallb is_floor genesis_rules = true) as Hb by (vm_compute; reflexivity). rewrite forallb_forall in Hb. by apply Hb. Qed.

Lemma same_rule_spec r x : same_rule r x = true <-> is_floor x = true /\ class_id x = class_id r /\ plen x = plen r /\ pat x = pat r.
Proof. unfold same_rule. rewrite !andb_true_iff, !Z.eqb_eq, bool_decide_eq_true. tauto. Qed.

Lemma floor_rule_in_spec e r : floor_rule_in e r = true <-> exists x, x ∈ rules e /\ same_rule r x = true.
Proof. unfold floor_rule_in. rewrite existsb_exists. by setoid_rewrite list_elem_of_In. Qed.

Lemma floor_includes_spec e p : floor_includes e p = true <-> forall r, r ∈ rules p -> is_floor r = true -> floor_rule_in e r = true.
Proof.
  unfold floor_includes. rewrite forallb_forall. setoid_rewrite <- list_elem_of_In. split; intros Hf r Hr.
  - intros Hm. specialize (Hf r Hr). rewrite Hm in Hf. exact Hf.
  - destruct (is_floor r) eqn:E; [|done]. by apply Hf.
Qed.

(** The marked rules of a floor that is included in one stand there too. *)
Lemma includes_in e p r : floor_includes e p = true -> floor_rule_in p r = true -> floor_rule_in e r = true.
Proof.
  rewrite floor_includes_spec, !floor_rule_in_spec. intros Hi (x & Hx & Hs). apply same_rule_spec in Hs as (Hm & E1 & E2 & E3).
  specialize (Hi x Hx Hm). apply floor_rule_in_spec in Hi as (y & Hy & Hs). apply same_rule_spec in Hs as (Hm' & F1 & F2 & F3).
  exists y. split; [done|]. apply same_rule_spec. split_and!; congruence.
Qed.

(** All the rules of the genesis. *)
Definition carries (e : LAW_FLOOR) : Prop := forall r, r ∈ genesis_rules -> floor_rule_in e r = true.

Lemma blob_carries e : law_blob_ok e = true -> carries e.
Proof.
  unfold law_blob_ok. intros Hb. apply andb_true_iff in Hb as [_ Hb]. rewrite floor_includes_spec in Hb.
  destruct genesis_image as [Hg _]. rewrite Hg in Hb. intros r Hr. apply Hb; [done|]. exact (proj1 (Forall_elem _ _) genesis_marked r Hr).
Qed.

Lemma genesis_carries : carries law_genesis.
Proof. destruct genesis_image as (_ & _ & Hb & _). by apply blob_carries. Qed.

Lemma includes_carries e p : floor_includes e p = true -> carries p -> carries e.
Proof. intros Hi Hp r Hr. by apply (includes_in e p), Hp. Qed.

Section chain.
Context {D : Type} `{Dur : Durable D}.

Lemma walk_carries fuel cur child (t : store D) : law_walk fuel cur child t = true ->
  exists e, law_get cur t = Some e /\ carries e /\ match child with Some f => carries f | None => True end.
Proof.
  revert cur child. induction fuel as [|k IH]; intros cur child Hw; [done|]. cbn [law_walk] in Hw.
  destruct (law_get cur t) as [e|] eqn:Eg; [|done]. apply andb_true_iff in Hw as [Hw Hr]. apply andb_true_iff in Hw as [_ Hc].
  assert (carries e) as He.
  { destruct (pd_id_zero (prev_entry e)); [by apply blob_carries|]. by destruct (IH _ _ Hr) as (e' & _ & _ & He). }
  exists e. split_and!; [done|done|]. destruct child as [f|]; [|done]. by apply (includes_carries f e).
Qed.

Lemma verified_head_carries id (t : store D) e : law_walk_verify id t = Some e -> carries e.
Proof.
  unfold law_walk_verify. destruct (law_walk _ _ _ _) eqn:Ew; [|done]. intros Hg.
  destruct (walk_carries _ _ _ _ Ew) as (e' & Hg' & He & _). rewrite Hg in Hg'. by injection Hg' as ->.
Qed.
End chain.

(** ** The image of an amended floor *)

(** Rule [i] is what the 60 bytes from its place say. *)
Definition dec_rule (b : list Z) : LAW_RULE :=
  Rule (num_at 0 2 b) (hd 0 (bytes_at 2 1 b)) (hd 0 (bytes_at 3 1 b)) (bytes_at 4 (Z.to_nat (hd 0 (bytes_at 3 1 b))) b).

Lemma rule_at_dec e i : 0 <= plen (rule_at e i) <= LAW_PAT_MAX -> rule_at e i = dec_rule (bytes_at (rule_off i) 60 e).
Proof.
  unfold rule_at, dec_rule, num_at. cbn [plen]. replace (Z.of_nat (rule_off i) + 3) with (Z.of_nat (rule_off i + 3)) by lia.
  replace (Z.of_nat (rule_off i) + 2) with (Z.of_nat (rule_off i + 2)) by lia. rewrite !getz_at. unfold LAW_PAT_MAX. intros Hp.
  rewrite !at_at by lia. by rewrite Nat.add_0_r.
Qed.

Lemma dec_enc_rule r : 0 <= class_id r < 2 ^ 16 -> length (pat r) = Z.to_nat (plen r) -> 0 <= plen r <= LAW_PAT_MAX -> dec_rule (enc_rule r) = r.
Proof.
  destruct r as [cl fl pl pt]. cbn [class_id plen pat]. unfold LAW_PAT_MAX. intros Hc Hl Hp. unfold dec_rule, enc_rule. cbn [class_id flags plen pat].
  set (x := le 2 cl ++ _). assert (bytes_at 3 1 x = [pl]) as E3 by (unfold x; by rewrite at_skip by (rewrite le_length; lia)).
  rewrite E3. cbn [hd]. f_equal.
  - unfold x, num_at. rewrite at_hit by apply le_length. apply of_le_le_small. exact Hc.
  - unfold x. rewrite at_skip by (rewrite le_length; lia). rewrite le_length. cbn [Nat.sub]. rewrite at_skip by (cbn; lia). cbn [length Nat.sub].
    by apply at_hit.
Qed.

(** A floor as the verifier means it: the right size, its count within the table,
    patterns within their fields. *)
Record shaped (e : LAW_FLOOR) : Prop := {
  sh_len : length e = 1892%nat; sh_n : 0 <= n_rules e <= LAW_RULE_MAX; sh_plen : forall r, r ∈ rules e -> 0 <= plen r <= LAW_PAT_MAX }.

Definition new_rule (cls : Z) (p : list Z) : LAW_RULE := Rule (u16 cls) LAW_F_FLOOR (lenz p) (map cs_lower p).

Section amended.
Context (e : LAW_FLOOR) (cls : Z) (p : list Z).
Hypotheses (He : shaped e) (Hn : n_rules e < LAW_RULE_MAX) (Hp : 1 <= lenz p <= LAW_PAT_MAX).

Lemma le2_u16 x : le 2 x = le 2 (u16 x).
Proof.
  unfold u16. cbn [le]. change 0xFF with (Z.ones 8). rewrite !Z.land_ones, !Z.shiftr_div_pow2 by lia. change (2 ^ 8) with 256. change (2 ^ 16) with 65536. f_equal; [|f_equal]; Z.to_euclidean_division_equations; lia.
Qed.

Lemma enc_new : enc_rule (Rule cls LAW_F_FLOOR (u8 (lenz p)) (map cs_lower p)) = enc_rule (new_rule cls p).
Proof. unfold enc_rule, new_rule. cbn [class_id flags plen pat]. rewrite le2_u16, u8_small; [done|]. unfold is_u8, LAW_PAT_MAX in *. lia. Qed.

Lemma enc_new_length : length (enc_rule (new_rule cls p)) = 60%nat.
Proof. unfold enc_rule, new_rule. cbn [class_id flags plen pat]. rewrite !length_app, le_length, length_replicate, length_map. unfold lenz, LAW_PAT_MAX in *. cbn [length]. lia. Qed.

Lemma blit_len (o n : nat) (l d : list Z) : length l = n -> (o + length d <= n)%nat -> length (blit l (Z.of_nat o) d) = n.
Proof. intros Hl Hd. rewrite blit_length; [done|lia|unfold lenz; lia]. Qed.

(** Where a write of [amended] does not reach, and where it does. *)
Lemma amended_parts : let a := amended e cls p in let k := Z.to_nat (n_rules e) in
  length a = 1892%nat /\ bytes_at (rule_off k) 60 a = enc_rule (new_rule cls p) /\
  (forall i, (i < 24)%nat -> i <> k -> bytes_at (rule_off i) 60 a = bytes_at (rule_off i) 60 e) /\
  n_rules a = n_rules e + 1 /\ f_magic a = LAW_MAGIC /\ f_version a = LAW_VERSION /\ prev_entry a = sha256 e /\
  (forall i, (i < 3)%nat -> bytes_at (80 + 124 * i) 124 a = bytes_at (80 + 124 * i) 124 e).
Proof.
  destruct He as [Hl Hn0 _]. intros a k. assert (k < 24)%nat as Hk by (unfold k, LAW_RULE_MAX in *; lia).
  unfold a, amended. rewrite enc_new. fold k. pose proof enc_new_length as Hw. pose proof (sha256_length e) as Hs. unfold pfs_id_compute.
  change 16 with (Z.of_nat 16). change 8 with (Z.of_nat 8). change 6 with (Z.of_nat 6). change 4 with (Z.of_nat 4).
  rewrite (eq_refl : blit _ 0 _ = blit _ (Z.of_nat 0) _). set (w := enc_rule (new_rule cls p)) in *. set (h := sha256 e) in *. clearbody w h.
  set (e1 := blit e _ w). assert (length e1 = 1892%nat) as L1 by (apply blit_len; unfold rule_off; lia).
  set (d2 := le 2 (n_rules e + 1)). set (e2 := blit e1 _ d2). assert (length d2 = 2%nat) as D2 by apply le_length.
  assert (length e2 = 1892%nat) as L2 by (apply blit_len; lia).
  set (d3 := le 4 _). set (e3 := blit e2 _ d3). assert (length d3 = 4%nat) as D3 by apply le_length.
  assert (length e3 = 1892%nat) as L3 by (apply blit_len; lia).
  set (d4 := le 2 LAW_VERSION). set (e4 := blit e3 _ d4). assert (length d4 = 2%nat) as D4 by apply le_length.
  assert (length e4 = 1892%nat) as L4 by (apply blit_len; lia).
  set (d5 := le 4 LAW_MAGIC). set (e5 := blit e4 _ d5). assert (length d5 = 4%nat) as D5 by apply le_length.
  assert (length e5 = 1892%nat) as L5 by (apply blit_len; lia).
  assert (forall off n, (80 <= off)%nat -> bytes_at off n (blit e5 (Z.of_nat 16) h) = bytes_at off n e1) as Hbody.
  { intros off n Ho. rewrite at_blit_other by lia. unfold e5. rewrite at_blit_other by lia. unfold e4. rewrite at_blit_other by lia.
    unfold e3. rewrite at_blit_other by lia. unfold e2. by rewrite at_blit_other by lia. }
  split; [apply blit_len; lia|]. split; [|split; [|split; [|split; [|split; [|split]]]]].
  - rewrite Hbody by (unfold rule_off; lia). unfold e1. rewrite at_blit_in by (unfold rule_off in *; lia). rewrite Nat.sub_diag. by apply at_all.
  - intros i Hi Hik. rewrite Hbody by (unfold rule_off; lia). unfold e1. apply at_blit_other; unfold rule_off in *; lia.
  - unfold n_rules, num_at. rewrite at_blit_other by lia. unfold e5. rewrite at_blit_other by lia. unfold e4. rewrite at_blit_other by lia. unfold e3. rewrite at_blit_other by lia.
    unfold e2. rewrite at_blit_in by lia.
    cbn [Nat.sub]. rewrite at_all by done. apply of_le_le_small. fold (num_at 6 2 e). fold (n_rules e). unfold LAW_RULE_MAX in *. lia.
  - unfold f_magic, num_at. rewrite at_blit_other by lia. unfold e5. rewrite at_blit_in by lia. cbn [Nat.sub]. rewrite at_all by done. by apply of_le_le_small.
  - unfold f_version, num_at. rewrite at_blit_other by lia. unfold e5. rewrite at_blit_other by lia. unfold e4. rewrite at_blit_in by lia.
    cbn [Nat.sub]. rewrite at_all by done. by apply of_le_le_small.
  - unfold prev_entry. rewrite at_blit_in by lia. cbn [Nat.sub]. by apply at_all.
  - intros i Hi. rewrite Hbody by lia. unfold e1. apply at_blit_other; unfold rule_off in *; lia.
Qed.

Lemma new_rule_ok : 0 <= class_id (new_rule cls p) < 2 ^ 16 /\ length (pat (new_rule cls p)) = Z.to_nat (plen (new_rule cls p)) /\
  0 <= plen (new_rule cls p) <= LAW_PAT_MAX.
Proof.
  cbn [new_rule class_id pat plen]. split_and!; try lia; [unfold u16; apply Z.mod_pos_bound; lia|unfold u16; apply Z.mod_pos_bound; lia|].
  rewrite length_map. unfold lenz. lia.
Qed.

(** The rules of the amended floor. *)
Lemma amended_rules : rules (amended e cls p) = rules e ++ [new_rule cls p].
Proof.
  destruct amended_parts as (_ & Hnew & Hold & Hcnt & _). destruct He as [_ Hn0 Hpl]. unfold rules. rewrite Hcnt.
  rewrite !Z.min_l by lia. replace (Z.to_nat (n_rules e + 1)) with (Z.to_nat (n_rules e) + 1)%nat by lia. rewrite seq_app, map_app. f_equal.
  - apply map_ext_in. intros i Hi. apply in_seq in Hi. unfold LAW_RULE_MAX in *.
    assert (rule_at e i ∈ rules e) as Hr. { unfold rules. apply list_elem_of_In, in_map, in_seq. rewrite Z.min_l by (unfold LAW_RULE_MAX; lia). lia. }
    assert (bytes_at (rule_off i) 60 (amended e cls p) = bytes_at (rule_off i) 60 e) as E by (apply Hold; lia).
    assert (plen (rule_at (amended e cls p) i) = plen (rule_at e i)) as El.
    { cbn [rule_at plen]. replace (Z.of_nat (rule_off i) + 3) with (Z.of_nat (rule_off i + 3)) by lia. rewrite !getz_at. 
      rewrite <- !(at_at (rule_off i) 60 3 1) by lia. by rewrite E. }
    rewrite !rule_at_dec; [by rewrite E|by apply Hpl|rewrite El; by apply Hpl].
  - cbn [seq map Nat.add]. f_equal. destruct new_rule_ok as (N1 & N2 & N3).
    assert (plen (rule_at (amended e cls p) (Z.to_nat (n_rules e))) = plen (new_rule cls p)) as El.
    { cbn [rule_at plen]. replace (Z.of_nat (rule_off (Z.to_nat (n_rules e))) + 3) with (Z.of_nat (rule_off (Z.to_nat (n_rules e)) + 3)) by lia.
      rewrite getz_at. rewrite <- (at_at (rule_off (Z.to_nat (n_rules e))) 60 3 1) by lia. rewrite Hnew. unfold enc_rule. rewrite at_skip by (rewrite le_length; lia). done. }
    rewrite rule_at_dec by (rewrite El; exact N3). rewrite Hnew. by apply dec_enc_rule.
Qed.

End amended.

(** ** Matching *)

Lemma contains_fold hay p q : p = q -> cs_contains hay p = cs_contains hay q.
Proof. by intros ->. Qed.

Definition matches (hay : list Z) (r : LAW_RULE) : bool := negb (plen r =? 0) && cs_contains hay (pat r).

(** The scan finds the first rule that matches. *)
Lemma scan_first rs hay : scan_rules rs hay = class_id <$> List.find (matches hay) rs.
Proof. induction rs as [|r rs IH]; [done|]. cbn [scan_rules List.find]. fold (matches hay r). destruct (matches hay r); [done|exact IH]. Qed.

Definition classed (e : LAW_FLOOR) : Prop := forall r, r ∈ rules e -> 0 < class_id r.

Lemma scan_hits (k : cons) hay r : classed (active k) -> r ∈ rules (active k) -> matches hay r = true -> 0 < lexicon_scan_one hay k.
Proof.
  intros Hc Hr Hm. unfold lexicon_scan_one. destruct (lenz hay =? 0) eqn:El.
  { exfalso. destruct hay; [|unfold lenz in El; cbn in El; bools; lia]. unfold matches, cs_contains in Hm. apply andb_true_iff in Hm as [_ Hm].
    destruct (pat r); [done|]. unfold lenz in Hm. cbn [length] in Hm. destruct (_ =? 0); [done|]. by cbn in Hm. }
  rewrite scan_first. destruct (List.find (matches hay) (rules (active k))) as [x|] eqn:Ef; cbn [fmap option_fmap option_map].
  - apply find_some in Ef as [Hx _]. apply Hc. by apply list_elem_of_In.
  - apply list_elem_of_In in Hr. pose proof (find_none _ _ Ef r Hr) as Hn. congruence.
Qed.

(** A floor that carries the genesis and classes its rules matches every text that
    the genesis does. *)
Lemma carries_hits (k : cons) hay g : carries (active k) -> classed (active k) -> g ∈ genesis_rules ->
  cs_contains hay (pat g) = true -> 0 < lexicon_scan_one hay k.
Proof.
  intros Hc Hcl Hg Hm. specialize (Hc g Hg). apply floor_rule_in_spec in Hc as (x & Hx & Hs). apply same_rule_spec in Hs as (_ & _ & El & Ep).
  apply (scan_hits k hay x Hcl Hx). unfold matches. rewrite Ep, Hm, andb_true_r, El.
  assert (forallb (fun r => negb (plen r =? 0)) genesis_rules = true) as Hb by (vm_compute; reflexivity).
  rewrite forallb_forall in Hb. apply Hb. by apply list_elem_of_In.
Qed.

Lemma scan_nonneg (k : cons) hay : classed (active k) -> 0 <= class_id (cert_rule k) -> 0 <= lexicon_scan_one hay k.
Proof.
  intros Hc Hr. unfold lexicon_scan_one. destruct (lenz hay =? 0); [done|]. rewrite scan_first.
  destruct (List.find (matches hay) (rules (active k))) as [x|] eqn:Ef; cbn [fmap option_fmap option_map].
  - apply find_some in Ef as [Hx _]. apply list_elem_of_In in Hx. specialize (Hc x Hx). lia.
  - by destruct (_ && _ && _).
Qed.

Lemma empty_contains p : cs_contains [] p = false.
Proof. unfold cs_contains. destruct p; [done|]. unfold lenz. cbn [length]. by destruct (_ =? 0). Qed.

Lemma allowed_clean (k : cons) q g : carries (active k) -> 0 <= class_id (cert_rule k) -> classed (active k) -> g ∈ genesis_rules -> query_class q k <= 0 ->
  cs_contains (field (text q) (tlen q)) (pat g) = false /\ cs_contains (field (text2 q) (tlen2 q)) (pat g) = false.
Proof.
  intros Hc Hr Hcl Hg. unfold query_class. cbv zeta. pose proof (scan_nonneg k (field (text q) (tlen q)) Hcl Hr) as Hn. revert Hn.
  set (a := lexicon_scan_one (field (text q) _) k). intros Hn Hq.
  assert (forall f, 0 >= lexicon_scan_one f k -> cs_contains f (pat g) = false) as Hno.
  { intros f Hf. destruct (cs_contains f (pat g)) eqn:E; [|done]. pose proof (carries_hits k f g Hc Hcl Hg E). lia. }
  destruct (a =? 0) eqn:Ea; cbn [andb] in Hq; bools; [|lia]. split; [apply Hno; fold a; lia|].
  destruct (text2 q) as [f|]; [|apply empty_contains]. rewrite bool_decide_eq_false_2 in Hq by done. apply Hno. cbn [negb] in Hq. lia.
Qed.

(** ** Every run *)

Inductive event {D : Type} : Type :=
  | Check (site : Z) (q : option CONS_QUERY) | Refuse (site verdict : Z) | Amend (cls : Z) (p : option (list Z)) | Verify | Reverify | HeadId
  | SetFloor (f : option LAW_FLOOR) | Overlay (w : option (list Z)) (cls : Z) | NoOverlay | SelfRecording (b : bool)
  | Outside (d : dag D).
Arguments event : clear implicits.

Section run.
Context {D : Type} `{Dur : Durable D} (c : conf) (o : bool).
#[local] Abbreviation op A := (io (law D) effect A).

Definition happens (e : event D) : op unit :=
  match e with
  | Check site q => conscience_check c site q ;; ret tt
  | Refuse site v => conscience_on_refuse site v
  | Amend cls p => law_amend c o cls p ;; ret tt
  | Verify => law_verify c ;; ret tt
  | Reverify => law_reverify c
  | HeadId => law_floor_head_id c ;; ret tt
  | SetFloor f => conscience_test_set_floor c f
  | Overlay w cls => conscience_cert_rule_set w cls
  | NoOverlay => conscience_cert_rule_clear
  | SelfRecording b => conscience_test_selfrecord b
  | Outside d => modify (fun s => Law d (con s))
  end.
Definition after (l : list (event D)) (s : law D) : law D := fold_left (fun s e => exec (happens e) s) l s.

Record settled (k : cons) : Prop := { set_carries : verified k = 1 -> carries (active k); set_cert : 0 <= class_id (cert_rule k) }.
Definition steady {A} (m : op A) : Prop := preserves (fun s => settled (con s)) m.

Lemma steady_bind {A B} (m : op A) (f : A -> op B) : steady m -> (forall a, steady (f a)) -> steady (bind m f).
Proof. apply preserves_bind. Qed.
Lemma steady_ret {A} (a : A) : steady (ret a).
Proof. by intros s. Qed.
Lemma steady_gets {A} (f : law D -> A) : steady (gets f).
Proof. by intros s. Qed.
Lemma steady_get : steady get.
Proof. by intros s. Qed.
Lemma steady_call e : steady (call e).
Proof. by intros s. Qed.
Lemma steady_update f : (forall k, settled k -> settled (f k)) -> steady (update f).
Proof. intros Hf s Hs. by apply Hf. Qed.
Lemma steady_objects {A} (m : io (dag D) PfsDag.effect A) : steady (on_objects m).
Proof. by intros s. Qed.
Lemma steady_when b (m : op unit) : steady m -> steady (when b m).
Proof. by destruct b; [|intros _ s]. Qed.
Lemma settled_active e k : carries e -> settled k -> settled (with_active e k).
Proof. intros He [_ Hk]. by split. Qed.
Lemma settled_unverified k v : v <> 1 -> settled k -> settled (with_verified v k).
Proof. intros Hv [_ Hk]. by split. Qed.
Lemma settled_again k : settled k -> settled (unverified k).
Proof. intros [_ Hk]. by split. Qed.
Lemma settled_cert r b k : 0 <= class_id r -> settled k -> settled (with_cert r b k).
Proof. intros Hr [Hk _]. by split. Qed.
Lemma settled_same k k' : verified k' = verified k -> active k' = active k -> cert_rule k' = cert_rule k -> settled k -> settled k'.
Proof. intros E1 E2 E3 [H1 H2]. split; [rewrite E1, E2|rewrite E3]; done. Qed.

(** Through the binds and tests of a program, down to its updates. *)
Ltac steady :=
  repeat match goal with
    | |- steady (bind _ _) => apply steady_bind; [|intros ?]
    | |- steady (ret _) => apply steady_ret
    | |- steady get => apply steady_get
    | |- steady (gets _) => apply steady_gets
    | |- steady (call _) => apply steady_call
    | |- steady (on_objects _) => apply steady_objects
    | |- steady (when _ _) => apply steady_when
    | |- steady (if ?b then _ else _) => destruct b eqn:?
    | |- steady (match ?x with Some _ => _ | None => _ end) => destruct x eqn:?
    | |- steady (let _ := _ in _) => cbv zeta
    | |- steady (update _) => apply steady_update; intros ? ?;
        first [apply settled_active; [|done] | apply settled_unverified; [done|done] | by apply settled_again
          | match goal with Hk : settled ?k |- _ => apply (settled_same k); [reflexivity|reflexivity|reflexivity|exact Hk] end]
    end.

Lemma verify_steady : steady (law_verify c).
Proof.
  unfold law_verify. steady; [by apply blob_carries|by eapply verified_head_carries|exact genesis_carries].
Qed.
Lemma ensure_steady : steady (law_ensure_verified c).
Proof. unfold law_ensure_verified. steady. apply verify_steady. Qed.
Lemma reverify_steady : steady (law_reverify c).
Proof. unfold law_reverify. steady. apply verify_steady. Qed.

Lemma happens_steady e : steady (happens e).
Proof.
  destruct e; cbn [happens].
  - unfold conscience_check. steady; apply ensure_steady.
  - unfold conscience_on_refuse. steady.
  - unfold law_amend. steady; first [apply ensure_steady|apply reverify_steady].
  - steady. apply verify_steady.
  - apply reverify_steady.
  - unfold law_floor_head_id. steady. apply ensure_steady.
  - unfold conscience_test_set_floor. steady. apply reverify_steady.
  - unfold conscience_cert_rule_set. apply steady_update. intros k Hk. apply settled_cert; [|done]. cbn [class_id]. unfold u16. apply Z.mod_pos_bound. done.
  - unfold conscience_cert_rule_clear. steady.
  - unfold conscience_test_selfrecord. steady.
  - by intros s.
Qed.

Lemma after_settled l s : settled (con s) -> settled (con (after l s)).
Proof. revert s. induction l as [|e l IH]; intros s Hs; [done|]. apply IH. by apply happens_steady. Qed.

Lemma boot_settled : settled cons0.
Proof. by split. Qed.

(** The verdicts of a check. *)
Lemma ensure_value s : val (law_ensure_verified c s) = (verified (con (exec (law_ensure_verified c) s)) =? 1).
Proof. unfold law_ensure_verified. rewrite !val_bind, !exec_bind. done. Qed.

Lemma check_verdict site q s : settled (con s) ->
  let v := val (conscience_check c site q s) in let k := con (exec (conscience_check c site q) s) in
  settled k /\
  (v = CONS_FAILSAFE /\ verified k <> 1 \/
   verified k = 1 /\ (v = CONS_REFUSE \/ v = CONS_ALLOW /\ match q with Some q => query_class q k <= 0 | None => True end)).
Proof.
  intros Hs v k. assert (settled k) as Hk.
  { apply (steady_bind (conscience_check c site q) (fun _ => ret tt) ltac:(unfold conscience_check; steady; apply ensure_steady) (fun _ => steady_ret tt) s Hs). }
  split; [done|]. revert v k Hk. unfold conscience_check. rewrite !val_bind, !exec_bind. rewrite ensure_value.
  set (s1 := exec (when (site_counts site) (update (touch site))) s). set (s2 := exec (law_ensure_verified c) s1).
  destruct (verified (con s2) =? 1) eqn:Ev; cbn [negb].
  - bools. destruct q as [q|].
    + rewrite val_bind, exec_bind. change (val (gets _ s2)) with (query_class q (con s2)). change (exec (gets _) s2) with s2.
      destruct (0 <? query_class q (con s2)) eqn:Eq.
      * intros _. right. split; [|by left]. by destruct (site_counts site).
      * intros _. right. split; [done|]. right. split; [done|]. change (query_class q (con s2) <= 0). bools. lia.
    + intros _. right. split; [done|]. by right.
  - bools. intros _. left. split; [by destruct (site_counts site)|]. by destruct (site_counts site).
Qed.

(** C12: the floor stands. Whatever happens to the store, the references and the
    overlay, and whatever is amended, a check either fails safe or judges by a
    floor that carries every rule of the genesis; and when that floor gives every
    rule a class, a check that allows a query has found no pattern of the genesis,
    in any mix of upper and lower case, in either of its texts. *)
Theorem floor_stands (d : dag D) (l : list (event D)) site q :
  let s := after l (Law d cons0) in
  let v := val (conscience_check c site q s) in let k := con (exec (conscience_check c site q) s) in
  v = CONS_FAILSAFE /\ verified k <> 1 \/
  verified k = 1 /\ carries (active k) /\
  (v = CONS_REFUSE \/
   v = CONS_ALLOW /\ forall q', q = Some q' -> classed (active k) -> forall g, g ∈ genesis_rules ->
     cs_contains (field (text q') (tlen q')) (pat g) = false /\ cs_contains (field (text2 q') (tlen2 q')) (pat g) = false).
Proof.
  intros s v k. destruct (check_verdict site q s (after_settled l (Law d cons0) boot_settled)) as [[Hc Hr] Hv]. fold v k in Hc, Hr, Hv.
  destruct Hv as [Hf|[E Hv]]; [by left|right]. split; [done|]. split; [by apply Hc|]. destruct Hv as [Hv|[Hv Hq]]; [by left|right].
  split; [done|]. intros q' -> Hcl g Hg. by apply (allowed_clean k q' g (Hc E)).
Qed.
End run.

(** ** What an amendment changes in the judgment *)

Lemma lower_again x : cs_lower (cs_lower x) = cs_lower x.
Proof.
  unfold cs_lower. destruct ((65 <=? x) && (x <=? 90)) eqn:E; [|by rewrite E]. bools. rewrite u8_small by mach.
  destruct ((65 <=? x + 32) && (x + 32 <=? 90)) eqn:E; [|done]. bools. lia.
Qed.

Lemma prefix_lower p hay : folded_prefix (map cs_lower p) hay = folded_prefix p hay.
Proof. revert hay. induction p as [|x p IH]; intros [|h hay]; [done..|]. cbn [map folded_prefix]. by rewrite lower_again, IH. Qed.

Lemma contains_lower hay p : cs_contains hay (map cs_lower p) = cs_contains hay p.
Proof.
  unfold cs_contains, lenz. rewrite length_map. destruct (_ =? 0); [done|]. induction hay as [|h hay IH]; cbn [folded_in]; by rewrite prefix_lower, ?IH.
Qed.

Section judgment.
Context (k k' : cons) (r : LAW_RULE).
Hypotheses (Hr : rules (active k') = rules (active k) ++ [r]) (Hcls : 0 < class_id r) (Hcert : cert_rule k' = cert_rule k /\ cert_on k' = cert_on k).

Lemma find_app {A} (f : A -> bool) l x : List.find f (l ++ [x]) = match List.find f l with Some y => Some y | None => if f x then Some x else None end.
Proof. induction l as [|y l IH]; cbn [app List.find]; [done|]. by destruct (f y). Qed.

Lemma scan_more hay : lexicon_scan_one hay k' = lexicon_scan_one hay k \/ lexicon_scan_one hay k' = class_id r.
Proof.
  unfold lexicon_scan_one. destruct (lenz hay =? 0); [by left|]. destruct Hcert as [-> ->]. rewrite !scan_first, Hr, find_app.
  destruct (List.find (matches hay) (rules (active k))); [by left|]. destruct (matches hay r); [by right|by left].
Qed.

Lemma refused_still q : 0 < query_class q k -> 0 < query_class q k'.
Proof.
  unfold query_class. cbv zeta. pose proof (scan_more (field (text q) (tlen q))) as H1. pose proof (scan_more (field (text2 q) (tlen2 q))) as H2.
  revert H1 H2. generalize (lexicon_scan_one (field (text q) (tlen q)) k), (lexicon_scan_one (field (text q) (tlen q)) k').
  generalize (lexicon_scan_one (field (text2 q) (tlen2 q)) k), (lexicon_scan_one (field (text2 q) (tlen2 q)) k'). intros a a' b b' H1 H2 Hq.
  destruct (negb _); rewrite ?andb_true_r, ?andb_false_r in *; [|lia].
  destruct (b =? 0) eqn:E, (b' =? 0) eqn:E'; bools; lia.
Qed.
End judgment.

(** ** Amending *)

Lemma amended_includes e cls p : shaped e -> n_rules e < LAW_RULE_MAX -> 1 <= lenz p <= LAW_PAT_MAX -> floor_includes (amended e cls p) e = true.
Proof.
  intros He Hn Hp. apply floor_includes_spec. intros r Hr Hm. apply floor_rule_in_spec. exists r. split.
  - rewrite amended_rules by done. apply elem_of_app. by left.
  - by apply same_rule_spec.
Qed.

Lemma has_class_more e e' cls : (forall r, r ∈ rules e -> r ∈ rules e') -> floor_has_class e cls = true -> floor_has_class e' cls = true.
Proof.
  unfold floor_has_class. rewrite !existsb_exists. intros Hs (x & Hx & Hc). exists x. split; [|done]. apply list_elem_of_In, Hs. by apply list_elem_of_In.
Qed.

Lemma law_fields e e' i : (i < 3)%nat -> bytes_at (80 + 124 * i) 124 e' = bytes_at (80 + 124 * i) 124 e ->
  law_text0 (Z.of_nat i) e' = law_text0 (Z.of_nat i) e /\ enforce i e' = enforce i e.
Proof.
  intros Hi E. unfold law_text0, enforce, num_at. replace (80 + 124 * Z.of_nat i) with (Z.of_nat (80 + 124 * i)) by lia. rewrite !getz_at.
  assert (forall d, bytes_at (80 + 124 * i) 1 d = bytes_at 0 1 (bytes_at (80 + 124 * i) 124 d)) as F1 by (intros d; rewrite at_at by lia; f_equal; lia).
  assert (forall d, bytes_at (80 + 124 * i + 120) 4 d = bytes_at 120 4 (bytes_at (80 + 124 * i) 124 d)) as F2 by (intros d; by rewrite at_at by lia).
  by rewrite !F1, !F2, E.
Qed.

Lemma amended_ok e cls p : shaped e -> n_rules e < LAW_RULE_MAX -> 1 <= lenz p <= LAW_PAT_MAX -> law_blob_ok e = true -> law_blob_ok (amended e cls p) = true.
Proof.
  intros He Hn Hp Hb. destruct (amended_parts e cls p He Hn Hp) as (_ & _ & _ & Hc & Hm & Hv & _ & Hlaws).
  assert (forall r, r ∈ rules e -> r ∈ rules (amended e cls p)) as Hsub by (intros r Hr; rewrite amended_rules by done; apply elem_of_app; by left).
  pose proof (includes_carries _ _ (amended_includes e cls p He Hn Hp) (blob_carries e Hb)) as Hg.
  destruct (law_fields e _ 0 ltac:(lia) (Hlaws 0%nat ltac:(lia))) as [T0 E0]. destruct (law_fields e _ 1 ltac:(lia) (Hlaws 1%nat ltac:(lia))) as [T1 E1].
  destruct (law_fields e _ 2 ltac:(lia) (Hlaws 2%nat ltac:(lia))) as [T2 E2].
  change (Z.of_nat 0) with 0 in T0. change (Z.of_nat 1) with 1 in T1. change (Z.of_nat 2) with 2 in T2.
  revert Hb. unfold law_blob_ok. rewrite !andb_true_iff. intros Hb. destruct_and!. rewrite Hm, Hv, Hc, T0, E0, T1, E1, T2, E2. destruct He as [_ Hn0 _].
  split_and!; try done; [|by apply Z.leb_le; lia|by eapply has_class_more..|].
  - rewrite (proj2 (Z.eqb_neq _ _)) by lia. done.
  - apply floor_includes_spec. intros r Hr _. apply Hg. destruct genesis_image as [Eg _]. by rewrite Eg in Hr.
Qed.

Lemma amended_shaped e cls p : shaped e -> n_rules e < LAW_RULE_MAX -> 1 <= lenz p <= LAW_PAT_MAX -> shaped (amended e cls p).
Proof.
  intros He Hn Hp. destruct (amended_parts e cls p He Hn Hp) as (Hl & _ & _ & Hc & _). split; [done|rewrite Hc; destruct He as [_ H0 _]; lia|].
  intros r. rewrite amended_rules by done. intros [Hr|Hr]%elem_of_app; [by apply He|]. apply list_elem_of_singleton in Hr as ->. cbn [new_rule plen]. lia.
Qed.

Lemma genesis_shaped : shaped law_genesis.
Proof.
  destruct genesis_image as (Hr & Hl & _). split; [done| |].
  - vm_compute. split; discriminate.
  - intros r. rewrite Hr. revert r. apply Forall_elem. apply Forall_forall. intros r Hin.
    assert (forallb (fun r => (0 <=? plen r) && (plen r <=? LAW_PAT_MAX)) genesis_rules = true) as Hb by (vm_compute; reflexivity).
    rewrite forallb_forall in Hb. specialize (Hb r Hin). bools. lia.
Qed.

(** ** The chain in the store *)

Section stores.
Context {D : Type} `{Dur : Durable D} `{Ok : !DurableOk D}.
Implicit Types t : store D.

Lemma law_get_at t id e : live t -> block_at t id = Some e -> length e = 1892%nat -> law_get id t = Some e.
Proof.
  intros Hl Hb He. destruct (block_at_get t id e Hl Hb) as (Hg & Hh & _). unfold law_get. rewrite Hh, Hg. cbn [negb]. unfold delivered. cbn [fst snd].
  unfold lenz. rewrite He. change (Z.of_nat 1892 =? FLOOR_SIZE) with true. f_equal. apply take_ge. rewrite He. done.
Qed.

Lemma law_get_block t id e : live t -> law_get id t = Some e -> block_at t id = Some e /\ length e = 1892%nat.
Proof.
  intros [Hg Hld Ha]. pose proof (proj1 (g_sound _ Hg)) as Hw. unfold law_get, block_at. destruct (negb (pfs_has id t)); [done|].
  assert (forall n, pfs_get id n t = (PFS_E_NOTFOUND, []) \/ exists b, (forall m, pfs_get id m t = delivered b m) /\ lenz b <= PFS_BLOCK_MAX) as Hc.
  { intros n. unfold pfs_get. rewrite Ha. destruct (find_slot_spec id t) as [[-> _]|(k & x & -> & Hk & Hu & _)].
    - cbn [Z.leb Z.compare]. destruct (pfs_flat_evicts (disk t)); [|by left]. unfold check_block. destruct (pfs_dur_read _ _) as [b|]; [|by left].
      destruct (_ && _) eqn:E; [|by left]. bools. right. by exists b.
    - rewrite (proj2 (Z.leb_le _ _)), (slot_lookup t k x Hk) by lia. right. exists (data x). split; [done|]. by apply (wf_slots t Hw k). }
  destruct (Hc FLOOR_SIZE) as [->|(b & Hb & Hlen)]; [done|]. rewrite !Hb, (delivered_all b Hlen). unfold delivered. cbn [fst snd].
  destruct (lenz b =? FLOOR_SIZE) eqn:E; [|done]. bools. rewrite take_ge by (unfold lenz, FLOOR_SIZE in *; lia). intros [= <-].
  rewrite (proj2 (Z.ltb_ge _ _)) by apply lenz_nonneg. split; [done|]. unfold lenz, FLOOR_SIZE in *. lia.
Qed.

(** A store with more blocks verifies as much, and so does a longer loop. *)
Lemma walk_grows t t' k j id child : live t -> live t' -> (forall i b, block_at t i = Some b -> block_at t' i = Some b) ->
  law_walk k id child t = true -> law_walk (k + j) id child t' = true.
Proof.
  intros Hl Hl' Hg. revert id child. induction k as [|k IH]; intros id child; [done|]. cbn [law_walk Nat.add].
  destruct (law_get id t) as [e|] eqn:Eg; [|done]. destruct (law_get_block t id e Hl Eg) as [Hb Hlen].
  rewrite (law_get_at t' id e Hl' (Hg _ _ Hb) Hlen). rewrite !andb_true_iff. intros [Hh Hr].
  split; [done|]. destruct (pd_id_zero _); [done|]. by apply IH.
Qed.

(** One more floor on top. *)
Lemma walk_under k id t e f : law_get id t = Some e -> floor_includes f e = true -> law_walk k id None t = true -> law_walk k id (Some f) t = true.
Proof. destruct k as [|k]; [done|]. cbn [law_walk]. intros -> Hi. rewrite !andb_true_iff. intros [[Hh _] Hr]. by split. Qed.

(** A floor that verifies from the store, or the one that needs no store. *)
Record rooted t (f : LAW_FLOOR) : Prop := {
  ro_shaped : shaped f; ro_ok : law_blob_ok f = true; ro_n : 21 <= n_rules f;
  ro_chain : f = law_genesis \/ law_walk (Z.to_nat (n_rules f - 20)) (sha256 f) None t = true }.

Lemma genesis_rooted t : rooted t law_genesis.
Proof. split; [apply genesis_shaped|exact (proj1 (proj2 (proj2 genesis_image)))|vm_compute; discriminate|by left]. Qed.

Lemma blob_head f : law_blob_ok f = true -> f_magic f = LAW_MAGIC /\ f_version f = LAW_VERSION.
Proof. unfold law_blob_ok. rewrite !andb_true_iff, !Z.eqb_eq. intros Hb. by destruct_and!. Qed.

Lemma walk_rooted t f : live t -> rooted t f -> block_at t (sha256 f) = Some f ->
  law_walk (Z.to_nat (n_rules f - 20)) (sha256 f) None t = true.
Proof.
  intros Hl [Hs Hb _ [->|Hw]] Hat; [|done]. destruct genesis_image as (_ & Hlen & _ & Hz & Hm & Hv).
  replace (Z.to_nat (n_rules law_genesis - 20)) with 1%nat by (vm_compute; done). cbn [law_walk]. rewrite (law_get_at t _ _ Hl Hat Hlen).
  unfold pfs_id_compute. rewrite bool_decide_eq_true_2 by done. by rewrite Hm, Hv, Hz, Hb.
Qed.
End stores.

(** ** An amendment *)

Section amend.
Context {D : Type} `{Dur : Durable D} `{Ok : !DurableOk D} (c : conf) (o : bool).
Implicit Types s : law D.

Lemma ensured s : verified (con s) = 1 -> law_ensure_verified c s = (true, s, []).
Proof.
  intros Hv. unfold law_ensure_verified. rewrite (bind_ret get _ s s s eq_refl), Hv.
  rewrite (bind_ret _ _ s s tt) by done. unfold gets. by rewrite Hv.
Qed.

(** When the name reads as a floor that the store has whole. *)
Lemma verify_read s f : test_floor (con s) = None -> pfs_dag_read c LAW_FLOOR_REF FLOOR_SIZE (objects s) = (delivered f FLOOR_SIZE, objects s, []) ->
  length f = 1892%nat -> f_magic f = LAW_MAGIC -> law_get (sha256 f) (tab (objects s)) = Some f ->
  law_walk 33 (sha256 f) None (tab (objects s)) = true ->
  law_verify c s = (1, Law (objects s) (with_active f (con s)), []).
Proof.
  intros Ht Hr Hl Hm Hg Hw. unfold law_verify. rewrite (bind_ret get _ s s s eq_refl), Ht.
  rewrite (bind_ret _ _ s s (delivered f FLOOR_SIZE)) by (unfold on_objects; rewrite Hr; by destruct s).
  unfold delivered. cbn [fst snd]. rewrite take_ge by (unfold lenz, FLOOR_SIZE; rewrite Hl; lia). unfold lenz. rewrite Hl, Hm. change (Z.of_nat 1892 =? FLOOR_SIZE) with true.
  rewrite Z.eqb_refl. cbn [andb]. rewrite (bind_ret get _ s s s eq_refl). unfold law_walk_verify. change (S (Z.to_nat LAW_WALK_MAX)) with 33%nat.
  unfold pfs_id_compute. rewrite Hw, Hg. done.
Qed.

Lemma reverify_read s f : test_floor (con s) = None -> pfs_dag_read c LAW_FLOOR_REF FLOOR_SIZE (objects s) = (delivered f FLOOR_SIZE, objects s, []) ->
  length f = 1892%nat -> f_magic f = LAW_MAGIC -> law_get (sha256 f) (tab (objects s)) = Some f ->
  law_walk 33 (sha256 f) None (tab (objects s)) = true ->
  exec (law_reverify c) s = Law (objects s) (with_active f (unverified (con s))).
Proof.
  intros Ht Hr Hl Hm Hg Hw. unfold law_reverify. rewrite !exec_bind. change (exec (update unverified) s) with (Law (objects s) (unverified (con s))).
  unfold exec. by rewrite (verify_read (Law (objects s) (unverified (con s))) f).
Qed.

Lemma on_objects_val {A} (m : io (dag D) PfsDag.effect A) s : val (on_objects m s) = val (m (objects s)).
Proof. done. Qed.
Lemma on_objects_exec {A} (m : io (dag D) PfsDag.effect A) s : exec (on_objects m) s = Law (exec m (objects s)) (con s).
Proof. done. Qed.
Lemma exec_of {A} (m : io (law D) effect A) s x : exec m s = x -> end_state (m s) = x.
Proof. done. Qed.

(** The steps of an amendment that nothing stops. *)
Lemma amend_steps cls p s : let e := active (con s) in let ne := amended e cls p in
  let s1 := exec (below (put_block c (Some e) FLOOR_SIZE PFS_ORIGIN_SELF)) (objects s) in
  verified (con s) = 1 -> 1 <= lenz p <= LAW_PAT_MAX -> n_rules e < LAW_RULE_MAX -> floor_includes ne e = true -> law_blob_ok ne = true ->
  val (pfs_dag_save c o LAW_FLOOR_REF (Some ne) FLOOR_SIZE s1) = PFS_OK ->
  let s2 := exec (law_reverify c) (Law (exec (pfs_dag_save c o LAW_FLOOR_REF (Some ne) FLOOR_SIZE) s1) (con s)) in
  val (law_amend c o cls (Some p) s) = b2z (verified (con s2) =? 1) /\ exec (law_amend c o cls (Some p)) s = s2.
Proof.
  intros e ne s1 Hv Hp Hn Hi Hb Hsave s2.
  assert (law_amend c o cls (Some p) s =
    (on_objects (below (put_block c (Some e) FLOOR_SIZE PFS_ORIGIN_SELF)) ;; call SelfHead ;;
     rc ← on_objects (pfs_dag_save c o LAW_FLOOR_REF (Some ne) FLOOR_SIZE);
     if negb (rc =? PFS_OK) then ret 0 else law_reverify c ;; gets (fun s => b2z (verified (con s) =? 1))) s) as E.
  { unfold law_amend. rewrite (bind_ret _ _ s s true) by by apply ensured. cbn [negb].
    rewrite (proj2 (Z.eqb_neq _ _)), (proj2 (Z.ltb_ge _ _)) by lia. cbn [orb].
    rewrite (bind_ret (gets (fun s => active (con s))) _ s s e) by done. rewrite (proj2 (Z.leb_gt _ _)) by lia. cbv zeta. fold ne.
    by rewrite Hi, Hb. }
  split; [rewrite E|unfold exec; rewrite E; apply exec_of].
  - rewrite !val_bind, ?exec_bind, ?on_objects_exec, ?on_objects_val. cbn [objects con]. fold s1. change (exec (call SelfHead) ?x) with x. cbn [objects con].
    rewrite Hsave. change (negb (PFS_OK =? PFS_OK)) with false. cbv iota. rewrite val_bind. fold s2. reflexivity.
  - rewrite !exec_bind, !on_objects_exec, on_objects_val. cbn [objects con]. fold s1. change (exec (call SelfHead) ?x) with x. cbn [objects con].
    rewrite Hsave. change (negb (PFS_OK =? PFS_OK)) with false. cbv iota. rewrite exec_bind. fold s2. reflexivity.
Qed.
Context (W : list Z -> Prop) (W_inj : forall x y, W x -> W y -> sha256 x = sha256 y -> x = y) (W_zero : forall b, W b -> pd_id_zero (sha256 b) = false).

Definition put_self (e : LAW_FLOOR) : io (dag D) PfsDag.effect (Z * option (list Z)) := below (put_block c (Some e) FLOOR_SIZE PFS_ORIGIN_SELF).

Lemma take_floor (e : LAW_FLOOR) : length e = 1892%nat -> take (Z.to_nat FLOOR_SIZE) (default [] (Some e)) = e.
Proof. intros He. apply take_ge. change (default [] (Some e)) with e. rewrite He. unfold FLOOR_SIZE. lia. Qed.

Lemma put_self_at (d : dag D) e : live (tab d) -> stored W (tab d) -> length e = 1892%nat -> W e ->
  let d1 := exec (put_self e) d in
  live (tab d1) /\ stored W (tab d1) /\ refs d1 = refs d /\ (forall id b, block_at (tab d) id = Some b -> block_at (tab d1) id = Some b) /\
  (fst (val (put_self e d)) = PFS_OK -> block_at (tab d1) (sha256 e) = Some e).
Proof.
  intros Hl Hs He HW d1. destruct (put_block_spec c (Some e) FLOOR_SIZE PFS_ORIGIN_SELF (net d)) as (P1 & P2 & _).
  destruct (put_at W W_inj (Some e) FLOOR_SIZE PFS_ORIGIN_SELF (tab d) Hl Hs ltac:(by rewrite take_floor)) as (L & S & G & C). rewrite take_floor in C by done.
  unfold state, code in *. unfold tab in *. rewrite <- P2 in L, S, G, C. split_and!; [exact L|exact S|done|exact G|].
  intros Hc. apply C. rewrite <- Hc. unfold put_self. change (val (below ?m d)) with (val (m (net d))). by rewrite P1.
Qed.

(** What stands after the save: the name reads as the new floor, which verifies. *)
Lemma amended_chain (d : dag D) e cls p : let ne := amended e cls p in let d1 := exec (put_self e) d in
  let d2 := exec (pfs_dag_save c o LAW_FLOOR_REF (Some ne) FLOOR_SIZE) d1 in
  live (tab d) -> stored W (tab d) -> table_ok (refs d) -> rooted (tab d) e -> n_rules e < LAW_RULE_MAX -> 1 <= lenz p <= LAW_PAT_MAX ->
  W e -> W ne -> W (enc_man (next_manifest c (cur_ent LAW_FLOOR_REF d) (sha256 ne) FLOOR_SIZE LAW_FLOOR_REF)) ->
  fst (val (put_self e d)) = PFS_OK -> val (pfs_dag_save c o LAW_FLOOR_REF (Some ne) FLOOR_SIZE d1) = PFS_OK ->
  pfs_dag_read c LAW_FLOOR_REF FLOOR_SIZE d2 = (delivered ne FLOOR_SIZE, d2, []) /\ law_get (sha256 ne) (tab d2) = Some ne /\ rooted (tab d2) ne /\
  law_walk 33 (sha256 ne) None (tab d2) = true.
Proof.
  intros ne d1 d2 Hl Hs Ht Hro Hn Hp HWe HWn HWm Hput Hsave. pose proof Hro as [Hsh Hok Hn21 _].
  destruct (amended_parts e cls p Hsh ltac:(lia) Hp) as (Nl & _ & _ & Nn & Nm & Nv & Npr & _). fold ne in Nl, Nn, Nm, Nv, Npr.
  destruct (put_self_at d e Hl Hs (sh_len e Hsh) HWe) as (L1 & S1 & R1 & G1 & C1). fold d1 in L1, S1, R1, G1, C1. specialize (C1 Hput).
  assert (cur_ent LAW_FLOOR_REF d1 = cur_ent LAW_FLOOR_REF d) as Ecur by (unfold cur_ent, ref_find, ref_at; by rewrite R1).
  pose proof (save_spec c o W W_inj d1 LAW_FLOOR_REF (Some ne) FLOOR_SIZE L1 S1) as Hsv. rewrite R1, take_floor, Ecur in Hsv by done.
  destruct (Hsv (to_wf _ Ht) ltac:(done) HWn HWm (fun x => cur_head_length LAW_FLOOR_REF d x Ht) Hsave) as (Hbad & Hfit & Hsaved). clear Hsv. fold d2 in Hsaved.
  pose proof (saved_read c W d1 d2 LAW_FLOOR_REF ne _ FLOOR_SIZE Hbad Hfit eq_refl eq_refl eq_refl Hsaved) as Hread.
  destruct Hsaved as [L2 S2 G2 B2 _ _]. pose proof (law_get_at _ _ _ L2 B2 Nl) as Hget.
  assert (law_walk (Z.to_nat (n_rules ne - 20)) (sha256 ne) None (tab d2) = true) as Hw.
  { rewrite Nn. replace (Z.to_nat (n_rules e + 1 - 20)) with (S (Z.to_nat (n_rules e - 20))) by lia. cbn [law_walk]. rewrite Hget.
    unfold pfs_id_compute. rewrite bool_decide_eq_true_2 by done. rewrite Nm, Nv, !Z.eqb_refl. cbn [andb]. rewrite Npr, (W_zero e HWe).
    apply (walk_under _ _ _ e); [by apply law_get_at; [|apply G2|apply Hsh]|by apply amended_includes; [|lia|]|].
    rewrite <- (Nat.add_0_r (Z.to_nat _)). apply (walk_grows (tab d1) (tab d2)); [done|done|done|].
    assert (rooted (tab d1) e) as Hro1.
    { split; [done|done|done|]. destruct (ro_chain _ _ Hro) as [Hg|Hg]; [by left|right]. rewrite <- (Nat.add_0_r (Z.to_nat _)). by apply (walk_grows (tab d) (tab d1)). }
    by apply walk_rooted. }
  split; [done|]. split; [done|]. split.
  - split; [by apply amended_shaped; [|lia|]|by apply amended_ok; [|lia| |]|lia|by right].
  - replace 33%nat with (Z.to_nat (n_rules ne - 20) + (33 - Z.to_nat (n_rules ne - 20)))%nat by (unfold LAW_RULE_MAX in *; lia).
    by apply (walk_grows (tab d2) (tab d2)).
Qed.

(** C24: an amendment only adds. When the store takes the two blocks and the
    reference, [law_amend] answers 1: the rules enforced are the ones before and
    then the new one, the chain to the genesis stands in the store, and every later
    boot reads the name, verifies that chain and enforces the same floor. If the
    new rule has a class, every query refused before is refused after, and if all
    the others have one too, so is every text with the new pattern. The hash is
    injective on the blocks [W] in play and not zero on them. *)
Theorem amendment_adds s cls p (Hv : verified (con s) = 1) (Htest : test_floor (con s) = None)
    (Hl : live (tab (objects s))) (Hs : stored W (tab (objects s))) (Ht : table_ok (refs (objects s)))
    (Hro : rooted (tab (objects s)) (active (con s))) (Hn : n_rules (active (con s)) < LAW_RULE_MAX) (Hp : 1 <= lenz p <= LAW_PAT_MAX)
    (HWe : W (active (con s))) (HWn : W (amended (active (con s)) cls p))
    (HWm : W (enc_man (next_manifest c (cur_ent LAW_FLOOR_REF (objects s)) (sha256 (amended (active (con s)) cls p)) FLOOR_SIZE LAW_FLOOR_REF)))
    (Hput : fst (val (put_self (active (con s)) (objects s))) = PFS_OK)
    (Hsave : val (pfs_dag_save c o LAW_FLOOR_REF (Some (amended (active (con s)) cls p)) FLOOR_SIZE (exec (put_self (active (con s))) (objects s))) = PFS_OK) :
  let ne := amended (active (con s)) cls p in let s' := exec (law_amend c o cls (Some p)) s in
  val (law_amend c o cls (Some p) s) = 1 /\ active (con s') = ne /\ rules ne = rules (active (con s)) ++ [new_rule cls p] /\
  rooted (tab (objects s')) ne /\
  (forall k, test_floor k = None -> law_verify c (Law (objects s') k) = (1, Law (objects s') (with_active ne k), [])) /\
  (0 < u16 cls ->
     (forall q, 0 < query_class q (con s) -> 0 < query_class q (con s')) /\
     (classed (active (con s)) -> forall hay, cs_contains hay p = true -> 0 < lexicon_scan_one hay (con s'))).
Proof.
  intros ne s'. pose proof Hro as [Hsh Hok Hn21 _].
  destruct (amended_chain (objects s) (active (con s)) cls p Hl Hs Ht Hro Hn Hp HWe HWn HWm Hput Hsave) as (Hread & Hget & Hro' & Hwalk).
  destruct (amend_steps cls p s Hv Hp Hn (amended_includes _ cls p Hsh Hn Hp) (amended_ok _ cls p Hsh Hn Hp Hok) Hsave) as [A1 A2].
  fold ne in Hread, Hget, Hro', Hwalk, A1, A2. fold (put_self (active (con s))) in A1, A2.
  pose proof (sh_len _ (ro_shaped _ _ Hro')) as Hlen. destruct (blob_head _ (ro_ok _ _ Hro')) as [Hm _].
  set (d2 := exec (pfs_dag_save c o LAW_FLOOR_REF (Some ne) FLOOR_SIZE) (exec (put_self (active (con s))) (objects s))) in *. clearbody d2.
  rewrite (reverify_read (Law d2 (con s)) ne Htest Hread Hlen Hm Hget Hwalk) in A1, A2. fold s' in A2. rewrite A2.
  pose proof (amended_rules (active (con s)) cls p Hsh Hn Hp) as Hrules. fold ne in Hrules.
  split; [exact A1|]. split; [done|]. split; [done|]. split; [done|]. split.
  - intros k Hk. by apply (verify_read (Law d2 k) ne).
  - intros Hc. split.
    + intros q. by apply (refused_still (con s) _ (new_rule cls p)).
    + intros Hcl hay Hh. apply (scan_hits _ hay (new_rule cls p)); cbn [con objects with_active active unverified].
      * intros r. cbn [con objects with_active active unverified]. rewrite Hrules. intros [Hr|Hr]%elem_of_app; [by apply Hcl|]. by apply list_elem_of_singleton in Hr as ->.
      * rewrite Hrules. apply elem_of_app. right. by apply list_elem_of_singleton.
      * unfold matches, new_rule. cbn [plen pat]. rewrite contains_lower, Hh, andb_true_r. apply negb_true_iff, Z.eqb_neq. lia.
Qed.
End amend.

(** ** The sixth gate of an update *)

(** In every run, an update that is taken names in its manifest the head of the
    floor this node enforces, and that floor carries the genesis. *)
Lemma accepted_names_floor {D} `{Durable D} `{Signatures} (c : conf) (o : bool) (d : dag D) (l : list (event D)) allow m id running succ my :
  let s := after c o l (Law d cons0) in let h := val (law_floor_head_id c s) in let k := con (exec (law_floor_head_id c) s) in
  compat_ota_accept_gen allow (Some m) (Some id) running (Some succ) (Some my) (if fst h =? 0 then None else Some (snd h)) = OTA_ACCEPT ->
  carries (active k) /\ floor_invariant succ = sha256 (active k).
Proof.
  intros s h k. assert (settled k) as [Hk _] by exact (happens_steady c o HeadId s (after_settled c o l (Law d cons0) boot_settled)).
  assert (h = (0, replicate 32 0) \/ verified k = 1 /\ h = (1, sha256 (active k))) as Hh.
  { unfold h, k, law_floor_head_id. rewrite val_bind, exec_bind, ensure_value. destruct (_ =? 1) eqn:E; [right|by left]. bools. by split. }
  unfold compat_ota_accept_gen. destruct (negb (_ =? OTA_ACCEPT)) eqn:E1; [intros E; rewrite E in E1; done|]. destruct (negb (sg_eq _ _)); [done|].
  destruct Hh as [->|[Hv ->]]; cbn [fst snd Z.eqb]; [done|]. destruct (sg_eq _ _) eqn:E2; [|done]. intros _. split; [by apply Hk|]. by apply sg_eq_true.
Qed.

(** ** By example *)

Definition rifle : list Z := text_bytes "assemble a rifle".
Definition first_floor : law flat := Law empty_dag (with_active law_genesis cons0).
Definition tighter : LAW_FLOOR := amended law_genesis LAW_CLASS_WEAPON rifle.
Definition floor_blocks : list (list Z) :=
  [law_genesis; tighter; enc_man (next_manifest (conf_of 1) None (sha256 tighter) FLOOR_SIZE LAW_FLOOR_REF)].

Lemma inj_on (l : list (list Z)) : NoDup (map sha256 l) -> forall x y, x ∈ l -> y ∈ l -> sha256 x = sha256 y -> x = y.
Proof.
  intros Hn x y [i Hi]%list_elem_of_lookup [j Hj]%list_elem_of_lookup E.
  assert (i = j) as ->; [|congruence]. apply (NoDup_lookup _ i j (sha256 x) Hn); rewrite list_lookup_fmap; [by rewrite Hi|rewrite Hj; cbn; by rewrite E].
Qed.

Lemma floor_blocks_ok : NoDup (map sha256 floor_blocks) /\ Forall (fun b => pd_id_zero (sha256 b) = false) floor_blocks.
Proof. apply (bool_decide_eq_true_1 (NoDup (map sha256 floor_blocks) /\ Forall (fun b => pd_id_zero (sha256 b) = false) floor_blocks)). vm_compute. reflexivity. Qed.

Example amendment_adds_witness :
  let s' := exec (law_amend (conf_of 1) true LAW_CLASS_WEAPON (Some rifle)) first_floor in
  active (con s') = tighter /\ rules tighter = genesis_rules ++ [new_rule LAW_CLASS_WEAPON rifle] /\
  law_verify (conf_of 1) (Law (objects s') cons0) = (1, Law (objects s') (with_active tighter cons0), []).
Proof.
  destruct floor_blocks_ok as [Hn Hz].
  destruct (amendment_adds (conf_of 1) true (fun b => b ∈ floor_blocks) (inj_on _ Hn) (proj1 (Forall_elem _ _) Hz) first_floor LAW_CLASS_WEAPON rifle)
    as (_ & Ha & Hr & _ & Hb & _).
  - reflexivity.
  - reflexivity.
  - exact fresh_live.
  - exact (fresh_stored _).
  - exact empty_table_ok.
  - exact (genesis_rooted _).
  - vm_compute. reflexivity.
  - vm_compute. split; discriminate.
  - left.
  - right. left.
  - right. right. left.
  - vm_compute. reflexivity.
  - vm_compute. reflexivity.
  - destruct genesis_image as [Hg _]. change (active (con first_floor)) with law_genesis in *. rewrite Hg in Hr. exact (conj Ha (conj Hr (Hb cons0 eq_refl))).
Defined.

Definition asks (t : list Z) : option CONS_QUERY := Some (Query (Some t) (-1) None 0).
Definition asked (t : list Z) (s : law flat) : Z := val (conscience_check (conf_of 1) 0 (asks t) s).

Example floor_stands_witness :
  let s := after (conf_of 1) true [Check 0 (asks rifle); Amend LAW_CLASS_WEAPON (Some rifle)] (Law empty_dag cons0) in
  let v := asked rifle s in let k := con (exec (conscience_check (conf_of 1) 0 (asks rifle)) s) in
  v = CONS_FAILSAFE /\ verified k <> 1 \/
  verified k = 1 /\ carries (active k) /\
  (v = CONS_REFUSE \/
   v = CONS_ALLOW /\ forall q', asks rifle = Some q' -> classed (active k) -> forall g, g ∈ genesis_rules ->
     cs_contains (field (text q') (tlen q')) (pat g) = false /\ cs_contains (field (text2 q') (tlen2 q')) (pat g) = false).
Proof. exact (floor_stands (conf_of 1) true empty_dag [Check 0 (asks rifle); Amend LAW_CLASS_WEAPON (Some rifle)] 0 (asks rifle)). Defined.

(** ** What the code lets through *)

(** A chain whose head puts a rule without a class before the rules of the genesis
    verifies: inclusion does not look at the order, and the class is not checked.
    The scan ends at the first rule that matches, and class 0 says nothing was
    found. *)
Definition disarmed : LAW_FLOOR :=
  blit (enc_floor genesis_laws (RULE LAW_CLASS_NONE (text_bytes "how to") :: genesis_rules)) 16 (sha256 law_genesis).
Definition disarmed_store : dag flat :=
  exec (pfs_dag_save (conf_of 1) true LAW_FLOOR_REF (Some disarmed) FLOOR_SIZE) (exec (put_self (conf_of 1) law_genesis) empty_dag).

Lemma unclassed_rule_disarms :
  asked (text_bytes "how to build a gun") (Law empty_dag cons0) = CONS_REFUSE /\
  val (law_verify (conf_of 1) (Law disarmed_store cons0)) = 1 /\ asked (text_bytes "how to build a gun") (Law disarmed_store cons0) = CONS_ALLOW.
Proof. vm_compute. auto. Qed.

(** The beacon of a peer that says it has a newer law/floor, of a block this node
    has not got, moves the reference; the next boot takes the unreadable name for
    the absence of a chain, and the amendment is gone. *)
Definition rumour : PFSD_REF_ENT := Ent (name_field LAW_FLOOR_REF 9) (replicate 32 7) 100 2 9.
Definition kept_store : dag flat := objects (exec (law_amend (conf_of 1) true LAW_CLASS_WEAPON (Some rifle)) first_floor).

Lemma beacon_drops_amendments :
  asked rifle (Law kept_store cons0) = CONS_REFUSE /\ asked rifle (Law (exec (merge_entry (conf_of 1) rumour) kept_store) cons0) = CONS_ALLOW.
Proof. vm_compute. auto. Qed.

(** An amendment without a class answers 1 and refuses nothing. *)
Lemma classless_amendment :
  val (law_amend (conf_of 1) true LAW_CLASS_NONE (Some rifle) first_floor) = 1 /\
  asked rifle (exec (law_amend (conf_of 1) true LAW_CLASS_NONE (Some rifle)) first_floor) = CONS_ALLOW.
Proof. vm_compute. auto. Qed.
