(* ===== verification/Stop.v ===== *)
(** * Stopping the swarm by a signed command ([swarm_stop.c])

    The table of keys that may stop the swarm, the rule a command is accepted
    by, the console's [stop] command, the state file, and the tick that takes a
    command from the network and sends the last accepted one on. The state file
    lives in the directory of FlatDisk.v; what the topic delivers is an argument
    of the tick, what is published its result. Messages are left out. *)

From stdpp Require Import list gmap.
#[local] Open Scope Z_scope.
From S2P Require Import Prelude.
From S2P Require Import Crc.
From S2P Require Import Durable.
From S2P Require Import FlatDisk.
From S2P Require Import Ed25519.
From S2P Require Import Sign.

Definition SWARM_STOP_VER : Z := 1.
Definition SWARM_STOP_OP_STOP : Z := 1.
Definition SWARM_STOP_OP_RESUME : Z := 2.
Definition SWARM_STOP_KEYS_MAX : Z := 4.
Definition SWARM_STOP_BODY_LEN : Z := 6 + 1 + 1 + 4.
Definition SWARM_STOP_CMD_LEN : Z := SWARM_STOP_BODY_LEN + ED25519_PUBLIC_KEY_LEN + ED25519_SIGNATURE_LEN.
Definition SWARM_STOP_OK : Z := 0.
Definition SWARM_STOP_E_HEAD : Z := -1.
Definition SWARM_STOP_E_OP : Z := -2.
Definition SWARM_STOP_E_AUTH : Z := -3.
Definition SWARM_STOP_E_SIG : Z := -4.
Definition SWARM_STOP_E_REPLAY : Z := -5.
Definition SS_REDRIVE_TICKS : Z := 4.
Definition SS_FILE : list Z := [115; 119; 97; 114; 109; 45; 115; 116; 111; 112; 46; 115; 116].
Definition SS_FILE_VER : Z := 1.
Definition SS_HDR_LEN : Z := 20 + SWARM_STOP_CMD_LEN.
Definition SS_FILE_MAX : Z := SS_HDR_LEN + SWARM_STOP_KEYS_MAX * ED25519_PUBLIC_KEY_LEN.

(** "PKSTOP" and "PKSS". *)
Definition ss_name : list Z := [80; 75; 83; 84; 79; 80].
Definition ss_file_magic : list Z := [80; 75; 83; 83].

(** ** The state *)

(** The signed stop: the keys in use, whether a signed command stopped the node,
    and the highest epoch accepted. *)
Record signed : Type := Signed { ss_keys : list (list Z); ss_stopped : bool; ss_epoch : Z }.
(** The forwarding: handles of the topic, the last command, the ticks since it
    was sent, the epoch a refusal was last reported for. *)
Record forward : Type := Forward { ss_pub : Z; ss_sub : Z; ss_fwd : list Z; ss_have_fwd : bool; ss_ticks : Z; ss_refused_epoch : Z }.
(** The command being entered at the console. *)
Record entry : Type := Entry { ss_in : list Z; ss_inl : Z; ss_in_bad : bool }.

Record stop : Type := Stop {
  sgn : signed; ss_local : bool; fw : forward; ent : entry; ss_quiet : bool; ss_save_bad : bool }.

Definition signed0 : signed := Signed [] false 0.
Definition forward0 : forward := Forward (-1) (-1) (replicate 108 0) false 0 0xFFFFFFFF.
Definition stop0 : stop := Stop signed0 false forward0 (Entry (replicate 108 0) 0 false) false false.

Definition with_signed (g : signed) (s : stop) : stop := Stop g (ss_local s) (fw s) (ent s) (ss_quiet s) (ss_save_bad s).
Definition with_local (b : bool) (s : stop) : stop := Stop (sgn s) b (fw s) (ent s) (ss_quiet s) (ss_save_bad s).
Definition with_fw (f : forward) (s : stop) : stop := Stop (sgn s) (ss_local s) f (ent s) (ss_quiet s) (ss_save_bad s).
Definition with_ent (e : entry) (s : stop) : stop := Stop (sgn s) (ss_local s) (fw s) e (ss_quiet s) (ss_save_bad s).
Definition with_save_bad (b : bool) (s : stop) : stop := Stop (sgn s) (ss_local s) (fw s) (ent s) (ss_quiet s) b.

Section stop.
Context `{Signatures}.

(** ** Keys *)

Definition ss_eq (a b : list Z) : bool := bool_decide (a = b).
Definition ss_known (pk : list Z) (keys : list (list Z)) : bool := existsb (fun row => ss_eq row pk) keys.

Definition swarm_stop_key_add (pk : list Z) (g : signed) : Z * signed :=
  if ss_known pk (ss_keys g) then (1, g)
  else if SWARM_STOP_KEYS_MAX <=? lenz (ss_keys g) then (0, g)
  else (1, Signed (ss_keys g ++ [pk]) (ss_stopped g) (ss_epoch g)).
Definition swarm_stop_key_clear (g : signed) : signed := Signed [] (ss_stopped g) (ss_epoch g).
Definition swarm_stop_key_count (g : signed) : Z := lenz (ss_keys g).
Definition swarm_stop_is_stopped (s : stop) : bool := ss_stopped (sgn s) || ss_local s.
Definition swarm_stop_reset (g : signed) : signed := Signed (ss_keys g) false 0.

(** ** Commands *)

(** The bytes of a command, [out] being the buffer before. *)
Definition swarm_stop_make (op epoch : Z) (pk sk out : list Z) : list Z :=
  let body := ss_name ++ [SWARM_STOP_VER; u8 op; u8 epoch; u8 (Z.shiftr epoch 8); u8 (Z.shiftr epoch 16); u8 (Z.shiftr epoch 24)] ++ pk in
  body ++ snd (sig_sign (drop 44 out) body sk).

Definition cmd_name (cmd : list Z) : list Z := take 6 cmd.
Definition cmd_op (cmd : list Z) : Z := getz cmd 7 0.
Definition cmd_epoch (cmd : list Z) : Z :=
  Z.lor (Z.lor (Z.lor (getz cmd 8 0) (Z.shiftl (getz cmd 9 0) 8)) (Z.shiftl (getz cmd 10 0) 16)) (Z.shiftl (getz cmd 11 0) 24).
Definition cmd_body (cmd : list Z) : list Z := take (Z.to_nat (SWARM_STOP_BODY_LEN + ED25519_PUBLIC_KEY_LEN)) cmd.
Definition cmd_pk (cmd : list Z) : list Z := take 32 (drop (Z.to_nat SWARM_STOP_BODY_LEN) cmd).
Definition cmd_sig (cmd : list Z) : list Z := take 64 (drop (Z.to_nat (SWARM_STOP_BODY_LEN + ED25519_PUBLIC_KEY_LEN)) cmd).

(** [cmd] is the buffer, [len] the length the caller gives. *)
Definition swarm_stop_apply (cmd : list Z) (len : Z) (g : signed) : Z * signed :=
  if negb (len =? SWARM_STOP_CMD_LEN) then (SWARM_STOP_E_HEAD, g)
  else if negb (ss_eq (cmd_name cmd) ss_name) || negb (getz cmd 6 0 =? SWARM_STOP_VER) then (SWARM_STOP_E_HEAD, g)
  else if negb (cmd_op cmd =? SWARM_STOP_OP_STOP) && negb (cmd_op cmd =? SWARM_STOP_OP_RESUME) then (SWARM_STOP_E_OP, g)
  else if negb (ss_known (cmd_pk cmd) (ss_keys g)) then (SWARM_STOP_E_AUTH, g)
  else if sign_verify (cmd_body cmd) (cmd_sig cmd) (cmd_pk cmd) =? 0 then (SWARM_STOP_E_SIG, g)
  else if cmd_epoch cmd <=? ss_epoch g then (SWARM_STOP_E_REPLAY, g)
  else (SWARM_STOP_OK, Signed (ss_keys g) (cmd_op cmd =? SWARM_STOP_OP_STOP) (cmd_epoch cmd)).

Definition ss_forward (cmd : list Z) (f : forward) : forward :=
  Forward (ss_pub f) (ss_sub f) (take 108 cmd) true SS_REDRIVE_TICKS (ss_refused_epoch f).

(** ** The state file *)

Definition ss_crc_bit (c : Z) : Z := Z.lxor (Z.shiftr c 1) (Z.land 0xEDB88320 (w32 (- Z.land c 1))).
Definition ss_crc_byte (c b : Z) : Z := for_up 8 0 (fun _ c => ss_crc_bit c) (Z.lxor c b).
Definition ss_crc32 (l : list Z) : Z := Z.lxor (fold_left ss_crc_byte l FULL) FULL.

Definition ss_put32 (v : Z) : list Z := [u8 v; u8 (Z.shiftr v 8); u8 (Z.shiftr v 16); u8 (Z.shiftr v 24)].
Definition ss_get32 (l : list Z) (off : Z) : Z :=
  Z.lor (Z.lor (Z.lor (getz l off 0) (Z.shiftl (getz l (off + 1) 0) 8)) (Z.shiftl (getz l (off + 2) 0) 16)) (Z.shiftl (getz l (off + 3) 0) 24).

(** The bytes of the file from the version on, and the file. *)
Definition file_body (s : stop) : list Z :=
  [SS_FILE_VER; b2z (ss_stopped (sgn s)); b2z (ss_local s); b2z (ss_have_fwd (fw s))] ++ ss_put32 (ss_epoch (sgn s)) ++
  [u8 (lenz (ss_keys (sgn s))); 0; 0; 0] ++ ss_fwd (fw s) ++ concat (ss_keys (sgn s)).
Definition file_image (s : stop) : list Z := ss_file_magic ++ ss_put32 (ss_crc32 (file_body s)) ++ file_body s.

Definition ss_persist (sd : stop * flat) : stop * flat :=
  let '(s, d) := sd in
  if ss_quiet s then (s, d)
  else
    let '(ok, d') := pfs_dur_write SS_FILE (file_image s) d in
    (if negb ok && pfs_dur_active d' then with_save_bad true s else s, d').

Definition fwd_part (img : list Z) : list Z := take (Z.to_nat SWARM_STOP_CMD_LEN) (drop 20 img).
Fixpoint key_rows (n : nat) (img : list Z) : list (list Z) :=
  match n with O => [] | S k => take 32 img :: key_rows k (drop 32 img) end.

(** The checks on what was read, in one condition as in the source. *)
Definition file_bad (img : list Z) : bool :=
  let got := lenz img in
  let nk := if SS_HDR_LEN <=? got then getz img 16 0 else -1 in
  (got <? SS_HDR_LEN) || negb (ss_eq (take 4 img) ss_file_magic) || negb (getz img 8 0 =? SS_FILE_VER) ||
  (SWARM_STOP_KEYS_MAX <? nk) || negb (got =? u32 (SS_HDR_LEN + u32 nk * ED25519_PUBLIC_KEY_LEN)) ||
  negb (ss_get32 img 4 =? ss_crc32 (drop 8 img)).

(** [results] are the answers of the operating system to the read. *)
Definition swarm_stop_restore (results : list Z) (sd : stop * flat) : stop * flat :=
  let '(s, d) := sd in
  match dur_read results SS_FILE SS_FILE_MAX d with
  | None => (s, d)
  | Some img =>
      if file_bad img then (with_local true s, d)
      else
        let f := fw s in
        (Stop (Signed (key_rows (Z.to_nat (getz img 16 0)) (drop (Z.to_nat SS_HDR_LEN) img)) (negb (getz img 9 0 =? 0)) (ss_get32 img 12))
           (negb (getz img 10 0 =? 0))
           (Forward (ss_pub f) (ss_sub f) (fwd_part img) (negb (getz img 11 0 =? 0)) (ss_ticks f) (ss_refused_epoch f))
           (ent s) (ss_quiet s) (ss_save_bad s), d)
  end.

(** ** The console *)

Definition ss_hexv (c : Z) : Z :=
  if (48 <=? c) && (c <=? 57) then c - 48
  else if (97 <=? c) && (c <=? 102) then c - 97 + 10
  else if (65 <=? c) && (c <=? 70) then c - 65 + 10
  else -1.

(** The bytes written before a character that is no digit, and whether there was
    none. *)
Fixpoint hex_pairs (a : list Z) : list Z * bool :=
  match a with
  | h :: l :: r =>
      if (ss_hexv h <? 0) || (ss_hexv l <? 0) then ([], false)
      else let '(bs, ok) := hex_pairs r in (u8 (ss_hexv h * 16 + ss_hexv l) :: bs, ok)
  | _ => ([], true)
  end.
(** The result, and what was written. *)
Definition ss_unhex (a : list Z) (max : Z) : Z * list Z :=
  if negb (lenz a mod 2 =? 0) then (-1, [])
  else if max <? lenz a / 2 then (-1, [])
  else let '(bs, ok) := hex_pairs a in (if ok then lenz a / 2 else -1, bs).

Definition blank (c : Z) : bool := (c =? 32) || (c =? 9).
Fixpoint skip_blanks (a : list Z) : list Z := match a with c :: r => if blank c then skip_blanks r else a | [] => [] end.
Fixpoint until_blank (a : list Z) : list Z * list Z :=
  match a with
  | [] => ([], [])
  | c :: r => if blank c then ([], a) else let '(w, r) := until_blank r in (c :: w, r)
  end.
Definition ss_word (a : list Z) : list Z * list Z := until_blank (skip_blanks a).

Fixpoint ss_is (w s : list Z) : bool :=
  match w, s with
  | [], [] => true
  | c :: w, d :: s => (d =? c) && ss_is w s
  | _, _ => false
  end.

(** The words of the command line. *)
Definition kw_status : list Z := [115; 116; 97; 116; 117; 115].
Definition kw_test : list Z := [116; 101; 115; 116].
Definition kw_now : list Z := [110; 111; 119].
Definition kw_resume : list Z := [114; 101; 115; 117; 109; 101].
Definition kw_key : list Z := [107; 101; 121].
Definition kw_clear : list Z := [99; 108; 101; 97; 114].
Definition kw_in : list Z := [105; 110].
Definition kw_apply : list Z := [97; 112; 112; 108; 121].
Definition kw_teach : list Z := [116; 101; 97; 99; 104].

(** The status line forgets that a write failed once it has said so. *)
Definition ss_status (sd : stop * flat) : stop * flat := (with_save_bad false (fst sd), snd sd).

Definition cmd_key (rest : list Z) (sd : stop * flat) : stop * flat :=
  let '(s, d) := sd in
  let '(h, _) := ss_word rest in
  if ss_is h kw_clear then ss_status (ss_persist (with_signed (swarm_stop_key_clear (sgn s)) s, d))
  else if negb (lenz h =? 2 * ED25519_PUBLIC_KEY_LEN) then (s, d)
  else
    let '(r, pk) := ss_unhex h ED25519_PUBLIC_KEY_LEN in
    if negb (r =? ED25519_PUBLIC_KEY_LEN) then (s, d)
    else
      let '(k, g) := swarm_stop_key_add pk (sgn s) in
      ss_status (if k =? 0 then (with_signed g s, d) else ss_persist (with_signed g s, d)).

Definition cmd_in (rest : list Z) (s : stop) : stop :=
  let '(h, _) := ss_word rest in
  let e := ent s in
  let '(got, bs) := ss_unhex h (u32 (SWARM_STOP_CMD_LEN - ss_inl e)) in
  let buf := blit (ss_in e) (ss_inl e) bs in
  if got <? 0 then with_ent (Entry buf (ss_inl e) true) s
  else with_ent (Entry buf (u32 (ss_inl e + got)) (ss_in_bad e)) s.

Definition cmd_apply (sd : stop * flat) : stop * flat :=
  let '(s, d) := sd in
  let e := ent s in
  let '(r, g) := if ss_in_bad e then (SWARM_STOP_E_HEAD, sgn s) else swarm_stop_apply (ss_in e) (ss_inl e) (sgn s) in
  let s := with_signed g s in
  let '(s, d) := if r =? SWARM_STOP_OK then ss_persist (with_fw (ss_forward (ss_in e) (fw s)) s, d) else (s, d) in
  ss_status (with_ent (Entry (ss_in e) 0 false) s, d).

(** The [test] word runs the self-test, which is not modelled: the state is put
    back at its end. *)
Definition swarm_stop_cmd (a : list Z) (sd : stop * flat) : stop * flat :=
  let '(s, d) := sd in
  let '(w, rest) := ss_word a in
  if (lenz w =? 0) || ss_is w kw_status then ss_status sd
  else if ss_is w kw_test then sd
  else if ss_is w kw_now then ss_status (ss_persist (with_local true s, d))
  else if ss_is w kw_resume then ss_status (ss_persist (with_local false s, d))
  else if ss_is w kw_key then cmd_key rest sd
  else if ss_is w kw_in then (cmd_in rest s, d)
  else if ss_is w kw_apply then cmd_apply sd
  else sd.

Definition swarm_stop_refuses_mind (a : list Z) (s : stop) : bool :=
  swarm_stop_is_stopped s && bool_decide (take 5 (skip_blanks a) = kw_teach).

(** ** The network *)

(** What the topic gives one tick: the handles that opening would return, and the
    bytes received ([None] for a result that is not positive). *)
Record tick_in : Type := TickIn { open_sub : Z; open_pub : Z; received : option (list Z) }.

Definition tick_open (i : tick_in) (f : forward) : forward :=
  Forward (if ss_pub f <? 0 then open_pub i else ss_pub f) (if ss_sub f <? 0 then open_sub i else ss_sub f)
    (ss_fwd f) (ss_have_fwd f) (ss_ticks f) (ss_refused_epoch f).

Definition tick_recv (bs : list Z) (sd : stop * flat) : stop * flat :=
  let '(s, d) := sd in
  let '(rc, g) := swarm_stop_apply bs (lenz bs) (sgn s) in
  let s := with_signed g s in
  if rc =? SWARM_STOP_OK then ss_status (ss_persist (with_fw (ss_forward bs (fw s)) s, d))
  else if negb (rc =? SWARM_STOP_E_REPLAY) && (12 <=? lenz bs) then
    let f := fw s in
    (with_fw (Forward (ss_pub f) (ss_sub f) (ss_fwd f) (ss_have_fwd f) (ss_ticks f)
       (if cmd_epoch bs =? ss_refused_epoch f then ss_refused_epoch f else cmd_epoch bs)) s, d)
  else (s, d).

(** The command published, if one is. *)
Definition tick_send (s : stop) : stop * option (list Z) :=
  let f := fw s in
  if negb (ss_have_fwd f && (0 <=? ss_pub f)) then (s, None)
  else
    let t := u32 (ss_ticks f + 1) in
    if t <? SS_REDRIVE_TICKS then (with_fw (Forward (ss_pub f) (ss_sub f) (ss_fwd f) true t (ss_refused_epoch f)) s, None)
    else (with_fw (Forward (ss_pub f) (ss_sub f) (ss_fwd f) true 0 (ss_refused_epoch f)) s, Some (ss_fwd f)).

Definition swarm_stop_net_tick (i : tick_in) (sd : stop * flat) : stop * flat * option (list Z) :=
  let '(s, d) := sd in
  let s := with_fw (tick_open i (fw s)) s in
  let '(s, d) := if 0 <=? ss_sub (fw s) then match received i with Some bs => tick_recv bs (s, d) | None => (s, d) end else (s, d) in
  let '(s, p) := tick_send s in
  (s, d, p).
End stop.
