(* ===== verification/StopFacts.v ===== *)
(** * What stops and resumes a node

    Only a command signed by a key of the table, with an epoch above the last
    one, moves the signed stop; nodes that heard the same commands agree; the
    last command is sent on by every node that accepted it; the state survives a
    reboot, and a damaged state file stops the node. *)

From stdpp Require Import list gmap.
#[local] Open Scope Z_scope.
From S2P Require Import Prelude.
From S2P Require Import Crc.
From S2P Require Import Durable.
From S2P Require Import FlatDisk.
From S2P Require Import Ed25519.
From S2P Require Import Sign.
From S2P Require Import Stop.

Section facts.
Context `{Signatures}.

(** ** The rule of acceptance *)

(** A command in form, signed by a key of the table; its length is the caller's. *)
Record genuine (keys : list (list Z)) (cmd : list Z) : Prop := {
  ge_name : cmd_name cmd = ss_name /\ getz cmd 6 0 = SWARM_STOP_VER;
  ge_op : cmd_op cmd = SWARM_STOP_OP_STOP \/ cmd_op cmd = SWARM_STOP_OP_RESUME;
  ge_key : cmd_pk cmd ∈ keys;
  ge_sig : sig_verify (cmd_sig cmd) (cmd_body cmd) (cmd_pk cmd) <> 0 }.

Lemma known_spec pk keys : ss_known pk keys = true <-> pk ∈ keys.
Proof.
  unfold ss_known, ss_eq. rewrite existsb_exists. setoid_rewrite <- list_elem_of_In. setoid_rewrite bool_decide_eq_true.
  split; [by intros (x & Hx & ->)|by exists pk].
Qed.

(** What a command does to the signed state, by its bytes alone. *)
Definition accepted (g : signed) (cmd : list Z) : signed := Signed (ss_keys g) (cmd_op cmd =? SWARM_STOP_OP_STOP) (cmd_epoch cmd).

Lemma apply_accepts g cmd : genuine (ss_keys g) cmd -> ss_epoch g < cmd_epoch cmd ->
  swarm_stop_apply cmd SWARM_STOP_CMD_LEN g = (SWARM_STOP_OK, accepted g cmd).
Proof.
  intros [[Hn Hv] Ho Hk Hs] He. unfold swarm_stop_apply. rewrite Z.eqb_refl. cbn [negb].
  unfold ss_eq. rewrite (bool_decide_eq_true_2 _ Hn), Hv, Z.eqb_refl. cbn [negb orb].
  assert (Hop : negb (cmd_op cmd =? SWARM_STOP_OP_STOP) && negb (cmd_op cmd =? SWARM_STOP_OP_RESUME) = false) by (destruct Ho as [-> | ->]; done).
  rewrite Hop, (proj2 (known_spec _ _) Hk). cbn [negb]. unfold sign_verify. rewrite (proj2 (Z.eqb_neq _ 0) Hs).
  change (1 =? 0) with false. cbv iota. by rewrite (proj2 (Z.leb_gt _ _)) by lia.
Qed.

(** Taken, or refused and nothing changed. *)
Lemma apply_cases g cmd len :
  (swarm_stop_apply cmd len g = (SWARM_STOP_OK, accepted g cmd) /\ len = SWARM_STOP_CMD_LEN /\ genuine (ss_keys g) cmd /\ ss_epoch g < cmd_epoch cmd) \/
  (exists e, swarm_stop_apply cmd len g = (e, g) /\ e < 0 /\ (e = SWARM_STOP_E_REPLAY -> cmd_epoch cmd <= ss_epoch g) /\
     ~ (len = SWARM_STOP_CMD_LEN /\ genuine (ss_keys g) cmd /\ ss_epoch g < cmd_epoch cmd)).
Proof.
  unfold swarm_stop_apply. destruct (Z.eqb_spec len SWARM_STOP_CMD_LEN) as [El|]; cbn [negb]; [|right; eexists; split_and!; [done..|]; by intros (? & _)].
  unfold ss_eq. case_bool_decide as En; cbn [negb orb]; [|right; eexists; split_and!; [done..|]; by intros (_ & [[? _] _ _ _] & _)].
  destruct (Z.eqb_spec (getz cmd 6 0) SWARM_STOP_VER) as [Ev|]; cbn [negb]; [|right; eexists; split_and!; [done..|]; by intros (_ & [[_ ?] _ _ _] & _)].
  destruct (Z.eqb_spec (cmd_op cmd) SWARM_STOP_OP_STOP) as [Eo|Eo], (Z.eqb_spec (cmd_op cmd) SWARM_STOP_OP_RESUME) as [Er|Er]; cbn [negb andb].
  4:{ right. eexists. split_and!; [done..|]. by intros (_ & [_ [?|?] _ _] & _). }
  all: pose proof (known_spec (cmd_pk cmd) (ss_keys g)) as Hk; destruct (ss_known _ _); cbn [negb];
    [|right; eexists; split_and!; [done..|]; intros (_ & [_ _ Hin _] & _); apply Hk in Hin; discriminate Hin].
  all: assert (Hin : cmd_pk cmd ∈ ss_keys g) by (by apply Hk); unfold sign_verify;
    destruct (Z.eqb_spec (sig_verify (cmd_sig cmd) (cmd_body cmd) (cmd_pk cmd)) 0);
    [right; eexists; split_and!; [done..|]; by intros (_ & [_ _ _ ?] & _)|change (1 =? 0) with false; cbv iota].
  all: destruct (Z.leb_spec (cmd_epoch cmd) (ss_epoch g)); [right; eexists; split_and!; [done|done|intros _; lia|intros (_ & _ & ?); lia]|].
  all: left; unfold accepted; first [rewrite Eo|rewrite Er]; (split; [done|]); (split; [done|]); (split; [|done]); split; auto.
Qed.

(** ** Runs *)

Inductive event : Type := Line (a : list Z) | Tick (i : tick_in).

(** The world after an event, and what it published. *)
Definition happen (e : event) (sd : stop * flat) : stop * flat * option (list Z) :=
  match e with Line a => (swarm_stop_cmd a sd, None) | Tick i => swarm_stop_net_tick i sd end.
Definition after (l : list event) (sd : stop * flat) : stop * flat := fold_left (fun sd e => fst (happen e sd)) l sd.

(** The command an event puts to the rule. *)
Definition presents (e : event) (s : stop) (cmd : list Z) : Prop :=
  match e with
  | Line a => cmd = ss_in (ent s) /\ ss_inl (ent s) = SWARM_STOP_CMD_LEN /\ ss_is (fst (ss_word a)) kw_apply = true
  | Tick i => received i = Some cmd /\ lenz cmd = SWARM_STOP_CMD_LEN
  end.

(** [e] took [cmd]: only then does the signed part of the state move. *)
Definition taken (e : event) (s s' : stop) (cmd : list Z) : Prop :=
  presents e s cmd /\ genuine (ss_keys (sgn s)) cmd /\ ss_epoch (sgn s) < cmd_epoch cmd /\ sgn s' = accepted (sgn s) cmd.

Definition same_signed (g g' : signed) : Prop := ss_stopped g' = ss_stopped g /\ ss_epoch g' = ss_epoch g.

Lemma persist_signed sd : sgn (fst (ss_persist sd)) = sgn (fst sd) /\ fw (fst (ss_persist sd)) = fw (fst sd) /\
  ss_local (fst (ss_persist sd)) = ss_local (fst sd) /\ ent (fst (ss_persist sd)) = ent (fst sd).
Proof.
  destruct sd as [s d]. unfold ss_persist. destruct (ss_quiet s); [done|]. destruct (pfs_dur_write _ _ _) as [ok d']. by destruct (_ && _).
Qed.
Lemma status_signed sd : sgn (fst (ss_status sd)) = sgn (fst sd) /\ fw (fst (ss_status sd)) = fw (fst sd).
Proof. done. Qed.

Lemma is_apply w : ss_is w kw_apply = true -> w = kw_apply.
Proof.
  revert w. assert (G : forall s w, ss_is w s = true -> w = s); [|by intros w; apply G].
  induction s as [|d s IH]; intros [|c w] E; try done. cbn [ss_is] in E. apply andb_true_iff in E as [E1 E2]. apply Z.eqb_eq in E1 as ->. f_equal. by apply IH.
Qed.

Lemma line_signed a s d : let s' := fst (swarm_stop_cmd a (s, d)) in
  same_signed (sgn s) (sgn s') \/ exists cmd, taken (Line a) s s' cmd.
Proof.
  cbv zeta. unfold swarm_stop_cmd. destruct (ss_word a) as [w rest] eqn:Ew.
  destruct (_ || _); [by left|]. destruct (ss_is w kw_test); [by left|].
  destruct (ss_is w kw_now). { left. destruct (persist_signed (with_local true s, d)) as [E _]. unfold ss_status. cbn [fst sgn with_save_bad]. by rewrite E. }
  destruct (ss_is w kw_resume). { left. destruct (persist_signed (with_local false s, d)) as [E _]. unfold ss_status. cbn [fst sgn with_save_bad]. by rewrite E. }
  destruct (ss_is w kw_key).
  { left. unfold cmd_key. destruct (ss_word rest) as [h r]. destruct (ss_is h kw_clear).
    - destruct (persist_signed (with_signed (swarm_stop_key_clear (sgn s)) s, d)) as [E _]. unfold ss_status. cbn [fst sgn with_save_bad]. by rewrite E.
    - destruct (negb _); [done|]. destruct (ss_unhex _ _) as [k pk]. destruct (negb _); [done|].
      destruct (swarm_stop_key_add pk (sgn s)) as [q g] eqn:Eadd.
      assert (Hg : same_signed (sgn s) g) by (unfold swarm_stop_key_add in Eadd; destruct (ss_known _ _); [|destruct (_ <=? _)]; injection Eadd as <- <-; by split).
      destruct (q =? 0); [done|]. destruct (persist_signed (with_signed g s, d)) as [E _]. unfold ss_status. cbn [fst sgn with_save_bad]. by rewrite E. }
  destruct (ss_is w kw_in). { left. unfold cmd_in. destruct (ss_word rest). destruct (ss_unhex _ _). by destruct (_ <? 0). }
  destruct (ss_is w kw_apply) eqn:Eap; [|by left]. unfold cmd_apply. destruct (ss_in_bad (ent s)); [by left|].
  destruct (apply_cases (sgn s) (ss_in (ent s)) (ss_inl (ent s))) as [(E & El & Hg & He)|(e & E & He & _)]; rewrite E.
  - right. exists (ss_in (ent s)). split_and!; [|done|done|].
    + cbn [presents]. by rewrite Ew.
    + change (SWARM_STOP_OK =? SWARM_STOP_OK) with true. cbv iota.
      match goal with |- context [ss_persist ?x] => pose proof (persist_signed x) as (Ep & _); destruct (ss_persist x) as [s1 d1] end. cbn in Ep |- *. exact Ep.
  - left. rewrite (proj2 (Z.eqb_neq e SWARM_STOP_OK)) by (unfold SWARM_STOP_OK; lia). done.
Qed.

Lemma tick_send_signed s : sgn (fst (tick_send s)) = sgn s.
Proof. unfold tick_send. destruct (negb _); [done|]. by destruct (_ <? _). Qed.

Lemma tick_signed i s d : let s' := fst (fst (swarm_stop_net_tick i (s, d))) in
  same_signed (sgn s) (sgn s') \/ exists cmd, taken (Tick i) s s' cmd.
Proof.
  cbv zeta. unfold swarm_stop_net_tick. set (s1 := with_fw (tick_open i (fw s)) s).
  assert (Hquiet : forall x (d' : flat), sgn x = sgn s -> same_signed (sgn s) (sgn (fst (fst (let '(s2, p) := tick_send x in (s2, d', p)))))).
  { intros x d' E. pose proof (tick_send_signed x) as E2. destruct (tick_send x) as [s2 p]. cbn [fst] in *. by rewrite E2, E. }
  destruct (0 <=? ss_sub (fw s1)); [|left; by apply Hquiet].
  destruct (received i) as [bs|] eqn:Er; [|left; by apply Hquiet].
  unfold tick_recv. change (sgn s1) with (sgn s). destruct (apply_cases (sgn s) bs (lenz bs)) as [(E & El & Hg & He)|(e & E & He & _)]; rewrite E.
  - right. exists bs. change (SWARM_STOP_OK =? SWARM_STOP_OK) with true. cbv iota.
    match goal with |- context [ss_persist ?x] => pose proof (persist_signed x) as (Ep & _); destruct (ss_persist x) as [s2 d2] end.
    unfold ss_status. cbn [fst snd]. pose proof (tick_send_signed (with_save_bad false s2)) as E2. destruct (tick_send (with_save_bad false s2)) as [s3 p]. cbn [fst] in *.
    split_and!; [by split|done|done|]. rewrite E2. exact Ep.
  - left. rewrite (proj2 (Z.eqb_neq e SWARM_STOP_OK)) by (unfold SWARM_STOP_OK; lia). destruct (_ && _); by apply Hquiet.
Qed.

Lemma happen_signed e sd : same_signed (sgn (fst sd)) (sgn (fst (fst (happen e sd)))) \/ exists cmd, taken e (fst sd) (fst (fst (happen e sd))) cmd.
Proof. destruct sd as [s d], e as [a|i]; [apply line_signed|apply tick_signed]. Qed.

Lemma after_snoc l e sd : after (l ++ [e]) sd = fst (happen e (after l sd)).
Proof. unfold after. by rewrite fold_left_app. Qed.

(** C20: only a signed command moves the signed stop. In every run of console lines
    and ticks, whatever they carry, the epoch never goes back; the stop and the
    epoch are those of the start, or those of the last command taken: one of 108
    bytes in form that an event put to the rule, signed by a key that was in the
    table then, with an epoch above the one the node had. So no other line, no
    packet and no change of the table lifts a signed stop, and a node whose table
    stays empty is stopped by no packet. *)
Theorem stop_authorised (sd : stop * flat) (l : list event) :
  let g := sgn (fst sd) in let g' := sgn (fst (after l sd)) in
  ss_epoch g <= ss_epoch g' /\
  (same_signed g g' \/
   exists l1 e l2 cmd, l = l1 ++ e :: l2 /\ taken e (fst (after l1 sd)) (fst (after (l1 ++ [e]) sd)) cmd /\
     same_signed (accepted g cmd) g' /\ ss_epoch g < cmd_epoch cmd).
Proof.
  cbv zeta. induction l as [|e l IH] using rev_ind; [by split; [|left]|].
  destruct IH as [Hle IH]. rewrite after_snoc. destruct (happen_signed e (after l sd)) as [[Es Ee]|(cmd & Ht)].
  - split; [lia|]. destruct IH as [[Es' Ee']|(l1 & x & l2 & cmd & -> & Ht & [Hs He] & Hlt)].
    + left. split; congruence.
    + right. exists l1, x, (l2 ++ [e]), cmd. split_and!; [by rewrite <- app_assoc|done|split; congruence|done].
  - pose proof Ht as (_ & _ & Hlt & Eg). rewrite Eg. cbn [accepted ss_epoch ss_stopped]. split; [lia|].
    right. exists l, e, [], cmd. rewrite after_snoc. split_and!; [done|done|done|lia].
Qed.

(** ** Agreement *)

Definition proper (keys : list (list Z)) (cmd : list Z) : Prop := lenz cmd = SWARM_STOP_CMD_LEN /\ genuine keys cmd.
Definition apply_all (l : list (list Z)) (g : signed) : signed := fold_left (fun g c => snd (swarm_stop_apply c (lenz c) g)) l g.

Record best (g : signed) (l : list (list Z)) (g' : signed) : Prop := {
  be_keys : ss_keys g' = ss_keys g;
  be_from : ss_epoch g <= ss_epoch g';
  be_max : forall c, c ∈ l -> proper (ss_keys g) c -> cmd_epoch c <= ss_epoch g';
  be_which : g' = g \/ exists c, c ∈ l /\ proper (ss_keys g) c /\ ss_epoch g < cmd_epoch c /\ g' = accepted g c }.

Lemma apply_all_best l g : best g l (apply_all l g).
Proof.
  induction l as [|c l IH] using rev_ind; [split; [done|done|by intros c Hc; apply elem_of_nil in Hc|by left]|].
  destruct IH as [Hk Hf Hm Hw]. unfold apply_all in *. rewrite fold_left_app. cbn [fold_left].
  revert Hk Hf Hm Hw. generalize (fold_left (fun g c => snd (swarm_stop_apply c (lenz c) g)) l g). intros b Hk Hf Hm Hw.
  destruct (apply_cases b c (lenz c)) as [(E & El & Hg & He)|(e & E & _ & _ & Hno)]; rewrite E; cbn [snd].
  - split; cbn [accepted ss_keys ss_epoch].
    + done.
    + lia.
    + intros x Hx Hp. apply elem_of_app in Hx as [Hx|Hx]; [specialize (Hm x Hx Hp); lia|]. apply list_elem_of_singleton in Hx as ->. lia.
    + right. exists c. rewrite Hk in Hg. split; [apply elem_of_app; right; by apply list_elem_of_singleton|]. split; [exact (conj El Hg)|]. split; [lia|]. unfold accepted. by rewrite Hk.
  - split; [done|done| |].
    + intros x Hx Hp. apply elem_of_app in Hx as [Hx|Hx]; [by apply Hm|]. apply list_elem_of_singleton in Hx as ->.
      destruct (Z.leb_spec (cmd_epoch c) (ss_epoch b)); [done|]. destruct Hno. rewrite Hk. destruct Hp. by split_and!.
    + destruct Hw as [->|(x & Hx & Hp & Hlt & ->)]; [by left|]. right. exists x. split; [apply elem_of_app; by left|done].
Qed.

(** C21: nodes that heard the same commands are in the same state: two nodes that
    start alike and are given commands with the same members, in any order, any
    number of times and with anything else mixed in, end with the same keys, stop
    and epoch, those of the accepted command with the highest epoch, provided the
    holders of the keys gave no epoch to both a stop and a resume. *)
Theorem stop_converges (g : signed) (l k : list (list Z)) (Hsame : forall c, proper (ss_keys g) c -> (c ∈ l <-> c ∈ k))
  (Hop : forall c c', c ∈ l -> c' ∈ l -> proper (ss_keys g) c -> proper (ss_keys g) c' -> cmd_epoch c = cmd_epoch c' -> cmd_op c = cmd_op c') :
  apply_all l g = apply_all k g /\
  (forall c, c ∈ l -> proper (ss_keys g) c -> ss_epoch g < cmd_epoch c ->
     (forall c', c' ∈ l -> proper (ss_keys g) c' -> cmd_epoch c' <= cmd_epoch c) -> apply_all l g = accepted g c).
Proof.
  destruct (apply_all_best l g) as [_ Hf Hm Hw]. destruct (apply_all_best k g) as [_ Hf' Hm' Hw'].
  revert Hf Hm Hw Hf' Hm' Hw'. generalize (apply_all l g), (apply_all k g). intros a b Hf Hm Hw Hf' Hm' Hw'. split.
  - destruct Hw as [->|(c & Hc & Hp & Hlt & ->)], Hw' as [->|(c' & Hc' & Hp' & Hlt' & ->)]; cbn [accepted ss_epoch] in *.
    + done.
    + specialize (Hm c' ltac:(by apply Hsame) Hp'). lia.
    + specialize (Hm' c ltac:(by apply Hsame) Hp). lia.
    + specialize (Hm c' ltac:(by apply Hsame) Hp'). specialize (Hm' c ltac:(by apply Hsame) Hp).
      assert (E : cmd_epoch c = cmd_epoch c') by lia. unfold accepted. by rewrite E, (Hop c c' Hc ltac:(by apply Hsame) Hp Hp' E).
  - intros c Hc Hp Hlt Hbest. specialize (Hm c Hc Hp). destruct Hw as [->|(x & Hx & Hpx & Hltx & ->)]; [lia|]. cbn [accepted ss_epoch] in *.
    specialize (Hbest x Hx Hpx). assert (E : cmd_epoch x = cmd_epoch c) by lia. unfold accepted. by rewrite E, (Hop x c Hx Hc Hpx Hp E).
Qed.

(** ** Sending on *)

(** The node holds the command and has the topic. *)
Definition carries (s : stop) (cmd : list Z) : Prop := ss_have_fwd (fw s) = true /\ ss_fwd (fw s) = cmd /\ 0 <= ss_pub (fw s) /\ 0 <= ss_ticks (fw s) <= 4.

(** The handle the node would have after opening. *)
Definition opened (i : tick_in) (s : stop) : Prop := 0 <= ss_pub (tick_open i (fw s)) /\ 0 <= ss_sub (tick_open i (fw s)).

Lemma send_carried s cmd : carries s cmd -> 
  let '(s', p) := tick_send s in carries s' cmd /\ sgn s' = sgn s /\ ss_local s' = ss_local s /\
  (p = Some cmd /\ ss_ticks (fw s') = 0 /\ 3 <= ss_ticks (fw s) \/ p = None /\ ss_ticks (fw s') = ss_ticks (fw s) + 1 /\ ss_ticks (fw s) < 3).
Proof.
  intros (Hh & Hf & Hp & Ht). unfold tick_send. rewrite Hh, (proj2 (Z.leb_le _ _) Hp). cbn [andb negb].
  rewrite u32_small by (unfold is_u32; lia). unfold SS_REDRIVE_TICKS.
  destruct (Z.ltb_spec (ss_ticks (fw s) + 1) 4); unfold carries; cbn [fw with_fw ss_have_fwd ss_fwd ss_pub ss_ticks sgn ss_local]; split_and!; try done; try lia; [right|left]; split_and!; (by f_equal) || lia.
Qed.

(** A node that hears a genuine command above its epoch obeys and sends it on
    within the same tick. *)
Lemma tick_obeys i s d cmd : received i = Some cmd -> opened i s -> proper (ss_keys (sgn s)) cmd -> ss_epoch (sgn s) < cmd_epoch cmd ->
  let '(s', _, p) := swarm_stop_net_tick i (s, d) in
  sgn s' = accepted (sgn s) cmd /\ p = Some cmd /\ carries s' cmd.
Proof.
  intros Hr [Ho1 Ho2] [Hl Hg] He. unfold swarm_stop_net_tick. cbn [fw with_fw]. rewrite (proj2 (Z.leb_le _ _) Ho2), Hr.
  unfold tick_recv. cbn [sgn with_fw]. rewrite Hl, (apply_accepts _ _ Hg He). change (SWARM_STOP_OK =? SWARM_STOP_OK) with true. cbv iota.
  match goal with |- context [ss_persist ?x] => pose proof (persist_signed x) as (E1 & E2 & _); destruct (ss_persist x) as [s1 d1] end.
  cbn [fst sgn fw with_fw with_signed ss_forward] in E1, E2. unfold ss_status. cbn [fst snd].
  assert (Hc : carries (with_save_bad false s1) cmd).
  { unfold carries. cbn [fw with_save_bad]. rewrite E2. cbn [ss_forward ss_have_fwd ss_fwd ss_pub ss_ticks]. unfold SS_REDRIVE_TICKS.
    split_and!; [done| |done|lia..]. apply firstn_all2. unfold lenz in Hl. change SWARM_STOP_CMD_LEN with 108 in Hl. lia. }
  pose proof (send_carried _ _ Hc) as Hs. destruct (tick_send (with_save_bad false s1)) as [s2 p]. destruct Hs as (Hc2 & Es & _ & Hp).
  split_and!; [by rewrite Es|..|done]. destruct Hp as [(-> & _)|(_ & _ & Hlt)]; [done|].
  cbn [fw with_save_bad] in Hlt. rewrite E2 in Hlt. cbn [ss_forward ss_ticks] in Hlt. unfold SS_REDRIVE_TICKS in Hlt. lia.
Qed.

(** A tick that brings no new command. *)
Definition calm (g : signed) (i : tick_in) : Prop :=
  match received i with Some bs => ~ (proper (ss_keys g) bs /\ ss_epoch g < cmd_epoch bs) | None => True end.

Lemma tick_calm i s d cmd : calm (sgn s) i -> carries s cmd ->
  let '(s', d', p) := swarm_stop_net_tick i (s, d) in
  carries s' cmd /\ sgn s' = sgn s /\ ss_local s' = ss_local s /\
  (p = Some cmd /\ ss_ticks (fw s') = 0 /\ 3 <= ss_ticks (fw s) \/ p = None /\ ss_ticks (fw s') = ss_ticks (fw s) + 1 /\ ss_ticks (fw s) < 3).
Proof.
  intros Hcalm (Hh & Hf & Hp & Ht). unfold swarm_stop_net_tick. set (s1 := with_fw (tick_open i (fw s)) s).
  assert (Hrest : forall s2 d2, carries s2 cmd -> sgn s2 = sgn s -> ss_local s2 = ss_local s -> ss_ticks (fw s2) = ss_ticks (fw s) ->
    let '(s', d', p) := let '(s3, p) := tick_send s2 in (s3, d2 : flat, p) in
    carries s' cmd /\ sgn s' = sgn s /\ ss_local s' = ss_local s /\
    (p = Some cmd /\ ss_ticks (fw s') = 0 /\ 3 <= ss_ticks (fw s) \/ p = None /\ ss_ticks (fw s') = ss_ticks (fw s) + 1 /\ ss_ticks (fw s) < 3)).
  { intros s2 d2 Hc2 Es El Et. pose proof (send_carried s2 cmd Hc2) as H2. destruct (tick_send s2) as [s3 p]. by rewrite Et, Es, El in H2. }
  assert (Hc1 : carries s1 cmd).
  { unfold carries, s1, tick_open. cbn [fw with_fw ss_have_fwd ss_fwd ss_pub ss_ticks]. rewrite (proj2 (Z.ltb_ge _ 0) Hp). exact (conj Hh (conj Hf (conj Hp Ht))). }
  destruct (0 <=? ss_sub (fw s1)); [|by apply Hrest]. unfold calm in Hcalm. destruct (received i) as [bs|]; [|by apply Hrest].
  unfold tick_recv. change (sgn s1) with (sgn s). destruct (apply_cases (sgn s) bs (lenz bs)) as [(E & El & Hg & He)|(e & E & He & _)].
  - destruct (Hcalm (conj (conj El Hg) He)).
  - rewrite E, (proj2 (Z.eqb_neq e SWARM_STOP_OK)) by (unfold SWARM_STOP_OK; lia). destruct (_ && _); apply Hrest; done.
Qed.

(** What the node publishes over some ticks. *)
Fixpoint published (l : list tick_in) (sd : stop * flat) : list (option (list Z)) :=
  match l with [] => [] | i :: l => let '(s, d, p) := swarm_stop_net_tick i sd in p :: published l (s, d) end.

Lemma carrier_publishes l s d cmd : carries s cmd -> Forall (calm (sgn s)) l ->
  Forall (fun p => p = None \/ p = Some cmd) (published l (s, d)) /\
  (4 - ss_ticks (fw s) <= lenz l -> (1 <= length l)%nat -> Some cmd ∈ published l (s, d)).
Proof.
  revert s d. induction l as [|i l IH]; intros s d Hc Hl; [split; [constructor|intros ? Hlen; cbn in Hlen; lia]|].
  apply list.Forall_cons in Hl as [Hi Hl]. cbn [published]. pose proof (tick_calm i s d cmd Hi Hc) as Ht.
  destruct (swarm_stop_net_tick i (s, d)) as [[s' d'] p]. destruct Ht as (Hc' & Es & _ & Hp). rewrite <- Es in Hl.
  destruct (IH s' d' Hc' Hl) as [Ha Hb]. split.
  - constructor; [|done]. destruct Hp as [(-> & _)|(-> & _)]; auto.
  - intros Hn _. destruct Hp as [(-> & _)|(-> & Et & Hlt)]; [apply list_elem_of_here|]. apply list_elem_of_further. apply Hb.
    + unfold lenz in *. cbn [length] in Hn. lia.
    + unfold lenz in Hn. cbn [length] in Hn. lia.
Qed.

(** A line of nodes, each hearing in one tick what the one before published. *)
Fixpoint relayed (m : option (list Z)) (nodes : list (stop * flat)) : list (stop * flat) * option (list Z) :=
  match nodes with
  | [] => ([], m)
  | sd :: r => let '(s, d, p) := swarm_stop_net_tick (TickIn 0 0 m) sd in let '(r, q) := relayed p r in ((s, d) :: r, q)
  end.

(** The command is news to the node: signed by a key of its table, above its epoch. *)
Definition news (cmd : list Z) (sd : stop * flat) : Prop := proper (ss_keys (sgn (fst sd))) cmd /\ ss_epoch (sgn (fst sd)) < cmd_epoch cmd.

(** C22: a stop reaches every node that has the key, whoever hears it from whom
    and however late. A node that holds a command publishes it at least once in
    any four ticks, and nothing else, while it hears nothing newer; and along any
    line of nodes to which it is news, each that hears it from the one before
    obeys it and publishes it in the same tick, so all of them end stopped (or
    resumed) at its epoch. *)
Theorem stop_floods (s : stop) (d : flat) (cmd : list Z) (l : list tick_in) (nodes : list (stop * flat))
  (Hc : carries s cmd) (Hcalm : Forall (calm (sgn s)) l) (Hlen : length l = 4%nat) (Hnews : Forall (news cmd) nodes) :
  (Some cmd ∈ published l (s, d) /\ Forall (fun p => p = None \/ p = Some cmd) (published l (s, d))) /\
  (let '(nodes', q) := relayed (Some cmd) nodes in
   q = Some cmd /\ Forall2 (fun sd sd' => sgn (fst sd') = accepted (sgn (fst sd)) cmd /\ carries (fst sd') cmd) nodes nodes').
Proof.
  split.
  - destruct (carrier_publishes l s d cmd Hc Hcalm) as [Ha Hb]. split; [|exact Ha]. destruct Hc as (_ & _ & _ & Ht). apply Hb; unfold lenz; lia.
  - induction Hnews as [|[s1 d1] r [Hp He] _ IH]; [by split; [|constructor]|]. cbn [relayed fst] in *.
    pose proof (tick_obeys (TickIn 0 0 (Some cmd)) s1 d1 cmd eq_refl) as Ho. destruct (swarm_stop_net_tick _ (s1, d1)) as [[s2 d2] p].
    destruct Ho as (Eg & -> & Hc2); [unfold opened, tick_open; cbn [ss_pub ss_sub open_pub open_sub]; destruct (Z.ltb_spec (ss_pub (fw s1)) 0), (Z.ltb_spec (ss_sub (fw s1)) 0); lia|done|done|].
    destruct (relayed (Some cmd) r) as [r' q]. destruct IH as [-> IH]. split; [done|]. constructor; [by split|done].
Qed.

(** ** Words *)

Lemma lor_shift x y n : 0 <= n -> 0 <= x < 2 ^ n -> Z.lor x (Z.shiftl y n) = x + y * 2 ^ n.
Proof.
  intros Hn Hx. rewrite <- Z.shiftl_mul_pow2 by lia. symmetry. apply Z.add_nocarry_lor. apply Z.bits_inj'. intros i Hi.
  rewrite Z.land_spec, Z.bits_0, Z.shiftl_spec by lia. destruct (Z.ltb_spec i n).
  - rewrite (Z.testbit_neg_r y (i - n)) by lia. apply andb_false_r.
  - rewrite <- (Z.mod_small x (2 ^ n)) by lia. by rewrite Z.mod_pow2_bits_high by lia.
Qed.

Lemma le_word a b c d : is_u8 a -> is_u8 b -> is_u8 c -> is_u8 d ->
  Z.lor (Z.lor (Z.lor a (Z.shiftl b 8)) (Z.shiftl c 16)) (Z.shiftl d 24) = of_le [a; b; c; d].
Proof.
  unfold is_u8. intros Ha Hb Hc Hd. rewrite (lor_shift a b 8) by lia. rewrite (lor_shift _ c 16) by lia. rewrite (lor_shift _ d 24) by lia.
  cbn [of_le]. lia.
Qed.

Lemma u8_land x : u8 x = Z.land x 0xFF.
Proof. change 0xFF with (Z.ones 8). by rewrite Z.land_ones by lia. Qed.
Lemma put32_le v : ss_put32 v = le 4 v.
Proof. unfold ss_put32. rewrite !u8_land. reflexivity. Qed.

Lemma get32_put v pre post : is_u32 v -> ss_get32 (pre ++ ss_put32 v ++ post) (lenz pre) = v.
Proof.
  intros Hv. unfold ss_get32.
  assert (G : forall k x l, l !! k = Some x -> getz (pre ++ l) (lenz pre + Z.of_nat k) 0 = x).
  { intros k x l Hk. unfold lenz. rewrite <- Nat2Z.inj_add. apply getz_nat. rewrite lookup_app_r by lia. by replace (length pre + k - length pre)%nat with k by lia. }
  rewrite <- (Z.add_0_r (lenz pre)) at 1. change 0 with (Z.of_nat 0) at 1. rewrite (G 0%nat (u8 v)) by done.
  change 1 with (Z.of_nat 1). rewrite (G 1%nat (u8 (Z.shiftr v 8))) by done. change 2 with (Z.of_nat 2). rewrite (G 2%nat (u8 (Z.shiftr v 16))) by done.
  change 3 with (Z.of_nat 3). rewrite (G 3%nat (u8 (Z.shiftr v 24))) by done. rewrite le_word by auto with machine.
  change [u8 v; u8 (Z.shiftr v 8); u8 (Z.shiftr v 16); u8 (Z.shiftr v 24)] with (ss_put32 v). rewrite put32_le, of_le_le.
  change (2 ^ (8 * Z.of_nat 4)) with (2 ^ 32). apply Z.mod_small. exact Hv.
Qed.

Lemma ss_crc_bit_shift c : is_u32 c -> ss_crc_bit c = crc_shift 0xEDB88320 c.
Proof.
  intros Hc. rewrite <- (mask_step 0xEDB88320 c) by done. unfold ss_crc_bit. f_equal. f_equal.
  assert (Z.land c 1 = b2z (Z.testbit c 0)) as ->.
  { change 1 with (Z.ones 1) at 1. rewrite Z.land_ones, Z.bit0_odd, Zmod_odd by lia. by destruct (Z.odd c). }
  by destruct (Z.testbit c 0).
Qed.

Lemma ss_crc_bits n i c : is_u32 c -> for_up n i (fun _ c => ss_crc_bit c) c = for_up n i (fun _ c => crc_shift 0xEDB88320 c) c.
Proof.
  revert i c. induction n as [|n IH]; intros i c Hc; [done|]. cbn [for_up]. rewrite ss_crc_bit_shift by done. apply IH. by apply crc_shift_range.
Qed.
Lemma ss_crc_byte_loop c b : ss_crc_byte c b = for_up 8 0 (fun _ c => ss_crc_bit c) (Z.lxor c b).
Proof. reflexivity. Qed.
Lemma ss_crc_byte_in c b : is_u32 c -> is_u8 b -> ss_crc_byte c b = crc_in 0xEDB88320 c b.
Proof. intros Hc Hb. rewrite ss_crc_byte_loop, crc_in_loop. apply ss_crc_bits. by apply lxor_reg. Qed.
Lemma ss_crc_of l : Forall is_u8 l -> ss_crc32 l = crc_of 0xEDB88320 l.
Proof.
  intros Hl. unfold ss_crc32, crc_of. change FULL with (Z.ones 32).
  rewrite (fold_left_same_on ss_crc_byte (crc_in 0xEDB88320) is_u32 is_u8 l); [reflexivity|exact ss_crc_byte_in|by apply crc_in_range|done|done].
Qed.

(** ** The state file *)

(** The types of the state: what the arrays and words of the source hold. *)
Record signed_ok (g : signed) : Prop := {
  so_keys : Forall (fun k => length k = 32%nat /\ Forall is_u8 k) (ss_keys g);
  so_few : lenz (ss_keys g) <= SWARM_STOP_KEYS_MAX;
  so_epoch : is_u32 (ss_epoch g) }.
Record stop_ok (s : stop) : Prop := {
  sk_signed : signed_ok (sgn s);
  sk_fwd : length (ss_fwd (fw s)) = 108%nat /\ Forall is_u8 (ss_fwd (fw s));
  sk_ticks : 0 <= ss_ticks (fw s) <= SS_REDRIVE_TICKS;
  sk_entry : length (ss_in (ent s)) = 108%nat /\ Forall is_u8 (ss_in (ent s)) /\ 0 <= ss_inl (ent s) <= SWARM_STOP_CMD_LEN }.

Lemma concat_rows keys : Forall (fun k => length k = 32%nat /\ Forall is_u8 k) keys ->
  length (concat keys) = (32 * length keys)%nat /\ Forall is_u8 (concat keys) /\ key_rows (length keys) (concat keys) = keys.
Proof.
  induction 1 as [|k keys [Hk Hb] _ (IHl & IHb & IHr)]; [done|]. cbn [concat length key_rows]. rewrite length_app, IHl, Hk.
  split; [lia|]. split; [by apply list.Forall_app|]. rewrite take_app_le, firstn_all2, drop_app_ge, Hk by lia. change (drop (32 - 32) (concat keys)) with (concat keys). by rewrite IHr.
Qed.

Lemma body_bytes s : stop_ok s -> Forall is_u8 (file_body s) /\ lenz (file_body s) = 120 + 32 * lenz (ss_keys (sgn s)).
Proof.
  intros [[Hk Hf He] [Hlf Hbf] _ _]. destruct (concat_rows _ Hk) as (Hl & Hb & _). unfold SWARM_STOP_KEYS_MAX in Hf. split.
  - unfold file_body. rewrite put32_le. rewrite !list.Forall_app. split_and!; [|apply le_bytes| |done|done].
    + assert (Hb2 : forall b : bool, is_u8 (b2z b)) by (intros [|]; done).
      constructor; [done|constructor; [apply Hb2|constructor; [apply Hb2|constructor; [apply Hb2|constructor]]]].
    + constructor; [apply u8_range|constructor; [done|constructor; [done|constructor; [done|constructor]]]].
  - unfold file_body, ss_put32, lenz. rewrite !length_app, Hlf, Hl. cbn [length]. lia.
Qed.

Lemma crc_u32 s : stop_ok s -> is_u32 (ss_crc32 (file_body s)).
Proof. intros Hs. destruct (body_bytes s Hs) as [Hb _]. rewrite ss_crc_of by done. by apply crc_of_range. Qed.

Lemma image_split s : file_image s = ss_file_magic ++ ss_put32 (ss_crc32 (file_body s)) ++ file_body s.
Proof. done. Qed.
#[local] Opaque ss_crc32 ss_get32 u32.

Lemma image_len s : stop_ok s -> lenz (file_image s) = 128 + 32 * lenz (ss_keys (sgn s)).
Proof. intros Hs. destruct (body_bytes s Hs) as [_ Hl]. unfold file_image, ss_put32, lenz in *. rewrite !length_app. cbn [length]. unfold ss_file_magic. cbn [length]. lia. Qed.

Lemma image_count s : stop_ok s -> getz (file_image s) 16 0 = lenz (ss_keys (sgn s)).
Proof.
  intros [[_ Hf _] _ _ _]. change (getz (file_image s) 16 0) with (u8 (lenz (ss_keys (sgn s)))). apply u8_small.
  pose proof (lenz_nonneg (ss_keys (sgn s))). unfold is_u8, SWARM_STOP_KEYS_MAX in *. lia.
Qed.

Lemma image_good s : stop_ok s -> file_bad (file_image s) = false.
Proof.
  intros Hs. pose proof (image_len s Hs) as Hl. pose proof (image_count s Hs) as Hc. pose proof (so_few _ (sk_signed s Hs)) as Hf.
  pose proof (lenz_nonneg (ss_keys (sgn s))) as H0. unfold file_bad. rewrite Hl, Hc. unfold SS_HDR_LEN, SWARM_STOP_KEYS_MAX in *. change (20 + SWARM_STOP_CMD_LEN) with 128.
  rewrite (proj2 (Z.ltb_ge _ 128)) by lia. rewrite (proj2 (Z.leb_le 128 _)) by lia. rewrite (proj2 (Z.ltb_ge 4 _)) by lia.
  change ED25519_PUBLIC_KEY_LEN with 32. rewrite (u32_small (lenz _)) by (unfold is_u32; lia). rewrite u32_small by (unfold is_u32; lia).
  rewrite (proj2 (Z.eqb_eq (128 + _) _)) by lia. cbn [negb orb].
  assert (E1 : ss_eq (take 4 (file_image s)) ss_file_magic = true) by (apply bool_decide_eq_true; reflexivity). rewrite E1.
  change (getz (file_image s) 8 0) with 1. change (1 =? SS_FILE_VER) with true. cbn [negb orb].
  change (drop 8 (file_image s)) with (file_body s). rewrite image_split. change 4 with (lenz ss_file_magic). rewrite get32_put by by apply crc_u32.
  by rewrite Z.eqb_refl.
Qed.

(** A reader of the file [img]: the directory has it whole. *)
Definition on_disk (d : flat) (img : list Z) : Prop :=
  exists dir x, dur_dir d = Some dir /\ path_fits dir SS_FILE = true /\ files d !! SS_FILE = Some x /\ content x = img.

Lemma on_disk_read d img : on_disk d img -> lenz img <= SS_FILE_MAX -> dur_read [] SS_FILE SS_FILE_MAX d = Some img.
Proof.
  intros (dir & x & Hd & Hp & Hx & Hc) Hl. rewrite (dur_read_ok SS_FILE SS_FILE_MAX d dir x) by done. rewrite Hc. f_equal. apply firstn_all2.
  unfold lenz in Hl. lia.
Qed.


Lemma written_on_disk img d : fst (pfs_dur_write SS_FILE img d) = true -> on_disk (snd (pfs_dur_write SS_FILE img d)) img.
Proof.
  cbn [pfs_dur_write flat_durable]. intros Hok.
  assert (exists dir, dur_dir d = Some dir /\ path_fits dir SS_FILE = true) as (dir & Hd & Hp).
  { revert Hok. unfold dur_write. destruct (dur_dir d) as [dir|]; [|done]. destruct (force_fail d); [done|].
    destruct (path_fits dir SS_FILE) eqn:E; [|done]. by exists dir. }
  exists dir, (File img true). rewrite dur_write_dir, dur_write_result, Hok by (intros E; by apply (tmp_ne SS_FILE)).
  rewrite bool_decide_eq_true_2 by done. done.
Qed.

Lemma image_fits s : stop_ok s -> lenz (file_image s) <= SS_FILE_MAX.
Proof. intros Hs. rewrite image_len by done. pose proof (so_few _ (sk_signed s Hs)). unfold SWARM_STOP_KEYS_MAX in *. change SS_FILE_MAX with 256. lia. Qed.

(** What stops a node survives a reboot: when the write of the state file
    succeeds, a node that boots from it has the keys, the signed and the local
    stop, the epoch and the command to send on of the one that wrote it. *)
Theorem stop_kept (s : stop) (d : flat) (Hs : stop_ok s) (Hq : ss_quiet s = false)
  (Hw : fst (pfs_dur_write SS_FILE (file_image s) d) = true) :
  let d' := snd (ss_persist (s, d)) in
  swarm_stop_restore [] (stop0, d') =
    (Stop (sgn s) (ss_local s) (Forward (-1) (-1) (ss_fwd (fw s)) (ss_have_fwd (fw s)) 0 0xFFFFFFFF) (ent stop0) false false, d').
Proof.
  cbv zeta. assert (Hd : snd (ss_persist (s, d)) = snd (pfs_dur_write SS_FILE (file_image s) d)).
  { unfold ss_persist. rewrite Hq. destruct (pfs_dur_write SS_FILE (file_image s) d). by destruct (_ && _). }
  rewrite Hd. pose proof (written_on_disk _ _ Hw) as Ho. revert Ho. generalize (snd (pfs_dur_write SS_FILE (file_image s) d)). clear Hd Hw d Hq. intros d Ho.
  unfold swarm_stop_restore. rewrite (on_disk_read d _ Ho (image_fits s Hs)), (image_good s Hs), (image_count s Hs).
  destruct s as [[keys st ep] lo [p sb fwd hf tk re] [inb inl bad] q sv]. pose proof Hs as [[Hk Hf He] [Hlf Hbf] _ _]. cbn [sgn fw ent ss_keys ss_stopped ss_epoch ss_fwd ss_have_fwd ss_local] in *.
  destruct (concat_rows keys Hk) as (Hlk & _ & Hrows). f_equal. f_equal.
  - f_equal.
    + change (drop (Z.to_nat SS_HDR_LEN) (file_image _)) with (drop 108 (fwd ++ concat keys)). rewrite drop_app_ge, Hlf by lia.
      change (drop (108 - 108) (concat keys)) with (concat keys). replace (Z.to_nat (lenz keys)) with (length keys) by (unfold lenz; lia). exact Hrows.
    + match goal with |- negb (getz ?i 9 0 =? 0) = _ => change (getz i 9 0) with (b2z st) end. by destruct st.
    + rewrite image_split. unfold file_body. cbn [sgn fw ss_epoch].
      match goal with |- ss_get32 (?a ++ ?b ++ (?c ++ ?w ++ ?r)) 12 = _ => replace (a ++ b ++ (c ++ w ++ r)) with ((a ++ b ++ c) ++ w ++ r) by (by rewrite <- !app_assoc); change 12 with (lenz (a ++ b ++ c)) end.
      by apply get32_put.
  - match goal with |- negb (getz ?i 10 0 =? 0) = _ => change (getz i 10 0) with (b2z lo) end. by destruct lo.
  - f_equal.
    + unfold fwd_part. change (drop 20 (file_image _)) with (fwd ++ concat keys). change (Z.to_nat SWARM_STOP_CMD_LEN) with 108%nat.
      rewrite take_app_le, firstn_all2 by lia. done.
    + match goal with |- negb (getz ?i 11 0 =? 0) = _ => change (getz i 11 0) with (b2z hf) end. by destruct hf.
Qed.

Lemma getz_mid (pre post : list Z) b : getz (pre ++ b :: post) (lenz pre) 0 = b.
Proof. unfold lenz. apply getz_nat. by apply list_lookup_middle. Qed.
Lemma getz_mid_ne (pre post : list Z) b b' j : j <> lenz pre -> getz (pre ++ b :: post) j 0 = getz (pre ++ b' :: post) j 0.
Proof.
  intros Hj. unfold getz, lenz in *. destruct (Z.ltb_spec j 0); [done|]. destruct (decide (Z.to_nat j < length pre)%nat).
  - by rewrite !app_nth1 by done.
  - rewrite !app_nth2 by lia. destruct (Z.to_nat j - length pre)%nat eqn:E; [lia|]. done.
Qed.

#[local] Transparent ss_get32.
Lemma get32_le l off : Forall is_u8 l -> ss_get32 l off = of_le [getz l off 0; getz l (off + 1) 0; getz l (off + 2) 0; getz l (off + 3) 0].
Proof. intros Hl. unfold ss_get32. apply le_word; by apply (getz_Forall is_u8). Qed.
Lemma get32_ext l l' off : (forall j, off <= j <= off + 3 -> getz l j 0 = getz l' j 0) -> ss_get32 l off = ss_get32 l' off.
Proof. intros E. unfold ss_get32. by rewrite !E by lia. Qed.
#[local] Opaque ss_get32.

Lemma get32_inj l l' off j : Forall is_u8 l -> Forall is_u8 l' -> ss_get32 l off = ss_get32 l' off -> off <= j <= off + 3 -> getz l j 0 = getz l' j 0.
Proof.
  intros Hl Hl' E Hj. rewrite !get32_le in E by done.
  assert (Hu : forall x, Forall is_u8 x -> Forall is_u8 [getz x off 0; getz x (off + 1) 0; getz x (off + 2) 0; getz x (off + 3) 0]).
  { intros x Hx. repeat (constructor; [by apply (getz_Forall is_u8)|]). constructor. }
  pose proof (le_of_le _ (Hu l Hl)) as E1. pose proof (le_of_le _ (Hu l' Hl')) as E2. cbn [length] in E1, E2. rewrite E in E1. rewrite E1 in E2. injection E2 as A B C D.
  assert (j = off \/ j = off + 1 \/ j = off + 2 \/ j = off + 3) as [-> |[-> |[-> | ->]]] by lia; congruence.
Qed.

(** One byte wrong, or bytes missing at the end. *)
Definition damaged (img img' : list Z) : Prop :=
  (exists pre b post b', img = pre ++ b :: post /\ img' = pre ++ b' :: post /\ b <> b' /\ is_u8 b') \/
  (exists k, img' = take k img /\ (k < length img)%nat).

Lemma image_bytes s : stop_ok s -> Forall is_u8 (file_image s).
Proof.
  intros Hs. rewrite image_split, put32_le. apply list.Forall_app. split; [repeat (constructor; [done|]); constructor|].
  apply list.Forall_app. split; [apply le_bytes|by apply body_bytes].
Qed.

Lemma image_crc s : stop_ok s -> ss_get32 (file_image s) 4 = ss_crc32 (file_body s).
Proof. intros Hs. rewrite image_split. change 4 with (lenz ss_file_magic). apply get32_put. by apply crc_u32. Qed.

Lemma wrong_byte_bad s pre b post b' : stop_ok s -> file_image s = pre ++ b :: post -> b <> b' -> is_u8 b' -> file_bad (pre ++ b' :: post) = true.
Proof.
  intros Hs E Hne Hb'. apply not_false_iff_true. intros Hok. unfold file_bad in Hok. repeat apply orb_false_iff in Hok as [Hok ?].
  match goal with Hc : negb (ss_get32 _ _ =? _) = false |- _ => apply negb_false_iff, Z.eqb_eq in Hc; rename Hc into Hcrc end.
  match goal with Hc : negb (ss_eq _ _) = false |- _ => apply negb_false_iff, bool_decide_eq_true in Hc; rename Hc into Hmagic end.
  pose proof (image_bytes s Hs) as Hb. rewrite E in Hb. pose proof (image_crc s Hs) as Hgood. pose proof (body_bytes s Hs) as [Hbody _].
  assert (Hbody' : file_body s = drop 8 (pre ++ b :: post)) by (rewrite <- E; reflexivity). rewrite Hbody', E in Hgood. rewrite Hbody' in Hbody.
  assert (Hb2 : Forall is_u8 (pre ++ b' :: post)).
  { apply list.Forall_app in Hb as [Ha Hc]. apply list.Forall_cons in Hc as [_ Hc]. apply list.Forall_app. split; [done|by constructor]. }
  assert (Hm : take 4 (pre ++ b :: post) = ss_file_magic) by (rewrite <- E; reflexivity).
  destruct (decide (length pre < 4)%nat) as [H4|H4].
  - assert (E1 : Some b = Some b'); [|congruence]. rewrite <- (list_lookup_middle pre post b (length pre)), <- (list_lookup_middle pre post b' (length pre)) by done.
    rewrite <- (lookup_take_lt _ 4 (length pre)) by lia. rewrite <- (lookup_take_lt (pre ++ b' :: post) 4 (length pre)) by lia. by rewrite Hm, Hmagic.
  - destruct (decide (length pre < 8)%nat) as [H8|H8].
    + assert (Ed : drop 8 (pre ++ b' :: post) = drop 8 (pre ++ b :: post)).
      { rewrite !drop_app_ge by lia. destruct (8 - length pre)%nat eqn:E8; [lia|]. done. }
      rewrite Ed, <- Hgood in Hcrc. pose proof (get32_inj _ _ 4 (lenz pre) Hb2 Hb Hcrc ltac:(unfold lenz; lia)) as E1. by rewrite !getz_mid in E1.
    + assert (Eg : ss_get32 (pre ++ b' :: post) 4 = ss_get32 (pre ++ b :: post) 4) by (apply get32_ext; intros j Hj; apply getz_mid_ne; unfold lenz; lia).
      rewrite Eg, Hgood in Hcrc. rewrite (drop_app_le _ _ 8) in Hcrc, Hbody by lia. rewrite (drop_app_le _ (b' :: post) 8) in Hcrc by lia.
      rewrite !ss_crc_of in Hcrc.
      * apply Hne. apply (crc_of_one_byte 0xEDB88320) with (pre := drop 8 pre) (post := post); done.
      * apply list.Forall_app in Hbody as [Ha Hc]. apply list.Forall_cons in Hc as [_ Hc]. apply list.Forall_app. split; [done|by constructor].
      * done.
Qed.

Lemma short_bad s k : stop_ok s -> (k < length (file_image s))%nat -> file_bad (take k (file_image s)) = true.
Proof.
  intros Hs Hk. apply not_false_iff_true. intros Hok. unfold file_bad in Hok. repeat apply orb_false_iff in Hok as [Hok ?].
  match goal with Hc : negb (_ =? u32 _) = false |- _ => apply negb_false_iff, Z.eqb_eq in Hc; rename Hc into Hlen end.
  apply Z.ltb_ge in Hok. change SS_HDR_LEN with 128 in *. rewrite (proj2 (Z.leb_le 128 _)) in Hlen by lia.
  assert (El : lenz (take k (file_image s)) = Z.of_nat k) by (unfold lenz; rewrite length_take; lia). rewrite El in *.
  assert (E16 : getz (take k (file_image s)) 16 0 = getz (file_image s) 16 0).
  { destruct (lookup_lt_is_Some_2 (file_image s) 16 ltac:(lia)) as [x Hx]. change 16 with (Z.of_nat 16). rewrite (getz_nat (file_image s) 16 x) by done.
    apply getz_nat. by rewrite lookup_take_lt by lia. }
  pose proof (image_len s Hs) as Hl. pose proof (so_few _ (sk_signed s Hs)) as Hf. pose proof (lenz_nonneg (ss_keys (sgn s))).
  rewrite E16, image_count in Hlen by done. unfold SWARM_STOP_KEYS_MAX in Hf. change ED25519_PUBLIC_KEY_LEN with 32 in Hlen.
  rewrite (u32_small (lenz (ss_keys _))) in Hlen by (unfold is_u32; lia). rewrite u32_small in Hlen by (unfold is_u32; lia). unfold lenz in Hl at 1. lia.
Qed.

(** C38: a damaged state file stops the node. Whatever single byte of a file the
    node wrote is wrong at boot, or wherever the file is cut off, the restore
    refuses it as a whole: the node starts stopped, with the state it had before,
    and a line of the console lifts that stop. *)
Theorem damaged_file_stops (s s0 : stop) (d : flat) (img : list Z) (Hs : stop_ok s) (Hd : damaged (file_image s) img) (Ho : on_disk d img) :
  swarm_stop_restore [] (s0, d) = (with_local true s0, d) /\ swarm_stop_is_stopped (fst (swarm_stop_restore [] (s0, d))) = true.
Proof.
  assert (Hbad : file_bad img = true).
  { destruct Hd as [(pre & b & post & b' & E & -> & Hne & Hb')|(k & -> & Hk)]; [by apply (wrong_byte_bad s pre b post b')|by apply short_bad]. }
  assert (Hl : lenz img <= SS_FILE_MAX).
  { pose proof (image_fits s Hs) as Hf. destruct Hd as [(pre & b & post & b' & E & -> & _)|(k & -> & Hk)]; unfold lenz in *.
    - rewrite E in Hf. rewrite length_app in *. cbn [length] in *. lia.
    - rewrite length_take. lia. }
  assert (E : swarm_stop_restore [] (s0, d) = (with_local true s0, d)) by (unfold swarm_stop_restore; by rewrite (on_disk_read d img Ho Hl), Hbad).
  rewrite E. split; [done|]. unfold swarm_stop_is_stopped. cbn [fst with_local ss_local sgn]. apply orb_true_r.
Qed.

(** ** Types *)

Lemma accepted_ok g cmd : signed_ok g -> Forall is_u8 cmd -> signed_ok (accepted g cmd).
Proof.
  intros [Hk Hf He] Hb. split; [done|done|]. cbn [accepted ss_epoch]. unfold cmd_epoch.
  rewrite le_word by (by apply (getz_Forall is_u8)).
  assert (Hu : Forall is_u8 [getz cmd 8 0; getz cmd 9 0; getz cmd 10 0; getz cmd 11 0]) by (repeat (constructor; [by apply (getz_Forall is_u8)|]); constructor).
  exact (of_le_range _ Hu).
Qed.

Lemma hex_pairs_bytes a : Forall is_u8 (fst (hex_pairs a)) /\ (length (fst (hex_pairs a)) <= length a / 2)%nat /\
  (snd (hex_pairs a) = true -> length (fst (hex_pairs a)) = (length a / 2)%nat).
Proof.
  assert (Hgen : forall n a, (length a <= n)%nat -> Forall is_u8 (fst (hex_pairs a)) /\ (length (fst (hex_pairs a)) <= length a / 2)%nat /\
    (snd (hex_pairs a) = true -> length (fst (hex_pairs a)) = (length a / 2)%nat)); [|by apply (Hgen (length a))].
  induction n as [|n IH]; intros x Hx.
  - destruct x; [|cbn in Hx; lia]. by split_and!; [constructor| |].
  - destruct x as [|h [|l r]]; [by split_and!; [constructor| |]..|]. cbn [hex_pairs]. destruct (_ || _); [split_and!; [constructor|cbn; lia|done]|].
    cbn [length] in Hx. destruct (IH r ltac:(lia)) as (Hb & Hl & Ho). destruct (hex_pairs r) as [bs ok]. cbn [fst snd length] in *.
    assert (E : (S (S (length r)) / 2 = S (length r / 2))%nat) by (change (S (S (length r))) with (2 + length r)%nat; rewrite <- (Nat.div_add_l 1 2) by lia; f_equal; lia).
    rewrite E. split_and!; [constructor; [apply u8_range|done]|lia|intros Hok; by rewrite Ho].
Qed.

Lemma unhex_spec a max : let '(r, bs) := ss_unhex a max in
  Forall is_u8 bs /\ (r = -1 \/ r = lenz bs) /\ r <= Z.max 0 max /\ lenz bs <= Z.max 0 max.
Proof.
  assert (Hnone : Forall is_u8 (@nil Z) /\ (-1 = -1 \/ -1 = lenz (@nil Z)) /\ -1 <= Z.max 0 max /\ lenz (@nil Z) <= Z.max 0 max).
  { split; [constructor|]. split; [by left|]. unfold lenz. cbn [length]. lia. }
  unfold ss_unhex. destruct (negb _); [exact Hnone|]. destruct (Z.ltb_spec max (lenz a / 2)); [exact Hnone|].
  destruct (hex_pairs_bytes a) as (Hb & Hl & Ho). destruct (hex_pairs a) as [bs ok]. cbn [fst snd] in *.
  assert (Ha : lenz a / 2 = Z.of_nat (length a / 2)) by (unfold lenz; by rewrite Nat2Z.inj_div).
  destruct ok; (split; [done|]); unfold lenz in *; [specialize (Ho eq_refl)|]; lia.
Qed.

Lemma key_rows_ok n img : Forall is_u8 img -> (32 * n <= length img)%nat -> Forall (fun k => length k = 32%nat /\ Forall is_u8 k) (key_rows n img).
Proof.
  revert img. induction n as [|n IH]; intros img Hb Hl; [constructor|]. cbn [key_rows]. constructor.
  - split; [rewrite length_take; lia|by apply list.Forall_take].
  - apply IH; [by apply list.Forall_drop|rewrite length_drop; lia].
Qed.

Lemma key_rows_length n img : length (key_rows n img) = n.
Proof. revert img. induction n as [|n IH]; intros img; [done|]. cbn [key_rows length]. by rewrite IH. Qed.

Lemma persist_fields sd : exists b, fst (ss_persist sd) = with_save_bad b (fst sd).
Proof.
  destruct sd as [s d]. unfold ss_persist. assert (E : s = with_save_bad (ss_save_bad s) s) by (by destruct s). destruct (ss_quiet s); [by exists (ss_save_bad s)|].
  destruct (pfs_dur_write _ _ _) as [ok d']. destruct (_ && _); [by exists true|by exists (ss_save_bad s)].
Qed.

Lemma persist_ok sd : stop_ok (fst sd) -> stop_ok (fst (ss_persist sd)).
Proof. intros [Ha Hb Hc Hd]. destruct (persist_fields sd) as [b ->]. by split. Qed.
Lemma status_ok sd : stop_ok (fst sd) -> stop_ok (fst (ss_status sd)).
Proof. intros [Ha Hb Hc Hd]. by split. Qed.
Lemma with_signed_ok g s : signed_ok g -> stop_ok s -> stop_ok (with_signed g s).
Proof. intros Hg [Ha Hb Hc Hd]. by split. Qed.
Lemma forward_ok cmd g s : stop_ok s -> signed_ok g -> Forall is_u8 cmd -> (108 <= length cmd)%nat -> stop_ok (with_fw (ss_forward cmd (fw (with_signed g s))) (with_signed g s)).
Proof.
  intros [Ha Hb Hc Hd] Hg Hcmd Hl. split; [done| |done|done]. cbn [fw with_fw ss_forward ss_fwd]. split; [rewrite length_take; lia|by apply list.Forall_take].
Qed.

Lemma key_add_ok pk g : length pk = 32%nat -> Forall is_u8 pk -> signed_ok g -> signed_ok (snd (swarm_stop_key_add pk g)).
Proof.
  intros Hl Hb [Hk Hf He]. unfold swarm_stop_key_add. destruct (ss_known _ _); [done|]. destruct (Z.leb_spec SWARM_STOP_KEYS_MAX (lenz (ss_keys g))); [done|].
  split; cbn [snd ss_keys ss_epoch]; [|unfold lenz in *; rewrite length_app; cbn [length]; lia|done].
  apply list.Forall_app. split; [done|]. by constructor.
Qed.

Lemma line_ok a s d : stop_ok s -> stop_ok (fst (swarm_stop_cmd a (s, d))).
Proof.
  intros Hs. pose proof Hs as [Hg Hf Ht (Hi & Hib & Hil)]. unfold swarm_stop_cmd. destruct (ss_word a) as [w rest].
  destruct (_ || _); [by apply status_ok|]. destruct (ss_is w kw_test); [done|].
  destruct (ss_is w kw_now); [apply status_ok, persist_ok; by split|]. destruct (ss_is w kw_resume); [apply status_ok, persist_ok; by split|].
  destruct (ss_is w kw_key).
  { unfold cmd_key. destruct (ss_word rest) as [h r]. destruct (ss_is h kw_clear).
    - apply status_ok, persist_ok, with_signed_ok; [|done]. destruct Hg. split; unfold swarm_stop_key_clear; cbn [ss_keys ss_epoch]; [constructor|done|done].
    - destruct (negb _); [done|]. pose proof (unhex_spec h ED25519_PUBLIC_KEY_LEN) as Hu. destruct (ss_unhex h ED25519_PUBLIC_KEY_LEN) as [k pk]. destruct Hu as (Hb & Hr & _).
      destruct (Z.eqb_spec k ED25519_PUBLIC_KEY_LEN) as [->|]; cbn [negb]; [|done]. change ED25519_PUBLIC_KEY_LEN with 32 in Hr.
      pose proof (key_add_ok pk (sgn s) ltac:(unfold lenz in Hr; lia) Hb Hg) as Hg'. destruct (swarm_stop_key_add pk (sgn s)) as [q g]. cbn [snd] in Hg'.
      apply status_ok. destruct (q =? 0); [|apply persist_ok]; by apply with_signed_ok. }
  destruct (ss_is w kw_in).
  { unfold cmd_in. destruct (ss_word rest) as [h r]. change SWARM_STOP_CMD_LEN with 108 in *. rewrite u32_small by (unfold is_u32; lia).
    pose proof (unhex_spec h (108 - ss_inl (ent s))) as Hu. destruct (ss_unhex h (108 - ss_inl (ent s))) as [got bs]. destruct Hu as (Hb & Hr & Hm & Hlb).
    assert (Hbuf : length (blit (ss_in (ent s)) (ss_inl (ent s)) bs) = 108%nat /\ Forall is_u8 (blit (ss_in (ent s)) (ss_inl (ent s)) bs)).
    { unfold blit. split.
      - rewrite !length_app, length_take, length_drop. unfold lenz in *. lia.
      - rewrite !list.Forall_app. split_and!; [by apply list.Forall_take|done|by apply list.Forall_drop]. }
    destruct (Z.ltb_spec got 0); (split; [done|done|done|]); cbn [fst ent with_ent ss_in ss_inl]; [by destruct Hbuf|].
    rewrite u32_small by (unfold is_u32; lia). destruct Hbuf. change SWARM_STOP_CMD_LEN with 108. split_and!; [done|done|lia|lia]. }
  destruct (ss_is w kw_apply); [|done]. unfold cmd_apply. destruct (ss_in_bad (ent s)).
  { change (SWARM_STOP_E_HEAD =? SWARM_STOP_OK) with false. cbv iota. apply status_ok. by split. }
  assert (Hent : forall x, stop_ok x -> ent x = ent s -> stop_ok (with_ent (Entry (ss_in (ent s)) 0 false) x)).
  { intros x [Xa Xb Xc Xd] Ex. split; [done|done|done|]. cbn [ent with_ent ss_in ss_inl]. done. }
  destruct (apply_cases (sgn s) (ss_in (ent s)) (ss_inl (ent s))) as [(E & El & Hgen & He)|(e & E & He & _)]; rewrite E.
  - change (SWARM_STOP_OK =? SWARM_STOP_OK) with true. cbv iota.
    pose proof (persist_ok (with_fw (ss_forward (ss_in (ent s)) (fw (with_signed (accepted (sgn s) (ss_in (ent s))) s))) (with_signed (accepted (sgn s) (ss_in (ent s))) s), d)) as Hp.
    destruct (persist_signed (with_fw (ss_forward (ss_in (ent s)) (fw (with_signed (accepted (sgn s) (ss_in (ent s))) s))) (with_signed (accepted (sgn s) (ss_in (ent s))) s), d)) as (_ & _ & _ & Eent).
    destruct (ss_persist _) as [s1 d1]. cbn [fst] in *. apply status_ok. apply Hent; [|exact Eent]. apply Hp. apply forward_ok; [done|by apply accepted_ok|done|lia].
  - rewrite (proj2 (Z.eqb_neq e SWARM_STOP_OK)) by (unfold SWARM_STOP_OK; lia). apply status_ok. apply Hent; [by apply with_signed_ok|done].
Qed.

(** What an event may carry: bytes. *)
Definition event_ok (e : event) : Prop :=
  match e with Line a => True | Tick i => match received i with Some bs => Forall is_u8 bs | None => True end end.

Lemma send_ok s : stop_ok s -> stop_ok (fst (tick_send s)).
Proof.
  intros [Ha Hb Hc Hd]. unfold tick_send, SS_REDRIVE_TICKS in *. destruct (negb _); [done|]. rewrite u32_small by (unfold is_u32; lia).
  destruct (Z.ltb_spec (ss_ticks (fw s) + 1) 4); (split; [done|done| |done]); cbn [fst fw with_fw ss_ticks]; unfold SS_REDRIVE_TICKS; lia.
Qed.

Lemma tick_ok i s d : stop_ok s -> event_ok (Tick i) -> stop_ok (fst (fst (swarm_stop_net_tick i (s, d)))).
Proof.
  intros Hs Hev. unfold swarm_stop_net_tick. set (s1 := with_fw (tick_open i (fw s)) s).
  assert (Hs1 : stop_ok s1) by (destruct Hs as [Ha Hb Hc Hd]; by split).
  assert (Hrest : forall sd, stop_ok (fst sd) -> stop_ok (fst (fst (let '(s, d) := sd in let '(s2, p) := tick_send s in (s2, d : flat, p))))).
  { intros [x y] Hx. pose proof (send_ok x Hx) as H2. by destruct (tick_send x). }
  apply Hrest. destruct (0 <=? ss_sub (fw s1)); [|done]. cbn [event_ok] in Hev. destruct (received i) as [bs|]; [|done].
  unfold tick_recv. destruct (apply_cases (sgn s1) bs (lenz bs)) as [(E & El & Hg & He)|(e & E & He & _)]; rewrite E.
  - change (SWARM_STOP_OK =? SWARM_STOP_OK) with true. cbv iota. apply status_ok, persist_ok. apply forward_ok; [done|apply accepted_ok; [by apply sk_signed|done]|done|].
    unfold lenz in El. change SWARM_STOP_CMD_LEN with 108 in El. lia.
  - rewrite (proj2 (Z.eqb_neq e SWARM_STOP_OK)) by (unfold SWARM_STOP_OK; lia). destruct Hs1 as [Ha Hb Hc Hd]. destruct (_ && _); by split.
Qed.

Lemma happen_ok e sd : stop_ok (fst sd) -> event_ok e -> stop_ok (fst (fst (happen e sd))).
Proof. destruct sd as [s d], e as [a|i]; intros Hs He; [by apply line_ok|by apply tick_ok]. Qed.

Lemma restored_ok img s : file_bad img = false -> Forall is_u8 img -> stop_ok s ->
  let f := fw s in
  stop_ok (Stop (Signed (key_rows (Z.to_nat (getz img 16 0)) (drop (Z.to_nat SS_HDR_LEN) img)) (negb (getz img 9 0 =? 0)) (ss_get32 img 12))
    (negb (getz img 10 0 =? 0)) (Forward (ss_pub f) (ss_sub f) (fwd_part img) (negb (getz img 11 0 =? 0)) (ss_ticks f) (ss_refused_epoch f))
    (ent s) (ss_quiet s) (ss_save_bad s)).
Proof.
  intros Hok Hb [Ha Hf Ht He]. cbv zeta. unfold file_bad in Hok. repeat apply orb_false_iff in Hok as [Hok ?].
  match goal with Hc : negb (_ =? u32 _) = false |- _ => apply negb_false_iff, Z.eqb_eq in Hc; rename Hc into Hlen end.
  match goal with Hc : (SWARM_STOP_KEYS_MAX <? _) = false |- _ => apply Z.ltb_ge in Hc; rename Hc into Hmax end.
  apply Z.ltb_ge in Hok. rewrite (proj2 (Z.leb_le _ _) Hok) in *. change SS_HDR_LEN with 128 in *. change SWARM_STOP_KEYS_MAX with 4 in *. change ED25519_PUBLIC_KEY_LEN with 32 in Hlen.
  assert (Hn : is_u8 (getz img 16 0)) by (by apply (getz_Forall is_u8)). unfold is_u8 in Hn.
  rewrite (u32_small (getz img 16 0)), u32_small in Hlen by (unfold is_u32; lia). split; cbn [sgn fw ent ss_fwd ss_ticks]; [|split|done|done].
  - split; cbn [ss_keys ss_epoch].
    + apply key_rows_ok; [by apply list.Forall_drop|]. rewrite length_drop. unfold lenz in Hlen. lia.
    + unfold lenz. rewrite key_rows_length. unfold SWARM_STOP_KEYS_MAX. lia.
    + rewrite get32_le by done. assert (Hu : Forall is_u8 [getz img 12 0; getz img (12 + 1) 0; getz img (12 + 2) 0; getz img (12 + 3) 0]).
      { repeat (constructor; [by apply (getz_Forall is_u8)|]). constructor. }
      exact (of_le_range _ Hu).
  - unfold fwd_part. rewrite length_take, length_drop. change (Z.to_nat SWARM_STOP_CMD_LEN) with 108%nat. unfold lenz in Hok. lia.
  - by apply list.Forall_take, list.Forall_drop.
Qed.

Lemma stop0_ok : stop_ok stop0.
Proof.
  split; [split; [constructor|done|done]| | |]; cbn.
  - split; [done|]. repeat (constructor; [done|]). constructor.
  - done.
  - split; [done|]. split; [repeat (constructor; [done|]); constructor|done].
Qed.

(** The state keeps its types: from the state at boot, restored from whatever
    file of bytes lies in the directory, through every run of console lines and
    ticks with any bytes, the table holds at most four keys of 32 bytes, the epoch
    is a 32-bit word, the command to send on and the entry buffer have their 108
    bytes, and the count of bytes entered stays inside the buffer. *)
Theorem state_typed (d : flat) (results : list Z) (l : list event)
  (Hd : forall x, files d !! SS_FILE = Some x -> Forall is_u8 (content x)) (Hl : Forall event_ok l) :
  stop_ok (fst (after l (swarm_stop_restore results (stop0, d)))).
Proof.
  pose proof stop0_ok as H0.
  assert (Hr : stop_ok (fst (swarm_stop_restore results (stop0, d)))).
  { unfold swarm_stop_restore. pose proof (dur_read_spec results SS_FILE SS_FILE_MAX d ltac:(done)) as Hrd. destruct (dur_read results SS_FILE SS_FILE_MAX d) as [img|]; [|done].
    destruct Hrd as (x & Hx & Ei). assert (Hb : Forall is_u8 img) by (rewrite Ei; apply list.Forall_take; by apply (Hd x)). clear Ei Hx.
    destruct (file_bad img) eqn:Ebad; [destruct H0 as [Ha Hc Ht He]; by split|]. by apply restored_ok. }
  revert Hr. generalize (swarm_stop_restore results (stop0, d)). clear Hd. induction Hl as [|e l He _ IH]; intros sd Hsd; [done|].
  cbn [after fold_left]. apply IH. by apply happen_ok.
Qed.
End facts.

(** ** Instances *)

(** A scheme that accepts every signature. *)
Definition toy_signatures : Signatures := Build_Signatures (fun s => (s, s ++ s)) (fun _ _ _ => (1, replicate 64 1)) (fun _ _ _ => 1).
Definition toy_key : list Z := replicate 32 7.
Definition toy_cmd (op epoch : Z) : list Z := ss_name ++ [1; op; epoch; 0; 0; 0] ++ toy_key ++ replicate 64 1.
Definition toy_node : signed := Signed [toy_key] false 0.

Lemma toy_proper op e : op = 1 \/ op = 2 -> proper (H := toy_signatures) [toy_key] (toy_cmd op e).
Proof. intros Hop. split; [reflexivity|]. split; [split; reflexivity|exact Hop|by apply list_elem_of_here|discriminate]. Qed.

Lemma stop_converges_witness :
  apply_all (H := toy_signatures) [toy_cmd 1 5; toy_cmd 2 6] toy_node = apply_all (H := toy_signatures) [toy_cmd 2 6; [0]; toy_cmd 1 5; toy_cmd 2 6] toy_node /\
  apply_all (H := toy_signatures) [toy_cmd 1 5; toy_cmd 2 6] toy_node = Signed [toy_key] false 6.
Proof.
  assert (Hin : forall c, c ∈ [toy_cmd 1 5; toy_cmd 2 6] -> c = toy_cmd 1 5 \/ c = toy_cmd 2 6).
  { intros c Hc. apply elem_of_cons in Hc as [->|Hc]; [by left|]. apply elem_of_cons in Hc as [->|Hc]; [by right|]. by apply elem_of_nil in Hc. }
  destruct (stop_converges (H := toy_signatures) toy_node [toy_cmd 1 5; toy_cmd 2 6] [toy_cmd 2 6; [0]; toy_cmd 1 5; toy_cmd 2 6]) as [E Hmax].
  - intros c [Hl _]. split; intros Hc.
    + destruct (Hin c Hc) as [->| ->]; [do 2 apply list_elem_of_further; apply list_elem_of_here|apply list_elem_of_here].
    + apply elem_of_cons in Hc as [->|Hc]; [apply list_elem_of_further, list_elem_of_here|]. apply elem_of_cons in Hc as [->|Hc]; [discriminate Hl|].
      apply elem_of_cons in Hc as [->|Hc]; [apply list_elem_of_here|]. apply elem_of_cons in Hc as [->|Hc]; [apply list_elem_of_further, list_elem_of_here|]. by apply elem_of_nil in Hc.
  - intros c c' Hc Hc' _ _ E. destruct (Hin c Hc) as [->| ->], (Hin c' Hc') as [->| ->]; (reflexivity || discriminate E).
  - split; [exact E|]. apply (Hmax (toy_cmd 2 6)); [apply list_elem_of_further, list_elem_of_here|apply toy_proper; by right|reflexivity|].
    intros c' Hc' _. destruct (Hin c' Hc') as [->| ->]; discriminate.
Defined.

Definition toy_carrier : stop := Stop (accepted toy_node (toy_cmd 1 5)) false (Forward 3 4 (toy_cmd 1 5) true 0 0) (ent stop0) false false.
Definition no_disk : flat := Flat None false ∅ [].

Lemma stop_floods_witness :
  let quiet := TickIn 3 4 None in let node := Stop toy_node false forward0 (ent stop0) false false in
  Some (toy_cmd 1 5) ∈ published (H := toy_signatures) [quiet; quiet; quiet; quiet] (toy_carrier, no_disk) /\
  (let '(nodes, q) := relayed (H := toy_signatures) (Some (toy_cmd 1 5)) [(node, no_disk); (node, no_disk)] in
   q = Some (toy_cmd 1 5) /\ Forall2 (fun sd sd' : stop * flat => sgn (fst sd') = accepted (sgn (fst sd)) (toy_cmd 1 5) /\ carries (fst sd') (toy_cmd 1 5)) [(node, no_disk); (node, no_disk)] nodes).
Proof.
  cbv zeta. destruct (stop_floods (H := toy_signatures) toy_carrier no_disk (toy_cmd 1 5) [TickIn 3 4 None; TickIn 3 4 None; TickIn 3 4 None; TickIn 3 4 None]
    [(Stop toy_node false forward0 (ent stop0) false false, no_disk); (Stop toy_node false forward0 (ent stop0) false false, no_disk)]) as [[Hp _] Hr].
  - split; [reflexivity|]. split; [reflexivity|]. split; [discriminate|split; discriminate].
  - repeat constructor.
  - reflexivity.
  - assert (Hn : news (H := toy_signatures) (toy_cmd 1 5) (Stop toy_node false forward0 (ent stop0) false false, no_disk)) by (split; [apply (toy_proper 1 5); by left|reflexivity]).
    constructor; [exact Hn|constructor; [exact Hn|constructor]].
  - split; [exact Hp|exact Hr].
Defined.

Lemma stop_kept_witness :
  let d' := snd (ss_persist (stop0, one_dir)) in
  swarm_stop_restore [] (stop0, d') = (stop0, d').
Proof. apply (stop_kept stop0 one_dir stop0_ok); [reflexivity|vm_compute; reflexivity]. Defined.

Definition cut_dir : flat := Flat (Some [47; 100]) false {[ SS_FILE := File (take 10 (file_image stop0)) true ]} [].

Lemma damaged_file_stops_witness :
  swarm_stop_restore [] (stop0, cut_dir) = (with_local true stop0, cut_dir) /\ swarm_stop_is_stopped (fst (swarm_stop_restore [] (stop0, cut_dir))) = true.
Proof.
  apply (damaged_file_stops stop0 stop0 cut_dir (take 10 (file_image stop0)) stop0_ok).
  - right. exists 10%nat. split; [reflexivity|]. apply Nat.ltb_lt. reflexivity.
  - exists [47; 100], (File (take 10 (file_image stop0)) true). split; [reflexivity|]. split; [reflexivity|]. split; [apply lookup_singleton_eq|reflexivity].
Defined.

Lemma state_typed_witness :
  stop_ok (fst (after (H := toy_signatures) [Line kw_now; Tick (TickIn 1 1 (Some (toy_cmd 1 5)))] (swarm_stop_restore [] (stop0, one_dir)))).
Proof.
  apply (state_typed (H := toy_signatures) one_dir []).
  - intros x Hx. discriminate Hx.
  - constructor; [exact Logic.I|]. constructor; [|constructor]. cbn [event_ok received]. apply (bool_decide_unpack _). vm_compute. exact Logic.I.
Defined.
